(* ===== verification/_CoqProject ===== *)
-Q . S2P
Prelude.v
Sorts.v
Maps.v
Orders.v
Codec.v
TorrentRequest.v
Journal.v
Paths.v
Metadata.v
MetadataCodec.v
MetadataRoundtrip.v
MetadataDelta.v
MetadataDeltaProofs.v
MetadataDeltaCodec.v
MetadataMerge.v
MetadataMergeProofs.v
MetadataMergeClaims.v
MetadataAuthors.v
MetadataAuthorsClaims.v
NamespaceTree.v
NamespaceView.v
NamespaceUpdate.v
NamespaceNodes.v
NamespaceReads.v
NamespaceViewProofs.v
NamespaceScan.v
NamespaceForms.v
NamespaceWorking.v
NamespaceClaims.v
NamespaceChanges.v
NamespaceSplice.v
NamespaceLevels.v
NamespaceUpdateClaims.v
NamespaceReach.v
NamespaceReachProofs.v
NamespaceDiff.v
NamespaceNodesDiff.v
NamespaceReachClaims.v
NamespaceMerge.v
NamespaceMergeProofs.v
NamespaceMergeClaims.v
Filesystem.v
FilesystemPaths.v
FilesystemProofs.v
FilesystemTree.v
FilesystemBatches.v
FilesystemClaims.v
FileContent.v
FileClaims.v
Placement.v
PlacementProofs.v
PlacementClaims.v
Trie.v
ObjectTrie.v
TrieCache.v
TrieShape.v
TrieHash.v
TrieOps.v
TrieDiff.v
TrieUnion.v
TrieChange.v
TrieDisk.v
TrieWire.v
TrieLedger.v
TrieClaims.v
Retention.v
RetentionSet.v
RetentionStore.v
RetentionScan.v
RetentionClaims.v
HeldLedger.v
ReferenceCounts.v
UnreferencedSince.v
ClaimLocks.v
TrieSources.v
