(* ===== verification/Prelude.v ===== *)
(** * Macha: a verification development of the node's core

    Macha ([src/README.md]) is a media server whose library is stored by a
    cluster of nodes. Every node keeps content-addressed objects on its disks,
    ledgers of what it holds and of what must be kept, and a replica of the
    metadata that names them. This development models the part of a node that
    decides what is stored where, what may be deleted and what a node believes
    after a crash, from the C++ under [src/src], and proves it right.

    ** The parts and how they interact

    - Bytes. Everything on disk and on the wire goes through [Writer] and
      [Reader] ([codec.cpp]); ids are arrays of bytes ([types.cpp]).
      [Codec] models them. [Prelude] has the effects (results that return or
      throw, methods over a state), machine integers, byte arrays, key orders
      and sorted lists; [Orders] the orders [operator<=>] gives; [Maps]
      [std::map] as a sorted list; [Sorts] what [std::sort] promises.
    - Journals. [storage/sealed_journal.cpp], in [Journal]: an append-only
      file of AES-GCM frames, replayed up to its first torn frame. Ledgers
      and logs are built on it.
    - The object trie. [ledger/object_trie.cpp], in [Trie] (nodes, their
      encoding and the operations) and [ObjectTrie] (the class: journal, node
      file, published root, checkpoint, snapshots). [TrieShape], [TrieOps],
      [TrieChange], [TrieDisk], [TrieCache] and [TrieHash] prove the
      operations right; [TrieLedger] relates the class to a map from ids to
      values; [TrieClaims] has its theorems.
    - Comparing tries. [ledger/trie_diff.cpp] in [TrieDiff] and [TrieWire],
      [ledger/trie_union.cpp] in [TrieUnion]: which ids two tries differ at,
      which records of one no other holds, and several tries read as one.
      Both work against what a side answers; [TrieSources] shows that
      snapshots, unions and peers keep that promise and has the theorems.
    - Ledgers on tries. The claims on objects ([storage/retention.cpp]):
      [Retention], [RetentionSet], [RetentionStore], [RetentionScan],
      [RetentionClaims]. The objects a store holds ([ledger/held_ledger.cpp]):
      [HeldLedger]. What the namespace refers to ([ledger/reference_counts.cpp]):
      [ReferenceCounts]. When an object was first seen unreferenced
      ([storage/unreferenced_since.cpp]): [UnreferencedSince].
    - Claims against deletes. [contract/claim_store.hpp] and two requests of
      [cluster/storage_server.cpp], in [ClaimLocks], as threads that
      interleave.
    - Placement. [cluster/placement.cpp], in [Placement], [PlacementProofs]
      and [PlacementClaims]: which nodes own an object.
    - Metadata. [metadata/metadata.cpp]: [Metadata] has the snapshot and its
      records, [MetadataCodec] and [MetadataRoundtrip] the encoding,
      [MetadataDelta], [MetadataDeltaProofs] and [MetadataDeltaCodec] the
      delta between two snapshots, its application and its encoding; [Paths]
      the normal form of paths; [TorrentRequest]
      ([torrent/torrent_request.cpp]) the merge of torrent requests.
      [metadata/metadata_merge.cpp], the merge of two heads, is
      [MetadataMerge], [MetadataMergeProofs] and [MetadataMergeClaims].
    - Authors. The author record of a replica ([MetadataReplica] of
      [metadata/metadata.cpp]), from which the dots of mutations are handed
      out: [MetadataAuthors] and [MetadataAuthorsClaims].
    - The namespace tree. [metadata/namespace_tree.cpp]: [NamespaceTree]
      (nodes, building, reading, lookups, walks), [NamespaceView] (a
      snapshot's namespace in either form, pages, scans, the working set of a
      batch, detaching and attaching), [NamespaceUpdate] (changes applied to
      a tree), [NamespaceReach] (the nodes a tree reaches, statistics, the
      difference of two trees and of their nodes) and [NamespaceMerge] (two
      heads merged from their trees) are the model. [NamespaceNodes] says
      which nodes a build writes, [NamespaceReads] what a store holds under a
      root ([tree_at]) and that readers answer from it; [NamespaceViewProofs],
      [NamespaceScan], [NamespaceForms], [NamespaceWorking] and
      [NamespaceClaims] carry the two forms of a namespace;
      [NamespaceChanges], [NamespaceSplice], [NamespaceLevels] and
      [NamespaceUpdateClaims] the update; [NamespaceReachProofs],
      [NamespaceDiff], [NamespaceNodesDiff] and [NamespaceReachClaims] what
      is reached and what differs; [NamespaceMergeProofs] and
      [NamespaceMergeClaims] the merge.
    - The file system. [filesystem/filesystem.cpp]: [Filesystem] (mutations,
      batches and the group commit over a working set, the public calls,
      handles, the commit of a file) and [FileContent] (reading through a
      handle, truncation). [FilesystemPaths], [FilesystemProofs],
      [FilesystemTree], [FilesystemBatches], [FilesystemClaims] and
      [FileClaims] prove them.

    A commit goes through these in turn: a file system call becomes a
    mutation over the working set of a snapshot, the working set leaves a
    delta, the delta is applied to the snapshot and to its namespace tree,
    and heads that diverged are merged, whole or from their trees. What the
    trees reach is what the claims ledger retains.

    ** State and effects

    A method of a class is a function of type [ST S A]: the object's state in,
    a result or an exception and the state out; what was changed before an
    exception stays changed. A class's members are a record. A file is its
    bytes and how many of them are durable; [fsync] makes them all durable;
    a crash keeps the durable prefix and any part of what was written after
    it. Replacing a file durably is one atomic step. An unsigned integer is a
    [Z] and its wrap-around is written out ([wrap64] and the like).

    ** What the theorems show

    - The trie: applying a batch refines overwriting a map, lookups and pages
      read the map, the root hash is a function of the records, a snapshot is
      not changed by later batches, the node cache stays within its bound;
      what was applied survives every crash, a checkpoint interrupted
      anywhere opens to the same records, a torn batch is all or nothing; of
      replacing every record, what a crash at each stage leaves.
    - Diffs and unions: exactly the differing ids are visited, at a cost that
      follows the difference; a union answers as one trie over its parts.
    - Claims: the claims of an object converge; retaining is durable when it
      returns (for a batch of one log frame, 65,536 ids); releasing picks no
      live object, takes only claims it has observed and stays within its
      budget; pruning drops no claim. With [ClaimLocks]: whatever the
      interleaving, an object with a claim is present, and some request can
      always go on.
    - The other ledgers: seeding loses no change queued meanwhile and a flush
      keeps the order of changes; a change of the reference counts is exact
      or refused, and while it is under way no root is named; an object
      matures only after its grace.
    - Placement: the quotas share out exactly the slots there are, every
      shard gets its copies on distinct entities, owners are in different
      failure domains as far as there are any, every node works out the same,
      a newcomer takes only what becomes its own.
    - Metadata: snapshots and deltas decode to what was encoded; a delta
      applied to the snapshot it was made from gives the snapshot it was made
      to. A merge of two heads keeps a well-formed namespace and never throws
      on two of them, loses no change the other head has not seen of a file
      that was not moved, takes a descendant whole and is the same from
      either side.
    - Authors: no dot is handed out twice, whatever restarts, failed writes
      and recoveries come between (where the author record was lost, if the
      head shows the node's own mutations), and a chain known to be broken is
      not continued, unless a restart came before the next reservation.
    - The namespace tree: detaching and attaching, to any store with the
      nodes, gives the map back; readers answer from a tree as from the map
      (a read without extents up to the extents it hands back all the same);
      an update returns, keeps the
      old tree readable and gives a tree of the changed map; a delta does to a
      tree what it does to a map; the nodes collected for a tree suffice to
      read it, and those collected as changes suffice with the other tree's;
      differences of entries and of nodes are exact; two heads merged from
      their trees are the two heads merged whole, where each head has a file
      identity at one path.
    - The file system: each mutation does what it means on the map of
      entries, or fails with its error and changes nothing; a rename moves
      exactly the subtree; a group of batches refines applying each batch to
      the map, an invalid batch failing alone; a committed file reads as
      written, and a file reads as the content of its extents.
    - Where the code does not do what it means to, a theorem says when (a
      journal after a write that failed half way, a crash while all records
      are replaced, an author restarted after an acceptance), or an example
      shows it on a concrete state (see the findings of the manifest).

    ** Parameters

    OpenSSL is not part of the sources: SHA-256, AES-GCM and the random
    generator are classes ([Sha256], [AesGcm], [Entropy]); what is relied on
    is in [AesGcmSpec] (what was sealed opens, a stream mode keeps the
    length), and where two tries are compared, that no two of the strings
    they hash collide. [NodeCache] charges what a node costs in memory
    (a parameter, [footprint]). Rendezvous and capacity scores are computed in
    [long double] ([Placement], a class with the laws they are used under).
    A store of namespace nodes is a class ([NodeStore]) with its law
    ([AddressedStore]: a node put is got under the hash of its bytes, and
    nothing else is lost); the store in memory is its instance. Applying a
    delta to a tree from [metadata.cpp] is a function passed in, as in the
    source. The file system takes the identities it draws at random, the
    composition of a Unicode name, the clock and the reads and writes of
    objects as arguments. Where roots or nodes are compared, the theorems ask
    that no two of the nodes written have one address ([no_collision]).
    Further hypotheses are on the data: trees of at most 255 levels (a level
    is a byte), heads in which a file identity is at one path, conflicts that
    keep a directory a directory ([type_kept]), random author ids that are new
    among those drawn ([ids_new]).

    ** Fuel

    Recursion over a trie goes down one byte of a 32-byte id a level and takes
    the number of bytes left. A walk of pages takes one more step than the
    limit or the records left allow ([walk_loop] gets [limit + 2],
    [retained_ids] and the prefix loops one more than the size), which
    suffices because every step but the last yields a record; a diff descends
    a level a round, so 33 rounds suffice; [std::to_string] of a 64-bit value
    has at most 20 digits. The recursion of a merge over the directories
    above a path takes one more than the path's length, each parent being
    shorter. Recursion over the nodes of a tree takes its height, the levels of
    the spine and of the highest extent sequence; the loops that update or
    compare trees take 257 steps an entry, since a level is a byte and every
    step opens a node or passes an entry. The theorems that say a method
    returns are proved with these bounds.

    ** Not modelled

    Sockets, TLS, FUSE callbacks, the HTTP API and its JSON, FFmpeg,
    libtorrent, document formats, configuration, logging and timers: they are
    calls into libraries that are not part of the sources, or glue around
    them. The metadata manager and server and the distributed store are
    protocols over that network; of the replica under them the history log,
    the accepted heads and the checkpoint are left out. Of the storage server only the two requests
    that race; of the namespace tree not the walk that also names the nodes
    it reads; of the file system not the staging of writes, the executor
    threads and the media index. The catalogue, playback, acquisition,
    accounts, availability and telemetry are parts of their own: nothing
    modelled here depends on them. Mutexes
    other than the claim locks are taken to make the methods they guard
    atomic. Statistics and log lines change nothing and are left out. *)

From stdpp Require Export base tactics numbers option list sorting gmap strings.
From Stdlib Require Export ZArith Lia.
From Stdlib Require Export Strings.Byte.

Declare Scope macha_scope.
Delimit Scope macha_scope with macha.
Open Scope Z_scope.

(** ** Errors and effects *)

(** The exception types the modelled code throws, with their [what()]. *)
Inductive exn : Type :=
  | DecodeError (what : string)
  | RuntimeError (what : string)
  | LogicError (what : string)
  | LengthError (what : string)
  | InvalidArgument (what : string)
  | OutOfRange (what : string)
  | FsError (code : Z) (what : string)
  (** Not of the program: the bound given to a recursion was too small. *)
  | OutOfFuel.

(** A computation that returns or throws. *)
Inductive result (A : Type) : Type :=
  | Ok (a : A)
  | Throw (e : exn).
Arguments Ok {A} a.
Arguments Throw {A} e.

#[global] Instance result_ret : MRet result := fun A a => Ok a.
#[global] Instance result_bind : MBind result := fun A B f m =>
  match m with Ok a => f a | Throw e => Throw e end.

(** A method of an object: it reads and replaces the object's state, and the
    state reached before an exception is kept. *)
Definition ST (S A : Type) : Type := S -> result A * S.

#[global] Instance st_ret {S} : MRet (ST S) := fun A a s => (Ok a, s).
#[global] Instance st_bind {S} : MBind (ST S) := fun A B f m s =>
  match m s with
  | (Ok a, s') => f a s'
  | (Throw e, s') => (Throw e, s')
  end.

Definition st_get {S} : ST S S := fun s => (Ok s, s).
Definition st_gets {S A} (f : S -> A) : ST S A := fun s => (Ok (f s), s).
Definition st_put {S} (s : S) : ST S unit := fun _ => (Ok tt, s).
Definition st_modify {S} (f : S -> S) : ST S unit := fun s => (Ok tt, f s).
Definition st_throw {S A} (e : exn) : ST S A := fun s => (Throw e, s).
Definition st_lift {S A} (r : result A) : ST S A := fun s => (r, s).

(** A loop over a list whose body is a computation, left to right. *)
Fixpoint foldM {M : Type -> Type} `{MRet M, MBind M} {A B : Type}
    (f : B -> A -> M B) (b : B) (l : list A) : M B :=
  match l with
  | [] => mret b
  | a :: l' => b' ← f b a; foldM f b' l'
  end.

Lemma st_bind_ok {S A B} (m : ST S A) (k : A -> ST S B) s a s' :
  m s = (Ok a, s') -> (m ≫= k) s = k a s'.
Proof. intros H. unfold mbind, st_bind. by rewrite H. Qed.

Lemma st_bind_throw {S A B} (m : ST S A) (k : A -> ST S B) s e s' :
  m s = (Throw e, s') -> (m ≫= k) s = (Throw e, s').
Proof. intros H. unfold mbind, st_bind. by rewrite H. Qed.

Lemma result_bind_Ok {A B} (m : result A) (k : A -> result B) b :
  m ≫= k = Ok b <-> exists a, m = Ok a /\ k a = Ok b.
Proof.
  destruct m as [a|e]; simpl; split.
  - intros H. by exists a.
  - intros (a' & [= ->] & H). done.
  - done.
  - intros (a' & [=] & _).
Qed.

Lemma foldM_app {A B} (f : B -> A -> result B) b l1 l2 :
  foldM f b (l1 ++ l2) = foldM f b l1 ≫= fun b' => foldM f b' l2.
Proof.
  revert b; induction l1 as [|a l1 IH]; intros b; simpl; [done|].
  destruct (f b a); simpl; [apply IH | done].
Qed.

(** [keeps P m]: the method leaves [P] true of the object, thrown or not. *)
Definition keeps {S A} (P : S -> Prop) (m : ST S A) : Prop :=
  forall s r s', P s -> m s = (r, s') -> P s'.

Section keeps.
Context {S : Type} (P : S -> Prop).

Lemma keeps_ret {A} (a : A) : keeps P (mret a).
Proof. by intros s r s' Hs [= <- <-]. Qed.
Lemma keeps_throw {A} e : keeps P (st_throw (A := A) e).
Proof. by intros s r s' Hs [= <- <-]. Qed.
Lemma keeps_lift {A} (x : result A) : keeps P (st_lift x).
Proof. by intros s r s' Hs [= <- <-]. Qed.
Lemma keeps_gets {A} (f : S -> A) : keeps P (st_gets f).
Proof. by intros s r s' Hs [= <- <-]. Qed.
Lemma keeps_bind {A B} (m : ST S A) (k : A -> ST S B) :
  keeps P m -> (forall a, keeps P (k a)) -> keeps P (m ≫= k).
Proof.
  intros Hm Hk s r s' Hs. unfold mbind, st_bind.
  destruct (m s) as [[a|e] s1] eqn:E; intros E'; [by eapply Hk; [eapply Hm|]|].
  injection E' as <- <-. by eapply Hm.
Qed.
Lemma keeps_foldM {A B} (f : B -> A -> ST S B) b l :
  (forall b a, keeps P (f b a)) -> keeps P (foldM f b l).
Proof.
  intros Hf. revert b. induction l as [|a l IH]; intros b; simpl; [apply keeps_ret|].
  by apply keeps_bind.
Qed.
End keeps.

Create HintDb keeps discriminated.
#[export] Hint Resolve keeps_ret keeps_throw keeps_lift keeps_gets keeps_bind keeps_foldM : keeps.

(** [simp_bind H] splits a hypothesis that a chain of binds returned. *)
Ltac simp_bind H :=
  repeat match type of H with
  | (_ ≫= _) = Ok _ =>
      let a := fresh "a" in let E := fresh "E" in
      apply result_bind_Ok in H as (a & E & H)
  end.

(** ** Lists *)

Lemma list_filter_all {A} (P : A -> Prop) `{!forall x, Decision (P x)} l :
  Forall P l -> filter P l = l.
Proof. induction 1 as [|x l Hx Hl IH]; [done|]. by rewrite filter_cons_True, IH. Qed.

Lemma list_filter_none {A} (P : A -> Prop) `{!forall x, Decision (P x)} l :
  Forall (fun x => ~ P x) l -> filter P l = [].
Proof. induction 1 as [|x l Hx Hl IH]; [done|]. by rewrite filter_cons_False. Qed.

Lemma filter_nil_Forall {A} (P : A -> Prop) `{!forall x, Decision (P x)} l :
  filter P l = [] -> Forall (fun x => ~ P x) l.
Proof.
  intros E. apply Forall_forall. intros x Hx HP.
  by apply (filter_nil_not_elem_of P l x E HP).
Qed.

Lemma StronglySorted_filter {A} (R : relation A) (P : A -> Prop) `{!forall x, Decision (P x)} l :
  StronglySorted R l -> StronglySorted R (filter P l).
Proof.
  induction 1 as [|x l Hl IH Hx]; [constructor|]. rewrite filter_cons.
  destruct (decide (P x)); [|done]. constructor; [done|].
  rewrite Forall_forall in *. intros y [_ Hy]%list_elem_of_filter. auto.
Qed.

Lemma nth_insert_eq {A} (l : list A) i x d : (i < length l)%nat -> nth i (<[i := x]> l) d = x.
Proof. intros Hi. rewrite nth_lookup, list_lookup_insert_eq by done. done. Qed.
Lemma nth_insert_ne {A} (l : list A) i j x d : i <> j -> nth j (<[i := x]> l) d = nth j l d.
Proof. intros Hi. by rewrite !nth_lookup, list_lookup_insert_ne. Qed.
Lemma nth_replicate {A} n i (x : A) : nth i (replicate n x) x = x.
Proof.
  rewrite nth_lookup. destruct (replicate n x !! i) eqn:E; [|done].
  apply lookup_replicate in E as [-> _]. done.
Qed.

(** ** Machine integers *)

Definition u8_max : Z := 2 ^ 8 - 1.
Definition u16_max : Z := 2 ^ 16 - 1.
Definition u32_max : Z := 2 ^ 32 - 1.
Definition u64_max : Z := 2 ^ 64 - 1.

(** Conversion to an unsigned type of the given width. *)
Definition wrap8 (z : Z) : Z := z mod 2 ^ 8.
Definition wrap16 (z : Z) : Z := z mod 2 ^ 16.
Definition wrap32 (z : Z) : Z := z mod 2 ^ 32.
Definition wrap64 (z : Z) : Z := z mod 2 ^ 64.

Lemma wrap64_small z : 0 <= z < 2 ^ 64 -> wrap64 z = z.
Proof. intros. by apply Z.mod_small. Qed.
Lemma wrap32_small z : 0 <= z < 2 ^ 32 -> wrap32 z = z.
Proof. intros. by apply Z.mod_small. Qed.
Lemma wrap64_range z : 0 <= wrap64 z < 2 ^ 64.
Proof. by apply Z.mod_pos_bound. Qed.

(** A running total in a [uint64_t]. *)
Definition sum_u64 (l : list Z) : Z := foldl (fun a x => wrap64 (a + x)) 0 l.
Definition sum_Z (l : list Z) : Z := foldr Z.add 0 l.

Lemma sum_Z_perm l l' : l ≡ₚ l' -> sum_Z l = sum_Z l'.
Proof. induction 1; simpl; lia. Qed.

Lemma sum_Z_nonneg l : Forall (fun x => 0 <= x) l -> 0 <= sum_Z l.
Proof. induction 1; simpl; lia. Qed.

Lemma sum_Z_app l1 l2 : sum_Z (l1 ++ l2) = sum_Z l1 + sum_Z l2.
Proof. induction l1 as [|a l1 IH]; simpl; [done|]. rewrite IH. lia. Qed.

Lemma sum_u64_exact l :
  Forall (fun x => 0 <= x) l -> sum_Z l < 2 ^ 64 -> sum_u64 l = sum_Z l.
Proof.
  intros Hl Hs. unfold sum_u64.
  enough (forall a, 0 <= a -> a + sum_Z l < 2 ^ 64 ->
    foldl (fun a x => wrap64 (a + x)) a l = a + sum_Z l) as Hgen.
  { rewrite Hgen; lia. }
  clear Hs. induction Hl as [|x l Hx Hl IH]; intros a Ha Hb; simpl in *; [lia|].
  pose proof (sum_Z_nonneg l Hl).
  rewrite wrap64_small by lia. rewrite IH; lia.
Qed.

(** ** Bytes *)

Abbreviation Bytes := (list byte).

Definition b2z (b : byte) : Z := Z.of_N (Byte.to_N b).
(** [static_cast<uint8_t>]. *)
Definition z2b (z : Z) : byte :=
  match Byte.of_N (Z.to_N (z mod 256)) with Some b => b | None => x00 end.

#[global] Instance byte_eq_dec : EqDecision byte := Byte.byte_eq_dec.

Lemma b2z_range b : 0 <= b2z b < 256.
Proof. unfold b2z. pose proof (Byte.to_N_bounded b). lia. Qed.

Lemma z2b_b2z b : z2b (b2z b) = b.
Proof.
  unfold z2b. rewrite Z.mod_small by apply b2z_range.
  unfold b2z. rewrite N2Z.id, Byte.of_to_N. done.
Qed.

Lemma b2z_z2b z : b2z (z2b z) = z mod 256.
Proof.
  unfold z2b, b2z. pose proof (Z.mod_pos_bound z 256 ltac:(lia)).
  destruct (Byte.of_N _) as [b|] eqn:E.
  - apply Byte.to_of_N in E. rewrite E, Z2N.id; lia.
  - apply Byte.of_N_None_iff in E. lia.
Qed.

Lemma b2z_inj a b : b2z a = b2z b -> a = b.
Proof. intros H. rewrite <- (z2b_b2z a), <- (z2b_b2z b). by rewrite H. Qed.

Lemma b2z_z2b_small z : 0 <= z < 256 -> b2z (z2b z) = z.
Proof. intros. rewrite b2z_z2b. by apply Z.mod_small. Qed.

(** A byte as an index into the 256 slots of a node. *)
Definition b2n (b : byte) : nat := Z.to_nat (b2z b).
Definition n2b (n : nat) : byte := z2b (Z.of_nat n).

Lemma b2n_lt b : (b2n b < 256)%nat.
Proof. unfold b2n. pose proof (b2z_range b). lia. Qed.
Lemma n2b_b2n b : n2b (b2n b) = b.
Proof.
  unfold n2b, b2n. rewrite Z2Nat.id by apply b2z_range. apply z2b_b2z.
Qed.
Lemma b2n_n2b n : (n < 256)%nat -> b2n (n2b n) = n.
Proof. intros. unfold n2b, b2n. rewrite b2z_z2b_small by lia. lia. Qed.
Lemma b2n_inj a b : b2n a = b2n b -> a = b.
Proof. intros H. rewrite <- (n2b_b2n a), <- (n2b_b2n b). by rewrite H. Qed.

(** [std::array<uint8_t, N>]: exactly [n] bytes. *)
Record array (n : nat) : Type := Array {
  abytes : Bytes;
  abytes_ok : (length abytes =? n)%nat = true
}.
Arguments Array {n} _ _.
Arguments abytes {n} _.
Arguments abytes_ok {n} _.

Lemma array_length {n} (a : array n) : length (abytes a) = n.
Proof. apply Nat.eqb_eq, abytes_ok. Qed.

Lemma array_eq {n} (a b : array n) : abytes a = abytes b -> a = b.
Proof.
  destruct a as [la pa], b as [lb pb]; simpl. intros ->.
  f_equal. apply (Eqdep_dec.UIP_dec Bool.bool_dec).
Qed.

#[global] Instance array_eq_dec {n} : EqDecision (array n).
Proof.
  intros a b. destruct (decide (abytes a = abytes b)) as [E|E].
  - left. by apply array_eq.
  - right. by intros ->.
Defined.

(** The array holding [l], when it has the right length. *)
Definition to_array (n : nat) (l : Bytes) : option (array n) :=
  (if (length l =? n)%nat as b return ((length l =? n)%nat = b -> option (array n))
   then fun e => Some (Array l e) else fun _ => None) eq_refl.

Lemma to_array_abytes {n} (a : array n) : to_array n (abytes a) = Some a.
Proof.
  unfold to_array.
  generalize (eq_refl (length (abytes a) =? n)%nat).
  pose proof (abytes_ok a) as Ha.
  destruct (length (abytes a) =? n)%nat at 2 3; intros e; [|congruence].
  f_equal. by apply array_eq.
Qed.

Lemma to_array_Some {n} (l : Bytes) :
  length l = n -> exists a, to_array n l = Some a /\ abytes a = l.
Proof.
  intros Hl. pose proof (proj2 (Nat.eqb_eq _ _) Hl) as e.
  exists (Array l e). split; [|done]. apply (to_array_abytes (Array l e)).
Qed.

Lemma to_array_inv {n} (l : Bytes) (a : array n) : to_array n l = Some a -> abytes a = l.
Proof.
  unfold to_array. generalize (eq_refl (length l =? n)%nat).
  destruct (length l =? n)%nat at 2 3; intros e H; [|done].
  injection H as <-. done.
Qed.

(** [std::array<uint8_t, N>{}]: all zero. *)
Fixpoint replicate_ok (n : nat) : (length (replicate n x00) =? n)%nat = true :=
  match n with O => eq_refl | S n' => replicate_ok n' end.
Definition array_zero (n : nat) : array n := Array (replicate n x00) (replicate_ok n).

(** The first [n] bytes of a list, padded with zeros. *)
Definition array_fit (n : nat) (l : Bytes) : array n :=
  default (array_zero n) (to_array n (take n (l ++ replicate n x00))).

(** [a[i]], for [i] in range. *)
Definition abyte {n} (a : array n) (i : nat) : byte := nth i (abytes a) x00.

(** ** Strict orders on keys *)

(** A key type with C++'s [operator<]: a strict total order. *)
Class KeyOrder (K : Type) : Type := {
  key_ltb : K -> K -> bool;
  key_irrefl : forall k, key_ltb k k = false;
  key_trans : forall a b c, key_ltb a b = true -> key_ltb b c = true -> key_ltb a c = true;
  key_total : forall a b, key_ltb a b = false -> key_ltb b a = false -> a = b
}.

Definition key_lt `{KeyOrder K} (a b : K) : Prop := key_ltb a b = true.

#[global] Instance key_lt_dec `{KeyOrder K} (a b : K) : Decision (key_lt a b).
Proof. unfold key_lt. apply _. Defined.
#[global] Instance key_lt_trans `{KeyOrder K} : Transitive (key_lt (K:=K)).
Proof. intros a b c. apply key_trans. Qed.
#[global] Instance key_lt_irrefl `{KeyOrder K} : Irreflexive (key_lt (K:=K)).
Proof. intros a. unfold complement, key_lt. by rewrite key_irrefl. Qed.

Lemma key_lt_asym `{KeyOrder K} (a b : K) : key_lt a b -> key_ltb b a = false.
Proof.
  intros Hab. destruct (key_ltb b a) eqn:E; [|done].
  exfalso. apply (key_lt_irrefl a). by transitivity b.
Qed.

Lemma key_trichotomy `{KeyOrder K} (a b : K) : key_lt a b \/ a = b \/ key_lt b a.
Proof.
  unfold key_lt. destruct (key_ltb a b) eqn:E1; [by left|].
  destruct (key_ltb b a) eqn:E2; [by right; right|]. right; left. by apply key_total.
Qed.

(** Lexicographic order, as [operator<=>] on arrays of bytes. *)
Fixpoint bytes_ltb (a b : Bytes) : bool :=
  match a, b with
  | [], [] => false
  | [], _ :: _ => true
  | _ :: _, [] => false
  | x :: a', y :: b' =>
      if b2z x <? b2z y then true
      else if b2z y <? b2z x then false
      else bytes_ltb a' b'
  end.

Lemma bytes_ltb_irrefl k : bytes_ltb k k = false.
Proof. induction k as [|x k IH]; simpl; [done|]. by rewrite Z.ltb_irrefl. Qed.

Lemma bytes_ltb_trans a b c :
  bytes_ltb a b = true -> bytes_ltb b c = true -> bytes_ltb a c = true.
Proof.
  revert b c. induction a as [|x a IH]; intros [|y b] [|z c]; simpl; try done.
  destruct (Z.ltb_spec (b2z x) (b2z y)); destruct (Z.ltb_spec (b2z y) (b2z z));
    destruct (Z.ltb_spec (b2z x) (b2z z)); try done; try lia;
    destruct (Z.ltb_spec (b2z y) (b2z x)); destruct (Z.ltb_spec (b2z z) (b2z y));
    destruct (Z.ltb_spec (b2z z) (b2z x)); try done; try lia; eauto.
Qed.

Lemma bytes_ltb_total a b : bytes_ltb a b = false -> bytes_ltb b a = false -> a = b.
Proof.
  revert b. induction a as [|x a IH]; intros [|y b]; simpl; try done.
  destruct (Z.ltb_spec (b2z x) (b2z y)); destruct (Z.ltb_spec (b2z y) (b2z x)); try done.
  intros H1 H2. f_equal; [apply b2z_inj; lia | auto].
Qed.

#[global] Instance bytes_order : KeyOrder Bytes := {|
  key_ltb := bytes_ltb;
  key_irrefl := bytes_ltb_irrefl;
  key_trans := bytes_ltb_trans;
  key_total := bytes_ltb_total
|}.

#[global] Instance array_order n : KeyOrder (array n) := {|
  key_ltb a b := bytes_ltb (abytes a) (abytes b);
  key_irrefl k := bytes_ltb_irrefl (abytes k);
  key_trans a b c := bytes_ltb_trans (abytes a) (abytes b) (abytes c);
  key_total a b H1 H2 := array_eq a b (bytes_ltb_total (abytes a) (abytes b) H1 H2)
|}.

(** ** Sorted lists of keyed values *)

Section sorted.
Context {K : Type} `{KeyOrder K, !EqDecision K}.

(** [std::stable_sort] by a strict order: equal elements keep their order. *)
Fixpoint insert_by {A} (ltb : A -> A -> bool) (x : A) (l : list A) : list A :=
  match l with
  | [] => [x]
  | y :: l' => if ltb y x then y :: insert_by ltb x l' else x :: l
  end.
Definition stable_sort {A} (ltb : A -> A -> bool) (l : list A) : list A :=
  foldr (insert_by ltb) [] l.

(** [std::unique] on a sorted range: the first of each run. *)
Fixpoint unique_keys (l : list K) : list K :=
  match l with
  | [] => []
  | x :: l' =>
      match unique_keys l' with
      | [] => [x]
      | (y :: _) as u => if negb (key_ltb x y) && negb (key_ltb y x) then u else x :: u
      end
  end.
(** The code's [sorted_unique] helper. *)
Definition sort_unique (l : list K) : list K := unique_keys (stable_sort key_ltb l).

(** Strictly increasing keys: what a leaf, a journal frame and every sorted
    vector of ids keep. *)
Definition sorted_keys (l : list K) : Prop := StronglySorted key_lt l.
Definition sorted_recs {V} (l : list (K * V)) : Prop := sorted_keys l.*1.

(** Lookup in a list of records. *)
Fixpoint alookup {V} (k : K) (l : list (K * V)) : option V :=
  match l with
  | [] => None
  | (k', v) :: l' =>
      if negb (key_ltb k k') && negb (key_ltb k' k) then Some v else alookup k l'
  end.

Lemma key_eqb_spec (a b : K) :
  reflect (a = b) (negb (key_ltb a b) && negb (key_ltb b a)).
Proof.
  destruct (key_ltb a b) eqn:E1; simpl.
  - constructor. intros ->. by rewrite key_irrefl in E1.
  - destruct (key_ltb b a) eqn:E2; simpl; constructor.
    + intros ->. by rewrite key_irrefl in E2.
    + by apply key_total.
Qed.

Lemma alookup_cons {V} k k' (v : V) l :
  alookup k ((k', v) :: l) = if decide (k = k') then Some v else alookup k l.
Proof. simpl. destruct (key_eqb_spec k k'), (decide (k = k')); done. Qed.

Lemma alookup_app {V} k (l1 l2 : list (K * V)) :
  alookup k (l1 ++ l2) = match alookup k l1 with Some v => Some v | None => alookup k l2 end.
Proof.
  induction l1 as [|[k' v] l1 IH]; simpl; [done|]. by destruct (_ && _).
Qed.

Lemma alookup_None {V} k (l : list (K * V)) : alookup k l = None <-> k ∉ l.*1.
Proof.
  induction l as [|[k' v] l IH]; simpl.
  - split; [intros _; apply not_elem_of_nil | done].
  - destruct (key_eqb_spec k k') as [->|E].
    + split; [done|]. intros Hn. exfalso. apply Hn. by left.
    + rewrite IH, not_elem_of_cons. tauto.
Qed.

Lemma alookup_Some_elem {V} k v (l : list (K * V)) : alookup k l = Some v -> (k, v) ∈ l.
Proof.
  induction l as [|[k' v'] l IH]; simpl; [done|].
  destruct (key_eqb_spec k k') as [->|E].
  - intros [= ->]. by left.
  - intros. right. auto.
Qed.

Lemma sorted_recs_cons {V} k (v : V) l :
  sorted_recs ((k, v) :: l) <-> Forall (fun r => key_lt k r.1) l /\ sorted_recs l.
Proof.
  unfold sorted_recs, sorted_keys. simpl. rewrite StronglySorted_cons, Forall_fmap.
  done.
Qed.

Lemma sorted_recs_app {V} (l1 l2 : list (K * V)) :
  sorted_recs (l1 ++ l2) <->
  (forall r1 r2, r1 ∈ l1 -> r2 ∈ l2 -> key_lt r1.1 r2.1) /\ sorted_recs l1 /\ sorted_recs l2.
Proof.
  unfold sorted_recs, sorted_keys. rewrite fmap_app, StronglySorted_app.
  split; intros (H1 & H2 & H3); split_and!; try done.
  - intros r1 r2 Hr1 Hr2. apply H1; by apply list_elem_of_fmap_2.
  - intros x1 x2 (r1 & -> & Hr1)%list_elem_of_fmap (r2 & -> & Hr2)%list_elem_of_fmap. auto.
Qed.

Lemma sorted_keys_NoDup (l : list K) : sorted_keys l -> NoDup l.
Proof.
  induction 1 as [|x l Hl IH Hx]; constructor; [|done].
  intros Hin. rewrite Forall_forall in Hx. by apply (key_lt_irrefl x), Hx.
Qed.

Lemma elem_alookup_Some {V} k v (l : list (K * V)) :
  sorted_recs l -> (k, v) ∈ l -> alookup k l = Some v.
Proof.
  induction l as [|[k' v'] l IH]; intros Hs Hin; [by apply not_elem_of_nil in Hin|].
  apply sorted_recs_cons in Hs as [Hf Hs].
  rewrite alookup_cons. apply elem_of_cons in Hin as [[= -> ->]|Hin].
  - by rewrite decide_True.
  - rewrite decide_False; [auto|]. intros ->.
    rewrite Forall_forall in Hf. by apply (key_lt_irrefl k'), (Hf _ Hin).
Qed.

Lemma alookup_below {V} k (l : list (K * V)) :
  Forall (fun r => key_lt k r.1) l -> alookup k l = None.
Proof.
  intros Hf. apply alookup_None. intros (r & -> & Hr)%list_elem_of_fmap.
  rewrite Forall_forall in Hf. by apply (key_lt_irrefl r.1), Hf.
Qed.

Lemma sorted_recs_filter {V} (P : K * V -> Prop) `{!forall r, Decision (P r)} (l : list (K * V)) :
  sorted_recs l -> sorted_recs (filter P l).
Proof.
  induction l as [|[k v] l IH]; intros Hs; [done|].
  apply sorted_recs_cons in Hs as [Hf Hs]. rewrite filter_cons.
  destruct (decide _); [|by apply IH]. apply sorted_recs_cons. split; [|by apply IH].
  rewrite Forall_forall in *. intros r [_ Hr]%list_elem_of_filter. by apply Hf.
Qed.

(** Sorted record lists with the same lookups are the same list. *)
Lemma sorted_recs_ext {V} (l1 l2 : list (K * V)) :
  sorted_recs l1 -> sorted_recs l2 -> (forall k, alookup k l1 = alookup k l2) -> l1 = l2.
Proof.
  revert l2. induction l1 as [|[k1 v1] l1 IH]; intros [|[k2 v2] l2] H1 H2 Heq; try done.
  - specialize (Heq k2). rewrite alookup_cons, decide_True in Heq by done. done.
  - specialize (Heq k1). rewrite alookup_cons, decide_True in Heq by done. done.
  - pose proof H1 as (Hf1 & Hs1)%sorted_recs_cons.
    pose proof H2 as (Hf2 & Hs2)%sorted_recs_cons.
    assert (k1 = k2) as ->.
    { destruct (key_trichotomy k1 k2) as [Hlt|[->|Hlt]]; [|done|]; exfalso.
      - pose proof (Heq k1) as E. rewrite alookup_cons, decide_True in E by done.
        rewrite alookup_below in E; [done|]. constructor; [done|].
        eapply Forall_impl; [exact Hf2|]. intros r ?. by transitivity k2.
      - pose proof (Heq k2) as E. rewrite (alookup_cons _ k2), decide_True in E by done.
        rewrite alookup_below in E; [done|]. constructor; [done|].
        eapply Forall_impl; [exact Hf1|]. intros r ?. by transitivity k1. }
    pose proof (Heq k2) as E. rewrite !alookup_cons, !decide_True in E by done.
    injection E as ->. f_equal. apply IH; [done..|].
    intros k. specialize (Heq k). rewrite !alookup_cons in Heq.
    destruct (decide (k = k2)) as [->|]; [|done].
    by rewrite !alookup_below.
Qed.
End sorted.

Lemma list_as_nth {A} (l : list A) n d : length l = n -> l = (fun i => nth i l d) <$> seq 0 n.
Proof.
  intros <-. apply list_eq. intros i. rewrite list_lookup_fmap.
  destruct (decide (i < length l)%nat) as [Hi|Hi].
  - rewrite lookup_seq_lt by done. simpl. rewrite nth_lookup.
    destruct (lookup_lt_is_Some_2 l i Hi) as [x ->]. done.
  - rewrite lookup_seq_ge, lookup_ge_None_2 by lia. done.
Qed.
