(* ===== verification/Sorts.v ===== *)
(** * Sorting

    [std::sort] and [std::stable_sort] by a comparison of the code's: the
    result is a permutation in which nothing precedes something less than it,
    and where the comparison tells every two elements apart it does not depend
    on the order they came in, so the stable sort also stands for the unstable
    one. *)

From S2P Require Import Prelude.

Lemma insert_by_perm {A} (ltb : A -> A -> bool) x l : insert_by ltb x l ≡ₚ x :: l.
Proof.
  induction l as [|y l IH]; [done|]. cbn [insert_by]. destruct (ltb y x); [|done].
  rewrite IH. apply Permutation_swap.
Qed.

Lemma stable_sort_perm {A} (ltb : A -> A -> bool) l : stable_sort ltb l ≡ₚ l.
Proof.
  induction l as [|x l IH]; [done|]. cbn [stable_sort foldr].
  change (foldr (insert_by ltb) [] l) with (stable_sort ltb l). by rewrite insert_by_perm, IH.
Qed.

Lemma stable_sort_elem {A} (ltb : A -> A -> bool) l x : x ∈ stable_sort ltb l <-> x ∈ l.
Proof. by rewrite stable_sort_perm. Qed.

(** A comparison: what C++ asks of one passed to a sort. *)
Record strict_weak {A} (ltb : A -> A -> bool) : Prop := {
  sw_asym : forall x y, ltb x y = true -> ltb y x = false;
  sw_trans : forall x y z, ltb y x = false -> ltb z y = false -> ltb z x = false
}.

(** In order: nothing is less than what precedes it. *)
Definition in_order {A} (ltb : A -> A -> bool) (l : list A) : Prop :=
  StronglySorted (fun x y => ltb y x = false) l.

Section sorts.
Context {A : Type} (ltb : A -> A -> bool) (Hsw : strict_weak ltb).

Lemma insert_by_sorted x l : in_order ltb l -> in_order ltb (insert_by ltb x l).
Proof.
  induction l as [|y l IH]; intros Hs; cbn [insert_by]; [repeat constructor|].
  apply StronglySorted_cons in Hs as [Hy Hs]. destruct (ltb y x) eqn:E.
  - constructor; [by apply IH|]. rewrite insert_by_perm. constructor; [|done].
    by apply (sw_asym _ Hsw).
  - constructor; [by constructor|]. constructor; [done|].
    eapply Forall_impl; [exact Hy|]. intros z Hz. by apply (sw_trans _ Hsw x y z).
Qed.

Lemma sort_in_order l : in_order ltb (stable_sort ltb l).
Proof. induction l as [|x l IH]; [constructor|]. by apply insert_by_sorted. Qed.

(** Where the comparison tells the elements apart, their order on input does
    not matter. *)
Lemma stable_sort_ext l l' :
  (forall x y, x ∈ l -> y ∈ l -> ltb x y = false -> ltb y x = false -> x = y) ->
  l ≡ₚ l' -> stable_sort ltb l = stable_sort ltb l'.
Proof.
  intros Hanti Hp.
  apply (StronglySorted_unique_strong (fun x y => ltb y x = false)).
  - intros x y Hx Hy Hxy Hyx.
    apply stable_sort_elem in Hx. apply stable_sort_elem in Hy. rewrite <- Hp in Hy. by apply Hanti.
  - apply sort_in_order.
  - apply sort_in_order.
  - by rewrite !stable_sort_perm.
Qed.

Lemma in_order_app l1 l2 :
  in_order ltb (l1 ++ l2) -> forall x y, x ∈ l1 -> y ∈ l2 -> ltb y x = false.
Proof. intros H. apply StronglySorted_app in H as (H & _). exact H. Qed.

(** What a sort puts first: less than nothing else. *)
Lemma sort_head l x rest : stable_sort ltb l = x :: rest -> forall y, y ∈ l -> ltb y x = false.
Proof.
  intros E y Hy. pose proof (sort_in_order l) as Hs. rewrite E in Hs.
  apply StronglySorted_cons in Hs as [Hx _]. rewrite Forall_forall in Hx.
  apply (stable_sort_elem ltb), (eq_ind _ (fun l => y ∈ l)) with (2 := E) in Hy.
  apply elem_of_cons in Hy as [->|Hy]; [|by apply Hx].
  destruct (ltb x x) eqn:Ex; [|done]. by rewrite (sw_asym _ Hsw _ _ Ex) in Ex.
Qed.

(** The least element, and the least once another is added: the same, or the
    added one. *)
Lemma sort_head_cons l z x y rest rest' :
  (forall x y, x ∈ z :: l -> y ∈ z :: l -> ltb x y = false -> ltb y x = false -> x = y) ->
  stable_sort ltb l = x :: rest -> stable_sort ltb (z :: l) = y :: rest' -> y = z \/ y = x.
Proof.
  intros Hanti Ex Ey.
  assert (x ∈ l) as Hx by (apply (stable_sort_elem ltb); rewrite Ex; by left).
  assert (y ∈ z :: l) as Hy by (apply (stable_sort_elem ltb); rewrite Ey; by left).
  pose proof Hy as [->|Hy']%elem_of_cons; [by left|]. right.
  apply Hanti; [done | by right | |].
  - by apply (sort_head l x rest Ex).
  - apply (sort_head _ _ _ Ey). by right.
Qed.
End sorts.

(** Comparing by a key, and by a second key where the first ties. *)
Definition by_key {A K} `{KeyOrder K} (f : A -> K) (x y : A) : bool := key_ltb (f x) (f y).
Definition then_by {A K} `{KeyOrder K, !EqDecision K} (f : A -> K) (next : A -> A -> bool) (x y : A) : bool :=
  if negb (bool_decide (f x = f y)) then key_ltb (f x) (f y) else next x y.

Lemma by_key_weak {A K} `{KeyOrder K} (f : A -> K) : strict_weak (by_key f).
Proof.
  split; unfold by_key.
  - intros x y Hxy. by apply key_lt_asym.
  - intros x y z Hyx Hzy. destruct (key_ltb (f z) (f x)) eqn:E; [|done]. exfalso.
    destruct (key_trichotomy (f x) (f y)) as [Hl|[He|Hl]].
    + rewrite (key_trans _ _ _ E Hl) in Hzy. done.
    + rewrite He in E. congruence.
    + unfold key_lt in Hl. congruence.
Qed.

Lemma then_by_weak {A K} `{KeyOrder K, !EqDecision K} (f : A -> K) next :
  strict_weak next -> strict_weak (then_by f next).
Proof.
  intros Hn. destruct (by_key_weak f) as [Hasym Htrans]. unfold by_key in *. split; unfold then_by.
  - intros x y. destruct (decide (f x = f y)) as [E|E].
    + rewrite !bool_decide_true by done. by apply (sw_asym _ Hn).
    + rewrite !bool_decide_false by congruence. apply Hasym.
  - intros x y z.
    destruct (decide (f y = f x)) as [E1|E1], (decide (f z = f y)) as [E2|E2].
    + rewrite !bool_decide_true by congruence. apply (sw_trans _ Hn).
    + rewrite bool_decide_true, !bool_decide_false by congruence. simpl. congruence.
    + rewrite bool_decide_false, bool_decide_true, bool_decide_false by congruence. simpl. congruence.
    + rewrite !bool_decide_false by congruence. simpl. intros H1 H2.
      destruct (decide (f z = f x)) as [E3|E3].
      * exfalso. rewrite E3 in H2. by apply E1, key_total.
      * rewrite bool_decide_false by done. simpl. by apply (Htrans x y z).
Qed.

(** Keys that tell apart. *)
Lemma by_key_apart {A K} `{KeyOrder K} (f : A -> K) x y :
  by_key f x y = false -> by_key f y x = false -> f x = f y.
Proof. apply key_total. Qed.

Lemma then_by_apart {A K} `{KeyOrder K, !EqDecision K} (f : A -> K) next x y :
  then_by f next x y = false -> then_by f next y x = false ->
  f x = f y /\ next x y = false /\ next y x = false.
Proof.
  unfold then_by. destruct (decide (f x = f y)) as [E|E].
  - rewrite !bool_decide_true by done. done.
  - rewrite !bool_decide_false by congruence. intros H1 H2. exfalso. by apply E, key_total.
Qed.

Lemma NoDup_fmap_inj {A B} (f : A -> B) l x y :
  NoDup (f <$> l) -> x ∈ l -> y ∈ l -> f x = f y -> x = y.
Proof.
  induction l as [|z l IH]; intros Hn Hx Hy E; [by apply not_elem_of_nil in Hx|].
  simpl in Hn. apply NoDup_cons in Hn as [Hz Hn].
  apply elem_of_cons in Hx as [->|Hx]; apply elem_of_cons in Hy as [->|Hy]; [done| | |by apply IH].
  - exfalso. apply Hz. rewrite E. by apply list_elem_of_fmap_2.
  - exfalso. apply Hz. rewrite <- E. by apply list_elem_of_fmap_2.
Qed.
