(* ===== verification/Maps.v ===== *)
(** * Ordered maps and sorted ids

    [std::map] as the list of its entries in key order, with the operations
    the code uses and what they do to lookups; sorted vectors of ids. *)

From S2P Require Import Prelude Sorts.

Section maps.
Context {K V : Type} `{KeyOrder K, !EqDecision K}.

(** [m[k] = v]. *)
Fixpoint map_set (k : K) (v : V) (m : list (K * V)) : list (K * V) :=
  match m with
  | [] => [(k, v)]
  | (k', v') :: m' =>
      if key_ltb k' k then (k', v') :: map_set k v m'
      else if key_ltb k k' then (k, v) :: m
      else (k, v) :: m'
  end.
Definition map_erase (k : K) (m : list (K * V)) : list (K * V) := base.filter (fun e => e.1 <> k) m.
(** [m.emplace(k, v)]: none when the key is there. *)
Definition map_emplace (k : K) (v : V) (m : list (K * V)) : option (list (K * V)) :=
  match alookup k m with Some _ => None | None => Some (map_set k v m) end.
End maps.

Section maps.
Context {K V : Type} `{KeyOrder K, !EqDecision K}.
Implicit Types (k : K) (v : V) (m : list (K * V)).

Lemma map_set_keys k v m r : r ∈ map_set k v m -> r = (k, v) \/ r ∈ m.
Proof.
  induction m as [|[k' v'] m IH]; cbn [map_set]; [intros ->%list_elem_of_singleton; by left|].
  destruct (key_ltb k' k); [|destruct (key_ltb k k')]; intros [->|Hr]%elem_of_cons.
  - right. by left.
  - destruct (IH Hr) as [->|?]; [by left | right; by right].
  - by left.
  - by right.
  - by left.
  - right. by right.
Qed.

Lemma map_set_sorted k v m : sorted_recs m -> sorted_recs (map_set k v m).
Proof.
  induction m as [|[k' v'] m IH]; intros Hs; cbn [map_set]; [repeat constructor|].
  pose proof Hs as [Hf Hm]%sorted_recs_cons. destruct (key_ltb k' k) eqn:E1; [|destruct (key_ltb k k') eqn:E2].
  - apply sorted_recs_cons. split; [|by apply IH]. apply Forall_forall. intros r [->|Hr]%map_set_keys; [done|].
    rewrite Forall_forall in Hf. by apply Hf.
  - apply sorted_recs_cons. split; [|done]. constructor; [done|]. eapply Forall_impl; [exact Hf|].
    intros r Hr. by transitivity k'.
  - rewrite (key_total k k' E2 E1). by apply sorted_recs_cons.
Qed.

Lemma map_set_lookup k v m k' :
  alookup k' (map_set k v m) = if decide (k' = k) then Some v else alookup k' m.
Proof.
  induction m as [|[k1 v1] m IH]; cbn [map_set]; [by rewrite alookup_cons|].
  destruct (key_ltb k1 k) eqn:E1; [|destruct (key_ltb k k1) eqn:E2]; rewrite !alookup_cons.
  - rewrite IH. destruct (decide (k' = k1)) as [->|], (decide (k1 = k)) as [->|]; try done.
    by rewrite key_irrefl in E1.
  - done.
  - rewrite (key_total k k1 E2 E1). by destruct (decide (k' = k1)).
Qed.

Lemma map_set_end k v m : Forall (fun r => key_lt r.1 k) m -> map_set k v m = m ++ [(k, v)].
Proof.
  induction 1 as [|[k' v'] m Hk Hm IH]; [done|]. cbn [map_set app]. unfold key_lt in Hk. simpl in Hk. by rewrite Hk, IH.
Qed.

Lemma map_set_length k v m : (length m <= length (map_set k v m) <= S (length m))%nat.
Proof.
  induction m as [|[k' v'] m IH]; cbn [map_set length]; [lia|].
  destruct (key_ltb k' k); [|destruct (key_ltb k k')]; cbn [length]; lia.
Qed.

Lemma map_erase_sorted k m : sorted_recs m -> sorted_recs (map_erase k m).
Proof. apply sorted_recs_filter. Qed.

Lemma map_erase_lookup k m k' : alookup k' (map_erase k m) = if decide (k' = k) then None else alookup k' m.
Proof.
  unfold map_erase. induction m as [|[k1 v1] m IH]; [by destruct (decide _)|]. rewrite filter_cons. cbn [fst].
  destruct (decide (k1 <> k)) as [Hne|Heq].
  - rewrite !alookup_cons, IH. destruct (decide (k' = k1)) as [->|]; [|done]. by rewrite decide_False.
  - rewrite IH, alookup_cons. apply dec_stable in Heq as ->. by destruct (decide (k' = k)).
Qed.

Lemma map_erase_elem k m r : r ∈ map_erase k m <-> r.1 <> k /\ r ∈ m.
Proof. unfold map_erase. by rewrite list_elem_of_filter. Qed.
End maps.

Lemma map_set_same {K V} `{KeyOrder K, !EqDecision K} (k : K) (v : V) m :
  sorted_recs m -> alookup k m = Some v -> map_set k v m = m.
Proof.
  intros Hs Hk. apply sorted_recs_ext; [by apply map_set_sorted | done |]. intros k'. rewrite map_set_lookup.
  by destruct (decide (k' = k)) as [->|].
Qed.

(** ** Sorted ids *)

Lemma unique_keys_elem {K} `{KeyOrder K, !EqDecision K} (l : list K) x : x ∈ unique_keys l <-> x ∈ l.
Proof.
  induction l as [|y l IH]; [done|]. cbn [unique_keys]. rewrite elem_of_cons, <- IH.
  destruct (unique_keys l) as [|z u]; [rewrite elem_of_cons; tauto|].
  destruct (key_eqb_spec y z) as [->|]; [|rewrite !elem_of_cons; tauto].
  rewrite elem_of_cons. tauto.
Qed.

Lemma unique_keys_sorted {K} `{KeyOrder K, !EqDecision K} (l : list K) :
  in_order key_ltb l -> sorted_keys (unique_keys l).
Proof.
  induction 1 as [|x l Hl IH Hx]; [constructor|]. cbn [unique_keys].
  destruct (unique_keys l) as [|y u] eqn:E; [repeat constructor|].
  destruct (key_eqb_spec x y) as [->|Hne]; [done|]. constructor; [done|]. rewrite <- E.
  apply Forall_forall. intros z Hz. pose proof Hz as Hz'. rewrite unique_keys_elem in Hz.
  rewrite Forall_forall in Hx. pose proof (Hx z Hz) as Hxz.
  destruct (key_trichotomy x z) as [?|[<-|?]]; [done| |unfold key_lt in *; congruence].
  exfalso. rewrite E in Hz'. apply elem_of_cons in Hz' as [->|Hz']; [done|].
  apply StronglySorted_cons in IH as [IH _]. rewrite Forall_forall in IH. specialize (IH x Hz').
  assert (y ∈ l) as Hy by (apply unique_keys_elem; rewrite E; by left). specialize (Hx y Hy). unfold key_lt in IH. congruence.
Qed.

Lemma sort_unique_ok {K} `{KeyOrder K, !EqDecision K} (l : list K) :
  sorted_keys (sort_unique l) /\ forall x, x ∈ sort_unique l <-> x ∈ l.
Proof.
  unfold sort_unique. split.
  - apply unique_keys_sorted, sort_in_order. exact (by_key_weak (fun k : K => k)).
  - intros x. rewrite unique_keys_elem. apply stable_sort_elem.
Qed.

Lemma sort_unique_length {K} `{KeyOrder K, !EqDecision K} (l : list K) : (length (sort_unique l) <= length l)%nat.
Proof.
  unfold sort_unique. rewrite <- (Permutation_length (stable_sort_perm key_ltb l)).
  induction (stable_sort key_ltb l) as [|x r IH]; [done|]. cbn [unique_keys].
  destruct (unique_keys r) as [|y u]; [|destruct (key_eqb_spec x y)]; cbn [length] in *; lia.
Qed.

(** Sorted lists with the same elements are the same list. *)
Lemma sorted_keys_ext {K} `{KeyOrder K} (l l' : list K) :
  sorted_keys l -> sorted_keys l' -> (forall x, x ∈ l <-> x ∈ l') -> l = l'.
Proof.
  intros Hl Hl' Heq. apply (StronglySorted_unique_strong key_lt); [|done|done|].
  - intros x y _ _ Hxy Hyx. exfalso. apply (key_lt_irrefl x). by transitivity y.
  - apply NoDup_Permutation; [by apply sorted_keys_NoDup.. | done].
Qed.
Lemma sort_unique_id {K} `{KeyOrder K, !EqDecision K} (l : list K) : sorted_keys l -> sort_unique l = l.
Proof. intros Hl. apply sorted_keys_ext; [apply sort_unique_ok | done | apply sort_unique_ok]. Qed.

(** ** Records written and erased *)

Section edits.
Context {K V : Type} `{KeyOrder K, !EqDecision K}.
Implicit Types (d m : list (K * V)).

Lemma alookup_is_key {W} k (m : list (K * W)) : (exists v, alookup k m = Some v) <-> k ∈ m.*1.
Proof.
  destruct (alookup k m) as [v|] eqn:E.
  - split; [|eauto]. intros _. apply alookup_Some_elem in E. apply list_elem_of_fmap. by exists (k, v).
  - split; [by intros (? & ?)|]. intros Hin. by apply alookup_None in E.
Qed.

Lemma sets_sorted d m : sorted_recs m -> sorted_recs (foldl (fun m e => map_set e.1 e.2 m) m d).
Proof. revert m. induction d as [|[k v] d IH]; intros m Hm; cbn; [done|]. by apply IH, map_set_sorted. Qed.

Lemma sets_lookup d m k :
  sorted_recs d -> alookup k (foldl (fun m e => map_set e.1 e.2 m) m d) =
    match alookup k d with Some v => Some v | None => alookup k m end.
Proof.
  revert m. induction d as [|[k' v'] d IH]; intros m Hd; [done|].
  apply sorted_recs_cons in Hd as [Hf Hd]. cbn [foldl fst snd]. rewrite IH, alookup_cons, map_set_lookup by done.
  destruct (decide (k = k')) as [->|]; [|done]. by rewrite alookup_below.
Qed.

Lemma erases_sorted ids m : sorted_recs m -> sorted_recs (foldl (fun m k => map_erase k m) m ids).
Proof. revert m. induction ids as [|k ids IH]; intros m Hm; cbn; [done|]. by apply IH, map_erase_sorted. Qed.

Lemma erases_lookup ids m k :
  alookup k (foldl (fun m k => map_erase k m) m ids) = if decide (k ∈ ids) then None else alookup k m.
Proof.
  revert m. induction ids as [|k' ids IH]; intros m; cbn [foldl]; [by rewrite decide_False by apply not_elem_of_nil|].
  rewrite IH, map_erase_lookup. destruct (decide (k ∈ ids)) as [Hin|Hout].
  - by rewrite decide_True by (right; done).
  - destruct (decide (k = k')) as [->|Hne]; [by rewrite decide_True by left|].
    rewrite decide_False; [done|]. by intros [?|?]%elem_of_cons.
Qed.
End edits.
