(* ===== verification/Orders.v ===== *)
(** * The orders of [operator<=>]

    A defaulted [operator<=>] compares members in the order they are declared.
    Integers, booleans, optional values (none first), pairs and vectors have
    their order here; a record has the order of the tuple of its members. *)

From S2P Require Import Prelude Sorts.

#[global] Instance Z_order : KeyOrder Z.
Proof.
  refine {| key_ltb := Z.ltb |}; [apply Z.ltb_irrefl | intros a b c; lia | intros a b; lia].
Defined.

#[global] Instance bool_order : KeyOrder bool.
Proof.
  refine {| key_ltb a b := negb a && b |}; [by intros [] | by intros [] [] [] | by intros [] []].
Defined.

(** [std::nullopt] is less than every value. *)
#[global] Instance option_order `{KeyOrder A} : KeyOrder (option A).
Proof.
  refine {| key_ltb a b :=
    match a, b with
    | None, Some _ => true
    | Some x, Some y => key_ltb x y
    | _, None => false
    end |}.
  - intros [x|]; [apply key_irrefl | done].
  - intros [x|] [y|] [z|]; try done. apply key_trans.
  - intros [x|] [y|]; try done. intros H1 H2. f_equal. by apply key_total.
Defined.

(** The first members, then the others where those are equal. *)
Definition pair_ltb `{KeyOrder A, KeyOrder B} (a b : A * B) : bool :=
  if key_ltb a.1 b.1 then true else if key_ltb b.1 a.1 then false else key_ltb a.2 b.2.

#[global] Instance pair_order `{KeyOrder A, KeyOrder B} : KeyOrder (A * B).
Proof.
  refine {| key_ltb := pair_ltb |}; unfold pair_ltb.
  - intros [x y]. cbn. by rewrite !key_irrefl.
  - intros [x1 y1] [x2 y2] [x3 y3]. cbn.
    destruct (key_trichotomy x1 x2) as [L|[->|L]]; [| |by rewrite L, (key_lt_asym _ _ L)].
    + destruct (key_trichotomy x2 x3) as [L'|[->|L']]; [| |by rewrite L', (key_lt_asym _ _ L')].
      * by rewrite (key_trans _ _ _ L L').
      * by rewrite L.
    + rewrite !key_irrefl. destruct (key_ltb x2 x3), (key_ltb x3 x2); try done. apply key_trans.
  - intros [x1 y1] [x2 y2]. cbn.
    destruct (key_ltb x1 x2) eqn:E1, (key_ltb x2 x1) eqn:E2; try done.
    intros E3 E4. by rewrite (key_total x1 x2), (key_total y1 y2).
Defined.

(** A vector: the first difference decides, then the length. *)
Fixpoint list_ltb `{KeyOrder A} (a b : list A) : bool :=
  match a, b with
  | _, [] => false
  | [], _ :: _ => true
  | x :: a', y :: b' => if key_ltb x y then true else if key_ltb y x then false else list_ltb a' b'
  end.

Definition list_order `{KeyOrder A} : KeyOrder (list A).
Proof.
  refine {| key_ltb := list_ltb |}.
  - intros l. induction l as [|x l IH]; [done|]. cbn. by rewrite key_irrefl.
  - intros a. induction a as [|x a IH]; intros [|y b] [|z c]; cbn; try done.
    destruct (key_trichotomy x y) as [L|[->|L]]; [| |by rewrite L, (key_lt_asym _ _ L)].
    + destruct (key_trichotomy y z) as [L'|[->|L']]; [| |by rewrite L', (key_lt_asym _ _ L')].
      * by rewrite (key_trans _ _ _ L L').
      * by rewrite L.
    + rewrite !key_irrefl. destruct (key_ltb y z), (key_ltb z y); try done. apply IH.
  - intros a. induction a as [|x a IH]; intros [|y b]; cbn; try done.
    destruct (key_ltb x y) eqn:E1, (key_ltb y x) eqn:E2; try done.
    intros E3 E4. by rewrite (key_total x y), (IH b).
Defined.

(** The order of a tuple that determines the value. *)
Definition order_of {A B} `{KeyOrder B} (f : A -> B) (Hf : forall x y, f x = f y -> x = y) : KeyOrder A :=
  {| key_ltb x y := key_ltb (f x) (f y);
     key_irrefl x := key_irrefl (f x);
     key_trans x y z := key_trans (f x) (f y) (f z);
     key_total x y H1 H2 := Hf x y (key_total _ _ H1 H2) |}.

(** ** The greater of two *)

(** [std::max]: the first unless it is less. *)
Definition key_max `{KeyOrder A} (a b : A) : A := if key_ltb a b then b else a.

Section max.
Context `{KeyOrder A}.
Implicit Types a b c : A.

Lemma key_ltb_total a b : key_ltb a b = false -> a = b \/ key_ltb b a = true.
Proof. intros E. destruct (key_ltb b a) eqn:E2; [by right | left; by apply key_total]. Qed.

Lemma key_max_comm a b : key_max a b = key_max b a.
Proof.
  unfold key_max. destruct (key_ltb a b) eqn:E1, (key_ltb b a) eqn:E2; try done.
  - rewrite (key_lt_asym _ _ E1) in E2. done.
  - by apply key_total.
Qed.

Lemma key_max_idem a : key_max a a = a.
Proof. unfold key_max. by destruct (key_ltb a a). Qed.

Lemma key_max_cases a b : key_max a b = a \/ key_max a b = b.
Proof. unfold key_max. destruct (key_ltb a b); auto. Qed.

(** Not less than either. *)
Lemma key_max_ge a b : key_ltb (key_max a b) a = false /\ key_ltb (key_max a b) b = false.
Proof.
  unfold key_max. destruct (key_ltb a b) eqn:E; split; try apply key_irrefl; [by apply key_lt_asym | done].
Qed.

Lemma key_le_trans a b c : key_ltb b a = false -> key_ltb c b = false -> key_ltb c a = false.
Proof. apply (sw_trans _ (by_key_weak (fun k : A => k))). Qed.

(** Not less than what one of them is not less than. *)
Lemma key_max_above a b c : key_ltb a c = false \/ key_ltb b c = false -> key_ltb (key_max a b) c = false.
Proof. intros [E|E]; (eapply key_le_trans; [exact E|]); apply key_max_ge. Qed.

Lemma key_max_assoc a b c : key_max (key_max a b) c = key_max a (key_max b c).
Proof.
  assert (forall x : A, key_ltb x x = false) as R by apply key_irrefl.
  apply key_total.
  - destruct (key_max_cases a (key_max b c)) as [->| ->]; [|destruct (key_max_cases b c) as [->| ->]]; auto using key_max_above.
  - destruct (key_max_cases (key_max a b) c) as [->| ->]; [destruct (key_max_cases a b) as [->| ->]|]; auto using key_max_above.
Qed.
End max.

(** The opposite order. *)
Definition dual_order {A} (O : KeyOrder A) : KeyOrder A :=
  {| key_ltb a b := key_ltb b a;
     key_irrefl a := key_irrefl a;
     key_trans a b c H1 H2 := key_trans c b a H2 H1;
     key_total a b H1 H2 := key_total a b H2 H1 |}.

(** The second when its key is greater. *)
Definition max_by {A K} `{KeyOrder K} (f : A -> K) (x y : A) : A := if key_ltb (f x) (f y) then y else x.

Section max_by.
Context {A K : Type} `{KeyOrder K} (f : A -> K).

Lemma max_by_key x y : f (max_by f x y) = key_max (f x) (f y).
Proof. unfold max_by, key_max. by destruct (key_ltb _ _). Qed.
Lemma max_by_cases x y : max_by f x y = x \/ max_by f x y = y.
Proof. unfold max_by. destruct (key_ltb _ _); auto. Qed.

(** Associative where elements of one key are the same. *)
Lemma max_by_assoc x y z :
  (f x = f y -> x = y) -> (f x = f z -> x = z) -> (f y = f z -> y = z) ->
  max_by f (max_by f x y) z = max_by f x (max_by f y z).
Proof.
  intros Hxy Hxz Hyz.
  assert (f (max_by f (max_by f x y) z) = f (max_by f x (max_by f y z))) as E
    by (rewrite !max_by_key; apply key_max_assoc).
  destruct (max_by_cases (max_by f x y) z) as [E1|E1], (max_by_cases x (max_by f y z)) as [E2|E2]; rewrite E1, E2 in *;
    destruct (max_by_cases x y) as [E3|E3], (max_by_cases y z) as [E4|E4]; rewrite ?E3, ?E4 in *; auto using eq_sym.
Qed.
End max_by.
