(* ===== verification/Codec.v ===== *)
(** * The binary codec and the shared value types

    [src/src/codec.cpp], [src/src/codec.hpp]: the big-endian [Writer] and the
    bounds-checked [Reader] every record on disk and on the wire goes through,
    and [NodeInfo]'s encoding. [src/src/types.cpp], [src/src/types.hpp]: node
    and object ids, hexadecimal, endpoint keys and identity resets.

    A writer is the bytes written so far; a reader is a buffer and a position.
    [writes m e] says that the writer program [m] appends exactly [e];
    [reads m e x] that the reader program [m] consumes exactly [e], wherever it
    stands in a buffer, and returns [x]. Both compose, so a record's round
    trip is the composition of its fields'. *)

From S2P Require Import Prelude.

Abbreviation NodeId := (array 16).
Abbreviation Hash256 := (array 32).
Abbreviation ObjectId := (array 32).

(** ** Writer *)

Module Writer.

(** [Writer::data_]. *)
Definition t : Type := Bytes.

(** A writer program: appends, or throws. *)
Definition prog : Type := t -> result t.

Definition seq (p q : prog) : prog := fun w => w' ← p w; q w'.
Definition skip : prog := fun w => Ok w.
(** A range-based [for] whose body writes. *)
Fixpoint each {A} (f : A -> prog) (l : list A) : prog :=
  match l with [] => skip | a :: l' => seq (f a) (each f l') end.

Definition push_back (b : byte) : prog := fun w => Ok (w ++ [b]).

Definition u8 (value : Z) : prog := push_back (z2b value).
Definition u16 (value : Z) : prog :=
  seq (push_back (z2b (Z.shiftr value 8))) (push_back (z2b value)).
Definition u32 (value : Z) : prog :=
  each (fun shift => push_back (z2b (Z.shiftr value shift))) [24; 16; 8; 0].
Definition u64 (value : Z) : prog :=
  each (fun shift => push_back (z2b (Z.shiftr value shift))) [56; 48; 40; 32; 24; 16; 8; 0].
(** [static_cast<uint64_t>] of a signed value. *)
Definition i64 (value : Z) : prog := u64 (wrap64 value).
Definition raw (bytes : Bytes) : prog := fun w => Ok (w ++ bytes).
Definition bytes (bs : Bytes) : prog := fun w =>
  if u32_max <? Z.of_nat (length bs) then Throw (RuntimeError "encoded blob too large")
  else seq (u32 (wrap32 (Z.of_nat (length bs)))) (raw bs) w.
(** A [std::string] is its bytes. *)
Definition string (value : Bytes) : prog := bytes value.
Definition fixed {n} (value : array n) : prog := raw (abytes value).

(** What a program writes into an empty writer: [take()] or [data()]. *)
Definition run (p : prog) : result Bytes := p [].

End Writer.

Infix ";;;" := Writer.seq (at level 65, right associativity) : macha_scope.
Open Scope macha_scope.

(** ** Reader *)

Module Reader.

Record t : Type := mk { data : Bytes; position : nat }.

(** A reader program: moves the position and returns a value, or throws. *)
Definition prog (A : Type) : Type := t -> result (A * t).

#[global] Instance prog_ret : MRet prog := fun A a r => Ok (a, r).
#[global] Instance prog_bind : MBind prog := fun A B f m r =>
  match m r with Ok (a, r') => f a r' | Throw e => Throw e end.

Definition throw {A} (e : exn) : prog A := fun _ => Throw e.

Definition remaining (r : t) : nat := length (data r) - position r.

Definition need (count : nat) : prog unit := fun r =>
  if (remaining r <? count)%nat then Throw (DecodeError "truncated input") else Ok (tt, r).

(** [data_[position_++]], in range. *)
Definition next : prog byte := fun r =>
  Ok (nth (position r) (data r) x00, mk (data r) (position r + 1)).

Definition u8 : prog Z :=
  _ ← need 1; b ← next; mret (b2z b).

Definition u16 : prog Z :=
  _ ← need 2;
  a ← next; b ← next;
  mret (Z.lor (wrap16 (Z.shiftl (b2z a) 8)) (b2z b)).

(** [for (i < n) value = (value << 8) | data_[position_++]]. *)
Fixpoint be_loop (wrap : Z -> Z) (n : nat) (value : Z) : prog Z :=
  match n with
  | O => mret value
  | S n' => b ← next; be_loop wrap n' (Z.lor (wrap (Z.shiftl value 8)) (b2z b))
  end.

Definition u32 : prog Z := _ ← need 4; be_loop wrap32 4 0.
Definition u64 : prog Z := _ ← need 8; be_loop wrap64 8 0.

(** [static_cast<int64_t>]. *)
Definition to_i64 (v : Z) : Z := if v <? 2 ^ 63 then v else v - 2 ^ 64.
Definition i64 : prog Z := v ← u64; mret (to_i64 v).

(** [data_.subspan(position_, count)] and the move past it, in range. *)
Definition advance (count : nat) : prog Bytes := fun r =>
  Ok (take count (drop (position r) (data r)), mk (data r) (position r + count)).
Definition view (count : nat) : prog Bytes := _ ← need count; advance count.
(** [raw] copies what [view] borrows. *)
Definition raw (count : nat) : prog Bytes := view count.

Definition bytes (maximum : Z) : prog Bytes :=
  count ← u32;
  if maximum <? count then throw (DecodeError "blob too large") else raw (Z.to_nat count).
Definition view_bytes (maximum : Z) : prog Bytes :=
  count ← u32;
  if maximum <? count then throw (DecodeError "blob too large") else view (Z.to_nat count).
Definition string (maximum : Z) : prog Bytes := view_bytes maximum.

Definition fixed (n : nat) : prog (array n) :=
  bs ← view n;
  match to_array n bs with
  | Some a => mret a
  | None => throw (DecodeError "truncated input")
  end.

Definition finish : prog unit := fun r =>
  if (position r =? length (data r))%nat then Ok (tt, r)
  else Throw (DecodeError "trailing input").

(** A fixed number of iterations of a reading loop, collecting the results. *)
Fixpoint times {A} (n : nat) (p : prog A) : prog (list A) :=
  match n with
  | O => mret []
  | S n' => a ← p; l ← times n' p; mret (a :: l)
  end.

(** Runs a program over a whole buffer. *)
Definition run {A} (p : prog A) (buffer : Bytes) : result A :=
  match p (mk buffer 0) with Ok (a, _) => Ok a | Throw e => Throw e end.

End Reader.

(** ** Node information *)

Definition node_flag_inbound_capable : Z := Z.shiftl 1 0.
Definition node_flag_hosts_extents : Z := Z.shiftl 1 1.
Definition node_flags_default : Z := Z.lor node_flag_inbound_capable node_flag_hosts_extents.

Record NodeInfo : Type := mkNodeInfo {
  ni_id : NodeId;
  ni_host : Bytes;
  ni_failure_domain : Bytes;
  ni_port : Z;
  ni_capacity : Z;
  ni_used : Z;
  ni_seen_unix_ms : Z;
  ni_metadata_generation : Z;
  ni_metadata_write_replicas_required : Z;
  ni_flags : Z
}.

Definition node_inbound_capable (node : NodeInfo) : bool :=
  negb (Z.land (ni_flags node) node_flag_inbound_capable =? 0).
Definition node_hosts_extents (node : NodeInfo) : bool :=
  negb (Z.land (ni_flags node) node_flag_hosts_extents =? 0).
Definition node_flags_for (inbound_capable hosts_extents : bool) : Z :=
  wrap8 (Z.lor (if inbound_capable then node_flag_inbound_capable else 0)
               (if hosts_extents then node_flag_hosts_extents else 0)).

Definition encode_node_info (node : NodeInfo) : Writer.prog :=
  Writer.fixed (ni_id node) ;;;
  Writer.string (ni_host node) ;;;
  Writer.string (ni_failure_domain node) ;;;
  Writer.u16 (ni_port node) ;;;
  Writer.u64 (ni_capacity node) ;;;
  Writer.u64 (ni_used node) ;;;
  Writer.u64 (ni_seen_unix_ms node) ;;;
  Writer.u64 (ni_metadata_generation node) ;;;
  Writer.u32 (ni_metadata_write_replicas_required node) ;;;
  Writer.u8 (ni_flags node).

Definition decode_node_info : Reader.prog NodeInfo :=
  id ← Reader.fixed 16;
  host ← Reader.string 4096;
  domain ← Reader.string 4096;
  port ← Reader.u16;
  capacity ← Reader.u64;
  used ← Reader.u64;
  seen ← Reader.u64;
  generation ← Reader.u64;
  required ← Reader.u32;
  flags ← Reader.u8;
  mret (mkNodeInfo id host domain port capacity used seen generation required flags).

(** ** Hexadecimal *)

Definition hex_digits : Bytes := String.list_byte_of_string "0123456789abcdef".

(** [digits[nibble]]. *)
Definition hex_char (nibble : Z) : byte := nth (Z.to_nat nibble) hex_digits x00.
(** Two characters a byte: the high nibble, then the low one. *)
Definition hex (bs : Bytes) : Bytes :=
  flat_map (fun b => [hex_char (Z.shiftr (b2z b) 4); hex_char (Z.land (b2z b) 15)]) bs.

(** One base-16 digit as [std::from_chars] takes it: either case. *)
Definition hex_digit (c : byte) : option Z :=
  let z := b2z c in
  if (48 <=? z) && (z <=? 57) then Some (z - 48)
  else if (97 <=? z) && (z <=? 102) then Some (z - 87)
  else if (65 <=? z) && (z <=? 70) then Some (z - 55)
  else None.

(** [std::from_chars(begin, begin + 2, parsed, 16)] together with the check
    that it consumed both characters and fits a byte. *)
Definition from_chars2 (a b : byte) : option Z :=
  match hex_digit a, hex_digit b with
  | Some x, Some y => let parsed := x * 16 + y in if 255 <? parsed then None else Some parsed
  | _, _ => None
  end.

Fixpoint unhex_loop (value : Bytes) : option Bytes :=
  match value with
  | a :: b :: rest =>
      match from_chars2 a b, unhex_loop rest with
      | Some parsed, Some out => Some (z2b parsed :: out)
      | _, _ => None
      end
  | _ => Some []
  end.
Definition unhex (value : Bytes) : option Bytes :=
  if Nat.odd (length value) then None else unhex_loop value.

Definition to_string {n} (id : array n) : Bytes := hex (abytes id).

(** ** Endpoints and identity resets *)

Record IdentityAssociationReset : Type := mkReset {
  rs_host : Bytes;
  rs_port : Z;
  rs_stale_node_id : NodeId;
  rs_epoch : Z;
  rs_reset_unix_ms : Z;
  rs_reset_by : NodeId;
  rs_reason : Bytes
}.

(** [std::to_string] of an unsigned value: least significant digit first,
    then reversed. The fuel bounds the number of digits. *)
Fixpoint dec_digits (fuel : nat) (n : Z) : Bytes :=
  match fuel with
  | O => []
  | S f => z2b (48 + n mod 10) :: (if n / 10 =? 0 then [] else dec_digits f (n / 10))
  end.
Definition std_to_string (n : Z) : Bytes := rev (dec_digits 20 n).

Definition endpoint_identity_key (host : Bytes) (port : Z) : Bytes :=
  String.list_byte_of_string "[" ++ host ++ String.list_byte_of_string "]:" ++ std_to_string port.

Definition identity_reset_key (host : Bytes) (port : Z) : Bytes :=
  if negb (port =? 0) then endpoint_identity_key host port
  else String.list_byte_of_string "[" ++ host ++ String.list_byte_of_string "]:*".

Definition identity_reset_matches_endpoint (reset : IdentityAssociationReset)
    (host : Bytes) (port : Z) : bool :=
  bool_decide (rs_host reset = host) && ((rs_port reset =? 0) || (rs_port reset =? port)).

Definition identity_reset_matches_node (reset : IdentityAssociationReset) (node : NodeId) : bool :=
  bool_decide (rs_stale_node_id reset = array_zero 16) ||
  bool_decide (rs_stale_node_id reset = node).

(** [NodeIdHash]: FNV-1a in a [size_t]. *)
Definition node_id_hash (id : NodeId) : Z :=
  foldl (fun value b => wrap64 (Z.lxor value (b2z b) * 1099511628211))
    1469598103934665603 (abytes id).

(** ** Composition of writers and readers *)

Definition writes (p : Writer.prog) (e : Bytes) : Prop := forall w, p w = Ok (w ++ e).

Definition reads {A} (p : Reader.prog A) (e : Bytes) (a : A) : Prop :=
  forall pre post,
    p (Reader.mk (pre ++ e ++ post) (length pre)) =
    Ok (a, Reader.mk (pre ++ e ++ post) (length (pre ++ e))).

Section compose.

Lemma writes_seq p q e1 e2 : writes p e1 -> writes q e2 -> writes (p ;;; q) (e1 ++ e2).
Proof.
  intros Hp Hq w. unfold Writer.seq. rewrite Hp. simpl. by rewrite Hq, app_assoc.
Qed.

Lemma writes_skip : writes Writer.skip [].
Proof. intros w. unfold Writer.skip. by rewrite app_nil_r. Qed.

Lemma writes_raw bs : writes (Writer.raw bs) bs.
Proof. done. Qed.

Lemma writes_push b : writes (Writer.push_back b) [b].
Proof. done. Qed.

Lemma writes_run p e : writes p e -> Writer.run p = Ok e.
Proof. intros H. apply (H []). Qed.

Lemma writes_each {A} (f : A -> Writer.prog) (enc : A -> Bytes) l :
  Forall (fun a => writes (f a) (enc a)) l -> writes (Writer.each f l) (flat_map enc l).
Proof.
  induction 1 as [|a l Ha Hl IH]; simpl; [apply writes_skip | by apply writes_seq].
Qed.

Lemma reads_bind {A B} (p : Reader.prog A) (k : A -> Reader.prog B) e1 e2 a b :
  reads p e1 a -> reads (k a) e2 b -> reads (p ≫= k) (e1 ++ e2) b.
Proof.
  intros Hp Hk pre post. unfold mbind, Reader.prog_bind.
  rewrite <- !app_assoc, Hp.
  specialize (Hk (pre ++ e1) post). rewrite <- !app_assoc in Hk. exact Hk.
Qed.

Lemma reads_ret {A} (a : A) : reads (mret a) [] a.
Proof. intros pre post. simpl. by rewrite app_nil_r. Qed.

(** A pure continuation after a read. *)
Lemma reads_map {A B} (p : Reader.prog A) (f : A -> B) e a :
  reads p e a -> reads (x ← p; mret (f x)) e (f a).
Proof.
  intros Hp. rewrite <- (app_nil_r e). eapply reads_bind; [exact Hp | apply reads_ret].
Qed.

Lemma reads_need n e : (n <= length e)%nat ->
  forall pre post, Reader.need n (Reader.mk (pre ++ e ++ post) (length pre)) =
    Ok (tt, Reader.mk (pre ++ e ++ post) (length pre)).
Proof.
  intros Hn pre post. unfold Reader.need, Reader.remaining. simpl.
  rewrite !length_app. destruct (Nat.ltb_spec (length pre + (length e + length post) - length pre) n);
    [lia | done].
Qed.

(** A program that first checks its length. *)
Lemma reads_needing {A} n (p : Reader.prog A) e a :
  (n <= length e)%nat -> reads p e a -> reads (_ ← Reader.need n; p) e a.
Proof.
  intros Hn Hp pre post. unfold mbind, Reader.prog_bind.
  rewrite reads_need by done. apply Hp.
Qed.

Lemma reads_next b : reads Reader.next [b] b.
Proof.
  intros pre post. unfold Reader.next. simpl. do 3 f_equal.
  - rewrite app_nth2 by lia. by rewrite Nat.sub_diag.
  - rewrite length_app. done.
Qed.

Lemma reads_view bs : reads (Reader.view (length bs)) bs bs.
Proof.
  unfold Reader.view. apply reads_needing; [done|].
  intros pre post. unfold Reader.advance. simpl.
  rewrite drop_app_length, take_app_length, length_app. done.
Qed.

Lemma reads_run {A} (p : Reader.prog A) e a : reads p e a -> Reader.run p e = Ok a.
Proof.
  intros H. unfold Reader.run. specialize (H [] []). simpl in H. rewrite app_nil_r in H.
  by rewrite H.
Qed.

(** A program that ends with [finish] accepts exactly its own encoding. *)
Lemma run_finish {A B} (p : Reader.prog A) (f : A -> B) e a :
  reads p e a -> Reader.run (x ← p; _ ← Reader.finish; mret (f x)) e = Ok (f a).
Proof.
  intros H. unfold Reader.run, mbind, Reader.prog_bind.
  specialize (H [] []). simpl in H. rewrite app_nil_r in H. rewrite H.
  unfold Reader.finish. simpl. by rewrite Nat.eqb_refl.
Qed.

Lemma reads_times {A} (p : Reader.prog A) (enc : A -> Bytes) l :
  Forall (fun a => reads p (enc a) a) l -> reads (Reader.times (length l) p) (flat_map enc l) l.
Proof.
  induction 1 as [|a l Ha Hl IH]; simpl; [apply reads_ret|].
  eapply reads_bind; [exact Ha|]. by apply (reads_map _ (cons a)).
Qed.

End compose.

(** ** Integers *)

(** The low [n] bytes of a value, most significant first. *)
Fixpoint be_bytes (n : nat) (v : Z) : Bytes :=
  match n with
  | O => []
  | S n' => z2b (Z.shiftr v (8 * Z.of_nat n')) :: be_bytes n' v
  end.

Section integers.

Lemma length_be_bytes n v : length (be_bytes n v) = n.
Proof. induction n; simpl; congruence. Qed.

Lemma writes_u8 v : writes (Writer.u8 v) (be_bytes 1 v).
Proof. intros w. unfold Writer.u8, Writer.push_back. simpl. by rewrite Z.shiftr_0_r. Qed.
Lemma writes_u16 v : writes (Writer.u16 v) (be_bytes 2 v).
Proof.
  intros w. unfold Writer.u16, Writer.seq, Writer.push_back. simpl.
  by rewrite <- app_assoc, Z.shiftr_0_r.
Qed.
Lemma writes_u32 v : writes (Writer.u32 v) (be_bytes 4 v).
Proof.
  apply (writes_each _ (fun shift => [z2b (Z.shiftr v shift)])).
  repeat constructor; apply writes_push.
Qed.
Lemma writes_u64 v : writes (Writer.u64 v) (be_bytes 8 v).
Proof.
  apply (writes_each _ (fun shift => [z2b (Z.shiftr v shift)])).
  repeat constructor; apply writes_push.
Qed.

(** Or-ing a shifted value with one that fits below it is addition. *)
Lemma lor_shiftl a n b :
  0 <= n -> 0 <= a -> 0 <= b < 2 ^ n -> Z.lor (Z.shiftl a n) b = a * 2 ^ n + b.
Proof.
  intros Hn Ha Hb.
  assert (Z.land (Z.shiftl a n) b = 0) as Hland.
  { apply Z.bits_inj'. intros i Hi. rewrite Z.land_spec, Z.bits_0, Z.shiftl_spec by done.
    destruct (Z.ltb_spec i n).
    - rewrite Z.testbit_neg_r by lia. done.
    - apply andb_false_iff. right.
      destruct (Z.eq_dec b 0) as [->|]; [apply Z.bits_0|].
      apply Z.bits_above_log2; [lia|].
      apply Z.log2_lt_pow2; [lia|]. apply Z.lt_le_trans with (2 ^ n); [lia|].
      apply Z.pow_le_mono_r; lia. }
  pose proof (Z.add_lor_land (Z.shiftl a n) b) as H. rewrite Hland in H.
  rewrite Z.shiftl_mul_pow2 in * by lia. lia.
Qed.

Lemma lor_shiftl_byte acc b : 0 <= acc -> 0 <= b < 256 -> Z.lor (Z.shiftl acc 8) b = acc * 256 + b.
Proof. intros. by rewrite lor_shiftl by lia. Qed.

Lemma be_bytes_2 v : be_bytes 2 v = [z2b (Z.shiftr v 8); z2b v].
Proof. simpl. by rewrite Z.shiftr_0_r. Qed.
Lemma be_bytes_4 v :
  be_bytes 4 v = [z2b (Z.shiftr v 24); z2b (Z.shiftr v 16); z2b (Z.shiftr v 8); z2b v].
Proof. simpl. by rewrite Z.shiftr_0_r. Qed.

Lemma be_step n v :
  v mod 2 ^ (8 * Z.of_nat (S n)) =
  (Z.shiftr v (8 * Z.of_nat n)) mod 256 * 2 ^ (8 * Z.of_nat n) + v mod 2 ^ (8 * Z.of_nat n).
Proof.
  rewrite Z.shiftr_div_pow2 by lia.
  replace (8 * Z.of_nat (S n)) with (8 * Z.of_nat n + 8) by lia.
  rewrite Z.pow_add_r by lia. change (2 ^ 8) with 256.
  rewrite Z.rem_mul_r by lia. lia.
Qed.

(** A big-endian reading loop in an unsigned type of [8 * w] bits. *)
Lemma reads_be_loop (w : Z) wrap (Hwrap : forall z, wrap z = z mod 2 ^ w) n acc v :
  0 <= acc -> (acc + 1) * 2 ^ (8 * Z.of_nat n) <= 2 ^ w ->
  reads (Reader.be_loop wrap n acc) (be_bytes n v)
    (acc * 2 ^ (8 * Z.of_nat n) + v mod 2 ^ (8 * Z.of_nat n)).
Proof.
  revert acc. induction n as [|n IH]; intros acc Ha Hw.
  - simpl. change (8 * Z.of_nat 0) with 0. rewrite Z.pow_0_r, Z.mod_1_r.
    replace (acc * 1 + 0) with acc by lia. apply reads_ret.
  - rewrite be_step. change (be_bytes (S n) v) with ([z2b (Z.shiftr v (8 * Z.of_nat n))] ++ be_bytes n v).
    set (b := z2b _).
    assert (2 ^ (8 * Z.of_nat (S n)) = 256 * 2 ^ (8 * Z.of_nat n)) as Hp.
    { replace (8 * Z.of_nat (S n)) with (8 + 8 * Z.of_nat n) by lia.
      rewrite Z.pow_add_r by lia. done. }
    assert (0 < 2 ^ (8 * Z.of_nat n)) by (apply Z.pow_pos_nonneg; lia).
    rewrite Hp in Hw |- *.
    assert (Z.lor (wrap (Z.shiftl acc 8)) (b2z b) = acc * 256 + b2z b) as Hstep.
    { rewrite Hwrap, Z.mod_small.
      - apply lor_shiftl_byte; [done | apply b2z_range].
      - rewrite Z.shiftl_mul_pow2 by lia. change (2 ^ 8) with 256. nia. }
    eapply reads_bind; [apply reads_next|]. rewrite Hstep.
    replace (acc * (256 * 2 ^ (8 * Z.of_nat n)) + _) with
      ((acc * 256 + b2z b) * 2 ^ (8 * Z.of_nat n) + v mod 2 ^ (8 * Z.of_nat n)).
    2:{ unfold b. rewrite b2z_z2b. ring. }
    apply IH; pose proof (b2z_range b); nia.
Qed.

Lemma reads_u8 v : 0 <= v < 2 ^ 8 -> reads Reader.u8 (be_bytes 1 v) v.
Proof.
  intros Hv. unfold Reader.u8. apply reads_needing; [done|].
  replace v with (b2z (z2b (Z.shiftr v 0))) at 2.
  - apply (reads_map _ b2z), reads_next.
  - rewrite b2z_z2b, Z.shiftr_0_r. by apply Z.mod_small.
Qed.

Lemma reads_u16 v : 0 <= v < 2 ^ 16 -> reads Reader.u16 (be_bytes 2 v) v.
Proof.
  intros Hv. unfold Reader.u16. apply reads_needing; [done|].
  replace v with (Z.lor (wrap16 (Z.shiftl (b2z (z2b (Z.shiftr v 8))) 8))
                        (b2z (z2b (Z.shiftr v 0)))) at 2.
  - apply (reads_bind _ _ [_] [_] (z2b (Z.shiftr v 8))); [apply reads_next|].
    apply (reads_map _ (fun b => Z.lor (wrap16 (Z.shiftl (b2z (z2b (Z.shiftr v 8))) 8)) (b2z b))).
    apply reads_next.
  - pose proof (b2z_range (z2b (Z.shiftr v 8))) as Hr.
    unfold wrap16. rewrite Z.mod_small.
    2:{ rewrite Z.shiftl_mul_pow2 by lia. lia. }
    rewrite lor_shiftl_byte by (try apply b2z_range; lia).
    rewrite !b2z_z2b, Z.shiftr_0_r, Z.shiftr_div_pow2 by lia. change (2 ^ 8) with 256.
    rewrite (Z.mod_small (v / 256)); [pose proof (Z.div_mod v 256); lia|].
    split; [apply Z.div_pos; lia | apply Z.div_lt_upper_bound; lia].
Qed.

Lemma reads_u32 v : 0 <= v < 2 ^ 32 -> reads Reader.u32 (be_bytes 4 v) v.
Proof.
  intros Hv. unfold Reader.u32. apply reads_needing; [done|].
  pose proof (reads_be_loop 32 wrap32 (fun _ => eq_refl) 4 0 v) as H.
  change (8 * Z.of_nat 4) with 32 in H. rewrite (Z.mod_small v) in H by lia.
  apply H; lia.
Qed.

Lemma reads_u64 v : 0 <= v < 2 ^ 64 -> reads Reader.u64 (be_bytes 8 v) v.
Proof.
  intros Hv. unfold Reader.u64. apply reads_needing; [done|].
  pose proof (reads_be_loop 64 wrap64 (fun _ => eq_refl) 8 0 v) as H.
  change (8 * Z.of_nat 8) with 64 in H. rewrite (Z.mod_small v) in H by lia.
  apply H; lia.
Qed.

Lemma reads_i64 v : - 2 ^ 63 <= v < 2 ^ 63 -> reads Reader.i64 (be_bytes 8 (wrap64 v)) v.
Proof.
  intros Hv. unfold Reader.i64.
  replace v with (Reader.to_i64 (wrap64 v)) at 2.
  - apply (reads_map _ Reader.to_i64), reads_u64, wrap64_range.
  - unfold Reader.to_i64, wrap64. destruct (Z.ltb_spec v 0) as [Hneg|].
    + replace (v mod 2 ^ 64) with (v + 2 ^ 64).
      2:{ apply Z.mod_unique with (-1); lia. }
      destruct (Z.ltb_spec (v + 2 ^ 64) (2 ^ 63)); lia.
    + rewrite Z.mod_small by lia. destruct (Z.ltb_spec v (2 ^ 63)); lia.
Qed.

(** A length-prefixed blob. *)
Definition blob (bs : Bytes) : Bytes := be_bytes 4 (Z.of_nat (length bs)) ++ bs.

Lemma writes_bytes bs : Z.of_nat (length bs) <= u32_max -> writes (Writer.bytes bs) (blob bs).
Proof.
  intros Hl w. unfold Writer.bytes, u32_max in *.
  destruct (Z.ltb_spec (2 ^ 32 - 1) (Z.of_nat (length bs))); [lia|].
  rewrite wrap32_small by lia. unfold blob.
  assert (writes (Writer.u32 (Z.of_nat (length bs)) ;;; Writer.raw bs)
    (be_bytes 4 (Z.of_nat (length bs)) ++ bs)) as H0.
  { apply writes_seq; [apply writes_u32 | apply writes_raw]. }
  exact (H0 w).
Qed.

Lemma reads_view_bytes m bs :
  Z.of_nat (length bs) <= m -> Z.of_nat (length bs) <= u32_max ->
  reads (Reader.view_bytes m) (blob bs) bs.
Proof.
  intros Hm Hl. unfold Reader.view_bytes, blob, u32_max in *.
  eapply reads_bind; [apply reads_u32; lia|].
  destruct (Z.ltb_spec m (Z.of_nat (length bs))); [lia|].
  rewrite Nat2Z.id. apply reads_view.
Qed.
Lemma reads_bytes m bs :
  Z.of_nat (length bs) <= m -> Z.of_nat (length bs) <= u32_max ->
  reads (Reader.bytes m) (blob bs) bs.
Proof. apply reads_view_bytes. Qed.

Lemma writes_fixed {n} (a : array n) : writes (Writer.fixed a) (abytes a).
Proof. apply writes_raw. Qed.

Lemma reads_fixed {n} (a : array n) : reads (Reader.fixed n) (abytes a) a.
Proof.
  unfold Reader.fixed. rewrite <- (app_nil_r (abytes a)).
  eapply reads_bind; [rewrite <- (array_length a) at 1; apply reads_view|].
  rewrite to_array_abytes. apply reads_ret.
Qed.

End integers.

(** The automation of encodings: [writes] and [reads] goals decompose along
    the program, leaving the side conditions on the fields. *)
Create HintDb codec discriminated.
#[export] Hint Resolve writes_u8 writes_u16 writes_u32 writes_u64 writes_fixed writes_raw
  writes_skip : codec.
#[export] Hint Resolve reads_fixed reads_ret : codec.

Ltac solve_writes := repeat (apply writes_seq || solve [auto with codec] || apply writes_bytes).
Ltac solve_reads :=
  repeat lazymatch goal with
    | |- reads (mret _) _ _ => apply reads_ret
    | |- reads (Reader.fixed _) _ _ => apply reads_fixed
    | |- reads Reader.u8 _ _ => apply reads_u8
    | |- reads Reader.u16 _ _ => apply reads_u16
    | |- reads Reader.u32 _ _ => apply reads_u32
    | |- reads Reader.u64 _ _ => apply reads_u64
    | |- reads (Reader.bytes _) _ _ => apply reads_bytes
    | |- reads (Reader.view_bytes _) _ _ => apply reads_view_bytes
    | |- reads (mbind _ _) _ _ => eapply reads_bind
    end.
#[global] Arguments be_bytes : simpl never.
#[global] Opaque be_bytes.

(** ** Truncated input *)

(** [truncates p e]: on any strict prefix of [e] the program throws, and what
    it throws is the reader's bounds check. *)
Definition truncates {A} (p : Reader.prog A) (e : Bytes) : Prop :=
  forall pre e', e' `prefix_of` e -> e' <> e ->
    p (Reader.mk (pre ++ e') (length pre)) = Throw (DecodeError "truncated input").

Section truncation.

Lemma truncates_needing {A} n (p : Reader.prog A) e :
  length e = n -> truncates (_ ← Reader.need n; p) e.
Proof.
  intros Hn pre e' [k ->] Hne. unfold mbind, Reader.prog_bind, Reader.need, Reader.remaining.
  simpl. rewrite length_app in *.
  destruct (Nat.ltb_spec (length pre + length e' - length pre) n); [done|].
  destruct k; simpl in *; [by rewrite app_nil_r in Hne | lia].
Qed.

Lemma truncates_bind {A B} (p : Reader.prog A) (k : A -> Reader.prog B) e1 e2 a :
  truncates p e1 -> reads p e1 a -> truncates (k a) e2 -> truncates (p ≫= k) (e1 ++ e2).
Proof.
  intros Hp Hr Hk pre e' Hpre Hne. unfold mbind, Reader.prog_bind.
  assert ((e' `prefix_of` e1 /\ e' <> e1) \/ exists t, e' = e1 ++ t) as [[H1 H2]|[t ->]].
  { destruct Hpre as [s Hs]. symmetry in Hs.
    apply app_eq_inv in Hs as [(m & -> & ->)|(m & -> & ->)].
    - right. by exists m.
    - destruct m as [|b m].
      + right. exists []. by rewrite !app_nil_r.
      + left. split; [by apply prefix_app_r|]. intros E.
        apply (f_equal length) in E. rewrite length_app in E. simpl in E. lia. }
  - by rewrite Hp.
  - rewrite Hr. specialize (Hk (pre ++ e1) t). rewrite <- app_assoc in Hk.
    apply Hk; [by apply prefix_app_inv in Hpre | by intros ->].
Qed.

Lemma truncates_bind_ret {A B} (p : Reader.prog A) (f : A -> B) e a :
  truncates p e -> reads p e a -> truncates (x ← p; mret (f x)) e.
Proof.
  intros Hp Hr. rewrite <- (app_nil_r e). eapply truncates_bind; [done..|].
  intros pre e' Hpre Hne. by apply prefix_nil_inv in Hpre.
Qed.

Lemma truncates_u8 v : truncates Reader.u8 (be_bytes 1 v).
Proof. apply truncates_needing, length_be_bytes. Qed.
Lemma truncates_u16 v : truncates Reader.u16 (be_bytes 2 v).
Proof. apply truncates_needing, length_be_bytes. Qed.
Lemma truncates_u32 v : truncates Reader.u32 (be_bytes 4 v).
Proof. apply truncates_needing, length_be_bytes. Qed.
Lemma truncates_u64 v : truncates Reader.u64 (be_bytes 8 v).
Proof. apply truncates_needing, length_be_bytes. Qed.
Lemma truncates_view n bs : length bs = n -> truncates (Reader.view n) bs.
Proof. apply truncates_needing. Qed.

Lemma truncates_fixed {n} (a : array n) : truncates (Reader.fixed n) (abytes a).
Proof.
  intros pre e' H1 H2. unfold Reader.fixed, mbind, Reader.prog_bind.
  rewrite (truncates_view n (abytes a)); [done | apply array_length | done | done].
Qed.

Lemma truncates_view_bytes m bs :
  Z.of_nat (length bs) <= m -> Z.of_nat (length bs) <= u32_max ->
  truncates (Reader.view_bytes m) (blob bs).
Proof.
  unfold u32_max. intros Hm Hl. eapply truncates_bind; [apply truncates_u32 | apply reads_u32; lia |].
  destruct (Z.ltb_spec m (Z.of_nat (length bs))); [lia|].
  apply truncates_view. by rewrite Nat2Z.id.
Qed.

End truncation.

Ltac solve_truncates :=
  repeat lazymatch goal with
    | |- truncates (Reader.fixed _) _ => apply truncates_fixed
    | |- truncates Reader.u8 _ => apply truncates_u8
    | |- truncates Reader.u16 _ => apply truncates_u16
    | |- truncates Reader.u32 _ => apply truncates_u32
    | |- truncates Reader.u64 _ => apply truncates_u64
    | |- truncates (Reader.view_bytes _) _ => apply truncates_view_bytes
    | |- truncates (mbind (fun x => mret _) _) _ => eapply truncates_bind_ret
    | |- truncates (mbind _ _) _ => eapply truncates_bind
    | |- reads _ _ _ => progress solve_reads
    end.

(** ** Node information travels unchanged *)

(** Field values their C++ types can hold, and strings the decoder accepts. *)
Definition node_info_ok (node : NodeInfo) : Prop :=
  Z.of_nat (length (ni_host node)) <= 4096 /\
  Z.of_nat (length (ni_failure_domain node)) <= 4096 /\
  0 <= ni_port node < 2 ^ 16 /\
  0 <= ni_capacity node < 2 ^ 64 /\
  0 <= ni_used node < 2 ^ 64 /\
  0 <= ni_seen_unix_ms node < 2 ^ 64 /\
  0 <= ni_metadata_generation node < 2 ^ 64 /\
  0 <= ni_metadata_write_replicas_required node < 2 ^ 32 /\
  0 <= ni_flags node < 2 ^ 8.

(** The bytes of one [NodeInfo] on the wire. *)
Definition node_info_bytes (node : NodeInfo) : Bytes :=
  abytes (ni_id node) ++ blob (ni_host node) ++ blob (ni_failure_domain node) ++
  be_bytes 2 (ni_port node) ++ be_bytes 8 (ni_capacity node) ++ be_bytes 8 (ni_used node) ++
  be_bytes 8 (ni_seen_unix_ms node) ++ be_bytes 8 (ni_metadata_generation node) ++
  be_bytes 4 (ni_metadata_write_replicas_required node) ++ be_bytes 1 (ni_flags node).

Lemma writes_node_info node :
  node_info_ok node -> writes (encode_node_info node) (node_info_bytes node).
Proof.
  unfold node_info_ok, encode_node_info, node_info_bytes, Writer.string.
  intros (Hh & Hd & _). solve_writes; unfold u32_max; lia.
Qed.

Lemma reads_node_info node :
  node_info_ok node -> reads decode_node_info (node_info_bytes node) node.
Proof.
  unfold node_info_ok, decode_node_info, node_info_bytes, Reader.string.
  intros (Hh & Hd & Hp & Hc & Hu & Hs & Hg & Hr & Hf).
  rewrite <- (app_nil_r (be_bytes 1 _)). destruct node; simpl in *.
  solve_reads; unfold u32_max; lia.
Qed.

Lemma truncates_node_info node :
  node_info_ok node -> truncates decode_node_info (node_info_bytes node).
Proof.
  unfold node_info_ok, decode_node_info, node_info_bytes, Reader.string.
  intros (Hh & Hd & Hp & Hc & Hu & Hs & Hg & Hr & Hf).
  solve_truncates; unfold u32_max; lia.
Qed.

(** Whatever a node says about itself reaches a peer unchanged: encoding
    a [NodeInfo] succeeds, and decoding the bytes, followed by anything else
    in the frame, gives the same [NodeInfo] and consumes exactly its bytes. *)
Theorem node_info_roundtrip (node : NodeInfo) (rest : Bytes) :
  node_info_ok node ->
  exists e, Writer.run (encode_node_info node) = Ok e /\
    decode_node_info (Reader.mk (e ++ rest) 0) = Ok (node, Reader.mk (e ++ rest) (length e)).
Proof.
  intros Hok. exists (node_info_bytes node). split.
  - by apply writes_run, writes_node_info.
  - apply (reads_node_info node Hok [] rest).
Qed.

Definition sample_node : NodeInfo :=
  mkNodeInfo (array_zero 16) [x61; x62] [] 7000 (2 ^ 40) 12 99 3 2 3.

Lemma node_info_roundtrip_witness :
  exists e, Writer.run (encode_node_info sample_node) = Ok e /\
    decode_node_info (Reader.mk (e ++ [x00]) 0) =
      Ok (sample_node, Reader.mk (e ++ [x00]) (length e)).
Proof. apply node_info_roundtrip. repeat split; vm_compute; congruence. Defined.

(** A frame cut short never decodes: on every strict prefix of a
    [NodeInfo]'s encoding the decoder throws its bounds-check error, so a
    truncated record is refused rather than read with missing fields. *)
Theorem node_info_truncated (node : NodeInfo) (e cut : Bytes) :
  node_info_ok node -> Writer.run (encode_node_info node) = Ok e ->
  cut `prefix_of` e -> cut <> e ->
  Reader.run decode_node_info cut = Throw (DecodeError "truncated input").
Proof.
  intros Hok He Hpre Hne. rewrite (writes_run _ _ (writes_node_info node Hok)) in He.
  injection He as <-. unfold Reader.run.
  pose proof (truncates_node_info node Hok [] cut Hpre Hne) as H. simpl in H. by rewrite H.
Qed.

Lemma node_info_truncated_witness :
  Reader.run decode_node_info (take 20 (node_info_bytes sample_node)) =
    Throw (DecodeError "truncated input").
Proof.
  apply (node_info_truncated sample_node (node_info_bytes sample_node)).
  - repeat split; vm_compute; congruence.
  - apply writes_run, writes_node_info. repeat split; vm_compute; congruence.
  - apply prefix_take.
  - vm_compute. congruence.
Defined.

(** ** Hexadecimal *)

Lemma hex_pair b :
  from_chars2 (hex_char (Z.shiftr (b2z b) 4)) (hex_char (Z.land (b2z b) 15)) = Some (b2z b).
Proof. destruct b; vm_compute; reflexivity. Qed.

Lemma length_hex bs : length (hex bs) = (2 * length bs)%nat.
Proof. induction bs as [|b bs IH]; simpl in *; [done|]. rewrite IH. lia. Qed.

(** Hexadecimal is a faithful spelling of ids: parsing what [hex] prints
    gives the bytes back, for every byte string. *)
Theorem hex_roundtrip (bs : Bytes) : unhex (hex bs) = Some bs.
Proof.
  unfold unhex. rewrite length_hex.
  rewrite Nat.odd_mul. simpl.
  induction bs as [|b bs IH]; [done|].
  change (unhex_loop (hex (b :: bs))) with
    (match from_chars2 (hex_char (Z.shiftr (b2z b) 4)) (hex_char (Z.land (b2z b) 15)),
       unhex_loop (hex bs) with
     | Some parsed, Some out => Some (z2b parsed :: out)
     | _, _ => None
     end).
  by rewrite hex_pair, IH, z2b_b2z.
Qed.

(** ** Endpoint keys *)

Section decimal.

(** The value of digits, least significant first. *)
Fixpoint dec_value (ds : Bytes) : Z :=
  match ds with [] => 0 | d :: ds' => (b2z d - 48) + 10 * dec_value ds' end.

Lemma dec_digits_value fuel n :
  0 <= n < 10 ^ Z.of_nat fuel -> dec_value (dec_digits fuel n) = n.
Proof.
  revert n. induction fuel as [|f IH]; intros n Hn; simpl; [lia|].
  rewrite Nat2Z.inj_succ, Z.pow_succ_r in Hn by lia.
  pose proof (Z.mod_pos_bound n 10 ltac:(lia)). pose proof (Z.div_mod n 10 ltac:(lia)).
  rewrite b2z_z2b_small by lia.
  destruct (Z.eqb_spec (n / 10) 0) as [E|E]; simpl; [lia|].
  rewrite IH; [lia|]. split; [apply Z.div_pos; lia | apply Z.div_lt_upper_bound; lia].
Qed.

Lemma dec_digits_digit fuel n : Forall (fun d => 48 <= b2z d <= 57) (dec_digits fuel n).
Proof.
  revert n. induction fuel as [|f IH]; intros n; simpl; [constructor|].
  constructor.
  - pose proof (Z.mod_pos_bound n 10 ltac:(lia)). rewrite b2z_z2b_small; lia.
  - destruct (_ =? 0); [constructor | apply IH].
Qed.

Lemma std_to_string_inj n m :
  0 <= n < 2 ^ 64 -> 0 <= m < 2 ^ 64 -> std_to_string n = std_to_string m -> n = m.
Proof.
  intros Hn Hm H. unfold std_to_string in H.
  apply (f_equal (@rev byte)) in H. rewrite !rev_involutive in H.
  assert (2 ^ 64 <= 10 ^ Z.of_nat 20) by (by vm_compute).
  rewrite <- (dec_digits_value 20 n), <- (dec_digits_value 20 m), H by lia. done.
Qed.

Lemma std_to_string_digit n : Forall (fun d => 48 <= b2z d <= 57) (std_to_string n).
Proof. unfold std_to_string. apply Forall_rev, dec_digits_digit. Qed.

(** A suffix with no bracket is found again after the last bracket. *)
Lemma split_last_bracket (h1 h2 p1 p2 : Bytes) :
  x5d ∉ p1 -> x5d ∉ p2 -> h1 ++ x5d :: p1 = h2 ++ x5d :: p2 -> h1 = h2 /\ p1 = p2.
Proof.
  intros H1 H2 E. apply app_eq_inv in E as [(k & -> & E)|(k & -> & E)].
  - destruct k as [|b k]; simpl in E; [rewrite app_nil_r; naive_solver|].
    injection E as <- ->. exfalso. apply H2, elem_of_app. right. left.
  - destruct k as [|b k]; simpl in E; [rewrite app_nil_r; naive_solver|].
    injection E as <- ->. exfalso. apply H1, elem_of_app. right. left.
Qed.

Lemma digit_not_bracket n : x5d ∉ std_to_string n.
Proof.
  intros Hin. pose proof (std_to_string_digit n) as Hf. rewrite Forall_forall in Hf.
  specialize (Hf _ Hin). change (b2z x5d) with 93 in Hf. lia.
Qed.

End decimal.

(** The endpoint key names one endpoint: two endpoints with the same key
    have the same host and the same port, whatever the host contains (IPv6
    colons included), and likewise for the reset key, where port zero (every
    port) is spelled apart from every port. *)
Theorem identity_reset_key_injective (host1 host2 : Bytes) (port1 port2 : Z) :
  0 <= port1 < 2 ^ 16 -> 0 <= port2 < 2 ^ 16 ->
  (identity_reset_key host1 port1 = identity_reset_key host2 port2 ->
     host1 = host2 /\ port1 = port2) /\
  (endpoint_identity_key host1 port1 = endpoint_identity_key host2 port2 ->
     host1 = host2 /\ port1 = port2).
Proof.
  intros H1 H2.
  assert (forall p q : Bytes, x5d ∉ p -> x5d ∉ q ->
    x5b :: host1 ++ x5d :: x3a :: p = x5b :: host2 ++ x5d :: x3a :: q ->
    host1 = host2 /\ p = q) as Hsplit.
  { intros p q Hp Hq [= E]. apply split_last_bracket in E as [-> [= ->]]; [done|..];
      rewrite not_elem_of_cons; done. }
  assert (forall n, x2a :: [] = std_to_string n -> False) as Hstar.
  { intros n E. pose proof (std_to_string_digit n) as Hf. rewrite <- E in Hf.
    apply Forall_cons_1 in Hf as [Hf _]. change (b2z x2a) with 42 in Hf. lia. }
  assert (x5d ∉ [x2a]) as Hns by (intros H; apply list_elem_of_singleton in H; done).
  unfold identity_reset_key, endpoint_identity_key. split.
  - destruct (Z.eqb_spec port1 0) as [->|], (Z.eqb_spec port2 0) as [->|]; simpl; intros E;
      apply Hsplit in E as [-> E]; try done; try apply digit_not_bracket.
    + exfalso. by apply (Hstar port2).
    + exfalso. by apply (Hstar port1).
    + split; [done|]. apply std_to_string_inj in E; lia.
  - intros E. apply Hsplit in E as [-> E]; try apply digit_not_bracket.
    split; [done|]. apply std_to_string_inj in E; lia.
Qed.

Lemma identity_reset_key_injective_witness :
  (identity_reset_key [x3a; x3a; x31] 443 = identity_reset_key [x3a; x3a; x31] 443 ->
     [x3a; x3a; x31] = [x3a; x3a; x31] /\ 443 = 443) /\
  (endpoint_identity_key [x3a; x3a; x31] 443 = endpoint_identity_key [x3a; x3a; x31] 443 ->
     [x3a; x3a; x31] = [x3a; x3a; x31] /\ 443 = 443).
Proof. apply (identity_reset_key_injective [x3a; x3a; x31] [x3a; x3a; x31] 443 443); lia. Defined.

(** ** What is written is what is read

    [carries w p x]: what the writer program [w] appends, the reader program
    [p] consumes, and returns [x]. A record's round trip follows the two
    programs field by field. *)

Definition carries {A} (w : Writer.prog) (p : Reader.prog A) (x : A) : Prop :=
  exists e, writes w e /\ reads p e x.

Section carries.

Lemma carries_bind {A B} w1 w2 (p : Reader.prog A) (k : A -> Reader.prog B) x y :
  carries w1 p x -> carries w2 (k x) y -> carries (w1 ;;; w2) (p ≫= k) y.
Proof.
  intros (e1 & Hw1 & Hr1) (e2 & Hw2 & Hr2). exists (e1 ++ e2).
  split; [by apply writes_seq | by eapply reads_bind].
Qed.

Lemma carries_then {A B} w (p : Reader.prog A) (k : A -> Reader.prog B) x y :
  carries w p x -> reads (k x) [] y -> carries w (p ≫= k) y.
Proof.
  intros (e & Hw & Hr) Hk. exists e. split; [done|]. rewrite <- (app_nil_r e). by eapply reads_bind.
Qed.

Lemma carries_map {A B} w (p : Reader.prog A) (f : A -> B) x :
  carries w p x -> carries w (a ← p; mret (f a)) (f x).
Proof. intros H. eapply carries_then; [exact H | apply reads_ret]. Qed.

Lemma carries_eq {A} w (p : Reader.prog A) x y : carries w p x -> x = y -> carries w p y.
Proof. by intros H ->. Qed.

Lemma carries_skip {A} (x : A) : carries Writer.skip (mret x) x.
Proof. exists []. split; [apply writes_skip | apply reads_ret]. Qed.

Lemma carries_u8 v : 0 <= v < 2 ^ 8 -> carries (Writer.u8 v) Reader.u8 v.
Proof. eexists. split; [apply writes_u8 | by apply reads_u8]. Qed.
Lemma carries_u16 v : 0 <= v < 2 ^ 16 -> carries (Writer.u16 v) Reader.u16 v.
Proof. eexists. split; [apply writes_u16 | by apply reads_u16]. Qed.
Lemma carries_u32 v : 0 <= v < 2 ^ 32 -> carries (Writer.u32 v) Reader.u32 v.
Proof. eexists. split; [apply writes_u32 | by apply reads_u32]. Qed.
Lemma carries_u64 v : 0 <= v < 2 ^ 64 -> carries (Writer.u64 v) Reader.u64 v.
Proof. eexists. split; [apply writes_u64 | by apply reads_u64]. Qed.
Lemma carries_i64 v : - 2 ^ 63 <= v < 2 ^ 63 -> carries (Writer.i64 v) Reader.i64 v.
Proof. eexists. split; [apply writes_u64 | by apply reads_i64]. Qed.
Lemma carries_fixed {n} (a : array n) : carries (Writer.fixed a) (Reader.fixed n) a.
Proof. eexists. split; [apply writes_fixed | apply reads_fixed]. Qed.
Lemma carries_raw bs : carries (Writer.raw bs) (Reader.raw (length bs)) bs.
Proof. eexists. split; [apply writes_raw | apply reads_view]. Qed.
Lemma carries_bytes m bs :
  Z.of_nat (length bs) <= m -> Z.of_nat (length bs) <= u32_max -> carries (Writer.bytes bs) (Reader.bytes m) bs.
Proof. intros. eexists. split; [by apply writes_bytes | by apply reads_bytes]. Qed.
Lemma carries_string m bs :
  Z.of_nat (length bs) <= m -> Z.of_nat (length bs) <= u32_max -> carries (Writer.string bs) (Reader.string m) bs.
Proof. apply carries_bytes. Qed.

(** A message: what was written is read to its end. *)
Lemma carries_run {A} w (p : Reader.prog A) x :
  carries w p x -> exists e, Writer.run w = Ok e /\ Reader.run (a ← p; _ ← Reader.finish; mret a) e = Ok x.
Proof.
  intros (e & Hw & Hr). exists e. split; [by apply writes_run|]. by apply (run_finish p (fun a => a)).
Qed.

End carries.

(** Follows the programs field by field, leaving the bounds of the fields. *)
Ltac carry :=
  repeat lazymatch goal with
    | |- carries (_ ;;; _) (mbind _ _) _ => eapply carries_bind
    | |- carries _ (mbind (fun _ => mret _) _) _ => eapply carries_then; [|apply reads_ret]
    | |- carries (Writer.fixed _) _ _ => apply carries_fixed
    | |- carries (Writer.u8 _) Reader.u8 _ => apply carries_u8
    | |- carries (Writer.u16 _) Reader.u16 _ => apply carries_u16
    | |- carries (Writer.u32 _) Reader.u32 _ => apply carries_u32
    | |- carries (Writer.u64 _) Reader.u64 _ => apply carries_u64
    | |- carries (Writer.i64 _) Reader.i64 _ => apply carries_i64
    | |- carries (Writer.string _) (Reader.string _) _ => apply carries_string
    end.

(** A reading loop that carries a value from one iteration to the next. *)
Fixpoint read_loop {B} (n : nat) (body : B -> Reader.prog B) (b : B) : Reader.prog B :=
  match n with O => mret b | S n' => b' ← body b; read_loop n' body b' end.

Lemma carries_loop {A B} (w : A -> Writer.prog) (body : B -> Reader.prog B) (step : B -> A -> B) (inv : B -> list A -> Prop) :
  (forall b a l, inv b (a :: l) -> carries (w a) (body b) (step b a) /\ inv (step b a) l) ->
  forall l b, inv b l -> carries (Writer.each w l) (read_loop (length l) body b) (foldl step b l).
Proof.
  intros Hstep l. induction l as [|a l IH]; intros b Hb; cbn; [apply carries_skip|].
  destruct (Hstep b a l Hb) as [Ha Hl]. eapply carries_bind; [exact Ha | by apply IH].
Qed.
