(* ===== verification/TorrentRequest.v ===== *)
(** * Torrent requests

    [src/src/torrent/torrent_request.cpp], [torrent_request.hpp]: the durable
    record of a torrent the cluster was asked for, its encoding, and the join
    of two replicas' versions of it. *)

From S2P Require Import Prelude Sorts Maps Orders Codec.

Inductive TorrentPhase : Type :=
  | awaiting_node | downloading | importing | completed | failed | cancelled.
Inductive TorrentDesired : Type :=
  | desired_active | desired_paused | desired_cancelled.

#[global] Instance phase_eq_dec : EqDecision TorrentPhase.
Proof. solve_decision. Defined.
#[global] Instance desired_eq_dec : EqDecision TorrentDesired.
Proof. solve_decision. Defined.

(** [static_cast<uint8_t>] of the enumerators, and back. *)
Definition phase_code (p : TorrentPhase) : Z :=
  match p with
  | awaiting_node => 0 | downloading => 1 | importing => 2 | completed => 3 | failed => 4 | cancelled => 5
  end.
Definition phase_of_code (z : Z) : option TorrentPhase :=
  match z with
  | 0 => Some awaiting_node | 1 => Some downloading | 2 => Some importing
  | 3 => Some completed | 4 => Some failed | 5 => Some cancelled | _ => None
  end.
Definition desired_code (d : TorrentDesired) : Z :=
  match d with desired_active => 0 | desired_paused => 1 | desired_cancelled => 2 end.
Definition desired_of_code (z : Z) : option TorrentDesired :=
  match z with 0 => Some desired_active | 1 => Some desired_paused | 2 => Some desired_cancelled | _ => None end.

#[global] Instance phase_order : KeyOrder TorrentPhase := order_of phase_code ltac:(by intros [] []).
#[global] Instance desired_order : KeyOrder TorrentDesired := order_of desired_code ltac:(by intros [] []).

Definition str (s : string) : Bytes := String.list_byte_of_string s.

Definition torrent_phase_name (p : TorrentPhase) : Bytes :=
  match p with
  | awaiting_node => str "awaiting_node" | downloading => str "downloading" | importing => str "importing"
  | completed => str "completed" | failed => str "failed" | cancelled => str "cancelled"
  end.
Definition parse_torrent_phase (name : Bytes) : option TorrentPhase :=
  find (fun p => bool_decide (torrent_phase_name p = name))
    [awaiting_node; downloading; importing; completed; failed; cancelled].
Definition torrent_phase_terminal (p : TorrentPhase) : bool :=
  bool_decide (p = completed) || bool_decide (p = failed) || bool_decide (p = cancelled).
Definition torrent_desired_name (d : TorrentDesired) : Bytes :=
  match d with
  | desired_active => str "active" | desired_paused => str "paused" | desired_cancelled => str "cancelled"
  end.

Record TorrentClaim : Type := mkTorrentClaim {
  tc_node_id : NodeId;
  tc_epoch : Z;
  tc_claimed_unix_ms : Z
}.

Record TorrentRequest : Type := mkRequest {
  tr_id : Bytes;
  tr_info_hash : Bytes;
  tr_source : Bytes;
  tr_created_unix_ms : Z;
  tr_created_by : NodeId;
  tr_pinned_node_id : option NodeId;
  tr_remove_after_ms : option Z;
  tr_settings_changed_unix_ms : Z;
  tr_settings_changed_by : NodeId;
  tr_desired : TorrentDesired;
  tr_desired_changed_unix_ms : Z;
  tr_desired_changed_by : NodeId;
  tr_claim : option TorrentClaim;
  tr_phase : TorrentPhase;
  tr_phase_epoch : Z;
  tr_progress_unix_ms : Z;
  tr_name : Bytes;
  tr_bytes_total : Z;
  tr_ingest_job_id : Bytes;
  tr_error_code : Bytes;
  tr_error : Bytes;
  tr_completed_unix_ms : Z;
  tr_removed_unix_ms : Z
}.

#[global] Instance torrent_claim_eq_dec : EqDecision TorrentClaim.
Proof. solve_decision. Defined.
#[global] Instance torrent_request_eq_dec : EqDecision TorrentRequest.
Proof. solve_decision. Defined.

(** *** The members, in the order they are declared and compared

    The groups a merge takes from one side. *)
Definition tr_made (r : TorrentRequest) := (tr_id r, (tr_info_hash r, (tr_source r, (tr_created_unix_ms r, tr_created_by r)))).
Definition tr_settings (r : TorrentRequest) :=
  (tr_pinned_node_id r, (tr_remove_after_ms r, (tr_settings_changed_unix_ms r, tr_settings_changed_by r))).
Definition tr_intent (r : TorrentRequest) := (tr_desired r, (tr_desired_changed_unix_ms r, tr_desired_changed_by r)).
Definition tr_owner (r : TorrentRequest) :=
  (tr_phase r, (tr_phase_epoch r, (tr_progress_unix_ms r, (tr_name r, (tr_bytes_total r, (tr_ingest_job_id r,
    (tr_error_code r, (tr_error r, tr_completed_unix_ms r)))))))).
Definition tc_members (c : TorrentClaim) := (tc_node_id c, (tc_epoch c, tc_claimed_unix_ms c)).

Lemma tc_members_inj x y : tc_members x = tc_members y -> x = y.
Proof. destruct x, y. unfold tc_members. cbn. intros E. injection E. by intros; subst. Qed.
#[global] Instance torrent_claim_order : KeyOrder TorrentClaim := order_of tc_members tc_members_inj.

Definition tr_members (r : TorrentRequest) :=
  (tr_made r, (tr_settings r, (tr_intent r, (tr_claim r, (tr_owner r, tr_removed_unix_ms r))))).
Lemma tr_members_inj x y : tr_members x = tr_members y -> x = y.
Proof.
  destruct x, y. unfold tr_members, tr_made, tr_settings, tr_intent, tr_owner. cbn. intros E. injection E.
  intros. by subst.
Qed.
#[global] Instance torrent_request_order : KeyOrder TorrentRequest := order_of tr_members tr_members_inj.

(** ** Encoding *)

Definition request_format : Z := 1.
Definition max_torrent_requests : Z := 65536.
Definition max_torrent_request_text : Z := 8192.

Definition write_optional {A} (w : A -> Writer.prog) (value : option A) : Writer.prog :=
  Writer.u8 (match value with Some _ => 1 | None => 0 end) ;;;
  match value with Some x => w x | None => Writer.skip end.

Definition encode_torrent_request (r : TorrentRequest) : Writer.prog :=
  Writer.u8 request_format ;;;
  Writer.string (tr_id r) ;;;
  Writer.string (tr_info_hash r) ;;;
  Writer.string (tr_source r) ;;;
  Writer.u64 (tr_created_unix_ms r) ;;;
  Writer.fixed (tr_created_by r) ;;;
  write_optional Writer.fixed (tr_pinned_node_id r) ;;;
  write_optional Writer.u64 (tr_remove_after_ms r) ;;;
  Writer.u64 (tr_settings_changed_unix_ms r) ;;;
  Writer.fixed (tr_settings_changed_by r) ;;;
  Writer.u8 (desired_code (tr_desired r)) ;;;
  Writer.u64 (tr_desired_changed_unix_ms r) ;;;
  Writer.fixed (tr_desired_changed_by r) ;;;
  write_optional (fun c => Writer.fixed (tc_node_id c) ;;; Writer.u64 (tc_epoch c) ;;; Writer.u64 (tc_claimed_unix_ms c))
    (tr_claim r) ;;;
  Writer.u8 (phase_code (tr_phase r)) ;;;
  Writer.u64 (tr_phase_epoch r) ;;;
  Writer.u64 (tr_progress_unix_ms r) ;;;
  Writer.string (tr_name r) ;;;
  Writer.u64 (tr_bytes_total r) ;;;
  Writer.string (tr_ingest_job_id r) ;;;
  Writer.string (tr_error_code r) ;;;
  Writer.string (tr_error r) ;;;
  Writer.u64 (tr_completed_unix_ms r) ;;;
  Writer.u64 (tr_removed_unix_ms r).

(** A flag byte that must be 0 or 1, then the value. *)
Definition read_optional {A} (what : string) (p : Reader.prog A) : Reader.prog (option A) :=
  present ← Reader.u8;
  if 1 <? present then Reader.throw (DecodeError what)
  else if present =? 0 then mret None else x ← p; mret (Some x).

Definition read_claim : Reader.prog TorrentClaim :=
  node ← Reader.fixed 16; epoch ← Reader.u64; claimed ← Reader.u64; mret (mkTorrentClaim node epoch claimed).

Definition read_code {A} (what : string) (of_code : Z -> option A) : Reader.prog A :=
  code ← Reader.u8;
  match of_code code with Some x => mret x | None => Reader.throw (DecodeError what) end.

Definition request_text : Reader.prog Bytes := Reader.string max_torrent_request_text.

Definition decode_torrent_request : Reader.prog TorrentRequest :=
  format ← Reader.u8;
  if negb (format =? request_format) then Reader.throw (DecodeError "unknown torrent request format")
  else
    id ← request_text; info_hash ← request_text; source ← request_text;
    created ← Reader.u64; created_by ← Reader.fixed 16;
    pinned ← read_optional "bad torrent request pin" (Reader.fixed 16);
    remove_after ← read_optional "bad torrent request optional" Reader.u64;
    settings_changed ← Reader.u64; settings_by ← Reader.fixed 16;
    desired ← read_code "bad torrent request desired" desired_of_code;
    desired_changed ← Reader.u64; desired_by ← Reader.fixed 16;
    claim ← read_optional "bad torrent request claim" read_claim;
    phase ← read_code "bad torrent request phase" phase_of_code;
    phase_epoch ← Reader.u64; progress ← Reader.u64;
    name ← request_text; bytes_total ← Reader.u64; ingest_job_id ← request_text;
    error_code ← request_text; error ← request_text;
    completed ← Reader.u64; removed ← Reader.u64;
    mret (mkRequest id info_hash source created created_by pinned remove_after settings_changed settings_by
      desired desired_changed desired_by claim phase phase_epoch progress name bytes_total ingest_job_id
      error_code error completed removed).

(** ** Merging one request *)

(** The request with the greater key, else the greater request. *)
Definition later {K} `{KeyOrder K, !EqDecision K} (key : TorrentRequest -> K) (a b : TorrentRequest) : TorrentRequest :=
  if negb (bool_decide (key a = key b)) then if key_ltb (key b) (key a) then a else b
  else if negb (key_ltb a b) then a else b.

Definition claim_beats (x y : TorrentClaim) : bool :=
  if negb (tc_epoch x =? tc_epoch y) then tc_epoch y <? tc_epoch x
  else if negb (tc_claimed_unix_ms x =? tc_claimed_unix_ms y) then tc_claimed_unix_ms x <? tc_claimed_unix_ms y
  else key_ltb (tc_node_id x) (tc_node_id y).

Definition settings_key (r : TorrentRequest) := (tr_settings_changed_unix_ms r, tr_settings_changed_by r).
Definition intent_key (r : TorrentRequest) :=
  (bool_decide (tr_desired r = desired_cancelled), (tr_desired_changed_unix_ms r, tr_desired_changed_by r)).
Definition owner_key (r : TorrentRequest) := (tr_phase_epoch r, (phase_code (tr_phase r), tr_progress_unix_ms r)).

Definition merge_claim (a b : option TorrentClaim) : option TorrentClaim :=
  match a, b with
  | Some x, Some y => if claim_beats x y then a else b
  | Some _, None => a
  | None, _ => b
  end.

Definition merge_torrent_request (a b : TorrentRequest) : TorrentRequest :=
  let out := if negb (key_ltb a b) then a else b in
  let settings := later settings_key a b in
  let intent := later intent_key a b in
  let owner := later owner_key a b in
  mkRequest (tr_id out) (tr_info_hash out) (tr_source out) (tr_created_unix_ms out) (tr_created_by out)
    (tr_pinned_node_id settings) (tr_remove_after_ms settings) (tr_settings_changed_unix_ms settings)
    (tr_settings_changed_by settings)
    (tr_desired intent) (tr_desired_changed_unix_ms intent) (tr_desired_changed_by intent)
    (merge_claim (tr_claim a) (tr_claim b))
    (tr_phase owner) (tr_phase_epoch owner) (tr_progress_unix_ms owner) (tr_name owner) (tr_bytes_total owner)
    (tr_ingest_job_id owner) (tr_error_code owner) (tr_error owner) (tr_completed_unix_ms owner)
    (Z.max (tr_removed_unix_ms a) (tr_removed_unix_ms b)).

(** ** Merging the collections *)

Definition Requests : Type := list (Bytes * TorrentRequest).

Definition live (r : TorrentRequest) : bool :=
  (tr_removed_unix_ms r =? 0) && negb (bool_decide (tr_phase r = cancelled)) &&
  negb (bool_decide (tr_phase r = failed)) && negb (bool_decide (tr_desired r = desired_cancelled)).

(** Absent on the other side: erased there unless changed here since. *)
Definition keep_one_side (base : Requests) (key : Bytes) (present : TorrentRequest) (out : Requests) : Requests :=
  if bool_decide (alookup key base = Some present) then out else default out (map_emplace key present out).

Definition merge_present (base left right : Requests) : Requests :=
  let out := foldl (fun out '(key, l) =>
      match alookup key right with
      | Some r => default out (map_emplace key (merge_torrent_request l r) out)
      | None => keep_one_side base key l out
      end) [] left in
  foldl (fun out '(key, r) => match alookup key left with Some _ => out | None => keep_one_side base key r out end)
    out right.

(** The live requests of each hash: a pointer is the key of its request. *)
Definition by_hash (out : Requests) : list (Bytes * list Bytes) :=
  foldl (fun groups '(key, r) =>
      if live r && negb (bool_decide (tr_info_hash r = []))
      then map_set (tr_info_hash r) (default [] (alookup (tr_info_hash r) groups) ++ [key]) groups
      else groups) [] out.

Definition request_at (out : Requests) (key : Bytes) : TorrentRequest :=
  default (mkRequest [] [] [] 0 (array_zero 16) None None 0 (array_zero 16) desired_active 0 (array_zero 16) None
    awaiting_node 0 0 [] 0 [] [] [] 0 0) (alookup key out).

Definition created_key (out : Requests) (key : Bytes) := (tr_created_unix_ms (request_at out key), tr_id (request_at out key)).

(** A request that another holds the torrent of. *)
Definition lose (holder loser : TorrentRequest) : TorrentRequest :=
  mkRequest (tr_id loser) (tr_info_hash loser) (tr_source loser) (tr_created_unix_ms loser) (tr_created_by loser)
    (tr_pinned_node_id loser) (tr_remove_after_ms loser) (tr_settings_changed_unix_ms loser) (tr_settings_changed_by loser)
    desired_cancelled (Z.max (tr_desired_changed_unix_ms loser) (tr_created_unix_ms holder)) (array_zero 16)
    (tr_claim loser) (tr_phase loser) (tr_phase_epoch loser) (tr_progress_unix_ms loser) (tr_name loser)
    (tr_bytes_total loser) (tr_ingest_job_id loser)
    (str "duplicate_torrent") (str "request " ++ tr_id holder ++ str " holds the same torrent")
    (tr_completed_unix_ms loser) (tr_removed_unix_ms loser).

Definition settle_group (out : Requests) (group : list Bytes) : Requests :=
  if (length group <? 2)%nat then out
  else
    match stable_sort (by_key (created_key out)) group with
    | [] => out
    | first :: losers =>
        foldl (fun out key => map_set key (lose (request_at out first) (request_at out key)) out) out losers
    end.

Definition merge_torrent_requests (base left right : Requests) : Requests :=
  let out := merge_present base left right in
  foldl settle_group out (by_hash out).*2.

(** ** The laws of merging *)

Lemma greater_max (a b : TorrentRequest) : (if negb (key_ltb a b) then a else b) = key_max a b.
Proof. unfold key_max. by destruct (key_ltb a b). Qed.

Section later.
Context {K : Type} `{KeyOrder K, !EqDecision K} (key : TorrentRequest -> K).

Lemma later_comm a b : later key a b = later key b a.
Proof.
  unfold later. destruct (decide (key a = key b)) as [E|E].
  - rewrite !bool_decide_true by congruence. cbn [negb]. rewrite !greater_max. apply key_max_comm.
  - rewrite !bool_decide_false by congruence. cbn [negb].
    destruct (key_trichotomy (key a) (key b)) as [L|[?|L]]; [|done|]; by rewrite (key_lt_asym _ _ L), L.
Qed.

Lemma later_same a : later key a a = a.
Proof. unfold later. by repeat case_match. Qed.

Lemma later_cases a b : later key a b = a \/ later key a b = b.
Proof. unfold later. repeat case_match; auto. Qed.

(** A group of members the key is a function of, the same in requests of the
    same key: the greater key's. *)
Lemma later_group {G} (group : TorrentRequest -> G) (rank : G -> K) a b :
  (forall r, key r = rank (group r)) -> (key a = key b -> group a = group b) ->
  group (later key a b) = max_by rank (group a) (group b).
Proof.
  intros Hk Ht. unfold later, max_by. rewrite <- !Hk. destruct (decide (key a = key b)) as [E|E].
  - rewrite bool_decide_true by done. pose proof (Ht E). cbn [negb]. by repeat case_match.
  - rewrite bool_decide_false by done. cbn [negb].
    destruct (key_trichotomy (key a) (key b)) as [L|[?|L]]; [|done|]; by rewrite (key_lt_asym _ _ L), L.
Qed.
End later.

(** What tells two claims apart: less is better. *)
Definition beat_key (c : TorrentClaim) := (- tc_epoch c, (tc_claimed_unix_ms c, tc_node_id c)).
Lemma beat_key_inj x y : beat_key x = beat_key y -> x = y.
Proof. destruct x, y. unfold beat_key. cbn. intros E. injection E. intros. by f_equal; [..|lia|]. Qed.
Definition claim_rank : KeyOrder TorrentClaim := dual_order (order_of beat_key beat_key_inj).

Lemma claim_beats_rank x y : claim_beats x y = @key_ltb _ claim_rank y x.
Proof.
  unfold claim_beats. cbn. unfold pair_ltb. cbn.
  destruct (Z.eqb_spec (tc_epoch x) (tc_epoch y)) as [->|].
  - unfold pair_ltb. cbn. rewrite (Z.ltb_irrefl (- _)). destruct (Z.eqb_spec (tc_claimed_unix_ms x) (tc_claimed_unix_ms y)) as [->|].
    + by rewrite !Z.ltb_irrefl.
    + cbn [negb]. destruct (Z.ltb_spec (tc_claimed_unix_ms x) (tc_claimed_unix_ms y)); [done|].
      destruct (Z.ltb_spec (tc_claimed_unix_ms y) (tc_claimed_unix_ms x)); [done|lia].
  - cbn [negb]. destruct (Z.ltb_spec (tc_epoch y) (tc_epoch x)), (Z.ltb_spec (- tc_epoch x) (- tc_epoch y));
      try lia; destruct (Z.ltb_spec (- tc_epoch y) (- tc_epoch x)); (done || lia).
Qed.

Lemma merge_claim_max x y : merge_claim (Some x) (Some y) = Some (@key_max _ claim_rank y x).
Proof. cbn [merge_claim]. rewrite claim_beats_rank. unfold key_max. by destruct (key_ltb y x). Qed.

Lemma merge_claim_comm a b : merge_claim a b = merge_claim b a.
Proof.
  destruct a as [x|], b as [y|]; try done. rewrite !merge_claim_max. f_equal. apply key_max_comm.
Qed.
Lemma merge_claim_same a : merge_claim a a = a.
Proof. destruct a as [x|]; [|done]. cbn. by destruct (claim_beats x x). Qed.
Lemma merge_claim_assoc a b c : merge_claim (merge_claim a b) c = merge_claim a (merge_claim b c).
Proof.
  destruct a as [x|], b as [y|], c as [z|]; try done.
  - rewrite !merge_claim_max. f_equal. symmetry. apply key_max_assoc.
  - cbn [merge_claim]. by destruct (claim_beats x y).
Qed.

(** What a merge takes of each group. *)
Lemma max_made (a b : TorrentRequest) : tr_made (key_max a b) = key_max (tr_made a) (tr_made b).
Proof.
  assert (key_ltb a b = pair_ltb (tr_members a) (tr_members b)) as E by done.
  unfold key_max. rewrite E. unfold pair_ltb at 1, tr_members. cbn [fst snd].
  destruct (key_ltb (tr_made a) (tr_made b)) eqn:E1; [done|].
  destruct (key_ltb (tr_made b) (tr_made a)) eqn:E2; [done|]. pose proof (key_total _ _ E1 E2). by case_match.
Qed.

(** What a merge takes of each group. *)
Lemma merge_made a b : tr_made (merge_torrent_request a b) = key_max (tr_made a) (tr_made b).
Proof. rewrite <- max_made, <- greater_max. done. Qed.
Lemma merge_settings a b : tr_settings (merge_torrent_request a b) = tr_settings (later settings_key a b).
Proof. done. Qed.
Lemma merge_intent a b : tr_intent (merge_torrent_request a b) = tr_intent (later intent_key a b).
Proof. done. Qed.
Lemma merge_owner a b : tr_owner (merge_torrent_request a b) = tr_owner (later owner_key a b).
Proof. done. Qed.

Lemma request_ext a b :
  tr_made a = tr_made b -> tr_settings a = tr_settings b -> tr_intent a = tr_intent b -> tr_claim a = tr_claim b ->
  tr_owner a = tr_owner b -> tr_removed_unix_ms a = tr_removed_unix_ms b -> a = b.
Proof. intros E1 E2 E3 E4 E5 E6. apply tr_members_inj. unfold tr_members. by rewrite E1, E2, E3, E4, E5, E6. Qed.

(** Requests that say the same wherever they were last changed at the same
    time by the same node (or stand at the same phase). *)
Record agree (a b : TorrentRequest) : Prop := {
  ag_settings : settings_key a = settings_key b -> tr_settings a = tr_settings b;
  ag_intent : intent_key a = intent_key b -> tr_intent a = tr_intent b;
  ag_owner : owner_key a = owner_key b -> tr_owner a = tr_owner b
}.

Definition settings_rank (g : option NodeId * (option Z * (Z * NodeId))) := g.2.2.
Definition intent_rank (g : TorrentDesired * (Z * NodeId)) := (bool_decide (g.1 = desired_cancelled), g.2).
Definition owner_rank (g : TorrentPhase * (Z * (Z * (Bytes * (Z * (Bytes * (Bytes * (Bytes * Z)))))))) :=
  (g.2.1, (phase_code g.1, g.2.2.1)).

Lemma merge_groups a b :
  agree a b ->
  tr_settings (merge_torrent_request a b) = max_by settings_rank (tr_settings a) (tr_settings b) /\
  tr_intent (merge_torrent_request a b) = max_by intent_rank (tr_intent a) (tr_intent b) /\
  tr_owner (merge_torrent_request a b) = max_by owner_rank (tr_owner a) (tr_owner b).
Proof.
  intros [Hs Hi Ho]. rewrite merge_settings, merge_intent, merge_owner.
  split; [|split]; by apply later_group.
Qed.

Lemma agree_merge a b c : agree a b -> agree a c -> agree b c -> agree (merge_torrent_request a b) c.
Proof.
  intros Hab Hac Hbc. split.
  - change (settings_key ?r) with (settings_rank (tr_settings r)). rewrite merge_settings.
    destruct (later_cases settings_key a b) as [-> | ->]; [apply Hac | apply Hbc].
  - change (intent_key ?r) with (intent_rank (tr_intent r)). rewrite merge_intent.
    destruct (later_cases intent_key a b) as [-> | ->]; [apply Hac | apply Hbc].
  - change (owner_key ?r) with (owner_rank (tr_owner r)). rewrite merge_owner.
    destruct (later_cases owner_key a b) as [-> | ->]; [apply Hac | apply Hbc].
Qed.

Lemma agree_sym a b : agree a b -> agree b a.
Proof. intros [Hs Hi Ho]. split; intros E; symmetry; auto. Qed.

Lemma merge_request_comm a b : merge_torrent_request a b = merge_torrent_request b a.
Proof.
  apply request_ext.
  - rewrite !merge_made. apply key_max_comm.
  - by rewrite !merge_settings, later_comm.
  - by rewrite !merge_intent, later_comm.
  - apply merge_claim_comm.
  - by rewrite !merge_owner, later_comm.
  - apply Z.max_comm.
Qed.

(** Merging torrent requests: whichever replica merges, the result is the
    same; a request merged with itself is itself; and the order three versions
    are merged in does not matter when no two of them were changed at the same
    time by the same node, or stand at the same phase, and yet differ there. *)
Theorem torrent_merge_laws (a b c : TorrentRequest) :
  merge_torrent_request a b = merge_torrent_request b a /\
  merge_torrent_request a a = a /\
  (agree a b -> agree a c -> agree b c ->
   merge_torrent_request (merge_torrent_request a b) c = merge_torrent_request a (merge_torrent_request b c)).
Proof.
  split; [apply merge_request_comm | split].
  - apply request_ext; rewrite ?merge_made, ?merge_settings, ?merge_intent, ?merge_owner, ?later_same; try done.
    + apply key_max_idem.
    + apply merge_claim_same.
    + apply Z.max_id.
  - intros Hab Hac Hbc.
    pose proof (agree_merge a b c Hab Hac Hbc) as H1.
    pose proof (agree_sym _ _ (agree_merge b c a Hbc (agree_sym _ _ Hab) (agree_sym _ _ Hac))) as H2.
    destruct (merge_groups _ _ H1) as (S1 & I1 & O1), (merge_groups _ _ H2) as (S2 & I2 & O2).
    destruct (merge_groups _ _ Hab) as (S3 & I3 & O3), (merge_groups _ _ Hbc) as (S4 & I4 & O4).
    destruct Hab, Hac, Hbc. apply request_ext.
    + rewrite !merge_made. apply key_max_assoc.
    + rewrite S1, S2, S3, S4. by apply max_by_assoc.
    + rewrite I1, I2, I3, I4. by apply max_by_assoc.
    + apply merge_claim_assoc.
    + rewrite O1, O2, O3, O4. by apply max_by_assoc.
    + symmetry. apply Z.max_assoc.
Qed.

Definition sample_request (pinned : byte) (settings_ms : Z) (name : byte) : TorrentRequest :=
  mkRequest [x61] [] [] 0 (array_zero 16) (Some (array_fit 16 [pinned])) None settings_ms (array_zero 16)
    desired_active 0 (array_zero 16) None awaiting_node 0 0 [name] 0 [] [] [] 0 0.

Lemma torrent_merge_laws_witness :
  let a := sample_request x01 1 x61 in let b := sample_request x02 2 x61 in let c := sample_request x03 3 x61 in
  merge_torrent_request (merge_torrent_request a b) c = merge_torrent_request a (merge_torrent_request b c).
Proof.
  intros a b c. apply (torrent_merge_laws a b c); split; try reflexivity; intros E; discriminate E.
Defined.

(** The order three versions are merged in can matter: three versions of
    one request at the same phase, with different names, pinned at different
    times to different nodes. The name of the greatest request is kept, and
    which request is greatest depends on the node the settings pin it to,
    which a merge takes from another version. *)
Theorem torrent_merge_not_associative :
  exists a b c, tr_made a = tr_made b /\ tr_made b = tr_made c /\
    tr_name (merge_torrent_request (merge_torrent_request a b) c) <>
    tr_name (merge_torrent_request a (merge_torrent_request b c)).
Proof.
  exists (sample_request x03 1 x61), (sample_request x01 2 x62), (sample_request x02 0 x63).
  split; [done | split; [done|]]. vm_compute. congruence.
Qed.

(** ** The collections *)

(** A step that puts what [f] gives for an entry, if anything. *)
Definition put_step (f : Bytes -> TorrentRequest -> option TorrentRequest) (out : Requests) (e : Bytes * TorrentRequest) : Requests :=
  match f e.1 e.2 with Some v => default out (map_emplace e.1 v out) | None => out end.

Lemma put_all f l out :
  sorted_recs out -> NoDup l.*1 -> (forall k r, (k, r) ∈ l -> f k r <> None -> alookup k out = None) ->
  sorted_recs (foldl (put_step f) out l) /\
  forall k, alookup k (foldl (put_step f) out l) =
    match alookup k out with Some v => Some v | None => alookup k l ≫= f k end.
Proof.
  revert out. induction l as [|[k1 r1] l IH]; intros out Hs Hn Hd; cbn [foldl].
  { split; [done|]. intros k. by destruct (alookup k out). }
  apply NoDup_cons in Hn as [Hk1 Hn]. pose proof (Hd k1 r1 ltac:(by left)) as Hd1.
  assert (put_step f out (k1, r1) = match f k1 r1 with Some v => map_set k1 v out | None => out end) as ->.
  { unfold put_step, map_emplace. cbn [fst snd]. destruct (f k1 r1); [by rewrite Hd1 | done]. }
  destruct (IH (match f k1 r1 with Some v => map_set k1 v out | None => out end)) as [Hs' Hl].
  - destruct (f k1 r1); [by apply map_set_sorted | done].
  - done.
  - intros k r Hk Hf. assert (k <> k1) by (intros ->; apply Hk1; by apply (list_elem_of_fmap_2 fst _ (k1, r))).
    destruct (f k1 r1); [rewrite map_set_lookup, decide_False by done|]; apply (Hd k r); try done; by right.
  - split; [exact Hs'|]. intros k. rewrite Hl, alookup_cons. destruct (decide (k = k1)) as [->|Hne].
    + cbn. rewrite (proj2 (alookup_None k1 l) Hk1). destruct (f k1 r1) as [v|]; [|done].
      by rewrite map_set_lookup, decide_True, Hd1.
    + destruct (f k1 r1) as [v|]; [by rewrite map_set_lookup, decide_False by done | done].
Qed.

(** What a merge makes of a request at a key. *)
Definition kept_one (base : Requests) (k : Bytes) (r : TorrentRequest) : option TorrentRequest :=
  if bool_decide (alookup k base = Some r) then None else Some r.
Definition merged_at (base : Requests) (k : Bytes) (l r : option TorrentRequest) : option TorrentRequest :=
  match l, r with
  | Some x, Some y => Some (merge_torrent_request x y)
  | Some x, None | None, Some x => kept_one base k x
  | None, None => None
  end.

Lemma foldl_same {A B} (f g : B -> A -> B) b l : (forall b a, f b a = g b a) -> foldl f b l = foldl g b l.
Proof. intros E. revert b. induction l as [|a l IH]; intros b; [done|]. cbn. by rewrite E, IH. Qed.

Lemma merge_present_ok base left right :
  sorted_recs left -> sorted_recs right ->
  sorted_recs (merge_present base left right) /\
  forall k, alookup k (merge_present base left right) = merged_at base k (alookup k left) (alookup k right).
Proof.
  intros Hl Hr. unfold merge_present.
  set (f := fun k l => match alookup k right with Some r => Some (merge_torrent_request l r) | None => kept_one base k l end).
  set (g := fun k r => match alookup k left with Some _ => None | None => kept_one base k r end).
  rewrite (foldl_same _ (put_step g) _ right).
  2:{ intros out [k r]. unfold put_step, g, keep_one_side, kept_one. cbn [fst snd].
      destruct (alookup k left); [done|]. by destruct (bool_decide _). }
  rewrite (foldl_same _ (put_step f) [] left).
  2:{ intros out [k l]. unfold put_step, f, keep_one_side, kept_one. cbn [fst snd].
      destruct (alookup k right); [done|]. by destruct (bool_decide _). }
  pose proof (sorted_keys_NoDup _ Hl) as Nl. pose proof (sorted_keys_NoDup _ Hr) as Nr.
  destruct (put_all f left []) as [S1 E1]; [by apply SSorted_nil | done | done |].
  cbn [alookup] in E1.
  destruct (put_all g right (foldl (put_step f) [] left)) as [S2 E2]; [done | done | |].
  { intros k r _ Hg. rewrite E1. unfold g in Hg. by destruct (alookup k left). }
  split; [exact S2|]. intros k. rewrite E2, E1. unfold f, g, merged_at, kept_one.
  destruct (alookup k left) as [x|], (alookup k right) as [y|]; cbn; try done.
  by destruct (bool_decide _).
Qed.

Lemma merge_present_comm base left right :
  sorted_recs left -> sorted_recs right -> merge_present base left right = merge_present base right left.
Proof.
  intros Hl Hr. destruct (merge_present_ok base left right Hl Hr) as [S1 E1].
  destruct (merge_present_ok base right left Hr Hl) as [S2 E2].
  apply sorted_recs_ext; [done..|]. intros k. rewrite E1, E2. unfold merged_at.
  destruct (alookup k left), (alookup k right); try done. by rewrite merge_request_comm.
Qed.

(** *** Requests for one torrent *)

Definition contends (h : Bytes) (r : TorrentRequest) : Prop := live r = true /\ tr_info_hash r = h /\ h <> [].

Definition hash_step (groups : list (Bytes * list Bytes)) (e : Bytes * TorrentRequest) : list (Bytes * list Bytes) :=
  if live e.2 && negb (bool_decide (tr_info_hash e.2 = []))
  then map_set (tr_info_hash e.2) (default [] (alookup (tr_info_hash e.2) groups) ++ [e.1]) groups
  else groups.

Lemma contends_iff h r :
  live r && negb (bool_decide (tr_info_hash r = [])) && bool_decide (tr_info_hash r = h) <-> contends h r.
Proof.
  unfold contends. destruct (live r); cbn [andb]; [|split; [done | by intros []]].
  destruct (decide (tr_info_hash r = h)) as [<-|Hne].
  - rewrite (bool_decide_true (tr_info_hash r = tr_info_hash r)) by done. rewrite andb_true_r.
    destruct (decide (tr_info_hash r = [])) as [E|E].
    + rewrite bool_decide_true by done. by split; [|intros (_ & _ & ?)].
    + rewrite bool_decide_false by done. by split.
  - rewrite (bool_decide_false (tr_info_hash r = h)) by done. rewrite andb_false_r. by split; [|intros (_ & ? & _)].
Qed.

Lemma by_hash_step out : by_hash out = foldl hash_step [] out.
Proof. apply foldl_same. by intros groups [k r]. Qed.

(** Each group has the keys of the live requests of its hash, in order. *)
Lemma hash_steps out groups :
  sorted_recs groups ->
  sorted_recs (foldl hash_step groups out) /\
  forall h, default [] (alookup h (foldl hash_step groups out)) =
    default [] (alookup h groups) ++
    (base.filter (fun e : Bytes * TorrentRequest => live e.2 && negb (bool_decide (tr_info_hash e.2 = [])) &&
       bool_decide (tr_info_hash e.2 = h)) out).*1.
Proof.
  revert groups. induction out as [|[k r] out IH]; intros groups Hs; cbn [foldl].
  { split; [done|]. intros h. by rewrite app_nil_r. }
  destruct (IH (hash_step groups (k, r))) as [Hs' Hl].
  { unfold hash_step. destruct (_ && _); [by apply map_set_sorted | done]. }
  split; [done|]. intros h. rewrite Hl, filter_cons. unfold hash_step. cbn [fst snd].
  destruct (live r && negb (bool_decide (tr_info_hash r = []))); cbn [andb]; [|done].
  rewrite map_set_lookup. destruct (decide (h = tr_info_hash r)) as [->|Hne].
  - rewrite bool_decide_true, decide_True by done. cbn. by rewrite <- app_assoc.
  - rewrite bool_decide_false, decide_False by (congruence || by intros []). done.
Qed.

Lemma hash_groups_nonempty out h groups :
  (h, []) ∉ groups -> (h, []) ∉ foldl hash_step groups out.
Proof.
  revert groups. induction out as [|[k r] out IH]; intros groups Hn; cbn [foldl]; [done|]. apply IH.
  unfold hash_step. cbn [fst snd]. destruct (_ && _); [|done]. intros [E|Hin]%map_set_keys; [|done].
  injection E as _ E. by apply app_cons_not_nil in E.
Qed.

Lemma by_hash_ok out h g :
  sorted_recs out -> (h, g) ∈ by_hash out ->
  NoDup g /\ forall k, k ∈ g <-> exists r, alookup k out = Some r /\ contends h r.
Proof.
  intros Hs Hin. rewrite by_hash_step in Hin. destruct (hash_steps out []) as [Hs' Hl]; [by apply SSorted_nil|].
  specialize (Hl h). rewrite (elem_alookup_Some h g _ Hs' Hin) in Hl. cbn in Hl. subst g. split.
  - apply sorted_keys_NoDup. by apply sorted_recs_filter.
  - intros k. rewrite list_elem_of_fmap. split.
    + intros ([k' r] & -> & Hr). apply list_elem_of_filter in Hr as [Hp Hr]. cbn [fst snd] in *.
      exists r. split; [by apply elem_alookup_Some | by apply contends_iff].
    + intros (r & Hr & Hc). exists (k, r). split; [done|]. apply list_elem_of_filter.
      split; [by apply contends_iff | by apply alookup_Some_elem].
Qed.

Lemma by_hash_has out k r h :
  sorted_recs out -> alookup k out = Some r -> contends h r -> exists g, (h, g) ∈ by_hash out /\ k ∈ g.
Proof.
  intros Hs Hr Hc. rewrite by_hash_step. destruct (hash_steps out []) as [Hs' Hl]; [by apply SSorted_nil|].
  specialize (Hl h). cbn in Hl.
  assert (k ∈ default [] (alookup h (foldl hash_step [] out))) as Hk.
  { rewrite Hl. apply list_elem_of_fmap. exists (k, r). split; [done|]. apply list_elem_of_filter.
    split; [by apply contends_iff | by apply alookup_Some_elem]. }
  destruct (alookup h (foldl hash_step [] out)) as [g|] eqn:Eg; [|by apply not_elem_of_nil in Hk].
  exists g. split; [by apply alookup_Some_elem | done].
Qed.

(** The losers of a group, one after another. *)
Lemma losers_ok first losers out f :
  first ∉ losers -> NoDup losers -> sorted_recs out -> alookup first out = Some f ->
  (forall k, k ∈ losers -> is_Some (alookup k out)) ->
  let out' := foldl (fun out key => map_set key (lose (request_at out first) (request_at out key)) out) out losers in
  sorted_recs out' /\
  forall k, alookup k out' = if decide (k ∈ losers) then lose f <$> alookup k out else alookup k out.
Proof.
  revert out. induction losers as [|k1 losers IH]; intros out Hf Hn Hs Ef Hk; cbn [foldl].
  { split; [done|]. intros k. by rewrite decide_False by apply not_elem_of_nil. }
  apply NoDup_cons in Hn as [Hk1 Hn]. apply not_elem_of_cons in Hf as [Hf1 Hf].
  destruct (Hk k1) as [r1 E1]; [by left|]. 
  assert (request_at out first = f) as -> by (unfold request_at; by rewrite Ef).
  assert (request_at out k1 = r1) as -> by (unfold request_at; by rewrite E1).
  destruct (IH (map_set k1 (lose f r1) out)) as [Hs' Hl].
  - done.
  - done.
  - by apply map_set_sorted.
  - by rewrite map_set_lookup, decide_False.
  - intros k Hin. rewrite map_set_lookup. destruct (decide (k = k1)); [done|]. apply Hk. by right.
  - split; [done|]. intros k. rewrite Hl, map_set_lookup. destruct (decide (k = k1)) as [->|Hne].
    + rewrite decide_False by done. rewrite decide_True by (by left). by rewrite E1.
    + destruct (decide (k ∈ losers)); [by rewrite decide_True by (by right)|].
      by rewrite decide_False by (rewrite not_elem_of_cons; done).
Qed.

(** What becomes of a group: one holder, the earliest, and the others lose. *)
Definition group_settled (g : list Bytes) (out out' : Requests) : Prop :=
  exists first f, first ∈ g /\ alookup first out = Some f /\
    (forall k r, k ∈ g -> alookup k out = Some r ->
       key_ltb (tr_created_unix_ms r, tr_id r) (tr_created_unix_ms f, tr_id f) = false /\
       alookup k out' = Some (if decide (k = first) then r else lose f r)).

Lemma settle_group_ok out g :
  g <> [] -> NoDup g -> sorted_recs out -> (forall k, k ∈ g -> is_Some (alookup k out)) ->
  sorted_recs (settle_group out g) /\ group_settled g out (settle_group out g) /\
  forall k, k ∉ g -> alookup k (settle_group out g) = alookup k out.
Proof.
  intros Hne Hn Hs Hk. unfold settle_group. destruct (Nat.ltb_spec (length g) 2) as [Hl|Hl].
  { split; [done|]. split; [|done]. destruct g as [|k1 [|k2 g]]; [done| |cbn in Hl; lia].
    destruct (Hk k1) as [f Ef]; [by left|]. exists k1, f. split; [by left|]. split; [done|].
    intros k r ->%list_elem_of_singleton Er. replace f with r by congruence. split; [apply key_irrefl|].
    by rewrite decide_True. }
  pose proof (stable_sort_perm (by_key (created_key out)) g) as Hp.
  destruct (stable_sort (by_key (created_key out)) g) as [|first losers] eqn:E.
  { apply Permutation_nil_l in Hp. done. }
  assert (first ∈ g) as Hfirst by (rewrite <- Hp; by left). destruct (Hk first Hfirst) as [f Ef].
  rewrite <- Hp in Hn. apply NoDup_cons in Hn as [Hf Hn].
  destruct (losers_ok first losers out f) as [Hs' Hl']; [done.. | |].
  { intros k Hin. apply Hk. rewrite <- Hp. by right. }
  split; [done|]. split.
  - exists first, f. split; [done|]. split; [done|]. intros k r Hin Er. split.
    + pose proof (sort_head _ (by_key_weak (created_key out)) g first losers E k Hin) as Hh.
      unfold by_key, created_key, request_at in Hh. by rewrite Ef, Er in Hh.
    + rewrite Hl', Er. rewrite <- Hp in Hin. apply elem_of_cons in Hin as [->|Hin].
      * by rewrite decide_False, decide_True.
      * rewrite decide_True by done. rewrite decide_False by (by intros ->). done.
  - intros k Hk'. rewrite Hl', decide_False; [done|]. intros Hin. apply Hk'. rewrite <- Hp. by right.
Qed.

Lemma group_settled_ext g out out' out1 out1' :
  (forall k, k ∈ g -> alookup k out = alookup k out1) -> (forall k, k ∈ g -> alookup k out' = alookup k out1') ->
  group_settled g out out' -> group_settled g out1 out1'.
Proof.
  intros E E' (first & f & Hin & Hf & Hall). exists first, f. split; [done|]. split; [by rewrite <- E|].
  intros k r Hk Hr. rewrite <- E in Hr by done. rewrite <- E' by done. by apply Hall.
Qed.

Lemma settle_all (gs : list (Bytes * list Bytes)) out :
  NoDup gs.*1 -> sorted_recs out ->
  (forall h g, (h, g) ∈ gs -> g <> [] /\ NoDup g /\ forall k, k ∈ g -> is_Some (alookup k out)) ->
  (forall h g h' g' k, (h, g) ∈ gs -> (h', g') ∈ gs -> k ∈ g -> k ∈ g' -> h = h') ->
  (forall h g, (h, g) ∈ gs -> group_settled g out (foldl settle_group out gs.*2)) /\
  forall k, (forall h g, (h, g) ∈ gs -> k ∉ g) -> alookup k (foldl settle_group out gs.*2) = alookup k out.
Proof.
  revert out. induction gs as [|[h1 g1] gs IH]; intros out Hn Hs Hg Hd.
  { split; [by intros h g ?%not_elem_of_nil | done]. }
  apply NoDup_cons in Hn as [Hh1 Hn]. destruct (Hg h1 g1) as (Hne & Hn1 & Hk1); [by left|].
  destruct (settle_group_ok out g1 Hne Hn1 Hs Hk1) as (Hs1 & Hset & Hother).
  assert (forall h g k, (h, g) ∈ gs -> k ∈ g -> k ∉ g1) as Hapart.
  { intros h g k Hin Hk Hk'. assert (h = h1) as -> by (eapply (Hd h g h1 g1 k); auto using list_elem_of_here, list_elem_of_further).
    apply Hh1. by apply (list_elem_of_fmap_2 fst _ (h1, g)). }
  rewrite fmap_cons. cbn [snd foldl]. destruct (IH (settle_group out g1) Hn Hs1) as [Hrest Hsame].
  - intros h g Hin. destruct (Hg h g) as (? & ? & Hk); [by right|]. split; [done|]. split; [done|].
    intros k Hkin. rewrite Hother by eauto. by apply Hk.
  - intros h g h' g' k Hin Hin'. apply Hd; by right.
  - split.
    + intros h g [[= -> ->]|Hin]%elem_of_cons.
      * eapply (group_settled_ext g1); [| |exact Hset]; [done|]. intros k Hk. symmetry. apply Hsame.
        intros h g Hin Hk'. by apply (Hapart h g k).
      * eapply (group_settled_ext g); [| |by apply (Hrest h g)]; [|done]. intros k Hk. apply Hother. by apply (Hapart h g).
    + intros k Hk. rewrite Hsame by (intros h g Hin; apply (Hk h); by right). apply Hother, (Hk h1). by left.
Qed.

(** A request after the merge: as merged, or cancelled because a live request
    for the same torrent, made no later, holds it. *)
Definition settled_as (base left right : Requests) (k : Bytes) (r : option TorrentRequest) : Prop :=
  let at_ k := merged_at base k (alookup k left) (alookup k right) in
  r = at_ k \/
  exists x first f h, at_ k = Some x /\ at_ first = Some f /\ first <> k /\ contends h x /\ contends h f /\
    key_ltb (tr_created_unix_ms x, tr_id x) (tr_created_unix_ms f, tr_id f) = false /\ r = Some (lose f x).

Lemma lose_dead f x : live (lose f x) = false.
Proof. unfold live, lose. cbn [tr_desired]. rewrite (bool_decide_true (desired_cancelled = _)) by done. apply andb_false_r. Qed.

Lemma groups_settled base left right :
  sorted_recs left -> sorted_recs right ->
  let out := merge_present base left right in
  (forall h g, (h, g) ∈ by_hash out -> group_settled g out (merge_torrent_requests base left right)) /\
  forall k, (forall h g, (h, g) ∈ by_hash out -> k ∉ g) ->
    alookup k (merge_torrent_requests base left right) = alookup k out.
Proof.
  intros Hl Hr out. destruct (merge_present_ok base left right Hl Hr) as [Hs _]. fold out in Hs.
  apply settle_all.
  - rewrite by_hash_step. apply sorted_keys_NoDup. apply (hash_steps out []). by apply SSorted_nil.
  - done.
  - intros h g Hin. destruct (by_hash_ok out h g Hs Hin) as [Hn Hk]. split; [|split; [done|]].
    + intros ->. rewrite by_hash_step in Hin. revert Hin. apply hash_groups_nonempty, not_elem_of_nil.
    + intros k (r & Hrk & _)%Hk. by exists r.
  - intros h g h' g' k Hin Hin' Hk Hk'.
    apply (by_hash_ok out h g Hs Hin) in Hk as (r & Er & _ & E & _).
    apply (by_hash_ok out h' g' Hs Hin') in Hk' as (r' & Er' & _ & E' & _). congruence.
Qed.

(** A request that does not contend is as merged; one that does is in its
    hash's group. *)
Lemma request_settled base left right k x :
  sorted_recs left -> sorted_recs right ->
  let out := merge_torrent_requests base left right in
  let present := merge_present base left right in
  alookup k present = Some x ->
  (alookup k out = Some x /\ ~ contends (tr_info_hash x) x) \/
  (contends (tr_info_hash x) x /\
   exists g, (tr_info_hash x, g) ∈ by_hash present /\ k ∈ g /\ group_settled g present out).
Proof.
  intros Hl Hr out present Ex. destruct (merge_present_ok base left right Hl Hr) as [Hs _].
  destruct (groups_settled base left right Hl Hr) as [Hset Hsame]. fold out present in Hset, Hsame, Hs.
  destruct (decide (live x && negb (bool_decide (tr_info_hash x = [])) && bool_decide (tr_info_hash x = tr_info_hash x)))
    as [Hc|Hc]; rewrite contends_iff in Hc.
  - right. split; [done|]. destruct (by_hash_has present k x _ Hs Ex Hc) as (g & Hin & Hk). exists g. by eauto.
  - left. split; [|done]. rewrite Hsame, Ex; [done|]. intros h g Hin Hk.
    apply (by_hash_ok present h g Hs Hin) in Hk as (y & Ey & Hy). replace y with x in Hy by congruence.
    apply Hc. destruct Hy as (? & E & ?). by rewrite E.
Qed.

(** Merging two collections of requests gives the same from either side.
    Every key has the merge of its two versions, or the one version there is
    unless the other side erased it since the base; except that of several
    live requests for one torrent the earliest holds it and the others are
    cancelled, so no two live requests are for the same torrent. *)
Theorem torrent_requests_merge (base left right : Requests) :
  sorted_recs left -> sorted_recs right ->
  let out := merge_torrent_requests base left right in
  out = merge_torrent_requests base right left /\
  (forall k, settled_as base left right k (alookup k out)) /\
  (forall k k' r r', alookup k out = Some r -> alookup k' out = Some r' -> live r = true -> live r' = true ->
     tr_info_hash r = tr_info_hash r' -> tr_info_hash r <> [] -> k = k').
Proof.
  intros Hl Hr out. destruct (merge_present_ok base left right Hl Hr) as [Hs Hat].
  destruct (groups_settled base left right Hl Hr) as [_ Hsame]. fold out in Hsame.
  pose proof (fun k x => request_settled base left right k x Hl Hr) as Hcases. fold out in Hcases.
  set (present := merge_present base left right) in *.
  assert (forall k, alookup k present = None -> alookup k out = None) as Hnone.
  { intros k Ek. rewrite Hsame; [done|]. intros h g Hin Hk.
    apply (by_hash_ok present h g Hs Hin) in Hk as (y & Ey & _). congruence. }
  split; [unfold out, merge_torrent_requests; by rewrite merge_present_comm|]. split.
  - intros k. unfold settled_as. rewrite <- Hat. destruct (alookup k present) as [x|] eqn:Ex; [|left; by apply Hnone].
    destruct (Hcases k x Ex) as [[-> _]|(Hc & g & Hin & Hk & first & f & Hf & Ef & Hall)]; [by left|].
    destruct (Hall k x Hk Ex) as [Ho ->]. destruct (decide (k = first)) as [->|Hne]; [by left|]. right.
    apply (by_hash_ok present _ g Hs Hin) in Hf as (f' & Ef' & Hcf). replace f' with f in Hcf by congruence.
    exists x, first, f, (tr_info_hash x). rewrite <- Hat. by auto 10.
  - assert (forall k r, alookup k out = Some r -> live r = true -> tr_info_hash r <> [] -> exists g,
      (tr_info_hash r, g) ∈ by_hash present /\ k ∈ g /\ alookup k present = Some r /\ group_settled g present out) as Hlive.
    { intros k r Er L N. destruct (alookup k present) as [x|] eqn:Ex; [|by rewrite Hnone in Er].
      destruct (Hcases k x Ex) as [[E Hc]|(Hc & g & Hin & Hk & Hset)].
      - exfalso. replace x with r in Hc by congruence. by apply Hc.
      - pose proof Hset as (first & f & _ & _ & Hall). destruct (Hall k x Hk Ex) as [_ E]. rewrite E in Er.
        injection Er as <-. destruct (decide (k = first)); [|by rewrite lose_dead in L]. exists g. done. }
    intros k k' r r' Er Er' L L' E N. destruct (Hlive k r Er L N) as (g & Hin & Hk & Ek & Hset).
    destruct (Hlive k' r' Er' L') as (g' & Hin' & Hk' & Ek' & _); [congruence|]. rewrite <- E in Hin'.
    assert (g' = g) as ->.
    { rewrite by_hash_step in Hin, Hin'. destruct (hash_steps present []) as [Hsg _]; [by apply SSorted_nil|].
      apply (elem_alookup_Some _ _ _ Hsg) in Hin, Hin'. congruence. }
    destruct Hset as (first & f & _ & _ & Hall).
    destruct (Hall k r Hk Ek) as [_ F], (Hall k' r' Hk' Ek') as [_ F']. rewrite Er in F. rewrite Er' in F'.
    assert (k = first) as ->.
    { destruct (decide (k = first)); [done|]. injection F as F. by rewrite F, lose_dead in L. }
    destruct (decide (k' = first)) as [->|]; [done|]. injection F' as F'. by rewrite F', lose_dead in L'.
Qed.

Lemma torrent_requests_merge_witness :
  let r k ms := mkRequest [k] [x68] [] ms (array_zero 16) None None 0 (array_zero 16) desired_active 0 (array_zero 16)
    None awaiting_node 0 0 [] 0 [] [] [] 0 0 in
  let left := [([x61], r x61 2)] in let right := [([x62], r x62 1)] in
  let out := merge_torrent_requests [] left right in
  out = merge_torrent_requests [] right left /\
  (forall k, settled_as [] left right k (alookup k out)) /\
  (forall k k' r r', alookup k out = Some r -> alookup k' out = Some r' -> live r = true -> live r' = true ->
     tr_info_hash r = tr_info_hash r' -> tr_info_hash r <> [] -> k = k').
Proof. intros r left right. apply (torrent_requests_merge [] left right); repeat constructor. Defined.

(** ** Requests travel unchanged *)

Definition text_ok (s : Bytes) : Prop := Z.of_nat (length s) <= max_torrent_request_text.
Definition u64_ok (z : Z) : Prop := 0 <= z < 2 ^ 64.

(** Field values their C++ types can hold, and texts the decoder accepts. *)
Definition request_ok (r : TorrentRequest) : Prop :=
  Forall text_ok [tr_id r; tr_info_hash r; tr_source r; tr_name r; tr_ingest_job_id r; tr_error_code r; tr_error r] /\
  Forall u64_ok [tr_created_unix_ms r; tr_settings_changed_unix_ms r; tr_desired_changed_unix_ms r; tr_phase_epoch r;
    tr_progress_unix_ms r; tr_bytes_total r; tr_completed_unix_ms r; tr_removed_unix_ms r] /\
  (forall ms, tr_remove_after_ms r = Some ms -> u64_ok ms) /\
  (forall c, tr_claim r = Some c -> u64_ok (tc_epoch c) /\ u64_ok (tc_claimed_unix_ms c)).

Lemma request_eta r :
  r = mkRequest (tr_id r) (tr_info_hash r) (tr_source r) (tr_created_unix_ms r) (tr_created_by r) (tr_pinned_node_id r)
    (tr_remove_after_ms r) (tr_settings_changed_unix_ms r) (tr_settings_changed_by r) (tr_desired r)
    (tr_desired_changed_unix_ms r) (tr_desired_changed_by r) (tr_claim r) (tr_phase r) (tr_phase_epoch r)
    (tr_progress_unix_ms r) (tr_name r) (tr_bytes_total r) (tr_ingest_job_id r) (tr_error_code r) (tr_error r)
    (tr_completed_unix_ms r) (tr_removed_unix_ms r).
Proof. by destruct r. Qed.

Lemma carries_optional {A} what (w : A -> Writer.prog) (p : Reader.prog A) value :
  (forall x, value = Some x -> carries (w x) p x) -> carries (write_optional w value) (read_optional what p) value.
Proof.
  intros Hw. unfold write_optional, read_optional. destruct value as [x|]; eapply carries_bind.
  - apply carries_u8. lia.
  - by apply (carries_map _ _ Some), Hw.
  - apply carries_u8. lia.
  - apply carries_skip.
Qed.

Lemma carries_code {A} what (of_code : Z -> option A) code x :
  0 <= code < 2 ^ 8 -> of_code code = Some x -> carries (Writer.u8 code) (read_code what of_code) x.
Proof.
  intros Hc E. apply carries_then with (x := code); [by apply carries_u8|]. rewrite E. apply reads_ret.
Qed.

Lemma carries_request_claim c :
  u64_ok (tc_epoch c) -> u64_ok (tc_claimed_unix_ms c) ->
  carries (Writer.fixed (tc_node_id c) ;;; Writer.u64 (tc_epoch c) ;;; Writer.u64 (tc_claimed_unix_ms c)) read_claim c.
Proof. intros H1 H2. destruct c. unfold read_claim. carry; by apply H1 || apply H2. Qed.

Lemma carries_text s : text_ok s -> carries (Writer.string s) request_text s.
Proof. unfold text_ok, max_torrent_request_text. intros H. apply carries_string; unfold max_torrent_request_text, u32_max; lia. Qed.

Lemma carries_request r : request_ok r -> carries (encode_torrent_request r) decode_torrent_request r.
Proof.
  intros (Ht & Hu & Hm & Hc). unfold encode_torrent_request, decode_torrent_request.
  rewrite !Forall_cons in Ht. rewrite !Forall_cons in Hu. destruct_and!.
  eapply carries_bind; [apply carries_u8; unfold request_format; lia|].
  change (negb (request_format =? request_format)) with false. cbn iota.
  eapply carries_eq; [|symmetry; apply request_eta].
  carry; try assumption; try (apply carries_text; assumption).
  - apply carries_optional. intros. apply carries_fixed.
  - apply carries_optional. intros. apply carries_u64. by apply Hm.
  - apply carries_code; [|by destruct (tr_desired r)]. destruct (tr_desired r); cbn; lia.
  - apply carries_optional. intros c Ec. by apply carries_request_claim; apply Hc.
  - apply carries_code; [|by destruct (tr_phase r)]. destruct (tr_phase r); cbn; lia.
Qed.
