(* ===== verification/Journal.v ===== *)
(** * Sealed journals

    [src/src/storage/sealed_journal.cpp]: the append-only file of sealed frames
    the retention store, the object ledger and its node file share, and the
    part of [src/src/crypto.cpp] it calls.

    The cryptographic primitives of OpenSSL are parameters ([Sha256],
    [AesGcm], [Entropy]); what the code relies on is [AesGcmSpec]. A journal's
    state is the file's bytes, how many of them are durable, and the members
    of [SealedJournal]. A crash keeps the durable prefix and any part of what
    was written after it. *)

From S2P Require Import Prelude Codec.

(** ** Cryptography *)

(** SHA-256 of a byte string. *)
Class Sha256 : Type := sha256 : Bytes -> Hash256.

(** AES-256-GCM: encryption gives a tag and a ciphertext; decryption gives the
    plaintext or refuses. *)
Class AesGcm : Type := {
  gcm_encrypt : array 32 -> array 12 -> Bytes -> Bytes -> array 16 * Bytes;
  gcm_decrypt : array 32 -> array 12 -> array 16 -> Bytes -> Bytes -> option Bytes
}.

(** What the code relies on: a sealed text opens to itself, and GCM is a
    stream mode, so the ciphertext is as long as the plaintext. *)
Class AesGcmSpec `{AesGcm} : Prop := {
  gcm_open_seal key nonce aad plain :
    let '(tag, ct) := gcm_encrypt key nonce aad plain in
    gcm_decrypt key nonce tag aad ct = Some plain;
  gcm_length key nonce aad plain :
    length (gcm_encrypt key nonce aad plain).2 = length plain
}.

(** The random generator: its [k]-th twelve bytes. *)
Class Entropy : Type := draw_nonce : nat -> array 12.

Record SealedData : Type := mkSealed { sd_nonce : array 12; sd_tag : array 16; sd_ciphertext : Bytes }.

(** [aes_gcm_seal] with the nonce the generator gave. *)
Definition aes_gcm_seal `{AesGcm} (key : array 32) (plain aad : Bytes) (nonce : array 12)
    : SealedData :=
  let '(tag, ct) := gcm_encrypt key nonce aad plain in mkSealed nonce tag ct.

Definition aes_gcm_open `{AesGcm} (key : array 32) (nonce : array 12) (tag : array 16)
    (ct aad : Bytes) : result Bytes :=
  match gcm_decrypt key nonce tag aad ct with
  | Some plain => Ok plain
  | None => Throw (RuntimeError "AES-GCM authentication failed")
  end.

(** ** The journal *)

Module SealedJournal.

Record t : Type := mk {
  key : array 32;
  aad : array 8;
  max_frame : Z;
  frames : Z;
  bytes : Z;
  (** The file's contents; none when the file does not exist. *)
  file : option Bytes;
  (** How many leading bytes of the file are durable. *)
  durable : nat;
  (** Whether [fd_] is open. *)
  fd_open : bool;
  (** How many nonces were drawn. *)
  draws : nat
}.

Definition contents (j : t) : Bytes := default [] (file j).
Definition set_file (f : option Bytes) (j : t) : t :=
  mk (key j) (aad j) (max_frame j) (frames j) (bytes j) f (durable j) (fd_open j) (draws j).
Definition set_counts (fr by_ : Z) (j : t) : t :=
  mk (key j) (aad j) (max_frame j) fr by_ (file j) (durable j) (fd_open j) (draws j).
Definition set_fd (o : bool) (j : t) : t :=
  mk (key j) (aad j) (max_frame j) (frames j) (bytes j) (file j) (durable j) o (draws j).
Definition set_durable (d : nat) (j : t) : t :=
  mk (key j) (aad j) (max_frame j) (frames j) (bytes j) (file j) d (fd_open j) (draws j).
Definition drew (j : t) : t :=
  mk (key j) (aad j) (max_frame j) (frames j) (bytes j) (file j) (durable j) (fd_open j)
     (S (draws j)).

(** be32 length | 12-byte nonce | 16-byte tag. *)
Definition frame_header : Z := 4 + 12 + 16.

Definition read_be32 (p : Bytes) : Z :=
  Z.lor (Z.lor (Z.lor (Z.shiftl (b2z (nth 0 p x00)) 24) (Z.shiftl (b2z (nth 1 p x00)) 16))
               (Z.shiftl (b2z (nth 2 p x00)) 8)) (b2z (nth 3 p x00)).

(** [pread_all]: the bytes at an offset, none when the file is too short. *)
Definition pread_all (f : Bytes) (n offset : nat) : option Bytes :=
  let got := take n (drop offset f) in
  if (length got =? n)%nat then Some got else None.

(** The constructor: bytes already there are counted, frames are not. What is
    there is taken to be durable; nothing appended is, before a [sync]. *)
Definition open (f : option Bytes) (k : array 32) (a : array 8) (mf : Z) : t :=
  mk k a mf 0 (match f with Some b => Z.of_nat (length b) | None => 0 end) f
     (match f with Some b => length b | None => O end) false 0.

(** [fd()]: opens the file, creating it. *)
Definition get_fd (j : t) : t :=
  if fd_open j then j else set_fd true (set_file (Some (contents j)) j).
Definition close_fd (j : t) : t := set_fd false j.

Section ops.
Context `{AesGcm, Entropy}.

Definition seal_frame (j : t) (plaintext : Bytes) : result Bytes :=
  let sealed := aes_gcm_seal (key j) plaintext (abytes (aad j)) (draw_nonce (draws j)) in
  if max_frame j <? Z.of_nat (length (sd_ciphertext sealed)) then
    Throw (RuntimeError "journal frame too large")
  else
    let len := wrap32 (Z.of_nat (length (sd_ciphertext sealed))) in
    Ok ([z2b (Z.shiftr len 24); z2b (Z.shiftr len 16); z2b (Z.shiftr len 8); z2b len] ++
        abytes (sd_nonce sealed) ++ abytes (sd_tag sealed) ++ sd_ciphertext sealed).

(** What the device does with a write: takes it all, or takes some bytes and
    fails ([ENOSPC], [EIO]). *)
Inductive io : Type := io_ok | io_fails (accepted : nat).

(** [write_all] on the append-mode descriptor. *)
Definition write_all (dev : io) (bs : Bytes) : ST t unit := fun j =>
  match dev with
  | io_ok => (Ok tt, set_file (Some (contents j ++ bs)) j)
  | io_fails n => (Throw (RuntimeError "journal write failed"),
                   set_file (Some (contents j ++ take n bs)) j)
  end.

Definition append_unsynced_on (dev : io) (plaintext : Bytes) : ST t Z := fun j =>
  match seal_frame j plaintext with
  | Throw e => (Throw e, drew j)
  | Ok frame =>
      let offset := bytes j in
      match write_all dev frame (get_fd (drew j)) with
      | (Throw e, j') => (Throw e, j')
      | (Ok _, j') =>
          (Ok offset, set_counts (frames j' + 1) (bytes j' + Z.of_nat (length frame)) j')
      end
  end.
Definition append_unsynced (plaintext : Bytes) : ST t Z := append_unsynced_on io_ok plaintext.

(** [fsync]: what the file holds is durable. *)
Definition sync : ST t unit := fun j =>
  (Ok tt, if fd_open j then set_durable (length (contents j)) j else j).

Definition append (plaintext : Bytes) : ST t unit :=
  _ ← append_unsynced plaintext; sync.

Definition read_frame (f : Bytes) (k : array 32) (a : array 8) (mf limit offset : Z)
    : result Bytes :=
  if limit <? offset + frame_header then
    Throw (RuntimeError "no journal frame at offset")
  else
    match pread_all f 4 (Z.to_nat offset) with
    | None => Throw (RuntimeError "no journal frame at offset")
    | Some length_bytes =>
        let len := read_be32 length_bytes in
        if (mf <? len) || (limit <? offset + frame_header + len) then
          Throw (RuntimeError "journal frame runs past the end")
        else
          match pread_all f 12 (Z.to_nat (offset + 4)) ≫= to_array 12,
                pread_all f 16 (Z.to_nat (offset + 16)) ≫= to_array 16,
                pread_all f (Z.to_nat len) (Z.to_nat (offset + 32)) with
          | Some nonce, Some tag, Some ct => aes_gcm_open k nonce tag ct (abytes a)
          | _, _, _ => Throw (RuntimeError "short journal frame at offset")
          end
    end.

Definition read_at (j : t) (offset : Z) : result Bytes :=
  read_frame (contents j) (key j) (aad j) (max_frame j) (bytes j) offset.

(** A handle on the frames appended so far. *)
Record FrameReader : Type := mkReader {
  fr_file : Bytes; fr_key : array 32; fr_aad : array 8; fr_max_frame : Z; fr_limit : Z
}.
Definition reader (j : t) : FrameReader :=
  mkReader (contents j) (key j) (aad j) (max_frame j) (bytes j).
Definition reader_read_at (r : FrameReader) (offset : Z) : result Bytes :=
  read_frame (fr_file r) (fr_key r) (fr_aad r) (fr_max_frame r) (fr_limit r) offset.

(** The body of the replay loop: the state after it, and whether it goes on.
    Each turn moves past at least a header, so the file's length bounds it. *)
Fixpoint replay_loop {S} (apply : Bytes -> ST S unit) (max_read_frame : Z) (f : Bytes)
    (k : array 32) (a : array 8) (fuel : nat) (offset count : Z) (s : S) : Z * Z * S :=
  match fuel with
  | O => (offset, count, s)
  | Datatypes.S fuel' =>
      if Z.of_nat (length f) <? offset + 4 then (offset, count, s)
      else
        match pread_all f 4 (Z.to_nat offset) with
        | None => (offset, count, s)
        | Some length_bytes =>
            let len := read_be32 length_bytes in
            let frame_size := frame_header + len in
            if max_read_frame <? len then (offset, count, s)
            else if (u64_max - frame_size <? offset) || (Z.of_nat (length f) <? offset + frame_size)
            then (offset, count, s)
            else
              match pread_all f 12 (Z.to_nat (offset + 4)) ≫= to_array 12,
                    pread_all f 16 (Z.to_nat (offset + 16)) ≫= to_array 16,
                    pread_all f (Z.to_nat len) (Z.to_nat (offset + 32)) with
              | Some nonce, Some tag, Some ct =>
                  match aes_gcm_open k nonce tag ct (abytes a) with
                  | Throw _ => (offset, count, s)
                  | Ok plain =>
                      match apply plain s with
                      | (Throw _, s') => (offset, count, s')
                      | (Ok _, s') =>
                          replay_loop apply max_read_frame f k a fuel'
                            (offset + frame_size) (count + 1) s'
                      end
                  end
              | _, _, _ => (offset, count, s)
              end
        end
  end.

(** [replay]: applies each durable frame, truncates the file after the last
    one applied, and returns how many there were. *)
Definition replay {S} (apply : Bytes -> ST S unit) (max_read_frame : Z) (s : S) (j : t)
    : Z * S * t :=
  let j := set_counts 0 0 (close_fd j) in
  match file j with
  | None => (0, s, j)
  | Some f =>
      let '(dur, count, s') :=
        replay_loop apply max_read_frame f (key j) (aad j) (length f) 0 0 s in
      (* truncated there and synced, unless everything was durable *)
      let f' := take (Z.to_nat dur) f in
      (count, s',
       set_durable (if dur =? Z.of_nat (length f) then durable j else length f')
         (set_counts count dur (set_file (Some f') j)))
  end.

(** [reset]: the file replaced by an empty one, durably. *)
Definition reset (j : t) : t :=
  set_durable 0 (set_counts 0 0 (set_file (Some []) (close_fd j))).

End ops.

(** A crash: the durable prefix survives with any part of what follows. *)
Definition crash_file (j : t) (f : option Bytes) : Prop :=
  match file j with
  | None => f = None
  | Some g => exists cut, (durable j <= cut <= length g)%nat /\ f = Some (take cut g)
  end.

End SealedJournal.

(** ** Frames *)

Section frames.
Context `{AesGcm, !AesGcmSpec, Entropy}.
Import SealedJournal.

(** One frame on disk. *)
Definition frame_bytes (k : array 32) (a : array 8) (nonce : array 12) (plain : Bytes) : Bytes :=
  let '(tag, ct) := gcm_encrypt k nonce (abytes a) plain in
  be_bytes 4 (Z.of_nat (length plain)) ++ abytes nonce ++ abytes tag ++ ct.

(** A sequence of frames, each with its nonce. *)
Definition frames_bytes (k : array 32) (a : array 8) (l : list (array 12 * Bytes)) : Bytes :=
  flat_map (fun '(nonce, plain) => frame_bytes k a nonce plain) l.

Lemma length_frame_bytes k a nonce plain :
  length (frame_bytes k a nonce plain) = (32 + length plain)%nat.
Proof.
  unfold frame_bytes. pose proof (gcm_length k nonce (abytes a) plain) as Hl.
  destruct (gcm_encrypt _ _ _ _) as [tag ct]. simpl in Hl.
  rewrite !length_app, length_be_bytes, !array_length, Hl. lia.
Qed.

Lemma seal_frame_spec j plain :
  Z.of_nat (length plain) <= max_frame j -> Z.of_nat (length plain) < 2 ^ 32 ->
  seal_frame j plain = Ok (frame_bytes (key j) (aad j) (draw_nonce (draws j)) plain).
Proof.
  intros Hm Hl. unfold seal_frame, aes_gcm_seal, frame_bytes.
  pose proof (gcm_length (key j) (draw_nonce (draws j)) (abytes (aad j)) plain) as Hc.
  destruct (gcm_encrypt _ _ _ _) as [tag ct]. simpl in *. rewrite Hc.
  destruct (Z.ltb_spec (max_frame j) (Z.of_nat (length plain))); [lia|].
  rewrite wrap32_small by lia. by rewrite be_bytes_4.
Qed.

Lemma read_be32_be_bytes v : 0 <= v < 2 ^ 32 -> read_be32 (be_bytes 4 v) = v.
Proof.
  intros Hv. unfold read_be32. rewrite be_bytes_4. cbn [nth].
  rewrite <- !Z.lor_assoc.
  pose proof (b2z_range (z2b (Z.shiftr v 24))). pose proof (b2z_range (z2b (Z.shiftr v 16))).
  pose proof (b2z_range (z2b (Z.shiftr v 8))). pose proof (b2z_range (z2b v)).
  rewrite (lor_shiftl _ 8), (lor_shiftl _ 16), (lor_shiftl _ 24) by lia.
  rewrite !b2z_z2b, !Z.shiftr_div_pow2 by lia.
  rewrite (Z.mod_small (v / 2 ^ 24)).
  2:{ split; [apply Z.div_pos; lia | apply Z.div_lt_upper_bound; lia]. }
  pose proof (Z.div_mod v (2 ^ 8) ltac:(lia)).
  pose proof (Z.div_mod (v / 2 ^ 8) (2 ^ 8) ltac:(lia)).
  pose proof (Z.div_mod (v / 2 ^ 16) (2 ^ 8) ltac:(lia)).
  rewrite !Z.div_div in * by lia.
  change (2 ^ 8 * 2 ^ 8) with (2 ^ 16) in *. change (2 ^ 16 * 2 ^ 8) with (2 ^ 24) in *.
  change (2 ^ 8) with 256 in *. lia.
Qed.

Lemma pread_all_app pre mid post n :
  length mid = n -> pread_all (pre ++ mid ++ post) n (length pre) = Some mid.
Proof.
  intros <-. unfold pread_all. rewrite drop_app_length, take_app_length.
  by rewrite Nat.eqb_refl.
Qed.

(** The four reads at a frame's start find its parts. *)
Lemma frame_reads k a nonce plain pre post :
  Z.of_nat (length plain) < 2 ^ 32 ->
  exists tag ct,
    let f := pre ++ frame_bytes k a nonce plain ++ post in
    let offset := Z.of_nat (length pre) in
    (exists lb, pread_all f 4 (Z.to_nat offset) = Some lb /\
       read_be32 lb = Z.of_nat (length plain)) /\
    pread_all f 12 (Z.to_nat (offset + 4)) ≫= to_array 12 = Some nonce /\
    pread_all f 16 (Z.to_nat (offset + 16)) ≫= to_array 16 = Some tag /\
    pread_all f (length plain) (Z.to_nat (offset + 32)) = Some ct /\
    aes_gcm_open k nonce tag ct (abytes a) = Ok plain.
Proof.
  intros Hl. unfold frame_bytes.
  pose proof (gcm_length k nonce (abytes a) plain) as Hc.
  pose proof (gcm_open_seal k nonce (abytes a) plain) as Ho.
  destruct (gcm_encrypt _ _ _ _) as [tag ct]. simpl in *. exists tag, ct.
  set (lb := be_bytes 4 _).
  assert (length lb = 4%nat) as Hlb by apply length_be_bytes.
  split_and!.
  - exists lb. rewrite <- app_assoc, Nat2Z.id, pread_all_app by done.
    split; [done|]. apply read_be32_be_bytes. lia.
  - replace (pre ++ (lb ++ abytes nonce ++ abytes tag ++ ct) ++ post)
      with ((pre ++ lb) ++ abytes nonce ++ (abytes tag ++ ct ++ post)) by (by rewrite <- !app_assoc).
    replace (Z.to_nat _) with (length (pre ++ lb)) by (rewrite length_app; lia).
    rewrite pread_all_app by apply array_length. simpl. apply to_array_abytes.
  - replace (pre ++ (lb ++ abytes nonce ++ abytes tag ++ ct) ++ post)
      with ((pre ++ lb ++ abytes nonce) ++ abytes tag ++ (ct ++ post)) by (by rewrite <- !app_assoc).
    replace (Z.to_nat _) with (length (pre ++ lb ++ abytes nonce))
      by (rewrite !length_app, array_length; lia).
    rewrite pread_all_app by apply array_length. simpl. apply to_array_abytes.
  - replace (pre ++ (lb ++ abytes nonce ++ abytes tag ++ ct) ++ post)
      with ((pre ++ lb ++ abytes nonce ++ abytes tag) ++ ct ++ post) by (by rewrite <- !app_assoc).
    replace (Z.to_nat _) with (length (pre ++ lb ++ abytes nonce ++ abytes tag))
      by (rewrite !length_app, !array_length; lia).
    by rewrite pread_all_app.
  - unfold aes_gcm_open. by rewrite Ho.
Qed.

(** Applying frames in order, until one is refused. *)
Fixpoint apply_frames {S} (apply : Bytes -> ST S unit) (l : list (array 12 * Bytes)) (s : S)
    : result unit * S :=
  match l with
  | [] => (Ok tt, s)
  | (_, plain) :: l' =>
      match apply plain s with
      | (Ok _, s') => apply_frames apply l' s'
      | (Throw e, s') => (Throw e, s')
      end
  end.

Lemma replay_loop_frame {S} (apply : Bytes -> ST S unit) mx k a nonce plain pre post fuel count s :
  Z.of_nat (length plain) < 2 ^ 32 -> Z.of_nat (length plain) <= mx ->
  Z.of_nat (length (pre ++ frame_bytes k a nonce plain ++ post)) <= u64_max ->
  replay_loop apply mx (pre ++ frame_bytes k a nonce plain ++ post) k a (Datatypes.S fuel)
    (Z.of_nat (length pre)) count s =
  match apply plain s with
  | (Ok _, s') =>
      replay_loop apply mx (pre ++ frame_bytes k a nonce plain ++ post) k a fuel
        (Z.of_nat (length (pre ++ frame_bytes k a nonce plain))) (count + 1) s'
  | (Throw _, s') => (Z.of_nat (length pre), count, s')
  end.
Proof.
  intros Hl Hm Hu.
  destruct (frame_reads k a nonce plain pre post Hl) as (tag & ct & (lb & Hlb & Hbe) & Hn & Ht & Hc & Ho).
  set (f := pre ++ _ ++ post) in *. cbn [replay_loop].
  assert (length f = (length pre + (32 + length plain) + length post)%nat) as Hf.
  { unfold f. rewrite !length_app, length_frame_bytes. lia. }
  rewrite Hlb, Hbe. unfold frame_header. rewrite Nat2Z.id in *.
  destruct (Z.ltb_spec (Z.of_nat (length f)) (Z.of_nat (length pre) + 4)); [lia|].
  destruct (Z.ltb_spec mx (Z.of_nat (length plain))); [lia|].
  destruct (Z.ltb_spec (u64_max - (4 + 12 + 16 + Z.of_nat (length plain))) (Z.of_nat (length pre)));
    [lia|].
  destruct (Z.ltb_spec (Z.of_nat (length f))
    (Z.of_nat (length pre) + (4 + 12 + 16 + Z.of_nat (length plain)))); [lia|].
  cbn [orb]. rewrite Hn, Ht, Hc, Ho.
  destruct (apply plain s) as [[[]|e] s']; [|done].
  f_equal. rewrite length_app, length_frame_bytes. lia.
Qed.

(** At a torn frame the loop stops, having changed nothing. *)
Lemma replay_loop_torn {S} (apply : Bytes -> ST S unit) mx k a nonce plain pre torn fuel count s :
  Z.of_nat (length plain) < 2 ^ 32 ->
  torn `prefix_of` frame_bytes k a nonce plain -> torn <> frame_bytes k a nonce plain ->
  replay_loop apply mx (pre ++ torn) k a fuel (Z.of_nat (length pre)) count s =
  (Z.of_nat (length pre), count, s).
Proof.
  intros Hl [rest Hrest] Hne. destruct fuel as [|fuel]; [done|]. cbn [replay_loop].
  assert (length torn < 32 + length plain)%nat as Hlen.
  { rewrite <- (length_frame_bytes k a nonce plain), Hrest, length_app.
    destruct rest; simpl; [by rewrite app_nil_r in Hrest | lia]. }
  destruct (Z.ltb_spec (Z.of_nat (length (pre ++ torn))) (Z.of_nat (length pre) + 4)) as [|Hsz];
    [done|].
  rewrite length_app in Hsz.
  destruct (frame_reads k a nonce plain [] [] Hl) as (tag & ct & (lb & Hlb & Hbe) & _).
  simpl in Hlb. rewrite app_nil_r in Hlb.
  assert (pread_all (pre ++ torn) 4 (Z.to_nat (Z.of_nat (length pre))) = Some lb) as ->.
  { rewrite Nat2Z.id. unfold pread_all in *. rewrite drop_app_length.
    rewrite Hrest in Hlb. rewrite drop_0, take_app_le in Hlb by lia. done. }
  rewrite Hbe. unfold frame_header.
  destruct (mx <? _); [done|].
  destruct (Z.ltb_spec (Z.of_nat (length (pre ++ torn)))
    (Z.of_nat (length pre) + (4 + 12 + 16 + Z.of_nat (length plain)))) as [|Hge].
  - by rewrite orb_true_r.
  - rewrite length_app in Hge. lia.
Qed.

Lemma replay_loop_end {S} (apply : Bytes -> ST S unit) mx k a pre fuel count s :
  replay_loop apply mx pre k a fuel (Z.of_nat (length pre)) count s =
  (Z.of_nat (length pre), count, s).
Proof.
  destruct fuel as [|fuel]; [done|]. cbn [replay_loop].
  destruct (Z.ltb_spec (Z.of_nat (length pre)) (Z.of_nat (length pre) + 4)); [done|lia].
Qed.

(** [tail] holds no whole frame: it is empty or a frame cut short. *)
Definition torn_tail (k : array 32) (a : array 8) (tail : Bytes) : Prop :=
  tail = [] \/ exists nonce plain, Z.of_nat (length plain) < 2 ^ 32 /\
    tail `prefix_of` frame_bytes k a nonce plain /\ tail <> frame_bytes k a nonce plain.

(** Frames, then bytes at which the loop stops. *)
Lemma replay_loop_stops {S} (apply : Bytes -> ST S unit) mx k a l pre tail fuel count s s' :
  Forall (fun p => Z.of_nat (length p.2) < 2 ^ 32 /\ Z.of_nat (length p.2) <= mx) l ->
  (forall pre fuel count s, replay_loop apply mx (pre ++ tail) k a fuel (Z.of_nat (length pre)) count s = (Z.of_nat (length pre), count, s)) ->
  Z.of_nat (length (pre ++ frames_bytes k a l ++ tail)) <= u64_max ->
  (length l <= fuel)%nat ->
  apply_frames apply l s = (Ok tt, s') ->
  replay_loop apply mx (pre ++ frames_bytes k a l ++ tail) k a fuel (Z.of_nat (length pre)) count s =
  (Z.of_nat (length (pre ++ frames_bytes k a l)), count + Z.of_nat (length l), s').
Proof.
  intros Hl0 Ht. revert pre fuel count s Hl0. induction l as [|[nonce plain] l IH];
    intros pre fuel count s Hl Hu Hf Ha; simpl in *.
  - injection Ha as <-. rewrite app_nil_r, Z.add_0_r. apply Ht.
  - destruct fuel as [|fuel]; [lia|].
    apply Forall_cons in Hl as [[Hp1 Hp2] Hl]. simpl in Hp1, Hp2.
    assert (pre ++ (frame_bytes k a nonce plain ++ frames_bytes k a l) ++ tail =
      pre ++ frame_bytes k a nonce plain ++ (frames_bytes k a l ++ tail)) as E
      by (by rewrite <- !app_assoc).
    rewrite E in Hu |- *. rewrite replay_loop_frame by done.
    destruct (apply plain s) as [[[]|e] s1]; [|done].
    rewrite (app_assoc pre) in Hu |- *. rewrite IH by (done || lia).
    f_equal. f_equal; [|lia]. by rewrite <- !app_assoc.
Qed.
Lemma replay_loop_frames {S} (apply : Bytes -> ST S unit) mx k a l pre tail fuel count s s' :
  Forall (fun p => Z.of_nat (length p.2) < 2 ^ 32 /\ Z.of_nat (length p.2) <= mx) l ->
  torn_tail k a tail ->
  Z.of_nat (length (pre ++ frames_bytes k a l ++ tail)) <= u64_max ->
  (length l <= fuel)%nat ->
  apply_frames apply l s = (Ok tt, s') ->
  replay_loop apply mx (pre ++ frames_bytes k a l ++ tail) k a fuel (Z.of_nat (length pre)) count s =
  (Z.of_nat (length (pre ++ frames_bytes k a l)), count + Z.of_nat (length l), s').
Proof.
  intros Hl Ht. apply replay_loop_stops; [done|]. intros pre' fuel' count' s1.
  destruct Ht as [->|(nonce & plain & Hp & Hpre & Hne)].
  - rewrite app_nil_r. apply replay_loop_end.
  - by eapply replay_loop_torn.
Qed.

(** Bytes that read as no frame stop the loop. *)
Definition unreadable (k : array 32) (a : array 8) (mx : Z) (tail : Bytes) : Prop :=
  forall plain, read_frame tail k a mx (Z.of_nat (length tail)) 0 <> Ok plain.

Lemma pread_all_shift pre tail n o : 0 <= o -> pread_all (pre ++ tail) n (Z.to_nat (Z.of_nat (length pre) + o)) = pread_all tail n (Z.to_nat o).
Proof.
  intros Ho. unfold pread_all. rewrite Z2Nat.inj_add, Nat2Z.id, drop_app_ge by lia. by replace (length pre + Z.to_nat o - length pre)%nat with (Z.to_nat o) by lia.
Qed.
Lemma read_be32_nonneg p : 0 <= read_be32 p.
Proof.
  unfold read_be32. rewrite !Z.lor_nonneg, !Z.shiftl_nonneg. pose proof b2z_range as Hb. split_and!; apply Hb.
Qed.
Lemma replay_loop_unreadable {S} (apply : Bytes -> ST S unit) mx k a tail : unreadable k a mx tail ->
  forall pre fuel count s, replay_loop apply mx (pre ++ tail) k a fuel (Z.of_nat (length pre)) count s = (Z.of_nat (length pre), count, s).
Proof.
  intros Hu pre fuel count s. destruct fuel as [|fuel]; [done|]. cbn [replay_loop]. unfold unreadable, read_frame in Hu. rewrite length_app, Nat2Z.inj_add.
  rewrite !Z.add_0_l in Hu. pose proof (pread_all_shift pre tail 4 0 ltac:(lia)) as E4. rewrite Z.add_0_r in E4. rewrite E4, !pread_all_shift by lia.
  destruct (_ <? Z.of_nat (length pre) + 4); [done|]. destruct (pread_all tail 4 _) as [lb|]; [|done]. pose proof (read_be32_nonneg lb) as Hn.
  rewrite pread_all_shift by lia. destruct (mx <? _); [done|]. cbn [orb] in Hu.
  destruct (_ <? Z.of_nat (length pre)); [done|]. cbn [orb].
  destruct (Z.ltb_spec (Z.of_nat (length pre) + Z.of_nat (length tail)) (Z.of_nat (length pre) + (frame_header + read_be32 lb))); [done|].
  destruct (Z.ltb_spec (Z.of_nat (length tail)) frame_header); [lia|]. destruct (Z.ltb_spec (Z.of_nat (length tail)) (frame_header + read_be32 lb)); [lia|].
  destruct (pread_all tail 12 _ ≫= _) as [nonce|]; [|done]. destruct (pread_all tail 16 _ ≫= _) as [tag|]; [|done]. destruct (pread_all tail (Z.to_nat (read_be32 lb)) _) as [ct|]; [|done].
  destruct (aes_gcm_open _ _ _ _ _) as [plain|]; [|done]. by destruct (Hu plain).
Qed.

Lemma length_frames_bytes_ge k a l : (length l <= length (frames_bytes k a l))%nat.
Proof.
  induction l as [|[n p] l IH]; simpl; [lia|].
  rewrite length_app, length_frame_bytes. lia.
Qed.

(** The frames of a file cut at any length: whole frames, then a torn one. *)
Lemma cut_frames k a l cut :
  Forall (fun p => Z.of_nat (length p.2) < 2 ^ 32) l ->
  (cut <= length (frames_bytes k a l))%nat ->
  exists kept lost tail, l = kept ++ lost /\
    take cut (frames_bytes k a l) = frames_bytes k a kept ++ tail /\ torn_tail k a tail /\
    (forall l1 l2, l = l1 ++ l2 -> (length (frames_bytes k a l1) <= cut)%nat ->
       l1 `prefix_of` kept).
Proof.
  revert cut. induction l as [|[nonce plain] l IH]; intros cut Hl Hcut; simpl in *.
  - exists [], [], []. rewrite take_nil. split_and!; try done; [by left|].
    intros l1 l2 E _. symmetry in E. apply app_nil in E as [-> ->]. done.
  - apply Forall_cons in Hl as [Hp Hl]. rewrite length_app in Hcut.
    destruct (Nat.le_gt_cases (length (frame_bytes k a nonce plain)) cut) as [Hge|Hlt].
    + destruct (IH (cut - length (frame_bytes k a nonce plain))%nat Hl ltac:(lia))
        as (kept & lost & tail & -> & Htake & Htorn & Hmax).
      exists ((nonce, plain) :: kept), lost, tail. split_and!; try done.
      * rewrite take_app_ge by done. simpl. by rewrite Htake, app_assoc.
      * intros [|x l1] l2 E Hle; [apply prefix_nil|]. simpl in E. injection E as <- E.
        simpl in Hle. rewrite length_app in Hle. apply prefix_cons.
        eapply Hmax; [exact E|]. lia.
    + exists [], ((nonce, plain) :: l), (take cut (frame_bytes k a nonce plain)). split_and!.
      * done.
      * by rewrite take_app_le by lia.
      * right. exists nonce, plain. split_and!; [done | apply prefix_take |].
        intros E. apply (f_equal length) in E. rewrite length_take in E. lia.
      * intros [|x l1] l2 E Hle; [apply prefix_nil|]. simpl in E. injection E as <- E.
        simpl in Hle. rewrite length_app in Hle. lia.
Qed.

(** ** A journal's abstract state: the frames it holds *)

(** What every open journal keeps: [bytes_] is the file's length, frames are
    shorter than their length field can say, and no more is durable than is
    there. *)
Record file_ok (j : t) : Prop := {
  fo_bytes : bytes j = Z.of_nat (length (contents j));
  fo_limit : max_frame j < 2 ^ 32;
  fo_durable : (durable j <= length (contents j))%nat
}.

(** [journal_holds j l]: the file is exactly the frames [l], oldest first,
    counted in [bytes_], each within the frame limit. *)
Record journal_holds (j : t) (l : list (array 12 * Bytes)) : Prop := {
  jh_file : file_ok j;
  jh_contents : contents j = frames_bytes (key j) (aad j) l;
  jh_fit : Forall (fun p => Z.of_nat (length p.2) <= max_frame j) l
}.

Lemma get_fd_contents j : contents (get_fd j) = contents j.
Proof. unfold get_fd, contents. by destruct (fd_open j). Qed.

(** What an append changes: the bytes of one frame at the end. *)
Record appended (j : t) (plain : Bytes) (j' : t) : Prop := {
  ap_file : file_ok j';
  ap_contents : contents j' = contents j ++ frame_bytes (key j) (aad j) (draw_nonce (draws j)) plain;
  ap_key : key j' = key j;
  ap_aad : aad j' = aad j;
  ap_max : max_frame j' = max_frame j;
  ap_fd : fd_open j' = true;
  ap_durable : durable j' = durable j;
  ap_frames : frames j' = frames j + 1
}.

Lemma append_unsynced_file j plain :
  file_ok j -> Z.of_nat (length plain) <= max_frame j ->
  exists j', append_unsynced plain j = (Ok (bytes j), j') /\ appended j plain j'.
Proof.
  intros [Hb Hm Hd] Hp. unfold append_unsynced, append_unsynced_on.
  rewrite seal_frame_spec by lia. cbn [write_all].
  assert (contents (get_fd (drew j)) = contents j) as Hg by (rewrite get_fd_contents; done).
  set (fr := frame_bytes _ _ _ _).
  assert (key (get_fd (drew j)) = key j /\ aad (get_fd (drew j)) = aad j /\
    max_frame (get_fd (drew j)) = max_frame j /\ fd_open (get_fd (drew j)) = true /\
    durable (get_fd (drew j)) = durable j /\
    frames (get_fd (drew j)) = frames j /\ bytes (get_fd (drew j)) = bytes j)
    as (Hk & Ha & Hmf & Ho & Hdu & Hfr & Hby).
  { unfold get_fd, drew. simpl. by destruct (fd_open j) eqn:E. }
  eexists. split; [reflexivity|].
  match goal with |- appended _ _ ?x => set (j' := x) end.
  assert (contents j' = contents j ++ fr) as Hnew
    by (unfold j'; rewrite <- Hg; unfold contents; done).
  assert (bytes j' = bytes j + Z.of_nat (length fr)) as Hby' by (unfold j'; simpl; by rewrite Hby).
  assert (frames j' = frames j + 1) as Hfr' by (unfold j'; simpl; by rewrite Hfr).
  change (max_frame (get_fd (drew j))) with (max_frame j') in Hmf.
  change (durable (get_fd (drew j))) with (durable j') in Hdu.
  split; try done. split; rewrite ?Hmf, ?Hdu, ?Hnew, ?Hby', ?length_app; try done; lia.
Qed.

(** An append puts one frame at the end and returns where it starts. *)
Lemma append_unsynced_spec j l plain :
  journal_holds j l -> Z.of_nat (length plain) <= max_frame j ->
  exists j', append_unsynced plain j = (Ok (bytes j), j') /\
    journal_holds j' (l ++ [(draw_nonce (draws j), plain)]) /\ appended j plain j'.
Proof.
  intros [Hfile Hc Hf] Hp. destruct (append_unsynced_file j plain Hfile Hp) as (j' & Happ & Hj').
  exists j'. split_and!; [done| |done]. destruct Hj' as [Hfile' Hc' Hk Ha Hm _ _ _].
  split; [done| |]; rewrite ?Hk, ?Ha, ?Hm.
  - rewrite Hc', Hc. unfold frames_bytes. rewrite flat_map_app. simpl. by rewrite app_nil_r.
  - apply Forall_app. split; [done|]. by constructor.
Qed.

(** A synced append: the frame is durable when it returns. *)
Lemma append_spec j l plain :
  journal_holds j l -> Z.of_nat (length plain) <= max_frame j ->
  exists j', append plain j = (Ok tt, j') /\
    journal_holds j' (l ++ [(draw_nonce (draws j), plain)]) /\
    durable j' = length (contents j') /\
    key j' = key j /\ aad j' = aad j /\ max_frame j' = max_frame j.
Proof.
  intros Hj Hp. destruct (append_unsynced_spec j l plain Hj Hp)
    as (j1 & Happ & Hj1 & [_ Hcon Hk Ha Hm Ho _ _]).
  unfold append. rewrite (st_bind_ok _ _ _ _ _ Happ). unfold sync. rewrite Ho.
  eexists. split; [reflexivity|].
  destruct Hj1 as [[Hb Hl Hd] Hc Hf]. by repeat split.
Qed.

(** Replay of a file of frames cut anywhere. *)
Lemma replay_cut {S} (apply : Bytes -> ST S unit) mx j l f cut s s_all :
  file j = Some f -> f = take cut (frames_bytes (key j) (aad j) l) ->
  (cut <= length (frames_bytes (key j) (aad j) l))%nat ->
  Forall (fun p => Z.of_nat (length p.2) < 2 ^ 32 /\ Z.of_nat (length p.2) <= mx) l ->
  Z.of_nat (length (frames_bytes (key j) (aad j) l)) <= u64_max ->
  apply_frames apply l s = (Ok tt, s_all) ->
  exists kept lost s' j', l = kept ++ lost /\
    replay apply mx s j = (Z.of_nat (length kept), s', j') /\
    apply_frames apply kept s = (Ok tt, s') /\
    contents j' = frames_bytes (key j) (aad j) kept /\
    bytes j' = Z.of_nat (length (contents j')) /\ frames j' = Z.of_nat (length kept) /\
    key j' = key j /\ aad j' = aad j /\ max_frame j' = max_frame j /\
    (durable j = length f -> durable j' = length (contents j')) /\
    (forall l1 l2, l = l1 ++ l2 -> (length (frames_bytes (key j) (aad j) l1) <= cut)%nat ->
       l1 `prefix_of` kept).
Proof.
  intros Hfile Hcutf Hcut Hl Hu Happ.
  assert (Forall (fun p => Z.of_nat (length p.2) < 2 ^ 32) l) as Hl32
    by (eapply Forall_impl; [exact Hl | by intros ? []]).
  destruct (cut_frames (key j) (aad j) l cut Hl32 Hcut)
    as (kept & lost & tail & -> & Htake & Htorn & Hmax).
  assert (exists s', apply_frames apply kept s = (Ok tt, s')) as [s' Hs'].
  { clear -Happ. revert s Happ. induction kept as [|[n p] kept IH]; intros s Happ; simpl in *; [by eexists|].
    destruct (apply p s) as [[[]|] s1]; [by apply IH | done]. }
  apply Forall_app in Hl as [Hk _].
  assert (Z.of_nat (length f) <= u64_max) as Hfu.
  { rewrite Hcutf, length_take. lia. }
  pose proof (length_frames_bytes_ge (key j) (aad j) kept) as Hge.
  rewrite Hcutf, Htake in Hfile, Hfu.
  unfold replay. cbn [file set_counts close_fd set_fd key aad]. rewrite Hfile.
  pose proof (replay_loop_frames apply mx (key j) (aad j) kept [] tail
    (length (frames_bytes (key j) (aad j) kept ++ tail)) 0 s s' Hk Htorn Hfu
    ltac:(rewrite length_app; lia) Hs') as Hloop.
  cbn [app length] in Hloop. change (Z.of_nat 0) with 0 in Hloop. rewrite Hloop. rewrite Z.add_0_l.
  exists kept, lost, s'. eexists. split_and!; try done.
  - unfold contents. simpl. by rewrite Nat2Z.id, take_app_length.
  - unfold contents. simpl. by rewrite Nat2Z.id, take_app_length.
  - simpl. unfold contents. simpl. rewrite Nat2Z.id, take_app_length.
    rewrite Hcutf, Htake. intros Hdur.
    match goal with |- context [?a =? ?b] => destruct (Z.eqb_spec a b) end; simpl; lia.
Qed.

(** Replay after a crash, for the theorems below and the journal's users,
    reading frames up to a limit no less than the writer's. *)
Lemma crash_replay_within {S} (apply : Bytes -> ST S unit) (mx : Z) (j : t)
    (l : list (array 12 * Bytes)) (f : option Bytes) (s s_all : S) :
  journal_holds j l -> max_frame j <= mx -> Z.of_nat (length (contents j)) <= u64_max ->
  apply_frames apply l s = (Ok tt, s_all) -> crash_file j f ->
  exists kept lost s' j',
    l = kept ++ lost /\
    replay apply mx s (open f (key j) (aad j) (max_frame j)) =
      (Z.of_nat (length kept), s', j') /\
    apply_frames apply kept s = (Ok tt, s') /\
    journal_holds j' kept /\
    (forall l1 l2, l = l1 ++ l2 ->
       (length (frames_bytes (key j) (aad j) l1) <= durable j)%nat -> l1 `prefix_of` kept) /\
    key j' = key j /\ aad j' = aad j /\ max_frame j' = max_frame j /\
    durable j' = length (contents j').
Proof.
  intros [[Hb Hm Hd] Hc Hf] Hmx Hu Happ Hcrash.
  assert (Forall (fun p => Z.of_nat (length p.2) < 2 ^ 32 /\
    Z.of_nat (length p.2) <= mx) l) as Hfit
    by (eapply Forall_impl; [exact Hf | intros; simpl in *; lia]).
  unfold crash_file in Hcrash. destruct (file j) as [g|] eqn:Hg.
  - assert (contents j = g) as Hcg by (unfold contents; by rewrite Hg).
    destruct Hcrash as (cut & Hcut & ->). rewrite Hcg in *.
    set (j0 := open (Some (take cut g)) (key j) (aad j) (max_frame j)).
    assert (take cut g = take cut (frames_bytes (key j0) (aad j0) l)) as Hq1
      by (simpl; by rewrite <- Hc).
    assert (cut <= length (frames_bytes (key j0) (aad j0) l))%nat as Hq2
      by (simpl; rewrite <- Hc; lia).
    assert (Z.of_nat (length (frames_bytes (key j0) (aad j0) l)) <= u64_max) as Hq3
      by (simpl; rewrite <- Hc; lia).
    destruct (replay_cut apply mx j0 l (take cut g) cut s s_all eq_refl Hq1 Hq2 Hfit Hq3 Happ)
      as (kept & lost & s' & j' & -> & Hrep & Ha & Hcon & Hby & _ & Hk & Haad & Hmf & Hdur & Hmax).
    exists kept, lost, s', j'. split_and!; try done.
    + apply Forall_app in Hf as [Hf _].
      split; [split|..]; rewrite ?Hmf, ?Hk, ?Haad; try done. by rewrite Hdur.
    + intros l1 l2 E Hle. apply (Hmax l1 l2 E). simpl. lia.
    + by apply Hdur.
  - subst f. assert (contents j = []) as Hcg by (unfold contents; by rewrite Hg).
    rewrite Hcg in Hc. destruct l as [|[n p] l].
    2:{ exfalso. apply (f_equal length) in Hc. simpl in Hc.
        rewrite length_app, length_frame_bytes in Hc. lia. }
    exists [], [], s. eexists. split_and!; try done.
    intros l1 l2 E _. symmetry in E. by apply app_nil in E as [-> ->].
Qed.

Lemma crash_replay_full {S} (apply : Bytes -> ST S unit) (j : t)
    (l : list (array 12 * Bytes)) (f : option Bytes) (s s_all : S) :
  journal_holds j l -> Z.of_nat (length (contents j)) <= u64_max ->
  apply_frames apply l s = (Ok tt, s_all) -> crash_file j f ->
  exists kept lost s' j',
    l = kept ++ lost /\
    replay apply (max_frame j) s (open f (key j) (aad j) (max_frame j)) =
      (Z.of_nat (length kept), s', j') /\
    apply_frames apply kept s = (Ok tt, s') /\
    journal_holds j' kept /\
    (forall l1 l2, l = l1 ++ l2 ->
       (length (frames_bytes (key j) (aad j) l1) <= durable j)%nat -> l1 `prefix_of` kept) /\
    key j' = key j /\ aad j' = aad j /\ max_frame j' = max_frame j /\
    durable j' = length (contents j').
Proof. intros Hj Hu Happ Hc. by apply (crash_replay_within apply (max_frame j) j l f s s_all). Qed.

Lemma crash_replay {S} (apply : Bytes -> ST S unit) (j : t)
    (l : list (array 12 * Bytes)) (f : option Bytes) (s s_all : S) :
  journal_holds j l -> Z.of_nat (length (contents j)) <= u64_max ->
  apply_frames apply l s = (Ok tt, s_all) -> crash_file j f ->
  exists kept lost s' j',
    l = kept ++ lost /\
    replay apply (max_frame j) s (open f (key j) (aad j) (max_frame j)) =
      (Z.of_nat (length kept), s', j') /\
    apply_frames apply kept s = (Ok tt, s') /\
    journal_holds j' kept /\
    (forall l1 l2, l = l1 ++ l2 ->
       (length (frames_bytes (key j) (aad j) l1) <= durable j)%nat -> l1 `prefix_of` kept).
Proof.
  intros Hj Hu Happ Hcrash.
  destruct (crash_replay_full apply j l f s s_all Hj Hu Happ Hcrash)
    as (kept & lost & s' & j' & El & Hrep & Ha & Hj' & Hmax & _).
  by exists kept, lost, s', j'.
Qed.

(** A crash loses nothing that was durable and invents nothing. Whatever
    part of the undurable tail survives the crash (a frame may be torn
    anywhere), reopening and replaying applies exactly a prefix of the frames
    that were appended, in order; the prefix includes every frame within the
    durable bytes; and the file is cut back to a whole number of frames, so
    the journal holds exactly what was replayed and the next append follows
    it. *)
Theorem journal_crash_recovery {S} (apply : Bytes -> ST S unit) (j : t)
    (l : list (array 12 * Bytes)) (f : option Bytes) (s s_all : S) :
  journal_holds j l -> Z.of_nat (length (contents j)) <= u64_max ->
  apply_frames apply l s = (Ok tt, s_all) -> crash_file j f ->
  exists kept lost s' j',
    l = kept ++ lost /\
    replay apply (max_frame j) s (open f (key j) (aad j) (max_frame j)) =
      (Z.of_nat (length kept), s', j') /\
    apply_frames apply kept s = (Ok tt, s') /\
    journal_holds j' kept /\
    (forall l1 l2, l = l1 ++ l2 ->
       (length (frames_bytes (key j) (aad j) l1) <= durable j)%nat -> l1 `prefix_of` kept).
Proof. apply crash_replay. Qed.

(** An append that returned survives every crash: after it, whatever the
    crash leaves, the replay applies every frame, this one last. *)
Theorem append_survives_crash {S} (apply : Bytes -> ST S unit) (j j' : t)
    (l : list (array 12 * Bytes)) (plain : Bytes) (f : option Bytes) (s s_all : S) :
  journal_holds j l -> append plain j = (Ok tt, j') ->
  Z.of_nat (length plain) <= max_frame j -> Z.of_nat (length (contents j')) <= u64_max ->
  let l' := l ++ [(draw_nonce (draws j), plain)] in
  apply_frames apply l' s = (Ok tt, s_all) -> crash_file j' f ->
  exists j'', replay apply (max_frame j) s (open f (key j) (aad j) (max_frame j)) =
    (Z.of_nat (length l'), s_all, j'') /\ journal_holds j'' l'.
Proof.
  intros Hj Happend Hp Hu l' Happ Hcrash.
  destruct (append_spec j l plain Hj Hp) as (j1 & E & Hj1 & Hdur & Hk & Ha & Hm).
  rewrite Happend in E. injection E as <-.
  destruct (crash_replay apply j' l' f s s_all Hj1 Hu Happ Hcrash)
    as (kept & lost & s' & j'' & El & Hrep & Ha' & Hj'' & Hmax).
  rewrite Hk, Ha, Hm in Hrep.
  assert (kept = l') as ->.
  { apply prefix_length_eq.
    - by exists lost.
    - apply prefix_length. apply (Hmax l' []); [by rewrite app_nil_r|].
      rewrite Hdur. by rewrite (jh_contents _ _ Hj1). }
  rewrite Happ in Ha'. injection Ha' as <-. by exists j''.
Qed.

(** Reading back by offset. *)
Lemma read_frame_spec k a nonce plain pre post mf limit :
  Z.of_nat (length plain) < 2 ^ 32 -> Z.of_nat (length plain) <= mf ->
  Z.of_nat (length (pre ++ frame_bytes k a nonce plain)) <= limit ->
  read_frame (pre ++ frame_bytes k a nonce plain ++ post) k a mf limit (Z.of_nat (length pre)) =
    Ok plain.
Proof.
  intros Hl Hm Hlim. rewrite length_app, length_frame_bytes in Hlim.
  destruct (frame_reads k a nonce plain pre post Hl)
    as (tag & ct & (lb & Hlb & Hbe) & Hn & Ht & Hc & Ho).
  unfold read_frame, frame_header.
  destruct (Z.ltb_spec limit (Z.of_nat (length pre) + (4 + 12 + 16))); [lia|].
  rewrite Hlb, Hbe. rewrite Nat2Z.id in *.
  destruct (Z.ltb_spec mf (Z.of_nat (length plain))); [lia|].
  destruct (Z.ltb_spec limit (Z.of_nat (length pre) + (4 + 12 + 16) + Z.of_nat (length plain)));
    [lia|].
  cbn [orb]. by rewrite Hn, Ht, Hc, Ho.
Qed.

Lemma pread_all_grow f more n o x : pread_all f n o = Some x -> pread_all (f ++ more) n o = Some x.
Proof.
  unfold pread_all. destruct (Nat.eqb_spec (length (take n (drop o f))) n) as [E|]; [|done].
  intros [= <-]. rewrite length_take, length_drop in E.
  destruct (Nat.le_gt_cases (o + n) (length f)) as [Hle|Hgt].
  - rewrite drop_app_le, take_app_le by (rewrite ?length_drop; lia).
    rewrite length_take, length_drop. by rewrite (proj2 (Nat.eqb_eq _ _)) by lia.
  - assert (n = 0%nat) as -> by lia. done.
Qed.

(** What is read from a file is read from every extension of it. *)
Lemma read_frame_grow f more k a mf limit limit' offset q :
  limit <= limit' -> read_frame f k a mf limit offset = Ok q ->
  read_frame (f ++ more) k a mf limit' offset = Ok q.
Proof.
  intros Hlim. unfold read_frame.
  destruct (Z.ltb_spec limit (offset + frame_header)); [done|].
  destruct (Z.ltb_spec limit' (offset + frame_header)); [lia|].
  destruct (pread_all f 4 _) as [lb|] eqn:E1; [|done]. rewrite (pread_all_grow _ _ _ _ _ E1).
  destruct (mf <? read_be32 lb); [done|]. cbn [orb].
  destruct (Z.ltb_spec limit (offset + frame_header + read_be32 lb)); [done|].
  destruct (Z.ltb_spec limit' (offset + frame_header + read_be32 lb)); [lia|].
  destruct (pread_all f 12 _) as [n|] eqn:E2; simpl; [|done].
  rewrite (pread_all_grow _ _ _ _ _ E2). simpl. destruct (to_array 12 n); [|done].
  destruct (pread_all f 16 _) as [t|] eqn:E3; simpl; [|done].
  rewrite (pread_all_grow _ _ _ _ _ E3). simpl. destruct (to_array 16 t); [|done].
  destruct (pread_all f (Z.to_nat _) _) as [c|] eqn:E4; [|done].
  by rewrite (pread_all_grow _ _ _ _ _ E4).
Qed.

(** Reading past what lies before. *)
Lemma read_frame_shift pre tail k a mf limit :
  read_frame (pre ++ tail) k a mf (Z.of_nat (length pre) + limit) (Z.of_nat (length pre)) = read_frame tail k a mf limit 0.
Proof.
  unfold read_frame. pose proof (pread_all_shift pre tail 4 0 ltac:(lia)) as E4. rewrite Z.add_0_r in E4. rewrite E4, !pread_all_shift, !Z.add_0_l by lia.
  assert (forall x, (Z.of_nat (length pre) + limit <? Z.of_nat (length pre) + x) = (limit <? x)) as Hlt.
  { intros x. destruct (Z.ltb_spec limit x); [apply Z.ltb_lt | apply Z.ltb_ge]; lia. }
  rewrite Hlt. destruct (limit <? frame_header); [done|]. destruct (pread_all tail 4 _) as [lb|]; [|done]. by rewrite <- Z.add_assoc, Hlt, pread_all_shift by lia.
Qed.

(** C36. A write that fails half way is not cut back, and the journal does not
    account for it. After an append fails having written some bytes of its
    frame and not all, a later append returns, with the offset the failed one
    would have had, and the file is synced; yet nothing reads back at that
    offset, and a replay of the file applies the frames from before the
    failure and none of the later one, and truncates it away. This is for any
    journal, payloads and failing point, unless the torn frame's bytes with
    the later frame's after them happen to authenticate as a frame. *)
Theorem failed_append_hides_later_frames {S} (apply : Bytes -> ST S unit) (j : t) (l : list (array 12 * Bytes))
    (p q : Bytes) (n : nat) (s s' : S) :
  journal_holds j l -> Z.of_nat (length p) <= max_frame j -> Z.of_nat (length q) <= max_frame j ->
  (0 < n < 32 + length p)%nat -> Z.of_nat (length (contents j) + n + (32 + length q)) <= u64_max ->
  apply_frames apply l s = (Ok tt, s') ->
  unreadable (key j) (aad j) (max_frame j)
    (take n (frame_bytes (key j) (aad j) (draw_nonce (draws j)) p) ++ frame_bytes (key j) (aad j) (draw_nonce (Datatypes.S (draws j))) q) ->
  exists j1 j2 j3 j4,
    append_unsynced_on (io_fails n) p j = (Throw (RuntimeError "journal write failed"), j1) /\
    append_unsynced q j1 = (Ok (bytes j), j2) /\ sync j2 = (Ok tt, j3) /\ durable j3 = length (contents j3) /\
    (forall plain, read_at j3 (bytes j) <> Ok plain) /\
    replay apply (max_frame j) s (open (file j3) (key j) (aad j) (max_frame j)) = (Z.of_nat (length l), s', j4) /\
    contents j4 = contents j.
Proof.
  intros [[Hb Hm Hd] Hc Hf] Hp Hq Hn Hu Ha Hun. set (torn := take n _) in Hun. set (frame := frame_bytes _ _ _ q) in Hun.
  assert (length torn = n) as Et by (unfold torn; rewrite length_take, length_frame_bytes; lia).
  assert (length frame = 32 + length q)%nat as Ef by apply length_frame_bytes.
  unfold append_unsynced_on at 1. rewrite seal_frame_spec by lia. cbn [write_all]. fold torn.
  match goal with |- context [(Throw (RuntimeError "journal write failed"), ?x) = _] => set (j1 := x) end. exists j1.
  assert (contents j1 = contents j ++ torn /\ bytes j1 = bytes j /\ key j1 = key j /\ aad j1 = aad j /\ max_frame j1 = max_frame j /\ draws j1 = Datatypes.S (draws j))
    as (Ec1 & Eb1 & Ek1 & Ea1 & Em1 & Ed1).
  { unfold j1, contents, get_fd, drew. cbn. by destruct (fd_open j). }
  assert (seal_frame j1 q = Ok frame) as Es by (by rewrite seal_frame_spec, Ek1, Ea1, Ed1 by lia).
  clearbody j1. unfold append_unsynced, append_unsynced_on. rewrite Es. cbn [write_all].
  match goal with |- context [(Ok (bytes j1), ?x)] => set (j2 := x) end. exists j2.
  assert (contents j2 = contents j ++ torn ++ frame /\ bytes j2 = bytes j + Z.of_nat (length frame) /\ fd_open j2 = true /\
    key j2 = key j /\ aad j2 = aad j /\ max_frame j2 = max_frame j) as (Ec2 & Eb2 & Eo2 & Ek2 & Ea2 & Em2).
  { assert (contents j2 = contents j1 ++ frame) as -> by (unfold j2, contents, get_fd, drew; cbn; by destruct (fd_open j1)).
    rewrite Ec1, <- app_assoc. rewrite <- Eb1, <- Ek1, <- Ea1, <- Em1. unfold j2, get_fd, drew. cbn. by destruct (fd_open j1) eqn:E. }
  set (j3 := set_durable (length (contents j2)) j2). assert (file j3 = Some (contents j ++ torn ++ frame)) as Ef3.
  { change (file j3) with (file j2). rewrite <- Ec2. by unfold contents, j2. }
  exists j3. eexists. split; [done|]. split; [by rewrite Eb1|]. split; [unfold sync; by rewrite Eo2|]. split; [done|]. split.
  - intros plain Hr. apply (Hun plain). unfold read_at in Hr. change (contents j3) with (contents j2) in Hr. change (bytes j3) with (bytes j2) in Hr.
    change (key j3) with (key j2) in Hr. change (aad j3) with (aad j2) in Hr. change (max_frame j3) with (max_frame j2) in Hr. rewrite Ec2, Ek2, Ea2, Em2 in Hr.
    rewrite Eb2, Hb, read_frame_shift in Hr. rewrite <- (app_nil_r (torn ++ frame)). revert Hr. apply read_frame_grow. rewrite app_nil_r, length_app. lia.
  - rewrite Ef3. unfold replay. cbn [file set_counts close_fd set_fd open key aad].
    pose proof (replay_loop_stops apply (max_frame j) (key j) (aad j) l [] (torn ++ frame) (length (contents j ++ torn ++ frame)) 0 s s') as Hloop.
    cbn [app length] in Hloop. change (Z.of_nat 0) with 0 in Hloop. rewrite Z.add_0_l in Hloop. rewrite <- Hc in Hloop. rewrite Hloop; clear Hloop.
    + split; [reflexivity|]. unfold contents at 1. cbn. by rewrite Nat2Z.id, take_app_length.
    + eapply Forall_impl; [exact Hf|]. intros x Hx. cbn in Hx. lia.
    + by apply replay_loop_unreadable.
    + rewrite !length_app. lia.
    + pose proof (length_frames_bytes_ge (key j) (aad j) l). rewrite <- Hc in *. rewrite !length_app. lia.
    + exact Ha.
Qed.
End frames.

(** ** The interface the object trie's node file offers *)

(** A file of frames addressed by offset. *)
Class FrameStore (F : Type) : Type := {
  fs_append : Bytes -> ST F Z;
  fs_read_at : F -> Z -> result Bytes;
  fs_bytes : F -> Z;
  fs_max : F -> Z;
  fs_ok : F -> Prop
}.

(** A frame is read back at the offset its append returned, and appends leave
    every earlier frame as it was. *)
Class FrameStoreSpec (F : Type) `{FrameStore F} : Prop := {
  fs_bytes_nonneg f : fs_ok f -> 0 <= fs_bytes f;
  fs_append_ok f p :
    fs_ok f -> Z.of_nat (length p) <= fs_max f ->
    exists f', fs_append p f = (Ok (fs_bytes f), f') /\ fs_ok f' /\ fs_max f' = fs_max f /\
      fs_bytes f' = fs_bytes f + 32 + Z.of_nat (length p) /\
      fs_read_at f' (fs_bytes f) = Ok p /\
      (forall o q, fs_read_at f o = Ok q -> fs_read_at f' o = Ok q)
}.

Section journal_store.
Context `{AesGcm, !AesGcmSpec, Entropy}.
Import SealedJournal.

#[global] Instance journal_frame_store : FrameStore t := {|
  fs_append := append_unsynced;
  fs_read_at := read_at;
  fs_bytes := bytes;
  fs_max := max_frame;
  fs_ok := file_ok
|}.

#[global] Instance journal_frame_store_spec : FrameStoreSpec t.
Proof.
  split.
  - intros j [Hb _ _]. simpl. lia.
  - intros j p Hj Hp. simpl in *.
    destruct (append_unsynced_file j p Hj Hp) as (j' & Happ & [Hj' Hcon Hk Ha Hm _ _ _]).
    pose proof (fo_bytes _ Hj) as Hb. pose proof (fo_bytes _ Hj') as Hb'.
    pose proof (fo_limit _ Hj) as Hlim.
    exists j'. split_and!; try done.
    + rewrite Hb, Hb', Hcon, length_app, length_frame_bytes. lia.
    + unfold read_at. rewrite Hcon, Hk, Ha, Hm, Hb', Hb, Hcon.
      rewrite <- (app_nil_r (frame_bytes _ _ _ _)) at 1.
      apply read_frame_spec; lia.
    + intros o q. unfold read_at. rewrite Hcon, Hk, Ha, Hm. apply read_frame_grow.
      rewrite Hb, Hb', Hcon, length_app. lia.
Qed.

(** Appends one after another. *)
Fixpoint append_each (l : list Bytes) : ST t unit :=
  match l with
  | [] => mret tt
  | p :: l' => _ ← append_unsynced p; append_each l'
  end.

Lemma append_each_ok l j :
  fs_ok j -> Forall (fun p => Z.of_nat (length p) <= max_frame j) l ->
  exists j', append_each l j = (Ok tt, j') /\ fs_ok j' /\
    forall o q, read_at j o = Ok q -> read_at j' o = Ok q.
Proof.
  revert j. induction l as [|p l IH]; intros j Hj Hl; simpl.
  - exists j. done.
  - apply Forall_cons in Hl as [Hp Hl].
    destruct (fs_append_ok j p Hj Hp) as (j1 & Ha & Hj1 & Hm & _ & _ & Hold). simpl in *.
    rewrite (st_bind_ok _ _ _ _ _ Ha).
    destruct (IH j1 Hj1) as (j' & Ha' & Hj' & Hold').
    { eapply Forall_impl; [exact Hl|]. intros x Hx. simpl in *. lia. }
    exists j'. split_and!; [done..|]. eauto.
Qed.

(** A node saved in the node file stays readable where it was put: the
    offset an append returns reads back the appended bytes, after it and
    after any further appends, and through a reader handle taken at any
    point, whatever is appended to the journal later. *)
Theorem journal_read_back (j : t) (l : list (array 12 * Bytes)) (p : Bytes) (later : list Bytes) :
  journal_holds j l -> Z.of_nat (length p) <= max_frame j ->
  Forall (fun q => Z.of_nat (length q) <= max_frame j) later ->
  exists offset j1 j2, append_unsynced p j = (Ok offset, j1) /\
    append_each later j1 = (Ok tt, j2) /\
    read_at j1 offset = Ok p /\ read_at j2 offset = Ok p /\
    reader_read_at (reader j1) offset = Ok p /\ reader_read_at (reader j2) offset = Ok p.
Proof.
  intros Hj Hp Hl.
  pose proof (jh_file _ _ Hj : fs_ok j) as Hok.
  destruct (fs_append_ok j p Hok Hp) as (j1 & Ha & Hj1 & Hm & _ & Hr & _).
  simpl in *.
  destruct (append_each_ok later j1 Hj1) as (j2 & Ha2 & _ & Hold).
  { eapply Forall_impl; [exact Hl|]. intros x Hx. simpl in *. lia. }
  exists (bytes j), j1, j2. pose proof (Hold _ _ Hr). done.
Qed.

End journal_store.

(** ** Sample primitives

    Concrete instances for evaluating the model on concrete inputs: a cipher
    that leaves the text as it is and tags it with a checksum (so a torn or
    altered frame does not open), a polynomial hash and a counter of nonces. *)

Module Sample.

Definition checksum (key : array 32) (nonce : array 12) (aad plain : Bytes) : array 16 :=
  array_fit 16 (be_bytes 8 (foldl (fun h b => (h * 257 + b2z b + 1) mod 2305843009213693951) 7
    (abytes key ++ abytes nonce ++ aad ++ plain))).

Definition gcm : AesGcm := {|
  gcm_encrypt key nonce aad plain := (checksum key nonce aad plain, plain);
  gcm_decrypt key nonce tag aad ct :=
    if decide (tag = checksum key nonce aad ct) then Some ct else None
|}.

#[local] Existing Instance gcm.

Lemma gcm_spec : AesGcmSpec.
Proof. split; intros; simpl; [by rewrite decide_True | done]. Qed.

Definition entropy : Entropy := fun k => array_fit 12 (be_bytes 12 (Z.of_nat k)).

Definition sha : Sha256 := fun bs =>
  array_fit 32 (be_bytes 8 (foldl (fun h b => (h * 257 + b2z b + 1) mod 2305843009213693951) 7 bs)).

Definition key : array 32 := array_zero 32.
Definition aad : array 8 := array_zero 8.

(** An empty journal. *)
Definition journal : SealedJournal.t := SealedJournal.open None key aad (2 ^ 22).

Lemma journal_empty : journal_holds journal [].
Proof. repeat split; simpl; try done; constructor. Qed.

(** Two frames, the first one durable. *)
Definition journal1 : SealedJournal.t :=
  Eval vm_compute in (@SealedJournal.append gcm entropy [x01; x02] journal).2.
Definition journal2 : SealedJournal.t :=
  Eval vm_compute in (@SealedJournal.append_unsynced gcm entropy [x03] journal1).2.
Definition frames2 : list (array 12 * Bytes) :=
  Eval vm_compute in [(entropy O, [x01; x02]); (entropy 1%nat, [x03])].
(** Collects what is replayed. *)
Definition collect (p : Bytes) : ST (list Bytes) unit := fun s => (Ok tt, s ++ [p]).

#[local] Existing Instances gcm_spec entropy.

Lemma journal1_holds : journal_holds journal1 [(entropy O, [x01; x02])].
Proof.
  split; [split; vm_compute; [done | done | lia] | by vm_compute | by repeat constructor].
Qed.

Lemma journal2_holds : journal_holds journal2 frames2.
Proof.
  split; [split; vm_compute; [done | done | lia] | by vm_compute | by repeat constructor].
Qed.

End Sample.

Section witnesses.
Import SealedJournal.
#[local] Existing Instances Sample.gcm Sample.gcm_spec Sample.entropy.

(** Torn in the second frame: the first one is replayed. *)
Lemma journal_crash_recovery_witness :
  exists kept lost s' j',
    Sample.frames2 = kept ++ lost /\
    replay Sample.collect (max_frame Sample.journal2) []
      (open (Some (take 40 (contents Sample.journal2)))
         (key Sample.journal2) (aad Sample.journal2) (max_frame Sample.journal2)) =
      (Z.of_nat (length kept), s', j') /\
    apply_frames Sample.collect kept [] = (Ok tt, s') /\
    journal_holds j' kept /\
    (forall l1 l2, Sample.frames2 = l1 ++ l2 ->
       (length (frames_bytes (key Sample.journal2) (aad Sample.journal2) l1) <=
          durable Sample.journal2)%nat -> l1 `prefix_of` kept).
Proof.
  apply (journal_crash_recovery Sample.collect Sample.journal2 Sample.frames2 _ []
    [[x01; x02]; [x03]]).
  - apply Sample.journal2_holds.
  - vm_compute. congruence.
  - vm_compute. reflexivity.
  - exists 40%nat. split; [vm_compute; lia | reflexivity].
Defined.

Lemma append_survives_crash_witness :
  exists j'', replay Sample.collect (max_frame Sample.journal) []
    (open (file Sample.journal1) (key Sample.journal) (aad Sample.journal)
       (max_frame Sample.journal)) =
    (1, [[x01; x02]], j'') /\ journal_holds j'' [(Sample.entropy O, [x01; x02])].
Proof.
  apply (append_survives_crash Sample.collect Sample.journal Sample.journal1 [] [x01; x02]
    (file Sample.journal1) [] [[x01; x02]]).
  - apply Sample.journal_empty.
  - vm_compute. reflexivity.
  - vm_compute. congruence.
  - vm_compute. congruence.
  - reflexivity.
  - exists 34%nat. split; [vm_compute; lia | reflexivity].
Defined.

Lemma journal_read_back_witness :
  exists offset j1 j2, append_unsynced [x03] Sample.journal1 = (Ok offset, j1) /\
    append_each [[x04]; [x05; x06]] j1 = (Ok tt, j2) /\
    read_at j1 offset = Ok [x03] /\ read_at j2 offset = Ok [x03] /\
    reader_read_at (reader j1) offset = Ok [x03] /\ reader_read_at (reader j2) offset = Ok [x03].
Proof.
  apply (journal_read_back Sample.journal1 [(Sample.entropy O, [x01; x02])] [x03]
    [[x04]; [x05; x06]]).
  - apply Sample.journal1_holds.
  - vm_compute. congruence.
  - repeat constructor; vm_compute; congruence.
Defined.

Lemma failed_append_hides_later_frames_witness :
  exists j1 j2 j3 j4,
    append_unsynced_on (io_fails 10) [x03] Sample.journal1 = (Throw (RuntimeError "journal write failed"), j1) /\
    append_unsynced [x04] j1 = (Ok (bytes Sample.journal1), j2) /\ sync j2 = (Ok tt, j3) /\ durable j3 = length (contents j3) /\
    (forall plain, read_at j3 (bytes Sample.journal1) <> Ok plain) /\
    replay Sample.collect (max_frame Sample.journal1) [] (open (file j3) (key Sample.journal1) (aad Sample.journal1) (max_frame Sample.journal1)) =
      (1, [[x01; x02]], j4) /\
    contents j4 = contents Sample.journal1.
Proof.
  apply (failed_append_hides_later_frames Sample.collect Sample.journal1 [(Sample.entropy O, [x01; x02])] [x03] [x04] 10 [] [[x01; x02]]).
  - apply Sample.journal1_holds.
  - vm_compute. congruence.
  - vm_compute. congruence.
  - cbn. lia.
  - vm_compute. congruence.
  - reflexivity.
  - intros plain. vm_compute. congruence.
Defined.

End witnesses.
