(* ===== verification/Paths.v ===== *)
(** * Namespace paths

    [normalize_path], [parent_path] and [base_name] of
    [src/src/metadata/metadata.cpp]. A normal path is a slash before each of
    its components, or a single slash; the lemmas say what the functions do in
    terms of the components. *)

From S2P Require Import Prelude.

Definition slash : byte := x2f.
Definition dot1 : Bytes := [x2e].
Definition dot2 : Bytes := [x2e; x2e].
Definition root_path : Bytes := [slash].

(** The runs of characters between slashes; [cur] is the run so far. *)
Fixpoint runs (p cur : Bytes) : list Bytes :=
  match p with
  | [] => match cur with [] => [] | _ => [cur] end
  | c :: p' =>
      if bool_decide (c = slash) then match cur with [] => runs p' [] | _ => cur :: runs p' [] end
      else runs p' (cur ++ [c])
  end.

Definition push_component (v : list Bytes) (x : Bytes) : list Bytes :=
  if bool_decide (x = dot1) then v
  else if bool_decide (x = dot2) then removelast v
  else v ++ [x].

Definition join_path (v : list Bytes) : Bytes :=
  match v with [] => root_path | _ => flat_map (fun x => slash :: x) v end.

Definition normalize_path (p : Bytes) : Bytes := join_path (foldl push_component [] (runs p [])).

(** [std::string::rfind('/')]. *)
Fixpoint rfind_slash (n : Bytes) : option nat :=
  match n with
  | [] => None
  | c :: n' =>
      match rfind_slash n' with
      | Some i => Some (S i)
      | None => if bool_decide (c = slash) then Some O else None
      end
  end.

Definition parent_path (p : Bytes) : Bytes :=
  let n := normalize_path p in
  if bool_decide (n = root_path) then root_path
  else match rfind_slash n with Some (S i) => take (S i) n | _ => root_path end.

Definition base_name (p : Bytes) : Bytes :=
  let n := normalize_path p in
  if bool_decide (n = root_path) then root_path
  else match rfind_slash n with Some i => drop (S i) n | None => n end.

(** ** Components *)

(** What a path may have between two slashes once it is normal. *)
Definition component (x : Bytes) : Prop := (x <> []) /\ (slash ∉ x) /\ x <> dot1 /\ x <> dot2.
(** What a run can be. *)
Definition run (x : Bytes) : Prop := x <> [] /\ slash ∉ x.

(** A path spelled as [normalize_path] spells it. *)
Definition normal (p : Bytes) : Prop := exists v, Forall component v /\ p = join_path v.

Lemma runs_run p cur : slash ∉ cur -> Forall run (runs p cur).
Proof.
  revert cur. induction p as [|c p IH]; intros cur Hc; cbn [runs].
  - destruct cur; repeat constructor; done.
  - destruct (decide (c = slash)) as [->|Hne].
    + rewrite bool_decide_true by done. destruct cur; [by apply IH, not_elem_of_nil|].
      constructor; [by split|]. by apply IH, not_elem_of_nil.
    + rewrite bool_decide_false by done. apply IH. rewrite elem_of_app, list_elem_of_singleton. by intros [?| ?].
Qed.

Lemma push_components v xs : Forall component v -> Forall run xs -> Forall component (foldl push_component v xs).
Proof.
  intros Hv Hx. revert v Hv. induction Hx as [|x xs [Hx1 Hx2] Hx IH]; intros v Hv; cbn [foldl]; [done|]. apply IH.
  unfold push_component. repeat case_bool_decide; [done| |].
  - destruct v as [|y v]; [done|]. rewrite (app_removelast_last [] (l := (y :: v))) in Hv by done.
    by apply Forall_app in Hv as [Hv _].
  - apply Forall_app. split; [done|]. constructor; [done|constructor].
Qed.

Lemma normalize_normal p : normal (normalize_path p).
Proof.
  exists (foldl push_component [] (runs p [])). split; [|done].
  apply push_components; [constructor | apply runs_run, not_elem_of_nil].
Qed.
Lemma normal_nonempty p : normal p -> p <> [].
Proof. intros (v & _ & ->). by destruct v. Qed.

Lemma list_last_eq_or {A} (l : list A) : l = [] \/ exists l' x, l = l' ++ [x].
Proof. destruct l as [|x l] using rev_ind; [by left | right; by eexists _, _]. Qed.

(** The runs of a component put after what has been read. *)
Lemma runs_component x p cur : slash ∉ x -> runs (x ++ p) cur = runs p (cur ++ x).
Proof.
  revert cur. induction x as [|c x IH]; intros cur Hs; cbn [app runs]; [by rewrite app_nil_r|].
  apply not_elem_of_cons in Hs as [Hc Hs]. rewrite bool_decide_false by done. rewrite IH by done.
  by rewrite <- app_assoc.
Qed.

Lemma runs_join_after v cur :
  Forall component v -> cur <> [] -> runs (flat_map (fun x => slash :: x) v) cur = cur :: v.
Proof.
  intros Hv. revert cur. induction Hv as [|x v (Hx1 & Hx2 & _) Hv IH]; intros cur Hc; [by destruct cur|].
  cbn [flat_map app runs]. rewrite bool_decide_true by done. rewrite runs_component by done. cbn [app].
  rewrite IH by done. by destruct cur.
Qed.

Lemma runs_join v : Forall component v -> runs (flat_map (fun x => slash :: x) v) [] = v.
Proof.
  intros [|x w (Hx1 & Hx2 & _) Hw]; [done|]. cbn [flat_map app runs]. rewrite bool_decide_true by done.
  rewrite runs_component by done. by apply runs_join_after.
Qed.

Lemma push_all v xs : Forall component xs -> foldl push_component v xs = v ++ xs.
Proof.
  intros Hx. revert v. induction Hx as [|x xs (_ & _ & H1 & H2) Hx IH]; intros v; cbn [foldl]; [by rewrite app_nil_r|].
  unfold push_component at 2. rewrite !bool_decide_false by done. rewrite IH. by rewrite <- app_assoc.
Qed.

Lemma normalize_join v : Forall component v -> normalize_path (join_path v) = join_path v.
Proof.
  intros Hv. unfold normalize_path. destruct v as [|x v]; [done|]. unfold join_path at 2.
  rewrite runs_join by done. by rewrite push_all by done.
Qed.

Lemma normalize_fixed p : normal p <-> normalize_path p = p.
Proof.
  split; [intros (v & Hv & ->); by apply normalize_join|]. intros <-. apply normalize_normal.
Qed.

Lemma join_root v : Forall component v -> join_path v = root_path -> v = [].
Proof.
  destruct v as [|x v]; [done|]. intros [(Hx & _) _]%Forall_cons. unfold join_path, root_path. cbn [flat_map app].
  destruct x; [done|]. discriminate.
Qed.

Lemma join_snoc v x : join_path (v ++ [x]) = flat_map (fun x => slash :: x) v ++ slash :: x.
Proof.
  unfold join_path. destruct (v ++ [x]) as [|y w] eqn:E; [by destruct v|]. rewrite <- E, flat_map_app. cbn.
  by rewrite app_nil_r.
Qed.

Lemma rfind_last a x : slash ∉ x -> rfind_slash (a ++ slash :: x) = Some (length a).
Proof.
  intros Hx. assert (rfind_slash x = None) as Hn.
  { induction x as [|c x IH]; [done|]. apply not_elem_of_cons in Hx as [Hc Hx]. cbn. rewrite IH by done.
    by rewrite bool_decide_false. }
  induction a as [|c a IH]; cbn [app rfind_slash length]; [by rewrite Hn, bool_decide_true|]. by rewrite IH.
Qed.

(** The path above, and the last component. *)
Lemma parent_join v x : Forall component (v ++ [x]) -> parent_path (join_path (v ++ [x])) = join_path v.
Proof.
  intros Hv. unfold parent_path. rewrite normalize_join by done. rewrite bool_decide_false.
  2:{ intros E%join_root; [by destruct v | done]. }
  apply Forall_app in Hv as [Hv [(_ & Hs & _) _]%Forall_cons]. rewrite join_snoc, rfind_last by done.
  destruct v as [|y v]; [done|]. cbn [flat_map app length]. cbn [take]. unfold join_path. cbn [flat_map app]. f_equal.
  by rewrite take_app_length.
Qed.

Lemma base_join v x : Forall component (v ++ [x]) -> base_name (join_path (v ++ [x])) = x.
Proof.
  intros Hv. unfold base_name. rewrite normalize_join by done. rewrite bool_decide_false.
  2:{ intros E%join_root; [by destruct v | done]. }
  apply Forall_app in Hv as [Hv [(_ & Hs & _) _]%Forall_cons]. rewrite join_snoc, rfind_last by done.
  replace (S (length (flat_map (fun x => slash :: x) v))) with (length (flat_map (fun x => slash :: x) v) + 1)%nat by lia.
  by rewrite drop_app_add.
Qed.

Lemma parent_root : parent_path root_path = root_path.
Proof. done. Qed.

Lemma normal_root : normal root_path.
Proof. by exists []. Qed.

Lemma parent_normal p : normal p -> normal (parent_path p).
Proof.
  intros (v & Hv & ->). destruct (list_last_eq_or v) as [->|(w & x & ->)]; [apply normal_root|].
  rewrite parent_join by done. apply Forall_app in Hv as [Hv _]. by exists w.
Qed.

(** A parent is shorter. *)
Lemma parent_shorter p : normal p -> p <> root_path -> (length (parent_path p) < length p)%nat.
Proof.
  intros (v & Hv & ->) Hne. destruct (list_last_eq_or v) as [->|(w & x & ->)]; [done|].
  rewrite parent_join by done. rewrite join_snoc, length_app.
  apply Forall_app in Hv as [_ [(Hx & _) _]%Forall_cons]. destruct x as [|c x]; [done|].
  unfold join_path. destruct w as [|y w]; cbn [length flat_map]; [cbn; lia|]. lia.
Qed.
