(* ===== verification/Metadata.v ===== *)
(** * The namespace's values

    [src/src/metadata/metadata.hpp] and the functions on entries, paths,
    tombstones and conflicts of [src/src/metadata/metadata.cpp]. A head's
    snapshot is one record; a mutation is a dot, and a clock says which
    mutations a head has incorporated. *)

From S2P Require Import Prelude Sorts Maps Orders Codec TorrentRequest Journal.

(** ** Entries *)

Inductive EntryType : Type := directory | file.
Definition entry_type_code (t : EntryType) : Z := match t with directory => 1 | file => 2 end.
#[global] Instance entry_type_eq_dec : EqDecision EntryType.
Proof. solve_decision. Defined.
#[global] Instance entry_type_order : KeyOrder EntryType := order_of entry_type_code ltac:(by intros [] []).

Record ExtentRef : Type := mkExtent { ex_offset : Z; ex_length : Z; ex_id : ObjectId; ex_hole : bool }.
#[global] Instance extent_eq_dec : EqDecision ExtentRef.
Proof. solve_decision. Defined.
Definition ex_members (x : ExtentRef) := (ex_offset x, (ex_length x, (ex_id x, ex_hole x))).
Lemma ex_members_inj x y : ex_members x = ex_members y -> x = y.
Proof. destruct x, y. unfold ex_members. cbn. intros E. injection E. by intros; subst. Qed.
#[global] Instance extent_order : KeyOrder ExtentRef := order_of ex_members ex_members_inj.

(** One mutation of one author; a zero sequence is no dot. *)
Record MetadataDot : Type := mkDot { dot_author : NodeId; dot_seq : Z }.
#[global] Instance dot_eq_dec : EqDecision MetadataDot.
Proof. solve_decision. Defined.
Definition no_dot : MetadataDot := mkDot (array_zero 16) 0.
Definition is_dot (d : MetadataDot) : bool := negb (dot_seq d =? 0).
Definition dot_members (d : MetadataDot) := (dot_author d, dot_seq d).
Lemma dot_members_inj x y : dot_members x = dot_members y -> x = y.
Proof. destruct x, y. unfold dot_members. cbn. intros E. injection E. by intros; subst. Qed.
#[global] Instance dot_order : KeyOrder MetadataDot := order_of dot_members dot_members_inj.

(** [std::map<NodeId, uint64_t>]. *)
Definition VersionClock : Type := list (NodeId * Z).
Definition clock_covers (clock : VersionClock) (dot : MetadataDot) : bool :=
  match alookup (dot_author dot) clock with Some seen => dot_seq dot <=? seen | None => false end.

Record EntryProvenance : Type := mkProvenance { pv_file_id : NodeId; pv_content : MetadataDot; pv_name : MetadataDot }.
#[global] Instance provenance_eq_dec : EqDecision EntryProvenance.
Proof. solve_decision. Defined.
Definition no_provenance : EntryProvenance := mkProvenance (array_zero 16) no_dot no_dot.
Definition provenance_empty (p : EntryProvenance) : bool :=
  bool_decide (pv_file_id p = array_zero 16) && negb (is_dot (pv_content p)) && negb (is_dot (pv_name p)).
Definition pv_members (p : EntryProvenance) := (pv_file_id p, (pv_content p, pv_name p)).
Lemma pv_members_inj x y : pv_members x = pv_members y -> x = y.
Proof. destruct x, y. unfold pv_members. cbn. intros E. injection E. by intros; subst. Qed.
#[global] Instance provenance_order : KeyOrder EntryProvenance := order_of pv_members pv_members_inj.

Record FsEntry : Type := mkEntry {
  fe_type : EntryType;
  fe_mode : Z;
  fe_uid : Z;
  fe_gid : Z;
  fe_size : Z;
  fe_ctime_ns : Z;
  fe_mtime_ns : Z;
  fe_version : Z;
  fe_extents : list ExtentRef;
  fe_provenance : EntryProvenance
}.
#[global] Instance entry_eq_dec : EqDecision FsEntry.
Proof. solve_decision. Defined.
#[local] Existing Instance list_order.
Definition fe_members (e : FsEntry) :=
  (fe_type e, (fe_mode e, (fe_uid e, (fe_gid e, (fe_size e, (fe_ctime_ns e, (fe_mtime_ns e, (fe_version e,
    (fe_extents e, fe_provenance e))))))))).
Lemma fe_members_inj x y : fe_members x = fe_members y -> x = y.
Proof. destruct x, y. unfold fe_members. cbn. intros E. injection E. by intros; subst. Qed.
#[global] Instance entry_order : KeyOrder FsEntry := order_of fe_members fe_members_inj.

Definition set_provenance (p : EntryProvenance) (e : FsEntry) : FsEntry :=
  mkEntry (fe_type e) (fe_mode e) (fe_uid e) (fe_gid e) (fe_size e) (fe_ctime_ns e) (fe_mtime_ns e) (fe_version e)
    (fe_extents e) p.

(** [std::map<std::string, FsEntry>]. *)
Definition NamespaceEntries : Type := list (Bytes * FsEntry).

Definition same_content (a b : FsEntry) : bool :=
  bool_decide (fe_type a = fe_type b) && (fe_mode a =? fe_mode b) && (fe_uid a =? fe_uid b) && (fe_gid a =? fe_gid b) &&
  (fe_size a =? fe_size b) && bool_decide (fe_extents a = fe_extents b).

Definition later_entry (a b : FsEntry) : FsEntry :=
  if negb (fe_mtime_ns a =? fe_mtime_ns b) then if fe_mtime_ns b <? fe_mtime_ns a then a else b
  else if key_ltb a b then b else a.

(** ** Tombstones, status and conflicts *)

Record GarbageRef : Type := mkGarbage { gr_id : ObjectId; gr_retired_at_ns : Z; gr_retirement_id : NodeId }.
#[global] Instance garbage_eq_dec : EqDecision GarbageRef.
Proof. solve_decision. Defined.

Record TombstoneBatch : Type := mkBatch { tb_id : ObjectId; tb_retired_at_ns : Z; tb_count : Z }.
#[global] Instance batch_eq_dec : EqDecision TombstoneBatch.
Proof. solve_decision. Defined.

Record TombstoneBatchContent : Type := mkBatchContent { bc_retired_at_ns : Z; bc_ids : list ObjectId }.

Inductive MetadataConflictKind : Type := namespace_entry | catalogue_root_kind.
#[global] Instance conflict_kind_eq_dec : EqDecision MetadataConflictKind.
Proof. solve_decision. Defined.

Record MetadataConflict : Type := mkConflict {
  mc_kind : MetadataConflictKind;
  mc_later_installed : bool;
  mc_installed_dot : MetadataDot;
  mc_key : Bytes;
  mc_left_head : Hash256;
  mc_right_head : Hash256;
  mc_base_entry : option FsEntry;
  mc_left_entry : option FsEntry;
  mc_right_entry : option FsEntry;
  mc_base_catalogue_root : option ObjectId;
  mc_left_catalogue_root : option ObjectId;
  mc_right_catalogue_root : option ObjectId
}.
#[global] Instance conflict_eq_dec : EqDecision MetadataConflict.
Proof. solve_decision. Defined.
Definition Conflicts : Type := list (Bytes * MetadataConflict).

Definition conflict_installed_entry (c : MetadataConflict) : option FsEntry :=
  if mc_later_installed c then mc_left_entry c else mc_base_entry c.
Definition conflict_installed_catalogue_root (c : MetadataConflict) : option ObjectId :=
  if mc_later_installed c then mc_left_catalogue_root c else mc_base_catalogue_root c.

(** [api_endpoint] and [node_name] are local mirrors that are never encoded. *)
Record PersistedNodeStatus : Type := mkStatus {
  ns_boot_id : NodeId;
  ns_observed_unix_ms : Z;
  ns_version : Bytes;
  ns_host : Bytes;
  ns_failure_domain : Bytes;
  ns_port : Z;
  ns_storage_capacity : Z;
  ns_storage_used : Z;
  ns_cache_capacity : Z;
  ns_cache_used : Z;
  ns_metadata_generation : Z;
  ns_storage_backends_online : Z;
  ns_api_endpoint : Bytes;
  ns_node_name : Bytes
}.
#[global] Instance status_eq_dec : EqDecision PersistedNodeStatus.
Proof. solve_decision. Defined.
Definition ns_members (s : PersistedNodeStatus) :=
  (ns_boot_id s, (ns_observed_unix_ms s, (ns_version s, (ns_host s, (ns_failure_domain s, (ns_port s,
   (ns_storage_capacity s, (ns_storage_used s, (ns_cache_capacity s, (ns_cache_used s, (ns_metadata_generation s,
   (ns_storage_backends_online s, (ns_api_endpoint s, ns_node_name s))))))))))))).
Lemma ns_members_inj x y : ns_members x = ns_members y -> x = y.
Proof. destruct x, y. unfold ns_members. cbn. intros E. injection E. by intros; subst. Qed.
#[global] Instance status_order : KeyOrder PersistedNodeStatus := order_of ns_members ns_members_inj.

#[global] Instance reset_eq_dec : EqDecision IdentityAssociationReset.
Proof. solve_decision. Defined.
Definition rs_members (r : IdentityAssociationReset) :=
  (rs_host r, (rs_port r, (rs_stale_node_id r, (rs_epoch r, (rs_reset_unix_ms r, (rs_reset_by r, rs_reason r)))))).
Lemma rs_members_inj x y : rs_members x = rs_members y -> x = y.
Proof. destruct x, y. unfold rs_members. cbn. intros E. injection E. by intros; subst. Qed.
#[global] Instance reset_order : KeyOrder IdentityAssociationReset := order_of rs_members rs_members_inj.

(** ** The snapshot of a head *)

Record MetadataSnapshot : Type := mkSnapshot {
  sn_metadata_voters : list NodeId;
  sn_data_replication : Z;
  sn_extent_size : Z;
  sn_write_replicas_required : Z;
  sn_participants : list NodeId;
  sn_branch_floor : Hash256;
  sn_retention_baseline_complete : bool;
  sn_mutation_sequences : VersionClock;
  sn_legacy_clock : option VersionClock;
  sn_catalogue_dot : MetadataDot;
  sn_catalogue_root : option ObjectId;
  sn_namespace_root : option ObjectId;
  sn_entries : NamespaceEntries;
  sn_garbage : list GarbageRef;
  sn_tombstone_batches : list TombstoneBatch;
  sn_node_status : list (NodeId * PersistedNodeStatus);
  sn_identity_resets : list (Bytes * IdentityAssociationReset);
  sn_merge_parents : list Hash256;
  sn_conflicts : Conflicts;
  sn_torrent_requests : Requests
}.

Definition set_entries (entries : NamespaceEntries) (s : MetadataSnapshot) : MetadataSnapshot :=
  mkSnapshot (sn_metadata_voters s) (sn_data_replication s) (sn_extent_size s) (sn_write_replicas_required s)
    (sn_participants s) (sn_branch_floor s) (sn_retention_baseline_complete s) (sn_mutation_sequences s)
    (sn_legacy_clock s) (sn_catalogue_dot s) (sn_catalogue_root s) (sn_namespace_root s) entries (sn_garbage s)
    (sn_tombstone_batches s) (sn_node_status s) (sn_identity_resets s) (sn_merge_parents s) (sn_conflicts s)
    (sn_torrent_requests s).
Definition set_conflicts (conflicts : Conflicts) (s : MetadataSnapshot) : MetadataSnapshot :=
  mkSnapshot (sn_metadata_voters s) (sn_data_replication s) (sn_extent_size s) (sn_write_replicas_required s)
    (sn_participants s) (sn_branch_floor s) (sn_retention_baseline_complete s) (sn_mutation_sequences s)
    (sn_legacy_clock s) (sn_catalogue_dot s) (sn_catalogue_root s) (sn_namespace_root s) (sn_entries s) (sn_garbage s)
    (sn_tombstone_batches s) (sn_node_status s) (sn_identity_resets s) (sn_merge_parents s) conflicts
    (sn_torrent_requests s).

Definition empty_snapshot : MetadataSnapshot :=
  mkSnapshot [] 0 0 0 [] (array_zero 32) false [] None no_dot None None [] [] [] [] [] [] [] [].

(** ** Provenance *)

Section provenance.
Context `{Sha256}.

(** The identity of an entry that has none. The literal's view ends before
    its NUL. *)
Definition legacy_file_id (path : Bytes) : NodeId :=
  array_fit 16 (abytes (sha256 (str "macha-legacy-file-id" ++ path))).

Record EntryAppend : Type := mkAppend {
  ea_size : Z;
  ea_mtime_ns : Z;
  ea_ctime_ns : Z;
  ea_version : Z;
  ea_base_extents : Z;
  ea_extents : list ExtentRef;
  ea_content : MetadataDot
}.

(** The provenance an append leaves behind. *)
Definition append_provenance (path : Bytes) (content : MetadataDot) (p : EntryProvenance) : EntryProvenance :=
  if is_dot content then
    mkProvenance (if bool_decide (pv_file_id p = array_zero 16) then legacy_file_id path else pv_file_id p) content (pv_name p)
  else p.

Definition apply_entry_append (entry : FsEntry) (path : Bytes) (append : EntryAppend) : result FsEntry :=
  if negb (bool_decide (fe_type entry = file)) || negb (Z.of_nat (length (fe_extents entry)) =? ea_base_extents append)
  then Throw (DecodeError "metadata delta append base mismatch")
  else Ok (mkEntry (fe_type entry) (fe_mode entry) (fe_uid entry) (fe_gid entry) (ea_size append) (ea_ctime_ns append)
    (ea_mtime_ns append) (ea_version append) (fe_extents entry ++ ea_extents append)
    (append_provenance path (ea_content append) (fe_provenance entry))).

(** [fresh] is the id [random_node_id] gives, if it is asked. *)
Definition stamp_entry_provenance (fresh : NodeId) (entry : FsEntry) (path : Bytes) (prior : option FsEntry) (dot : MetadataDot)
    : FsEntry :=
  let prior_id (p : FsEntry) :=
    if negb (bool_decide (pv_file_id (fe_provenance p) = array_zero 16)) then pv_file_id (fe_provenance p)
    else legacy_file_id path in
  let now := fe_provenance entry in
  let file_id :=
    if bool_decide (pv_file_id now = array_zero 16) then match prior with Some p => prior_id p | None => fresh end
    else pv_file_id now in
  let renamed :=
    set_provenance (mkProvenance file_id (if is_dot (pv_content now) then pv_content now else dot) dot) entry in
  match prior with
  | None => renamed
  | Some p =>
      if negb (bool_decide (file_id = prior_id p)) then renamed
      else if bool_decide (set_provenance no_provenance p = set_provenance no_provenance entry)
      then set_provenance (fe_provenance p) entry
      else set_provenance (mkProvenance file_id dot (pv_name (fe_provenance p))) entry
  end.

Definition extents_appended (before after : FsEntry) : bool :=
  bool_decide (fe_type before = file) && bool_decide (fe_type after = file) &&
  (fe_mode before =? fe_mode after) && (fe_uid before =? fe_uid after) && (fe_gid before =? fe_gid after) &&
  (length (fe_extents before) <? length (fe_extents after))%nat &&
  bool_decide (fe_extents before = take (length (fe_extents before)) (fe_extents after)).

(** How a change travels: as an append, or whole. *)
Inductive EntryChange : Type := ChangeAppend (a : EntryAppend) | ChangeUpsert (e : FsEntry).

Definition entry_change (path : Bytes) (before : option FsEntry) (after : FsEntry) : EntryChange :=
  match before with
  | Some b =>
      if extents_appended b after &&
         bool_decide (append_provenance path (pv_content (fe_provenance after)) (fe_provenance b) = fe_provenance after)
      then ChangeAppend (mkAppend (fe_size after) (fe_mtime_ns after) (fe_ctime_ns after) (fe_version after)
        (wrap32 (Z.of_nat (length (fe_extents b)))) (drop (length (fe_extents b)) (fe_extents after))
        (pv_content (fe_provenance after)))
      else ChangeUpsert after
  | None => ChangeUpsert after
  end.

End provenance.

(** ** Tombstones *)

(** By id, and the latest retirement of an id first. *)
Definition tombstone_ltb (a b : GarbageRef) : bool :=
  if negb (bool_decide (gr_id a = gr_id b)) then key_ltb (gr_id a) (gr_id b)
  else key_ltb (gr_retired_at_ns b, gr_retirement_id b) (gr_retired_at_ns a, gr_retirement_id a).

(** [std::unique] by id: the first of each run. *)
Fixpoint unique_garbage (l : list GarbageRef) : list GarbageRef :=
  match l with
  | [] => []
  | g :: l' =>
      g :: match unique_garbage l' with
           | [] => []
           | (h :: rest) as u => if bool_decide (gr_id g = gr_id h) then rest else u
           end
  end.

(** [read_batch] gives a batch's content, or nothing when it cannot be read
    or decoded. *)
Definition tombstones_of (s : MetadataSnapshot) (read_batch : ObjectId -> option TombstoneBatchContent)
    : list GarbageRef * nat :=
  let '(all, unreadable) := foldl (fun '(all, unreadable) batch =>
      match read_batch (tb_id batch) with
      | Some content =>
          if (Z.of_nat (length (bc_ids content)) =? tb_count batch) && (bc_retired_at_ns content =? tb_retired_at_ns batch)
          then (all ++ ((fun id => mkGarbage id (tb_retired_at_ns batch) (array_fit 16 (abytes (tb_id batch)))) <$> bc_ids content),
                unreadable)
          else (all, S unreadable)
      | None => (all, S unreadable)
      end) (sn_garbage s, O) (sn_tombstone_batches s) in
  (unique_garbage (stable_sort tombstone_ltb all), unreadable).

Definition tombstone_count (s : MetadataSnapshot) : Z :=
  foldl (fun count batch => wrap64 (count + tb_count batch)) (Z.of_nat (length (sn_garbage s))) (sn_tombstone_batches s).

Fixpoint garbage_is_canonical (l : list GarbageRef) : bool :=
  match l with
  | a :: ((b :: _) as l') => key_ltb (gr_id a) (gr_id b) && garbage_is_canonical l'
  | _ => true
  end.

Definition canonicalise_garbage (l : list GarbageRef) : list GarbageRef := stable_sort (by_key gr_id) l.

(** ** Conflicts *)

(** Whether a conflict's subject no longer holds the value its merge left in
    place, and the entries then: identical alternatives over a base need no
    decision, the lesser is installed. *)
Definition superseded (lookup : option (Bytes -> option FsEntry)) (root : option ObjectId) (dot : MetadataDot)
    (entries : NamespaceEntries) (c : MetadataConflict) : bool * NamespaceEntries :=
  match mc_kind c with
  | namespace_entry =>
      let live := match lookup with Some f => f (mc_key c) | None => alookup (mc_key c) entries end in
      if negb (bool_decide (live = conflict_installed_entry c)) then (true, entries)
      else
        match lookup, mc_later_installed c, mc_left_entry c, mc_right_entry c with
        | None, false, Some l, Some r =>
            if same_content l r then (true, map_set (mc_key c) (if key_ltb l r then l else r) entries) else (false, entries)
        | _, _, _, _ => (false, entries)
        end
  | catalogue_root_kind =>
      (negb (bool_decide (root = conflict_installed_catalogue_root c)) ||
       (mc_later_installed c && negb (bool_decide (dot = mc_installed_dot c))), entries)
  end.

Definition prune_step (lookup : option (Bytes -> option FsEntry)) (root : option ObjectId) (dot : MetadataDot)
    (acc : NamespaceEntries * Conflicts * nat) (e : Bytes * MetadataConflict) : NamespaceEntries * Conflicts * nat :=
  let '(entries, kept, pruned) := acc in
  let '(gone, entries) := superseded lookup root dot entries e.2 in
  if gone then (entries, kept, S pruned) else (entries, kept ++ [e], pruned).

Definition prune_superseded_conflicts (lookup : option (Bytes -> option FsEntry)) (s : MetadataSnapshot)
    : MetadataSnapshot * nat :=
  let '(entries, kept, pruned) :=
    foldl (prune_step lookup (sn_catalogue_root s) (sn_catalogue_dot s)) (sn_entries s, [], O) (sn_conflicts s) in
  (set_conflicts kept (set_entries entries s), pruned).
