(* ===== verification/MetadataCodec.v ===== *)
(** * Metadata on disk and on the wire

    The encoders and decoders of [src/src/metadata/metadata.cpp]: entries,
    conflicts, status records, the snapshot of a head in its four formats
    (SM14, SM16, SM17, SM19), tombstone batches, acceptances, records and
    history entries. [MetadataRoundtrip] proves that what is encoded decodes
    to itself. *)

From S2P Require Import Prelude Sorts Maps Orders Codec TorrentRequest Journal Metadata.

(** A [bool] in a byte. *)
Definition flag (b : bool) : Z := if b then 1 else 0.
Definition read_flag : Reader.prog bool := b ← Reader.u8; mret (negb (b =? 0)).

(** The default bounds of [Reader::bytes] and [Reader::string]. *)
Definition max_blob : Z := 256 * 1024 * 1024.
Definition max_string : Z := 65536.

(** [r.remaining()]. *)
Definition read_remaining : Reader.prog Z := fun r => Ok (Z.of_nat (Reader.remaining r), r).

Definition bad {A} (what : string) : Reader.prog A := Reader.throw (DecodeError what).

(** A count that must not be above a bound. *)
Definition read_count (limit : Z) (what : string) : Reader.prog nat :=
  n ← Reader.u32; if limit <? n then bad what else mret (Z.to_nat n).

Definition write_count {A} (l : list A) : Writer.prog := Writer.u32 (Z.of_nat (length l)).

(** An entry of a map read by [emplace]. *)
Definition read_into {K V} `{KeyOrder K, !EqDecision K} (what : string) (k : K) (v : V) (m : list (K * V)) : Reader.prog (list (K * V)) :=
  match map_emplace k v m with Some m' => mret m' | None => bad what end.

(** ** Entries *)

Definition encode_dot (d : MetadataDot) : Writer.prog := Writer.fixed (dot_author d) ;;; Writer.u64 (dot_seq d).
Definition decode_dot : Reader.prog MetadataDot := a ← Reader.fixed 16; s ← Reader.u64; mret (mkDot a s).

Definition encode_entry_provenance (p : EntryProvenance) : Writer.prog :=
  Writer.fixed (pv_file_id p) ;;; encode_dot (pv_content p) ;;; encode_dot (pv_name p).
Definition decode_entry_provenance : Reader.prog EntryProvenance :=
  id ← Reader.fixed 16; content ← decode_dot; name ← decode_dot;
  let p := mkProvenance id content name in
  if provenance_empty p then bad "entry provenance is empty" else mret p.

Definition write_clock_entry (e : NodeId * Z) : Writer.prog := Writer.fixed e.1 ;;; Writer.u64 e.2.
Definition encode_clock (clock : VersionClock) : Writer.prog :=
  write_count clock ;;; Writer.each write_clock_entry clock.
Definition read_clock_entry (what : string) (clock : VersionClock) : Reader.prog VersionClock :=
  node ← Reader.fixed 16; sequence ← Reader.u64;
  if sequence =? 0 then bad what else read_into what node sequence clock.
Definition decode_clock : Reader.prog VersionClock :=
  n ← read_count 65536 "too many clock origins"; read_loop n (read_clock_entry "bad clock entry") [].

Definition entry_type_with_provenance : Z := 128.

Definition write_extent (x : ExtentRef) : Writer.prog :=
  Writer.u64 (ex_offset x) ;;; Writer.u64 (ex_length x) ;;; Writer.u8 (flag (ex_hole x)) ;;; Writer.fixed (ex_id x).
Definition read_extent : Reader.prog ExtentRef :=
  offset ← Reader.u64; length ← Reader.u64; hole ← read_flag; id ← Reader.fixed 32; mret (mkExtent offset length id hole).

Definition write_entry (e : FsEntry) : Writer.prog :=
  let provenance := negb (provenance_empty (fe_provenance e)) in
  Writer.u8 (Z.lor (entry_type_code (fe_type e)) (if provenance then entry_type_with_provenance else 0)) ;;;
  Writer.u32 (fe_mode e) ;;; Writer.u32 (fe_uid e) ;;; Writer.u32 (fe_gid e) ;;;
  Writer.u64 (fe_size e) ;;; Writer.i64 (fe_ctime_ns e) ;;; Writer.i64 (fe_mtime_ns e) ;;; Writer.u64 (fe_version e) ;;;
  (if provenance then encode_entry_provenance (fe_provenance e) else Writer.skip) ;;;
  write_count (fe_extents e) ;;; Writer.each write_extent (fe_extents e).

Definition read_entry : Reader.prog FsEntry :=
  t ← Reader.u8;
  let provenance := negb (Z.land t entry_type_with_provenance =? 0) in
  let t := Z.land t (255 - entry_type_with_provenance) in
  if (t <? 1) || (2 <? t) then bad "bad entry type"
  else
    let type := if t =? 1 then directory else file in
    mode ← Reader.u32; uid ← Reader.u32; gid ← Reader.u32;
    size ← Reader.u64; ctime ← Reader.i64; mtime ← Reader.i64; version ← Reader.u64;
    p ← (if provenance then decode_entry_provenance else mret no_provenance);
    n ← read_count 10000000 "too many extents";
    extents ← Reader.times n read_extent;
    mret (mkEntry type mode uid gid size ctime mtime version extents p).

(** A flag byte, any non-zero one for true, then the value. *)
Definition write_option {A} (w : A -> Writer.prog) (x : option A) : Writer.prog :=
  Writer.u8 (flag (match x with Some _ => true | None => false end)) ;;;
  match x with Some a => w a | None => Writer.skip end.
Definition read_option {A} (p : Reader.prog A) : Reader.prog (option A) :=
  present ← read_flag; if present : bool then a ← p; mret (Some a) else mret None.

Definition write_optional_entry : option FsEntry -> Writer.prog := write_option write_entry.
Definition read_optional_entry : Reader.prog (option FsEntry) := read_option read_entry.
Definition write_optional_object : option ObjectId -> Writer.prog := write_option Writer.fixed.
Definition read_optional_object : Reader.prog (option ObjectId) := read_option (Reader.fixed 32).

(** ** Conflicts *)

Definition conflict_later_installed : Z := 128.
Definition conflict_kind_code (k : MetadataConflictKind) : Z := match k with namespace_entry => 1 | catalogue_root_kind => 2 end.

Definition encode_conflict (c : MetadataConflict) : Writer.prog :=
  Writer.u8 (Z.lor (conflict_kind_code (mc_kind c)) (if mc_later_installed c then conflict_later_installed else 0)) ;;;
  Writer.string (mc_key c) ;;;
  Writer.fixed (mc_left_head c) ;;; Writer.fixed (mc_right_head c) ;;;
  (if mc_later_installed c then encode_dot (mc_installed_dot c) else Writer.skip) ;;;
  match mc_kind c with
  | namespace_entry =>
      write_optional_entry (mc_base_entry c) ;;; write_optional_entry (mc_left_entry c) ;;;
      write_optional_entry (mc_right_entry c)
  | catalogue_root_kind =>
      write_optional_object (mc_base_catalogue_root c) ;;; write_optional_object (mc_left_catalogue_root c) ;;;
      write_optional_object (mc_right_catalogue_root c)
  end.

Definition decode_conflict : Reader.prog MetadataConflict :=
  kind ← Reader.u8;
  let later := negb (Z.land kind conflict_later_installed =? 0) in
  let kind := Z.land kind (255 - conflict_later_installed) in
  if (kind <? 1) || (2 <? kind) then bad "bad metadata conflict kind"
  else
    key ← Reader.string 8192;
    if bool_decide (key = []) then bad "empty metadata conflict key"
    else
      left_head ← Reader.fixed 32; right_head ← Reader.fixed 32;
      dot ← (if later then decode_dot else mret no_dot);
      if kind =? 1 then
        base ← read_optional_entry; left ← read_optional_entry; right ← read_optional_entry;
        mret (mkConflict namespace_entry later dot key left_head right_head base left right None None None)
      else
        base ← read_optional_object; left ← read_optional_object; right ← read_optional_object;
        mret (mkConflict catalogue_root_kind later dot key left_head right_head None None None base left right).

Definition conflict_magic : Bytes := str "MACHCFL1".
(** The hash of the conflict's encoding, in hexadecimal; the encoding throws
    only for a blob of 4 GiB. *)
Definition metadata_conflict_id `{Sha256} (c : MetadataConflict) : result Bytes :=
  bytes ← Writer.run (Writer.raw conflict_magic ;;; encode_conflict c); mret (to_string (sha256 bytes)).

(** ** Status records and identity resets *)

Definition encode_node_status (s : PersistedNodeStatus) : Writer.prog :=
  Writer.fixed (ns_boot_id s) ;;; Writer.u64 (ns_observed_unix_ms s) ;;;
  Writer.string (ns_version s) ;;; Writer.string (ns_host s) ;;; Writer.string (ns_failure_domain s) ;;;
  Writer.u16 (ns_port s) ;;; Writer.u64 (ns_storage_capacity s) ;;; Writer.u64 (ns_storage_used s) ;;;
  Writer.u64 (ns_cache_capacity s) ;;; Writer.u64 (ns_cache_used s) ;;; Writer.u64 (ns_metadata_generation s) ;;;
  Writer.u32 (ns_storage_backends_online s).
Definition decode_node_status : Reader.prog PersistedNodeStatus :=
  boot ← Reader.fixed 16; observed ← Reader.u64;
  version ← Reader.string 256; host ← Reader.string 4096; domain ← Reader.string 4096;
  port ← Reader.u16; capacity ← Reader.u64; used ← Reader.u64;
  cache_capacity ← Reader.u64; cache_used ← Reader.u64; generation ← Reader.u64; backends ← Reader.u32;
  mret (mkStatus boot observed version host domain port capacity used cache_capacity cache_used generation backends [] []).

Definition encode_identity_reset (r : IdentityAssociationReset) : Writer.prog :=
  Writer.string (rs_host r) ;;; Writer.u16 (rs_port r) ;;; Writer.fixed (rs_stale_node_id r) ;;;
  Writer.u64 (rs_epoch r) ;;; Writer.u64 (rs_reset_unix_ms r) ;;; Writer.fixed (rs_reset_by r) ;;; Writer.string (rs_reason r).
Definition decode_identity_reset : Reader.prog IdentityAssociationReset :=
  host ← Reader.string 4096; port ← Reader.u16; stale ← Reader.fixed 16;
  epoch ← Reader.u64; reset_ms ← Reader.u64; by_ ← Reader.fixed 16; reason ← Reader.string 4096;
  if bool_decide (host = []) || (epoch =? 0) then bad "bad identity reset"
  else mret (mkReset host port stale epoch reset_ms by_ reason).

Definition write_status (e : NodeId * PersistedNodeStatus) : Writer.prog := Writer.fixed e.1 ;;; encode_node_status e.2.
Definition write_reset (e : Bytes * IdentityAssociationReset) : Writer.prog := Writer.string e.1 ;;; encode_identity_reset e.2.
Definition write_conflict (e : Bytes * MetadataConflict) : Writer.prog := Writer.string e.1 ;;; encode_conflict e.2.

(** ** The snapshot *)

Definition magic_sm14 : Bytes := str "DHTMETB4".
Definition magic_sm16 : Bytes := str "DHTMETB6".
Definition magic_sm17 : Bytes := str "DHTMETB7".
Definition magic_sm19 : Bytes := str "DHTMETB9".
Definition magic_genesis : Bytes := str "DHTMGEN1".

Definition write_throw (e : exn) : Writer.prog := fun _ => Throw e.

Definition encode_torrent_requests (requests : Requests) : Writer.prog :=
  if max_torrent_requests <? Z.of_nat (length requests) then write_throw (RuntimeError "too many torrent requests")
  else
    write_count requests ;;;
    Writer.each (fun e =>
      if negb (bool_decide (e.1 = tr_id e.2)) then write_throw (RuntimeError "torrent request keyed by another id")
      else encode_torrent_request e.2) requests.
Definition read_request (none twice : string) (requests : Requests) : Reader.prog Requests :=
  request ← decode_torrent_request;
  if bool_decide (tr_id request = []) then bad none else read_into twice (tr_id request) request requests.
Definition decode_torrent_requests : Reader.prog Requests :=
  n ← read_count max_torrent_requests "too many torrent requests";
  read_loop n (read_request "bad torrent request key" "bad torrent request key") [].

Definition write_garbage (g : GarbageRef) : Writer.prog :=
  Writer.fixed (gr_id g) ;;; Writer.i64 (gr_retired_at_ns g) ;;; Writer.fixed (gr_retirement_id g).
Definition read_garbage : Reader.prog GarbageRef :=
  id ← Reader.fixed 32; retired ← Reader.i64;
  if retired <? 0 then bad "bad garbage retirement time"
  else retirement ← Reader.fixed 16; mret (mkGarbage id retired retirement).

Definition write_batch (b : TombstoneBatch) : Writer.prog :=
  Writer.fixed (tb_id b) ;;; Writer.i64 (tb_retired_at_ns b) ;;; Writer.u32 (tb_count b).
(** A batch after those read so far: in order, not empty. *)
Definition read_batch (what : string) (batches : list TombstoneBatch) : Reader.prog (list TombstoneBatch) :=
  id ← Reader.fixed 32; retired ← Reader.i64; count ← Reader.u32;
  if (count =? 0) || (retired <? 0) ||
     match last batches with Some b => negb (key_ltb (tb_id b) id) | None => false end
  then bad what
  else mret (batches ++ [mkBatch id retired count]).

(** Which of the trailing sections a snapshot has. *)
Definition names_batches (s : MetadataSnapshot) : bool := negb (bool_decide (sn_tombstone_batches s = [])).
Definition has_requests (s : MetadataSnapshot) : bool := negb (bool_decide (sn_torrent_requests s = [])).
Definition has_legacy_clock (s : MetadataSnapshot) : bool := match sn_legacy_clock s with Some _ => true | None => false end.
Definition snapshot_magic (s : MetadataSnapshot) : Bytes :=
  if names_batches s then magic_sm19 else if has_legacy_clock s then magic_sm17
  else if has_requests s then magic_sm16 else magic_sm14.

Definition write_snapshot_body (root : ObjectId) (s : MetadataSnapshot) : Writer.prog :=
  write_count (sn_metadata_voters s) ;;; Writer.each Writer.fixed (sn_metadata_voters s) ;;;
  Writer.u32 (sn_data_replication s) ;;; Writer.u64 (sn_extent_size s) ;;;
  write_count (sn_mutation_sequences s) ;;; Writer.each write_clock_entry (sn_mutation_sequences s) ;;;
  Writer.fixed root ;;;
  write_optional_object (sn_catalogue_root s) ;;;
  write_count (sn_garbage s) ;;; Writer.each write_garbage (sn_garbage s) ;;;
  write_count (sn_node_status s) ;;; Writer.each write_status (sn_node_status s) ;;;
  write_count (sn_identity_resets s) ;;; Writer.each write_reset (sn_identity_resets s) ;;;
  write_count (sn_merge_parents s) ;;; Writer.each Writer.fixed (sn_merge_parents s) ;;;
  write_count (sn_conflicts s) ;;; Writer.each write_conflict (sn_conflicts s) ;;;
  Writer.u32 (sn_write_replicas_required s) ;;;
  write_count (sn_participants s) ;;; Writer.each Writer.fixed (sn_participants s) ;;;
  Writer.fixed (sn_branch_floor s) ;;;
  Writer.u8 (flag (sn_retention_baseline_complete s)) ;;;
  (if names_batches s || has_legacy_clock s || has_requests s then encode_torrent_requests (sn_torrent_requests s)
   else Writer.skip) ;;;
  (if names_batches s then Writer.u8 (flag (has_legacy_clock s)) else Writer.skip) ;;;
  match sn_legacy_clock s with
  | Some c => encode_clock c ;;; encode_dot (sn_catalogue_dot s)
  | None => Writer.skip
  end ;;;
  (if names_batches s then
     if 10000000 <? Z.of_nat (length (sn_tombstone_batches s)) then write_throw (RuntimeError "too many tombstone batches")
     else write_count (sn_tombstone_batches s) ;;; Writer.each write_batch (sn_tombstone_batches s)
   else Writer.skip).

Definition encode_snapshot_v14 (s : MetadataSnapshot) : result Bytes :=
  match sn_namespace_root s with
  | None => Throw (RuntimeError "SM14 snapshot has no namespace root")
  | Some root =>
      if negb (bool_decide (sn_entries s = [])) then Throw (RuntimeError "SM14 snapshot still inlines its entries")
      else if sn_write_replicas_required s =? 0 then Throw (RuntimeError "SM14 snapshot has no metadata write floor")
      else if 64 <? Z.of_nat (length (sn_merge_parents s)) then Throw (RuntimeError "too many metadata merge parents")
      else if 1000000 <? Z.of_nat (length (sn_conflicts s)) then Throw (RuntimeError "too many metadata conflicts")
      else if 65536 <? Z.of_nat (length (sn_participants s)) then Throw (RuntimeError "too many metadata participants")
      else Writer.run (Writer.raw (snapshot_magic s) ;;; write_snapshot_body root s)
  end.

Section decode.
Context `{Sha256}.

(** Conflicts are keyed by their ids. *)
Definition read_conflict (p : Reader.prog Bytes) (what : string) (conflicts : Conflicts) : Reader.prog Conflicts :=
  id ← p; c ← decode_conflict;
  match metadata_conflict_id c with
  | Throw e => Reader.throw e
  | Ok i => if bool_decide (id = []) || negb (bool_decide (id = i)) then bad what else read_into what id c conflicts
  end.

Definition read_status (what : string) (statuses : list (NodeId * PersistedNodeStatus)) : Reader.prog (list (NodeId * PersistedNodeStatus)) :=
  node ← Reader.fixed 16; status ← decode_node_status; read_into what node status statuses.

Definition read_reset (what : string) (resets : list (Bytes * IdentityAssociationReset)) : Reader.prog (list (Bytes * IdentityAssociationReset)) :=
  key ← Reader.string 8192; reset ← decode_identity_reset;
  if negb (bool_decide (key = identity_reset_key (rs_host reset) (rs_port reset))) then bad what
  else read_into what key reset resets.

(** [std::set::insert]. *)
Definition read_participant (participants : list NodeId) : Reader.prog (list NodeId) :=
  p ← Reader.fixed 16;
  if bool_decide (p = array_zero 16) || bool_decide (p ∈ participants) then bad "bad metadata participant"
  else mret (sort_unique (participants ++ [p])).

Definition decode_snapshot_v14 (torrent_requests legacy_clock batches : bool) : Reader.prog MetadataSnapshot :=
  n ← read_count 1024 "too many metadata voters";
  voters ← Reader.times n (Reader.fixed 16);
  data_replication ← Reader.u32; extent_size ← Reader.u64;
  n ← read_count 65536 "too many metadata mutation origins";
  sequences ← read_loop n (read_clock_entry "bad metadata mutation sequence") [];
  root ← Reader.fixed 32;
  if bool_decide (root = array_zero 32) then bad "missing namespace root"
  else
  catalogue ← read_optional_object;
  n ← read_count 10000000 "too many garbage records";
  garbage ← Reader.times n read_garbage;
  n ← read_count 65536 "too many persisted node status records";
  statuses ← read_loop n (read_status "duplicate persisted node status") [];
  n ← read_count 65536 "too many identity reset tombstones";
  resets ← read_loop n (read_reset "bad identity reset tombstone key") [];
  n ← read_count 64 "too many metadata merge parents";
  parents ← Reader.times n (Reader.fixed 32);
  n ← read_count 1000000 "too many metadata conflicts";
  conflicts ← read_loop n (read_conflict (Reader.string 256) "bad metadata conflict id") [];
  required ← Reader.u32;
  if required =? 0 then bad "bad metadata write replica floor"
  else
  n ← read_count 65536 "too many metadata participants";
  participants ← read_loop n read_participant [];
  floor ← Reader.fixed 32;
  baseline ← Reader.u8;
  if 1 <? baseline then bad "bad retention baseline state"
  else
  requests ← (if torrent_requests || batches then decode_torrent_requests else mret []);
  clocked ← (if batches : bool then
      f ← Reader.u8; if 1 <? f then bad "bad metadata legacy clock flag" else mret (negb (f =? 0))
    else mret legacy_clock);
  legacy ← (if clocked : bool then c ← decode_clock; d ← decode_dot; mret (Some c, d) else mret (None, no_dot));
  tombstones ← (if batches : bool then
      n ← Reader.u32; remaining ← read_remaining;
      if (n =? 0) || (remaining / 44 <? n) then bad "bad tombstone batch count"
      else read_loop (Z.to_nat n) (read_batch "bad tombstone batch") []
    else mret []);
  mret (mkSnapshot voters data_replication extent_size required participants floor (negb (baseline =? 0)) sequences
    legacy.1 legacy.2 catalogue (Some root) [] garbage tombstones statuses resets parents conflicts requests).

(** Until the first commit the namespace reads as an empty root directory. *)
Definition genesis_snapshot : MetadataSnapshot :=
  set_entries [([x2f], mkEntry directory 493 0 0 0 0 0 1 [] no_provenance)] empty_snapshot.

Definition decode_snapshot (d : Bytes) : result MetadataSnapshot :=
  Reader.run (
    m ← Reader.raw 8;
    s ← (if bool_decide (m = magic_sm14) then decode_snapshot_v14 false false false
         else if bool_decide (m = magic_sm16) then decode_snapshot_v14 true false false
         else if bool_decide (m = magic_sm17) then decode_snapshot_v14 true true false
         else if bool_decide (m = magic_sm19) then decode_snapshot_v14 true false true
         else if bool_decide (m = magic_genesis) then mret genesis_snapshot
         else bad "bad snapshot");
    _ ← Reader.finish; mret s) d.

(** ** Tombstone batches *)

Definition magic_tombstone_batch : Bytes := str "MTOMB001".

Fixpoint ids_sorted (ids : list ObjectId) : bool :=
  match ids with
  | a :: ((b :: _) as rest) => key_ltb a b && ids_sorted rest
  | _ => true
  end.

Definition encode_tombstone_batch (retired_at_ns : Z) (ids : list ObjectId) : result Bytes :=
  if bool_decide (ids = []) || (retired_at_ns <? 0) then Throw (InvalidArgument "empty or unretired tombstone batch")
  else if negb (ids_sorted ids) then Throw (InvalidArgument "tombstone batch ids not sorted and unique")
  else Writer.run (Writer.raw magic_tombstone_batch ;;; Writer.i64 retired_at_ns ;;; write_count ids ;;; Writer.each Writer.fixed ids).

Definition read_batch_id (ids : list ObjectId) : Reader.prog (list ObjectId) :=
  id ← Reader.fixed 32;
  if match last ids with Some b => negb (key_ltb b id) | None => false end then bad "tombstone batch ids out of order"
  else mret (ids ++ [id]).

Definition decode_tombstone_batch (bytes : Bytes) : result TombstoneBatchContent :=
  Reader.run (
    m ← Reader.raw 8;
    if negb (bool_decide (m = magic_tombstone_batch)) then bad "not a tombstone batch"
    else
      retired ← Reader.i64; n ← Reader.u32; remaining ← read_remaining;
      if (retired <? 0) || (n =? 0) || (remaining / 32 <? n) then bad "bad tombstone batch"
      else
        ids ← read_loop (Z.to_nat n) read_batch_id [];
        _ ← Reader.finish; mret (mkBatchContent retired ids)) bytes.

(** ** Records, acceptances and history *)

Record MetadataRecord : Type := mkRecord { mr_generation : Z; mr_previous : Hash256; mr_hash : Hash256; mr_payload : Bytes }.

(** [metadata_hash] streams the encoding into the hasher. *)
Definition metadata_hash (generation : Z) (previous : Hash256) (payload : Bytes) : result Hash256 :=
  bytes ← Writer.run (Writer.u64 generation ;;; Writer.fixed previous ;;; Writer.bytes payload); mret (sha256 bytes).

Definition valid_metadata_record (m : MetadataRecord) : result bool :=
  if mr_generation m =? 0 then mret false
  else h ← metadata_hash (mr_generation m) (mr_previous m) (mr_payload m); mret (bool_decide (h = mr_hash m)).

Definition encode_metadata_record (m : MetadataRecord) : result Bytes :=
  Writer.run (Writer.u64 (mr_generation m) ;;; Writer.fixed (mr_previous m) ;;; Writer.fixed (mr_hash m) ;;; Writer.bytes (mr_payload m)).

Definition decode_metadata_record (d : Bytes) : result MetadataRecord :=
  m ← Reader.run (
    generation ← Reader.u64; previous ← Reader.fixed 32; hash ← Reader.fixed 32; payload ← Reader.bytes max_blob;
    _ ← Reader.finish; mret (mkRecord generation previous hash payload)) d;
  ok ← valid_metadata_record m;
  if ok : bool then mret m else Throw (DecodeError "bad metadata hash").

Definition genesis_metadata : result MetadataRecord :=
  h ← metadata_hash 1 (array_zero 32) magic_genesis; mret (mkRecord 1 (array_zero 32) h magic_genesis).

Record MetadataAcceptance : Type := mkAcceptance {
  ma_generation : Z; ma_hash : Hash256; ma_required : Z; ma_replicas : list NodeId
}.

Definition encode_metadata_acceptance (input : MetadataAcceptance) : result Bytes :=
  let replicas := sort_unique (ma_replicas input) in
  if (ma_generation input =? 0) || bool_decide (ma_hash input = array_zero 32)
  then Throw (RuntimeError "bad metadata acceptance identity")
  else if bool_decide (array_zero 16 ∈ replicas) then Throw (RuntimeError "metadata acceptance contains empty replica identity")
  else if negb (ma_required input =? 0) && (Z.of_nat (length replicas) <? ma_required input)
  then Throw (RuntimeError "metadata acceptance does not satisfy write floor")
  else if (ma_required input =? 0) && negb (bool_decide (replicas = []))
  then Throw (RuntimeError "metadata acceptance without a floor cannot name replicas")
  else if 1000000 <? Z.of_nat (length replicas) then Throw (RuntimeError "too many metadata acceptance replicas")
  else Writer.run (Writer.u64 (ma_generation input) ;;; Writer.fixed (ma_hash input) ;;; Writer.u32 (ma_required input) ;;;
    write_count replicas ;;; Writer.each Writer.fixed replicas).

(** [std::is_sorted] and no two adjacent equal. *)
Fixpoint replicas_canonical (l : list NodeId) : bool :=
  match l with
  | a :: ((b :: _) as rest) => key_ltb a b && replicas_canonical rest
  | _ => true
  end.

Definition decode_metadata_acceptance (d : Bytes) : result MetadataAcceptance :=
  a ← Reader.run (
    generation ← Reader.u64; hash ← Reader.fixed 32; required ← Reader.u32;
    n ← read_count 1000000 "too many metadata acceptance replicas";
    replicas ← Reader.times n (Reader.fixed 16);
    _ ← Reader.finish; mret (mkAcceptance generation hash required replicas)) d;
  if (ma_generation a =? 0) || bool_decide (ma_hash a = array_zero 32)
  then Throw (DecodeError "bad metadata acceptance identity")
  else if negb (replicas_canonical (ma_replicas a)) then Throw (DecodeError "metadata acceptance replicas are not canonical")
  else if bool_decide (array_zero 16 ∈ ma_replicas a) then Throw (DecodeError "metadata acceptance contains empty replica identity")
  else if negb (ma_required a =? 0) then
    if Z.of_nat (length (ma_replicas a)) <? ma_required a then Throw (DecodeError "metadata acceptance does not satisfy write floor")
    else Ok a
  else if negb (bool_decide (ma_replicas a = [])) then
    Throw (DecodeError "metadata acceptance without a floor cannot name replicas")
  else Ok a.

(** [writer.bytes(encode_metadata_acceptance(value))]. *)
Definition write_acceptance (a : MetadataAcceptance) : Writer.prog := fun w =>
  match encode_metadata_acceptance a with Ok bytes => Writer.bytes bytes w | Throw e => Throw e end.
Definition encode_metadata_acceptance_set (values : list MetadataAcceptance) : result Bytes :=
  if 1000000 <? Z.of_nat (length values) then Throw (RuntimeError "too many metadata accepted heads")
  else Writer.run (write_count values ;;; Writer.each write_acceptance values).

Definition read_acceptance (values : list MetadataAcceptance) : Reader.prog (list MetadataAcceptance) :=
  bytes ← Reader.bytes max_blob;
  match decode_metadata_acceptance bytes with
  | Throw e => Reader.throw e
  | Ok value =>
      if bool_decide (ma_hash value ∈ ma_hash <$> values) then bad "duplicate metadata accepted head" else mret (values ++ [value])
  end.
Definition decode_metadata_acceptance_set (d : Bytes) : result (list MetadataAcceptance) :=
  Reader.run (
    n ← read_count 1000000 "too many metadata accepted heads";
    values ← read_loop n read_acceptance [];
    _ ← Reader.finish; mret values) d.

Inductive HistoryBody : Type := body_full | body_delta.
#[global] Instance body_eq_dec : EqDecision HistoryBody.
Proof. solve_decision. Defined.
Record MetadataHistoryEntry : Type := mkHistory {
  mh_generation : Z; mh_previous : Hash256; mh_hash : Hash256; mh_previous_known : bool;
  mh_merge_parents : list Hash256; mh_body : HistoryBody; mh_payload : Bytes
}.
Definition body_code (b : HistoryBody) : Z := match b with body_full => 1 | body_delta => 2 end.

Definition metadata_history_materialization_dependencies (e : MetadataHistoryEntry) : list Hash256 :=
  match mh_body e with body_delta => [mh_previous e] | body_full => [] end.

Definition encode_metadata_history_entry (e : MetadataHistoryEntry) : result Bytes :=
  if 64 <? Z.of_nat (length (mh_merge_parents e)) then Throw (RuntimeError "too many metadata history merge parents")
  else Writer.run (Writer.u8 (body_code (mh_body e)) ;;; Writer.u64 (mh_generation e) ;;; Writer.fixed (mh_previous e) ;;;
    Writer.fixed (mh_hash e) ;;; Writer.u8 (flag (mh_previous_known e)) ;;;
    write_count (mh_merge_parents e) ;;; Writer.each Writer.fixed (mh_merge_parents e) ;;; Writer.bytes (mh_payload e)).

Definition decode_metadata_history_entry (d : Bytes) : result MetadataHistoryEntry :=
  e ← Reader.run (
    body ← Reader.u8;
    if (body <? 1) || (2 <? body) then bad "bad metadata history body kind"
    else
      generation ← Reader.u64; previous ← Reader.fixed 32; hash ← Reader.fixed 32; known ← read_flag;
      n ← read_count 64 "too many metadata history merge parents";
      parents ← Reader.times n (Reader.fixed 32); payload ← Reader.bytes max_blob;
      _ ← Reader.finish;
      mret (mkHistory generation previous hash known parents (if body =? 1 then body_full else body_delta) payload)) d;
  if (mh_generation e =? 0) || bool_decide (mh_hash e = array_zero 32) then Throw (DecodeError "bad metadata history identity")
  else if (mh_generation e <=? 1) && mh_previous_known e then Throw (DecodeError "genesis metadata history has a predecessor")
  else if bool_decide (mh_body e = body_delta) && negb (mh_previous_known e)
  then Throw (DecodeError "metadata delta history is missing predecessor")
  else if existsb (fun p => bool_decide (p = array_zero 32) || bool_decide (p = mh_hash e)) (mh_merge_parents e)
  then Throw (DecodeError "bad metadata merge parent")
  else Ok e.

(** The parents of a record: its predecessor, then the merge's others. *)
Definition metadata_record_parents (r : MetadataRecord) : result (list Hash256) :=
  ok ← valid_metadata_record r;
  if negb ok then Throw (DecodeError "invalid metadata record")
  else
    s ← decode_snapshot (mr_payload r);
    foldM (fun parents p =>
        if bool_decide (p = array_zero 32) || bool_decide (p = mr_hash r) then Throw (DecodeError "bad metadata merge parent")
        else Ok (if bool_decide (p ∈ parents) then parents else parents ++ [p]))
      (if (1 <? mr_generation r) && negb (bool_decide (mr_previous r = array_zero 32)) then [mr_previous r] else [])
      (sn_merge_parents s).
End decode.
