(* ===== verification/MetadataRoundtrip.v ===== *)
(** * Metadata travels unchanged

    What the encoders of [MetadataCodec] write decodes to what was encoded,
    for every value their C++ types can hold and the decoders accept. *)

From S2P Require Import Prelude Sorts Maps Orders Codec TorrentRequest Journal Metadata MetadataCodec.

(** ** Lists and maps *)

Lemma carries_assoc {A} w1 w2 w3 (p : Reader.prog A) x : carries (w1 ;;; w2 ;;; w3) p x -> carries ((w1 ;;; w2) ;;; w3) p x.
Proof.
  intros (e & Hw & Hr). exists e. split; [|done]. intros w. rewrite <- Hw. unfold Writer.seq.
  destruct (w1 w); [|done]. cbn. by destruct (w2 _).
Qed.

Lemma carries_flag b : carries (Writer.u8 (flag b)) read_flag b.
Proof.
  eapply carries_eq; [apply (carries_map _ _ (fun z => negb (z =? 0))), carries_u8|]; destruct b; cbn; (lia || done).
Qed.

Lemma carries_count {A} (l : list A) limit what :
  Z.of_nat (length l) <= limit < 2 ^ 32 -> carries (write_count l) (read_count limit what) (length l).
Proof.
  intros Hl. unfold write_count, read_count. eapply carries_then; [apply carries_u32; lia|].
  destruct (Z.ltb_spec limit (Z.of_nat (length l))); [lia|]. rewrite Nat2Z.id. apply reads_ret.
Qed.

Lemma carries_times {A} (w : A -> Writer.prog) p l :
  Forall (fun a => carries (w a) p a) l -> carries (Writer.each w l) (Reader.times (length l) p) l.
Proof.
  induction 1 as [|a l Ha Hl IH]; cbn; [apply carries_skip|].
  eapply carries_bind; [exact Ha|]. by apply (carries_map _ _ (cons a)).
Qed.

Lemma carries_fixeds {n} (l : list (array n)) : carries (Writer.each Writer.fixed l) (Reader.times (length l) (Reader.fixed n)) l.
Proof. apply carries_times, Forall_forall. intros. apply carries_fixed. Qed.

Lemma map_set_after {K V} `{KeyOrder K, !EqDecision K} (k : K) (v : V) m l :
  sorted_recs (m ++ (k, v) :: l) -> map_set k v m = m ++ [(k, v)] /\ alookup k m = None.
Proof.
  intros [Hlt [Hm _]]%sorted_recs_app.
  assert (Forall (fun r => key_lt r.1 k) m) as Hf by (apply Forall_forall; intros r Hr; apply (Hlt r (k, v)); [done | by left]).
  split; [by apply map_set_end|]. apply alookup_None. intros (r & -> & Hr)%list_elem_of_fmap.
  rewrite Forall_forall in Hf. by apply (key_lt_irrefl r.1), Hf.
Qed.

(** A map read entry by entry. *)
Lemma carries_entries {K V} `{KeyOrder K, !EqDecision K} (w : K * V -> Writer.prog) body (ok : K * V -> Prop) l :
  (forall m e, ok e -> alookup e.1 m = None -> carries (w e) (body m) (map_set e.1 e.2 m)) ->
  sorted_recs l -> Forall ok l -> carries (Writer.each w l) (read_loop (length l) body []) l.
Proof.
  intros Hb Hs Hok.
  assert (forall (l m : list (K * V)), sorted_recs (m ++ l) -> foldl (fun m e => map_set e.1 e.2 m) m l = m ++ l) as Hfold.
  { clear Hb Hs Hok. intros l'. induction l' as [|[k v] l' IH]; intros m Hs; cbn [foldl fst snd]; [by rewrite app_nil_r|].
    destruct (map_set_after k v m l' Hs) as [-> _]. rewrite IH; by rewrite <- app_assoc. }
  rewrite <- (Hfold l []) at 3 by done.
  apply (carries_loop w body (fun m e => map_set e.1 e.2 m) (fun m l => sorted_recs (m ++ l) /\ Forall ok l)); [|done].
  intros m [k v] l' [Hs' [Hkv Hl']%Forall_cons]. destruct (map_set_after k v m l' Hs') as [E En].
  split; [by apply Hb|]. cbn [fst snd]. rewrite E, <- app_assoc. done.
Qed.

Lemma foldl_snoc {A} (l m : list A) : foldl (fun m a => m ++ [a]) m l = m ++ l.
Proof.
  revert m. induction l as [|a l IH]; intros m; cbn [foldl]; [by rewrite app_nil_r|]. by rewrite IH, <- app_assoc.
Qed.

(** A vector read element by element, each checked against the one before. *)
Lemma carries_in_order {A} (w : A -> Writer.prog) body (R : relation A) (ok : A -> Prop) l :
  (forall m a, ok a -> (forall b, last m = Some b -> R b a) -> carries (w a) (body m) (m ++ [a])) ->
  StronglySorted R l -> Forall ok l -> carries (Writer.each w l) (read_loop (length l) body []) l.
Proof.
  intros Hb Hs Hok. rewrite <- (foldl_snoc l [] : _ = l) at 3.
  apply (carries_loop w body (fun m a => m ++ [a]) (fun m l => StronglySorted R (m ++ l) /\ Forall ok l)); [|done].
  intros m a l' [Hs' [Ha Hl']%Forall_cons]. split; [|by rewrite <- app_assoc]. apply Hb; [done|].
  intros b (m' & ->)%last_Some. rewrite <- app_assoc in Hs'. apply StronglySorted_app in Hs' as (_ & _ & Hs').
  apply StronglySorted_cons in Hs' as [Hs' _]. by apply Forall_cons in Hs' as [Hs' _].
Qed.

(** A vector read element by element, no key twice. *)
Lemma carries_fresh {A K} (key : A -> K) (w : A -> Writer.prog) body (ok : A -> Prop) l :
  (forall m a, ok a -> key a ∉ key <$> m -> carries (w a) (body m) (m ++ [a])) ->
  NoDup (key <$> l) -> Forall ok l -> carries (Writer.each w l) (read_loop (length l) body []) l.
Proof.
  intros Hb Hn Hok. rewrite <- (foldl_snoc l [] : _ = l) at 3.
  apply (carries_loop w body (fun m a => m ++ [a]) (fun m l => NoDup (key <$> m ++ l) /\ Forall ok l)); [|done].
  intros m a l' [Hn' [Ha Hl']%Forall_cons]. split; [|by rewrite <- app_assoc]. apply Hb; [done|].
  rewrite fmap_app in Hn'. apply NoDup_app in Hn' as (_ & Hd & _). intros Hin. apply (Hd _ Hin). by left.
Qed.

Lemma reads_into {K V} `{KeyOrder K, !EqDecision K} what (k : K) (v : V) m :
  alookup k m = None -> reads (read_into what k v m) [] (map_set k v m).
Proof. intros E. unfold read_into, map_emplace. rewrite E. apply reads_ret. Qed.

(** A check of how much input is left, met by what follows. *)
Lemma carries_remaining {A} w (k : Z -> Reader.prog A) size x :
  (forall e, writes w e -> Z.of_nat (length e) = size) ->
  (forall remaining, size <= remaining -> carries w (k remaining) x) -> carries w (read_remaining ≫= k) x.
Proof.
  intros Hsize Hk. destruct (Hk size ltac:(done)) as (e & Hw & _). exists e. split; [done|]. intros pre post.
  unfold mbind, Reader.prog_bind, read_remaining, Reader.remaining. cbn [Reader.data Reader.position].
  destruct (Hk (Z.of_nat (length (pre ++ e ++ post) - length pre))) as (e' & Hw' & Hr').
  { rewrite <- (Hsize e Hw), !length_app. lia. }
  assert (e' = e) as ->.
  { pose proof (Hw []) as E1. rewrite (Hw' []) in E1. by injection E1. }
  apply Hr'.
Qed.

Lemma each_size {A} (w : A -> Writer.prog) n l :
  (forall a, exists e, writes (w a) e /\ Z.of_nat (length e) = n) ->
  forall e, writes (Writer.each w l) e -> Z.of_nat (length e) = n * Z.of_nat (length l).
Proof.
  intros Hw. induction l as [|a l IH]; intros e He; cbn [Writer.each length] in *.
  - pose proof (He []) as E. injection E as <-. cbn. lia.
  - destruct (Hw a) as (ea & Ha & Hn).
    assert (exists el, writes (Writer.each w l) el) as [el Hel].
    { clear -Hw. induction l as [|b l IH]; [eexists; apply writes_skip|].
      destruct (Hw b) as (eb & Hb & _), IH as [el Hl]. eexists. by apply writes_seq. }
    pose proof (writes_seq _ _ _ _ Ha Hel []) as E. rewrite (He []) in E. injection E as ->.
    rewrite length_app, Nat2Z.inj_add, Hn, (IH el Hel). lia.
Qed.

(** ** Entries *)

Definition i64_ok (z : Z) : Prop := - 2 ^ 63 <= z < 2 ^ 63.
Definition u32_ok (z : Z) : Prop := 0 <= z < 2 ^ 32.
Definition u16_ok (z : Z) : Prop := 0 <= z < 2 ^ 16.

Definition dot_ok (d : MetadataDot) : Prop := u64_ok (dot_seq d).
Lemma carries_dot d : dot_ok d -> carries (encode_dot d) decode_dot d.
Proof. intros H. destruct d. unfold encode_dot, decode_dot. carry. exact H. Qed.

(** What is encoded of a provenance: an empty one is not. *)
Definition provenance_ok (p : EntryProvenance) : Prop :=
  dot_ok (pv_content p) /\ dot_ok (pv_name p) /\ (provenance_empty p = true -> p = no_provenance).

Lemma carries_provenance p :
  provenance_ok p -> provenance_empty p = false -> carries (encode_entry_provenance p) decode_entry_provenance p.
Proof.
  intros (H1 & H2 & _) He. unfold encode_entry_provenance, decode_entry_provenance.
  eapply carries_bind; [apply carries_fixed|]. eapply carries_bind; [by apply carries_dot|].
  eapply carries_then; [by apply carries_dot|]. cbv zeta. replace (mkProvenance _ _ _) with p by (by destruct p).
  rewrite He. apply reads_ret.
Qed.

Definition clock_wf (c : VersionClock) : Prop :=
  sorted_recs c /\ Z.of_nat (length c) <= 65536 /\ Forall (fun e => 0 < e.2 < 2 ^ 64) c.

Lemma carries_clock_entries what c :
  clock_wf c -> carries (Writer.each write_clock_entry c) (read_loop (length c) (read_clock_entry what) []) c.
Proof.
  intros (Hs & _ & Hv). eapply carries_entries; [|exact Hs | exact Hv].
  intros m [node seq] Hseq En. cbn [fst snd] in *. unfold write_clock_entry, read_clock_entry. cbn [fst snd].
  eapply carries_bind; [apply carries_fixed|]. eapply carries_then; [apply carries_u64; lia|].
  destruct (Z.eqb_spec seq 0); [lia|]. by apply reads_into.
Qed.

Lemma carries_clock c : clock_wf c -> carries (encode_clock c) decode_clock c.
Proof.
  intros Hc. unfold encode_clock, decode_clock. eapply carries_bind; [apply carries_count; destruct Hc; lia|].
  by apply carries_clock_entries.
Qed.

Definition extent_ok (x : ExtentRef) : Prop := u64_ok (ex_offset x) /\ u64_ok (ex_length x).
Lemma carries_extent x : extent_ok x -> carries (write_extent x) read_extent x.
Proof.
  intros [H1 H2]. destruct x as [off len id hole]. unfold write_extent, read_extent. cbn [ex_offset ex_length ex_hole ex_id].
  eapply carries_bind; [by apply carries_u64|]. eapply carries_bind; [by apply carries_u64|].
  eapply carries_bind; [apply carries_flag|]. carry.
Qed.

Definition entry_ok (e : FsEntry) : Prop :=
  u32_ok (fe_mode e) /\ u32_ok (fe_uid e) /\ u32_ok (fe_gid e) /\ u64_ok (fe_size e) /\ i64_ok (fe_ctime_ns e) /\
  i64_ok (fe_mtime_ns e) /\ u64_ok (fe_version e) /\ provenance_ok (fe_provenance e) /\
  Z.of_nat (length (fe_extents e)) <= 10000000 /\ Forall extent_ok (fe_extents e).

Lemma entry_eta e :
  e = mkEntry (fe_type e) (fe_mode e) (fe_uid e) (fe_gid e) (fe_size e) (fe_ctime_ns e) (fe_mtime_ns e) (fe_version e)
    (fe_extents e) (fe_provenance e).
Proof. by destruct e. Qed.

Lemma carries_entry e : entry_ok e -> carries (write_entry e) read_entry e.
Proof.
  intros (Hmode & Huid & Hgid & Hsize & Hc & Hm & Hv & Hp & Hn & Hx). unfold write_entry, read_entry.
  remember (negb (provenance_empty (fe_provenance e))) as p eqn:Ep. cbv zeta.
  eapply carries_bind; [apply carries_u8; by destruct (fe_type e), p|].
  assert (negb (Z.land (Z.lor (entry_type_code (fe_type e)) (if p then entry_type_with_provenance else 0))
    entry_type_with_provenance =? 0) = p) as -> by (by destruct (fe_type e), p).
  assert (Z.land (Z.lor (entry_type_code (fe_type e)) (if p then entry_type_with_provenance else 0))
    (255 - entry_type_with_provenance) = entry_type_code (fe_type e)) as -> by (by destruct (fe_type e), p).
  assert ((entry_type_code (fe_type e) <? 1) || (2 <? entry_type_code (fe_type e)) = false) as -> by (by destruct (fe_type e)).
  assert ((if entry_type_code (fe_type e) =? 1 then directory else file) = fe_type e) as -> by (by destruct (fe_type e)).
  eapply carries_eq; [|symmetry; apply entry_eta]. carry; try assumption.
  - rewrite Ep. destruct (provenance_empty (fe_provenance e)) eqn:E; cbn [negb].
    + destruct Hp as (_ & _ & ->); [|done]. apply carries_skip.
    + by apply carries_provenance.
  - apply carries_count. lia.
  - apply carries_times. eapply Forall_impl; [exact Hx|]. apply carries_extent.
Qed.

Lemma carries_option {A} (w : A -> Writer.prog) p x :
  (forall a, x = Some a -> carries (w a) p a) -> carries (write_option w x) (read_option p) x.
Proof.
  intros Hw. unfold write_option, read_option. eapply carries_bind; [apply carries_flag|].
  destruct x as [a|]; [by apply (carries_map _ _ Some), Hw | apply carries_skip].
Qed.

Definition optional_entry_ok (e : option FsEntry) : Prop := match e with Some e => entry_ok e | None => True end.
Lemma carries_optional_entry e : optional_entry_ok e -> carries (write_optional_entry e) read_optional_entry e.
Proof. intros H. apply carries_option. intros a ->. by apply carries_entry. Qed.
Lemma carries_optional_object o : carries (write_optional_object o) read_optional_object o.
Proof. apply carries_option. intros a _. apply carries_fixed. Qed.

(** ** Conflicts, status records, identity resets *)

Definition string_ok (m : Z) (s : Bytes) : Prop := Z.of_nat (length s) <= m /\ Z.of_nat (length s) <= u32_max.

(** Only the alternatives of its kind, and a dot only when it is written. *)
Definition conflict_ok (c : MetadataConflict) : Prop :=
  mc_key c <> [] /\ string_ok 8192 (mc_key c) /\ dot_ok (mc_installed_dot c) /\
  (mc_later_installed c = false -> mc_installed_dot c = no_dot) /\
  match mc_kind c with
  | namespace_entry =>
      optional_entry_ok (mc_base_entry c) /\ optional_entry_ok (mc_left_entry c) /\ optional_entry_ok (mc_right_entry c) /\
      mc_base_catalogue_root c = None /\ mc_left_catalogue_root c = None /\ mc_right_catalogue_root c = None
  | catalogue_root_kind => mc_base_entry c = None /\ mc_left_entry c = None /\ mc_right_entry c = None
  end.

Lemma carries_conflict c : conflict_ok c -> carries (encode_conflict c) decode_conflict c.
Proof.
  intros (Hne & [Hk1 Hk2] & Hd & Hno & Hkind). unfold encode_conflict, decode_conflict.
  destruct c as [kind later dot key lh rh be le re bc lc rc].
  cbn [mc_kind mc_later_installed mc_installed_dot mc_key mc_left_head mc_right_head mc_base_entry mc_left_entry mc_right_entry
    mc_base_catalogue_root mc_left_catalogue_root mc_right_catalogue_root] in *. cbv zeta.
  eapply carries_bind; [apply carries_u8; by destruct kind, later|].
  assert (negb (Z.land (Z.lor (conflict_kind_code kind) (if later then conflict_later_installed else 0))
    conflict_later_installed =? 0) = later) as -> by (by destruct kind, later).
  assert (Z.land (Z.lor (conflict_kind_code kind) (if later then conflict_later_installed else 0))
    (255 - conflict_later_installed) = conflict_kind_code kind) as -> by (by destruct kind, later).
  assert ((conflict_kind_code kind <? 1) || (2 <? conflict_kind_code kind) = false) as -> by (by destruct kind).
  eapply carries_bind; [by apply carries_string|]. rewrite bool_decide_false by done.
  eapply carries_bind; [apply carries_fixed|]. eapply carries_bind; [apply carries_fixed|].
  eapply carries_bind.
  { instantiate (1 := dot). destruct later; [by apply carries_dot|]. rewrite Hno by done. apply carries_skip. }
  destruct kind; cbn [conflict_kind_code Z.eqb Pos.eqb].
  - destruct Hkind as (H1 & H2 & H3 & -> & -> & ->).
    eapply carries_bind; [by apply carries_optional_entry|]. eapply carries_bind; [by apply carries_optional_entry|].
    eapply carries_then; [by apply carries_optional_entry | apply reads_ret].
  - destruct Hkind as (-> & -> & ->).
    eapply carries_bind; [apply carries_optional_object|]. eapply carries_bind; [apply carries_optional_object|].
    eapply carries_then; [apply carries_optional_object | apply reads_ret].
Qed.

Definition status_ok (s : PersistedNodeStatus) : Prop :=
  u64_ok (ns_observed_unix_ms s) /\ string_ok 256 (ns_version s) /\ string_ok 4096 (ns_host s) /\
  string_ok 4096 (ns_failure_domain s) /\ u16_ok (ns_port s) /\ u64_ok (ns_storage_capacity s) /\ u64_ok (ns_storage_used s) /\
  u64_ok (ns_cache_capacity s) /\ u64_ok (ns_cache_used s) /\ u64_ok (ns_metadata_generation s) /\
  u32_ok (ns_storage_backends_online s) /\
  (** The local mirrors are not encoded. *)
  ns_api_endpoint s = [] /\ ns_node_name s = [].

Lemma carries_status s : status_ok s -> carries (encode_node_status s) decode_node_status s.
Proof.
  intros (? & [] & [] & [] & ? & ? & ? & ? & ? & ? & ? & E1 & E2). unfold encode_node_status, decode_node_status.
  apply carries_eq with (x := mkStatus (ns_boot_id s) (ns_observed_unix_ms s) (ns_version s) (ns_host s) (ns_failure_domain s)
    (ns_port s) (ns_storage_capacity s) (ns_storage_used s) (ns_cache_capacity s) (ns_cache_used s) (ns_metadata_generation s)
    (ns_storage_backends_online s) [] []).
  - carry; assumption.
  - rewrite <- E1 at 1. rewrite <- E2. by destruct s.
Qed.

Definition reset_ok (r : IdentityAssociationReset) : Prop :=
  rs_host r <> [] /\ string_ok 4096 (rs_host r) /\ u16_ok (rs_port r) /\ 0 < rs_epoch r < 2 ^ 64 /\
  u64_ok (rs_reset_unix_ms r) /\ string_ok 4096 (rs_reason r).

Lemma carries_reset r : reset_ok r -> carries (encode_identity_reset r) decode_identity_reset r.
Proof.
  intros (Hne & [] & Hp & He & Hm & []). unfold encode_identity_reset, decode_identity_reset.
  destruct r as [host port stale epoch ms by_ reason]. cbn [rs_host rs_port rs_stale_node_id rs_epoch rs_reset_unix_ms rs_reset_by rs_reason] in *.
  carry; try assumption; [lia|]. eapply carries_then; [by apply carries_string|].
  rewrite bool_decide_false by done. destruct (Z.eqb_spec epoch 0); [lia|]. apply reads_ret.
Qed.

Section snapshot.
Context `{Sha256}.

(** A conflict under its id. *)
Definition conflict_at_ok (e : Bytes * MetadataConflict) : Prop :=
  conflict_ok e.2 /\ metadata_conflict_id e.2 = Ok e.1.

Lemma conflict_id_string (e : Bytes * MetadataConflict) :
  conflict_at_ok e -> e.1 <> [] /\ length e.1 = 64%nat.
Proof.
  intros [_ E]. unfold metadata_conflict_id in E. apply result_bind_Ok in E as (bytes & _ & E). injection E as <-.
  unfold to_string. rewrite length_hex, array_length. split; [|done].
  intros E. apply (f_equal length) in E. by rewrite length_hex, array_length in E.
Qed.

Lemma carries_conflict_at m what p (e : Bytes * MetadataConflict) :
  (forall id, length id = 64%nat -> carries (Writer.string id) p id) ->
  conflict_at_ok e -> alookup e.1 m = None -> carries (write_conflict e) (read_conflict p what m) (map_set e.1 e.2 m).
Proof.
  intros Hp Hok En. pose proof (conflict_id_string e Hok) as [Hne Hlen]. destruct Hok as [Hok Hid].
  unfold write_conflict, read_conflict. eapply carries_bind; [by apply Hp|].
  eapply carries_then; [by apply carries_conflict|]. rewrite Hid.
  rewrite bool_decide_false, bool_decide_true by done. by apply reads_into.
Qed.

Definition status_at_ok (e : NodeId * PersistedNodeStatus) : Prop := status_ok e.2.
Lemma carries_status_at m what (e : NodeId * PersistedNodeStatus) :
  status_at_ok e -> alookup e.1 m = None -> carries (write_status e) (read_status what m) (map_set e.1 e.2 m).
Proof.
  intros Hok En. unfold write_status, read_status. eapply carries_bind; [apply carries_fixed|].
  eapply carries_then; [by apply carries_status | by apply reads_into].
Qed.

Definition reset_at_ok (e : Bytes * IdentityAssociationReset) : Prop :=
  reset_ok e.2 /\ e.1 = identity_reset_key (rs_host e.2) (rs_port e.2) /\ string_ok 8192 e.1.
Lemma carries_reset_at m what (e : Bytes * IdentityAssociationReset) :
  reset_at_ok e -> alookup e.1 m = None -> carries (write_reset e) (read_reset what m) (map_set e.1 e.2 m).
Proof.
  intros (Hok & Hk & []) En. unfold write_reset, read_reset. eapply carries_bind; [by apply carries_string|].
  eapply carries_then; [by apply carries_reset|]. rewrite bool_decide_true by done. by apply reads_into.
Qed.

Definition request_at_ok (e : Bytes * TorrentRequest) : Prop := request_ok e.2 /\ e.1 = tr_id e.2 /\ e.1 <> [].
Lemma carries_request_at m none twice (e : Bytes * TorrentRequest) :
  request_at_ok e -> alookup e.1 m = None ->
  carries (if negb (bool_decide (e.1 = tr_id e.2)) then write_throw (RuntimeError "torrent request keyed by another id")
           else encode_torrent_request e.2)
    (read_request none twice m) (map_set e.1 e.2 m).
Proof.
  intros (Hok & Hk & Hne) En. rewrite bool_decide_true by done. cbn [negb]. unfold read_request.
  eapply carries_then; [by apply carries_request|]. rewrite <- Hk, bool_decide_false by done. by apply reads_into.
Qed.

Definition requests_ok (requests : Requests) : Prop :=
  sorted_recs requests /\ Z.of_nat (length requests) <= max_torrent_requests /\ Forall request_at_ok requests.
Lemma carries_requests requests :
  requests_ok requests -> carries (encode_torrent_requests requests) decode_torrent_requests requests.
Proof.
  intros (Hs & Hn & Hok). unfold encode_torrent_requests, decode_torrent_requests.
  destruct (Z.ltb_spec max_torrent_requests (Z.of_nat (length requests))); [lia|].
  eapply carries_bind; [apply carries_count; unfold max_torrent_requests in *; lia|].
  eapply carries_entries; [|exact Hs | exact Hok]. intros m e He En. by apply carries_request_at.
Qed.

Definition garbage_ok (g : GarbageRef) : Prop := 0 <= gr_retired_at_ns g < 2 ^ 63.
Lemma carries_garbage g : garbage_ok g -> carries (write_garbage g) read_garbage g.
Proof.
  unfold garbage_ok. intros Hg. destruct g as [id retired retirement]. cbn [gr_retired_at_ns] in Hg.
  unfold write_garbage, read_garbage. cbn [gr_id gr_retired_at_ns gr_retirement_id].
  eapply carries_bind; [apply carries_fixed|]. eapply carries_bind; [apply carries_i64; lia|].
  destruct (Z.ltb_spec retired 0); [lia|]. carry.
Qed.

(** Batches in order of their ids, none empty. *)
Definition batches_ok (l : list TombstoneBatch) : Prop :=
  StronglySorted (fun a b => key_lt (tb_id a) (tb_id b)) l /\
  Forall (fun b => 0 <= tb_retired_at_ns b < 2 ^ 63 /\ 0 < tb_count b < 2 ^ 32) l.

Lemma carries_batches what l :
  batches_ok l -> carries (Writer.each write_batch l) (read_loop (length l) (read_batch what) []) l.
Proof.
  intros [Hs Hb]. eapply carries_in_order; [|exact Hs | exact Hb].
  intros m [id retired count] [Hr Hc] Hlast. unfold write_batch, read_batch. cbn [tb_id tb_retired_at_ns tb_count] in *.
  eapply carries_bind; [apply carries_fixed|]. eapply carries_bind; [apply carries_i64; lia|].
  eapply carries_then; [apply carries_u32; lia|].
  destruct (Z.eqb_spec count 0); [lia|]. destruct (Z.ltb_spec retired 0); [lia|]. cbn [orb].
  destruct (last m) as [b|]; [|apply reads_ret]. rewrite (Hlast b eq_refl). apply reads_ret.
Qed.

Lemma batch_size b : exists e, writes (write_batch b) e /\ Z.of_nat (length e) = 44.
Proof.
  exists (abytes (tb_id b) ++ be_bytes 8 (wrap64 (tb_retired_at_ns b)) ++ be_bytes 4 (tb_count b)).
  split; [unfold write_batch, Writer.i64; solve_writes|]. by rewrite !length_app, !length_be_bytes, array_length.
Qed.

Lemma carries_batch_section what what' l :
  batches_ok l -> l <> [] -> Z.of_nat (length l) < 2 ^ 32 ->
  carries (write_count l ;;; Writer.each write_batch l)
    (n ← Reader.u32; remaining ← read_remaining;
     if (n =? 0) || (remaining / 44 <? n) then bad what else read_loop (Z.to_nat n) (read_batch what') []) l.
Proof.
  intros Hb Hne Hl. eapply carries_bind; [apply carries_u32; lia|].
  apply (carries_remaining _ _ (44 * Z.of_nat (length l))); [apply each_size, batch_size|]. intros remaining Hr.
  destruct (Z.eqb_spec (Z.of_nat (length l)) 0); [by destruct l|]. cbn [orb].
  destruct (Z.ltb_spec (remaining / 44) (Z.of_nat (length l))) as [Hlt|_].
  { pose proof (Z.div_le_lower_bound remaining 44 (Z.of_nat (length l)) ltac:(lia) Hr). lia. }
  rewrite Nat2Z.id. by apply carries_batches.
Qed.

(** What a head's snapshot satisfies. *)
Record snapshot_ok (s : MetadataSnapshot) : Prop := {
  so_voters : Z.of_nat (length (sn_metadata_voters s)) <= 1024;
  so_replication : u32_ok (sn_data_replication s);
  so_extent_size : u64_ok (sn_extent_size s);
  so_required : 0 < sn_write_replicas_required s < 2 ^ 32;
  so_participants : sorted_keys (sn_participants s) /\ Z.of_nat (length (sn_participants s)) <= 65536 /\
    array_zero 16 ∉ sn_participants s;
  so_sequences : clock_wf (sn_mutation_sequences s);
  so_legacy : match sn_legacy_clock s with
    | Some c => clock_wf c /\ dot_ok (sn_catalogue_dot s)
    | None => sn_catalogue_dot s = no_dot
    end;
  so_root : exists root, sn_namespace_root s = Some root /\ root <> array_zero 32;
  so_entries : sn_entries s = [];
  so_garbage : Z.of_nat (length (sn_garbage s)) <= 10000000 /\ Forall garbage_ok (sn_garbage s);
  so_batches : batches_ok (sn_tombstone_batches s) /\ Z.of_nat (length (sn_tombstone_batches s)) <= 10000000;
  so_status : sorted_recs (sn_node_status s) /\ Z.of_nat (length (sn_node_status s)) <= 65536 /\
    Forall status_at_ok (sn_node_status s);
  so_resets : sorted_recs (sn_identity_resets s) /\ Z.of_nat (length (sn_identity_resets s)) <= 65536 /\
    Forall reset_at_ok (sn_identity_resets s);
  so_parents : Z.of_nat (length (sn_merge_parents s)) <= 64;
  so_conflicts : sorted_recs (sn_conflicts s) /\ Z.of_nat (length (sn_conflicts s)) <= 1000000 /\
    Forall conflict_at_ok (sn_conflicts s);
  so_requests : requests_ok (sn_torrent_requests s)
}.

Lemma carries_participants l :
  sorted_keys l -> array_zero 16 ∉ l ->
  carries (Writer.each Writer.fixed l) (read_loop (length l) read_participant []) l.
Proof.
  intros Hs Hz. rewrite <- (foldl_snoc l [] : _ = l) at 3.
  apply (carries_loop Writer.fixed read_participant (fun m a => m ++ [a]) (fun m l => sorted_keys (m ++ l) /\ array_zero 16 ∉ l));
    [|done].
  intros m a l' [Hs' [Ha Hl']%not_elem_of_cons]. split; [|by rewrite <- app_assoc].
  unfold read_participant. eapply carries_then; [apply carries_fixed|].
  pose proof Hs' as (Hlt & Hm & _)%StronglySorted_app.
  rewrite !bool_decide_false.
  - cbn [orb]. replace (sort_unique (m ++ [a])) with (m ++ [a]); [apply reads_ret|].
    destruct (sort_unique_ok (m ++ [a])) as [Hsu Hin]. symmetry. apply sorted_keys_ext; [done| |done].
    rewrite (app_assoc m [a] l' : m ++ a :: l' = _) in Hs'. by apply StronglySorted_app in Hs' as (_ & Hs' & _).
  - intros Hin. apply (key_lt_irrefl a). apply Hlt; [done | by left].
  - congruence.
Qed.

Lemma snapshot_eta (s : MetadataSnapshot) :
  s = mkSnapshot (sn_metadata_voters s) (sn_data_replication s) (sn_extent_size s) (sn_write_replicas_required s)
    (sn_participants s) (sn_branch_floor s) (sn_retention_baseline_complete s) (sn_mutation_sequences s)
    (sn_legacy_clock s) (sn_catalogue_dot s) (sn_catalogue_root s) (sn_namespace_root s) (sn_entries s) (sn_garbage s)
    (sn_tombstone_batches s) (sn_node_status s) (sn_identity_resets s) (sn_merge_parents s) (sn_conflicts s)
    (sn_torrent_requests s).
Proof. by destruct s. Qed.

(** The trailing sections, as the format says which there are. *)
Lemma carries_requests_section (present : bool) requests :
  requests_ok requests -> (present = false -> requests = []) ->
  carries (if present then encode_torrent_requests requests else Writer.skip)
    (if present then decode_torrent_requests else mret []) requests.
Proof. intros Hr Hn. destruct present; [by apply carries_requests|]. rewrite Hn by done. apply carries_skip. Qed.

Lemma carries_clock_flag (batches clocked legacy : bool) :
  (batches = false -> legacy = clocked) ->
  carries (if batches then Writer.u8 (flag clocked) else Writer.skip)
    (if batches then f ← Reader.u8; if 1 <? f then bad "bad metadata legacy clock flag" else mret (negb (f =? 0))
     else mret legacy) clocked.
Proof.
  intros Hl. destruct batches; [|rewrite Hl by done; apply carries_skip].
  eapply carries_then; [apply carries_u8; by destruct clocked|]. destruct clocked; apply reads_ret.
Qed.

Lemma carries_legacy (s : MetadataSnapshot) :
  snapshot_ok s ->
  carries (match sn_legacy_clock s with Some c => encode_clock c ;;; encode_dot (sn_catalogue_dot s) | None => Writer.skip end)
    (if has_legacy_clock s then c ← decode_clock; d ← decode_dot; mret (Some c, d) else mret (None, no_dot))
    (sn_legacy_clock s, sn_catalogue_dot s).
Proof.
  intros Hok. pose proof (so_legacy s Hok) as Hl. unfold has_legacy_clock. destruct (sn_legacy_clock s) as [c|].
  - destruct Hl as [Hc Hd]. eapply carries_bind; [by apply carries_clock|].
    eapply carries_then; [by apply carries_dot | apply reads_ret].
  - rewrite Hl. apply carries_skip.
Qed.

Lemma carries_batches_section (s : MetadataSnapshot) :
  snapshot_ok s ->
  carries (if names_batches s then
     if 10000000 <? Z.of_nat (length (sn_tombstone_batches s)) then write_throw (RuntimeError "too many tombstone batches")
     else write_count (sn_tombstone_batches s) ;;; Writer.each write_batch (sn_tombstone_batches s)
   else Writer.skip)
   (if names_batches s then
      n ← Reader.u32; remaining ← read_remaining;
      if (n =? 0) || (remaining / 44 <? n) then bad "bad tombstone batch count"
      else read_loop (Z.to_nat n) (read_batch "bad tombstone batch") []
    else mret []) (sn_tombstone_batches s).
Proof.
  intros Hok. destruct (so_batches s Hok) as [Hb Hn]. unfold names_batches.
  destruct (decide (sn_tombstone_batches s = [])) as [->|Hne]; [apply carries_skip|].
  rewrite bool_decide_false by done. cbn [negb].
  destruct (Z.ltb_spec 10000000 (Z.of_nat (length (sn_tombstone_batches s)))); [lia|].
  apply carries_batch_section; [done | done | lia].
Qed.

Lemma carries_body root (s : MetadataSnapshot) (requests legacy : bool) :
  snapshot_ok s -> sn_namespace_root s = Some root -> root <> array_zero 32 ->
  requests || names_batches s = names_batches s || has_legacy_clock s || has_requests s ->
  (names_batches s = false -> legacy = has_legacy_clock s) ->
  carries (write_snapshot_body root s) (decode_snapshot_v14 requests legacy (names_batches s)) s.
Proof.
  intros Hok Hroot Hnz Hreq Hleg. pose proof Hok as [Hv ? ? Hr Hp Hseq _ _ He Hg _ Hst Hrs Hpa Hc Hrq].
  eapply carries_eq; [|symmetry; apply snapshot_eta]. unfold write_snapshot_body, decode_snapshot_v14.
  eapply carries_bind; [apply carries_count; lia|]. eapply carries_bind; [apply carries_fixeds|].
  eapply carries_bind; [by apply carries_u32|]. eapply carries_bind; [by apply carries_u64|].
  eapply carries_bind; [apply carries_count; destruct Hseq; lia|]. eapply carries_bind; [by apply carries_clock_entries|].
  eapply carries_bind; [apply carries_fixed|]. rewrite bool_decide_false by done.
  eapply carries_bind; [apply carries_optional_object|].
  destruct Hg as [Hg1 Hg2]. eapply carries_bind; [apply carries_count; lia|].
  eapply carries_bind; [by apply carries_times; eapply Forall_impl; [exact Hg2|]; apply carries_garbage|].
  destruct Hst as (Hst1 & Hst2 & Hst3). eapply carries_bind; [apply carries_count; lia|].
  eapply carries_bind; [eapply carries_entries; [|exact Hst1|exact Hst3]; intros; by apply carries_status_at|].
  destruct Hrs as (Hrs1 & Hrs2 & Hrs3). eapply carries_bind; [apply carries_count; lia|].
  eapply carries_bind; [eapply carries_entries; [|exact Hrs1|exact Hrs3]; intros; by apply carries_reset_at|].
  eapply carries_bind; [apply carries_count; lia|]. eapply carries_bind; [apply carries_fixeds|].
  destruct Hc as (Hc1 & Hc2 & Hc3). eapply carries_bind; [apply carries_count; lia|].
  eapply carries_bind.
  { eapply carries_entries; [|exact Hc1|exact Hc3]. intros m e He' En. apply carries_conflict_at; [|done|done].
    intros id Hid. apply carries_string; unfold u32_max; rewrite Hid; lia. }
  eapply carries_bind; [apply carries_u32; lia|]. destruct (Z.eqb_spec (sn_write_replicas_required s) 0); [lia|].
  destruct Hp as (Hp1 & Hp2 & Hp3). eapply carries_bind; [apply carries_count; lia|].
  eapply carries_bind; [by apply carries_participants|]. eapply carries_bind; [apply carries_fixed|].
  eapply carries_bind; [apply carries_u8; by destruct (sn_retention_baseline_complete s)|].
  assert ((1 <? flag (sn_retention_baseline_complete s)) = false) as -> by (by destruct (sn_retention_baseline_complete s)).
  rewrite Hreq. eapply carries_bind.
  { apply carries_requests_section; [done|]. intros E. apply orb_false_iff in E as [_ E]. unfold has_requests in E.
    apply negb_false_iff, bool_decide_eq_true in E. done. }
  eapply carries_bind; [by apply carries_clock_flag|]. eapply carries_bind; [by apply carries_legacy|].
  eapply carries_then; [by apply carries_batches_section|].
  rewrite Hroot, He. cbn [fst snd].
  assert (negb (flag (sn_retention_baseline_complete s) =? 0) = sn_retention_baseline_complete s) as ->
    by (by destruct (sn_retention_baseline_complete s)).
  apply reads_ret.
Qed.

(** C23. A head's snapshot decodes to itself: in whichever of its four formats
    it is encoded, decoding the bytes gives back every field, for every
    snapshot that keeps the bounds the code checks. *)
Theorem snapshot_roundtrip (s : MetadataSnapshot) :
  snapshot_ok s -> exists e, encode_snapshot_v14 s = Ok e /\ decode_snapshot e = Ok s.
Proof.
  intros Hok. destruct (so_root s Hok) as (root & Hroot & Hnz). unfold encode_snapshot_v14, decode_snapshot. rewrite Hroot.
  pose proof (so_entries s Hok) as ->. rewrite bool_decide_true by done. cbn [negb].
  destruct (so_required s Hok) as [Hr _], (so_conflicts s Hok) as (_ & Hc & _), (so_participants s Hok) as (_ & Hp & _).
  pose proof (so_parents s Hok) as Hpa.
  destruct (Z.eqb_spec (sn_write_replicas_required s) 0); [lia|].
  destruct (Z.ltb_spec 64 (Z.of_nat (length (sn_merge_parents s)))); [lia|].
  destruct (Z.ltb_spec 1000000 (Z.of_nat (length (sn_conflicts s)))); [lia|].
  destruct (Z.ltb_spec 65536 (Z.of_nat (length (sn_participants s)))); [lia|].
  pose proof (fun r l => carries_body root s r l Hok Hroot Hnz) as Hb.
  assert (carries (Writer.raw (snapshot_magic s) ;;; write_snapshot_body root s)
    (m ← Reader.raw 8; if bool_decide (m = magic_sm14) then decode_snapshot_v14 false false false
         else if bool_decide (m = magic_sm16) then decode_snapshot_v14 true false false
         else if bool_decide (m = magic_sm17) then decode_snapshot_v14 true true false
         else if bool_decide (m = magic_sm19) then decode_snapshot_v14 true false true
         else if bool_decide (m = magic_genesis) then mret genesis_snapshot
         else bad "bad snapshot") s) as Hcarry.
  { eapply carries_bind.
    - replace 8%nat with (length (snapshot_magic s)); [apply carries_raw|].
      unfold snapshot_magic. by destruct (names_batches s), (has_legacy_clock s), (has_requests s).
    - unfold snapshot_magic. destruct (names_batches s) eqn:E1; [|destruct (has_legacy_clock s) eqn:E2; [|destruct (has_requests s) eqn:E3]].
      + by apply Hb.
      + by apply Hb.
      + by apply Hb.
      + by apply Hb. }
  destruct (carries_run _ _ _ Hcarry) as (e & Ew & Er). exists e. split; [exact Ew|]. rewrite <- Er.
  unfold Reader.run, mbind, Reader.prog_bind. by destruct (Reader.raw 8 _) as [[m r]|].
Qed.

End snapshot.

(** ** Tombstone batches, records, acceptances, history *)

Lemma sorted_run (ids : list ObjectId) : sorted_keys ids -> ids_sorted ids = true.
Proof.
  induction 1 as [|a l Hl IH Ha]; [done|]. cbn [ids_sorted]. destruct l as [|b l]; [done|].
  apply Forall_cons in Ha as [Ha _]. by rewrite IH, Ha.
Qed.
Lemma replicas_sorted (l : list NodeId) : sorted_keys l -> replicas_canonical l = true.
Proof.
  induction 1 as [|a l Hl IH Ha]; [done|]. cbn [replicas_canonical]. destruct l as [|b l]; [done|].
  apply Forall_cons in Ha as [Ha _]. by rewrite IH, Ha.
Qed.

Lemma fixed_size {n} (a : array n) : exists e, writes (Writer.fixed a) e /\ Z.of_nat (length e) = Z.of_nat n.
Proof. exists (abytes a). split; [apply writes_fixed | by rewrite array_length]. Qed.

Lemma carries_batch_ids ids :
  sorted_keys ids -> carries (Writer.each Writer.fixed ids) (read_loop (length ids) read_batch_id []) ids.
Proof.
  intros Hs. apply (carries_in_order _ _ key_lt (fun _ => True)); [|done|by apply Forall_true].
  intros m a _ Hlast. unfold read_batch_id. eapply carries_then; [apply carries_fixed|].
  destruct (last m) as [b|]; [|apply reads_ret]. rewrite (Hlast b eq_refl). apply reads_ret.
Qed.

(** A decoder that checks the end of its input before it builds its value. *)
Lemma carries_run_as {A} w (p q : Reader.prog A) x :
  carries w p x -> (forall r, q r = (a ← p; _ ← Reader.finish; mret a) r) ->
  exists e, Writer.run w = Ok e /\ Reader.run q e = Ok x.
Proof.
  intros (e & Hw & Hr)%carries_run Hq. exists e. split; [done|]. unfold Reader.run in *. by rewrite Hq.
Qed.
(** A decoder that checks what it read. *)
Lemma carries_checked {A} w (p q : Reader.prog A) (k : A -> result A) x :
  carries w p x -> (forall r, q r = (a ← p; _ ← Reader.finish; mret a) r) -> k x = Ok x ->
  exists e, Writer.run w = Ok e /\ (a ← Reader.run q e; k a) = Ok x.
Proof. intros Hc Hq Hk. destruct (carries_run_as w p q x Hc Hq) as (e & Ew & Er). exists e. split; [done|]. by rewrite Er. Qed.
Ltac bind_assoc :=
  intros ?r; unfold mbind, Reader.prog_bind;
  repeat lazymatch goal with
    | |- match ?p with Ok _ => _ | Throw _ => _ end = _ =>
        lazymatch p with
        | match _ with _ => _ end => fail
        | _ => destruct p as [[? ?]|]; [|reflexivity]
        end
    | |- (if ?b then _ else _) _ = _ => destruct b; [reflexivity|]
    end; reflexivity.

(** A tombstone batch decodes to the objects it retired, at their time. *)
Theorem tombstone_batch_roundtrip (retired_at_ns : Z) (ids : list ObjectId) :
  0 <= retired_at_ns < 2 ^ 63 -> ids <> [] -> Z.of_nat (length ids) < 2 ^ 32 -> sorted_keys ids ->
  exists e, encode_tombstone_batch retired_at_ns ids = Ok e /\
    decode_tombstone_batch e = Ok (mkBatchContent retired_at_ns ids).
Proof.
  intros Hr Hne Hl Hs. unfold encode_tombstone_batch, decode_tombstone_batch.
  rewrite bool_decide_false, (sorted_run ids Hs) by done. destruct (Z.ltb_spec retired_at_ns 0); [lia|]. cbn [orb negb].
  apply (carries_run_as _
    (m ← Reader.raw 8;
     if negb (bool_decide (m = magic_tombstone_batch)) then bad "not a tombstone batch"
     else retired ← Reader.i64; n ← Reader.u32; remaining ← read_remaining;
       if (retired <? 0) || (n =? 0) || (remaining / 32 <? n) then bad "bad tombstone batch"
       else ids ← read_loop (Z.to_nat n) read_batch_id []; mret (mkBatchContent retired ids))); [|bind_assoc].
  eapply carries_bind; [apply (carries_raw magic_tombstone_batch)|]. rewrite bool_decide_true by done. cbn [negb].
  eapply carries_bind; [apply carries_i64; lia|]. eapply carries_bind; [apply carries_u32; lia|].
  apply (carries_remaining _ _ (32 * Z.of_nat (length ids))); [apply each_size; intros a; exact (fixed_size a)|]. intros remaining Hrem.
  destruct (Z.ltb_spec retired_at_ns 0); [lia|]. destruct (Z.eqb_spec (Z.of_nat (length ids)) 0); [by destruct ids|].
  pose proof (Z.div_le_lower_bound remaining 32 (Z.of_nat (length ids)) ltac:(lia) Hrem).
  destruct (Z.ltb_spec (remaining / 32) (Z.of_nat (length ids))); [lia|]. cbn [orb]. rewrite Nat2Z.id.
  by apply (carries_map _ _ (mkBatchContent retired_at_ns)), carries_batch_ids.
Qed.

Section records.
Context `{Sha256}.

Definition blob_ok (b : Bytes) : Prop := Z.of_nat (length b) <= max_blob.

Definition record_ok (m : MetadataRecord) : Prop :=
  0 < mr_generation m < 2 ^ 64 /\ blob_ok (mr_payload m) /\
  metadata_hash (mr_generation m) (mr_previous m) (mr_payload m) = Ok (mr_hash m).

Lemma record_roundtrip m : record_ok m -> exists e, encode_metadata_record m = Ok e /\ decode_metadata_record e = Ok m.
Proof.
  intros (Hg & Hp & Hh). unfold encode_metadata_record, decode_metadata_record.
  destruct m as [g prev hash payload]. cbn [mr_generation mr_previous mr_hash mr_payload] in *.
  apply (carries_checked _
    (generation ← Reader.u64; previous ← Reader.fixed 32; hash ← Reader.fixed 32; payload ← Reader.bytes max_blob;
     mret (mkRecord generation previous hash payload))); [|bind_assoc|].
  2: { cbn [mbind result_bind]. unfold valid_metadata_record. cbn [mr_generation mr_previous mr_hash mr_payload].
       destruct (Z.eqb_spec g 0); [lia|]. rewrite Hh. cbn. by rewrite bool_decide_true. }
  carry; [lia|]. unfold blob_ok, max_blob in *. apply carries_bytes; [unfold max_blob | unfold u32_max]; lia.
Qed.

Definition acceptance_ok (a : MetadataAcceptance) : Prop :=
  0 < ma_generation a < 2 ^ 64 /\ ma_hash a <> array_zero 32 /\ sorted_keys (ma_replicas a) /\ (array_zero 16 ∉ ma_replicas a) /\
  Z.of_nat (length (ma_replicas a)) <= 1000000 /\ 0 <= ma_required a <= Z.of_nat (length (ma_replicas a)) /\
  (ma_required a = 0 -> ma_replicas a = []).

Lemma acceptance_roundtrip a :
  acceptance_ok a -> exists e, encode_metadata_acceptance a = Ok e /\ decode_metadata_acceptance e = Ok a.
Proof.
  intros (Hg & Hh & Hs & Hz & Hl & Hr & H0). unfold encode_metadata_acceptance, decode_metadata_acceptance.
  destruct a as [g hash required replicas]. cbn [ma_generation ma_hash ma_required ma_replicas] in *.
  rewrite (sort_unique_id replicas Hs). cbv zeta.
  rewrite (bool_decide_false (hash = _)), (bool_decide_false (_ ∈ replicas)) by done.
  destruct (Z.eqb_spec g 0); [lia|]. cbn [orb].
  destruct (Z.ltb_spec (Z.of_nat (length replicas)) required); [lia|]. rewrite andb_false_r.
  assert ((required =? 0) && negb (bool_decide (replicas = [])) = false) as ->.
  { destruct (Z.eqb_spec required 0); [|done]. by rewrite bool_decide_true by auto. }
  destruct (Z.ltb_spec 1000000 (Z.of_nat (length replicas))); [lia|].
  apply (carries_checked _
    (generation ← Reader.u64; hash ← Reader.fixed 32; required ← Reader.u32;
     n ← read_count 1000000 "too many metadata acceptance replicas";
     replicas ← Reader.times n (Reader.fixed 16); mret (mkAcceptance generation hash required replicas))); [|bind_assoc|].
  2: { cbn [ma_generation ma_hash ma_required ma_replicas].
       rewrite (bool_decide_false (hash = _)), (bool_decide_false (_ ∈ replicas)), (replicas_sorted replicas Hs) by done.
       destruct (Z.eqb_spec g 0); [lia|]. cbn [orb negb].
       destruct (Z.ltb_spec (Z.of_nat (length replicas)) required); [lia|].
       destruct (Z.eqb_spec required 0); cbn [negb]; [|done]. by rewrite bool_decide_true by auto. }
  carry; [lia | lia | by apply carries_count | apply carries_fixeds].
Qed.

Definition history_ok (e : MetadataHistoryEntry) : Prop :=
  0 < mh_generation e < 2 ^ 64 /\ mh_hash e <> array_zero 32 /\ blob_ok (mh_payload e) /\
  Z.of_nat (length (mh_merge_parents e)) <= 64 /\
  (mh_previous_known e = true -> 1 < mh_generation e) /\ (mh_body e = body_delta -> mh_previous_known e = true) /\
  Forall (fun p => p <> array_zero 32 /\ p <> mh_hash e) (mh_merge_parents e).

Lemma history_roundtrip h :
  history_ok h -> exists e, encode_metadata_history_entry h = Ok e /\ decode_metadata_history_entry e = Ok h.
Proof.
  intros (Hg & Hh & Hp & Hl & Hk & Hd & Hm). unfold encode_metadata_history_entry, decode_metadata_history_entry.
  destruct h as [g prev hash known parents body payload].
  cbn [mh_generation mh_previous mh_hash mh_previous_known mh_merge_parents mh_body mh_payload] in *.
  destruct (Z.ltb_spec 64 (Z.of_nat (length parents))); [lia|].
  apply (carries_checked _
    (body ← Reader.u8;
     if (body <? 1) || (2 <? body) then bad "bad metadata history body kind"
     else
       generation ← Reader.u64; previous ← Reader.fixed 32; hash ← Reader.fixed 32; known ← read_flag;
       n ← read_count 64 "too many metadata history merge parents";
       parents ← Reader.times n (Reader.fixed 32); payload ← Reader.bytes max_blob;
       mret (mkHistory generation previous hash known parents (if body =? 1 then body_full else body_delta) payload))); [|bind_assoc|].
  2: { cbn [mh_generation mh_previous mh_hash mh_previous_known mh_merge_parents mh_body mh_payload].
       rewrite (bool_decide_false (hash = _)) by done. destruct (Z.eqb_spec g 0); [lia|]. cbn [orb].
       assert ((g <=? 1) && known = false) as ->.
       { destruct known; [|by rewrite andb_false_r]. specialize (Hk eq_refl). destruct (Z.leb_spec g 1); [lia | done]. }
       assert (bool_decide (body = body_delta) && negb known = false) as ->.
       { destruct body; [done|]. by rewrite Hd. }
       destruct (existsb _ parents) eqn:Ex; [|done]. apply existsb_exists in Ex as (p & Hin & Hor).
       rewrite Forall_forall in Hm. destruct (Hm p) as [E1 E2]; [by apply list_elem_of_In|].
       rewrite !bool_decide_false in Hor by done. done. }
  eapply carries_bind; [apply carries_u8; by destruct body|].
  assert ((body_code body <? 1) || (2 <? body_code body) = false) as -> by (by destruct body).
  assert ((if body_code body =? 1 then body_full else body_delta) = body) as -> by (by destruct body).
  carry; [lia | apply carries_flag | by apply carries_count | apply carries_fixeds |].
  unfold blob_ok, max_blob in *. apply carries_bytes; [unfold max_blob | unfold u32_max]; lia.
Qed.

(** A million replicas are far below what a reader takes. *)
Lemma acceptance_size a e :
  acceptance_ok a -> encode_metadata_acceptance a = Ok e -> Z.of_nat (length e) <= 16 * 1000000 + 48.
Proof.
  intros (Hg & Hh & Hs & Hz & Hl & Hr & H0). unfold encode_metadata_acceptance. rewrite (sort_unique_id (ma_replicas a) Hs). cbv zeta.
  repeat (case_match; [done|]). intros E.
  assert (exists er, writes (Writer.each Writer.fixed (ma_replicas a)) er) as [er Her].
  { eexists. apply writes_each, Forall_forall. intros x _. apply writes_fixed. }
  pose proof (each_size Writer.fixed 16 (ma_replicas a) (fun x => fixed_size x) er Her) as Hsize.
  assert (writes (Writer.u64 (ma_generation a) ;;; Writer.fixed (ma_hash a) ;;; Writer.u32 (ma_required a) ;;;
    write_count (ma_replicas a) ;;; Writer.each Writer.fixed (ma_replicas a))
    (be_bytes 8 (ma_generation a) ++ abytes (ma_hash a) ++ be_bytes 4 (ma_required a) ++ be_bytes 4 (Z.of_nat (length (ma_replicas a))) ++ er)) as Hw.
  { unfold write_count. solve_writes. }
  rewrite (writes_run _ _ Hw) in E. injection E as <-. rewrite !length_app, !length_be_bytes, array_length. lia.
Qed.

Lemma acceptance_set_roundtrip values :
  Forall acceptance_ok values -> NoDup (ma_hash <$> values) -> Z.of_nat (length values) <= 1000000 ->
  exists e, encode_metadata_acceptance_set values = Ok e /\ decode_metadata_acceptance_set e = Ok values.
Proof.
  intros Hok Hn Hl. unfold encode_metadata_acceptance_set, decode_metadata_acceptance_set.
  destruct (Z.ltb_spec 1000000 (Z.of_nat (length values))); [lia|].
  apply (carries_run_as _ (n ← read_count 1000000 "too many metadata accepted heads"; read_loop n read_acceptance [])); [|bind_assoc].
  eapply carries_bind; [by apply carries_count|]. apply (carries_fresh ma_hash _ _ acceptance_ok); [|done|done].
  intros m a Ha Hfresh. destruct (acceptance_roundtrip a Ha) as (e & Ee & De). pose proof (acceptance_size a e Ha Ee) as Hsize.
  assert (carries (Writer.bytes e) (read_acceptance m) (m ++ [a])) as (b & Hw & Hr).
  { unfold read_acceptance. eapply carries_then; [apply carries_bytes; [unfold max_blob | unfold u32_max]; lia|].
    rewrite De, bool_decide_false by done. apply reads_ret. }
  exists b. split; [|done]. intros w. unfold write_acceptance. rewrite Ee. apply Hw.
Qed.

(** What a node stores beside a head decodes to itself: the record that
    chains a payload to its predecessor by its hash, the set of acceptances
    that name the replicas each accepted head was written to, and the
    history entry of a head. *)
Theorem metadata_records_roundtrip (m : MetadataRecord) (accepted : list MetadataAcceptance) (h : MetadataHistoryEntry) :
  record_ok m -> Forall acceptance_ok accepted -> NoDup (ma_hash <$> accepted) -> Z.of_nat (length accepted) <= 1000000 -> history_ok h ->
  (exists e, encode_metadata_record m = Ok e /\ decode_metadata_record e = Ok m) /\
  (exists e, encode_metadata_acceptance_set accepted = Ok e /\ decode_metadata_acceptance_set e = Ok accepted) /\
  (exists e, encode_metadata_history_entry h = Ok e /\ decode_metadata_history_entry e = Ok h).
Proof. intros Hm Ha Hn Hl Hh. auto using record_roundtrip, acceptance_set_roundtrip, history_roundtrip. Qed.

End records.

(** ** A head *)

Module HeadSample.
Definition id (b : byte) : array 16 := array_fit 16 [b].
Definition object (b : byte) : array 32 := array_fit 32 [b].
Definition entry (b : byte) : FsEntry :=
  mkEntry file 420 0 0 9 5 7 1 [mkExtent 0 9 (object b) false] (mkProvenance (id b) (mkDot (id b) 3) no_dot).
Definition conflict : MetadataConflict :=
  mkConflict namespace_entry true (mkDot (id x07) 4) [x2f; x61] (object x01) (object x02) None (Some (entry x03))
    (Some (entry x04)) None None None.
Definition conflict_id : Bytes :=
  Eval vm_compute in match @metadata_conflict_id Sample.sha conflict with Ok i => i | Throw _ => [] end.
Definition reset : IdentityAssociationReset := mkReset [x68] 80 (id x01) 1 9 (id x02) [].
Definition status : PersistedNodeStatus := mkStatus (id x05) 9 [x31] [x68] [] 80 100 50 10 5 3 1 [] [].
Definition request : TorrentRequest :=
  mkRequest [x61] [x68] [] 2 (array_zero 16) None (Some 5) 0 (array_zero 16) desired_active 0 (array_zero 16)
    None awaiting_node 0 0 [] 0 [] [] [] 0 0.
Definition head : MetadataSnapshot :=
  mkSnapshot [id x01] 2 4096 1 [id x01; id x02] (object x09) true [(id x01, 3)] (Some [(id x02, 4)]) (mkDot (id x01) 2)
    (Some (object x08)) (Some (object x07)) [] [mkGarbage (object x05) 6 (id x01)] [mkBatch (object x06) 6 12]
    [(id x01, status)] [(identity_reset_key [x68] 80, reset)] [object x01; object x02] [(conflict_id, conflict)]
    [([x61], request)].

(** The bounds of a concrete value. *)
Ltac bounds :=
  repeat match goal with
    | |- _ <= _ => vm_compute; congruence
    | |- _ < _ => vm_compute; reflexivity
    | |- _ /\ _ => split
    | |- Forall _ _ => constructor
    | |- sorted_keys _ => cbn; unfold sorted_keys
    | |- StronglySorted _ _ => constructor
    | |- key_lt _ _ => vm_compute; reflexivity
    | |- _ ∉ _ => cbn [head sn_participants ma_replicas]; rewrite ?not_elem_of_cons; split_and?; [..|apply not_elem_of_nil]
    | |- _ = _ => vm_compute; reflexivity
    | |- _ <> _ => let E := fresh in intros E; vm_compute in E; discriminate E
    end.

Lemma entry_keeps b : entry_ok (entry b).
Proof.
  unfold entry_ok, provenance_ok, extent_ok, dot_ok, u32_ok, u64_ok, i64_ok. bounds.
  unfold provenance_empty. destruct (bool_decide _); discriminate.
Qed.

Lemma head_ok : @snapshot_ok Sample.sha head.
Proof.
  split; unfold clock_wf, dot_ok, batches_ok, requests_ok, sorted_recs, u32_ok, u64_ok; cbn [sn_legacy_clock head]; bounds.
  - exists (object x07). bounds.
  - unfold garbage_ok. bounds.
  - unfold status_at_ok, status_ok, string_ok, u64_ok, u16_ok, u32_ok. bounds.
  - unfold reset_at_ok, reset_ok, string_ok, u64_ok, u16_ok. bounds.
  - unfold conflict_at_ok, conflict_ok, string_ok, dot_ok, u64_ok. cbn [conflict mc_kind snd optional_entry_ok]. bounds.
    all: try apply entry_keeps; try (by apply I); intros E; vm_compute in E; discriminate E.
  - unfold request_at_ok, request_ok, text_ok, TorrentRequest.u64_ok. bounds; try (intros ? E; injection E as <-; bounds).
    intros ? E. discriminate E.
Qed.
End HeadSample.

Lemma snapshot_roundtrip_witness :
  exists e, encode_snapshot_v14 HeadSample.head = Ok e /\ @decode_snapshot Sample.sha e = Ok HeadSample.head.
Proof. apply snapshot_roundtrip. exact HeadSample.head_ok. Defined.

Lemma tombstone_batch_roundtrip_witness :
  let ids := [HeadSample.object x01; HeadSample.object x02] in
  exists e, encode_tombstone_batch 7 ids = Ok e /\ decode_tombstone_batch e = Ok (mkBatchContent 7 ids).
Proof. intros ids. apply tombstone_batch_roundtrip; [lia | discriminate | vm_compute; reflexivity | repeat constructor]. Defined.

Lemma metadata_records_roundtrip_witness :
  let prev := HeadSample.object x01 in
  let hash := match @metadata_hash Sample.sha 2 prev [x61] with Ok h => h | Throw _ => prev end in
  let m := mkRecord 2 prev hash [x61] in
  let accepted := [mkAcceptance 2 hash 1 [HeadSample.id x01; HeadSample.id x02]; mkAcceptance 1 prev 0 []] in
  let h := mkHistory 2 prev hash true [HeadSample.object x03] body_delta [x62] in
  (exists e, encode_metadata_record m = Ok e /\ @decode_metadata_record Sample.sha e = Ok m) /\
  (exists e, encode_metadata_acceptance_set accepted = Ok e /\ decode_metadata_acceptance_set e = Ok accepted) /\
  (exists e, encode_metadata_history_entry h = Ok e /\ decode_metadata_history_entry e = Ok h).
Proof.
  intros prev hash m accepted h. apply (@metadata_records_roundtrip Sample.sha).
  - unfold record_ok, blob_ok. HeadSample.bounds.
  - subst accepted. unfold acceptance_ok. HeadSample.bounds; cbn; intros E; discriminate E || done.
  - apply (bool_decide_unpack _). vm_compute. exact I.
  - vm_compute. congruence.
  - unfold history_ok, blob_ok. subst h. HeadSample.bounds; intros; HeadSample.bounds.
Defined.
