(* ===== verification/MetadataDelta.v ===== *)
(** * Mutations of a head

    The delta from one snapshot to the next and its application
    ([metadata_delta], [apply_metadata_delta] of
    [src/src/metadata/metadata.cpp]). A delta is what travels between nodes
    and into the journal; applied to the snapshot it was taken from it gives
    the snapshot it was taken to. *)

From S2P Require Import Prelude Sorts Maps Orders Codec TorrentRequest Journal Paths Metadata.

(** ** The delta *)

Inductive CatalogueDelta : Type := unchanged | clear | set.
#[global] Instance catalogue_delta_eq_dec : EqDecision CatalogueDelta.
Proof. solve_decision. Defined.

Record PendingTombstones : Type := mkPending { pt_at_commit : bool; pt_retired_at_ns : Z; pt_ids : list ObjectId }.

Record MetadataDelta : Type := mkDelta {
  md_mutation_sequences : VersionClock;
  md_upsert_entries : NamespaceEntries;
  md_erase_entries : list Bytes;
  md_erase_garbage : list ObjectId;
  md_upsert_garbage : list GarbageRef;
  md_upsert_node_status : list (NodeId * PersistedNodeStatus);
  md_upsert_identity_resets : list (Bytes * IdentityAssociationReset);
  md_upsert_torrent_requests : Requests;
  md_erase_torrent_requests : list Bytes;
  md_replace_merge_parents : option (list Hash256);
  md_replace_conflicts : option Conflicts;
  md_canonical_garbage : bool;
  md_append_entries : list (Bytes * EntryAppend);
  md_catalogue : CatalogueDelta;
  md_catalogue_root : option ObjectId;
  md_set_legacy_clock : option VersionClock;
  md_set_catalogue_dot : option MetadataDot;
  md_add_tombstone_batches : list TombstoneBatch;
  md_drop_tombstone_batches : list ObjectId;
  md_pending_tombstones : list PendingTombstones
}.

(** The groups of a delta's pending tombstones after [retire_objects]: the
    ids join the first group that is retired at its commit. *)
Fixpoint join_pending (ids : list ObjectId) (pending : list PendingTombstones) : list PendingTombstones :=
  match pending with
  | [] => [mkPending true 0 ids]
  | p :: rest =>
      if pt_at_commit p then mkPending true (pt_retired_at_ns p) (pt_ids p ++ ids) :: rest else p :: join_pending ids rest
  end.
Definition retire_objects (pending : list PendingTombstones) (ids : list ObjectId) : list PendingTombstones :=
  if bool_decide (ids = []) then pending else join_pending ids pending.

(** ** What changed *)

Section changes.
Context {K V : Type} `{KeyOrder K, !EqDecision K, !EqDecision V}.

(** The records of [after] that [before] has not, or has otherwise. *)
Definition changed_records (before after : list (K * V)) : list (K * V) :=
  base.filter (fun e => alookup e.1 before <> Some e.2) after.
(** The keys of [before] that are gone. *)
Definition missing_keys (before after : list (K * V)) : list K :=
  (base.filter (fun e => alookup e.1 after = None) before).*1.
(** An unchanged record is sent when nothing changed. *)
Definition with_witness (after changed : list (K * V)) : list (K * V) :=
  match changed, after with
  | [], e :: _ => [e]
  | _, _ => changed
  end.
End changes.

(** The clock moved back or forgot an author. *)
Definition sequence_regressed (before after : VersionClock) : bool :=
  existsb (fun e => match alookup e.1 after with Some s => s <? e.2 | None => true end) before.

(** [std::set_difference] of ranges sorted by [ltb]. *)
Fixpoint set_difference {A} (ltb : A -> A -> bool) (l : list A) : list A -> list A :=
  fix inner (r : list A) : list A :=
    match l, r with
    | [], _ => []
    | x :: l', [] => l
    | x :: l', y :: r' =>
        if ltb x y then x :: set_difference ltb l' r
        else if ltb y x then inner r'
        else set_difference ltb l' r'
    end.
Definition batch_ltb : TombstoneBatch -> TombstoneBatch -> bool := by_key tb_id.

Fixpoint adjacent_same_id (l : list GarbageRef) : bool :=
  match l with
  | a :: ((b :: _) as l') => bool_decide (gr_id a = gr_id b) || adjacent_same_id l'
  | _ => false
  end.

(** [std::lower_bound] in a range sorted by id. *)
Definition contains_id (sorted : list GarbageRef) (id : ObjectId) : bool :=
  match find (fun g => negb (key_ltb (gr_id g) id)) sorted with
  | Some g => bool_decide (gr_id g = id)
  | None => false
  end.

(** Walks [target], the rest of the tombstones of the snapshot reached, along
    [ids]. *)
Fixpoint follow (ids : list ObjectId) (target : list GarbageRef) : option (list GarbageRef) :=
  match ids, target with
  | [], _ => Some target
  | id :: ids', g :: target' => if bool_decide (gr_id g = id) then follow ids' target' else None
  | _ :: _, [] => None
  end.

(** Whether the order of [after] is the retained tombstones in the order of
    [before], then the new ones by id. *)
Definition order_reachable (before after before_sorted after_sorted : list GarbageRef) : bool :=
  match follow (base.filter (fun id => contains_id after_sorted id = true) (gr_id <$> before)) after with
  | None => false
  | Some rest =>
      match follow (base.filter (fun id => contains_id before_sorted id = false) (gr_id <$> after_sorted)) rest with
      | Some [] => true
      | _ => false
      end
  end.

(** The ids to erase and the tombstones to write, from the ranges sorted by
    id. *)
Fixpoint garbage_edits (before : list GarbageRef) : list GarbageRef -> list ObjectId * list GarbageRef :=
  fix inner (after : list GarbageRef) : list ObjectId * list GarbageRef :=
    match before, after with
    | [], [] => ([], [])
    | b :: before', [] => let '(erased, upserted) := garbage_edits before' [] in (gr_id b :: erased, upserted)
    | [], a :: after' => let '(erased, upserted) := inner after' in (erased, a :: upserted)
    | b :: before', a :: after' =>
        if key_ltb (gr_id b) (gr_id a) then
          let '(erased, upserted) := garbage_edits before' after in (gr_id b :: erased, upserted)
        else if key_ltb (gr_id a) (gr_id b) then
          let '(erased, upserted) := inner after' in (erased, a :: upserted)
        else
          let '(erased, upserted) := garbage_edits before' after' in
          (erased, if bool_decide (b = a) then upserted else a :: upserted)
    end.

(** The part of a delta that edits tombstones, if a delta can. *)
Definition garbage_delta (before after : list GarbageRef) : option (bool * (list ObjectId * list GarbageRef)) :=
  let before_sorted := canonicalise_garbage before in
  let after_sorted := canonicalise_garbage after in
  if adjacent_same_id before_sorted || adjacent_same_id after_sorted then None
  else
    let changed := negb (bool_decide (before = after)) in
    if changed && garbage_is_canonical after then Some (true, garbage_edits before_sorted after_sorted)
    else if changed && negb (order_reachable before after before_sorted after_sorted) then None
    else Some (false, garbage_edits before_sorted after_sorted).

Section delta.
Context `{Sha256}.

(** [record_entry_change] on the two maps of a delta it writes. *)
Definition record_entry_change (path : Bytes) (before : option FsEntry) (after : FsEntry)
    (delta : NamespaceEntries * list (Bytes * EntryAppend)) : NamespaceEntries * list (Bytes * EntryAppend) :=
  let '(upserts, appends) := delta in
  match entry_change path before after with
  | ChangeAppend a => (map_erase path upserts, map_set path a appends)
  | ChangeUpsert e => (map_set path e upserts, map_erase path appends)
  end.

Definition entries_delta (before after : NamespaceEntries) : NamespaceEntries * list (Bytes * EntryAppend) :=
  foldl (fun delta e =>
      match alookup e.1 before with
      | None => (default delta.1 (map_emplace e.1 e.2 delta.1), delta.2)
      | Some b => if bool_decide (b = e.2) then delta else record_entry_change e.1 (Some b) e.2 delta
      end) ([], []) after.

Definition metadata_delta (before after : MetadataSnapshot) : option MetadataDelta :=
  if negb (bool_decide (sn_metadata_voters before = sn_metadata_voters after)) ||
     negb (sn_data_replication before =? sn_data_replication after) ||
     negb (sn_extent_size before =? sn_extent_size after) ||
     negb (sn_write_replicas_required before =? sn_write_replicas_required after) ||
     negb (bool_decide (sn_participants before = sn_participants after)) ||
     negb (bool_decide (sn_branch_floor before = sn_branch_floor after)) ||
     negb (Bool.eqb (sn_retention_baseline_complete before) (sn_retention_baseline_complete after))
  then None
  else if sequence_regressed (sn_mutation_sequences before) (sn_mutation_sequences after) then None
  else if negb (bool_decide (sn_legacy_clock before = sn_legacy_clock after)) &&
     (match sn_legacy_clock before with Some _ => true | None => false end ||
      match sn_legacy_clock after with Some _ => false | None => true end)
  then None
  else
    match garbage_delta (sn_garbage before) (sn_garbage after) with
    | None => None
    | Some (canonical, (erase_garbage, upsert_garbage)) =>
        if negb (bool_decide (missing_keys (sn_identity_resets before) (sn_identity_resets after) = [])) then None
        else
          let '(upserts, appends) := entries_delta (sn_entries before) (sn_entries after) in
          let root_changed := negb (bool_decide (sn_catalogue_root before = sn_catalogue_root after)) in
          Some (mkDelta
            (changed_records (sn_mutation_sequences before) (sn_mutation_sequences after))
            upserts
            (missing_keys (sn_entries before) (sn_entries after))
            erase_garbage upsert_garbage
            (with_witness (sn_node_status after) (changed_records (sn_node_status before) (sn_node_status after)))
            (with_witness (sn_identity_resets after) (changed_records (sn_identity_resets before) (sn_identity_resets after)))
            (changed_records (sn_torrent_requests before) (sn_torrent_requests after))
            (missing_keys (sn_torrent_requests before) (sn_torrent_requests after))
            (if bool_decide (sn_merge_parents before = sn_merge_parents after) then None else Some (sn_merge_parents after))
            (if bool_decide (sn_conflicts before = sn_conflicts after) then None else Some (sn_conflicts after))
            canonical appends
            (if root_changed then match sn_catalogue_root after with Some _ => set | None => clear end else unchanged)
            (if root_changed then sn_catalogue_root after else None)
            (if bool_decide (sn_legacy_clock before = sn_legacy_clock after) then None else sn_legacy_clock after)
            (if bool_decide (sn_catalogue_dot before = sn_catalogue_dot after) then None else Some (sn_catalogue_dot after))
            (set_difference batch_ltb (sn_tombstone_batches after) (sn_tombstone_batches before))
            (tb_id <$> set_difference batch_ltb (sn_tombstone_batches before) (sn_tombstone_batches after))
            [])
    end.

(** ** Application *)

Definition apply_sequences (delta clock : VersionClock) : result VersionClock :=
  foldM (fun clock e =>
      if match alookup e.1 clock with Some s => e.2 <? s | None => false end
      then Throw (DecodeError "metadata delta sequence regressed")
      else Ok (map_set e.1 e.2 clock)) clock delta.

(** Erasing the root is refused whatever form the namespace has. *)
Definition apply_erases (mapped : bool) (paths : list Bytes) (entries : NamespaceEntries) : result NamespaceEntries :=
  foldM (fun entries path =>
      let normalized := normalize_path path in
      if bool_decide (normalized = root_path) then Throw (DecodeError "metadata delta removed root")
      else Ok (if mapped then map_erase normalized entries else entries)) entries paths.

Definition apply_upserts (upserts entries : NamespaceEntries) : NamespaceEntries :=
  foldl (fun entries e => map_set (normalize_path e.1) e.2 entries) entries upserts.

Definition apply_appends (appends : list (Bytes * EntryAppend)) (entries : NamespaceEntries) : result NamespaceEntries :=
  foldM (fun entries e =>
      let normalized := normalize_path e.1 in
      match alookup normalized entries with
      | None => Throw (DecodeError "metadata delta append base mismatch")
      | Some found => entry ← apply_entry_append found normalized e.2; mret (map_set normalized entry entries)
      end) entries appends.

(** The first tombstone of each id, by its place. *)
Definition first_index (garbage : list GarbageRef) : list (ObjectId * nat) :=
  foldl (fun index e => default index (map_emplace (gr_id e.2) e.1 index)) [] (imap pair garbage).
Definition upsert_step (acc : list GarbageRef * list (ObjectId * nat)) (g : GarbageRef) : list GarbageRef * list (ObjectId * nat) :=
  let '(garbage, index) := acc in
  match alookup (gr_id g) index with
  | None => (garbage ++ [g], map_set (gr_id g) (length garbage) index)
  | Some i => (<[i := g]> garbage, index)
  end.
Definition apply_garbage (canonical : bool) (erased : list ObjectId) (upserts garbage : list GarbageRef) : list GarbageRef :=
  let kept := base.filter (fun g => gr_id g ∉ erased) garbage in
  let written := (foldl upsert_step (kept, first_index kept) upserts).1 in
  if canonical then canonicalise_garbage written else written.

(** Named at its place in the order of ids. *)
Fixpoint name_batch (batch : TombstoneBatch) (held : list TombstoneBatch) : result (list TombstoneBatch) :=
  match held with
  | [] => Ok [batch]
  | h :: rest =>
      if key_ltb (tb_id h) (tb_id batch) then rest' ← name_batch batch rest; mret (h :: rest')
      else if bool_decide (tb_id h = tb_id batch) then
        if bool_decide (h = batch) then Ok held
        else Throw (DecodeError "tombstone batch named twice with different contents")
      else Ok (batch :: held)
  end.
Definition apply_batches (add : list TombstoneBatch) (drop : list ObjectId) (held : list TombstoneBatch) : result (list TombstoneBatch) :=
  foldM (fun held batch => name_batch batch held) (base.filter (fun b => tb_id b ∉ drop) held) add.

Definition apply_resets (delta resets : list (Bytes * IdentityAssociationReset)) : list (Bytes * IdentityAssociationReset) :=
  foldl (fun resets e =>
      match alookup e.1 resets with
      | Some found => if rs_epoch found <? rs_epoch e.2 then map_set e.1 e.2 resets else resets
      | None => map_set e.1 e.2 resets
      end) resets delta.

Definition apply_map {K V} `{KeyOrder K, !EqDecision K} (delta m : list (K * V)) : list (K * V) :=
  foldl (fun m e => map_set e.1 e.2 m) m delta.

(** [applier] edits a namespace held as a tree. On an exception the snapshot
    is not used again. *)
Definition apply_metadata_delta (applier : option (ObjectId -> MetadataDelta -> result ObjectId))
    (s : MetadataSnapshot) (d : MetadataDelta) : result MetadataSnapshot :=
  root ← match sn_namespace_root s, applier with
         | None, _ => Ok None
         | Some _, None => Throw (DecodeError "cannot apply a metadata delta to a tree-backed namespace without a namespace node store")
         | Some root, Some f => root' ← f root d; mret (Some root')
         end;
  let mapped := match root with None => true | Some _ => false end in
  legacy ← match md_set_legacy_clock d, sn_legacy_clock s with
           | None, held => Ok held
           | Some _, Some _ => Throw (DecodeError "metadata delta sets a legacy clock already set")
           | Some c, None => Ok (Some c)
           end;
  sequences ← apply_sequences (md_mutation_sequences d) (sn_mutation_sequences s);
  entries ← apply_erases mapped (md_erase_entries d) (sn_entries s);
  entries ← (if mapped then apply_appends (md_append_entries d) (apply_upserts (md_upsert_entries d) entries) else Ok entries);
  catalogue ← match md_catalogue d, md_catalogue_root d with
              | unchanged, _ => Ok (sn_catalogue_root s)
              | clear, _ => Ok None
              | set, None => Throw (DecodeError "metadata delta missing catalogue root")
              | set, Some r => Ok (Some r)
              end;
  batches ← apply_batches (md_add_tombstone_batches d) (md_drop_tombstone_batches d) (sn_tombstone_batches s);
  let out := mkSnapshot (sn_metadata_voters s) (sn_data_replication s) (sn_extent_size s) (sn_write_replicas_required s)
    (sn_participants s) (sn_branch_floor s) (sn_retention_baseline_complete s)
    sequences legacy (default (sn_catalogue_dot s) (md_set_catalogue_dot d)) catalogue root entries
    (apply_garbage (md_canonical_garbage d) (md_erase_garbage d) (md_upsert_garbage d) (sn_garbage s))
    batches
    (apply_map (md_upsert_node_status d) (sn_node_status s))
    (apply_resets (md_upsert_identity_resets d) (sn_identity_resets s))
    (default (sn_merge_parents s) (md_replace_merge_parents d))
    (default (sn_conflicts s) (md_replace_conflicts d))
    (foldl (fun m id => map_erase id m) (apply_map (md_upsert_torrent_requests d) (sn_torrent_requests s))
      (md_erase_torrent_requests d)) in
  if mapped && negb match alookup root_path entries with Some e => bool_decide (fe_type e = directory) | None => false end
  then Throw (DecodeError "metadata delta lost root")
  else Ok out.
End delta.
