(* ===== verification/MetadataDeltaProofs.v ===== *)
(** * A delta takes its snapshot to the next

    The lemmas on each part of a delta, then [delta_applies]: what
    [metadata_delta] writes from one snapshot to the next,
    [apply_metadata_delta] turns back into the next. *)

From S2P Require Import Prelude Sorts Maps Orders Codec TorrentRequest Journal Paths Metadata MetadataDelta.

(** ** Records *)

Section records.
Context {K V : Type} `{KeyOrder K, !EqDecision K, !EqDecision V}.
Implicit Types (d before after : list (K * V)).

(** Applied to [before], the records of [d] give [after]. *)
Definition leads (d before after : list (K * V)) : Prop :=
  forall k, match alookup k d with Some v => alookup k after = Some v | None => alookup k before = alookup k after end.

Lemma changed_sorted before after : sorted_recs after -> sorted_recs (changed_records before after).
Proof. apply sorted_recs_filter. Qed.

Lemma changed_lookup before after k :
  sorted_recs after -> alookup k (changed_records before after) =
    match alookup k after with
    | Some v => if decide (alookup k before = Some v) then None else Some v
    | None => None
    end.
Proof.
  unfold changed_records. induction after as [|[k' v'] after IH]; intros Hs; [done|].
  pose proof Hs as [Hf Hs']%sorted_recs_cons. rewrite filter_cons, (alookup_cons k k'). cbn [fst snd].
  destruct (decide (alookup k' before <> Some v')) as [Hc|Hc].
  - rewrite alookup_cons, IH by done. destruct (decide (k = k')) as [->|]; [by rewrite decide_False|done].
  - rewrite IH by done. destruct (decide (k = k')) as [->|]; [|done]. apply dec_stable in Hc.
    by rewrite decide_True, alookup_below.
Qed.

Lemma changed_elem before after e :
  e ∈ changed_records before after <-> alookup e.1 before <> Some e.2 /\ e ∈ after.
Proof. unfold changed_records. by rewrite list_elem_of_filter. Qed.

Lemma missing_elem before after k :
  k ∈ missing_keys before after <-> k ∈ before.*1 /\ alookup k after = None.
Proof.
  unfold missing_keys. rewrite !list_elem_of_fmap. split.
  - intros (e & -> & [He Hin]%list_elem_of_filter). eauto.
  - intros [(e & -> & Hin) He]. exists e. split; [done|]. by apply list_elem_of_filter.
Qed.

Lemma changed_leads before after :
  sorted_recs after -> (forall k, alookup k after = None -> alookup k before = None) ->
  leads (changed_records before after) before after.
Proof.
  intros Hs Hk k. rewrite changed_lookup by done. specialize (Hk k).
  destruct (alookup k after) as [v|] eqn:E; [|auto]. by destruct (decide _).
Qed.

Lemma witness_leads d before after : sorted_recs after -> leads d before after -> leads (with_witness after d) before after.
Proof.
  intros Hs Hd. unfold with_witness. destruct d as [|]; [|done]. destruct after as [|[k v] after]; [done|].
  intros k'. rewrite alookup_cons. destruct (decide (k' = k)) as [->|]; [by rewrite alookup_cons, decide_True|].
  apply (Hd k').
Qed.
Lemma witness_sorted d after : sorted_recs d -> sorted_recs (with_witness after d).
Proof. unfold with_witness. destruct d, after as [|[]]; try done. intros _. repeat constructor. Qed.

Lemma apply_leads d before after :
  sorted_recs d -> sorted_recs before -> sorted_recs after -> leads d before after -> apply_map d before = after.
Proof.
  intros Hd Hb Ha Hl. apply sorted_recs_ext; [by apply sets_sorted | done |]. intros k. unfold apply_map.
  rewrite sets_lookup by done. specialize (Hl k). by destruct (alookup k d).
Qed.
End records.

(** ** The clock and the namespace *)

Lemma apply_sequences_ok d clock :
  sorted_recs d -> (forall k s s', alookup k d = Some s -> alookup k clock = Some s' -> s' <= s) ->
  apply_sequences d clock = Ok (apply_map d clock).
Proof.
  unfold apply_sequences, apply_map. revert clock. induction d as [|[k s] d IH]; intros clock Hd Hle; [done|].
  apply sorted_recs_cons in Hd as [Hf Hd]. cbn [foldM foldl fst snd].
  assert (match alookup k clock with Some s0 => s <? s0 | None => false end = false) as ->.
  { destruct (alookup k clock) as [s'|] eqn:E; [|done]. specialize (Hle k s s'). rewrite alookup_cons, decide_True in Hle by done.
    specialize (Hle eq_refl E). destruct (Z.ltb_spec s s'); [lia | done]. }
  cbn [mbind result_bind]. apply IH; [done|]. intros k1 s1 s1' E1. rewrite map_set_lookup.
  destruct (decide (k1 = k)) as [->|Hne]; [by rewrite alookup_below in E1|]. apply Hle. by rewrite alookup_cons, decide_False.
Qed.

Lemma apply_erases_ok paths entries :
  Forall (fun p => normal p /\ p <> root_path) paths ->
  apply_erases true paths entries = Ok (foldl (fun m p => map_erase p m) entries paths).
Proof.
  unfold apply_erases. revert entries. induction paths as [|p paths IH]; intros entries Hp; [done|].
  apply Forall_cons in Hp as [[Hn Hr] Hp]. cbn [foldM foldl]. apply normalize_fixed in Hn. rewrite Hn.
  rewrite bool_decide_false by done. cbn [mbind result_bind]. by apply IH.
Qed.

Lemma apply_upserts_ok upserts entries :
  Forall normal upserts.*1 -> apply_upserts upserts entries = apply_map upserts entries.
Proof.
  unfold apply_upserts, apply_map. revert entries. induction upserts as [|[p e] upserts IH]; intros entries Hp; [done|].
  apply Forall_cons in Hp as [Hn Hp]. cbn [foldl fst snd] in *. apply normalize_fixed in Hn. rewrite Hn. by apply IH.
Qed.

Section entries.
Context `{Sha256}.

Lemma apply_appends_ok appends entries (after : NamespaceEntries) :
  sorted_recs appends -> sorted_recs entries -> Forall normal appends.*1 ->
  (forall k a, alookup k appends = Some a -> exists found e,
     alookup k entries = Some found /\ apply_entry_append found k a = Ok e /\ alookup k after = Some e) ->
  exists m, apply_appends appends entries = Ok m /\ sorted_recs m /\
    forall k, alookup k m = match alookup k appends with Some _ => alookup k after | None => alookup k entries end.
Proof.
  unfold apply_appends. revert entries.
  induction appends as [|[p a] appends IH]; intros entries Hs He Hp Hok; [by exists entries|].
  apply sorted_recs_cons in Hs as [Hf Hs]. apply Forall_cons in Hp as [Hn Hp]. cbn [foldM fst snd] in *.
  apply normalize_fixed in Hn. rewrite Hn.
  destruct (Hok p a) as (found & e & Efound & Eapply & Eafter); [by rewrite alookup_cons, decide_True|].
  rewrite Efound, Eapply. cbn [mbind result_bind mret result_ret].
  destruct (IH (map_set p e entries)) as (m & Em & Hm & Hl); [done | by apply map_set_sorted | done | |].
  - intros k a' Ea. assert (k <> p) as Hne by (intros ->; by rewrite alookup_below in Ea).
    rewrite map_set_lookup, decide_False by done. apply Hok. by rewrite alookup_cons, decide_False.
  - exists m. split; [done|]. split; [done|]. intros k. rewrite Hl, alookup_cons, map_set_lookup.
    destruct (decide (k = p)) as [->|]; [|done]. by rewrite alookup_below.
Qed.

(** An append recorded for a change makes the change. *)
Lemma append_applies path before after a :
  Z.of_nat (length (fe_extents before)) < 2 ^ 32 ->
  entry_change path (Some before) after = ChangeAppend a -> apply_entry_append before path a = Ok after.
Proof.
  intros Hlen. unfold entry_change, apply_entry_append. destruct (extents_appended before after) eqn:E; [|done].
  cbn [andb]. destruct (bool_decide_reflect (append_provenance path (pv_content (fe_provenance after)) (fe_provenance before) = fe_provenance after))
    as [Hp|]; [|done]. intros [= <-]. unfold extents_appended in E. rewrite !andb_true_iff, !bool_decide_eq_true in E.
  destruct E as ((((((E1 & E2) & E3) & E4) & E5) & E6) & E7). apply Z.eqb_eq in E3, E4, E5.
  cbn [ea_size ea_mtime_ns ea_ctime_ns ea_version ea_base_extents ea_extents ea_content].
  rewrite bool_decide_true by done. unfold wrap32. rewrite Z.mod_small, Z.eqb_refl by lia. cbn [negb orb].
  rewrite Hp, E1, E3, E4, E5, <- E2.
  replace (fe_extents before ++ _) with (fe_extents after); [by destruct after|].
  by rewrite E7 at 1; rewrite take_drop.
Qed.

(** What [entries_delta] writes for one path. *)
Definition change_of (before : NamespaceEntries) (k : Bytes) (e : FsEntry) : option EntryChange :=
  match alookup k before with
  | None => Some (ChangeUpsert e)
  | Some b => if bool_decide (b = e) then None else Some (entry_change k (Some b) e)
  end.
Definition upsert_of (c : option EntryChange) : option FsEntry := match c with Some (ChangeUpsert e) => Some e | _ => None end.
Definition append_of (c : option EntryChange) : option EntryAppend := match c with Some (ChangeAppend a) => Some a | _ => None end.

Lemma entries_delta_ok before after :
  sorted_recs after ->
  let d := entries_delta before after in
  sorted_recs d.1 /\ sorted_recs d.2 /\
  (forall k, alookup k d.1 = upsert_of (alookup k after ≫= change_of before k)) /\
  (forall k, alookup k d.2 = append_of (alookup k after ≫= change_of before k)).
Proof.
  intros Hs. cbv zeta. unfold entries_delta. induction after as [|[p e] after IH] using rev_ind; [done|].
  rewrite foldl_app. cbn [foldl fst snd].
  pose proof Hs as [Hlt [Hs' _]]%sorted_recs_app. destruct (IH Hs') as (S1 & S2 & L1 & L2).
  set (d := foldl _ _ after) in *.
  assert (alookup p after = None) as Hp.
  { apply alookup_None. intros (r & Er & Hr)%list_elem_of_fmap. specialize (Hlt r (p, e) Hr ltac:(by left)).
    cbn in Hlt. rewrite <- Er in Hlt. by apply key_lt_irrefl in Hlt. }
  assert (forall k, alookup k (after ++ [(p, e)]) = if decide (k = p) then Some e else alookup k after) as Happ.
  { intros k. rewrite alookup_app, alookup_cons. destruct (decide (k = p)) as [->|]; [by rewrite Hp|].
    by destruct (alookup k after). }
  pose proof (L1 p) as P1. pose proof (L2 p) as P2. rewrite Hp in P1, P2. cbn in P1, P2.
  assert (change_of before p e = match alookup p before with
    | None => Some (ChangeUpsert e)
    | Some b => if bool_decide (b = e) then None else Some (entry_change p (Some b) e) end) as Ec by done.
  destruct (alookup p before) as [b|].
  - destruct (bool_decide_reflect (b = e)) as [Heq|Hne].
    + split_and!; [done|done| |]; intros k; rewrite Happ; destruct (decide (k = p)) as [->|]; rewrite ?P1, ?P2, ?L1, ?L2; try done;
        cbn [mbind option_bind]; by rewrite Ec.
    + unfold record_entry_change. destruct d as [up app]. cbn [fst snd] in *.
      destruct (entry_change p (Some b) e) as [a|e'] eqn:Ech; cbn [fst snd];
        (split_and!; [by auto using map_set_sorted, map_erase_sorted | by auto using map_set_sorted, map_erase_sorted | |];
         intros k; rewrite Happ, ?map_set_lookup, ?map_erase_lookup; destruct (decide (k = p)) as [->|]; rewrite ?L1, ?L2; try done;
         cbn [mbind option_bind]; by rewrite Ec).
  - unfold map_emplace. rewrite P1. cbn [from_option fst snd]. unfold id. split_and!; [by apply map_set_sorted | done | |]; intros k.
    + rewrite Happ, map_set_lookup. destruct (decide (k = p)) as [->|]; [|done]. cbn [mbind option_bind]. by rewrite Ec.
    + rewrite Happ. destruct (decide (k = p)) as [->|]; [|done]. cbn [mbind option_bind]. by rewrite Ec, P2.
Qed.

(** A namespace held as a map: normal paths, and a root directory. *)
Record namespace_wf (m : NamespaceEntries) : Prop := {
  nw_sorted : sorted_recs m;
  nw_normal : Forall normal m.*1;
  nw_extents : Forall (fun e => Z.of_nat (length (fe_extents e.2)) < 2 ^ 32) m;
  nw_root : exists e, alookup root_path m = Some e /\ fe_type e = directory
}.

Lemma keys_normal {V} (d : list (Bytes * V)) (m : NamespaceEntries) :
  Forall normal m.*1 -> (forall k, alookup k m = None -> alookup k d = None) -> Forall normal d.*1.
Proof.
  intros Hm Hk. apply Forall_forall. intros k Hin. rewrite Forall_forall in Hm. apply Hm, alookup_is_key.
  apply alookup_is_key in Hin as (v & Ev). specialize (Hk k). destruct (alookup k m) as [e|]; [eauto|]. by rewrite Hk in Ev.
Qed.

Lemma entries_applied before after :
  namespace_wf before -> namespace_wf after ->
  exists m, apply_erases true (missing_keys before after) before = Ok m /\
    apply_appends (entries_delta before after).2 (apply_upserts (entries_delta before after).1 m) = Ok after.
Proof.
  intros [Sb Nb Xb _] [Sa Na _ (r & Er & _)].
  destruct (entries_delta_ok before after Sa) as (S1 & S2 & L1 & L2). set (d := entries_delta before after) in *.
  assert (Forall normal d.1.*1) as N1.
  { apply (keys_normal d.1 after); [done|]. intros k E. by rewrite L1, E. }
  assert (Forall normal d.2.*1) as N2.
  { apply (keys_normal d.2 after); [done|]. intros k E. by rewrite L2, E. }
  set (m := foldl (fun m p => map_erase p m) before (missing_keys before after)).
  exists m. split.
  { apply apply_erases_ok, Forall_forall. intros p [Hp Ep]%missing_elem. rewrite Forall_forall in Nb.
    split; [by apply Nb|]. intros ->. by rewrite Er in Ep. }
  rewrite apply_upserts_ok by done.
  assert (forall k, alookup k m = match alookup k after with Some _ => alookup k before | None => None end) as Hm.
  { intros k. unfold m. rewrite erases_lookup. destruct (alookup k after) as [e|] eqn:Ea.
    - rewrite decide_False; [done|]. intros [_ E]%missing_elem. by rewrite Ea in E.
    - destruct (decide _) as [|Hn]; [done|]. apply alookup_None. intros Hin. by apply Hn, missing_elem. }
  assert (forall k, alookup k (apply_map d.1 m) = match upsert_of (alookup k after ≫= change_of before k) with
    | Some v => Some v | None => alookup k m end) as Hu.
  { intros k. unfold apply_map. by rewrite sets_lookup, L1. }
  destruct (apply_appends_ok d.2 (apply_map d.1 m) after) as (out & Eout & Sout & Hout); [done| |done| |].
  - by apply sets_sorted, erases_sorted.
  - intros k a. rewrite L2, Hu, Hm. destruct (alookup k after) as [e|] eqn:Ea; [|done].
    cbn [mbind option_bind]. unfold change_of. destruct (alookup k before) as [b|] eqn:Eb; [|done].
    destruct (bool_decide _); [done|]. destruct (entry_change k (Some b) e) as [a'|] eqn:Ech; cbn; [|done].
    intros [= ->]. exists b, e. split_and!; [done| |done]. apply append_applies; [|done].
    rewrite Forall_forall in Xb. by apply (Xb (k, b)), alookup_Some_elem.
  - rewrite Eout. f_equal. apply sorted_recs_ext; [done..|]. intros k. rewrite Hout, L2, Hu, Hm.
    destruct (alookup k after) as [e|] eqn:Ea; [|done]. cbn [mbind option_bind]. unfold change_of.
    destruct (alookup k before) as [b|]; [|done]. destruct (bool_decide_reflect (b = e)) as [Heq|]; [by rewrite Heq|].
    destruct (entry_change k (Some b) e) as [|e'] eqn:Ech; [done|]. cbn. unfold entry_change in Ech.
    destruct (_ && _); congruence.
Qed.
End entries.

(** ** Tombstones *)

Lemma list_filter_iff_elem {A} (P Q : A -> Prop) `{!forall x, Decision (P x), !forall x, Decision (Q x)} (l : list A) :
  (forall x, x ∈ l -> P x <-> Q x) -> base.filter P l = base.filter Q l.
Proof.
  induction l as [|x l IH]; intros Hl; [done|]. rewrite !filter_cons, IH by (intros; apply Hl; by right).
  specialize (Hl x ltac:(by left)). destruct (decide (P x)), (decide (Q x)); (done || tauto).
Qed.

Lemma filter_all {A} (P : A -> Prop) `{!forall x, Decision (P x)} (l : list A) : (forall x, x ∈ l -> P x) -> base.filter P l = l.
Proof.
  induction l as [|x l IH]; intros Hl; [done|]. rewrite filter_cons, decide_True by (apply Hl; by left).
  f_equal. apply IH. intros. apply Hl. by right.
Qed.
Lemma filter_none {A} (P : A -> Prop) `{!forall x, Decision (P x)} (l : list A) : (forall x, x ∈ l -> ~ P x) -> base.filter P l = [].
Proof.
  induction l as [|x l IH]; intros Hl; [done|]. rewrite filter_cons, decide_False by (apply Hl; by left).
  apply IH. intros. apply Hl. by right.
Qed.
Lemma missing_cons {K V} `{KeyOrder K, !EqDecision K} (k : K) (v : V) before after :
  missing_keys ((k, v) :: before) after =
    if decide (alookup k after = None) then k :: missing_keys before after else missing_keys before after.
Proof. unfold missing_keys. rewrite filter_cons. cbn [fst]. by destruct (decide _). Qed.
Lemma changed_cons {K V} `{KeyOrder K, !EqDecision K, !EqDecision V} (k : K) (v : V) before after :
  changed_records before ((k, v) :: after) =
    if decide (alookup k before = Some v) then changed_records before after else (k, v) :: changed_records before after.
Proof.
  unfold changed_records. rewrite filter_cons. cbn [fst snd].
  destruct (decide (alookup k before <> Some v)) as [|E%dec_stable]; [by rewrite decide_False | by rewrite decide_True].
Qed.

(** Records above a key do not see what is at it. *)
Lemma changed_cons_below {K V} `{KeyOrder K, !EqDecision K, !EqDecision V} (k : K) (v : V) before after :
  Forall (fun r => key_lt k r.1) after -> changed_records ((k, v) :: before) after = changed_records before after.
Proof.
  intros Hf. apply list_filter_iff_elem. intros e He. rewrite Forall_forall in Hf. specialize (Hf e He).
  rewrite alookup_cons, decide_False; [done|]. intros E. rewrite E in Hf. by apply key_lt_irrefl in Hf.
Qed.
Lemma missing_cons_below {K V} `{KeyOrder K, !EqDecision K} (k : K) (v : V) before after :
  Forall (fun r => key_lt k r.1) before -> missing_keys before ((k, v) :: after) = missing_keys before after.
Proof.
  intros Hf. unfold missing_keys. f_equal. apply list_filter_iff_elem. intros e He. rewrite Forall_forall in Hf. specialize (Hf e He).
  rewrite alookup_cons, decide_False; [done|]. intros E. rewrite E in Hf. by apply key_lt_irrefl in Hf.
Qed.
Lemma below_cons {K V} `{KeyOrder K} (k k' : K) (v : V) l :
  key_lt k k' -> Forall (fun r => key_lt k' r.1) l -> Forall (fun r => key_lt k r.1) ((k', v) :: l).
Proof. intros Hk Hl. constructor; [done|]. eapply Forall_impl; [exact Hl|]. intros r Hr. by transitivity k'. Qed.

Section garbage.
Implicit Types (l before after : list GarbageRef).

Definition ids l : list ObjectId := gr_id <$> l.
Definition keyed l : list (ObjectId * GarbageRef) := (fun g => (gr_id g, g)) <$> l.

Lemma keyed_keys l : (keyed l).*1 = ids l.
Proof. unfold keyed, ids. rewrite <- list_fmap_compose. by apply list_fmap_ext. Qed.
Lemma keyed_Some l id g : alookup id (keyed l) = Some g -> gr_id g = id /\ g ∈ l.
Proof. intros Hg%alookup_Some_elem. apply list_elem_of_fmap in Hg as (g' & [= -> ->] & Hin). done. Qed.
Lemma keyed_None l id : alookup id (keyed l) = None <-> id ∉ ids l.
Proof. by rewrite alookup_None, keyed_keys. Qed.
Lemma keyed_elem l g : NoDup (ids l) -> g ∈ l -> alookup (gr_id g) (keyed l) = Some g.
Proof.
  induction l as [|h l IH]; intros Hn Hin; [by apply elem_of_nil in Hin|]. unfold keyed. cbn [fmap list_fmap]. rewrite alookup_cons.
  apply NoDup_cons in Hn as [Hh Hn]. apply elem_of_cons in Hin as [->|Hin]; [by rewrite decide_True|].
  destruct (decide (gr_id g = gr_id h)) as [E|]; [|by apply IH]. destruct Hh. rewrite <- E.
  apply list_elem_of_fmap. eauto.
Qed.

Lemma keyed_perm l l' id : NoDup (ids l) -> l ≡ₚ l' -> alookup id (keyed l) = alookup id (keyed l').
Proof.
  intros Hn Hp. assert (NoDup (ids l')) as Hn' by (unfold ids in *; by rewrite <- Hp).
  destruct (alookup id (keyed l)) as [g|] eqn:E.
  - apply keyed_Some in E as [<- Hg]. symmetry. apply keyed_elem; [done|]. by rewrite <- Hp.
  - symmetry. apply keyed_None. apply keyed_None in E. unfold ids in *. by rewrite <- Hp.
Qed.

(** Tombstones by id: the order of their ids and the one of each id say all. *)
Lemma keyed_ext l l' :
  NoDup (ids l) -> ids l = ids l' -> (forall id, alookup id (keyed l) = alookup id (keyed l')) -> l = l'.
Proof.
  intros Hn Hi Hl. assert (NoDup (ids l')) as Hn' by (by rewrite <- Hi).
  apply list_eq_same_length with (length l); [|done|].
  { symmetry. apply (f_equal length) in Hi. unfold ids in Hi. by rewrite !length_fmap in Hi. }
  intros i x y _ Hx Hy. assert (gr_id x = gr_id y) as E.
  { assert (ids l !! i = Some (gr_id x)) as E1 by (unfold ids; by rewrite list_lookup_fmap, Hx).
    rewrite Hi in E1. unfold ids in E1. rewrite list_lookup_fmap, Hy in E1. cbn in E1. congruence. }
  specialize (Hl (gr_id x)). rewrite keyed_elem in Hl by (done || by apply list_elem_of_lookup_2 in Hx).
  rewrite E, keyed_elem in Hl by (done || by apply list_elem_of_lookup_2 in Hy). congruence.
Qed.

Lemma keyed_same_perm l l' :
  NoDup (ids l) -> NoDup (ids l') -> (forall id, alookup id (keyed l) = alookup id (keyed l')) -> l ≡ₚ l'.
Proof.
  intros Hn Hn' Hl. apply NoDup_Permutation; [by apply NoDup_fmap_1 in Hn | by apply NoDup_fmap_1 in Hn' |].
  intros g. split; intros Hg.
  - apply keyed_elem in Hg; [|done]. rewrite Hl in Hg. by apply keyed_Some in Hg as [_ Hg].
  - apply keyed_elem in Hg; [|done]. rewrite <- Hl in Hg. by apply keyed_Some in Hg as [_ Hg].
Qed.

(** *** What is written *)

Definition put (g : GarbageRef) l : list GarbageRef :=
  if decide (gr_id g ∈ ids l) then (fun h => if decide (gr_id h = gr_id g) then g else h) <$> l else l ++ [g].

Lemma put_ids g l : ids (put g l) = if decide (gr_id g ∈ ids l) then ids l else ids l ++ [gr_id g].
Proof.
  unfold put, ids. destruct (decide _); [|by rewrite fmap_app]. rewrite <- list_fmap_compose. apply list_fmap_ext.
  intros i h _. cbn. by destruct (decide _).
Qed.

Lemma put_lookup g l id :
  alookup id (keyed (put g l)) = if decide (id = gr_id g) then Some g else alookup id (keyed l).
Proof.
  unfold put. destruct (decide (gr_id g ∈ ids l)) as [Hin|Hout].
  - clear -Hin. revert Hin. unfold keyed. induction l as [|h l IH]; [by intros ?%elem_of_nil|]. cbn [ids fmap list_fmap].
    rewrite elem_of_cons, !alookup_cons. destruct (decide (gr_id h = gr_id g)) as [E|Hne]; cbn [gr_id].
    + intros _. rewrite E. destruct (decide (id = gr_id g)) as [|Hid]; [done|]. clear IH.
      induction l as [|h' l IH]; [done|]. cbn [fmap list_fmap]. rewrite !alookup_cons.
      destruct (decide (gr_id h' = gr_id g)) as [E'|]; [by rewrite E', !decide_False, IH | by rewrite IH].
    + intros [E|Hin]; [by destruct Hne|]. destruct (decide (id = gr_id h)) as [->|]; [by rewrite decide_False by done|]. by apply IH.
  - unfold keyed. rewrite fmap_app, alookup_app. fold (keyed l). cbn [fmap list_fmap]. rewrite alookup_cons.
    destruct (decide (id = gr_id g)) as [->|]; [by rewrite (proj2 (keyed_None l (gr_id g)) Hout)|].
    by destruct (alookup id (keyed l)).
Qed.

Lemma puts_lookup us l id :
  NoDup (ids us) -> alookup id (keyed (foldl (fun l g => put g l) l us)) =
    match alookup id (keyed us) with Some g => Some g | None => alookup id (keyed l) end.
Proof.
  revert l. induction us as [|g us IH]; intros l Hn; [done|]. apply NoDup_cons in Hn as [Hg Hn]. cbn [foldl].
  rewrite IH, put_lookup by done. change (keyed (g :: us)) with ((gr_id g, g) :: keyed us). rewrite alookup_cons.
  destruct (decide (id = gr_id g)) as [->|]; [|done]. by rewrite (proj2 (keyed_None us (gr_id g)) Hg).
Qed.

Lemma puts_ids us l :
  NoDup (ids us) -> ids (foldl (fun l g => put g l) l us) = ids l ++ base.filter (fun id => id ∉ ids l) (ids us).
Proof.
  revert l. induction us as [|g us IH]; intros l Hn; [by rewrite app_nil_r|]. apply NoDup_cons in Hn as [Hg Hn].
  cbn [foldl]. rewrite IH, put_ids by done. change (ids (g :: us)) with (gr_id g :: ids us). rewrite filter_cons.
  destruct (decide (gr_id g ∈ ids l)) as [Hin|Hout]; [by rewrite decide_False by (intros Hn'; by apply Hn')|].
  rewrite decide_True by done. rewrite <- app_assoc. cbn [app]. do 2 f_equal.
  apply list_filter_iff_elem. intros id Hid. rewrite elem_of_app, list_elem_of_singleton. split; [tauto|].
  intros Hn' [?|E]; [done|]. by rewrite E in Hid.
Qed.

(** The index gives the place of the tombstone of an id. *)
Definition indexes (index : list (ObjectId * nat)) l : Prop :=
  forall id i, alookup id index = Some i <-> ids l !! i = Some id.

Lemma index_snoc index l g :
  indexes index l -> gr_id g ∉ ids l ->
  alookup (gr_id g) index = None /\ indexes (map_set (gr_id g) (length l) index) (l ++ [g]).
Proof.
  intros Hi Hg.
  split. { destruct (alookup (gr_id g) index) as [i|] eqn:E; [|done]. apply Hi in E. by apply list_elem_of_lookup_2 in E. }
  intros id i. rewrite map_set_lookup. unfold ids. rewrite fmap_app. fold (ids l). cbn [fmap list_fmap].
  destruct (decide (id = gr_id g)) as [->|Hne].
  - split.
    + intros [= <-]. rewrite lookup_app_r; unfold ids; rewrite length_fmap; [by rewrite Nat.sub_diag | done].
    + intros E. apply lookup_app_Some in E as [E|[Hle E]]; [by apply list_elem_of_lookup_2 in E|].
      apply list_lookup_singleton_Some in E as [E _]. unfold ids in *. rewrite length_fmap in *. f_equal. lia.
  - rewrite (Hi id i), lookup_app_Some. split; [by left|]. intros [?|[_ E]]; [done|].
    apply list_lookup_singleton_Some in E as [_ E]. by destruct Hne.
Qed.

Lemma first_index_ok l : NoDup (ids l) -> indexes (first_index l) l.
Proof.
  unfold first_index. induction l as [|g l IH] using rev_ind; intros Hn; [by intros id i|].
  unfold ids in Hn. rewrite fmap_app in Hn. apply NoDup_app in Hn as (Hn & Hg & _).
  rewrite imap_app, foldl_app. set (index := foldl _ [] (imap pair l)) in *.
  cbn [imap foldl fst snd compose]. rewrite Nat.add_0_r.
  destruct (index_snoc index l g) as [E Hi]; [by apply IH | |].
  - intros Hin. apply (Hg _ Hin). by left.
  - unfold map_emplace. by rewrite E.
Qed.

Lemma upsert_steps us l index :
  NoDup (ids l) -> indexes index l -> (foldl upsert_step (l, index) us).1 = foldl (fun l g => put g l) l us.
Proof.
  revert l index. induction us as [|g us IH]; intros l index Hn Hi; [done|]. cbn [foldl upsert_step].
  destruct (alookup (gr_id g) index) as [i|] eqn:E.
  - pose proof (proj1 (Hi _ _) E) as Ei.
    assert (<[i := g]> l = put g l) as Ep.
    { unfold put. rewrite decide_True by (by apply list_elem_of_lookup_2 in Ei). apply list_eq. intros j.
      rewrite list_lookup_fmap. destruct (decide (j = i)) as [->|Hne].
      - unfold ids in Ei. rewrite list_lookup_fmap in Ei. destruct (l !! i) as [h|] eqn:Eh; [|done]. cbn in *.
        injection Ei as Ei. rewrite decide_True by done. apply list_lookup_insert_eq. by apply lookup_lt_Some in Eh.
      - rewrite list_lookup_insert_ne by done. destruct (l !! j) as [h|] eqn:Eh; [|done]. cbn.
        rewrite decide_False; [done|]. intros Eg. apply Hne. apply (NoDup_lookup (ids l) j i (gr_id g) Hn); [|done].
        unfold ids. by rewrite list_lookup_fmap, Eh, <- Eg. }
    assert (ids (<[i := g]> l) = ids l) as Eids.
    { rewrite Ep, put_ids, decide_True; [done|]. by apply list_elem_of_lookup_2 in Ei. }
    rewrite <- Ep. apply IH; unfold indexes; by rewrite Eids.
  - assert (gr_id g ∉ ids l) as Hg.
    { intros Hin. apply list_elem_of_lookup_1 in Hin as (i & Hin). apply Hi in Hin. congruence. }
    unfold put at 2. rewrite decide_False by done. destruct (index_snoc index l g Hi Hg) as [_ Hi'].
    apply IH; [|done]. unfold ids. rewrite fmap_app. apply NoDup_app. split_and!; [done| |apply NoDup_singleton].
    intros x Hx Hx'%list_elem_of_singleton. by subst.
Qed.

(** *** What a delta writes *)

Lemma edits_ok before after :
  sorted_recs (keyed before) -> sorted_recs (keyed after) ->
  garbage_edits before after =
    (missing_keys (keyed before) (keyed after), (changed_records (keyed before) (keyed after)).*2).
Proof.
  revert after. induction before as [|b before IHb]; intros after Hb; induction after as [|a after IHa]; intros Ha.
  - done.
  - pose proof Ha as [_ Ha']%sorted_recs_cons. cbn [garbage_edits] in *. by rewrite IHa.
  - pose proof Hb as [_ Hb']%sorted_recs_cons. cbn [garbage_edits]. by rewrite IHb.
  - pose proof Hb as [Fb Hb']%sorted_recs_cons. pose proof Ha as [Fa Ha']%sorted_recs_cons. cbn [garbage_edits].
    change (keyed (b :: before)) with ((gr_id b, b) :: keyed before) in *.
    change (keyed (a :: after)) with ((gr_id a, a) :: keyed after) in *.
    destruct (key_ltb (gr_id b) (gr_id a)) eqn:E1; [|destruct (key_ltb (gr_id a) (gr_id b)) eqn:E2].
    + rewrite IHb by done. pose proof (below_cons _ _ a _ E1 Fa) as Fb'. f_equal.
      * rewrite missing_cons, decide_True; [done|]. by apply alookup_below.
      * by rewrite changed_cons_below.
    + cbn [garbage_edits] in IHa. rewrite IHa by done. pose proof (below_cons _ _ b _ E2 Fb) as Fa'. f_equal.
      * by rewrite (missing_cons_below (gr_id a)).
      * rewrite changed_cons, decide_False; [done|]. by rewrite alookup_below.
    + pose proof (key_total _ _ E1 E2) as E. rewrite IHb by done. f_equal.
      * rewrite missing_cons, alookup_cons, (decide_True (P := gr_id b = gr_id a)), decide_False by done.
        rewrite E in Fb. by rewrite missing_cons_below.
      * rewrite changed_cons, alookup_cons, (decide_True (P := gr_id a = gr_id b)) by done.
        rewrite <- E in Fa. rewrite changed_cons_below by done.
        destruct (bool_decide_reflect (b = a)) as [Eq|Hne]; [by rewrite Eq, decide_True|].
        rewrite decide_False by congruence. done.
Qed.

Lemma adjacent_sorted l :
  in_order (by_key gr_id) l -> adjacent_same_id l = false -> sorted_recs (keyed l).
Proof.
  induction l as [|a l IH]; intros Ho Ha; [constructor|]. apply StronglySorted_cons in Ho as [Hf Ho].
  change (keyed (a :: l)) with ((gr_id a, a) :: keyed l).
  assert (adjacent_same_id l = false) as Ha'.
  { destruct l as [|b l]; [done|]. cbn [adjacent_same_id] in Ha. by apply orb_false_iff in Ha as [_ Ha]. }
  apply sorted_recs_cons. split; [|by apply IH]. specialize (IH Ho Ha').
  destruct l as [|b l]; [constructor|]. change (keyed (b :: l)) with ((gr_id b, b) :: keyed l) in *.
  apply sorted_recs_cons in IH as [Fb _]. apply Forall_cons in Hf as [Hb _]. unfold by_key in Hb.
  cbn [adjacent_same_id] in Ha. apply orb_false_iff in Ha as [Ha _]. apply bool_decide_eq_false in Ha.
  apply below_cons; [|done]. destruct (key_trichotomy (gr_id a) (gr_id b)) as [?|[?|?]]; [done | by destruct Ha | unfold key_lt in *; congruence].
Qed.

Lemma canonical_sorted l :
  adjacent_same_id (canonicalise_garbage l) = false -> sorted_recs (keyed (canonicalise_garbage l)) /\ NoDup (ids l).
Proof.
  intros Ha. assert (sorted_recs (keyed (canonicalise_garbage l))) as Hs
    by (apply adjacent_sorted; [apply sort_in_order, by_key_weak | done]).
  split; [done|]. unfold sorted_recs in Hs. apply sorted_keys_NoDup in Hs. rewrite keyed_keys in Hs.
  unfold ids in *. by rewrite <- (stable_sort_perm (by_key gr_id) l).
Qed.

Lemma canonical_fixed l : garbage_is_canonical l = true -> sorted_recs (keyed l).
Proof.
  induction l as [|a l IH]; intros Hc; [constructor|]. destruct l as [|b l]; [repeat constructor|].
  cbn [garbage_is_canonical] in Hc. apply andb_true_iff in Hc as [Hab Hc]. specialize (IH Hc).
  change (keyed (a :: b :: l)) with ((gr_id a, a) :: keyed (b :: l)). apply sorted_recs_cons. split; [|done].
  change (keyed (b :: l)) with ((gr_id b, b) :: keyed l) in *. apply sorted_recs_cons in IH as [Fb _]. by apply below_cons.
Qed.

Lemma canonicalise_perm l l' : NoDup (ids l) -> l ≡ₚ l' -> canonicalise_garbage l = canonicalise_garbage l'.
Proof.
  intros Hn Hp. apply stable_sort_ext; [apply by_key_weak | | done].
  intros x y Hx Hy E1 E2. apply keyed_elem in Hx, Hy; [|done..]. rewrite (by_key_apart gr_id x y E1 E2) in Hx. congruence.
Qed.

Lemma canonicalise_sorted l : sorted_recs (keyed l) -> canonicalise_garbage l = l.
Proof.
  intros Hs. assert (NoDup (ids l)) as Hn by (rewrite <- keyed_keys; by apply sorted_keys_NoDup).
  unfold canonicalise_garbage. pose proof (stable_sort_perm (by_key gr_id) l) as Hp.
  assert (in_order (by_key gr_id) l) as Ho.
  { clear Hn Hp. induction l as [|a l IH]; [constructor|]. change (keyed (a :: l)) with ((gr_id a, a) :: keyed l) in Hs.
    apply sorted_recs_cons in Hs as [Hf Hs]. constructor; [by apply IH|]. unfold keyed in Hf. rewrite Forall_fmap in Hf.
    eapply Forall_impl; [exact Hf|]. intros b Hb. unfold by_key. by apply key_lt_asym. }
  apply (StronglySorted_unique_strong (fun x y => by_key gr_id y x = false)); [| | done | done].
  - intros x y Hx Hy E1 E2. rewrite Hp in Hx. apply keyed_elem in Hx, Hy; [|done..].
    rewrite (by_key_apart gr_id x y E2 E1) in Hx. congruence.
  - apply sort_in_order, by_key_weak.
Qed.

Lemma contains_ok l id : sorted_recs (keyed l) -> contains_id l id = true <-> id ∈ ids l.
Proof.
  intros Hs. unfold contains_id. induction l as [|a l IH]; cbn [find]; [split; [done | by intros ?%elem_of_nil]|].
  change (keyed (a :: l)) with ((gr_id a, a) :: keyed l) in Hs. apply sorted_recs_cons in Hs as [Hf Hs].
  change (ids (a :: l)) with (gr_id a :: ids l). rewrite elem_of_cons.
  destruct (key_ltb (gr_id a) id) eqn:E; cbn [negb].
  - rewrite IH by done. split; [by right|]. intros [->|]; [|done]. by rewrite key_irrefl in E.
  - rewrite bool_decide_eq_true. split; [by left|]. intros [->|Hin]; [done|]. exfalso.
    rewrite Forall_forall in Hf. apply list_elem_of_fmap in Hin as (b & -> & Hb).
    assert ((gr_id b, b) ∈ keyed l) as Hb' by (apply list_elem_of_fmap; eauto). specialize (Hf _ Hb'). unfold key_lt in Hf. cbn [fst] in Hf. congruence.
Qed.

Lemma follow_ok want l rest : follow want l = Some rest -> ids l = want ++ ids rest.
Proof.
  revert l. induction want as [|id want IH]; intros l; cbn [follow]; [by intros [= ->]|]. destruct l as [|g l]; [done|].
  destruct (bool_decide_reflect (gr_id g = id)) as [<-|]; [|done]. intros E. cbn. by rewrite <- (IH _ E).
Qed.

Lemma changed_values before after :
  (changed_records (keyed before) (keyed after)).*2 = base.filter (fun g => alookup (gr_id g) (keyed before) <> Some g) after.
Proof.
  induction after as [|a after IH]; [done|]. change (keyed (a :: after)) with ((gr_id a, a) :: keyed after).
  rewrite changed_cons, filter_cons. destruct (decide (alookup (gr_id a) (keyed before) = Some a)) as [E|E].
  - by rewrite decide_False by (intros Hn; by apply Hn).
  - rewrite decide_True by done. cbn. by rewrite IH.
Qed.

Lemma keyed_changed before after :
  keyed (base.filter (fun g => alookup (gr_id g) (keyed before) <> Some g) after) = changed_records (keyed before) (keyed after).
Proof.
  induction after as [|a after IH]; [done|]. change (keyed (a :: after)) with ((gr_id a, a) :: keyed after).
  rewrite changed_cons, filter_cons. destruct (decide (alookup (gr_id a) (keyed before) = Some a)) as [E|E].
  - by rewrite decide_False by (intros Hn; by apply Hn).
  - rewrite decide_True by done. rewrite <- IH. done.
Qed.

Lemma ids_filter (P : GarbageRef -> Prop) (Q : ObjectId -> Prop) `{!forall g, Decision (P g), !forall id, Decision (Q id)} l :
  (forall g, P g <-> Q (gr_id g)) -> ids (base.filter P l) = base.filter Q (ids l).
Proof.
  intros Hpq. induction l as [|a l IH]; [done|]. change (ids (a :: l)) with (gr_id a :: ids l). rewrite !filter_cons.
  specialize (Hpq a). destruct (decide (P a)), (decide (Q (gr_id a))); try tauto. cbn. f_equal. exact IH.
Qed.
Lemma keyed_filter (P : GarbageRef -> Prop) (Q : ObjectId -> Prop) `{!forall g, Decision (P g)} l id :
  (forall g, P g <-> Q (gr_id g)) ->
  (Q id -> alookup id (keyed (base.filter P l)) = alookup id (keyed l)) /\
  (~ Q id -> alookup id (keyed (base.filter P l)) = None).
Proof.
  intros Hpq. split; intros Hq.
  - induction l as [|a l IH]; [done|]. change (keyed (a :: l)) with ((gr_id a, a) :: keyed l).
    rewrite filter_cons, alookup_cons. destruct (decide (P a)) as [Hp|Hp].
    + change (keyed (a :: ?r)) with ((gr_id a, a) :: keyed r). by rewrite alookup_cons, IH.
    + rewrite IH. rewrite decide_False; [done|]. intros ->. by apply Hp, Hpq.
  - apply keyed_None. intros (g & -> & [Hg _]%list_elem_of_filter)%list_elem_of_fmap. by apply Hq, Hpq.
Qed.

(** Erasing and writing gives the tombstones of [after], those that were kept
    before the new ones. *)
Lemma written_ok before after bs als :
  bs ≡ₚ before -> als ≡ₚ after -> sorted_recs (keyed bs) -> sorted_recs (keyed als) ->
  let out := apply_garbage false (garbage_edits bs als).1 (garbage_edits bs als).2 before in
  (forall id, alookup id (keyed out) = alookup id (keyed after)) /\
  ids out = base.filter (fun id => id ∈ ids after) (ids before) ++ base.filter (fun id => id ∉ ids before) (ids als).
Proof.
  intros Pb Pa Sb Sa out. subst out. unfold apply_garbage. rewrite (edits_ok bs als Sb Sa), changed_values. cbn [fst snd].
  assert (NoDup (ids bs)) as Nbs by (rewrite <- keyed_keys; by apply sorted_keys_NoDup).
  assert (NoDup (ids als)) as Nas by (rewrite <- keyed_keys; by apply sorted_keys_NoDup).
  assert (NoDup (ids before)) as Nb by (unfold ids in *; by rewrite <- Pb).
  assert (forall id, id ∈ ids als <-> id ∈ ids after) as Ia by (intros; unfold ids; by rewrite Pa).
  assert (forall id, alookup id (keyed after) = alookup id (keyed als)) as La by (intros; symmetry; by apply keyed_perm).
  assert (forall id, alookup id (keyed before) = alookup id (keyed bs)) as Lb by (intros; symmetry; by apply keyed_perm).
  set (erased := missing_keys (keyed bs) (keyed als)). set (kept := base.filter (fun g => gr_id g ∉ erased) before).
  set (us := base.filter (fun g => alookup (gr_id g) (keyed bs) <> Some g) als).
  assert (forall id, id ∈ erased <-> id ∈ ids before /\ id ∉ ids after) as He.
  { intros id. unfold erased. rewrite missing_elem, keyed_keys, keyed_None, Ia. unfold ids. by rewrite Pb. }
  assert (ids kept = base.filter (fun id => id ∈ ids after) (ids before)) as Ik.
  { etransitivity; [by apply (ids_filter _ (fun id => id ∉ erased))|]. apply list_filter_iff_elem. intros id Hid. rewrite He.
    destruct (decide (id ∈ ids after)); tauto. }
  assert (NoDup (ids kept)) as Nk by (rewrite Ik; by apply NoDup_filter).
  assert (sorted_recs (keyed us)) as Su by (unfold us; rewrite keyed_changed; by apply changed_sorted).
  assert (NoDup (ids us)) as Nu by (rewrite <- keyed_keys; by apply sorted_keys_NoDup).
  rewrite upsert_steps by (done || by apply first_index_ok). split.
  - intros id. rewrite puts_lookup by done. unfold us. rewrite keyed_changed, changed_lookup by done.
    destruct (keyed_filter (fun g => gr_id g ∉ erased) (fun id => id ∉ erased) before id ltac:(done)) as [Hk1 Hk2].
    fold kept in Hk1, Hk2. rewrite La. destruct (alookup id (keyed als)) as [g|] eqn:Eg.
    + destruct (decide _) as [E|]; [|done]. rewrite Hk1; [by rewrite Lb|]. rewrite He, <- Ia. intros [_ Hn].
      apply Hn. rewrite <- keyed_keys. apply alookup_is_key. eauto.
    + destruct (decide (id ∈ erased)) as [Hin|Hn]; [by apply Hk2; intros Hn|]. rewrite Hk1 by done. apply keyed_None.
      intros Hin. apply Hn, He. split; [done|]. rewrite <- Ia. by apply keyed_None.
  - rewrite puts_ids by done. rewrite Ik at 1. f_equal. rewrite <- !keyed_keys. unfold us. rewrite keyed_changed.
    unfold changed_records. rewrite !keyed_keys.
    assert (forall id, id ∈ ids als -> id ∉ ids kept <-> id ∉ ids before) as Hkept.
    { intros id Hid. rewrite Ik, list_elem_of_filter, <- Ia. tauto. }
    assert (forall id, id ∉ ids before -> alookup id (keyed bs) = None) as Hnone by (intros; by rewrite <- Lb; apply keyed_None).
    clearbody kept. clear -Hkept Hnone. induction als as [|a als IH]; [done|].
    change (keyed (a :: als)) with ((gr_id a, a) :: keyed als). change (ids (a :: als)) with (gr_id a :: ids als).
    assert (forall id, id ∈ ids als -> id ∉ ids kept <-> id ∉ ids before) as Hkept' by (intros; apply Hkept; by right).
    specialize (IH Hkept'). rewrite !filter_cons. cbn [fst snd]. specialize (Hkept (gr_id a) ltac:(by left)).
    destruct (decide (gr_id a ∉ ids before)) as [Hb|Hb].
    + rewrite decide_True by (by rewrite Hnone). cbn [fmap list_fmap fst]. rewrite filter_cons, decide_True by tauto. f_equal. exact IH.
    + destruct (decide _); [cbn [fmap list_fmap fst]; rewrite filter_cons, decide_False by tauto|]; exact IH.
Qed.

(** Tombstones through a delta. *)
Lemma garbage_applied before after canonical erased upserts :
  garbage_delta before after = Some (canonical, (erased, upserts)) ->
  apply_garbage canonical erased upserts before = after.
Proof.
  unfold garbage_delta. cbv zeta. destruct (adjacent_same_id (canonicalise_garbage before)) eqn:Ab; [done|].
  destruct (adjacent_same_id (canonicalise_garbage after)) eqn:Aa; [done|]. cbn [orb].
  apply canonical_sorted in Ab as [Sb Nb], Aa as [Sa Na].
  pose proof (stable_sort_perm (by_key gr_id) before) as Pb. pose proof (stable_sort_perm (by_key gr_id) after) as Pa.
  fold (canonicalise_garbage before) in Pb. fold (canonicalise_garbage after) in Pa.
  destruct (written_ok before after _ _ Pb Pa Sb Sa) as [Hl Hi]. revert Hl Hi.
  destruct (garbage_edits _ _) as [er up]. cbn [fst snd]. set (out := apply_garbage false er up before). intros Hl Hi.
  assert (apply_garbage true er up before = canonicalise_garbage out) as Eout by done.
  destruct (bool_decide_reflect (before = after)) as [Heq|Hne]; cbn [negb andb].
  - intros [= <- <- <-]. fold out. symmetry. apply keyed_ext; [done| |done]. rewrite Hi, <- Heq.
    rewrite filter_all, (filter_none (fun id => id ∉ ids before)); [by rewrite app_nil_r | | done].
    intros id Hid Hn. apply Hn. unfold ids in *. by rewrite Pb in Hid.
  - assert (NoDup (ids out)) as No.
    { rewrite Hi. apply NoDup_app. split_and!; [by apply NoDup_filter | |].
      - intros id [_ H1]%list_elem_of_filter [H2 _]%list_elem_of_filter. by apply H2.
      - apply NoDup_filter. unfold ids in *. by rewrite Pa. }
    destruct (garbage_is_canonical after) eqn:Ec.
    + intros [= <- <- <-]. rewrite Eout. apply canonical_fixed in Ec. rewrite <- (canonicalise_sorted after Ec).
      apply canonicalise_perm; [done|]. by apply keyed_same_perm.
    + destruct (order_reachable _ _ _ _) eqn:Er; [|done]. intros [= <- <- <-]. fold out. apply keyed_ext; [done| |done].
      rewrite Hi. unfold order_reachable in Er. fold (ids before) in Er. fold (ids (canonicalise_garbage after)) in Er.
      destruct (follow _ after) as [rest|] eqn:E1; [|done]. destruct (follow _ rest) as [[|]|] eqn:E2; [|done..].
      apply follow_ok in E1, E2. symmetry. etransitivity; [exact E1|]. rewrite E2, app_nil_r.
      f_equal; apply list_filter_iff_elem; intros id Hid.
      * rewrite contains_ok by done. unfold ids. by rewrite Pa.
      * rewrite <- not_true_iff_false, contains_ok by done. unfold ids. by rewrite Pb.
Qed.
End garbage.

(** ** Tombstone batches *)

Section batches.
Implicit Types (l before after : list TombstoneBatch).

Definition batches_of l : list (ObjectId * TombstoneBatch) := (fun b => (tb_id b, b)) <$> l.
Definition batches_sorted l : Prop := sorted_recs (batches_of l).

Lemma batches_of_cons b l : batches_of (b :: l) = (tb_id b, b) :: batches_of l.
Proof. done. Qed.
Lemma batches_of_inj l l' : batches_of l = batches_of l' -> l = l'.
Proof. intros E. apply (f_equal (fmap snd)) in E. unfold batches_of in E. rewrite <- !list_fmap_compose in E. by rewrite !list_fmap_id in E. Qed.
Lemma batches_of_Some l id b : alookup id (batches_of l) = Some b -> tb_id b = id /\ b ∈ l.
Proof. intros Hb%alookup_Some_elem. by apply list_elem_of_fmap in Hb as (b' & [= -> ->] & Hin). Qed.
Lemma batches_of_elem l b : batches_sorted l -> b ∈ l -> alookup (tb_id b) (batches_of l) = Some b.
Proof. intros Hs Hb. apply elem_alookup_Some; [done|]. apply list_elem_of_fmap. eauto. Qed.

Lemma difference_ok l r :
  batches_sorted l -> batches_sorted r ->
  set_difference batch_ltb l r = base.filter (fun b => alookup (tb_id b) (batches_of r) = None) l.
Proof.
  revert r. induction l as [|x l IHl]; intros r Hl; [by destruct r|]. induction r as [|y r IHr]; intros Hr.
  - cbn [set_difference]. symmetry. by apply filter_all.
  - pose proof Hl as [Fl Hl']%sorted_recs_cons. pose proof Hr as [Fr Hr']%sorted_recs_cons.
    fold (batches_of l) in *. fold (batches_of r) in *. cbn [set_difference].
    destruct (batch_ltb x y) eqn:E1; [|destruct (batch_ltb y x) eqn:E2]; unfold batch_ltb, by_key in E1; try unfold batch_ltb, by_key in E2.
    + rewrite IHl, filter_cons, decide_True; [done| |done..]. rewrite batches_of_cons.
      by apply alookup_below, below_cons.
    + cbn [set_difference] in IHr. rewrite IHr by done. apply list_filter_iff_elem. intros b Hb. rewrite batches_of_cons, alookup_cons, decide_False; [done|].
      intros E. assert ((tb_id b, b) ∈ batches_of (x :: l)) as Hb' by (apply list_elem_of_fmap; eauto).
      pose proof (below_cons _ _ x _ E2 Fl) as Hf. rewrite Forall_forall in Hf. specialize (Hf _ Hb'). cbn [fst] in Hf. rewrite E in Hf.
      by apply key_lt_irrefl in Hf.
    + pose proof (key_total _ _ E1 E2) as E. rewrite IHl by done. rewrite filter_cons, decide_False by (by rewrite batches_of_cons, alookup_cons, decide_True).
      apply list_filter_iff_elem. intros b Hb. rewrite batches_of_cons, alookup_cons, decide_False; [done|]. intros Eb.
      rewrite Forall_forall in Fl. assert ((tb_id b, b) ∈ batches_of l) as Hb' by (apply list_elem_of_fmap; eauto).
      specialize (Fl _ Hb'). cbn [fst] in Fl. rewrite Eb, <- E in Fl. by apply key_lt_irrefl in Fl.
Qed.

Lemma name_batch_ok b l :
  alookup (tb_id b) (batches_of l) = None ->
  exists l', name_batch b l = Ok l' /\ batches_of l' = map_set (tb_id b) b (batches_of l).
Proof.
  induction l as [|h l IH]; intros Hn; [by exists [b]|]. rewrite batches_of_cons in *. rewrite alookup_cons in Hn.
  destruct (decide (tb_id b = tb_id h)) as [|Hne]; [done|]. cbn [name_batch map_set].
  destruct (key_ltb (tb_id h) (tb_id b)) eqn:E1.
  - destruct (IH Hn) as (l' & -> & El'). exists (h :: l'). split; [done|]. by rewrite batches_of_cons, El'.
  - rewrite bool_decide_false by done. exists (b :: h :: l). split; [done|].
    destruct (key_ltb (tb_id b) (tb_id h)) eqn:E2; [done|]. by destruct Hne; apply key_total.
Qed.

Lemma names_ok add l :
  batches_sorted add -> (forall b, b ∈ add -> alookup (tb_id b) (batches_of l) = None) ->
  exists l', foldM (fun held batch => name_batch batch held) l add = Ok l' /\ batches_of l' = apply_map (batches_of add) (batches_of l).
Proof.
  revert l. induction add as [|b add IH]; intros l Hs Hn; [by exists l|]. cbn [foldM].
  pose proof Hs as [Hf Hs']%sorted_recs_cons. fold (batches_of add) in *.
  destruct (name_batch_ok b l) as (l1 & -> & E1); [apply Hn; by left|]. cbn [mbind result_bind].
  destruct (IH l1) as (l2 & E2 & E3); [done| |].
  - intros b' Hb'. rewrite E1, map_set_lookup, decide_False; [apply Hn; by right|]. intros E.
    assert ((tb_id b', b') ∈ batches_of add) as Hin by (apply list_elem_of_fmap; eauto).
    rewrite Forall_forall in Hf. specialize (Hf _ Hin). cbn [fst] in Hf. rewrite E in Hf. by apply key_lt_irrefl in Hf.
  - exists l2. split; [done|]. rewrite E3, E1. done.
Qed.

Lemma batches_filter (P : TombstoneBatch -> Prop) `{!forall b, Decision (P b)} l :
  batches_of (base.filter P l) = base.filter (fun e => P e.2) (batches_of l).
Proof.
  induction l as [|b l IH]; [done|]. rewrite batches_of_cons, !filter_cons. cbn [snd]. destruct (decide (P b)); [|done].
  by rewrite batches_of_cons, IH.
Qed.

(** Batches are content addressed: one id, one batch. *)
Definition batches_agree before after : Prop :=
  forall b b', b ∈ before -> b' ∈ after -> tb_id b = tb_id b' -> b = b'.

Lemma batches_applied before after :
  batches_sorted before -> batches_sorted after -> batches_agree before after ->
  apply_batches (set_difference batch_ltb after before) (tb_id <$> set_difference batch_ltb before after) before = Ok after.
Proof.
  intros Sb Sa Hag. unfold apply_batches. rewrite !difference_ok by done.
  set (add := base.filter _ after). set (dropped := tb_id <$> _). set (kept := base.filter _ before).
  assert (forall b, b ∈ kept <-> b ∈ before /\ exists a, alookup (tb_id b) (batches_of after) = Some a) as Hk.
  { intros b. unfold kept, dropped. rewrite list_elem_of_filter, list_elem_of_fmap. split.
    - intros [Hn Hb]. split; [done|]. destruct (alookup (tb_id b) (batches_of after)) as [a|] eqn:E; [eauto|].
      destruct Hn. exists b. split; [done|]. by apply list_elem_of_filter.
    - intros [Hb (a & Ea)]. split; [|done]. intros (b' & E & [En _]%list_elem_of_filter). rewrite E in Ea. congruence. }
  assert (batches_sorted add) as Sadd by (unfold batches_sorted, add; rewrite batches_filter; by apply sorted_recs_filter).
  assert (batches_sorted kept) as Sk by (unfold batches_sorted, kept; rewrite batches_filter; by apply sorted_recs_filter).
  assert (forall b, b ∈ kept -> b ∈ after) as Hka.
  { intros b Hb. apply Hk in Hb as [Hb (a & Ea)]. apply batches_of_Some in Ea as [Ei Ha]. by rewrite (Hag b a Hb Ha). }
  destruct (names_ok add kept Sadd) as (out & -> & Eout).
  { intros b [Hn Hb]%list_elem_of_filter. apply alookup_None. intros (e & Ee & He)%list_elem_of_fmap.
    apply list_elem_of_fmap in He as (b' & -> & Hb'). cbn [fst] in Ee. apply Hk in Hb' as [Hb' _].
    rewrite Ee, (batches_of_elem before b') in Hn by done. done. }
  f_equal. apply batches_of_inj. rewrite Eout. apply sorted_recs_ext; [by apply sets_sorted | done |]. intros id. unfold apply_map.
  rewrite sets_lookup by done. destruct (alookup id (batches_of add)) as [b|] eqn:E1.
  - apply batches_of_Some in E1 as [<- [_ Hb]%list_elem_of_filter]. symmetry. by apply batches_of_elem.
  - destruct (alookup id (batches_of kept)) as [b|] eqn:E2.
    + apply batches_of_Some in E2 as [<- Hb]. symmetry. apply batches_of_elem; auto.
    + symmetry. destruct (alookup id (batches_of after)) as [b|] eqn:E3; [|done]. exfalso.
      pose proof E3 as [<- Hb]%batches_of_Some. destruct (alookup (tb_id b) (batches_of before)) as [b'|] eqn:E4.
      * apply batches_of_Some in E4 as [Ei Hb']. assert (b' ∈ kept) as Hk' by (apply Hk; rewrite Ei; eauto).
        apply (batches_of_elem _ _ Sk) in Hk'. rewrite Ei in Hk'. congruence.
      * assert (b ∈ add) as Hadd by (by apply list_elem_of_filter). apply (batches_of_elem _ _ Sadd) in Hadd. congruence.
Qed.
End batches.

(** ** Identity resets *)

Lemma resets_lookup d m k :
  sorted_recs d -> alookup k (apply_resets d m) =
    match alookup k d, alookup k m with
    | Some r, Some found => Some (if rs_epoch found <? rs_epoch r then r else found)
    | Some r, None => Some r
    | None, found => found
    end.
Proof.
  unfold apply_resets. revert m. induction d as [|[k' r] d IH]; intros m Hd; [done|].
  apply sorted_recs_cons in Hd as [Hf Hd]. cbn [foldl fst snd]. rewrite IH, alookup_cons by done.
  destruct (decide (k = k')) as [->|Hne].
  - rewrite (alookup_below k' d) by done. destruct (alookup k' m) as [found|] eqn:E.
    + destruct (rs_epoch found <? rs_epoch r); [by rewrite map_set_lookup, decide_True | done].
    + by rewrite map_set_lookup, decide_True.
  - destruct (alookup k' m) as [found|]; [destruct (_ <? _)|]; by rewrite ?map_set_lookup, ?decide_False.
Qed.
Lemma resets_sorted d m : sorted_recs m -> sorted_recs (apply_resets d m).
Proof.
  unfold apply_resets. revert m. induction d as [|[k r] d IH]; intros m Hm; [done|]. cbn [foldl fst snd]. apply IH.
  destruct (alookup k m); [destruct (_ <? _)|]; by auto using map_set_sorted.
Qed.

(** A reset that changes takes a later epoch. *)
Definition resets_advance (before after : list (Bytes * IdentityAssociationReset)) : Prop :=
  forall k r r', alookup k before = Some r -> alookup k after = Some r' -> r = r' \/ rs_epoch r < rs_epoch r'.

Lemma resets_applied d before after :
  sorted_recs d -> sorted_recs before -> sorted_recs after -> leads d before after -> resets_advance before after ->
  apply_resets d before = after.
Proof.
  intros Sd Sb Sa Hl Hadv. apply sorted_recs_ext; [by apply resets_sorted | done |]. intros k. rewrite resets_lookup by done.
  specialize (Hl k). destruct (alookup k d) as [r|]; [|done]. rewrite Hl. destruct (alookup k before) as [found|] eqn:E; [|done].
  destruct (Hadv k found r E Hl) as [->|Hlt]; [by destruct (_ <? _)|]. by destruct (Z.ltb_spec (rs_epoch found) (rs_epoch r)); [|lia].
Qed.

(** ** Snapshots *)

(** Two snapshots of namespaces held as maps, the second a successor: the
    node of a status record stays known, a reset that changes takes a later
    epoch, and one batch id names one batch. *)
Record successor (before after : MetadataSnapshot) : Prop := {
  su_roots : sn_namespace_root before = None /\ sn_namespace_root after = None;
  su_entries : namespace_wf (sn_entries before) /\ namespace_wf (sn_entries after);
  su_sequences : sorted_recs (sn_mutation_sequences before) /\ sorted_recs (sn_mutation_sequences after);
  su_status : sorted_recs (sn_node_status before) /\ sorted_recs (sn_node_status after);
  su_status_kept : forall k, alookup k (sn_node_status after) = None -> alookup k (sn_node_status before) = None;
  su_resets : sorted_recs (sn_identity_resets before) /\ sorted_recs (sn_identity_resets after);
  su_resets_advance : resets_advance (sn_identity_resets before) (sn_identity_resets after);
  su_requests : sorted_recs (sn_torrent_requests before) /\ sorted_recs (sn_torrent_requests after);
  su_batches : batches_sorted (sn_tombstone_batches before) /\ batches_sorted (sn_tombstone_batches after);
  su_batches_agree : batches_agree (sn_tombstone_batches before) (sn_tombstone_batches after)
}.

Lemma not_regressed before after :
  sequence_regressed before after = false ->
  forall k s, alookup k before = Some s -> exists s', alookup k after = Some s' /\ s <= s'.
Proof.
  intros E k s Hk. unfold sequence_regressed in E. apply alookup_Some_elem, list_elem_of_In in Hk.
  destruct (alookup k after) as [s'|] eqn:Ea.
  - exists s'. split; [done|]. destruct (Z.ltb_spec s' s) as [Hlt|]; [|lia]. exfalso.
    rewrite <- not_true_iff_false, existsb_exists in E. apply E. exists (k, s). split; [done|]. cbn [fst snd]. rewrite Ea.
    by apply Z.ltb_lt.
  - exfalso. rewrite <- not_true_iff_false, existsb_exists in E. apply E. exists (k, s). split; [done|]. cbn [fst]. by rewrite Ea.
Qed.

Lemma sequences_applied before after :
  sorted_recs before -> sorted_recs after -> sequence_regressed before after = false ->
  apply_sequences (changed_records before after) before = Ok after.
Proof.
  intros Sb Sa Hr. pose proof (not_regressed _ _ Hr) as Hle. rewrite apply_sequences_ok; [|by apply changed_sorted|].
  - f_equal. apply apply_leads; [by apply changed_sorted | done | done |]. apply changed_leads; [done|].
    intros k Ea. destruct (alookup k before) as [s|] eqn:Eb; [|done]. destruct (Hle k s Eb) as (s' & Es' & _). congruence.
  - intros k s s'. rewrite changed_lookup by done. destruct (alookup k after) as [v|] eqn:Ea; [|done].
    destruct (decide _); [done|]. intros [= ->] Eb. destruct (Hle k s' Eb) as (s1 & Es1 & ?). replace s with s1 by congruence. done.
Qed.

Lemma requests_applied (before after : Requests) :
  sorted_recs before -> sorted_recs after ->
  foldl (fun m id => map_erase id m) (apply_map (changed_records before after) before) (missing_keys before after) = after.
Proof.
  intros Sb Sa. apply sorted_recs_ext; [by apply erases_sorted, sets_sorted | done |]. intros k.
  rewrite erases_lookup. unfold apply_map. rewrite sets_lookup, changed_lookup by (done || by apply changed_sorted).
  destruct (alookup k after) as [r|] eqn:Ea.
  - rewrite decide_False; [|intros [_ E]%missing_elem; congruence]. by destruct (decide _).
  - destruct (decide _) as [|Hn]; [done|]. apply alookup_None. intros Hin. by apply Hn, missing_elem.
Qed.

Lemma set_parts `{Sha256} (before after : MetadataSnapshot) d :
  metadata_delta before after = Some d ->
  sn_metadata_voters before = sn_metadata_voters after /\ sn_data_replication before = sn_data_replication after /\
  sn_extent_size before = sn_extent_size after /\ sn_write_replicas_required before = sn_write_replicas_required after /\
  sn_participants before = sn_participants after /\ sn_branch_floor before = sn_branch_floor after /\
  sn_retention_baseline_complete before = sn_retention_baseline_complete after /\
  sequence_regressed (sn_mutation_sequences before) (sn_mutation_sequences after) = false.
Proof.
  unfold metadata_delta. destruct (_ || _ || _ || _ || _ || _ || _) eqn:E; [done|]. rewrite !orb_false_iff, !negb_false_iff in E.
  destruct E as ((((((E1 & E2) & E3) & E4) & E5) & E6) & E7). apply bool_decide_eq_true in E1, E5, E6. apply Z.eqb_eq in E2, E3, E4.
  apply Bool.eqb_prop in E7. by destruct (sequence_regressed _ _).
Qed.

Section snapshots.
Context `{Sha256}.

(** A delta can be made: the configuration is the same, no clock went back,
    the legacy clock was set at most once, tombstones are unique and the
    ones reached in order, and no reset is gone. *)
Record expressible (before after : MetadataSnapshot) : Prop := {
  ex_voters : sn_metadata_voters before = sn_metadata_voters after;
  ex_replication : sn_data_replication before = sn_data_replication after;
  ex_extent_size : sn_extent_size before = sn_extent_size after;
  ex_required : sn_write_replicas_required before = sn_write_replicas_required after;
  ex_participants : sn_participants before = sn_participants after;
  ex_floor : sn_branch_floor before = sn_branch_floor after;
  ex_baseline : sn_retention_baseline_complete before = sn_retention_baseline_complete after;
  ex_sequences : sequence_regressed (sn_mutation_sequences before) (sn_mutation_sequences after) = false;
  ex_legacy : sn_legacy_clock before = sn_legacy_clock after \/
    (sn_legacy_clock before = None /\ sn_legacy_clock after <> None);
  ex_garbage : NoDup (ids (sn_garbage before)) /\ garbage_is_canonical (sn_garbage after) = true;
  ex_resets : forall k, alookup k (sn_identity_resets after) = None -> alookup k (sn_identity_resets before) = None
}.

Lemma unique_not_adjacent l : NoDup (ids l) -> adjacent_same_id (canonicalise_garbage l) = false.
Proof.
  intros Hn. assert (NoDup (ids (canonicalise_garbage l))) as Hs
    by (unfold ids, canonicalise_garbage in *; by rewrite (stable_sort_perm (by_key gr_id) l)).
  clear Hn. induction (canonicalise_garbage l) as [|a s IH]; [done|]. apply NoDup_cons in Hs as [Ha Hs].
  destruct s as [|b s]; [done|]. cbn [adjacent_same_id]. rewrite bool_decide_false; [by apply IH|].
  intros E. apply Ha. rewrite E. by left.
Qed.

Lemma delta_made before after : expressible before after -> exists d, metadata_delta before after = Some d.
Proof.
  intros Hx. unfold metadata_delta.
  rewrite (ex_voters _ _ Hx), (ex_replication _ _ Hx), (ex_extent_size _ _ Hx), (ex_required _ _ Hx), (ex_participants _ _ Hx),
    (ex_floor _ _ Hx), (ex_baseline _ _ Hx), (ex_sequences _ _ Hx), !bool_decide_true, !Z.eqb_refl, Bool.eqb_reflx by done.
  cbn [negb orb].
  assert (forall x y : option VersionClock, x = y \/ (x = None /\ y <> None) ->
    negb (bool_decide (x = y)) && (match x with Some _ => true | None => false end || match y with Some _ => false | None => true end)
    = false) as Hlegacy.
  { intros x y [->|[-> Hy]]; [by rewrite bool_decide_true|]. destruct y; [|done]. apply andb_false_r. }
  rewrite (Hlegacy _ _ (ex_legacy _ _ Hx)).
  destruct (ex_garbage _ _ Hx) as [Nb Ca]. pose proof (canonical_fixed _ Ca) as Sa.
  assert (NoDup (ids (sn_garbage after))) as Na by (rewrite <- keyed_keys; by apply sorted_keys_NoDup).
  assert (exists c p, garbage_delta (sn_garbage before) (sn_garbage after) = Some (c, p)) as (c & [er up] & ->).
  { unfold garbage_delta. rewrite !unique_not_adjacent, Ca by done. cbn [orb]. destruct (negb _); cbn [andb]; eauto. }
  assert (missing_keys (sn_identity_resets before) (sn_identity_resets after) = []) as ->.
  { apply elem_of_nil_inv. intros k [Hk Ea]%missing_elem. apply (ex_resets _ _ Hx) in Ea. by apply alookup_None in Ea. }
  rewrite bool_decide_true by done. cbn [negb]. destruct (entries_delta _ _) as [up' app]. eauto.
Qed.

Lemma delta_reaches before after d :
  successor before after -> metadata_delta before after = Some d -> apply_metadata_delta None before d = Ok after.
Proof.
  intros Hs Hd. destruct (set_parts before after d Hd) as (C1 & C2 & C3 & C4 & C5 & C6 & C7 & Hseq).
  destruct (su_roots _ _ Hs) as [R1 R2], (su_entries _ _ Hs) as [N1 N2], (su_sequences _ _ Hs) as [Q1 Q2],
    (su_status _ _ Hs) as [T1 T2], (su_resets _ _ Hs) as [P1 P2], (su_requests _ _ Hs) as [U1 U2], (su_batches _ _ Hs) as [B1 B2].
  revert Hd. unfold metadata_delta. destruct (_ || _ || _ || _ || _ || _ || _); [done|]. rewrite Hseq.
  destruct (_ && _) eqn:Hlegacy; [done|].
  destruct (garbage_delta _ _) as [[canonical [er up]]|] eqn:Hg; [|done]. apply garbage_applied in Hg.
  destruct (bool_decide_reflect (missing_keys (sn_identity_resets before) (sn_identity_resets after) = [])) as [Hmissing|]; [|done].
  cbn [negb]. destruct (entries_applied _ _ N1 N2) as (m & Em & Hm). destruct (entries_delta _ _) as [upserts appends].
  cbn [fst snd] in Hm. intros Hd. injection Hd as <-. unfold apply_metadata_delta.
  cbn [md_mutation_sequences md_upsert_entries md_erase_entries md_erase_garbage md_upsert_garbage md_upsert_node_status
    md_upsert_identity_resets md_upsert_torrent_requests md_erase_torrent_requests md_replace_merge_parents md_replace_conflicts
    md_canonical_garbage md_append_entries md_catalogue md_catalogue_root md_set_legacy_clock md_set_catalogue_dot
    md_add_tombstone_batches md_drop_tombstone_batches].
  rewrite R1. cbn [mbind result_bind].
  assert (match (if bool_decide (sn_legacy_clock before = sn_legacy_clock after) then None else sn_legacy_clock after), sn_legacy_clock before with
    | None, held => Ok held
    | Some _, Some _ => Throw (DecodeError "metadata delta sets a legacy clock already set")
    | Some c, None => Ok (Some c)
    end = Ok (sn_legacy_clock after)) as ->.
  { destruct (bool_decide_reflect (sn_legacy_clock before = sn_legacy_clock after)) as [->|]; [done|]. cbn [negb andb] in Hlegacy.
    apply orb_false_iff in Hlegacy as [L1 L2]. destruct (sn_legacy_clock before); [done|]. by destruct (sn_legacy_clock after). }
  rewrite sequences_applied by done. rewrite Em. cbn [mbind result_bind]. rewrite Hm. cbn [mbind result_bind].
  assert (match (if negb (bool_decide (sn_catalogue_root before = sn_catalogue_root after))
      then match sn_catalogue_root after with Some _ => set | None => clear end else unchanged),
    (if negb (bool_decide (sn_catalogue_root before = sn_catalogue_root after)) then sn_catalogue_root after else None) with
    | unchanged, _ => Ok (sn_catalogue_root before)
    | clear, _ => Ok None
    | set, None => Throw (DecodeError "metadata delta missing catalogue root")
    | set, Some r => Ok (Some r)
    end = Ok (sn_catalogue_root after)) as ->.
  { destruct (bool_decide_reflect (sn_catalogue_root before = sn_catalogue_root after)) as [->|]; [done|]. cbn [negb].
    by destruct (sn_catalogue_root after). }
  rewrite batches_applied by (done || by apply su_batches_agree). cbn [mbind result_bind].
  assert (match alookup root_path (sn_entries after) with Some e => bool_decide (fe_type e = directory) | None => false end = true) as ->.
  { destruct (nw_root _ N2) as (e & -> & Edir). by apply bool_decide_true. }
  cbn [negb andb]. f_equal. rewrite Hg, requests_applied by done.
  pose proof (su_status_kept _ _ Hs) as Hkept.
  rewrite apply_leads with (after := sn_node_status after); try done.
  2: by auto using witness_sorted, changed_sorted.
  2: { apply witness_leads; [done|]. by apply changed_leads. }
  rewrite resets_applied with (after := sn_identity_resets after); try done.
  2: by auto using witness_sorted, changed_sorted.
  2: { apply witness_leads, changed_leads; [done..|]. intros k Ea. apply alookup_None. intros Hin.
       assert (k ∈ missing_keys (sn_identity_resets before) (sn_identity_resets after)) as Hk by (by apply missing_elem).
       rewrite Hmissing in Hk. by apply elem_of_nil in Hk. }
  2: by apply su_resets_advance.
  assert (forall (A : Type) (x y : A) `{Decision (x = y)}, default x (if bool_decide (x = y) then None else Some y) = y) as Hdef.
  { intros A x y Hdec. destruct (bool_decide_reflect (x = y)); [done|]. done. }
  rewrite !Hdef, C1, C2, C3, C4, C5, C6, C7, <- R2. by destruct after.
Qed.


End snapshots.

Module DeltaSample.
#[local] Existing Instance Sample.sha.
Definition id (b : byte) : array 16 := array_fit 16 [b].
Definition object (b : byte) : array 32 := array_fit 32 [b].
Definition dir : FsEntry := mkEntry directory 493 0 0 0 0 0 1 [] no_provenance.
Definition extent (n : Z) (b : byte) : ExtentRef := mkExtent n 9 (object b) false.
Definition growing (l : list ExtentRef) (version : Z) : FsEntry := mkEntry file 420 0 0 9 5 7 version l no_provenance.
Definition with_parts (sequences : VersionClock) (entries : NamespaceEntries) (garbage : list GarbageRef) (batches : list TombstoneBatch)
    : MetadataSnapshot :=
  mkSnapshot [id x01] 2 4096 1 [id x01] (object x09) true sequences None no_dot None None entries garbage batches [] [] [] [] [].
(** One file grows, one is removed, one is new; a tombstone and a batch come,
    others go. *)
Definition before : MetadataSnapshot :=
  with_parts [(id x01, 3)]
    [([x2f], dir); ([x2f; x61], growing [extent 0 x01] 1); ([x2f; x62], growing [] 1)]
    [mkGarbage (object x05) 6 (id x01); mkGarbage (object x03) 6 (id x01)] [mkBatch (object x06) 6 12].
Definition after : MetadataSnapshot :=
  with_parts [(id x01, 4); (id x02, 1)]
    [([x2f], dir); ([x2f; x61], growing [extent 0 x01; extent 9 x02] 2); ([x2f; x63], growing [] 1)]
    [mkGarbage (object x03) 6 (id x01); mkGarbage (object x04) 7 (id x01)] [mkBatch (object x07) 6 12].

Lemma normal_name b : component [b] -> normal [x2f; b].
Proof. intros Hb. exists [[b]]. split; [by constructor | done]. Qed.

Lemma normal_letter b : b <> x2f -> b <> x2e -> normal [x2f; b].
Proof.
  intros H1 H2. apply normal_name. unfold component, slash, dot1, dot2.
  split_and!; [done | by intros ?%list_elem_of_singleton | congruence | done].
Qed.

Lemma goes_on : successor before after.
Proof.
  split; try (split; first [done | repeat constructor]); try done.
  all: try (apply normal_root || (by apply normal_letter) || by exists dir).
  intros b b' Hb Hb' E. apply list_elem_of_singleton in Hb, Hb'. rewrite Hb, Hb' in E. vm_compute in E. discriminate E.
Qed.
Lemma can_be_told : expressible before after.
Proof.
  split; try (vm_compute; reflexivity); try (by left); try done. split; [|vm_compute; reflexivity].
  apply (bool_decide_unpack _). vm_compute. exact I.
Qed.
End DeltaSample.

