(* ===== verification/MetadataDeltaCodec.v ===== *)
(** * Deltas on the wire

    [encode_metadata_delta] and [decode_metadata_delta] of
    [src/src/metadata/metadata.cpp] in their seven formats (DLT5 to DLT11),
    and that what is encoded decodes to itself. A format is chosen by what
    the delta edits; the later ones add a section each. *)

From S2P Require Import Prelude Sorts Maps Orders Codec TorrentRequest Journal Paths Metadata MetadataCodec MetadataRoundtrip MetadataDelta.

(** ** The format of a delta *)

Definition present {A} (o : option A) : bool := match o with Some _ => true | None => false end.
Definition nonempty {A} (l : list A) : bool := match l with [] => false | _ => true end.

Definition delta_v11 (d : MetadataDelta) : bool := nonempty (md_add_tombstone_batches d) || nonempty (md_drop_tombstone_batches d).
Definition delta_v10 (d : MetadataDelta) : bool :=
  delta_v11 d || present (md_set_legacy_clock d) || present (md_set_catalogue_dot d) ||
  existsb (fun e => is_dot (ea_content e.2)) (md_append_entries d).
Definition delta_v9 (d : MetadataDelta) : bool :=
  delta_v10 d || nonempty (md_upsert_torrent_requests d) || nonempty (md_erase_torrent_requests d).
Definition delta_v8 (d : MetadataDelta) : bool := delta_v9 d || nonempty (md_append_entries d).
Definition delta_v7 (d : MetadataDelta) : bool :=
  delta_v8 d || md_canonical_garbage d || negb (Bool.eqb (present (md_replace_merge_parents d)) (present (md_replace_conflicts d))).
Definition delta_v6 (d : MetadataDelta) : bool :=
  negb (delta_v7 d) && (present (md_replace_merge_parents d) || present (md_replace_conflicts d)).

Definition magic_v5 : Bytes := str "DHTMDLT5".
Definition magic_v6 : Bytes := str "DHTMDLT6".
Definition magic_v7 : Bytes := str "DHTMDLT7".
Definition magic_v8 : Bytes := str "DHTMDLT8".
Definition magic_v9 : Bytes := str "DHTMDLT9".
Definition magic_v10 : Bytes := str "DHTMDLTA".
Definition magic_v11 : Bytes := str "DHTMDLTB".
Definition delta_magic (d : MetadataDelta) : Bytes :=
  if delta_v11 d then magic_v11 else if delta_v10 d then magic_v10 else if delta_v9 d then magic_v9
  else if delta_v8 d then magic_v8 else if delta_v7 d then magic_v7 else if delta_v6 d then magic_v6 else magic_v5.

(** ** Encoding *)

Definition catalogue_code (c : CatalogueDelta) : Z := match c with unchanged => 0 | clear => 1 | set => 2 end.

Definition write_upsert (e : Bytes * FsEntry) : Writer.prog := Writer.string e.1 ;;; write_entry e.2.
Definition write_catalogue (c : CatalogueDelta) (root : option ObjectId) : Writer.prog :=
  Writer.u8 (catalogue_code c) ;;;
  match c, root with
  | set, None => write_throw (RuntimeError "metadata delta missing catalogue root")
  | set, Some r => Writer.fixed r
  | _, _ => Writer.skip
  end.
Definition delta_flags (d : MetadataDelta) : Z :=
  Z.lor (if present (md_replace_merge_parents d) then 1 else 0)
    (Z.lor (if present (md_replace_conflicts d) then 2 else 0) (if md_canonical_garbage d then 4 else 0)).

Definition write_parents (parents : list Hash256) : Writer.prog :=
  if 64 <? Z.of_nat (length parents) then write_throw (RuntimeError "too many metadata delta merge parents")
  else write_count parents ;;; Writer.each Writer.fixed parents.
Definition write_conflicts (conflicts : Conflicts) : Writer.prog :=
  if 1000000 <? Z.of_nat (length conflicts) then write_throw (RuntimeError "too many metadata delta conflicts")
  else write_count conflicts ;;; Writer.each write_conflict conflicts.

Definition write_append (v10 : bool) (upserts : NamespaceEntries) (e : Bytes * EntryAppend) : Writer.prog :=
  let '(path, a) := e in
  if match alookup path upserts with Some _ => true | None => false end
  then write_throw (InvalidArgument "metadata delta appends and upserts the same path")
  else
    Writer.string path ;;; Writer.u64 (ea_size a) ;;; Writer.i64 (ea_mtime_ns a) ;;; Writer.i64 (ea_ctime_ns a) ;;;
    Writer.u64 (ea_version a) ;;; Writer.u32 (ea_base_extents a) ;;;
    write_count (ea_extents a) ;;; Writer.each write_extent (ea_extents a) ;;;
    (if v10 then encode_dot (ea_content a) else Writer.skip).

Definition write_request (e : Bytes * TorrentRequest) : Writer.prog :=
  if negb (bool_decide (e.1 = tr_id e.2)) then write_throw (InvalidArgument "torrent request keyed by another id")
  else encode_torrent_request e.2.

Definition write_delta_entries (d : MetadataDelta) : Writer.prog :=
  write_count (md_mutation_sequences d) ;;; Writer.each write_clock_entry (md_mutation_sequences d) ;;;
  write_count (md_erase_entries d) ;;; Writer.each Writer.string (md_erase_entries d) ;;;
  write_count (md_upsert_entries d) ;;; Writer.each write_upsert (md_upsert_entries d).
Definition write_delta_records (d : MetadataDelta) : Writer.prog :=
  write_count (md_erase_garbage d) ;;; Writer.each Writer.fixed (md_erase_garbage d) ;;;
  write_count (md_upsert_garbage d) ;;; Writer.each write_garbage (md_upsert_garbage d) ;;;
  write_count (md_upsert_node_status d) ;;; Writer.each write_status (md_upsert_node_status d) ;;;
  write_count (md_upsert_identity_resets d) ;;; Writer.each write_reset (md_upsert_identity_resets d).
Definition write_delta_topology (d : MetadataDelta) : Writer.prog :=
  (if delta_v7 d then Writer.u8 (delta_flags d) else Writer.skip) ;;;
  (if delta_v6 d && (negb (present (md_replace_merge_parents d)) || negb (present (md_replace_conflicts d)))
   then write_throw (InvalidArgument "DLT6 metadata delta must replace both merge parents and conflicts") else Writer.skip) ;;;
  match md_replace_merge_parents d with Some parents => write_parents parents | None => Writer.skip end ;;;
  match md_replace_conflicts d with Some conflicts => write_conflicts conflicts | None => Writer.skip end.
Definition write_delta_appends (d : MetadataDelta) : Writer.prog :=
  if delta_v8 d then
    write_count (md_append_entries d) ;;; Writer.each (write_append (delta_v10 d) (md_upsert_entries d)) (md_append_entries d)
  else Writer.skip.
Definition write_delta_requests (d : MetadataDelta) : Writer.prog :=
  if delta_v9 d then
    write_count (md_upsert_torrent_requests d) ;;; Writer.each write_request (md_upsert_torrent_requests d) ;;;
    write_count (md_erase_torrent_requests d) ;;; Writer.each Writer.string (md_erase_torrent_requests d)
  else Writer.skip.
Definition write_delta_clock (d : MetadataDelta) : Writer.prog :=
  if delta_v10 d then
    write_option encode_clock (md_set_legacy_clock d) ;;; write_option encode_dot (md_set_catalogue_dot d)
  else Writer.skip.
Definition write_delta_batches (d : MetadataDelta) : Writer.prog :=
  if delta_v11 d then
    write_count (md_add_tombstone_batches d) ;;; Writer.each write_batch (md_add_tombstone_batches d) ;;;
    write_count (md_drop_tombstone_batches d) ;;; Writer.each Writer.fixed (md_drop_tombstone_batches d)
  else Writer.skip.

Definition encode_metadata_delta (d : MetadataDelta) : result Bytes :=
  if nonempty (md_pending_tombstones d) then Throw (LogicError "metadata delta still holds pending tombstones")
  else Writer.run (
    Writer.raw (delta_magic d) ;;; write_delta_entries d ;;; write_catalogue (md_catalogue d) (md_catalogue_root d) ;;;
    write_delta_records d ;;; write_delta_topology d ;;; write_delta_appends d ;;; write_delta_requests d ;;;
    write_delta_clock d ;;; write_delta_batches d).

(** ** Decoding *)

(** [std::is_sorted] and no two adjacent the same. *)
Fixpoint paths_canonical (paths : list Bytes) : bool :=
  match paths with
  | a :: ((b :: _) as rest) => key_ltb a b && paths_canonical rest
  | _ => true
  end.

Definition read_path : Reader.prog Bytes := p ← Reader.string max_string; mret (normalize_path p).
Definition read_upsert (entries : NamespaceEntries) : Reader.prog NamespaceEntries :=
  path ← read_path; e ← read_entry; read_into "duplicate metadata delta path" path e entries.
Definition read_catalogue : Reader.prog (CatalogueDelta * option ObjectId) :=
  c ← Reader.u8;
  if 2 <? c then bad "bad metadata catalogue delta"
  else if c =? 2 then id ← Reader.fixed 32; mret (set, Some id)
  else mret (if c =? 1 then clear else unchanged, None).
Definition read_erased_id (ids : list ObjectId) : Reader.prog (list ObjectId) :=
  id ← Reader.fixed 32;
  if bool_decide (id ∈ ids) then bad "duplicate metadata delta garbage erase" else mret (ids ++ [id]).
Definition read_garbage_upsert (l : list GarbageRef) : Reader.prog (list GarbageRef) :=
  id ← Reader.fixed 32; retired ← Reader.i64; retirement ← Reader.fixed 16;
  if (retired <? 0) || bool_decide (id ∈ gr_id <$> l) then bad "bad metadata delta garbage upsert"
  else mret (l ++ [mkGarbage id retired retirement]).
Definition read_append (v10 : bool) (upserts : NamespaceEntries) (appends : list (Bytes * EntryAppend))
    : Reader.prog (list (Bytes * EntryAppend)) :=
  path ← read_path; size ← Reader.u64; mtime ← Reader.i64; ctime ← Reader.i64; version ← Reader.u64; base ← Reader.u32;
  n ← read_count 10000000 "too many appended extents";
  extents ← Reader.times n read_extent;
  content ← (if v10 then decode_dot else mret no_dot);
  match alookup path upserts with
  | Some _ => bad "duplicate metadata delta append path"
  | None => read_into "duplicate metadata delta append path" path (mkAppend size mtime ctime version base extents content) appends
  end.
Definition read_request_erase (upserts : Requests) (ids : list Bytes) : Reader.prog (list Bytes) :=
  id ← Reader.string max_torrent_request_text;
  match alookup id upserts with Some _ => bad "torrent request both written and erased" | None => mret (ids ++ [id]) end.
(** A flag byte of 0 or 1, then the value. *)
Definition read_optional {A} (what : string) (p : Reader.prog A) : Reader.prog (option A) :=
  f ← Reader.u8; if 1 <? f then bad what else if negb (f =? 0) then a ← p; mret (Some a) else mret None.
Definition read_dropped_id (ids : list ObjectId) : Reader.prog (list ObjectId) :=
  id ← Reader.fixed 32;
  if match last ids with Some b => negb (key_ltb b id) | None => false end then bad "dropped tombstone batches out of order"
  else mret (ids ++ [id]).

Section decode.
Context `{Sha256}.

Definition decode_delta_topology (v6 v7 : bool) : Reader.prog (option (list Hash256) * option Conflicts * bool) :=
  flags ← (if v7 then
      f ← Reader.u8;
      if negb (Z.land f (255 - 7) =? 0) then bad "bad metadata delta flags"
      else mret (negb (Z.land f 1 =? 0), negb (Z.land f 2 =? 0), negb (Z.land f 4 =? 0))
    else mret (v6, v6, false));
  let '(read_parents, read_conflicts, canonical) := flags in
  parents ← (if read_parents : bool then
      n ← read_count 64 "too many metadata delta merge parents"; l ← Reader.times n (Reader.fixed 32); mret (Some l)
    else mret None);
  conflicts ← (if read_conflicts : bool then
      n ← read_count 1000000 "too many metadata delta conflicts";
      l ← read_loop n (read_conflict (Reader.string max_string) "bad metadata delta conflict") []; mret (Some l)
    else mret None);
  mret (parents, conflicts, canonical).

Definition decode_delta_requests : Reader.prog (Requests * list Bytes) :=
  n ← read_count max_torrent_requests "too many torrent requests in delta";
  upserts ← read_loop n (read_request "bad torrent request key in delta" "duplicate torrent request in delta") [];
  n ← read_count max_torrent_requests "too many torrent request erasures in delta";
  erased ← read_loop n (read_request_erase upserts) [];
  mret (upserts, erased).

Definition decode_delta_batches : Reader.prog (list TombstoneBatch * list ObjectId) :=
  adds ← Reader.u32; remaining ← read_remaining;
  if remaining / 44 <? adds then bad "too many tombstone batches in delta"
  else
    added ← read_loop (Z.to_nat adds) (read_batch "bad tombstone batch in delta") [];
    drops ← Reader.u32; remaining ← read_remaining;
    if remaining / 32 <? drops then bad "too many dropped tombstone batches in delta"
    else dropped ← read_loop (Z.to_nat drops) read_dropped_id []; mret (added, dropped).

Definition decode_delta_body (v6 v7 v8 v9 v10 v11 : bool) : Reader.prog MetadataDelta :=
  n ← read_count 65536 "too many metadata delta sequences";
  sequences ← read_loop n (read_clock_entry "bad metadata delta sequence") [];
  n ← read_count 5000000 "too many metadata delta erases";
  erases ← Reader.times n read_path;
  if negb (paths_canonical erases) then bad "metadata delta erases not canonical"
  else
  n ← read_count 5000000 "too many metadata delta upserts";
  upserts ← read_loop n read_upsert [];
  catalogue ← read_catalogue;
  n ← read_count 10000000 "too many metadata delta garbage erases";
  erased ← read_loop n read_erased_id [];
  n ← read_count 10000000 "too many metadata delta garbage upserts";
  garbage ← read_loop n read_garbage_upsert [];
  n ← read_count 65536 "too many metadata delta node status records";
  statuses ← read_loop n (read_status "duplicate metadata delta node status") [];
  n ← read_count 65536 "too many metadata delta identity resets";
  resets ← read_loop n (read_reset "bad metadata delta identity reset key") [];
  topology ← decode_delta_topology v6 v7;
  appends ← (if v8 then
      n ← read_count 5000000 "too many metadata delta appends"; read_loop n (read_append v10 upserts) []
    else mret []);
  requests ← (if v9 then decode_delta_requests else mret ([], []));
  clocks ← (if v10 then
      c ← read_optional "bad metadata delta legacy clock flag" decode_clock;
      dot ← read_optional "bad metadata delta catalogue dot flag" decode_dot; mret (c, dot)
    else mret (None, None));
  batches ← (if v11 then decode_delta_batches else mret ([], []));
  mret (mkDelta sequences upserts erases erased garbage statuses resets requests.1 requests.2 topology.1.1 topology.1.2
    topology.2 appends catalogue.1 catalogue.2 clocks.1 clocks.2 batches.1 batches.2 []).

(** The sections the magic announces. *)
Definition decode_delta_format (got : Bytes) : Reader.prog MetadataDelta :=
  let v5 := bool_decide (got = magic_v5) in
  let v11 := bool_decide (got = magic_v11) in
  let v10 := v11 || bool_decide (got = magic_v10) in
  let v9 := v10 || bool_decide (got = magic_v9) in
  let v8 := v9 || bool_decide (got = magic_v8) in
  let v7 := v8 || bool_decide (got = magic_v7) in
  let v6 := v7 || bool_decide (got = magic_v6) in
  if negb v5 && negb v6 then bad "bad metadata delta" else decode_delta_body v6 v7 v8 v9 v10 v11.

Definition decode_metadata_delta (data : Bytes) : result MetadataDelta :=
  Reader.run (got ← Reader.raw 8; d ← decode_delta_format got; _ ← Reader.finish; mret d) data.
End decode.

(** ** Versions *)

Definition delta_prefix : Bytes := str "DHTMDLT".
(** 0 for what is no delta. *)
Definition metadata_delta_version (data : Bytes) : Z :=
  if (length data <? 8)%nat || negb (bool_decide (take 7 data = delta_prefix)) then 0
  else
    let c := b2z (nth 7 data x00) in
    if c =? 65 then 10 else if c =? 66 then 11 else if (c <? 49) || (57 <? c) then 0 else c - 48.

Definition encode_snapshot_for_delta (delta : Bytes) (s : MetadataSnapshot) : result Bytes :=
  if metadata_delta_version delta <? 5 then Throw (DecodeError "bad metadata delta") else encode_snapshot_v14 s.

(** ** Deltas travel unchanged *)

Lemma carries_ext {A} w (p q : Reader.prog A) x : (forall r, q r = p r) -> carries w p x -> carries w q x.
Proof. intros Hq (e & Hw & Hr). exists e. split; [done|]. intros pre post. rewrite Hq. apply Hr. Qed.

(** A vector read element by element. *)
Lemma carries_each {A} (w : A -> Writer.prog) body (ok : A -> Prop) l :
  (forall m a, ok a -> carries (w a) (body m) (m ++ [a])) -> Forall ok l ->
  carries (Writer.each w l) (read_loop (length l) body []) l.
Proof.
  intros Hb Hok. rewrite <- (foldl_snoc l [] : _ = l) at 3.
  apply (carries_loop w body (fun m a => m ++ [a]) (fun m l => Forall ok l)); [|done].
  intros m a l' [Ha Hl']%Forall_cons. split; [by apply Hb | done].
Qed.

Definition path_ok (p : Bytes) : Prop := normal p /\ string_ok max_string p.
Lemma carries_path p : path_ok p -> carries (Writer.string p) read_path p.
Proof.
  intros [Hn []]. eapply carries_then; [by apply carries_string|]. apply normalize_fixed in Hn. rewrite Hn. apply reads_ret.
Qed.

Definition upsert_ok (e : Bytes * FsEntry) : Prop := path_ok e.1 /\ entry_ok e.2.
Lemma carries_upsert m e : upsert_ok e -> alookup e.1 m = None -> carries (write_upsert e) (read_upsert m) (map_set e.1 e.2 m).
Proof.
  intros [Hp He] En. unfold write_upsert, read_upsert. eapply carries_bind; [by apply carries_path|].
  eapply carries_then; [by apply carries_entry | by apply reads_into].
Qed.

Definition catalogue_ok (c : CatalogueDelta) (root : option ObjectId) : Prop :=
  match c with set => root <> None | _ => root = None end.
Lemma carries_catalogue c root : catalogue_ok c root -> carries (write_catalogue c root) read_catalogue (c, root).
Proof.
  intros Hc. unfold write_catalogue, read_catalogue. eapply carries_bind; [apply carries_u8; by destruct c|].
  destruct c; cbn in Hc |- *; [rewrite Hc; apply carries_skip.. |]. destruct root as [r|]; [|done].
  eapply carries_then; [apply carries_fixed | apply reads_ret].
Qed.

Lemma carries_erased_ids l : NoDup l -> carries (Writer.each Writer.fixed l) (read_loop (length l) read_erased_id []) l.
Proof.
  intros Hn. apply (carries_fresh (fun id => id) _ _ (fun _ => True)); [|by rewrite list_fmap_id | by apply Forall_true].
  intros m a _ Ha. rewrite list_fmap_id in Ha. unfold read_erased_id. eapply carries_then; [apply carries_fixed|].
  rewrite bool_decide_false by done. apply reads_ret.
Qed.

Lemma carries_garbage_upserts l :
  NoDup (gr_id <$> l) -> Forall garbage_ok l -> carries (Writer.each write_garbage l) (read_loop (length l) read_garbage_upsert []) l.
Proof.
  intros Hn Hok. apply (carries_fresh gr_id _ _ garbage_ok); [|done|done].
  intros m [id retired retirement] Hg Ha. unfold garbage_ok in Hg. cbn [gr_id gr_retired_at_ns] in *.
  unfold write_garbage, read_garbage_upsert. cbn [gr_id gr_retired_at_ns gr_retirement_id].
  eapply carries_bind; [apply carries_fixed|]. eapply carries_bind; [apply carries_i64; lia|].
  eapply carries_then; [apply carries_fixed|]. destruct (Z.ltb_spec retired 0); [lia|]. rewrite bool_decide_false by done.
  apply reads_ret.
Qed.

Definition append_ok (v10 : bool) (upserts : NamespaceEntries) (e : Bytes * EntryAppend) : Prop :=
  path_ok e.1 /\ alookup e.1 upserts = None /\ u64_ok (ea_size e.2) /\ i64_ok (ea_mtime_ns e.2) /\ i64_ok (ea_ctime_ns e.2) /\
  u64_ok (ea_version e.2) /\ u32_ok (ea_base_extents e.2) /\
  Z.of_nat (length (ea_extents e.2)) <= 10000000 /\ Forall extent_ok (ea_extents e.2) /\
  dot_ok (ea_content e.2) /\ (v10 = false -> ea_content e.2 = no_dot).
Lemma carries_append v10 upserts m e :
  append_ok v10 upserts e -> alookup e.1 m = None ->
  carries (write_append v10 upserts e) (read_append v10 upserts m) (map_set e.1 e.2 m).
Proof.
  destruct e as [p a]. cbn [fst snd]. intros (Hp & Hu & H1 & H2 & H3 & H4 & H5 & H6 & H7 & H8 & H9) En. cbn [fst snd] in *.
  unfold write_append, read_append. rewrite Hu. eapply carries_bind; [by apply carries_path|].
  eapply carries_bind; [by apply carries_u64|]. eapply carries_bind; [by apply carries_i64|].
  eapply carries_bind; [by apply carries_i64|]. eapply carries_bind; [by apply carries_u64|].
  eapply carries_bind; [by apply carries_u32|]. eapply carries_bind; [apply carries_count; lia|].
  eapply carries_bind; [by apply carries_times; eapply Forall_impl; [exact H7|]; apply carries_extent|].
  eapply (carries_then _ _ _ (ea_content a)).
  - destruct v10; [by apply carries_dot|]. rewrite H9 by done. apply carries_skip.
  - rewrite Hu. replace (mkAppend _ _ _ _ _ _ _) with a by (by destruct a). by apply reads_into.
Qed.

Lemma carries_requests_delta (upserts : Requests) (erased : list Bytes) :
  requests_ok upserts -> Z.of_nat (length erased) <= max_torrent_requests ->
  Forall (fun id => text_ok id /\ alookup id upserts = None) erased ->
  carries (write_count upserts ;;; Writer.each write_request upserts ;;; write_count erased ;;; Writer.each Writer.string erased)
    decode_delta_requests (upserts, erased).
Proof.
  intros (Hs & Hn & Hok) Hl He. unfold decode_delta_requests. eapply carries_bind; [apply carries_count; unfold max_torrent_requests in *; lia|].
  eapply carries_bind.
  { eapply carries_entries; [|exact Hs | exact Hok]. intros m e (Hr & Hk & Hne) En. unfold write_request, read_request.
    rewrite bool_decide_true by done. cbn [negb]. eapply carries_then; [by apply carries_request|].
    rewrite <- Hk, bool_decide_false by done. by apply reads_into. }
  eapply carries_bind; [apply carries_count; unfold max_torrent_requests in *; lia|].
  eapply carries_then; [|apply reads_ret]. eapply carries_each; [|exact He]. intros m id [Ht Hu]. unfold read_request_erase.
  eapply carries_then; [apply carries_string; [exact Ht|]; unfold text_ok, max_torrent_request_text, u32_max in *; lia|].
  rewrite Hu. apply reads_ret.
Qed.

Lemma carries_sized {A} (w : A -> Writer.prog) (n : Z) (p : Reader.prog (list A)) what l :
  0 < n -> (forall a, exists e, writes (w a) e /\ Z.of_nat (length e) = n) -> carries (Writer.each w l) p l ->
  carries (Writer.each w l) (remaining ← read_remaining; if remaining / n <? Z.of_nat (length l) then bad what else p) l.
Proof.
  intros Hn Hw Hp. apply (carries_remaining _ _ (n * Z.of_nat (length l))); [by apply each_size|]. intros remaining Hr.
  pose proof (Z.div_le_lower_bound remaining n (Z.of_nat (length l)) Hn Hr).
  by destruct (Z.ltb_spec (remaining / n) (Z.of_nat (length l))); [lia|].
Qed.

Lemma carries_batches_delta adds drops :
  batches_ok adds -> Z.of_nat (length adds) < 2 ^ 32 -> sorted_keys drops -> Z.of_nat (length drops) < 2 ^ 32 ->
  carries (write_count adds ;;; Writer.each write_batch adds ;;; write_count drops ;;; Writer.each Writer.fixed drops)
    decode_delta_batches (adds, drops).
Proof.
  intros Ha Hal Hd Hdl. unfold decode_delta_batches. eapply carries_bind; [apply carries_u32; lia|].
  apply (carries_ext _ (added ← (remaining ← read_remaining;
      if remaining / 44 <? Z.of_nat (length adds) then bad "too many tombstone batches in delta"
      else read_loop (Z.to_nat (Z.of_nat (length adds))) (read_batch "bad tombstone batch in delta") []);
    drops ← Reader.u32; dropped ← (remaining ← read_remaining;
      if remaining / 32 <? drops then bad "too many dropped tombstone batches in delta"
      else read_loop (Z.to_nat drops) read_dropped_id []); mret (added, dropped))).
  { intros r. unfold mbind, Reader.prog_bind. destruct (read_remaining r) as [[rem r1]|]; [|done].
    destruct (_ <? _); [done|]. destruct (read_loop _ _ _ r1) as [[l r2]|]; [|done].
    destruct (Reader.u32 r2) as [[n r3]|]; [|done]. destruct (read_remaining r3) as [[rem' r4]|]; [|done].
    by destruct (_ <? _). }
  eapply carries_bind; [apply carries_sized; [lia | apply batch_size | rewrite Nat2Z.id; by apply carries_batches]|].
  eapply carries_bind; [apply carries_u32; lia|]. eapply carries_then; [|apply reads_ret].
  apply carries_sized; [lia | intros a; exact (fixed_size a) |]. rewrite Nat2Z.id.
  apply (carries_in_order _ _ key_lt (fun _ => True)); [|done|by apply Forall_true].
  intros m a _ Hlast. unfold read_dropped_id. eapply carries_then; [apply carries_fixed|].
  destruct (last m) as [b|]; [|apply reads_ret]. rewrite (Hlast b eq_refl). apply reads_ret.
Qed.

Lemma carries_optional_flag {A} (w : A -> Writer.prog) p what x :
  (forall a, x = Some a -> carries (w a) p a) -> carries (write_option w x) (read_optional what p) x.
Proof.
  intros Hp. unfold write_option, read_optional. eapply carries_bind; [apply carries_u8; by destruct x|].
  destruct x as [a|]; cbn; [|apply carries_skip]. eapply carries_then; [by apply Hp | apply reads_ret].
Qed.

Section roundtrip.
Context `{Sha256}.

(** What a delta satisfies when it is sent. *)
Record delta_ok (d : MetadataDelta) : Prop := {
  do_sequences : clock_wf (md_mutation_sequences d);
  do_erases : sorted_keys (md_erase_entries d) /\ Z.of_nat (length (md_erase_entries d)) <= 5000000 /\ Forall path_ok (md_erase_entries d);
  do_upserts : sorted_recs (md_upsert_entries d) /\ Z.of_nat (length (md_upsert_entries d)) <= 5000000 /\
    Forall upsert_ok (md_upsert_entries d);
  do_catalogue : catalogue_ok (md_catalogue d) (md_catalogue_root d);
  do_erase_garbage : NoDup (md_erase_garbage d) /\ Z.of_nat (length (md_erase_garbage d)) <= 10000000;
  do_upsert_garbage : NoDup (gr_id <$> md_upsert_garbage d) /\ Z.of_nat (length (md_upsert_garbage d)) <= 10000000 /\
    Forall garbage_ok (md_upsert_garbage d);
  do_status : sorted_recs (md_upsert_node_status d) /\ Z.of_nat (length (md_upsert_node_status d)) <= 65536 /\
    Forall status_at_ok (md_upsert_node_status d);
  do_resets : sorted_recs (md_upsert_identity_resets d) /\ Z.of_nat (length (md_upsert_identity_resets d)) <= 65536 /\
    Forall reset_at_ok (md_upsert_identity_resets d);
  do_parents : forall l, md_replace_merge_parents d = Some l -> Z.of_nat (length l) <= 64;
  do_conflicts : forall l, md_replace_conflicts d = Some l ->
    sorted_recs l /\ Z.of_nat (length l) <= 1000000 /\ Forall conflict_at_ok l;
  do_appends : sorted_recs (md_append_entries d) /\ Z.of_nat (length (md_append_entries d)) <= 5000000 /\
    Forall (append_ok true (md_upsert_entries d)) (md_append_entries d) /\
    Forall (fun e => is_dot (ea_content e.2) = false -> ea_content e.2 = no_dot) (md_append_entries d);
  do_requests : requests_ok (md_upsert_torrent_requests d);
  do_request_erases : Z.of_nat (length (md_erase_torrent_requests d)) <= max_torrent_requests /\
    Forall (fun id => text_ok id /\ alookup id (md_upsert_torrent_requests d) = None) (md_erase_torrent_requests d);
  do_clock : forall c, md_set_legacy_clock d = Some c -> clock_wf c;
  do_dot : forall dot, md_set_catalogue_dot d = Some dot -> dot_ok dot;
  do_adds : batches_ok (md_add_tombstone_batches d) /\ Z.of_nat (length (md_add_tombstone_batches d)) < 2 ^ 32;
  do_drops : sorted_keys (md_drop_tombstone_batches d) /\ Z.of_nat (length (md_drop_tombstone_batches d)) < 2 ^ 32;
  do_pending : md_pending_tombstones d = []
}.

Lemma paths_sorted l : sorted_keys l -> paths_canonical l = true.
Proof.
  induction 1 as [|a l Hl IH Ha]; [done|]. cbn [paths_canonical]. destruct l as [|b l]; [done|].
  apply Forall_cons in Ha as [Ha _]. by rewrite IH, Ha.
Qed.

(** The formats nest: each has the sections of those before it. *)
Lemma formats_nest d :
  (delta_v11 d = true -> delta_v10 d = true) /\ (delta_v10 d = true -> delta_v9 d = true) /\
  (delta_v9 d = true -> delta_v8 d = true) /\ (delta_v8 d = true -> delta_v7 d = true) /\
  (delta_v6 d = true -> delta_v7 d = false).
Proof.
  unfold delta_v6, delta_v7, delta_v8, delta_v9, delta_v10.
  repeat split; intros E; rewrite ?E; try done. apply andb_true_iff in E as [E _]. by apply negb_true_iff in E.
Qed.

Lemma nonempty_false {A} (l : list A) : nonempty l = false -> l = [].
Proof. by destruct l. Qed.
Lemma present_false {A} (o : option A) : present o = false -> o = None.
Proof. by destruct o. Qed.

(** A section the format has not is empty. *)
Lemma sections_absent d :
  (delta_v11 d = false -> md_add_tombstone_batches d = [] /\ md_drop_tombstone_batches d = []) /\
  (delta_v10 d = false -> md_set_legacy_clock d = None /\ md_set_catalogue_dot d = None /\
     Forall (fun e => is_dot (ea_content e.2) = false) (md_append_entries d)) /\
  (delta_v9 d = false -> md_upsert_torrent_requests d = [] /\ md_erase_torrent_requests d = []) /\
  (delta_v8 d = false -> md_append_entries d = []) /\
  (delta_v7 d = false -> md_canonical_garbage d = false /\
     present (md_replace_merge_parents d) = delta_v6 d /\ present (md_replace_conflicts d) = delta_v6 d).
Proof.
  split_and!; intros E.
  - unfold delta_v11 in E. apply orb_false_iff in E as [E1 E2]. auto using nonempty_false.
  - unfold delta_v10 in E. rewrite !orb_false_iff in E. destruct E as [[[_ E1] E2] E3]. split_and!; [by apply present_false..|].
    apply Forall_forall. intros e He. destruct (is_dot (ea_content e.2)) eqn:Ed; [|done].
    rewrite <- not_true_iff_false, existsb_exists in E3. destruct E3. exists e. split; [by apply list_elem_of_In | done].
  - unfold delta_v9 in E. rewrite !orb_false_iff in E. destruct E as [[_ E1] E2]. split; by apply nonempty_false.
  - unfold delta_v8 in E. apply orb_false_iff in E as [_ E]. by apply nonempty_false.
  - assert (delta_v6 d = present (md_replace_merge_parents d) || present (md_replace_conflicts d)) as ->.
    { unfold delta_v6. by rewrite E. }
    unfold delta_v7 in E. rewrite !orb_false_iff in E. destruct E as [[_ Ec] Ep]. apply negb_false_iff, Bool.eqb_prop in Ep.
    rewrite Ep. by destruct (present (md_replace_conflicts d)).
Qed.

Lemma carries_skips {A} w (p : Reader.prog A) x : carries w p x -> carries (Writer.skip ;;; w) p x.
Proof. intros (e & Hw & Hr). exists e. split; [|done]. by apply (writes_seq _ _ [] e); [apply writes_skip|]. Qed.

Lemma carries_topology d :
  delta_ok d ->
  carries (write_delta_topology d) (decode_delta_topology (delta_v7 d || delta_v6 d) (delta_v7 d))
    (md_replace_merge_parents d, md_replace_conflicts d, md_canonical_garbage d).
Proof.
  intros Hok. destruct (sections_absent d) as (_ & _ & _ & _ & Hsec). unfold write_delta_topology, decode_delta_topology.
  eapply (carries_bind _ _ _ _ (present (md_replace_merge_parents d), present (md_replace_conflicts d), md_canonical_garbage d)).
  { destruct (delta_v7 d) eqn:E7.
    - eapply carries_then; [apply carries_u8; unfold delta_flags; by destruct (present _), (present _), (md_canonical_garbage d)|].
      unfold delta_flags. destruct (present _), (present _), (md_canonical_garbage d); apply reads_ret.
    - destruct (Hsec eq_refl) as (-> & -> & ->). apply carries_skip. }
  cbv beta iota zeta.
  assert (delta_v6 d && (negb (present (md_replace_merge_parents d)) || negb (present (md_replace_conflicts d))) = false) as ->.
  { destruct (delta_v6 d) eqn:E6; [|done]. destruct (formats_nest d) as (_ & _ & _ & _ & E7). specialize (E7 E6).
    destruct (Hsec E7) as (_ & -> & ->). done. }
  apply carries_skips. eapply carries_bind.
  { instantiate (1 := md_replace_merge_parents d). destruct (md_replace_merge_parents d) as [l|] eqn:El; [|apply carries_skip].
    pose proof (do_parents d Hok l El). unfold write_parents. destruct (Z.ltb_spec 64 (Z.of_nat (length l))); [lia|].
    cbn [present]. eapply carries_bind; [apply carries_count; lia|]. eapply carries_then; [apply carries_fixeds | apply reads_ret]. }
  eapply carries_then; [|apply reads_ret].
  destruct (md_replace_conflicts d) as [l|] eqn:El; [|apply carries_skip].
  destruct (do_conflicts d Hok l El) as (Hs & Hl & Hc). unfold write_conflicts.
  destruct (Z.ltb_spec 1000000 (Z.of_nat (length l))); [lia|]. cbn [present].
  eapply carries_bind; [apply carries_count; lia|]. eapply carries_then; [|apply reads_ret].
  eapply carries_entries; [|exact Hs|exact Hc]. intros m e He En. apply carries_conflict_at; [|done|done].
  intros id Hid. apply carries_string; unfold u32_max, max_string; rewrite Hid; lia.
Qed.

Lemma delta_eta d :
  delta_ok d -> d = mkDelta (md_mutation_sequences d) (md_upsert_entries d) (md_erase_entries d) (md_erase_garbage d)
    (md_upsert_garbage d) (md_upsert_node_status d) (md_upsert_identity_resets d) (md_upsert_torrent_requests d)
    (md_erase_torrent_requests d) (md_replace_merge_parents d) (md_replace_conflicts d) (md_canonical_garbage d)
    (md_append_entries d) (md_catalogue d) (md_catalogue_root d) (md_set_legacy_clock d) (md_set_catalogue_dot d)
    (md_add_tombstone_batches d) (md_drop_tombstone_batches d) [].
Proof. intros Hok. rewrite <- (do_pending d Hok). by destruct d. Qed.

Lemma carries_delta_body d :
  delta_ok d ->
  carries (write_delta_entries d ;;; write_catalogue (md_catalogue d) (md_catalogue_root d) ;;;
    write_delta_records d ;;; write_delta_topology d ;;; write_delta_appends d ;;; write_delta_requests d ;;;
    write_delta_clock d ;;; write_delta_batches d)
    (decode_delta_body (delta_v7 d || delta_v6 d) (delta_v7 d) (delta_v8 d) (delta_v9 d) (delta_v10 d) (delta_v11 d)) d.
Proof.
  intros Hok. destruct (sections_absent d) as (S11 & S10 & S9 & S8 & _).
  eapply carries_eq; [|symmetry; by apply delta_eta]. unfold write_delta_entries, decode_delta_body.
  destruct (do_sequences d Hok) as (Hq1 & Hq2 & Hq3). apply carries_assoc; eapply carries_bind; [apply carries_count; lia|].
  apply carries_assoc; eapply carries_bind; [by apply carries_clock_entries|].
  destruct (do_erases d Hok) as (He1 & He2 & He3). apply carries_assoc; eapply carries_bind; [apply carries_count; lia|].
  apply carries_assoc; eapply carries_bind; [by apply carries_times; eapply Forall_impl; [exact He3|]; apply carries_path|].
  rewrite paths_sorted by done. cbn [negb].
  destruct (do_upserts d Hok) as (Hu1 & Hu2 & Hu3). apply carries_assoc; eapply carries_bind; [apply carries_count; lia|].
  eapply carries_bind; [eapply carries_entries; [|exact Hu1|exact Hu3]; intros; by apply carries_upsert|].
  eapply carries_bind; [apply carries_catalogue, (do_catalogue d Hok)|].
  unfold write_delta_records.
  destruct (do_erase_garbage d Hok) as (Hg1 & Hg2). apply carries_assoc; eapply carries_bind; [apply carries_count; lia|].
  apply carries_assoc; eapply carries_bind; [by apply carries_erased_ids|].
  destruct (do_upsert_garbage d Hok) as (Hg3 & Hg4 & Hg5). apply carries_assoc; eapply carries_bind; [apply carries_count; lia|].
  apply carries_assoc; eapply carries_bind; [by apply carries_garbage_upserts|].
  destruct (do_status d Hok) as (Hs1 & Hs2 & Hs3). apply carries_assoc; eapply carries_bind; [apply carries_count; lia|].
  apply carries_assoc; eapply carries_bind; [eapply carries_entries; [|exact Hs1|exact Hs3]; intros; by apply carries_status_at|].
  destruct (do_resets d Hok) as (Hr1 & Hr2 & Hr3). apply carries_assoc; eapply carries_bind; [apply carries_count; lia|].
  eapply carries_bind; [eapply carries_entries; [|exact Hr1|exact Hr3]; intros; by apply carries_reset_at|].
  eapply carries_bind; [by apply carries_topology|].
  eapply (carries_bind _ _ _ _ (md_append_entries d)).
  { unfold write_delta_appends. destruct (delta_v8 d); [|rewrite S8 by done; apply carries_skip].
    destruct (do_appends d Hok) as (Ha1 & Ha2 & Ha3 & Ha4). eapply carries_bind; [apply carries_count; lia|].
    apply (carries_entries _ _ (append_ok (delta_v10 d) (md_upsert_entries d))); [intros; by apply carries_append | done |].
    apply Forall_forall. intros e He. rewrite Forall_forall in Ha3. rewrite Forall_forall in Ha4.
    destruct (Ha3 e He) as (? & ? & ? & ? & ? & ? & ? & ? & ? & ? & _). unfold append_ok. split_and!; try done.
    intros E. apply Ha4; [done|]. destruct (S10 E) as (_ & _ & Hd). rewrite Forall_forall in Hd. by apply Hd. }
  eapply (carries_bind _ _ _ _ (md_upsert_torrent_requests d, md_erase_torrent_requests d)).
  { unfold write_delta_requests. destruct (delta_v9 d).
    - destruct (do_request_erases d Hok). apply carries_requests_delta; [by apply (do_requests d Hok) | done | done].
    - destruct S9 as [-> ->]; [done|]. apply carries_skip. }
  eapply (carries_bind _ _ _ _ (md_set_legacy_clock d, md_set_catalogue_dot d)).
  { unfold write_delta_clock. destruct (delta_v10 d).
    - eapply carries_bind; [apply carries_optional_flag; intros c Ec; by apply carries_clock, (do_clock d Hok)|].
      eapply carries_then; [|apply reads_ret]. apply carries_optional_flag. intros c Ec. by apply carries_dot, (do_dot d Hok).
    - destruct S10 as (-> & -> & _); [done|]. apply carries_skip. }
  eapply (carries_then _ _ _ (md_add_tombstone_batches d, md_drop_tombstone_batches d)); [|apply reads_ret].
  unfold write_delta_batches. destruct (delta_v11 d).
  - destruct (do_adds d Hok), (do_drops d Hok). by apply carries_batches_delta.
  - destruct S11 as [-> ->]; [done|]. apply carries_skip.
Qed.

(** The magic says which sections there are. *)
Lemma format_read d :
  decode_delta_format (delta_magic d) =
    decode_delta_body (delta_v7 d || delta_v6 d) (delta_v7 d) (delta_v8 d) (delta_v9 d) (delta_v10 d) (delta_v11 d).
Proof.
  destruct (formats_nest d) as (N11 & N10 & N9 & N8 & N6). unfold delta_magic.
  destruct (delta_v11 d); [rewrite N8, N9, N10, N11 by auto; done|].
  destruct (delta_v10 d); [rewrite N8, N9, N10 by auto; done|].
  destruct (delta_v9 d); [rewrite N8, N9 by auto; done|].
  destruct (delta_v8 d); [rewrite N8 by auto; done|].
  destruct (delta_v7 d); [done|]. by destruct (delta_v6 d).
Qed.

Definition delta_number (d : MetadataDelta) : Z :=
  if delta_v11 d then 11 else if delta_v10 d then 10 else if delta_v9 d then 9
  else if delta_v8 d then 8 else if delta_v7 d then 7 else if delta_v6 d then 6 else 5.
Lemma version_read d rest : metadata_delta_version (delta_magic d ++ rest) = delta_number d.
Proof.
  unfold delta_magic, delta_number.
  by destruct (delta_v11 d), (delta_v10 d), (delta_v9 d), (delta_v8 d), (delta_v7 d), (delta_v6 d).
Qed.

(** C24. A delta decodes to itself, in whichever of its seven formats it is
    encoded: the format is chosen by what the delta edits, every edit of
    every section is read back, and the version read off the bytes is the
    format's, which the snapshot of a successor is encoded for. *)
Theorem delta_roundtrip (d : MetadataDelta) :
  delta_ok d -> exists e, encode_metadata_delta d = Ok e /\ decode_metadata_delta e = Ok d /\
    metadata_delta_version e = delta_number d /\ forall s, encode_snapshot_for_delta e s = encode_snapshot_v14 s.
Proof.
  intros Hok. unfold encode_metadata_delta, decode_metadata_delta. rewrite (do_pending d Hok). cbn [nonempty].
  edestruct (carries_run_as (Writer.raw (delta_magic d) ;;; write_delta_entries d ;;; write_catalogue (md_catalogue d) (md_catalogue_root d) ;;;
    write_delta_records d ;;; write_delta_topology d ;;; write_delta_appends d ;;; write_delta_requests d ;;;
    write_delta_clock d ;;; write_delta_batches d) (got ← Reader.raw 8; decode_delta_format got)
    (got ← Reader.raw 8; d ← decode_delta_format got; _ ← Reader.finish; mret d) d) as (e & Ew & Er); [|bind_assoc|].
  { eapply carries_bind; [|rewrite format_read; by apply carries_delta_body].
    replace 8%nat with (length (delta_magic d)); [apply carries_raw|]. unfold delta_magic.
    by destruct (delta_v11 d), (delta_v10 d), (delta_v9 d), (delta_v8 d), (delta_v7 d), (delta_v6 d). }
  exists e. split; [done|]. split; [done|]. destruct (carries_delta_body d Hok) as (rest & Hrest & _).
  assert (e = delta_magic d ++ rest) as ->.
  { unfold Writer.run, Writer.seq at 1 in Ew. cbn [mbind result_bind Writer.raw app] in Ew. rewrite (Hrest (delta_magic d)) in Ew. by injection Ew. }
  unfold encode_snapshot_for_delta. rewrite version_read. split; [done|]. intros s. destruct (Z.ltb_spec (delta_number d) 5) as [Hlt|]; [|done].
  unfold delta_number in Hlt. destruct (delta_v11 d), (delta_v10 d), (delta_v9 d), (delta_v8 d), (delta_v7 d), (delta_v6 d); lia.
Qed.
End roundtrip.

(** A delta with every section. *)
Module WireSample.
#[local] Existing Instance Sample.sha.
Import HeadSample.
Definition append : EntryAppend := mkAppend 18 7 5 2 1 [mkExtent 9 9 (object x02) false] (mkDot (id x01) 4).
Definition delta : MetadataDelta :=
  mkDelta [(id x01, 4)] [([x2f; x63], entry x03)] [[x2f; x62]] [object x05] [mkGarbage (object x04) 7 (id x01)]
    [(id x01, status)] [(identity_reset_key [x68] 80, reset)] [([x61], request)] [[x62]] (Some [object x01])
    (Some [(conflict_id, conflict)]) true [([x2f; x61], append)] set (Some (object x08)) (Some [(id x02, 4)])
    (Some (mkDot (id x01) 2)) [mkBatch (object x07) 6 12] [object x06] [].

Lemma delta_keeps : delta_ok delta.
Proof.
  assert (forall b, b <> x2f -> b <> x2e -> path_ok [x2f; b]) as Hpath.
  { intros b H1 H2. split; [|unfold string_ok; split; vm_compute; congruence]. exists [[b]]. split; [|done].
    constructor; [|constructor]. unfold component, slash, dot1, dot2.
    split_and!; [done | by intros ?%list_elem_of_singleton | congruence | done]. }
  split.
  - unfold clock_wf, sorted_recs. bounds.
  - split_and!; [repeat constructor | vm_compute; congruence | by repeat constructor; apply Hpath].
  - split_and!; [repeat constructor | vm_compute; congruence |]. constructor; [|constructor]. split; [by apply Hpath | apply entry_keeps].
  - done.
  - split; [apply NoDup_singleton | vm_compute; congruence].
  - split_and!; [apply NoDup_singleton | vm_compute; congruence |]. unfold garbage_ok. bounds.
  - exact (so_status _ head_ok).
  - exact (so_resets _ head_ok).
  - intros l E. injection E as <-. vm_compute. congruence.
  - intros l E. injection E as <-. exact (so_conflicts _ head_ok).
  - split_and!; [repeat constructor | vm_compute; congruence | | by repeat constructor].
    constructor; [|constructor]. unfold append_ok, extent_ok, dot_ok, u64_ok, i64_ok, u32_ok. split; [by apply Hpath|].
    bounds. intros E. discriminate E.
  - exact (so_requests _ head_ok).
  - split; [vm_compute; congruence|]. constructor; [|constructor]. unfold text_ok. bounds.
  - intros c E. injection E as <-. exact (proj1 (so_legacy _ head_ok)).
  - intros dot E. injection E as <-. unfold dot_ok, u64_ok. bounds.
  - unfold batches_ok. bounds.
  - bounds.
  - done.
Qed.
End WireSample.

Lemma delta_roundtrip_witness :
  exists e, encode_metadata_delta WireSample.delta = Ok e /\ @decode_metadata_delta Sample.sha e = Ok WireSample.delta /\
    metadata_delta_version e = delta_number WireSample.delta /\ forall s, encode_snapshot_for_delta e s = encode_snapshot_v14 s.
Proof. apply delta_roundtrip. exact WireSample.delta_keeps. Defined.
