(* ===== verification/MetadataMerge.v ===== *)
(** * The merge of two heads

    [src/src/metadata/metadata_merge.cpp]: the merge of two heads from what
    they say, with no common ancestor. Each entry's provenance and each
    head's clock tell "removed there" from "never seen there" and "newer"
    from "concurrent". *)

From S2P Require Import Prelude Sorts Maps Orders Codec TorrentRequest Journal Paths Metadata MetadataCodec.

(** ** What a head has seen *)

Definition clock_covers_clock (clock other : VersionClock) : bool :=
  forallb (fun e => match alookup e.1 clock with Some seen => e.2 <=? seen | None => false end) other.

(** One head as the merge reads it. *)
Record Side : Type := mkSide {
  sd_snapshot : MetadataSnapshot; sd_entries : NamespaceEntries; sd_clock : VersionClock; sd_legacy : VersionClock
}.
Definition side (s : MetadataSnapshot) (e : NamespaceEntries) : Side :=
  mkSide s e (sn_mutation_sequences s) (default (sn_mutation_sequences s) (sn_legacy_clock s)).
Definition side_at (s : Side) (path : Bytes) : option FsEntry := alookup path (sd_entries s).

(** Whether [viewer] has incorporated a mutation of [owner]; one from before
    provenance is seen once the viewer has every mutation it could be. *)
Definition dot_seen (viewer owner : Side) (dot : MetadataDot) : bool :=
  if is_dot dot then clock_covers (sd_clock viewer) dot else clock_covers_clock (sd_clock viewer) (sd_legacy owner).
Definition content_seen (viewer owner : Side) (entry : FsEntry) : bool := dot_seen viewer owner (pv_content (fe_provenance entry)).
Definition name_seen (viewer owner : Side) (entry : FsEntry) : bool := dot_seen viewer owner (pv_name (fe_provenance entry)).

Definition without_provenance (e : FsEntry) : FsEntry := set_provenance no_provenance e.

Inductive Origin : Type := from_left | from_right | from_both.
#[global] Instance origin_eq_dec : EqDecision Origin.
Proof. solve_decision. Defined.

(** ** What the merge builds *)

Record MergeState : Type := mkMerge {
  mg_entries : NamespaceEntries; mg_conflicts : Conflicts; mg_created : nat; mg_keys : list Bytes
}.
Definition merge_conflict_keys_kept : nat := 16.
Definition put_entry (path : Bytes) (e : FsEntry) (m : MergeState) : MergeState :=
  mkMerge (map_set path e (mg_entries m)) (mg_conflicts m) (mg_created m) (mg_keys m).
Definition drop_entry (path : Bytes) (m : MergeState) : MergeState :=
  mkMerge (map_erase path (mg_entries m)) (mg_conflicts m) (mg_created m) (mg_keys m).

Section merge.
Context `{Sha256}.

(** A conflict under its id, once. *)
Definition add_conflict (key : Bytes) (c : MetadataConflict) (m : MergeState) : result MergeState :=
  id ← metadata_conflict_id c;
  mret match map_emplace id c (mg_conflicts m) with
       | None => m
       | Some conflicts =>
           mkMerge (mg_entries m) conflicts (S (mg_created m))
             (if (length (mg_keys m) <? merge_conflict_keys_kept)%nat then mg_keys m ++ [key] else mg_keys m)
       end.

(** No heads: the same pair of alternatives is the same conflict whichever
    merge finds it. *)
Definition entry_conflict (path : Bytes) (installed other : FsEntry) : MetadataConflict :=
  mkConflict namespace_entry true (pv_content (fe_provenance installed)) path (array_zero 32) (array_zero 32)
    None (Some installed) (Some other) None None None.
Definition record_conflict (path : Bytes) (installed other : FsEntry) (m : MergeState) : result MergeState :=
  add_conflict path (entry_conflict path installed other) m.

(** Whether [later_entry] is the first of the two. *)
Definition first_later (a b : FsEntry) : bool :=
  if negb (fe_mtime_ns a =? fe_mtime_ns b) then fe_mtime_ns b <? fe_mtime_ns a else negb (key_ltb a b).

(** Two values of what is one entry, [a] of [l] and [b] of [r]: the newer
    when one head has seen the other's, otherwise a concurrent change. *)
Definition settle (l r : Side) (path : Bytes) (a b : FsEntry) (one_file : bool) (m : MergeState) : result (FsEntry * MergeState) :=
  if bool_decide (without_provenance a = without_provenance b)
  then Ok (if key_ltb (fe_provenance a) (fe_provenance b) then b else a, m)
  else
    let left_seen := content_seen r l a && (one_file || name_seen r l a) in
    let right_seen := content_seen l r b && (one_file || name_seen l r b) in
    if left_seen && negb right_seen then Ok (b, m)
    else if right_seen && negb left_seen then Ok (a, m)
    else if same_content a b then Ok (if key_ltb a b then a else b, m)
    else
      m' ← record_conflict path (later_entry a b) (if first_later a b then b else a) m;
      mret (later_entry a b, m').

(** ** Paths *)

Definition removed_by (other owner : Side) (e : FsEntry) : bool :=
  if provenance_empty (fe_provenance e) then clock_covers_clock (sd_clock other) (sd_legacy owner)
  else name_seen other owner e && content_seen other owner e.

(** Where the entry at each path came from. *)
Definition Origins : Type := list (Bytes * Origin).

Definition merge_path (l r : Side) (acc : MergeState * Origins) (path : Bytes) : result (MergeState * Origins) :=
  let '(m, origin) := acc in
  match side_at l path, side_at r path with
  | Some a, Some b =>
      '(e, m') ← (if bool_decide (a = b) then Ok (a, m) else settle l r path a b false m);
      mret (put_entry path e m', map_set path from_both origin)
  | Some a, None => Ok (if removed_by r l a then (m, origin) else (put_entry path a m, map_set path from_left origin))
  | None, Some b => Ok (if removed_by l r b then (m, origin) else (put_entry path b m, map_set path from_right origin))
  | None, None => Ok (m, origin)
  end.

(** [std::set] of the paths of both. *)
Definition all_paths (l r : Side) : list Bytes := sort_unique ((sd_entries l).*1 ++ (sd_entries r).*1).

(** ** Identities *)

Definition by_identity (entries : NamespaceEntries) : list (NodeId * list Bytes) :=
  foldl (fun groups e =>
      let id := pv_file_id (fe_provenance e.2) in
      if bool_decide (id = array_zero 16) then groups
      else map_set id (default [] (alookup id groups) ++ [e.1]) groups) [] entries.

(** One file at two paths, one from each head: a rename on one side of an
    entry the other kept at its old path because it changed it. *)
Definition merge_identity (l r : Side) (origin : Origins) (m : MergeState) (group : NodeId * list Bytes) : result MergeState :=
  match group.2 with
  | [p; q] =>
      let op := default from_left (alookup p origin) in
      let oq := default from_left (alookup q origin) in
      if bool_decide (op = from_both) || bool_decide (oq = from_both) || bool_decide (op = oq) then Ok m
      else
        let x := if bool_decide (op = from_left) then p else q in
        let y := if bool_decide (op = from_left) then q else p in
        match alookup x (mg_entries m), alookup y (mg_entries m) with
        | Some a, Some b =>
            if negb (bool_decide (fe_type a = fe_type b)) then Ok m
            else
              let left_name_seen := name_seen r l a in
              let right_name_seen := name_seen l r b in
              let keep_left := if negb (Bool.eqb left_name_seen right_name_seen) then right_name_seen
                else key_ltb (pv_name (fe_provenance b)) (pv_name (fe_provenance a)) in
              let kept := if keep_left : bool then x else y in
              let dropped := if keep_left : bool then y else x in
              '(e, m') ← settle l r kept a b true m;
              let name := pv_name (fe_provenance (if keep_left : bool then a else b)) in
              mret (put_entry kept
                (set_provenance (mkProvenance (pv_file_id (fe_provenance e)) (pv_content (fe_provenance e)) name) e)
                (drop_entry dropped m'))
        | _, _ => Throw (OutOfRange "map::at")
        end
  | _ => Ok m
  end.

(** ** Directories *)

Definition is_directory (e : option FsEntry) : bool := match e with Some e => bool_decide (fe_type e = directory) | None => false end.

(** The recursion follows [parent_path] up to the root; [fuel] above the
    length of the path is enough. *)
Fixpoint ensure_directory (fuel : nat) (l r : Side) (path : Bytes) (m : MergeState) : result MergeState :=
  match fuel with
  | O => Throw OutOfFuel
  | S fuel =>
      let found := alookup path (mg_entries m) in
      if is_directory found then Ok m
      else
        m ← (if bool_decide (path = root_path) then Ok m else ensure_directory fuel l r (parent_path path) m);
        let a := side_at l path in
        let b := side_at r path in
        '(dir, m) ← match is_directory a, is_directory b, a, b with
                    | true, true, Some a, Some b => settle l r path a b false m
                    | true, _, Some a, _ => Ok (a, m)
                    | _, true, _, Some b => Ok (b, m)
                    | _, _, _, _ => Throw (RuntimeError "metadata reconciliation lost the directory")
                    end;
        m ← match found with Some e => record_conflict path dir e m | None => Ok m end;
        mret (put_entry path dir m)
  end.
Definition directory_of (l r : Side) (path : Bytes) (m : MergeState) : result MergeState :=
  ensure_directory (S (length (parent_path path))) l r (parent_path path) m.

Definition merge_parents_step (l r : Side) (m : MergeState) (path : Bytes) : result MergeState :=
  match alookup path (mg_entries m) with
  | Some _ => if bool_decide (path = root_path) then Ok m else directory_of l r path m
  | None => Ok m
  end.

Definition merge_namespaces (l r : Side) : result MergeState :=
  let paths := all_paths l r in
  '(m, origin) ← foldM (merge_path l r) (mkMerge [] [] 0 [], []) paths;
  m ← foldM (merge_identity l r origin) m (by_identity (mg_entries m));
  m ← foldM (merge_parents_step l r) m paths;
  if bool_decide (root_path ∈ paths) && negb (is_directory (alookup root_path (mg_entries m)))
  then Throw (RuntimeError "metadata reconciliation lost filesystem root")
  else Ok m.

(** ** The catalogue root *)

Definition catalogue_seen (viewer owner : Side) : bool := dot_seen viewer owner (sn_catalogue_dot (sd_snapshot owner)).

Definition catalogue_key : Bytes := str "catalogue_root".
Definition catalogue_conflict (take_left : bool) (l r : MetadataSnapshot) (left_head right_head : Hash256) : MetadataConflict :=
  mkConflict catalogue_root_kind true (if take_left then sn_catalogue_dot l else sn_catalogue_dot r) catalogue_key
    left_head right_head None None None None
    (if take_left then sn_catalogue_root l else sn_catalogue_root r)
    (if take_left then sn_catalogue_root r else sn_catalogue_root l).

Definition merge_catalogue (l r : Side) (left_head right_head : Hash256) (m : MergeState)
    : result (option ObjectId * MetadataDot * MergeState) :=
  let left := sd_snapshot l in
  let right := sd_snapshot r in
  let left_seen := catalogue_seen r l in
  let right_seen := catalogue_seen l r in
  if bool_decide (sn_catalogue_root left = sn_catalogue_root right) then
    Ok (sn_catalogue_root left,
        if negb (Bool.eqb left_seen right_seen) then if right_seen then sn_catalogue_dot left else sn_catalogue_dot right
        else key_max (sn_catalogue_dot left) (sn_catalogue_dot right), m)
  else
    '(take_left, m) ←
      (if negb (Bool.eqb left_seen right_seen) then Ok (right_seen, m)
       else
         let take_left := key_ltb (sn_catalogue_dot right) (sn_catalogue_dot left) ||
           (bool_decide (sn_catalogue_dot right = sn_catalogue_dot left) &&
            key_ltb (sn_catalogue_root right) (sn_catalogue_root left)) in
         m' ← add_conflict catalogue_key (catalogue_conflict take_left left right left_head right_head) m;
         mret (take_left, m'));
    mret (if take_left : bool then sn_catalogue_root left else sn_catalogue_root right,
          if take_left : bool then sn_catalogue_dot left else sn_catalogue_dot right, m).

(** ** Joins *)

(** [joined[node] = max(joined[node], sequence)] for each of [other]. *)
Definition join_clock (clock other : VersionClock) : VersionClock :=
  foldl (fun c e => map_set e.1 (Z.max (default 0 (alookup e.1 c)) e.2) c) clock other.

(** A record takes the place of the one held under its key when [newer]. *)
Definition join_records {K V} `{KeyOrder K, !EqDecision K} (newer : V -> V -> bool) (m other : list (K * V)) : list (K * V) :=
  foldl (fun m e =>
      match alookup e.1 m with
      | Some held => if newer held e.2 then map_set e.1 e.2 m else m
      | None => map_set e.1 e.2 m
      end) m other.

Definition garbage_newer (a b : GarbageRef) : bool :=
  key_ltb (gr_retired_at_ns a, gr_retirement_id a) (gr_retired_at_ns b, gr_retirement_id b).
Definition merge_garbage (left right : list GarbageRef) : list GarbageRef :=
  let keyed l := (fun g => (gr_id g, g)) <$> l in
  (join_records garbage_newer (join_records garbage_newer [] (keyed left)) (keyed right)).*2.

(** [std::set_union] of ranges sorted by [ltb]. *)
Fixpoint set_union {A} (ltb : A -> A -> bool) (l : list A) : list A -> list A :=
  fix inner (r : list A) : list A :=
    match l, r with
    | [], _ => r
    | _, [] => l
    | x :: l', y :: r' =>
        if ltb x y then x :: set_union ltb l' r
        else if ltb y x then y :: inner r'
        else x :: set_union ltb l' r'
    end.

Definition status_newer (a b : PersistedNodeStatus) : bool :=
  (ns_observed_unix_ms a <? ns_observed_unix_ms b) || ((ns_observed_unix_ms a =? ns_observed_unix_ms b) && key_ltb a b).
Definition reset_newer (a b : IdentityAssociationReset) : bool :=
  (rs_epoch a <? rs_epoch b) || ((rs_epoch a =? rs_epoch b) && key_ltb a b).

(** [emplace] of each. *)
Definition add_conflicts (m other : Conflicts) : Conflicts := foldl (fun m e => default m (map_emplace e.1 e.2 m)) m other.

(** ** Heads *)

Record MetadataMergeResult : Type := mkMergeResult {
  mm_snapshot : MetadataSnapshot; mm_conflicts_created : nat; mm_created_keys : list Bytes; mm_conflicts_superseded : nat
}.

(** The snapshot of the merge, before conflicts are pruned. *)
Definition merged_snapshot (left right : MetadataSnapshot) (root : option ObjectId) (dot : MetadataDot) (m : MergeState)
    : MetadataSnapshot :=
  let legacy s := default (sn_mutation_sequences s) (sn_legacy_clock s) in
  let baseline := sn_retention_baseline_complete left && sn_retention_baseline_complete right in
  mkSnapshot [] (Z.max (sn_data_replication left) (sn_data_replication right))
    (Z.max (sn_extent_size left) (sn_extent_size right))
    (Z.max (sn_write_replicas_required left) (sn_write_replicas_required right))
    (if baseline then [] else sort_unique (sn_participants left ++ sn_participants right))
    (array_zero 32) baseline
    (join_clock (sn_mutation_sequences left) (sn_mutation_sequences right))
    (match sn_legacy_clock left, sn_legacy_clock right with
     | None, None => None
     | _, _ => Some (join_clock (legacy left) (legacy right))
     end)
    dot root None (mg_entries m)
    (merge_garbage (sn_garbage left) (sn_garbage right))
    (set_union (by_key tb_id) (sn_tombstone_batches left) (sn_tombstone_batches right))
    (join_records status_newer (join_records status_newer [] (sn_node_status left)) (sn_node_status right))
    (join_records reset_newer (join_records reset_newer [] (sn_identity_resets left)) (sn_identity_resets right))
    [] (add_conflicts (add_conflicts (mg_conflicts m) (sn_conflicts left)) (sn_conflicts right))
    (merge_torrent_requests [] (sn_torrent_requests left) (sn_torrent_requests right)).

(** The merge once the heads are in order. *)
Definition merge_ordered (left right : MetadataSnapshot) (left_entries right_entries : NamespaceEntries)
    (left_head right_head : Hash256) : result MetadataMergeResult :=
  let l := side left left_entries in
  let r := side right right_entries in
  m ← merge_namespaces l r;
  '(root, dot, m) ← merge_catalogue l r left_head right_head m;
  let '(out, superseded) := prune_superseded_conflicts None (merged_snapshot left right root dot m) in
  Ok (mkMergeResult out (mg_created m) (mg_keys m) superseded).

Definition take_entries (entries : NamespaceEntries) (s : MetadataSnapshot) : MetadataSnapshot :=
  mkSnapshot (sn_metadata_voters s) (sn_data_replication s) (sn_extent_size s) (sn_write_replicas_required s)
    (sn_participants s) (sn_branch_floor s) (sn_retention_baseline_complete s) (sn_mutation_sequences s)
    (sn_legacy_clock s) (sn_catalogue_dot s) (sn_catalogue_root s) None entries (sn_garbage s)
    (sn_tombstone_batches s) (sn_node_status s) (sn_identity_resets s) (sn_merge_parents s) (sn_conflicts s)
    (sn_torrent_requests s).

(** One order for every reconciler: the lesser head is the left one. *)
Definition merge_metadata_heads_over (left right : MetadataSnapshot) (left_entries right_entries : NamespaceEntries)
    (left_head right_head : Hash256) : result MetadataMergeResult :=
  if bool_decide (left_head = right_head) then Ok (mkMergeResult (take_entries left_entries left) 0 [] 0)
  else if key_ltb right_head left_head then merge_ordered right left right_entries left_entries right_head left_head
  else merge_ordered left right left_entries right_entries left_head right_head.

Definition merge_metadata_heads (left right : MetadataSnapshot) (left_head right_head : Hash256) : result MetadataMergeResult :=
  match sn_namespace_root left, sn_namespace_root right with
  | None, None => merge_metadata_heads_over left right (sn_entries left) (sn_entries right) left_head right_head
  | _, _ => Throw (LogicError "metadata merge requires materialised namespaces; a branch is still a tree")
  end.
End merge.
