(* ===== verification/MetadataMergeProofs.v ===== *)
(** * What a merge keeps

    Lemmas on each pass of the merge of two heads: the paths of both, the
    files at two paths, the directories above what survives, the joins of
    the records and the pruning of conflicts. [MetadataMergeClaims] states
    what they give. *)

From S2P Require Import Prelude Sorts Maps Orders Codec TorrentRequest Journal Paths Metadata MetadataCodec MetadataMerge.

(** ** Conflicts are recorded *)

(** A writer that never throws. *)
Definition never_throws (w : Writer.prog) : Prop := forall o, exists o', w o = Ok o'.
Lemma nt_seq w1 w2 : never_throws w1 -> never_throws w2 -> never_throws (w1 ;;; w2).
Proof. intros H1 H2 o. unfold Writer.seq. destruct (H1 o) as (o1 & ->). apply H2. Qed.
Lemma nt_each {A} (w : A -> Writer.prog) l : (forall a, never_throws (w a)) -> never_throws (Writer.each w l).
Proof. intros Hw. induction l as [|a l IH]; [by intros o; eexists|]. by apply nt_seq. Qed.
Lemma nt_skip : never_throws Writer.skip.
Proof. intros o. by eexists. Qed.
Lemma nt_raw b : never_throws (Writer.raw b).
Proof. intros o. by eexists. Qed.
Lemma nt_push b : never_throws (Writer.push_back b).
Proof. intros o. by eexists. Qed.
Lemma nt_string s : Z.of_nat (length s) <= u32_max -> never_throws (Writer.string s).
Proof.
  intros Hs o. unfold Writer.string, Writer.bytes. destruct (Z.ltb_spec u32_max (Z.of_nat (length s))); [lia|].
  apply nt_seq; [apply nt_each; intros; apply nt_push | apply nt_raw].
Qed.
Create HintDb throws.
#[export] Hint Resolve nt_seq nt_skip nt_raw nt_push nt_string : throws.
#[export] Hint Extern 1 (never_throws (Writer.each _ _)) => (apply nt_each; intros) : throws.
#[export] Hint Extern 1 (never_throws (Writer.fixed _)) => (unfold Writer.fixed) : throws.
#[export] Hint Extern 1 (never_throws (Writer.u8 _)) => (unfold Writer.u8) : throws.
#[export] Hint Extern 1 (never_throws (Writer.u32 _)) => (unfold Writer.u32) : throws.
#[export] Hint Extern 1 (never_throws (Writer.u64 _)) => (unfold Writer.u64) : throws.
#[export] Hint Extern 1 (never_throws (Writer.i64 _)) => (unfold Writer.i64) : throws.
#[export] Hint Extern 1 (never_throws (write_count _)) => (unfold write_count) : throws.
#[export] Hint Extern 1 (never_throws (encode_dot _)) => (unfold encode_dot) : throws.
#[export] Hint Extern 1 (never_throws (write_extent _)) => (unfold write_extent) : throws.
#[export] Hint Extern 1 (never_throws (encode_entry_provenance _)) => (unfold encode_entry_provenance) : throws.

Lemma nt_entry e : never_throws (write_entry e).
Proof. unfold write_entry. cbv zeta. destruct (negb _); auto 30 with throws. Qed.
Lemma nt_option {A} (w : A -> Writer.prog) x : (forall a, never_throws (w a)) -> never_throws (write_option w x).
Proof. intros Hw. unfold write_option. destruct x; auto with throws. Qed.
Lemma nt_conflict c : Z.of_nat (length (mc_key c)) <= u32_max -> never_throws (encode_conflict c).
Proof.
  intros Hk. unfold encode_conflict, write_optional_entry, write_optional_object.
  assert (forall o : ObjectId, never_throws (Writer.fixed o)) by auto with throws.
  destruct (mc_later_installed c), (mc_kind c); auto 20 using nt_option, nt_entry with throws.
Qed.

Section merge.
Context `{Sha256}.
Implicit Types (m : MergeState) (l r : Side).

Definition key_ok (path : Bytes) : Prop := Z.of_nat (length path) <= u32_max.

Lemma conflict_id_made c : key_ok (mc_key c) -> exists id, metadata_conflict_id c = Ok id.
Proof.
  intros Hk. unfold metadata_conflict_id, Writer.run.
  assert (never_throws (Writer.raw conflict_magic ;;; encode_conflict c)) as Hn by auto using nt_conflict with throws.
  destruct (Hn []) as (o & ->). cbn. eauto.
Qed.

(** Recording a conflict leaves the entries. *)
Lemma add_conflict_ok key c m :
  key_ok (mc_key c) -> exists m', add_conflict key c m = Ok m' /\ mg_entries m' = mg_entries m.
Proof.
  intros Hk. unfold add_conflict. destruct (conflict_id_made c Hk) as (id & ->). cbn [mbind result_bind].
  eexists. split; [reflexivity|]. by destruct (map_emplace _ _ _).
Qed.
Lemma record_conflict_ok path a b m :
  key_ok path -> exists m', record_conflict path a b m = Ok m' /\ mg_entries m' = mg_entries m.
Proof. intros Hk. by apply add_conflict_ok. Qed.

Lemma later_entry_first a b : later_entry a b = if first_later a b then a else b.
Proof. unfold later_entry, first_later. destruct (negb (_ =? _)); [done|]. by destruct (key_ltb a b). Qed.

(** Settling gives one of the two and leaves the entries. *)
Lemma settle_kept_ok l r path a b one_file m :
  key_ok path -> exists e m', settle l r path a b one_file m = Ok (e, m') /\ mg_entries m' = mg_entries m /\ (e = a \/ e = b).
Proof.
  intros Hk. unfold settle. destruct (bool_decide _); [destruct (key_ltb _ _); eauto 6|]. cbv zeta.
  destruct (_ && _); [eauto 6|]. destruct (_ && _); [eauto 6|]. destruct (same_content a b); [destruct (key_ltb a b); eauto 6|].
  destruct (record_conflict_ok path (later_entry a b) (if first_later a b then b else a) m Hk) as (m' & -> & Em). cbn [mbind result_bind].
  exists (later_entry a b), m'. split_and!; [done | done |]. rewrite later_entry_first. destruct (first_later a b); auto.
Qed.

(** An entry with no provenance is judged like one whose dots are unknown. *)
Lemma removed_by_seen other owner e : removed_by other owner e = name_seen other owner e && content_seen other owner e.
Proof.
  unfold removed_by. destruct (provenance_empty (fe_provenance e)) eqn:Ep; [|done]. unfold provenance_empty in Ep.
  rewrite !andb_true_iff, !negb_true_iff in Ep. destruct Ep as [[_ Ec] En].
  unfold name_seen, content_seen, dot_seen. rewrite Ec, En. by destruct (clock_covers_clock _ _).
Qed.

(** ** What is settled, and what is concurrent *)

Definition seen_at (viewer owner : Side) (one_file : bool) (e : FsEntry) : bool :=
  content_seen viewer owner e && (one_file || name_seen viewer owner e).

(** Neither head has seen the other's, and they disagree. *)
Definition concurrent l r (a b : FsEntry) (one_file : bool) : bool :=
  negb (bool_decide (without_provenance a = without_provenance b)) &&
  Bool.eqb (seen_at r l one_file a) (seen_at l r one_file b) && negb (same_content a b).

Definition settled l r (a b : FsEntry) (one_file : bool) : FsEntry :=
  if bool_decide (without_provenance a = without_provenance b)
  then if key_ltb (fe_provenance a) (fe_provenance b) then b else a
  else if seen_at r l one_file a && negb (seen_at l r one_file b) then b
  else if seen_at l r one_file b && negb (seen_at r l one_file a) then a
  else if same_content a b then if key_ltb a b then a else b
  else later_entry a b.

Lemma settle_eq l r path a b one_file m :
  settle l r path a b one_file m =
    if concurrent l r a b one_file
    then m' ← record_conflict path (later_entry a b) (if first_later a b then b else a) m; mret (settled l r a b one_file, m')
    else Ok (settled l r a b one_file, m).
Proof.
  unfold settle, concurrent, settled. cbv zeta. fold (seen_at r l one_file a). fold (seen_at l r one_file b).
  destruct (bool_decide _); [done|]. destruct (seen_at r l one_file a), (seen_at l r one_file b); cbn [andb negb Bool.eqb]; try done;
    by destruct (same_content a b).
Qed.

Lemma settled_either l r a b one_file : settled l r a b one_file = a \/ settled l r a b one_file = b.
Proof.
  unfold settled. destruct (bool_decide _); [destruct (key_ltb _ _); auto|]. destruct (_ && _); [auto|]. destruct (_ && _); [auto|].
  destruct (same_content a b); [destruct (key_ltb a b); auto|]. rewrite later_entry_first. destruct (first_later a b); auto.
Qed.

(** ** Conflicts held *)

Definition holds_conflict m (c : MetadataConflict) : Prop :=
  exists id c', metadata_conflict_id c = Ok id /\ alookup id (mg_conflicts m) = Some c'.
(** Every conflict of [m] is in [m'], and those that are new come from [P]. *)
Definition more_conflicts (P : MetadataConflict -> Prop) m m' : Prop :=
  (forall id c, alookup id (mg_conflicts m) = Some c -> alookup id (mg_conflicts m') = Some c) /\
  (forall id c, alookup id (mg_conflicts m') = Some c -> alookup id (mg_conflicts m) = Some c \/ (metadata_conflict_id c = Ok id /\ P c)) /\
  (sorted_recs (mg_conflicts m) -> sorted_recs (mg_conflicts m')).

Lemma more_refl P m : more_conflicts P m m.
Proof. unfold more_conflicts. auto. Qed.
Lemma more_trans P m1 m2 m3 : more_conflicts P m1 m2 -> more_conflicts P m2 m3 -> more_conflicts P m1 m3.
Proof.
  intros (A1 & A2 & A3) (B1 & B2 & B3). split_and!; [auto| |auto]. intros id c Hc. destruct (B2 id c Hc) as [Hc'|]; auto.
Qed.
Lemma more_same P m m' : mg_conflicts m' = mg_conflicts m -> more_conflicts P m m'.
Proof. intros E. unfold more_conflicts. rewrite E. auto. Qed.
Lemma holds_more P m m' c : more_conflicts P m m' -> holds_conflict m c -> holds_conflict m' c.
Proof. intros (H1 & _) (id & c' & E & Ec). exists id, c'. auto. Qed.

Lemma add_conflict_more (P : MetadataConflict -> Prop) key c m m' :
  P c -> add_conflict key c m = Ok m' -> more_conflicts P m m' /\ holds_conflict m' c /\ mg_entries m' = mg_entries m.
Proof.
  intros Hp E. unfold add_conflict in E. apply result_bind_Ok in E as (id & Eid & E). injection E as <-. unfold map_emplace.
  destruct (alookup id (mg_conflicts m)) as [c'|] eqn:Ec.
  - split_and!; [apply more_refl | by exists id, c' | done].
  - cbn [mg_entries mg_conflicts]. split_and!; [|exists id, c; split; [done|]; cbn; by rewrite map_set_lookup, decide_True | done].
    unfold more_conflicts. cbn [mg_conflicts]. split_and!.
    + intros id' c' E'. rewrite map_set_lookup. destruct (decide (id' = id)) as [->|]; [congruence | done].
    + intros id' c'. rewrite map_set_lookup. destruct (decide (id' = id)) as [->|]; [|auto]. intros [= <-]. auto.
    + apply map_set_sorted.
Qed.

Lemma settle_more (P : MetadataConflict -> Prop) l r path a b one_file m e m' :
  (forall x y, x = a \/ x = b -> y = a \/ y = b -> P (entry_conflict path x y)) ->
  settle l r path a b one_file m = Ok (e, m') ->
  more_conflicts P m m' /\ mg_entries m' = mg_entries m /\ e = settled l r a b one_file /\
  (concurrent l r a b one_file = true ->
   holds_conflict m' (entry_conflict path (later_entry a b) (if first_later a b then b else a))).
Proof.
  intros Hp. rewrite settle_eq. destruct (concurrent l r a b one_file).
  - intros E. apply result_bind_Ok in E as (m1 & E1 & E). injection E as <- <-.
    unfold record_conflict in E1. apply (add_conflict_more P) in E1 as (H1 & H2 & H3); [done|].
    apply Hp; [rewrite later_entry_first|]; destruct (first_later a b); auto.
  - intros [= <- <-]. split_and!; [apply more_refl | done | done | done].
Qed.

(** ** The paths of both heads *)

Definition path_value l r (p : Bytes) : option FsEntry :=
  match side_at l p, side_at r p with
  | Some a, Some b => Some (if bool_decide (a = b) then a else settled l r a b false)
  | Some a, None => if removed_by r l a then None else Some a
  | None, Some b => if removed_by l r b then None else Some b
  | None, None => None
  end.
Definition path_origin l r (p : Bytes) : option Origin :=
  match side_at l p, side_at r p with
  | Some _, Some _ => Some from_both
  | Some a, None => if removed_by r l a then None else Some from_left
  | None, Some b => if removed_by l r b then None else Some from_right
  | None, None => None
  end.
Definition at_side l r (p : Bytes) (e : FsEntry) : Prop := side_at l p = Some e \/ side_at r p = Some e.

(** A conflict between two values at one path. *)
Definition of_path l r (c : MetadataConflict) : Prop :=
  exists p x y, c = entry_conflict p x y /\ at_side l r p x /\ at_side l r p y.

Lemma path_value_side l r p e : path_value l r p = Some e -> at_side l r p e.
Proof.
  unfold path_value, at_side. destruct (side_at l p) as [a|], (side_at r p) as [b|]; try done.
  - intros [= <-]. destruct (bool_decide _); [auto|]. destruct (settled_either l r a b false) as [->| ->]; auto.
  - destruct (removed_by _ _ _); [done|]. intros [= ->]. auto.
  - destruct (removed_by _ _ _); [done|]. intros [= ->]. auto.
Qed.

Record first_pass l r (done : list Bytes) m (origin : Origins) : Prop := {
  fp_sorted : sorted_recs (mg_entries m);
  fp_entries : forall p, alookup p (mg_entries m) = if decide (p ∈ done) then path_value l r p else None;
  fp_origin : forall p, alookup p origin = if decide (p ∈ done) then path_origin l r p else None;
  fp_conflicts : more_conflicts (of_path l r) (mkMerge [] [] 0 []) m;
  fp_recorded : forall p a b, p ∈ done -> side_at l p = Some a -> side_at r p = Some b -> a <> b ->
    concurrent l r a b false = true -> holds_conflict m (entry_conflict p (later_entry a b) (if first_later a b then b else a))
}.

Lemma put_entry_lookup p e m p' : alookup p' (mg_entries (put_entry p e m)) = if decide (p' = p) then Some e else alookup p' (mg_entries m).
Proof. apply map_set_lookup. Qed.

Lemma decide_snoc {A} `{EqDecision K} (p p' : K) (done : list K) (x y : option A) :
  p ∉ done -> (if decide (p' ∈ done ++ [p]) then x else y) = if decide (p' = p) then x else if decide (p' ∈ done) then x else y.
Proof.
  intros Hp. destruct (decide (p' ∈ done ++ [p])) as [Hin|Hn].
  - rewrite elem_of_app, list_elem_of_singleton in Hin. destruct (decide (p' = p)); [done|]. by rewrite decide_True by tauto.
  - rewrite elem_of_app, list_elem_of_singleton in Hn. rewrite !decide_False by tauto. done.
Qed.

Lemma first_pass_extend l r done m origin p m' origin' :
  first_pass l r done m origin -> p ∉ done -> sorted_recs (mg_entries m') ->
  (forall p', alookup p' (mg_entries m') = if decide (p' = p) then path_value l r p else alookup p' (mg_entries m)) ->
  (forall p', alookup p' origin' = if decide (p' = p) then path_origin l r p else alookup p' origin) ->
  more_conflicts (of_path l r) m m' ->
  (forall a b, side_at l p = Some a -> side_at r p = Some b -> a <> b -> concurrent l r a b false = true ->
     holds_conflict m' (entry_conflict p (later_entry a b) (if first_later a b then b else a))) ->
  first_pass l r (done ++ [p]) m' origin'.
Proof.
  intros [Hs He Ho Hc Hr] Hp Hs' He' Ho' Hc' Hr'. split; [done| | | |].
  - intros p'. rewrite He', decide_snoc, He by done. by destruct (decide (p' = p)) as [->|].
  - intros p'. rewrite Ho', decide_snoc, Ho by done. by destruct (decide (p' = p)) as [->|].
  - by eapply more_trans.
  - intros p' a b [Hin| ->%list_elem_of_singleton]%elem_of_app; [|auto]. intros. eapply holds_more; [exact Hc'|]. by apply Hr.
Qed.

Lemma first_pass_step l r done m origin p :
  first_pass l r done m origin -> key_ok p -> p ∉ done ->
  exists m' origin', merge_path l r (m, origin) p = Ok (m', origin') /\ first_pass l r (done ++ [p]) m' origin'.
Proof.
  intros Hf Hk Hp. pose proof (fp_sorted _ _ _ _ _ Hf) as Hs.
  assert (alookup p (mg_entries m) = None) as Ep by (by rewrite (fp_entries _ _ _ _ _ Hf), decide_False).
  assert (alookup p origin = None) as Eo by (by rewrite (fp_origin _ _ _ _ _ Hf), decide_False).
  assert (forall p' (o : option FsEntry), alookup p (mg_entries m) = o -> (if decide (p' = p) then o else alookup p' (mg_entries m)) = alookup p' (mg_entries m)) as Hsame.
  { intros p' o <-. by destruct (decide (p' = p)) as [->|]. }
  assert (forall p' (o : option Origin), alookup p origin = o -> (if decide (p' = p) then o else alookup p' origin) = alookup p' origin) as Hsame'.
  { intros p' o <-. by destruct (decide (p' = p)) as [->|]. }
  unfold merge_path. destruct (side_at l p) as [a|] eqn:Ea, (side_at r p) as [b|] eqn:Eb.
  - assert (exists e m', (if bool_decide (a = b) then Ok (a, m) else settle l r p a b false m) = Ok (e, m') /\
      more_conflicts (of_path l r) m m' /\ mg_entries m' = mg_entries m /\
      e = (if bool_decide (a = b) then a else settled l r a b false) /\
      (a <> b -> concurrent l r a b false = true ->
        holds_conflict m' (entry_conflict p (later_entry a b) (if first_later a b then b else a)))) as (e & m' & -> & Hc & Em & Ee & Hh).
    { destruct (bool_decide_reflect (a = b)) as [Hab|Hab].
      - exists a, m. split_and!; [done | apply more_refl | done | done | done].
      - destruct (settle_kept_ok l r p a b false m Hk) as (e & m' & Es & _). exists e, m'. split; [done|].
        apply (settle_more (of_path l r)) in Es as (H1 & H2 & H3 & H4); [auto|].
        intros x y Hx Hy. exists p, x, y. unfold at_side. rewrite Ea, Eb. split_and!; [done | destruct Hx as [->| ->]; auto | destruct Hy as [->| ->]; auto]. }
    cbn [mbind result_bind]. eexists _, _. split; [reflexivity|]. apply (first_pass_extend l r done m origin p); try done.
    + cbn [put_entry mg_entries]. rewrite Em. by apply map_set_sorted.
    + intros p'. rewrite put_entry_lookup, Em. unfold path_value. by rewrite Ea, Eb, <- Ee.
    + intros p'. rewrite map_set_lookup. unfold path_origin. by rewrite Ea, Eb.
    + intros a' b' Ea' Eb'. rewrite Ea in Ea'. rewrite Eb in Eb'. injection Ea' as <-. injection Eb' as <-. exact Hh.
  - destruct (removed_by r l a) eqn:Er.
    + eexists _, _. split; [reflexivity|]. apply (first_pass_extend l r done m origin p); try done; [| |apply more_refl|congruence].
      * intros p'. unfold path_value. by rewrite Ea, Eb, Er, Hsame.
      * intros p'. unfold path_origin. by rewrite Ea, Eb, Er, Hsame'.
    + eexists _, _. split; [reflexivity|]. apply (first_pass_extend l r done m origin p); try done; [| | |by apply more_same|congruence].
      * by apply map_set_sorted.
      * intros p'. rewrite put_entry_lookup. unfold path_value. by rewrite Ea, Eb, Er.
      * intros p'. rewrite map_set_lookup. unfold path_origin. by rewrite Ea, Eb, Er.
  - destruct (removed_by l r b) eqn:Er.
    + eexists _, _. split; [reflexivity|]. apply (first_pass_extend l r done m origin p); try done; [| |apply more_refl|congruence].
      * intros p'. unfold path_value. by rewrite Ea, Eb, Er, Hsame.
      * intros p'. unfold path_origin. by rewrite Ea, Eb, Er, Hsame'.
    + eexists _, _. split; [reflexivity|]. apply (first_pass_extend l r done m origin p); try done; [| | |by apply more_same|congruence].
      * by apply map_set_sorted.
      * intros p'. rewrite put_entry_lookup. unfold path_value. by rewrite Ea, Eb, Er.
      * intros p'. rewrite map_set_lookup. unfold path_origin. by rewrite Ea, Eb, Er.
  - eexists _, _. split; [reflexivity|]. apply (first_pass_extend l r done m origin p); try done; [| |apply more_refl|congruence].
    + intros p'. unfold path_value. by rewrite Ea, Eb, Hsame.
    + intros p'. unfold path_origin. by rewrite Ea, Eb, Hsame'.
Qed.

Lemma first_pass_fold l r paths done m origin :
  first_pass l r done m origin -> NoDup (done ++ paths) -> Forall key_ok paths ->
  exists m' origin', foldM (merge_path l r) (m, origin) paths = Ok (m', origin') /\ first_pass l r (done ++ paths) m' origin'.
Proof.
  revert done m origin. induction paths as [|p paths IH]; intros done m origin Hf Hn Hk.
  - exists m, origin. rewrite app_nil_r. done.
  - apply Forall_cons in Hk as [Hp Hk]. cbn [foldM]. destruct (first_pass_step l r done m origin p Hf Hp) as (m1 & o1 & -> & Hf1).
    { apply NoDup_app in Hn as (_ & Hd & _). intros Hin. apply (Hd p Hin). by left. }
    cbn [mbind result_bind]. destruct (IH (done ++ [p]) m1 o1) as (m' & o' & E & Hf'); [done | by rewrite <- app_assoc | done |].
    exists m', o'. rewrite <- app_assoc in Hf'. done.
Qed.

Lemma all_paths_elem l r p : p ∈ all_paths l r <-> (exists e, at_side l r p e).
Proof.
  unfold all_paths. rewrite (proj2 (sort_unique_ok _)), elem_of_app, <- !alookup_is_key. unfold at_side, side_at. split.
  - intros [(e & E)|(e & E)]; eauto.
  - intros (e & [E|E]); eauto.
Qed.

Definition keys_ok (s : Side) : Prop := Forall key_ok (sd_entries s).*1.

(** The first pass, over every path. *)
Record paths_merged l r m (origin : Origins) : Prop := {
  pm_sorted : sorted_recs (mg_entries m);
  pm_entries : forall p, alookup p (mg_entries m) = path_value l r p;
  pm_origin : forall p, alookup p origin = path_origin l r p;
  pm_conflicts : more_conflicts (of_path l r) (mkMerge [] [] 0 []) m;
  pm_recorded : forall p a b, side_at l p = Some a -> side_at r p = Some b -> a <> b ->
    concurrent l r a b false = true -> holds_conflict m (entry_conflict p (later_entry a b) (if first_later a b then b else a))
}.

Lemma paths_key_ok l r p : keys_ok l -> keys_ok r -> p ∈ all_paths l r -> key_ok p.
Proof.
  unfold keys_ok. rewrite !Forall_forall. intros Hl Hr. unfold all_paths.
  rewrite (proj2 (sort_unique_ok _)), elem_of_app. intros [?|?]; auto.
Qed.

Lemma merge_paths_ok l r :
  keys_ok l -> keys_ok r ->
  exists m origin, foldM (merge_path l r) (mkMerge [] [] 0 [], []) (all_paths l r) = Ok (m, origin) /\ paths_merged l r m origin.
Proof.
  intros Hl Hr. destruct (first_pass_fold l r (all_paths l r) [] (mkMerge [] [] 0 []) []) as (m & o & E & [F1 F2 F3 F4 F5]).
  - split; cbn [mg_entries mg_conflicts]; [constructor | intros; by rewrite decide_False by apply not_elem_of_nil |
      intros; by rewrite decide_False by apply not_elem_of_nil | apply more_refl | by intros ? ? ? ?%elem_of_nil].
  - apply sorted_keys_NoDup, sort_unique_ok.
  - apply Forall_forall. intros p Hp. by apply (paths_key_ok l r p).
  - exists m, o. split; [done|]. cbn [app] in *.
    assert (forall p, p ∉ all_paths l r -> side_at l p = None /\ side_at r p = None) as Hout.
    { intros p Hp. rewrite all_paths_elem in Hp. unfold at_side in Hp.
      split; [destruct (side_at l p) as [e|]; [|done] | destruct (side_at r p) as [e|]; [|done]]; exfalso; apply Hp; exists e; auto. }
    split; [done | | | done |].
    + intros p. rewrite F2. destruct (decide _) as [|Hp]; [done|]. destruct (Hout p Hp) as [E1 E2]. unfold path_value. by rewrite E1, E2.
    + intros p. rewrite F3. destruct (decide _) as [|Hp]; [done|]. destruct (Hout p Hp) as [E1 E2]. unfold path_origin. by rewrite E1, E2.
    + intros p a b Ea Eb. apply F5; [|done|done]. apply all_paths_elem. exists a. by left.
Qed.

(** ** Files at two paths *)

Lemma by_identity_ok (entries : NamespaceEntries) :
  sorted_recs (by_identity entries) /\
  forall id ps p, alookup id (by_identity entries) = Some ps -> p ∈ ps ->
    exists e, (p, e) ∈ entries /\ pv_file_id (fe_provenance e) = id /\ id <> array_zero 16.
Proof.
  unfold by_identity. induction entries as [|[p e] entries IH] using rev_ind; [by split; [constructor|]|]. destruct IH as [IHs IHp].
  rewrite foldl_app. cbn [foldl fst snd]. set (g := foldl _ [] entries) in *.
  destruct (bool_decide_reflect (pv_file_id (fe_provenance e) = array_zero 16)) as [Hz|Hz].
  - split; [done|]. intros id ps p' E Hp'. destruct (IHp id ps p' E Hp') as (e' & Hin & Hid). exists e'. split; [|done]. apply elem_of_app. by left.
  - split; [by apply map_set_sorted|]. intros id ps p'. rewrite map_set_lookup. destruct (decide (id = _)) as [->|].
    + intros [= <-] [Hin| ->%list_elem_of_singleton]%elem_of_app.
      * destruct (alookup _ g) as [ps|] eqn:E; [|by apply elem_of_nil in Hin].
        destruct (IHp _ ps p' E Hin) as (e' & Hin' & Hid). exists e'. split; [|done]. apply elem_of_app. by left.
      * exists e. split_and!; [|done|done]. apply elem_of_app. right. by left.
    + intros E Hp'. destruct (IHp id ps p' E Hp') as (e' & Hin & Hid). exists e'. split; [|done]. apply elem_of_app. by left.
Qed.

(** What the pass over identities leaves. *)
Record identities_merged m1 (origin : Origins) m : Prop := {
  im_sorted : sorted_recs (mg_entries m);
  im_keys : forall p, alookup p (mg_entries m1) = None -> alookup p (mg_entries m) = None;
  im_both : forall p, alookup p origin = Some from_both -> alookup p (mg_entries m) = alookup p (mg_entries m1)
}.

Lemma merge_identity_step l r m1 origin m (processed : list NodeId) id ps :
  identities_merged m1 origin m ->
  (forall p e, alookup p (mg_entries m1) = Some e -> pv_file_id (fe_provenance e) ∉ processed -> alookup p (mg_entries m) = Some e) ->
  (forall p e, alookup p (mg_entries m1) = Some e -> exists o, alookup p origin = Some o) ->
  (forall p, p ∈ ps -> key_ok p /\ exists e, alookup p (mg_entries m1) = Some e /\ pv_file_id (fe_provenance e) = id) ->
  id ∉ processed ->
  exists m', merge_identity l r origin m (id, ps) = Ok m' /\ identities_merged m1 origin m' /\
    (forall p e, alookup p (mg_entries m1) = Some e -> pv_file_id (fe_provenance e) ∉ id :: processed -> alookup p (mg_entries m') = Some e).
Proof.
  intros [Is Ik Ib] Hsame Horigin Hps Hid.
  assert (forall p e, alookup p (mg_entries m1) = Some e -> pv_file_id (fe_provenance e) ∉ id :: processed -> alookup p (mg_entries m) = Some e) as Hsame1.
  { intros p e E Hn. apply Hsame; [done|]. by intros ?; apply Hn; right. }
  unfold merge_identity. cbn [snd]. destruct ps as [|p [|q [|]]]; try (by exists m).
  cbv zeta. set (op := default from_left (alookup p origin)). set (oq := default from_left (alookup q origin)).
  destruct (bool_decide_reflect (op = from_both)) as [|Hop]; [by exists m|].
  destruct (bool_decide_reflect (oq = from_both)) as [|Hoq]; [by exists m|]. cbn [orb].
  destruct (bool_decide_reflect (op = oq)) as [|Hne]; [by exists m|].
  set (x := if bool_decide (op = from_left) then p else q). set (y := if bool_decide (op = from_left) then q else p).
  assert (forall z, z = x \/ z = y -> z ∈ [p; q]) as Hz.
  { intros z [->| ->]; unfold x, y; destruct (bool_decide _); rewrite !elem_of_cons; auto. }
  assert (forall z, z ∈ [p; q] -> alookup z origin <> Some from_both) as Hnb.
  { intros z [->|[->|?%elem_of_nil]%elem_of_cons]%elem_of_cons E; [apply Hop; unfold op | apply Hoq; unfold oq|done]; by rewrite E. }
  destruct (Hps x (Hz x (or_introl eq_refl))) as [Kx (a & Ea & Ida)], (Hps y (Hz y (or_intror eq_refl))) as [Ky (b & Eb & Idb)].
  assert (alookup x (mg_entries m) = Some a) as -> by (apply Hsame; [done | by rewrite Ida]).
  assert (alookup y (mg_entries m) = Some b) as -> by (apply Hsame; [done | by rewrite Idb]).
  destruct (negb (bool_decide (fe_type a = fe_type b))); [by exists m|].
  set (keep_left := if negb _ then _ else _). set (kept := if keep_left then x else y). set (dropped := if keep_left then y else x).
  assert (key_ok kept) as Kk by (unfold kept; by destruct keep_left).
  destruct (settle_kept_ok l r kept a b true m Kk) as (e & m' & -> & Em & _). cbn [mbind result_bind].
  eexists. split; [reflexivity|].
  assert (forall z, z = kept \/ z = dropped -> z = x \/ z = y) as Hxy.
  { intros z [->| ->]; unfold kept, dropped; destruct keep_left; auto. }
  set (merged := set_provenance _ e).
  assert (forall z, alookup z (mg_entries (put_entry kept merged (drop_entry dropped m'))) =
    if decide (z = kept) then Some merged else if decide (z = dropped) then None else alookup z (mg_entries m)) as Hl.
  { intros z. rewrite put_entry_lookup. cbn [drop_entry mg_entries]. by rewrite map_erase_lookup, Em. }
  split.
  - split.
    + cbn [put_entry drop_entry mg_entries]. rewrite Em. by apply map_set_sorted, map_erase_sorted.
    + intros z Ez. rewrite Hl. destruct (decide (z = kept)) as [->|].
      { exfalso. destruct (Hxy kept (or_introl eq_refl)) as [E|E]; rewrite E in Ez; congruence. }
      destruct (decide (z = dropped)); [done|]. auto.
    + intros z Ez. rewrite Hl, !decide_False; [auto| |]; intros E; apply (Hnb z); auto.
  - intros z e' Ez Hn. rewrite Hl, !decide_False; [auto| |]; intros ->; apply Hn, elem_of_cons; left.
    + destruct (Hxy dropped (or_intror eq_refl)) as [E|E]; rewrite E in Ez; congruence.
    + destruct (Hxy kept (or_introl eq_refl)) as [E|E]; rewrite E in Ez; congruence.
Qed.

Lemma merge_identities_fold l r m1 origin groups m (processed : list NodeId) :
  identities_merged m1 origin m ->
  (forall p e, alookup p (mg_entries m1) = Some e -> pv_file_id (fe_provenance e) ∉ processed -> alookup p (mg_entries m) = Some e) ->
  (forall p e, alookup p (mg_entries m1) = Some e -> exists o, alookup p origin = Some o) ->
  (forall id ps p, (id, ps) ∈ groups -> p ∈ ps ->
     key_ok p /\ exists e, alookup p (mg_entries m1) = Some e /\ pv_file_id (fe_provenance e) = id) ->
  NoDup groups.*1 -> (forall id, id ∈ groups.*1 -> id ∉ processed) ->
  exists m', foldM (merge_identity l r origin) m groups = Ok m' /\ identities_merged m1 origin m'.
Proof.
  revert m processed. induction groups as [|[id ps] groups IH]; intros m processed Hm Hsame Ho Hg Hn Hp; [by exists m|].
  cbn [foldM]. apply NoDup_cons in Hn as [Hid Hn]. cbn [fst] in Hid.
  destruct (merge_identity_step l r m1 origin m processed id ps Hm Hsame Ho) as (m' & -> & Hm' & Hsame').
  - intros p Hin. eapply Hg; [by left | done].
  - apply Hp. by left.
  - cbn [mbind result_bind]. apply (IH m' (id :: processed)); try done.
    + intros id' ps' p Hin. apply Hg. by right.
    + intros id' Hin [->|Hin']%elem_of_cons; [done|]. apply (Hp id'); [by right | done].
Qed.

Lemma merge_identities_ok l r m1 origin :
  keys_ok l -> keys_ok r -> paths_merged l r m1 origin ->
  exists m', foldM (merge_identity l r origin) m1 (by_identity (mg_entries m1)) = Ok m' /\ identities_merged m1 origin m'.
Proof.
  intros Kl Kr [Ps Pe Po _ _]. destruct (by_identity_ok (mg_entries m1)) as [Hs Hg].
  apply (merge_identities_fold l r m1 origin _ m1 []); try done.
  - intros p e E. rewrite Pe in E. rewrite Po. unfold path_value in E. unfold path_origin.
    destruct (side_at l p), (side_at r p); try destruct (removed_by _ _ _); try done; eauto.
  - intros id ps p Hin Hp. apply elem_alookup_Some in Hin; [|done]. destruct (Hg id ps p Hin Hp) as (e & He & Eid & _).
    apply elem_alookup_Some in He; [|done]. split; [|eauto]. apply (paths_key_ok l r); [done..|]. apply all_paths_elem. exists e.
    apply path_value_side. by rewrite <- Pe.
  - by apply sorted_keys_NoDup.
  - intros. apply not_elem_of_nil.
Qed.

Lemma origin_of l r p e :
  path_value l r p = Some e -> exists o, path_origin l r p = Some o /\
    match o with from_both => True | from_left => side_at l p = Some e | from_right => side_at r p = Some e end.
Proof.
  unfold path_value, path_origin. destruct (side_at l p), (side_at r p); try done; try destruct (removed_by _ _ _); try done.
  - intros _. by exists from_both.
  - intros E. by exists from_left.
  - intros E. by exists from_right.
Qed.

(** No file survives at two paths, one of each head. *)
Definition no_pairs l r : Prop :=
  forall p q e f, path_value l r p = Some e -> path_value l r q = Some f ->
    pv_file_id (fe_provenance e) = pv_file_id (fe_provenance f) -> pv_file_id (fe_provenance e) <> array_zero 16 ->
    path_origin l r p = Some from_left -> path_origin l r q <> Some from_right.

Lemma no_pairs_pass l r m1 origin :
  paths_merged l r m1 origin -> no_pairs l r ->
  foldM (merge_identity l r origin) m1 (by_identity (mg_entries m1)) = Ok m1.
Proof.
  intros [Ps Pe Po _ _] Hno. destruct (by_identity_ok (mg_entries m1)) as [Hs Hg].
  assert (Forall (fun g => merge_identity l r origin m1 g = Ok m1) (by_identity (mg_entries m1))) as Hstep.
  { apply Forall_forall. intros [id ps] Hin. apply elem_alookup_Some in Hin; [|done]. unfold merge_identity. cbn [snd].
    destruct ps as [|p [|q [|]]]; try done. cbv zeta.
    destruct (Hg id _ p Hin ltac:(by left)) as (e & He & Ie & Iz), (Hg id _ q Hin ltac:(by right; left)) as (f & Hf & If & _).
    apply elem_alookup_Some in He, Hf; [|done..]. rewrite Pe in He, Hf. rewrite !Po.
    destruct (origin_of l r p e He) as (op & Ep & Hp), (origin_of l r q f Hf) as (oq & Eq & Hq). rewrite Ep, Eq.
    cbn [from_option]. destruct op, oq; try done; exfalso.
    - apply (Hno p q e f); congruence.
    - apply (Hno q p f e); congruence. }
  clear Hs Hg. induction Hstep as [|g gs Hg1 Hgs IH]; [done|]. cbn [foldM]. rewrite Hg1. exact IH.
Qed.

(** A path that is in no pair is left as it is. *)
Lemma merge_identity_spares l r origin m g m' p :
  merge_identity l r origin m g = Ok m' ->
  (forall a b, g.2 = [a; b] -> p ∈ [a; b] ->
     let oa := default from_left (alookup a origin) in let ob := default from_left (alookup b origin) in oa = from_both \/ ob = from_both \/ oa = ob) ->
  alookup p (mg_entries m') = alookup p (mg_entries m).
Proof.
  unfold merge_identity. destruct g.2 as [|a [|b [|]]]; try (by intros [= <-]). cbv zeta. intros E Hp. specialize (Hp a b eq_refl). revert E.
  destruct (bool_decide_reflect (default from_left (alookup a origin) = from_both)) as [|Ha]; [by intros [= <-]|].
  destruct (bool_decide_reflect (default from_left (alookup b origin) = from_both)) as [|Hb]; [by intros [= <-]|]. cbn [orb].
  destruct (bool_decide_reflect (default from_left (alookup a origin) = default from_left (alookup b origin))) as [|Hab]; [by intros [= <-]|].
  assert (p <> a /\ p <> b) as [Na Nb].
  { split; intros ->; destruct Hp as [?|[?|?]]; try done; rewrite !elem_of_cons; auto. }
  set (left := bool_decide _). destruct (alookup (if left then a else b) (mg_entries m)) as [x|]; [|done].
  destruct (alookup (if left then b else a) (mg_entries m)) as [y|]; [|done].
  destruct (negb (bool_decide _)); [by intros [= <-]|]. set (keep_left := if negb _ then _ else _). intros E. apply result_bind_Ok in E as ([e m1] & Es & E). injection E as <-.
  apply (settle_more (fun _ => True)) in Es as (_ & Em & _); [|done]. rewrite put_entry_lookup, decide_False by (destruct keep_left, left; done).
  cbn [drop_entry mg_entries]. by rewrite map_erase_lookup, decide_False, Em by (destruct keep_left, left; done).
Qed.

(** [x], a head's entry at [p]: the other head has its file at no other path. *)
Definition unmoved l r (p : Bytes) (x : FsEntry) : Prop :=
  (side_at l p = Some x -> forall q b, side_at r q = Some b -> pv_file_id (fe_provenance b) = pv_file_id (fe_provenance x) ->
     pv_file_id (fe_provenance x) <> array_zero 16 -> q = p) /\
  (side_at r p = Some x -> forall q a, side_at l q = Some a -> pv_file_id (fe_provenance a) = pv_file_id (fe_provenance x) ->
     pv_file_id (fe_provenance x) <> array_zero 16 -> q = p).

Lemma merge_identities_spare l r m1 origin m2 p x :
  paths_merged l r m1 origin -> foldM (merge_identity l r origin) m1 (by_identity (mg_entries m1)) = Ok m2 ->
  at_side l r p x -> unmoved l r p x -> alookup p (mg_entries m2) = alookup p (mg_entries m1).
Proof.
  intros [Ps Pe Po _ _] E Sx [Ul Ur]. destruct (by_identity_ok (mg_entries m1)) as [Hs Hg].
  assert (forall a b e f, path_origin l r a = Some from_left -> path_origin l r b = Some from_right -> side_at l a = Some e -> side_at r b = Some f ->
    pv_file_id (fe_provenance f) = pv_file_id (fe_provenance e) -> pv_file_id (fe_provenance e) <> array_zero 16 -> p <> a /\ p <> b) as Hcase.
  { intros a b e f Oa Ob Ea Eb Eid Hz. assert (side_at r a = None) as Ra by (unfold path_origin in Oa; rewrite Ea in Oa; by destruct (side_at r a)).
    assert (side_at l b = None) as Lb by (unfold path_origin in Ob; destruct (side_at l b), (side_at r b); try done; by destruct (removed_by _ _ _)).
    unfold at_side in Sx. split; intros ->.
    - assert (x = e) as -> by (destruct Sx; congruence). assert (b = a) by (by apply (Ul Ea b f)). congruence.
    - assert (x = f) as -> by (destruct Sx; congruence). assert (a = b) by (by apply (Ur Eb a e); congruence). congruence. }
  assert (Forall (fun g => forall a b, g.2 = [a; b] -> p ∈ [a; b] ->
    let oa := default from_left (alookup a origin) in let ob := default from_left (alookup b origin) in oa = from_both \/ ob = from_both \/ oa = ob) (by_identity (mg_entries m1))) as Hall.
  { apply Forall_forall. intros [id ps] Hin a b Eps Hp. cbn [snd] in Eps. subst ps. apply elem_alookup_Some in Hin; [|done]. cbv zeta.
    destruct (Hg id _ a Hin ltac:(by left)) as (e & He & Ie & Iz), (Hg id _ b Hin ltac:(by right; left)) as (f & Hf & If & _).
    apply elem_alookup_Some in He, Hf; [|done..]. rewrite Pe in He, Hf. rewrite !Po.
    destruct (origin_of l r a e He) as (oa & Ea & Ha), (origin_of l r b f Hf) as (ob & Eb & Hb). rewrite Ea, Eb.
    cbn [from_option]. destruct oa, ob; auto; exfalso.
    - destruct (Hcase a b e f) as [Na Nb]; [congruence..|]. rewrite !elem_of_cons, elem_of_nil in Hp. tauto.
    - destruct (Hcase b a f e) as [Na Nb]; [congruence..|]. rewrite !elem_of_cons, elem_of_nil in Hp. tauto. }
  clear Hs Hg. revert E. generalize m1 at 1 3. induction Hall as [|g gs Hg1 Hgs IH]; intros m; cbn [foldM]; [by intros [= <-]|].
  intros E. apply result_bind_Ok in E as (m' & E1 & E). rewrite (IH m' E). by apply (merge_identity_spares l r origin m g).
Qed.

(** Every conflict the merge makes installs the later value. *)
Definition installs_later (c : MetadataConflict) : Prop := mc_later_installed c = true.
Lemma more_weaken (P Q : MetadataConflict -> Prop) m m' : (forall c, P c -> Q c) -> more_conflicts P m m' -> more_conflicts Q m m'.
Proof. intros Hpq (H1 & H2 & H3). split_and!; [done| |done]. intros id c E. destruct (H2 id c E) as [?|[? ?]]; auto. Qed.

Lemma merge_identity_more l r origin m g m' : merge_identity l r origin m g = Ok m' -> more_conflicts installs_later m m'.
Proof.
  unfold merge_identity. destruct g.2 as [|p [|q [|]]]; try (intros [= <-]; apply more_refl). cbv zeta.
  destruct (_ || _); [intros [= <-]; apply more_refl|].
  set (left := bool_decide (default from_left (alookup p origin) = from_left)).
  destruct (alookup (if left then p else q) (mg_entries m)) as [a|]; [|done].
  destruct (alookup (if left then q else p) (mg_entries m)) as [b|]; [|done].
  destruct (negb (bool_decide _)); [intros [= <-]; apply more_refl|]. intros E. apply result_bind_Ok in E as ([e m1] & Es & E).
  injection E as <-. apply (settle_more installs_later) in Es as (Hm & _); [done|]. done.
Qed.
Lemma merge_identities_more l r origin groups m m' :
  foldM (merge_identity l r origin) m groups = Ok m' -> more_conflicts installs_later m m'.
Proof.
  revert m. induction groups as [|g groups IH]; intros m; cbn [foldM]; [intros [= <-]; apply more_refl|].
  intros E. apply result_bind_Ok in E as (m1 & E1 & E). eapply more_trans; [by eapply merge_identity_more | by apply IH].
Qed.

(** ** Directories *)

(** A namespace: normal paths, a root directory, and every entry in a
    directory. *)
Record tree_wf (m : NamespaceEntries) : Prop := {
  tw_sorted : sorted_recs m;
  tw_normal : Forall normal m.*1;
  tw_keys : Forall key_ok m.*1;
  tw_root : is_directory (alookup root_path m) = true;
  tw_parents : forall p e, alookup p m = Some e -> p <> root_path -> is_directory (alookup (parent_path p) m) = true
}.

Definition covered l r (p : Bytes) : Prop := is_directory (side_at l p) = true \/ is_directory (side_at r p) = true.

Lemma tree_at_side (m : NamespaceEntries) p : tree_wf m -> is_directory (alookup p m) = true -> p <> root_path -> is_directory (alookup (parent_path p) m) = true.
Proof. intros Hm Hd Hr. destruct (alookup p m) as [e|] eqn:E; [|done]. by apply (tw_parents m Hm p e). Qed.

Lemma covered_parent l r p :
  tree_wf (sd_entries l) -> tree_wf (sd_entries r) -> covered l r p -> p <> root_path -> covered l r (parent_path p).
Proof. intros Hl Hr [Hc|Hc] Hne; [left | right]; by apply tree_at_side. Qed.
Lemma side_parent l r p e :
  tree_wf (sd_entries l) -> tree_wf (sd_entries r) -> at_side l r p e -> p <> root_path -> covered l r (parent_path p).
Proof. intros Hl Hr [Hc|Hc] Hne; [left | right]; eapply tw_parents; eauto. Qed.
Lemma side_normal l r p e : tree_wf (sd_entries l) -> tree_wf (sd_entries r) -> at_side l r p e -> normal p /\ key_ok p.
Proof.
  intros Hl Hr [Hc|Hc].
  - assert (p ∈ (sd_entries l).*1) by (apply alookup_is_key; eauto).
    split; [pose proof (tw_normal _ Hl) as Hf | pose proof (tw_keys _ Hl) as Hf]; rewrite Forall_forall in Hf; auto.
  - assert (p ∈ (sd_entries r).*1) by (apply alookup_is_key; eauto).
    split; [pose proof (tw_normal _ Hr) as Hf | pose proof (tw_keys _ Hr) as Hf]; rewrite Forall_forall in Hf; auto.
Qed.
Lemma covered_side l r p : covered l r p -> exists e, at_side l r p e.
Proof.
  unfold at_side. intros [Hc|Hc]; [destruct (side_at l p) as [e|]; [|done] | destruct (side_at r p) as [e|]; [|done]]; exists e; auto.
Qed.

(** What making directories does: an entry stays or, if it is no directory,
    gives way to one of a head's and is kept in a conflict; a directory that
    comes back is in a directory. *)
Record made l r m m' : Prop := {
  mk_entry : forall p, alookup p (mg_entries m') = alookup p (mg_entries m) \/
    (is_directory (alookup p (mg_entries m)) = false /\ covered l r p /\ exists d,
       alookup p (mg_entries m') = Some d /\ fe_type d = directory /\ at_side l r p d /\
       forall f, alookup p (mg_entries m) = Some f -> holds_conflict m' (entry_conflict p d f));
  mk_new : forall p, alookup p (mg_entries m) = None -> alookup p (mg_entries m') <> None -> p <> root_path ->
    is_directory (alookup (parent_path p) (mg_entries m')) = true;
  mk_sorted : sorted_recs (mg_entries m) -> sorted_recs (mg_entries m')
}.

Lemma made_refl l r m : made l r m m.
Proof. split; [by left | done | done]. Qed.

Lemma made_directory l r m m' p :
  made l r m m' -> is_directory (alookup p (mg_entries m)) = true -> alookup p (mg_entries m') = alookup p (mg_entries m).
Proof. intros [He _ _] Hd. destruct (He p) as [E|(Hn & _)]; [done | congruence]. Qed.

Lemma made_trans l r P m1 m2 m3 :
  made l r m1 m2 -> made l r m2 m3 -> more_conflicts P m2 m3 -> made l r m1 m3.
Proof.
  intros H12 H23 Hc. pose proof H12 as [E12 N12 S12]. pose proof H23 as [E23 N23 S23]. split; [| |auto].
  - intros p. destruct (E23 p) as [E|(Hn & Hcov & d & Ed & Td & Sd & Hold)].
    + destruct (E12 p) as [E'|(Hn & Hcov & d & Ed & Td & Sd & Hold)]; [left; congruence|]. right. split_and!; [done | done |].
      exists d. split_and!; [congruence | done | done |]. intros f Hf. eapply holds_more; [exact Hc | auto].
    + right. destruct (E12 p) as [E'|(Hn' & _ & d' & Ed' & Td' & _)].
      * rewrite <- E'. split_and!; [done | done |]. exists d. auto.
      * exfalso. rewrite Ed' in Hn. cbn in Hn. by rewrite bool_decide_true in Hn.
  - intros p E1 E3 Hr. destruct (alookup p (mg_entries m2)) as [e|] eqn:E2.
    + assert (is_directory (alookup (parent_path p) (mg_entries m2)) = true) as Hd by (apply N12; [done | by rewrite E2 | done]).
      by rewrite (made_directory l r m2 m3 _ H23 Hd).
    + by apply N23.
Qed.

(** A conflict between two of the values [ok] at a path. *)
Definition between (ok : Bytes -> FsEntry -> Prop) (c : MetadataConflict) : Prop :=
  exists p x y, c = entry_conflict p x y /\ ok p x /\ ok p y.
Definition all_ok (ok : Bytes -> FsEntry -> Prop) m : Prop := forall p e, alookup p (mg_entries m) = Some e -> ok p e.

Lemma made_all_ok l r ok m m' : (forall p e, at_side l r p e -> ok p e) -> made l r m m' -> all_ok ok m -> all_ok ok m'.
Proof.
  intros Hs [He _ _] Hm p e E. destruct (He p) as [E'|(_ & _ & d & Ed & _ & Sd & _)]; [apply Hm; congruence|].
  rewrite Ed in E. injection E as <-. auto.
Qed.

(** The directory a head gives at a path one of them has one at. *)
Lemma head_directory l r ok p m :
  covered l r p -> key_ok p -> (forall p e, at_side l r p e -> ok p e) ->
  exists d m', match is_directory (side_at l p), is_directory (side_at r p), side_at l p, side_at r p with
      | true, true, Some a, Some b => settle l r p a b false m
      | true, _, Some a, _ => Ok (a, m)
      | _, true, _, Some b => Ok (b, m)
      | _, _, _, _ => Throw (RuntimeError "metadata reconciliation lost the directory")
      end = Ok (d, m') /\ fe_type d = directory /\ at_side l r p d /\ mg_entries m' = mg_entries m /\ more_conflicts (between ok) m m'.
Proof.
  intros Hc Hk Hok. unfold covered in Hc. unfold at_side.
  destruct (side_at l p) as [a|] eqn:Ea, (side_at r p) as [b|] eqn:Eb; cbn [is_directory] in *; [| | |by destruct Hc].
  - destruct (bool_decide_reflect (fe_type a = directory)) as [Ta|Ta], (bool_decide_reflect (fe_type b = directory)) as [Tb|Tb].
    + destruct (settle_kept_ok l r p a b false m Hk) as (d & m' & Es & Em & Hd). exists d, m'. split; [done|].
      apply (settle_more (between ok)) in Es as (Hm & _ & _ & _).
      * split_and!; [destruct Hd as [->| ->]; done | destruct Hd as [->| ->]; auto | done | done].
      * assert (ok p a) by (apply Hok; by left). assert (ok p b) by (apply Hok; by right).
        intros x y Hx Hy. exists p, x, y. split_and!; [done | by destruct Hx as [->| ->] | by destruct Hy as [->| ->]].
    + exists a, m. split_and!; auto using more_refl.
    + exists b, m. split_and!; auto using more_refl.
    + by destruct Hc.
  - destruct Hc as [Hc|]; [|done]. rewrite Hc. apply bool_decide_eq_true in Hc. exists a, m. split_and!; auto using more_refl.
  - destruct Hc as [|Hc]; [done|]. rewrite Hc. apply bool_decide_eq_true in Hc. exists b, m. split_and!; auto using more_refl.
Qed.

(** A directory put where there was none. *)
Lemma put_made l r p d m1 m2 :
  is_directory (alookup p (mg_entries m1)) = false -> covered l r p -> fe_type d = directory -> at_side l r p d ->
  (p <> root_path -> is_directory (alookup (parent_path p) (mg_entries m1)) = true /\ parent_path p <> p) ->
  mg_entries m2 = mg_entries m1 ->
  (forall f, alookup p (mg_entries m1) = Some f -> holds_conflict m2 (entry_conflict p d f)) ->
  made l r m1 (put_entry p d m2).
Proof.
  intros Hd Hc Td Sd Hp Em Hf. split.
  - intros q. rewrite put_entry_lookup, Em. destruct (decide (q = p)) as [->|]; [|by left]. right. split_and!; [done | done |].
    exists d. split_and!; [done | done | done |]. intros f E. by apply Hf.
  - intros q E1 E2 Hq. rewrite put_entry_lookup, Em in E2. destruct (decide (q = p)) as [->|]; [|done].
    destruct (Hp Hq) as [Hpd Hne]. by rewrite put_entry_lookup, Em, decide_False.
  - intros Hs. cbn [put_entry mg_entries]. rewrite Em. by apply map_set_sorted.
Qed.

Lemma ensure_directory_ok l r ok fuel p m :
  tree_wf (sd_entries l) -> tree_wf (sd_entries r) -> (forall p e, at_side l r p e -> ok p e) -> all_ok ok m ->
  covered l r p -> (length p < fuel)%nat ->
  exists m', ensure_directory fuel l r p m = Ok m' /\ made l r m m' /\ more_conflicts (between ok) m m' /\
    is_directory (alookup p (mg_entries m')) = true /\
    forall q, (length p < length q)%nat -> alookup q (mg_entries m') = alookup q (mg_entries m).
Proof.
  intros Hl Hr Hok. revert p m. induction fuel as [|fuel IH]; intros p m Hm Hc Hf; [lia|]. cbn [ensure_directory]. cbv zeta.
  destruct (is_directory (alookup p (mg_entries m))) eqn:Ed.
  { exists m. split_and!; [done | apply made_refl | apply more_refl | done | done]. }
  destruct (covered_side l r p Hc) as (e & He). destruct (side_normal l r p e Hl Hr He) as [Hn Hk].
  assert (exists m1, (if bool_decide (p = root_path) then Ok m else ensure_directory fuel l r (parent_path p) m) = Ok m1 /\
    made l r m m1 /\ more_conflicts (between ok) m m1 /\
    (forall q, (length p <= length q)%nat -> alookup q (mg_entries m1) = alookup q (mg_entries m)) /\
    (p <> root_path -> is_directory (alookup (parent_path p) (mg_entries m1)) = true /\ parent_path p <> p)) as (m1 & -> & M1 & C1 & E1 & D1).
  { destruct (bool_decide_reflect (p = root_path)) as [Hr'|Hr'].
    - exists m. split_and!; [done | apply made_refl | apply more_refl | done | done].
    - pose proof (parent_shorter p Hn Hr') as Hlt.
      destruct (IH (parent_path p) m) as (m1 & E1 & M1 & C1 & D1 & L1); [done | by apply covered_parent | lia |].
      exists m1. split_and!; try done; [intros; apply L1; lia|]. intros _. split; [done|]. intros E. rewrite E in Hlt. lia. }
  cbn [mbind result_bind]. destruct (head_directory l r ok p m1 Hc Hk Hok) as (d & m2 & -> & Td & Sd & Em2 & C2). cbn [mbind result_bind].
  pose proof (E1 p (le_n _)) as Ep.
  assert (exists m3, match alookup p (mg_entries m) with Some f => record_conflict p d f m2 | None => Ok m2 end = Ok m3 /\
    mg_entries m3 = mg_entries m1 /\ more_conflicts (between ok) m1 m3 /\
    (forall f, alookup p (mg_entries m1) = Some f -> holds_conflict m3 (entry_conflict p d f))) as (m3 & -> & Em3 & C3 & H3).
  { rewrite Ep. destruct (alookup p (mg_entries m)) as [f|] eqn:Ef; [|by exists m2].
    destruct (record_conflict_ok p d f m2 Hk) as (m3 & E3 & Em3). exists m3. split; [done|]. unfold record_conflict in E3.
    apply (add_conflict_more (between ok)) in E3 as (C3 & Hh & _); [|exists p, d, f; split_and!; auto].
    split_and!; [congruence | by eapply more_trans | by intros f' [= <-]]. }
  cbn [mbind result_bind]. eexists. split; [reflexivity|].
  assert (made l r m1 (put_entry p d m3)) as M3 by (apply put_made; [by rewrite Ep | done..]).
  assert (more_conflicts (between ok) m1 (put_entry p d m3)) as C3' by done.
  split_and!.
  - by apply (made_trans l r (between ok) m m1).
  - by eapply more_trans.
  - rewrite put_entry_lookup, decide_True by done. cbn. by apply bool_decide_true.
  - intros q Hq. rewrite put_entry_lookup, decide_False by (intros ->; lia). rewrite Em3. apply E1. lia.
Qed.

(** ** Every surviving entry is in a directory *)

Definition in_directory m (p : Bytes) : Prop := p <> root_path -> is_directory (alookup (parent_path p) (mg_entries m)) = true.

Lemma made_in_directory l r m m' p : made l r m m' -> in_directory m p -> in_directory m' p.
Proof. intros Hm Hd Hr. specialize (Hd Hr). by rewrite (made_directory l r m m' _ Hm Hd). Qed.

Lemma merge_parents_fold l r ok m2 paths done m :
  tree_wf (sd_entries l) -> tree_wf (sd_entries r) -> (forall p e, at_side l r p e -> ok p e) ->
  (forall p, alookup p (mg_entries m2) <> None -> exists e, at_side l r p e) ->
  all_ok ok m2 -> made l r m2 m -> more_conflicts (between ok) m2 m ->
  (forall p, p ∈ done -> alookup p (mg_entries m) <> None -> in_directory m p) ->
  exists m', foldM (merge_parents_step l r) m paths = Ok m' /\ made l r m2 m' /\ more_conflicts (between ok) m2 m' /\
    forall p, p ∈ done ++ paths -> alookup p (mg_entries m') <> None -> in_directory m' p.
Proof.
  intros Hl Hr Hok Hkeys Ok2. revert done m. induction paths as [|p paths IH]; intros done m Hm Hc Hd.
  { exists m. rewrite app_nil_r. done. }
  cbn [foldM]. assert (exists m1, merge_parents_step l r m p = Ok m1 /\ made l r m m1 /\ more_conflicts (between ok) m m1 /\
    (alookup p (mg_entries m1) <> None -> in_directory m1 p)) as (m1 & -> & M1 & C1 & D1).
  { unfold merge_parents_step. destruct (alookup p (mg_entries m)) as [e|] eqn:E.
    - destruct (bool_decide_reflect (p = root_path)) as [Hr'|Hr'].
      { exists m. split_and!; [done | apply made_refl | apply more_refl | by intros _ ?]. }
      assert (exists e', at_side l r p e') as (e' & He').
      { destruct (mk_entry _ _ _ _ Hm p) as [E'|(_ & Hcov & _)]; [|by apply covered_side]. apply Hkeys. by rewrite <- E', E. }
      destruct (ensure_directory_ok l r ok (S (length (parent_path p))) (parent_path p) m Hl Hr Hok) as (m1 & E1 & M1 & C1 & D1 & _).
      + by apply (made_all_ok l r ok m2).
      + by apply (side_parent l r p e').
      + lia.
      + exists m1. split_and!; [done | done | done |]. by intros _ _.
    - exists m. split_and!; [done | apply made_refl | apply more_refl | by rewrite E]. }
  cbn [mbind result_bind]. rewrite (app_assoc done [p] paths : done ++ p :: paths = _). apply IH.
  - by apply (made_trans l r (between ok) m2 m).
  - by eapply more_trans.
  - intros q [Hq| ->%list_elem_of_singleton]%elem_of_app Eq; [|auto].
    destruct (alookup q (mg_entries m)) as [f|] eqn:E.
    + apply (made_in_directory l r m); [done|]. apply Hd; [done | by rewrite E].
    + intros Hq'. by apply (mk_new _ _ _ _ M1).
Qed.

Lemma merge_namespaces_result l r ok m1 origin m2 :
  tree_wf (sd_entries l) -> tree_wf (sd_entries r) -> (forall p e, at_side l r p e -> ok p e) ->
  foldM (merge_path l r) (mkMerge [] [] 0 [], []) (all_paths l r) = Ok (m1, origin) -> paths_merged l r m1 origin ->
  foldM (merge_identity l r origin) m1 (by_identity (mg_entries m1)) = Ok m2 -> identities_merged m1 origin m2 -> all_ok ok m2 ->
  exists m, merge_namespaces l r = Ok m /\ made l r m2 m /\ more_conflicts (between ok) m2 m /\ tree_wf (mg_entries m).
Proof.
  intros Hl Hr Hok E1 P1 E2 [I2s I2k I2b] Ok2. pose proof P1 as [Ps Pe Po _ _].
  assert (forall p, alookup p (mg_entries m2) <> None -> exists e, at_side l r p e) as Hkeys.
  { intros p Hp. destruct (alookup p (mg_entries m1)) as [e|] eqn:E; [|by rewrite (I2k p E) in Hp]. exists e. apply path_value_side. by rewrite <- Pe. }
  destruct (merge_parents_fold l r ok m2 (all_paths l r) [] m2) as (m & Em & Mm & Cm & Dm);
    [done | done | done | done | done | apply made_refl | apply more_refl | by intros ? ?%elem_of_nil |]. cbn [app] in Dm.
  assert (forall p, alookup p (mg_entries m) <> None -> exists e, at_side l r p e) as Hkeys'.
  { intros p Hp. destruct (mk_entry _ _ _ _ Mm p) as [E|(_ & Hc & _)]; [apply Hkeys; congruence | by apply covered_side]. }
  assert (is_directory (alookup root_path (mg_entries m)) = true) as Hroot.
  { assert (is_directory (alookup root_path (mg_entries m2)) = true) as Hd2.
    { pose proof (tw_root _ Hl) as Dl. pose proof (tw_root _ Hr) as Dr.
      fold (side_at l root_path) in Dl. fold (side_at r root_path) in Dr.
      destruct (side_at l root_path) as [a|] eqn:Ea; [|done]. destruct (side_at r root_path) as [b|] eqn:Eb; [|done].
      rewrite (I2b root_path), Pe by (rewrite Po; unfold path_origin; by rewrite Ea, Eb). unfold path_value. rewrite Ea, Eb. cbn [is_directory] in *.
      destruct (bool_decide (a = b)); [done|]. by destruct (settled_either l r a b false) as [->| ->]. }
    by rewrite (made_directory l r m2 m _ Mm Hd2). }
  exists m. split_and!; [|done|done|].
  - unfold merge_namespaces. cbv zeta. rewrite E1. cbn [mbind result_bind]. rewrite E2. cbn [mbind result_bind]. rewrite Em. cbn [mbind result_bind].
    by rewrite Hroot, andb_false_r.
  - assert (forall p, p ∈ (mg_entries m).*1 -> normal p /\ key_ok p) as Hnk.
    { intros p (e & E)%alookup_is_key. destruct (Hkeys' p) as (e' & He'); [by rewrite E|]. by apply (side_normal l r p e'). }
    split; [by apply (mk_sorted _ _ _ _ Mm) | apply Forall_forall; intros; by apply Hnk | apply Forall_forall; intros; by apply Hnk | done |].
    intros p e E Hp. apply (Dm p); [|by rewrite E | done]. apply all_paths_elem, Hkeys'. by rewrite E.
Qed.

(** ** Pruning *)

(** A conflict whose resolution keeps a directory a directory. *)
Definition type_kept (c : MetadataConflict) : Prop :=
  mc_later_installed c = true \/
  exists base, mc_base_entry c = Some base /\ forall a b, mc_left_entry c = Some a -> mc_right_entry c = Some b -> fe_type a = fe_type base.

Definition same_kinds (m m' : NamespaceEntries) : Prop :=
  (sorted_recs m -> sorted_recs m') /\
  forall p, (alookup p m' = None <-> alookup p m = None) /\ is_directory (alookup p m') = is_directory (alookup p m).

Lemma superseded_kinds root dot entries c :
  type_kept c -> same_kinds entries (superseded None root dot entries c).2.
Proof.
  intros Hk. unfold superseded. destruct (mc_kind c); [|done].
  destruct (bool_decide_reflect (alookup (mc_key c) entries = conflict_installed_entry c)) as [Hlive|]; [|done]. cbn [negb].
  destruct (mc_later_installed c) eqn:El; [done|]. destruct (mc_left_entry c) as [a|] eqn:Ea; [|done]. destruct (mc_right_entry c) as [b|] eqn:Eb; [|done].
  destruct (same_content a b) eqn:Es; [|done]. cbn [snd].
  destruct Hk as [Hk|(base & Ebase & Ht)]; [congruence|]. specialize (Ht a b Ea Eb).
  unfold conflict_installed_entry in Hlive. rewrite El, Ebase in Hlive. unfold same_content in Es. rewrite !andb_true_iff in Es.
  destruct Es as (((((Et & _) & _) & _) & _) & _). apply bool_decide_eq_true in Et.
  split; [apply map_set_sorted|]. intros p. rewrite map_set_lookup. destruct (decide (p = mc_key c)) as [->|]; [|done].
  rewrite Hlive. split; [done|]. cbn [is_directory]. destruct (key_ltb a b); [by rewrite Ht | by rewrite <- Et, Ht].
Qed.

Lemma prune_kinds (s : MetadataSnapshot) :
  Forall (fun e => type_kept e.2) (sn_conflicts s) -> same_kinds (sn_entries s) (sn_entries (prune_superseded_conflicts None s).1).
Proof.
  intros Hk. unfold prune_superseded_conflicts.
  assert (forall conflicts entries kept n, Forall (fun e => type_kept e.2) conflicts ->
    same_kinds entries (foldl (prune_step None (sn_catalogue_root s) (sn_catalogue_dot s)) (entries, kept, n) conflicts).1.1) as Hfold.
  { clear Hk. intros conflicts. induction conflicts as [|[id c] conflicts IH]; intros entries kept n Hk; [done|].
    apply Forall_cons in Hk as [Hc Hk]. cbn [foldl]. unfold prune_step at 2. cbn [snd] in *.
    pose proof (superseded_kinds (sn_catalogue_root s) (sn_catalogue_dot s) entries c Hc) as [Hs Hp].
    destruct (superseded None _ _ entries c) as [gone entries']. cbn [snd] in *.
    assert (forall kept n, same_kinds entries (foldl (prune_step None (sn_catalogue_root s) (sn_catalogue_dot s)) (entries', kept, n) conflicts).1.1) as Hr.
    { intros kept' n'. destruct (IH entries' kept' n' Hk) as [Hs' Hp']. split; [auto|]. intros p. destruct (Hp p) as [P1 P2], (Hp' p) as [Q1 Q2].
      split; [by rewrite Q1 | by rewrite Q2]. }
    destruct gone; apply Hr. }
  specialize (Hfold (sn_conflicts s) (sn_entries s) [] 0%nat Hk).
  by destruct (foldl _ _ (sn_conflicts s)) as [[entries kept] n].
Qed.

Lemma same_kinds_tree (m m' : NamespaceEntries) : same_kinds m m' -> tree_wf m -> tree_wf m'.
Proof.
  intros [Hs Hp] [Ts Tn Tk Tr Tp].
  assert (forall p, p ∈ m'.*1 -> p ∈ m.*1) as Hin.
  { intros p Hin. destruct (decide (p ∈ m.*1)) as [|Hn]; [done|]. apply alookup_None in Hn. apply (Hp p) in Hn. by apply alookup_None in Hn. }
  rewrite Forall_forall in Tn. rewrite Forall_forall in Tk. split; [auto | apply Forall_forall; auto | apply Forall_forall; auto | |].
  - by rewrite (proj2 (Hp root_path)).
  - intros p e E Hr. rewrite (proj2 (Hp (parent_path p))). destruct (alookup p m) as [e'|] eqn:E'; [by apply (Tp p e')|].
    apply (Hp p) in E'. congruence.
Qed.
End merge.
