(* ===== verification/MetadataMergeClaims.v ===== *)
(** * The merge of two heads: what it promises

    A merge of two namespaces is a namespace and does not throw; it is the
    same whichever node merges; the merged head has seen what either had; a
    head that descends from the other is taken as it is; and a change the
    other head has not seen, of a file that was not moved, is in the result,
    or in a conflict. *)

From S2P Require Import Prelude Sorts Maps Orders Codec TorrentRequest Journal Paths Metadata MetadataCodec MetadataMerge MetadataMergeProofs.

(** ** Records and conflicts *)

Lemma add_conflicts_lookup (m other : Conflicts) id :
  sorted_recs other -> alookup id (add_conflicts m other) = match alookup id m with Some c => Some c | None => alookup id other end.
Proof.
  unfold add_conflicts. revert m. induction other as [|[id' c] other IH]; intros m Hs; cbn [foldl fst snd]; [by destruct (alookup id m)|].
  apply sorted_recs_cons in Hs as [Hf Hs]. rewrite IH, alookup_cons by done. unfold map_emplace.
  destruct (alookup id' m) as [c'|] eqn:E; cbn [from_option].
  - destruct (decide (id = id')) as [->|]; [by rewrite E | done].
  - unfold Datatypes.id. rewrite map_set_lookup. destruct (decide (id = id')) as [->|]; [by rewrite E | done].
Qed.
Lemma add_conflicts_sorted (m other : Conflicts) : sorted_recs m -> sorted_recs (add_conflicts m other).
Proof.
  unfold add_conflicts. revert m. induction other as [|[id c] other IH]; intros m Hs; cbn [foldl fst snd]; [done|]. apply IH.
  unfold map_emplace. destruct (alookup id m); cbn; [done | by apply map_set_sorted].
Qed.
Lemma add_conflicts_Forall (P : Bytes * MetadataConflict -> Prop) (m other : Conflicts) :
  Forall P m -> Forall P other -> Forall P (add_conflicts m other).
Proof.
  unfold add_conflicts. revert m. induction other as [|[id c] other IH]; intros m Hm Ho; cbn [foldl fst snd]; [done|].
  apply Forall_cons in Ho as [Hc Ho]. apply IH; [|done]. unfold map_emplace. destruct (alookup id m); cbn; [done|].
  apply Forall_forall. intros e [->|He]%map_set_keys; [done|]. rewrite Forall_forall in Hm. auto.
Qed.

(** With only conflicts that install the later value, pruning leaves the
    entries and drops what is superseded. *)
Lemma prune_later (s : MetadataSnapshot) :
  Forall (fun e => installs_later e.2) (sn_conflicts s) ->
  let out := (prune_superseded_conflicts None s).1 in
  sn_entries out = sn_entries s /\
  sn_conflicts out = base.filter (fun e => (superseded None (sn_catalogue_root s) (sn_catalogue_dot s) (sn_entries s) e.2).1 = false)
    (sn_conflicts s).
Proof.
  intros Hk. cbv zeta. unfold prune_superseded_conflicts.
  assert (forall conflicts kept n, Forall (fun e => installs_later e.2) conflicts ->
    exists n', foldl (prune_step None (sn_catalogue_root s) (sn_catalogue_dot s)) (sn_entries s, kept, n) conflicts =
      (sn_entries s, kept ++ base.filter (fun e => (superseded None (sn_catalogue_root s) (sn_catalogue_dot s) (sn_entries s) e.2).1 = false) conflicts, n')) as Hfold.
  { clear Hk. intros conflicts. induction conflicts as [|[id c] conflicts IH]; intros kept n Hk; [by exists n; rewrite app_nil_r|].
    apply Forall_cons in Hk as [Hc Hk]. unfold installs_later in Hc. cbn [snd] in Hc. cbn [foldl]. unfold prune_step at 2. cbn [snd].
    assert ((superseded None (sn_catalogue_root s) (sn_catalogue_dot s) (sn_entries s) c).2 = sn_entries s) as E2.
    { unfold superseded. destruct (mc_kind c); [|done]. destruct (negb _); [done|]. by rewrite Hc. }
    rewrite filter_cons. cbn [snd]. destruct (superseded _ _ _ _ c) as [gone entries]. cbn [fst snd] in *. rewrite E2.
    destruct gone.
    - destruct (IH kept (S n) Hk) as (n' & En'). exists n'. rewrite decide_False by done. exact En'.
    - destruct (IH (kept ++ [(id, c)]) n Hk) as (n' & En'). exists n'. rewrite decide_True by done. etransitivity; [exact En'|]. by rewrite <- app_assoc. }
  destruct (Hfold (sn_conflicts s) [] 0%nat Hk) as (n' & E). cbn [app] in E. revert E.
  destruct (foldl _ _ (sn_conflicts s)) as [[entries kept] n]. intros [= -> -> ->]. done.
Qed.

Section claims.
Context `{Sha256}.

Lemma merge_catalogue_ok l r lh rh m :
  exists root dot m', merge_catalogue l r lh rh m = Ok (root, dot, m') /\ mg_entries m' = mg_entries m /\
    more_conflicts (fun c => exists t, c = catalogue_conflict t (sd_snapshot l) (sd_snapshot r) lh rh) m m'.
Proof.
  unfold merge_catalogue. cbv zeta. destruct (bool_decide _); [eexists _, _, m; split_and!; [reflexivity | done | apply more_refl]|].
  destruct (negb _); cbn [mbind result_bind]; [eexists _, _, m; split_and!; [reflexivity | done | apply more_refl]|].
  set (t := _ || _). destruct (add_conflict_ok catalogue_key (catalogue_conflict t (sd_snapshot l) (sd_snapshot r) lh rh) m) as (m' & E & Em).
  { unfold key_ok. vm_compute. congruence. }
  rewrite E. cbn [mbind result_bind]. eexists _, _, m'. split_and!; [reflexivity | done |].
  by eapply add_conflict_more; [|exact E]; exists t.
Qed.

(** The merge of two namespaces in order, and all the conflicts it holds. *)
Lemma merge_ordered_ok left right le re lh rh m :
  merge_namespaces (side left le) (side right re) = Ok m ->
  exists root dot m', merge_catalogue (side left le) (side right re) lh rh m = Ok (root, dot, m') /\
    mg_entries m' = mg_entries m /\
    more_conflicts (fun c => exists t, c = catalogue_conflict t left right lh rh) m m' /\
    let out := prune_superseded_conflicts None (merged_snapshot left right root dot m') in
    merge_ordered left right le re lh rh = Ok (mkMergeResult out.1 (mg_created m') (mg_keys m') out.2).
Proof.
  intros E. destruct (merge_catalogue_ok (side left le) (side right re) lh rh m) as (root & dot & m' & Ec & Em & Hc).
  exists root, dot, m'. split_and!; [done | done | done |]. cbv zeta. unfold merge_ordered. rewrite E. cbn [mbind result_bind]. rewrite Ec.
  cbn [mbind result_bind]. by destruct (prune_superseded_conflicts _ _).
Qed.

(** ** A namespace again *)

Lemma merge_ordered_tree left right le re lh rh :
  tree_wf le -> tree_wf re -> Forall (fun e => type_kept e.2) (sn_conflicts left) -> Forall (fun e => type_kept e.2) (sn_conflicts right) ->
  exists res, merge_ordered left right le re lh rh = Ok res /\ tree_wf (sn_entries (mm_snapshot res)).
Proof.
  intros Hl Hr Cl Cr. set (l := side left le). set (r := side right re).
  destruct (merge_paths_ok l r) as (m1 & origin & E1 & P1); [exact (tw_keys _ Hl) | exact (tw_keys _ Hr) |].
  destruct (merge_identities_ok l r m1 origin) as (m2 & E2 & I2); [exact (tw_keys _ Hl) | exact (tw_keys _ Hr) | done |].
  destruct (merge_namespaces_result l r (fun _ _ => True) m1 origin m2) as (m & Em & _ & Cm & Tm); try done.
  destruct (merge_ordered_ok left right le re lh rh m Em) as (root & dot & m' & _ & Em' & Cm' & Eo).
  eexists. split; [exact Eo|]. cbn [mm_snapshot]. eapply same_kinds_tree; [apply prune_kinds|].
  - assert (more_conflicts installs_later (mkMerge [] [] 0 []) m') as (_ & Hall & Hsorted).
    { apply (more_trans _ _ m1); [eapply more_weaken; [|exact (pm_conflicts _ _ _ _ P1)]; by intros c (p & x & y & -> & _)|].
      apply (more_trans _ _ m2); [by eapply merge_identities_more|].
      apply (more_trans _ _ m); [eapply more_weaken; [|exact Cm]; by intros c (p & x & y & -> & _)|].
      eapply more_weaken; [|exact Cm']. by intros c (t & ->). }
    cbn [merged_snapshot sn_conflicts]. apply add_conflicts_Forall; [|done]. apply add_conflicts_Forall; [|done].
    apply Forall_forall. intros [id c] Hin. left. apply elem_alookup_Some in Hin; [|apply Hsorted; constructor].
    by destruct (Hall id c Hin) as [|[_ ?]].
  - cbn [merged_snapshot sn_entries]. by rewrite Em'.
Qed.

Lemma heads_over_tree left right le re lh rh :
  tree_wf le -> tree_wf re -> Forall (fun e => type_kept e.2) (sn_conflicts left) -> Forall (fun e => type_kept e.2) (sn_conflicts right) ->
  exists res, merge_metadata_heads_over left right le re lh rh = Ok res /\ tree_wf (sn_entries (mm_snapshot res)).
Proof.
  intros Hl Hr Cl Cr. unfold merge_metadata_heads_over. destruct (bool_decide _); [by eexists|].
  destruct (key_ltb _ _); by apply merge_ordered_tree.
Qed.

(** C7. Merging two namespaces gives a namespace, and never throws: when
    both heads hold one (normal paths, every entry in a directory, a root
    directory), the merge returns, whichever entries were removed, renamed
    or replaced by files, and in its result every entry is in a directory
    again. Standing conflicts must not turn a directory into a file when
    they resolve themselves, which those that install the later value never
    do. *)
Theorem merge_keeps_tree (left right : MetadataSnapshot) (left_entries right_entries : NamespaceEntries) (left_head right_head : Hash256) :
  tree_wf left_entries -> tree_wf right_entries ->
  Forall (fun e => type_kept e.2) (sn_conflicts left) -> Forall (fun e => type_kept e.2) (sn_conflicts right) ->
  exists res, merge_metadata_heads_over left right left_entries right_entries left_head right_head = Ok res /\
    tree_wf (sn_entries (mm_snapshot res)).
Proof. apply heads_over_tree. Qed.

(** Whichever node merges two heads, and in whichever order it names
    them, it computes the same record: two different heads merge to the same
    result, or to the same exception, from either side. *)
Theorem merge_commutes (left right : MetadataSnapshot) (left_entries right_entries : NamespaceEntries) (left_head right_head : Hash256) :
  left_head <> right_head ->
  merge_metadata_heads_over left right left_entries right_entries left_head right_head =
  merge_metadata_heads_over right left right_entries left_entries right_head left_head.
Proof.
  intros Hne. unfold merge_metadata_heads_over. rewrite !bool_decide_false by done.
  destruct (key_trichotomy left_head right_head) as [Hlt|[?|Hlt]]; [|done|]; rewrite Hlt, (key_lt_asym _ _ Hlt); done.
Qed.

(** ** Clocks *)

Definition clock_sane (c : VersionClock) : Prop := sorted_recs c /\ forall k s, alookup k c = Some s -> 0 <= s.

Lemma join_lookup (clock other : VersionClock) k :
  sorted_recs other -> alookup k (join_clock clock other) =
    match alookup k other with Some s => Some (Z.max (default 0 (alookup k clock)) s) | None => alookup k clock end.
Proof.
  unfold join_clock. revert clock. induction other as [|[k' s] other IH]; intros clock Hs; cbn [foldl fst snd]; [done|].
  apply sorted_recs_cons in Hs as [Hf Hs]. rewrite IH, alookup_cons, map_set_lookup by done.
  destruct (decide (k = k')) as [->|]; [|done]. by rewrite alookup_below.
Qed.
Lemma join_sorted (clock other : VersionClock) : sorted_recs clock -> sorted_recs (join_clock clock other).
Proof.
  unfold join_clock. revert clock. induction other as [|[k s] other IH]; intros clock Hs; cbn [foldl fst snd]; [done|].
  by apply IH, map_set_sorted.
Qed.

Lemma join_covers clock other d :
  clock_sane clock -> clock_sane other -> clock_covers (join_clock clock other) d = clock_covers clock d || clock_covers other d.
Proof.
  intros [Sc Nc] [So No]. unfold clock_covers. rewrite join_lookup by done. specialize (Nc (dot_author d)). specialize (No (dot_author d)).
  destruct (alookup (dot_author d) other) as [s|]; [|by rewrite orb_false_r].
  destruct (alookup (dot_author d) clock) as [t|]; cbn [from_option].
  - unfold Datatypes.id. destruct (Z.leb_spec (dot_seq d) (Z.max t s)), (Z.leb_spec (dot_seq d) t), (Z.leb_spec (dot_seq d) s); cbn; lia || done.
  - specialize (No s eq_refl). rewrite Z.max_r by lia. done.
Qed.

Lemma prune_fields (s : MetadataSnapshot) :
  let out := (prune_superseded_conflicts None s).1 in
  sn_mutation_sequences out = sn_mutation_sequences s /\ sn_catalogue_root out = sn_catalogue_root s /\
  sn_catalogue_dot out = sn_catalogue_dot s.
Proof. cbv zeta. unfold prune_superseded_conflicts. by destruct (foldl _ _ _) as [[entries kept] n]. Qed.

Lemma merge_ordered_inv left right le re lh rh res :
  merge_ordered left right le re lh rh = Ok res ->
  exists root dot m, mm_snapshot res = (prune_superseded_conflicts None (merged_snapshot left right root dot m)).1.
Proof.
  unfold merge_ordered. cbv zeta. intros E. apply result_bind_Ok in E as (m & _ & E). apply result_bind_Ok in E as ([[root dot] m'] & _ & E).
  exists root, dot, m'. destruct (prune_superseded_conflicts _ _) as [out n]. by injection E as <-.
Qed.

(** The merged head has seen exactly what either head had: its clock
    covers a mutation when the clock of one of the two covers it. *)
Theorem merge_joins_clocks (left right : MetadataSnapshot) (left_entries right_entries : NamespaceEntries) (left_head right_head : Hash256)
    (res : MetadataMergeResult) (d : MetadataDot) :
  clock_sane (sn_mutation_sequences left) -> clock_sane (sn_mutation_sequences right) -> left_head <> right_head ->
  merge_metadata_heads_over left right left_entries right_entries left_head right_head = Ok res ->
  clock_covers (sn_mutation_sequences (mm_snapshot res)) d =
    clock_covers (sn_mutation_sequences left) d || clock_covers (sn_mutation_sequences right) d.
Proof.
  intros Cl Cr Hne. unfold merge_metadata_heads_over. rewrite bool_decide_false by done.
  destruct (key_ltb _ _); intros (root & dot & m & ->)%merge_ordered_inv; rewrite (proj1 (prune_fields _)); cbn [merged_snapshot sn_mutation_sequences].
  - rewrite join_covers by done. apply orb_comm.
  - by apply join_covers.
Qed.

(** ** A head that descends from the other *)

(** [new] has seen all of [old], and [old] nothing that [new] changed since. *)
Record descends (old new : Side) : Prop := {
  de_seen : forall p a, side_at old p = Some a -> name_seen new old a = true /\ content_seen new old a = true;
  de_unseen : forall p b, side_at new p = Some b -> side_at old p <> Some b -> name_seen old new b && content_seen old new b = false;
  (** A change is more than a change of provenance. *)
  de_changed : forall p a b, side_at old p = Some a -> side_at new p = Some b -> without_provenance a = without_provenance b -> a = b
}.

Lemma seen_at_false viewer owner e : seen_at viewer owner false e = name_seen viewer owner e && content_seen viewer owner e.
Proof. unfold seen_at. cbn [orb]. apply andb_comm. Qed.

(** In whichever order, a path has the value of the descendant. *)
Lemma descends_settled old new p a b :
  descends old new -> side_at old p = Some a -> side_at new p = Some b -> a <> b ->
  settled old new a b false = b /\ concurrent old new a b false = false /\
  settled new old b a false = b /\ concurrent new old b a false = false.
Proof.
  intros [Ds Du Dc] Ea Eb Hne. destruct (Ds p a Ea) as [Na Ca].
  assert (name_seen old new b && content_seen old new b = false) as Hb by (apply (Du p b Eb); congruence).
  unfold settled, concurrent. rewrite !seen_at_false, Na, Ca, Hb. cbn [andb negb Bool.eqb].
  rewrite !bool_decide_false; [done| |]; intros E; apply Hne; [|symmetry in E]; by apply (Dc p).
Qed.

Lemma descends_values old new p :
  descends old new ->
  path_value old new p = side_at new p /\ path_value new old p = side_at new p /\
  path_origin old new p <> Some from_left /\ path_origin new old p <> Some from_right.
Proof.
  intros Hd. pose proof Hd as [Ds Du Dc]. unfold path_value, path_origin.
  destruct (side_at old p) as [a|] eqn:Ea, (side_at new p) as [b|] eqn:Eb.
  - destruct (decide (a = b)) as [->|Hne]; [by rewrite bool_decide_true|]. rewrite !bool_decide_false by congruence.
    destruct (descends_settled old new p a b Hd Ea Eb Hne) as (-> & _ & -> & _). done.
  - destruct (Ds p a Ea) as [Na Ca]. rewrite removed_by_seen, Na, Ca. done.
  - assert (name_seen old new b && content_seen old new b = false) as Hb by (apply (Du p b Eb); congruence).
    rewrite removed_by_seen, Hb. done.
  - done.
Qed.

(** Without concurrent changes the first pass records nothing. *)
Lemma merge_paths_quiet l r paths m origin m' origin' :
  (forall p a b, side_at l p = Some a -> side_at r p = Some b -> a <> b -> concurrent l r a b false = false) ->
  foldM (merge_path l r) (m, origin) paths = Ok (m', origin') ->
  mg_conflicts m' = mg_conflicts m /\ mg_created m' = mg_created m /\ mg_keys m' = mg_keys m.
Proof.
  intros Hq. revert m origin. induction paths as [|p paths IH]; intros m origin; cbn [foldM]; [by intros [= -> ->]|].
  intros E. apply result_bind_Ok in E as ([m1 o1] & E1 & E). apply IH in E as (-> & -> & ->). revert E1. unfold merge_path.
  destruct (side_at l p) as [a|] eqn:Ea, (side_at r p) as [b|] eqn:Eb.
  - destruct (bool_decide_reflect (a = b)) as [|Hne]; [by intros [= <- <-]|].
    rewrite settle_eq, (Hq p a b Ea Eb Hne). by intros [= <- <-].
  - destruct (removed_by _ _ _); by intros [= <- <-].
  - destruct (removed_by _ _ _); by intros [= <- <-].
  - by intros [= <- <-].
Qed.

Lemma taken_whole l r d :
  tree_wf (sd_entries l) -> tree_wf (sd_entries r) -> tree_wf (sd_entries d) -> no_pairs l r ->
  (forall p, path_value l r p = side_at d p) ->
  (forall p a b, side_at l p = Some a -> side_at r p = Some b -> a <> b -> concurrent l r a b false = false) ->
  merge_namespaces l r = Ok (mkMerge (sd_entries d) [] 0 []).
Proof.
  intros Tl Tr Td Hn Hv Hq. destruct (merge_paths_ok l r) as (m & origin & E1 & P1); [exact (tw_keys _ Tl) | exact (tw_keys _ Tr) |].
  destruct (merge_paths_quiet _ _ _ _ _ _ _ Hq E1) as (C1 & C2 & C3).
  assert (m = mkMerge (sd_entries d) [] 0 []) as ->.
  { destruct m as [me mc mn mk]. cbn in C1, C2, C3. subst. f_equal. apply sorted_recs_ext; [exact (pm_sorted _ _ _ _ P1) | exact (tw_sorted _ Td) |].
    intros p. etransitivity; [exact (pm_entries _ _ _ _ P1 p) | exact (Hv p)]. }
  unfold merge_namespaces. cbv zeta. rewrite E1. cbn [mbind result_bind]. rewrite (no_pairs_pass l r _ origin) by done. cbn [mbind result_bind].
  set (m := mkMerge (sd_entries d) [] 0 []).
  assert (forall p, merge_parents_step l r m p = Ok m) as Hstep.
  { intros p. unfold merge_parents_step. destruct (alookup p (mg_entries m)) as [e|] eqn:E; [|done].
    destruct (bool_decide_reflect (p = root_path)) as [|Hr]; [done|]. unfold directory_of. cbn [ensure_directory]. cbv zeta.
    by rewrite (tw_parents _ Td p e E Hr : is_directory (alookup (parent_path p) (mg_entries m)) = true). }
  assert (foldM (merge_parents_step l r) m (all_paths l r) = Ok m) as ->.
  { clear -Hstep. induction (all_paths l r) as [|p ps IH]; [done|]. cbn [foldM]. rewrite Hstep. exact IH. }
  cbn [mbind result_bind]. by rewrite (tw_root _ Td : is_directory (alookup root_path (mg_entries m)) = true), andb_false_r.
Qed.

(** Its catalogue root, too. *)
Record descends_catalogue (old new : Side) : Prop := {
  dc_seen : catalogue_seen new old = true;
  dc_unseen : sn_catalogue_root (sd_snapshot old) <> sn_catalogue_root (sd_snapshot new) -> catalogue_seen old new = false
}.

Lemma catalogue_taken l r lh rh m (old new : Side) :
  (l = old /\ r = new) \/ (l = new /\ r = old) -> descends_catalogue old new ->
  exists dot, merge_catalogue l r lh rh m = Ok (sn_catalogue_root (sd_snapshot new), dot, m).
Proof.
  intros Hlr [Hs Hu]. unfold merge_catalogue. cbv zeta.
  destruct (decide (sn_catalogue_root (sd_snapshot old) = sn_catalogue_root (sd_snapshot new))) as [E|Hne].
  - destruct Hlr as [[-> ->]|[-> ->]]; rewrite bool_decide_true by done; rewrite ?E; eauto.
  - specialize (Hu Hne). destruct Hlr as [[-> ->]|[-> ->]]; rewrite bool_decide_false by congruence; rewrite Hs, Hu; cbn; eauto.
Qed.

Lemma clock_taken old new :
  clock_sane old -> clock_sane new -> clock_covers_clock new old = true ->
  join_clock old new = new /\ join_clock new old = new.
Proof.
  intros [So No] [Sn Nn] Hc. unfold clock_covers_clock in Hc. rewrite forallb_forall in Hc.
  assert (forall k s, alookup k old = Some s -> exists t, alookup k new = Some t /\ s <= t) as Hle.
  { intros k s E. specialize (Hc (k, s)). apply alookup_Some_elem, list_elem_of_In in E. specialize (Hc E). cbn [fst snd] in Hc.
    destruct (alookup k new) as [t|]; [|done]. exists t. split; [done|]. lia. }
  split; (apply sorted_recs_ext; [by apply join_sorted | done |]); intros k; rewrite join_lookup by done.
  - destruct (alookup k new) as [t|] eqn:En.
    + f_equal. destruct (alookup k old) as [s|] eqn:Eo; cbn [from_option].
      * destruct (Hle k s Eo) as (t' & Et' & Hst). unfold Datatypes.id. apply Z.max_r. congruence.
      * apply Z.max_r. eauto.
    + destruct (alookup k old) as [s|] eqn:Eo; [|done]. destruct (Hle k s Eo) as (t' & Et' & _). congruence.
  - destruct (alookup k old) as [s|] eqn:Eo; [|done]. destruct (Hle k s Eo) as (t' & Et' & Hst). rewrite Et'. cbn [from_option]. unfold Datatypes.id.
    f_equal. by apply Z.max_l.
Qed.


(** ** Changes the other head has not seen *)

Lemma same_content_refl a : same_content a a = true.
Proof. unfold same_content. rewrite !bool_decide_true, !Z.eqb_refl by done. done. Qed.
Lemma same_content_sym a b : same_content a b = same_content b a.
Proof.
  unfold same_content. rewrite (bool_decide_ext (fe_type a = fe_type b) (fe_type b = fe_type a)) by done.
  rewrite (bool_decide_ext (fe_extents a = fe_extents b) (fe_extents b = fe_extents a)) by done.
  by rewrite (Z.eqb_sym (fe_mode a)), (Z.eqb_sym (fe_uid a)), (Z.eqb_sym (fe_gid a)), (Z.eqb_sym (fe_size a)).
Qed.

(** The entry [x] at [p] is one head's and the other has not seen it. *)
Definition unseen_change l r (p : Bytes) (x : FsEntry) : Prop :=
  (side_at l p = Some x /\ name_seen r l x && content_seen r l x = false) \/
  (side_at r p = Some x /\ name_seen l r x && content_seen l r x = false).

Lemma unseen_both l r m1 origin p a b :
  paths_merged l r m1 origin -> side_at l p = Some a -> side_at r p = Some b ->
  exists e, path_value l r p = Some e /\ (e = a \/ e = b) /\
    (name_seen r l a && content_seen r l a = false ->
       without_provenance e = without_provenance a \/ same_content e a = true \/ holds_conflict m1 (entry_conflict p e a)) /\
    (name_seen l r b && content_seen l r b = false ->
       without_provenance e = without_provenance b \/ same_content e b = true \/ holds_conflict m1 (entry_conflict p e b)).
Proof.
  intros P1 Ea Eb. unfold path_value. rewrite Ea, Eb. eexists. split; [reflexivity|].
  destruct (bool_decide_reflect (a = b)) as [->|Hne]; [split_and!; auto|].
  split; [apply settled_either|]. pose proof (pm_recorded _ _ _ _ P1 p a b Ea Eb Hne) as Hrec. revert Hrec. unfold settled, concurrent.
  rewrite !seen_at_false. destruct (bool_decide_reflect (without_provenance a = without_provenance b)) as [Hw|Hw].
  { intros _. destruct (key_ltb _ _); rewrite ?Hw; auto. }
  cbn [negb andb]. destruct (name_seen r l a && content_seen r l a), (name_seen l r b && content_seen l r b); cbn [andb negb Bool.eqb];
    try (intros _; split; intros; (done || by left)).
  destruct (same_content a b) eqn:Es; [intros _|].
  - assert (same_content b a = true) by (by rewrite same_content_sym).
    destruct (key_ltb a b); split; auto using same_content_refl.
  - intros Hrec. specialize (Hrec eq_refl). rewrite later_entry_first in *. destruct (first_later a b); split; auto.
Qed.

Lemma unseen_value l r m1 origin p x :
  paths_merged l r m1 origin -> unseen_change l r p x ->
  exists e o, path_value l r p = Some e /\ (e = x \/ e = o) /\ (forall z, at_side l r p z -> z = x \/ z = o) /\
    (without_provenance e = without_provenance x \/ same_content e x = true \/ holds_conflict m1 (entry_conflict p e x)).
Proof.
  intros P1 Hx. unfold at_side.
  destruct (side_at l p) as [a|] eqn:Ea, (side_at r p) as [b|] eqn:Eb.
  - destruct (unseen_both l r m1 origin p a b P1 Ea Eb) as (e & Ee & Hab & Ha & Hb). exists e. destruct Hx as [[E Hs]|[E Hs]].
    + rewrite Ea in E. injection E as <-. exists b. split_and!; [done | done | intros z [[= ->]|[= ->]]; auto | auto].
    + rewrite Eb in E. injection E as <-. exists a. split_and!; [done | tauto | intros z [[= ->]|[= ->]]; auto | auto].
  - destruct Hx as [[E Hs]|[E _]]; [|congruence]. rewrite Ea in E. injection E as <-. exists a, a. unfold path_value. rewrite Ea, Eb, removed_by_seen, Hs.
    split_and!; [done | by left | intros z [[= ->]|?]; auto; done | by left].
  - destruct Hx as [[E _]|[E Hs]]; [congruence|]. rewrite Eb in E. injection E as <-. exists b, b. unfold path_value. rewrite Ea, Eb, removed_by_seen, Hs.
    split_and!; [done | by left | intros z [?|[= ->]]; auto; done | by left].
  - destruct Hx as [[E _]|[E _]]; congruence.
Qed.

(** The conflicts a merge of two heads can hold: those it records over entries
    and over the catalogue root, any between two entries of the heads at one
    path, and those that stand. *)
Definition may_hold (left right : MetadataSnapshot) l r (lh rh : Hash256) (c : MetadataConflict) : Prop :=
  (exists id m, merge_namespaces l r = Ok m /\ alookup id (mg_conflicts m) = Some c) \/
  between (at_side l r) c \/ (exists t, c = catalogue_conflict t left right lh rh) \/
  (exists id, (id, c) ∈ sn_conflicts left) \/ (exists id, (id, c) ∈ sn_conflicts right).
(** No two of them have one id. *)
Definition ids_apart (left right : MetadataSnapshot) l r (lh rh : Hash256) : Prop :=
  forall c c' id, may_hold left right l r lh rh c -> may_hold left right l r lh rh c' ->
    metadata_conflict_id c = Ok id -> metadata_conflict_id c' = Ok id -> c = c'.
Definition standing_ok (s : MetadataSnapshot) : Prop :=
  sorted_recs (sn_conflicts s) /\ Forall (fun e => installs_later e.2 /\ metadata_conflict_id e.2 = Ok e.1) (sn_conflicts s).

(** [x] is in [s] at [p], in what it holds or as the alternative of a
    conflict over it. *)
Definition kept_at (s : MetadataSnapshot) (p : Bytes) (x : FsEntry) : Prop :=
  exists e, alookup p (sn_entries s) = Some e /\
    (without_provenance e = without_provenance x \/ same_content e x = true \/
     exists id, alookup id (sn_conflicts s) = Some (entry_conflict p e x)).

Lemma merge_ordered_keeps left right le re lh rh :
  let l := side left le in let r := side right re in
  tree_wf le -> tree_wf re -> standing_ok left -> standing_ok right -> ids_apart left right l r lh rh ->
  exists res, merge_ordered left right le re lh rh = Ok res /\
    forall p x, unseen_change l r p x -> unmoved l r p x -> kept_at (mm_snapshot res) p x.
Proof.
  intros l r Tl Tr [Sl Kl] [Sr Kr] Hids.
  destruct (merge_paths_ok l r) as (m1 & origin & E1 & P1); [exact (tw_keys _ Tl) | exact (tw_keys _ Tr) |].
  destruct (merge_identities_ok l r m1 origin) as (m2 & E2 & I2); [exact (tw_keys _ Tl) | exact (tw_keys _ Tr) | done |].
  destruct (merge_namespaces_result l r (fun _ _ => True) m1 origin m2) as (m & Em & Mm & Cm & _); try done.
  destruct (merge_ordered_ok left right le re lh rh m Em) as (root & dot & m' & _ & Em' & Cm' & Eo).
  eexists. split; [exact Eo|]. cbn [mm_snapshot]. set (s := merged_snapshot left right root dot m').
  assert (more_conflicts installs_later m1 m) as C1m.
  { apply (more_trans _ _ m2); [by eapply merge_identities_more|]. eapply more_weaken; [|exact Cm]. by intros c (q & x & y & -> & _). }
  assert (more_conflicts installs_later (mkMerge [] [] 0 []) m) as (_ & Hall & Hsorted).
  { apply (more_trans _ _ m1); [eapply more_weaken; [|exact (pm_conflicts _ _ _ _ P1)]; by intros c (q & x & y & -> & _) | done]. }
  specialize (Hsorted ltac:(constructor)). pose proof Cm' as (_ & Hall' & Hsorted').
  assert (forall id c, alookup id (mg_conflicts m') = Some c -> metadata_conflict_id c = Ok id /\ installs_later c /\ may_hold left right l r lh rh c) as Hm'.
  { intros id c E. destruct (Hall' id c E) as [Ec|(Ei & t & ->)].
    - destruct (Hall id c Ec) as [|[Ei Hc]]; [done|]. split_and!; [done | done |]. left. by exists id, m.
    - split_and!; [done | done |]. right; right; left. by exists t. }
  assert (Forall (fun e => installs_later e.2) (sn_conflicts s)) as Hlater.
  { cbn [s merged_snapshot sn_conflicts].
    apply add_conflicts_Forall; [apply add_conflicts_Forall|]; 
      [|eapply Forall_impl; [exact Kl|]; by intros e [? _] | eapply Forall_impl; [exact Kr|]; by intros e [? _]].
    apply Forall_forall. intros [id c] Hin. apply elem_alookup_Some in Hin; [|by apply Hsorted']. by destruct (Hm' id c Hin) as (_ & ? & _). }
  destruct (prune_later s Hlater) as [Pe Pc].
  (* A recorded conflict over the entry in place is still there. *)
  assert (forall p e x, alookup p (mg_entries m) = Some e -> holds_conflict m' (entry_conflict p e x) ->
    between (at_side l r) (entry_conflict p e x) -> exists id, alookup id (sn_conflicts (prune_superseded_conflicts None s).1) = Some (entry_conflict p e x)) as Hstays.
  { intros p e x Ee (id & c & Eid & Ec) Hbetween. exists id.
    destruct (Hm' id c Ec) as (Eid' & _ & Hc). assert (c = entry_conflict p e x) as -> by (apply (Hids c _ id); [done | by right; left | done | done]).
    rewrite Pc. apply elem_alookup_Some.
    - apply sorted_recs_filter. cbn [s merged_snapshot sn_conflicts]. by apply add_conflicts_sorted, add_conflicts_sorted, Hsorted'.
    - apply list_elem_of_filter. split.
      + cbn [snd]. unfold superseded. cbn [entry_conflict mc_kind mc_key]. cbn [s merged_snapshot sn_entries]. rewrite Em', Ee.
        unfold conflict_installed_entry. cbn [mc_later_installed mc_left_entry]. by rewrite bool_decide_true.
      + apply alookup_Some_elem. cbn [s merged_snapshot sn_conflicts]. by rewrite !add_conflicts_lookup, Ec by done. }
  intros p x Hx Hun. destruct (unseen_value l r m1 origin p x P1 Hx) as (e & o & Ee & Heo & Ho & Hkeep).
  assert (at_side l r p e) as Se by (by apply path_value_side).
  assert (at_side l r p x) as Sx by (destruct Hx as [[? _]|[? _]]; [by left | by right]).
  rewrite <- (pm_entries _ _ _ _ P1), <- (merge_identities_spare l r m1 origin m2 p x P1 E2 Sx Hun) in Ee.
  unfold kept_at. rewrite Pe. cbn [s merged_snapshot sn_entries]. rewrite Em'.
  assert (forall z, at_side l r p z -> between (at_side l r) (entry_conflict p z x)) as Hbetween by (intros z Hz; by exists p, z, x).
  destruct (mk_entry _ _ _ _ Mm p) as [Esame|(Hnd & _ & d & Ed & Td & Sd & Hold)].
  - exists e. split; [by rewrite Esame|]. destruct Hkeep as [?|[?|Hh]]; [auto | auto |]. right; right.
    apply Hstays; [by rewrite Esame | | by apply Hbetween].
    eapply holds_more; [exact Cm'|]. eapply holds_more; [exact C1m | done].
  - exists d. split; [done|]. destruct (Ho d Sd) as [->|Hd]; [by left|].
    assert (e = x) as ->.
    { destruct Heo as [?|Heo]; [done|]. exfalso. rewrite Ee in Hnd. cbn in Hnd. apply bool_decide_eq_false in Hnd. congruence. }
    right; right. apply Hstays; [done | | by apply Hbetween]. eapply holds_more; [exact Cm' | by apply Hold].
Qed.

(** C6. A merge loses no change that the other head has not seen, of a file
    that was not moved. Every entry of either head whose content or name is
    new to the other, and whose file the other head has at no other path, is
    in the merged head at its path: as it is, with the same content, or as
    the alternative kept in a conflict over the entry that was installed
    there, whatever other files were renamed, removed or replaced. Nothing
    but the later value of a concurrent change, or a directory with entries
    under it, displaces it. Both heads must be namespaces, the conflicts that
    stand in them must be kept under their ids and install the later value,
    and distinct conflicts must have distinct ids. *)
Theorem merge_loses_nothing (left right : MetadataSnapshot) (left_entries right_entries : NamespaceEntries) (left_head right_head : Hash256) :
  let l := side left left_entries in let r := side right right_entries in
  key_lt left_head right_head -> tree_wf left_entries -> tree_wf right_entries ->
  standing_ok left -> standing_ok right -> ids_apart left right l r left_head right_head ->
  exists res, merge_metadata_heads_over left right left_entries right_entries left_head right_head = Ok res /\
    forall p x, unseen_change l r p x -> unmoved l r p x -> kept_at (mm_snapshot res) p x.
Proof.
  intros l r Hlt Tl Tr Kl Kr Hids. unfold merge_metadata_heads_over.
  rewrite bool_decide_false, (key_lt_asym _ _ Hlt); [by apply merge_ordered_keeps|].
  intros E. rewrite E in Hlt. by apply key_lt_irrefl in Hlt.
Qed.
End claims.

(** ** Heads *)

Module MergeSample.
#[local] Existing Instance Sample.sha.
Definition id (b : byte) : array 16 := array_fit 16 [b].
Definition object (b : byte) : array 32 := array_fit 32 [b].
Definition dir : FsEntry := mkEntry directory 493 0 0 0 0 0 1 [] no_provenance.
Definition edit (mtime size : Z) (content name : MetadataDot) : FsEntry :=
  mkEntry file 420 0 0 size 5 mtime 1 [] (mkProvenance (id x09) content name).
Definition head (clock : VersionClock) (entries : NamespaceEntries) : MetadataSnapshot :=
  mkSnapshot [] 2 4096 1 [] (array_zero 32) true clock None no_dot None None entries [] [] [] [] [] [] [].
Definition shared : MetadataDot := mkDot (id x01) 1.
Definition slash_a : Bytes := [x2f; x61].
Definition slash_b : Bytes := [x2f; x62].

(** One file, edited by two authors who have seen the same past. *)
Definition entry_l : FsEntry := edit 10 20 (mkDot (id x02) 2) shared.
Definition entry_r : FsEntry := edit 20 30 (mkDot (id x03) 1) shared.
Definition left : MetadataSnapshot := head [(id x01, 1); (id x02, 2)] [(root_path, dir); (slash_a, entry_l)].
Definition right : MetadataSnapshot := head [(id x01, 1); (id x03, 1)] [(root_path, dir); (slash_a, entry_r)].
(** The past they share. *)
Definition base : MetadataSnapshot := head [(id x01, 1)] [(root_path, dir); (slash_a, edit 5 10 shared shared)].

Lemma two_tree path e : normal path -> path <> root_path -> parent_path path = root_path -> key_lt root_path path ->
  key_ok path -> tree_wf [(root_path, dir); (path, e)].
Proof.
  intros Hn Hr Hp Hlt Hk. split.
  - repeat constructor. exact Hlt.
  - repeat constructor; [apply normal_root | done].
  - repeat constructor; [|done]. unfold key_ok. vm_compute. congruence.
  - vm_compute. reflexivity.
  - intros p f E Hne. apply alookup_Some_elem in E. apply elem_of_cons in E as [[= -> _]|[[= -> _]|?%elem_of_nil]%elem_of_cons]; [done | | done].
    rewrite Hp. vm_compute. reflexivity.
Qed.
Lemma tree_a e : tree_wf [(root_path, dir); (slash_a, e)].
Proof.
  apply two_tree; [|discriminate | reflexivity | vm_compute; reflexivity | unfold key_ok; vm_compute; congruence].
  exists [[x61]]. split; [|done]. constructor; [|constructor]. unfold component, slash, dot1, dot2.
  split_and!; [done | by intros ?%list_elem_of_singleton | done | done].
Qed.

Lemma at_two path e p x : alookup p [(root_path, dir); (path, e)] = Some x -> (p = root_path /\ x = dir) \/ (p = path /\ x = e).
Proof.
  intros E. apply alookup_Some_elem in E. apply elem_of_cons in E as [[= -> ->]|[[= -> ->]|?%elem_of_nil]%elem_of_cons]; auto. done.
Qed.

Lemma at_left p x : side_at (side left (sn_entries left)) p = Some x -> (p = root_path /\ x = dir) \/ (p = slash_a /\ x = entry_l).
Proof. apply at_two. Qed.
Lemma at_right p x : side_at (side right (sn_entries right)) p = Some x -> (p = root_path /\ x = dir) \/ (p = slash_a /\ x = entry_r).
Proof. apply at_two. Qed.
Lemma at_base p x :
  side_at (side base (sn_entries base)) p = Some x -> (p = root_path /\ x = dir) \/ (p = slash_a /\ x = edit 5 10 shared shared).
Proof. apply at_two. Qed.

(** The same, beside another file that one of them renames and the other edits. *)
Definition slash_c : Bytes := [x2f; x63].
Definition other (size : Z) (content name : MetadataDot) : FsEntry := mkEntry file 420 0 0 size 5 5 1 [] (mkProvenance (id x0a) content name).
Definition moved : FsEntry := other 7 shared (mkDot (id x02) 1).
Definition stayed : FsEntry := other 8 (mkDot (id x03) 2) shared.
Definition left2 : MetadataSnapshot := head [(id x01, 1); (id x02, 2)] [(root_path, dir); (slash_a, entry_l); (slash_b, moved)].
Definition right2 : MetadataSnapshot := head [(id x01, 1); (id x03, 2)] [(root_path, dir); (slash_a, entry_r); (slash_c, stayed)].
Definition l2 : Side := side left2 (sn_entries left2).
Definition r2 : Side := side right2 (sn_entries right2).

Lemma slash_fine b : b = x61 \/ b = x62 \/ b = x63 -> normal [x2f; b] /\ key_ok [x2f; b] /\ parent_path [x2f; b] = root_path.
Proof.
  intros Hb. split_and!.
  - exists [[b]]. split; [|done]. constructor; [|constructor]. unfold component, slash, dot1, dot2.
    destruct Hb as [->|[->| ->]]; (split_and!; [done | by intros ?%list_elem_of_singleton | done | done]).
  - unfold key_ok. destruct Hb as [->|[->| ->]]; vm_compute; congruence.
  - destruct Hb as [->|[->| ->]]; reflexivity.
Qed.
Lemma three_tree b e f : b = x62 \/ b = x63 -> tree_wf [(root_path, dir); (slash_a, e); ([x2f; b], f)].
Proof.
  intros Hb. destruct (slash_fine x61) as (Na & Ka & Pa); [auto|]. destruct (slash_fine b) as (Nb & Kb & Pb); [tauto|]. split.
  - destruct Hb as [->| ->]; repeat constructor.
  - repeat constructor; [apply normal_root | done | done].
  - repeat constructor; [|done|done]. unfold key_ok. vm_compute. congruence.
  - vm_compute. reflexivity.
  - intros p x E Hne. apply alookup_Some_elem in E. rewrite !elem_of_cons, elem_of_nil in E.
    assert (parent_path p = root_path) as -> by (destruct E as [[= -> _]|[[= -> _]|[[= -> _]|[]]]]; done). vm_compute. reflexivity.
Qed.

Lemma at_left2 p x : side_at l2 p = Some x -> (p = root_path /\ x = dir) \/ (p = slash_a /\ x = entry_l) \/ (p = slash_b /\ x = moved).
Proof. intros E. apply alookup_Some_elem in E. cbn [l2 side sd_entries left2 head sn_entries] in E. rewrite !elem_of_cons, elem_of_nil in E. destruct E as [[= -> ->]|[[= -> ->]|[[= -> ->]|[]]]]; auto. Qed.
Lemma at_right2 p x : side_at r2 p = Some x -> (p = root_path /\ x = dir) \/ (p = slash_a /\ x = entry_r) \/ (p = slash_c /\ x = stayed).
Proof. intros E. apply alookup_Some_elem in E. cbn [r2 side sd_entries right2 head sn_entries] in E. rewrite !elem_of_cons, elem_of_nil in E. destruct E as [[= -> ->]|[[= -> ->]|[[= -> ->]|[]]]]; auto. Qed.

(** Every conflict the merge of the two can hold. *)
Definition conflicts : list MetadataConflict :=
  [entry_conflict root_path dir dir; entry_conflict slash_a entry_l entry_l; entry_conflict slash_a entry_l entry_r;
   entry_conflict slash_a entry_r entry_l; entry_conflict slash_a entry_r entry_r;
   entry_conflict slash_b moved moved; entry_conflict slash_c stayed stayed;
   catalogue_conflict true left2 right2 (object x01) (object x02)].
Definition ids_differ : bool :=
  forallb (fun c => forallb (fun c' =>
    match metadata_conflict_id c, metadata_conflict_id c' with
    | Ok i, Ok i' => negb (bool_decide (i = i')) || bool_decide (c = c')
    | _, _ => false
    end) conflicts) conflicts.

Lemma recorded2 : exists m i, merge_namespaces l2 r2 = Ok m /\ mg_conflicts m = [(i, entry_conflict slash_a entry_r entry_l)].
Proof. eexists _, _. split; [vm_compute; reflexivity|]. vm_compute. reflexivity. Qed.
Lemma heads_apart : ids_apart left2 right2 l2 r2 (object x01) (object x02).
Proof.
  assert (forall c, may_hold left2 right2 l2 r2 (object x01) (object x02) c -> In c conflicts) as Hin.
  { intros c [(i & m & Em & Ec)|[(p & x & y & -> & Hx & Hy)|[(t & ->)|[(i & Hi)|(i & Hi)]]]]; [| | |by apply elem_of_nil in Hi..].
    - destruct recorded2 as (m' & i' & Em' & Ei'). rewrite Em in Em'. injection Em' as <-. rewrite Ei' in Ec.
      apply alookup_Some_elem, list_elem_of_singleton in Ec. injection Ec as _ ->. cbn [In conflicts]. auto 10.
    - assert (forall z, at_side l2 r2 p z -> (p = root_path /\ z = dir) \/ (p = slash_a /\ (z = entry_l \/ z = entry_r)) \/ (p = slash_b /\ z = moved) \/ (p = slash_c /\ z = stayed)) as Hz.
      { intros z [Hz|Hz]; [apply at_left2 in Hz | apply at_right2 in Hz]; tauto. }
      destruct (Hz x Hx) as [[-> ->]|[[-> Hx']|[[-> ->]|[-> ->]]]], (Hz y Hy) as [[Ep ->]|[[Ep Hy']|[[Ep ->]|[Ep ->]]]]; try (discriminate Ep); cbn [In conflicts]; auto 10.
      destruct Hx' as [->| ->], Hy' as [->| ->]; auto 10.
    - destruct t; cbn [In conflicts]; auto 10. }
  intros c c' i Hc Hc' Ei Ei'. assert (ids_differ = true) as Hd by (vm_compute; reflexivity). unfold ids_differ in Hd.
  rewrite forallb_forall in Hd. specialize (Hd c (Hin c Hc)). rewrite forallb_forall in Hd. specialize (Hd c' (Hin c' Hc')).
  rewrite Ei, Ei', bool_decide_true in Hd by done. by apply bool_decide_eq_true in Hd.
Qed.
Lemma edit_unseen : unseen_change l2 r2 slash_a entry_l /\ unmoved l2 r2 slash_a entry_l.
Proof.
  split; [left; split; vm_compute; reflexivity|]. split.
  - intros _ q b Hb Eid _. destruct (at_right2 q b Hb) as [[-> ->]|[[-> ->]|[-> ->]]]; [discriminate Eid | done | discriminate Eid].
  - intros E. vm_compute in E. discriminate E.
Qed.

Lemma base_past : descends (side base (sn_entries base)) (side left (sn_entries left)).
Proof.
  split.
  - intros p a Ha. destruct (at_base p a Ha) as [[-> ->]|[-> ->]]; split; vm_compute; reflexivity.
  - intros p b Hb Hne. destruct (at_left p b Hb) as [[-> ->]|[-> ->]]; [by destruct Hne | vm_compute; reflexivity].
  - intros p a b Ha Hb E. destruct (at_base p a Ha) as [[-> ->]|[-> ->]], (at_left _ b Hb) as [[Ep ->]|[Ep ->]]; try done; discriminate E.
Qed.
Lemma left_sane : clock_sane (sn_mutation_sequences left).
Proof.
  split; [repeat constructor|]. intros k s E. apply alookup_Some_elem in E.
  apply elem_of_cons in E as [[= _ ->]|[[= _ ->]|?%elem_of_nil]%elem_of_cons]; [lia | lia | done].
Qed.
Lemma right_sane : clock_sane (sn_mutation_sequences right).
Proof.
  split; [repeat constructor|]. intros k s E. apply alookup_Some_elem in E.
  apply elem_of_cons in E as [[= _ ->]|[[= _ ->]|?%elem_of_nil]%elem_of_cons]; [lia | lia | done].
Qed.
Lemma base_sane : clock_sane (sn_mutation_sequences base).
Proof. split; [repeat constructor|]. intros k s E. apply alookup_Some_elem, list_elem_of_singleton in E. injection E as _ ->. lia. Qed.

(** A rename and an edit by one author, an edit by the other. *)
Definition renamed : FsEntry := edit 10 20 (mkDot (id x02) 2) (mkDot (id x02) 1).
Definition renaming : MetadataSnapshot := head [(id x01, 1); (id x02, 2)] [(root_path, dir); (slash_b, renamed)].
End MergeSample.

Lemma merge_keeps_tree_witness :
  exists res, @merge_metadata_heads_over Sample.sha MergeSample.left MergeSample.right (sn_entries MergeSample.left) (sn_entries MergeSample.right)
      (MergeSample.object x01) (MergeSample.object x02) = Ok res /\ tree_wf (sn_entries (mm_snapshot res)).
Proof. apply merge_keeps_tree; [apply MergeSample.tree_a | apply MergeSample.tree_a | constructor | constructor]. Defined.

Lemma merge_commutes_witness :
  @merge_metadata_heads_over Sample.sha MergeSample.left MergeSample.right (sn_entries MergeSample.left) (sn_entries MergeSample.right)
    (MergeSample.object x01) (MergeSample.object x02) =
  @merge_metadata_heads_over Sample.sha MergeSample.right MergeSample.left (sn_entries MergeSample.right) (sn_entries MergeSample.left)
    (MergeSample.object x02) (MergeSample.object x01).
Proof. apply merge_commutes. intros E. vm_compute in E. discriminate E. Defined.

Lemma merge_joins_clocks_witness :
  exists res, @merge_metadata_heads_over Sample.sha MergeSample.left MergeSample.right (sn_entries MergeSample.left) (sn_entries MergeSample.right)
      (MergeSample.object x01) (MergeSample.object x02) = Ok res /\
    clock_covers (sn_mutation_sequences (mm_snapshot res)) (mkDot (MergeSample.id x03) 1) =
      clock_covers (sn_mutation_sequences MergeSample.left) (mkDot (MergeSample.id x03) 1) ||
      clock_covers (sn_mutation_sequences MergeSample.right) (mkDot (MergeSample.id x03) 1).
Proof.
  eexists. split; [vm_compute; reflexivity|].
  apply (@merge_joins_clocks Sample.sha MergeSample.left MergeSample.right (sn_entries MergeSample.left) (sn_entries MergeSample.right)
    (MergeSample.object x01) (MergeSample.object x02)).
  - exact MergeSample.left_sane.
  - exact MergeSample.right_sane.
  - intros E. vm_compute in E. discriminate E.
  - vm_compute. reflexivity.
Defined.


(** Another file is renamed; the edit that is not the later one is kept in a conflict. *)
Lemma merge_loses_nothing_witness :
  exists res, @merge_metadata_heads_over Sample.sha MergeSample.left2 MergeSample.right2 (sn_entries MergeSample.left2) (sn_entries MergeSample.right2)
      (MergeSample.object x01) (MergeSample.object x02) = Ok res /\
    kept_at (mm_snapshot res) MergeSample.slash_a MergeSample.entry_l.
Proof.
  destruct (@merge_loses_nothing Sample.sha MergeSample.left2 MergeSample.right2 (sn_entries MergeSample.left2) (sn_entries MergeSample.right2)
    (MergeSample.object x01) (MergeSample.object x02)) as (res & Er & Hk).
  - vm_compute. reflexivity.
  - apply MergeSample.three_tree. auto.
  - apply MergeSample.three_tree. auto.
  - split; constructor.
  - split; constructor.
  - exact MergeSample.heads_apart.
  - exists res. split; [exact Er|]. apply Hk; apply MergeSample.edit_unseen.
Defined.

(** A concurrent edit of a renamed file is lost without a record, on two heads
    where it happens. One author renames a file and edits it, the other edits
    it later; neither has seen the other's edit. The merge makes one file of the two paths and
    records the conflict, but then gives the installed entry the new name's
    dot, so that it no longer is the entry the conflict was recorded with:
    the pruning that follows takes the conflict for decided and drops it.
    The renaming author's edit is in no entry and in no conflict of the
    result. *)
Example rename_conflict_lost :
  let left := MergeSample.renaming in let right := MergeSample.right in
  let l := side left (sn_entries left) in let r := side right (sn_entries right) in
  exists res, @merge_metadata_heads Sample.sha left right (MergeSample.object x01) (MergeSample.object x02) = Ok res /\
    unseen_change l r MergeSample.slash_b MergeSample.renamed /\
    mm_conflicts_created res = 1%nat /\ mm_conflicts_superseded res = 1%nat /\ sn_conflicts (mm_snapshot res) = [] /\
    Forall (fun e => same_content e.2 MergeSample.renamed = false) (sn_entries (mm_snapshot res)).
Proof.
  eexists. split; [vm_compute; reflexivity|]. split_and!.
  - left. split; vm_compute; reflexivity.
  - vm_compute. reflexivity.
  - vm_compute. reflexivity.
  - vm_compute. reflexivity.
  - cbn [mm_snapshot sn_entries]. repeat constructor.
Qed.
