(* ===== verification/MetadataAuthors.v ===== *)
(** * A node as an author of mutations

    [class MetadataReplica] of [src/src/metadata/metadata.cpp], its author
    record: the id a node writes its mutations under, the sequences it has
    handed out and the highest it has had accepted, sealed in [author.meta];
    and the marker that the node's chain of mutations was broken by a recovery
    from a seed.

    Writing the record replaces the file in one step; a write that fails leaves
    the old file or the new one. Random ids are the generator's. *)

From S2P Require Import Prelude Sorts Maps Orders Codec TorrentRequest Journal Paths Metadata MetadataCodec MetadataRoundtrip.

Record Author : Type := mkAuthor { au_id : NodeId; au_reserved : Z; au_accepted : Z; au_past : list NodeId }.
Definition no_author : Author := mkAuthor (array_zero 16) 0 0 [].

(** What the device does with a file that is replaced. *)
Inductive WriteOutcome : Type := write_done | write_fails_old | write_fails_new.

Record AuthorState : Type := mkAuthorState {
  as_key : array 32;
  as_loaded : bool;
  as_author : Author;
  (** [author.meta]; none when there is no file. *)
  as_file : option Bytes;
  (** Whether [author-chain-broken] exists. *)
  as_broken : bool;
  (** How many nonces and how many ids were drawn. *)
  as_nonces : nat;
  as_ids : nat
}.
Definition set_author (a : Author) (s : AuthorState) : AuthorState := mkAuthorState (as_key s) (as_loaded s) a (as_file s) (as_broken s) (as_nonces s) (as_ids s).
Definition set_loaded (b : bool) (s : AuthorState) : AuthorState := mkAuthorState (as_key s) b (as_author s) (as_file s) (as_broken s) (as_nonces s) (as_ids s).
Definition set_broken (b : bool) (s : AuthorState) : AuthorState := mkAuthorState (as_key s) (as_loaded s) (as_author s) (as_file s) b (as_nonces s) (as_ids s).
Definition set_author_file (f : option Bytes) (s : AuthorState) : AuthorState := mkAuthorState (as_key s) (as_loaded s) (as_author s) f (as_broken s) (as_nonces s) (as_ids s).
Definition drew_nonce (s : AuthorState) : AuthorState := mkAuthorState (as_key s) (as_loaded s) (as_author s) (as_file s) (as_broken s) (S (as_nonces s)) (as_ids s).
Definition drew_id (s : AuthorState) : AuthorState := mkAuthorState (as_key s) (as_loaded s) (as_author s) (as_file s) (as_broken s) (as_nonces s) (S (as_ids s)).

Definition author_magic : Bytes := str "DHTMAUT1".

(** ** The file *)

Definition write_author (a : Author) : Writer.prog :=
  Writer.fixed (au_id a) ;;; Writer.u64 (au_reserved a) ;;; Writer.u64 (au_accepted a) ;;;
  write_count (au_past a) ;;; Writer.each Writer.fixed (au_past a).
Definition read_author : Reader.prog Author :=
  id ← Reader.fixed 16; reserved ← Reader.u64; accepted ← Reader.u64; past ← Reader.u32;
  if 64 <? past then Reader.throw (RuntimeError "too many past author ids")
  else ids ← Reader.times (Z.to_nat past) (Reader.fixed 16); mret (mkAuthor id reserved accepted ids).

Definition seal_file (sealed : SealedData) : Writer.prog :=
  Writer.raw author_magic ;;; Writer.fixed (sd_nonce sealed) ;;; Writer.fixed (sd_tag sealed) ;;; Writer.bytes (sd_ciphertext sealed).
Definition read_sealed : Reader.prog (array 12 * array 16 * Bytes) :=
  found ← Reader.raw 8;
  if negb (bool_decide (found = author_magic)) then Reader.throw (RuntimeError "bad file header")
  else nonce ← Reader.fixed 12; tag ← Reader.fixed 16; ciphertext ← Reader.bytes max_blob; mret (nonce, tag, ciphertext).

(** ** The operations *)

Class RandomIds : Type := draw_node_id : nat -> NodeId.

Section ops.
Context `{AesGcm, Entropy, RandomIds}.

Definition open_sealed (key : array 32) (bytes : Bytes) : result Bytes :=
  '(nonce, tag, ciphertext) ← Reader.run (x ← read_sealed; _ ← Reader.finish; mret x) bytes;
  aes_gcm_open key nonce tag ciphertext author_magic.
(** The record a file holds. *)
Definition author_in (key : array 32) (bytes : Bytes) : result Author :=
  plaintext ← open_sealed key bytes;
  Reader.run (a ← read_author; _ ← Reader.finish; mret a) plaintext.

Definition write_file (outcome : WriteOutcome) (bytes : Bytes) : ST AuthorState unit := fun s =>
  match outcome with
  | write_done => (Ok tt, set_author_file (Some bytes) s)
  | write_fails_old => (Throw (RuntimeError "cannot replace file"), s)
  | write_fails_new => (Throw (RuntimeError "cannot replace file"), set_author_file (Some bytes) s)
  end.

Definition persist_author (outcome : WriteOutcome) : ST AuthorState unit :=
  s ← st_get;
  plain ← st_lift (Writer.run (write_author (as_author s)));
  let sealed := aes_gcm_seal (as_key s) plain author_magic (draw_nonce (as_nonces s)) in
  _ ← st_modify drew_nonce;
  file ← st_lift (Writer.run (seal_file sealed));
  write_file outcome file.

(** [random_node_id]. *)
Definition random_node_id : ST AuthorState NodeId := fun s => (Ok (draw_node_id (as_ids s)), drew_id s).

Definition load_author (outcome : WriteOutcome) (node_id : NodeId) (head_clock : VersionClock) : ST AuthorState unit :=
  s ← st_get;
  if as_loaded s then mret tt
  else
    _ ← st_modify (set_author no_author);
    match as_file s with
    | Some bytes =>
        match author_in (as_key s) bytes with
        | Ok a => _ ← st_modify (set_author a); st_modify (set_loaded true)
        | Throw _ => st_throw (RuntimeError "metadata author file")
        end
    | None =>
        id ← (match alookup node_id head_clock with Some _ => random_node_id | None => mret node_id end);
        _ ← st_modify (set_author (mkAuthor id 0 0 (if bool_decide (id = node_id) then [] else [node_id])));
        _ ← st_modify (set_loaded true);
        _ ← persist_author outcome;
        st_modify (set_loaded true)
    end.

Definition rotate_author : ST AuthorState unit :=
  s ← st_get;
  let a := as_author s in
  id ← random_node_id;
  st_modify (set_author (mkAuthor id 0 0 (take 64 (au_id a :: au_past a)))).

Definition observed_of (a : Author) (head_clock : VersionClock) : Z := default 0 (alookup (au_id a) head_clock).

(** [loading] and [saving] are what becomes of the two writes; [removed]
    whether the marker could be removed. *)
Definition reserve_mutation_dot (loading saving : WriteOutcome) (removed : bool) (node_id : NodeId) (head_clock : VersionClock)
    : ST AuthorState MetadataDot :=
  _ ← load_author loading node_id head_clock;
  s ← st_get;
  let marked := as_broken s in
  _ ← (if marked then rotate_author
       else if observed_of (as_author s) head_clock <? au_accepted (as_author s) then rotate_author
       else mret tt);
  s ← st_get;
  let a := as_author s in
  let floor := Z.max (au_reserved a) (observed_of a head_clock) in
  if floor =? u64_max then st_throw (RuntimeError "metadata mutation sequence exhausted")
  else
    _ ← st_modify (set_author (mkAuthor (au_id a) (floor + 1) (au_accepted a) (au_past a)));
    _ ← persist_author saving;
    _ ← (if marked && removed then st_modify (set_broken false) else mret tt);
    mret (mkDot (au_id a) (floor + 1)).

Definition note_author_accepted (dot : MetadataDot) : ST AuthorState unit := fun s =>
  let a := as_author s in
  (Ok tt, if as_loaded s && bool_decide (dot_author dot = au_id a)
          then set_author (mkAuthor (au_id a) (au_reserved a) (Z.max (au_accepted a) (dot_seq dot)) (au_past a)) s else s).

Definition author_ids (loading : WriteOutcome) (node_id : NodeId) (head_clock : VersionClock) : ST AuthorState (list NodeId) :=
  _ ← load_author loading node_id head_clock;
  s ← st_get;
  mret (au_id (as_author s) :: au_past (as_author s)).
End ops.

(** A recovery from a seed marks the chain broken, before anything else. *)
Definition mark_chain_broken (s : AuthorState) : AuthorState := set_broken true s.
(** A restart keeps the files. *)
Definition restarted (s : AuthorState) : AuthorState := set_loaded false (set_author no_author s).
