(* ===== verification/MetadataAuthorsClaims.v ===== *)
(** * What an author's dots guarantee

    [run] is any sequence of reservations, acceptances, recoveries, restarts
    and losses of the author record, with the dots handed out so far. *)

From S2P Require Import Prelude Sorts Maps Orders Codec TorrentRequest Journal Paths Metadata MetadataCodec MetadataRoundtrip MetadataAuthors.

Section authors.
Context `{AesGcm, !AesGcmSpec, Entropy, RandomIds}.

(** ** The file *)

Definition author_fine (a : Author) : Prop := 0 <= au_reserved a < 2 ^ 64 /\ 0 <= au_accepted a < 2 ^ 64 /\ (length (au_past a) <= 64)%nat.

Lemma carries_author a : author_fine a -> carries (write_author a) read_author a.
Proof.
  intros (Hr & Ha & Hp). unfold write_author, read_author, write_count. destruct a as [id reserved accepted past]. cbn [au_id au_reserved au_accepted au_past] in *.
  eapply carries_bind; [apply carries_fixed|]. eapply carries_bind; [by apply carries_u64|]. eapply carries_bind; [by apply carries_u64|].
  eapply carries_bind; [apply carries_u32; lia|]. destruct (Z.ltb_spec 64 (Z.of_nat (length past))); [lia|]. rewrite Nat2Z.id.
  apply (carries_map _ _ (mkAuthor id reserved accepted)), carries_fixeds.
Qed.

Lemma author_size a : author_fine a -> exists e, writes (write_author a) e /\ Z.of_nat (length e) <= 2000.
Proof.
  intros (_ & _ & Hp). destruct (carries_fixeds (au_past a)) as (e & He & _). pose proof (each_size Writer.fixed 16 (au_past a) (fun x => fixed_size x) e He) as Hsize.
  eexists. split; [unfold write_author, write_count; exact (writes_seq _ _ _ _ (writes_fixed _) (writes_seq _ _ _ _ (writes_u64 _) (writes_seq _ _ _ _ (writes_u64 _) (writes_seq _ _ _ _ (writes_u32 _) He))))|].
  rewrite !length_app, !array_length, !length_be_bytes. lia.
Qed.

(** What is sealed from a record opens to it. *)
Lemma author_sealed key a nonce : author_fine a ->
  exists plain file, Writer.run (write_author a) = Ok plain /\ Writer.run (seal_file (aes_gcm_seal key plain author_magic nonce)) = Ok file /\ author_in key file = Ok a.
Proof.
  intros Ha. destruct (carries_run _ _ _ (carries_author a Ha)) as (plain & Ep & Er). exists plain.
  destruct (author_size a Ha) as (e & He & Hsize). apply writes_run in He. assert (e = plain) as -> by congruence.
  unfold aes_gcm_seal. pose proof (gcm_open_seal key nonce author_magic plain) as Ho. pose proof (gcm_length key nonce author_magic plain) as Hl.
  destruct (gcm_encrypt key nonce author_magic plain) as [tag ct]. cbn [snd] in Hl.
  assert (carries (seal_file (mkSealed nonce tag ct)) read_sealed (nonce, tag, ct)) as (file & Ef & Eo)%carries_run.
  { unfold seal_file, read_sealed. cbn [sd_nonce sd_tag sd_ciphertext]. eapply carries_bind; [apply (carries_raw author_magic)|]. rewrite bool_decide_true by done. cbn [negb].
    carry. apply carries_bytes; [unfold max_blob|unfold u32_max]; lia. }
  exists file. split_and!; [done|done|]. unfold author_in, open_sealed. rewrite Eo. cbn [mbind result_bind]. unfold aes_gcm_open. rewrite Ho. cbn [mbind result_bind]. exact Er.
Qed.

(** Writing the record: the file is the old one or holds the record, and
    holds it when the call returns. *)
Lemma persisted outcome s r s' : author_fine (as_author s) -> persist_author outcome s = (r, s') ->
  as_key s' = as_key s /\ as_loaded s' = as_loaded s /\ as_author s' = as_author s /\ as_broken s' = as_broken s /\ as_ids s' = as_ids s /\
  (as_file s' = as_file s /\ r <> Ok tt \/ exists b, as_file s' = Some b /\ author_in (as_key s) b = Ok (as_author s)).
Proof.
  intros Ha. destruct (author_sealed (as_key s) (as_author s) (draw_nonce (as_nonces s)) Ha) as (plain & file & Ep & Ef & Eo).
  unfold persist_author, mbind, st_bind, st_get, st_lift, st_modify. rewrite Ep, Ef. destruct outcome; cbn [write_file]; intros [= <- <-]; cbn;
    split_and!; try done; eauto.
Qed.

Lemma persist_done s : author_fine (as_author s) -> exists s', persist_author write_done s = (Ok tt, s').
Proof.
  intros Ha. destruct (author_sealed (as_key s) (as_author s) (draw_nonce (as_nonces s)) Ha) as (plain & file & Ep & Ef & _).
  unfold persist_author, mbind, st_bind, st_get, st_lift, st_modify. rewrite Ep, Ef. by eexists.
Qed.

(** ** Ids drawn *)

(** The count of ids drawn only grows. *)
Definition grows {A} (m : ST AuthorState A) : Prop := forall s, (as_ids s <= as_ids (m s).2)%nat.
Lemma grows_bind {A B} (m : ST AuthorState A) (k : A -> ST AuthorState B) : grows m -> (forall a, grows (k a)) -> grows (m ≫= k).
Proof.
  intros Hm Hk s. unfold mbind, st_bind. specialize (Hm s). destruct (m s) as [[a|e] s1]; cbn [snd] in *; [|done]. specialize (Hk a s1). lia.
Qed.
Lemma grows_ret {A} (a : A) : grows (mret a).
Proof. by intros s. Qed.
Lemma grows_get : grows st_get.
Proof. by intros s. Qed.
Lemma grows_lift {A} (r : result A) : grows (st_lift r).
Proof. by intros s. Qed.
Lemma grows_throw {A} e : grows (st_throw (A := A) e).
Proof. by intros s. Qed.
Lemma grows_modify f : (forall s, as_ids s <= as_ids (f s))%nat -> grows (st_modify f).
Proof. intros Hf s. apply Hf. Qed.
Create HintDb grows.
#[local] Hint Resolve grows_bind grows_ret grows_get grows_lift grows_throw grows_modify : grows.
#[local] Hint Extern 1 (_ <= _)%nat => cbn; lia : grows.
Lemma grows_write outcome bytes : grows (write_file outcome bytes).
Proof. intros s. by destruct outcome. Qed.
Lemma grows_persist outcome : grows (persist_author outcome).
Proof. unfold persist_author. repeat (apply grows_bind; [auto with grows|intros]). apply grows_write. Qed.
Lemma grows_random : grows random_node_id.
Proof. intros s. cbn. lia. Qed.
#[local] Hint Resolve grows_persist grows_random : grows.
Lemma grows_load loading node clock : grows (load_author loading node clock).
Proof.
  unfold load_author. apply grows_bind; [auto with grows|]. intros s. destruct (as_loaded s); [auto with grows|].
  apply grows_bind; [auto with grows|]. intros _. destruct (as_file s); [destruct (author_in _ _); auto 10 with grows|].
  apply grows_bind; [destruct (alookup _ _); auto with grows|]. intros id. auto 10 with grows.
Qed.
Lemma grows_rotate : grows rotate_author.
Proof. unfold rotate_author. auto 10 with grows. Qed.
#[local] Hint Resolve grows_load grows_rotate : grows.
Ltac grow :=
  repeat (lazymatch goal with
    | |- grows (st_bind _ _ ?k ?m) => apply (grows_bind m k)
    | |- grows (_ ≫= _) => apply grows_bind
    end; [first [solve [auto with grows] | destruct (_ && _); solve [auto with grows]]|intros]); auto with grows.
Lemma grows_reserve loading saving removed node clock : grows (reserve_mutation_dot loading saving removed node clock).
Proof.
  unfold reserve_mutation_dot. apply grows_bind; [auto with grows|]. intros _. apply grows_bind; [auto with grows|]. intros s.
  apply grows_bind; [destruct (as_broken s); [|destruct (_ <? _)]; auto with grows|]. intros _. apply grows_bind; [auto with grows|]. intros s1.
  cbv zeta. destruct (_ =? _); [auto with grows|]. grow.
Qed.
Lemma grows_ids loading node clock : grows (author_ids loading node clock).
Proof. unfold author_ids. auto 10 with grows. Qed.

(** ** Runs *)

Context (node_id : NodeId).

(** Where the author record is gone, the head extended shows that the node
    has authored under its own id, if it has. *)
Definition shown (s : AuthorState) (issued : list MetadataDot) (clock : VersionClock) : Prop :=
  as_file s = None -> as_loaded s = false -> (exists d, d ∈ issued /\ dot_author d = node_id) -> alookup node_id clock <> None.
Definition clock_in_range (clock : VersionClock) : Prop := forall id n, alookup id clock = Some n -> 0 <= n < 2 ^ 64.

Inductive run : AuthorState -> list MetadataDot -> Prop :=
  | run_start key nonces : run (mkAuthorState key false no_author None false nonces 0) []
  | run_reserve loading saving removed clock s issued r s' :
      run s issued -> shown s issued clock -> clock_in_range clock ->
      reserve_mutation_dot loading saving removed node_id clock s = (r, s') ->
      run s' (match r with Ok d => d :: issued | Throw _ => issued end)
  | run_ids loading clock s issued r s' :
      run s issued -> shown s issued clock -> author_ids loading node_id clock s = (r, s') -> run s' issued
  | run_accepted d s issued : run s issued -> 0 <= dot_seq d < 2 ^ 64 -> run (note_author_accepted d s).2 issued
  | run_broken s issued : run s issued -> run (mark_chain_broken s) issued
  | run_restart s issued : run s issued -> run (restarted s) issued
  | run_lost s issued : run s issued -> run (set_author_file None s) issued.

(** The first [total] ids drawn are new. *)
Definition ids_new (total : nat) : Prop :=
  (forall i j, (i < total)%nat -> (j < total)%nat -> draw_node_id i = draw_node_id j -> i = j) /\
  forall i, (i < total)%nat -> draw_node_id i <> node_id.

Section invariant.
Context (total : nat).
Hypothesis new : ids_new total.

(** An id the node has authored under. *)
Definition used (n : nat) (id : NodeId) : Prop := id = node_id \/ exists i, (i < n)%nat /\ id = draw_node_id i.
(** A record no dot handed out is ahead of. *)
Definition record_fine (n : nat) (issued : list MetadataDot) (a : Author) : Prop :=
  author_fine a /\ used n (au_id a) /\ forall d, d ∈ issued -> dot_author d = au_id a -> dot_seq d <= au_reserved a.

Record author_inv (s : AuthorState) (issued : list MetadataDot) : Prop := {
  ai_distinct : NoDup issued;
  ai_used : forall d, d ∈ issued -> used (as_ids s) (dot_author d);
  ai_file : forall b, as_file s = Some b -> exists a, author_in (as_key s) b = Ok a /\ record_fine (as_ids s) issued a;
  ai_memory : as_loaded s = true -> record_fine (as_ids s) issued (as_author s)
}.

Lemma used_more n m id : (n <= m)%nat -> used n id -> used m id.
Proof. intros Hn [->|(i & Hi & ->)]; [by left|]. right. exists i. split; [lia|done]. Qed.
Lemma record_more n m issued a : (n <= m)%nat -> record_fine n issued a -> record_fine m issued a.
Proof. intros Hn (H1' & H2' & H3'). split_and!; [done|by apply (used_more n)|done]. Qed.
(** The next id drawn is new. *)
Lemma next_unused n : (n < total)%nat -> ~ used n (draw_node_id n).
Proof. destruct new as [N1 N2]. intros Hn [E|(i & Hi & E)]; [by apply N2 in E|]. apply N1 in E; lia. Qed.
Lemma next_fine s issued past : author_inv s issued -> (as_ids s < total)%nat -> (length past <= 64)%nat ->
  record_fine (S (as_ids s)) issued (mkAuthor (draw_node_id (as_ids s)) 0 0 past).
Proof.
  intros Hi Ht Hp. split_and!; [split_and!; cbn; lia|right; eexists; split; [|done]; lia|]. intros d Hd E. cbn [au_id] in E.
  destruct (next_unused (as_ids s) Ht). rewrite <- E. by apply (ai_used _ _ Hi).
Qed.

(** The record in memory written out. *)
Lemma persist_inv outcome s issued r s' :
  author_inv s issued -> record_fine (as_ids s) issued (as_author s) -> persist_author outcome s = (r, s') -> author_inv s' issued /\
  as_loaded s' = as_loaded s /\ as_author s' = as_author s /\ as_broken s' = as_broken s /\ as_ids s' = as_ids s /\ as_key s' = as_key s /\
  (r = Ok tt -> exists b, as_file s' = Some b /\ author_in (as_key s) b = Ok (as_author s)).
Proof.
  intros [Hd Hu Hf Hm] Ha E. destruct (persisted outcome s r s' (proj1 Ha) E) as (Ek & El & Ea & Eb & Ei & Hfile).
  split_and!; [|done..|]; [|intros ->; by destruct Hfile as [[_ ?]|?]]. split; [done| | |].
  - by rewrite Ei.
  - rewrite Ek, Ei. destruct Hfile as [[-> _]|(b & -> & Eo)]; [done|]. intros b' [= <-]. by exists (as_author s).
  - rewrite El, Ea, Ei. done.
Qed.

(** The state with another record in memory, drawn or read. *)
Lemma install_inv s issued a n :
  author_inv s issued -> (as_ids s <= n)%nat -> record_fine n issued a ->
  author_inv (mkAuthorState (as_key s) true a (as_file s) (as_broken s) (as_nonces s) n) issued.
Proof.
  intros [Hd Hu Hf Hm] Hn Ha. split; cbn; [done| | |done].
  - intros d Hin. by apply (used_more (as_ids s)), Hu.
  - intros b E. destruct (Hf b E) as (a' & Ea & Hfa). exists a'. split; [done|]. by apply (record_more (as_ids s)).
Qed.

Lemma load_inv loading clock s issued r s' :
  author_inv s issued -> shown s issued clock -> load_author loading node_id clock s = (r, s') -> (as_ids s' <= total)%nat ->
  author_inv s' issued /\ as_broken s' = as_broken s /\ (r = Ok tt -> as_loaded s' = true) /\ (as_loaded s = true -> s' = s /\ r = Ok tt).
Proof.
  intros Hi Hshown. unfold load_author, mbind, st_bind at 1, st_get. destruct (as_loaded s) eqn:El; [intros [= <- <-] _; auto|].
  unfold st_bind at 1, st_modify at 1. destruct (as_file s) as [b|] eqn:Ef.
  - destruct (ai_file _ _ Hi b Ef) as (a & -> & Ha). intros [= <- <-] _. split_and!; [|done..]. exact (install_inv s issued a (as_ids s) Hi (le_n _) Ha).
  - set (s1 := set_author no_author s).
    assert (exists id n, match alookup node_id clock with Some _ => random_node_id | None => mret node_id end s1 = (Ok id, mkAuthorState (as_key s) false no_author None (as_broken s) (as_nonces s) n) /\
      (as_ids s <= n)%nat /\ ((n <= total)%nat -> record_fine n issued (mkAuthor id 0 0 (if bool_decide (id = node_id) then [] else [node_id])))) as (id & n & Eid & Hn & Hfine).
    { unfold s1, set_author. rewrite El, Ef. destruct (alookup node_id clock) eqn:Ec.
      - exists (draw_node_id (as_ids s)), (S (as_ids s)). split; [reflexivity|]. split; [lia|]. intros Ht. apply next_fine; [done|lia|]. destruct (bool_decide _); cbn; lia.
      - exists node_id, (as_ids s). split; [reflexivity|]. split; [lia|]. intros _. rewrite bool_decide_true by done. split_and!; [split_and!; cbn; lia|by left|].
        intros d Hd E. destruct (Hshown Ef El); [by exists d|done]. }
    unfold st_bind at 1. rewrite Eid. unfold st_bind at 1, st_modify at 1. unfold st_bind at 1, st_modify at 1.
    set (s2 := set_loaded true _). intros E Ht.
    assert (n <= total)%nat as Hnt.
    { pose proof (grows_persist loading s2) as Hg. unfold st_bind in E. destruct (persist_author loading s2) as [[[]|e] s3]; injection E as <- <-; cbn in *; lia. }
    specialize (Hfine Hnt). assert (author_inv s2 issued) as Hi2.
    { unfold s2, set_loaded, set_author. cbn [as_key as_file as_broken as_nonces as_ids as_author]. rewrite <- Ef. exact (install_inv s issued _ n Hi Hn Hfine). }
    unfold st_bind in E. destruct (persist_author loading s2) as [[[]|e] s3] eqn:Ep; injection E as <- <-;
      destruct (persist_inv loading s2 issued _ s3 Hi2 Hfine Ep) as (Hi3 & El3 & _ & Eb3 & _ & _); split_and!; try done.
    exact (install_inv s3 issued (as_author s3) (as_ids s3) Hi3 (le_n _) (ai_memory _ _ Hi3 El3)).
Qed.

Lemma rotate_inv s issued r s' : author_inv s issued -> (as_ids s < total)%nat -> rotate_author s = (r, s') ->
  r = Ok tt /\ author_inv s' issued /\ as_loaded s' = as_loaded s /\ as_broken s' = as_broken s /\ (as_loaded s = true -> record_fine (as_ids s') issued (as_author s')) /\
  au_id (as_author s') = draw_node_id (as_ids s).
Proof.
  intros Hi Ht. unfold rotate_author, mbind, st_bind, st_get, random_node_id, st_modify. intros [= <- <-].
  assert (record_fine (S (as_ids s)) issued (mkAuthor (draw_node_id (as_ids s)) 0 0 (take 64 (au_id (as_author s) :: au_past (as_author s))))) as Hn.
  { apply next_fine; [done|done|]. rewrite length_take. lia. }
  split_and!; [done| |done|done|intros _; exact Hn|done]. destruct Hi as [Hd Hu Hf Hm]. split; cbn; [done| | |intros _; exact Hn].
  - intros d Hin. apply (used_more (as_ids s)), Hu; [lia|done].
  - intros b E. destruct (Hf b E) as (a' & Ea & Hfa). exists a'. split; [done|]. apply (record_more (as_ids s)); [lia|done].
Qed.

(** What a reservation that returns leaves. *)
Record reserved (clock : VersionClock) (issued : list MetadataDot) (d : MetadataDot) (s' : AuthorState) : Prop := {
  rs_new : d ∉ issued;
  rs_ahead : default 0 (alookup (dot_author d) clock) < dot_seq d < 2 ^ 64;
  rs_inv : author_inv s' (d :: issued);
  rs_durable : exists b, as_file s' = Some b /\ author_in (as_key s') b = Ok (as_author s');
  rs_author : au_id (as_author s') = dot_author d /\ au_reserved (as_author s') = dot_seq d;
  rs_loaded : as_loaded s' = true
}.

Lemma reserve_last saving marked removed clock s issued r s' :
  author_inv s issued -> as_loaded s = true -> clock_in_range clock ->
  (let a := as_author s in
   let floor := Z.max (au_reserved a) (observed_of a clock) in
   if floor =? u64_max then st_throw (RuntimeError "metadata mutation sequence exhausted")
   else
     _ ← st_modify (set_author (mkAuthor (au_id a) (floor + 1) (au_accepted a) (au_past a)));
     _ ← persist_author saving;
     _ ← (if marked && removed : bool then st_modify (set_broken false) else mret tt);
     mret (mkDot (au_id a) (floor + 1))) s = (r, s') ->
  match r with Ok d => reserved clock issued d s' | Throw _ => author_inv s' issued end.
Proof.
  intros Hi El Hc. cbv zeta. pose proof (ai_memory _ _ Hi El) as ((Hr & Ha & Hp) & Hu & Hdots). set (a := as_author s) in *.
  assert (0 <= observed_of a clock < 2 ^ 64) as Ho.
  { unfold observed_of. destruct (alookup (au_id a) clock) as [n|] eqn:E; cbn; [by apply (Hc (au_id a))|lia]. }
  set (floor := Z.max (au_reserved a) (observed_of a clock)). destruct (Z.eqb_spec floor u64_max) as [|Hne]; [intros [= <- <-]; done|].
  assert (0 <= floor < 2 ^ 64 - 1) as Hfl by (unfold u64_max in Hne; unfold floor in *; lia).
  set (a' := mkAuthor (au_id a) (floor + 1) (au_accepted a) (au_past a)). unfold mbind, st_bind at 1, st_modify at 1.
  set (s1 := set_author a' s). set (d := mkDot (au_id a) (floor + 1)).
  assert (record_fine (as_ids s) issued a') as Hf'.
  { split_and!; [split_and!; cbn [au_reserved au_accepted au_past a']; lia|done|]. intros x Hx E. cbn [au_id au_reserved a'] in *. specialize (Hdots x Hx E). unfold floor. lia. }
  assert (d ∉ issued) as Hnew by (intros Hin; specialize (Hdots d Hin eq_refl); cbn [dot_seq d] in Hdots; unfold floor in Hdots; lia).
  assert (author_inv s1 issued) as Hi1 by (destruct Hi as [H1' H2' H3' H4']; split; done).
  unfold st_bind. destruct (persist_author saving s1) as [[[]|e] s2] eqn:Ep;
    destruct (persist_inv saving s1 issued _ s2 Hi1 Hf' Ep) as (Hi2 & El2 & Ea2 & Eb2 & Ei2 & Ek2 & Hdur); [|intros [= <- <-]; done].
  destruct (Hdur eq_refl) as (b & Eb & Eo). clear Hdur.
  assert (author_inv s2 (d :: issued)) as Hi3.
  { destruct Hi2 as [H1' H2' H3' H4']. split.
    - by constructor.
    - intros x [->|Hx]%elem_of_cons; [|auto]. rewrite Ei2. exact Hu.
    - intros b' Eb'. assert (b' = b) as -> by congruence. exists a'. rewrite Ek2, Ei2. split; [done|]. split_and!; [apply Hf'|done|].
      intros x [->|Hx]%elem_of_cons E; [cbn; lia|]. by apply Hf'.
    - intros _. rewrite Ea2, Ei2. split_and!; [apply Hf'|done|]. intros x [->|Hx]%elem_of_cons E; [cbn; lia|]. by apply Hf'. }
  assert (reserved clock issued d s2) as Hres.
  { split; [done| |done|exists b; rewrite Ek2, Ea2; done|by rewrite Ea2|by rewrite El2]. cbn [dot_author dot_seq d]. fold (observed_of a clock). unfold floor in *. lia. }
  destruct (marked && removed); intros [= <- <-]; [|done]. destruct Hres as [R1 R2 [I1 I2 I3 I4] R4 R5 R6]. by split; [..|split|idtac|idtac|idtac].
Qed.

Lemma reserve_inv loading saving removed clock s issued r s' :
  author_inv s issued -> shown s issued clock -> clock_in_range clock -> reserve_mutation_dot loading saving removed node_id clock s = (r, s') ->
  (as_ids s' <= total)%nat ->
  match r with Ok d => reserved clock issued d s' | Throw _ => author_inv s' issued end.
Proof.
  intros Hi Hsh Hc. unfold reserve_mutation_dot. unfold mbind, st_bind at 1.
  destruct (load_author loading node_id clock s) as [[[]|e] s1] eqn:E1; [|intros [= <- <-] Ht; by apply (load_inv loading clock s issued _ s1 Hi Hsh E1 Ht)].
  unfold st_bind at 1, st_get at 1. set (turn := if as_broken s1 then rotate_author else _). unfold st_bind at 1. intros E Ht.
  destruct (turn s1) as [r2 s2] eqn:E2.
  assert (as_ids s1 <= as_ids s2 <= as_ids s')%nat as Hg.
  { assert (grows turn) as Hg by (unfold turn; destruct (as_broken s1); [|destruct (_ <? _)]; auto with grows). specialize (Hg s1). rewrite E2 in Hg. split; [done|].
    destruct r2; [|by injection E as _ <-]. revert E. match goal with |- ?m s2 = _ -> _ => assert (grows m) as Hm end; [|specialize (Hm s2); intros E; rewrite E in Hm; done].
    apply grows_bind; [auto with grows|]. intros s3. cbv zeta. destruct (_ =? _); [auto with grows|].
    grow. }
  destruct (load_inv loading clock s issued _ s1 Hi Hsh E1 ltac:(lia)) as (Hi1 & _ & Hl1 & _). specialize (Hl1 eq_refl).
  assert (r2 = Ok tt /\ author_inv s2 issued /\ as_loaded s2 = true) as (-> & Hi2 & Hl2).
  { assert (rotate_author s1 = (r2, s2) -> r2 = Ok tt /\ author_inv s2 issued /\ as_loaded s2 = true) as Hrot.
    { intros Er. assert (as_ids s2 = S (as_ids s1)) as Es by (unfold rotate_author, mbind, st_bind, st_get, random_node_id, st_modify in Er; by injection Er as _ <-).
      destruct (rotate_inv s1 issued r2 s2 Hi1 ltac:(lia) Er) as (-> & Hi2 & Hl2 & _). split_and!; [done|done|congruence]. }
    unfold turn in E2. destruct (as_broken s1); [auto|]. destruct (_ <? _); [auto|]. injection E2 as <- <-. done. }
  unfold st_bind at 1, st_get at 1 in E. revert E. apply reserve_last; done.
Qed.

Lemma run_inv s issued : run s issued -> (as_ids s <= total)%nat -> author_inv s issued.
Proof.
  induction 1 as [key nonces|loading saving removed clock s issued r s' _ IH Hsh Hc E|loading clock s issued r s' _ IH Hsh E|d s issued _ IH Hd|s issued _ IH|s issued _ IH|s issued _ IH]; intros Ht.
  - split; cbn; [constructor|by intros ? ?%elem_of_nil|done|done].
  - pose proof (grows_reserve loading saving removed node_id clock s) as Hg. rewrite E in Hg. cbn [snd] in Hg.
    pose proof (reserve_inv loading saving removed clock s issued r s' (IH ltac:(lia)) Hsh Hc E Ht) as Hr. destruct r; [apply Hr|done].
  - pose proof (grows_load loading node_id clock s) as Hg.
    unfold author_ids, mbind, st_bind at 1 in E. destruct (load_author loading node_id clock s) as [[[]|e] s1] eqn:E1; injection E as <- <-; cbn [snd] in Hg;
      by apply (load_inv loading clock s issued _ s1 (IH ltac:(lia)) Hsh E1 Ht).
  - unfold note_author_accepted in *. cbn [snd] in *. destruct (as_loaded s) eqn:El; [|by apply IH]. cbn [andb] in *. destruct (bool_decide _); [|by apply IH].
    specialize (IH Ht). destruct IH as [H1' H2' H3' H4']. specialize (H4' El) as ((Hr & Ha & Hp) & Hu & Hdots). split; [done..|]. intros _. split_and!; [split_and!; cbn; first [done|lia]|done|done].
  - by destruct (IH Ht); split.
  - destruct (IH Ht) as [H1' H2' H3' H4']. split; [done..|]. by cbn.
  - destruct (IH Ht) as [H1' H2' H3' H4']. split; [done|done|by cbn|done].
Qed.
End invariant.

(** C8. A node never hands out a dot twice. Whatever was reserved, accepted
    and recovered before, across restarts, failed writes of the author record
    and its loss, a reservation that returns gives a dot that was not given
    before and that the head it extends does not cover; and the record on disk
    holds its sequence by then. The ids drawn at random so far are assumed to
    be new, and where the record is lost, the head to show the node's own
    mutations. *)
Theorem dots_never_repeat (s s' : AuthorState) (issued : list MetadataDot) (loading saving : WriteOutcome) (removed : bool)
    (clock : VersionClock) (d : MetadataDot) :
  run s issued -> shown s issued clock -> clock_in_range clock ->
  reserve_mutation_dot loading saving removed node_id clock s = (Ok d, s') -> ids_new (as_ids s') ->
  NoDup (d :: issued) /\ clock_covers clock d = false /\ 0 < dot_seq d < 2 ^ 64 /\
  exists bytes a, as_file s' = Some bytes /\ author_in (as_key s') bytes = Ok a /\ au_id a = dot_author d /\ au_reserved a = dot_seq d.
Proof.
  intros Hrun Hsh Hc E Hnew. pose proof (grows_reserve loading saving removed node_id clock s) as Hg. rewrite E in Hg. cbn [snd] in Hg.
  destruct (reserve_inv _ Hnew loading saving removed clock s issued _ s' (run_inv _ Hnew s issued Hrun Hg) Hsh Hc E (le_n _)) as [Hn Ha Hi (b & Eb & Eo) [Ei Er] _].
  assert (0 <= default 0 (alookup (dot_author d) clock)) as Hz by (destruct (alookup (dot_author d) clock) as [n|] eqn:En; cbn; [by apply (Hc (dot_author d))|lia]).
  split_and!; [apply Hi| |lia|lia|by exists b, (as_author s')]. unfold clock_covers. destruct (alookup (dot_author d) clock) as [n|]; [|done]. change (n < dot_seq d < 2 ^ 64) in Ha.
  apply Z.leb_gt. lia.
Qed.

(** A reservation that cannot continue the chain. *)
Lemma new_author_taken (s s' : AuthorState) (issued : list MetadataDot) (loading saving : WriteOutcome) (removed : bool)
    (clock : VersionClock) (d : MetadataDot) :
  run s issued -> as_loaded s = true ->
  as_broken s = true \/ observed_of (as_author s) clock < au_accepted (as_author s) ->
  reserve_mutation_dot loading saving removed node_id clock s = (Ok d, s') -> ids_new (as_ids s') ->
  dot_author d = draw_node_id (as_ids s) /\ dot_author d <> au_id (as_author s) /\ forall x, x ∈ issued -> dot_author x <> dot_author d.
Proof.
  intros Hrun Hl Hb E Hnew.
  assert (dot_author d = draw_node_id (as_ids s) /\ (as_ids s < as_ids s')%nat) as [Ed Hlt].
  { assert (load_author loading node_id clock s = (Ok tt, s)) as El by (unfold load_author, mbind, st_bind, st_get; by rewrite Hl).
    unfold reserve_mutation_dot, mbind, st_bind at 1 in E. rewrite El in E. unfold st_bind at 1, st_get at 1 in E.
    assert ((if as_broken s then rotate_author else if observed_of (as_author s) clock <? au_accepted (as_author s) then rotate_author else mret tt) = rotate_author) as Et.
    { destruct Hb as [->|Hlt]; [done|]. destruct (as_broken s); [done|]. by destruct (Z.ltb_spec (observed_of (as_author s) clock) (au_accepted (as_author s))); [|lia]. }
    unfold st_bind at 1 in E. rewrite Et in E. unfold rotate_author at 1, mbind, st_bind at 1, st_get at 1, random_node_id at 1, st_bind at 1, st_modify at 1 in E.
    unfold st_bind at 1, st_get at 1 in E. set (s1 := set_author _ _) in E. cbv zeta in E. destruct (Z.eqb _ _); [done|]. unfold st_bind at 1, st_modify at 1 in E. unfold st_bind in E.
    match type of E with context [persist_author saving ?x] => pose proof (grows_persist saving x) as Hg; destruct (persist_author saving x) as [[[]|] s2] end; [|done].
    cbn [snd] in Hg. destruct (as_broken s && removed); injection E as <- <-; (split; [done|]); cbn in *; lia. }
  pose proof (run_inv _ Hnew s issued Hrun ltac:(lia)) as Hi. rewrite Ed.
  pose proof (next_unused _ Hnew (as_ids s) Hlt) as Hn. split_and!; [done| |].
  - intros E'. apply Hn. rewrite E'. by apply (ai_memory _ _ Hi Hl).
  - intros x Hx E'. apply Hn. rewrite <- E'. by apply (ai_used _ _ Hi).
Qed.
(** A chain that cannot be continued is not continued. When the head set
    was replaced, or the head extended lacks a mutation this node knows it has
    had accepted, the dot handed out has an author under which no mutation of
    the node was made. *)
Theorem broken_chain_new_author (s s' : AuthorState) (issued : list MetadataDot) (loading saving : WriteOutcome) (removed : bool)
    (clock : VersionClock) (d : MetadataDot) :
  run s issued -> as_loaded s = true ->
  as_broken s = true \/ observed_of (as_author s) clock < au_accepted (as_author s) ->
  reserve_mutation_dot loading saving removed node_id clock s = (Ok d, s') -> ids_new (as_ids s') ->
  dot_author d = draw_node_id (as_ids s) /\ dot_author d <> au_id (as_author s) /\ forall x, x ∈ issued -> dot_author x <> dot_author d.
Proof. apply new_author_taken. Qed.

(** C38. What a node has had accepted is lost with a restart, until it reserves
    again. Whatever went before, let a node reserve a dot, the chain's marker
    not being set, and have it accepted. Asked then for a dot on a head that
    has what was accepted before but lacks that mutation, it takes a new
    author; but when it restarts in between, it goes on as the same author
    with the next sequence, so that a head with the new dot covers, by its
    clock, a mutation it lacks. *)
Theorem accepted_forgotten_at_restart (s s1 : AuthorState) (issued : list MetadataDot) (loading saving : WriteOutcome) (removed : bool)
    (clock : VersionClock) (d : MetadataDot) (loading' : WriteOutcome) (removed' : bool) (clock' : VersionClock) :
  run s issued -> shown s issued clock -> clock_in_range clock ->
  reserve_mutation_dot loading saving removed node_id clock s = (Ok d, s1) -> ids_new (as_ids s1) -> as_broken s1 = false ->
  au_accepted (as_author s1) <= default 0 (alookup (dot_author d) clock') < dot_seq d -> dot_seq d < u64_max ->
  let accepted := (note_author_accepted d s1).2 in
  (forall loading saving removed d' s', reserve_mutation_dot loading saving removed node_id clock' accepted = (Ok d', s') -> ids_new (as_ids s') ->
     dot_author d' <> dot_author d) /\
  exists s', reserve_mutation_dot loading' write_done removed' node_id clock' (restarted accepted) = (Ok (mkDot (dot_author d) (dot_seq d + 1)), s').
Proof.
  intros Hrun Hsh Hc E Hnew Hb Hlack Hmax accepted. pose proof (grows_reserve loading saving removed node_id clock s) as Hg. rewrite E in Hg. cbn [snd] in Hg.
  destruct (reserve_inv _ Hnew loading saving removed clock s issued _ s1 (run_inv _ Hnew s issued Hrun Hg) Hsh Hc E (le_n _)) as [_ Hseq Hi (b & Eb & Eo) [Ei Er] El].
  pose proof (ai_memory _ _ Hi El) as ((Hr & Ha & Hp) & _).
  assert (accepted = set_author (mkAuthor (au_id (as_author s1)) (au_reserved (as_author s1)) (Z.max (au_accepted (as_author s1)) (dot_seq d)) (au_past (as_author s1))) s1) as Eacc.
  { unfold accepted, note_author_accepted. rewrite El, bool_decide_true by done. done. }
  split.
  - intros loading2 saving2 removed2 d' s' E' Hnew'.
    assert (run accepted (d :: issued)) as Hrun'.
    { apply run_accepted; [|lia]. exact (run_reserve loading saving removed clock s issued (Ok d) s1 Hrun Hsh Hc E). }
    destruct (new_author_taken accepted s' (d :: issued) loading2 saving2 removed2 clock' d' Hrun') as (_ & _ & Hne); [by rewrite Eacc|right|done|done|].
    + rewrite Eacc. cbn [as_author set_author au_accepted]. unfold observed_of. cbn [au_id]. rewrite Ei. lia.
    + intros E2. by apply (Hne d); [left|].
  - set (sl := set_loaded true (set_author (as_author s1) (set_author no_author (restarted accepted)))).
    assert (load_author loading' node_id clock' (restarted accepted) = (Ok tt, sl)) as Eload.
    { assert (as_file (restarted accepted) = Some b /\ as_key (restarted accepted) = as_key s1) as [Ef Ek] by (rewrite Eacc; done).
      unfold load_author, mbind, st_bind, st_get, st_modify. change (as_loaded (restarted accepted)) with false. cbv iota. by rewrite Ef, Ek, Eo. }
    assert (as_broken sl = false /\ as_author sl = as_author s1) as [Esb Esa] by (unfold sl; rewrite Eacc; done).
    unfold reserve_mutation_dot. rewrite (st_bind_ok _ _ _ tt sl) by exact Eload. rewrite (st_bind_ok _ _ _ sl sl) by reflexivity. rewrite Esb, Esa.
    assert (observed_of (as_author s1) clock' = default 0 (alookup (dot_author d) clock')) as Eobs by (unfold observed_of; by rewrite Ei).
    destruct (Z.ltb_spec (observed_of (as_author s1) clock') (au_accepted (as_author s1))); [lia|].
    rewrite (st_bind_ok _ _ _ tt sl) by reflexivity. rewrite (st_bind_ok _ _ _ sl sl) by reflexivity. cbv zeta. rewrite Esa, Eobs, Er, Ei.
    replace (Z.max (dot_seq d) (default 0 (alookup (dot_author d) clock'))) with (dot_seq d) by lia. destruct (Z.eqb_spec (dot_seq d) u64_max); [lia|].
    erewrite st_bind_ok by reflexivity. destruct (persist_done (set_author (mkAuthor (dot_author d) (dot_seq d + 1) (au_accepted (as_author s1)) (au_past (as_author s1))) sl)) as (s' & Ep).
    { split_and!; cbn; unfold u64_max in *; lia. }
    exists s'. erewrite st_bind_ok by exact Ep. cbn [andb]. by erewrite st_bind_ok by reflexivity.
Qed.
End authors.

(** ** On a concrete node *)

Module AuthorSample.
#[local] Existing Instances Sample.gcm Sample.gcm_spec Sample.entropy.
Definition me : NodeId := array_fit 16 [x01].
#[global] Instance ids : RandomIds := fun k => array_fit 16 (be_bytes 16 (Z.of_nat k + 2 ^ 100)).
Definition start : AuthorState := mkAuthorState Sample.key false no_author None false 0 0.
Definition reserve (clock : VersionClock) : ST AuthorState MetadataDot := reserve_mutation_dot write_done write_done true me clock.
Definition after_first : AuthorState := (reserve [] start).2.
Definition first : MetadataDot := mkDot me 1.
Definition accepted : AuthorState := (note_author_accepted first after_first).2.

Lemma first_new n : (n <= 1)%nat -> ids_new me n.
Proof.
  intros Hn. split; [intros; lia|]. intros i Hi. assert (i = O) as -> by lia. apply (bool_decide_eq_false_1 (draw_node_id 0 = me)). vm_compute. reflexivity.
Qed.
Lemma accepted_run : run me accepted [first].
Proof.
  apply (run_accepted me first after_first [first]); [|cbn; lia].
  apply (run_reserve me write_done write_done true [] start [] (Ok first) after_first); [constructor|by intros _ _ (d & ?%elem_of_nil & _)|done|].
  unfold after_first. rewrite (surjective_pairing (reserve [] start)) at 1. fold (reserve [] start). f_equal; vm_compute; reflexivity.
Qed.
Lemma marked_run : run me (mark_chain_broken accepted) [first].
Proof. constructor. exact accepted_run. Qed.
End AuthorSample.

#[local] Existing Instances Sample.gcm Sample.gcm_spec Sample.entropy.

Lemma accepted_forgotten_at_restart_witness :
  let accepted := (note_author_accepted AuthorSample.first AuthorSample.after_first).2 in
  (forall loading saving removed d' s', reserve_mutation_dot loading saving removed AuthorSample.me [] accepted = (Ok d', s') -> ids_new AuthorSample.me (as_ids s') ->
     dot_author d' <> AuthorSample.me) /\
  exists s', reserve_mutation_dot write_done write_done true AuthorSample.me [] (restarted accepted) = (Ok (mkDot AuthorSample.me 2), s').
Proof.
  apply (accepted_forgotten_at_restart AuthorSample.me AuthorSample.start AuthorSample.after_first [] write_done write_done true [] AuthorSample.first write_done true []).
  - constructor.
  - by intros _ _ (d & ?%elem_of_nil & _).
  - done.
  - unfold AuthorSample.after_first, AuthorSample.reserve. rewrite (surjective_pairing (reserve_mutation_dot _ _ _ _ _ AuthorSample.start)) at 1. f_equal; vm_compute; reflexivity.
  - apply AuthorSample.first_new. vm_compute. lia.
  - vm_compute. reflexivity.
  - vm_compute. split; congruence.
  - vm_compute. reflexivity.
Defined.

Lemma dots_never_repeat_witness :
  exists d s', AuthorSample.reserve [] (mark_chain_broken AuthorSample.accepted) = (Ok d, s') /\ NoDup [d; AuthorSample.first] /\
    clock_covers [] d = false.
Proof.
  assert (AuthorSample.reserve [] (mark_chain_broken AuthorSample.accepted) =
    (Ok (mkDot (draw_node_id 0) 1), (AuthorSample.reserve [] (mark_chain_broken AuthorSample.accepted)).2)) as E.
  { rewrite (surjective_pairing (AuthorSample.reserve [] (mark_chain_broken AuthorSample.accepted))) at 1. f_equal; vm_compute; reflexivity. }
  eexists _, _. split; [exact E|].
  destruct (dots_never_repeat AuthorSample.me (mark_chain_broken AuthorSample.accepted) (AuthorSample.reserve [] (mark_chain_broken AuthorSample.accepted)).2 [AuthorSample.first]
    write_done write_done true [] (mkDot (draw_node_id 0) 1)
    AuthorSample.marked_run) as (Hn & Hc & _); [|done|exact E|apply AuthorSample.first_new; vm_compute; lia|by split].
  intros Hf. vm_compute in Hf. discriminate Hf.
Defined.

Lemma broken_chain_new_author_witness :
  exists d s', AuthorSample.reserve [] AuthorSample.accepted = (Ok d, s') /\ dot_author d = draw_node_id 0 /\ dot_author d <> AuthorSample.me.
Proof.
  assert (AuthorSample.reserve [] AuthorSample.accepted = (Ok (mkDot (draw_node_id 0) 1), (AuthorSample.reserve [] AuthorSample.accepted).2)) as E.
  { rewrite (surjective_pairing (AuthorSample.reserve [] AuthorSample.accepted)) at 1. f_equal; vm_compute; reflexivity. }
  eexists _, _. split; [exact E|].
  destruct (broken_chain_new_author AuthorSample.me AuthorSample.accepted (AuthorSample.reserve [] AuthorSample.accepted).2 [AuthorSample.first]
    write_done write_done true [] (mkDot (draw_node_id 0) 1)
    AuthorSample.accepted_run) as (Ha & Hn & _); [vm_compute; reflexivity|right; vm_compute; reflexivity|exact E|apply AuthorSample.first_new; vm_compute; lia|by split].
Defined.
