(* ===== verification/NamespaceTree.v ===== *)
(** * The namespace tree

    [src/src/metadata/namespace_tree.cpp]: the namespace as a
    content-addressed tree of nodes over a node store, how a whole tree is
    built and how it is read: lookups, walks, prefixes, pages and scans.
    Updates of a tree are in [NamespaceUpdate], comparisons of trees in
    [NamespaceReach].

    The node store is an interface of the source ([NamespaceNodeStore]) and a
    class here; [MemoryNamespaceNodeStore] is an instance. Recursion over the
    nodes of a store takes fuel, a bound on the height of the tree. *)

From S2P Require Import Prelude Sorts Maps Orders Codec TorrentRequest Journal Paths Metadata MetadataCodec.

Record NamespaceTreeLimits : Type := mkLimits {
  entry_target_fanout : Z; entry_max_fanout : Z; branch_target_fanout : Z; branch_max_fanout : Z;
  extent_inline_max : Z; extent_target_fanout : Z; extent_max_fanout : Z
}.
Definition default_limits : NamespaceTreeLimits := mkLimits 32 128 32 128 8 256 1024.

(** ** Where nodes are kept *)

Class NodeStore (S : Type) : Type := {
  ns_put : Bytes -> ST S ObjectId;
  ns_get : S -> ObjectId -> option Bytes
}.

Definition object_id `{Sha256} (node : Bytes) : ObjectId := sha256 node.

(** [MemoryNamespaceNodeStore]; the count of reads is left out. *)
Record MemoryStore : Type := mkStore { ms_nodes : list (ObjectId * Bytes); ms_written : list ObjectId; ms_bytes : Z }.
Definition memory_put `{Sha256} (node : Bytes) : ST MemoryStore ObjectId := fun s =>
  let id := object_id node in
  match map_emplace id node (ms_nodes s) with
  | Some nodes => (Ok id, mkStore nodes (ms_written s ++ [id]) (wrap64 (ms_bytes s + Z.of_nat (length node))))
  | None => (Ok id, s)
  end.
Definition memory_get (s : MemoryStore) (id : ObjectId) : option Bytes := alookup id (ms_nodes s).
Definition memory_put_at (id : ObjectId) (node : Bytes) (s : MemoryStore) : MemoryStore :=
  mkStore (map_set id node (ms_nodes s)) (ms_written s) (wrap64 (ms_bytes s + Z.of_nat (length node))).
#[global] Instance memory_store `{Sha256} : NodeStore MemoryStore := {| ns_put := memory_put; ns_get := memory_get |}.

(** ** Boundaries and the parts of a node *)

Definition magic4 (s : string) : array 4 := array_fit 4 (str s).
Definition leaf_magic : array 4 := magic4 "MNL1".
Definition branch_magic : array 4 := magic4 "MNB1".
Definition extent_leaf_magic : array 4 := magic4 "MNX1".
Definition extent_branch_magic : array 4 := magic4 "MNY1".

Definition extent_form_none : Z := 0.
Definition extent_form_inlined : Z := 1.
Definition extent_form_external : Z := 2.

Definition boundary_hash `{Sha256} (domain : Bytes) (level : Z) (key : Bytes) : Z :=
  foldl (fun v b => Z.lor (wrap64 (Z.shiftl v 8)) (b2z b)) 0 (take 8 (abytes (sha256 (domain ++ [z2b level] ++ key)))).
Definition is_boundary (hash target : Z) : bool := (target <=? 1) || (hash <? u64_max / target).

Definition encoded_extent_bytes : nat := 49.

(** A spine node's child, with the count of what is beneath it. *)
Record Child : Type := mkChild { ch_first_key : Bytes; ch_id : ObjectId; ch_items : Z }.
#[global] Instance child_eq_dec : EqDecision Child.
Proof. solve_decision. Defined.

Definition branch_domain : Bytes := str "macha/namespace-tree/branch/v1".
Definition extent_branch_domain : Bytes := str "macha/namespace-tree/extent-branch/v1".
Definition extent_domain : Bytes := str "macha/namespace-tree/extent/v1".
Definition entry_domain : Bytes := str "macha/namespace-tree/entry/v1".

Definition branch_boundary `{Sha256} (child : Child) (level : Z) (keyed : bool) (target : Z) : bool :=
  is_boundary (if keyed then boundary_hash branch_domain level (ch_first_key child)
               else boundary_hash extent_branch_domain level (abytes (ch_id child))) target.

Definition write_child (keyed : bool) (c : Child) : Writer.prog :=
  (if keyed then Writer.string (ch_first_key c) else Writer.skip) ;;; Writer.fixed (ch_id c) ;;; Writer.u64 (ch_items c).
Definition write_spine (keyed : bool) (level : Z) (run : list Child) : Writer.prog :=
  Writer.fixed (if keyed then branch_magic else extent_branch_magic) ;;; Writer.u8 level ;;; write_count run ;;;
  Writer.each (write_child keyed) run.

(** [run.front()]'s key; a run is never empty. *)
Definition front_key (run : list Child) : Bytes := match run with c :: _ => ch_first_key c | [] => [] end.

(** [ExtentForm] and the extents of a leaf record: none, the list itself, or
    how many there are and the root of their sequence. *)
Inductive ExtentTable : Type := extents_none | extents_inlined (l : list ExtentRef) | extents_external (count : Z) (root : ObjectId).
Definition write_table (t : ExtentTable) : Writer.prog :=
  match t with
  | extents_none => Writer.u8 extent_form_none
  | extents_inlined l => Writer.u8 extent_form_inlined ;;; write_count l ;;; Writer.each write_extent l
  | extents_external count root => Writer.u8 extent_form_external ;;; Writer.u64 count ;;; Writer.fixed root
  end.

(** What a leaf record holds before its extents. *)
Definition write_stat (path : Bytes) (e : FsEntry) : Writer.prog :=
  let provenance := negb (provenance_empty (fe_provenance e)) in
  Writer.string path ;;;
  Writer.u8 (Z.lor (entry_type_code (fe_type e)) (if provenance then entry_type_with_provenance else 0)) ;;;
  Writer.u32 (fe_mode e) ;;; Writer.u32 (fe_uid e) ;;; Writer.u32 (fe_gid e) ;;;
  Writer.u64 (fe_size e) ;;; Writer.i64 (fe_ctime_ns e) ;;; Writer.i64 (fe_mtime_ns e) ;;; Writer.u64 (fe_version e) ;;;
  (if provenance then encode_entry_provenance (fe_provenance e) else Writer.skip).

(** ** Building *)

Definition next_spine_level (level : Z) : Z := if level <? u8_max then level + 1 else level.

Section build.
Context `{Sha256} {S : Type} `{NodeStore S} (limits : NamespaceTreeLimits).

(** The loop that cuts a sequence into nodes: a run is written when an item
    ends it or it is as long as allowed, and at the end. The flag tells
    whether the last run was left open. *)
Definition cut_step {A} (ends : A -> bool) (maximum : Z) (flush : list A -> ST S Child) (acc : list Child * list A * bool) (x : A)
    : ST S (list Child * list A * bool) :=
  let '(nodes, run, closed) := acc in
  let run := run ++ [x] in
  if ends x || (maximum <=? Z.of_nat (length run)) then c ← flush run; mret (nodes ++ [c], [], true)
  else mret (nodes, run, false).
Definition cut_runs {A} (ends : A -> bool) (maximum : Z) (flush : list A -> ST S Child) (l : list A) : ST S (list Child * bool) :=
  '(nodes, run, closed) ← foldM (cut_step ends maximum flush) ([], [], true) l;
  match run with
  | [] => mret (nodes, negb closed)
  | _ => c ← flush run; mret (nodes ++ [c], negb closed)
  end.

Definition put_spine_node (level : Z) (keyed : bool) (run : list Child) : ST S Child :=
  encoded ← st_lift (Writer.run (write_spine keyed level run));
  id ← ns_put encoded;
  mret (mkChild (front_key run) id (sum_u64 (ch_items <$> run))).

Definition build_level (packed : bool) (children : list Child) (level : Z) (keyed : bool) (target maximum : Z) : ST S (list Child) :=
  '(parents, _) ← cut_runs (fun c => negb packed && branch_boundary c level keyed target) maximum (put_spine_node level keyed) children;
  mret parents.
(** Grouping made no progress. *)
Definition stuck (parents children : list Child) : bool :=
  (length children <=? length parents)%nat && (1 <? length children)%nat.
Definition build_spine_level (children : list Child) (level : Z) (keyed : bool) (target maximum : Z) : ST S (list Child) :=
  parents ← build_level false children level keyed target maximum;
  parents ← (if stuck parents children then build_level true children level keyed target maximum else mret parents);
  if stuck parents children then st_throw (LogicError "namespace tree spine made no progress even packed") else mret parents.

(** Every level has fewer nodes than the one below: as much fuel as there are
    children is enough. *)
Fixpoint spine_loop (fuel : nat) (children : list Child) (level : Z) (keyed : bool) (target maximum : Z) : ST S ObjectId :=
  match children with
  | [] => st_throw (LogicError "namespace tree spine over no children")
  | [c] => mret (ch_id c)
  | _ =>
      match fuel with
      | O => st_throw OutOfFuel
      | Datatypes.S fuel =>
          parents ← build_spine_level children level keyed target maximum;
          spine_loop fuel parents (next_spine_level level) keyed target maximum
      end
  end.
Definition build_spine (children : list Child) (keyed : bool) (target maximum : Z) : ST S ObjectId :=
  spine_loop (length children) children 1 keyed target maximum.

Definition write_extent_leaf (run : list ExtentRef) : Writer.prog :=
  Writer.fixed extent_leaf_magic ;;; write_count run ;;; Writer.each write_extent run.
Definition put_extent_leaf (run : list ExtentRef) : ST S Child :=
  encoded ← st_lift (Writer.run (write_extent_leaf run));
  id ← ns_put encoded;
  mret (mkChild [] id (Z.of_nat (length run))).
Definition ends_extents (x : ExtentRef) : bool :=
  is_boundary (boundary_hash extent_domain 0 (abytes (ex_id x))) (extent_target_fanout limits).
Definition build_extent_sequence (extents : list ExtentRef) : ST S ObjectId :=
  '(chunks, _) ← cut_runs ends_extents (extent_max_fanout limits) put_extent_leaf extents;
  build_spine chunks false (extent_target_fanout limits) (extent_max_fanout limits).

(** The extents of an entry as its leaf holds them. *)
Definition extent_table (extents : list ExtentRef) : ST S ExtentTable :=
  match extents with
  | [] => mret extents_none
  | _ =>
      if Z.of_nat (length extents) <=? extent_inline_max limits then mret (extents_inlined extents)
      else root ← build_extent_sequence extents; mret (extents_external (Z.of_nat (length extents)) root)
  end.
Definition encode_leaf_entry (w : Writer.t) (path : Bytes) (entry : FsEntry) : ST S Writer.t :=
  w ← st_lift (write_stat path entry w);
  table ← extent_table (fe_extents entry);
  st_lift (write_table table w).

(** A leaf record as it lies in its leaf, or an entry to encode in its place. *)
Record LeafRecord : Type := mkLeafRecord { lr_key : Bytes; lr_raw : Bytes; lr_entry : option FsEntry }.
Definition encode_record (w : Writer.t) (r : LeafRecord) : ST S Writer.t :=
  match lr_entry r with
  | Some entry => encode_leaf_entry w (lr_key r) entry
  | None => st_lift (Writer.raw (lr_raw r) w)
  end.
Definition put_leaf (run : list LeafRecord) : ST S Child :=
  w ← st_lift ((Writer.fixed leaf_magic ;;; write_count run) []);
  w ← foldM encode_record w run;
  id ← ns_put w;
  mret (mkChild (match run with r :: _ => lr_key r | [] => [] end) id (Z.of_nat (length run))).
Definition ends_a_leaf (path : Bytes) : bool :=
  is_boundary (boundary_hash entry_domain 0 path) (entry_target_fanout limits).
Definition chunk_records (records : list LeafRecord) : ST S (list Child * bool) :=
  cut_runs (fun r => ends_a_leaf (lr_key r)) (entry_max_fanout limits) put_leaf records.
(** [chunk_leaves]: the same over entries. *)
Definition entry_record (e : Bytes * FsEntry) : LeafRecord := mkLeafRecord e.1 [] (Some e.2).
Definition chunk_leaves (entries : NamespaceEntries) : ST S (list Child * bool) := chunk_records (entry_record <$> entries).

Definition empty_leaf : ST S ObjectId :=
  encoded ← st_lift (Writer.run (Writer.fixed leaf_magic ;;; Writer.u32 0));
  ns_put encoded.
Definition build_namespace_tree (entries : NamespaceEntries) : ST S ObjectId :=
  '(leaves, _) ← chunk_leaves entries;
  match leaves with
  | [] => empty_leaf
  | _ => build_spine leaves true (branch_target_fanout limits) (branch_max_fanout limits)
  end.
End build.

(** ** Reading nodes *)

(** A result within a reading program. *)
Definition read_lift {A} (r : result A) : Reader.prog A := fun rd =>
  match r with Ok a => Ok (a, rd) | Throw e => Throw e end.

Definition path_limit : Z := 8192.
Definition read_list {A} (p : Reader.prog A) : Reader.prog (list A) := n ← Reader.u32; Reader.times (Z.to_nat n) p.
Definition read_child (keyed : bool) : Reader.prog Child :=
  key ← (if keyed then Reader.string path_limit else mret []);
  id ← Reader.fixed 32; items ← Reader.u64; mret (mkChild key id items).
(** A branch after its magic. *)
Definition read_branch (keyed : bool) : Reader.prog (Z * list Child) :=
  level ← Reader.u8; children ← read_list (read_child keyed); mret (level, children).

(** A leaf record's fields before its extents. *)
Definition read_stat : Reader.prog (list ExtentRef -> FsEntry) :=
  t ← Reader.u8;
  let provenance := negb (Z.land t entry_type_with_provenance =? 0) in
  let t := Z.land t (255 - entry_type_with_provenance) in
  if (t <? 1) || (2 <? t) then bad "bad namespace tree entry type"
  else
    mode ← Reader.u32; uid ← Reader.u32; gid ← Reader.u32;
    size ← Reader.u64; ctime ← Reader.i64; mtime ← Reader.i64; version ← Reader.u64;
    p ← (if provenance then decode_entry_provenance else mret no_provenance);
    mret (fun extents => mkEntry (if t =? 1 then directory else file) mode uid gid size ctime mtime version extents p).
Definition skip_leaf_entry_stat : Reader.prog unit :=
  t ← Reader.u8;
  _ ← Reader.u32; _ ← Reader.u32; _ ← Reader.u32;
  _ ← Reader.u64; _ ← Reader.i64; _ ← Reader.i64; _ ← Reader.u64;
  if Z.land t entry_type_with_provenance =? 0 then mret tt else _ ← decode_entry_provenance; mret tt.
Definition read_table : Reader.prog ExtentTable :=
  form ← Reader.u8;
  if form =? extent_form_none then mret extents_none
  else if form =? extent_form_inlined then l ← read_list read_extent; mret (extents_inlined l)
  else if form =? extent_form_external then count ← Reader.u64; root ← Reader.fixed 32; mret (extents_external count root)
  else bad "bad namespace tree extent form".

Section read.
Context {S : Type} `{NodeStore S} (s : S).

Definition fetch (what : string) (id : ObjectId) : result Bytes :=
  match ns_get s id with Some node => Ok node | None => Throw (DecodeError what) end.
Definition node_unavailable : string := "namespace tree node unavailable".

Fixpoint read_extent_sequence (fuel : nat) (root : ObjectId) : result (list ExtentRef) :=
  match fuel with
  | O => Throw OutOfFuel
  | Datatypes.S fuel =>
      encoded ← fetch "namespace tree extent node unavailable" root;
      node ← Reader.run (
        magic ← Reader.fixed 4;
        if bool_decide (magic = extent_leaf_magic) then l ← read_list read_extent; _ ← Reader.finish; mret (inl l)
        else if bool_decide (magic = extent_branch_magic) then b ← read_branch false; _ ← Reader.finish; mret (inr b.2)
        else bad "not a namespace tree extent node") encoded;
      match node with
      | inl extents => Ok extents
      | inr children => foldM (fun out c => l ← read_extent_sequence fuel (ch_id c); Ok (out ++ l)) [] children
      end
  end.

(** The extents of a table, read when [load]. *)
Definition table_extents (fuel : nat) (load : bool) (t : ExtentTable) : result (list ExtentRef) :=
  match t with
  | extents_none => Ok []
  | extents_inlined l => Ok l
  | extents_external _ root => if load then read_extent_sequence fuel root else Ok []
  end.
Definition decode_leaf_entry_when (fuel : nat) (want : Bytes -> bool) : Reader.prog (Bytes * FsEntry) :=
  key ← Reader.string path_limit;
  entry ← read_stat;
  table ← read_table;
  extents ← read_lift (table_extents fuel (want key) table);
  mret (key, entry extents).
Definition decode_leaf_entry (fuel : nat) (load_all : bool) (load_only_for : Bytes) : Reader.prog (Bytes * FsEntry) :=
  decode_leaf_entry_when fuel (fun key => load_all || (negb (bool_decide (load_only_for = [])) && bool_decide (key = load_only_for))).

(** A node after its magic: how many entries follow in a leaf, or the
    children of a branch. *)
Definition open_node : Reader.prog (Z + (Z * list Child)) :=
  magic ← Reader.fixed 4;
  if bool_decide (magic = leaf_magic) then n ← Reader.u32; mret (inl n)
  else if bool_decide (magic = branch_magic) then b ← read_branch true; _ ← Reader.finish; mret (inr b)
  else bad "not a namespace tree node".

(** A visitor's state is kept when it or the walk throws. *)
Section visit.
Context {A : Type}.

(** Each entry of a leaf, decoded and visited in turn. *)
Fixpoint visit_leaf (n : nat) (decode : Reader.prog (Bytes * FsEntry)) (visit : Bytes * FsEntry -> ST A unit) (rd : Reader.t)
    : ST A Reader.t :=
  match n with
  | O => mret rd
  | Datatypes.S n => '(item, rd) ← st_lift (decode rd); _ ← visit item; visit_leaf n decode visit rd
  end.
Definition finish_leaf (rd : Reader.t) : ST A unit := '(u, _) ← st_lift (Reader.finish rd); mret u.

Fixpoint walk_subtree (fuel : nat) (id : ObjectId) (visit : Bytes * FsEntry -> ST A unit) : ST A unit :=
  match fuel with
  | O => st_throw OutOfFuel
  | Datatypes.S fuel =>
      encoded ← st_lift (fetch node_unavailable id);
      '(node, rd) ← st_lift (open_node (Reader.mk encoded 0));
      match node with
      | inl n => rd ← visit_leaf (Z.to_nat n) (decode_leaf_entry fuel true []) visit rd; finish_leaf rd
      | inr (_, children) => foldM (fun _ c => walk_subtree fuel (ch_id c) visit) tt children
      end
  end.

(** [children[i]] is passed over when its successor starts at or before the
    prefix; the walk ends at a child that starts at or after [upper]. *)
Fixpoint walk_children_prefix (walk : ObjectId -> ST A unit) (prefix upper : Bytes) (children : list Child) : ST A unit :=
  match children with
  | [] => mret tt
  | c :: rest =>
      if (match rest with d :: _ => negb (key_ltb prefix (ch_first_key d)) | [] => false end)
      then walk_children_prefix walk prefix upper rest
      else if negb (bool_decide (upper = [])) && negb (key_ltb (ch_first_key c) upper) then mret tt
      else _ ← walk (ch_id c); walk_children_prefix walk prefix upper rest
  end.
Definition starts_with (prefix key : Bytes) : bool := bool_decide (take (length prefix) key = prefix).
Fixpoint walk_subtree_prefix (fuel : nat) (id : ObjectId) (prefix upper : Bytes) (visit : Bytes * FsEntry -> ST A unit) : ST A unit :=
  match fuel with
  | O => st_throw OutOfFuel
  | Datatypes.S fuel =>
      encoded ← st_lift (fetch node_unavailable id);
      '(node, rd) ← st_lift (open_node (Reader.mk encoded 0));
      match node with
      | inl n =>
          rd ← visit_leaf (Z.to_nat n) (decode_leaf_entry_when fuel (starts_with prefix))
                 (fun item => if starts_with prefix item.1 then visit item else mret tt) rd;
          finish_leaf rd
      | inr (_, children) => walk_children_prefix (fun id => walk_subtree_prefix fuel id prefix upper visit) prefix upper children
      end
  end.

(** [take] answers whether to go on; the walk answers whether it stopped. *)
Fixpoint take_leaf (n : nat) (decode : Reader.prog (Bytes * FsEntry)) (after : option Bytes) (take : Bytes * FsEntry -> ST A bool)
    (rd : Reader.t) : ST A bool :=
  match n with
  | O => _ ← finish_leaf rd; mret false
  | Datatypes.S n =>
      '(item, rd) ← st_lift (decode rd);
      if (match after with Some k => negb (key_ltb k item.1) | None => false end) then take_leaf n decode after take rd
      else
        go_on ← take item;
        if go_on : bool then take_leaf n decode after take rd else mret true
  end.
Fixpoint walk_children_after (walk : ObjectId -> ST A bool) (after : option Bytes) (children : list Child) : ST A bool :=
  match children with
  | [] => mret false
  | c :: rest =>
      if (match after, rest with Some k, d :: _ => negb (key_ltb k (ch_first_key d)) | _, _ => false end)
      then walk_children_after walk after rest
      else stopped ← walk (ch_id c); if stopped : bool then mret true else walk_children_after walk after rest
  end.
Fixpoint walk_subtree_after (fuel : nat) (id : ObjectId) (after : option Bytes) (take : Bytes * FsEntry -> ST A bool) : ST A bool :=
  match fuel with
  | O => st_throw OutOfFuel
  | Datatypes.S fuel =>
      encoded ← st_lift (fetch node_unavailable id);
      '(node, rd) ← st_lift (open_node (Reader.mk encoded 0));
      match node with
      | inl n => take_leaf (Z.to_nat n) (decode_leaf_entry fuel true []) after take rd
      | inr (_, children) => walk_children_after (fun id => walk_subtree_after fuel id after take) after children
      end
  end.
End visit.

Definition walk_namespace_tree {A} (fuel : nat) (root : ObjectId) (visit : Bytes * FsEntry -> ST A unit) : ST A unit :=
  walk_subtree fuel root visit.

(** The entries of a tree, in a map. *)
Definition emplace_entry (e : Bytes * FsEntry) : ST NamespaceEntries unit := fun out =>
  match map_emplace e.1 e.2 out with
  | Some out => (Ok tt, out)
  | None => (Throw (DecodeError "namespace tree contains a duplicate path"), out)
  end.
Definition read_namespace_tree (fuel : nat) (root : ObjectId) : result NamespaceEntries :=
  match walk_subtree fuel root emplace_entry [] with
  | (Ok _, out) => Ok out
  | (Throw e, _) => Throw e
  end.

(** The records of a leaf are in path order: a later key means absent. *)
Fixpoint lookup_leaf (n : nat) (fuel : nat) (path : Bytes) (with_extents : bool) (rd : Reader.t) : result (option FsEntry) :=
  match n with
  | O => Ok None
  | Datatypes.S n =>
      '(item, rd) ← decode_leaf_entry fuel false (if with_extents then path else []) rd;
      if bool_decide (item.1 = path) then Ok (Some item.2)
      else if key_ltb path item.1 then Ok None
      else lookup_leaf n fuel path with_extents rd
  end.
(** The last child whose first key is at or before the path. *)
Fixpoint lookup_branch (n : nat) (path : Bytes) (next : option ObjectId) : Reader.prog (option ObjectId) :=
  match n with
  | O => mret next
  | Datatypes.S n =>
      c ← read_child true;
      if negb (key_ltb path (ch_first_key c)) then lookup_branch n path (Some (ch_id c))
      else match next with Some _ => mret next | None => lookup_branch n path next end
  end.
Fixpoint namespace_tree_lookup (fuel : nat) (current : ObjectId) (path : Bytes) (with_extents : bool) : result (option FsEntry) :=
  match fuel with
  | O => Throw OutOfFuel
  | Datatypes.S fuel =>
      encoded ← fetch node_unavailable current;
      '(magic, rd) ← Reader.fixed 4 (Reader.mk encoded 0);
      if bool_decide (magic = leaf_magic) then
        '(n, rd) ← Reader.u32 rd; lookup_leaf (Z.to_nat n) fuel path with_extents rd
      else if bool_decide (magic = branch_magic) then
        '(next, _) ← (_ ← Reader.u8; n ← Reader.u32; lookup_branch (Z.to_nat n) path None) rd;
        match next with
        | None => Ok None
        | Some id => namespace_tree_lookup fuel id path with_extents
        end
      else Throw (DecodeError "not a namespace tree node")
  end.
End read.
