(* ===== verification/NamespaceView.v ===== *)
(** * The namespace of a snapshot

    [src/src/metadata/namespace_tree.cpp]: a snapshot's namespace in either
    form, the map of entries or the tree under its root: single entries,
    prefixes, pages, scans, listings of a directory, the working set a batch
    of mutations edits, and the conversions between the two forms. The cursor,
    budget and page of a walk are those of [src/src/contract/walk.hpp]. *)

From S2P Require Import Prelude Sorts Maps Orders Codec TorrentRequest Journal Paths Metadata MetadataCodec MetadataDelta NamespaceTree.

(** ** Cursors, budgets and pages *)

Inductive Stop : Type := stop_end | stop_budget | stop_deadline | stop_cancelled | stop_yield.
#[global] Instance stop_eq_dec : EqDecision Stop.
Proof. solve_decision. Defined.
Record Cursor (K : Type) : Type := mkCursor { cu_after : option K }.
#[global] Arguments mkCursor {_}.
#[global] Arguments cu_after {_}.
Record Page (I K : Type) : Type := mkPage { pg_items : list I; pg_next : Cursor K; pg_stopped : Stop }.
#[global] Arguments mkPage {_ _}.
#[global] Arguments pg_items {_ _}.
#[global] Arguments pg_next {_ _}.
#[global] Arguments pg_stopped {_ _}.
Definition page_complete {I K} (p : Page I K) : bool := bool_decide (pg_stopped p = stop_end).

(** A budget: the operations and bytes left, and what the clock, the context
    and the yield source say each time the walk asks whether it must stop. *)
Record Budget : Type := mkBudget { bg_operations : option Z; bg_bytes : option Z; bg_asks : list (option Stop) }.
Definition must_stop (b : Budget) : option Stop * Budget :=
  match bg_asks b with
  | [] => (None, b)
  | a :: rest => (a, mkBudget (bg_operations b) (bg_bytes b) rest)
  end.
Definition take_operation (b : Budget) : bool * Budget :=
  match bg_operations b with
  | None => (true, b)
  | Some n => if n =? 0 then (false, b) else (true, mkBudget (Some (n - 1)) (bg_bytes b) (bg_asks b))
  end.
Definition take_bytes (n : Z) (b : Budget) : bool * Budget :=
  match bg_bytes b with
  | None => (true, b)
  | Some m => if m <? n then (false, b) else (true, mkBudget (bg_operations b) (Some (m - n)) (bg_asks b))
  end.

(** ** Entries *)

Definition no_store {A} : result A := Throw (DecodeError "namespace is a tree and no node store was supplied").
Definition stat_only (e : FsEntry) : FsEntry :=
  mkEntry (fe_type e) (fe_mode e) (fe_uid e) (fe_gid e) (fe_size e) (fe_ctime_ns e) (fe_mtime_ns e) (fe_version e) [] (fe_provenance e).

Definition namespace_differs (a b : MetadataSnapshot) : bool :=
  match sn_namespace_root a, sn_namespace_root b with
  | None, None => negb (bool_decide (sn_entries a = sn_entries b))
  | ra, rb => negb (bool_decide (ra = rb))
  end.

(** The exclusive upper bound of the keys that start with a prefix: its last
    byte below 0xFF incremented and what follows dropped. Empty is unbounded. *)
Fixpoint bump_reversed (rev_prefix : Bytes) : Bytes :=
  match rev_prefix with
  | [] => []
  | b :: rest => if b2z b =? 255 then bump_reversed rest else rev (z2b (b2z b + 1) :: rest)
  end.
Definition prefix_upper_bound (prefix : Bytes) : Bytes := bump_reversed (rev prefix).

(** [std::map::lower_bound] and [upper_bound], as what is left of the map. *)
Fixpoint lower_bound {K V} `{KeyOrder K} (k : K) (m : list (K * V)) : list (K * V) :=
  match m with [] => [] | e :: rest => if key_ltb e.1 k then lower_bound k rest else m end.
Fixpoint upper_bound {K V} `{KeyOrder K} (k : K) (m : list (K * V)) : list (K * V) :=
  match m with [] => [] | e :: rest => if key_ltb k e.1 then m else upper_bound k rest end.

Section view.
Context {S : Type} `{NodeStore S} (store : option S) (fuel : nat).

(** The tree of a root, or the refusal to read one without a store. *)
Definition with_store {T A} (k : S -> ST T A) : ST T A :=
  match store with Some s => k s | None => st_lift no_store end.

Definition namespace_entry (snapshot : MetadataSnapshot) (path : Bytes) (with_extents : bool) : result (option FsEntry) :=
  match sn_namespace_root snapshot with
  | None =>
      Ok (e ← alookup path (sn_entries snapshot); Some (if with_extents then e else stat_only e))
  | Some root =>
      match store with
      | None => no_store
      | Some s => namespace_tree_lookup s fuel root path with_extents
      end
  end.
Definition namespace_contains (snapshot : MetadataSnapshot) (path : Bytes) : result bool :=
  match sn_namespace_root snapshot with
  | None => Ok (match alookup path (sn_entries snapshot) with Some _ => true | None => false end)
  | Some root =>
      match store with
      | None => no_store
      | Some s => e ← namespace_tree_lookup s fuel root path false; Ok (match e with Some _ => true | None => false end)
      end
  end.

Definition for_each_namespace_entry {A} (snapshot : MetadataSnapshot) (visit : Bytes * FsEntry -> ST A unit) : ST A unit :=
  match sn_namespace_root snapshot with
  | None => foldM (fun _ e => visit e) tt (sn_entries snapshot)
  | Some root => with_store (fun s => walk_namespace_tree s fuel root visit)
  end.

(** The entries of a map from one on, while they have the prefix. *)
Fixpoint visit_prefix {A} (prefix : Bytes) (visit : Bytes * FsEntry -> ST A unit) (m : NamespaceEntries) : ST A unit :=
  match m with
  | [] => mret tt
  | e :: rest => if starts_with prefix e.1 then _ ← visit e; visit_prefix prefix visit rest else mret tt
  end.
Definition for_each_namespace_entry_with_prefix {A} (snapshot : MetadataSnapshot) (prefix : Bytes) (visit : Bytes * FsEntry -> ST A unit)
    : ST A unit :=
  match sn_namespace_root snapshot with
  | None => visit_prefix prefix visit (lower_bound prefix (sn_entries snapshot))
  | Some root => with_store (fun s => walk_subtree_prefix s fuel root prefix (prefix_upper_bound prefix) visit)
  end.

(** ** Pages *)

Definition Taking : Type := Page (Bytes * FsEntry) Bytes * Budget.
(** One operation an entry; stops before an entry it cannot pay for. *)
Definition take_item (item : Bytes * FsEntry) : ST Taking bool := fun '(page, budget) =>
  let '(stop, budget) := must_stop budget in
  match stop with
  | Some stop => (Ok false, (mkPage (pg_items page) (pg_next page) stop, budget))
  | None =>
      let '(paid, budget) := take_operation budget in
      if paid then (Ok true, (mkPage (pg_items page ++ [item]) (mkCursor (Some item.1)) (pg_stopped page), budget))
      else (Ok false, (mkPage (pg_items page) (pg_next page) stop_budget, budget))
  end.
(** Takes entries of a map until told to stop. *)
Fixpoint take_entries_of (m : NamespaceEntries) : ST Taking bool :=
  match m with
  | [] => mret false
  | e :: rest => go_on ← take_item e; if go_on : bool then take_entries_of rest else mret true
  end.
Definition namespace_entries (snapshot : MetadataSnapshot) (from : Cursor Bytes) (budget : Budget)
    : result (Page (Bytes * FsEntry) Bytes * Budget) :=
  let start := (mkPage [] from stop_end, budget) in
  let run :=
    match sn_namespace_root snapshot with
    | None => take_entries_of (match cu_after from with Some k => upper_bound k (sn_entries snapshot) | None => sn_entries snapshot end)
    | Some root => with_store (fun s => walk_subtree_after s fuel root (cu_after from) take_item)
    end in
  match run start with
  | (Throw e, _) => Throw e
  | (Ok true, taken) => Ok taken
  | (Ok false, (page, budget)) => Ok (mkPage (pg_items page) (mkCursor None) stop_end, budget)
  end.

(** ** Scans *)

Inductive ScanStep : Type := scan_next | scan_stop | scan_seek (to : Bytes).

(** The stat-only entries at or after a key in the leaf that would hold it,
    and the first key of the leaf after. *)
Record LeafRun : Type := mkLeafRun { rn_items : list (Bytes * FsEntry); rn_next : option Bytes }.

(** The last child whose first key is at or before [from], else the first,
    and the key of the child after it. *)
Fixpoint choose_branch (n : nat) (from : Bytes) (chosen : option ObjectId) : Reader.prog (option ObjectId * option Bytes) :=
  match n with
  | O => mret (chosen, None)
  | Datatypes.S n =>
      c ← read_child true;
      match chosen with
      | Some _ =>
          if key_ltb from (ch_first_key c) then mret (chosen, Some (ch_first_key c))
          else choose_branch n from (Some (ch_id c))
      | None => choose_branch n from (Some (ch_id c))
      end
  end.
Fixpoint leaf_run_loop (s : S) (fuel : nat) (current : ObjectId) (from : Bytes) (next : option Bytes) : result LeafRun :=
  match fuel with
  | O => Throw OutOfFuel
  | Datatypes.S fuel =>
      encoded ← fetch s node_unavailable current;
      '(magic, rd) ← Reader.fixed 4 (Reader.mk encoded 0);
      if bool_decide (magic = leaf_magic) then
        '(items, _) ← (l ← read_list (decode_leaf_entry s fuel false []); _ ← Reader.finish; mret l) rd;
        Ok (mkLeafRun (base.filter (fun item => key_ltb item.1 from = false) items) next)
      else if bool_decide (magic = branch_magic) then
        '(chosen, _) ← (_ ← Reader.u8; n ← Reader.u32;
                        if n =? 0 then bad "namespace tree branch without children"
                        else choose_branch (Z.to_nat n) from None) rd;
        match chosen with
        | (Some id, after) => leaf_run_loop s fuel id from (match after with Some _ => after | None => next end)
        | (None, _) => Throw (DecodeError "namespace tree branch without children")
        end
      else Throw (DecodeError "not a namespace tree node")
  end.
Definition leaf_run_from (s : S) (root : ObjectId) (from : Bytes) : result LeafRun := leaf_run_loop s fuel root from None.

Section scan.
Context {A : Type} (visit : Bytes * FsEntry -> ST A ScanStep).

(** [lower_bound] again after a seek; it moves forward, so the length of the
    map is fuel enough. *)
Fixpoint scan_map (n : nat) (entries m : NamespaceEntries) : ST A unit :=
  match m, n with
  | [], _ => mret tt
  | _, O => st_throw OutOfFuel
  | e :: rest, Datatypes.S n =>
      step ← visit (e.1, stat_only e.2);
      match step with
      | scan_stop => mret tt
      | scan_seek to =>
          if key_ltb e.1 to then scan_map n entries (lower_bound to entries)
          else st_throw (LogicError "namespace scan sought backwards")
      | scan_next => scan_map n entries rest
      end
  end.

(** How a leaf's run was left: the scan is over, it seeks beyond the leaf, or
    the leaf is done. *)
Inductive RunEnd : Type := run_over | run_sought (to : Bytes) | run_done.
(** A target inside the leaf is reached by stepping over what lies before. *)
Fixpoint step_over (to : Bytes) (items : list (Bytes * FsEntry)) : list (Bytes * FsEntry) :=
  match items with
  | [] => []
  | e :: rest => if key_ltb e.1 to then step_over to rest else items
  end.
Fixpoint scan_items (n : nat) (next : option Bytes) (items : list (Bytes * FsEntry)) : ST A RunEnd :=
  match items, n with
  | [], _ => mret run_done
  | _, O => st_throw OutOfFuel
  | e :: rest, Datatypes.S n =>
      step ← visit e;
      match step with
      | scan_stop => mret run_over
      | scan_next => scan_items n next rest
      | scan_seek to =>
          if key_ltb e.1 to then
            if (match next with Some k => key_ltb to k | None => true end) then scan_items n next (step_over to rest)
            else mret (run_sought to)
          else st_throw (LogicError "namespace scan sought backwards")
      end
  end.
(** One leaf an iteration, each further on. *)
Fixpoint scan_tree (n : nat) (s : S) (root : ObjectId) (cursor : Bytes) : ST A unit :=
  match n with
  | O => st_throw OutOfFuel
  | Datatypes.S n =>
      run ← st_lift (leaf_run_from s root cursor);
      ended ← scan_items (length (rn_items run)) (rn_next run) (rn_items run);
      match ended with
      | run_over => mret tt
      | run_sought to => scan_tree n s root to
      | run_done => match rn_next run with None => mret tt | Some k => scan_tree n s root k end
      end
  end.
(** [leaves] bounds the leaves a scan can visit. *)
Definition scan_namespace (leaves : nat) (snapshot : MetadataSnapshot) (from : Bytes) : ST A unit :=
  match sn_namespace_root snapshot with
  | None => scan_map (length (sn_entries snapshot)) (sn_entries snapshot) (lower_bound from (sn_entries snapshot))
  | Some root => with_store (fun s => scan_tree leaves s root from)
  end.
End scan.

Definition directory_prefix (directory : Bytes) : Bytes :=
  if bool_decide (directory = root_path) then root_path else directory ++ [slash].

(** [rest.find('/')], up to and with the slash. *)
Fixpoint through_slash (rest : Bytes) : option Bytes :=
  match rest with
  | [] => None
  | b :: rest => if bool_decide (b = slash) then Some [b] else (fun l => b :: l) <$> through_slash rest
  end.

(** The entries directly inside a directory, in name order. *)
Definition child_visit {A} (prefix : Bytes) (visit : Bytes -> Bytes * FsEntry -> ST A unit) (e : Bytes * FsEntry) : ST A ScanStep :=
  if negb (starts_with prefix e.1) then mret scan_stop
  else
    match drop (length prefix) e.1 with
    | [] => mret scan_next
    | rest =>
        match through_slash rest with
        | None => _ ← visit rest e; mret scan_next
        | Some down =>
            let beyond := prefix_upper_bound (prefix ++ down) in
            mret (if bool_decide (beyond = []) then scan_stop else scan_seek beyond)
        end
    end.
Definition for_each_namespace_child {A} (leaves : nat) (snapshot : MetadataSnapshot) (directory : Bytes)
    (visit : Bytes -> Bytes * FsEntry -> ST A unit) : ST A unit :=
  let prefix := directory_prefix directory in
  scan_namespace (child_visit prefix visit) leaves snapshot prefix.

Definition first_visit (directory prefix : Bytes) (skip : Bytes -> bool) (e : Bytes * FsEntry) : ST (option Bytes) ScanStep := fun found =>
  if negb (starts_with prefix e.1) then (Ok scan_stop, found)
  else if bool_decide (e.1 = directory) || skip e.1 then (Ok scan_next, found)
  else (Ok scan_stop, Some e.1).
Definition first_namespace_path_under (leaves : nat) (snapshot : MetadataSnapshot) (directory : Bytes) (skip : Bytes -> bool)
    : result (option Bytes) :=
  let prefix := directory_prefix directory in
  match scan_namespace (first_visit directory prefix skip) leaves snapshot prefix None with
  | (Ok _, found) => Ok found
  | (Throw e, _) => Throw e
  end.
End view.

(** ** The working set of a batch

    The delta overlaid on the namespace: a path it upserts reads as that
    entry, one it erases as absent, any other from beneath. *)

Definition set_entry_edits (upserts : NamespaceEntries) (erases : list Bytes) (d : MetadataDelta) : MetadataDelta :=
  mkDelta (md_mutation_sequences d) upserts erases (md_erase_garbage d) (md_upsert_garbage d)
    (md_upsert_node_status d) (md_upsert_identity_resets d) (md_upsert_torrent_requests d) (md_erase_torrent_requests d)
    (md_replace_merge_parents d) (md_replace_conflicts d) (md_canonical_garbage d) (md_append_entries d) (md_catalogue d)
    (md_catalogue_root d) (md_set_legacy_clock d) (md_set_catalogue_dot d) (md_add_tombstone_batches d)
    (md_drop_tombstone_batches d) (md_pending_tombstones d).

Record WorkingSet : Type := mkWork {
  wk_snapshot : MetadataSnapshot; wk_delta : MetadataDelta; wk_tree_backed : bool; wk_erased : list Bytes
}.
Definition reload (w : WorkingSet) : WorkingSet :=
  mkWork (wk_snapshot w) (wk_delta w) (wk_tree_backed w) (sort_unique (md_erase_entries (wk_delta w))).
Definition working_set (snapshot : MetadataSnapshot) (delta : MetadataDelta) : WorkingSet :=
  reload (mkWork snapshot delta (match sn_namespace_root snapshot with Some _ => true | None => false end) []).
Definition ws_erased (w : WorkingSet) (path : Bytes) : bool := bool_decide (path ∈ wk_erased w).

(** [path] is [root] or below it. *)
Definition path_under (path root : Bytes) : bool :=
  bool_decide (path = root) ||
  ((length root <? length path)%nat && bool_decide (take (length root) path = root) && bool_decide (nth (length root) path x00 = slash)).

Section working.
Context {S : Type} `{NodeStore S} (store : option S) (fuel : nat).

Definition ws_get (w : WorkingSet) (path : Bytes) (with_extents : bool) : result (option FsEntry) :=
  match alookup path (md_upsert_entries (wk_delta w)) with
  | Some e => Ok (Some (if with_extents then e else stat_only e))
  | None => if ws_erased w path then Ok None else namespace_entry store fuel (wk_snapshot w) path with_extents
  end.
Definition ws_contains (w : WorkingSet) (path : Bytes) : result bool :=
  match alookup path (md_upsert_entries (wk_delta w)) with
  | Some _ => Ok true
  | None => if ws_erased w path then Ok false else namespace_contains store fuel (wk_snapshot w) path
  end.

Definition ws_put (path : Bytes) (entry : FsEntry) (w : WorkingSet) : WorkingSet :=
  let d := wk_delta w in
  let was_erased := ws_erased w path in
  mkWork
    (if wk_tree_backed w then wk_snapshot w else set_entries (map_set path entry (sn_entries (wk_snapshot w))) (wk_snapshot w))
    (set_entry_edits (map_set path entry (md_upsert_entries d))
       (if was_erased then base.filter (fun p => p <> path) (md_erase_entries d) else md_erase_entries d) d)
    (wk_tree_backed w) (base.filter (fun p => p <> path) (wk_erased w)).
Definition ws_erase (path : Bytes) (w : WorkingSet) : WorkingSet :=
  let d := wk_delta w in
  let was_erased := ws_erased w path in
  mkWork
    (if wk_tree_backed w then wk_snapshot w else set_entries (map_erase path (sn_entries (wk_snapshot w))) (wk_snapshot w))
    (set_entry_edits (map_erase path (md_upsert_entries d))
       (if was_erased then md_erase_entries d else md_erase_entries d ++ [path]) d)
    (wk_tree_backed w) (if was_erased then wk_erased w else sort_unique (path :: wk_erased w)).

(** The batch's own children first. *)
Fixpoint first_upsert (prefix directory : Bytes) (m : NamespaceEntries) : option Bytes :=
  match m with
  | [] => None
  | e :: rest =>
      if starts_with prefix e.1 then if bool_decide (e.1 = directory) then first_upsert prefix directory rest else Some e.1
      else None
  end.
Definition first_path_under (leaves : nat) (w : WorkingSet) (directory : Bytes) : result (option Bytes) :=
  let prefix := directory_prefix directory in
  match first_upsert prefix directory (lower_bound prefix (md_upsert_entries (wk_delta w))) with
  | Some path => Ok (Some path)
  | None => first_namespace_path_under store fuel leaves (wk_snapshot w) directory (ws_erased w)
  end.

(** What a rename moves. *)
Definition subtree (w : WorkingSet) (directory : Bytes) : result NamespaceEntries :=
  let prefix := directory_prefix directory in
  let collect e : ST NamespaceEntries unit := fun merged =>
    (Ok tt, if ws_erased w e.1 then merged else default merged (map_emplace e.1 e.2 merged)) in
  match for_each_namespace_entry_with_prefix store fuel (wk_snapshot w) prefix collect [] with
  | (Throw e, _) => Throw e
  | (Ok _, merged) =>
      self ← ws_get w directory true;
      let merged := match self with Some e => map_set directory e merged | None => merged end in
      Ok (foldl (fun m e => if path_under e.1 directory then map_set e.1 e.2 m else m) merged (md_upsert_entries (wk_delta w)))
  end.
End working.

(** ** The two forms of a namespace *)

Definition set_namespace (root : option ObjectId) (entries : NamespaceEntries) (s : MetadataSnapshot) : MetadataSnapshot :=
  mkSnapshot (sn_metadata_voters s) (sn_data_replication s) (sn_extent_size s) (sn_write_replicas_required s)
    (sn_participants s) (sn_branch_floor s) (sn_retention_baseline_complete s) (sn_mutation_sequences s)
    (sn_legacy_clock s) (sn_catalogue_dot s) (sn_catalogue_root s) root entries (sn_garbage s)
    (sn_tombstone_batches s) (sn_node_status s) (sn_identity_resets s) (sn_merge_parents s) (sn_conflicts s)
    (sn_torrent_requests s).

Definition detach_namespace `{Sha256} {S} `{NodeStore S} (limits : NamespaceTreeLimits) (snapshot : MetadataSnapshot) : ST S MetadataSnapshot :=
  match sn_namespace_root snapshot with
  | Some _ => st_throw (RuntimeError "namespace is already detached")
  | None => root ← build_namespace_tree limits (sn_entries snapshot); mret (set_namespace (Some root) [] snapshot)
  end.
Definition attach_namespace {S} `{NodeStore S} (s : S) (fuel : nat) (snapshot : MetadataSnapshot) : result MetadataSnapshot :=
  match sn_namespace_root snapshot with
  | None => Throw (RuntimeError "snapshot carries no namespace root")
  | Some root =>
      if negb (bool_decide (sn_entries snapshot = [])) then Throw (RuntimeError "snapshot already carries its entries")
      else
        entries ← read_namespace_tree s fuel root;
        match alookup root_path entries with
        | Some e => if bool_decide (fe_type e = directory) then Ok (set_namespace None entries snapshot) else Throw (DecodeError "missing root")
        | None => Throw (DecodeError "missing root")
        end
  end.
