(* ===== verification/NamespaceUpdate.v ===== *)
(** * Changing a namespace tree

    [update_namespace_tree] of [src/src/metadata/namespace_tree.cpp]: a change
    set applied to a tree by cutting again only the leaves a change falls in
    and regrouping only as far up as the groups differ; and
    [apply_delta_to_namespace_tree] over it.

    The vector the source walks with an index is the list of what is left to
    pass; [fuel] bounds the steps of the loops that open nodes. *)

From S2P Require Import Prelude Sorts Maps Orders Codec TorrentRequest Journal Paths Metadata MetadataCodec MetadataDelta NamespaceTree.

(** A node standing in a spine sequence. One whose level is above the level
    being built stands for everything beneath it, unread. *)
Record SpineItem : Type := mkItem { it_child : Child; it_level : Z; it_fresh : bool }.
Definition it_key (i : SpineItem) : Bytes := ch_first_key (it_child i).

(** A node's own level, 0 for a leaf, and a branch's children. *)
Record SpineNode : Type := mkSpine { sp_level : Z; sp_children : list Child }.

(** A change set: an entry to upsert, or none to delete the path. *)
Definition NamespaceChanges : Type := list (Bytes * option FsEntry).

Definition read_leaf_record : Reader.prog LeafRecord := fun rd =>
  '(key, rd') ← (key ← Reader.string path_limit;
                 _ ← skip_leaf_entry_stat;
                 form ← Reader.u8;
                 if form =? extent_form_none then mret key
                 else if form =? extent_form_inlined then
                   n ← Reader.u32; _ ← Reader.view (Z.to_nat n * encoded_extent_bytes); mret key
                 else if form =? extent_form_external then _ ← Reader.u64; _ ← Reader.fixed 32; mret key
                 else bad "bad namespace tree extent form") rd;
  Ok (mkLeafRecord key (take (Reader.position rd' - Reader.position rd) (drop (Reader.position rd) (Reader.data rd))) None, rd').

(** The records of a window with the changes that fall in it. *)
Fixpoint merge_changes (window : list LeafRecord) : NamespaceChanges -> list LeafRecord :=
  fix inner (changes : NamespaceChanges) : list LeafRecord :=
    match window, changes with
    | _, [] => window
    | [], (key, value) :: rest =>
        match value with Some e => mkLeafRecord key [] (Some e) :: inner rest | None => inner rest end
    | r :: window', (key, value) :: rest =>
        if key_ltb (lr_key r) key then r :: merge_changes window' changes
        else
          let more := if bool_decide (lr_key r = key) then merge_changes window' rest else inner rest in
          match value with Some e => mkLeafRecord key [] (Some e) :: more | None => more end
    end.

(** The changes before a key. *)
Fixpoint changes_before (beyond : option Bytes) (changes : NamespaceChanges) : NamespaceChanges * NamespaceChanges :=
  match changes with
  | [] => ([], [])
  | c :: rest =>
      if (match beyond with Some k => key_ltb c.1 k | None => true end)
      then let '(taken, rest) := changes_before beyond rest in (c :: taken, rest)
      else ([], changes)
  end.

(** The items whose successor starts at or before a key, and the rest. *)
Fixpoint pass_before (key : Bytes) (items : list SpineItem) : list SpineItem * list SpineItem :=
  match items with
  | a :: ((b :: _) as rest) =>
      if key_ltb key (it_key b) then ([], items)
      else let '(passed, rest) := pass_before key rest in (a :: passed, rest)
  | _ => ([], items)
  end.

Section update.
Context `{Sha256} {S : Type} `{NodeStore S} (limits : NamespaceTreeLimits).

Definition read_spine_node (s : S) (id : ObjectId) : result SpineNode :=
  encoded ← fetch s node_unavailable id;
  Reader.run (
    magic ← Reader.fixed 4;
    if bool_decide (magic = leaf_magic) then mret (mkSpine 0 [])
    else if bool_decide (magic = branch_magic) then
      level ← Reader.u8; n ← Reader.u32;
      if (level =? 0) || (n =? 0) then bad "malformed namespace tree branch"
      else children ← Reader.times (Z.to_nat n) (read_child true); _ ← Reader.finish; mret (mkSpine level children)
    else bad "not a namespace tree node") encoded.

(** An item's children, one level down. *)
Definition expand_item (s : S) (item : SpineItem) : result (list SpineItem) :=
  node ← read_spine_node s (ch_id (it_child item));
  if negb (sp_level node =? it_level item) then Throw (DecodeError "namespace tree node at an unexpected level")
  else Ok ((fun c => mkItem c (wrap8 (it_level item - 1)) false) <$> sp_children node).

Definition read_leaf_records (s : S) (id : ObjectId) : result (list LeafRecord) :=
  encoded ← fetch s node_unavailable id;
  Reader.run (
    magic ← Reader.fixed 4;
    if bool_decide (magic = leaf_magic) then l ← read_list read_leaf_record; _ ← Reader.finish; mret l
    else bad "not a namespace tree leaf") encoded.

(** Opens the first item down to its first leaf. *)
Fixpoint open_first (n : nat) (s : S) (items : list SpineItem) : result (list SpineItem) :=
  match items with
  | [] => Ok []
  | item :: rest =>
      if it_level item <=? 0 then Ok items
      else match n with
           | O => Throw OutOfFuel
           | Datatypes.S n => children ← expand_item s item; open_first n s (children ++ rest)
           end
  end.

(** A window of leaves: read, changed, cut into leaves again. While the last
    leaf cut is open the window takes the next leaf. *)
Fixpoint window_loop (fuel : nat) (window : list LeafRecord) (taken changes : NamespaceChanges) (items : list SpineItem)
    : ST S (list Child * NamespaceChanges * list SpineItem) :=
  match fuel with
  | O => st_throw OutOfFuel
  | Datatypes.S fuel =>
      let '(more, changes) := changes_before (it_key <$> head items) changes in
      let taken := taken ++ more in
      '(cut, open) ← chunk_records limits (merge_changes window taken);
      match open : bool, items with
      | true, _ :: _ =>
          s ← st_get;
          items ← st_lift (open_first (Z.to_nat u8_max) s items);
          match items with
          | item :: rest =>
              records ← st_lift (read_leaf_records s (ch_id (it_child item)));
              window_loop fuel (window ++ records) taken changes rest
          | [] => mret (cut, changes, [])
          end
      | _, _ => mret (cut, changes, items)
      end
  end.

(** The leaf sequence after the changes, with every subtree no change falls
    in left unread. *)
Fixpoint leaves_loop (fuel : nat) (items : list SpineItem) (leaves : list SpineItem) (changes : NamespaceChanges) : ST S (list SpineItem) :=
  match changes with
  | [] => mret (leaves ++ items)
  | (key, _) :: _ =>
      match fuel with
      | O => st_throw OutOfFuel
      | Datatypes.S fuel =>
          let '(passed, items) := pass_before key items in
          let leaves := leaves ++ passed in
          s ← st_get;
          match items with
          | item :: rest =>
              if 0 <? it_level item then
                children ← st_lift (expand_item s item); leaves_loop fuel (children ++ rest) leaves changes
              else
                window ← st_lift (read_leaf_records s (ch_id (it_child item)));
                '(cut, changes, rest) ← window_loop fuel window [] changes rest;
                leaves_loop fuel rest (leaves ++ ((fun c => mkItem c 0 true) <$> cut)) changes
          | [] =>
              '(cut, changes, rest) ← window_loop fuel [] [] changes [];
              leaves_loop fuel rest (leaves ++ ((fun c => mkItem c 0 true) <$> cut)) changes
          end
      end
  end.

(** Every item brought down to [level]. *)
Fixpoint expand_to (n : nat) (s : S) (level : Z) (items : list SpineItem) : result (list SpineItem) :=
  match n with
  | O => if forallb (fun i => it_level i <=? level) items then Ok items else Throw OutOfFuel
  | Datatypes.S n =>
      foldM (fun out i =>
          if level <? it_level i then children ← expand_item s i; l ← expand_to n s level children; Ok (out ++ l)
          else Ok (out ++ [i])) [] items
  end.
Definition expand_spine_to (s : S) (level : Z) (items : list SpineItem) : result (list SpineItem) :=
  expand_to (Z.to_nat u8_max) s level items.

(** The whole level, as a full build makes it. *)
Definition splice_exact (items : list SpineItem) (level : Z) : ST S (list SpineItem) :=
  s ← st_get;
  items ← st_lift (expand_spine_to s level items);
  parents ← build_spine_level (it_child <$> items) (next_spine_level level) true (branch_target_fanout limits) (branch_max_fanout limits);
  mret ((fun p => mkItem p (next_spine_level level) true) <$> parents).

(** The grouping of a level: the groups made and kept, the items passed (as
    they were opened), whether a group made here holds several children, and
    whether an item kept stands higher than the level built. *)
Record Splice : Type := mkSplice { sc_parents : list SpineItem; sc_run : list Child; sc_passed : list SpineItem; sc_several : bool; sc_deeper : bool }.
Definition flush_group (above : Z) (p : Splice) : ST S Splice :=
  match sc_run p with
  | [] => mret p
  | run =>
      node ← put_spine_node above true run;
      mret (mkSplice (sc_parents p ++ [mkItem node above true]) [] (sc_passed p)
              (sc_several p || (1 <? length run)%nat) (sc_deeper p))
  end.
Fixpoint splice_loop (fuel : nat) (level : Z) (items : list SpineItem) (p : Splice) : ST S Splice :=
  let above := next_spine_level level in
  match items with
  | [] => flush_group above p
  | item :: rest =>
      match fuel with
      | O => st_throw OutOfFuel
      | Datatypes.S fuel =>
          if it_level item =? level then
            let run := sc_run p ++ [it_child item] in
            let p := mkSplice (sc_parents p) run (sc_passed p ++ [item]) (sc_several p) (sc_deeper p) in
            p ← (if branch_boundary (it_child item) above true (branch_target_fanout limits) ||
                    (branch_max_fanout limits <=? Z.of_nat (length run))
                 then flush_group above p else mret p);
            splice_loop fuel level rest p
          else
            match sc_run p with
            | [] =>
                splice_loop fuel level rest
                  (mkSplice (sc_parents p ++ [item]) [] (sc_passed p ++ [item]) (sc_several p) (sc_deeper p || (above <? it_level item)))
            | _ => s ← st_get; children ← st_lift (expand_item s item); splice_loop fuel level (children ++ rest) p
            end
      end
  end.

(** The node at level [above] at the left edge below a node. *)
Fixpoint left_edge (n : nat) (s : S) (above : Z) (node : SpineNode) : result SpineNode :=
  if above <? sp_level node then
    match n with
    | O => Throw OutOfFuel
    | Datatypes.S n => match sp_children node with
                       | c :: _ => node ← read_spine_node s (ch_id c); left_edge n s above node
                       | [] => Throw (DecodeError "malformed namespace tree branch")
                       end
    end
  else Ok node.
(** Whether a group kept shows that grouping by key reduced the level: none
    when the level it came from was grouped by count. *)
Fixpoint kept_several (s : S) (above : Z) (parents : list SpineItem) : result bool :=
  match parents with
  | [] => Ok false
  | p :: rest =>
      if it_fresh p then kept_several s above rest
      else
        node ← read_spine_node s (ch_id (it_child p));
        node ← left_edge (Z.to_nat u8_max) s above node;
        if negb (sp_level node =? above) then Throw (DecodeError "namespace tree node at an unexpected level")
        else if existsb (fun c => branch_boundary c above true (branch_target_fanout limits)) (removelast (sp_children node)) then Ok false
        else if (1 <? length (sp_children node))%nat then Ok true
        else kept_several s above rest
  end.

Definition few : nat := 8.
Definition splice_spine_level (fuel : nat) (items : list SpineItem) (level : Z) : ST S (list SpineItem) :=
  if forallb (fun i => it_level i =? level) items then splice_exact items level
  else
    p ← splice_loop fuel level items (mkSplice [] [] [] false false);
    if negb (sc_deeper p) && (length (sc_parents p) <=? few)%nat then splice_exact (sc_passed p) level
    else if sc_several p then mret (sc_parents p)
    else
      s ← st_get;
      kept ← st_lift (kept_several s (next_spine_level level) (sc_parents p));
      if kept : bool then mret (sc_parents p) else splice_exact (sc_passed p) level.

(** The foot of a chain of single children. *)
Fixpoint chain_foot (n : nat) (s : S) (above level : Z) (id : ObjectId) : result ObjectId :=
  match n with
  | O => Ok id
  | Datatypes.S n =>
      if level <? above then
        node ← read_spine_node s id;
        match sp_children node with
        | [c] => chain_foot n s (above - 1) level (ch_id c)
        | _ => Ok id
        end
      else Ok id
  end.

Fixpoint levels_loop (fuel : nat) (items : list SpineItem) (level : Z) : ST S ObjectId :=
  match items with
  | [] => empty_leaf
  | [item] => s ← st_get; st_lift (chain_foot (Z.to_nat u8_max) s (it_level item) level (ch_id (it_child item)))
  | _ =>
      match fuel with
      | O => st_throw OutOfFuel
      | Datatypes.S fuel =>
          items ← splice_spine_level fuel items level;
          levels_loop fuel items (next_spine_level level)
      end
  end.

Definition update_namespace_tree (fuel : nat) (root : ObjectId) (changes : NamespaceChanges) : ST S ObjectId :=
  match changes with
  | [] => mret root
  | _ =>
      s ← st_get;
      node ← st_lift (read_spine_node s root);
      leaves ← leaves_loop fuel [mkItem (mkChild [] root 0) (sp_level node) false] [] changes;
      levels_loop fuel leaves 0
  end.

(** ** A delta on a tree *)

Definition append_change (s : S) (fuel : nat) (root : ObjectId) (changes : NamespaceChanges) (a : Bytes * EntryAppend)
    : result NamespaceChanges :=
  let path := normalize_path a.1 in
  base ← match alookup path changes with
         | Some pending => Ok pending
         | None => namespace_tree_lookup s fuel root path true
         end;
  match base with
  | None => Throw (DecodeError "metadata delta append base mismatch")
  | Some e => e' ← apply_entry_append e path a.2; Ok (map_set path (Some e') changes)
  end.
Definition apply_delta_to_namespace_tree (fuel : nat) (root : ObjectId) (delta : MetadataDelta) : ST S ObjectId :=
  let erased := foldl (fun m p => map_set (normalize_path p) None m) [] (md_erase_entries delta) in
  let upserted := foldl (fun m e => map_set (normalize_path e.1) (Some e.2) m) erased (md_upsert_entries delta) in
  s ← st_get;
  changes ← st_lift (foldM (append_change s fuel root) upserted (md_append_entries delta));
  updated ← update_namespace_tree fuel root changes;
  s ← st_get;
  entry ← st_lift (namespace_tree_lookup s fuel updated root_path false);
  match entry with
  | Some e => if bool_decide (fe_type e = directory) then mret updated else st_throw (DecodeError "metadata delta lost root")
  | None => st_throw (DecodeError "metadata delta lost root")
  end.
End update.
