(* ===== verification/NamespaceNodes.v ===== *)
(** * The nodes of a namespace tree

    What [build_namespace_tree] writes, as pure functions of the entries: how
    a sequence is cut into groups, the levels of a spine, the nodes of a tree
    and its root. The programs of [NamespaceTree] put exactly these nodes into
    any store that keeps what it is given under its content address. *)

From S2P Require Import Prelude Sorts Maps Orders Codec TorrentRequest Journal Paths Metadata MetadataCodec MetadataRoundtrip NamespaceTree.

(** ** Cutting a sequence *)

Section cuts.
Context {A : Type} (ends : A -> bool) (maximum : Z).
Implicit Types (l run : list A).

(** [x] ends the run it is added to. *)
Definition closes run (x : A) : bool := ends x || (maximum <=? Z.of_nat (length (run ++ [x]))).
Fixpoint cut_closed run l : list (list A) :=
  match l with
  | [] => []
  | x :: l => if closes run x then (run ++ [x]) :: cut_closed [] l else cut_closed (run ++ [x]) l
  end.
Fixpoint cut_tail run l : list A :=
  match l with [] => run | x :: l => if closes run x then cut_tail [] l else cut_tail (run ++ [x]) l end.
Definition tail_group run : list (list A) := match run with [] => [] | _ => [run] end.
Definition cuts l : list (list A) := cut_closed [] l ++ tail_group (cut_tail [] l).

Lemma concat_tail_group run : concat (tail_group run) = run.
Proof. destruct run; cbn; [done|]. by rewrite app_nil_r. Qed.
Lemma concat_cut run l : concat (cut_closed run l) ++ cut_tail run l = run ++ l.
Proof.
  revert run. induction l as [|x l IH]; intros run; cbn; [by rewrite app_nil_r|].
  destruct (closes run x); cbn; [|by rewrite IH, <- app_assoc]. by rewrite <- !app_assoc, IH.
Qed.
Lemma concat_cuts l : concat (cuts l) = l.
Proof. unfold cuts. rewrite concat_app, concat_tail_group. apply concat_cut. Qed.

Lemma cut_closed_nonempty run l : Forall (fun g => g <> []) (cut_closed run l).
Proof.
  revert run. induction l as [|x l IH]; intros run; cbn; [constructor|].
  destruct (closes run x); [constructor; [by destruct run|]|]; apply IH.
Qed.
Lemma cuts_nonempty l : Forall (fun g => g <> []) (cuts l).
Proof. apply Forall_app. split; [apply cut_closed_nonempty|]. by destruct (cut_tail [] l); repeat constructor. Qed.

Lemma cut_closed_app run l1 l2 : cut_closed run (l1 ++ l2) = cut_closed run l1 ++ cut_closed (cut_tail run l1) l2.
Proof. revert run. induction l1 as [|x l1 IH]; intros run; cbn; [done|]. destruct (closes run x); cbn; by rewrite IH. Qed.
Lemma cut_tail_app run l1 l2 : cut_tail run (l1 ++ l2) = cut_tail (cut_tail run l1) l2.
Proof. revert run. induction l1 as [|x l1 IH]; intros run; cbn; [done|]. destruct (closes run x); cbn; by rewrite IH. Qed.

(** After a whole group the cutting starts afresh. *)
Lemma cuts_app l1 l2 : cut_tail [] l1 = [] -> cuts (l1 ++ l2) = cuts l1 ++ cuts l2.
Proof. intros E. unfold cuts. rewrite cut_closed_app, cut_tail_app, E. cbn. by rewrite app_nil_r, <- app_assoc. Qed.

Lemma length_concat_ge {B} (ls : list (list B)) : Forall (fun g => g <> []) ls -> (length ls <= length (concat ls))%nat.
Proof.
  induction 1 as [|g ls Hg _ IH]; cbn; [lia|]. rewrite length_app. destruct g; [done|]. cbn in *. lia.
Qed.
Lemma cuts_length l : (length (cuts l) <= length l)%nat.
Proof. rewrite <- (concat_cuts l) at 2. apply length_concat_ge, cuts_nonempty. Qed.
Lemma cuts_nil l : cuts l = [] <-> l = [].
Proof. split; [|by intros ->]. intros E. by rewrite <- (concat_cuts l), E. Qed.
End cuts.
#[global] Arguments closes : simpl never.

Lemma in_concat_of {A} (x : A) ls : x ∈ concat ls <-> exists l, x ∈ l /\ l ∈ ls.
Proof. rewrite list_elem_of_In, in_concat. split; intros (l & H1 & H2); exists l; rewrite !list_elem_of_In in *; auto. Qed.

(** A cut by count alone makes progress. *)
Lemma packed_length {A} (maximum : Z) (l : list A) : 2 <= maximum -> (1 < length l)%nat ->
  (length (cuts (fun _ => false) maximum l) < length l)%nat.
Proof.
  intros Hm. destruct l as [|x [|y l]]; [cbn; lia.. |]. intros _.
  assert (exists g rest, cuts (fun _ => false) maximum (x :: y :: l) = g :: rest /\ (1 < length g)%nat) as (g & rest & E & Hg).
  { unfold cuts. cbn [cut_closed cut_tail app].
    assert (closes (fun _ => false) maximum [] x = false) as -> by (unfold closes; apply Z.leb_gt; cbn; lia). cbn [app].
    assert (forall run, (1 < length run)%nat -> exists g rest,
      cut_closed (fun _ => false) maximum run l ++ tail_group (cut_tail (fun _ => false) maximum run l) = g :: rest /\ (1 < length g)%nat) as Hrun.
    { clear x y. induction l as [|z l IH]; intros run Hr; cbn.
      - destruct run; [cbn in Hr; lia|]. cbn. eauto.
      - destruct (closes (fun _ => false) maximum run z); [|apply IH; rewrite length_app; cbn; lia]. cbn. eexists _, _. split; [done|].
        rewrite length_app. cbn. lia. }
    destruct (closes (fun _ => false) maximum [x] y); cbn; [eexists _, _; split; [done|]; cbn; lia|]. apply Hrun. cbn. lia. }
  pose proof (cuts_nonempty (fun _ => false) maximum (x :: y :: l)) as Hne. pose proof (concat_cuts (fun _ => false) maximum (x :: y :: l)) as Ec.
  rewrite E in *. apply Forall_cons in Hne as [_ Hne]. apply length_concat_ge in Hne.
  apply (f_equal length) in Ec. cbn in *. rewrite length_app in Ec. lia.
Qed.

(** ** Stores *)

(** A store that keeps what it is given under its content address, the first
    of two nodes with one address. *)
Class AddressedStore (S : Type) `{Sha256, NodeStore S} : Type := {
  ns_add : Bytes -> S -> S;
  put_adds n s : ns_put n s = (Ok (object_id n), ns_add n s);
  get_add n s id : ns_get (ns_add n s) id = if decide (id = object_id n) then Some (default n (ns_get s id)) else ns_get s id
}.

#[global] Instance memory_addressed `{Sha256} : AddressedStore MemoryStore.
Proof.
  refine {| ns_add n s := (memory_put n s).2 |}.
  - intros n s. cbn. unfold memory_put. by destruct (map_emplace _ _ _).
  - intros n s id. cbn. unfold memory_put, memory_get, map_emplace.
    destruct (alookup (object_id n) (ms_nodes s)) as [b|] eqn:E; cbn.
    + case_decide as Ed; [|done]. subst. by rewrite E.
    + rewrite map_set_lookup. case_decide as Ed; [|done]. subst. by rewrite E.
Defined.

Section store.
Context `{Sha256} {S : Type} `{NodeStore S, !AddressedStore S}.

Definition adds (nodes : list Bytes) (s : S) : S := foldl (fun s n => ns_add n s) s nodes.
Lemma adds_app a b s : adds (a ++ b) s = adds b (adds a s).
Proof. apply foldl_app. Qed.

(** [m] puts exactly these nodes and returns [a]. *)
Definition puts {A} (m : ST S A) (nodes : list Bytes) (a : A) : Prop := forall s, m s = (Ok a, adds nodes s).

Lemma puts_ret {A} (a : A) : puts (mret a) [] a.
Proof. done. Qed.
Lemma puts_bind {A B} (m : ST S A) (k : A -> ST S B) n1 n2 a b :
  puts m n1 a -> puts (k a) n2 b -> puts (m ≫= k) (n1 ++ n2) b.
Proof. intros Hm Hk s. unfold mbind, st_bind. by rewrite Hm, Hk, adds_app. Qed.
Lemma puts_then {A B} (m : ST S A) (k : A -> ST S B) n a b : puts m n a -> puts (k a) [] b -> puts (m ≫= k) n b.
Proof. intros Hm Hk. rewrite <- (app_nil_r n). by eapply puts_bind. Qed.
Lemma puts_lift {A B} (r : result A) (k : A -> ST S B) n a b : r = Ok a -> puts (k a) n b -> puts (st_lift r ≫= k) n b.
Proof. intros -> Hk s. apply Hk. Qed.
Lemma puts_put n : puts (ns_put n) [n] (object_id n).
Proof. intros s. apply put_adds. Qed.

(** No two of the nodes have one address, and none has that of another node
    of the store. *)
Definition no_collision (s : S) (nodes : list Bytes) : Prop :=
  (forall n m, n ∈ nodes -> m ∈ nodes -> object_id m = object_id n -> m = n) /\
  (forall n m, n ∈ nodes -> ns_get s (object_id n) = Some m -> m = n).
Definition keeps_nodes (s s' : S) : Prop := forall id b, ns_get s id = Some b -> ns_get s' id = Some b.
Definition has_nodes (s : S) (nodes : list Bytes) : Prop := forall n, n ∈ nodes -> ns_get s (object_id n) = Some n.

Lemma adds_keeps nodes s : keeps_nodes s (adds nodes s).
Proof.
  revert s. induction nodes as [|n nodes IH]; intros s id b E; [done|]. apply IH. rewrite get_add.
  case_decide; [|done]. by rewrite E.
Qed.
Lemma adds_get nodes s id b : ns_get (adds nodes s) id = Some b -> ns_get s id = Some b \/ (b ∈ nodes /\ id = object_id b).
Proof.
  revert s. induction nodes as [|n nodes IH]; intros s E; [by left|].
  apply IH in E as [E|[Hb Eid]]; [|right; split; [by right|done]]. rewrite get_add in E.
  case_decide as Ed; [|by left]. destruct (ns_get s id) as [c|] eqn:Ec; cbn in E; [by left|].
  injection E as <-. right. split; [by left|done].
Qed.
Lemma no_collision_tail n nodes s : no_collision s (n :: nodes) -> no_collision (ns_add n s) nodes.
Proof.
  intros [Hw Hs]. split; [intros a m Ha Hm; apply Hw; by right|]. intros a m Ha E. rewrite get_add in E.
  case_decide as Ed; [|apply Hs; [by right|done]]. destruct (ns_get s (object_id a)) as [c|] eqn:Ec; cbn in E.
  - injection E as <-. apply Hs; [by right|done].
  - injection E as <-. apply Hw; [by right|by left|done].
Qed.
Lemma adds_has nodes s : no_collision s nodes -> has_nodes (adds nodes s) nodes.
Proof.
  revert s. induction nodes as [|n nodes IH]; intros s Hn a Ha; [by apply not_elem_of_nil in Ha|].
  apply elem_of_cons in Ha as [->|Ha]; [|by apply IH, Ha; apply no_collision_tail].
  apply (adds_keeps nodes (ns_add n s)). rewrite get_add, decide_True by done.
  destruct (ns_get s (object_id n)) as [c|] eqn:Ec; [|done]. cbn. f_equal. by apply Hn; [left|].
Qed.

(** Cutting puts the nodes of each group. *)
Lemma cut_puts {A} ends maximum (flush : list A -> ST S Child) (f : list A -> Child) (nodes : list A -> list Bytes) l :
  Forall (fun g => puts (flush g) (nodes g) (f g)) (cuts ends maximum l) ->
  puts (cut_runs ends maximum flush l) (concat (nodes <$> cuts ends maximum l))
    (f <$> cuts ends maximum l, negb (bool_decide (cut_tail ends maximum [] l = []))).
Proof.
  assert (forall l run ns, Forall (fun g => puts (flush g) (nodes g) (f g)) (cut_closed ends maximum run l) ->
    puts (foldM (cut_step ends maximum flush) (ns, run, bool_decide (run = [])) l) (concat (nodes <$> cut_closed ends maximum run l))
      (ns ++ (f <$> cut_closed ends maximum run l), cut_tail ends maximum run l, bool_decide (cut_tail ends maximum run l = []))) as Hfold.
  { clear l. induction l as [|x l IH]; intros run ns Hg; cbn [foldM cut_closed cut_tail] in *.
    { cbn. rewrite app_nil_r. apply puts_ret. }
    unfold cut_step at 2. fold (closes ends maximum run x). destruct (closes ends maximum run x) eqn:Ec.
    - apply Forall_cons in Hg as [Hx Hg]. rewrite !fmap_cons. cbn [concat]. eapply puts_bind; [eapply puts_then; [exact Hx|]; apply puts_ret|].
      change (f (run ++ [x]) :: (f <$> cut_closed ends maximum [] l)) with ([f (run ++ [x])] ++ (f <$> cut_closed ends maximum [] l)).
      rewrite (app_assoc ns). apply (IH [] _ Hg).
    - change (concat (nodes <$> cut_closed ends maximum (run ++ [x]) l))
        with ([] ++ concat (nodes <$> cut_closed ends maximum (run ++ [x]) l)). eapply puts_bind; [apply puts_ret|].
      replace false with (bool_decide (run ++ [x] = [])); [by apply IH|]. apply bool_decide_false. by destruct run. }
  intros Hg. unfold cuts in *. apply Forall_app in Hg as [Hc Ht]. unfold cut_runs. rewrite !fmap_app, concat_app.
  eapply puts_bind; [exact (Hfold l [] [] Hc)|]. cbn [app]. destruct (cut_tail ends maximum [] l) as [|x run] eqn:E; cbn.
  - rewrite app_nil_r. apply puts_ret.
  - apply Forall_cons in Ht as [Ht _]. rewrite app_nil_r. eapply puts_then; [exact Ht|]. apply puts_ret.
Qed.
End store.

(** ** Encoded parts *)

Definition written (w : Writer.prog) : Bytes := match Writer.run w with Ok e => e | Throw _ => [] end.
Lemma writes_written w e : writes w e -> written w = e.
Proof. intros Hw. unfold written. by rewrite (writes_run w e Hw). Qed.
Lemma carries_written {A} w (p : Reader.prog A) x : carries w p x -> writes w (written w) /\ reads p (written w) x.
Proof. intros (e & Hw & Hr). by rewrite (writes_written w e Hw). Qed.

Lemma carries_list {A} (w : A -> Writer.prog) p l :
  Z.of_nat (length l) < 2 ^ 32 -> Forall (fun a => carries (w a) p a) l -> carries (write_count l ;;; Writer.each w l) (read_list p) l.
Proof.
  intros Hl Hc. unfold write_count, read_list. eapply carries_bind; [apply carries_u32; lia|]. rewrite Nat2Z.id. by apply carries_times.
Qed.

Definition child_ok (c : Child) : Prop := string_ok path_limit (ch_first_key c) /\ u64_ok (ch_items c).
Lemma carries_child keyed c : child_ok c -> carries (write_child keyed c) (read_child keyed) (if keyed then c else mkChild [] (ch_id c) (ch_items c)).
Proof.
  intros [[Hk Hk'] Hi]. unfold write_child, read_child. destruct c as [key id items]. cbn [ch_first_key ch_id ch_items] in *.
  eapply (carries_bind _ _ _ _ (if keyed then key else [])); [destruct keyed; [by apply carries_string | apply carries_skip]|]. eapply carries_bind; [apply carries_fixed|].
  eapply carries_then; [by apply carries_u64|]. destruct keyed; apply reads_ret.
Qed.

Definition level_of (d : nat) : Z := Z.min u8_max (Z.of_nat d).
Lemma next_level d : next_spine_level (level_of d) = level_of (S d).
Proof. unfold next_spine_level, level_of, u8_max. destruct (Z.ltb_spec (Z.min (2 ^ 8 - 1) (Z.of_nat d)) (2 ^ 8 - 1)); lia. Qed.
Lemma level_range d : 0 <= level_of d < 2 ^ 8.
Proof. unfold level_of, u8_max. lia. Qed.

(** Without its magic, a branch. *)
Definition branch_rest (keyed : bool) (level : Z) (run : list Child) : Writer.prog :=
  Writer.u8 level ;;; write_count run ;;; Writer.each (write_child keyed) run.
Definition child_read (keyed : bool) (c : Child) : Child := if keyed then c else mkChild [] (ch_id c) (ch_items c).
Lemma carries_branch keyed d run :
  Forall child_ok run -> Z.of_nat (length run) < 2 ^ 32 ->
  carries (branch_rest keyed (level_of d) run) (read_branch keyed) (level_of d, child_read keyed <$> run).
Proof.
  intros Hr Hl. unfold branch_rest, read_branch. eapply carries_bind; [apply carries_u8, level_range|].
  apply (carries_map _ _ (pair (level_of d))). unfold write_count, read_list. eapply carries_bind; [apply carries_u32; lia|].
  rewrite Nat2Z.id. clear Hl. induction Hr as [|c run Hc _ IH]; cbn; [apply carries_skip|].
  eapply carries_bind; [by apply carries_child|]. by apply (carries_map _ _ (cons (child_read keyed c))).
Qed.

Section pure.
Context `{Sha256} (limits : NamespaceTreeLimits).

Definition spine_bytes (keyed : bool) (d : nat) (run : list Child) : Bytes := written (write_spine keyed (level_of d) run).
Definition spine_child (keyed : bool) (d : nat) (run : list Child) : Child :=
  mkChild (front_key run) (object_id (spine_bytes keyed d run)) (sum_u64 (ch_items <$> run)).

(** ** Levels *)

Section levels.
Context (keyed : bool) (target maximum : Z).

Definition by_key_groups (d : nat) (cs : list Child) : list (list Child) :=
  cuts (fun c => branch_boundary c (level_of d) keyed target) maximum cs.
Definition packed_groups (cs : list Child) : list (list Child) := cuts (fun _ => false) maximum cs.
(** Grouping by key leaves as many nodes as there were. *)
Definition degenerate (d : nat) (cs : list Child) : bool :=
  (length cs <=? length (by_key_groups d cs))%nat && (1 <? length cs)%nat.
Definition groups (d : nat) (cs : list Child) : list (list Child) :=
  if degenerate d cs then packed_groups cs else by_key_groups d cs.
(** The level [d] above children. *)
Definition up (d : nat) (cs : list Child) : list Child := spine_child keyed d <$> groups d cs.
Definition level_nodes (d : nat) (cs : list Child) : list Bytes :=
  (spine_bytes keyed d <$> by_key_groups d cs) ++ (if degenerate d cs then spine_bytes keyed d <$> packed_groups cs else []).

(** The root over children at level [d], and the nodes of its levels. *)
Fixpoint top (fuel : nat) (d : nat) (cs : list Child) : ObjectId :=
  match cs, fuel with
  | [c], _ => ch_id c
  | _ :: _ :: _, S fuel => top fuel (S d) (up (S d) cs)
  | _, _ => array_zero 32
  end.
Fixpoint tower_nodes (fuel : nat) (d : nat) (cs : list Child) : list Bytes :=
  match cs, fuel with
  | _ :: _ :: _, S fuel => level_nodes (S d) cs ++ tower_nodes fuel (S d) (up (S d) cs)
  | _, _ => []
  end.

Lemma groups_concat d cs : concat (groups d cs) = cs.
Proof. unfold groups. destruct (degenerate d cs); apply concat_cuts. Qed.
Lemma groups_nonempty d cs : Forall (fun g => g <> []) (groups d cs).
Proof. unfold groups. destruct (degenerate d cs); apply cuts_nonempty. Qed.
Lemma up_shorter d cs : 2 <= maximum -> (1 < length cs)%nat -> (length (up d cs) < length cs)%nat.
Proof.
  intros Hm Hl. unfold up, groups. rewrite length_fmap. destruct (degenerate d cs) eqn:E; [by apply packed_length|].
  unfold degenerate in E. apply andb_false_iff in E as [E|E]; [by apply Nat.leb_gt in E | apply Nat.ltb_ge in E; lia].
Qed.
Lemma up_nil d cs : up d cs = [] -> cs = [].
Proof. intros E%fmap_nil_inv. by rewrite <- (groups_concat d cs), E. Qed.
Lemma in_group d cs g c : g ∈ groups d cs -> c ∈ g -> c ∈ cs.
Proof. intros Hg Hc. rewrite <- (groups_concat d cs). apply in_concat_of. eauto. Qed.

Lemma sum_u64_range l : 0 <= sum_u64 l < 2 ^ 64.
Proof.
  assert (forall a, 0 <= a < 2 ^ 64 -> 0 <= foldl (fun a x => wrap64 (a + x)) a l < 2 ^ 64) as Hg.
  { induction l as [|x l IH]; intros a Ha; cbn; [done|]. apply IH, wrap64_range. }
  apply Hg. lia.
Qed.
Lemma spine_child_ok d run : Forall child_ok run -> child_ok (spine_child keyed d run).
Proof.
  intros Hr. split; [|apply sum_u64_range]. cbn. destruct Hr as [|c run Hc]; [|by apply Hc]. by split; cbn; unfold path_limit, u32_max; lia.
Qed.
Lemma spine_groups_ok d cs : Forall child_ok cs -> Forall (Forall child_ok) (groups d cs).
Proof.
  intros Hc. apply Forall_forall. intros g Hg. apply Forall_forall. intros c Hcg. rewrite Forall_forall in Hc. by eapply Hc, in_group.
Qed.
Lemma up_ok d cs : Forall child_ok cs -> Forall child_ok (up d cs).
Proof. intros Hc. apply Forall_fmap. eapply Forall_impl; [by apply spine_groups_ok|]. intros g. apply spine_child_ok. Qed.

Lemma writes_spine d run : Forall child_ok run -> writes (write_spine keyed (level_of d) run) (spine_bytes keyed d run).
Proof.
  intros Hr. unfold spine_bytes. assert (exists e, writes (write_spine keyed (level_of d) run) e) as (e & He); [|by rewrite (writes_written _ _ He)].
  unfold write_spine. eexists. eapply writes_seq; [apply writes_fixed|]. eapply writes_seq; [apply writes_u8|].
  eapply writes_seq; [apply writes_u32|]. apply (writes_each _ (fun c => written (write_child keyed c))).
  eapply Forall_impl; [exact Hr|]. intros c Hc. by eapply carries_written, carries_child.
Qed.

Context {S : Type} `{NodeStore S, !AddressedStore S}.

Lemma put_spine_node_puts d run : Forall child_ok run ->
  puts (S := S) (put_spine_node (level_of d) keyed run) [spine_bytes keyed d run] (spine_child keyed d run).
Proof.
  intros Hr. unfold put_spine_node. eapply puts_lift; [by apply writes_run, writes_spine|].
  eapply puts_then; [apply puts_put|]. apply puts_ret.
Qed.
Lemma build_level_puts packed d cs : Forall child_ok cs ->
  let gs := cuts (fun c => negb packed && branch_boundary c (level_of d) keyed target) maximum cs in
  puts (S := S) (build_level packed cs (level_of d) keyed target maximum) (spine_bytes keyed d <$> gs) (spine_child keyed d <$> gs).
Proof.
  intros Hc gs. unfold build_level. rewrite <- (app_nil_r (_ <$> gs)).
  assert (spine_bytes keyed d <$> gs = concat ((fun g => [spine_bytes keyed d g]) <$> gs)) as ->.
  { clear. induction gs as [|g gs IH]; cbn; [done|]. by f_equal. }
  eapply puts_bind; [apply (cut_puts _ _ _ (spine_child keyed d) (fun g => [spine_bytes keyed d g]))|apply puts_ret].
  apply Forall_forall. intros g Hg. apply put_spine_node_puts, Forall_forall. intros c Hcg. rewrite Forall_forall in Hc. apply Hc.
  rewrite <- (concat_cuts (fun c => negb packed && branch_boundary c (level_of d) keyed target) maximum cs). apply in_concat_of. eauto.
Qed.

Lemma build_spine_level_puts d cs : 2 <= maximum -> Forall child_ok cs ->
  puts (S := S) (build_spine_level cs (level_of d) keyed target maximum) (level_nodes d cs) (up d cs).
Proof.
  intros Hm Hc. unfold build_spine_level, level_nodes. eapply puts_bind; [by apply (build_level_puts false)|]. cbn [negb andb].
  fold (by_key_groups d cs).
  assert (stuck (spine_child keyed d <$> by_key_groups d cs) cs = degenerate d cs) as -> by (unfold stuck, degenerate; by rewrite length_fmap).
  assert (stuck (up d cs) cs = false) as Hup.
  { unfold stuck. apply andb_false_iff. destruct (Nat.ltb_spec 1 (length cs)); [left|by right].
    apply Nat.leb_gt. by apply up_shorter. }
  assert (up d cs = if degenerate d cs then spine_child keyed d <$> packed_groups cs else spine_child keyed d <$> by_key_groups d cs) as Eu
    by (unfold up, groups; by destruct (degenerate d cs)).
  destruct (degenerate d cs).
  - eapply puts_then; [apply (build_level_puts true d cs Hc)|]. cbn [negb andb]. fold (packed_groups cs). rewrite <- Eu, Hup. apply puts_ret.
  - eapply puts_then; [apply puts_ret|]. rewrite <- Eu, Hup. apply puts_ret.
Qed.

Lemma spine_loop_puts fuel d cs : 2 <= maximum -> Forall child_ok cs -> cs <> [] -> (length cs <= fuel)%nat ->
  puts (S := S) (spine_loop fuel cs (level_of (Datatypes.S d)) keyed target maximum) (tower_nodes fuel d cs) (top fuel d cs).
Proof.
  intros Hm. revert d cs. induction fuel as [|fuel IH]; intros d cs Hc Hne Hl; (destruct cs as [|c [|c' cs]]; [done|apply puts_ret|]); [cbn in Hl; lia|].
  cbn [spine_loop tower_nodes top]. eapply puts_bind; [by apply build_spine_level_puts|]. rewrite next_level. apply IH.
  - by apply up_ok.
  - by intros ?%up_nil.
  - pose proof (up_shorter (Datatypes.S d) (c :: c' :: cs) Hm). cbn [length] in *. lia.
Qed.
End levels.

(** ** Extents and leaves *)

Definition extent_groups (xs : list ExtentRef) : list (list ExtentRef) := cuts (ends_extents limits) (extent_max_fanout limits) xs.
Definition extent_leaf_bytes (run : list ExtentRef) : Bytes := written (write_extent_leaf run).
Definition extent_chunk (run : list ExtentRef) : Child := mkChild [] (object_id (extent_leaf_bytes run)) (Z.of_nat (length run)).
Definition extent_chunks (xs : list ExtentRef) : list Child := extent_chunk <$> extent_groups xs.
Definition extent_root (xs : list ExtentRef) : ObjectId :=
  top false (extent_target_fanout limits) (extent_max_fanout limits) (length (extent_chunks xs)) 0 (extent_chunks xs).
Definition extent_nodes (xs : list ExtentRef) : list Bytes :=
  (extent_leaf_bytes <$> extent_groups xs) ++
  tower_nodes false (extent_target_fanout limits) (extent_max_fanout limits) (length (extent_chunks xs)) 0 (extent_chunks xs).

Definition external (xs : list ExtentRef) : bool :=
  match xs with [] => false | _ => negb (Z.of_nat (length xs) <=? extent_inline_max limits) end.
Definition table_of (xs : list ExtentRef) : ExtentTable :=
  match xs with
  | [] => extents_none
  | _ => if external xs then extents_external (Z.of_nat (length xs)) (extent_root xs) else extents_inlined xs
  end.
Definition table_nodes (xs : list ExtentRef) : list Bytes := if external xs then extent_nodes xs else [].

(** A record as its leaf holds it, and the nodes it is the first to need. *)
Definition entry_raw (path : Bytes) (e : FsEntry) : Bytes := written (write_stat path e) ++ written (write_table (table_of (fe_extents e))).
Definition record_raw (r : LeafRecord) : Bytes := match lr_entry r with Some e => entry_raw (lr_key r) e | None => lr_raw r end.
Definition record_nodes (r : LeafRecord) : list Bytes := match lr_entry r with Some e => table_nodes (fe_extents e) | None => [] end.
Definition leaf_of (raws : list Bytes) : Bytes := abytes leaf_magic ++ be_bytes 4 (Z.of_nat (length raws)) ++ concat raws.
Definition leaf_bytes (run : list LeafRecord) : Bytes := leaf_of (record_raw <$> run).
Definition leaf_child (run : list LeafRecord) : Child :=
  mkChild (match run with r :: _ => lr_key r | [] => [] end) (object_id (leaf_bytes run)) (Z.of_nat (length run)).
Definition leaf_nodes (run : list LeafRecord) : list Bytes := concat (record_nodes <$> run) ++ [leaf_bytes run].

Definition leaf_groups (rs : list LeafRecord) : list (list LeafRecord) :=
  cuts (fun r => ends_a_leaf limits (lr_key r)) (entry_max_fanout limits) rs.
Definition leaf_open (rs : list LeafRecord) : bool :=
  negb (bool_decide (cut_tail (fun r => ends_a_leaf limits (lr_key r)) (entry_max_fanout limits) [] rs = [])).
Definition leaves_of (rs : list LeafRecord) : list Child := leaf_child <$> leaf_groups rs.

Definition branch_top (d : nat) (cs : list Child) : ObjectId :=
  top true (branch_target_fanout limits) (branch_max_fanout limits) (length cs) d cs.
Definition branch_nodes (d : nat) (cs : list Child) : list Bytes :=
  tower_nodes true (branch_target_fanout limits) (branch_max_fanout limits) (length cs) d cs.

(** The root and the nodes of the tree over records, and over entries. *)
Definition records_root (rs : list LeafRecord) : ObjectId :=
  match rs with [] => object_id (leaf_of []) | _ => branch_top 0 (leaves_of rs) end.
Definition records_nodes (rs : list LeafRecord) : list Bytes :=
  match rs with [] => [leaf_of []] | _ => concat (leaf_nodes <$> leaf_groups rs) ++ branch_nodes 0 (leaves_of rs) end.
Definition tree_root (entries : NamespaceEntries) : ObjectId := records_root (entry_record <$> entries).
Definition tree_nodes (entries : NamespaceEntries) : list Bytes := records_nodes (entry_record <$> entries).

(** What can be encoded and read back. *)
Definition record_ok (r : LeafRecord) : Prop :=
  string_ok path_limit (lr_key r) /\ match lr_entry r with Some e => entry_ok e | None => True end.
Record limits_ok : Prop := {
  lo_branch : 2 <= branch_max_fanout limits; lo_extent : 2 <= extent_max_fanout limits
}.

Lemma writes_stat path e : string_ok path_limit path -> writes (write_stat path e) (written (write_stat path e)).
Proof.
  intros [Hp Hp']. assert (exists b, writes (write_stat path e) b) as (b & Hb); [|by rewrite (writes_written _ _ Hb)].
  unfold write_stat. cbv zeta. destruct (negb (provenance_empty (fe_provenance e))); unfold encode_entry_provenance, encode_dot; eexists;
    (eapply writes_seq; [by apply writes_bytes|]);
    repeat (eapply writes_seq || apply writes_fixed || apply writes_u64 || apply writes_u32 || apply writes_u8 || apply writes_skip).
Qed.
Lemma writes_extents xs : Forall extent_ok xs -> writes (Writer.each write_extent xs) (concat (written ∘ write_extent <$> xs)).
Proof.
  intros Hx. rewrite <- flat_map_concat_map. apply writes_each. eapply Forall_impl; [exact Hx|]. intros x Hx'. by eapply carries_written, carries_extent.
Qed.
Definition table_ok (t : ExtentTable) : Prop :=
  match t with
  | extents_none => True
  | extents_inlined l => Z.of_nat (length l) < 2 ^ 32 /\ Forall extent_ok l
  | extents_external count _ => u64_ok count
  end.
Lemma carries_table t : table_ok t -> carries (write_table t) read_table t.
Proof.
  intros Ht. destruct t as [|l|count root]; cbn [write_table] in *; unfold read_table.
  - eapply carries_then; [apply carries_u8; unfold extent_form_none; lia|]. apply reads_ret.
  - destruct Ht as [Hl Hx]. eapply carries_bind; [apply carries_u8; unfold extent_form_inlined; lia|].
    apply (carries_map _ _ extents_inlined). apply carries_list; [done|]. eapply Forall_impl; [exact Hx|]. apply carries_extent.
  - eapply carries_bind; [apply carries_u8; unfold extent_form_external; lia|]. eapply carries_bind; [by apply carries_u64|].
    apply (carries_map _ _ (extents_external count)), carries_fixed.
Qed.
Lemma table_of_ok e : entry_ok e -> table_ok (table_of (fe_extents e)).
Proof.
  intros (_ & _ & _ & _ & _ & _ & _ & _ & Hn & Hx). unfold table_of. destruct (fe_extents e) as [|x xs] eqn:E; [done|].
  destruct (external (x :: xs)); cbn [table_ok]; [unfold u64_ok; lia|]. split; [lia|done].
Qed.

Context {S : Type} `{NodeStore S, !AddressedStore S} (Hlim : limits_ok).

Lemma build_extents_puts xs : xs <> [] -> Forall extent_ok xs -> Z.of_nat (length xs) < 2 ^ 32 ->
  puts (S := S) (build_extent_sequence limits xs) (extent_nodes xs) (extent_root xs).
Proof.
  intros Hne Hx Hl. unfold build_extent_sequence, extent_nodes. fold (extent_groups xs).
  assert (extent_leaf_bytes <$> extent_groups xs = concat ((fun g => [extent_leaf_bytes g]) <$> extent_groups xs)) as ->.
  { generalize (extent_groups xs). intros gs. induction gs as [|g gs IH]; cbn; [done|]. by f_equal. }
  assert (Forall (fun g => Forall extent_ok g /\ Z.of_nat (length g) < 2 ^ 32) (extent_groups xs)) as Hg.
  { apply Forall_forall. intros g Hg. rewrite Forall_forall in Hx. split.
    - apply Forall_forall. intros x Hxg. apply Hx. rewrite <- (concat_cuts (ends_extents limits) (extent_max_fanout limits) xs).
      apply in_concat_of. eauto.
    - apply list_elem_of_split in Hg as (l1 & l2 & Eg). rewrite <- (concat_cuts (ends_extents limits) (extent_max_fanout limits) xs) in Hl.
      fold (extent_groups xs) in Hl. rewrite Eg, concat_app in Hl. cbn in Hl. rewrite !length_app in Hl. lia. }
  eapply puts_bind.
  - apply (cut_puts _ _ _ extent_chunk (fun g => [extent_leaf_bytes g])). eapply Forall_impl; [exact Hg|]. intros g [Hgx Hgl]. unfold put_extent_leaf.
    eapply puts_lift; [|eapply puts_then; [apply puts_put|]; apply puts_ret]. apply writes_run. unfold extent_leaf_bytes.
    assert (exists b, writes (write_extent_leaf g) b) as (b & Hb); [|by rewrite (writes_written _ _ Hb)].
    unfold write_extent_leaf. eexists. eapply writes_seq; [apply writes_fixed|]. eapply writes_seq; [apply writes_u32|]. by apply writes_extents.
  - cbn. unfold build_spine, extent_root. change 1 with (level_of 1). apply spine_loop_puts; [apply Hlim| | |done].
    + apply Forall_fmap. eapply Forall_impl; [exact Hg|]. intros g [_ Hgl]. split; cbn; [split; unfold path_limit, u32_max; cbn; lia|].
      unfold u64_ok. lia.
    + unfold extent_chunks, extent_groups. intros E%fmap_nil_inv%cuts_nil. done.
Qed.

Lemma encode_record_puts w r : record_ok r -> puts (S := S) (encode_record limits w r) (record_nodes r) (w ++ record_raw r).
Proof.
  intros [Hp He]. unfold encode_record, record_nodes, record_raw. destruct (lr_entry r) as [e|]; [|by intros s].
  unfold encode_leaf_entry, entry_raw. eapply puts_lift; [by apply writes_stat|]. rewrite app_assoc.
  eapply puts_then; [|intros s; unfold st_lift; by rewrite (proj1 (carries_written _ _ _ (carries_table _ (table_of_ok e He))))].
  pose proof He as (_ & _ & _ & _ & _ & _ & _ & _ & Hn & Hx).
  unfold extent_table, table_of, table_nodes, external. destruct (fe_extents e) as [|x xs] eqn:E; [apply puts_ret|].
  destruct (Z.of_nat (length (x :: xs)) <=? extent_inline_max limits); cbn [negb]; [apply puts_ret|].
  eapply puts_then; [apply build_extents_puts; [done|done|lia]|]. apply puts_ret.
Qed.
Lemma put_leaf_puts run : Forall record_ok run -> puts (S := S) (put_leaf limits run) (leaf_nodes run) (leaf_child run).
Proof.
  intros Hr. unfold put_leaf, leaf_nodes, leaf_child, leaf_bytes, leaf_of. eapply puts_lift.
  { apply (writes_seq (Writer.fixed leaf_magic) (write_count run) _ _ (writes_fixed _) (writes_u32 _)). }
  rewrite length_fmap, !(app_assoc (abytes leaf_magic)), app_nil_l. set (w := abytes leaf_magic ++ be_bytes 4 _).
  eapply puts_bind; [|eapply puts_then; [apply puts_put|]; apply puts_ret].
  clearbody w. revert w. induction Hr as [|r run Hr _ IH]; intros w; cbn [foldM]; [cbn; rewrite app_nil_r; apply puts_ret|].
  rewrite !fmap_cons. cbn [concat]. rewrite app_assoc. eapply puts_bind; [by apply encode_record_puts|]. apply IH.
Qed.
Lemma chunk_records_puts rs : Forall record_ok rs ->
  puts (S := S) (chunk_records limits rs) (concat (leaf_nodes <$> leaf_groups rs)) (leaves_of rs, leaf_open rs).
Proof.
  intros Hr. apply cut_puts. apply Forall_forall. intros g Hg. apply put_leaf_puts, Forall_forall. intros r Hrg.
  rewrite Forall_forall in Hr. apply Hr.
  rewrite <- (concat_cuts (fun r => ends_a_leaf limits (lr_key r)) (entry_max_fanout limits) rs). apply in_concat_of. eauto.
Qed.

Definition entries_ok (entries : NamespaceEntries) : Prop :=
  sorted_recs entries /\ Forall (fun e => string_ok path_limit e.1 /\ entry_ok e.2) entries /\ Z.of_nat (length entries) < 2 ^ 32.
Lemma entry_records_ok entries : entries_ok entries -> Forall record_ok (entry_record <$> entries).
Proof. intros (_ & He & _). apply Forall_fmap. eapply Forall_impl; [exact He|]. by intros e. Qed.

Lemma leaf_groups_small rs g : g ∈ leaf_groups rs -> (length g <= length rs)%nat.
Proof.
  intros Hg. rewrite <- (concat_cuts (fun r => ends_a_leaf limits (lr_key r)) (entry_max_fanout limits) rs). fold (leaf_groups rs).
  apply list_elem_of_split in Hg as (l1 & l2 & ->). rewrite concat_app. cbn. rewrite !length_app. lia.
Qed.
Lemma leaves_ok rs : Forall record_ok rs -> Z.of_nat (length rs) < 2 ^ 64 -> Forall child_ok (leaves_of rs).
Proof.
  intros Hr Hl. apply Forall_fmap, Forall_forall. intros g Hg. pose proof (leaf_groups_small rs g Hg).
  split; cbn; [|unfold u64_ok; lia]. destruct g as [|r g]; [by split; cbn; unfold path_limit, u32_max; lia|].
  rewrite Forall_forall in Hr. apply Hr. rewrite <- (concat_cuts (fun r => ends_a_leaf limits (lr_key r)) (entry_max_fanout limits) rs).
  apply in_concat_of. exists (r :: g). split; [by left|done].
Qed.

(** Building puts the nodes of the tree and answers its root. *)
Lemma build_puts entries : entries_ok entries ->
  puts (S := S) (build_namespace_tree limits entries) (tree_nodes entries) (tree_root entries).
Proof.
  intros He. pose proof (entry_records_ok entries He) as Hr. destruct He as (_ & _ & Hl).
  unfold build_namespace_tree, tree_nodes, tree_root, chunk_leaves, records_nodes, records_root.
  set (rs := entry_record <$> entries) in *. assert (length rs = length entries) as El by apply length_fmap.
  destruct rs as [|r rs'] eqn:Ers.
  - eapply (puts_bind _ _ [] [leaf_of []]); [apply (chunk_records_puts []); constructor|]. change (puts empty_leaf [leaf_of []] (object_id (leaf_of []))).
    unfold empty_leaf. eapply puts_lift; [|apply puts_put]. apply writes_run. unfold leaf_of. cbn [concat length]. rewrite app_nil_r.
    apply (writes_seq _ _ _ _ (writes_fixed _) (writes_u32 _)).
  - eapply puts_bind; [by apply chunk_records_puts|]. cbn [fst snd].
    assert (leaves_of (r :: rs') <> []) as Hne.
    { unfold leaves_of, leaf_groups. intros E%fmap_nil_inv%cuts_nil. done. }
    destruct (leaves_of (r :: rs')) as [|c cs] eqn:Ec; [done|]. rewrite <- Ec in *.
    unfold build_spine, branch_nodes, branch_top. change 1 with (level_of 1). apply spine_loop_puts; [apply Hlim| |done|done].
    apply leaves_ok; [done|lia].
Qed.
End pure.
