(* ===== verification/NamespaceReads.v ===== *)
(** * Reading a namespace tree

    [tree_at] says what a store holds under a root: the entries of a
    namespace, in leaves below branches. Every reader of [NamespaceTree] and
    [NamespaceView] over such a root answers what the map of those entries
    answers; the tree a build writes is such a tree. *)

From S2P Require Import Prelude Sorts Maps Orders Codec TorrentRequest Journal Paths Metadata MetadataCodec MetadataRoundtrip MetadataDelta NamespaceTree NamespaceView NamespaceNodes.

(** ** Programs over lists *)

Section folds.
Context {A X : Type} (visit : X -> ST A unit).

Definition visits (l : list X) : ST A unit := foldM (fun _ x => visit x) tt l.
Lemma visits_cons x l st : visits (x :: l) st = (_ ← visit x; visits l) st.
Proof. unfold visits. cbn [foldM]. unfold mbind, st_bind. destruct (visit x st) as [[[]|e] st']; done. Qed.
Lemma visits_app l1 l2 st : visits (l1 ++ l2) st = (_ ← visits l1; visits l2) st.
Proof.
  revert st. induction l1 as [|x l1 IH]; intros st; [done|]. rewrite <- app_comm_cons, visits_cons.
  unfold mbind, st_bind. rewrite visits_cons. unfold mbind, st_bind. destruct (visit x st) as [[[]|e] st']; [|done]. apply IH.
Qed.
End folds.

Section takes.
Context {A X : Type} (take : X -> ST A bool).
(** Takes until told to stop; whether it was. *)
Fixpoint takes (l : list X) : ST A bool :=
  match l with [] => mret false | x :: l => go_on ← take x; if go_on : bool then takes l else mret true end.
Lemma takes_app l1 l2 st : takes (l1 ++ l2) st = (stopped ← takes l1; if stopped : bool then mret true else takes l2) st.
Proof.
  revert st. induction l1 as [|x l1 IH]; intros st; [done|]. cbn [app takes]. unfold mbind, st_bind.
  destruct (take x st) as [[[]|e] st']; [|done|done]. apply IH.
Qed.
End takes.

(** ** Prefixes *)

Lemma starts_with_app p k : starts_with p k = true <-> exists r, k = p ++ r.
Proof.
  unfold starts_with. rewrite bool_decide_eq_true. split.
  - intros E. exists (drop (length p) k). by rewrite <- E at 1; rewrite take_drop.
  - intros (r & ->). apply take_app_length.
Qed.
Lemma ltb_after_prefix p a b : bytes_ltb (p ++ a) (p ++ b) = bytes_ltb a b.
Proof. induction p as [|x p IH]; cbn; [done|]. rewrite IH. by rewrite Z.ltb_irrefl. Qed.
Lemma prefix_le p r : bytes_ltb (p ++ r) p = false.
Proof. rewrite <- (app_nil_r p) at 2. rewrite ltb_after_prefix. by destruct r. Qed.
(** What starts with a prefix lies together. *)
Lemma starts_between p k r : bytes_ltb k p = false -> bytes_ltb k (p ++ r) = true -> starts_with p k = true.
Proof.
  intros H1 H2. apply starts_with_app. revert k H1 H2. induction p as [|b p IH]; intros k H1 H2; [by exists k|].
  destruct k as [|c k]; [done|]. cbn in H1, H2.
  destruct (Z.ltb_spec (b2z c) (b2z b)); [done|]. destruct (Z.ltb_spec (b2z b) (b2z c)); [done|].
  assert (c = b) as -> by (apply b2z_inj; lia). destruct (IH k H1 H2) as (r' & ->). by exists r'.
Qed.
Lemma bump_spec q : bump_reversed q = [] \/ exists t b f, q = f ++ b :: t /\ Forall (fun x => b2z x = 255) f /\ b2z b < 255 /\ bump_reversed q = rev t ++ [z2b (b2z b + 1)].
Proof.
  induction q as [|x q IH]; cbn; [by left|]. destruct (Z.eqb_spec (b2z x) 255) as [E|E].
  - destruct IH as [->|(t & b & f & -> & Hf & Hb & ->)]; [by left|]. right. exists t, b, (x :: f). split; [done|]. split; [by constructor|done].
  - right. exists q, x, []. split; [done|]. split; [constructor|]. pose proof (b2z_range x). split; [lia|done].
Qed.
Lemma prefix_upper p k : starts_with p k = true -> prefix_upper_bound p <> [] -> bytes_ltb k (prefix_upper_bound p) = true.
Proof.
  intros (r & ->)%starts_with_app Hne. unfold prefix_upper_bound in *. destruct (bump_spec (rev p)) as [E|(t & b & f & E & _ & Hb & ->)]; [done|].
  assert (p = rev t ++ b :: rev f) as ->.
  { rewrite <- (rev_involutive p), E, rev_app_distr. cbn. by rewrite <- app_assoc. }
  rewrite <- app_assoc, ltb_after_prefix. cbn. pose proof (b2z_range b). rewrite b2z_z2b_small by lia.
  destruct (Z.ltb_spec (b2z b) (b2z b + 1)); [done|lia].
Qed.

(** ** Nodes at rest *)

(** A leaf record with its table. *)
Definition raw_with (e : Bytes * FsEntry) (t : ExtentTable) : Bytes := written (write_stat e.1 e.2) ++ written (write_table t).
Definition set_extents (xs : list ExtentRef) (e : FsEntry) : FsEntry :=
  mkEntry (fe_type e) (fe_mode e) (fe_uid e) (fe_gid e) (fe_size e) (fe_ctime_ns e) (fe_mtime_ns e) (fe_version e) xs (fe_provenance e).

Lemma carries_stat path e : string_ok path_limit path -> entry_ok e ->
  carries (write_stat path e) (key ← Reader.string path_limit; stat ← read_stat; mret (key, stat)) (path, fun xs => set_extents xs e).
Proof.
  intros [Hp Hp'] (Hmode & Huid & Hgid & Hsize & Hc & Hm & Hv & Hpr & Hn & Hx). unfold write_stat, read_stat, set_extents.
  remember (negb (provenance_empty (fe_provenance e))) as p eqn:Ep. cbv zeta.
  eapply carries_bind; [by apply carries_string|]. eapply carries_eq; [apply (carries_map _ _ (pair path))|done].
  eapply carries_bind; [apply carries_u8; by destruct (fe_type e), p|].
  assert (negb (Z.land (Z.lor (entry_type_code (fe_type e)) (if p then entry_type_with_provenance else 0))
    entry_type_with_provenance =? 0) = p) as -> by (by destruct (fe_type e), p).
  assert (Z.land (Z.lor (entry_type_code (fe_type e)) (if p then entry_type_with_provenance else 0))
    (255 - entry_type_with_provenance) = entry_type_code (fe_type e)) as -> by (by destruct (fe_type e), p).
  assert ((entry_type_code (fe_type e) <? 1) || (2 <? entry_type_code (fe_type e)) = false) as -> by (by destruct (fe_type e)).
  assert ((if entry_type_code (fe_type e) =? 1 then directory else file) = fe_type e) as -> by (by destruct (fe_type e)).
  carry; try assumption.
  rewrite Ep. destruct (provenance_empty (fe_provenance e)) eqn:E; cbn [negb].
  - destruct Hpr as (_ & _ & ->); [|done]. apply carries_skip.
  - by apply carries_provenance.
Qed.

Section nodes.
Context {S : Type} `{Sha256, NodeStore S} (s : S).
Implicit Types (xs : list ExtentRef) (es : NamespaceEntries).

Definition fits {A} (l : list A) : Prop := Z.of_nat (length l) < 2 ^ 32.

(** The extents under a node of an extent sequence. *)
Fixpoint extents_at (d : nat) (id : ObjectId) xs : Prop :=
  match d with
  | O => ns_get s id = Some (extent_leaf_bytes xs) /\ Forall extent_ok xs /\ fits xs
  | Datatypes.S d => exists level cs xss, ns_get s id = Some (spine_bytes false level cs) /\ Forall child_ok cs /\ fits cs /\
      Forall2 (fun c xs => extents_at d (ch_id c) xs) cs xss /\ xs = concat xss
  end.
Definition table_at (h : nat) (t : ExtentTable) xs : Prop :=
  table_ok t /\
  match t with
  | extents_none => xs = []
  | extents_inlined l => xs = l
  | extents_external _ root => exists d, (d < h)%nat /\ extents_at d root xs
  end.

(** The entries under a node; [h] bounds the height of extent sequences. *)
Definition record_at (h : nat) (e : Bytes * FsEntry) (t : ExtentTable) : Prop :=
  string_ok path_limit e.1 /\ entry_ok e.2 /\ table_at h t (fe_extents e.2).
Definition leaf_at (h : nat) (id : ObjectId) es : Prop :=
  exists ts, Forall2 (record_at h) es ts /\ fits es /\ ns_get s id = Some (leaf_of (zip_with raw_with es ts)).
Definition first_of (c : Child) es : Prop := exists e rest, es = e :: rest /\ ch_first_key c = e.1.
Fixpoint tree_at (h d : nat) (id : ObjectId) es : Prop :=
  match d with
  | O => leaf_at h id es
  | Datatypes.S d => exists cs ess, ns_get s id = Some (spine_bytes true (Datatypes.S d) cs) /\ cs <> [] /\ Forall child_ok cs /\ fits cs /\
      Forall2 (fun c es => tree_at h d (ch_id c) es /\ first_of c es) cs ess /\ es = concat ess
  end.

(** ** Nodes read back *)

Lemma run_reads {A} (p : Reader.prog A) e a : reads p e a ->
  p (Reader.mk e 0) = Ok (a, Reader.mk e (length e)).
Proof. intros Hr. specialize (Hr [] []). by rewrite !app_nil_l, !app_nil_r in Hr. Qed.

Lemma fetch_ok what id b : ns_get s id = Some b -> fetch s what id = Ok b.
Proof. unfold fetch. by intros ->. Qed.

Lemma spine_bytes_eq keyed d run : Forall child_ok run ->
  spine_bytes keyed d run = abytes (if keyed then branch_magic else extent_branch_magic) ++ written (branch_rest keyed (level_of d) run).
Proof.
  intros Hr. apply writes_written. unfold write_spine. apply writes_seq; [apply writes_fixed|].
  assert (exists b, writes (branch_rest keyed (level_of d) run) b) as (b & Hb); [|by rewrite (writes_written _ _ Hb)].
  unfold branch_rest. eexists. eapply writes_seq; [apply writes_u8|]. eapply writes_seq; [apply writes_u32|].
  apply (writes_each _ (fun c => written (write_child keyed c))). eapply Forall_impl; [exact Hr|].
  intros c Hc. by eapply carries_written, carries_child.
Qed.

Lemma read_magic {B} (magic : array 4) b (k : array 4 -> Reader.prog B) :
  (m ← Reader.fixed 4; k m) (Reader.mk (abytes magic ++ b) 0) = k magic (Reader.mk (abytes magic ++ b) (length (abytes magic))).
Proof. unfold mbind, Reader.prog_bind. pose proof (reads_fixed magic [] b) as E. rewrite !app_nil_l in E. cbn [length] in E. by rewrite E. Qed.
Lemma read_to_end {A B} (pre b : Bytes) (p : Reader.prog A) (f : A -> B) x : reads p b x ->
  (a ← p; _ ← Reader.finish; mret (f a)) (Reader.mk (pre ++ b) (length pre)) = Ok (f x, Reader.mk (pre ++ b) (length (pre ++ b))).
Proof.
  intros Hr. unfold mbind, Reader.prog_bind. specialize (Hr pre []). rewrite app_nil_r in Hr. rewrite Hr.
  unfold Reader.finish. cbn [Reader.position Reader.data]. by rewrite Nat.eqb_refl.
Qed.
Lemma magic_test (a b : array 4) : bool_decide (a = b) = bool_decide (abytes a = abytes b).
Proof. apply bool_decide_ext. split; [by intros ->|apply array_eq]. Qed.

Lemma child_read_keyed (cs : list Child) : child_read true <$> cs = cs.
Proof. induction cs as [|c cs IH]; [done|]. rewrite fmap_cons. by rewrite IH. Qed.

Lemma open_branch d cs : Forall child_ok cs -> fits cs ->
  exists rd, open_node (Reader.mk (spine_bytes true d cs) 0) = Ok (inr (level_of d, cs), rd).
Proof.
  intros Hc Hf. rewrite spine_bytes_eq by done. unfold open_node. rewrite read_magic, !magic_test.
  rewrite bool_decide_false by (vm_compute; done). rewrite bool_decide_true by done.
  eexists. rewrite (read_to_end _ _ _ inr _ (proj2 (carries_written _ _ _ (carries_branch true d cs Hc Hf)))). by rewrite child_read_keyed.
Qed.
Lemma length_leaf_of raws : length (leaf_of raws) = (8 + length (concat raws))%nat.
Proof. unfold leaf_of. rewrite !length_app, length_be_bytes, array_length. done. Qed.
Definition leaf_head (raws : list Bytes) : Bytes := abytes leaf_magic ++ be_bytes 4 (Z.of_nat (length raws)).
Lemma leaf_of_eq raws : leaf_of raws = leaf_head raws ++ concat raws.
Proof. unfold leaf_of, leaf_head. by rewrite app_assoc. Qed.
Lemma open_leaf raws : fits raws ->
  open_node (Reader.mk (leaf_of raws) 0) = Ok (inl (Z.of_nat (length raws)), Reader.mk (leaf_head raws ++ concat raws) (length (leaf_head raws))).
Proof.
  intros Hf. rewrite leaf_of_eq. unfold leaf_head. rewrite <- app_assoc. unfold open_node. rewrite read_magic, !magic_test.
  rewrite bool_decide_true by done. unfold mbind, Reader.prog_bind. unfold fits in Hf. rewrite (reads_u32 (Z.of_nat (length raws)) ltac:(lia)).
  done.
Qed.

(** ** Extents *)

Lemma read_extents_ok fuel d id xs : (d < fuel)%nat -> extents_at d id xs -> read_extent_sequence s fuel id = Ok xs.
Proof.
  revert d id xs. induction fuel as [|fuel IH]; intros d id xs Hd; [lia|]. intros Hx. cbn [read_extent_sequence].
  destruct d as [|d]; cbn [extents_at] in Hx.
  - destruct Hx as (E & Hx & Hf). rewrite (fetch_ok _ _ _ E). cbn [mbind result_bind].
    assert (carries (write_count xs ;;; Writer.each write_extent xs) (read_list read_extent) xs) as Hc.
    { apply carries_list; [done|]. eapply Forall_impl; [exact Hx|]. apply carries_extent. }
    apply carries_written in Hc as [Hw Hr]. unfold extent_leaf_bytes, write_extent_leaf.
    rewrite (writes_written _ _ (writes_seq _ _ _ _ (writes_fixed extent_leaf_magic) Hw)).
    unfold Reader.run. rewrite read_magic, !magic_test. rewrite bool_decide_true by done.
    by rewrite (read_to_end _ _ _ inl _ Hr).
  - destruct Hx as (level & cs & xss & E & Hc & Hf & H2 & ->). rewrite (fetch_ok _ _ _ E), spine_bytes_eq by done. cbn [mbind result_bind].
    unfold Reader.run. rewrite read_magic, !magic_test. rewrite bool_decide_false by (vm_compute; done). rewrite bool_decide_true by done.
    rewrite (read_to_end _ _ _ (fun b => inr b.2) _ (proj2 (carries_written _ _ _ (carries_branch false level cs Hc Hf)))). cbn [mbind result_bind snd].
    assert (forall out, foldM (fun out c => l ← read_extent_sequence s fuel (ch_id c); Ok (out ++ l)) out (child_read false <$> cs) = Ok (out ++ concat xss)) as Hg.
    { clear E Hc Hf. induction H2 as [|c xs cs xss Hcx _ IH2]; intros out; cbn [foldM fmap list_fmap concat]; [by rewrite app_nil_r|].
      change (ch_id (child_read false c)) with (ch_id c). rewrite (IH d _ xs) by (done || lia). cbn [mbind result_bind]. by rewrite IH2, app_assoc. }
    by rewrite Hg.
Qed.

(** The extents handed out: all of them, or those in the leaf. *)
Definition inline_extents (t : ExtentTable) : list ExtentRef := match t with extents_inlined l => l | _ => [] end.
Lemma table_extents_ok h t xs fuel load : (h <= fuel)%nat -> table_at h t xs ->
  table_extents s fuel load t = Ok (if load then xs else inline_extents t).
Proof.
  intros Hh [_ Ht]. destruct t as [|l|count root]; cbn [table_extents inline_extents] in *; [subst; by destruct load.. |].
  destruct load; [|done]. destruct Ht as (d & Hd & Hx). apply (read_extents_ok _ d); [lia|done].
Qed.
Lemma reads_entry h e t fuel want : (h <= fuel)%nat -> record_at h e t ->
  reads (decode_leaf_entry_when s fuel want) (raw_with e t) (e.1, set_extents (if want e.1 then fe_extents e.2 else inline_extents t) e.2).
Proof.
  intros Hh (Hp & He & Ht). destruct e as [path e]. cbn [fst snd] in *. unfold raw_with, decode_leaf_entry_when. cbn [fst snd].
  destruct (carries_written _ _ _ (carries_stat path e Hp He)) as [_ Hs].
  destruct (carries_written _ _ _ (carries_table t (proj1 Ht))) as [_ Hr].
  intros pre post. specialize (Hs pre (written (write_table t) ++ post)). specialize (Hr (pre ++ written (write_stat path e)) post).
  rewrite <- !app_assoc in *. unfold mbind, Reader.prog_bind in *.
  destruct (Reader.string path_limit _) as [[key rd]|]; [|done]. destruct (read_stat rd) as [[stat rd']|]; [|done].
  unfold mret, Reader.prog_ret in Hs. injection Hs as -> -> ->. rewrite Hr. unfold read_lift.
  by rewrite (table_extents_ok h t (fe_extents e)).
Qed.
Lemma set_extents_same e : set_extents (fe_extents e) e = e.
Proof. by destruct e. Qed.
Lemma reads_whole_entry h e t fuel only : (h <= fuel)%nat -> record_at h e t -> reads (decode_leaf_entry s fuel true only) (raw_with e t) e.
Proof.
  intros Hh Hr. pose proof (reads_entry h e t fuel (fun key => true || (negb (bool_decide (only = [])) && bool_decide (key = only))) Hh Hr) as Hd.
  cbn [orb] in Hd. rewrite set_extents_same in Hd. by destruct e.
Qed.

(** ** Walks *)

Section walks.
Context {A : Type}.

Lemma visit_leaf_ok decode (visit : Bytes * FsEntry -> ST A unit) items raws : Forall2 (fun item raw => reads decode raw item) items raws ->
  forall pre post st, visit_leaf (length raws) decode visit (Reader.mk (pre ++ concat raws ++ post) (length pre)) st =
    (_ ← visits visit items; mret (Reader.mk (pre ++ concat raws ++ post) (length (pre ++ concat raws)))) st.
Proof.
  induction 1 as [|item raw items raws Hr _ IH]; intros pre post st; [cbn; by rewrite app_nil_r|].
  cbn [length visit_leaf concat]. unfold mbind, st_bind at 1, st_lift. rewrite <- !app_assoc. rewrite Hr. cbn [fst snd].
  unfold mbind, st_bind. rewrite visits_cons. unfold mbind, st_bind. destruct (visit item st) as [[[]|e] st']; [|done].
  specialize (IH (pre ++ raw) post st'). rewrite <- !app_assoc in IH. rewrite IH. unfold mbind, st_bind. done.
Qed.
Lemma finish_leaf_ok (b : Bytes) (st : A) : finish_leaf (Reader.mk b (length b)) st = (Ok tt, st).
Proof. unfold finish_leaf, mbind, st_bind, st_lift, Reader.finish. cbn [Reader.position Reader.data]. by rewrite Nat.eqb_refl. Qed.
(** A leaf visited to its end. *)
Lemma leaf_visited decode (visit : Bytes * FsEntry -> ST A unit) items raws st : Forall2 (fun item raw => reads decode raw item) items raws ->
  (rd ← visit_leaf (length raws) decode visit (Reader.mk (leaf_head raws ++ concat raws) (length (leaf_head raws))); finish_leaf rd) st =
  visits visit items st.
Proof.
  intros Hr. unfold mbind, st_bind. pose proof (visit_leaf_ok decode visit items raws Hr (leaf_head raws) [] st) as E.
  rewrite app_nil_r in E. rewrite E. unfold mbind, st_bind. destruct (visits visit items st) as [[[]|e] st']; [|done].
  unfold mret, st_ret. by rewrite finish_leaf_ok.
Qed.

Lemma Forall2_zip {X Y Z} (P : X -> Y -> Prop) (f : X -> Y -> Z) (R : X -> Z -> Prop) l k :
  Forall2 P l k -> (forall x y, P x y -> R x (f x y)) -> Forall2 R l (zip_with f l k).
Proof. intros Hp Hr. induction Hp as [|x y l k Hxy _ IH]; cbn; constructor; auto. Qed.
Lemma zip_length {X Y Z} (P : X -> Y -> Prop) (f : X -> Y -> Z) l k : Forall2 P l k -> length (zip_with f l k) = length l.
Proof. intros Hp. rewrite length_zip_with, <- (Forall2_length _ _ _ Hp). lia. Qed.

Lemma walk_subtree_ok (visit : Bytes * FsEntry -> ST A unit) h fuel d id es st :
  (d + h < fuel)%nat -> tree_at h d id es -> walk_subtree s fuel id visit st = visits visit es st.
Proof.
  revert d id es st. induction fuel as [|fuel IH]; intros d id es st Hd; [lia|]. intros Ht. cbn [walk_subtree].
  unfold mbind, st_bind at 1, st_lift at 1. destruct d as [|d]; cbn [tree_at] in Ht.
  - destruct Ht as (ts & Hr & Hf & E). rewrite (fetch_ok _ _ _ E). unfold mbind, st_bind at 1, st_lift.
    assert (fits (zip_with raw_with es ts)) as Hf' by (unfold fits; by rewrite (zip_length _ _ _ _ Hr)).
    rewrite (open_leaf _ Hf'). rewrite Nat2Z.id. apply leaf_visited.
    apply (Forall2_zip _ _ _ _ _ Hr). intros e t He. apply (reads_whole_entry h); [lia|done].
  - destruct Ht as (cs & ess & E & _ & Hc & Hf & H2 & ->). rewrite (fetch_ok _ _ _ E). unfold mbind, st_bind at 1, st_lift.
    destruct (open_branch (Datatypes.S d) cs Hc Hf) as (rd & ->). clear E Hc Hf.
    revert st. induction H2 as [|c es cs ess [Hce _] _ IH2]; intros st; [done|]. cbn [foldM concat]. rewrite visits_app.
    unfold mbind, st_bind. rewrite (IH d _ es) by (done || lia). destruct (visits visit es st) as [[[]|e] st']; [|done]. apply IH2.
Qed.
End walks.

(** The whole tree, in a map. *)
Lemma emplace_visits es m : sorted_recs (m ++ es) -> visits emplace_entry es m = (Ok tt, m ++ es).
Proof.
  revert m. induction es as [|[k v] es IH]; intros m Hs; [by rewrite app_nil_r|]. rewrite visits_cons. unfold mbind, st_bind, emplace_entry.
  pose proof Hs as Hs'. apply sorted_recs_app in Hs' as (Hlt & _ & _).
  assert (Forall (fun r => key_lt r.1 k) m) as Hm.
  { apply Forall_forall. intros r Hr. apply (Hlt r (k, v)); [done|by left]. }
  cbn [fst snd]. unfold map_emplace. destruct (alookup k m) as [w|] eqn:E.
  { apply alookup_Some_elem in E. rewrite Forall_forall in Hm. specialize (Hm _ E). by apply key_lt_irrefl in Hm. }
  rewrite map_set_end by done. rewrite IH by (by rewrite <- app_assoc). by rewrite <- app_assoc.
Qed.
Lemma read_tree_ok h fuel d id es : (d + h < fuel)%nat -> tree_at h d id es -> sorted_recs es -> read_namespace_tree s fuel id = Ok es.
Proof.
  intros Hd Ht Hs. unfold read_namespace_tree. rewrite (walk_subtree_ok _ h fuel d id es) by done. by rewrite emplace_visits.
Qed.

(** ** Lookups *)

(** The same entry up to extents that were not asked for. *)
Definition looked_up (with_extents : bool) (e : FsEntry) (got : option FsEntry) : Prop :=
  exists e', got = Some e' /\ stat_only e' = stat_only e /\ (with_extents = true -> e' = e).

Lemma lookup_leaf_ok h fuel path with_extents es ts : (h <= fuel)%nat -> path <> [] -> sorted_recs es -> Forall2 (record_at h) es ts ->
  forall pre post, exists got,
    lookup_leaf s (length es) fuel path with_extents (Reader.mk (pre ++ concat (zip_with raw_with es ts) ++ post) (length pre)) = Ok got /\
    match alookup path es with Some e => looked_up with_extents e got | None => got = None end.
Proof.
  intros Hh Hp Hs H2. induction H2 as [|[k e] t es ts Hr _ IH]; intros pre post; [by exists None|].
  cbn [length lookup_leaf zip_with concat]. rewrite <- !app_assoc. unfold decode_leaf_entry.
  rewrite (reads_entry h (k, e) t fuel _ Hh Hr). cbn [mbind result_bind fst snd].
  apply sorted_recs_cons in Hs as [Hlt Hs]. rewrite alookup_cons. destruct (decide (path = k)) as [->|Hne].
  - rewrite bool_decide_true by done. eexists. split; [done|]. eexists. split; [done|]. split; [done|].
    intros ->. rewrite bool_decide_false, bool_decide_true by done. apply set_extents_same.
  - rewrite bool_decide_false by (intros ->; done). destruct (key_ltb path k) eqn:Ek.
    + exists None. split; [done|]. rewrite alookup_below; [done|]. eapply Forall_impl; [exact Hlt|]. intros r Hr'. cbn in *.
      by transitivity k.
    + specialize (IH Hs (pre ++ raw_with (k, e) t) post). by rewrite <- !app_assoc in IH.
Qed.

(** The child a path is below, if any. *)
Fixpoint pick (path : Bytes) (next : option Child) (cs : list Child) : option Child :=
  match cs with
  | [] => next
  | c :: cs =>
      if negb (key_ltb path (ch_first_key c)) then pick path (Some c) cs
      else match next with Some _ => next | None => pick path None cs end
  end.
Lemma lookup_branch_ok path cs : Forall child_ok cs -> forall next pre post, exists rd,
  lookup_branch (length cs) path (ch_id <$> next) (Reader.mk (pre ++ concat ((fun c => written (write_child true c)) <$> cs) ++ post) (length pre)) =
  Ok (ch_id <$> pick path next cs, rd).
Proof.
  induction 1 as [|c cs Hc _ IH]; intros next pre post; [by eexists|]. rewrite fmap_cons. cbn [length lookup_branch concat pick].
  unfold mbind, Reader.prog_bind. rewrite <- !app_assoc. rewrite (proj2 (carries_written _ _ _ (carries_child true c Hc))).
  destruct (negb (key_ltb path (ch_first_key c))).
  - destruct (IH (Some c) (pre ++ written (write_child true c)) post) as (rd & E). rewrite <- !app_assoc in E. eauto.
  - destruct next as [n|]; cbn [fmap option_fmap option_map]; [by eexists|].
    destruct (IH None (pre ++ written (write_child true c)) post) as (rd & E). rewrite <- !app_assoc in E. eauto.
Qed.

Lemma concat_sorted (ess : list NamespaceEntries) : sorted_recs (concat ess) -> Forall sorted_recs ess.
Proof.
  induction ess as [|es ess IH]; cbn; [constructor|]. intros (_ & H1 & H2)%sorted_recs_app. constructor; auto.
Qed.
Lemma alookup_above path es k : sorted_recs es -> Forall (fun r : Bytes * FsEntry => key_lt r.1 k) es -> key_ltb path k = false -> alookup path es = None.
Proof.
  intros Hs Hf Hk. apply alookup_None. intros (r & -> & Hr)%list_elem_of_fmap. rewrite Forall_forall in Hf. specialize (Hf r Hr).
  unfold key_lt in Hf. congruence.
Qed.

(** Below the first key of sorted entries. *)
Lemma below_first path (es : NamespaceEntries) k v rest : es = (k, v) :: rest -> sorted_recs es -> key_lt path k -> Forall (fun r => key_lt path r.1) es.
Proof.
  intros -> [Hall _]%sorted_recs_cons Hk. constructor; [done|]. eapply Forall_impl; [exact Hall|]. intros r Hr. by transitivity k.
Qed.
(** Which child holds the entries a path could be among. *)
Section pick.
Context (R : Child -> NamespaceEntries -> Prop) (path : Bytes).

Lemma pick_next cs ess : Forall2 (fun c es => R c es /\ first_of c es) cs ess ->
  forall c0 es0, R c0 es0 -> sorted_recs (es0 ++ concat ess) ->
    exists c es, pick path (Some c0) cs = Some c /\ R c es /\ (es = es0 \/ es ∈ ess) /\ alookup path (es0 ++ concat ess) = alookup path es.
Proof.
  induction 1 as [|c es cs ess [Hc (e & rest & Ees & Ek)] H2 IH]; intros c0 es0 Hc0 Hs; cbn [pick concat].
  { exists c0, es0. split; [done|]. split; [done|]. split; [by left|]. by rewrite app_nil_r. }
  pose proof Hs as Hs'. cbn [concat] in Hs'. apply sorted_recs_app in Hs' as (Hlt & Hs0 & Hs1).
  destruct (key_ltb path (ch_first_key c)) eqn:E; cbn [negb].
  - exists c0, es0. split; [done|]. split; [done|]. split; [by left|]. rewrite alookup_app. destruct (alookup path es0) eqn:E0; [done|].
    apply alookup_below. destruct e as [k v]. cbn [fst] in Ek. eapply below_first; [by rewrite Ees|done|]. by rewrite <- Ek.
  - destruct (IH c es Hc Hs1) as (c' & es' & Ep & HR & Hin & Ea).
    exists c', es'. split; [done|]. split; [done|]. split; [right; destruct Hin as [->|Hin]; [by left | by right]|].
    rewrite alookup_app, Ea. replace (alookup path es0) with (@None FsEntry); [done|]. symmetry.
    apply (alookup_above path es0 (ch_first_key c)); [done| |done]. apply Forall_forall. intros r Hr. rewrite Ek. apply Hlt; [done|].
    rewrite Ees. by left.
Qed.
Lemma pick_ok cs ess : Forall2 (fun c es => R c es /\ first_of c es) cs ess -> sorted_recs (concat ess) ->
  match pick path None cs with
  | None => alookup path (concat ess) = None
  | Some c => exists es, R c es /\ es ∈ ess /\ alookup path (concat ess) = alookup path es
  end.
Proof.
  intros H2. induction H2 as [|c es cs ess [Hc (e & rest & Ees & Ek)] H2 IH]; intros Hs; [done|]. cbn [pick concat] in *.
  destruct (key_ltb path (ch_first_key c)) eqn:E; cbn [negb].
  - pose proof Hs as (Hlt & Hs0 & Hs1)%sorted_recs_app. specialize (IH Hs1). destruct e as [k v]. cbn [fst] in Ek.
    assert (Forall (fun r => key_lt path r.1) (es ++ concat ess)) as Hb by (eapply below_first; [by rewrite Ees|done|]; by rewrite <- Ek).
    rewrite alookup_app, (alookup_below path es) by (by apply Forall_app in Hb as [? _]).
    destruct (pick path None cs) as [c'|]; [|done]. destruct IH as (es' & HR & Hin & Ea). exists es'. split; [done|]. split; [by right|done].
  - destruct (pick_next cs ess H2 c es Hc Hs) as (c' & es' & -> & HR & Hin & Ea). exists es'. split; [done|]. split; [|done].
    destruct Hin as [->|Hin]; [by left | by right].
Qed.
End pick.

Lemma lookup_ok h fuel d id es path with_extents : (d + h < fuel)%nat -> path <> [] -> tree_at h d id es -> sorted_recs es ->
  exists got, namespace_tree_lookup s fuel id path with_extents = Ok got /\
    match alookup path es with Some e => looked_up with_extents e got | None => got = None end.
Proof.
  intros Hd Hp. revert d id es Hd. induction fuel as [|fuel IH]; intros d id es Hd; [lia|]. intros Ht Hs. cbn [namespace_tree_lookup].
  destruct d as [|d]; cbn [tree_at] in Ht.
  - destruct Ht as (ts & Hr & Hf & E). rewrite (fetch_ok _ _ _ E). cbn [mbind result_bind].
    unfold leaf_of. pose proof (reads_fixed leaf_magic [] (be_bytes 4 (Z.of_nat (length (zip_with raw_with es ts))) ++ concat (zip_with raw_with es ts))) as Em.
    rewrite !app_nil_l in Em. cbn [length] in Em. rewrite Em. cbn [mbind result_bind]. rewrite magic_test, bool_decide_true by done.
    rewrite (zip_length _ _ _ _ Hr). unfold fits in Hf. rewrite (reads_u32 (Z.of_nat (length es)) ltac:(lia)). cbn [mbind result_bind]. rewrite Nat2Z.id.
    pose proof (lookup_leaf_ok h fuel path with_extents es ts ltac:(lia) Hp Hs Hr (abytes leaf_magic ++ be_bytes 4 (Z.of_nat (length es))) []) as Hl.
    by rewrite app_nil_r, <- app_assoc in Hl.
  - destruct Ht as (cs & ess & E & _ & Hc & Hf & H2 & ->). rewrite (fetch_ok _ _ _ E), spine_bytes_eq by done. cbn [mbind result_bind].
    pose proof (reads_fixed branch_magic [] (written (branch_rest true (level_of (Datatypes.S d)) cs))) as Em.
    rewrite !app_nil_l in Em. cbn [length] in Em. rewrite Em. cbn [mbind result_bind]. rewrite !magic_test.
    rewrite bool_decide_false by (vm_compute; done). rewrite bool_decide_true by done.
    assert (written (branch_rest true (level_of (Datatypes.S d)) cs) =
      be_bytes 1 (level_of (Datatypes.S d)) ++ be_bytes 4 (Z.of_nat (length cs)) ++ concat ((fun c => written (write_child true c)) <$> cs)) as ->.
    { apply writes_written. unfold branch_rest. eapply writes_seq; [apply writes_u8|]. eapply writes_seq; [apply writes_u32|].
      rewrite <- flat_map_concat_map. apply writes_each. eapply Forall_impl; [exact Hc|]. intros c Hc'. by eapply carries_written, carries_child. }
    unfold mbind at 2 3, Reader.prog_bind at 1 2. pose proof (reads_u8 _ (level_range (Datatypes.S d)) (abytes branch_magic)) as E8. rewrite E8.
    unfold fits in Hf. pose proof (reads_u32 (Z.of_nat (length cs)) ltac:(lia) (abytes branch_magic ++ be_bytes 1 (level_of (Datatypes.S d))) (concat ((fun c => written (write_child true c)) <$> cs))) as E32.
    rewrite <- !app_assoc in E32. rewrite E32. rewrite Nat2Z.id.
    destruct (lookup_branch_ok path cs Hc None ((abytes branch_magic ++ be_bytes 1 (level_of (Datatypes.S d))) ++ be_bytes 4 (Z.of_nat (length cs))) []) as (rd & El).
    rewrite app_nil_r, <- !app_assoc in El. cbn [fmap option_fmap option_map] in El. rewrite El. cbn [mbind result_bind].
    pose proof (pick_ok (fun c es => tree_at h d (ch_id c) es) path cs ess H2 Hs) as Hpick.
    destruct (pick path None cs) as [c|]; cbn [fmap option_fmap option_map]; [|exists None; split; [done|by rewrite Hpick]].
    destruct Hpick as (es & Hce & Hin & ->). apply (IH d); [lia|done|]. apply concat_sorted in Hs. rewrite Forall_forall in Hs. by apply Hs.
Qed.

(** ** The tree a build writes *)

Lemma Forall2_groups {X Y} (R : X -> Y -> Prop) (gs : list (list X)) ys : Forall2 R (concat gs) ys ->
  exists yss, ys = concat yss /\ Forall2 (Forall2 R) gs yss.
Proof.
  revert ys. induction gs as [|g gs IH]; intros ys Hr; cbn in Hr; [exists []; split; [by apply Forall2_nil_inv_l in Hr|constructor]|].
  apply Forall2_app_inv_l in Hr as (y1 & y2 & H1 & H2 & ->). destruct (IH y2 H2) as (yss & -> & Hg). exists (y1 :: yss). split; [done|by constructor].
Qed.
Lemma concat_concat {X} (xsss : list (list (list X))) : concat (concat xsss) = concat (concat (A:=X) <$> xsss).
Proof. induction xsss as [|x xsss IH]; [done|]. rewrite fmap_cons. cbn. by rewrite concat_app, IH. Qed.
Lemma fits_le {X Y} (l : list X) (k : list Y) : fits k -> (length l <= length k)%nat -> fits l.
Proof. unfold fits. lia. Qed.
Lemma group_length {X} (g : list X) gs : g ∈ gs -> (length g <= length (concat gs))%nat.
Proof. intros (l1 & l2 & ->)%list_elem_of_split. rewrite concat_app. cbn. rewrite !length_app. lia. Qed.
Lemma has_app n1 n2 : has_nodes s (n1 ++ n2) -> has_nodes s n1 /\ has_nodes s n2.
Proof. intros Hn. split; intros n Hin; apply Hn, elem_of_app; auto. Qed.

Section tower.
Context {X : Type} (keyed : bool) (target maximum : Z) (P : nat -> Child -> list X -> Prop) (Hmax : 2 <= maximum).
Hypothesis P_spine : forall d run xss, run <> [] -> Forall child_ok run -> fits run -> Forall2 (P d) run xss ->
  ns_get s (object_id (spine_bytes keyed (Datatypes.S d) run)) = Some (spine_bytes keyed (Datatypes.S d) run) -> P (Datatypes.S d) (spine_child keyed (Datatypes.S d) run) (concat xss).

Lemma level_holds d cs xss : Forall child_ok cs -> fits cs -> Forall2 (P d) cs xss -> has_nodes s (level_nodes keyed target maximum (Datatypes.S d) cs) ->
  exists xss', Forall2 (P (Datatypes.S d)) (up keyed target maximum (Datatypes.S d) cs) xss' /\ concat xss' = concat xss.
Proof.
  intros Hc Hf H2 Hn. pose proof (groups_concat keyed target maximum (Datatypes.S d) cs) as Eg. rewrite <- Eg in H2.
  apply Forall2_groups in H2 as (xsss & -> & H2). exists (concat (A:=X) <$> xsss). split; [|symmetry; apply concat_concat].
  assert (forall g, g ∈ groups keyed target maximum (Datatypes.S d) cs -> ns_get s (object_id (spine_bytes keyed (Datatypes.S d) g)) = Some (spine_bytes keyed (Datatypes.S d) g)) as Hg.
  { intros g Hg. apply Hn. unfold level_nodes, groups in *. apply elem_of_app. destruct (degenerate keyed target maximum (Datatypes.S d) cs);
      [right | left]; apply list_elem_of_fmap; eauto. }
  pose proof (spine_groups_ok keyed target maximum (Datatypes.S d) cs Hc) as Hok. pose proof (groups_nonempty keyed target maximum (Datatypes.S d) cs) as Hne.
  assert (forall g, g ∈ groups keyed target maximum (Datatypes.S d) cs -> fits g) as Hfg.
  { intros g Hin. apply (fits_le g cs Hf). rewrite <- Eg. by apply group_length. }
  unfold up. rewrite Forall_forall in Hok. rewrite Forall_forall in Hne. clear Eg Hn Hf. revert Hg Hok Hne Hfg. generalize (groups keyed target maximum (Datatypes.S d) cs), H2.
  intros gs H2'. clear H2. induction H2' as [|g xss gs xsss Hgx _ IH]; intros Hg Hok Hne Hfg; [constructor|]. rewrite !fmap_cons. constructor.
  - apply P_spine; try done; [apply Hne|apply Hok|apply Hfg|apply Hg]; by left.
  - apply IH; intros; [apply Hg|apply Hok|apply Hne|apply Hfg]; by right.
Qed.
Lemma tower_holds fuel d cs xss : Forall child_ok cs -> fits cs -> cs <> [] -> (length cs <= fuel)%nat -> Forall2 (P d) cs xss ->
  has_nodes s (tower_nodes keyed target maximum fuel d cs) ->
  exists d' c, (d' < d + fuel)%nat /\ ch_id c = top keyed target maximum fuel d cs /\ P d' c (concat xss).
Proof.
  revert d cs xss. induction fuel as [|fuel IH]; intros d cs xss Hc Hf Hne Hl H2 Hn; (destruct cs as [|c [|c' cs]]; [done| |]); try (cbn in Hl; lia).
  - apply Forall2_cons_inv_l in H2 as (xs & xss' & HP & Hnil & ->). apply Forall2_nil_inv_l in Hnil as ->.
    exists d, c. split; [lia|]. split; [done|]. cbn. by rewrite app_nil_r.
  - cbn [tower_nodes top] in *. apply has_app in Hn as [Hn1 Hn2].
    destruct (level_holds d _ _ Hc Hf H2 Hn1) as (xss' & H2' & <-).
    pose proof (up_shorter keyed target maximum (Datatypes.S d) (c :: c' :: cs) Hmax ltac:(cbn; lia)) as Hu.
    destruct (IH (Datatypes.S d) _ xss' (up_ok keyed target maximum (Datatypes.S d) _ Hc)) as (d' & c'' & Hd & Ec & HP); [| | |done|done|].
    + by apply (fits_le _ (c :: c' :: cs)); [|lia].
    + by intros ?%up_nil.
    + cbn [length] in *. lia.
    + exists d', c''. split; [lia|]. split; [done|]. done.
Qed.
End tower.

Context (limits : NamespaceTreeLimits) (Hlim : limits_ok limits).

Lemma extents_built xs : xs <> [] -> Forall extent_ok xs -> fits xs -> has_nodes s (extent_nodes limits xs) ->
  exists d, (d <= length xs)%nat /\ extents_at d (extent_root limits xs) xs.
Proof.
  intros Hne Hx Hf Hn. unfold extent_nodes in Hn. apply has_app in Hn as [Hn1 Hn2].
  pose proof (concat_cuts (ends_extents limits) (extent_max_fanout limits) xs) as Eg. fold (extent_groups limits xs) in Eg.
  assert (forall g, g ∈ extent_groups limits xs -> Forall extent_ok g /\ fits g) as Hg.
  { intros g Hin. split.
    - apply Forall_forall. intros x Hxg. rewrite Forall_forall in Hx. apply Hx. rewrite <- Eg. apply in_concat_of. eauto.
    - apply (fits_le g xs Hf). rewrite <- Eg. by apply group_length. }
  destruct (tower_holds false (extent_target_fanout limits) (extent_max_fanout limits) (fun d c xs => extents_at d (ch_id c) xs) (lo_extent _ Hlim))
    with (fuel := length (extent_chunks limits xs)) (d := O) (cs := extent_chunks limits xs) (xss := extent_groups limits xs)
    as (d' & c & Hd & Ec & HP).
  - intros d run xss _ Hc Hfr H2 E. exists (Datatypes.S d), run, xss. done.
  - apply Forall_fmap, Forall_forall. intros g Hin. destruct (Hg g Hin) as [_ Hfg]. unfold fits in Hfg.
    split; cbn; [split; unfold path_limit, u32_max; cbn; lia|]. unfold u64_ok. lia.
  - apply (fits_le _ xs Hf). unfold extent_chunks. rewrite length_fmap. apply cuts_length.
  - unfold extent_chunks, extent_groups. by intros ?%fmap_nil_inv%cuts_nil.
  - done.
  - unfold extent_chunks. assert (forall g, g ∈ extent_groups limits xs -> extents_at 0 (ch_id (extent_chunk g)) g) as Hch.
    { intros g Hin. cbn. split; [|by apply Hg]. apply Hn1, list_elem_of_fmap. eauto. }
    clear -Hch. induction (extent_groups limits xs) as [|g gs IH]; [constructor|]. rewrite fmap_cons. constructor; [apply Hch; by left|].
    apply IH. intros g' Hin. apply Hch. by right.
  - done.
  - exists d'. rewrite Ec, Eg in HP. split; [|done]. pose proof (cuts_length (ends_extents limits) (extent_max_fanout limits) xs).
    unfold extent_chunks in Hd. rewrite length_fmap in Hd. unfold extent_groups in Hd. cbn in Hd. lia.
Qed.

(** A bound on the height of the extent sequences of entries. *)
Definition height (es : NamespaceEntries) : nat := foldr (fun e h => Nat.max (Datatypes.S (length (fe_extents e.2))) h) O es.
Lemma height_elem e es : e ∈ es -> (length (fe_extents e.2) < height es)%nat.
Proof.
  induction es as [|e' es IH]; intros Hin; [by apply not_elem_of_nil in Hin|]. unfold height in *. cbn [foldr].
  apply elem_of_cons in Hin as [->|Hin]; [lia|]. specialize (IH Hin). lia.
Qed.

Lemma table_built h xs e : xs = fe_extents e -> entry_ok e -> has_nodes s (table_nodes limits xs) -> (length xs < h)%nat -> table_at h (table_of limits xs) xs.
Proof.
  intros -> He Hn Hh. split; [by apply table_of_ok|]. pose proof He as (_ & _ & _ & _ & _ & _ & _ & _ & Hl & Hx).
  unfold table_of, table_nodes in *. destruct (fe_extents e) as [|x xs] eqn:E; [done|]. destruct (external limits (x :: xs)); [|done].
  destruct (extents_built (x :: xs)) as (d & Hd & Hd'); [done|done|unfold fits; lia|done|]. exists d. split; [lia|done].
Qed.
Lemma leaf_built h es : Forall (fun e => string_ok path_limit e.1 /\ entry_ok e.2) es -> fits es -> (height es <= h)%nat ->
  has_nodes s (leaf_nodes limits (entry_record <$> es)) -> leaf_at h (ch_id (leaf_child limits (entry_record <$> es))) es.
Proof.
  intros He Hf Hh Hn. apply has_app in Hn as [Hn1 Hn2]. exists ((fun e => table_of limits (fe_extents e.2)) <$> es). split; [|split; [done|]].
  - assert (forall e, e ∈ es -> record_at h e (table_of limits (fe_extents e.2))) as Hr.
    { intros e Hin. rewrite Forall_forall in He. destruct (He e Hin) as [Hp Hok]. split; [done|]. split; [done|].
      apply (table_built h _ e.2 eq_refl Hok); [|pose proof (height_elem e es Hin); lia].
      intros n Hin'. apply Hn1, in_concat_of. exists (table_nodes limits (fe_extents e.2)). split; [done|].
      rewrite <- list_fmap_compose. apply list_elem_of_fmap. exists e. by split. }
    clear -Hr. induction es as [|e es IH]; [constructor|]. rewrite fmap_cons. constructor; [apply Hr; by left|]. apply IH. intros e' Hin. apply Hr. by right.
  - unfold leaf_child. cbn [ch_id]. rewrite Hn2 by (by left). unfold leaf_bytes. do 2 f_equal. clear. induction es as [|e es IH]; [done|]. rewrite !fmap_cons. cbn. by f_equal.
Qed.

Lemma cuts_fmap {X Y} (f : X -> Y) (ends : Y -> bool) maximum (l : list X) :
  cuts ends maximum (f <$> l) = fmap (M := list) f <$> cuts (fun x => ends (f x)) maximum l.
Proof.
  assert (forall l run, cut_closed ends maximum (f <$> run) (f <$> l) = fmap (M := list) f <$> cut_closed (fun x => ends (f x)) maximum run l /\
    cut_tail ends maximum (f <$> run) (f <$> l) = f <$> cut_tail (fun x => ends (f x)) maximum run l) as Hg.
  { clear l. induction l as [|x l IH]; intros run; [done|]. rewrite fmap_cons. cbn [cut_closed cut_tail].
    assert ((f <$> run) ++ [f x] = f <$> (run ++ [x])) as Ea by (by rewrite fmap_app).
    assert (closes ends maximum (f <$> run) (f x) = closes (fun x => ends (f x)) maximum run x) as ->.
    { unfold closes. by rewrite Ea, length_fmap. }
    rewrite Ea. destruct (closes (fun x => ends (f x)) maximum run x); [|apply IH]. rewrite fmap_cons. destruct (IH []) as [E1 E2].
    change (f <$> []) with (@nil Y) in E1, E2. by rewrite E1. }
  destruct (Hg l []) as [E1 E2]. unfold cuts. rewrite fmap_app. cbn [fmap list_fmap] in E1, E2. rewrite E1, E2.
  by destruct (cut_tail (fun x => ends (f x)) maximum [] l).
Qed.

Definition entry_groups (es : NamespaceEntries) : list NamespaceEntries :=
  cuts (fun e => ends_a_leaf limits e.1) (entry_max_fanout limits) es.

(** The tree over entries, where its nodes are. *)
Lemma tree_built es : entries_ok es -> has_nodes s (tree_nodes limits es) ->
  exists d, (d <= length es)%nat /\ tree_at (height es) d (tree_root limits es) es.
Proof.
  intros (Hs & He & Hl) Hn. unfold tree_nodes, tree_root, records_nodes, records_root in *. destruct es as [|e es'] eqn:Ees.
  { exists O. split; [done|]. exists []. split; [constructor|]. split; [unfold fits; cbn; lia|]. apply Hn. by left. }
  rewrite <- Ees in *. destruct (entry_record <$> es) as [|r rs'] eqn:Ers; [by rewrite Ees in Ers|]. rewrite <- Ers in *. clear r rs' Ers.
  apply has_app in Hn as [Hn1 Hn2].
  pose proof (concat_cuts (fun e => ends_a_leaf limits e.1) (entry_max_fanout limits) es) as Eg. fold (entry_groups es) in Eg.
  assert (leaf_groups limits (entry_record <$> es) = fmap (M := list) entry_record <$> entry_groups es) as Elg by apply (cuts_fmap entry_record (fun r => ends_a_leaf limits (lr_key r))).
  assert (forall g, g ∈ entry_groups es -> Forall (fun e => string_ok path_limit e.1 /\ entry_ok e.2) g /\ fits g /\ (height g <= height es)%nat) as Hg.
  { intros g Hin. split; [|split].
    - apply Forall_forall. intros x Hxg. rewrite Forall_forall in He. apply He. rewrite <- Eg. apply in_concat_of. eauto.
    - apply (fits_le g es Hl). rewrite <- Eg. by apply group_length.
    - rewrite <- Eg. apply list_elem_of_split in Hin as (l1 & l2 & ->). clear. rewrite concat_app. cbn [concat]. unfold height. rewrite !foldr_app.
      generalize (foldr (fun (e : Bytes * FsEntry) (h : nat) => Nat.max (Datatypes.S (length (fe_extents e.2))) h) 0%nat (concat l2)). intros n.
      induction (concat l1) as [|x l IH]; cbn; [|lia]. induction g as [|x g IH]; cbn; lia. }
  destruct (tower_holds true (branch_target_fanout limits) (branch_max_fanout limits) (fun d c es' => tree_at (height es) d (ch_id c) es' /\ first_of c es') (lo_branch _ Hlim))
    with (fuel := length (leaves_of limits (entry_record <$> es))) (d := O) (cs := leaves_of limits (entry_record <$> es)) (xss := entry_groups es)
    as (d' & c & Hd & Ec & HP & _).
  - intros d run xss Hne Hc Hfr H2 E. split; [by exists run, xss|].
    destruct run as [|c run]; [done|]. apply Forall2_cons_inv_l in H2 as (es0 & ess & (_ & e0 & rest & -> & Ek) & _ & ->).
    exists e0, (rest ++ concat ess). done.
  - apply leaves_ok; [apply entry_records_ok; by split_and!|]. rewrite length_fmap. lia.
  - apply (fits_le _ es Hl). unfold leaves_of. rewrite length_fmap, Elg, length_fmap. apply cuts_length.
  - unfold leaves_of, leaf_groups. intros E%fmap_nil_inv%cuts_nil%fmap_nil_inv. by rewrite Ees in E.
  - done.
  - unfold leaves_of. rewrite Elg. rewrite Elg in Hn1.
    assert (forall g, g ∈ entry_groups es -> tree_at (height es) 0 (ch_id (leaf_child limits (entry_record <$> g))) g /\ first_of (leaf_child limits (entry_record <$> g)) g) as Hch.
    { intros g Hin. destruct (Hg g Hin) as (Hge & Hgf & Hgh). split.
      - apply leaf_built; [done|done|done|]. intros n Hnn. apply Hn1, in_concat_of. exists (leaf_nodes limits (entry_record <$> g)). split; [done|].
        apply list_elem_of_fmap. exists (entry_record <$> g). split; [done|]. apply list_elem_of_fmap. eauto.
      - pose proof (cuts_nonempty (fun e => ends_a_leaf limits e.1) (entry_max_fanout limits) es) as Hne. rewrite Forall_forall in Hne. specialize (Hne g Hin).
        destruct g as [|e0 g]; [done|]. by exists e0, g. }
    clear -Hch. induction (entry_groups es) as [|g gs IH]; [constructor|]. rewrite !fmap_cons. constructor; [apply Hch; by left|].
    apply IH. intros g' Hin. apply Hch. by right.
  - done.
  - exists d'. rewrite Ec, Eg in HP. split; [|done]. pose proof (cuts_length (fun e => ends_a_leaf limits e.1) (entry_max_fanout limits) es).
    unfold leaves_of in Hd. rewrite length_fmap, Elg, length_fmap in Hd. unfold entry_groups in Hd. cbn in Hd. lia.
Qed.

(** ** Parts of a tree *)

Definition keys_in (P : Bytes -> bool) (es : NamespaceEntries) : NamespaceEntries := List.filter (fun e => P e.1) es.
Lemma keys_in_cons P e es : keys_in P (e :: es) = if P e.1 then e :: keys_in P es else keys_in P es.
Proof. done. Qed.
Lemma keys_in_app P l1 l2 : keys_in P (l1 ++ l2) = keys_in P l1 ++ keys_in P l2.
Proof. apply List.filter_app. Qed.
Lemma keys_in_none P es : Forall (fun e => P e.1 = false) es -> keys_in P es = [].
Proof. induction 1 as [|e es E _ IH]; [done|]. by rewrite keys_in_cons, E. Qed.
Lemma keys_in_all P es : Forall (fun e => P e.1 = true) es -> keys_in P es = es.
Proof. induction 1 as [|e es E _ IH]; [done|]. by rewrite keys_in_cons, E, IH. Qed.

Definition with_prefix (prefix : Bytes) : NamespaceEntries -> NamespaceEntries := keys_in (starts_with prefix).
Definition is_after (after : option Bytes) (k : Bytes) : bool := match after with Some a => key_ltb a k | None => true end.
Definition entries_after (after : option Bytes) : NamespaceEntries -> NamespaceEntries := keys_in (is_after after).

Lemma entries_with_prefix_app prefix l1 l2 : with_prefix prefix (l1 ++ l2) = with_prefix prefix l1 ++ with_prefix prefix l2.
Proof. apply keys_in_app. Qed.
Lemma entries_after_app after l1 l2 : entries_after after (l1 ++ l2) = entries_after after l1 ++ entries_after after l2.
Proof. apply keys_in_app. Qed.
(** Nothing before a prefix, or from its upper bound on, starts with it. *)
Lemma with_prefix_before prefix es k : Forall (fun e => key_lt e.1 k) es -> key_ltb prefix k = false -> with_prefix prefix es = [].
Proof.
  intros Hf Hk. apply keys_in_none. eapply Forall_impl; [exact Hf|]. intros e He. apply not_true_is_false. intros (r & Er)%starts_with_app.
  assert (key_ltb e.1 prefix = false) as Hle by (rewrite Er; apply prefix_le).
  destruct (key_trichotomy k prefix) as [Hlt|[->|Hlt]].
  - assert (key_lt e.1 prefix) as E by (by transitivity k). unfold key_lt in E. congruence.
  - unfold key_lt in He. congruence.
  - unfold key_lt in Hlt. congruence.
Qed.
Lemma with_prefix_beyond prefix es : prefix_upper_bound prefix <> [] -> Forall (fun e => key_ltb e.1 (prefix_upper_bound prefix) = false) es ->
  with_prefix prefix es = [].
Proof.
  intros Hne Hf. apply keys_in_none. eapply Forall_impl; [exact Hf|]. intros e He. apply not_true_is_false. intros Hs. apply prefix_upper in Hs; [|done].
  change (bytes_ltb e.1 (prefix_upper_bound prefix)) with (key_ltb e.1 (prefix_upper_bound prefix)) in Hs. congruence.
Qed.
Lemma entries_after_before k es k' : Forall (fun e => key_lt e.1 k') es -> key_ltb k k' = false -> entries_after (Some k) es = [].
Proof.
  intros Hf Hk. apply keys_in_none. eapply Forall_impl; [exact Hf|]. intros e He. apply not_true_is_false. intros Hlt. assert (key_lt k k') as E by (by transitivity e.1).
  unfold key_lt in E. congruence.
Qed.

Section parts.
Context {A : Type}.

Lemma visits_filter (P : Bytes -> bool) (visit : Bytes * FsEntry -> ST A unit) items es st :
  Forall2 (fun item e => item.1 = e.1 /\ (P e.1 = true -> item = e)) items es ->
  visits (fun item => if P item.1 then visit item else mret tt) items st = visits visit (keys_in P es) st.
Proof.
  intros H2. revert st. induction H2 as [|item e items es [Ek Ee] _ IH]; intros st; [done|].
  rewrite visits_cons, keys_in_cons, Ek.
  destruct (P e.1) eqn:E.
  - rewrite (Ee eq_refl), visits_cons. unfold mbind, st_bind. destruct (visit e st) as [[[]|x] st']; [|done]. apply IH.
  - apply IH.
Qed.

Lemma next_first (P : Child -> NamespaceEntries -> Prop) c es cs ess d rest : Forall2 (fun c es => P c es /\ first_of c es) cs ess -> cs = d :: rest ->
  sorted_recs (es ++ concat ess) -> first_of c es -> Forall (fun e => key_lt e.1 (ch_first_key d)) es.
Proof.
  intros H2 -> (Hlt & _ & _)%sorted_recs_app _. apply Forall2_cons_inv_l in H2 as (es' & ess' & (_ & e & r & -> & ->) & _ & ->).
  apply Forall_forall. intros x Hx. apply Hlt; [done|]. cbn. by left.
Qed.
Lemma from_first c es rest k : first_of c es -> sorted_recs (es ++ rest) -> key_ltb (ch_first_key c) k = false ->
  Forall (fun e => key_ltb e.1 k = false) (es ++ rest).
Proof.
  intros ([k0 v] & r & -> & Ek) Hs Hk. rewrite <- app_comm_cons in *. apply sorted_recs_cons in Hs as [Hall _]. cbn [fst] in Ek. rewrite Ek in Hk.
  constructor; [done|]. eapply Forall_impl; [exact Hall|]. intros e He. cbn in He. apply not_true_is_false. intros E.
  assert (key_lt k0 k) as E' by (by transitivity e.1). unfold key_lt in E'. congruence.
Qed.

Lemma walk_prefix_ok (visit : Bytes * FsEntry -> ST A unit) h fuel d id es prefix st :
  (d + h < fuel)%nat -> tree_at h d id es -> sorted_recs es ->
  walk_subtree_prefix s fuel id prefix (prefix_upper_bound prefix) visit st = visits visit (with_prefix prefix es) st.
Proof.
  revert d id es st. induction fuel as [|fuel IH]; intros d id es st Hd; [lia|]. intros Ht Hs. cbn [walk_subtree_prefix].
  unfold mbind, st_bind at 1, st_lift at 1. destruct d as [|d]; cbn [tree_at] in Ht.
  - destruct Ht as (ts & Hr & Hf & E). rewrite (fetch_ok _ _ _ E). unfold mbind, st_bind at 1, st_lift.
    assert (fits (zip_with raw_with es ts)) as Hf' by (unfold fits; by rewrite (zip_length _ _ _ _ Hr)).
    rewrite (open_leaf _ Hf'). rewrite Nat2Z.id.
    etransitivity; [apply (leaf_visited _ _
      (zip_with (fun e t => (e.1, set_extents (if starts_with prefix e.1 then fe_extents e.2 else inline_extents t) e.2)) es ts))|].
    + clear -Hr Hd Hlim. induction Hr as [|e t es ts Hr _ IH]; cbn [zip_with]; constructor; [|done]. apply (reads_entry h); [lia|done].
    + apply (visits_filter (starts_with prefix)). clear -Hr. induction Hr as [|[k e] t es ts Hr _ IH]; cbn [zip_with]; constructor; [|done].
      split; [done|]. intros E. cbn in E |- *. rewrite E. by rewrite set_extents_same.
  - destruct Ht as (cs & ess & E & _ & Hc & Hf & H2 & ->). rewrite (fetch_ok _ _ _ E). unfold mbind, st_bind at 1, st_lift.
    destruct (open_branch (Datatypes.S d) cs Hc Hf) as (rd & ->). clear E Hc Hf. revert st. induction H2 as [|c es cs ess [Hce Hfo] H2 IH2]; intros st; [done|].
    cbn [walk_children_prefix concat] in *. pose proof Hs as (Hlt & Hs1 & Hs2)%sorted_recs_app.
    destruct (match cs with [] => false | d0 :: _ => negb (key_ltb prefix (ch_first_key d0)) end) eqn:Eskip.
    + rewrite entries_with_prefix_app. destruct cs as [|d0 cs']; [done|]. apply negb_true_iff in Eskip.
      rewrite (with_prefix_before prefix es (ch_first_key d0)); [by apply IH2| |done]. eapply next_first; [exact H2|done|exact Hs|exact Hfo].
    + destruct (negb (bool_decide (prefix_upper_bound prefix = [])) && negb (key_ltb (ch_first_key c) (prefix_upper_bound prefix))) eqn:Eend.
      * apply andb_true_iff in Eend as [E1%negb_true_iff E2%negb_true_iff]. apply bool_decide_eq_false in E1.
        by rewrite with_prefix_beyond by (done || exact (from_first _ _ _ _ Hfo Hs E2)).
      * rewrite entries_with_prefix_app, visits_app. unfold mbind, st_bind. rewrite (IH d _ es) by (done || lia).
        destruct (visits visit (with_prefix prefix es) st) as [[[]|x] st']; [|done]. by apply IH2.
Qed.

Lemma take_leaf_ok decode after (take : Bytes * FsEntry -> ST A bool) items raws : Forall2 (fun item raw => reads decode raw item) items raws ->
  forall pre st, take_leaf (length raws) decode after take (Reader.mk (pre ++ concat raws) (length pre)) st = takes take (entries_after after items) st.
Proof.
  induction 1 as [|item raw items raws Hr _ IH]; intros pre st; cbn [length take_leaf concat].
  { rewrite app_nil_r. cbn. unfold mbind, st_bind. by rewrite finish_leaf_ok. }
  unfold mbind, st_bind at 1, st_lift. rewrite Hr. unfold entries_after in *. rewrite keys_in_cons.
  assert ((match after with Some k => negb (key_ltb k item.1) | None => false end) = negb (is_after after item.1)) as -> by (by destruct after).
  specialize (IH (pre ++ raw)). rewrite <- app_assoc in IH.
  destruct (is_after after item.1); cbn [negb].
  - cbn [takes]. unfold mbind, st_bind. destruct (take item st) as [[[]|x] st']; [|done|done]. apply IH.
  - apply IH.
Qed.
Lemma walk_after_ok (take : Bytes * FsEntry -> ST A bool) h fuel d id es after st :
  (d + h < fuel)%nat -> tree_at h d id es -> sorted_recs es ->
  walk_subtree_after s fuel id after take st = takes take (entries_after after es) st.
Proof.
  revert d id es st. induction fuel as [|fuel IH]; intros d id es st Hd; [lia|]. intros Ht Hs. cbn [walk_subtree_after].
  unfold mbind, st_bind at 1, st_lift at 1. destruct d as [|d]; cbn [tree_at] in Ht.
  - destruct Ht as (ts & Hr & Hf & E). rewrite (fetch_ok _ _ _ E). unfold mbind, st_bind at 1, st_lift.
    assert (fits (zip_with raw_with es ts)) as Hf' by (unfold fits; by rewrite (zip_length _ _ _ _ Hr)).
    rewrite (open_leaf _ Hf'). rewrite Nat2Z.id. apply take_leaf_ok.
    apply (Forall2_zip _ _ _ _ _ Hr). intros e t He. apply (reads_whole_entry h); [lia|done].
  - destruct Ht as (cs & ess & E & _ & Hc & Hf & H2 & ->). rewrite (fetch_ok _ _ _ E). unfold mbind, st_bind at 1, st_lift.
    destruct (open_branch (Datatypes.S d) cs Hc Hf) as (rd & ->). clear E Hc Hf. revert st. induction H2 as [|c es cs ess [Hce Hfo] H2 IH2]; intros st; [done|].
    cbn [walk_children_after concat] in *. pose proof Hs as (Hlt & Hs1 & Hs2)%sorted_recs_app. rewrite entries_after_app.
    destruct (match after, cs with Some k, d0 :: _ => negb (key_ltb k (ch_first_key d0)) | _, _ => false end) eqn:Eskip.
    + destruct after as [k|]; [|done]. destruct cs as [|d0 cs']; [done|]. apply negb_true_iff in Eskip.
      rewrite (entries_after_before k es (ch_first_key d0)); [by apply IH2| |done]. eapply next_first; [exact H2|done|exact Hs|exact Hfo].
    + rewrite takes_app. unfold mbind, st_bind. rewrite (IH d _ es) by (done || lia).
      destruct (takes take (entries_after after es) st) as [[[]|x] st']; [done| |done]. by apply IH2.
Qed.
End parts.
End nodes.
