(* ===== verification/NamespaceViewProofs.v ===== *)
(** * A namespace in its two forms

    The readers of [NamespaceView] over the map of entries and over a tree of
    them: prefixes, pages and scans as parts of the sorted entries. *)

From S2P Require Import Prelude Sorts Maps Orders Codec TorrentRequest Journal Paths Metadata MetadataCodec MetadataRoundtrip MetadataDelta NamespaceTree NamespaceView NamespaceNodes NamespaceReads.

(** ** Bounds of a sorted map *)

Section bounds.
Context {V : Type}.
Implicit Types m : list (Bytes * V).

Lemma not_before (a b c : Bytes) : key_ltb a b = false -> key_lt a c -> key_ltb c b = false.
Proof.
  intros Hab Hac. apply not_true_is_false. intros E. assert (key_lt a b) as E' by (by transitivity c). unfold key_lt in E'. congruence.
Qed.
Lemma lower_bound_all k m : sorted_recs m -> lower_bound k m = List.filter (fun e => negb (key_ltb e.1 k)) m.
Proof.
  induction m as [|e m IH]; intros Hs; [done|]. destruct e as [k0 v]. apply sorted_recs_cons in Hs as [Hall Hs]. cbn [lower_bound List.filter fst].
  destruct (key_ltb k0 k) eqn:E; cbn [negb]; [by apply IH|]. f_equal. symmetry. clear IH Hs. induction Hall as [|[k1 v1] m Hlt _ IH]; [done|]. cbn [List.filter fst].
  cbn in Hlt. rewrite (not_before k0 k k1 E Hlt). cbn [negb]. by rewrite IH.
Qed.
Lemma upper_bound_all k m : sorted_recs m -> upper_bound k m = List.filter (fun e => key_ltb k e.1) m.
Proof.
  induction m as [|e m IH]; intros Hs; [done|]. destruct e as [k0 v]. apply sorted_recs_cons in Hs as [Hall Hs]. cbn [upper_bound List.filter fst].
  destruct (key_ltb k k0) eqn:E; [|by apply IH]. f_equal. symmetry. clear IH Hs. induction Hall as [|[k1 v1] m Hlt _ IH]; [done|]. cbn [List.filter fst].
  cbn in Hlt. assert (key_lt k k1) as Hk by (by transitivity k0). unfold key_lt in Hk. by rewrite Hk, IH.
Qed.
End bounds.

(** ** Prefixes and pages of a map *)

Section map_form.
Context {A : Type}.

Lemma visit_prefix_from prefix (visit : Bytes * FsEntry -> ST A unit) m st : sorted_recs m -> Forall (fun e => key_ltb e.1 prefix = false) m ->
  visit_prefix prefix visit m st = visits visit (with_prefix prefix m) st.
Proof.
  intros Hs Hf. revert st. induction m as [|[k v] m IH]; intros st; [done|]. pose proof Hs as [Hall Hs']%sorted_recs_cons. apply Forall_cons in Hf as [Hk Hf].
  cbn [visit_prefix]. unfold with_prefix. rewrite keys_in_cons. destruct (starts_with prefix k) eqn:E; cbn [fst]; rewrite E.
  - rewrite visits_cons. unfold mbind, st_bind. destruct (visit (k, v) st) as [[[]|x] st']; [|done]. by apply IH.
  - rewrite keys_in_none; [done|]. apply Forall_forall. intros [k1 v1] Hin. cbn [fst]. apply not_true_is_false. intros (r & Er)%starts_with_app.
    rewrite Forall_forall in Hall. specialize (Hall _ Hin). cbn in Hall, Hk. rewrite Er in Hall.
    pose proof (starts_between prefix k r Hk Hall). congruence.
Qed.
Lemma visit_prefix_ok prefix (visit : Bytes * FsEntry -> ST A unit) m st : sorted_recs m ->
  visit_prefix prefix visit (lower_bound prefix m) st = visits visit (with_prefix prefix m) st.
Proof.
  induction m as [|[k v] m IH]; intros Hs; [done|]. pose proof Hs as [Hall Hs']%sorted_recs_cons. cbn [lower_bound fst].
  destruct (key_ltb k prefix) eqn:E.
  - rewrite IH by done. unfold with_prefix. rewrite keys_in_cons. cbn [fst]. destruct (starts_with prefix k) eqn:Ew; [|done].
    apply starts_with_app in Ew as (r & ->). pose proof (prefix_le prefix r). change (bytes_ltb (prefix ++ r) prefix) with (key_ltb (prefix ++ r) prefix) in *. congruence.
  - apply visit_prefix_from; [done|]. constructor; [done|]. eapply Forall_impl; [exact Hall|]. intros e He. by apply (not_before k).
Qed.
End map_form.

Lemma take_entries_takes m st : take_entries_of m st = takes take_item m st.
Proof.
  revert st. induction m as [|e m IH]; intros st; [done|]. cbn [take_entries_of takes]. unfold mbind, st_bind.
  destruct (take_item e st) as [[[]|x] st']; [|done|done]. apply IH.
Qed.
Lemma after_cursor (m : NamespaceEntries) after : sorted_recs m -> (match after with Some k => upper_bound k m | None => m end) = entries_after after m.
Proof.
  intros Hs. destruct after as [k|]; [by apply upper_bound_all|]. symmetry. apply keys_in_all. by apply Forall_forall.
Qed.
