(* ===== verification/NamespaceScan.v ===== *)
(** * Scans of a namespace

    [scan_namespace] over the map and over a tree. [scan_from] is what both
    do, by recursion on the entries: a seek passes over what lies before its
    target. *)

From S2P Require Import Prelude Sorts Maps Orders Codec TorrentRequest Journal Paths Metadata MetadataCodec MetadataRoundtrip MetadataDelta NamespaceTree NamespaceView NamespaceNodes NamespaceReads NamespaceViewProofs.

Section reference.
Context {A : Type} (visit : Bytes * FsEntry -> ST A ScanStep).
Implicit Types m : NamespaceEntries.

Definition before (skip : option Bytes) (k : Bytes) : bool := match skip with Some to => key_ltb k to | None => false end.
Fixpoint scan_from (skip : option Bytes) m : ST A unit :=
  match m with
  | [] => mret tt
  | e :: rest =>
      if before skip e.1 then scan_from skip rest
      else
        step ← visit e;
        match step with
        | scan_stop => mret tt
        | scan_next => scan_from None rest
        | scan_seek to =>
            if key_ltb e.1 to then scan_from (Some to) rest else st_throw (LogicError "namespace scan sought backwards")
        end
  end.

Lemma scan_from_past skip m st : Forall (fun e => before skip e.1 = false) m -> scan_from skip m st = scan_from None m st.
Proof. intros Hf. destruct m as [|e m]; [done|]. apply Forall_cons in Hf as [E _]. cbn [scan_from]. by rewrite E. Qed.
Lemma scan_from_before skip m1 m2 st : Forall (fun e => before skip e.1 = true) m1 -> scan_from skip (m1 ++ m2) st = scan_from skip m2 st.
Proof. induction 1 as [|e m1 E _ IH]; [done|]. cbn [app scan_from]. by rewrite E. Qed.

Lemma lower_bound_split to m : exists m1, m = m1 ++ lower_bound to m /\ Forall (fun e => key_ltb e.1 to = true) m1.
Proof.
  induction m as [|e m (m1 & E & Hf)]; [by exists []|]. cbn [lower_bound]. destruct (key_ltb e.1 to) eqn:Ek.
  - exists (e :: m1). split; [by rewrite <- app_comm_cons, <- E|by constructor].
  - by exists [].
Qed.
Lemma lower_bound_from to m : sorted_recs m -> Forall (fun e => key_ltb e.1 to = false) (lower_bound to m).
Proof.
  intros Hs. rewrite lower_bound_all by done. apply Forall_forall. intros e [_ He]%list_elem_of_In%filter_In. by apply negb_true_iff.
Qed.
Lemma scan_from_bound to m st : sorted_recs m -> scan_from (Some to) m st = scan_from None (lower_bound to m) st.
Proof.
  intros Hs. destruct (lower_bound_split to m) as (m1 & E & Hf). rewrite E at 1. rewrite scan_from_before by done.
  apply scan_from_past. by apply lower_bound_from.
Qed.
Lemma lower_bound_skip to m1 m2 : Forall (fun e : Bytes * FsEntry => key_ltb e.1 to = true) m1 -> lower_bound to (m1 ++ m2) = lower_bound to m2.
Proof. induction 1 as [|e m1 E _ IH]; [done|]. cbn [app lower_bound]. by rewrite E. Qed.

(** The map form. *)
Lemma scan_map_ok (entries : NamespaceEntries) n pre m st : sorted_recs entries -> entries = pre ++ m -> (length m <= n)%nat ->
  scan_map visit n entries m st = scan_from None ((fun e => (e.1, stat_only e.2)) <$> m) st.
Proof.
  intros Hs. revert pre m st. induction n as [|n IH]; intros pre m st E Hn.
  { destruct m; [done|cbn in Hn; lia]. }
  destruct m as [|e m]; [done|]. cbn [length] in Hn. rewrite fmap_cons. cbn [scan_map scan_from before fst].
  unfold mbind, st_bind. destruct (visit (e.1, stat_only e.2) st) as [[[| |to]|x] st']; try done.
  - apply (IH (pre ++ [e])); [by rewrite <- app_assoc|lia].
  - destruct (key_ltb e.1 to) eqn:Ek; [|done].
    rewrite E in Hs. pose proof Hs as (Hlt & _ & Hs2)%sorted_recs_app. destruct e as [k v]. cbn [fst] in *.
    pose proof Hs2 as [Hall Hs3]%sorted_recs_cons.
    assert (lower_bound to entries = lower_bound to m) as Eb.
    { rewrite E. replace (pre ++ (k, v) :: m) with ((pre ++ [(k, v)]) ++ m) by (by rewrite <- app_assoc). apply lower_bound_skip. apply Forall_app. split.
      - apply Forall_forall. intros r Hr. assert (key_lt r.1 k) as Hrk by (apply (Hlt r (k, v)); [done|by left]). change (key_lt r.1 to). by transitivity k.
      - by constructor. }
    rewrite Eb. destruct (lower_bound_split to m) as (m1 & Em & _).
    rewrite (IH (pre ++ (k, v) :: m1)); [| |].
    + clear -Hs3. revert Hs3. induction m as [|e m IHm]; intros Hs; [done|]. cbn [lower_bound]. rewrite fmap_cons. cbn [scan_from before fst].
      destruct (key_ltb e.1 to) eqn:E; [|done]. destruct e as [k' v']. apply IHm. by apply sorted_recs_cons in Hs as [_ ?].
    + rewrite E, Em at 1. by rewrite <- app_assoc.
    + pose proof (f_equal length Em) as El. rewrite length_app in El. lia.
Qed.
End reference.

(** ** One leaf of a tree *)

Lemma reads_raws {A} (p : Reader.prog A) items raws : Forall2 (fun item raw => reads p raw item) items raws ->
  reads (Reader.times (length raws) p) (concat raws) items.
Proof.
  induction 1 as [|item raw items raws Hr _ IH]; cbn [Reader.times length concat]; [apply reads_ret|].
  eapply reads_bind; [exact Hr|]. by apply (reads_map _ (cons item)).
Qed.
Lemma lt_upto (a b c : Bytes) : key_lt a b -> key_ltb c b = false -> key_lt a c.
Proof.
  intros Hab Hcb. destruct (key_trichotomy b c) as [Hlt|[->|Hlt]]; [by transitivity b|done|]. unfold key_lt in Hlt. congruence.
Qed.

Definition stat_alike (item e : Bytes * FsEntry) : Prop := item.1 = e.1 /\ stat_only item.2 = stat_only e.2.
Definition first_key (es : NamespaceEntries) : option Bytes := fst <$> head es.

(** The child a scan goes down to, and where the next one begins. *)
Fixpoint choose (from : Bytes) (chosen : Child) (cs : list Child) : Child * option Bytes :=
  match cs with
  | [] => (chosen, None)
  | c :: cs => if key_ltb from (ch_first_key c) then (chosen, Some (ch_first_key c)) else choose from c cs
  end.
Lemma choose_branch_ok from cs : Forall child_ok cs -> forall c pre post, exists rd,
  choose_branch (length cs) from (Some (ch_id c)) (Reader.mk (pre ++ concat ((fun c => written (write_child true c)) <$> cs) ++ post) (length pre)) =
  Ok ((Some (ch_id (choose from c cs).1), (choose from c cs).2), rd).
Proof.
  induction 1 as [|c' cs Hc _ IH]; intros c pre post; [by eexists|]. rewrite fmap_cons. cbn [length choose_branch concat choose].
  unfold mbind, Reader.prog_bind. rewrite <- !app_assoc. rewrite (proj2 (carries_written _ _ _ (carries_child true c' Hc))).
  destruct (key_ltb from (ch_first_key c')); [by eexists|].
  destruct (IH c' (pre ++ written (write_child true c')) post) as (rd & E). rewrite <- !app_assoc in E. eauto.
Qed.

Lemma choose_first_ok from c cs pre : Forall child_ok (c :: cs) -> exists rd,
  choose_branch (Datatypes.S (length cs)) from None (Reader.mk (pre ++ concat ((fun c => written (write_child true c)) <$> c :: cs)) (length pre)) =
  Ok ((Some (ch_id (choose from c cs).1), (choose from c cs).2), rd).
Proof.
  intros [Hc Hcs]%Forall_cons. destruct (choose_branch_ok from cs Hcs c (pre ++ written (write_child true c)) []) as (rd & E). exists rd.
  rewrite app_nil_r, <- app_assoc in E. rewrite fmap_cons. cbn [choose_branch concat]. unfold mbind, Reader.prog_bind.
  by rewrite (proj2 (carries_written _ _ _ (carries_child true c Hc))).
Qed.

Lemma choose_child_ok (R : Child -> NamespaceEntries -> Prop) from cs ess : Forall2 (fun c es => R c es /\ first_of c es) cs ess ->
  forall c0 es0, R c0 es0 -> sorted_recs (es0 ++ concat ess) ->
    exists es pre post, R (choose from c0 cs).1 es /\ es0 ++ concat ess = pre ++ es ++ post /\ Forall (fun e => key_lt e.1 from) pre /\
      (choose from c0 cs).2 = first_key post /\ Forall (fun e => key_lt from e.1) post.
Proof.
  induction 1 as [|c es cs ess [Hc (e & rest & Ees & Ek)] H2 IH]; intros c0 es0 Hc0 Hs; cbn [choose].
  { exists es0, [], []. split; [done|]. split; [done|]. split; [constructor|]. split; [done|constructor]. }
  cbn [concat] in *. pose proof Hs as (Hlt & Hs0 & Hs1)%sorted_recs_app.
  destruct (key_ltb from (ch_first_key c)) eqn:E.
  - exists es0, [], (es ++ concat ess). split; [done|]. split; [done|]. split; [constructor|]. subst es. split; [cbn; by rewrite Ek|].
    destruct e as [k v]. eapply below_first; [done|done|]. cbn [fst] in Ek. by rewrite <- Ek.
  - destruct (IH c es Hc Hs1) as (es' & pre & post & HR & Ees' & Hpre & En & Hpost).
    exists es', (es0 ++ pre), post. split; [done|]. split; [by rewrite Ees', app_assoc|]. split; [|done]. apply Forall_app. split; [|done].
    apply Forall_forall. intros r Hr. apply (lt_upto _ (ch_first_key c)); [|done]. rewrite Ek. apply Hlt; [done|]. subst es. by left.
Qed.

Section run.
Context {S : Type} `{Sha256, NodeStore S} (s : S).

(** A branch opened past its head. *)
Lemma branch_opened {B} level cs (k : Z -> Reader.prog B) : Forall child_ok cs -> fits cs ->
  exists rest pre, spine_bytes true level cs = abytes branch_magic ++ rest /\
    abytes branch_magic ++ rest = pre ++ concat ((fun c => written (write_child true c)) <$> cs) /\
    (_ ← Reader.u8; n ← Reader.u32; k n) (Reader.mk (abytes branch_magic ++ rest) (length (abytes branch_magic))) =
    k (Z.of_nat (length cs)) (Reader.mk (abytes branch_magic ++ rest) (length pre)).
Proof.
  intros Hc Hf. eexists _, ((abytes branch_magic ++ be_bytes 1 (level_of level)) ++ be_bytes 4 (Z.of_nat (length cs))).
  split; [by apply spine_bytes_eq|].
  assert (written (branch_rest true (level_of level) cs) =
      be_bytes 1 (level_of level) ++ be_bytes 4 (Z.of_nat (length cs)) ++ concat ((fun c => written (write_child true c)) <$> cs)) as ->.
  { apply writes_written. unfold branch_rest. eapply writes_seq; [apply writes_u8|]. eapply writes_seq; [apply writes_u32|].
    rewrite <- flat_map_concat_map. apply writes_each. eapply Forall_impl; [exact Hc|]. intros c Hc'. by eapply carries_written, carries_child. }
  split; [by rewrite <- !app_assoc|].
  unfold mbind, Reader.prog_bind. rewrite (reads_u8 _ (level_range level) (abytes branch_magic)).
  unfold fits in Hf. pose proof (reads_u32 (Z.of_nat (length cs)) ltac:(lia) (abytes branch_magic ++ be_bytes 1 (level_of level))) as E32.
  specialize (E32 (concat ((fun c => written (write_child true c)) <$> cs))). rewrite <- !app_assoc in *. by rewrite E32.
Qed.

(** The run of a leaf: [grp] is what the leaf holds, [post] what comes after. *)
Lemma leaf_run_ok h fuel d id es from next : (d + h < fuel)%nat -> tree_at s h d id es -> sorted_recs es ->
  exists pre grp post items, es = pre ++ grp ++ post /\ Forall (fun e => key_lt e.1 from) pre /\ Forall (fun e => key_lt from e.1) post /\
    Forall2 stat_alike items (lower_bound from grp) /\
    leaf_run_loop s fuel id from next = Ok (mkLeafRun items (match first_key post with Some k => Some k | None => next end)).
Proof.
  revert d id es next. induction fuel as [|fuel IH]; intros d id es next Hd; [lia|]. intros Ht Hs. cbn [leaf_run_loop].
  destruct d as [|d]; cbn [tree_at] in Ht.
  - destruct Ht as (ts & Hr & Hf & E). rewrite (fetch_ok _ _ _ _ E). cbn [mbind result_bind].
    unfold leaf_of. pose proof (reads_fixed leaf_magic [] (be_bytes 4 (Z.of_nat (length (zip_with raw_with es ts))) ++ concat (zip_with raw_with es ts))) as Em.
    rewrite !app_nil_l in Em. cbn [length] in Em. rewrite Em. cbn [mbind result_bind]. rewrite magic_test, bool_decide_true by done.
    set (items := zip_with (fun e t => (e.1, set_extents (inline_extents t) e.2)) es ts).
    assert (reads (read_list (decode_leaf_entry s fuel false [])) (be_bytes 4 (Z.of_nat (length (zip_with raw_with es ts))) ++ concat (zip_with raw_with es ts)) items) as Hl.
    { unfold read_list. eapply reads_bind; [apply reads_u32; rewrite (zip_length _ _ _ _ Hr); unfold fits in Hf; lia|]. rewrite Nat2Z.id. apply reads_raws.
      subst items. clear -Hr Hd. induction Hr as [|e t es ts Hr _ IH]; cbn [zip_with]; constructor; [|done]. apply (reads_entry s h); [lia|done]. }
    pose proof (read_to_end (abytes leaf_magic) _ _ (fun l => l) _ Hl) as El. cbn beta in El. rewrite El. cbn [mbind result_bind].
    eexists [], es, [], _. split; [by rewrite app_nil_r|]. split; [constructor|]. split; [constructor|]. split; [|done].
    rewrite lower_bound_all by done. subst items. clear -Hr. induction Hr as [|e t es ts Hr _ IH]; cbn [zip_with List.filter]; [constructor|].
    rewrite filter_cons. cbn [fst]. destruct (key_ltb e.1 from); [by rewrite decide_False|]. rewrite decide_True by done. cbn [negb]. by constructor.
  - destruct Ht as (cs & ess & E & Hne & Hc & Hf & H2 & ->). rewrite (fetch_ok _ _ _ _ E). cbn [mbind result_bind].
    destruct (branch_opened (Datatypes.S d) cs (fun n => if n =? 0 then bad "namespace tree branch without children" else choose_branch (Z.to_nat n) from None) Hc Hf)
      as (rest & pre0 & -> & Epre & Eo).
    pose proof (reads_fixed branch_magic [] rest) as Em. rewrite !app_nil_l in Em. cbn [length] in Em. rewrite Em. cbn [mbind result_bind]. rewrite !magic_test.
    rewrite bool_decide_false by (vm_compute; done). rewrite bool_decide_true by done. rewrite Eo. clear Eo Em.
    destruct cs as [|c0 cs]; [done|]. cbn [length]. rewrite Nat2Z.inj_succ. destruct (Z.eqb_spec (Z.succ (Z.of_nat (length cs))) 0); [lia|].
    rewrite <- Nat2Z.inj_succ, Nat2Z.id, Epre. destruct (choose_first_ok from c0 cs pre0 Hc) as (rd & ->). cbn [mbind result_bind].
    apply Forall2_cons_inv_l in H2 as (es0 & ess' & [Ht0 _] & H2 & ->). cbn [concat] in *.
    destruct (choose_child_ok (fun c es => tree_at s h d (ch_id c) es) from cs ess' H2 c0 es0 Ht0 Hs) as (es' & pre & post & HR & Ees & Hpre & En & Hpost).
    rewrite Ees in Hs. apply sorted_recs_app in Hs as (_ & _ & Hs). apply sorted_recs_app in Hs as (_ & Hs & _).
    destruct (IH d (ch_id (choose from c0 cs).1) es' (match (choose from c0 cs).2 with Some _ => (choose from c0 cs).2 | None => next end) ltac:(lia) HR Hs)
      as (pre' & grp & post' & items & Ees' & Hpre' & Hpost' & Hal & Erun).
    exists (pre ++ pre'), grp, (post' ++ post), items. split; [by rewrite Ees, Ees', <- !app_assoc|]. split; [by apply Forall_app|].
    split; [by apply Forall_app|]. split; [done|]. rewrite Erun, En. by destruct post' as [|e' post'], post as [|e post].
Qed.

(** ** The tree form *)

Lemma lower_bound_app_from from (l post : NamespaceEntries) : Forall (fun e => key_ltb e.1 from = false) post ->
  lower_bound from (l ++ post) = lower_bound from l ++ post.
Proof.
  intros Hp. induction l as [|e l IH]; cbn [app lower_bound]; [|by destruct (key_ltb e.1 from)].
  destruct Hp as [|e post E _]; [done|]. cbn [lower_bound]. by rewrite E.
Qed.
Lemma lt_asym (a b : Bytes) : key_lt a b -> key_ltb b a = false.
Proof. intros Hab. apply not_true_is_false. intros E. apply (key_lt_irrefl a). by transitivity b. Qed.
Lemma key_ltb_irrefl (k : Bytes) : key_ltb k k = false.
Proof. apply not_true_is_false, key_lt_irrefl. Qed.
Lemma from_key (e0 : Bytes * FsEntry) post : sorted_recs (e0 :: post) -> Forall (fun e => key_ltb e.1 e0.1 = false) (e0 :: post).
Proof.
  destruct e0 as [k v]. intros [Hall _]%sorted_recs_cons. constructor; [apply key_ltb_irrefl|]. eapply Forall_impl; [exact Hall|]. intros e. apply lt_asym.
Qed.
Lemma step_over_alike to items grp : Forall2 stat_alike items grp -> Forall2 stat_alike (step_over to items) (lower_bound to grp).
Proof.
  induction 1 as [|item e items grp [Ek Es] H2 IH]; [constructor|]. cbn [step_over lower_bound]. rewrite Ek. destruct (key_ltb e.1 to); [done|]. by constructor.
Qed.

Context {A : Type} (visit : Bytes * FsEntry -> ST A ScanStep).
(** The visitor looks at the stat of an entry only. *)
Hypothesis stat_visit : forall k e e' st, stat_only e = stat_only e' -> visit (k, e) st = visit (k, e') st.

Lemma scan_items_ok n items grp post st : (length items <= n)%nat -> sorted_recs (grp ++ post) -> Forall2 stat_alike items grp ->
  scan_from visit None (grp ++ post) st =
  (ended ← scan_items visit n (first_key post) items;
   match ended with run_over => mret tt | run_sought to => scan_from visit (Some to) post | run_done => scan_from visit None post end) st.
Proof.
  revert items grp st. induction n as [|n IH]; intros items grp st Hn Hs H2.
  { destruct items; [|cbn in Hn; lia]. by apply Forall2_nil_inv_l in H2 as ->. }
  destruct H2 as [|[k x] [k' e] items grp [Ek Es] H2]; [done|]. cbn in Ek. subst k'. cbn [length] in Hn.
  cbn [scan_items app scan_from before fst]. unfold mbind, st_bind. rewrite (stat_visit k x e st Es).
  destruct (visit (k, e) st) as [[[| |to]|err] st']; try done.
  - rewrite <- app_comm_cons in Hs. apply sorted_recs_cons in Hs as [_ Hs]. rewrite (IH items) by (done || lia). done.
  - destruct (key_ltb k to) eqn:Ekt; [|done]. rewrite <- app_comm_cons in Hs. apply sorted_recs_cons in Hs as [_ Hs].
    pose proof Hs as (Hlt & Hsg & Hsp)%sorted_recs_app.
    destruct (match first_key post with Some k => key_ltb to k | None => true end) eqn:En.
    + assert (Forall (fun e => key_ltb e.1 to = false) post) as Hpost.
      { destruct post as [|e0 post]; [constructor|]. apply from_key in Hsp. cbn in En. eapply Forall_impl; [exact Hsp|]. intros r Hr.
        apply lt_asym. by apply (lt_upto _ e0.1). }
      rewrite (scan_from_bound visit to) by done. rewrite lower_bound_app_from by done.
      destruct (lower_bound_split to grp) as (g1 & Eg & _).
      rewrite (IH (step_over to items) (lower_bound to grp)); [done| | |by apply step_over_alike].
      * apply step_over_alike with (to := to) in H2 as H3. apply Forall2_length in H3 as ->. apply Forall2_length in H2. rewrite Eg, length_app in H2. lia.
      * rewrite Eg, <- app_assoc in Hs. by apply sorted_recs_app in Hs as (_ & _ & ?).
    + rewrite scan_from_before; [done|]. destruct post as [|e0 post]; [done|]. cbn in En. apply Forall_forall. intros r Hr. cbn [before].
      apply (lt_upto _ e0.1); [|done]. apply Hlt; [done|by left].
Qed.

(** A seek beyond the leaf is beyond an entry of the run and the next leaf's first key. *)
Lemma sought_beyond n next items st to st' : scan_items visit n next items st = (Ok (run_sought to), st') ->
  (exists item, item ∈ items /\ key_lt item.1 to) /\ exists k, next = Some k /\ key_ltb to k = false.
Proof.
  revert items st. induction n as [|n IH]; intros items st E; destruct items as [|e items]; cbn [scan_items] in E; try (unfold mret, st_ret, st_throw in E; congruence).
  unfold mbind, st_bind in E. destruct (visit e st) as [[[| |to']|err] st1]; unfold mret, st_ret, st_throw in E; try congruence.
  - apply IH in E as [(item & Hi & Hlt) Hk]. split; [exists item; split; [by right|done]|done].
  - destruct (key_ltb e.1 to') eqn:Ek; [|congruence]. destruct (match next with Some k => key_ltb to' k | None => true end) eqn:En.
    + apply IH in E as [(item & Hi & Hlt) Hk]. split; [|done]. exists item. split; [|done]. right. clear -Hi.
      induction items as [|x items IH]; [done|]. cbn [step_over] in Hi. destruct (key_ltb x.1 to'); [right; by apply IH|done].
    + injection E as -> ->. split; [exists e; split; [by left|done]|]. destruct next as [k|]; [by exists k|done].
Qed.

Definition is_key (k : Bytes) (E : NamespaceEntries) : bool := match alookup k E with Some _ => true | None => false end.
Definition scan_steps (cursor : Bytes) (E : NamespaceEntries) : nat := (2 * length (lower_bound cursor E) + if is_key cursor E then 0 else 1)%nat.

Lemma scan_tree_ok h fuel d root E : (d + h < fuel)%nat -> tree_at s h d root E -> sorted_recs E ->
  forall n cursor st, (scan_steps cursor E < n)%nat -> scan_tree fuel visit n s root cursor st = scan_from visit None (lower_bound cursor E) st.
Proof.
  intros Hfuel Ht Hs. induction n as [|n IH]; intros cursor st Hn; [lia|]. cbn [scan_tree]. unfold leaf_run_from.
  destruct (leaf_run_ok h fuel d root E cursor None Hfuel Ht Hs) as (pre & grp & post & items & EE & Hpre & Hpost & Hal & Erun).
  unfold mbind at 1, st_bind at 1, st_lift. rewrite Erun. cbn [rn_items rn_next].
  replace (match first_key post with Some k => Some k | None => None end) with (first_key post) by (by destruct (first_key post)).
  assert (lower_bound cursor E = lower_bound cursor grp ++ post) as Elb.
  { rewrite EE, lower_bound_skip by done. apply lower_bound_app_from. eapply Forall_impl; [exact Hpost|]. intros e. apply lt_asym. }
  assert (sorted_recs (lower_bound cursor grp ++ post)) as Hs'.
  { destruct (lower_bound_split cursor E) as (m1 & Em & _). rewrite <- Elb. rewrite Em in Hs. by apply sorted_recs_app in Hs as (_ & _ & ?). }
  rewrite Elb. rewrite (scan_items_ok (length items) items _ post st) by done. unfold mbind, st_bind.
  destruct (scan_items visit (length items) (first_key post) items st) as [[[|to|]|err] st'] eqn:Ei; try done.
  - apply sought_beyond in Ei as [(item & Hitem & Hlt) (k & Ek & Hk)].
    destruct post as [|e0 post]; [done|]. injection Ek as <-.
    assert (Forall (fun e => key_ltb e.1 to = true) (pre ++ grp)) as Hbefore.
    { rewrite EE, app_assoc in Hs. apply sorted_recs_app in Hs as (Hlt0 & _ & _). apply Forall_forall. intros r Hr.
      apply (lt_upto _ e0.1); [|done]. apply Hlt0; [done|by left]. }
    assert (lower_bound to E = lower_bound to (e0 :: post)) as Elt by (rewrite EE, app_assoc; by apply lower_bound_skip).
    rewrite IH.
    + rewrite scan_from_bound by (by apply sorted_recs_app in Hs' as (_ & _ & ?)). by rewrite Elt.
    + unfold scan_steps in *. rewrite Elt. rewrite Elb, length_app in Hn. apply Forall2_length in Hal.
      destruct (lower_bound_split to (e0 :: post)) as (m1 & Em & _). apply (f_equal length) in Em. rewrite length_app in Em.
      destruct items as [|x items]; [by apply not_elem_of_nil in Hitem|]. cbn [length] in *.
      destruct (is_key to E), (is_key cursor E); lia.
  - destruct post as [|e0 post]; [done|]. cbn [first_key head fmap option_fmap option_map].
    assert (lower_bound e0.1 E = e0 :: post) as El0.
    { rewrite EE, app_assoc, lower_bound_skip.
      - apply sorted_recs_app in Hs' as (_ & _ & Hsp). apply from_key in Hsp. cbn [lower_bound]. by rewrite key_ltb_irrefl.
      - rewrite EE, app_assoc in Hs. apply sorted_recs_app in Hs as (Hlt0 & _ & _). apply Forall_forall. intros r Hr. apply Hlt0; [done|by left]. }
    rewrite IH; [by rewrite El0|]. unfold scan_steps in *. rewrite El0. rewrite Elb, length_app in Hn.
    assert (is_key e0.1 E = true) as ->.
    { unfold is_key. rewrite (elem_alookup_Some e0.1 e0.2); [done|done|]. rewrite EE. destruct e0. apply elem_of_app. right. apply elem_of_app. right. by left. }
    destruct (lower_bound cursor grp) as [|g gs] eqn:Eg; [|cbn [length] in *; destruct (is_key cursor E); lia].
    assert (is_key cursor E = false) as Hnk; [|rewrite Hnk in Hn; cbn [length] in *; lia].
    unfold is_key. destruct (alookup cursor E) as [v|] eqn:Ea; [|done]. apply alookup_Some_elem in Ea. rewrite EE, !elem_of_app in Ea.
    destruct Ea as [Ea|[Ea|Ea]].
    + rewrite Forall_forall in Hpre. specialize (Hpre _ Ea). by apply key_lt_irrefl in Hpre.
    + rewrite lower_bound_all in Eg by (rewrite EE in Hs; apply sorted_recs_app in Hs as (_ & _ & Hs2); by apply sorted_recs_app in Hs2 as (_ & ? & _)).
      assert ((cursor, v) ∈ @nil (Bytes * FsEntry)) as Hx; [|by apply not_elem_of_nil in Hx]. rewrite <- Eg. apply list_elem_of_In, filter_In.
      split; [by apply list_elem_of_In|]. cbn [fst]. by rewrite key_ltb_irrefl.
    + rewrite Forall_forall in Hpost. specialize (Hpost _ Ea). by apply key_lt_irrefl in Hpost.
Qed.
End run.
