(* ===== verification/NamespaceForms.v ===== *)
(** * Detached namespaces

    The tree a build leaves in a store, and each reader of [NamespaceView]
    over it against the same reader over the map. *)

From S2P Require Import Prelude Sorts Maps Orders Codec TorrentRequest Journal Paths Metadata MetadataCodec MetadataRoundtrip MetadataDelta NamespaceTree NamespaceView NamespaceNodes NamespaceReads NamespaceViewProofs NamespaceScan.

Section tree.
Context `{Sha256} {S : Type} `{NodeStore S, !AddressedStore S} (limits : NamespaceTreeLimits) (Hlim : limits_ok limits).
Implicit Types (s : S) (sn : MetadataSnapshot) (E : NamespaceEntries).

(** Fuel for the readers of a tree. *)
Definition enough (fuel : nat) E : Prop := (length E + height E < fuel)%nat.

Lemma set_namespace_own sn : set_namespace (sn_namespace_root sn) (sn_entries sn) sn = sn.
Proof. by destruct sn. Qed.
Lemma set_namespace_set r E r' E' sn : set_namespace r E (set_namespace r' E' sn) = set_namespace r E sn.
Proof. done. Qed.

(** What a build leaves: the tree, in a store that still has all it had. *)
Lemma built E s : entries_ok E -> no_collision s (tree_nodes limits E) ->
  exists s', build_namespace_tree limits E s = (Ok (tree_root limits E), s') /\ keeps_nodes s s' /\
    exists d, (d <= length E)%nat /\ tree_at s' (height E) d (tree_root limits E) E.
Proof.
  intros He Hn. exists (adds (tree_nodes limits E) s). split; [by apply (build_puts limits Hlim)|]. split; [apply adds_keeps|].
  apply (tree_built _ limits Hlim E He). by apply adds_has.
Qed.
Lemma detached sn s : sn_namespace_root sn = None -> entries_ok (sn_entries sn) -> no_collision s (tree_nodes limits (sn_entries sn)) ->
  exists s', detach_namespace limits sn s = (Ok (set_namespace (Some (tree_root limits (sn_entries sn))) [] sn), s') /\ keeps_nodes s s' /\
    exists d, (d <= length (sn_entries sn))%nat /\ tree_at s' (height (sn_entries sn)) d (tree_root limits (sn_entries sn)) (sn_entries sn).
Proof.
  intros Hr He Hn. destruct (built _ s He Hn) as (s' & Eb & Hk & Ht). exists s'. split; [|done]. unfold detach_namespace. rewrite Hr.
  unfold mbind, st_bind. by rewrite Eb.
Qed.
End tree.

(** ** Both forms *)

Section forms.
Context {S : Type} `{Sha256, NodeStore S} (s : S) (h fuel d : nat) (root : ObjectId) (E : NamespaceEntries) (sn : MetadataSnapshot).
Hypotheses (Hfuel : (d + h < fuel)%nat) (Ht : tree_at s h d root E) (Hs : sorted_recs E).
Let tree := set_namespace (Some root) [] sn.
Let mapped := set_namespace None E sn.

Lemma entry_same path : path <> [] -> namespace_entry (Some s) fuel tree path true = namespace_entry (@None S) 0 mapped path true.
Proof.
  intros Hp. unfold namespace_entry, tree, mapped. cbn [set_namespace sn_namespace_root sn_entries].
  destruct (lookup_ok s h fuel d root E path true Hfuel Hp Ht Hs) as (got & -> & Hg). destruct (alookup path E) as [e|]; cbn.
  - destruct Hg as (e' & -> & _ & He). by rewrite He.
  - by rewrite Hg.
Qed.
Lemma contains_same path : path <> [] -> namespace_contains (Some s) fuel tree path = namespace_contains (@None S) 0 mapped path.
Proof.
  intros Hp. unfold namespace_contains, tree, mapped. cbn [set_namespace sn_namespace_root sn_entries].
  destruct (lookup_ok s h fuel d root E path false Hfuel Hp Ht Hs) as (got & -> & Hg). destruct (alookup path E) as [e|]; cbn.
  - by destruct Hg as (e' & -> & _).
  - by rewrite Hg.
Qed.
Lemma stat_same path : path <> [] ->
  match namespace_entry (Some s) fuel tree path false with Ok e => Ok (option_map stat_only e) | Throw x => Throw x end = namespace_entry (@None S) 0 mapped path false.
Proof.
  intros Hp. unfold namespace_entry, tree, mapped. cbn [set_namespace sn_namespace_root sn_entries].
  destruct (lookup_ok s h fuel d root E path false Hfuel Hp Ht Hs) as (got & -> & Hg). destruct (alookup path E) as [e|]; cbn.
  - destruct Hg as (e' & -> & He & _). cbn. by rewrite He.
  - by rewrite Hg.
Qed.
Lemma each_same {A} (visit : Bytes * FsEntry -> ST A unit) st :
  for_each_namespace_entry (Some s) fuel tree visit st = for_each_namespace_entry (@None S) 0 mapped visit st.
Proof. apply (walk_subtree_ok s visit h fuel d root E st Hfuel Ht). Qed.
Lemma prefix_same {A} prefix (visit : Bytes * FsEntry -> ST A unit) st :
  for_each_namespace_entry_with_prefix (Some s) fuel tree prefix visit st =
  for_each_namespace_entry_with_prefix (@None S) 0 mapped prefix visit st.
Proof.
  etransitivity; [apply (walk_prefix_ok s visit h fuel d root E prefix st Hfuel Ht Hs)|]. symmetry. by apply visit_prefix_ok.
Qed.
Lemma page_same from budget : namespace_entries (Some s) fuel tree from budget = namespace_entries (@None S) 0 mapped from budget.
Proof.
  assert (forall st, walk_subtree_after s fuel root (cu_after from) take_item st =
      take_entries_of (match cu_after from with Some k => upper_bound k E | None => E end) st) as Ew.
  { intros st. rewrite after_cursor, take_entries_takes by done. exact (walk_after_ok s take_item h fuel d root E (cu_after from) st Hfuel Ht Hs). }
  unfold namespace_entries, tree, mapped. cbn [set_namespace sn_namespace_root sn_entries with_store]. by rewrite Ew.
Qed.
Lemma scan_same {A} (visit : Bytes * FsEntry -> ST A ScanStep) leaves from st :
  (forall k e e' st, stat_only e = stat_only e' -> visit (k, e) st = visit (k, e') st) -> (2 * length E + 1 < leaves)%nat ->
  scan_namespace (Some s) fuel visit leaves tree from st = scan_namespace (@None S) 0 visit 0 mapped from st.
Proof.
  intros Hv Hl. unfold scan_namespace, tree, mapped. cbn [set_namespace sn_namespace_root sn_entries with_store].
  destruct (lower_bound_split from E) as (m1 & Em & _). rewrite (scan_tree_ok s visit Hv h fuel d root E Hfuel Ht Hs).
  - rewrite (scan_map_ok visit E (length E) m1) by (done || (apply (f_equal length) in Em; rewrite length_app in Em; lia)).
    clear -Hv. revert st. generalize (@None Bytes). induction (lower_bound from E) as [|e m IH]; intros o st; [done|]. rewrite fmap_cons. cbn [scan_from fst].
    destruct (before o e.1); [apply IH|]. unfold mbind, st_bind. destruct e as [k e]. cbn [fst snd]. rewrite (Hv k e (stat_only e) st) by done.
    destruct (visit (k, stat_only e) st) as [[[| |to]|x] st']; try done. destruct (key_ltb k to); [apply IH|done].
  - unfold scan_steps. apply (f_equal length) in Em. rewrite length_app in Em. destruct (is_key from E); lia.
Qed.
End forms.
