(* ===== verification/NamespaceWorking.v ===== *)
(** * The working set of a batch

    A working set over a base namespace, in either form, reads as one map of
    entries: the base with the delta's edits laid over it. [holds] is that
    reading; puts and erases are a set and an erase of the map, and every
    reader answers from the map. *)

From S2P Require Import Prelude Sorts Maps Orders Codec TorrentRequest Journal Paths Metadata MetadataCodec MetadataRoundtrip MetadataDelta NamespaceTree NamespaceView NamespaceNodes NamespaceReads NamespaceViewProofs NamespaceScan NamespaceForms.

(** ** Lookups in parts of a map *)

Lemma keys_in_sorted P (es : NamespaceEntries) : sorted_recs es -> sorted_recs (keys_in P es).
Proof.
  induction es as [|[k v] es IH]; intros Hs; [done|]. apply sorted_recs_cons in Hs as [Hall Hs]. rewrite keys_in_cons. cbn [fst].
  destruct (P k); [|by apply IH]. apply sorted_recs_cons. split; [|by apply IH]. clear -Hall.
  induction Hall as [|[k1 v1] es Hlt _ IH]; [constructor|]. rewrite keys_in_cons. cbn [fst]. destruct (P k1); [by constructor|done].
Qed.
Lemma keys_in_lookup P (es : NamespaceEntries) p : alookup p (keys_in P es) = if P p then alookup p es else None.
Proof.
  induction es as [|[k v] es IH]; [by destruct (P p)|]. rewrite keys_in_cons. cbn [fst]. rewrite (alookup_cons p k). destruct (P k) eqn:E.
  - rewrite alookup_cons, IH. destruct (decide (p = k)) as [->|]; [by rewrite E|done].
  - rewrite IH. destruct (decide (p = k)) as [->|]; [by rewrite E|done].
Qed.

(** A directory and what is below it, by their prefix. *)
Lemma under_prefix p directory : directory <> root_path ->
  path_under p directory = bool_decide (p = directory) || starts_with (directory_prefix directory) p.
Proof.
  intros Hd. unfold path_under, directory_prefix. rewrite (bool_decide_false (directory = root_path)) by done. f_equal.
  apply eq_true_iff_eq. rewrite !andb_true_iff, !bool_decide_eq_true, Nat.ltb_lt, starts_with_app. split.
  - intros [[Hl Et] En]. exists (drop (Datatypes.S (length directory)) p). rewrite <- app_assoc. cbn [app]. rewrite <- Et at 1. rewrite <- En.
    rewrite <- (take_drop (length directory) p) at 1. f_equal. destruct (drop (length directory) p) as [|b q] eqn:Ed.
    + apply (f_equal length) in Ed. rewrite length_drop in Ed. cbn in Ed. lia.
    + rewrite <- (take_drop (length directory) p) at 1. rewrite Ed. rewrite app_nth2 by (rewrite length_take; lia).
      rewrite length_take, Nat.min_l, Nat.sub_diag by lia. cbn. f_equal. replace (Datatypes.S (length directory)) with (length directory + 1)%nat by lia. rewrite <- drop_drop. by rewrite Ed.
  - intros (r & ->). rewrite <- app_assoc. cbn [app]. rewrite length_app. cbn [length]. split; [split; [lia|apply take_app_length]|].
    rewrite app_nth2 by lia. by rewrite Nat.sub_diag.
Qed.

Section working.
Context {S : Type} `{Sha256, NodeStore S} (s : S) (h fuel d leaves : nat).
Implicit Types (w : WorkingSet) (B E base : NamespaceEntries).

(** What a snapshot's own namespace holds. *)
Definition beneath (snapshot : MetadataSnapshot) B : Prop :=
  sorted_recs B /\
  match sn_namespace_root snapshot with
  | Some root => tree_at s h d root B /\ (2 * length B + 1 < leaves)%nat
  | None => sn_entries snapshot = B
  end.

Record holds (base E : NamespaceEntries) (w : WorkingSet) : Prop := {
  hd_sorted : sorted_recs E;
  hd_upserts : sorted_recs (md_upsert_entries (wk_delta w));
  hd_erased : forall p, p ∈ wk_erased w <-> p ∈ md_erase_entries (wk_delta w);
  hd_overlay : forall p, alookup p E =
    match alookup p (md_upsert_entries (wk_delta w)) with
    | Some e => Some e
    | None => if ws_erased w p then None else alookup p base
    end;
  hd_apart : forall p, ws_erased w p = true -> alookup p (md_upsert_entries (wk_delta w)) = None;
  hd_tree : wk_tree_backed w = match sn_namespace_root (wk_snapshot w) with Some _ => true | None => false end;
  hd_beneath : if wk_tree_backed w then beneath (wk_snapshot w) base else beneath (wk_snapshot w) E
}.
Hypothesis Hfuel : (d + h < fuel)%nat.

(** What lies beneath the delta, whichever form it has. *)
Lemma holds_beneath base E w : holds base E w -> exists B, beneath (wk_snapshot w) B /\
  forall p, alookup p E =
    match alookup p (md_upsert_entries (wk_delta w)) with Some e => Some e | None => if ws_erased w p then None else alookup p B end.
Proof.
  intros [Hs Hu He Ho Ha Ht Hb]. destruct (wk_tree_backed w); [by exists base|]. exists E. split; [done|]. intros p. rewrite Ho.
  destruct (alookup p (md_upsert_entries (wk_delta w))); [done|]. by destruct (ws_erased w p).
Qed.

(** ** Reading beneath *)

Lemma beneath_entry sn B p : beneath sn B -> p <> [] -> namespace_entry (Some s) fuel sn p true = Ok (alookup p B).
Proof.
  intros (Hs & Hb) Hp. unfold namespace_entry. destruct (sn_namespace_root sn) as [root|].
  - destruct Hb as [Hb _]. destruct (lookup_ok s h fuel d root B p true Hfuel Hp Hb Hs) as (got & -> & Hg). destruct (alookup p B) as [e|]; [|by subst].
    destruct Hg as (e' & -> & _ & He). by rewrite He.
  - rewrite Hb. by destruct (alookup p B).
Qed.
Lemma beneath_stat sn B p : beneath sn B -> p <> [] ->
  exists got, namespace_entry (Some s) fuel sn p false = Ok got /\ option_map stat_only got = option_map stat_only (alookup p B).
Proof.
  intros (Hs & Hb) Hp. unfold namespace_entry. destruct (sn_namespace_root sn) as [root|].
  - destruct Hb as [Hb _]. destruct (lookup_ok s h fuel d root B p false Hfuel Hp Hb Hs) as (got & -> & Hg). exists got. split; [done|].
    destruct (alookup p B) as [e|]; [|by subst]. destruct Hg as (e' & -> & He & _). cbn. by rewrite He.
  - rewrite Hb. eexists. split; [done|]. by destruct (alookup p B).
Qed.
Lemma beneath_contains sn B p : beneath sn B -> p <> [] -> namespace_contains (Some s) fuel sn p = Ok (is_key p B).
Proof.
  intros (Hs & Hb) Hp. unfold namespace_contains, is_key. destruct (sn_namespace_root sn) as [root|]; [|by rewrite Hb]. destruct Hb as [Hb _].
  destruct (lookup_ok s h fuel d root B p false Hfuel Hp Hb Hs) as (got & -> & Hg). cbn. destruct (alookup p B) as [e|]; [|by subst].
  by destruct Hg as (e' & -> & _).
Qed.
Lemma beneath_prefix {A} sn B prefix (visit : Bytes * FsEntry -> ST A unit) st : beneath sn B ->
  for_each_namespace_entry_with_prefix (Some s) fuel sn prefix visit st = visits visit (with_prefix prefix B) st.
Proof.
  intros (Hs & Hb). unfold for_each_namespace_entry_with_prefix. destruct (sn_namespace_root sn) as [root|].
  - destruct Hb as [Hb _]. exact (walk_prefix_ok s visit h fuel d root B prefix st Hfuel Hb Hs).
  - rewrite Hb. by apply visit_prefix_ok.
Qed.
Lemma beneath_scan {A} sn B (visit : Bytes * FsEntry -> ST A ScanStep) from st : beneath sn B ->
  (forall k e e' st, visit (k, e) st = visit (k, e') st) ->
  scan_namespace (Some s) fuel visit leaves sn from st = scan_from visit None (lower_bound from B) st.
Proof.
  intros (Hs & Hb) Hv. unfold scan_namespace. destruct (lower_bound_split from B) as (m1 & Em & _).
  apply (f_equal length) in Em as El. rewrite length_app in El. destruct (sn_namespace_root sn) as [root|].
  - destruct Hb as [Hb Hl]. cbn [with_store]. apply (scan_tree_ok s visit ltac:(auto) h fuel d root B Hfuel Hb Hs). unfold scan_steps. destruct (is_key from B); lia.
  - rewrite Hb, (scan_map_ok visit B (length B) m1) by (done || lia). clear -Hv. revert st. generalize (@None Bytes).
    induction (lower_bound from B) as [|[k e] m IH]; intros o st; [done|]. rewrite fmap_cons. cbn [scan_from fst snd].
    destruct (before o k); [apply IH|]. unfold mbind, st_bind. rewrite (Hv k (stat_only e) e st).
    destruct (visit (k, e) st) as [[[| |to]|x] st']; try done. destruct (key_ltb k to); [apply IH|done].
Qed.

(** ** Reading the working set *)

Lemma ws_get_ok base E w p : holds base E w -> p <> [] -> ws_get (Some s) fuel w p true = Ok (alookup p E).
Proof.
  intros Hw Hp. destruct (holds_beneath _ _ _ Hw) as (B & Hb & ->). unfold ws_get. destruct (alookup p (md_upsert_entries (wk_delta w))); [done|].
  destruct (ws_erased w p); [done|]. by apply beneath_entry.
Qed.
Lemma ws_stat_ok base E w p : holds base E w -> p <> [] ->
  exists got, ws_get (Some s) fuel w p false = Ok got /\ option_map stat_only got = option_map stat_only (alookup p E).
Proof.
  intros Hw Hp. destruct (holds_beneath _ _ _ Hw) as (B & Hb & ->). unfold ws_get. destruct (alookup p (md_upsert_entries (wk_delta w))) as [e|]; [by eexists|].
  destruct (ws_erased w p); [by eexists|]. by apply beneath_stat.
Qed.
Lemma ws_contains_ok base E w p : holds base E w -> p <> [] -> ws_contains (Some s) fuel w p = Ok (is_key p E).
Proof.
  intros Hw Hp. destruct (holds_beneath _ _ _ Hw) as (B & Hb & Ho). unfold ws_contains, is_key. rewrite Ho.
  destruct (alookup p (md_upsert_entries (wk_delta w))) as [e|]; [done|].
  destruct (ws_erased w p); [done|]. by rewrite (beneath_contains _ B).
Qed.

Lemma erased_iff w p : ws_erased w p = true <-> p ∈ wk_erased w.
Proof. apply bool_decide_eq_true. Qed.
Lemma erased_not w p : ws_erased w p = false <-> p ∉ wk_erased w.
Proof. apply bool_decide_eq_false. Qed.

Lemma working_set_holds snapshot delta B : md_upsert_entries delta = [] -> md_erase_entries delta = [] -> beneath snapshot B ->
  holds B B (working_set snapshot delta).
Proof.
  intros Hu He Hb. split; cbn.
  - apply Hb.
  - rewrite Hu. constructor.
  - intros p. apply sort_unique_ok.
  - intros p. rewrite Hu. cbn. unfold ws_erased. cbn. rewrite He. done.
  - intros p. by rewrite Hu.
  - done.
  - by destruct (match sn_namespace_root snapshot with Some _ => true | None => false end).
Qed.

Lemma beneath_set sn E' : sn_namespace_root sn = None -> sorted_recs E' -> beneath (set_entries E' sn) E'.
Proof. intros Hr Hs. split; [done|]. cbn. by rewrite Hr. Qed.

(** A put is a set of the map it reads as. *)
Lemma ws_put_ok base E w p e : holds base E w -> holds base (map_set p e E) (ws_put p e w).
Proof.
  intros [Hs Hu He Ho Ha Ht Hb].
  assert (forall q, ws_erased (ws_put p e w) q = if decide (q = p) then false else ws_erased w q) as Her.
  { intros q. unfold ws_erased, ws_put. cbn [wk_erased]. destruct (decide (q = p)) as [->|Hne].
    - apply bool_decide_false. intros [Hq _]%list_elem_of_filter. done.
    - apply bool_decide_ext. rewrite list_elem_of_filter. tauto. }
  split.
  - by apply map_set_sorted.
  - by apply map_set_sorted.
  - intros q. unfold ws_put. cbn [wk_erased wk_delta set_entry_edits md_erase_entries]. rewrite list_elem_of_filter. destruct (ws_erased w p) eqn:Ep.
    + rewrite list_elem_of_filter. by rewrite He.
    + apply erased_not in Ep. rewrite <- He. split; [by intros [_ ?]|]. intros Hq. split; [|done]. by intros ->.
  - intros q. rewrite Her. cbn [ws_put wk_delta set_entry_edits md_upsert_entries]. rewrite !map_set_lookup. destruct (decide (q = p)); [done|]. apply Ho.
  - intros q. rewrite Her. cbn [ws_put wk_delta set_entry_edits md_upsert_entries]. rewrite map_set_lookup. destruct (decide (q = p)); [done|]. apply Ha.
  - cbn. by destruct (wk_tree_backed w).
  - cbn. destruct (wk_tree_backed w); [done|]. destruct (sn_namespace_root (wk_snapshot w)) eqn:Er; [done|].
    destruct Hb as [_ Hb]. rewrite Er in Hb. rewrite Hb. apply beneath_set; [done|]. by apply map_set_sorted.
Qed.
Lemma ws_erase_ok base E w p : holds base E w -> holds base (map_erase p E) (ws_erase p w).
Proof.
  intros [Hs Hu He Ho Ha Ht Hb].
  assert (forall q, ws_erased (ws_erase p w) q = if decide (q = p) then true else ws_erased w q) as Her.
  { intros q. unfold ws_erase. destruct (ws_erased w p) eqn:Ep; unfold ws_erased in *; cbn [wk_erased].
    - by destruct (decide (q = p)) as [->|Hne].
    - destruct (decide (q = p)) as [->|Hne].
      + apply bool_decide_true, sort_unique_ok. by left.
      + apply bool_decide_ext. rewrite (proj2 (sort_unique_ok _)), elem_of_cons. tauto. }
  split.
  - by apply map_erase_sorted.
  - by apply map_erase_sorted.
  - intros q. unfold ws_erase. cbn [wk_erased wk_delta set_entry_edits md_erase_entries]. destruct (ws_erased w p) eqn:Ep; [apply He|].
    rewrite (proj2 (sort_unique_ok _)), elem_of_cons, elem_of_app, list_elem_of_singleton, He. tauto.
  - intros q. rewrite Her. cbn [ws_erase wk_delta set_entry_edits md_upsert_entries]. rewrite !map_erase_lookup. destruct (decide (q = p)); [done|]. apply Ho.
  - intros q. rewrite Her. cbn [ws_erase wk_delta set_entry_edits md_upsert_entries]. rewrite map_erase_lookup. destruct (decide (q = p)); [done|]. apply Ha.
  - cbn. by destruct (wk_tree_backed w).
  - cbn. destruct (wk_tree_backed w); [done|]. destruct (sn_namespace_root (wk_snapshot w)) eqn:Er; [done|].
    destruct Hb as [_ Hb]. rewrite Er in Hb. rewrite Hb. apply beneath_set; [done|]. by apply map_erase_sorted.
Qed.

(** ** What lies under a directory *)

Lemma past_prefix prefix k (m : NamespaceEntries) : key_ltb k prefix = false -> Forall (fun r : Bytes * FsEntry => key_lt k r.1) m ->
  starts_with prefix k = false -> Forall (fun r => starts_with prefix r.1 = false) m.
Proof.
  intros Hk Hall E. eapply Forall_impl; [exact Hall|]. intros [k1 v1] Hlt. cbn in *. apply not_true_is_false. intros (r & Er)%starts_with_app.
  rewrite Er in Hlt. pose proof (starts_between prefix k r Hk Hlt). congruence.
Qed.
Lemma prefix_from prefix k : starts_with prefix k = true -> key_ltb k prefix = false.
Proof. intros (r & ->)%starts_with_app. apply prefix_le. Qed.
(** The keys a test accepts lie from the prefix on. *)
Lemma keys_in_bound (P : Bytes -> bool) prefix (m : NamespaceEntries) : (forall k, P k = true -> starts_with prefix k = true) ->
  keys_in P (lower_bound prefix m) = keys_in P m.
Proof.
  intros HP. induction m as [|[k v] m IH]; [done|]. cbn [lower_bound fst]. destruct (key_ltb k prefix) eqn:E; [|done].
  rewrite keys_in_cons, IH. cbn [fst]. destruct (P k) eqn:Ek; [|done]. apply HP, prefix_from in Ek. congruence.
Qed.

Section under.
Context (prefix directory : Bytes) (skip : Bytes -> bool).
Definition lies_under (p : Bytes) : bool := starts_with prefix p && negb (bool_decide (p = directory)).
Definition kept_under (p : Bytes) : bool := lies_under p && negb (skip p).

Lemma none_past k v (m : NamespaceEntries) (P : Bytes -> bool) : (forall k, P k = true -> starts_with prefix k = true) ->
  sorted_recs ((k, v) :: m) -> key_ltb k prefix = false -> starts_with prefix k = false -> keys_in P m = [].
Proof.
  intros HP [Hall _]%sorted_recs_cons Hk E. apply keys_in_none. eapply Forall_impl; [exact (past_prefix prefix k m Hk Hall E)|].
  intros r Hr. cbn in Hr. destruct (P r.1) eqn:Ep; [|done]. apply HP in Ep. congruence.
Qed.
Lemma scan_first m : sorted_recs m -> Forall (fun e => key_ltb e.1 prefix = false) m ->
  scan_from (first_visit directory prefix skip) None m None = (Ok tt, first_key (keys_in kept_under m)).
Proof.
  induction m as [|[k v] m IH]; intros Hs Hf; [done|]. apply Forall_cons in Hf as [Hk Hf]. cbn [scan_from before fst]. unfold mbind, st_bind, first_visit at 1.
  cbn [fst]. rewrite keys_in_cons. cbn [fst]. unfold kept_under at 1, lies_under at 1. destruct (starts_with prefix k) eqn:E; cbn [negb andb].
  - destruct (bool_decide (k = directory)); cbn [negb orb andb]; [apply IH; [by apply sorted_recs_cons in Hs as [_ ?]|done]|].
    destruct (skip k); cbn [negb]; [apply IH; [by apply sorted_recs_cons in Hs as [_ ?]|done]|]. done.
  - rewrite (none_past k v); [done| |done..]. unfold kept_under, lies_under. intros k0 E0. by destruct (starts_with prefix k0).
Qed.
Lemma first_upsert_ok m : sorted_recs m -> Forall (fun e => key_ltb e.1 prefix = false) m ->
  first_upsert prefix directory m = first_key (keys_in lies_under m).
Proof.
  induction m as [|[k v] m IH]; intros Hs Hf; [done|]. apply Forall_cons in Hf as [Hk Hf]. cbn [first_upsert fst]. rewrite keys_in_cons. cbn [fst].
  unfold lies_under at 1. destruct (starts_with prefix k) eqn:E; cbn [andb].
  - destruct (bool_decide (k = directory)); cbn [negb]; [apply IH; [by apply sorted_recs_cons in Hs as [_ ?]|done]|done].
  - rewrite (none_past k v); [done| |done..]. unfold lies_under. intros k0 E0. by destruct (starts_with prefix k0).
Qed.
End under.

Lemma first_key_of (P : Bytes -> bool) (m : NamespaceEntries) :
  match first_key (keys_in P m) with Some p => P p = true /\ is_key p m = true | None => forall p, is_key p m = true -> P p = false end.
Proof.
  destruct (keys_in P m) as [|[k v] l] eqn:E; cbn.
  - intros p Hp. destruct (P p) eqn:Ep; [|done]. unfold is_key in Hp. pose proof (keys_in_lookup P m p) as El. rewrite Ep, E in El. by rewrite <- El in Hp.
  - pose proof (keys_in_lookup P m k) as El. rewrite E, alookup_cons, decide_True in El by done. destruct (P k); [|done]. split; [done|]. unfold is_key. by rewrite <- El.
Qed.

Lemma first_path_under_ok base E w directory : holds base E w ->
  exists r, first_path_under (Some s) fuel leaves w directory = Ok r /\
    match r with
    | Some p => lies_under (directory_prefix directory) directory p = true /\ is_key p E = true
    | None => forall p, is_key p E = true -> lies_under (directory_prefix directory) directory p = false
    end.
Proof.
  intros Hw. destruct (holds_beneath _ _ _ Hw) as (B & Hb & Ho). unfold first_path_under. set (prefix := directory_prefix directory).
  set (ups := md_upsert_entries (wk_delta w)) in *. assert (sorted_recs ups) as Hu by apply Hw.
  assert (forall m : NamespaceEntries, sorted_recs m -> sorted_recs (lower_bound prefix m)) as Hlb.
  { intros m Hs. destruct (lower_bound_split prefix m) as (m1 & Em & _). rewrite Em in Hs. by apply sorted_recs_app in Hs as (_ & _ & ?). }
  rewrite first_upsert_ok by (auto using lower_bound_from). rewrite keys_in_bound by (unfold lies_under; intros k E0; by destruct (starts_with prefix k)).
  pose proof (first_key_of (lies_under prefix directory) ups) as Hf. destruct (first_key (keys_in (lies_under prefix directory) ups)) as [p|].
  { exists (Some p). split; [done|]. destruct Hf as [Hp Hk]. split; [done|]. unfold is_key in *. rewrite Ho. by destruct (alookup p ups). }
  unfold first_namespace_path_under. fold prefix. rewrite (beneath_scan _ B) by done. rewrite scan_first by (apply lower_bound_from, Hb || apply Hlb, Hb).
  eexists. split; [done|]. rewrite keys_in_bound by (unfold kept_under, lies_under; intros k E0; by destruct (starts_with prefix k)).
  pose proof (first_key_of (kept_under prefix directory (ws_erased w)) B) as Hg. destruct (first_key (keys_in (kept_under prefix directory (ws_erased w)) B)) as [p|].
  - destruct Hg as [Hp Hk]. unfold kept_under in Hp. apply andb_true_iff in Hp as [Hp He%negb_true_iff]. split; [done|]. unfold is_key in *. rewrite Ho, He.
    by destruct (alookup p ups), (alookup p B).
  - intros p Hp. unfold is_key in *. rewrite Ho in Hp. specialize (Hf p). specialize (Hg p). destruct (alookup p ups); [by apply Hf|]. destruct (ws_erased w p) eqn:Ee; [done|].
    destruct (alookup p B); [|done]. specialize (Hg eq_refl). unfold kept_under in Hg. rewrite Ee, andb_true_r in Hg. done.
Qed.

(** ** A directory and all under it *)

Lemma collect_visits w m merged : sorted_recs (merged ++ m) ->
  visits (fun e : Bytes * FsEntry => fun merged : NamespaceEntries => (Ok tt, if ws_erased w e.1 then merged else default merged (map_emplace e.1 e.2 merged))) m merged =
  (Ok tt, merged ++ keys_in (fun p => negb (ws_erased w p)) m).
Proof.
  revert merged. induction m as [|[k v] m IH]; intros merged Hs; [by rewrite app_nil_r|]. rewrite visits_cons. unfold mbind, st_bind. cbn [fst snd]. rewrite keys_in_cons. cbn [fst].
  pose proof Hs as (Hlt & Hs1 & Hs2)%sorted_recs_app.
  destruct (ws_erased w k); cbn [negb].
  - apply IH. apply sorted_recs_cons in Hs2 as [_ Hs2]. apply sorted_recs_app. split_and!; [|done..]. intros r1 r2 H1 H2. apply Hlt; [done|by right].
  - assert (Forall (fun r => key_lt r.1 k) merged) as Hm by (apply Forall_forall; intros r Hr; apply (Hlt r (k, v)); [done|by left]).
    assert (alookup k merged = None) as En.
    { apply alookup_None. intros (r & -> & Hr)%list_elem_of_fmap. rewrite Forall_forall in Hm. by apply (key_lt_irrefl r.1), Hm. }
    unfold map_emplace. rewrite En. cbn [default]. rewrite map_set_end by done. unfold id.
    rewrite IH; [by rewrite <- app_assoc|]. rewrite <- app_assoc. exact Hs.
Qed.

Lemma foldl_under (P : Bytes -> bool) (l m : NamespaceEntries) :
  foldl (fun m (e : Bytes * FsEntry) => if P e.1 then map_set e.1 e.2 m else m) m l = foldl (fun m e => map_set e.1 e.2 m) m (keys_in P l).
Proof.
  revert m. induction l as [|[k v] l IH]; intros m; [done|]. rewrite keys_in_cons. cbn [foldl fst snd]. destruct (P k); cbn [foldl fst snd]; apply IH.
Qed.
Lemma subtree_ok base E w directory : holds base E w -> directory <> [] -> directory <> root_path ->
  subtree (Some s) fuel w directory = Ok (keys_in (fun p => path_under p directory) E).
Proof.
  intros Hw Hne Hd. destruct (holds_beneath _ _ _ Hw) as (B & Hb & Ho). unfold subtree. set (prefix := directory_prefix directory).
  rewrite (beneath_prefix _ B) by done. rewrite collect_visits by (apply keys_in_sorted, Hb). rewrite app_nil_l.
  rewrite (ws_get_ok base E) by done. cbn [mbind result_bind]. f_equal.
  set (ups := md_upsert_entries (wk_delta w)) in *. assert (sorted_recs ups) as Hu by apply Hw.
  set (merged := keys_in _ (with_prefix prefix B)). assert (sorted_recs merged) as Hm by (apply keys_in_sorted, keys_in_sorted, Hb).
  set (merged' := match alookup directory E with Some e => map_set directory e merged | None => merged end).
  assert (sorted_recs merged') as Hm' by (unfold merged'; destruct (alookup directory E); [by apply map_set_sorted|done]).
  rewrite (foldl_under (fun p => path_under p directory)).
  apply sorted_recs_ext; [by apply sets_sorted|apply keys_in_sorted, Hw|]. intros p. rewrite sets_lookup by (by apply keys_in_sorted).
  rewrite !keys_in_lookup, Ho. destruct (path_under p directory) eqn:Ep.
  - destruct (alookup p ups) as [e|] eqn:Eu; [done|]. rewrite under_prefix in Ep by done. fold prefix in Ep.
    assert (alookup p merged = if starts_with prefix p then if ws_erased w p then None else alookup p B else None) as Em.
    { unfold merged, with_prefix. rewrite !keys_in_lookup. by destruct (ws_erased w p), (starts_with prefix p). }
    unfold merged'. destruct (decide (p = directory)) as [->|Hpd].
    + specialize (Ho directory). rewrite Eu in Ho. destruct (alookup directory E) as [e|] eqn:Ed; [by rewrite map_set_lookup, decide_True|]. rewrite Em.
      destruct (starts_with prefix directory); [done|]. by destruct (ws_erased w directory).
    + rewrite bool_decide_false in Ep by done. cbn in Ep. rewrite Ep in Em. destruct (alookup directory E); [|done]. by rewrite map_set_lookup, decide_False.
  - rewrite under_prefix in Ep by done. fold prefix in Ep. apply orb_false_iff in Ep as [Ep1 Ep2]. apply bool_decide_eq_false in Ep1.
    assert (alookup p merged = None) as Em by (unfold merged, with_prefix; rewrite !keys_in_lookup, Ep2; by destruct (negb _)).
    unfold merged'. destruct (alookup directory E); [|done]. by rewrite map_set_lookup, decide_False.
Qed.

(** ** The delta of the batch *)

Lemma apply_upserts_normal (ups m : NamespaceEntries) : Forall normal ups.*1 -> apply_upserts ups m = foldl (fun m e => map_set e.1 e.2 m) m ups.
Proof.
  revert m. induction ups as [|[k v] ups IH]; intros m Hn; [done|]. rewrite fmap_cons in Hn. apply Forall_cons in Hn as [Hk Hn].
  unfold apply_upserts. cbn [foldl fst snd] in *. apply normalize_fixed in Hk. rewrite Hk. by apply IH.
Qed.
Lemma apply_erases_normal ers (m : NamespaceEntries) : Forall normal ers -> root_path ∉ ers ->
  apply_erases true ers m = Ok (foldl (fun m k => map_erase k m) m ers).
Proof.
  intros Hn. revert m. induction Hn as [|p ers Hp Hn IH]; intros m Hr; [done|]. unfold apply_erases. cbn [foldM foldl].
  apply normalize_fixed in Hp. rewrite Hp. rewrite bool_decide_false by (intros ->; apply Hr; by left). cbn [mbind result_bind]. apply IH.
  intros Hin. apply Hr. by right.
Qed.
(** Applied to the base, the delta's edits give what the working set reads as. *)
Lemma delta_gives base E w : sorted_recs base -> holds base E w ->
  Forall normal (md_erase_entries (wk_delta w)) -> root_path ∉ md_erase_entries (wk_delta w) -> Forall normal (md_upsert_entries (wk_delta w)).*1 ->
  (E1 ← apply_erases true (md_erase_entries (wk_delta w)) base; Ok (apply_upserts (md_upsert_entries (wk_delta w)) E1)) = Ok E.
Proof.
  intros Hs Hw Hn Hr Hnu. set (ups := md_upsert_entries (wk_delta w)) in *. set (ers := md_erase_entries (wk_delta w)) in *.
  rewrite apply_erases_normal by done. cbn [mbind result_bind]. f_equal. rewrite apply_upserts_normal by done.
  apply sorted_recs_ext; [by apply sets_sorted, erases_sorted|apply Hw|]. intros p. rewrite sets_lookup by apply Hw. rewrite erases_lookup, (hd_overlay _ _ _ Hw).
  fold ups. destruct (alookup p ups); [done|]. pose proof (hd_erased _ _ _ Hw p) as He. fold ers in He.
  destruct (decide (p ∈ ers)) as [Hin|Hin]; [apply He, erased_iff in Hin; by rewrite Hin|].
  destruct (ws_erased w p) eqn:Ee; [|done]. apply erased_iff, He in Ee. done.
Qed.
End working.
