(* ===== verification/NamespaceClaims.v ===== *)
(** * What the namespace tree guarantees

    A namespace detached to a tree and attached again, read in either form,
    compared by its root, and edited through a working set. *)

From S2P Require Import Prelude Sorts Maps Orders Codec TorrentRequest Journal Paths Metadata MetadataCodec MetadataRoundtrip MetadataDelta NamespaceTree NamespaceView NamespaceNodes NamespaceReads NamespaceViewProofs NamespaceScan NamespaceForms.

(** ** Detaching and attaching *)

Section claims.
Context `{Sha256} {S : Type} `{NodeStore S, !AddressedStore S} (limits : NamespaceTreeLimits).

(** Attaching to any store in which the nodes of the tree can be found. *)
Lemma attach_ok {T : Type} `{NodeStore T} (t : T) (sn : MetadataSnapshot) (fuel : nat) :
  limits_ok limits -> sn_namespace_root sn = None -> entries_ok (sn_entries sn) ->
  (exists e, alookup root_path (sn_entries sn) = Some e /\ fe_type e = directory) ->
  has_nodes t (tree_nodes limits (sn_entries sn)) -> enough fuel (sn_entries sn) ->
  attach_namespace t fuel (set_namespace (Some (tree_root limits (sn_entries sn))) [] sn) = Ok sn.
Proof.
  intros Hlim Hr He (e & Er & Ed) Hn Hf. destruct (tree_built t limits Hlim _ He Hn) as (d & Hd & Ht). unfold enough in Hf.
  unfold attach_namespace. cbn [set_namespace sn_namespace_root sn_entries]. rewrite bool_decide_true by done. cbn [negb].
  rewrite (read_tree_ok t (height (sn_entries sn)) fuel d _ (sn_entries sn)) by (done || lia || apply He). cbn [mbind result_bind].
  rewrite Er, bool_decide_true by done. rewrite set_namespace_set. f_equal. rewrite <- Hr at 1. apply set_namespace_own.
Qed.

(** C25. Detaching a namespace and attaching it again is the identity. A
    snapshot whose namespace is a map of entries that can be encoded, with a
    root directory, detaches: the tree of the entries is built in the store,
    which keeps every node it had and has every node of the tree, unless two
    nodes have one address. Attaching the detached snapshot to that store, or
    to any store, of whatever kind, that answers alike for the nodes of the
    tree, whatever else it has gained or lost, gives the snapshot back. A
    detached snapshot is not detached again, nor an attached one attached. *)
Theorem detach_attach_roundtrip (sn : MetadataSnapshot) (s : S) (fuel : nat) :
  limits_ok limits -> sn_namespace_root sn = None -> entries_ok (sn_entries sn) ->
  (exists e, alookup root_path (sn_entries sn) = Some e /\ fe_type e = directory) ->
  no_collision s (tree_nodes limits (sn_entries sn)) -> enough fuel (sn_entries sn) ->
  exists tree s', detach_namespace limits sn s = (Ok tree, s') /\ keeps_nodes s s' /\ sn_entries tree = [] /\
    has_nodes s' (tree_nodes limits (sn_entries sn)) /\ attach_namespace s' fuel tree = Ok sn /\
    (forall (T : Type) (HT : NodeStore T) (t : T),
       (forall n, n ∈ tree_nodes limits (sn_entries sn) -> ns_get t (object_id n) = ns_get s' (object_id n)) -> attach_namespace t fuel tree = Ok sn) /\
    (forall s'', detach_namespace limits tree s'' = (Throw (RuntimeError "namespace is already detached"), s'')) /\
    attach_namespace s' fuel sn = Throw (RuntimeError "snapshot carries no namespace root").
Proof.
  intros Hlim Hr He Her Hn Hf. pose proof (adds_has _ s Hn) as Hh.
  exists (set_namespace (Some (tree_root limits (sn_entries sn))) [] sn), (adds (tree_nodes limits (sn_entries sn)) s). split_and!.
  - unfold detach_namespace. rewrite Hr. unfold mbind, st_bind. by rewrite (build_puts limits Hlim _ He).
  - apply adds_keeps.
  - done.
  - exact Hh.
  - by apply attach_ok.
  - intros T HT t Ht. apply attach_ok; [done..| |done]. intros n Hin. rewrite (Ht n Hin). by apply Hh.
  - done.
  - by unfold attach_namespace; rewrite Hr.
Qed.

(** C10. A detached namespace reads as the map it was. The snapshot whose
    namespace is the tree answers what the snapshot with the map answers: to
    a read of a single path with its extents, the same entry or none; to
    membership, the same; to a read of a single path without extents, the
    same entry but for its extents, which the map's answer leaves out and the
    tree's may still carry ([stat_read_returns_extents]); to walks over
    everything and under any prefix, the same entries in the same order; to
    pages, the same entries and cursor under any budget; and to scans with
    seeks, the same visits, for a visitor that looks only at the stat of an
    entry. *)
Theorem namespace_view_refines (sn tree : MetadataSnapshot) (s s' : S) (fuel leaves : nat) :
  limits_ok limits -> sn_namespace_root sn = None -> entries_ok (sn_entries sn) ->
  no_collision s (tree_nodes limits (sn_entries sn)) -> detach_namespace limits sn s = (Ok tree, s') ->
  enough fuel (sn_entries sn) -> (2 * length (sn_entries sn) + 1 < leaves)%nat ->
  (forall path, path <> [] -> namespace_entry (Some s') fuel tree path true = namespace_entry (@None S) 0 sn path true /\
     namespace_contains (Some s') fuel tree path = namespace_contains (@None S) 0 sn path /\
     match namespace_entry (Some s') fuel tree path false with Ok e => Ok (option_map stat_only e) | Throw x => Throw x end =
       namespace_entry (@None S) 0 sn path false) /\
  (forall (A : Type) (visit : Bytes * FsEntry -> ST A unit) st,
     for_each_namespace_entry (Some s') fuel tree visit st = for_each_namespace_entry (@None S) 0 sn visit st /\
     forall prefix, for_each_namespace_entry_with_prefix (Some s') fuel tree prefix visit st =
       for_each_namespace_entry_with_prefix (@None S) 0 sn prefix visit st) /\
  (forall from budget, namespace_entries (Some s') fuel tree from budget = namespace_entries (@None S) 0 sn from budget) /\
  (forall (A : Type) (visit : Bytes * FsEntry -> ST A ScanStep) from st,
     (forall k e e' st, stat_only e = stat_only e' -> visit (k, e) st = visit (k, e') st) ->
     scan_namespace (Some s') fuel visit leaves tree from st = scan_namespace (@None S) 0 visit 0 sn from st).
Proof.
  intros Hlim Hr He Hn Edet Hf Hl. destruct (detached limits Hlim sn s Hr He Hn) as (s1 & Edet' & _ & d & Hd & Ht).
  rewrite Edet' in Edet. injection Edet as <- ->. unfold enough in Hf. pose proof (proj1 He) as Hs.
  set (E := sn_entries sn) in *. assert (sn = set_namespace None E sn) as Esn by (rewrite <- Hr; symmetry; apply set_namespace_own).
  assert (d + height E < fuel)%nat as Hfd by lia. split_and!.
  - intros path Hp. pose proof (entry_same _ _ _ _ _ _ sn Hfd Ht Hs path Hp) as H1. pose proof (contains_same _ _ _ _ _ _ sn Hfd Ht Hs path Hp) as H2.
    pose proof (stat_same _ _ _ _ _ _ sn Hfd Ht Hs path Hp) as H3. cbv zeta in H1, H2, H3. by rewrite <- Esn in H1, H2, H3.
  - intros A visit st. pose proof (each_same _ _ _ _ _ _ sn Hfd Ht visit st) as H1. cbv zeta in H1. rewrite <- Esn in H1. split; [done|]. intros prefix.
    pose proof (prefix_same _ _ _ _ _ _ sn Hfd Ht Hs prefix visit st) as H2. cbv zeta in H2. by rewrite <- Esn in H2.
  - intros from budget. pose proof (page_same _ _ _ _ _ _ sn Hfd Ht Hs from budget) as H1. cbv zeta in H1. by rewrite <- Esn in H1.
  - intros A visit from st Hv. pose proof (scan_same _ _ _ _ _ _ sn Hfd Ht Hs visit leaves from st Hv Hl) as H1. cbv zeta in H1. by rewrite <- Esn in H1.
Qed.

(** Two roots tell two namespaces apart. Of two snapshots detached into one
    store, the trees differ, which is a comparison of two 32-byte roots,
    exactly when the maps of entries do. *)
Theorem roots_tell_apart (a b ta tb : MetadataSnapshot) (s s1 s2 : S) :
  limits_ok limits -> sn_namespace_root a = None -> sn_namespace_root b = None -> entries_ok (sn_entries a) -> entries_ok (sn_entries b) ->
  no_collision s (tree_nodes limits (sn_entries a) ++ tree_nodes limits (sn_entries b)) ->
  detach_namespace limits a s = (Ok ta, s1) -> detach_namespace limits b s1 = (Ok tb, s2) ->
  namespace_differs ta tb = namespace_differs a b.
Proof.
  intros Hlim Ra Rb Ha Hb Hn Ea Eb. unfold detach_namespace in Ea, Eb. rewrite Ra in Ea. rewrite Rb in Eb. unfold mbind, st_bind in Ea, Eb.
  rewrite (build_puts limits Hlim _ Ha) in Ea. rewrite (build_puts limits Hlim _ Hb) in Eb. injection Ea as <- <-. injection Eb as <- <-.
  unfold namespace_differs. cbn [set_namespace sn_namespace_root]. rewrite Ra, Rb. f_equal. apply bool_decide_ext. split; [|by intros ->].
  intros E. injection E as E. pose proof (adds_has _ s Hn) as Hh.
  destruct (tree_built (adds (tree_nodes limits (sn_entries a) ++ tree_nodes limits (sn_entries b)) s) limits Hlim (sn_entries a) Ha) as (da & _ & Hta).
  { intros n Hin. apply Hh, elem_of_app. by left. }
  destruct (tree_built (adds (tree_nodes limits (sn_entries a) ++ tree_nodes limits (sn_entries b)) s) limits Hlim (sn_entries b) Hb) as (db & _ & Htb).
  { intros n Hin. apply Hh, elem_of_app. by right. }
  rewrite E in Hta. set (fuel := Datatypes.S (da + height (sn_entries a) + db + height (sn_entries b))).
  apply (read_tree_ok _ _ fuel) in Hta as R1; [|unfold fuel; lia|apply Ha]. apply (read_tree_ok _ _ fuel) in Htb as R2; [|unfold fuel; lia|apply Hb]. congruence.
Qed.
End claims.

(** ** A small namespace *)

Module TreeSample.
#[local] Existing Instance Sample.sha.

Definition object (b : byte) : array 32 := array_fit 32 [b].
Definition dir : FsEntry := mkEntry directory 493 0 0 0 0 0 1 [] no_provenance.
Definition data (xs : list ExtentRef) : FsEntry := mkEntry file 420 0 0 (4 * Z.of_nat (length xs)) 5 6 1 xs no_provenance.
Definition extent (i : Z) (b : byte) : ExtentRef := mkExtent (4 * i) 4 (object b) false.
Definition a : Bytes := [x2f; x61].
Definition a_f : Bytes := [x2f; x61; x2f; x66].
Definition a_g : Bytes := [x2f; x61; x2f; x67].
Definition b : Bytes := [x2f; x62].
Definition c : Bytes := [x2f; x63].
(** A directory with a file of five extents and an empty one, and two files beside it. *)
Definition entries : NamespaceEntries :=
  [(root_path, dir); (a, dir); (a_f, data [extent 0 x01; extent 1 x02; extent 2 x03; extent 3 x04; extent 4 x05]); (a_g, data []); (b, data [extent 0 x06]); (c, data [])].
Definition snapshot : MetadataSnapshot := mkSnapshot [] 2 4096 1 [] (array_zero 32) true [] None no_dot None None entries [] [] [] [] [] [] [].
(** Small nodes, so that the tree has branches and extents of their own. *)
Definition limits : NamespaceTreeLimits := mkLimits 2 4 2 4 1 2 3.
Definition empty : MemoryStore := mkStore [] [] 0.

Lemma limits_fit : limits_ok limits.
Proof. split; vm_compute; congruence. Qed.
Lemma data_fits xs : (length xs <= 8)%nat -> Forall (fun x => exists i b, x = extent i b /\ 0 <= i < 8) xs -> entry_ok (data xs).
Proof.
  intros Hl Hx. unfold entry_ok, u32_ok, u64_ok, i64_ok, provenance_ok, dot_ok, u64_ok. cbn -[Z.mul Z.of_nat Z.pow]. repeat split; try lia.
  eapply Forall_impl; [exact Hx|]. intros x (i & b & -> & Hi). unfold extent_ok, u64_ok. cbn -[Z.mul Z.pow]. lia.
Qed.
Lemma dir_fits : entry_ok dir.
Proof. unfold entry_ok, u32_ok, u64_ok, i64_ok, provenance_ok, dot_ok, u64_ok. cbn -[Z.pow]. repeat split; try lia; done || constructor. Qed.
Lemma name_fits (p : Bytes) : (length p <= 8)%nat -> string_ok path_limit p.
Proof. unfold string_ok, path_limit, u32_max. lia. Qed.
Lemma entries_fit : entries_ok entries.
Proof.
  split_and!; [repeat constructor| |vm_compute; reflexivity].
  repeat constructor; try (apply name_fits; cbn; lia); try apply dir_fits; apply data_fits; try (cbn; lia); repeat constructor; eexists _, _; (split; [reflexivity|lia]).
Qed.

(** No two nodes of a small tree have one address. *)
Definition apart (nodes : list Bytes) : bool :=
  let named := (fun n => (object_id n, n)) <$> nodes in
  forallb (fun n => forallb (fun m => negb (bool_decide (m.1 = n.1)) || bool_decide (m.2 = n.2)) named) named.
Lemma apart_ok nodes : apart nodes = true -> no_collision empty nodes.
Proof.
  intros Ha. split; [|done]. intros n m Hn Hm E. unfold apart in Ha. rewrite forallb_forall in Ha.
  apply (list_elem_of_fmap_2 (fun n => (object_id n, n))) in Hn, Hm. apply list_elem_of_In in Hn, Hm.
  specialize (Ha _ Hn). rewrite forallb_forall in Ha. specialize (Ha _ Hm). cbn [fst snd] in Ha. rewrite bool_decide_true in Ha by done. by apply bool_decide_eq_true in Ha.
Qed.
Lemma nodes_apart : no_collision empty (tree_nodes limits entries).
Proof. apply apart_ok. vm_compute. reflexivity. Qed.

Definition detached_now : MetadataSnapshot * MemoryStore :=
  match detach_namespace limits snapshot empty with (Ok tree, s) => (tree, s) | _ => (snapshot, empty) end.
Definition tree : MetadataSnapshot := detached_now.1.
Definition store : MemoryStore := detached_now.2.
Lemma detaches : detach_namespace limits snapshot empty = (Ok tree, store).
Proof. unfold tree, store, detached_now. vm_compute. reflexivity. Qed.
End TreeSample.

#[local] Existing Instance Sample.sha.

Lemma detach_attach_roundtrip_witness :
  exists tree s', detach_namespace TreeSample.limits TreeSample.snapshot TreeSample.empty = (Ok tree, s') /\
    keeps_nodes TreeSample.empty s' /\ sn_entries tree = [] /\
    has_nodes s' (tree_nodes TreeSample.limits (sn_entries TreeSample.snapshot)) /\ attach_namespace s' 14 tree = Ok TreeSample.snapshot /\
    (forall (T : Type) (HT : NodeStore T) (t : T),
       (forall n, n ∈ tree_nodes TreeSample.limits (sn_entries TreeSample.snapshot) -> ns_get t (object_id n) = ns_get s' (object_id n)) ->
       attach_namespace t 14 tree = Ok TreeSample.snapshot) /\
    (forall s'', detach_namespace TreeSample.limits tree s'' = (Throw (RuntimeError "namespace is already detached"), s'')) /\
    attach_namespace s' 14 TreeSample.snapshot = Throw (RuntimeError "snapshot carries no namespace root").
Proof.
  apply (detach_attach_roundtrip TreeSample.limits TreeSample.snapshot TreeSample.empty 14).
  - exact TreeSample.limits_fit.
  - reflexivity.
  - exact TreeSample.entries_fit.
  - exists TreeSample.dir. split; reflexivity.
  - exact TreeSample.nodes_apart.
  - unfold enough. vm_compute. lia.
Defined.

Lemma namespace_view_refines_witness :
  namespace_entry (Some TreeSample.store) 14 TreeSample.tree TreeSample.a_f true =
    namespace_entry (@None MemoryStore) 0 TreeSample.snapshot TreeSample.a_f true /\
  namespace_contains (Some TreeSample.store) 14 TreeSample.tree TreeSample.a_f =
    namespace_contains (@None MemoryStore) 0 TreeSample.snapshot TreeSample.a_f /\
  match namespace_entry (Some TreeSample.store) 14 TreeSample.tree TreeSample.a_f false with Ok e => Ok (option_map stat_only e) | Throw x => Throw x end =
    namespace_entry (@None MemoryStore) 0 TreeSample.snapshot TreeSample.a_f false.
Proof.
  apply (namespace_view_refines TreeSample.limits TreeSample.snapshot TreeSample.tree TreeSample.empty TreeSample.store 14 14).
  - exact TreeSample.limits_fit.
  - reflexivity.
  - exact TreeSample.entries_fit.
  - exact TreeSample.nodes_apart.
  - exact TreeSample.detaches.
  - unfold enough. vm_compute. lia.
  - vm_compute. lia.
  - discriminate.
Defined.

Lemma roots_tell_apart_witness :
  exists tb s2, detach_namespace TreeSample.limits (set_entries [(root_path, TreeSample.dir)] TreeSample.snapshot) TreeSample.store = (Ok tb, s2) /\
    namespace_differs TreeSample.tree tb = true.
Proof.
  eexists _, _. split; [vm_compute; reflexivity|].
  rewrite (roots_tell_apart TreeSample.limits TreeSample.snapshot (set_entries [(root_path, TreeSample.dir)] TreeSample.snapshot) TreeSample.tree _
    TreeSample.empty TreeSample.store (snd (detach_namespace TreeSample.limits (set_entries [(root_path, TreeSample.dir)] TreeSample.snapshot) TreeSample.store))).
  - vm_compute. reflexivity.
  - exact TreeSample.limits_fit.
  - reflexivity.
  - reflexivity.
  - exact TreeSample.entries_fit.
  - split_and!; [repeat constructor| |vm_compute; reflexivity]. constructor; [|constructor]. split; [apply TreeSample.name_fits; cbn; lia|apply TreeSample.dir_fits].
  - apply TreeSample.apart_ok. vm_compute. reflexivity.
  - exact TreeSample.detaches.
  - vm_compute. reflexivity.
Defined.

(** A stat-only read of a tree hands back extents. Asked for an entry
    without its extents, the map form clears them; the tree form returns the
    extents that lie inlined in the leaf, though the code says that in both
    forms no extent list is handed back. *)
Theorem stat_read_returns_extents :
  exists e e', namespace_entry (@None MemoryStore) 0 TreeSample.snapshot TreeSample.b false = Ok (Some e) /\ fe_extents e = [] /\
    namespace_entry (Some TreeSample.store) 14 TreeSample.tree TreeSample.b false = Ok (Some e') /\ fe_extents e' = [TreeSample.extent 0 x06].
Proof. eexists _, _. split_and!; vm_compute; reflexivity. Qed.
