(* ===== verification/NamespaceChanges.v ===== *)
(** * Changes to a namespace, and the records of a leaf

    What a change set means on a map of entries, and that merging it into the
    records of a leaf does that: a record copied as it lies still carries its
    entry, and a leaf cut from such records holds the entries. *)

From S2P Require Import Prelude Sorts Maps Orders Codec TorrentRequest Journal Paths Metadata MetadataCodec MetadataRoundtrip MetadataDelta NamespaceTree NamespaceView NamespaceUpdate NamespaceNodes NamespaceReads.

(** ** What changes mean *)

Definition apply_change (m : NamespaceEntries) (c : Bytes * option FsEntry) : NamespaceEntries :=
  match c.2 with Some e => map_set c.1 e m | None => map_erase c.1 m end.
Definition apply_changes (changes : NamespaceChanges) (m : NamespaceEntries) : NamespaceEntries := foldl apply_change m changes.

Lemma changes_sorted changes m : sorted_recs m -> sorted_recs (apply_changes changes m).
Proof.
  revert m. induction changes as [|[k [e|]] changes IH]; intros m Hs; cbn; [done|..]; apply IH; [by apply map_set_sorted | by apply map_erase_sorted].
Qed.
Lemma changes_lookup changes m p : sorted_recs changes ->
  alookup p (apply_changes changes m) = match alookup p changes with Some v => v | None => alookup p m end.
Proof.
  revert m. induction changes as [|[k v] changes IH]; intros m Hs; [done|]. apply sorted_recs_cons in Hs as [Hk Hs]. cbn [apply_changes foldl].
  fold (apply_changes changes (apply_change m (k, v))). rewrite IH, alookup_cons by done. unfold apply_change. cbn [fst snd].
  destruct (decide (p = k)) as [->|Hne].
  - rewrite (alookup_below k changes Hk). destruct v; [rewrite map_set_lookup | rewrite map_erase_lookup]; by rewrite decide_True.
  - destruct (alookup p changes); [done|]. destruct v; [rewrite map_set_lookup | rewrite map_erase_lookup]; by rewrite decide_False.
Qed.
Lemma changes_from changes m r : r ∈ apply_changes changes m -> r ∈ m \/ (r.1, Some r.2) ∈ changes.
Proof.
  revert m. induction changes as [|[k v] changes IH]; intros m Hr; [by left|]. destruct (IH _ Hr) as [H|H]; [|right; by right].
  unfold apply_change in H. cbn [fst snd] in H. destruct v as [e|].
  - apply map_set_keys in H as [->|H]; [right; by left | by left].
  - apply map_erase_elem in H as [_ H]. by left.
Qed.
Lemma changes_length changes m : (length (apply_changes changes m) <= length m + length changes)%nat.
Proof.
  revert m. induction changes as [|[k v] changes IH]; intros m; cbn; [lia|]. specialize (IH (apply_change m (k, v))). unfold apply_changes in IH. unfold apply_change in *. cbn [fst snd] in *.
  destruct v as [e|]; [pose proof (map_set_length k e m); lia|]. pose proof (length_filter (fun e : Bytes * FsEntry => e.1 <> k) m). unfold map_erase in *. lia.
Qed.

(** Changes that fall in different parts of a map. *)
Lemma changes_parts c1 c2 m1 m2 : sorted_recs (c1 ++ c2) -> sorted_recs (m1 ++ m2) ->
  (forall c r, c ∈ c1 -> r ∈ m2 -> key_lt c.1 r.1) -> (forall r c, r ∈ m1 -> c ∈ c2 -> key_lt r.1 c.1) ->
  apply_changes (c1 ++ c2) (m1 ++ m2) = apply_changes c1 m1 ++ apply_changes c2 m2.
Proof.
  intros Hc Hm H12 H21. pose proof Hc as (Hcc & Hc1 & Hc2)%sorted_recs_app. pose proof Hm as (Hmm & Hm1 & Hm2)%sorted_recs_app.
  apply sorted_recs_ext; [by apply changes_sorted| |].
  - apply sorted_recs_app. split; [|split; by apply changes_sorted].
    intros a b [Ha|Ha]%changes_from [Hb|Hb]%changes_from; [by apply Hmm|exact (H21 _ _ Ha Hb)|exact (H12 _ _ Ha Hb)|exact (Hcc _ _ Ha Hb)].
  - intros p. rewrite alookup_app, !changes_lookup, !alookup_app by done.
    destruct (alookup p c1) as [v|] eqn:E1.
    + destruct v as [e|]; [done|]. apply alookup_Some_elem in E1.
      assert (alookup p c2 = None) as ->. { apply alookup_below, Forall_forall. intros r Hr. exact (Hcc _ _ E1 Hr). }
      symmetry. apply alookup_below, Forall_forall. intros r Hr. exact (H12 _ _ E1 Hr).
    + destruct (alookup p m1) as [e|] eqn:Em; [|by destruct (alookup p c2)].
      apply alookup_Some_elem in Em. assert (alookup p c2 = None) as ->; [|done].
      apply alookup_below, Forall_forall. intros r Hr. exact (H21 _ _ Em Hr).
Qed.

(** The merge of entries and changes in one pass. *)
Fixpoint merged (es : NamespaceEntries) : NamespaceChanges -> NamespaceEntries :=
  fix inner (changes : NamespaceChanges) : NamespaceEntries :=
    match es, changes with
    | _, [] => es
    | [], (key, value) :: rest => match value with Some e => (key, e) :: inner rest | None => inner rest end
    | r :: es', (key, value) :: rest =>
        if key_ltb r.1 key then r :: merged es' changes
        else
          let more := if bool_decide (r.1 = key) then merged es' rest else inner rest in
          match value with Some e => (key, e) :: more | None => more end
    end.
Lemma merged_ok es changes : sorted_recs es -> sorted_recs changes -> merged es changes = apply_changes changes es.
Proof.
  revert changes. induction es as [|[k e] es IH]; intros changes Hs; induction changes as [|[k' v] changes IHc]; intros Hc; [done| |done|];
    pose proof Hc as [Hk' Hc']%sorted_recs_cons; specialize (IHc Hc').
  - etransitivity; [|symmetry; apply (changes_parts [(k', v)] changes [] [])];
      [|done|constructor|by intros ?? _ ?%not_elem_of_nil|by intros ?? ?%not_elem_of_nil]. rewrite <- IHc. by destruct v.
  - pose proof Hs as [Hk Hs']%sorted_recs_cons. rewrite Forall_forall in Hk. rewrite Forall_forall in Hk'. cbn [merged]. fold merged. cbn [fst].
    destruct (key_ltb k k') eqn:Elt; [|destruct (decide (k = k')) as [->|Hne]].
    + rewrite IH by done. symmetry. apply (changes_parts [] ((k', v) :: changes) [(k, e)] es); [done|done|by intros ?? ?%not_elem_of_nil|].
      intros r c ->%list_elem_of_singleton [->|Hin]%elem_of_cons; [done|]. cbn. transitivity k'; [done|]. by apply Hk'.
    + rewrite bool_decide_true, IH by done. etransitivity; [|symmetry; apply (changes_parts [(k', v)] changes [(k', e)] es)]; [|done|done| |].
      * destruct v as [e'|]; cbn [apply_changes foldl apply_change fst snd map_set]; [by rewrite !key_irrefl|].
        unfold map_erase. rewrite filter_cons, decide_False by (cbn; tauto). done.
      * intros c r ->%list_elem_of_singleton Hr. by apply Hk.
      * intros r c ->%list_elem_of_singleton Hin. by apply Hk'.
    + rewrite bool_decide_false by done.
      transitivity (match v with Some e' => (k', e') :: merged ((k, e) :: es) changes | None => merged ((k, e) :: es) changes end); [done|]. rewrite IHc.
      assert (key_lt k' k) as Hlt by (destruct (key_trichotomy k k') as [?|[?|?]]; unfold key_lt in *; congruence).
      etransitivity; [|symmetry; apply (changes_parts [(k', v)] changes [] ((k, e) :: es))]; [by destruct v|done|done| |by intros ?? ?%not_elem_of_nil].
      intros c r ->%list_elem_of_singleton [->|Hr]%elem_of_cons; [done|]. cbn. transitivity k; [done|]. by apply Hk.
Qed.

(** ** The records of a leaf *)

Lemma length_extents xs : Forall extent_ok xs -> length (concat (written ∘ write_extent <$> xs)) = (length xs * encoded_extent_bytes)%nat.
Proof.
  intros Hx. induction Hx as [|x xs _ _ IH]; [done|]. rewrite fmap_cons. cbn [concat length]. rewrite length_app, IH. f_equal. cbn [compose].
  unfold compose, write_extent. erewrite writes_written; [|repeat (eapply writes_seq; [apply writes_u64||apply writes_u8|]); apply writes_fixed].
  rewrite !length_app, !length_be_bytes, array_length. done.
Qed.
Definition skip_table : Reader.prog unit :=
  form ← Reader.u8;
  if form =? extent_form_none then mret tt
  else if form =? extent_form_inlined then n ← Reader.u32; _ ← Reader.view (Z.to_nat n * encoded_extent_bytes); mret tt
  else if form =? extent_form_external then _ ← Reader.u64; _ ← Reader.fixed 32; mret tt
  else bad "bad namespace tree extent form".
Lemma carries_skip_table t : table_ok t -> carries (write_table t) skip_table tt.
Proof.
  intros Ht. unfold skip_table. destruct t as [|l|count root]; cbn [write_table table_ok] in *.
  - eapply carries_then; [apply carries_u8; unfold extent_form_none; lia|]. apply reads_ret.
  - destruct Ht as [Hl Hx]. eapply carries_bind; [apply carries_u8; unfold extent_form_inlined; lia|].
    change (extent_form_inlined =? extent_form_none) with false. change (extent_form_inlined =? extent_form_inlined) with true. cbn [negb].
    unfold write_count. eapply carries_bind; [apply carries_u32; lia|]. rewrite Nat2Z.id. eexists. split; [by apply writes_extents|].
    eapply (reads_map _ (fun _ => tt)). rewrite <- length_extents by done. apply reads_view.
  - eapply carries_bind; [apply carries_u8; unfold extent_form_external; lia|].
    change (extent_form_external =? extent_form_none) with false. change (extent_form_external =? extent_form_inlined) with false.
    change (extent_form_external =? extent_form_external) with true. eapply carries_bind; [by apply carries_u64|].
    eapply (carries_map _ _ (fun _ => tt)), carries_fixed.
Qed.
Lemma carries_skip_stat path e : string_ok path_limit path -> entry_ok e ->
  carries (write_stat path e) (key ← Reader.string path_limit; _ ← skip_leaf_entry_stat; mret key) path.
Proof.
  intros [Hp Hp'] (Hmode & Huid & Hgid & Hsize & Hc & Hm & Hv & Hpr & Hn & Hx). unfold write_stat, skip_leaf_entry_stat.
  remember (negb (provenance_empty (fe_provenance e))) as p eqn:Ep. cbv zeta.
  eapply carries_bind; [by apply carries_string|]. eapply (carries_map _ _ (fun _ => path)).
  eapply carries_bind; [apply carries_u8; by destruct (fe_type e), p|].
  assert ((Z.land (Z.lor (entry_type_code (fe_type e)) (if p then entry_type_with_provenance else 0))
    entry_type_with_provenance =? 0) = negb p) as -> by (by destruct (fe_type e), p).
  carry; try assumption.
  rewrite Ep. destruct (provenance_empty (fe_provenance e)) eqn:E; cbn [negb]; [apply carries_skip|].
  eapply (carries_map _ _ (fun _ => tt)). by apply carries_provenance.
Qed.
Lemma reads_record {S : Type} `{NodeStore S} (s : S) h e t : record_at s h e t -> reads read_leaf_record (raw_with e t) (mkLeafRecord e.1 (raw_with e t) None).
Proof.
  intros (Hp & He & Ht). destruct e as [path e]. cbn [fst snd] in *. unfold raw_with, read_leaf_record. cbn [fst snd].
  destruct (carries_written _ _ _ (carries_skip_stat path e Hp He)) as [_ Hs].
  destruct (carries_written _ _ _ (carries_skip_table t (proj1 Ht))) as [_ Hr].
  intros pre post. specialize (Hs pre (written (write_table t) ++ post)). specialize (Hr (pre ++ written (write_stat path e)) post).
  rewrite <- !app_assoc in *. unfold mbind, Reader.prog_bind in *. cbn [Reader.position Reader.data].
  destruct (Reader.string path_limit _) as [[key rd]|]; [|done]. destruct (skip_leaf_entry_stat rd) as [[stat rd']|]; [|done].
  unfold mret, Reader.prog_ret in *. injection Hs as -> ->. unfold skip_table, mbind, mret, Reader.prog_bind, Reader.prog_ret in Hr. unfold mret, Reader.prog_ret.
  match goal with |- @result_bind _ _ _ ?m = _ => assert (m = Ok (path, Reader.mk (pre ++ written (write_stat path e) ++ written (write_table t) ++ post)
    (length (pre ++ written (write_stat path e) ++ written (write_table t))))) as -> end.
  { destruct (Reader.u8 _) as [[form r1]|]; [|done]. destruct (form =? extent_form_none); [congruence|].
    destruct (form =? extent_form_inlined); [destruct (Reader.u32 _) as [[n r2]|]; [|done]; destruct (Reader.view _ _) as [[v r3]|]; [congruence|done]|].
    destruct (form =? extent_form_external); [|done]. destruct (Reader.u64 _) as [[n r2]|]; [|done]. destruct (Reader.fixed _ _) as [[v r3]|]; [congruence|done]. }
  cbn [result_bind Reader.position Reader.data]. do 3 f_equal. rewrite drop_app_length, (app_assoc (written _)).
  rewrite (length_app pre), Nat.add_comm, Nat.add_sub. apply take_app_length.
Qed.

Lemma extents_kept {S T : Type} `{NodeStore S, NodeStore T} (s : S) (t : T) d id xs :
  (forall id b, ns_get s id = Some b -> ns_get t id = Some b) -> extents_at s d id xs -> extents_at t d id xs.
Proof.
  intros Hk. revert id xs. induction d as [|d IH]; intros id xs; cbn [extents_at]; [intros (E & Hx); auto|].
  intros (level & cs & xss & E & Hc & Hf & H2 & ->). exists level, cs, xss. split_and!; auto. eapply Forall2_impl; [exact H2|]. intros c x. apply IH.
Qed.

Section records.
Context `{Sha256} {S : Type} `{NodeStore S}.
Implicit Types (s t : S).

Lemma table_kept s t h h' tb xs : keeps_nodes s t -> (h <= h')%nat -> table_at s h tb xs -> table_at t h' tb xs.
Proof.
  intros Hk Hh [H1 H2]. split; [done|]. destruct tb as [|l|count root]; [done|done|]. destruct H2 as (d & Hd & Hx). exists d. split; [lia|]. by eapply extents_kept.
Qed.
Lemma record_kept s t h h' e tb : keeps_nodes s t -> (h <= h')%nat -> record_at s h e tb -> record_at t h' e tb.
Proof. intros Hk Hh (H1 & H2 & H3). split_and!; [done|done|by eapply table_kept]. Qed.
Lemma leaf_kept s t h h' id es : keeps_nodes s t -> (h <= h')%nat -> leaf_at s h id es -> leaf_at t h' id es.
Proof.
  intros Hk Hh (ts & H2 & Hf & E). exists ts. split_and!; [|done|by apply Hk]. eapply Forall2_impl; [exact H2|]. intros e tb. by apply record_kept.
Qed.
Lemma tree_kept s t h h' d id es : keeps_nodes s t -> (h <= h')%nat -> tree_at s h d id es -> tree_at t h' d id es.
Proof.
  intros Hk Hh. revert id es. induction d as [|d IH]; intros id es; cbn [tree_at]; [by apply leaf_kept|].
  intros (cs & ess & E & Hne & Hc & Hf & H2 & ->). exists cs, ess. split_and!; auto. eapply Forall2_impl; [exact H2|]. intros c x [H3 H4]. auto.
Qed.

(** A record stands for an entry: the bytes that carry it, or the entry. *)
Definition record_holds (t : S) (h : nat) (r : LeafRecord) (e : Bytes * FsEntry) : Prop :=
  lr_key r = e.1 /\
  match lr_entry r with
  | None => exists tb, lr_raw r = raw_with e tb /\ record_at t h e tb
  | Some e' => e' = e.2 /\ string_ok path_limit e.1 /\ entry_ok e.2 /\ (length (fe_extents e.2) < h)%nat
  end.
Lemma record_holds_kept s t h h' r e : keeps_nodes s t -> (h <= h')%nat -> record_holds s h r e -> record_holds t h' r e.
Proof.
  intros Hk Hh [E Hr]. split; [done|]. destruct (lr_entry r) as [e'|]; [destruct Hr as (-> & H1 & H2 & H3); split_and!; [done..|lia]|].
  destruct Hr as (tb & Er & Hr). exists tb. split; [done|]. by eapply record_kept.
Qed.
Lemma record_holds_ok t h r e : record_holds t h r e -> record_ok r.
Proof. intros [E Hr]. unfold record_ok. rewrite E. destruct (lr_entry r) as [e'|]; [destruct Hr as (-> & H1 & H2 & _); done|]. by destruct Hr as (tb & _ & (? & _)). Qed.

Definition raw_records (es : NamespaceEntries) (ts : list ExtentTable) : list LeafRecord := zip_with (fun e tb => mkLeafRecord e.1 (raw_with e tb) None) es ts.
Lemma read_leaf_raws s h id es : leaf_at s h id es -> exists ts, Forall2 (record_at s h) es ts /\ read_leaf_records s id = Ok (raw_records es ts).
Proof.
  intros (ts & H2 & Hf & E). exists ts. split; [done|].
  unfold read_leaf_records. rewrite (fetch_ok _ _ _ _ E). cbn [mbind result_bind]. unfold Reader.run, leaf_of.
  rewrite read_magic, magic_test, bool_decide_true by done.
  set (raws := zip_with raw_with es ts). assert (length raws = length es) as El by (apply (zip_length _ _ _ _ H2)).
  rewrite (read_to_end _ (be_bytes 4 (Z.of_nat (length raws)) ++ concat raws) _ (fun l => l) (raw_records es ts)); [done|].
  unfold read_list. eapply reads_bind; [apply reads_u32; unfold fits in Hf; lia|]. rewrite Nat2Z.id. subst raws. clear -H2. unfold raw_records.
  induction H2 as [|e tb es ts Hr _ IH]; cbn [zip_with length concat Reader.times]; [apply reads_ret|].
  eapply reads_bind; [by eapply reads_record|]. rewrite <- (app_nil_r (concat _)). eapply reads_bind; [exact IH|]. apply reads_ret.
Qed.
Lemma read_leaf_records_ok s t h id es : keeps_nodes s t -> leaf_at s h id es -> exists rs, read_leaf_records t id = Ok rs /\ Forall2 (record_holds s h) rs es.
Proof.
  intros Hk (ts & H2 & Hf & E). destruct (read_leaf_raws t h id es) as (ts' & H2' & Er).
  { eapply leaf_kept; [exact Hk|done|]. by exists ts. }
  assert (read_leaf_records s id = read_leaf_records t id) as Est by (unfold read_leaf_records; by rewrite (fetch_ok _ _ _ _ E), (fetch_ok _ _ _ _ (Hk _ _ E))).
  destruct (read_leaf_raws s h id es) as (ts1 & H1 & Er1); [by exists ts|]. exists (raw_records es ts1). rewrite <- Est. split; [done|]. clear -H1.
  induction H1 as [|e tb es ts Hr _ IH]; cbn; constructor; [|done]. split; [done|]. by exists tb.
Qed.

(** Merging changes into records. *)
Lemma merge_changes_ok t h rs es changes : Forall2 (record_holds t h) rs es ->
  Forall (fun c => match c.2 with Some e => string_ok path_limit c.1 /\ entry_ok e /\ (length (fe_extents e) < h)%nat | None => True end) changes ->
  Forall2 (record_holds t h) (merge_changes rs changes) (merged es changes).
Proof.
  intros H2. revert changes. induction H2 as [|r e rs es Hr H2 IH]; intros changes Hc; induction Hc as [|[k v] changes Hv Hc IHc]; cbn [fst snd] in *; [constructor| |by constructor|].
  - cbn [merge_changes merged]. destruct v as [e|]; [|exact IHc]. constructor; [|exact IHc]. by destruct Hv as (? & ? & ?).
  - pose proof Hr as [Ek _]. destruct r as [rk raw en]. cbn [lr_key] in Ek. subst rk. cbn [merge_changes merged lr_key]. destruct (key_ltb e.1 k).
    + constructor; [done|]. apply IH. by constructor.
    + assert (Forall2 (record_holds t h) (if bool_decide (e.1 = k) then merge_changes rs changes else merge_changes (mkLeafRecord e.1 raw en :: rs) changes)
        (if bool_decide (e.1 = k) then merged es changes else merged (e :: es) changes)) as Hmore by (destruct (bool_decide _); auto).
      destruct v as [e'|]; [|exact Hmore]. constructor; [|exact Hmore]. by destruct Hv as (? & ? & ?).
Qed.

(** A leaf cut from records. *)
Context (limits : NamespaceTreeLimits) (Hlim : limits_ok limits).
Lemma record_raw_holds t h r e : record_holds t h r e -> has_nodes t (record_nodes limits r) ->
  exists tb, record_raw limits r = raw_with e tb /\ record_at t h e tb.
Proof.
  intros [Ek Hr] Hn. unfold record_raw, record_nodes in *. destruct (lr_entry r) as [e'|]; [|done]. destruct Hr as (-> & H1 & H2 & H3).
  exists (table_of limits (fe_extents e.2)). rewrite Ek. split; [done|]. split_and!; [done|done|]. by eapply (table_built t limits Hlim h _ e.2).
Qed.
Lemma leaf_holds t h rs es : Forall2 (record_holds t h) rs es -> fits es -> has_nodes t (leaf_nodes limits rs) -> leaf_at t h (ch_id (leaf_child limits rs)) es.
Proof.
  intros H2 Hf Hn. apply has_app in Hn as [Hn1 Hn2].
  assert (exists ts, Forall2 (record_at t h) es ts /\ record_raw limits <$> rs = zip_with raw_with es ts) as (ts & Ht & Er).
  { clear Hn2 Hf. induction H2 as [|r e rs es Hr _ IH]; [by exists []|]. rewrite fmap_cons in Hn1. cbn [concat] in Hn1. apply has_app in Hn1 as [Ha Hb].
    destruct (IH Hb) as (ts & Hts & Er). destruct (record_raw_holds t h r e Hr Ha) as (tb & Eb & Htb). exists (tb :: ts).
    split; [by constructor|]. rewrite fmap_cons. cbn. by rewrite Eb, Er. }
  exists ts. split_and!; [done|done|]. unfold leaf_child. cbn [ch_id]. rewrite Hn2 by (by left). unfold leaf_bytes. by rewrite Er.
Qed.
Lemma leaves_hold s h rs es : Forall2 (record_holds s h) rs es -> fits es ->
  exists ess, concat ess = es /\ Forall2 (fun c es => (forall t, keeps_nodes s t -> has_nodes t (concat (leaf_nodes limits <$> leaf_groups limits rs)) ->
    leaf_at t h (ch_id c) es) /\ first_of c es) (leaves_of limits rs) ess.
Proof.
  intros H2 Hf. pose proof (concat_cuts (fun r => ends_a_leaf limits (lr_key r)) (entry_max_fanout limits) rs) as Eg. fold (leaf_groups limits rs) in Eg.
  rewrite <- Eg in H2. apply Forall2_groups in H2 as (ess & -> & H2). exists ess. split; [done|]. unfold leaves_of.
  pose proof (cuts_nonempty (fun r => ends_a_leaf limits (lr_key r)) (entry_max_fanout limits) rs) as Hne. fold (leaf_groups limits rs) in Hne.
  revert Hne Hf. generalize (leaf_groups limits rs), H2. intros gs H2'. clear -H2' Hlim. induction H2' as [|g es gs ess Hg _ IH]; intros Hne Hf; [constructor|].
  apply Forall_cons in Hne as [Hne Hne']. rewrite !fmap_cons. cbn [concat] in *. constructor.
  - split.
    + intros t Hk [Ha _]%has_app. apply leaf_holds; [|apply (fits_le es _ Hf); rewrite length_app; lia|done].
      eapply Forall2_impl; [exact Hg|]. intros r e. by apply record_holds_kept.
    + destruct Hg as [|r e g es [Ek _] _]; [done|]. by exists e, es.
  - eapply Forall2_impl; [apply IH; [done|]|].
    + apply (fits_le _ _ Hf). rewrite length_app. lia.
    + intros c e [H1 H2]. split; [|done]. intros t Hk [_ Hb]%has_app. by apply H1.
Qed.
End records.
