(* ===== verification/NamespaceSplice.v ===== *)
(** * Updating a namespace tree in place of building it

    The loops of [update_namespace_tree] over the spine of a tree: windows of
    leaves cut again, levels regrouped, and the root. Each keeps the sequence
    of items it works on standing for the same entries. Only nodes of the tree
    the update starts from are read, so what is written on the way decides
    nothing. *)

From S2P Require Import Prelude Sorts Maps Orders Codec TorrentRequest Journal Paths Metadata MetadataCodec MetadataRoundtrip MetadataDelta NamespaceTree NamespaceView NamespaceUpdate NamespaceNodes NamespaceReads NamespaceChanges.

(** ** Lists of lists *)

Lemma Forall2_concat_app {X Y} (R : X -> list Y -> Prop) l1 l2 k1 k2 : Forall2 R l1 k1 -> Forall2 R l2 k2 -> Forall2 R (l1 ++ l2) (k1 ++ k2) /\ concat (k1 ++ k2) = concat k1 ++ concat k2.
Proof. intros H1 H2. split; [by apply Forall2_app | apply concat_app]. Qed.

Lemma level_small d : (d <= 255)%nat -> level_of d = Z.of_nat d.
Proof. unfold level_of, u8_max. lia. Qed.

Section items.
Context `{Sha256} {S : Type} `{NodeStore S, !AddressedStore S} (s0 : S) (h : nat).
Implicit Types (ns : list Bytes) (es : NamespaceEntries) (ess : list NamespaceEntries) (items : list SpineItem).

(** The tree of entries in every store that has what the tree updated has and
    the nodes written. *)
Definition tree_will ns (d : nat) (id : ObjectId) es : Prop := forall t, keeps_nodes s0 t -> has_nodes t ns -> tree_at t h d id es.
Definition child_at ns (d : nat) (c : Child) es : Prop := tree_will ns d (ch_id c) es /\ first_of c es /\ child_ok c.
Definition item_at ns (d : nat) (i : SpineItem) es : Prop := it_level i = level_of d /\ child_at ns d (it_child i) es.
(** A node of the tree updated. *)
Definition old_at (d : nat) (i : SpineItem) es : Prop :=
  (d <= 255)%nat /\ it_level i = Z.of_nat d /\ tree_at s0 h d (ch_id (it_child i)) es /\ first_of (it_child i) es /\ child_ok (it_child i).
(** At a level, or standing above it unread. *)
Definition at_level ns (d : nat) (i : SpineItem) es : Prop := item_at ns d i es \/ exists d', (d < d')%nat /\ old_at d' i es.
Definition stood (i : SpineItem) es : Prop := exists d, old_at d i es.
(** A group: made by this update, or of the tree updated. *)
Definition parent_at ns (d : nat) (i : SpineItem) es : Prop := (item_at ns (Datatypes.S d) i es /\ it_fresh i = true) \/ exists d', (d < d')%nat /\ old_at d' i es.

Lemma will_more ns ns' d id es : tree_will ns d id es -> tree_will (ns ++ ns') d id es.
Proof. intros Ht t Hk [Hn _]%has_app. by apply Ht. Qed.
Lemma child_more ns ns' d c es : child_at ns d c es -> child_at (ns ++ ns') d c es.
Proof. intros (H1 & H2 & H3). split_and!; [by apply will_more|done..]. Qed.
Lemma child_after ns ns' d c es : child_at ns' d c es -> child_at (ns ++ ns') d c es.
Proof. intros (H1 & H2 & H3). split_and!; [|done..]. intros t Hk [_ Hn]%has_app. by apply H1. Qed.
Lemma item_more ns ns' d i es : item_at ns d i es -> item_at (ns ++ ns') d i es.
Proof. intros (H1 & H2). split; [done|by apply child_more]. Qed.
Lemma level_more ns ns' d i es : at_level ns d i es -> at_level (ns ++ ns') d i es.
Proof. intros [Hi|Hi]; [left; by apply item_more | by right]. Qed.
Lemma parent_more ns ns' d i es : parent_at ns d i es -> parent_at (ns ++ ns') d i es.
Proof. intros [[Hi Hf]|Hi]; [left; split; [by apply item_more|done] | by right]. Qed.

Lemma old_item ns d i es : old_at d i es -> item_at ns d i es.
Proof.
  intros (Hd & El & Ht & Hf & Hc). split; [by rewrite level_small|]. split_and!; [|done|done]. intros t Hk _. by eapply tree_kept.
Qed.
Lemma old_level ns d d' i es : (d <= d')%nat -> old_at d' i es -> at_level ns d i es.
Proof. intros Hd Ho. destruct (decide (d = d')) as [->|Hne]; [left; by apply old_item | right; exists d'; split; [lia|done]]. Qed.
Lemma parent_level ns d i es : parent_at ns d i es -> at_level ns (Datatypes.S d) i es.
Proof. intros [[Hi _]|(d' & Hd & Ho)]; [by left | by apply (old_level _ _ d')]. Qed.

Lemma first_nonempty c es : first_of c es -> es <> [].
Proof. by intros (e & rest & -> & _). Qed.
Lemma at_level_first ns d i es : at_level ns d i es -> first_of (it_child i) es /\ child_ok (it_child i).
Proof. intros [(_ & _ & ? & ?)|(d' & _ & _ & _ & _ & ? & ?)]; done. Qed.
Lemma count_le (R : SpineItem -> NamespaceEntries -> Prop) items ess :
  (forall i es, R i es -> first_of (it_child i) es) -> Forall2 R items ess -> (length items <= length (concat ess))%nat.
Proof.
  intros Hr H2. rewrite (Forall2_length _ _ _ H2). apply length_concat_ge. induction H2 as [|i es items ess Hi _ IH]; constructor; [|done].
  by eapply first_nonempty, Hr.
Qed.

(** ** Reading the tree updated *)

Context (s : S) (Hs : keeps_nodes s0 s).

Lemma read_branch_node d id cs : Forall child_ok cs -> fits cs -> cs <> [] -> ns_get s id = Some (spine_bytes true (Datatypes.S d) cs) ->
  read_spine_node s id = Ok (mkSpine (level_of (Datatypes.S d)) cs).
Proof.
  intros Hc Hf Hne E. unfold read_spine_node. rewrite (fetch_ok _ _ _ _ E), spine_bytes_eq by done. cbn [mbind result_bind]. unfold Reader.run.
  rewrite read_magic, !magic_test. rewrite bool_decide_false by (vm_compute; done). rewrite bool_decide_true by done.
  pose proof (proj2 (carries_written _ _ _ (carries_branch true (Datatypes.S d) cs Hc Hf)) (abytes branch_magic) []) as Hr. rewrite app_nil_r in Hr.
  unfold read_branch, read_list in Hr. unfold mbind, Reader.prog_bind in *. destruct (Reader.u8 _) as [[level r1]|]; [|done].
  destruct (Reader.u32 r1) as [[n r2]|]; [|done]. destruct (Reader.times (Z.to_nat n) (read_child true) r2) as [[l r3]|] eqn:Et; [|done].
  unfold mret, Reader.prog_ret in Hr. injection Hr as -> -> ->. rewrite child_read_keyed in *.
  assert ((level_of (Datatypes.S d) =? 0) = false) as -> by (apply Z.eqb_neq; unfold level_of, u8_max; lia).
  destruct (Z.eqb_spec n 0) as [->|_]; [injection Et as <- _; done|]. cbn [orb]. rewrite Et. unfold Reader.finish. cbn [Reader.position Reader.data].
  by rewrite Nat.eqb_refl.
Qed.
Lemma read_spine_ok d id es : tree_at s0 h d id es ->
  exists cs, read_spine_node s id = Ok (mkSpine (level_of d) cs) /\
    match d with
    | O => cs = []
    | Datatypes.S d => cs <> [] /\ exists ess, es = concat ess /\ Forall child_ok cs /\ Forall2 (fun c es => tree_at s0 h d (ch_id c) es /\ first_of c es) cs ess
    end.
Proof.
  destruct d as [|d]; cbn [tree_at].
  - intros (ts & H2 & Hf & E). exists []. split; [|done]. unfold read_spine_node. rewrite (fetch_ok _ _ _ _ (Hs _ _ E)). cbn [mbind result_bind].
    unfold Reader.run, leaf_of. by rewrite read_magic, magic_test, bool_decide_true.
  - intros (cs & ess & E & Hne & Hc & Hf & H2 & ->). exists cs. split; [|split; [done|]; by exists ess]. by apply read_branch_node, Hs.
Qed.

Lemma expand_ok d i es : old_at (Datatypes.S d) i es ->
  exists items ess, expand_item s i = Ok items /\ items <> [] /\ es = concat ess /\ Forall2 (old_at d) items ess.
Proof.
  intros (Hd & El & Ht & _ & _). destruct (read_spine_ok _ _ _ Ht) as (cs & Er & Hne & ess & -> & Hc & H2). unfold expand_item. rewrite Er. cbn [mbind result_bind sp_level sp_children].
  rewrite level_small, El, Z.eqb_refl by done. cbn [negb]. eexists _, ess. split_and!; [done|by intros ?%fmap_nil_inv|done|].
  clear Er Hne Ht. revert Hc. induction H2 as [|c es cs ess [H3 H4] _ IH]; intros Hc; [constructor|]. apply Forall_cons in Hc as [Hc Hc']. rewrite fmap_cons.
  constructor; [|by apply IH]. unfold old_at. cbn [it_level it_child]. split_and!; [lia| |done..]. unfold wrap8. rewrite Z.mod_small; lia.
Qed.

(** The work left below the items of a sequence. *)
Fixpoint weight (items : list SpineItem) (ess : list NamespaceEntries) : nat :=
  match items, ess with i :: items, es :: ess => (Z.to_nat (it_level i) + 1) * length es + weight items ess | _, _ => 0 end.
Lemma weight_app (R : SpineItem -> NamespaceEntries -> Prop) l1 k1 l2 k2 : Forall2 R l1 k1 -> weight (l1 ++ l2) (k1 ++ k2) = (weight l1 k1 + weight l2 k2)%nat.
Proof. induction 1 as [|i es l k _ _ IH]; cbn; [done|]. rewrite IH. lia. Qed.
Lemma weight_at d items ess : Forall2 (old_at d) items ess -> weight items ess = ((d + 1) * length (concat ess))%nat.
Proof.
  induction 1 as [|i es l k (_ & El & _) _ IH]; cbn [weight concat length]; [lia|]. rewrite IH, El, length_app. lia.
Qed.
Lemma weight_pos i es items ess d : old_at d i es -> (length es + weight items ess <= weight (i :: items) (es :: ess))%nat /\ (1 <= length es)%nat.
Proof. intros (_ & El & _ & Hf & _). destruct Hf as (e & rest & -> & _). cbn [weight length]. lia. Qed.
Lemma expand_weight d i es items ess rest ress : old_at (Datatypes.S d) i es -> Forall2 (old_at d) items ess -> es = concat ess ->
  (weight (items ++ rest) (ess ++ ress) < weight (i :: rest) (es :: ress))%nat.
Proof.
  intros Ho H2 ->. rewrite (weight_app _ _ _ _ _ H2), (weight_at d) by done. destruct Ho as (_ & El & _ & Hf & _). cbn [weight]. rewrite El.
  destruct Hf as (e & r & -> & _). cbn [length]. lia.
Qed.

Lemma stood_all d items ess : Forall2 (old_at d) items ess -> Forall2 stood items ess.
Proof. intros H2. eapply Forall2_impl; [exact H2|]. intros i es Ho. by exists d. Qed.

(** Opening the first item down to a leaf. *)
Lemma open_first_ok n d i es items ess : (d <= n)%nat -> old_at d i es -> Forall2 stood items ess ->
  exists i' es' items' ess', open_first n s (i :: items) = Ok (i' :: items') /\ old_at 0 i' es' /\ Forall2 stood items' ess' /\
    es' ++ concat ess' = es ++ concat ess /\ (weight (i' :: items') (es' :: ess') <= weight (i :: items) (es :: ess))%nat.
Proof.
  revert d i es items ess. induction n as [|n IH]; intros d i es items ess Hd Ho H2.
  - assert (d = 0%nat) as -> by lia. exists i, es, items, ess. split_and!; [|done..]. destruct Ho as (_ & El & _). cbn [open_first]. by rewrite El.
  - destruct d as [|d].
    { exists i, es, items, ess. split_and!; [|done..]. destruct Ho as (_ & El & _). cbn [open_first]. by rewrite El. }
    destruct (expand_ok d i es Ho) as (children & cess & Ee & Hne & -> & Hc). cbn [open_first]. pose proof Ho as (_ & El & _).
    assert ((it_level i <=? 0) = false) as -> by (apply Z.leb_gt; lia). rewrite Ee. cbn [mbind result_bind].
    pose proof (expand_weight d i (concat cess) children cess items ess Ho Hc eq_refl) as Hw.
    destruct Hc as [|c ces children cess Hc1 Hc2]; [done|]. cbn [app].
    destruct (IH d c ces (children ++ items) (cess ++ ess)) as (i' & es' & items' & ess' & E1 & E2 & E3 & E4 & E5); [lia|done|apply Forall2_app; [by eapply stood_all|done]|].
    exists i', es', items', ess'. split_and!; [done..| |]. { rewrite E4, concat_app. cbn. by rewrite app_assoc. } cbn [app] in Hw. lia.
Qed.
End items.

(** ** Changes and keys *)

Lemma lt_le_lt {K} `{KeyOrder K} (a b c : K) : key_lt a b -> key_ltb c b = false -> key_lt a c.
Proof. intros Hab Hcb. destruct (key_trichotomy b c) as [Hbc|[<-|Hcb']]; [by transitivity b|done|]. unfold key_lt in Hcb'. congruence. Qed.
Lemma le_lt_lt {K} `{KeyOrder K} (a b c : K) : key_ltb b a = false -> key_lt b c -> key_lt a c.
Proof. intros Hba Hbc. destruct (key_trichotomy a b) as [Hab|[->|Hba']]; [by transitivity b|done|]. unfold key_lt in Hba'. congruence. Qed.

Definition change_ok (h : nat) (c : Bytes * option FsEntry) : Prop :=
  match c.2 with Some e => string_ok path_limit c.1 /\ entry_ok e /\ (length (fe_extents e) < h)%nat | None => True end.

Lemma changes_before_ok beyond changes : sorted_recs changes -> forall a b, changes_before beyond changes = (a, b) ->
  changes = a ++ b /\ (forall c k, c ∈ a -> beyond = Some k -> key_lt c.1 k) /\ (forall c k, c ∈ b -> beyond = Some k -> key_ltb c.1 k = false) /\
  (beyond = None -> b = []).
Proof.
  induction changes as [|c changes IH]; intros Hs a b E; cbn [changes_before] in E.
  { injection E as <- <-. split_and!; [done|by intros c k ?%not_elem_of_nil..|done]. }
  destruct c as [k v]. pose proof Hs as [Hk Hs']%sorted_recs_cons. rewrite Forall_forall in Hk. cbn [fst] in E.
  destruct (match beyond with Some k0 => key_ltb k k0 | None => true end) eqn:Eb.
  - destruct (changes_before beyond changes) as [a' b'] eqn:E'. injection E as <- <-. destruct (IH Hs' _ _ eq_refl) as (-> & H1 & H2 & H3).
    split_and!; [done| |done|done]. intros c k' [->|Hc]%elem_of_cons ->; [done|]. by apply H1.
  - injection E as <- <-. destruct beyond as [k0|]; [|done]. split_and!; [done|by intros c k' ?%not_elem_of_nil| |done].
    intros c k' Hc E. injection E as <-. apply elem_of_cons in Hc as [->|Hc]; [done|]. specialize (Hk c Hc). cbn in Hk.
    apply not_true_is_false. intros Hlt. assert (key_lt k k0) as E by (transitivity c.1; done). unfold key_lt in E. congruence.
Qed.
Lemma changes_before_head beyond c changes a b : (match beyond with Some k => key_lt c.1 k | None => True end) ->
  changes_before beyond (c :: changes) = (a, b) -> (length b <= length changes)%nat.
Proof.
  intros Hc. cbn [changes_before].
  assert ((match beyond with Some k => key_ltb c.1 k | None => true end) = true) as -> by (by destruct beyond).
  destruct (changes_before beyond changes) as [a' b'] eqn:E. intros E'. injection E' as <- <-. clear -E.
  revert a' b' E. induction changes as [|x changes IH]; intros a b E; cbn [changes_before] in E; [injection E as <- <-; done|].
  destruct (match beyond with Some k => key_ltb x.1 k | None => true end).
  - destruct (changes_before beyond changes) as [a' b'] eqn:E'. injection E as <- <-. specialize (IH _ _ eq_refl). cbn. lia.
  - injection E as <- <-. done.
Qed.

Section leaves.
Context `{Sha256} {S : Type} `{NodeStore S, !AddressedStore S} (s0 : S) (h : nat) (limits : NamespaceTreeLimits) (Hlim : limits_ok limits).
Implicit Types (ns : list Bytes) (es : NamespaceEntries) (ess : list NamespaceEntries) (items : list SpineItem).
#[local] Notation stood := (stood s0 h).
#[local] Notation old_at := (old_at s0 h).
#[local] Notation item_at := (item_at s0 h).
#[local] Notation at_level := (at_level s0 h).
#[local] Notation child_at := (child_at s0 h).

(** Every entry from an item on has its key or a later one. *)
Lemma from_head i es items ess r : stood i es -> sorted_recs (concat (es :: ess)) -> r ∈ concat (es :: ess) -> key_ltb r.1 (it_key i) = false.
Proof.
  intros (d & _ & _ & _ & (e & rest & -> & Ek) & _) Hs Hr. unfold it_key. rewrite Ek. cbn [concat app] in *. destruct e as [k v].
  apply sorted_recs_cons in Hs as [Hk _]. rewrite Forall_forall in Hk. apply elem_of_cons in Hr as [->|Hr]; [apply not_true_is_false, key_lt_irrefl|].
  apply not_true_is_false. intros Hlt. cbn in Hlt. pose proof (Hk r Hr) as Hlt'. cbn in Hlt'. apply (key_lt_irrefl k). by transitivity r.1.
Qed.
Lemma before_head i es items ess m r : stood i es -> sorted_recs (m ++ concat (es :: ess)) -> r ∈ m -> key_lt r.1 (it_key i).
Proof.
  intros (d & _ & _ & _ & (e & rest & -> & Ek) & _) (Hlt & _)%sorted_recs_app Hr. unfold it_key. rewrite Ek. apply Hlt; [done|]. by left.
Qed.

(** Changes up to the next item fall in the window, the others after it. *)
Lemma window_parts wes taken more rest changes items ess : sorted_recs (wes ++ concat ess) -> sorted_recs (taken ++ changes) ->
  changes_before (it_key <$> head items) changes = (more, rest) -> Forall2 stood items ess ->
  (forall c r, c ∈ taken -> r ∈ concat ess -> key_lt c.1 r.1) ->
  (forall c r, c ∈ taken ++ more -> r ∈ concat ess -> key_lt c.1 r.1) /\ sorted_recs ((taken ++ more) ++ rest) /\ changes = more ++ rest /\
  apply_changes (taken ++ changes) (wes ++ concat ess) = apply_changes (taken ++ more) wes ++ apply_changes rest (concat ess).
Proof.
  intros Hs Hc Eb H2 Ht. pose proof Hc as (_ & _ & Hc')%sorted_recs_app. destruct (changes_before_ok _ _ Hc' _ _ Eb) as (-> & H1 & H3 & H4).
  assert (forall c r, c ∈ taken ++ more -> r ∈ concat ess -> key_lt c.1 r.1) as Hlt.
  { intros c r [Hin|Hin]%elem_of_app Hr; [by apply Ht|]. destruct H2 as [|i es items ess Hi H2]; [by apply not_elem_of_nil in Hr|].
    eapply lt_le_lt; [by eapply H1|]. apply (from_head i es items ess r Hi); [|done]. by apply sorted_recs_app in Hs as (_ & _ & ?). }
  rewrite app_assoc in Hc. split_and!; [done|done|done|]. rewrite app_assoc. apply changes_parts; [done|done|done|].
  intros r c Hr Hin. destruct H2 as [|i es items ess Hi H2]; [rewrite H4 in Hin by done; by apply not_elem_of_nil in Hin|].
  eapply lt_le_lt; [by eapply before_head|]. by eapply H3.
Qed.

Lemma chunk_hold rs es : Forall2 (record_holds s0 h) rs es -> fits es -> exists ess, concat ess = es /\
  Forall2 (child_at (concat (leaf_nodes limits <$> leaf_groups limits rs)) 0) (leaves_of limits rs) ess.
Proof.
  intros H2 Hf. destruct (leaves_hold limits Hlim s0 h rs es H2 Hf) as (ess & E & Hl). exists ess. split; [done|].
  assert (Forall record_ok rs) as Hok by (clear -H2; induction H2; constructor; [by eapply record_holds_ok|done]).
  assert (Forall child_ok (leaves_of limits rs)) as Hc.
  { apply leaves_ok; [done|]. rewrite (Forall2_length _ _ _ H2). unfold fits in Hf. lia. }
  clear -Hl Hc. induction Hl as [|c es cs ess [H1 H2] _ IH]; [constructor|]. apply Forall_cons in Hc as [Hc Hc'].
  constructor; [|by apply IH]. by split_and!.
Qed.

(** A window of leaves. *)
Lemma window_ok fuel : forall s window wes taken changes items ess,
  keeps_nodes s0 s -> Forall2 (record_holds s0 h) window wes -> Forall2 stood items ess -> sorted_recs (wes ++ concat ess) -> sorted_recs (taken ++ changes) ->
  Forall (change_ok h) (taken ++ changes) -> (forall c r, c ∈ taken -> r ∈ concat ess -> key_lt c.1 r.1) ->
  Z.of_nat (length (wes ++ concat ess) + length (taken ++ changes)) < 2 ^ 32 -> (weight items ess < fuel)%nat ->
  exists nodes cut cess rest items' ess',
    window_loop limits fuel window taken changes items s = (Ok (cut, rest, items'), adds nodes s) /\
    Forall2 (child_at nodes 0) cut cess /\ Forall2 stood items' ess' /\ (weight items' ess' <= weight items ess)%nat /\
    concat cess ++ apply_changes rest (concat ess') = apply_changes (taken ++ changes) (wes ++ concat ess) /\
    sorted_recs (concat ess') /\ (length (concat ess') <= length (concat ess))%nat /\ (exists used, changes = used ++ rest) /\
    (length rest <= length (changes_before (it_key <$> head items) changes).2)%nat.
Proof.
  induction fuel as [|fuel IH]; intros s window wes taken changes items ess Hs Hw Hi Hso Hc Hok Ht Hb Hf; [lia|]. cbn [window_loop].
  destruct (changes_before (it_key <$> head items) changes) as [more rest] eqn:Eb.
  destruct (window_parts wes taken more rest changes items ess Hso Hc Eb Hi Ht) as (Ht' & Hc' & -> & Eparts).
  rewrite app_assoc in Hok, Hb. pose proof Hok as [Hok1 _]%Forall_app. rewrite !length_app in Hb.
  pose proof Hc' as (_ & Hc1 & Hcr)%sorted_recs_app. pose proof Hso as (_ & Hsw & Hse)%sorted_recs_app.
  pose proof (merge_changes_ok s0 h window wes (taken ++ more) Hw Hok1) as Hm. rewrite merged_ok in Hm by done.
  destruct (chunk_hold _ _ Hm) as (cess & Ec & Hcut).
  { unfold fits. pose proof (changes_length (taken ++ more) wes). rewrite length_app in *. lia. }
  set (nodes := concat (leaf_nodes limits <$> leaf_groups limits (merge_changes window (taken ++ more)))) in *.
  assert (Forall record_ok (merge_changes window (taken ++ more))) as Hro by (clear -Hm; induction Hm; constructor; [by eapply record_holds_ok|done]).
  unfold mbind, st_bind at 1. rewrite (chunk_records_puts limits Hlim _ Hro s). fold nodes.
  assert (forall items' ess', items' = items -> ess' = ess -> exists nodes0 cut cess rest0 items'' ess'',
    (Ok (leaves_of limits (merge_changes window (taken ++ more)), rest, items'), adds nodes s) = (Ok (cut, rest0, items''), adds nodes0 s) /\
    Forall2 (child_at nodes0 0) cut cess /\ Forall2 stood items'' ess'' /\ (weight items'' ess'' <= weight items' ess')%nat /\
    concat cess ++ apply_changes rest0 (concat ess'') = apply_changes (taken ++ more ++ rest) (wes ++ concat ess) /\
    sorted_recs (concat ess'') /\ (length (concat ess'') <= length (concat ess'))%nat /\ (exists used, more ++ rest = used ++ rest0) /\
    (length rest0 <= length rest)%nat) as Hdone.
  { intros ? ? -> ->. exists nodes, (leaves_of limits (merge_changes window (taken ++ more))), cess, rest, items, ess. rewrite Eparts, <- Ec. split_and!; try done. by exists more. }
  destruct (leaf_open limits _) eqn:Eo; [|by apply Hdone]. destruct Hi as [|i es items ess Hi Hrest]; [by apply Hdone|].
  unfold mbind, st_bind at 1, st_get, st_lift. destruct Hi as (d & Ho). pose proof Ho as (Hd & _).
  assert (keeps_nodes s0 (adds nodes s)) as Hs' by (intros id b E; by apply adds_keeps, Hs).
  destruct (open_first_ok s0 h (adds nodes s) Hs' (Z.to_nat u8_max) d i es items ess) as (i' & es' & items' & ess' & E1 & E2 & E3 & E4 & E5); [unfold u8_max; lia|done|done|].
  unfold st_bind at 1. rewrite E1. pose proof E2 as (_ & _ & Htr & Hfi & _). destruct (read_leaf_records_ok s0 (adds nodes s) h _ es' Hs' Htr) as (rs & Er & Hrs).
  unfold st_bind at 1. rewrite Er. cbn [concat] in *. destruct (weight_pos s0 h i' es' items' ess' 0 E2) as [Hw1 Hw2].
  assert (length (es' ++ concat ess') = length (es ++ concat ess)) as El by (by rewrite E4). rewrite !length_app in El.
  rewrite <- E4 in Eparts, Ht', Hso.
  destruct (IH (adds nodes s) (window ++ rs) (wes ++ es') (taken ++ more) rest items' ess') as (nodes' & cut & cess' & rest' & items'' & ess'' & F1 & F2 & F3 & F4 & F5 & F6 & F7 & (used & F8) & F9);
    [done|by apply Forall2_app|done|by rewrite <- app_assoc|done|done| | |lia|].
  { intros c r Hin Hr. apply Ht'; [done|]. apply elem_of_app. by right. }
  { rewrite !length_app. rewrite length_app in Hb. lia. }
  rewrite <- !app_assoc in F5. exists (nodes ++ nodes'), cut, cess', rest', items'', ess''. rewrite adds_app. split_and!; [done| |done|lia| |done| | |].
  - eapply Forall2_impl; [exact F2|]. intros c x. apply child_after.
  - by rewrite F5, E4.
  - rewrite ?length_app. lia.
  - exists (more ++ used). by rewrite <- app_assoc, F8.
  - cbn [snd]. rewrite F8, length_app. lia.
Qed.

(** In the sequence of leaves: made, or standing unread. *)
Definition leaf_item ns (i : SpineItem) es : Prop := at_level ns 0 i es.

Lemma pass_before_ok key items ess passed rest : Forall2 stood items ess -> sorted_recs (concat ess) -> pass_before key items = (passed, rest) ->
  exists pess ress, ess = pess ++ ress /\ Forall2 stood passed pess /\ Forall2 stood rest ress /\ (weight rest ress <= weight items ess)%nat /\
    (forall r, r ∈ concat pess -> key_lt r.1 key) /\
    match rest with _ :: i :: _ => key_lt key (it_key i) | _ => True end.
Proof.
  intros H2. revert passed rest. induction H2 as [|i es items ess Hi H2 IH]; intros passed rest Hs E.
  { injection E as <- <-. exists [], []. split_and!; [done..|by intros r ?%not_elem_of_nil|done]. }
  destruct H2 as [|i' es' items ess Hi' H2].
  { injection E as <- <-. exists [], [es]. split_and!; [done|constructor|by repeat constructor|done|by intros r ?%not_elem_of_nil|done]. }
  change (pass_before key (i :: i' :: items)) with
    (if key_ltb key (it_key i') then ([], i :: i' :: items) else let '(passed, rest) := pass_before key (i' :: items) in (i :: passed, rest)) in E.
  destruct (key_ltb key (it_key i')) eqn:Ek.
  - injection E as <- <-. exists [], (es :: es' :: ess). split_and!; [done|constructor|by repeat constructor|done|by intros r ?%not_elem_of_nil|done].
  - destruct (pass_before key (i' :: items)) as [p r] eqn:Ep. injection E as <- <-. cbn [concat] in Hs. pose proof Hs as (_ & _ & Hs')%sorted_recs_app.
    destruct (IH p r Hs' eq_refl) as (pess & ress & Ee & H3 & H4 & H5 & H6 & H7). exists (es :: pess), ress. rewrite Ee. split_and!; [done|by constructor|done| | |done].
    + destruct Hi as (d & Ho). pose proof (weight_pos s0 h i es (i' :: items) (es' :: ess) d Ho). rewrite Ee in *. lia.
    + intros x [Hx|Hx]%elem_of_app; [|by apply H6]. eapply lt_le_lt; [|exact Ek]. apply (before_head i' es' items ess es x Hi'); done.
Qed.

Lemma leaves_ok_loop fuel : forall s ns leaves dss items ess changes,
  keeps_nodes s0 s -> Forall2 (leaf_item ns) leaves dss -> Forall2 stood items ess -> sorted_recs (concat ess) -> sorted_recs changes -> Forall (change_ok h) changes ->
  Z.of_nat (length (concat ess) + length changes) < 2 ^ 32 -> (weight items ess + length changes < fuel)%nat ->
  exists nodes leaves' ess', leaves_loop limits fuel items leaves changes s = (Ok leaves', adds nodes s) /\
    Forall2 (leaf_item (ns ++ nodes)) leaves' ess' /\ concat ess' = concat dss ++ apply_changes changes (concat ess).
Proof.
  induction fuel as [|fuel IH]; intros s ns leaves dss items ess changes Hs Hl Hi Hso Hc Hok Hb Hf; [lia|].
  assert (forall l k, Forall2 stood l k -> Forall2 (leaf_item ns) l k) as Hstood.
  { intros l k Hlk. eapply Forall2_impl; [exact Hlk|]. intros i es (d & Ho). apply (old_level s0 h ns 0 d); [lia|done]. }
  destruct changes as [|[key v] changes]; cbn [leaves_loop].
  { exists [], (leaves ++ items), (dss ++ ess). rewrite app_nil_r. split_and!; [done| |by rewrite concat_app]. apply Forall2_app; [done|by apply Hstood]. }
  destruct (pass_before key items) as [passed rest] eqn:Ep.
  destruct (pass_before_ok key items ess passed rest Hi Hso Ep) as (pess & ress & -> & Hp & Hr & Hwr & Hlt & Hnext). rewrite concat_app in Hso, Hb |- *.
  pose proof Hso as (_ & _ & Hsr)%sorted_recs_app. rewrite length_app in Hb. cbn [length] in Hb, Hf.
  assert (apply_changes ((key, v) :: changes) (concat pess ++ concat ress) = concat pess ++ apply_changes ((key, v) :: changes) (concat ress)) as ->.
  { apply (changes_parts []); [done|done|by intros ?? ?%not_elem_of_nil|]. intros r c Hrp Hin. apply Hlt in Hrp. apply sorted_recs_cons in Hc as [Hk _].
    rewrite Forall_forall in Hk. apply elem_of_cons in Hin as [->|Hin]; [done|]. cbn. transitivity key; [done|by apply Hk]. }
  rewrite app_assoc, <- concat_app. assert (Forall2 (leaf_item ns) (leaves ++ passed) (dss ++ pess)) as Hl' by (apply Forall2_app; [done|by apply Hstood]).
  unfold mbind, st_bind at 1, st_get.
  assert (forall window wes rest' ress', Forall2 (record_holds s0 h) window wes -> Forall2 stood rest' ress' -> sorted_recs (wes ++ concat ress') ->
    wes ++ concat ress' = concat ress -> (weight rest' ress' <= weight rest ress)%nat ->
    (match rest' with i :: _ => key_lt key (it_key i) | _ => True end) ->
    exists nodes leaves' ess', ('(cut, changes', rest0) ← window_loop limits fuel window [] ((key, v) :: changes) rest';
        leaves_loop limits fuel rest0 ((leaves ++ passed) ++ ((fun c => mkItem c 0 true) <$> cut)) changes') s = (Ok leaves', adds nodes s) /\
      Forall2 (leaf_item (ns ++ nodes)) leaves' ess' /\ concat ess' = concat (dss ++ pess) ++ apply_changes ((key, v) :: changes) (concat ress)) as Hwindow.
  { intros window wes rest' ress' Hw Hr' Hsw Ee Hww Hhead.
    destruct (window_ok fuel s window wes [] ((key, v) :: changes) rest' ress') as (nodes & cut & cess & left & items' & ess' & E1 & H2 & H3 & H4 & H5 & H6 & H7 & (used & H8) & H9);
      [done|done|done|done|done|done|by intros ?? ?%not_elem_of_nil|rewrite Ee; cbn [app length]; lia|lia|].
    assert (length left <= length changes)%nat as Hlen.
    { destruct (changes_before (it_key <$> head rest') ((key, v) :: changes)) as [a b] eqn:Ebe. cbn [snd] in H9.
      pose proof (changes_before_head (it_key <$> head rest') (key, v) changes a b ltac:(by destruct rest') Ebe). lia. }
    assert (sorted_recs left /\ Forall (change_ok h) left) as [Hsl Hol].
    { rewrite H8 in Hc, Hok. split; [by apply sorted_recs_app in Hc as (_ & _ & ?)|by apply Forall_app in Hok as [_ ?]]. }
    assert (length (concat ess') <= length (concat ress))%nat as Hel by (rewrite <- Ee, length_app; lia).
    unfold mbind, st_bind. rewrite E1.
    destruct (IH (adds nodes s) (ns ++ nodes) ((leaves ++ passed) ++ ((fun c => mkItem c 0 true) <$> cut)) ((dss ++ pess) ++ cess) items' ess' left) as (nodes' & leaves' & ess'' & F1 & F2 & F3);
      [by intros id b E; apply adds_keeps, Hs| |done|done|done|done|lia|lia|].
    { apply Forall2_app; [eapply Forall2_impl; [exact Hl'|]; intros i es; apply level_more|]. apply Forall2_fmap_l. eapply Forall2_impl; [exact H2|].
      intros c es Hce. left. split; [done|]. by apply child_after. }
    exists (nodes ++ nodes'), leaves', ess''. rewrite adds_app, app_assoc. split_and!; [done|done|]. rewrite F3, concat_app, <- app_assoc. f_equal. cbn [app] in H5. by rewrite H5, Ee. }
  destruct Hr as [|i es rest ress (d & Ho) Hr].
  - apply (Hwindow [] [] [] []); [constructor|constructor|constructor|done|done|done].
  - pose proof Ho as (Hd & El & Htree & _). destruct d as [|d].
    + rewrite El. change (0 <? Z.of_nat 0) with false. cbn match. unfold st_bind at 1, st_lift.
      destruct (read_leaf_records_ok s0 s h _ es Hs Htree) as (rs & -> & Hrs).
      apply (Hwindow rs es rest ress); [done|done|done|done| |by destruct rest]. pose proof (weight_pos s0 h i es rest ress 0 Ho). lia.
    + assert ((0 <? it_level i) = true) as -> by (apply Z.ltb_lt; lia). destruct (expand_ok s0 h s Hs d i es Ho) as (children & cess & Ee & _ & Ec & Hch).
      unfold st_bind at 1, st_lift. rewrite Ee. pose proof (expand_weight s0 h d i es children cess rest ress Ho Hch Ec) as Hw.
      destruct (IH s ns (leaves ++ passed) (dss ++ pess) (children ++ rest) (cess ++ ress) ((key, v) :: changes)) as (nodes & leaves' & ess' & F1 & F2 & F3); try done.
      * apply Forall2_app; [by eapply stood_all|done].
      * rewrite concat_app, <- Ec. done.
      * rewrite concat_app, <- Ec. cbn [length]. cbn [concat] in Hb. lia.
      * cbn [length]. lia.
      * exists nodes, leaves', ess'. split_and!; [done|done|]. rewrite F3, (concat_app cess), <- Ec. done.
Qed.
End leaves.
