(* ===== verification/NamespaceLevels.v ===== *)
(** * The levels of an updated namespace tree

    Regrouping the spine above a changed sequence of leaves, level by level,
    up to a root; and [update_namespace_tree] whole. *)

From S2P Require Import Prelude Sorts Maps Orders Codec TorrentRequest Journal Paths Metadata MetadataCodec MetadataRoundtrip MetadataDelta NamespaceTree NamespaceView NamespaceUpdate NamespaceNodes NamespaceReads NamespaceChanges NamespaceSplice.

Section levels.
Context `{Sha256} {S : Type} `{NodeStore S, !AddressedStore S} (s0 : S) (h : nat) (limits : NamespaceTreeLimits) (Hlim : limits_ok limits).
Implicit Types (ns : list Bytes) (es : NamespaceEntries) (ess : list NamespaceEntries) (items : list SpineItem).
#[local] Notation stood := (stood s0 h).
#[local] Notation old_at := (old_at s0 h).
#[local] Notation item_at := (item_at s0 h).
#[local] Notation at_level := (at_level s0 h).
#[local] Notation child_at := (child_at s0 h).
#[local] Notation parent_at := (parent_at s0 h).
#[local] Notation tree_will := (tree_will s0 h).

(** A branch over children. *)
Lemma node_over ns ns' D run ess : run <> [] -> Forall2 (child_at ns D) run ess -> fits run -> spine_bytes true (Datatypes.S D) run ∈ ns' ->
  child_at (ns ++ ns') (Datatypes.S D) (spine_child true (Datatypes.S D) run) (concat ess).
Proof.
  intros Hne H2 Hf Hin. assert (Forall child_ok run) as Hc by (clear -H2; induction H2 as [|c es run ess (_ & _ & ?) _ IH]; by constructor).
  split_and!; [|destruct H2 as [|c es run ess (_ & (e & rest & -> & Ek) & _) _]; [done|]; by exists e, (rest ++ concat ess)|by apply spine_child_ok].
  intros t Hk [Hn1 Hn2]%has_app. cbn [tree_at]. exists run, ess. split_and!; [by apply Hn2|done|done|done| |done].
  eapply Forall2_impl; [exact H2|]. intros c es (H3 & H4 & _). split; [by apply H3|done].
Qed.

Lemma run_fits (R : Child -> NamespaceEntries -> Prop) run ess (N : nat) : (forall c es, R c es -> first_of c es) -> Forall2 R run ess ->
  (length (concat ess) <= N)%nat -> Z.of_nat N < 2 ^ 32 -> fits run.
Proof.
  intros Hr H2 Hl Hn. unfold fits. rewrite (Forall2_length _ _ _ H2). enough (length ess <= length (concat ess))%nat by lia.
  apply length_concat_ge. clear -H2 Hr. induction H2 as [|c es run ess Hc _ IH]; constructor; [|done]. by eapply first_nonempty, Hr.
Qed.

(** ** The whole level *)

Lemma expand_same n s level items : Forall (fun i => it_level i = level) items -> expand_to n s level items = Ok items.
Proof.
  intros Hi. destruct n as [|n]; cbn [expand_to].
  - assert (forallb (fun i => it_level i <=? level) items = true) as ->; [|done]. apply forallb_forall. intros i Hin. rewrite Forall_forall in Hi.
    apply Z.leb_le. rewrite Hi; [lia|]. by apply list_elem_of_In.
  - assert (forall out, foldM (fun out i => if level <? it_level i then children ← expand_item s i; l ← expand_to n s level children; Ok (out ++ l) else Ok (out ++ [i])) out items = Ok (out ++ items)) as Hg.
    { induction Hi as [|i items El _ IH]; intros out; cbn [foldM]; [by rewrite app_nil_r|]. rewrite El, Z.ltb_irrefl. cbn [mbind result_bind]. by rewrite IH, <- app_assoc. }
    apply Hg.
Qed.
Lemma above_D ns D i es : at_level ns D i es -> (level_of D <? it_level i) = false -> item_at ns D i es.
Proof. intros [Hi|(d & Hd & Ho)] E; [done|]. destruct Ho as (Hd' & El & _). apply Z.ltb_ge in E. rewrite El, level_small in E; lia. Qed.
Lemma expand_to_ok n s ns D items ess : keeps_nodes s0 s -> Forall2 (at_level ns D) items ess ->
  Forall (fun i => it_level i - level_of D <= Z.of_nat n) items ->
  exists items' ess', expand_to n s (level_of D) items = Ok items' /\ Forall2 (item_at ns D) items' ess' /\ concat ess' = concat ess.
Proof.
  intros Hs. revert items ess. induction n as [|n IH]; intros items ess H2 Hn.
  - exists items, ess. assert (Forall2 (item_at ns D) items ess) as Hi.
    { induction H2 as [|i es items ess Hi _ IH2]; [constructor|]. apply Forall_cons in Hn as [Hn Hn']. constructor; [|by apply IH2].
      apply above_D; [done|]. apply Z.ltb_ge. lia. }
    split_and!; [|done|done]. apply (expand_same 0). clear -Hi. induction Hi as [|i es items ess [El _] _ IH]; by constructor.
  - assert (forall out, exists items' ess', foldM (fun out i => if level_of D <? it_level i then children ← expand_item s i; l ← expand_to n s (level_of D) children; Ok (out ++ l) else Ok (out ++ [i])) out items = Ok (out ++ items') /\
      Forall2 (item_at ns D) items' ess' /\ concat ess' = concat ess) as Hg; [|apply (Hg [])].
    induction H2 as [|i es items ess Hi H2 IH2]; intros out; cbn [foldM]; [exists [], []; by rewrite app_nil_r|].
    apply Forall_cons in Hn as [Hn Hn']. destruct (level_of D <? it_level i) eqn:El.
    + destruct Hi as [[El' _]|(d & Hd & Ho)]; [rewrite El', Z.ltb_irrefl in El; done|]. destruct d as [|d]; [lia|].
      destruct (expand_ok s0 h s Hs d i es Ho) as (children & cess & Ee & _ & Ec & Hch). rewrite Ee. cbn [mbind result_bind].
      destruct (IH children cess) as (l & less & El1 & Hl & Ecl).
      { eapply Forall2_impl; [exact Hch|]. intros c x Hc. apply (old_level s0 h ns D d); [lia|done]. }
      { destruct Ho as (Hd' & Eli & _). clear -Hch Hn Eli Hd Hd'. induction Hch as [|c x children cess (_ & Elc & _) _ IHc]; constructor; [lia|done]. }
      rewrite El1. cbn [mbind result_bind]. destruct (IH2 Hn' (out ++ l)) as (items' & ess' & Ef & Hf & Ecf).
      exists (l ++ items'), (less ++ ess'). rewrite app_assoc. split_and!; [done|by apply Forall2_app|]. rewrite concat_app, Ecl, Ecf. cbn. by rewrite Ec.
    + apply above_D in Hi; [|done]. cbn [mbind result_bind]. destruct (IH2 Hn' (out ++ [i])) as (items' & ess' & Ef & Hf & Ecf).
      exists (i :: items'), (es :: ess'). rewrite Ef, <- app_assoc. split_and!; [done|by constructor|]. cbn. by rewrite Ecf.
Qed.
Lemma level_gap ns D i es : at_level ns D i es -> it_level i - level_of D <= Z.of_nat (Z.to_nat u8_max).
Proof.
  intros [[El _]|(d & Hd & Hd' & El & _)]; unfold u8_max in *; [lia|]. pose proof (level_range D). lia.
Qed.

Lemma groups_hold ns D cs ess : Forall2 (child_at ns D) cs ess -> Z.of_nat (length (concat ess)) < 2 ^ 32 ->
  let target := branch_target_fanout limits in let maximum := branch_max_fanout limits in
  exists ess', concat ess' = concat ess /\
    Forall2 (child_at (ns ++ level_nodes true target maximum (Datatypes.S D) cs) (Datatypes.S D)) (up true target maximum (Datatypes.S D) cs) ess'.
Proof.
  intros H2 Hb target maximum. pose proof (groups_concat true target maximum (Datatypes.S D) cs) as Eg.
  assert (fits cs) as Hf by (eapply run_fits; [|exact H2|done|done]; intros c es (_ & ? & _); done).
  rewrite <- Eg in H2. apply Forall2_groups in H2 as (esss & -> & H2). exists (concat (A:=_) <$> esss). split; [symmetry; apply concat_concat|].
  assert (forall g, g ∈ groups true target maximum (Datatypes.S D) cs -> g <> [] /\ fits g /\
    spine_bytes true (Datatypes.S D) g ∈ level_nodes true target maximum (Datatypes.S D) cs) as Hg.
  { intros g Hin. pose proof (groups_nonempty true target maximum (Datatypes.S D) cs) as Hne. rewrite Forall_forall in Hne. split_and!; [by apply Hne| |].
    - apply (fits_le g cs Hf). rewrite <- Eg. by apply group_length.
    - unfold level_nodes, groups in *. apply elem_of_app. destruct (degenerate true target maximum (Datatypes.S D) cs); [right | left]; apply list_elem_of_fmap; eauto. }
  unfold up. revert Hg. generalize (level_nodes true target maximum (Datatypes.S D) cs). intros ns'. clear Eg Hf Hb.
  induction H2 as [|g gess gs esss Hgx _ IH]; intros Hg; [constructor|]. rewrite !fmap_cons. constructor.
  - destruct (Hg g ltac:(by left)) as (H3 & H4 & H5). by apply node_over.
  - apply IH. intros g' Hin. apply Hg. by right.
Qed.
Lemma items_children ns D items ess : Forall2 (item_at ns D) items ess -> Forall2 (child_at ns D) (it_child <$> items) ess.
Proof. intros H2. apply Forall2_fmap_l. eapply Forall2_impl; [exact H2|]. by intros i es [_ ?]. Qed.

Lemma exact_ok ns D s items ess : keeps_nodes s0 s -> Forall2 (at_level ns D) items ess -> Z.of_nat (length (concat ess)) < 2 ^ 32 ->
  exists nodes items' ess', splice_exact limits items (level_of D) s = (Ok items', adds nodes s) /\
    Forall2 (item_at (ns ++ nodes) (Datatypes.S D)) items' ess' /\ concat ess' = concat ess /\
    (Forall2 (item_at ns D) items ess -> (1 < length items)%nat -> (length items' < length items)%nat).
Proof.
  intros Hs H2 Hb. destruct (expand_to_ok (Z.to_nat u8_max) s ns D items ess Hs H2) as (l & less & El & Hl & Ec).
  { clear -H2. induction H2 as [|i es items ess Hi _ IH]; constructor; [by eapply level_gap|done]. }
  rewrite <- Ec in Hb. pose proof (items_children _ _ _ _ Hl) as Hch. destruct (groups_hold ns D _ _ Hch Hb) as (ess' & Ee & Hup).
  unfold splice_exact, mbind, st_bind at 1, st_get. unfold st_bind at 1, st_lift, expand_spine_to. rewrite El. rewrite next_level.
  unfold st_bind at 1.
  assert (Forall child_ok (it_child <$> l)) as Hok by (clear -Hch; induction Hch as [|c es cs ess (_ & _ & ?) _ IH]; by constructor).
  rewrite (build_spine_level_puts true _ _ (Datatypes.S D) _ (lo_branch _ Hlim) Hok s). eexists _, _, ess'. split_and!; [done| |by rewrite Ee|].
  - apply Forall2_fmap_l. eapply Forall2_impl; [exact Hup|]. intros c es Hc. by split.
  - intros Hall Hlen. rewrite length_fmap. assert (l = items) as ->.
    { assert (expand_to (Z.to_nat u8_max) s (level_of D) items = Ok items) as E; [|congruence]. apply expand_same. clear -Hall.
      induction Hall as [|i es items ess [E _] _ IH]; by constructor. }
    pose proof (up_shorter true (branch_target_fanout limits) (branch_max_fanout limits) (Datatypes.S D) (it_child <$> items) (lo_branch _ Hlim)) as Hu.
    rewrite length_fmap in Hu. by apply Hu.
Qed.

(** ** Groups kept and made *)

Lemma flush_ok ns D s p pess ress : Forall2 (parent_at ns D) (sc_parents p) pess -> Forall2 (child_at ns D) (sc_run p) ress -> Z.of_nat (length (concat ress)) < 2 ^ 32 ->
  exists nodes p' pess', flush_group (level_of (Datatypes.S D)) p s = (Ok p', adds nodes s) /\ Forall2 (parent_at (ns ++ nodes) D) (sc_parents p') pess' /\
    concat pess' = concat pess ++ concat ress /\ sc_run p' = [] /\ sc_passed p' = sc_passed p.
Proof.
  intros Hp Hr Hb. unfold flush_group. destruct (sc_run p) as [|c run] eqn:E.
  { apply Forall2_nil_inv_l in Hr as ->. exists [], p, pess. rewrite !app_nil_r. by split_and!. }
  assert (Forall child_ok (c :: run)) as Hok by (clear -Hr; induction Hr as [|c' es cs ess (_ & _ & ?) _ IH]; by constructor).
  unfold mbind, st_bind. rewrite (put_spine_node_puts true (Datatypes.S D) (c :: run) Hok s).
  eexists [_], _, (pess ++ [concat ress]). split_and!; [done| |by rewrite concat_app; cbn; rewrite app_nil_r|done|done].
  cbn [sc_parents]. apply Forall2_app; [eapply Forall2_impl; [exact Hp|]; intros i es; apply parent_more|]. constructor; [|constructor].
  left. split; [|done]. split; [done|]. cbn [it_child]. apply node_over; [done|done| |by left].
  eapply run_fits; [|exact Hr|done|done]. by intros c' es (_ & ? & _).
Qed.

Lemma splice_loop_ok fuel : forall ns D s items ess p pess ress sess,
  keeps_nodes s0 s -> Forall2 (at_level ns D) items ess -> Forall2 (parent_at ns D) (sc_parents p) pess -> Forall2 (child_at ns D) (sc_run p) ress ->
  Forall2 (at_level ns D) (sc_passed p) sess -> Z.of_nat (length (concat ress) + length (concat ess)) < 2 ^ 32 -> (weight items ess <= fuel)%nat ->
  exists nodes p' pess' sess', splice_loop limits fuel (level_of D) items p s = (Ok p', adds nodes s) /\
    Forall2 (parent_at (ns ++ nodes) D) (sc_parents p') pess' /\ concat pess' = concat pess ++ concat ress ++ concat ess /\
    Forall2 (at_level (ns ++ nodes) D) (sc_passed p') sess' /\ concat sess' = concat sess ++ concat ess.
Proof.
  assert (forall ns D s p pess ress sess fuel', Forall2 (parent_at ns D) (sc_parents p) pess -> Forall2 (child_at ns D) (sc_run p) ress ->
    Forall2 (at_level ns D) (sc_passed p) sess -> Z.of_nat (length (concat ress)) < 2 ^ 32 ->
    exists nodes p' pess' sess', splice_loop limits fuel' (level_of D) [] p s = (Ok p', adds nodes s) /\
      Forall2 (parent_at (ns ++ nodes) D) (sc_parents p') pess' /\ concat pess' = concat pess ++ concat ress ++ concat [] /\
      Forall2 (at_level (ns ++ nodes) D) (sc_passed p') sess' /\ concat sess' = concat sess ++ concat (A:=Bytes * FsEntry) []) as Hend.
  { intros ns D s p pess ress sess fuel' Hp Hr Hpa Hb. destruct (flush_ok ns D s p pess ress Hp Hr Hb) as (nodes & p' & pess' & E & Hp' & Ec & _ & Epa).
    exists nodes, p', pess', sess. rewrite Epa. cbn [concat]. rewrite !app_nil_r. split_and!; [|done|done| |done].
    - destruct fuel'; cbn [splice_loop]; by rewrite next_level.
    - eapply Forall2_impl; [exact Hpa|]. intros i es. apply level_more. }
  induction fuel as [|fuel IH]; intros ns D s items ess p pess ress sess Hs Hi Hp Hr Hpa Hb Hw.
  { destruct Hi as [|i es items ess Hi _]; [apply Hend; try done; lia|]. exfalso.
    destruct (at_level_first s0 h ns D i es Hi) as [(e & rest & -> & _) _]. cbn [weight length] in Hw. lia. }
  destruct Hi as [|i es items ess Hi Hrest]; [apply Hend; try done; lia|]. cbn [splice_loop]. cbn [concat] in Hb |- *. rewrite next_level. rewrite length_app in Hb.
  assert (length es + weight items ess <= weight (i :: items) (es :: ess))%nat as Hwi by (cbn [weight]; lia).
  assert (1 <= length es)%nat as Hes by (destruct (at_level_first s0 h ns D i es Hi) as [(e & rest & -> & _) _]; cbn; lia).
  destruct (it_level i =? level_of D) eqn:El.
  - assert (item_at ns D i es) as Hit by (apply above_D; [done|]; apply Z.eqb_eq in El; rewrite El; apply Z.ltb_irrefl).
    set (p1 := mkSplice (sc_parents p) (sc_run p ++ [it_child i]) (sc_passed p ++ [i]) (sc_several p) (sc_deeper p)).
    assert (Forall2 (child_at ns D) (sc_run p1) (ress ++ [es])) as Hr1 by (apply Forall2_app; [done|]; constructor; [by destruct Hit|constructor]).
    assert (Forall2 (at_level ns D) (sc_passed p1) (sess ++ [es])) as Hpa1 by (apply Forall2_app; [done|]; constructor; [by left|constructor]).
    unfold mbind, st_bind. match goal with |- context [if ?b then _ else mret p1] => destruct b end.
    + destruct (flush_ok ns D s p1 pess (ress ++ [es]) Hp Hr1) as (nodes & p' & pess' & E & Hp' & Ec & Erun & Epa).
      { rewrite concat_app, length_app. cbn. rewrite app_nil_r. lia. }
      rewrite E. destruct (IH (ns ++ nodes) D (adds nodes s) items ess p' pess' [] (sess ++ [es])) as (nodes' & p'' & pess'' & sess'' & F1 & F2 & F3 & F4 & F5);
        [by intros id b Eg; apply adds_keeps, Hs| |done|by rewrite Erun; constructor| |cbn; lia|lia|].
      { eapply Forall2_impl; [exact Hrest|]. intros j x. apply level_more. }
      { rewrite Epa. eapply Forall2_impl; [exact Hpa1|]. intros j x. apply level_more. }
      exists (nodes ++ nodes'), p'', pess'', sess''. rewrite adds_app, app_assoc. split_and!; [done|done| |done|].
      * rewrite F3, Ec, concat_app. cbn. rewrite app_nil_r, <- !app_assoc. done.
      * rewrite F5, concat_app. cbn. rewrite app_nil_r, <- app_assoc. done.
    + destruct (IH ns D s items ess p1 pess (ress ++ [es]) (sess ++ [es])) as (nodes' & p'' & pess'' & sess'' & F1 & F2 & F3 & F4 & F5); [done..| |lia|].
      { rewrite concat_app, length_app. cbn. rewrite app_nil_r. lia. }
      exists nodes', p'', pess'', sess''. split_and!; [done|done| |done|].
      * rewrite F3, concat_app. cbn. rewrite app_nil_r, <- app_assoc. done.
      * rewrite F5, concat_app. cbn. rewrite app_nil_r, <- app_assoc. done.
  - destruct Hi as [[El' _]|(d & Hd & Ho)]; [rewrite El', Z.eqb_refl in El; done|]. destruct (sc_run p) as [|c run] eqn:Erun.
    + apply Forall2_nil_inv_l in Hr as ->.
      destruct (IH ns D s items ess (mkSplice (sc_parents p ++ [i]) [] (sc_passed p ++ [i]) (sc_several p) (sc_deeper p || (level_of (Datatypes.S D) <? it_level i))) (pess ++ [es]) [] (sess ++ [es]))
        as (nodes' & p'' & pess'' & sess'' & F1 & F2 & F3 & F4 & F5); [done|done| |constructor| |cbn in *; lia|lia|].
      { cbn [sc_parents]. apply Forall2_app; [done|]. constructor; [|constructor]. right. eauto. }
      { cbn [sc_passed]. apply Forall2_app; [done|]. constructor; [|constructor]. right. eauto. }
      exists nodes', p'', pess'', sess''. split_and!; [done|done| |done|].
      * rewrite F3, concat_app. cbn. rewrite app_nil_r, <- !app_assoc. done.
      * rewrite F5, concat_app. cbn. rewrite app_nil_r, <- app_assoc. done.
    + destruct d as [|d]; [lia|]. destruct (expand_ok s0 h s Hs d i es Ho) as (children & cess & Ee & _ & Ec & Hch).
      unfold mbind, st_bind at 1, st_get. unfold st_bind at 1, st_lift. rewrite Ee. pose proof (expand_weight s0 h d i es children cess items ess Ho Hch Ec) as Hwe.
      destruct (IH ns D s (children ++ items) (cess ++ ess) p pess ress sess) as (nodes' & p'' & pess'' & sess'' & F1 & F2 & F3 & F4 & F5); [done| |done|by rewrite Erun|done| |lia|].
      { apply Forall2_app; [|done]. eapply Forall2_impl; [exact Hch|]. intros j x Hj. apply (old_level s0 h ns D d); [lia|done]. }
      { rewrite concat_app, length_app, <- Ec. lia. }
      exists nodes', p'', pess'', sess''. rewrite concat_app, <- Ec in F3, F5. by split_and!.
Qed.

Lemma left_edge_ok n s A d id es cs : keeps_nodes s0 s -> (1 <= A <= d)%nat -> (d <= 255)%nat -> (d - A <= n)%nat -> tree_at s0 h d id es ->
  read_spine_node s id = Ok (mkSpine (level_of d) cs) -> exists cs', left_edge n s (level_of A) (mkSpine (level_of d) cs) = Ok (mkSpine (level_of A) cs').
Proof.
  intros Hs. revert d id es cs. induction n as [|n IH]; intros d id es cs HA Hd Hn Ht Er.
  - assert (d = A) as -> by lia. exists cs. cbn [left_edge sp_level]. by rewrite Z.ltb_irrefl.
  - cbn [left_edge sp_level sp_children]. destruct (Z.ltb_spec (level_of A) (level_of d)) as [Hlt|Hge].
    + rewrite !level_small in Hlt by lia. destruct d as [|d]; [lia|]. destruct (read_spine_ok s0 h s Hs _ _ _ Ht) as (cs1 & Er1 & Hne & ess & -> & _ & H2).
      rewrite Er in Er1. injection Er1 as <-. destruct H2 as [|c x cs ess [Hx _] _]; [done|]. destruct (read_spine_ok s0 h s Hs _ _ _ Hx) as (cs2 & Er2 & _).
      rewrite Er2. cbn [mbind result_bind]. eapply IH; [lia|lia|lia|exact Hx|done].
    + assert (d = A) as -> by (rewrite !level_small in Hge by lia; lia). by exists cs.
Qed.
Lemma kept_several_ok ns D s parents pess : keeps_nodes s0 s -> Forall2 (parent_at ns D) parents pess -> exists b, kept_several limits s (level_of (Datatypes.S D)) parents = Ok b.
Proof.
  intros Hs. induction 1 as [|p es parents pess Hp _ IH]; cbn [kept_several]; [by eexists|]. destruct (it_fresh p) eqn:Ef; [done|].
  destruct Hp as [[_ ?]|(d & Hd & Hd' & El & Ht & _)]; [congruence|]. destruct (read_spine_ok s0 h s Hs _ _ _ Ht) as (cs & Er & _). rewrite Er. cbn [mbind result_bind].
  destruct (left_edge_ok (Z.to_nat u8_max) s (Datatypes.S D) d (ch_id (it_child p)) es cs Hs) as (cs' & ->); [lia|lia|unfold u8_max; lia|done|done|].
  cbn [mbind result_bind sp_level sp_children]. rewrite Z.eqb_refl. cbn [negb]. repeat case_match; eauto.
Qed.

Lemma splice_ok fuel ns D s items ess : keeps_nodes s0 s -> Forall2 (at_level ns D) items ess -> Z.of_nat (length (concat ess)) < 2 ^ 32 -> (weight items ess <= fuel)%nat ->
  (1 < length items)%nat ->
  exists nodes items' ess', splice_spine_level limits fuel items (level_of D) s = (Ok items', adds nodes s) /\
    Forall2 (at_level (ns ++ nodes) (Datatypes.S D)) items' ess' /\ concat ess' = concat ess /\ ((255 <= D)%nat -> (length items' < length items)%nat).
Proof.
  intros Hs H2 Hb Hw Hlen. unfold splice_spine_level.
  assert (forall ns' s' l less, keeps_nodes s0 s' -> Forall2 (at_level ns' D) l less -> concat less = concat ess ->
    exists nodes items' ess', splice_exact limits l (level_of D) s' = (Ok items', adds nodes s') /\
      Forall2 (at_level (ns' ++ nodes) (Datatypes.S D)) items' ess' /\ concat ess' = concat ess /\ (Forall2 (item_at ns' D) l less -> (1 < length l)%nat -> (length items' < length l)%nat)) as Hex.
  { intros ns' s' l less Hs' Hl Ec. destruct (exact_ok ns' D s' l less Hs' Hl) as (nodes & items' & ess' & E & Hi & Ec' & Hsh); [by rewrite Ec|].
    exists nodes, items', ess'. split_and!; [done| |by rewrite Ec'|done]. eapply Forall2_impl; [exact Hi|]. intros i es Hie. by left. }
  destruct (forallb (fun i => it_level i =? level_of D) items) eqn:Eall.
  - destruct (Hex ns s items ess Hs H2 eq_refl) as (nodes & items' & ess' & E & Hi & Ec & Hsh). exists nodes, items', ess'. split_and!; [done|done|done|].
    intros _. apply Hsh; [|done]. rewrite forallb_forall in Eall. clear -H2 Eall. induction H2 as [|i es items ess Hi _ IH]; constructor.
    + apply above_D; [done|]. specialize (Eall i ltac:(by left)). apply Z.eqb_eq in Eall. rewrite Eall. apply Z.ltb_irrefl.
    + apply IH. intros x Hx. apply Eall. by right.
  - assert (D < 255)%nat as HD.
    { destruct (decide (D < 255)%nat) as [?|Hge]; [done|]. exfalso. apply not_true_iff_false in Eall. apply Eall. apply forallb_forall. clear -H2 Hge.
      induction H2 as [|i es items ess Hi _ IH]; intros x Hx; [done|]. destruct Hx as [<-|Hx]; [|by apply IH].
      destruct Hi as [[-> _]|(d & Hd & Hd' & _)]; [apply Z.eqb_refl|lia]. }
    destruct (splice_loop_ok fuel ns D s items ess (mkSplice [] [] [] false false) [] [] []) as (nodes & p & pess & sess & E & Hp & Ep & Hpa & Epa);
      [done|done|constructor|constructor|constructor|done|done|]. cbn [concat app] in Ep, Epa.
    assert (keeps_nodes s0 (adds nodes s)) as Hs' by (intros id b Eg; by apply adds_keeps, Hs).
    assert (exists nodes0 items' ess', splice_exact limits (sc_passed p) (level_of D) (adds nodes s) = (Ok items', adds nodes0 s) /\
      Forall2 (at_level (ns ++ nodes0) (Datatypes.S D)) items' ess' /\ concat ess' = concat ess /\ ((255 <= D)%nat -> (length items' < length items)%nat)) as Hexact.
    { destruct (Hex _ _ _ _ Hs' Hpa Epa) as (nodes1 & items' & ess' & E1 & H1 & H3 & _). exists (nodes ++ nodes1), items', ess'. rewrite adds_app, app_assoc.
      split_and!; [done|done|done|lia]. }
    assert (exists nodes0 items' ess', (Ok (sc_parents p), adds nodes s) = (Ok items', adds nodes0 s) /\
      Forall2 (at_level (ns ++ nodes0) (Datatypes.S D)) items' ess' /\ concat ess' = concat ess /\ ((255 <= D)%nat -> (length items' < length items)%nat)) as Hkeep.
    { exists nodes, (sc_parents p), pess. split_and!; [done| |done|lia]. eapply Forall2_impl; [exact Hp|]. intros i es. apply parent_level. }
    unfold mbind, st_bind at 1. rewrite E. destruct (_ && _); [done|]. destruct (sc_several p); [done|].
    unfold st_bind at 1, st_get. unfold st_bind at 1, st_lift. rewrite next_level.
    destruct (kept_several_ok _ D (adds nodes s) _ _ Hs' Hp) as ([] & ->); done.
Qed.

Lemma chain_foot_ok n s D d id es : keeps_nodes s0 s -> (d <= 255)%nat -> tree_at s0 h d id es ->
  exists d' id', chain_foot n s (Z.of_nat d) (level_of D) id = Ok id' /\ (d' <= d)%nat /\ tree_at s0 h d' id' es.
Proof.
  intros Hs. revert d id. induction n as [|n IH]; intros d id Hd Ht; cbn [chain_foot]; [by exists d, id|].
  destruct (level_of D <? Z.of_nat d) eqn:El; [|by exists d, id]. destruct (read_spine_ok s0 h s Hs _ _ _ Ht) as (cs & Er & Hcs). rewrite Er. cbn [mbind result_bind sp_children].
  destruct d as [|d]; [subst cs; by exists 0%nat, id|]. destruct Hcs as (Hne & ess & -> & _ & H2). destruct cs as [|c [|c' cs]]; [done| |by exists (Datatypes.S d), id].
  apply Forall2_cons_inv_l in H2 as (es & ess' & [Hc _] & Hnil & ->). apply Forall2_nil_inv_l in Hnil as ->.
  replace (Z.of_nat (Datatypes.S d) - 1) with (Z.of_nat d) by lia. cbn [concat] in IH |- *. rewrite app_nil_r in *.
  destruct (IH d (ch_id c) ltac:(lia) Hc) as (d' & id' & E & Hd' & Ht'). exists d', id'. split_and!; [done|lia|done].
Qed.

Lemma weight_bound ns D items ess : Forall2 (at_level ns D) items ess -> (weight items ess <= 256 * length (concat ess))%nat.
Proof.
  induction 1 as [|i es items ess Hi _ IH]; cbn [weight concat]; [lia|]. rewrite length_app.
  assert (Z.to_nat (it_level i) <= 255)%nat; [|nia]. destruct Hi as [[-> _]|(d & _ & Hd & -> & _)]; [pose proof (level_range D); lia|lia].
Qed.

Lemma levels_ok fuel : forall ns D s items ess, keeps_nodes s0 s -> Forall2 (at_level ns D) items ess -> Z.of_nat (length (concat ess)) < 2 ^ 32 ->
  let left := if decide (D < 255)%nat then length (concat ess) else length items in
  (256 * length (concat ess) + (255 - D) + left < fuel)%nat ->
  exists nodes root d, levels_loop limits fuel items (level_of D) s = (Ok root, adds nodes s) /\ tree_will (ns ++ nodes) d root (concat ess) /\ (d <= D + (255 - D) + left)%nat.
Proof.
  induction fuel as [|fuel IH]; intros ns D s items ess Hs H2 Hb left Hf; [lia|]. destruct items as [|i [|i' items]]; cbn [levels_loop].
  - apply Forall2_nil_inv_l in H2 as ->. exists [leaf_of []], (object_id (leaf_of [])), 0%nat. split_and!; [| |lia].
    + unfold empty_leaf. unfold mbind, st_bind, st_lift.
      assert (Writer.run (Writer.fixed leaf_magic ;;; Writer.u32 0) = Ok (leaf_of [])) as ->; [|apply put_adds].
      apply writes_run. unfold leaf_of. cbn [concat length]. rewrite app_nil_r. apply (writes_seq _ _ _ _ (writes_fixed _) (writes_u32 _)).
    + intros t _ [_ Hn]%has_app. cbn [tree_at concat]. exists []. split_and!; [constructor|unfold fits; cbn; lia|]. apply Hn. by left.
  - apply Forall2_cons_inv_l in H2 as (es & ess' & Hi & Hnil & ->). apply Forall2_nil_inv_l in Hnil as ->. cbn [concat]. rewrite app_nil_r.
    unfold mbind, st_bind, st_get, st_lift. destruct Hi as [[El Hc]|(d & Hd & Hd' & El & Ht & _)].
    + exists [], (ch_id (it_child i)), D. rewrite app_nil_r. split_and!; [|by destruct Hc|lia].
      destruct (Z.to_nat u8_max); cbn [chain_foot]; rewrite ?El, ?Z.ltb_irrefl; done.
    + rewrite El. destruct (chain_foot_ok (Z.to_nat u8_max) s D d (ch_id (it_child i)) es Hs Hd' Ht) as (d' & id' & -> & Hdd & Ht').
      exists [], id', d'. split_and!; [done| |lia]. intros t Hk _. by eapply tree_kept.
  - pose proof (weight_bound ns D _ _ H2) as Hw. unfold mbind, st_bind.
    destruct (splice_ok fuel ns D s (i :: i' :: items) ess Hs H2 Hb) as (nodes & items' & ess' & E & Hi & Ec & Hsh); [lia|cbn; lia|].
    rewrite E, next_level.
    assert (length items' <= length (concat ess))%nat as Hcnt.
    { rewrite <- Ec. eapply count_le; [|exact Hi]. intros j x Hj. by apply (at_level_first s0 h) in Hj as [? _]. }
    destruct (IH (ns ++ nodes) (Datatypes.S D) (adds nodes s) items' ess') as (nodes' & root & d & E' & Ht & Hd').
    + intros id b Eg. by apply adds_keeps, Hs.
    + done.
    + by rewrite Ec.
    + rewrite Ec. subst left. repeat case_decide; cbn [length] in *; lia.
    + exists (nodes ++ nodes'), root, d. rewrite adds_app, app_assoc. rewrite Ec in Ht, Hd'. split_and!; [done|done|]. subst left. repeat case_decide; cbn [length] in *; lia.
Qed.

(** ** The update *)

(** The leaf sequence, from the root. *)
Lemma leaves_from_root fuel d root E key v changes : tree_at s0 h d root E -> (d <= 255)%nat -> sorted_recs E -> sorted_recs ((key, v) :: changes) ->
  Forall (change_ok h) ((key, v) :: changes) -> Z.of_nat (length E + length ((key, v) :: changes)) < 2 ^ 32 -> (256 * length E + length ((key, v) :: changes) + 1 < fuel)%nat ->
  exists nodes leaves ess, leaves_loop limits fuel [mkItem (mkChild [] root 0) (level_of d) false] [] ((key, v) :: changes) s0 = (Ok leaves, adds nodes s0) /\
    Forall2 (at_level nodes 0) leaves ess /\ concat ess = apply_changes ((key, v) :: changes) E.
Proof.
  intros Ht Hd Hs Hc Hok Hb Hf. destruct fuel as [|fuel]; [lia|]. cbn [leaves_loop pass_before]. unfold mbind, st_bind at 1, st_get. cbn [it_level it_child ch_id].
  assert (keeps_nodes s0 s0) as Hk by by intros ???. destruct d as [|d].
  - change (0 <? level_of 0) with false. cbn match. destruct (read_leaf_records_ok s0 s0 h root E Hk Ht) as (rs & Er & Hrs). unfold st_bind at 1, st_lift. rewrite Er. cbn [app].
    destruct (window_ok s0 h limits Hlim fuel s0 rs E [] ((key, v) :: changes) [] []) as (nodes & cut & cess & rest & items' & ess' & E1 & H2 & H3 & H4 & H5 & H6 & H7 & (used & H8) & H9);
      [done|done|constructor|by rewrite app_nil_r|done|done|by intros ?? ?%not_elem_of_nil|rewrite app_nil_r; cbn [app]; lia|cbn; lia|].
    unfold st_bind. rewrite E1. assert (sorted_recs rest /\ Forall (change_ok h) rest /\ (length rest <= length ((key, v) :: changes))%nat) as (Hsr & Hor & Hlr).
    { rewrite H8 in Hc, Hok |- *. split_and!; [by apply sorted_recs_app in Hc as (_ & _ & ?)|by apply Forall_app in Hok as [_ ?]|rewrite length_app; lia]. }
    cbn [concat length weight] in H4, H7.
    destruct (leaves_ok_loop s0 h limits Hlim fuel (adds nodes s0) nodes ((fun c => mkItem c 0 true) <$> cut) cess items' ess' rest) as (nodes' & leaves & ess & F1 & F2 & F3);
      [by intros id b Eg; apply adds_keeps| |done|done|done|done|lia|lia|].
    { apply Forall2_fmap_l. eapply Forall2_impl; [exact H2|]. intros c es Hce. by left. }
    exists (nodes ++ nodes'), leaves, ess. rewrite adds_app. split_and!; [done|done|]. rewrite F3, H5. cbn [app concat]. by rewrite app_nil_r.
  - destruct (read_spine_ok s0 h s0 Hk _ _ _ Ht) as (cs & Er & Hne & ess & -> & Hok' & H2).
    assert ((0 <? level_of (Datatypes.S d)) = true) as -> by (apply Z.ltb_lt; rewrite level_small; lia). unfold st_bind at 1, st_lift, expand_item. cbn [it_level it_child ch_id].
    rewrite Er. cbn [mbind result_bind sp_level sp_children]. rewrite Z.eqb_refl. cbn [negb]. rewrite app_nil_r. set (items := _ <$> cs).
    assert (Forall2 (old_at d) items ess) as Hi.
    { subst items. clear -H2 Hok' Hd. revert Hok'. induction H2 as [|c es cs ess [H3 H4] _ IH]; intros Hc; [constructor|]. apply Forall_cons in Hc as [Hc Hc']. rewrite fmap_cons.
      constructor; [|by apply IH]. unfold old_at. cbn [it_level it_child]. split_and!; [lia| |done..]. rewrite level_small by done. unfold wrap8. rewrite Z.mod_small; lia. }
    destruct (leaves_ok_loop s0 h limits Hlim fuel s0 [] [] [] items ess ((key, v) :: changes)) as (nodes & leaves & less & F1 & F2 & F3);
      [done|constructor|by eapply stood_all|done|done|done|done| |].
    { rewrite (weight_at s0 h d items ess Hi). nia. }
    exists nodes, leaves, less. by split_and!.
Qed.

Lemma update_ok fuel d root E changes : tree_at s0 h d root E -> (d <= 255)%nat -> sorted_recs E -> sorted_recs changes -> Forall (change_ok h) changes ->
  Z.of_nat (length E + length changes) < 2 ^ 32 -> (257 * (length E + length changes) + 256 < fuel)%nat ->
  exists nodes root' d', update_namespace_tree limits fuel root changes s0 = (Ok root', adds nodes s0) /\ (d' <= 255 + length (apply_changes changes E))%nat /\
    (has_nodes (adds nodes s0) nodes -> tree_at (adds nodes s0) h d' root' (apply_changes changes E)).
Proof.
  intros Ht Hd Hs Hc Hok Hb Hf. destruct changes as [|[key v] changes].
  { exists [], root, d. split_and!; [done|lia|done]. }
  unfold update_namespace_tree, mbind, st_bind at 1, st_get. destruct (read_spine_ok s0 h s0 ltac:(by intros ???) _ _ _ Ht) as (cs & Er & _).
  unfold st_bind at 1, st_lift. rewrite Er. cbn [sp_level]. unfold st_bind.
  destruct (leaves_from_root fuel d root E key v changes Ht Hd Hs Hc Hok Hb ltac:(lia)) as (nodes & leaves & ess & E1 & H2 & Ee). rewrite E1.
  pose proof (changes_length ((key, v) :: changes) E) as Hl. rewrite <- Ee in *.
  destruct (levels_ok fuel nodes 0 (adds nodes s0) leaves ess) as (nodes' & root' & d' & E2 & Ht' & Hd'); [by intros id b Eg; apply adds_keeps|done|lia|rewrite decide_True by lia; lia|].
  rewrite decide_True in Hd' by lia. change (level_of 0) with 0 in E2. rewrite E2. exists (nodes ++ nodes'), root', d'. rewrite adds_app. split_and!; [done|lia|].
  intros Hn. apply Ht'; [|by rewrite <- adds_app in *]. intros id b Eg. by apply adds_keeps, adds_keeps.
Qed.
End levels.
