(* ===== verification/NamespaceUpdateClaims.v ===== *)
(** * What updating a namespace tree guarantees

    A change set does to a tree what it does to the map of its entries, and
    a delta applied to a tree-backed snapshot what it does to one with a
    map. *)

From S2P Require Import Prelude Sorts Maps Orders Codec TorrentRequest Journal Paths Metadata MetadataCodec MetadataRoundtrip MetadataDelta NamespaceTree NamespaceView NamespaceUpdate NamespaceNodes NamespaceReads NamespaceForms NamespaceClaims NamespaceChanges NamespaceSplice NamespaceLevels.

(** ** A delta as changes *)

Section overlay.
Context (E : NamespaceEntries).

(** The changes over [E] read as the map [M]. *)
Definition overlays (changes : NamespaceChanges) (M : NamespaceEntries) : Prop :=
  sorted_recs changes /\ sorted_recs M /\ forall p, alookup p M = match alookup p changes with Some v => v | None => alookup p E end.

Lemma overlays_set changes M p e : overlays changes M -> overlays (map_set p (Some e) changes) (map_set p e M).
Proof.
  intros (H1 & H2 & H3). split_and!; [by apply map_set_sorted..|]. intros q. rewrite !map_set_lookup. by destruct (decide (q = p)).
Qed.
Lemma overlays_erase changes M p : overlays changes M -> overlays (map_set p None changes) (map_erase p M).
Proof.
  intros (H1 & H2 & H3). split_and!; [by apply map_set_sorted|by apply map_erase_sorted|]. intros q. rewrite map_set_lookup, map_erase_lookup. by destruct (decide (q = p)).
Qed.
Lemma overlays_apply changes M : sorted_recs E -> overlays changes M -> apply_changes changes E = M.
Proof.
  intros He (H1 & H2 & H3). apply sorted_recs_ext; [by apply changes_sorted|done|]. intros p. rewrite changes_lookup by done. by rewrite H3.
Qed.
Lemma overlays_elem changes M p e : overlays changes M -> (p, Some e) ∈ changes -> (p, e) ∈ M.
Proof.
  intros (H1 & H2 & H3) Hin. apply alookup_Some_elem. rewrite H3. by rewrite (elem_alookup_Some p (Some e) changes).
Qed.

Lemma overlays_erases paths : forall changes M, overlays changes M -> Forall (fun p => normalize_path p <> root_path) paths ->
  exists M', apply_erases true paths M = Ok M' /\ overlays (foldl (fun m p => map_set (normalize_path p) None m) changes paths) M'.
Proof.
  induction paths as [|p paths IH]; intros changes M Ho Hp; [by exists M|]. apply Forall_cons in Hp as [Hp Hp']. unfold apply_erases. cbn [foldM foldl].
  rewrite bool_decide_false by done. cbn [mbind result_bind]. apply IH; [by apply overlays_erase|done].
Qed.
Lemma overlays_upserts upserts : forall changes M, overlays changes M ->
  overlays (foldl (fun m e => map_set (normalize_path e.1) (Some e.2) m) changes upserts) (apply_upserts upserts M).
Proof. induction upserts as [|[p e] upserts IH]; intros changes M Ho; [done|]. cbn. by apply IH, overlays_set. Qed.

Context `{Sha256} {S : Type} `{NodeStore S} (s : S) (h d fuel : nat) (root : ObjectId).
Lemma overlays_appends appends : (d + h < fuel)%nat -> tree_at s h d root E -> sorted_recs E -> forall changes M, overlays changes M ->
  match apply_appends appends M with
  | Ok M' => exists changes', foldM (append_change s fuel root) changes appends = Ok changes' /\ overlays changes' M' /\ (length changes' <= length changes + length appends)%nat
  | Throw x => foldM (append_change s fuel root) changes appends = Throw x
  end.
Proof.
  intros Hf Ht Hs. induction appends as [|[p a] appends IH]; intros changes M Ho; [exists changes; split_and!; [done|done|lia]|].
  set (q := normalize_path p). assert (q <> []) as Hq by (apply normal_nonempty, normalize_normal).
  assert (append_change s fuel root changes (p, a) = match alookup q M with
    | None => Throw (DecodeError "metadata delta append base mismatch")
    | Some e => e' ← apply_entry_append e q a; Ok (map_set q (Some e') changes) end) as Eq.
  { unfold append_change. cbn [fst snd]. fold q.
    assert (match alookup q changes with Some pending => Ok pending | None => namespace_tree_lookup s fuel root q true end = Ok (alookup q M)) as ->; [|done].
    destruct Ho as (_ & _ & ->). destruct (alookup q changes); [done|]. destruct (lookup_ok s h fuel d root E q true Hf Hq Ht Hs) as (got & -> & Hg).
    destruct (alookup q E) as [e|]; [|by rewrite Hg]. destruct Hg as (e' & -> & _ & He). by rewrite He. }
  assert (apply_appends ((p, a) :: appends) M = match alookup q M with
    | None => Throw (DecodeError "metadata delta append base mismatch")
    | Some e => e' ← apply_entry_append e q a; apply_appends appends (map_set q e' M) end) as ->.
  { unfold apply_appends. cbn [foldM fst snd]. fold q. destruct (alookup q M) as [e|]; [|done]. by destruct (apply_entry_append e q a). }
  cbn [foldM]. rewrite Eq. destruct (alookup q M) as [e|]; [|done]. destruct (apply_entry_append e q a) as [e'|x]; [|done]. cbn [mbind result_bind].
  specialize (IH _ _ (overlays_set changes M q e' Ho)). destruct (apply_appends appends (map_set q e' M)) as [M'|x]; [|done].
  destruct IH as (changes' & E1 & E2 & E3). exists changes'. split_and!; [done|done|]. pose proof (map_set_length q (Some e') changes). cbn [length]. lia.
Qed.
End overlay.

Lemma erases_spare_root mapped paths E E' : apply_erases mapped paths E = Ok E' -> Forall (fun p => normalize_path p <> root_path) paths.
Proof.
  revert E. induction paths as [|p paths IH]; intros E Ee; [constructor|]. unfold apply_erases in Ee. cbn [foldM] in Ee.
  destruct (bool_decide_reflect (normalize_path p = root_path)) as [_|Hne]; [done|]. constructor; [done|]. by eapply IH.
Qed.
(** Without the entries, erases only look for the root. *)
Lemma erases_unmapped paths E : Forall (fun p => normalize_path p <> root_path) paths -> apply_erases false paths E = Ok E.
Proof.
  induction 1 as [|p paths Hp _ IH]; [done|]. unfold apply_erases. cbn [foldM]. by rewrite bool_decide_false.
Qed.
Lemma edits_length {A} (f : NamespaceChanges -> A -> NamespaceChanges) (l : list A) m :
  (forall m a, (length (f m a) <= Datatypes.S (length m))%nat) -> (length (foldl f m l) <= length m + length l)%nat.
Proof. intros Hf. revert m. induction l as [|a l IH]; intros m; cbn; [lia|]. specialize (IH (f m a)). specialize (Hf m a). lia. Qed.

(** How many edits of entries a delta has. *)
Definition entry_edits (d : MetadataDelta) : nat := (length (md_erase_entries d) + length (md_upsert_entries d) + length (md_append_entries d))%nat.

Section claims.
Context `{Sha256} {S : Type} `{NodeStore S, !AddressedStore S} (limits : NamespaceTreeLimits).

Lemma delta_on_tree (s : S) (h d fuel : nat) (root : ObjectId) (E E1 E' : NamespaceEntries) (delta : MetadataDelta) :
  limits_ok limits -> tree_at s h d root E -> (d <= 255)%nat -> sorted_recs E ->
  apply_erases true (md_erase_entries delta) E = Ok E1 -> apply_appends (md_append_entries delta) (apply_upserts (md_upsert_entries delta) E1) = Ok E' ->
  entries_ok E' -> (height E' <= h)%nat -> (exists e, alookup root_path E' = Some e /\ fe_type e = directory) ->
  Z.of_nat (length E + entry_edits delta) < 2 ^ 32 -> (257 * (length E + entry_edits delta) + 256 + h < fuel)%nat ->
  exists nodes root' d', (apply_delta_to_namespace_tree limits fuel root delta s).2 = adds nodes s /\
    (no_collision s nodes -> apply_delta_to_namespace_tree limits fuel root delta s = (Ok root', adds nodes s) /\
       tree_at (adds nodes s) h d' root' E' /\ (d' + h < fuel)%nat).
Proof.
  intros Hlim Ht Hd Hs Ee Ea (Hs' & Hok & _) Hh (e0 & Er & Ed) Hb Hf. unfold entry_edits in *.
  assert (overlays E [] E) as Ho by (by split_and!; [constructor|..]).
  destruct (overlays_erases E (md_erase_entries delta) [] E Ho (erases_spare_root _ _ _ _ Ee)) as (E1' & Ee' & Ho1). rewrite Ee in Ee'. injection Ee' as <-.
  apply (overlays_upserts E (md_upsert_entries delta)) in Ho1.
  set (upserted := foldl _ _ (md_upsert_entries delta)) in Ho1.
  assert (length upserted <= length (md_erase_entries delta) + length (md_upsert_entries delta))%nat as Hlu.
  { unfold upserted. etransitivity; [apply edits_length; intros; apply map_set_length|]. apply Nat.add_le_mono_r. change (length (md_erase_entries delta)) with (length (A := Bytes * option FsEntry) [] + length (md_erase_entries delta))%nat.
    apply edits_length. intros; apply map_set_length. }
  pose proof (overlays_appends E s h d fuel root (md_append_entries delta) ltac:(lia) Ht Hs _ _ Ho1) as Hap. rewrite Ea in Hap. destruct Hap as (changes & Ec & Ho2 & Hlc).
  destruct (update_ok s h limits Hlim fuel d root E changes Ht Hd Hs) as (nodes & root' & d' & Eu & Hd' & Ht'); [by destruct Ho2| |lia|lia|].
  { apply Forall_forall. intros [p [e|]] Hin; [|done]. pose proof (overlays_elem E _ _ p e Ho2 Hin) as He. rewrite Forall_forall in Hok. destruct (Hok _ He) as [H1 H2].
    pose proof (height_elem _ _ He). cbn in *. split_and!; [done|done|lia]. }
  rewrite (overlays_apply E changes E' Hs Ho2) in Ht', Hd'. assert (length E' <= length E + length changes)%nat as Hl by (rewrite <- (overlays_apply E changes E' Hs Ho2); apply changes_length).
  exists nodes, root', d'. unfold apply_delta_to_namespace_tree. fold upserted. unfold mbind, st_bind at 1 6, st_get. unfold st_bind at 1 5, st_lift. rewrite Ec. unfold st_bind at 1 4. rewrite Eu. unfold st_bind.
  split; [destruct (namespace_tree_lookup _ _ _ _ _) as [[e|]|x]; [|done|done]; by destruct (bool_decide _)|].
  intros Hn. specialize (Ht' (adds_has nodes s Hn)). split_and!; [|done|lia].
  destruct (lookup_ok (adds nodes s) h fuel d' root' E' root_path false ltac:(lia) ltac:(done) Ht' Hs') as (got & -> & Hg). rewrite Er in Hg. destruct Hg as (e' & -> & Est & _).
  assert (fe_type e' = fe_type e0) as Et by (injection Est; auto). by rewrite Et, bool_decide_true.
Qed.

(** C11. Updating a tree does to it what the changes do to the map. From any
    tree of at most 255 levels over a store, applying a change set always
    returns a root; the store keeps every node it had, so the old root still
    reads as it did; and unless two of the nodes written have one address, the
    new root is the root of a tree again, which reads as the old map with each
    changed path set or erased and every other path as it was. *)
Theorem update_refines (s : S) (h d fuel : nat) (root : ObjectId) (E : NamespaceEntries) (changes : NamespaceChanges) :
  limits_ok limits -> tree_at s h d root E -> (d <= 255)%nat -> sorted_recs E -> sorted_recs changes -> Forall (change_ok h) changes ->
  Z.of_nat (length E + length changes) < 2 ^ 32 -> (257 * (length E + length changes) + 256 + h < fuel)%nat ->
  exists nodes root', update_namespace_tree limits fuel root changes s = (Ok root', adds nodes s) /\
    read_namespace_tree (adds nodes s) fuel root = Ok E /\
    (no_collision s nodes -> exists d' E', tree_at (adds nodes s) h d' root' E' /\ read_namespace_tree (adds nodes s) fuel root' = Ok E' /\
       forall p, alookup p E' = match alookup p changes with Some v => v | None => alookup p E end).
Proof.
  intros Hlim Ht Hd Hs Hc Hok Hb Hf. destruct (update_ok s h limits Hlim fuel d root E changes Ht Hd Hs Hc Hok Hb ltac:(lia)) as (nodes & root' & d' & Eu & Hd' & Ht').
  pose proof (changes_length changes E) as Hl. pose proof (changes_sorted changes E Hs) as Hs'. exists nodes, root'. split_and!; [done| |].
  - apply (read_tree_ok _ h fuel d); [lia| |done]. apply (tree_kept s _ h h); [apply adds_keeps|lia|done].
  - intros Hn. specialize (Ht' (adds_has nodes s Hn)). exists d', (apply_changes changes E). split_and!; [done| |intros p; by apply changes_lookup].
    apply (read_tree_ok _ h fuel d'); [lia|done|done].
Qed.

(** C12. A tree-backed replica applies a delta as one with a map does. Where
    applying a delta to a snapshot with a map of entries succeeds, applying it
    through the tree's own update to a tree of the same entries only adds
    nodes to the store, so that the old root still reads as it did; and unless
    two of the nodes it adds have one address, it returns a root, the snapshot
    whose namespace is the tree takes the delta too, with a result that
    differs from the map form's only in the namespace being that root, and
    attaching the namespace gives the map form's result. *)
Theorem delta_on_tree_refines (s : S) (h d fuel : nat) (root : ObjectId) (sn sn' : MetadataSnapshot) (delta : MetadataDelta) :
  limits_ok limits -> sn_namespace_root sn = None -> tree_at s h d root (sn_entries sn) -> (d <= 255)%nat -> sorted_recs (sn_entries sn) ->
  apply_metadata_delta None sn delta = Ok sn' -> entries_ok (sn_entries sn') -> (height (sn_entries sn') <= h)%nat ->
  Z.of_nat (length (sn_entries sn) + entry_edits delta) < 2 ^ 32 -> (257 * (length (sn_entries sn) + entry_edits delta) + 256 + h < fuel)%nat ->
  let applier := fun root delta => (apply_delta_to_namespace_tree limits fuel root delta s).1 in
  exists nodes root', (apply_delta_to_namespace_tree limits fuel root delta s).2 = adds nodes s /\
    read_namespace_tree (adds nodes s) fuel root = Ok (sn_entries sn) /\
    (no_collision s nodes ->
       apply_delta_to_namespace_tree limits fuel root delta s = (Ok root', adds nodes s) /\
       apply_metadata_delta (Some applier) (set_namespace (Some root) [] sn) delta = Ok (set_namespace (Some root') [] sn') /\
       attach_namespace (adds nodes s) fuel (set_namespace (Some root') [] sn') = Ok sn').
Proof.
  intros Hlim Hr Ht Hd Hs Ea He Hh Hb Hf applier. unfold apply_metadata_delta in Ea. rewrite Hr in Ea. cbn [mbind result_bind] in Ea.
  apply result_bind_Ok in Ea as (legacy & El & Ea). apply result_bind_Ok in Ea as (sequences & Esq & Ea). apply result_bind_Ok in Ea as (E1 & Ee & Ea).
  apply result_bind_Ok in Ea as (E' & Eap & Ea). apply result_bind_Ok in Ea as (catalogue & Ecat & Ea). apply result_bind_Ok in Ea as (batches & Ebat & Ea). cbn [andb] in Ea.
  destruct (alookup root_path E') as [e0|] eqn:Er; [|done]. destruct (bool_decide_reflect (fe_type e0 = directory)) as [Ed|]; [|done]. cbn [negb] in Ea. injection Ea as <-. cbn [sn_entries] in *.
  destruct (delta_on_tree s h d fuel root _ E1 E' delta Hlim Ht Hd Hs Ee Eap He Hh (ex_intro _ e0 (conj Er Ed)) Hb Hf) as (nodes & root' & d' & E2 & Hx).
  exists nodes, root'. split; [done|]. split; [apply (read_tree_ok _ h fuel d); [lia|by apply (tree_kept s _ h h); [apply adds_keeps|lia|]|done]|]. intros Hn. destruct (Hx Hn) as (Ed' & Ht' & Hf'). split_and!; [done| |].
  - unfold apply_metadata_delta. cbn [set_namespace sn_namespace_root]. unfold applier at 1. rewrite Ed'. cbn [fst mbind result_bind mret result_ret].
    change (sn_legacy_clock (set_namespace (Some root) [] sn)) with (sn_legacy_clock sn). rewrite El. cbn [mbind result_bind].
    change (sn_mutation_sequences (set_namespace (Some root) [] sn)) with (sn_mutation_sequences sn). rewrite Esq. cbn [mbind result_bind].
    cbv beta iota. rewrite erases_unmapped by (by eapply erases_spare_root). cbn [mbind result_bind].
    change (sn_catalogue_root (set_namespace (Some root) [] sn)) with (sn_catalogue_root sn). rewrite Ecat. cbn [mbind result_bind].
    change (sn_tombstone_batches (set_namespace (Some root) [] sn)) with (sn_tombstone_batches sn). by rewrite Ebat.
  - unfold attach_namespace. cbn [set_namespace sn_namespace_root sn_entries]. rewrite bool_decide_true by done. cbn [negb].
    rewrite (read_tree_ok _ h fuel d' root' E') by (done || apply He). cbn [mbind result_bind]. by rewrite Er, bool_decide_true.
Qed.
End claims.

(** ** A small update *)

#[local] Existing Instance Sample.sha.

Module UpdateSample.
Import TreeSample.
Definition d_ : Bytes := [x2f; x64].
Definition root : ObjectId := default (array_zero 32) (sn_namespace_root tree).
Lemma stands : exists d, (d <= 6)%nat /\ tree_at store 6 d root entries.
Proof.
  destruct (detached limits limits_fit snapshot empty eq_refl entries_fit nodes_apart) as (s' & Ed & _ & d & Hd & Ht). rewrite detaches in Ed.
  assert (tree = set_namespace (Some (tree_root limits (sn_entries snapshot))) [] snapshot /\ store = s') as [E1 E2] by (split; congruence).
  exists d. change (length (sn_entries snapshot)) with 6%nat in Hd. split; [done|]. unfold root. rewrite E1, E2. cbn [set_namespace sn_namespace_root default].
  change 6%nat with (height (sn_entries snapshot)). done.
Qed.
Definition file : FsEntry := data [extent 0 x07].
Lemma file_fits : entry_ok file.
Proof. apply data_fits; [cbn; lia|]. repeat constructor. eexists _, _. split; [reflexivity|lia]. Qed.
Definition changes : NamespaceChanges := [(b, None); (d_, Some file)].
Definition delta : MetadataDelta :=
  set_entry_edits [(d_, file)] [b] (mkDelta [] [] [] [] [] [] [] [] [] None None false [] unchanged None None None [] [] []).
Definition after : MetadataSnapshot := match apply_metadata_delta None snapshot delta with Ok sn => sn | Throw _ => snapshot end.
Lemma after_fits : entries_ok (sn_entries after).
Proof.
  change (sn_entries after) with (filter (fun e => e.1 <> b) entries ++ [(d_, file)]).
  split_and!; [repeat constructor| |vm_compute; reflexivity].
  repeat constructor; try (apply name_fits; cbn; lia); try apply dir_fits; apply data_fits; try (cbn; lia); repeat constructor; eexists _, _; (split; [reflexivity|lia]).
Qed.
End UpdateSample.

Lemma update_refines_witness :
  exists nodes root', update_namespace_tree TreeSample.limits 3000 UpdateSample.root UpdateSample.changes TreeSample.store = (Ok root', adds nodes TreeSample.store) /\
    read_namespace_tree (adds nodes TreeSample.store) 3000 UpdateSample.root = Ok TreeSample.entries /\
    (no_collision TreeSample.store nodes -> exists d' E', tree_at (adds nodes TreeSample.store) 6 d' root' E' /\
       read_namespace_tree (adds nodes TreeSample.store) 3000 root' = Ok E' /\
       forall p, alookup p E' = match alookup p UpdateSample.changes with Some v => v | None => alookup p TreeSample.entries end).
Proof.
  destruct UpdateSample.stands as (d & Hd & Ht).
  apply (update_refines TreeSample.limits TreeSample.store 6 d 3000 UpdateSample.root TreeSample.entries UpdateSample.changes).
  - exact TreeSample.limits_fit.
  - exact Ht.
  - lia.
  - apply TreeSample.entries_fit.
  - repeat constructor.
  - repeat constructor; try apply TreeSample.name_fits; try apply UpdateSample.file_fits; cbn; lia.
  - vm_compute. reflexivity.
  - change (length TreeSample.entries) with 6%nat. change (length UpdateSample.changes) with 2%nat. lia.
Defined.
(** The same update, run. *)
Example update_runs :
  match update_namespace_tree TreeSample.limits 3000 UpdateSample.root UpdateSample.changes TreeSample.store with
  | (Ok root', s') => read_namespace_tree s' 40 root' = Ok (sn_entries UpdateSample.after)
  | _ => False
  end.
Proof. vm_compute. reflexivity. Qed.

Lemma delta_on_tree_refines_witness :
  apply_metadata_delta None TreeSample.snapshot UpdateSample.delta = Ok UpdateSample.after /\
  let applier := fun root delta => (apply_delta_to_namespace_tree TreeSample.limits 3000 root delta TreeSample.store).1 in
  exists nodes root', (apply_delta_to_namespace_tree TreeSample.limits 3000 UpdateSample.root UpdateSample.delta TreeSample.store).2 = adds nodes TreeSample.store /\
    read_namespace_tree (adds nodes TreeSample.store) 3000 UpdateSample.root = Ok (sn_entries TreeSample.snapshot) /\
    (no_collision TreeSample.store nodes ->
       apply_delta_to_namespace_tree TreeSample.limits 3000 UpdateSample.root UpdateSample.delta TreeSample.store = (Ok root', adds nodes TreeSample.store) /\
       apply_metadata_delta (Some applier) (set_namespace (Some UpdateSample.root) [] TreeSample.snapshot) UpdateSample.delta = Ok (set_namespace (Some root') [] UpdateSample.after) /\
       attach_namespace (adds nodes TreeSample.store) 3000 (set_namespace (Some root') [] UpdateSample.after) = Ok UpdateSample.after).
Proof.
  split; [vm_compute; reflexivity|]. destruct UpdateSample.stands as (d & Hd & Ht).
  apply (delta_on_tree_refines TreeSample.limits TreeSample.store 6 d 3000 UpdateSample.root TreeSample.snapshot UpdateSample.after UpdateSample.delta).
  - exact TreeSample.limits_fit.
  - reflexivity.
  - exact Ht.
  - lia.
  - apply TreeSample.entries_fit.
  - vm_compute. reflexivity.
  - exact UpdateSample.after_fits.
  - vm_compute. lia.
  - vm_compute. reflexivity.
  - change (length (sn_entries TreeSample.snapshot)) with 6%nat. change (entry_edits UpdateSample.delta) with 2%nat. lia.
Defined.
(** The same delta, run. *)
Example delta_runs :
  match apply_delta_to_namespace_tree TreeSample.limits 3000 UpdateSample.root UpdateSample.delta TreeSample.store with
  | (Ok root', s') => attach_namespace s' 40 (set_namespace (Some root') [] UpdateSample.after) = Ok UpdateSample.after
  | _ => False
  end.
Proof. vm_compute. reflexivity. Qed.
