(* ===== verification/NamespaceReach.v ===== *)
(** * What a namespace tree reaches, and how two trees differ

    The children of a node, the nodes a tree holds, the nodes one tree holds
    that another does not, the statistics of a tree and the entries in which
    two trees differ, all of [src/src/metadata/namespace_tree.cpp].

    A vector the source appends to is what the program returns; a stack the
    source keeps with its top at the back has its top at the head. [fuel]
    bounds the depth of the recursions and the steps of the loops. *)

From S2P Require Import Prelude Sorts Maps Orders Codec TorrentRequest Journal Paths Metadata MetadataCodec MetadataDelta MetadataMerge NamespaceTree NamespaceView NamespaceUpdate.

(** ** The children of a node *)

Record NamespaceTreeChild : Type := mkTreeChild { tc_extent : bool; tc_id : ObjectId }.

(** A DATA extent, unless it is a hole. *)
Definition extent_child : Reader.prog (list NamespaceTreeChild) :=
  x ← read_extent; mret (if ex_hole x then [] else [mkTreeChild true (ex_id x)]).
Definition leaf_entry_children : Reader.prog (list NamespaceTreeChild) :=
  _ ← Reader.string path_limit;
  _ ← skip_leaf_entry_stat;
  form ← Reader.u8;
  if form =? extent_form_none then mret []
  else if form =? extent_form_inlined then l ← read_list extent_child; mret (concat l)
  else if form =? extent_form_external then _ ← Reader.u64; root ← Reader.fixed 32; mret [mkTreeChild false root]
  else bad "bad namespace tree extent form".
Definition branch_children (keyed : bool) : Reader.prog (list NamespaceTreeChild) :=
  b ← read_branch keyed; mret ((fun c => mkTreeChild false (ch_id c)) <$> b.2).
Definition namespace_tree_children (node : Bytes) : result (list NamespaceTreeChild) :=
  Reader.run (
    magic ← Reader.fixed 4;
    children ← (if bool_decide (magic = leaf_magic) then l ← read_list leaf_entry_children; mret (concat l)
                else if bool_decide (magic = branch_magic) then branch_children true
                else if bool_decide (magic = extent_leaf_magic) then l ← read_list extent_child; mret (concat l)
                else if bool_decide (magic = extent_branch_magic) then branch_children false
                else bad "not a namespace tree node");
    _ ← Reader.finish; mret children) node.

(** ** Shapes *)

(** A branch's children, or a leaf's paths with their external extent roots. *)
Record NodeShape : Type := mkShape { sh_leaf : bool; sh_children : list (Bytes * ObjectId); sh_entries : list (Bytes * option ObjectId) }.

Definition read_shape_entry : Reader.prog (Bytes * option ObjectId) :=
  path ← Reader.string path_limit;
  _ ← skip_leaf_entry_stat;
  form ← Reader.u8;
  if form =? extent_form_none then mret (path, None)
  else if form =? extent_form_inlined then _ ← read_list read_extent; mret (path, None)
  else if form =? extent_form_external then _ ← Reader.u64; root ← Reader.fixed 32; mret (path, Some root)
  else bad "bad namespace tree extent form".

Definition external_roots (entries : list (Bytes * option ObjectId)) : list ObjectId := omap snd entries.

Section reach.
Context {S : Type} `{NodeStore S} (s : S).

Definition read_shape (id : ObjectId) : result NodeShape :=
  encoded ← fetch s node_unavailable id;
  Reader.run (
    magic ← Reader.fixed 4;
    if bool_decide (magic = leaf_magic) then l ← read_list read_shape_entry; _ ← Reader.finish; mret (mkShape true [] l)
    else if bool_decide (magic = branch_magic) then
      b ← read_branch true; _ ← Reader.finish; mret (mkShape false ((fun c => (ch_first_key c, ch_id c)) <$> b.2) [])
    else bad "not a namespace tree node") encoded.

(** A list of results, appended in order. *)
Definition collect_each {A} (f : A -> result (list ObjectId)) (l : list A) : result (list ObjectId) :=
  foldM (fun out a => more ← f a; Ok (out ++ more)) [] l.

(** The extent nodes at and below a node. *)
Fixpoint collect_extent_spine (fuel : nat) (id : ObjectId) : result (list ObjectId) :=
  match fuel with
  | O => Throw OutOfFuel
  | Datatypes.S fuel =>
      encoded ← fetch s "namespace tree extent node unavailable" id;
      children ← Reader.run (
        magic ← Reader.fixed 4;
        if bool_decide (magic = extent_leaf_magic) then mret []
        else if bool_decide (magic = extent_branch_magic) then b ← read_branch false; mret (ch_id <$> b.2)
        else bad "not a namespace tree extent node") encoded;
      below ← collect_each (collect_extent_spine fuel) children;
      Ok (id :: below)
  end.

Fixpoint collect_all (fuel : nat) (id : ObjectId) : result (list ObjectId) :=
  match fuel with
  | O => Throw OutOfFuel
  | Datatypes.S fuel =>
      shape ← read_shape id;
      below ← (if sh_leaf shape then collect_each (collect_extent_spine fuel) (external_roots (sh_entries shape))
               else collect_each (fun c => collect_all fuel c.2) (sh_children shape));
      Ok (id :: below)
  end.

(** The old node's shape, if it can be read and is of the kind. *)
Definition old_shape (leaf : bool) (before : option ObjectId) : option NodeShape :=
  match before with
  | None => None
  | Some b => match read_shape b with Ok old => if Bool.eqb (sh_leaf old) leaf then Some old else None | Throw _ => None end
  end.
(** The last old child whose key is at or before a key. *)
Definition counterpart (old : option NodeShape) (key : Bytes) : option ObjectId :=
  match old with
  | None => None
  | Some o => foldl (fun got c => if negb (key_ltb key c.1) then Some c.2 else got) None (sh_children o)
  end.
Definition shared_child (old : option NodeShape) (child : ObjectId) : bool :=
  match old with None => false | Some o => existsb (fun c => bool_decide (c.2 = child)) (sh_children o) end.

(** The parallel walk: what is reached from [after] and not shared with [before]. *)
Fixpoint collect_changed (fuel : nat) (after : ObjectId) (before : option ObjectId) : result (list ObjectId) :=
  if bool_decide (before = Some after) then Ok []
  else
    match fuel with
    | O => Throw OutOfFuel
    | Datatypes.S fuel =>
        shape ← read_shape after;
        let old := old_shape (sh_leaf shape) before in
        below ← (if sh_leaf shape then
                   let named := match old with Some o => external_roots (sh_entries o) | None => [] end in
                   collect_each (collect_extent_spine fuel) (filter (fun r => r ∉ named) (external_roots (sh_entries shape)))
                 else
                   collect_each (fun c => if shared_child old c.2 then Ok [] else collect_changed fuel c.2 (counterpart old c.1)) (sh_children shape));
        Ok (after :: below)
    end.

Definition collect_namespace_tree_nodes : nat -> ObjectId -> result (list ObjectId) := collect_all.
Definition collect_namespace_tree_changes (fuel : nat) (before : option ObjectId) (after : ObjectId) : result (list ObjectId) :=
  collect_changed fuel after before.

(** ** Statistics *)

Record NamespaceTreeStats : Type := mkStats {
  st_entries : Z; st_extents : Z; st_leaves : Z; st_branches : Z; st_extent_nodes : Z; st_bytes : Z; st_largest_node_bytes : Z; st_depth : nat
}.
Definition no_stats : NamespaceTreeStats := mkStats 0 0 0 0 0 0 0 0.
Definition stat_bytes (n : Z) (t : NamespaceTreeStats) : NamespaceTreeStats :=
  mkStats (st_entries t) (st_extents t) (st_leaves t) (st_branches t) (st_extent_nodes t) (wrap64 (st_bytes t + n)) (Z.max (st_largest_node_bytes t) n) (st_depth t).
Definition stat_node (entries extents leaves branches extent_nodes : Z) (depth : nat) (t : NamespaceTreeStats) : NamespaceTreeStats :=
  mkStats (wrap64 (st_entries t + entries)) (wrap64 (st_extents t + extents)) (wrap64 (st_leaves t + leaves)) (wrap64 (st_branches t + branches))
    (wrap64 (st_extent_nodes t + extent_nodes)) (st_bytes t) (st_largest_node_bytes t) (Nat.max (st_depth t) depth).

Fixpoint walk_extent_stats (fuel : nat) (id : ObjectId) (t : NamespaceTreeStats) : result NamespaceTreeStats :=
  match fuel with
  | O => Throw OutOfFuel
  | Datatypes.S fuel =>
      encoded ← fetch s "namespace tree extent node unavailable" id;
      let t := stat_bytes (Z.of_nat (length encoded)) (stat_node 0 0 0 0 1 0 t) in
      children ← Reader.run (
        magic ← Reader.fixed 4;
        if bool_decide (magic = extent_leaf_magic) then mret []
        else if bool_decide (magic = extent_branch_magic) then b ← read_branch false; mret (ch_id <$> b.2)
        else bad "not a namespace tree extent node") encoded;
      foldM (fun t c => walk_extent_stats fuel c t) t children
  end.
(** A leaf entry's count of extents, and its extent sequence's root. *)
Definition stats_entry : Reader.prog (Z * option ObjectId) :=
  _ ← Reader.string path_limit;
  _ ← skip_leaf_entry_stat;
  form ← Reader.u8;
  if form =? extent_form_none then mret (0, None)
  else if form =? extent_form_inlined then l ← read_list read_extent; mret (Z.of_nat (length l), None)
  else if form =? extent_form_external then n ← Reader.u64; root ← Reader.fixed 32; mret (n, Some root)
  else bad "bad namespace tree extent form".
Fixpoint walk_stats (fuel : nat) (id : ObjectId) (depth : nat) (t : NamespaceTreeStats) : result NamespaceTreeStats :=
  match fuel with
  | O => Throw OutOfFuel
  | Datatypes.S fuel =>
      encoded ← fetch s node_unavailable id;
      let t := stat_bytes (Z.of_nat (length encoded)) t in
      node ← Reader.run (
        magic ← Reader.fixed 4;
        if bool_decide (magic = leaf_magic) then l ← read_list stats_entry; mret (inl l)
        else if bool_decide (magic = branch_magic) then b ← read_branch true; mret (inr (ch_id <$> b.2))
        else bad "not a namespace tree node") encoded;
      match node with
      | inl l => foldM (fun t c => walk_extent_stats fuel c t)
                   (stat_node (Z.of_nat (length l)) (foldl (fun a e => wrap64 (a + e.1)) 0 l) 1 0 0 depth t) (omap snd l)
      | inr children => foldM (fun t c => walk_stats fuel c (Datatypes.S depth) t) (stat_node 0 0 0 1 0 depth t) children
      end
  end.
Definition namespace_tree_stats (fuel : nat) (root : ObjectId) : result NamespaceTreeStats := walk_stats fuel root 1 no_stats.

(** ** Differences *)

(** A path whose entry differs; absent on a side is none. *)
Record NamespaceDifference : Type := mkDifference { nd_before : option FsEntry; nd_after : option FsEntry }.
Definition NamespaceDifferences : Type := list (Bytes * NamespaceDifference).

(** One tree's entries in path order: what has not been opened, and what is
    left of the leaf being read. *)
Record DiffStream : Type := mkStream { ds_pending : list SpineItem; ds_records : list LeafRecord }.
Definition begin_items (root : ObjectId) : result (list SpineItem) :=
  node ← read_spine_node s root; Ok [mkItem (mkChild [] root 0) (sp_level node) false].
Definition begin_stream (root : ObjectId) : result DiffStream := items ← begin_items root; Ok (mkStream items []).
(** Opens the next node: a branch into its children, a leaf into records. *)
Definition open_stream (d : DiffStream) : result DiffStream :=
  match ds_pending d with
  | [] => Ok d
  | item :: rest =>
      if it_level item =? 0 then records ← read_leaf_records s (ch_id (it_child item)); Ok (mkStream rest records)
      else children ← expand_item s item; Ok (mkStream (children ++ rest) (ds_records d))
  end.
(** Reads on until a record is buffered or nothing is left. *)
Fixpoint fill_stream (fuel : nat) (d : DiffStream) : result DiffStream :=
  match ds_records d, ds_pending d with
  | [], _ :: _ => match fuel with O => Throw OutOfFuel | Datatypes.S fuel => d ← open_stream d; fill_stream fuel d end
  | _, _ => Ok d
  end.
Definition decode_leaf_record (fuel : nat) (r : LeafRecord) : result FsEntry :=
  item ← Reader.run (item ← decode_leaf_entry s fuel true []; _ ← Reader.finish; mret item) (lr_raw r); Ok item.2.

Definition difference_at (key : Bytes) (out : NamespaceDifferences) : NamespaceDifference := default (mkDifference None None) (alookup key out).
Definition removed_entry (fuel : nat) (r : LeafRecord) (out : NamespaceDifferences) : result NamespaceDifferences :=
  e ← decode_leaf_record fuel r; Ok (map_set (lr_key r) (mkDifference (Some e) (nd_after (difference_at (lr_key r) out))) out).
Definition added_entry (fuel : nat) (r : LeafRecord) (out : NamespaceDifferences) : result NamespaceDifferences :=
  e ← decode_leaf_record fuel r; Ok (map_set (lr_key r) (mkDifference (nd_before (difference_at (lr_key r) out)) (Some e)) out).
Definition both_entries (fuel : nat) (a b : LeafRecord) (out : NamespaceDifferences) : result NamespaceDifferences :=
  if bool_decide (lr_raw a = lr_raw b) then Ok out
  else
    before ← decode_leaf_record fuel a; after ← decode_leaf_record fuel b;
    Ok (if bool_decide (before = after) then out else default out (map_emplace (lr_key a) (mkDifference (Some before) (Some after)) out)).

Definition pop (d : DiffStream) : DiffStream := mkStream (tail (ds_pending d)) (ds_records d).
Fixpoint diff_loop (fuel : nat) (a b : DiffStream) (out : NamespaceDifferences) : result NamespaceDifferences :=
  match fuel with
  | O => Throw OutOfFuel
  | Datatypes.S fuel =>
      match ds_records a, ds_records b with
      | [], [] =>
          match ds_pending a, ds_pending b with
          | [], [] => Ok out
          | [], _ => b ← fill_stream fuel b; diff_loop fuel a b out
          | _, [] => a ← fill_stream fuel a; diff_loop fuel a b out
          | x :: _, y :: _ =>
              if (it_level x =? it_level y) && bool_decide (ch_id (it_child x) = ch_id (it_child y)) then diff_loop fuel (pop a) (pop b) out
              else if it_level y <? it_level x then a ← open_stream a; diff_loop fuel a b out
              else if it_level x <? it_level y then b ← open_stream b; diff_loop fuel a b out
              else a ← open_stream a; b ← open_stream b; diff_loop fuel a b out
          end
      | [], y :: rest =>
          a ← fill_stream fuel a;
          match ds_records a with
          | [] => out ← added_entry fuel y out; diff_loop fuel a (mkStream (ds_pending b) rest) out
          | _ => diff_loop fuel a b out
          end
      | x :: rest, [] =>
          b ← fill_stream fuel b;
          match ds_records b with
          | [] => out ← removed_entry fuel x out; diff_loop fuel (mkStream (ds_pending a) rest) b out
          | _ => diff_loop fuel a b out
          end
      | x :: xs, y :: ys =>
          if key_ltb (lr_key x) (lr_key y) then out ← removed_entry fuel x out; diff_loop fuel (mkStream (ds_pending a) xs) b out
          else if key_ltb (lr_key y) (lr_key x) then out ← added_entry fuel y out; diff_loop fuel a (mkStream (ds_pending b) ys) out
          else out ← both_entries fuel x y out; diff_loop fuel (mkStream (ds_pending a) xs) (mkStream (ds_pending b) ys) out
      end
  end.
Definition diff_namespace_trees (fuel : nat) (before after : ObjectId) : result NamespaceDifferences :=
  if bool_decide (before = after) then Ok []
  else a ← begin_stream before; b ← begin_stream after; diff_loop fuel a b [].

(** ** Nodes only one tree holds *)

Record NodesSide : Type := mkSide { ns_pending : list SpineItem; ns_opened : list ObjectId }.
Definition open_side (d : NodesSide) : result NodesSide :=
  match ns_pending d with
  | [] => Ok d
  | item :: rest =>
      let opened := ns_opened d ++ [ch_id (it_child item)] in
      if it_level item =? 0 then Ok (mkSide rest opened)
      else children ← expand_item s item; Ok (mkSide (children ++ rest) opened)
  end.
Fixpoint nodes_loop (fuel : nat) (a b : NodesSide) : result (list ObjectId * list ObjectId) :=
  match ns_pending a, ns_pending b with
  | [], [] => Ok (ns_opened a, ns_opened b)
  | pa, pb =>
      match fuel with
      | O => Throw OutOfFuel
      | Datatypes.S fuel =>
          match pa, pb with
          | [], _ => b ← open_side b; nodes_loop fuel a b
          | _, [] => a ← open_side a; nodes_loop fuel a b
          | x :: pa, y :: pb =>
              if (it_level x =? it_level y) && bool_decide (ch_id (it_child x) = ch_id (it_child y))
              then nodes_loop fuel (mkSide pa (ns_opened a)) (mkSide pb (ns_opened b))
              else if it_level y <? it_level x then a ← open_side a; nodes_loop fuel a b
              else if it_level x <? it_level y then b ← open_side b; nodes_loop fuel a b
              else if 0 <? it_level x then a ← open_side a; b ← open_side b; nodes_loop fuel a b
              else if negb (key_ltb (it_key y) (it_key x)) then a ← open_side a; nodes_loop fuel a b
              else b ← open_side b; nodes_loop fuel a b
          end
      end
  end.
(** [std::set_difference] of two sorted ranges without repeats. *)
Definition only_in (a b : list ObjectId) : list ObjectId := filter (fun id => id ∉ b) a.
(** The nodes added and removed. *)
Definition diff_namespace_tree_nodes (fuel : nat) (before after : ObjectId) : result (list ObjectId * list ObjectId) :=
  if bool_decide (before = after) then Ok ([], [])
  else
    pa ← begin_items before; pb ← begin_items after;
    '(a, b) ← nodes_loop fuel (mkSide pa []) (mkSide pb []);
    let a := sort_unique a in let b := sort_unique b in
    Ok (only_in b a, only_in a b).
End reach.

(** ** The spine of one entry *)

(** Records what would be written, and writes nothing. *)
Definition AddressOnlyStore : Type := list ObjectId.
#[global] Instance address_only `{Sha256} : NodeStore AddressOnlyStore := {|
  ns_put node ids := (Ok (object_id node), ids ++ [object_id node]);
  ns_get _ _ := None
|}.
Definition namespace_entry_spine_nodes `{Sha256} (limits : NamespaceTreeLimits) (e : FsEntry) : result (list ObjectId) :=
  if Z.of_nat (length (fe_extents e)) <=? extent_inline_max limits then Ok []
  else match build_extent_sequence (S := AddressOnlyStore) limits (fe_extents e) [] with (Ok _, ids) => Ok ids | (Throw x, _) => Throw x end.
