(* ===== verification/NamespaceReachProofs.v ===== *)
(** * Reachability in a namespace tree

    The nodes [collect_all] names are all a reader of the tree needs, and what
    [collect_changed] leaves out is reached from the tree it is compared with. *)

From S2P Require Import Prelude Sorts Maps Orders Codec TorrentRequest Journal Paths Metadata MetadataCodec MetadataRoundtrip MetadataDelta MetadataMerge NamespaceTree NamespaceView NamespaceUpdate NamespaceNodes NamespaceReads NamespaceChanges NamespaceReach.

(** ** Records read for their tables *)

Lemma reads_with_table {A} (k : Bytes -> Reader.prog A) (e : Bytes * FsEntry) t a : string_ok path_limit e.1 -> entry_ok e.2 ->
  reads (k e.1) (written (write_table t)) a -> reads (key ← Reader.string path_limit; _ ← skip_leaf_entry_stat; k key) (raw_with e t) a.
Proof.
  intros Hp He Hk. destruct e as [path e]. cbn [fst snd] in *. unfold raw_with. cbn [fst snd].
  destruct (carries_written _ _ _ (carries_skip_stat path e Hp He)) as [_ Hs]. intros pre post.
  specialize (Hs pre (written (write_table t) ++ post)). specialize (Hk (pre ++ written (write_stat path e)) post).
  rewrite <- !app_assoc in *. unfold mbind, Reader.prog_bind in *.
  destruct (Reader.string path_limit _) as [[key rd]|]; [|done]. destruct (skip_leaf_entry_stat rd) as [[stat rd']|]; [|done].
  unfold mret, Reader.prog_ret in Hs. injection Hs as -> ->. by rewrite Hk.
Qed.
Lemma reads_same {A} (p q : Reader.prog A) e a : (forall rd, p rd = q rd) -> reads q e a -> reads p e a.
Proof. intros Hpq Hq pre post. by rewrite Hpq. Qed.
(** What a table's reader makes of it. *)
Definition table_prog {A} (f : ExtentTable -> A) : Reader.prog A :=
  form ← Reader.u8;
  if form =? extent_form_none then mret (f extents_none)
  else if form =? extent_form_inlined then l ← read_list read_extent; mret (f (extents_inlined l))
  else if form =? extent_form_external then n ← Reader.u64; root ← Reader.fixed 32; mret (f (extents_external n root))
  else bad "bad namespace tree extent form".
Lemma reads_table {A} (f : ExtentTable -> A) t : table_ok t -> reads (table_prog f) (written (write_table t)) (f t).
Proof.
  intros Ht. apply (reads_same _ (t ← read_table; mret (f t))).
  - intros rd. unfold table_prog, read_table, mbind, Reader.prog_bind, mret, Reader.prog_ret. destruct (Reader.u8 rd) as [[form r1]|]; [|done].
    destruct (form =? extent_form_none); [done|]. destruct (form =? extent_form_inlined); [by destruct (read_list read_extent r1) as [[l r2]|]|].
    destruct (form =? extent_form_external); [|done]. destruct (Reader.u64 r1) as [[n r2]|]; [|done]. by destruct (Reader.fixed 32 r2) as [[r r3]|].
  - apply (reads_map read_table f). apply (proj2 (carries_written _ _ _ (carries_table t Ht))).
Qed.
Definition table_root (t : ExtentTable) : option ObjectId := match t with extents_external _ root => Some root | _ => None end.

Lemma reads_shape_entry {S : Type} `{NodeStore S} (s : S) h e t : record_at s h e t -> reads read_shape_entry (raw_with e t) (e.1, table_root t).
Proof.
  intros (Hp & He & Ht & _). apply (reads_with_table (fun path => table_prog (fun t => (path, table_root t)))); [done|done|].
  exact (reads_table (fun t => (e.1, table_root t)) t Ht).
Qed.

Lemma tree_reads_records {S : Type} `{NodeStore S} {A} (s : S) h (p : Reader.prog A) (f : Bytes * FsEntry -> ExtentTable -> A) es ts :
  (forall e t, record_at s h e t -> reads p (raw_with e t) (f e t)) -> Forall2 (record_at s h) es ts -> fits es ->
  reads (read_list p) (be_bytes 4 (Z.of_nat (length (zip_with raw_with es ts))) ++ concat (zip_with raw_with es ts)) (zip_with f es ts).
Proof.
  intros Hp H2 Hf. unfold read_list. rewrite (zip_length _ _ _ _ H2). eapply reads_bind; [apply reads_u32; unfold fits in Hf; lia|]. rewrite Nat2Z.id. clear Hf.
  induction H2 as [|e t es ts Hr _ IH]; cbn [zip_with length concat Reader.times]; [apply reads_ret|].
  eapply reads_bind; [by apply Hp|]. rewrite <- (app_nil_r (concat _)). eapply reads_bind; [exact IH|]. apply reads_ret.
Qed.

(** ** Results in order *)

Lemma collect_each_ok {A} (f : A -> result (list ObjectId)) l outs : Forall2 (fun a out => f a = Ok out) l outs -> collect_each f l = Ok (concat outs).
Proof.
  intros H2. unfold collect_each. assert (forall out, foldM (fun out a => more ← f a; Ok (out ++ more)) out l = Ok (out ++ concat outs)) as Hg; [|apply Hg].
  induction H2 as [|a o l outs Ha _ IH]; intros out; cbn [foldM concat]; [by rewrite app_nil_r|]. rewrite Ha. cbn [mbind result_bind]. by rewrite IH, app_assoc.
Qed.
Lemma collect_each_inv {A} (f : A -> result (list ObjectId)) l out : collect_each f l = Ok out -> exists outs, Forall2 (fun a out => f a = Ok out) l outs /\ out = concat outs.
Proof.
  unfold collect_each. assert (forall acc out, foldM (fun out a => more ← f a; Ok (out ++ more)) acc l = Ok out -> exists outs, Forall2 (fun a out => f a = Ok out) l outs /\ out = acc ++ concat outs) as Hg; [|apply (Hg [])].
  clear out. induction l as [|a l IH]; intros acc out E; cbn [foldM] in E.
  - injection E as <-. exists []. rewrite app_nil_r. by split; [constructor|].
  - apply result_bind_Ok in E as (acc' & Ea & E). apply result_bind_Ok in Ea as (o & Ea & Eo). injection Eo as <-. destruct (IH _ _ E) as (outs & H2 & ->).
    exists (o :: outs). split; [by constructor|]. cbn. by rewrite app_assoc.
Qed.
Lemma collect_each_elem {A} (f : A -> result (list ObjectId)) l out a : collect_each f l = Ok out -> a ∈ l -> exists o, f a = Ok o /\ o ⊆ out.
Proof.
  intros (outs & H2 & ->)%collect_each_inv Ha. apply list_elem_of_lookup in Ha as (i & Ei). destruct (Forall2_lookup_l _ _ _ _ _ H2 Ei) as (o & Eo & Ef).
  exists o. split; [done|]. intros x Hx. apply in_concat_of. exists o. split; [done|]. by eapply list_elem_of_lookup_2.
Qed.
Lemma collect_each_mono {A} (f g : A -> result (list ObjectId)) l out : (forall a o, a ∈ l -> f a = Ok o -> g a = Ok o) -> collect_each f l = Ok out -> collect_each g l = Ok out.
Proof.
  intros Hfg (outs & H2 & ->)%collect_each_inv. apply collect_each_ok. induction H2 as [|a o l outs Ha _ IH]; constructor.
  - apply Hfg; [by left|done].
  - apply IH. intros a' o' Hin. apply Hfg. by right.
Qed.

Section reach.
Context {S : Type} `{NodeStore S} (s : S).

(** More fuel changes nothing. *)
Lemma spine_mono fuel fuel' id out : (fuel <= fuel')%nat -> collect_extent_spine s fuel id = Ok out -> collect_extent_spine s fuel' id = Ok out.
Proof.
  revert fuel' id out. induction fuel as [|fuel IH]; intros fuel' id out Hf E; [done|]. destruct fuel' as [|fuel']; [lia|]. cbn [collect_extent_spine] in *.
  apply result_bind_Ok in E as (enc & -> & E). apply result_bind_Ok in E as (cs & Ec & E). apply result_bind_Ok in E as (below & Eb & E). injection E as <-.
  cbn [mbind result_bind]. rewrite Ec. cbn [mbind result_bind]. rewrite (collect_each_mono _ (collect_extent_spine s fuel') _ _ (fun a o _ => IH fuel' a o ltac:(lia)) Eb). done.
Qed.
Lemma all_mono fuel fuel' id out : (fuel <= fuel')%nat -> collect_all s fuel id = Ok out -> collect_all s fuel' id = Ok out.
Proof.
  revert fuel' id out. induction fuel as [|fuel IH]; intros fuel' id out Hf E; [done|]. destruct fuel' as [|fuel']; [lia|]. cbn [collect_all] in *.
  apply result_bind_Ok in E as (shape & -> & E). apply result_bind_Ok in E as (below & Eb & E). injection E as <-. cbn [mbind result_bind].
  assert ((if sh_leaf shape then collect_each (collect_extent_spine s fuel') (external_roots (sh_entries shape)) else collect_each (fun c => collect_all s fuel' c.2) (sh_children shape)) = Ok below) as ->; [|done].
  destruct (sh_leaf shape); (eapply collect_each_mono; [|exact Eb]); intros a o _; [apply spine_mono; lia | apply IH; lia].
Qed.
Lemma all_same fuel fuel' id out out' : collect_all s fuel id = Ok out -> collect_all s fuel' id = Ok out' -> out = out'.
Proof.
  intros E1 E2. apply (all_mono _ (Nat.max fuel fuel')) in E1; [|lia]. apply (all_mono _ (Nat.max fuel fuel')) in E2; [|lia]. congruence.
Qed.
Lemma spine_same fuel fuel' id out out' : collect_extent_spine s fuel id = Ok out -> collect_extent_spine s fuel' id = Ok out' -> out = out'.
Proof.
  intros E1 E2. apply (spine_mono _ (Nat.max fuel fuel')) in E1; [|lia]. apply (spine_mono _ (Nat.max fuel fuel')) in E2; [|lia]. congruence.
Qed.

(** ** Shapes of a tree *)

Lemma leaf_shape h id es ts : Forall2 (record_at s h) es ts -> fits es -> ns_get s id = Some (leaf_of (zip_with raw_with es ts)) ->
  read_shape s id = Ok (mkShape true [] (zip_with (fun e t => (e.1, table_root t)) es ts)).
Proof.
  intros H2 Hf E. unfold read_shape. rewrite (fetch_ok _ _ _ _ E). cbn [mbind result_bind]. unfold Reader.run, leaf_of.
  rewrite read_magic, magic_test, bool_decide_true by done.
  by rewrite (read_to_end _ _ _ (mkShape true []) _ (tree_reads_records s h read_shape_entry _ es ts (reads_shape_entry s h) H2 Hf)).
Qed.
Lemma branch_shape d id cs : Forall child_ok cs -> fits cs -> ns_get s id = Some (spine_bytes true d cs) ->
  read_shape s id = Ok (mkShape false ((fun c => (ch_first_key c, ch_id c)) <$> cs) []).
Proof.
  intros Hc Hf E. unfold read_shape. rewrite (fetch_ok _ _ _ _ E), spine_bytes_eq by done. cbn [mbind result_bind]. unfold Reader.run.
  rewrite read_magic, !magic_test. rewrite bool_decide_false by (vm_compute; done). rewrite bool_decide_true by done.
  rewrite (read_to_end _ _ _ (fun b => mkShape false ((fun c => (ch_first_key c, ch_id c)) <$> b.2) []) _ (proj2 (carries_written _ _ _ (carries_branch true d cs Hc Hf)))).
  cbn [snd fst mbind result_bind]. by rewrite child_read_keyed.
Qed.
Lemma zip_roots {A} (f : A -> Bytes) (es : list A) ts : length es = length ts -> external_roots (zip_with (fun e t => (f e, table_root t)) es ts) = omap table_root ts.
Proof.
  revert ts. induction es as [|e es IH]; intros [|t ts] El; try done. injection El as El. cbn [zip_with]. unfold external_roots in *. cbn. rewrite (IH ts El). by destruct (table_root t).
Qed.

(** A store that has what another has of some nodes. *)
Definition agrees {T : Type} `{NodeStore T} (ids : list ObjectId) (t : T) : Prop := forall id, id ∈ ids -> ns_get t id = ns_get s id.
Lemma agrees_sub {T : Type} `{NodeStore T} ids ids' (t : T) : ids ⊆ ids' -> agrees ids' t -> agrees ids t.
Proof. intros Hs Ha id Hid. by apply Ha, Hs. Qed.

Lemma spine_collected d id xs fuel : (d < fuel)%nat -> extents_at s d id xs ->
  exists out, collect_extent_spine s fuel id = Ok out /\ Forall (fun i => is_Some (ns_get s i)) out /\
    forall (T : Type) (HT : NodeStore T) (t : T), agrees out t -> extents_at t d id xs.
Proof.
  revert d id xs. induction fuel as [|fuel IH]; intros d id xs Hd Hx; [lia|]. cbn [collect_extent_spine]. destruct d as [|d]; cbn [extents_at] in Hx.
  - destruct Hx as (E & Hx & Hf). rewrite (fetch_ok _ _ _ _ E). cbn [mbind result_bind].
    assert (carries (write_count xs ;;; Writer.each write_extent xs) (read_list read_extent) xs) as Hc.
    { apply carries_list; [done|]. eapply Forall_impl; [exact Hx|]. apply carries_extent. }
    apply carries_written in Hc as [Hw _]. unfold extent_leaf_bytes, write_extent_leaf.
    rewrite (writes_written _ _ (writes_seq _ _ _ _ (writes_fixed extent_leaf_magic) Hw)).
    unfold Reader.run. rewrite read_magic, !magic_test, bool_decide_true by done. cbn. exists [id]. split_and!; [done|repeat constructor; eauto|].
    intros T HT t Ha. split; [|done]. rewrite Ha by (by left). done.
  - destruct Hx as (level & cs & xss & E & Hc & Hf & H2 & ->). rewrite (fetch_ok _ _ _ _ E), spine_bytes_eq by done. cbn [mbind result_bind].
    unfold Reader.run. rewrite read_magic, !magic_test. rewrite bool_decide_false by (vm_compute; done). rewrite bool_decide_true by done.
    pose proof (proj2 (carries_written _ _ _ (carries_branch false level cs Hc Hf)) (abytes extent_branch_magic) []) as Hr. rewrite app_nil_r in Hr.
    unfold mbind, Reader.prog_bind. rewrite Hr. unfold mret, Reader.prog_ret. cbn [snd fst result_bind].
    assert (ch_id <$> (child_read false <$> cs) = ch_id <$> cs) as -> by (rewrite <- list_fmap_compose; done).
    assert (exists outs, Forall2 (fun a out => collect_extent_spine s fuel a = Ok out) (ch_id <$> cs) outs /\ Forall (fun i => is_Some (ns_get s i)) (concat outs) /\
      forall (T : Type) (HT : NodeStore T) (t : T), agrees (concat outs) t -> Forall2 (fun c xs => extents_at t d (ch_id c) xs) cs xss) as (outs & Ho & Hin & Ht).
    { clear E Hc Hf Hr. induction H2 as [|c x cs xss Hx _ IH2]; [exists []; split_and!; [constructor|constructor|intros; constructor]|].
      destruct IH2 as (outs & Ho & Hin & Ht). destruct (IH d (ch_id c) x ltac:(lia) Hx) as (out & Eo & Hio & Hto). exists (out :: outs). cbn [concat]. rewrite fmap_cons.
      split_and!; [by constructor|by apply Forall_app|]. intros T HT t Ha. constructor.
      - apply Hto. eapply agrees_sub; [|exact Ha]. intros i Hi. apply elem_of_app. by left.
      - apply Ht. eapply agrees_sub; [|exact Ha]. intros i Hi. apply elem_of_app. by right. }
    rewrite (collect_each_ok _ _ _ Ho). cbn [mbind result_bind]. exists (id :: concat outs). split_and!; [done|constructor; [eauto|done]|].
    intros T HT t Ha. exists level, cs, xss. split_and!; [|done|done| |done].
    + rewrite Ha by (by left). done.
    + apply Ht. eapply agrees_sub; [|exact Ha]. intros i Hi. by right.
Qed.

(** The spines of a leaf's tables. *)
Lemma tables_collected h es ts fuel (keep : ObjectId -> bool) (ids : list ObjectId) : (h <= fuel)%nat -> Forall2 (record_at s h) es ts ->
  (forall r f o, keep r = false -> collect_extent_spine s f r = Ok o -> o ⊆ ids) ->
  exists out, collect_each (collect_extent_spine s fuel) (filter (fun r => keep r = true) (omap table_root ts)) = Ok out /\ Forall (fun i => is_Some (ns_get s i)) out /\
    forall (T : Type) (HT : NodeStore T) (t : T), agrees out t -> agrees ids t -> Forall2 (record_at t h) es ts.
Proof.
  intros Hh H2 Hk.
  assert (exists outs, Forall2 (fun a out => collect_extent_spine s fuel a = Ok out) (filter (fun r => keep r = true) (omap table_root ts)) outs /\ Forall (fun i => is_Some (ns_get s i)) (concat outs) /\
    forall (T : Type) (HT : NodeStore T) (t : T), agrees (concat outs) t -> agrees ids t -> Forall2 (record_at t h) es ts) as (outs & Ho & Hin & Ht).
  { induction H2 as [|e tb es ts (Hp & He & Htb & Htx) _ (outs & Ho & Hin & Ht)]; [exists []; split_and!; [constructor|constructor|intros; constructor]|].
    assert (forall (T : Type) (HT : NodeStore T) (t : T), (forall n root, tb = extents_external n root -> forall d, (d < h)%nat -> extents_at s d root (fe_extents e.2) -> extents_at t d root (fe_extents e.2)) ->
      record_at t h e tb) as Hrec.
    { intros T HT t Hx. split_and!; [done|done|]. split; [done|]. destruct tb as [|l|n root]; [done|done|]. destruct Htx as (d & Hd & Hx'). exists d. split; [done|]. by eapply Hx. }
    cbn [omap list_omap table_root]. destruct tb as [|l|n root]; cbn [table_root];
      [exists outs; split_and!; [done|done|]; intros T HT t Ha Hi; constructor; [by apply Hrec|by apply Ht]..|].
    destruct Htx as (d & Hd & Hx). destruct (spine_collected d root (fe_extents e.2) fuel ltac:(lia) Hx) as (out & Eo & Hio & Hto).
    rewrite filter_cons. destruct (decide (keep root = true)) as [Ek|Ek].
    - exists (out :: outs). cbn [concat]. split_and!; [by constructor|by apply Forall_app|]. intros T HT t Ha Hi. constructor.
      + apply Hrec. intros n' root' Eq d' Hd' Hx'. injection Eq as _ <-. destruct (spine_collected d' root (fe_extents e.2) fuel ltac:(lia) Hx') as (out' & Eo' & _ & Hto').
        apply Hto'. rewrite Eo in Eo'. injection Eo' as <-. eapply agrees_sub; [|exact Ha]. intros i Hi'. apply elem_of_app. by left.
      + apply Ht; [|done]. eapply agrees_sub; [|exact Ha]. intros i Hi'. apply elem_of_app. by right.
    - exists outs. split_and!; [done|done|]. intros T HT t Ha Hi. constructor; [|by apply Ht]. apply Hrec. intros n' root' Eq d' Hd' Hx'. injection Eq as _ <-.
      destruct (spine_collected d' root (fe_extents e.2) fuel ltac:(lia) Hx') as (out' & Eo' & _ & Hto'). apply Hto'. eapply agrees_sub; [|exact Hi].
      eapply Hk; [|exact Eo']. by destruct (keep root). }
  exists (concat outs). split_and!; [by apply collect_each_ok|done|done].
Qed.

Lemma all_collected h d id es fuel : (d + h < fuel)%nat -> tree_at s h d id es ->
  exists out, collect_all s fuel id = Ok out /\ Forall (fun i => is_Some (ns_get s i)) out /\
    forall (T : Type) (HT : NodeStore T) (t : T), agrees out t -> tree_at t h d id es.
Proof.
  revert d id es. induction fuel as [|fuel IH]; intros d id es Hd Ht; [lia|]. cbn [collect_all]. destruct d as [|d]; cbn [tree_at] in Ht.
  - destruct Ht as (ts & H2 & Hf & E). rewrite (leaf_shape h id es ts H2 Hf E). cbn [mbind result_bind sh_leaf sh_entries].
    rewrite zip_roots by (by eapply Forall2_length). destruct (tables_collected h es ts fuel (fun _ => true) [] ltac:(lia) H2 ltac:(done)) as (out & Eo & Hin & Hto).
    assert (filter (fun _ : ObjectId => true = true) (omap table_root ts) = omap table_root ts) as Efi by (clear; induction (omap table_root ts) as [|x l IHl]; [done|]; rewrite filter_cons, decide_True by done; by rewrite IHl).
    rewrite Efi in Eo. rewrite Eo. cbn [mbind result_bind]. exists (id :: out). split_and!; [done|constructor; [eauto|done]|].
    intros T HT t Ha. exists ts. split_and!; [|done|by rewrite Ha by (by left)]. apply Hto; [|by intros i ?%not_elem_of_nil]. eapply agrees_sub; [|exact Ha]. intros i Hi. by right.
  - destruct Ht as (cs & ess & E & Hne & Hc & Hf & H2 & ->). rewrite (branch_shape _ id cs Hc Hf E). cbn [mbind result_bind sh_leaf sh_children].
    assert (exists outs, Forall2 (fun a out => collect_all s fuel a.2 = Ok out) ((fun c => (ch_first_key c, ch_id c)) <$> cs) outs /\ Forall (fun i => is_Some (ns_get s i)) (concat outs) /\
      forall (T : Type) (HT : NodeStore T) (t : T), agrees (concat outs) t -> Forall2 (fun c es => tree_at t h d (ch_id c) es /\ first_of c es) cs ess) as (outs & Ho & Hin & Ht).
    { clear E Hne Hc Hf. induction H2 as [|c x cs xss [Hx Hfx] _ (outs & Ho & Hin & Ht)]; [exists []; split_and!; [constructor|constructor|intros; constructor]|].
      destruct (IH d (ch_id c) x ltac:(lia) Hx) as (out & Eo & Hio & Hto). exists (out :: outs). cbn [concat]. rewrite fmap_cons.
      split_and!; [by constructor|by apply Forall_app|]. intros T HT t Ha. constructor.
      - split; [|done]. apply Hto. eapply agrees_sub; [|exact Ha]. intros i Hi. apply elem_of_app. by left.
      - apply Ht. eapply agrees_sub; [|exact Ha]. intros i Hi. apply elem_of_app. by right. }
    rewrite (collect_each_ok _ _ _ Ho). cbn [mbind result_bind]. exists (id :: concat outs). split_and!; [done|constructor; [eauto|done]|].
    intros T HT t Ha. exists cs, ess. split_and!; [|done|done|done| |done].
    + rewrite Ha by (by left). done.
    + apply Ht. eapply agrees_sub; [|exact Ha]. intros i Hi. by right.
Qed.

(** ** Changes *)

(** The tree compared with was collected, and is among the nodes [ids]. *)
Definition seen (ids : list ObjectId) (before : option ObjectId) : Prop :=
  match before with None => True | Some b => exists f o, collect_all s f b = Ok o /\ o ⊆ ids end.

Lemma seen_shape ids before leaf old : seen ids before -> old_shape s leaf before = Some old ->
  sh_leaf old = leaf /\
  (leaf = true -> forall r f o, r ∈ external_roots (sh_entries old) -> collect_extent_spine s f r = Ok o -> o ⊆ ids) /\
  (leaf = false -> forall c, c ∈ sh_children old -> seen ids (Some c.2)).
Proof.
  destruct before as [b|]; [|intros _ E; discriminate E]. intros (f & o & Ec & Hsub) Eo. cbn [old_shape] in Eo. destruct f as [|f]; [done|]. cbn [collect_all] in Ec.
  apply result_bind_Ok in Ec as (shape & Es & Ec). rewrite Es in Eo. destruct (Bool.eqb (sh_leaf shape) leaf) eqn:El; [|done]. injection Eo as <-.
  apply Bool.eqb_prop in El. apply result_bind_Ok in Ec as (below & Eb & Ec). injection Ec as <-. rewrite El in Eb. split_and!; [done| |].
  - intros -> r f' o' Hr Eo'. destruct (collect_each_elem _ _ _ _ Eb Hr) as (o'' & Eo'' & Hsub'). rewrite (spine_same _ _ _ _ _ Eo' Eo''). intros i Hi. apply Hsub. right. by apply Hsub'.
  - intros -> c Hc. destruct (collect_each_elem _ _ _ _ Eb Hc) as (o' & Eo' & Hsub'). exists f, o'. split; [done|]. intros i Hi. apply Hsub. right. by apply Hsub'.
Qed.
Lemma counterpart_elem old key c : counterpart old key = Some c -> exists o k, old = Some o /\ (k, c) ∈ sh_children o.
Proof.
  destruct old as [o|]; [|done]. cbn [counterpart]. intros E. exists o. assert (forall l got, foldl (fun got c => if negb (key_ltb key c.1) then Some c.2 else got) got l = Some c -> got = Some c \/ exists k, (k, c) ∈ l) as Hg.
  { clear. induction l as [|[k x] l IH]; intros got E; [by left|]. cbn in E. destruct (IH _ E) as [E'|(k' & Hk')]; [|right; exists k'; by right].
    cbn [fst snd] in E'. destruct (bytes_ltb key k); cbn [negb] in E'; [by left|]. injection E' as <-. right. exists k. by left. }
  destruct (Hg _ _ E) as [E'|(k & Hk)]; [done|]. by exists k.
Qed.
Lemma seen_tree ids id h d es : seen ids (Some id) -> tree_at s h d id es -> forall (T : Type) (HT : NodeStore T) (t : T), agrees ids t -> tree_at t h d id es.
Proof.
  intros (f & o & Ec & Hsub) Ht T HT t Ha. destruct (all_collected h d id es (Datatypes.S (d + h)) ltac:(lia) Ht) as (out & Eo & _ & Hto).
  apply Hto. rewrite (all_same _ _ _ _ _ Eo Ec). by eapply agrees_sub.
Qed.

Lemma changed_collected h d after es fuel before ids : (d + h < fuel)%nat -> tree_at s h d after es -> seen ids before ->
  exists out, collect_changed s fuel after before = Ok out /\ Forall (fun i => is_Some (ns_get s i)) out /\
    forall (T : Type) (HT : NodeStore T) (t : T), agrees out t -> agrees ids t -> tree_at t h d after es.
Proof.
  revert d after es before. induction fuel as [|fuel IH]; intros d after es before Hd Ht Hb; [lia|]. cbn [collect_changed].
  destruct (bool_decide_reflect (before = Some after)) as [->|_].
  { exists []. split_and!; [done|constructor|]. intros T HT t _ Ha. by eapply seen_tree. }
  destruct d as [|d]; cbn [tree_at] in Ht.
  - destruct Ht as (ts & H2 & Hf & E). rewrite (leaf_shape h after es ts H2 Hf E). cbn [mbind result_bind sh_leaf sh_entries]. cbv zeta.
    rewrite zip_roots by (by eapply Forall2_length).
    set (named := match old_shape s true before with Some o => external_roots (sh_entries o) | None => [] end).
    destruct (tables_collected h es ts fuel (fun r => bool_decide (r ∉ named)) ids ltac:(lia) H2) as (out & Eo & Hin & Hto).
    { intros r f o Hr Eo. apply bool_decide_eq_false, dec_stable in Hr. unfold named in Hr. destruct (old_shape s true before) as [old|] eqn:Eold; [|by apply not_elem_of_nil in Hr].
      destruct (seen_shape ids before true old Hb Eold) as (_ & Hs & _). by eapply Hs. }
    assert (filter (fun r => r ∉ named) (omap table_root ts) = filter (fun r => bool_decide (r ∉ named) = true) (omap table_root ts)) as ->.
    { apply list_filter_iff. intros r. by rewrite bool_decide_eq_true. }
    rewrite Eo. cbn [mbind result_bind]. exists (after :: out). split_and!; [done|constructor; [eauto|done]|].
    intros T HT t Ha Hi. exists ts. split_and!; [|done|by rewrite Ha by (by left)]. apply Hto; [|done]. eapply agrees_sub; [|exact Ha]. intros i Hi'. by right.
  - destruct Ht as (cs & ess & E & Hne & Hc & Hf & H2 & ->). rewrite (branch_shape _ after cs Hc Hf E). cbn [mbind result_bind sh_leaf sh_children]. cbv zeta.
    set (old := old_shape s false before).
    assert (forall c, shared_child old c = true -> seen ids (Some c)) as Hshared.
    { intros c Hs. unfold old in Hs. destruct (old_shape s false before) as [o|] eqn:Eold; [|done]. destruct (seen_shape ids before false o Hb Eold) as (_ & _ & Hch).
      cbn [shared_child] in Hs. apply existsb_exists in Hs as (x & Hx & <-%bool_decide_eq_true). apply Hch; [done|]. by apply list_elem_of_In. }
    assert (forall key, seen ids (counterpart old key)) as Hcount.
    { intros key. destruct (counterpart old key) as [c|] eqn:Ecp; [|done]. apply counterpart_elem in Ecp as (o & k & Eold & Hin). unfold old in Eold.
      destruct (seen_shape ids before false o Hb Eold) as (_ & _ & Hch). by apply (Hch eq_refl (k, c)). }
    assert (exists outs, Forall2 (fun a out => (if shared_child old a.2 then Ok [] else collect_changed s fuel a.2 (counterpart old a.1)) = Ok out) ((fun c => (ch_first_key c, ch_id c)) <$> cs) outs /\
      Forall (fun i => is_Some (ns_get s i)) (concat outs) /\
      forall (T : Type) (HT : NodeStore T) (t : T), agrees (concat outs) t -> agrees ids t -> Forall2 (fun c es => tree_at t h d (ch_id c) es /\ first_of c es) cs ess) as (outs & Ho & Hin & Hto).
    { clear E Hne Hc Hf. clearbody old. induction H2 as [|c x cs xss [Hx Hfx] _ (outs & Ho & Hin & Hto)]; [exists []; split_and!; [constructor|constructor|intros; constructor]|].
      assert (exists out, (if shared_child old (ch_id c) then Ok [] else collect_changed s fuel (ch_id c) (counterpart old (ch_first_key c))) = Ok out /\
        Forall (fun i => is_Some (ns_get s i)) out /\ forall (T : Type) (HT : NodeStore T) (t : T), agrees out t -> agrees ids t -> tree_at t h d (ch_id c) x) as (out & Eo & Hio & Hoto).
      { destruct (shared_child old (ch_id c)) eqn:Es.
        - exists []. split_and!; [done|constructor|]. intros T HT t _ Ha. eapply seen_tree; [by apply Hshared|done|done].
        - apply IH; [lia|done|apply Hcount]. }
      exists (out :: outs). cbn [concat]. rewrite fmap_cons. split_and!; [by constructor|by apply Forall_app|]. intros T HT t Ha Hi. constructor.
      - split; [|done]. apply Hoto; [|done]. eapply agrees_sub; [|exact Ha]. intros i Hi'. apply elem_of_app. by left.
      - apply Hto; [|done]. eapply agrees_sub; [|exact Ha]. intros i Hi'. apply elem_of_app. by right. }
    rewrite (collect_each_ok _ _ _ Ho). cbn [mbind result_bind]. exists (after :: concat outs). split_and!; [done|constructor; [eauto|done]|].
    intros T HT t Ha Hi. exists cs, ess. split_and!; [|done|done|done| |done].
    + rewrite Ha by (by left). done.
    + apply Hto; [|done]. eapply agrees_sub; [|exact Ha]. intros i Hi'. by right.
Qed.
End reach.
