(* ===== verification/NamespaceDiff.v ===== *)
(** * How two namespace trees differ

    [diff_namespace_trees] walks two trees together; what it returns is
    exactly where the two maps of entries differ. *)

From S2P Require Import Prelude Sorts Maps Orders Codec TorrentRequest Journal Paths Metadata MetadataCodec MetadataRoundtrip MetadataDelta MetadataMerge NamespaceTree NamespaceView NamespaceUpdate NamespaceNodes NamespaceReads NamespaceChanges NamespaceSplice NamespaceReach.

(** ** Differences of maps *)

#[global] Instance difference_eq_dec : EqDecision NamespaceDifference.
Proof. solve_decision. Defined.

(** What two sides say of one path. *)
Definition differ (a b : option FsEntry) : option NamespaceDifference := if decide (a = b) then None else Some (mkDifference a b).

(** What was found so far, with what is left of the two maps, is what is wanted. *)
Definition told (want : Bytes -> option NamespaceDifference) (out : NamespaceDifferences) (m1 m2 : NamespaceEntries) : Prop :=
  (forall p, want p = match alookup p out with Some x => Some x | None => differ (alookup p m1) (alookup p m2) end) /\
  (forall p, is_Some (alookup p out) -> alookup p m1 = None /\ alookup p m2 = None) /\ sorted_recs out.

Section told.
Context (want : Bytes -> option NamespaceDifference) (out : NamespaceDifferences).
Implicit Types (m : NamespaceEntries).

Lemma told_same es m1 m2 : sorted_recs (es ++ m1) -> sorted_recs (es ++ m2) -> told want out (es ++ m1) (es ++ m2) -> told want out m1 m2.
Proof.
  intros H1 H2 (Hw & Ho & Hs). split_and!; [| |done].
  - intros p. rewrite Hw, !alookup_app. destruct (alookup p out); [done|]. destruct (alookup p es) as [e|] eqn:E; [|done]. apply alookup_Some_elem in E.
    assert (alookup p m1 = None) as -> by (apply alookup_below, Forall_forall; intros r Hr; apply sorted_recs_app in H1 as (H1 & _); exact (H1 _ _ E Hr)).
    assert (alookup p m2 = None) as -> by (apply alookup_below, Forall_forall; intros r Hr; apply sorted_recs_app in H2 as (H2 & _); exact (H2 _ _ E Hr)).
    unfold differ. by rewrite !decide_True.
  - intros p Hp. destruct (Ho p Hp) as [E1 E2]. rewrite alookup_app in E1, E2. by destruct (alookup p es).
Qed.
(** One path settled. *)
Lemma told_step k o1 o2 m1 m2 m1' m2' out' : alookup k out = None -> alookup k m1 = o1 -> alookup k m2 = o2 ->
  alookup k m1' = None -> alookup k m2' = None -> (forall p, p <> k -> alookup p m1' = alookup p m1 /\ alookup p m2' = alookup p m2) ->
  sorted_recs out' -> alookup k out' = differ o1 o2 -> (forall p, p <> k -> alookup p out' = alookup p out) -> told want out m1 m2 -> told want out' m1' m2'.
Proof.
  intros Ek E1 E2 N1 N2 Hm Hs Ek' Hout (Hw & Ho & _). split_and!; [| |done].
  - intros p. destruct (decide (p = k)) as [->|Hne]; [rewrite Hw, Ek, E1, E2, Ek', N1, N2; by destruct (differ o1 o2)|].
    destruct (Hm p Hne) as [-> ->]. by rewrite (Hout p Hne), Hw.
  - intros p Hp. destruct (decide (p = k)) as [->|Hne]; [done|]. destruct (Hm p Hne) as [-> ->]. apply Ho. by rewrite <- (Hout p Hne).
Qed.
Lemma told_none k e m m2 : told want out ((k, e) :: m) m2 -> alookup k out = None.
Proof.
  intros (_ & Ho & _). destruct (alookup k out) eqn:E; [|done]. destruct (Ho k) as [E' _]; [by rewrite E|]. rewrite alookup_cons, decide_True in E' by done. done.
Qed.
Lemma told_none' k e m m1 : told want out m1 ((k, e) :: m) -> alookup k out = None.
Proof.
  intros (_ & Ho & _). destruct (alookup k out) eqn:E; [|done]. destruct (Ho k) as [_ E']; [by rewrite E|]. rewrite alookup_cons, decide_True in E' by done. done.
Qed.
End told.

Lemma tail_lookup k e (m : NamespaceEntries) : sorted_recs ((k, e) :: m) -> alookup k m = None /\ forall p, p <> k -> alookup p m = alookup p ((k, e) :: m).
Proof.
  intros [Hk _]%sorted_recs_cons. split; [by apply alookup_below|]. intros p Hne. by rewrite alookup_cons, decide_False.
Qed.
Lemma before_all k (m : NamespaceEntries) : Forall (fun r => key_lt k r.1) m -> alookup k m = None.
Proof. apply alookup_below. Qed.

Lemma told_removed want out k e m1 m2 : sorted_recs ((k, e) :: m1) -> Forall (fun r => key_lt k r.1) m2 -> told want out ((k, e) :: m1) m2 ->
  told want (map_set k (mkDifference (Some e) (nd_after (difference_at k out))) out) m1 m2.
Proof.
  intros Hs H2 Ht. pose proof (told_none want out k e m1 m2 Ht) as Ek. destruct (tail_lookup k e m1 Hs) as [N1 Hp]. pose proof (before_all k m2 H2) as N2.
  eapply (told_step want out k (Some e) None); [done| |done|done|done| | | | |exact Ht].
  - by rewrite alookup_cons, decide_True.
  - intros p Hne. by split; [apply Hp|].
  - apply map_set_sorted, Ht.
  - rewrite map_set_lookup, decide_True by done. unfold difference_at. by rewrite Ek.
  - intros p Hne. by rewrite map_set_lookup, decide_False.
Qed.
Lemma told_added want out k e m1 m2 : sorted_recs ((k, e) :: m2) -> Forall (fun r => key_lt k r.1) m1 -> told want out m1 ((k, e) :: m2) ->
  told want (map_set k (mkDifference (nd_before (difference_at k out)) (Some e)) out) m1 m2.
Proof.
  intros Hs H1 Ht. pose proof (told_none' want out k e m2 m1 Ht) as Ek. destruct (tail_lookup k e m2 Hs) as [N2 Hp]. pose proof (before_all k m1 H1) as N1.
  eapply (told_step want out k None (Some e)); [done|done| |done|done| | | | |exact Ht].
  - by rewrite alookup_cons, decide_True.
  - intros p Hne. by split; [|apply Hp].
  - apply map_set_sorted, Ht.
  - rewrite map_set_lookup, decide_True by done. unfold difference_at. by rewrite Ek.
  - intros p Hne. by rewrite map_set_lookup, decide_False.
Qed.
Lemma told_both want out k e e' m1 m2 : sorted_recs ((k, e) :: m1) -> sorted_recs ((k, e') :: m2) -> told want out ((k, e) :: m1) ((k, e') :: m2) ->
  told want (if bool_decide (e = e') then out else default out (map_emplace k (mkDifference (Some e) (Some e')) out)) m1 m2.
Proof.
  intros H1 H2 Ht. pose proof (told_none want out k e m1 _ Ht) as Ek. destruct (tail_lookup k e m1 H1) as [N1 Hp1]. destruct (tail_lookup k e' m2 H2) as [N2 Hp2].
  unfold map_emplace. rewrite Ek. cbn [default].
  eapply (told_step want out k (Some e) (Some e')); [done| | |done|done| | | | |exact Ht].
  - by rewrite alookup_cons, decide_True.
  - by rewrite alookup_cons, decide_True.
  - intros p Hne. split; [by apply Hp1|by apply Hp2].
  - destruct (bool_decide (e = e')); [apply Ht|apply map_set_sorted, Ht].
  - unfold differ. destruct (bool_decide_reflect (e = e')) as [->|Hne]; [by rewrite decide_True|]. rewrite decide_False by congruence. cbn. by rewrite map_set_lookup, decide_True.
  - intros p Hne. destruct (bool_decide (e = e')); [done|]. cbn. by rewrite map_set_lookup, decide_False.
Qed.

(** ** Streams over a tree *)

Section streams.
Context `{Sha256} {S : Type} `{NodeStore S, !AddressedStore S} (s : S) (h : nat).
Implicit Types (es : NamespaceEntries) (ess : list NamespaceEntries) (items : list SpineItem).

Definition pend_at (i : SpineItem) es : Prop := exists d, (d <= 255)%nat /\ it_level i = Z.of_nat d /\ tree_at s h d (ch_id (it_child i)) es.
Definition raw_at (r : LeafRecord) (e : Bytes * FsEntry) : Prop := exists tb, r = mkLeafRecord e.1 (raw_with e tb) None /\ record_at s h e tb.
(** The steps left below items. *)
Fixpoint load items ess : nat := match items, ess with i :: items, es :: ess => (Z.to_nat (it_level i) + 2) * length es + 1 + load items ess | _, _ => 0 end.
Definition stream_at (d : DiffStream) es (w : nat) : Prop := exists ess res, Forall2 pend_at (ds_pending d) ess /\ Forall2 raw_at (ds_records d) res /\
  es = res ++ concat ess /\ w = (load (ds_pending d) ess + length res)%nat.

Lemma load_app l1 k1 l2 k2 : Forall2 pend_at l1 k1 -> load (l1 ++ l2) (k1 ++ k2) = (load l1 k1 + load l2 k2)%nat.
Proof. induction 1 as [|i es l k _ _ IH]; cbn; [done|]. rewrite IH. lia. Qed.

Lemma begin_ok d root E : (d <= 255)%nat -> tree_at s h d root E -> exists items, begin_items s root = Ok items /\ Forall2 pend_at items [E] /\ (load items [E] <= 257 * length E + 1)%nat.
Proof.
  intros Hd Ht. destruct (read_spine_ok s h s ltac:(by intros ???) d root E Ht) as (cs & Er & _). unfold begin_items. rewrite Er. cbn [mbind result_bind sp_level]. eexists. split_and!; [done| |].
  - constructor; [|constructor]. exists d. split_and!; [done|by cbn; rewrite level_small|done].
  - cbn [load it_level]. rewrite level_small by done. nia.
Qed.
Lemma expand_pend d i es : (Datatypes.S d <= 255)%nat -> it_level i = Z.of_nat (Datatypes.S d) -> tree_at s h (Datatypes.S d) (ch_id (it_child i)) es ->
  exists items ess, expand_item s i = Ok items /\ Forall2 pend_at items ess /\ es = concat ess /\ (load items ess <= (d + 3) * length es)%nat.
Proof.
  intros Hd El Ht. destruct (read_spine_ok s h s ltac:(by intros ???) _ _ _ Ht) as (cs & Er & Hne & ess & -> & Hc & H2). unfold expand_item. rewrite Er. cbn [mbind result_bind sp_level sp_children].
  rewrite level_small, El, Z.eqb_refl by done. cbn [negb]. eexists _, ess. split_and!; [done| |done|].
  - clear Er Hne Ht Hc. induction H2 as [|c es cs ess [H3 H4] _ IH]; [constructor|]. rewrite fmap_cons.
    constructor; [|done]. exists d. cbn [it_level it_child]. split_and!; [lia| |done]. unfold wrap8. rewrite Z.mod_small; lia.
  - clear Er Hne Ht Hc. induction H2 as [|c es cs ess [H3 (e & rest & -> & _)] _ IH]; [cbn; lia|]. rewrite fmap_cons. cbn [load it_level concat]. rewrite length_app. cbn [length].
    assert (Z.to_nat (wrap8 (Z.of_nat (Datatypes.S d) - 1)) = d) as -> by (unfold wrap8; rewrite Z.mod_small; lia). nia.
Qed.

Lemma open_stream_ok d es w : stream_at d es w -> ds_records d = [] -> ds_pending d <> [] ->
  exists d' w', open_stream s d = Ok d' /\ stream_at d' es w' /\ (w' < w)%nat.
Proof.
  intros (ess & res & Hp & Hr & -> & ->) Er Hne. rewrite Er in Hr. apply Forall2_nil_inv_l in Hr as ->. unfold open_stream. destruct (ds_pending d) as [|i rest]; [done|].
  apply Forall2_cons_inv_l in Hp as (es & ess' & (dd & Hd & El & Ht) & Hp & ->). cbn [app length load concat]. destruct dd as [|dd].
  - rewrite El. cbn [Z.of_nat Z.eqb]. destruct (read_leaf_raws s h _ es Ht) as (ts & H2 & ->). cbn [mbind result_bind].
    eexists _, _. split; [done|]. split; [exists ess', es; split_and!; [done| |done|done]|].
    + cbn [ds_records]. clear -H2. induction H2 as [|e tb es ts Hr _ IH]; cbn; constructor; [|done]. by exists tb.
    + cbn [ds_pending Z.to_nat]. lia.
  - assert ((it_level i =? 0) = false) as -> by (apply Z.eqb_neq; lia). destruct (expand_pend dd i es Hd El Ht) as (items & ess & -> & Hi & -> & Hl). cbn [mbind result_bind].
    eexists _, _. split; [done|]. split; [exists (ess ++ ess'), []; rewrite Er; split_and!; [by apply Forall2_app|constructor|by rewrite concat_app|done]|].
    cbn [ds_pending]. rewrite (load_app _ _ _ _ Hi), El. cbn [length]. nia.
Qed.
Lemma fill_ok fuel : forall d es w, stream_at d es w -> (w <= fuel)%nat ->
  exists d' w', fill_stream s fuel d = Ok d' /\ stream_at d' es w' /\ (w' <= w)%nat /\ (ds_records d' = [] -> ds_pending d' = []) /\
    (ds_records d = [] -> ds_pending d <> [] -> (w' < w)%nat).
Proof.
  induction fuel as [|fuel IH]; intros d es w Hd Hw.
  - exists d, w. assert (ds_records d = [] -> ds_pending d = []) as Hnil.
    { intros Er. destruct Hd as (ess & res & Hp & Hr & -> & ->). destruct (ds_pending d) as [|i rest]; [done|]. apply Forall2_cons_inv_l in Hp as (x & ess' & _ & _ & ->). cbn [load] in Hw. lia. }
    split_and!; [|done|lia|done|by intros E Hne; apply Hnil in E]. unfold fill_stream. destruct (ds_records d) as [|r rs]; [|done]. by rewrite Hnil.
  - cbn [fill_stream]. destruct (ds_records d) as [|r rs] eqn:Er; [|exists d, w; by split_and!; [..|rewrite Er|]].
    destruct (ds_pending d) as [|i rest] eqn:Ep; [exists d, w; split_and!; [done|done|lia|done|done]|].
    destruct (open_stream_ok d es w Hd Er ltac:(by rewrite Ep)) as (d1 & w1 & -> & H1 & Hw1). cbn [mbind result_bind].
    destruct (IH d1 es w1 H1 ltac:(lia)) as (d2 & w2 & E2 & H2 & Hw2 & Hn & _). exists d2, w2. split_and!; [done|done|lia|done|]. intros _ _. lia.
Qed.

Lemma raw_decodes r e fuel : (h <= fuel)%nat -> raw_at r e -> decode_leaf_record s fuel r = Ok e.2 /\ lr_key r = e.1.
Proof.
  intros Hh (tb & -> & Hr). split; [|done]. unfold decode_leaf_record, Reader.run. cbn [lr_raw].
  pose proof (read_to_end [] (raw_with e tb) (decode_leaf_entry s fuel true []) (fun x => x) e (reads_whole_entry s h e tb fuel [] Hh Hr)) as E. cbn [app length] in E. by rewrite E.
Qed.
(** One node under two roots holds the same entries. *)
Lemma tree_same d id es es' : tree_at s h d id es -> tree_at s h d id es' -> sorted_recs es -> sorted_recs es' -> es = es'.
Proof.
  intros H1 H2 Hs1 Hs2. pose proof (read_tree_ok s h (Datatypes.S (d + h)) d id es ltac:(lia) H1 Hs1). pose proof (read_tree_ok s h (Datatypes.S (d + h)) d id es' ltac:(lia) H2 Hs2). congruence.
Qed.

(** A node says its level. *)
Lemma same_level d d' id es es' : (d <= 255)%nat -> (d' <= 255)%nat -> tree_at s h d id es -> tree_at s h d' id es' -> d = d'.
Proof.
  intros Hd Hd' H1 H2. destruct (read_spine_ok s h s ltac:(by intros ???) _ _ _ H1) as (cs & E1 & _). destruct (read_spine_ok s h s ltac:(by intros ???) _ _ _ H2) as (cs' & E2 & _).
  rewrite E1 in E2. injection E2 as El _. rewrite !level_small in El by done. lia.
Qed.

Lemma stream_records d es w r rs : stream_at d es w -> ds_records d = r :: rs ->
  exists e rest w', es = e :: rest /\ raw_at r e /\ stream_at (mkStream (ds_pending d) rs) rest w' /\ (w' < w)%nat.
Proof.
  intros (ess & res & Hp & Hr & -> & ->) Er. rewrite Er in Hr. apply Forall2_cons_inv_l in Hr as (e & res' & He & Hr & ->).
  exists e, (res' ++ concat ess), (load (ds_pending d) ess + length res')%nat. split_and!; [done|done|by exists ess, res'|cbn; lia].
Qed.
Lemma stream_none d es w : stream_at d es w -> ds_records d = [] -> ds_pending d = [] -> es = [].
Proof. intros (ess & res & Hp & Hr & -> & _) Er E. rewrite Er in Hr. rewrite E in Hp. apply Forall2_nil_inv_l in Hp as ->. by apply Forall2_nil_inv_l in Hr as ->. Qed.
Lemma stream_pop d es w i rest : stream_at d es w -> ds_records d = [] -> ds_pending d = i :: rest ->
  exists es1 es2 w', es = es1 ++ es2 /\ pend_at i es1 /\ stream_at (pop d) es2 w' /\ (w' < w)%nat.
Proof.
  intros (ess & res & Hp & Hr & -> & ->) Er Ep. rewrite Er in Hr. apply Forall2_nil_inv_l in Hr as ->. rewrite Ep in Hp |- *. apply Forall2_cons_inv_l in Hp as (es1 & ess' & H1 & Hp & ->).
  exists es1, (concat ess'), (load rest ess')%nat. split_and!; [done|done| |cbn; lia]. exists ess', []. unfold pop. rewrite Ep, Er. cbn. split_and!; [done|constructor|done|lia].
Qed.

Lemma first_key_lt k e (m : NamespaceEntries) k' : sorted_recs ((k, e) :: m) -> key_lt k' k -> Forall (fun r => key_lt k' r.1) ((k, e) :: m).
Proof. intros [Hk _]%sorted_recs_cons Hlt. constructor; [done|]. eapply Forall_impl; [exact Hk|]. intros r Hr. cbn in *. by transitivity k. Qed.

(** The two streams, walked to their ends. *)
Lemma tree_diff_loop_ok fuel : forall a b out m1 m2 w1 w2 want, stream_at a m1 w1 -> stream_at b m2 w2 -> sorted_recs m1 -> sorted_recs m2 -> told want out m1 m2 ->
  (w1 + w2 + h < fuel)%nat -> exists out', diff_loop s fuel a b out = Ok out' /\ told want out' [] [].
Proof.
  induction fuel as [|fuel IH]; intros a b out m1 m2 w1 w2 want Ha Hb Hs1 Hs2 Ht Hf; [lia|]. cbn [diff_loop].
  destruct (ds_records a) as [|x xs] eqn:Ea; destruct (ds_records b) as [|y ys] eqn:Eb.
  - destruct (ds_pending a) as [|ia pa] eqn:Epa; destruct (ds_pending b) as [|ib pb] eqn:Epb.
    + exists out. split; [done|]. rewrite (stream_none a m1 w1 Ha Ea Epa), (stream_none b m2 w2 Hb Eb Epb) in Ht. done.
    + destruct (fill_ok fuel b m2 w2 Hb ltac:(lia)) as (b' & w' & -> & Hb' & Hw & _ & Hlt). cbn [mbind result_bind]. specialize (Hlt Eb ltac:(by rewrite Epb)).
      eapply IH; [exact Ha|exact Hb'|done|done|done|lia].
    + destruct (fill_ok fuel a m1 w1 Ha ltac:(lia)) as (a' & w' & -> & Ha' & Hw & _ & Hlt). cbn [mbind result_bind]. specialize (Hlt Ea ltac:(by rewrite Epa)).
      eapply IH; [exact Ha'|exact Hb|done|done|done|lia].
    + destruct (open_stream_ok a m1 w1 Ha Ea ltac:(by rewrite Epa)) as (a' & wa & Eoa & Ha' & Hwa). destruct (open_stream_ok b m2 w2 Hb Eb ltac:(by rewrite Epb)) as (b' & wb & Eob & Hb' & Hwb).
      destruct ((it_level ia =? it_level ib) && bool_decide (ch_id (it_child ia) = ch_id (it_child ib))) eqn:Esame.
      * apply andb_true_iff in Esame as [El%Z.eqb_eq Eid%bool_decide_eq_true].
        destruct (stream_pop a m1 w1 ia pa Ha Ea Epa) as (e1 & m1' & w1' & -> & (d1 & Hd1 & El1 & Ht1) & Hp1 & Hw1).
        destruct (stream_pop b m2 w2 ib pb Hb Eb Epb) as (e2 & m2' & w2' & -> & (d2 & Hd2 & El2 & Ht2) & Hp2 & Hw2).
        pose proof Hs1 as (_ & He1 & Hm1)%sorted_recs_app. pose proof Hs2 as (_ & He2 & Hm2)%sorted_recs_app.
        assert (d1 = d2) as -> by lia. rewrite Eid in Ht1. pose proof (tree_same _ _ _ _ Ht1 Ht2 He1 He2) as ->.
        eapply IH; [exact Hp1|exact Hp2|done|done|by eapply told_same|lia].
      * destruct (it_level ib <? it_level ia); [rewrite Eoa; cbn [mbind result_bind]; eapply IH; [exact Ha'|exact Hb|done|done|done|lia]|].
        destruct (it_level ia <? it_level ib); [rewrite Eob; cbn [mbind result_bind]; eapply IH; [exact Ha|exact Hb'|done|done|done|lia]|].
        rewrite Eoa. cbn [mbind result_bind]. rewrite Eob. cbn [mbind result_bind]. eapply IH; [exact Ha'|exact Hb'|done|done|done|lia].
  - destruct (fill_ok fuel a m1 w1 Ha ltac:(lia)) as (a' & w' & -> & Ha' & Hw & Hnil & Hlt). cbn [mbind result_bind]. destruct (ds_records a') as [|x xs] eqn:Ea'.
    + pose proof (stream_none a' m1 w' Ha' Ea' (Hnil eq_refl)) as ->. destruct (stream_records b m2 w2 y ys Hb Eb) as ([k e] & m2' & w2' & -> & Hy & Hb' & Hw2).
      destruct (raw_decodes y (k, e) fuel ltac:(lia) Hy) as [Ed Ek]. unfold added_entry. rewrite Ed, Ek. cbn [mbind result_bind fst snd]. pose proof Hs2 as [_ Hs2']%sorted_recs_cons.
      eapply IH; [exact Ha'|exact Hb'|done|done|by apply told_added; [|constructor|]|lia].
    + assert (w' < w1)%nat as Hw'.
      { apply Hlt; [done|]. intros Epa. rewrite (stream_none a m1 w1 Ha Ea Epa) in Ha'. destruct (stream_records a' _ _ x xs Ha' Ea') as (? & ? & ? & ? & _). done. }
      eapply IH; [exact Ha'|exact Hb|done|done|done|lia].
  - destruct (fill_ok fuel b m2 w2 Hb ltac:(lia)) as (b' & w' & -> & Hb' & Hw & Hnil & Hlt). cbn [mbind result_bind]. destruct (ds_records b') as [|y ys] eqn:Eb'.
    + pose proof (stream_none b' m2 w' Hb' Eb' (Hnil eq_refl)) as ->. destruct (stream_records a m1 w1 x xs Ha Ea) as ([k e] & m1' & w1' & -> & Hx & Ha' & Hw1).
      destruct (raw_decodes x (k, e) fuel ltac:(lia) Hx) as [Ed Ek]. unfold removed_entry. rewrite Ed, Ek. cbn [mbind result_bind fst snd]. pose proof Hs1 as [_ Hs1']%sorted_recs_cons.
      eapply IH; [exact Ha'|exact Hb'|done|done|by apply told_removed; [|constructor|]|lia].
    + assert (w' < w2)%nat as Hw'.
      { apply Hlt; [done|]. intros Epb. rewrite (stream_none b m2 w2 Hb Eb Epb) in Hb'. destruct (stream_records b' _ _ y ys Hb' Eb') as (? & ? & ? & ? & _). done. }
      eapply IH; [exact Ha|exact Hb'|done|done|done|lia].
  - destruct (stream_records a m1 w1 x xs Ha Ea) as ([k e] & m1' & w1' & -> & Hx & Ha' & Hw1). destruct (stream_records b m2 w2 y ys Hb Eb) as ([k' e'] & m2' & w2' & -> & Hy & Hb' & Hw2).
    destruct (raw_decodes x (k, e) fuel ltac:(lia) Hx) as [Ed Ek]. destruct (raw_decodes y (k', e') fuel ltac:(lia) Hy) as [Ed' Ek']. rewrite Ek, Ek'. cbn [fst snd] in *.
    pose proof Hs1 as [_ Hs1']%sorted_recs_cons. pose proof Hs2 as [_ Hs2']%sorted_recs_cons.
    destruct (key_ltb k k') eqn:Elt; [|destruct (key_ltb k' k) eqn:Egt].
    + unfold removed_entry. rewrite Ed, Ek. cbn [mbind result_bind]. eapply IH; [exact Ha'|exact Hb|done|done|apply told_removed; [done|by eapply first_key_lt|done]|lia].
    + unfold added_entry. rewrite Ed', Ek'. cbn [mbind result_bind]. eapply IH; [exact Ha|exact Hb'|done|done|apply told_added; [done|by eapply first_key_lt|done]|lia].
    + assert (k = k') as <- by (by apply key_total). unfold both_entries. rewrite Ek.
      assert ((if bool_decide (lr_raw x = lr_raw y) then Ok out else before ← decode_leaf_record s fuel x; after ← decode_leaf_record s fuel y;
        Ok (if bool_decide (before = after) then out else default out (map_emplace k (mkDifference (Some before) (Some after)) out))) =
        Ok (if bool_decide (e = e') then out else default out (map_emplace k (mkDifference (Some e) (Some e')) out))) as ->.
      { destruct (bool_decide_reflect (lr_raw x = lr_raw y)) as [Er|_]; [|by rewrite Ed; cbn [mbind result_bind]; rewrite Ed'].
        unfold decode_leaf_record in Ed, Ed'. rewrite Er in Ed. rewrite Ed in Ed'. injection Ed' as ->. by rewrite bool_decide_true. }
      cbn [mbind result_bind]. eapply IH; [exact Ha'|exact Hb'|done|done|by apply told_both|lia].
Qed.

Lemma diff_ok fuel d1 d2 a b E1 E2 : tree_at s h d1 a E1 -> tree_at s h d2 b E2 -> (d1 <= 255)%nat -> (d2 <= 255)%nat -> sorted_recs E1 -> sorted_recs E2 ->
  (257 * (length E1 + length E2) + 2 + h < fuel)%nat ->
  exists out, diff_namespace_trees s fuel a b = Ok out /\ sorted_recs out /\ forall p, alookup p out = differ (alookup p E1) (alookup p E2).
Proof.
  intros H1 H2 Hd1 Hd2 Hs1 Hs2 Hf. unfold diff_namespace_trees. destruct (bool_decide_reflect (a = b)) as [->|Hne].
  - exists []. split_and!; [done|constructor|]. intros p. rewrite (same_level d1 d2 b E1 E2) in H1 by done. rewrite (tree_same _ _ _ _ H1 H2 Hs1 Hs2). unfold differ. by rewrite decide_True.
  - destruct (begin_ok d1 a E1 Hd1 H1) as (ia & Ea & Ha & Hla). destruct (begin_ok d2 b E2 Hd2 H2) as (ib & Eb & Hb & Hlb).
    unfold begin_stream. rewrite Ea, Eb. cbn [mbind result_bind].
    destruct (tree_diff_loop_ok fuel (mkStream ia []) (mkStream ib []) [] E1 E2 (load ia [E1]) (load ib [E2]) (fun p => differ (alookup p E1) (alookup p E2))) as (out & E & Ht).
    + exists [E1], []. cbn. split_and!; [done|constructor|by rewrite app_nil_r|lia].
    + exists [E2], []. cbn. split_and!; [done|constructor|by rewrite app_nil_r|lia].
    + done.
    + done.
    + split_and!; [done|by intros p [? ?]|constructor].
    + lia.
    + exists out. destruct Ht as (Hw & _ & Hso). split_and!; [done|done|]. intros p. rewrite Hw. by destruct (alookup p out).
Qed.
End streams.
