(* ===== verification/NamespaceNodesDiff.v ===== *)
(** * The nodes only one of two namespace trees holds

    A branch or a leaf holds its keys, so a node stands at one place of a tree;
    what [diff_namespace_tree_nodes] opens on one side only is in that tree
    only. *)

From S2P Require Import Prelude Sorts Maps Orders Codec TorrentRequest Journal Paths Metadata MetadataCodec MetadataRoundtrip MetadataDelta MetadataMerge NamespaceTree NamespaceView NamespaceUpdate NamespaceNodes NamespaceReads NamespaceChanges NamespaceSplice NamespaceReach NamespaceDiff.

Section spines.
Context `{Sha256} {S : Type} `{NodeStore S, !AddressedStore S} (s : S) (h : nat).
Implicit Types (es : NamespaceEntries) (ess : list NamespaceEntries) (ids : list ObjectId).

(** The branches and leaves under a node. *)
Fixpoint spine_at (d : nat) (id : ObjectId) es ids : Prop :=
  match d with
  | O => leaf_at s h id es /\ ids = [id]
  | Datatypes.S d' => exists cs ess idss, ns_get s id = Some (spine_bytes true d cs) /\ cs <> [] /\ Forall child_ok cs /\ fits cs /\
      Forall2 (fun c ei => spine_at d' (ch_id c) ei.1 ei.2 /\ first_of c ei.1) cs (zip ess idss) /\ length ess = length cs /\ length idss = length cs /\
      es = concat ess /\ ids = id :: concat idss
  end.

Lemma zip_two {A B} (l : list (A * B)) : l = zip l.*1 l.*2 /\ length l.*1 = length l /\ length l.*2 = length l.
Proof. split_and!; [symmetry; apply zip_fst_snd|apply length_fmap..]. Qed.
Lemma spine_exists d id es : tree_at s h d id es -> exists ids, spine_at d id es ids.
Proof.
  revert id es. induction d as [|d IH]; intros id es Ht; cbn [tree_at] in Ht; [by exists [id]|].
  destruct Ht as (cs & ess & E & Hne & Hc & Hf & H2 & ->).
  assert (exists eis, Forall2 (fun c ei => spine_at d (ch_id c) ei.1 ei.2 /\ first_of c ei.1) cs eis /\ eis.*1 = ess) as (eis & H3 & Ee).
  { clear E Hne Hc Hf. induction H2 as [|c es cs ess [Hc Hf] _ (eis & H3 & <-)]; [by exists []; split; [constructor|]|].
    destruct (IH _ _ Hc) as (ids & Hi). exists ((es, ids) :: eis). split; [by constructor|done]. }
  destruct (zip_two eis) as (Ez & El1 & El2). pose proof (Forall2_length _ _ _ H3) as El. rewrite Ez in H3.
  exists (id :: concat eis.*2). exists cs, eis.*1, eis.*2. rewrite Ee in *. split_and!; try done; congruence.
Qed.
Lemma spine_tree d id es ids : spine_at d id es ids -> tree_at s h d id es.
Proof.
  revert id es ids. induction d as [|d IH]; intros id es ids; cbn [spine_at tree_at]; [by intros [? _]|].
  intros (cs & ess & idss & E & Hne & Hc & Hf & H2 & El1 & El2 & -> & ->). exists cs, ess. split_and!; [done..| |done].
  clear E Hne Hc Hf. revert ess idss H2 El1 El2. induction cs as [|c cs IHc]; intros [|es ess] [|ids idss] H2 El1 El2; try done.
  cbn in H2. apply Forall2_cons in H2 as [[H3 H4] H2]. constructor; [split; [by eapply IH|done]|]. eapply IHc; [exact H2|cbn in *; lia..].
Qed.
(** A node of a spine, with the entries it holds. *)
Lemma spine_member d id es ids x : spine_at d id es ids -> x ∈ ids ->
  exists dx ex, (dx <= d)%nat /\ tree_at s h dx x ex /\ ex ⊆ es /\ (es <> [] -> ex <> []) /\ (sorted_recs es -> sorted_recs ex).
Proof.
  revert id es ids. induction d as [|d IH]; intros id es ids Hs Hx.
  - destruct Hs as [Hl ->]. apply list_elem_of_singleton in Hx as ->. exists 0%nat, es. by split_and!.
  - pose proof (spine_tree _ _ _ _ Hs) as Ht. cbn [spine_at] in Hs. destruct Hs as (cs & ess & idss & E & Hne & Hc & Hf & H2 & El1 & El2 & -> & ->).
    apply elem_of_cons in Hx as [->|Hx]; [exists (Datatypes.S d), (concat ess); by split_and!|]. clear E Hne Hc Hf Ht.
    revert ess idss H2 El1 El2 Hx. induction cs as [|c cs IHc]; intros [|es ess] [|ids idss] H2 El1 El2 Hx; try done; [by apply not_elem_of_nil in Hx|].
    cbn in H2. apply Forall2_cons in H2 as [[H3 H4] H2]. cbn [concat] in *. apply elem_of_app in Hx as [Hx|Hx].
    + destruct (IH _ _ _ H3 Hx) as (dx & ex & Hd & Ht & Hsub & Hn & Hso). exists dx, ex. split_and!; [lia|done| | |].
      * intros r Hr. apply elem_of_app. left. by apply Hsub.
      * intros _. apply Hn. by eapply first_nonempty.
      * intros Hss. apply Hso. by apply sorted_recs_app in Hss as (_ & ? & _).
    + destruct (IHc ess idss H2 ltac:(cbn in *; lia) ltac:(cbn in *; lia) Hx) as (dx & ex & Hd & Ht & Hsub & Hn & Hso). exists dx, ex. split_and!; [done|done| | |].
      * intros r Hr. apply elem_of_app. right. by apply Hsub.
      * intros _. apply Hn. intros En. destruct cs as [|c' cs]; [destruct idss; [by apply not_elem_of_nil in Hx|cbn in El2; lia]|].
        destruct ess as [|es' ess]; [cbn in El1; lia|]. destruct idss as [|ids' idss]; [cbn in El2; lia|]. cbn in H2. apply Forall2_cons in H2 as [[_ Hf'] _]. apply first_nonempty in Hf'. cbn in En. by destruct es'.
      * intros Hss. apply Hso. by apply sorted_recs_app in Hss as (_ & _ & ?).
Qed.

(** A node stands at one place. *)
Lemma spine_apart d d' id id' es es' ids ids' x : (d <= 255)%nat -> (d' <= 255)%nat -> spine_at d id es ids -> spine_at d' id' es' ids' ->
  sorted_recs (es ++ es') -> es <> [] -> es' <> [] -> x ∈ ids -> x ∈ ids' -> False.
Proof.
  intros Hd Hd' H1 H2 Hs Hn Hn' Hx Hx'. pose proof Hs as (Hlt & Hs1 & Hs2)%sorted_recs_app.
  destruct (spine_member _ _ _ _ _ H1 Hx) as (dx & ex & Hdx & Ht & Hsub & Hne & Hso). destruct (spine_member _ _ _ _ _ H2 Hx') as (dx' & ex' & Hdx' & Ht' & Hsub' & Hne' & Hso').
  pose proof (same_level s h dx dx' x ex ex' ltac:(lia) ltac:(lia) Ht Ht') as ->. pose proof (tree_same s h _ _ _ _ Ht Ht' (Hso Hs1) (Hso' Hs2)) as ->.
  specialize (Hne Hn). destruct ex' as [|r ex']; [done|]. assert (key_lt r.1 r.1) as E; [|by apply key_lt_irrefl in E]. apply Hlt; [apply Hsub|apply Hsub']; by left.
Qed.
Lemma spine_nodup d id es ids : (d <= 255)%nat -> spine_at d id es ids -> sorted_recs es -> NoDup ids.
Proof.
  revert id es ids. induction d as [|d IH]; intros id es ids Hd Hs Hso; [destruct Hs as [_ ->]; apply NoDup_singleton|].
  pose proof (spine_tree _ _ _ _ Hs) as Ht. cbn [spine_at] in Hs. destruct Hs as (cs & ess & idss & E & Hne & Hc & Hf & H2 & El1 & El2 & -> & ->). apply NoDup_cons. split.
  - intros Hin. clear E Hne Hc Hf. revert ess idss H2 El1 El2 Hin Hso Ht. induction cs as [|c cs IHc]; intros [|es ess] [|ids idss] H2 El1 El2 Hin Hso Ht; try done; [by apply not_elem_of_nil in Hin|].
    assert (forall x dx ex, (dx <= d)%nat -> tree_at s h dx x ex -> x <> id) as Hlev by (intros x dx ex Hdx Htx ->; pose proof (same_level s h dx (Datatypes.S d) id ex _ ltac:(lia) Hd Htx Ht); lia).
    clear IHc. set (all := ids :: idss) in *. assert (Forall2 (fun c ei => spine_at d (ch_id c) ei.1 ei.2 /\ first_of c ei.1) (c :: cs) (zip (es :: ess) all)) as H2' by exact H2.
    apply in_concat_of in Hin as (l & Hl & Hin). apply list_elem_of_lookup in Hin as (i & Ei).
    assert (exists ei, zip (es :: ess) all !! i = Some ei /\ ei.2 = l) as (ei & Eei & <-).
    { assert (i < length (es :: ess))%nat as Hi by (apply lookup_lt_Some in Ei; subst all; cbn in *; lia). apply lookup_lt_is_Some in Hi as (e' & Ee'). exists (e', l). split; [|done]. by apply lookup_zip_with_Some; exists e', l. }
    destruct (Forall2_lookup_r _ _ _ _ _ H2' Eei) as (c' & _ & [Hsp _]). destruct (spine_member _ _ _ _ _ Hsp Hl) as (dx & ex & Hdx & Htx & _). by apply (Hlev id dx ex).
  - clear E Hne Hc Hf Ht. revert ess idss H2 El1 El2 Hso. induction cs as [|c cs IHc]; intros [|es ess] [|ids idss] H2 El1 El2 Hso; try done; [constructor|].
    cbn in H2. apply Forall2_cons in H2 as [[H3 H4] H2]. cbn [concat fst snd] in *. pose proof Hso as (Hlt & Hso1 & Hso2)%sorted_recs_app. apply NoDup_app. split_and!.
    + eapply IH; [lia|exact H3|done].
    + intros x Hx Hx'. apply in_concat_of in Hx' as (l & Hl & Hin). apply list_elem_of_lookup in Hin as (i & Ei).
      assert (exists e', zip ess idss !! i = Some (e', l)) as (e' & Eei).
      { assert (i < length ess)%nat as Hi by (apply lookup_lt_Some in Ei; cbn in *; lia). apply lookup_lt_is_Some in Hi as (e' & Ee'). exists e'. apply lookup_zip_with_Some. by exists e', l. }
      destruct (Forall2_lookup_r _ _ _ _ _ H2 Eei) as (c' & _ & [Hsp Hf']). cbn [fst snd] in *.
      assert (e' ∈ ess) as Hin by (apply lookup_zip_with_Some in Eei as (a & b & Eab & Ea & _); injection Eab as -> _; by eapply list_elem_of_lookup_2).
      eapply (spine_apart d d _ _ es e' ids l x ltac:(lia) ltac:(lia) H3 Hsp); [|by eapply first_nonempty|by eapply first_nonempty|done|done].
      apply sorted_recs_app. split_and!; [|done|by apply concat_sorted in Hso2; rewrite Forall_forall in Hso2; apply Hso2].
      intros r1 r2 Hr1 Hr2. apply Hlt; [done|]. apply in_concat_of. eauto.
    + apply (IHc ess idss H2); [cbn in *; lia..|done].
Qed.

Lemma spine_det d id es es' ids ids' : spine_at d id es ids -> spine_at d id es' ids' -> ids = ids'.
Proof.
  revert id es es' ids ids'. induction d as [|d IH]; intros id es es' ids ids'; cbn [spine_at]; [intros [_ ->] [_ ->]; done|].
  intros (cs & ess & idss & E & _ & Hc & Hf & H2 & El1 & El2 & _ & ->) (cs' & ess' & idss' & E' & _ & Hc' & Hf' & H2' & El1' & El2' & _ & ->).
  rewrite E in E'. injection E' as Eb. destruct (open_branch (Datatypes.S d) cs Hc Hf) as (rd & Er). destruct (open_branch (Datatypes.S d) cs' Hc' Hf') as (rd' & Er').
  rewrite Eb, Er' in Er. injection Er as Ecs _. subst cs'. do 2 f_equal. clear -IH H2 H2' El1 El2 El1' El2'. revert ess idss ess' idss' H2 El1 El2 H2' El1' El2'.
  induction cs as [|c cs IHc]; intros [|e ess] [|i idss] [|e' ess'] [|i' idss'] H2 El1 El2 H2' El1' El2'; try done. cbn in H2, H2'.
  apply Forall2_cons in H2 as [[H3 _] H2]. apply Forall2_cons in H2' as [[H3' _] H2']. f_equal; [by eapply IH|]. eapply IHc; try exact H2; try exact H2'; cbn in *; lia.
Qed.

(** ** The walk of two trees *)

Definition place_at (i : SpineItem) (ei : NamespaceEntries * list ObjectId) : Prop :=
  exists d, (d <= 255)%nat /\ it_level i = Z.of_nat d /\ spine_at d (ch_id (it_child i)) ei.1 ei.2.
(** One side: the nodes opened, those passed over, and those left are the tree's. *)
Definition side_at (d : NodesSide) (all shared : list ObjectId) es (w : nat) : Prop := exists eis, Forall2 place_at (ns_pending d) eis /\
  es = concat eis.*1 /\ all ≡ₚ ns_opened d ++ shared ++ concat eis.*2 /\ w = load (ns_pending d) eis.*1.

Lemma places_load l1 k1 l2 k2 : Forall2 place_at l1 k1 -> load (l1 ++ l2) (k1 ++ k2).*1 = (load l1 k1.*1 + load l2 k2.*1)%nat.
Proof. induction 1 as [|i ei l k _ _ IH]; [done|]. rewrite fmap_app in *. cbn [app load fmap list_fmap] in *. rewrite IH. lia. Qed.

Lemma expand_place d i es ids : (Datatypes.S d <= 255)%nat -> it_level i = Z.of_nat (Datatypes.S d) -> spine_at (Datatypes.S d) (ch_id (it_child i)) es ids ->
  exists items eis, expand_item s i = Ok items /\ Forall2 place_at items eis /\ es = concat eis.*1 /\ ids = ch_id (it_child i) :: concat eis.*2 /\ (load items eis.*1 <= (d + 3) * length es)%nat.
Proof.
  intros Hd El Hs. pose proof (spine_tree _ _ _ _ Hs) as Ht. destruct (read_spine_ok s h s ltac:(by intros ???) _ _ _ Ht) as (cs0 & Er & _).
  cbn [spine_at] in Hs. destruct Hs as (cs & ess & idss & E & Hne & Hc & Hf & H2 & El1 & El2 & -> & ->).
  assert (cs0 = cs) as ->.
  { pose proof (read_branch_node s d _ cs Hc Hf Hne E) as Eb. rewrite Er in Eb. by injection Eb. }
  unfold expand_item. rewrite Er. cbn [mbind result_bind sp_level sp_children]. rewrite level_small, El, Z.eqb_refl by done. cbn [negb].
  exists ((fun c => mkItem c (wrap8 (Z.of_nat (Datatypes.S d) - 1)) false) <$> cs), (zip ess idss). rewrite fst_zip, snd_zip by lia. split_and!; [done| |done|done|].
  - clear -H2 Hd. induction H2 as [|c ei cs eis [H3 _] _ IH]; [constructor|]. rewrite fmap_cons. constructor; [|done]. exists d. cbn [it_level it_child].
    split_and!; [lia| |done]. unfold wrap8. rewrite Z.mod_small; lia.
  - clear -H2 Hd El1 El2. revert ess idss H2 El1 El2. induction cs as [|c cs IH]; intros [|es ess] [|ids idss] H2 El1 El2; try (cbn in *; lia). cbn in H2. apply Forall2_cons in H2 as [[_ (e & rest & Ee & _)] H2]. cbn [fst] in Ee. subst es.
    specialize (IH ess idss H2 ltac:(cbn in *; lia) ltac:(cbn in *; lia)). rewrite fmap_cons. cbn [load it_level concat fst]. rewrite length_app. cbn [length].
    assert (Z.to_nat (wrap8 (Z.of_nat (Datatypes.S d) - 1)) = d) as -> by (unfold wrap8; rewrite Z.mod_small; lia). nia.
Qed.

Lemma open_side_ok d all shared es w : side_at d all shared es w -> ns_pending d <> [] -> sorted_recs es ->
  exists d' es' w', open_side s d = Ok d' /\ side_at d' all shared es' w' /\ (w' < w)%nat /\ sorted_recs es'.
Proof.
  intros (eis & Hp & -> & Hall & ->) Hne Hso. unfold open_side. destruct (ns_pending d) as [|i rest]; [done|].
  apply Forall2_cons_inv_l in Hp as ([es ids] & eis' & (dd & Hd & El & Hs) & Hp & ->). rewrite !fmap_cons in *. cbn [fst snd concat load] in *. destruct dd as [|dd].
  - rewrite El. cbn [Z.of_nat Z.eqb]. destruct Hs as [_ ->]. eexists _, _, _. split; [done|]. split; [exists eis'; cbn [ns_pending ns_opened]; split_and!; [done|done| |done]|].
    + rewrite Hall. cbn [fst]. rewrite <- !app_assoc. cbn [app]. solve_Permutation.
    + split; [lia|]. by apply sorted_recs_app in Hso as (_ & _ & ?).
  - assert ((it_level i =? 0) = false) as -> by (apply Z.eqb_neq; lia). destruct (expand_place dd i es ids Hd El Hs) as (items & eis & -> & Hi & -> & -> & Hl). cbn [mbind result_bind].
    eexists _, _, _. split; [done|]. split; [exists (eis ++ eis'); cbn [ns_pending ns_opened]; split_and!; [by apply Forall2_app|done| |done]|].
    + rewrite Hall, fmap_app, concat_app. rewrite <- !app_assoc. cbn [app]. solve_Permutation.
    + rewrite places_load by done. rewrite fmap_app, concat_app. split; [rewrite El; nia|done].
Qed.

Lemma nodes_loop_ok fuel : forall a b all1 all2 shared m1 m2 w1 w2, side_at a all1 shared m1 w1 -> side_at b all2 shared m2 w2 -> sorted_recs m1 -> sorted_recs m2 -> (w1 + w2 <= fuel)%nat ->
  exists o1 o2 shared', nodes_loop s fuel a b = Ok (o1, o2) /\ all1 ≡ₚ o1 ++ shared' /\ all2 ≡ₚ o2 ++ shared'.
Proof.
  assert (forall d all shared m, side_at d all shared m 0 -> ns_pending d = []) as Hzero.
  { intros d all shared m (eis & Hp & _ & _ & Ew). destruct (ns_pending d) as [|i rest]; [done|]. apply Forall2_cons_inv_l in Hp as (ei & eis' & _ & _ & ->). rewrite fmap_cons in Ew. cbn [load] in Ew. lia. }
  assert (forall a b all1 all2 shared m1 m2 w1 w2 f, side_at a all1 shared m1 w1 -> side_at b all2 shared m2 w2 -> ns_pending a = [] -> ns_pending b = [] ->
    exists o1 o2 shared', nodes_loop s f a b = Ok (o1, o2) /\ all1 ≡ₚ o1 ++ shared' /\ all2 ≡ₚ o2 ++ shared') as Hend.
  { intros a b all1 all2 shared m1 m2 w1 w2 f (e1 & H1 & _ & Ha1 & _) (e2 & H2 & _ & Ha2 & _) Ea Eb. exists (ns_opened a), (ns_opened b), shared. rewrite Ea in H1. rewrite Eb in H2.
    apply Forall2_nil_inv_l in H1 as ->. apply Forall2_nil_inv_l in H2 as ->. cbn [concat fmap list_fmap] in *. rewrite app_nil_r in *.
    split_and!; [|done|done]. destruct f; cbn [nodes_loop]; by rewrite Ea, Eb. }
  induction fuel as [|fuel IH]; intros a b all1 all2 shared m1 m2 w1 w2 Ha Hb Hs1 Hs2 Hf.
  { assert (w1 = 0%nat) as -> by lia. assert (w2 = 0%nat) as -> by lia. eapply Hend; [done|done|by eapply Hzero|by eapply Hzero]. }
  destruct (ns_pending a) as [|x pa] eqn:Epa; destruct (ns_pending b) as [|y pb] eqn:Epb.
  - by eapply Hend.
  - cbn [nodes_loop]. rewrite Epa, Epb. destruct (open_side_ok b all2 shared m2 w2 Hb ltac:(by rewrite Epb) Hs2) as (b' & m2' & w2' & -> & Hb' & Hw & Hs'). cbn [mbind result_bind].
    eapply IH; [exact Ha|exact Hb'|done|done|lia].
  - cbn [nodes_loop]. rewrite Epa, Epb. destruct (open_side_ok a all1 shared m1 w1 Ha ltac:(by rewrite Epa) Hs1) as (a' & m1' & w1' & -> & Ha' & Hw & Hs'). cbn [mbind result_bind].
    eapply IH; [exact Ha'|exact Hb|done|done|lia].
  - cbn [nodes_loop]. rewrite Epa, Epb. destruct (open_side_ok a all1 shared m1 w1 Ha ltac:(by rewrite Epa) Hs1) as (a' & m1' & w1' & Ea & Ha' & Hw1 & Hs1').
    destruct (open_side_ok b all2 shared m2 w2 Hb ltac:(by rewrite Epb) Hs2) as (b' & m2' & w2' & Eb & Hb' & Hw2 & Hs2').
    destruct ((it_level x =? it_level y) && bool_decide (ch_id (it_child x) = ch_id (it_child y))) eqn:Esame.
    + apply andb_true_iff in Esame as [El%Z.eqb_eq Eid%bool_decide_eq_true]. destruct Ha as (e1 & H1 & -> & Ha1 & ->). destruct Hb as (e2 & H2 & -> & Ha2 & ->).
      rewrite Epa in H1. rewrite Epb in H2. apply Forall2_cons_inv_l in H1 as ([es1 ids1] & eis1 & (d1 & Hd1 & El1 & Hsp1) & H1 & ->).
      apply Forall2_cons_inv_l in H2 as ([es2 ids2] & eis2 & (d2 & Hd2 & El2 & Hsp2) & H2 & ->). cbn [fst snd] in *. assert (d1 = d2) as -> by lia. rewrite Eid in Hsp1.
      pose proof (spine_det _ _ _ _ _ _ Hsp1 Hsp2) as ->. rewrite Epa, Epb in Hf. rewrite !fmap_cons in *. cbn [concat fst snd load] in *.
      eapply (IH _ _ all1 all2 (shared ++ ids2)); [exists eis1|exists eis2| | |].
      * cbn [ns_pending ns_opened]. split_and!; [done|done| |done]. by rewrite Ha1, <- app_assoc.
      * cbn [ns_pending ns_opened]. split_and!; [done|done| |done]. by rewrite Ha2, <- app_assoc.
      * by apply sorted_recs_app in Hs1 as (_ & _ & ?).
      * by apply sorted_recs_app in Hs2 as (_ & _ & ?).
      * lia.
    + repeat (match goal with |- context [if ?c then _ else _] => destruct c end); rewrite ?Ea, ?Eb; cbn [mbind result_bind]; rewrite ?Ea, ?Eb; cbn [mbind result_bind];
        first [eapply IH; [exact Ha'|exact Hb'|done|done|lia] | eapply IH; [exact Ha'|exact Hb|done|done|lia] | eapply IH; [exact Ha|exact Hb'|done|done|lia]].
Qed.

Lemma begin_places d root E ids items : (d <= 255)%nat -> spine_at d root E ids -> begin_items s root = Ok items -> Forall2 place_at items [(E, ids)].
Proof.
  intros Hd Hs Eb. destruct (read_spine_ok s h s ltac:(by intros ???) d root E (spine_tree _ _ _ _ Hs)) as (cs & Er & _). unfold begin_items in Eb. rewrite Er in Eb.
  cbn [mbind result_bind sp_level] in Eb. injection Eb as <-. constructor; [|constructor]. exists d. split_and!; [done|by cbn; rewrite level_small|done].
Qed.
Lemma nodes_diff_ok fuel d1 d2 a b E1 E2 ids1 ids2 : (d1 <= 255)%nat -> (d2 <= 255)%nat -> spine_at d1 a E1 ids1 -> spine_at d2 b E2 ids2 -> sorted_recs E1 -> sorted_recs E2 ->
  (257 * (length E1 + length E2) + 2 < fuel)%nat ->
  exists added removed, diff_namespace_tree_nodes s fuel a b = Ok (added, removed) /\
    (forall x, x ∈ added <-> x ∈ ids2 /\ x ∉ ids1) /\ (forall x, x ∈ removed <-> x ∈ ids1 /\ x ∉ ids2).
Proof.
  intros Hd1 Hd2 H1 H2 Hs1 Hs2 Hf. pose proof (spine_tree _ _ _ _ H1) as Ht1. pose proof (spine_tree _ _ _ _ H2) as Ht2. unfold diff_namespace_tree_nodes.
  destruct (bool_decide_reflect (a = b)) as [->|Hne].
  { exists [], []. split; [done|]. pose proof (same_level s h d1 d2 b E1 E2 Hd1 Hd2 Ht1 Ht2) as ->. rewrite (spine_det _ _ _ _ _ _ H1 H2). split; intros x; rewrite elem_of_nil; tauto. }
  destruct (begin_ok s h d1 a E1 Hd1 Ht1) as (ia & Ea & _ & Hla). destruct (begin_ok s h d2 b E2 Hd2 Ht2) as (ib & Eb & _ & Hlb).
  pose proof (begin_places d1 a E1 ids1 ia Hd1 H1 Ea) as Hpa. pose proof (begin_places d2 b E2 ids2 ib Hd2 H2 Eb) as Hpb. rewrite Ea, Eb. cbn [mbind result_bind].
  destruct (nodes_loop_ok fuel (mkSide ia []) (mkSide ib []) ids1 ids2 [] E1 E2 (load ia [E1]) (load ib [E2])) as (o1 & o2 & shared & En & P1 & P2); [| |done|done|lia|].
  { exists [(E1, ids1)]. cbn. rewrite !app_nil_r. by split_and!. }
  { exists [(E2, ids2)]. cbn. rewrite !app_nil_r. by split_and!. }
  rewrite En. cbn [mbind result_bind]. eexists _, _. split; [done|]. pose proof (spine_nodup _ _ _ _ Hd1 H1 Hs1) as N1. pose proof (spine_nodup _ _ _ _ Hd2 H2 Hs2) as N2.
  rewrite P1 in N1. rewrite P2 in N2. apply NoDup_app in N1 as (_ & N1 & _). apply NoDup_app in N2 as (_ & N2 & _). unfold only_in.
  split; intros x; rewrite list_elem_of_filter, !(proj2 (sort_unique_ok _)), P1, P2, !elem_of_app; specialize (N1 x); specialize (N2 x); tauto.
Qed.
End spines.
