(* ===== verification/NamespaceReachClaims.v ===== *)
(** * What the nodes and the differences of namespace trees guarantee *)

From S2P Require Import Prelude Sorts Maps Orders Codec TorrentRequest Journal Paths Metadata MetadataCodec MetadataRoundtrip MetadataDelta MetadataMerge NamespaceTree NamespaceView NamespaceUpdate NamespaceNodes NamespaceReads NamespaceForms NamespaceClaims NamespaceChanges NamespaceSplice NamespaceLevels NamespaceUpdateClaims NamespaceReach NamespaceReachProofs NamespaceDiff NamespaceNodesDiff.

Section claims.
Context `{Sha256} {S : Type} `{NodeStore S, !AddressedStore S} (s : S) (h : nat).

(** C14. The live set of a namespace is complete. Collecting the nodes of a
    tree returns, every node it names is in the store, and any store that has
    these nodes, whatever else it lost, still reads the tree as the same map
    of entries, extents included. *)
Theorem collected_nodes_suffice (d fuel : nat) (root : ObjectId) (E : NamespaceEntries) :
  tree_at s h d root E -> sorted_recs E -> (d + h < fuel)%nat ->
  exists ids, collect_namespace_tree_nodes s fuel root = Ok ids /\ Forall (fun id => is_Some (ns_get s id)) ids /\
    forall (T : Type) (HT : NodeStore T) (t : T), (forall id, id ∈ ids -> ns_get t id = ns_get s id) -> read_namespace_tree t fuel root = Ok E.
Proof.
  intros Ht Hs Hf. destruct (all_collected s h d root E fuel Hf Ht) as (ids & Ec & Hin & Hto). exists ids. split_and!; [done|done|].
  intros T HT t Ha. apply (read_tree_ok t h fuel d); [done|by apply Hto|done].
Qed.

(** C15. What a commit claims, with what it claimed before, is the whole tree.
    Collecting the nodes of a tree that another does not share returns; a
    store that has these nodes and the nodes of the other tree reads the tree
    as the map of its entries, so a subtree left out is always one the other
    tree holds. With no other tree, the nodes collected suffice alone. *)
Theorem changes_reach_all (d fuel : nat) (before : option ObjectId) (after : ObjectId) (E : NamespaceEntries) (olds : list ObjectId) :
  tree_at s h d after E -> sorted_recs E -> (d + h < fuel)%nat ->
  match before with None => olds = [] | Some b => collect_namespace_tree_nodes s fuel b = Ok olds end ->
  exists ids, collect_namespace_tree_changes s fuel before after = Ok ids /\
    forall (T : Type) (HT : NodeStore T) (t : T), (forall id, id ∈ ids ++ olds -> ns_get t id = ns_get s id) -> read_namespace_tree t fuel after = Ok E.
Proof.
  intros Ht Hs Hf Hb. destruct (changed_collected s h d after E fuel before olds Hf Ht) as (ids & Ec & _ & Hto).
  { destruct before as [b|]; [|done]. by exists fuel, olds. }
  exists ids. split; [done|]. intros T HT t Ha. apply (read_tree_ok t h fuel d); [done| |done]. apply Hto; intros id Hid; apply Ha, elem_of_app; auto.
Qed.

(** C16. The difference of two trees is the difference of the two maps. The
    walk of two trees always returns, passing over the subtrees they share;
    a path is among the differences exactly when the two maps disagree on it,
    each once, with the entry each map has there, extents included. *)
Theorem namespace_diff_exact (d1 d2 fuel : nat) (a b : ObjectId) (E1 E2 : NamespaceEntries) :
  tree_at s h d1 a E1 -> tree_at s h d2 b E2 -> (d1 <= 255)%nat -> (d2 <= 255)%nat -> sorted_recs E1 -> sorted_recs E2 ->
  (257 * (length E1 + length E2) + 2 + h < fuel)%nat ->
  exists out, diff_namespace_trees s fuel a b = Ok out /\ sorted_recs out /\
    forall p, alookup p out = if decide (alookup p E1 = alookup p E2) then None else Some (mkDifference (alookup p E1) (alookup p E2)).
Proof. apply diff_ok. Qed.

(** C30. The nodes added and removed are the difference of the two trees'
    branches and leaves: a node is reported added exactly when it stands in
    the tree after and not in the tree before, wherever it stands there, and
    removed exactly when it stands in the tree before only. *)
Theorem nodes_diff_exact (d1 d2 fuel : nat) (a b : ObjectId) (E1 E2 : NamespaceEntries) (nodes1 nodes2 : list ObjectId) :
  (d1 <= 255)%nat -> (d2 <= 255)%nat -> spine_at s h d1 a E1 nodes1 -> spine_at s h d2 b E2 nodes2 -> sorted_recs E1 -> sorted_recs E2 ->
  (257 * (length E1 + length E2) + 2 < fuel)%nat ->
  exists added removed, diff_namespace_tree_nodes s fuel a b = Ok (added, removed) /\
    (forall x, x ∈ added <-> x ∈ nodes2 /\ x ∉ nodes1) /\ (forall x, x ∈ removed <-> x ∈ nodes1 /\ x ∉ nodes2).
Proof. apply nodes_diff_ok. Qed.
End claims.

(** ** Two trees in one store *)

#[local] Existing Instance Sample.sha.

Module ReachSample.
Import TreeSample.
Definition other : NamespaceEntries := sn_entries UpdateSample.after.
Definition both : MemoryStore := adds (tree_nodes limits entries ++ tree_nodes limits other) empty.
Definition first : ObjectId := tree_root limits entries.
Definition second : ObjectId := tree_root limits other.
Lemma has_both : has_nodes both (tree_nodes limits entries) /\ has_nodes both (tree_nodes limits other).
Proof. apply has_app, adds_has, apart_ok. vm_compute. reflexivity. Qed.
Lemma first_stands : exists d, (d <= 6)%nat /\ tree_at both 6 d first entries.
Proof. exact (tree_built both limits limits_fit entries entries_fit (proj1 has_both)). Qed.
Lemma second_stands : exists d, (d <= 6)%nat /\ tree_at both 6 d second other.
Proof. exact (tree_built both limits limits_fit other UpdateSample.after_fits (proj2 has_both)). Qed.
(** A store with what another has of some nodes only. *)
Definition keep (ids : list ObjectId) (s : MemoryStore) : MemoryStore := mkStore (filter (fun n => n.1 ∈ ids) (ms_nodes s)) [] 0.
Lemma keep_has ids s id : id ∈ ids -> ns_get (keep ids s) id = ns_get s id.
Proof.
  intros Hid. change (alookup id (filter (fun n => n.1 ∈ ids) (ms_nodes s)) = alookup id (ms_nodes s)).
  induction (ms_nodes s) as [|[k v] ns IH]; [done|]. rewrite filter_cons, alookup_cons. cbn [fst].
  destruct (decide (k ∈ ids)) as [Hk|Hk]; [rewrite alookup_cons, IH; done|]. rewrite IH. destruct (decide (id = k)) as [->|]; done.
Qed.
Definition first_nodes : list ObjectId := match collect_namespace_tree_nodes both 20 first with Ok ids => ids | Throw _ => [] end.
End ReachSample.

Lemma collected_nodes_suffice_witness :
  exists ids, collect_namespace_tree_nodes ReachSample.both 20 ReachSample.first = Ok ids /\ Forall (fun id => is_Some (ns_get ReachSample.both id)) ids /\
    read_namespace_tree (ReachSample.keep ids ReachSample.both) 20 ReachSample.first = Ok TreeSample.entries.
Proof.
  destruct ReachSample.first_stands as (d & Hd & Ht).
  destruct (collected_nodes_suffice ReachSample.both 6 d 20 ReachSample.first TreeSample.entries Ht (proj1 TreeSample.entries_fit) ltac:(lia)) as (ids & Ec & Hin & Hto).
  exists ids. split; [exact Ec|]. split; [exact Hin|]. apply Hto. intros id Hid. exact (ReachSample.keep_has ids ReachSample.both id Hid).
Defined.

Lemma changes_reach_all_witness :
  exists ids, collect_namespace_tree_changes ReachSample.both 20 (Some ReachSample.first) ReachSample.second = Ok ids /\
    read_namespace_tree ReachSample.both 20 ReachSample.second = Ok ReachSample.other.
Proof.
  destruct ReachSample.second_stands as (d & Hd & Ht).
  destruct (changes_reach_all ReachSample.both 6 d 20 (Some ReachSample.first) ReachSample.second ReachSample.other ReachSample.first_nodes Ht (proj1 UpdateSample.after_fits) ltac:(lia)) as (ids & Ec & Hto).
  { vm_compute. reflexivity. }
  exists ids. split; [exact Ec|]. apply Hto. intros id _. reflexivity.
Defined.

Lemma namespace_diff_exact_witness :
  exists out, diff_namespace_trees ReachSample.both 4000 ReachSample.first ReachSample.second = Ok out /\
    alookup TreeSample.b out = Some (mkDifference (alookup TreeSample.b TreeSample.entries) None) /\ alookup TreeSample.a_f out = None.
Proof.
  destruct ReachSample.first_stands as (d1 & Hd1 & Ht1). destruct ReachSample.second_stands as (d2 & Hd2 & Ht2).
  destruct (namespace_diff_exact ReachSample.both 6 d1 d2 4000 ReachSample.first ReachSample.second TreeSample.entries ReachSample.other Ht1 Ht2 ltac:(lia) ltac:(lia)
    (proj1 TreeSample.entries_fit) (proj1 UpdateSample.after_fits)) as (out & Eo & _ & Hp).
  { change (length TreeSample.entries) with 6%nat. change (length ReachSample.other) with 6%nat. lia. }
  exists out. split; [exact Eo|]. split; rewrite Hp; vm_compute; reflexivity.
Defined.

Lemma nodes_diff_exact_witness :
  exists (nodes1 nodes2 added removed : list ObjectId), diff_namespace_tree_nodes ReachSample.both 4000 ReachSample.first ReachSample.second = Ok (added, removed) /\
    (forall x, x ∈ added <-> x ∈ nodes2 /\ x ∉ nodes1) /\ (forall x, x ∈ removed <-> x ∈ nodes1 /\ x ∉ nodes2) /\ ReachSample.second ∈ added.
Proof.
  destruct ReachSample.first_stands as (d1 & Hd1 & Ht1). destruct ReachSample.second_stands as (d2 & Hd2 & Ht2).
  destruct (spine_exists ReachSample.both 6 d1 _ _ Ht1) as (nodes1 & H1). destruct (spine_exists ReachSample.both 6 d2 _ _ Ht2) as (nodes2 & H2).
  destruct (nodes_diff_exact ReachSample.both 6 d1 d2 4000 ReachSample.first ReachSample.second TreeSample.entries ReachSample.other nodes1 nodes2 ltac:(lia) ltac:(lia) H1 H2
    (proj1 TreeSample.entries_fit) (proj1 UpdateSample.after_fits)) as (added & removed & Ed & Ha & Hr).
  { change (length TreeSample.entries) with 6%nat. change (length ReachSample.other) with 6%nat. lia. }
  exists nodes1, nodes2, added, removed. split; [exact Ed|]. split; [exact Ha|]. split; [exact Hr|].
  assert (match diff_namespace_tree_nodes ReachSample.both 4000 ReachSample.first ReachSample.second with Ok (l, _) => bool_decide (ReachSample.second ∈ l) | Throw _ => false end = true) as Hm by (vm_compute; reflexivity).
  rewrite Ed in Hm. exact (bool_decide_eq_true_1 _ Hm).
Defined.
