(* ===== verification/NamespaceMerge.v ===== *)
(** * The merge of two heads whose namespaces are trees

    [merge_tree_backed_heads] and [tree_merge_delta] of
    [src/src/metadata/namespace_tree.cpp]: the merge sees the paths in which
    the two trees differ, the subjects of standing conflicts and the
    directories above them, and its result is a change set against the tree
    of the lower head. *)

From S2P Require Import Prelude Sorts Maps Orders Codec TorrentRequest Journal Paths Metadata MetadataCodec MetadataDelta MetadataMerge NamespaceTree NamespaceView NamespaceUpdate NamespaceReach.

Record NamespaceTreeMerge : Type := mkTreeMerge { tm_merged : MetadataMergeResult; tm_onto : ObjectId; tm_changes : NamespaceChanges }.

(** ** What the merge must see *)

(** The directories above a path, up to the root. [parent_path] of a normal
    path other than the root is shorter, so a fuel above the length is
    enough. *)
Fixpoint above_path (fuel : nat) (path : Bytes) : list Bytes :=
  if bool_decide (path = root_path) || bool_decide (path = []) then []
  else match fuel with O => [] | S fuel => parent_path path :: above_path fuel (parent_path path) end.

Definition conflict_subjects (conflicts : Conflicts) : list Bytes :=
  omap (fun e => match mc_kind e.2 with Metadata.namespace_entry => Some (mc_key e.2) | catalogue_root_kind => None end) conflicts.

Definition merge_paths (left right : MetadataSnapshot) (differing : NamespaceDifferences) : list Bytes :=
  let subjects := sort_unique (root_path :: differing.*1 ++ conflict_subjects (sn_conflicts left) ++ conflict_subjects (sn_conflicts right)) in
  sort_unique (subjects ++ concat ((fun p => above_path (S (length p)) p) <$> subjects)).

Definition emplace_entry (path : Bytes) (e : option FsEntry) (m : NamespaceEntries) : NamespaceEntries :=
  match e with Some e => default m (map_emplace path e m) | None => m end.

Section merge.
Context `{Sha256} {S : Type} `{NodeStore S} (s : S) (fuel : nat).

(** What each head has at the paths the merge sees. A path that is not a
    difference is read from the left tree, for both. *)
Definition seen_entries (root : ObjectId) (differing : NamespaceDifferences) (paths : list Bytes) : result (NamespaceEntries * NamespaceEntries) :=
  foldM (fun '(l, r) path =>
      match alookup path differing with
      | Some d => Ok (emplace_entry path (nd_before d) l, emplace_entry path (nd_after d) r)
      | None => same ← namespace_tree_lookup s fuel root path true; Ok (emplace_entry path same l, emplace_entry path same r)
      end) ([], []) paths.

(** The paths at which the merge says something else than its primary. *)
Definition tree_changes (paths : list Bytes) (merged primary : NamespaceEntries) : NamespaceChanges :=
  foldl (fun out path =>
      if bool_decide (alookup path merged = alookup path primary) then out else map_set path (alookup path merged) out) [] paths.

Definition merge_tree_backed_heads (left right : MetadataSnapshot) (left_head right_head : Hash256) : result NamespaceTreeMerge :=
  match sn_namespace_root left, sn_namespace_root right with
  | Some left_root, Some right_root =>
      let left_primary := negb (key_ltb right_head left_head) in
      let onto := if left_primary then left_root else right_root in
      if bool_decide (left_head = right_head) then Ok (mkTreeMerge (mkMergeResult (set_namespace None (sn_entries left) left) 0 [] 0) onto [])
      else
        differing ← diff_namespace_trees s fuel left_root right_root;
        let paths := merge_paths left right differing in
        '(left_entries, right_entries) ← seen_entries left_root differing paths;
        merged ← merge_metadata_heads_over left right left_entries right_entries left_head right_head;
        let primary := if left_primary then left_entries else right_entries in
        let changes := tree_changes paths (sn_entries (mm_snapshot merged)) primary in
        Ok (mkTreeMerge (mkMergeResult (set_entries [] (mm_snapshot merged)) (mm_conflicts_created merged) (mm_created_keys merged)
          (mm_conflicts_superseded merged)) onto changes)
  | _, _ => Throw (LogicError "a tree merge requires two tree-backed namespaces")
  end.
End merge.

(** ** The merge as a delta *)

Definition add_change (d : MetadataDelta) (c : Bytes * option FsEntry) : MetadataDelta :=
  match c.2 with
  | Some e => set_entry_edits (map_set c.1 e (md_upsert_entries d)) (md_erase_entries d) d
  | None => set_entry_edits (md_upsert_entries d) (md_erase_entries d ++ [c.1]) d
  end.
Definition tree_merge_delta `{Sha256} (primary merged : MetadataSnapshot) (changes : NamespaceChanges) : option MetadataDelta :=
  d ← metadata_delta primary merged; Some (foldl add_change d changes).
