(* ===== verification/NamespaceMergeProofs.v ===== *)
(** * Merging what two heads have in some paths only

    A merge of two namespaces cut to a set of paths, closed under parents,
    outside which the two agree, is the merge of the whole namespaces cut to
    these paths: each pass of the two merges is followed in step. *)

From S2P Require Import Prelude Sorts Maps Orders Codec TorrentRequest Journal Paths Metadata MetadataCodec MetadataMerge MetadataMergeProofs MetadataMergeClaims.

(** Two folds in step, the second over what a predicate keeps. *)
Lemma foldM_step {A B C} (f : B -> A -> result B) (g : C -> A -> result C) (K : A -> Prop) `{forall a, Decision (K a)} (R : B -> C -> Prop) l s t s' :
  (forall a s t s', a ∈ l -> K a -> R s t -> f s a = Ok s' -> exists t', g t a = Ok t' /\ R s' t') ->
  (forall a s t s', a ∈ l -> ~ K a -> R s t -> f s a = Ok s' -> R s' t) ->
  foldM f s l = Ok s' -> R s t -> exists t', foldM g t (filter K l) = Ok t' /\ R s' t'.
Proof.
  revert s t. induction l as [|a l IH]; intros s t Hk Hn E Hr; [injection E as <-; by exists t|].
  cbn [foldM] in E. apply result_bind_Ok in E as (s1 & E1 & E). rewrite filter_cons. destruct (decide (K a)) as [Ha|Ha].
  - destruct (Hk a s t s1 ltac:(by left) Ha Hr E1) as (t1 & Et & Hr1). cbn [foldM]. rewrite Et.
    apply (IH s1); [|intros; eapply Hn; [by right|done..]|done|done]. intros; eapply Hk; [by right|done..].
  - apply (IH s1); [intros; eapply Hk; [by right|done..]|intros; eapply Hn; [by right|done..]|done|]. eapply Hn; [by left|done..].
Qed.

(** ** Paths by identity *)

Definition file_id (e : FsEntry) : NodeId := pv_file_id (fe_provenance e).
Definition paths_of (id : NodeId) (m : NamespaceEntries) : list Bytes :=
  omap (fun e : Bytes * FsEntry => if decide (file_id e.2 = id) then Some e.1 else None) m.

Lemma by_identity_lookup (m : NamespaceEntries) id :
  alookup id (by_identity m) = if decide (id = array_zero 16 \/ paths_of id m = []) then None else Some (paths_of id m).
Proof.
  unfold by_identity. induction m as [|[p e] m IH] using rev_ind; [cbn; by rewrite decide_True by auto|].
  rewrite foldl_app. cbn [foldl fst snd]. fold (file_id e). unfold paths_of in *. rewrite omap_app. cbn [omap list_omap snd fst].
  destruct (bool_decide_reflect (file_id e = array_zero 16)) as [Hz|Hz].
  - rewrite IH. destruct (decide (file_id e = id)) as [Ei|Ei]; [|by rewrite app_nil_r].
    rewrite decide_True by (left; congruence). rewrite decide_True by (left; congruence). done.
  - rewrite map_set_lookup. destruct (decide (id = file_id e)) as [->|Ne].
    + rewrite IH. destruct (decide (file_id e = file_id e)) as [_|]; [|done].
      rewrite (decide_False (P := _ \/ _ ++ [_] = [])) by (intros [?|[? ?]%app_nil]; done).
      destruct (decide _) as [[?| ->]|]; done.
    + rewrite IH. destruct (decide (file_id e = id)); [congruence|]. by rewrite app_nil_r.
Qed.

Lemma paths_of_elem id m p : p ∈ paths_of id m <-> exists e, (p, e) ∈ m /\ file_id e = id.
Proof.
  unfold paths_of. rewrite list_elem_of_omap. split.
  - intros ([p' e] & He & E). cbn [fst snd] in E. destruct (decide _); [|done]. injection E as ->. by exists e.
  - intros (e & He & Ei). exists (p, e). split; [done|]. cbn [fst snd]. by rewrite decide_True.
Qed.

Section cut.
Context `{Sha256} (P : list Bytes) (left right : MetadataSnapshot) (E1 E2 C1 C2 : NamespaceEntries).
Hypothesis root_in : root_path ∈ P.
Hypothesis closed : forall p, p ∈ P -> p <> root_path -> parent_path p ∈ P.
Hypothesis tree1 : tree_wf E1.
Hypothesis tree2 : tree_wf E2.
Hypothesis cut1 : forall p, alookup p C1 = if decide (p ∈ P) then alookup p E1 else None.
Hypothesis cut2 : forall p, alookup p C2 = if decide (p ∈ P) then alookup p E2 else None.
Hypothesis shared : forall p, p ∉ P -> alookup p E1 = alookup p E2.

Notation l := (side left E1).
Notation r := (side right E2).
Notation lc := (side left C1).
Notation rc := (side right C2).
Implicit Types m mc : MergeState.

(** A conflict about an entry is about one of the paths. *)
Definition subject_in (c : MetadataConflict) : Prop := mc_kind c = namespace_entry -> mc_key c ∈ P.

Record sim m mc : Prop := {
  sm_in : forall p, p ∈ P -> alookup p (mg_entries mc) = alookup p (mg_entries m);
  sm_out : forall p, p ∉ P -> alookup p (mg_entries mc) = None;
  sm_conflicts : mg_conflicts mc = mg_conflicts m;
  sm_created : mg_created mc = mg_created m;
  sm_keys : mg_keys mc = mg_keys m;
  sm_subjects : Forall (fun e => subject_in e.2) (mg_conflicts m)
}.

Lemma side_in p : p ∈ P -> side_at lc p = side_at l p /\ side_at rc p = side_at r p.
Proof. intros Hp. unfold side_at. cbn [sd_entries side]. by rewrite cut1, cut2, !decide_True. Qed.
Lemma side_out p : p ∉ P -> side_at lc p = None /\ side_at rc p = None /\ side_at l p = side_at r p.
Proof. intros Hp. unfold side_at. cbn [sd_entries side]. rewrite cut1, cut2, !decide_False by done. auto. Qed.

Lemma add_conflict_sim key c m mc m' :
  sim m mc -> subject_in c -> add_conflict key c m = Ok m' ->
  exists mc', add_conflict key c mc = Ok mc' /\ sim m' mc' /\ mg_entries m' = mg_entries m.
Proof.
  intros [Hi Ho Hc Hn Hk Hs] Hin. unfold add_conflict. intros E. apply result_bind_Ok in E as (id & -> & E). injection E as <-.
  cbn [mbind result_bind]. eexists. split; [reflexivity|]. rewrite Hc. destruct (map_emplace id c (mg_conflicts m)) as [cs|] eqn:Ec; [|done].
  cbn [mg_entries]. split; [|done]. split; cbn [mg_entries mg_conflicts mg_created mg_keys]; [done|done|done|congruence|by rewrite Hk|].
  unfold map_emplace in Ec. destruct (alookup id _); [done|]. injection Ec as <-. apply Forall_forall. intros e [->|He]%map_set_keys; [done|].
  rewrite Forall_forall in Hs. by apply Hs.
Qed.
Lemma record_conflict_sim p x y m mc m' :
  sim m mc -> p ∈ P -> record_conflict p x y m = Ok m' ->
  exists mc', record_conflict p x y mc = Ok mc' /\ sim m' mc' /\ mg_entries m' = mg_entries m.
Proof. intros Hs Hp. apply add_conflict_sim; [done|]. by intros _. Qed.

Lemma settle_sim p a b one_file m mc e m' :
  sim m mc -> p ∈ P -> settle l r p a b one_file m = Ok (e, m') ->
  exists mc', settle lc rc p a b one_file mc = Ok (e, mc') /\ sim m' mc' /\ mg_entries m' = mg_entries m.
Proof.
  intros Hs Hp. rewrite !settle_eq. change (concurrent lc rc a b one_file) with (concurrent l r a b one_file).
  change (settled lc rc a b one_file) with (settled l r a b one_file). destruct (concurrent l r a b one_file).
  - intros E. apply result_bind_Ok in E as (m1 & Er & E). injection E as <- <-.
    destruct (record_conflict_sim _ _ _ _ _ _ Hs Hp Er) as (mc' & -> & Hs' & Em). by exists mc'.
  - intros [= <- <-]. by exists mc.
Qed.

Lemma put_sim p e m mc : sim m mc -> p ∈ P -> sim (put_entry p e m) (put_entry p e mc).
Proof.
  intros [Hi Ho Hc Hn Hk Hs] Hp. split; [| |done..].
  - intros q Hq. rewrite !put_entry_lookup. destruct (decide _); auto.
  - intros q Hq. rewrite put_entry_lookup, decide_False by (intros ->; done). auto.
Qed.
Lemma drop_entry_lookup p m q : alookup q (mg_entries (drop_entry p m)) = if decide (q = p) then None else alookup q (mg_entries m).
Proof. apply map_erase_lookup. Qed.
Lemma drop_sim p m mc : sim m mc -> p ∈ P -> sim (drop_entry p m) (drop_entry p mc).
Proof.
  intros [Hi Ho Hc Hn Hk Hs] Hp. split; [| |done..].
  - intros q Hq. rewrite !drop_entry_lookup. destruct (decide _); auto.
  - intros q Hq. rewrite drop_entry_lookup. destruct (decide _); auto.
Qed.
(** A path outside is put on the whole side only. *)
Lemma put_out p e m mc : sim m mc -> p ∉ P -> sim (put_entry p e m) mc.
Proof. intros [Hi Ho Hc Hn Hk Hs] Hp. split; [|done..]. intros q Hq. rewrite put_entry_lookup, decide_False by (intros ->; done). auto. Qed.

(** ** The pass over paths *)

Definition sim_origin (x y : MergeState * Origins) : Prop := sim x.1 y.1 /\ forall p, p ∈ P -> alookup p y.2 = alookup p x.2.

Lemma paths_cut : all_paths lc rc = filter (fun p => p ∈ P) (all_paths l r).
Proof.
  apply sorted_keys_ext.
  - apply sort_unique_ok.
  - apply StronglySorted_filter, sort_unique_ok.
  - intros p. rewrite list_elem_of_filter, !all_paths_elem. unfold at_side. destruct (decide (p ∈ P)) as [Hp|Hp].
    + destruct (side_in p Hp) as [-> ->]. split; [by intros|by intros [_ ?]].
    + destruct (side_out p Hp) as (-> & -> & _). split; [by intros (e & [?|?])|by intros [? _]].
Qed.

Lemma merge_path_sim acc accc p acc' :
  sim_origin acc accc -> p ∈ P -> merge_path l r acc p = Ok acc' -> exists accc', merge_path lc rc accc p = Ok accc' /\ sim_origin acc' accc'.
Proof.
  destruct acc as [m o], accc as [mc oc]. intros [Hs Hor] Hp. cbn [fst snd] in Hs, Hor. unfold merge_path. destruct (side_in p Hp) as [-> ->].
  change (removed_by rc lc) with (removed_by r l). change (removed_by lc rc) with (removed_by l r).
  assert (forall (v : Origin) q, q ∈ P -> alookup q (map_set p v oc) = alookup q (map_set p v o)) as Hset.
  { intros v q Hq. rewrite !map_set_lookup. destruct (decide _); auto. }
  destruct (side_at l p) as [a|], (side_at r p) as [b|].
  - intros E. apply result_bind_Ok in E as ([e m1] & Ee & E). injection E as <-.
    assert (exists mc1, (if bool_decide (a = b) then Ok (a, mc) else settle lc rc p a b false mc) = Ok (e, mc1) /\ sim m1 mc1) as (mc1 & -> & Hs1).
    { destruct (bool_decide (a = b)); [injection Ee as <- <-; by exists mc|]. destruct (settle_sim _ _ _ _ _ _ _ _ Hs Hp Ee) as (mc1 & ? & ? & _). by exists mc1. }
    eexists. split; [reflexivity|]. split; [by apply put_sim|]. apply Hset.
  - destruct (removed_by r l a); intros [= <-]; (eexists; split; [reflexivity|]); split; [done|done|by apply put_sim|apply Hset].
  - destruct (removed_by l r b); intros [= <-]; (eexists; split; [reflexivity|]); split; [done|done|by apply put_sim|apply Hset].
  - intros [= <-]. by eexists.
Qed.
Lemma merge_path_out acc accc p acc' : sim_origin acc accc -> p ∉ P -> merge_path l r acc p = Ok acc' -> sim_origin acc' accc.
Proof.
  destruct acc as [m o], accc as [mc oc]. intros [Hs Hor] Hp. cbn [fst snd] in Hs, Hor. unfold merge_path. destruct (side_out p Hp) as (_ & _ & ->).
  destruct (side_at r p) as [b|]; [|by intros [= <-]]. rewrite bool_decide_true by done. intros [= <-].
  split; [by apply put_out|]. cbn [snd]. intros q Hq. rewrite map_set_lookup, decide_False by (intros ->; done). auto.
Qed.

(** ** The pass over identities *)

Hypothesis alone1 : forall p q e f, alookup p E1 = Some e -> alookup q E1 = Some f -> file_id e = file_id f -> file_id e <> array_zero 16 -> p = q.
Hypothesis alone2 : forall p q e f, alookup p E2 = Some e -> alookup q E2 = Some f -> file_id e = file_id f -> file_id e <> array_zero 16 -> p = q.

Lemma outside_alone p q e f : p ∉ P -> at_side l r p e -> at_side l r q f -> file_id f = file_id e -> file_id e <> array_zero 16 -> q = p.
Proof.
  intros Hp He Hf Ei Hz. destruct (side_out p Hp) as (_ & _ & Es).
  assert (side_at l p = Some e /\ side_at r p = Some e) as [H1 H2] by (destruct He; split; congruence). clear He.
  symmetry. destruct Hf as [Hf|Hf]; [by apply (alone1 p q e f)|by apply (alone2 p q e f)].
Qed.

(** A group of paths the cut merge has too. *)
Definition group_in (g : NodeId * list Bytes) : Prop := Forall (fun p => p ∈ P) g.2.

Lemma entries_cut m mc : sim m mc -> sorted_recs (mg_entries m) -> sorted_recs (mg_entries mc) ->
  forall id, paths_of id (mg_entries mc) = filter (fun p => p ∈ P) (paths_of id (mg_entries m)).
Proof.
  intros Hs Hm Hmc id.
  assert (mg_entries mc = base.filter (fun e : Bytes * FsEntry => e.1 ∈ P) (mg_entries m : list (Bytes * FsEntry))) as ->.
  { apply sorted_recs_ext; [done|by apply sorted_recs_filter|]. intros p. apply option_eq. intros e. split.
    - intros E. destruct (decide (p ∈ P)) as [Hp|Hp]; [|by rewrite (sm_out _ _ Hs p Hp) in E]. rewrite (sm_in _ _ Hs p Hp) in E.
      apply elem_alookup_Some; [by apply sorted_recs_filter|]. apply list_elem_of_filter. split; [done|]. by apply alookup_Some_elem.
    - intros (Hp & He)%alookup_Some_elem%list_elem_of_filter. cbn [fst] in Hp. rewrite (sm_in _ _ Hs p Hp). by apply elem_alookup_Some. }
  unfold paths_of. clear. induction (mg_entries m) as [|[p e] es IH]; [done|]. rewrite filter_cons. cbn [fst omap list_omap].
  destruct (decide (p ∈ P)) as [Hp|Hp]; cbn [omap list_omap fst snd]; destruct (decide (file_id e = id)); rewrite ?filter_cons.
  - rewrite decide_True by done. by f_equal.
  - done.
  - by rewrite decide_False.
  - done.
Qed.

Lemma groups_cut m mc : sim m mc -> sorted_recs (mg_entries m) -> sorted_recs (mg_entries mc) ->
  (forall p e, alookup p (mg_entries m) = Some e -> at_side l r p e) ->
  by_identity (mg_entries mc) = filter group_in (by_identity (mg_entries m)) /\
  forall g, g ∈ by_identity (mg_entries m) -> ~ group_in g -> exists p, g.2 = [p].
Proof.
  intros Hs Hm Hmc Hside. destruct (by_identity_ok (mg_entries m)) as [Hg _]. destruct (by_identity_ok (mg_entries mc)) as [Hgc _].
  assert (forall id p, id <> array_zero 16 -> p ∈ paths_of id (mg_entries m) -> p ∉ P -> forall q, q ∈ paths_of id (mg_entries m) -> q = p) as Hone.
  { intros id p Hz (e & He & Ee)%paths_of_elem Hp q (f & Hf & Ef)%paths_of_elem.
    apply elem_alookup_Some in He, Hf; [|done..]. apply (outside_alone p q e f); auto; congruence. }
  assert (forall id, NoDup (paths_of id (mg_entries m))) as Hnd.
  { intros id. apply (sorted_keys_NoDup (K := Bytes)). unfold sorted_recs in Hm. clear -Hm. unfold paths_of.
    induction (mg_entries m) as [|[p e] es IH]; [constructor|]. pose proof Hm as Hm'. apply sorted_recs_cons in Hm' as [Hf Hs']. specialize (IH Hs').
    cbn [omap list_omap]. destruct (decide _); [|done]. constructor; [done|]. apply Forall_forall. intros q ([q' f] & Hq & E)%list_elem_of_omap.
    cbn [fst snd] in E. destruct (decide _); [|done]. injection E as ->. rewrite Forall_forall in Hf. exact (Hf (q, f) Hq). }
  assert (forall id, id <> array_zero 16 -> (Forall (fun p => p ∈ P) (paths_of id (mg_entries m))) \/
    exists p, paths_of id (mg_entries m) = [p] /\ p ∉ P) as Hcase.
  { intros id Hz. destruct (decide (Forall (fun p => p ∈ P) (paths_of id (mg_entries m)))) as [|Hn]; [by left|right].
    apply not_Forall_Exists, Exists_exists in Hn as (p & Hp & Hn); [|apply _]. cbn in Hn. exists p. split; [|done].
    specialize (Hnd id). specialize (Hone id p Hz Hp Hn). destruct (paths_of id _) as [|q [|q' ps]]; [by apply elem_of_nil in Hp|..].
    - f_equal. apply Hone. by left.
    - exfalso. assert (q = p) by (apply Hone; by left). assert (q' = p) by (apply Hone; right; by left). subst.
      apply NoDup_cons in Hnd as [Hnd _]. apply Hnd. by left. }
  split.
  - apply sorted_recs_ext; [done|by apply sorted_recs_filter|]. intros id.
    assert (alookup id (filter group_in (by_identity (mg_entries m))) =
      match alookup id (by_identity (mg_entries m)) with Some ps => if decide (Forall (fun p => p ∈ P) ps) then Some ps else None | None => None end) as ->.
    { apply option_eq. intros ps. split.
      - intros (Hin & He)%alookup_Some_elem%list_elem_of_filter. apply elem_alookup_Some in He; [|done]. rewrite He. by rewrite decide_True.
      - destruct (alookup id _) as [ps'|] eqn:E; [|done]. destruct (decide _) as [Hd|]; [|done]. intros [= <-].
        apply elem_alookup_Some; [by apply sorted_recs_filter|]. apply list_elem_of_filter. split; [done|]. by apply alookup_Some_elem. }
    rewrite !by_identity_lookup, (entries_cut m mc) by done. destruct (decide (id = array_zero 16)) as [Hz|Hz].
    { rewrite !decide_True by (by left). done. }
    destruct (Hcase id Hz) as [Hall|(p & -> & Hp)].
    + assert (filter (fun p => p ∈ P) (paths_of id (mg_entries m)) = paths_of id (mg_entries m)) as ->.
      { clear -Hall. induction Hall as [|p ps Hp _ IH]; [done|]. by rewrite filter_cons, decide_True, IH. }
      destruct (decide _); [done|]. by rewrite decide_True.
    + assert (filter (fun p => p ∈ P) [p] = []) as -> by (by rewrite filter_cons, decide_False). rewrite decide_True by (by right).
      rewrite (decide_False (P := _ \/ [p] = [])) by (by intros [?|?]). rewrite decide_False; [done|]. by intros [? _]%Forall_cons.
  - intros [id ps] Hin Hn. apply elem_alookup_Some in Hin; [|done]. rewrite by_identity_lookup in Hin. destruct (decide _) as [|Hd]; [done|].
    injection Hin as <-. destruct (Hcase id ltac:(tauto)) as [Hall|(p & Ep & _)]; [done|]. by exists p.
Qed.

Lemma merge_identity_sim origin originc m mc g m' :
  sim m mc -> (forall p, p ∈ P -> alookup p originc = alookup p origin) -> group_in g -> merge_identity l r origin m g = Ok m' ->
  exists mc', merge_identity lc rc originc mc g = Ok mc' /\ sim m' mc' /\ forall p, p ∉ P -> alookup p (mg_entries m') = alookup p (mg_entries m).
Proof.
  intros Hs Hor Hg. unfold merge_identity, group_in in *. destruct g.2 as [|p [|q [|]]]; try (intros [= <-]; by exists mc).
  apply Forall_cons in Hg as [Hp Hg]. apply Forall_cons in Hg as [Hq _]. rewrite !Hor by done. cbv zeta.
  set (op := default from_left (alookup p origin)). set (oq := default from_left (alookup q origin)).
  destruct (_ || _ || _); [intros [= <-]; by exists mc|].
  set (x := if bool_decide (op = from_left) then p else q). set (y := if bool_decide (op = from_left) then q else p).
  assert (x ∈ P /\ y ∈ P) as [Hx Hy] by (unfold x, y; by destruct (bool_decide _)).
  rewrite !(sm_in _ _ Hs) by done. destruct (alookup x (mg_entries m)) as [a|], (alookup y (mg_entries m)) as [b|]; try done.
  destruct (negb (bool_decide (fe_type a = fe_type b))); [intros [= <-]; by exists mc|].
  change (name_seen rc lc a) with (name_seen r l a). change (name_seen lc rc b) with (name_seen l r b).
  set (keep := if negb _ then _ else _ : bool). intros E. apply result_bind_Ok in E as ([e m1] & Ee & E). injection E as <-.
  assert ((if keep then x else y) ∈ P /\ (if keep then y else x) ∈ P) as [Hk Hd] by (by destruct keep).
  destruct (settle_sim _ _ _ _ _ _ _ _ Hs Hk Ee) as (mc1 & -> & Hs1 & Em). cbn [mbind result_bind]. eexists. split; [reflexivity|].
  split; [by apply put_sim, Hk; apply drop_sim|]. intros z Hz.
  rewrite put_entry_lookup, decide_False by (intros ->; done). rewrite drop_entry_lookup, decide_False by (intros ->; done). by rewrite Em.
Qed.

(** ** The pass over directories *)

Lemma head_directory_sim p m mc d m1 :
  sim m mc -> p ∈ P ->
  match is_directory (side_at l p), is_directory (side_at r p), side_at l p, side_at r p with
  | true, true, Some a, Some b => settle l r p a b false m
  | true, _, Some a, _ => Ok (a, m)
  | _, true, _, Some b => Ok (b, m)
  | _, _, _, _ => Throw (RuntimeError "metadata reconciliation lost the directory")
  end = Ok (d, m1) ->
  exists mc1, match is_directory (side_at l p), is_directory (side_at r p), side_at l p, side_at r p with
    | true, true, Some a, Some b => settle lc rc p a b false mc
    | true, _, Some a, _ => Ok (a, mc)
    | _, true, _, Some b => Ok (b, mc)
    | _, _, _, _ => Throw (RuntimeError "metadata reconciliation lost the directory")
    end = Ok (d, mc1) /\ sim m1 mc1 /\ mg_entries m1 = mg_entries m /\ fe_type d = directory.
Proof.
  intros Hs Hp. destruct (side_at l p) as [a|], (side_at r p) as [b|]; cbn [is_directory];
    repeat case_bool_decide; try done; try (intros [= <- <-]; by exists mc).
  intros E. destruct (settle_sim _ _ _ _ _ _ _ _ Hs Hp E) as (mc1 & -> & Hs1 & Em). exists mc1. split_and!; [done..|].
  rewrite settle_eq in E. destruct (concurrent _ _ _ _ _).
  - apply result_bind_Ok in E as (m2 & _ & E). injection E as <- _. by destruct (settled_either l r a b false) as [->| ->].
  - injection E as <- _. by destruct (settled_either l r a b false) as [->| ->].
Qed.

Lemma ensure_sim fuel p m mc m' :
  sim m mc -> p ∈ P -> ensure_directory fuel l r p m = Ok m' ->
  exists mc', ensure_directory fuel lc rc p mc = Ok mc' /\ sim m' mc' /\
    (forall q, q ∉ P -> alookup q (mg_entries m') = alookup q (mg_entries m)) /\
    (forall q, is_directory (alookup q (mg_entries m)) = true -> is_directory (alookup q (mg_entries m')) = true).
Proof.
  revert p m mc m'. induction fuel as [|fuel IH]; intros p m mc m' Hs Hp; cbn [ensure_directory]; [done|]. cbv zeta.
  rewrite (sm_in _ _ Hs) by done. destruct (is_directory (alookup p (mg_entries m))) eqn:Ed; [intros [= <-]; by exists mc|].
  intros E. apply result_bind_Ok in E as (m1 & Eu & E). destruct (side_in p Hp) as [-> ->].
  assert (exists mc1, (if bool_decide (p = root_path) then Ok mc else ensure_directory fuel lc rc (parent_path p) mc) = Ok mc1 /\ sim m1 mc1 /\
    (forall q, q ∉ P -> alookup q (mg_entries m1) = alookup q (mg_entries m)) /\
    (forall q, is_directory (alookup q (mg_entries m)) = true -> is_directory (alookup q (mg_entries m1)) = true)) as (mc1 & -> & Hs1 & Ho1 & Hd1).
  { destruct (bool_decide_reflect (p = root_path)) as [|Hr]; [injection Eu as <-; by exists mc|]. apply (IH _ m); [done|by apply closed|done]. }
  cbn [mbind result_bind]. apply result_bind_Ok in E as ([d m2] & Ed2 & E).
  destruct (head_directory_sim _ _ _ _ _ Hs1 Hp Ed2) as (mc2 & -> & Hs2 & Em2 & Td). cbn [mbind result_bind].
  apply result_bind_Ok in E as (m3 & Er & E). injection E as <-.
  assert (exists mc3, match alookup p (mg_entries m) with Some e => record_conflict p d e mc2 | None => Ok mc2 end = Ok mc3 /\
    sim m3 mc3 /\ mg_entries m3 = mg_entries m2) as (mc3 & -> & Hs3 & Em3).
  { destruct (alookup p (mg_entries m)); [by apply (record_conflict_sim _ _ _ m2)|]. injection Er as <-. by exists mc2. }
  cbn [mbind result_bind]. eexists. split; [reflexivity|]. split_and!; [by apply put_sim|..].
  - intros q Hq. rewrite put_entry_lookup, decide_False by (intros ->; done). rewrite Em3, Em2. auto.
  - intros q Hq. rewrite put_entry_lookup, Em3, Em2. destruct (decide (q = p)); [cbn; by apply bool_decide_true|auto].
Qed.

(** What the passes keep on the whole side. *)
Record kept_whole m : Prop := {
  kw_out : forall q, q ∉ P -> alookup q (mg_entries m) = alookup q E1;
  kw_directories : forall q, is_directory (alookup q E1) = true -> is_directory (alookup q E2) = true -> is_directory (alookup q (mg_entries m)) = true
}.

Lemma parents_step_sim m mc p m' :
  sim m mc /\ kept_whole m -> p ∈ P -> merge_parents_step l r m p = Ok m' ->
  exists mc', merge_parents_step lc rc mc p = Ok mc' /\ sim m' mc' /\ kept_whole m'.
Proof.
  intros [Hs [Ho Hd]] Hp. unfold merge_parents_step. rewrite (sm_in _ _ Hs) by done.
  destruct (alookup p (mg_entries m)); [|intros [= <-]; by exists mc]. destruct (bool_decide_reflect (p = root_path)); [intros [= <-]; by exists mc|].
  intros E. destruct (ensure_sim _ _ _ _ _ Hs (closed p Hp ltac:(done)) E) as (mc' & Ec & Hs' & Ho' & Hd'). exists mc'. split_and!; [done|done|].
  split; [|auto]. intros q Hq. rewrite Ho' by done. auto.
Qed.
Lemma parents_step_out m mc p m' :
  sim m mc /\ kept_whole m -> p ∉ P -> merge_parents_step l r m p = Ok m' -> sim m' mc /\ kept_whole m'.
Proof.
  intros [Hs [Ho Hd]] Hp. unfold merge_parents_step. rewrite Ho by done. destruct (alookup p E1) as [e|] eqn:Ee; [|by intros [= <-]].
  destruct (bool_decide_reflect (p = root_path)) as [|Hr]; [by intros [= <-]|]. unfold directory_of. cbn [ensure_directory]. cbv zeta.
  pose proof (tw_parents _ tree1 p e Ee Hr) as D1. rewrite (shared p Hp) in Ee. pose proof (tw_parents _ tree2 p e Ee Hr) as D2.
  rewrite (Hd _ D1 D2). by intros [= <-].
Qed.

(** ** All passes *)

Lemma keys_cut : keys_ok lc /\ keys_ok rc.
Proof.
  unfold keys_ok. rewrite !Forall_forall. split; intros p (e & E)%alookup_is_key; cbn [sd_entries side] in E.
  - rewrite cut1 in E. destruct (decide _); [|done]. pose proof (tw_keys _ tree1) as Hk. rewrite Forall_forall in Hk. apply Hk, alookup_is_key. eauto.
  - rewrite cut2 in E. destruct (decide _); [|done]. pose proof (tw_keys _ tree2) as Hk. rewrite Forall_forall in Hk. apply Hk, alookup_is_key. eauto.
Qed.

Lemma namespaces_cut m : merge_namespaces l r = Ok m ->
  exists mc, merge_namespaces lc rc = Ok mc /\ sim m mc /\ forall q, q ∉ P -> alookup q (mg_entries m) = alookup q E1.
Proof.
  destruct keys_cut as [Kl Kr].
  destruct (merge_paths_ok l r (tw_keys _ tree1) (tw_keys _ tree2)) as (m1 & origin & Em1 & P1).
  destruct (merge_paths_ok lc rc Kl Kr) as (m1c & originc & Em1c & P1c).
  destruct (foldM_step (merge_path l r) (merge_path lc rc) (fun p => p ∈ P) sim_origin (all_paths l r) (mkMerge [] [] 0 [], []) (mkMerge [] [] 0 [], []) (m1, origin)) as ([m1' o'] & Ef & Hs1 & Hor).
  { intros; by eapply merge_path_sim. }
  { intros; by eapply merge_path_out. }
  { done. }
  { split; [|done]. split; done. }
  rewrite <- paths_cut, Em1c in Ef. injection Ef as <- <-. cbn [fst snd] in Hs1, Hor.
  destruct (merge_identities_ok l r m1 origin (tw_keys _ tree1) (tw_keys _ tree2) P1) as (m2 & Em2 & I2).
  destruct (groups_cut m1 m1c Hs1 (pm_sorted _ _ _ _ P1) (pm_sorted _ _ _ _ P1c)) as [Egc Hout].
  { intros p e E. apply path_value_side. by rewrite <- (pm_entries _ _ _ _ P1). }
  destruct (foldM_step (merge_identity l r origin) (merge_identity lc rc originc) group_in
    (fun m mc => sim m mc /\ forall p, p ∉ P -> alookup p (mg_entries m) = alookup p (mg_entries m1)) (by_identity (mg_entries m1)) m1 m1c m2) as (m2c & Em2c & Hs2 & Ho2).
  { intros g m' mc' m'' _ Hg [Hs' Ho'] E. destruct (merge_identity_sim _ _ _ _ _ _ Hs' Hor Hg E) as (mc'' & Ec & Hs'' & Ho''). exists mc''.
    split_and!; [done|done|]. intros p Hp. rewrite Ho'' by done. auto. }
  { intros g m' mc' m'' Hg Hn Hr E. destruct (Hout g Hg Hn) as (p & Ep). unfold merge_identity in E. rewrite Ep in E. by injection E as <-. }
  { done. }
  { done. }
  rewrite <- Egc in Em2c.
  assert (kept_whole m2) as Hw.
  { split.
    - intros q Hq. rewrite Ho2, (pm_entries _ _ _ _ P1) by done. unfold path_value. destruct (side_out q Hq) as (_ & _ & Es). rewrite <- Es.
      unfold side_at. cbn [sd_entries side]. destruct (alookup q E1); [|done]. by rewrite bool_decide_true.
    - intros q D1 D2. assert (side_at l q = alookup q E1) as Es1 by done. assert (side_at r q = alookup q E2) as Es2 by done.
      destruct (alookup q E1) as [a|]; [|done]. destruct (alookup q E2) as [b|]; [|done].
      rewrite (im_both _ _ _ I2), (pm_entries _ _ _ _ P1) by (rewrite (pm_origin _ _ _ _ P1); unfold path_origin; by rewrite Es1, Es2).
      unfold path_value. rewrite Es1, Es2. cbn [is_directory]. destruct (bool_decide (a = b)); [done|]. by destruct (settled_either l r a b false) as [->| ->]. }
  unfold merge_namespaces. cbv zeta. rewrite Em1, Em1c. cbn [mbind result_bind]. rewrite Em2, Em2c. cbn [mbind result_bind].
  intros E. apply result_bind_Ok in E as (m3 & Em3 & E).
  destruct (foldM_step (merge_parents_step l r) (merge_parents_step lc rc) (fun p => p ∈ P) (fun m mc => sim m mc /\ kept_whole m) (all_paths l r) m2 m2c m3) as (m3c & Em3c & Hs3 & Hw3).
  { intros; by eapply parents_step_sim. }
  { intros; by eapply parents_step_out. }
  { done. }
  { done. }
  rewrite paths_cut, Em3c. cbn [mbind result_bind].
  assert (is_directory (alookup root_path (mg_entries m3)) = true) as Hroot by (apply (kw_directories _ Hw3); [apply (tw_root _ tree1)|apply (tw_root _ tree2)]).
  rewrite Hroot, andb_false_r in E. injection E as <-. rewrite (sm_in _ _ Hs3) by done. rewrite Hroot, andb_false_r. exists m3c. split_and!; [done|done|]. apply (kw_out _ Hw3).
Qed.

(** ** The catalogue root, and the conflicts that stand *)

Lemma catalogue_cut lh rh m mc root dot m' :
  sim m mc -> merge_catalogue l r lh rh m = Ok (root, dot, m') ->
  exists mc', merge_catalogue lc rc lh rh mc = Ok (root, dot, mc') /\ sim m' mc' /\ mg_entries m' = mg_entries m.
Proof.
  intros Hs. unfold merge_catalogue. cbv zeta. cbn [sd_snapshot side]. change (catalogue_seen rc lc) with (catalogue_seen r l).
  change (catalogue_seen lc rc) with (catalogue_seen l r). destruct (bool_decide _); [intros [= <- <- <-]; by exists mc|].
  destruct (negb _); cbn [mbind result_bind]; [intros [= <- <- <-]; by exists mc|]. intros E. apply result_bind_Ok in E as ([t m1] & Ea & E).
  apply result_bind_Ok in Ea as (m2 & Ea & Et). injection Et as <- <-. injection E as <- <- <-.
  apply (add_conflict_sim _ _ _ _ _ Hs) in Ea as (mc2 & -> & Hs2 & Em); [by exists mc2|]. by unfold subject_in.
Qed.

Definition same_in (m mc : NamespaceEntries) : Prop := forall p, p ∈ P -> alookup p mc = alookup p m.

Lemma superseded_cut root dot (m mc : NamespaceEntries) c :
  subject_in c -> same_in m mc ->
  (superseded None root dot mc c).1 = (superseded None root dot m c).1 /\
  same_in (superseded None root dot m c).2 (superseded None root dot mc c).2 /\
  forall q, q ∉ P -> alookup q (superseded None root dot m c).2 = alookup q m.
Proof.
  intros Hc Hm. unfold superseded, subject_in in *. destruct (mc_kind c); [|done]. specialize (Hc eq_refl). rewrite (Hm _ Hc).
  destruct (negb _); [done|]. destruct (mc_later_installed c); [done|]. destruct (mc_left_entry c), (mc_right_entry c); try done.
  destruct (same_content _ _); [|done]. cbn [fst snd]. split_and!; [done| |].
  - intros p Hp. rewrite !map_set_lookup. destruct (decide _); auto.
  - intros q Hq. by rewrite map_set_lookup, decide_False by (intros ->; done).
Qed.
Lemma prune_cut root dot cs : Forall (fun e => subject_in e.2) cs -> forall (m mc : NamespaceEntries) kept n, same_in m mc ->
  exists (m' mc' : NamespaceEntries) kept' n', foldl (prune_step None root dot) (m, kept, n) cs = (m', kept', n') /\
    foldl (prune_step None root dot) (mc, kept, n) cs = (mc', kept', n') /\ same_in m' mc' /\ forall q, q ∉ P -> alookup q m' = alookup q m.
Proof.
  induction 1 as [|[id c] cs Hc _ IH]; intros m mc kept n Hm; [by exists m, mc, kept, n|]. cbn [foldl snd] in *. unfold prune_step at 2 4. cbn [snd].
  destruct (superseded_cut root dot m mc c Hc Hm) as (E1' & Hm' & Ho). destruct (superseded None root dot m c) as [gone m1], (superseded None root dot mc c) as [gonec mc1].
  cbn [fst snd] in *. subst gonec. destruct gone.
  - destruct (IH m1 mc1 kept (S n) Hm') as (m' & mc' & kept' & n' & Ef & Efc & Hs & Hq). exists m', mc', kept', n'. split_and!; [done..|]. intros q Hp. rewrite Hq; auto.
  - destruct (IH m1 mc1 (kept ++ [(id, c)]) n Hm') as (m' & mc' & kept' & n' & Ef & Efc & Hs & Hq). exists m', mc', kept', n'. split_and!; [done..|]. intros q Hp. rewrite Hq; auto.
Qed.

(** The merge of the whole, and the merge of the cut: one record apart from
    the entries, which agree on the paths. *)
Definition cut_result (res resc : MetadataMergeResult) : Prop :=
  set_entries [] (mm_snapshot resc) = set_entries [] (mm_snapshot res) /\ mm_conflicts_created resc = mm_conflicts_created res /\
  mm_created_keys resc = mm_created_keys res /\ mm_conflicts_superseded resc = mm_conflicts_superseded res /\
  same_in (sn_entries (mm_snapshot res)) (sn_entries (mm_snapshot resc)) /\
  forall q, q ∉ P -> alookup q (sn_entries (mm_snapshot res)) = alookup q E1.

Lemma prune_merged root dot m cs (e : NamespaceEntries) kept n :
  add_conflicts (add_conflicts (mg_conflicts m) (sn_conflicts left)) (sn_conflicts right) = cs ->
  foldl (prune_step None root dot) (mg_entries m, [], O) cs = (e, kept, n) ->
  prune_superseded_conflicts None (merged_snapshot left right root dot m) = (set_conflicts kept (set_entries e (merged_snapshot left right root dot m)), n).
Proof.
  intros <- E. exact (f_equal (fun x : NamespaceEntries * Conflicts * nat => let '(entries, kept, pruned) := x in
    (set_conflicts kept (set_entries entries (merged_snapshot left right root dot m)), pruned)) E).
Qed.

Lemma merge_ordered_cut lh rh res :
  Forall (fun e => subject_in e.2) (sn_conflicts left) -> Forall (fun e => subject_in e.2) (sn_conflicts right) ->
  merge_ordered left right E1 E2 lh rh = Ok res ->
  exists resc, merge_ordered left right C1 C2 lh rh = Ok resc /\ cut_result res resc.
Proof.
  intros Cl Cr. unfold merge_ordered. cbv zeta. intros E. apply result_bind_Ok in E as (m & Em & E).
  destruct (namespaces_cut m Em) as (mc & -> & Hs & Ho). cbn [mbind result_bind]. apply result_bind_Ok in E as ([[root dot] m'] & Ec & E).
  destruct (catalogue_cut _ _ _ _ _ _ _ Hs Ec) as (mc' & -> & Hs' & Em'). cbn [mbind result_bind].
  set (cs := add_conflicts (add_conflicts (mg_conflicts m') (sn_conflicts left)) (sn_conflicts right)).
  assert (Forall (fun e => subject_in e.2) cs) as Hcs by (apply add_conflicts_Forall; [apply add_conflicts_Forall; [apply Hs'|]|]; done).
  destruct (prune_cut root dot cs Hcs (mg_entries m') (mg_entries mc') [] O (sm_in _ _ Hs')) as (e' & ec' & kept & n & Ef & Efc & Hsame & Hout).
  rewrite (prune_merged root dot m' cs e' kept n eq_refl Ef) in E. injection E as <-.
  rewrite (prune_merged root dot mc' cs ec' kept n) by (unfold cs; rewrite ?(sm_conflicts _ _ Hs'); done).
  eexists. split; [reflexivity|]. unfold cut_result. cbn [mm_snapshot mm_conflicts_created mm_created_keys mm_conflicts_superseded].
  split_and!; [|apply Hs'|apply Hs'|done|done|].
  - reflexivity.
  - intros q Hq. change (alookup q e' = alookup q E1). rewrite Hout, Em' by done. auto.
Qed.
End cut.
