(* ===== verification/NamespaceMergeClaims.v ===== *)
(** * What a merge of two trees guarantees *)

From S2P Require Import Prelude Sorts Maps Orders Codec TorrentRequest Journal Paths Metadata MetadataCodec MetadataDelta MetadataMerge MetadataMergeProofs MetadataMergeClaims NamespaceTree NamespaceView NamespaceUpdate NamespaceNodes NamespaceReads NamespaceForms NamespaceClaims NamespaceChanges NamespaceSplice NamespaceLevels NamespaceUpdateClaims NamespaceReach NamespaceReachProofs NamespaceDiff NamespaceReachClaims NamespaceMerge NamespaceMergeProofs.

(** ** The paths seen *)

Lemma above_closed fuel p x : normal p -> (length p < fuel)%nat -> x ∈ p :: above_path fuel p -> x <> root_path -> parent_path x ∈ above_path fuel p.
Proof.
  revert p. induction fuel as [|fuel IH]; intros p Hn Hf Hx Hr; [lia|]. cbn [above_path] in *. rewrite (bool_decide_false (p = [])) in * by (by apply normal_nonempty).
  rewrite orb_false_r in *. destruct (bool_decide_reflect (p = root_path)) as [->|Hp]; [by apply list_elem_of_singleton in Hx|].
  apply elem_of_cons in Hx as [->|Hx]; [by left|]. right. apply IH; [by apply parent_normal| |done|done]. pose proof (parent_shorter p Hn Hp). lia.
Qed.
Lemma above_normal fuel p x : normal p -> x ∈ above_path fuel p -> normal x.
Proof.
  revert p. induction fuel as [|fuel IH]; intros p Hn Hx; cbn [above_path] in Hx; destruct (_ || _); try by apply elem_of_nil in Hx.
  apply elem_of_cons in Hx as [->|Hx]; [by apply parent_normal|]. apply (IH (parent_path p)); [by apply parent_normal|done].
Qed.

Record paths_seen (P : list Bytes) (differing : NamespaceDifferences) : Prop := {
  ps_sorted : sorted_keys P;
  ps_root : root_path ∈ P;
  ps_differing : forall p, p ∈ differing.*1 -> p ∈ P;
  ps_closed : forall p, p ∈ P -> p <> root_path -> parent_path p ∈ P;
  ps_normal : forall p, p ∈ P -> normal p
}.

(** A standing conflict about an entry names it by a normal path, and keeps a
    directory a directory. *)
Definition standing (c : MetadataConflict) : Prop := type_kept c /\ (mc_kind c = Metadata.namespace_entry -> normal (mc_key c)).

Lemma subjects_elem (cs : Conflicts) p : p ∈ conflict_subjects cs <-> exists e, e ∈ cs /\ mc_kind e.2 = Metadata.namespace_entry /\ mc_key e.2 = p.
Proof.
  unfold conflict_subjects. rewrite list_elem_of_omap. split.
  - intros (e & He & E). exists e. split; [done|]. by destruct (mc_kind e.2); [injection E as <-|].
  - intros (e & He & Ek & <-). exists e. split; [done|]. by rewrite Ek.
Qed.

Lemma merge_paths_seen (left right : MetadataSnapshot) (differing : NamespaceDifferences) :
  (forall p, p ∈ differing.*1 -> normal p) -> Forall (fun e => standing e.2) (sn_conflicts left) -> Forall (fun e => standing e.2) (sn_conflicts right) ->
  let P := merge_paths left right differing in
  paths_seen P differing /\ Forall (fun e => subject_in P e.2) (sn_conflicts left) /\ Forall (fun e => subject_in P e.2) (sn_conflicts right).
Proof.
  intros Hd Hl Hr P. unfold merge_paths in P.
  set (subjects := sort_unique (root_path :: _)) in P. set (above := concat ((fun p => above_path (S (length p)) p) <$> subjects)) in P.
  assert (forall p, p ∈ P <-> p ∈ subjects \/ p ∈ above) as HP by (intros p; unfold P; by rewrite (proj2 (sort_unique_ok _)), elem_of_app).
  assert (forall p, p ∈ subjects <-> p = root_path \/ p ∈ differing.*1 \/ p ∈ conflict_subjects (sn_conflicts left) \/ p ∈ conflict_subjects (sn_conflicts right)) as HS
    by (intros p; unfold subjects; by rewrite (proj2 (sort_unique_ok _)), elem_of_cons, !elem_of_app).
  assert (forall p, p ∈ above <-> exists q, q ∈ subjects /\ p ∈ above_path (S (length q)) q) as HA.
  { intros p. unfold above. rewrite list_elem_of_In, in_concat. setoid_rewrite <- list_elem_of_In. setoid_rewrite list_elem_of_fmap. split; [intros (? & (q & -> & Hq) & Hp); eauto|intros (q & Hq & Hp); eauto]. }
  rewrite Forall_forall in Hl, Hr.
  assert (forall p, p ∈ subjects -> normal p) as Hn.
  { intros p [->|[Hp|[(e & He & Ek & <-)%subjects_elem|(e & He & Ek & <-)%subjects_elem]]]%HS; [apply normal_root|auto|by apply (Hl e He)|by apply (Hr e He)]. }
  split; [split|].
  - apply sort_unique_ok.
  - apply HP. left. apply HS. by left.
  - intros p Hp. apply HP. left. apply HS. auto.
  - intros p Hp Hne. apply HP. right. apply HA. apply HP in Hp as [Hp|(q & Hq & Hp)%HA].
    + exists p. split; [done|]. apply above_closed; [auto|lia|by left|done].
    + exists q. split; [done|]. apply above_closed; [auto|lia|by right|done].
  - intros p [Hp|(q & Hq & Hp)%HA]%HP; [auto|]. by apply (above_normal (S (length q)) q); [apply Hn|].
  - rewrite !Forall_forall. split; intros e He Ek; apply HP; left; apply HS; right; right; [left|right]; apply subjects_elem; by exists e.
Qed.

(** ** What each head has there *)

Lemma emplaced p (o : option FsEntry) (m : NamespaceEntries) q : alookup p m = None ->
  alookup q (emplace_entry p o m) = if decide (q = p) then o else alookup q m.
Proof.
  intros Hp. unfold emplace_entry, map_emplace. rewrite Hp. destruct o as [e|]; [exact (map_set_lookup p e m q)|].
  by destruct (decide (q = p)) as [->|].
Qed.

Section trees.
Context `{Sha256} {S : Type} `{NodeStore S} (s : S) (h d fuel : nat) (root : ObjectId) (E1 E2 : NamespaceEntries) (differing : NamespaceDifferences).
Hypothesis stands : tree_at s h d root E1.
Hypothesis sorted1 : sorted_recs E1.
Hypothesis enough : (d + h < fuel)%nat.
Hypothesis differs : forall p, alookup p differing = differ (alookup p E1) (alookup p E2).

Lemma seen_entries_ok paths : NoDup paths -> Forall normal paths ->
  exists C1 C2, seen_entries s fuel root differing paths = Ok (C1, C2) /\
    (forall p, alookup p C1 = if decide (p ∈ paths) then alookup p E1 else None) /\ (forall p, alookup p C2 = if decide (p ∈ paths) then alookup p E2 else None).
Proof.
  unfold seen_entries. match goal with |- context [foldM ?g ([], []) paths] => set (f := g) end.
  induction paths as [|p paths IH] using rev_ind; intros Hn Hk.
  { exists [], []. split_and!; [done|..]; intros p; by rewrite decide_False by apply not_elem_of_nil. }
  apply NoDup_app in Hn as (Hn & Hd & _). apply Forall_app in Hk as [Hk Hp]. apply Forall_cons in Hp as [Hp _].
  destruct (IH Hn Hk) as (C1 & C2 & E & H1 & H2). rewrite foldM_app, E. cbn [foldM mbind result_bind].
  assert (p ∉ paths) as Hnp by (intros Hin; apply (Hd p Hin); by left).
  assert (f (C1, C2) p = Ok (emplace_entry p (alookup p E1) C1, emplace_entry p (alookup p E2) C2)) as ->.
  { unfold f. rewrite differs. unfold differ. destruct (decide (alookup p E1 = alookup p E2)) as [Ee|]; [|done].
    destruct (lookup_ok s h fuel d root E1 p true enough (normal_nonempty p Hp) stands sorted1) as (got & -> & Hg). cbn [mbind result_bind].
    assert (got = alookup p E1) as ->; [|by rewrite <- Ee]. destruct (alookup p E1) as [e|]; [|done]. destruct Hg as (e' & -> & _ & He). by rewrite He. }
  eexists _, _. split; [reflexivity|]. assert (alookup p C1 = None) by (by rewrite H1, decide_False). assert (alookup p C2 = None) by (by rewrite H2, decide_False).
  split; intros q; rewrite emplaced, decide_snoc by done; [rewrite H1|rewrite H2]; by destruct (decide (q = p)) as [->|].
Qed.
End trees.

Lemma tree_changes_ok paths (merged primary : NamespaceEntries) :
  sorted_recs (tree_changes paths merged primary) /\
  forall p, alookup p (tree_changes paths merged primary) =
    if decide (p ∈ paths /\ alookup p merged <> alookup p primary) then Some (alookup p merged) else None.
Proof.
  unfold tree_changes. induction paths as [|q paths [IHs IH]] using rev_ind; [split; [constructor|]; intros p; rewrite decide_False by (by intros [?%elem_of_nil _]); done|].
  rewrite foldl_app. cbn [foldl]. set (out := foldl _ [] paths) in *. destruct (bool_decide_reflect (alookup q merged = alookup q primary)) as [Eq|Ne].
  - split; [done|]. intros p. rewrite IH. apply decide_ext. rewrite elem_of_app, list_elem_of_singleton. split; [tauto|]. intros [[?| ->] ?]; [done|]. congruence.
  - split; [by apply map_set_sorted|]. intros p. rewrite map_set_lookup. destruct (decide (p = q)) as [->|Hp].
    + rewrite decide_True; [done|]. split; [|done]. apply elem_of_app. right. by left.
    + rewrite IH. apply decide_ext. rewrite elem_of_app, list_elem_of_singleton. tauto.
Qed.

(** ** The merge of two trees *)

(** In one head, a file is at one path. *)
Definition ids_alone (E : NamespaceEntries) : Prop :=
  forall p q e f, alookup p E = Some e -> alookup q E = Some f -> file_id e = file_id f -> file_id e <> array_zero 16 -> p = q.

Section claims.
Context `{Sha256} {S : Type} `{NodeStore S, !AddressedStore S} (s : S) (h : nat).

(** C13. Two heads merged from their trees are the two heads merged whole,
    where no file identity is at two paths of one head. Let each head's
    namespace be a tree of a well-formed namespace (normal paths, every entry
    in a directory) with each file identity at one path, and let the
    conflicts that stand have normal subjects and keep directories
    directories. Then merging the two trees returns the record the merge of
    the materialised namespaces returns, the same conflicts and counts
    included, apart from its entries; and the change set it returns, over the
    namespace of the lower head, gives the entries of the merge of the
    materialised namespaces, although only the paths in which the trees
    differ, the subjects of standing conflicts and the directories above them
    were looked at. With an identity at more paths the two merges can differ:
    see [shared_identity_differs]. *)
Theorem tree_merge_refines (d1 d2 fuel : nat) (left right : MetadataSnapshot) (left_root right_root : ObjectId) (E1 E2 : NamespaceEntries)
    (left_head right_head : Hash256) :
  sn_namespace_root left = Some left_root -> sn_namespace_root right = Some right_root -> left_head <> right_head ->
  tree_at s h d1 left_root E1 -> tree_at s h d2 right_root E2 -> (d1 <= 255)%nat -> (d2 <= 255)%nat ->
  tree_wf E1 -> tree_wf E2 -> ids_alone E1 -> ids_alone E2 ->
  Forall (fun e => standing e.2) (sn_conflicts left) -> Forall (fun e => standing e.2) (sn_conflicts right) ->
  (257 * (length E1 + length E2) + 256 + h < fuel)%nat ->
  exists whole out, merge_metadata_heads_over left right E1 E2 left_head right_head = Ok whole /\
    merge_tree_backed_heads s fuel left right left_head right_head = Ok out /\
    mm_snapshot (tm_merged out) = set_entries [] (mm_snapshot whole) /\
    mm_conflicts_created (tm_merged out) = mm_conflicts_created whole /\ mm_created_keys (tm_merged out) = mm_created_keys whole /\
    mm_conflicts_superseded (tm_merged out) = mm_conflicts_superseded whole /\
    tm_onto out = (if key_ltb right_head left_head then right_root else left_root) /\
    apply_changes (tm_changes out) (if key_ltb right_head left_head then E2 else E1) = sn_entries (mm_snapshot whole).
Proof.
  intros Rl Rr Hne T1 T2 D1 D2 W1 W2 A1 A2 Sl Sr Hf.
  assert (sorted_recs E1 /\ sorted_recs E2) as [O1 O2] by (split; [apply W1|apply W2]).
  destruct (diff_ok s h fuel d1 d2 left_root right_root E1 E2 T1 T2 D1 D2 O1 O2 ltac:(lia)) as (differing & Ed & Hsd & Hd).
  destruct (merge_paths_seen left right differing) as ([Psort Proot Pdiff Pclosed Pnormal] & Cl & Cr); [|done|done|].
  { intros p (x & E)%alookup_is_key. rewrite Hd in E. unfold differ in E. destruct (decide _); [done|].
    pose proof (tw_normal _ W1) as N1. pose proof (tw_normal _ W2) as N2. rewrite Forall_forall in N1, N2.
    destruct (alookup p E1) as [e|] eqn:E1'; [apply N1, alookup_is_key; eauto|]. destruct (alookup p E2) as [e|] eqn:E2'; [apply N2, alookup_is_key; eauto|done]. }
  set (P := merge_paths left right differing) in *.
  destruct (seen_entries_ok s h d1 fuel left_root E1 E2 differing T1 O1 ltac:(lia) Hd P) as (C1 & C2 & Es & HC1 & HC2).
  { by apply sorted_keys_NoDup. }
  { by apply Forall_forall. }
  assert (forall p, p ∉ P -> alookup p E1 = alookup p E2) as Hshared.
  { intros p Hp. destruct (decide (alookup p E1 = alookup p E2)) as [|Hn]; [done|]. destruct Hp. apply Pdiff, alookup_is_key. rewrite Hd. unfold differ.
    rewrite decide_False by done. eauto. }
  destruct (heads_over_tree left right E1 E2 left_head right_head W1 W2) as (whole & Ew & Tw).
  { eapply Forall_impl; [exact Sl|]. by intros e [? _]. }
  { eapply Forall_impl; [exact Sr|]. by intros e [? _]. }
  exists whole.
  assert (exists cut, merge_metadata_heads_over left right C1 C2 left_head right_head = Ok cut /\
    cut_result P (if key_ltb right_head left_head then E2 else E1) whole cut) as (cut & Ec & Hr1 & Hr2 & Hr3 & Hr4 & Hin & Hout).
  { unfold merge_metadata_heads_over in *. rewrite bool_decide_false in * by done. destruct (key_ltb right_head left_head).
    - apply (merge_ordered_cut P right left E2 E1 C2 C1); try done. intros p Hp. symmetry. auto.
    - by apply (merge_ordered_cut P left right E1 E2 C1 C2). }
  eexists. split; [done|]. split.
  { unfold merge_tree_backed_heads. rewrite Rl, Rr. cbv zeta. rewrite bool_decide_false by done. rewrite Ed. cbn [mbind result_bind]. fold P. rewrite Es.
    cbn [mbind result_bind]. rewrite Ec. cbn [mbind result_bind]. reflexivity. }
  cbn [tm_merged tm_onto tm_changes mm_snapshot mm_conflicts_created mm_created_keys mm_conflicts_superseded].
  split_and!; [done..|by destruct (key_ltb _ _)|]. set (primary := if key_ltb right_head left_head then E2 else E1) in *.
  set (seen := if negb (key_ltb right_head left_head) then C1 else C2).
  assert (forall p, p ∈ P -> alookup p seen = alookup p primary) as Hseen.
  { intros p Hp. unfold seen, primary. destruct (key_ltb _ _); cbn [negb]; [by rewrite HC2, decide_True|by rewrite HC1, decide_True]. }
  destruct (tree_changes_ok P (sn_entries (mm_snapshot cut)) seen) as [Hcs Hc].
  apply sorted_recs_ext; [apply changes_sorted; unfold primary; by destruct (key_ltb _ _)|apply Tw|]. intros p. rewrite changes_lookup, Hc by done.
  destruct (decide (p ∈ P)) as [Hp|Hp].
  - rewrite (Hin p Hp), Hseen by done. destruct (decide (p ∈ P /\ _)) as [|Hn]; [done|].
    destruct (decide (alookup p (sn_entries (mm_snapshot whole)) = alookup p primary)); [done|tauto].
  - rewrite decide_False by tauto. by rewrite Hout.
Qed.
End claims.

(** ** Two heads of one store *)

#[local] Existing Instance Sample.sha.

Module TreeMergeSample.
Definition left : MetadataSnapshot :=
  set_namespace (Some ReachSample.first) [] (MergeSample.head [(MergeSample.id x01, 1); (MergeSample.id x02, 2)] []).
Definition right : MetadataSnapshot :=
  set_namespace (Some ReachSample.second) [] (MergeSample.head [(MergeSample.id x01, 1); (MergeSample.id x03, 1)] []).
(** What makes a list of entries a namespace, decided. *)
Definition tree_check (E : NamespaceEntries) : bool :=
  forallb (fun e => bool_decide (normalize_path e.1 = e.1) && (Z.of_nat (length e.1) <=? u32_max) &&
    (bool_decide (e.1 = root_path) || is_directory (alookup (parent_path e.1) E))) E && is_directory (alookup root_path E).
Lemma tree_checked E : sorted_recs E -> tree_check E = true -> tree_wf E.
Proof.
  intros Hs Hc. unfold tree_check in Hc. apply andb_true_iff in Hc as [Hc Hr]. rewrite forallb_forall in Hc.
  assert (forall p e, alookup p E = Some e -> normal p /\ key_ok p /\ (p <> root_path -> is_directory (alookup (parent_path p) E) = true)) as Hall.
  { intros p e He%alookup_Some_elem%list_elem_of_In. specialize (Hc _ He). cbn [fst] in Hc. rewrite !andb_true_iff in Hc. destruct Hc as [[Hn Hk] Hd].
    apply bool_decide_eq_true in Hn. split_and!; [rewrite <- Hn; apply normalize_normal|by apply Z.leb_le in Hk|]. intros Hne.
    apply orb_true_iff in Hd as [Hd|]; [|done]. by apply bool_decide_eq_true in Hd. }
  split; [done| | |done|]; [apply Forall_forall; intros p (e & He)%alookup_is_key; by apply (Hall p e)..|]. intros p e He. by apply (Hall p e).
Qed.
Lemma no_ids E : Forall (fun e => file_id e.2 = array_zero 16) E -> ids_alone E.
Proof. rewrite Forall_forall. intros Hz p q e f He%alookup_Some_elem _ _ Hn. destruct Hn. exact (Hz (p, e) He). Qed.
End TreeMergeSample.

Lemma tree_merge_refines_witness :
  exists whole out, merge_metadata_heads_over TreeMergeSample.left TreeMergeSample.right TreeSample.entries ReachSample.other (MergeSample.object x01) (MergeSample.object x02) = Ok whole /\
    merge_tree_backed_heads ReachSample.both 4000 TreeMergeSample.left TreeMergeSample.right (MergeSample.object x01) (MergeSample.object x02) = Ok out /\
    tm_onto out = ReachSample.first /\ tm_changes out = [(UpdateSample.d_, Some UpdateSample.file)] /\
    apply_changes (tm_changes out) TreeSample.entries = sn_entries (mm_snapshot whole).
Proof.
  destruct ReachSample.first_stands as (d1 & Hd1 & Ht1). destruct ReachSample.second_stands as (d2 & Hd2 & Ht2).
  destruct (tree_merge_refines ReachSample.both 6 d1 d2 4000 TreeMergeSample.left TreeMergeSample.right ReachSample.first ReachSample.second TreeSample.entries ReachSample.other
    (MergeSample.object x01) (MergeSample.object x02) eq_refl eq_refl) as (whole & out & Ew & Eo & _ & _ & _ & _ & Et & Ea).
  - apply (bool_decide_eq_false_1 (MergeSample.object x01 = MergeSample.object x02)). vm_compute. reflexivity.
  - exact Ht1.
  - exact Ht2.
  - lia.
  - lia.
  - apply TreeMergeSample.tree_checked; [apply TreeSample.entries_fit|vm_compute; reflexivity].
  - apply TreeMergeSample.tree_checked; [apply UpdateSample.after_fits|vm_compute; reflexivity].
  - apply TreeMergeSample.no_ids. repeat constructor.
  - apply TreeMergeSample.no_ids. repeat constructor.
  - constructor.
  - constructor.
  - change (length TreeSample.entries) with 6%nat. change (length ReachSample.other) with 6%nat. lia.
  - assert (match merge_tree_backed_heads ReachSample.both 4000 TreeMergeSample.left TreeMergeSample.right (MergeSample.object x01) (MergeSample.object x02) with
      Ok o => bool_decide (tm_changes o = [(UpdateSample.d_, Some UpdateSample.file)]) | Throw _ => false end = true) as Hm by (vm_compute; reflexivity).
    rewrite Eo in Hm. apply bool_decide_eq_true_1 in Hm. exists whole, out. split; [exact Ew|]. split; [exact Eo|]. split; [exact Et|]. split; [exact Hm|exact Ea].
Defined.

(** ** An identity at three paths *)

(** One file id at a path both heads have alike, and at another path in each:
    merged whole, three paths have the id and all stay; from the paths in
    which the heads differ, two have it, and are made one. *)
Module SharedIdentity.
Definition at_ (name : MetadataDot) : FsEntry := MergeSample.edit 5 10 MergeSample.shared name.
Definition left_only : Bytes * FsEntry := (MergeSample.slash_a, at_ (mkDot (MergeSample.id x02) 1)).
Definition right_only : Bytes * FsEntry := (MergeSample.slash_b, at_ (mkDot (MergeSample.id x03) 1)).
Definition alike : Bytes * FsEntry := (MergeSample.slash_c, at_ MergeSample.shared).
Definition root_entry : Bytes * FsEntry := (root_path, MergeSample.dir).
Definition merge (more : NamespaceEntries) : result MetadataMergeResult :=
  merge_metadata_heads_over (MergeSample.head [(MergeSample.id x01, 1); (MergeSample.id x02, 1)] []) (MergeSample.head [(MergeSample.id x01, 1); (MergeSample.id x03, 1)] [])
    ([root_entry; left_only] ++ more) ([root_entry; right_only] ++ more) (MergeSample.object x01) (MergeSample.object x02).
End SharedIdentity.
Example shared_identity_differs :
  exists whole cut, SharedIdentity.merge [SharedIdentity.alike] = Ok whole /\ SharedIdentity.merge [] = Ok cut /\
    (sn_entries (mm_snapshot whole)).*1 = [root_path; MergeSample.slash_a; MergeSample.slash_b; MergeSample.slash_c] /\
    (sn_entries (mm_snapshot cut)).*1 = [root_path; MergeSample.slash_b].
Proof. eexists _, _. split; [vm_compute; reflexivity|]. split; [vm_compute; reflexivity|]. split; vm_compute; reflexivity. Qed.
