(* ===== verification/Filesystem.v ===== *)
(** * Namespace mutations of the file system

    [src/src/filesystem/filesystem.cpp]: the mutations of a batch applied
    through a working set, batches and the group of batches one commit
    carries, the resolution of names, the public calls that make a mutation
    of a path, the handles a rename re-points, and the commit of a file's new
    extents. *)

From S2P Require Import Prelude Sorts Maps Orders Codec TorrentRequest Journal Paths Metadata MetadataCodec MetadataDelta NamespaceTree NamespaceView.

(** ** Errors *)

Definition ENOENT : Z := 2.
Definition EIO : Z := 5.
Definition EAGAIN : Z := 11.
Definition EBUSY : Z := 16.
Definition EEXIST : Z := 17.
Definition ENOTDIR : Z := 20.
Definition EISDIR : Z := 21.
Definition EINVAL : Z := 22.
Definition ENOTEMPTY : Z := 39.
Definition ESTALE : Z := 116.
Definition fail {A} (code : Z) (what : string) : result A := Throw (FsError code what).

(** ** Mutations *)

Inductive MutationKind : Type := kind_mkdir | kind_create | kind_rmdir | kind_unlink | kind_rename | kind_chmod | kind_chown | kind_utimens.
#[global] Instance mutation_kind_eq_dec : EqDecision MutationKind.
Proof. solve_decision. Defined.
Record FilesystemNamespaceMutation : Type := mkMutation {
  fm_kind : MutationKind; fm_from : Bytes; fm_to : Bytes; fm_noreplace : bool; fm_mode : Z; fm_uid : Z; fm_gid : Z;
  fm_set_uid : bool; fm_set_gid : bool; fm_mtime_ns : Z
}.
Definition mutation (kind : MutationKind) (from : Bytes) : FilesystemNamespaceMutation := mkMutation kind from [] false 0 0 0 false false 0.

(** [p] is [r] or below it. *)
Definition under (p r : Bytes) : bool :=
  bool_decide (p = r) ||
  ((length r <? length p)%nat && bool_decide (take (length r) p = r) && bool_decide (nth (length r) p x00 = slash)).

Definition permissions (mode : Z) : Z := Z.land mode 4095.
Definition new_entry (type : EntryType) (op : FilesystemNamespaceMutation) (now : Z) : FsEntry :=
  mkEntry type (permissions (fm_mode op)) (fm_uid op) (fm_gid op) 0 now now 1 [] no_provenance.
Definition objects_of (extents : list ExtentRef) : list ObjectId := ex_id <$> base.filter (fun x => ex_hole x = false) extents.

Definition set_pending (pending : list PendingTombstones) (d : MetadataDelta) : MetadataDelta :=
  mkDelta (md_mutation_sequences d) (md_upsert_entries d) (md_erase_entries d) (md_erase_garbage d) (md_upsert_garbage d)
    (md_upsert_node_status d) (md_upsert_identity_resets d) (md_upsert_torrent_requests d) (md_erase_torrent_requests d)
    (md_replace_merge_parents d) (md_replace_conflicts d) (md_canonical_garbage d) (md_append_entries d) (md_catalogue d)
    (md_catalogue_root d) (md_set_legacy_clock d) (md_set_catalogue_dot d) (md_add_tombstone_batches d)
    (md_drop_tombstone_batches d) pending.
Definition on_delta (f : MetadataDelta -> MetadataDelta) (w : WorkingSet) : WorkingSet :=
  mkWork (wk_snapshot w) (f (wk_delta w)) (wk_tree_backed w) (wk_erased w).
(** The objects of a file that goes, into the tombstones of the commit. *)
Definition retire (ids : list ObjectId) (w : WorkingSet) : WorkingSet :=
  on_delta (fun d => set_pending (retire_objects (md_pending_tombstones d) ids) d) w.
(** [std::sort] and [std::unique] of the erased paths. *)
Definition canonical_erases (w : WorkingSet) : WorkingSet :=
  on_delta (fun d => set_entry_edits (md_upsert_entries d) (sort_unique (md_erase_entries d)) d) w.

Section filesystem.
Context `{Sha256} {S : Type} `{NodeStore S} (store : option S) (fuel leaves : nat).

Definition require_parent (w : WorkingSet) (p : Bytes) : result unit :=
  parent ← ws_get store fuel w (parent_path p) false;
  match parent with
  | None => fail ENOENT "parent missing"
  | Some e => if bool_decide (fe_type e = directory) then Ok tt else fail ENOTDIR "parent not directory"
  end.

(** A new entry where there is none. *)
Definition make_entry (type : EntryType) (now : Z) (op : FilesystemNamespaceMutation) : ST WorkingSet (option FsEntry) := fun w =>
  let q := fm_from op in
  match (_ ← require_parent w q; ws_contains store fuel w q) with
  | Throw x => (Throw x, w)
  | Ok true => (fail EEXIST "exists", w)
  | Ok false => let e := new_entry type op now in (Ok (Some e), ws_put q e w)
  end.

Definition remove_directory (op : FilesystemNamespaceMutation) : ST WorkingSet (option FsEntry) := fun w =>
  let q := fm_from op in
  match
    (if bool_decide (q = root_path) then fail EBUSY "root"
     else
       entry ← ws_get store fuel w q false;
       match entry with
       | None => fail ENOENT "missing"
       | Some e =>
           if negb (bool_decide (fe_type e = directory)) then fail ENOTDIR "not directory"
           else
             child ← first_path_under store fuel leaves w q;
             match child with Some _ => fail ENOTEMPTY "not empty" | None => Ok tt end
       end)
  with
  | Throw x => (Throw x, w)
  | Ok _ => (Ok None, ws_erase q w)
  end.

Definition unlink_entry (op : FilesystemNamespaceMutation) : ST WorkingSet (option FsEntry) := fun w =>
  let q := fm_from op in
  match ws_get store fuel w q true with
  | Throw x => (Throw x, w)
  | Ok None => (fail ENOENT "missing", w)
  | Ok (Some e) =>
      if negb (bool_decide (fe_type e = file)) then (fail EISDIR "directory", w)
      else (Ok None, ws_erase q (retire (objects_of (fe_extents e)) w))
  end.

(** What a rename finds at its target. *)
Definition check_target (op : FilesystemNamespaceMutation) (src dst : FsEntry) (w : WorkingSet) : result (list ObjectId) :=
  if fm_noreplace op then fail EEXIST "target exists"
  else if bool_decide (fe_type src = directory) && negb (bool_decide (fe_type dst = directory)) then fail ENOTDIR "cannot replace file with directory"
  else if negb (bool_decide (fe_type src = directory)) && bool_decide (fe_type dst = directory) then fail EISDIR "cannot replace directory with file"
  else if bool_decide (fe_type dst = directory) then
    child ← first_path_under store fuel leaves w (fm_to op);
    match child with Some _ => fail ENOTEMPTY "target not empty" | None => Ok [] end
  else Ok (objects_of (fe_extents dst)).

(** The identity travels with the entry. *)
Definition with_identity (path : Bytes) (e : FsEntry) : FsEntry :=
  if bool_decide (pv_file_id (fe_provenance e) = array_zero 16)
  then set_provenance (mkProvenance (legacy_file_id path) (pv_content (fe_provenance e)) (pv_name (fe_provenance e))) e
  else e.
Definition rebase (from to path : Bytes) : Bytes := to ++ drop (length from) path.
Definition move_entry (from to : Bytes) (w : WorkingSet) (item : Bytes * FsEntry) : WorkingSet :=
  ws_put (rebase from to item.1) (with_identity item.1 item.2) (ws_erase item.1 w).

Definition rename_entry (op : FilesystemNamespaceMutation) : ST WorkingSet (option FsEntry) := fun w =>
  let x := fm_from op in
  let y := fm_to op in
  if bool_decide (x = root_path) || bool_decide (y = root_path) then (fail EBUSY "root", w)
  else if bool_decide (x = y) then (Ok None, w)
  else if under y x then (fail EINVAL "recursive rename", w)
  else
    match
      (found ← ws_get store fuel w x false;
       match found with
       | None => fail ENOENT "source missing"
       | Some src =>
           _ ← require_parent w y;
           target ← ws_get store fuel w y true;
           match target with
           | None => Ok None
           | Some dst => retiring ← check_target op src dst w; Ok (Some (retiring, fe_type dst))
           end
       end)
    with
    | Throw e => (Throw e, w)
    | Ok target =>
        let w :=
          match target with
          | None => w
          | Some (retiring, type) => ws_erase y (if bool_decide (type = directory) then w else retire retiring w)
          end in
        match subtree store fuel w x with
        | Throw e => (Throw e, w)
        | Ok moved => (Ok None, canonical_erases (foldl (move_entry x y) w moved))
        end
    end.

(** A change of an entry's attributes. *)
Definition change_entry (q : Bytes) (f : FsEntry -> FsEntry) : ST WorkingSet (option FsEntry) := fun w =>
  match ws_get store fuel w q true with
  | Throw x => (Throw x, w)
  | Ok None => (fail ENOENT "missing", w)
  | Ok (Some e) => (Ok None, ws_put q (f e) w)
  end.
Definition chmod_entry (mode now : Z) (e : FsEntry) : FsEntry :=
  mkEntry (fe_type e) (permissions mode) (fe_uid e) (fe_gid e) (fe_size e) now (fe_mtime_ns e) (wrap64 (fe_version e + 1)) (fe_extents e) (fe_provenance e).
Definition chown_entry (op : FilesystemNamespaceMutation) (now : Z) (e : FsEntry) : FsEntry :=
  mkEntry (fe_type e) (fe_mode e) (if fm_set_uid op then fm_uid op else fe_uid e) (if fm_set_gid op then fm_gid op else fe_gid e)
    (fe_size e) now (fe_mtime_ns e) (wrap64 (fe_version e + 1)) (fe_extents e) (fe_provenance e).
Definition utimens_entry (mtime now : Z) (e : FsEntry) : FsEntry :=
  mkEntry (fe_type e) (fe_mode e) (fe_uid e) (fe_gid e) (fe_size e) now mtime (wrap64 (fe_version e + 1)) (fe_extents e) (fe_provenance e).

(** [now] is what [wall_time_ns] reads. *)
Definition apply_namespace_mutation (now : Z) (op : FilesystemNamespaceMutation) : ST WorkingSet (option FsEntry) :=
  match fm_kind op with
  | kind_mkdir => make_entry directory now op
  | kind_create => make_entry file now op
  | kind_rmdir => remove_directory op
  | kind_unlink => unlink_entry op
  | kind_rename => rename_entry op
  | kind_chmod => change_entry (fm_from op) (chmod_entry (fm_mode op) now)
  | kind_chown => change_entry (fm_from op) (chown_entry op now)
  | kind_utimens => change_entry (fm_from op) (utimens_entry (fm_mtime_ns op) now)
  end.

(** ** Batches *)

Record BatchResult : Type := mkResult { br_applied : nat; br_entries : list (option FsEntry); br_failure : option (Z * string) }.

(** The operations left, the clock read at each; what [applied] has made. *)
Fixpoint batch_loop (atomic : bool) (clock : nat -> Z) (pending : list FilesystemNamespaceMutation) (applied : nat) (entries : list (option FsEntry))
    : ST WorkingSet BatchResult :=
  match pending with
  | [] => mret (mkResult applied entries None)
  | op :: pending => fun w =>
      match apply_namespace_mutation (clock applied) op w with
      | (Ok made, w) => batch_loop atomic clock pending (Datatypes.S applied) (<[applied := made]> entries) w
      | (Throw (FsError code what), w) =>
          if (applied =? 0)%nat || atomic then (Throw (FsError code what), w) else (Ok (mkResult applied entries (Some (code, what))), w)
      | (Throw x, w) => (Throw x, w)
      end
  end.
Definition apply_namespace_batch_to (atomic : bool) (clock : nat -> Z) (operations : list FilesystemNamespaceMutation) : ST WorkingSet BatchResult :=
  batch_loop atomic clock operations 0 (replicate (length operations) None).

Record QueuedNamespaceBatch : Type := mkBatch { qb_operations : list FilesystemNamespaceMutation; qb_atomic : bool; qb_clock : nat -> Z }.

(** A batch that fails is undone and fails alone; any other exception ends
    the group. *)
Definition group_step (done : list (exn + BatchResult)) (batch : QueuedNamespaceBatch) : ST WorkingSet (list (exn + BatchResult)) := fun w =>
  match apply_namespace_batch_to (qb_atomic batch) (qb_clock batch) (qb_operations batch) w with
  | (Ok result, w') => (Ok (done ++ [inr result]), w')
  | (Throw (FsError code what), _) =>
      (Ok (done ++ [inl (FsError code what)]), reload (mkWork (wk_snapshot w) (wk_delta w) (wk_tree_backed w) (wk_erased w)))
  | (Throw x, w') => (Throw x, w')
  end.
Definition committed (results : list (exn + BatchResult)) : bool := existsb (fun r => match r with inr _ => true | inl _ => false end) results.
(** What the group's commit makes of the snapshot and the delta. *)
Definition apply_namespace_group (group : list QueuedNamespaceBatch) : ST WorkingSet (list (exn + BatchResult)) := fun w =>
  match foldM group_step [] group w with
  | (Throw x, w) => (Throw x, w)
  | (Ok results, w) =>
      if committed results then (Ok results, canonical_erases w)
      else match results with
           | inl x :: _ => (Throw x, w)
           | _ => (Ok results, canonical_erases w)
           end
  end.

(** ** Open handles *)

Definition repoint (op : FilesystemNamespaceMutation) (path : Bytes) : Bytes :=
  if bool_decide (fm_kind op = kind_rename) && negb (bool_decide (fm_from op = fm_to op)) && under path (fm_from op)
  then rebase (fm_from op) (fm_to op) path else path.
Definition repoint_handles (operations : list FilesystemNamespaceMutation) (applied : nat) (paths : list Bytes) : list Bytes :=
  foldl (fun paths op => repoint op <$> paths) paths (take applied operations).

(** ** Names *)

Context (composed_name : Bytes -> Bytes).

Definition ascii_only (text : Bytes) : bool := forallb (fun b => b2z b <? 128) text.
Definition child_path (parent name : Bytes) : Bytes := if bool_decide (parent = root_path) then slash :: name else parent ++ slash :: name.

Record ResolvedPath : Type := mkResolved { rp_path : option Bytes; rp_ambiguous : bool }.

(** The child whose composed name is the one wanted, and whether two are. *)
Definition match_child (wanted : Bytes) (name : Bytes) (e : Bytes * FsEntry) : ST (option Bytes * bool) unit := fun '(found, ambiguous) =>
  if bool_decide (composed_name name = wanted)
  then (Ok tt, (Some e.1, match found with Some _ => true | None => ambiguous end))
  else (Ok tt, (found, ambiguous)).
Fixpoint resolve_components (snapshot : MetadataSnapshot) (components : list Bytes) (resolved : Bytes) : result ResolvedPath :=
  match components with
  | [] => Ok (mkResolved (Some resolved) false)
  | component :: rest =>
      let exact := child_path resolved component in
      present ← namespace_contains store fuel snapshot exact;
      if present : bool then resolve_components snapshot rest exact
      else if ascii_only component then Ok (mkResolved None false)
      else
        match for_each_namespace_child store fuel leaves snapshot resolved (match_child (composed_name component)) (None, false) with
        | (Throw x, _) => Throw x
        | (Ok _, (_, true)) => Ok (mkResolved None true)
        | (Ok _, (None, false)) => Ok (mkResolved None false)
        | (Ok _, (Some path, false)) => resolve_components snapshot rest path
        end
  end.
Definition resolve_in (snapshot : MetadataSnapshot) (q : Bytes) : result ResolvedPath :=
  present ← namespace_contains store fuel snapshot q;
  if present : bool then Ok (mkResolved (Some q) false)
  else if bool_decide (q = root_path) || ascii_only q then Ok (mkResolved None false)
  else resolve_components snapshot (runs (drop 1 q) []) root_path.

Definition resolve_existing_path (snapshot : MetadataSnapshot) (p : Bytes) : result (option Bytes) :=
  r ← resolve_in snapshot (normalize_path p); Ok (rp_path r).
Definition resolve_new_path (snapshot : MetadataSnapshot) (p : Bytes) : result Bytes :=
  let q := normalize_path p in
  existing ← resolve_in snapshot q;
  match rp_path existing with
  | Some path => Ok path
  | None =>
      if rp_ambiguous existing then fail EEXIST "canonically equivalent name is ambiguous"
      else if bool_decide (q = root_path) then Ok q
      else
        let requested_parent := parent_path q in
        parent ← resolve_in snapshot requested_parent;
        if rp_ambiguous parent then fail EEXIST "canonically equivalent name is ambiguous"
        else Ok (child_path (default requested_parent (rp_path parent)) (composed_name (base_name q)))
  end.

(** ** Reading *)

Definition getattr (snapshot : MetadataSnapshot) (p : Bytes) : result FsEntry :=
  resolved ← resolve_existing_path snapshot p;
  match resolved with
  | None => fail ENOENT "not found"
  | Some q =>
      found ← namespace_entry store fuel snapshot q true;
      match found with None => fail ENOENT "not found" | Some e => Ok e end
  end.
Definition list_child (name : Bytes) (e : Bytes * FsEntry) : ST (list (Bytes * Bytes)) unit := fun out => (Ok tt, out ++ [(name, e.1)]).
Definition readdir (snapshot : MetadataSnapshot) (p : Bytes) : result (list (Bytes * FsEntry)) :=
  resolved ← resolve_existing_path snapshot p;
  match resolved with
  | None => fail ENOENT "not found"
  | Some q =>
      entry ← namespace_entry store fuel snapshot q false;
      match entry with
      | None => fail ENOENT "not found"
      | Some e =>
          if negb (bool_decide (fe_type e = directory)) then fail ENOTDIR "not directory"
          else
            match for_each_namespace_child store fuel leaves snapshot q list_child [] with
            | (Throw x, _) => Throw x
            | (Ok _, children) =>
                foldM (fun out child =>
                  found ← namespace_entry store fuel snapshot child.2 true;
                  Ok (match found with Some e => out ++ [(child.1, e)] | None => out end)) [] children
            end
      end
  end.

(** ** Calls that make one mutation *)

Definition existing_mutation (snapshot : MetadataSnapshot) (p : Bytes) (op : Bytes -> FilesystemNamespaceMutation) : result FilesystemNamespaceMutation :=
  resolved ← resolve_existing_path snapshot p;
  match resolved with None => fail ENOENT "missing" | Some q => Ok (op q) end.
Definition mkdir (snapshot : MetadataSnapshot) (p : Bytes) (mode uid gid : Z) : result FilesystemNamespaceMutation :=
  q ← resolve_new_path snapshot p; Ok (mkMutation kind_mkdir q [] false mode uid gid false false 0).
Definition create_file (snapshot : MetadataSnapshot) (p : Bytes) (mode uid gid : Z) : result FilesystemNamespaceMutation :=
  q ← resolve_new_path snapshot p; Ok (mkMutation kind_create q [] false mode uid gid false false 0).
Definition rmdir (snapshot : MetadataSnapshot) (p : Bytes) := existing_mutation snapshot p (mutation kind_rmdir).
Definition unlink (snapshot : MetadataSnapshot) (p : Bytes) := existing_mutation snapshot p (mutation kind_unlink).
Definition chmod (snapshot : MetadataSnapshot) (p : Bytes) (mode : Z) :=
  existing_mutation snapshot p (fun q => mkMutation kind_chmod q [] false mode 0 0 false false 0).
Definition chown (snapshot : MetadataSnapshot) (p : Bytes) (uid gid : Z) (set_uid set_gid : bool) :=
  existing_mutation snapshot p (fun q => mkMutation kind_chown q [] false 0 uid gid set_uid set_gid 0).
Definition utimens (snapshot : MetadataSnapshot) (p : Bytes) (mtime_ns : Z) :=
  existing_mutation snapshot p (fun q => mkMutation kind_utimens q [] false 0 0 0 false false mtime_ns).
(** No mutation where the two names are one file's. *)
Definition rename (snapshot : MetadataSnapshot) (a b : Bytes) (noreplace : bool) : result (option FilesystemNamespaceMutation) :=
  source ← resolve_existing_path snapshot a;
  match source with
  | None => fail ENOENT "source missing"
  | Some x =>
      y ← resolve_new_path snapshot b;
      Ok (if bool_decide (x = y) then None else Some (mkMutation kind_rename x y noreplace 0 0 0 false false 0))
  end.

(** ** The commit of a file's content *)

(** [FsStaleBasis]: an [FsError] of the code its constructor gives it. *)
Definition stale_basis (what : string) : exn := FsError EAGAIN what.

Definition set_maps (maps : NamespaceEntries * list (Bytes * EntryAppend)) (d : MetadataDelta) : MetadataDelta :=
  mkDelta (md_mutation_sequences d) maps.1 (md_erase_entries d) (md_erase_garbage d) (md_upsert_garbage d)
    (md_upsert_node_status d) (md_upsert_identity_resets d) (md_upsert_torrent_requests d) (md_erase_torrent_requests d)
    (md_replace_merge_parents d) (md_replace_conflicts d) (md_canonical_garbage d) maps.2 (md_catalogue d)
    (md_catalogue_root d) (md_set_legacy_clock d) (md_set_catalogue_dot d) (md_add_tombstone_batches d)
    (md_drop_tombstone_batches d) (md_pending_tombstones d).

(** The objects of [current] that none of [extents] holds. *)
Definition dropped_objects (current extents : list ExtentRef) : list ObjectId :=
  base.filter (fun id => id ∉ objects_of extents) (objects_of current).
Definition committed_entry (current expected : FsEntry) (z : Z) (xs : list ExtentRef) (mtime_override : option Z) (now : Z) : FsEntry :=
  mkEntry (fe_type current) (fe_mode current) (fe_uid current) (fe_gid current) z now
    (match mtime_override with
     | Some t => t
     | None => if fe_mtime_ns current =? fe_mtime_ns expected then now else fe_mtime_ns current
     end)
    (wrap64 (fe_version current + 1)) xs (fe_provenance current).
Definition commit_file (now : Z) (p : Bytes) (expected : FsEntry) (z : Z) (xs : list ExtentRef) (mtime_override : option Z)
    (stale_basis_is_replayable : bool) : ST WorkingSet FsEntry := fun w =>
  let q := normalize_path p in
  match ws_get store fuel w q true with
  | Throw x => (Throw x, w)
  | Ok None => (fail ENOENT "removed while open", w)
  | Ok (Some current) =>
      if negb (fe_version current =? fe_version expected) &&
         (negb (fe_size current =? fe_size expected) || negb (bool_decide (fe_extents current = fe_extents expected)))
      then (Throw (if stale_basis_is_replayable then FsError ESTALE "publication basis is stale; replay against the current entry"
                   else stale_basis "concurrent file content change"), w)
      else
        let w := retire (dropped_objects (fe_extents current) xs) w in
        let entry := committed_entry current expected z xs mtime_override now in
        let d := wk_delta w in
        let d := set_maps (record_entry_change q (Some current) entry (md_upsert_entries d, md_append_entries d)) d in
        let snapshot :=
          if wk_tree_backed w then wk_snapshot w else set_entries (map_set q entry (sn_entries (wk_snapshot w))) (wk_snapshot w) in
        (Ok entry, mkWork snapshot d (wk_tree_backed w) (wk_erased w))
  end.

(** ** The extents of a truncated file *)

Context (get_object : ObjectId -> nat -> option Bytes) (put_object : Bytes -> ObjectId).

(** Extents up to [z]; the last one cut. [i] is the place of the first. *)
Fixpoint cut_extents (z : Z) (i : nat) (xs : list ExtentRef) : result (list ExtentRef) :=
  match xs with
  | [] => Ok []
  | x :: rest =>
      if z <=? ex_offset x then Ok []
      else if wrap64 (ex_offset x + ex_length x) <=? z then cut ← cut_extents z (Datatypes.S i) rest; Ok (x :: cut)
      else
        let keep := z - ex_offset x in
        if ex_hole x then Ok [mkExtent (ex_offset x) keep (array_zero 32) true]
        else
          match get_object (ex_id x) i with
          | Some data =>
              if Z.of_nat (length data) <? keep then fail EIO "truncate source unavailable"
              else Ok [mkExtent (ex_offset x) keep (put_object (take (Z.to_nat keep) data)) false]
          | None => fail EIO "truncate source unavailable"
          end
  end.
Definition truncate_extents (e : FsEntry) (z : Z) : result (list ExtentRef) :=
  if z <? fe_size e then cut_extents z 0 (fe_extents e)
  else Ok (fe_extents e ++ [mkExtent (fe_size e) (z - fe_size e) (array_zero 32) true]).
(** The entry to commit against and its new extents; none where the size stays. *)
Definition truncate_file (snapshot : MetadataSnapshot) (p : Bytes) (z : Z) : result (option (Bytes * FsEntry * list ExtentRef)) :=
  resolved ← resolve_existing_path snapshot p;
  match resolved with
  | None => fail ENOENT "missing"
  | Some q =>
      e ← getattr snapshot q;
      if negb (bool_decide (fe_type e = file)) then fail EISDIR "directory"
      else if z =? fe_size e then Ok None
      else xs ← truncate_extents e z; Ok (Some (q, e, xs))
  end.
End filesystem.
