(* ===== verification/FilesystemPaths.v ===== *)
(** * Paths below paths

    [under], [rebase] and [parent_path] on the components of normal paths:
    what a rename moves and where to. *)

From S2P Require Import Prelude Sorts Maps Orders Codec TorrentRequest Journal Paths Metadata MetadataCodec MetadataDelta NamespaceTree NamespaceView NamespaceNodes NamespaceReads NamespaceViewProofs NamespaceScan NamespaceForms NamespaceWorking Filesystem.

#[local] Notation "'flat' v" := (flat_map (fun x : Bytes => slash :: x) v) (at level 10, v at level 9).

Lemma join_flat v : v <> [] -> join_path v = flat v.
Proof. by destruct v. Qed.
Lemma runs_flat_after v cur q : Forall component v -> cur <> [] -> runs (flat v ++ slash :: q) cur = cur :: v ++ runs q [].
Proof.
  intros Hv. revert cur. induction Hv as [|x v (Hx1 & Hx2 & _) Hv IH]; intros cur Hc.
  { cbn. rewrite bool_decide_true by done. by destruct cur. }
  cbn [flat_map app runs]. rewrite bool_decide_true by done. rewrite <- app_assoc, runs_component by done. cbn [app].
  rewrite IH by done. by destruct cur.
Qed.
Lemma runs_flat v q : Forall component v -> runs (flat v ++ slash :: q) [] = v ++ runs q [].
Proof.
  intros [|x w (Hx1 & Hx2 & _) Hw]; cbn [flat_map app runs]; rewrite bool_decide_true by done; [done|].
  rewrite <- app_assoc, runs_component by done. by apply runs_flat_after.
Qed.
Lemma join_inj v w : Forall component v -> Forall component w -> join_path v = join_path w -> v = w.
Proof.
  intros Hv Hw E. destruct (decide (v = [])) as [->|Hnv]; [symmetry; by apply join_root|]. destruct (decide (w = [])) as [->|Hnw]; [by apply join_root|].
  rewrite !join_flat in E by done. rewrite <- (runs_join v Hv), <- (runs_join w Hw). by rewrite E.
Qed.

Lemma under_path_under p r : under p r = path_under p r.
Proof. done. Qed.

Lemma under_flat v w : v <> [] -> Forall component v -> Forall component w -> under (join_path w) (join_path v) = true <-> exists rest, w = v ++ rest.
Proof.
  intros Hne Hv Hw. assert (join_path v <> root_path) as Hr by (intros E; by apply join_root in E).
  rewrite under_path_under, (under_prefix _ _ Hr). unfold directory_prefix. rewrite (bool_decide_false (join_path v = root_path)) by done.
  rewrite orb_true_iff, bool_decide_eq_true, starts_with_app. split.
  - intros [E|(q & E)]; [exists []; rewrite app_nil_r; by apply join_inj|].
    destruct (decide (w = [])) as [->|Hnw].
    { rewrite (join_flat v Hne) in E. destruct v as [|x v]; [done|]. apply (f_equal length) in E. cbn in E. rewrite !length_app in E. cbn in E. lia. }
    exists (runs q []). rewrite <- (runs_join w Hw), <- (join_flat w Hnw), E, (join_flat v Hne), <- app_assoc. by apply runs_flat.
  - intros (rest & ->). destruct rest as [|x rest]; [left; by rewrite app_nil_r|]. right. exists (x ++ flat rest).
    rewrite !join_flat by (done || by destruct v). rewrite flat_map_app. cbn [flat_map]. by rewrite <- app_assoc.
Qed.
Lemma under_components p r : normal p -> normal r -> r <> root_path -> under p r = true ->
  exists v rest, v <> [] /\ Forall component (v ++ rest) /\ r = join_path v /\ p = join_path (v ++ rest).
Proof.
  intros (w & Hw & ->) (v & Hv & ->) Hr Hu. assert (v <> []) as Hne by (by intros ->). apply under_flat in Hu as (rest & ->); [|done..].
  by exists v, rest.
Qed.
Lemma under_refl p : under p p = true.
Proof. unfold under. by rewrite bool_decide_true. Qed.

(** The path above a path below [r] is below it too, [r] apart. *)
Lemma parent_under p r : normal p -> normal r -> r <> root_path -> under p r = true -> p <> r -> under (parent_path p) r = true.
Proof.
  intros Hp Hr Hnr Hu Hne. destruct (under_components p r Hp Hr Hnr Hu) as (v & rest & Hv & Hc & -> & ->).
  destruct (list_last_eq_or rest) as [->|(w & x & ->)]; [by rewrite app_nil_r in Hne|]. rewrite app_assoc in *. rewrite parent_join by done.
  apply Forall_app in Hc as [Hc _]. apply under_flat; [done|by apply Forall_app in Hc as [? _]|done|]. by exists w.
Qed.
Lemma under_parent p r : normal p -> normal r -> r <> root_path -> p <> root_path -> under (parent_path p) r = true -> under p r = true.
Proof.
  intros Hp Hr Hnr Hpr Hu. pose proof (parent_normal p Hp) as Hpn. destruct (under_components _ r Hpn Hr Hnr Hu) as (v & rest & Hv & Hc & -> & E).
  destruct Hp as (w & Hw & ->). destruct (list_last_eq_or w) as [->|(w' & x & ->)]; [done|]. rewrite parent_join in E by done.
  pose proof Hw as Hw0. apply Forall_app in Hw0 as [Hw' Hx]. apply join_inj in E as ->; [|done..]. pose proof Hc as [Hcv _]%Forall_app.
  apply under_flat; [done..|]. exists (rest ++ [x]). by rewrite app_assoc.
Qed.
Lemma parent_not_self p : normal p -> p <> root_path -> parent_path p <> p.
Proof. intros Hp Hr E. pose proof (parent_shorter p Hp Hr). rewrite E in *. lia. Qed.

(** ** Moving *)

Section move.
Context (x y : Bytes) (Hx : normal x) (Hy : normal y) (Hxr : x <> root_path) (Hyr : y <> root_path).

Lemma rebase_components p : normal p -> under p x = true -> exists vx vy rest, vx <> [] /\ vy <> [] /\ Forall component (vx ++ rest) /\ Forall component (vy ++ rest) /\
  x = join_path vx /\ y = join_path vy /\ p = join_path (vx ++ rest) /\ rebase x y p = join_path (vy ++ rest).
Proof using Hx Hy Hxr Hyr.
  intros Hp Hu. destruct (under_components p x Hp Hx Hxr Hu) as (vx & rest & Hne & Hc & Ex & Ep). destruct Hy as (vy & Hvy & Ey).
  assert (vy <> []) as Hney by (intros ->; by rewrite Ey in Hyr). exists vx, vy, rest. pose proof Hc as [Hcx Hcr]%Forall_app. split_and!; try done; [by apply Forall_app|].
  unfold rebase. rewrite Ep, Ex, Ey, !join_flat by (done || (destruct vx; done) || (destruct vy; done)). rewrite !flat_map_app. f_equal. by rewrite drop_app_length.
Qed.
Lemma rebase_normal p : normal p -> under p x = true -> normal (rebase x y p) /\ under (rebase x y p) y = true /\ rebase y x (rebase x y p) = p.
Proof using Hx Hy Hxr Hyr.
  intros Hp Hu. destruct (rebase_components p Hp Hu) as (vx & vy & rest & Hnx & Hny & Hcx & Hcy & Ex & Ey & Ep & Er).
  pose proof Hcy as [Hvy _]%Forall_app. split_and!.
  - rewrite Er. by exists (vy ++ rest).
  - rewrite Er, Ey. apply under_flat; [done..|]. by exists rest.
  - rewrite Er. unfold rebase. rewrite Ep, Ex, Ey, !join_flat by (done || (destruct vx; done) || (destruct vy; done)). rewrite !flat_map_app. f_equal. by rewrite drop_app_length.
Qed.
Lemma rebase_top : rebase x y x = y.
Proof using. unfold rebase. by rewrite drop_all, app_nil_r. Qed.
Lemma rebase_parent p : normal p -> under p x = true -> p <> x -> parent_path (rebase x y p) = rebase x y (parent_path p).
Proof using Hx Hy Hxr Hyr.
  intros Hp Hu Hne. destruct (rebase_components p Hp Hu) as (vx & vy & rest & Hnx & Hny & Hcx & Hcy & Ex & Ey & Ep & Er).
  destruct (list_last_eq_or rest) as [->|(w & c & ->)]; [by rewrite Ep, Ex, app_nil_r in Hne|]. rewrite Er, Ep, !app_assoc in *. rewrite !parent_join by done.
  unfold rebase. apply Forall_app in Hcx as [Hcx _]. rewrite Ex, Ey, !join_flat by (done || (destruct vx; done) || (destruct vy; done)).
  rewrite !flat_map_app. f_equal. by rewrite drop_app_length.
Qed.
End move.
