(* ===== verification/FilesystemProofs.v ===== *)
(** * Mutations as changes of a tree of names

    [mutate] is what each mutation means on the map of entries: its error, or
    the map it leaves, the entry it made and the objects it lets go.
    [mutation_refines] is the simulation: through a working set over either
    form of the namespace the code does exactly that, and where it fails it
    has changed nothing. *)

From S2P Require Import Prelude Sorts Maps Orders Codec TorrentRequest Journal Paths Metadata MetadataCodec MetadataRoundtrip MetadataDelta MetadataMerge MetadataMergeProofs NamespaceTree NamespaceView NamespaceNodes NamespaceReads NamespaceViewProofs NamespaceScan NamespaceForms NamespaceWorking Filesystem FilesystemPaths.

(** ** The meaning of a mutation *)

Section meaning.
Context `{Sha256}.
Implicit Types (E : NamespaceEntries).

Record Outcome : Type := mkOutcome { oc_made : option FsEntry; oc_entries : NamespaceEntries; oc_retired : list ObjectId }.

Definition parent_directory E (p : Bytes) : result unit :=
  match alookup (parent_path p) E with
  | None => fail ENOENT "parent missing"
  | Some e => if bool_decide (fe_type e = directory) then Ok tt else fail ENOTDIR "parent not directory"
  end.
Definition has_children E (q : Bytes) : bool := existsb (fun e => lies_under (directory_prefix q) q e.1) E.

Definition make E (type : EntryType) (now : Z) (op : FilesystemNamespaceMutation) : result Outcome :=
  _ ← parent_directory E (fm_from op);
  if is_key (fm_from op) E then fail EEXIST "exists"
  else Ok (mkOutcome (Some (new_entry type op now)) (map_set (fm_from op) (new_entry type op now) E) []).
Definition remove_dir E (q : Bytes) : result Outcome :=
  if bool_decide (q = root_path) then fail EBUSY "root"
  else match alookup q E with
       | None => fail ENOENT "missing"
       | Some e =>
           if negb (bool_decide (fe_type e = directory)) then fail ENOTDIR "not directory"
           else if has_children E q then fail ENOTEMPTY "not empty"
           else Ok (mkOutcome None (map_erase q E) [])
       end.
Definition remove_file E (q : Bytes) : result Outcome :=
  match alookup q E with
  | None => fail ENOENT "missing"
  | Some e =>
      if negb (bool_decide (fe_type e = file)) then fail EISDIR "directory"
      else Ok (mkOutcome None (map_erase q E) (objects_of (fe_extents e)))
  end.

(** What a rename may replace, and what goes with it. *)
Definition replaceable E (noreplace : bool) (y : Bytes) (src dst : EntryType) (extents : list ExtentRef) : result (list ObjectId) :=
  if noreplace then fail EEXIST "target exists"
  else if bool_decide (src = directory) && negb (bool_decide (dst = directory)) then fail ENOTDIR "cannot replace file with directory"
  else if negb (bool_decide (src = directory)) && bool_decide (dst = directory) then fail EISDIR "cannot replace directory with file"
  else if bool_decide (dst = directory) then if has_children E y then fail ENOTEMPTY "target not empty" else Ok []
  else Ok (objects_of extents).
Definition move_all (x y : Bytes) E : NamespaceEntries :=
  foldl (fun m item => map_set (rebase x y item.1) (with_identity item.1 item.2) (map_erase item.1 m)) E (keys_in (fun p => under p x) E).
Definition move E (op : FilesystemNamespaceMutation) : result Outcome :=
  let x := fm_from op in let y := fm_to op in
  if bool_decide (x = root_path) || bool_decide (y = root_path) then fail EBUSY "root"
  else if bool_decide (x = y) then Ok (mkOutcome None E [])
  else if under y x then fail EINVAL "recursive rename"
  else match alookup x E with
       | None => fail ENOENT "source missing"
       | Some src =>
           _ ← parent_directory E y;
           match alookup y E with
           | None => Ok (mkOutcome None (move_all x y E) [])
           | Some dst =>
               retired ← replaceable E (fm_noreplace op) y (fe_type src) (fe_type dst) (fe_extents dst);
               Ok (mkOutcome None (move_all x y (map_erase y E)) retired)
           end
       end.
Definition change E (q : Bytes) (f : FsEntry -> FsEntry) : result Outcome :=
  match alookup q E with None => fail ENOENT "missing" | Some e => Ok (mkOutcome None (map_set q (f e) E) []) end.

Definition mutate (now : Z) (op : FilesystemNamespaceMutation) E : result Outcome :=
  match fm_kind op with
  | kind_mkdir => make E directory now op
  | kind_create => make E file now op
  | kind_rmdir => remove_dir E (fm_from op)
  | kind_unlink => remove_file E (fm_from op)
  | kind_rename => move E op
  | kind_chmod => change E (fm_from op) (chmod_entry (fm_mode op) now)
  | kind_chown => change E (fm_from op) (chown_entry op now)
  | kind_utimens => change E (fm_from op) (utimens_entry (fm_mtime_ns op) now)
  end.

(** The paths a mutation names are spelled as [normalize_path] spells them. *)
Definition named (op : FilesystemNamespaceMutation) : Prop := normal (fm_from op) /\ (fm_kind op = kind_rename -> normal (fm_to op)).
End meaning.

(** ** Simulation *)

Section simulation.
Context `{Sha256} {S : Type} `{NodeStore S} (s : S) (h fuel d leaves : nat) (Hfuel : (d + h < fuel)%nat).

Lemma holds_delta base E w f : holds s h d leaves base E w -> md_upsert_entries (f (wk_delta w)) = md_upsert_entries (wk_delta w) ->
  (forall p, p ∈ md_erase_entries (f (wk_delta w)) <-> p ∈ md_erase_entries (wk_delta w)) -> holds s h d leaves base E (on_delta f w).
Proof.
  intros [Hs Hu He Ho Ha Ht Hb] Eu Ee. split; cbn; try done; [by rewrite Eu|intros p; by rewrite Ee| |]; intros p; rewrite Eu; [apply Ho|apply Ha].
Qed.
Lemma holds_retire base E w ids : holds s h d leaves base E w -> holds s h d leaves base E (retire ids w).
Proof. intros Hw. by apply holds_delta. Qed.
Lemma holds_canonical base E w : holds s h d leaves base E w -> holds s h d leaves base E (canonical_erases w).
Proof. intros Hw. apply holds_delta; [done|done|]. intros p. apply sort_unique_ok. Qed.

Lemma require_parent_ok base E w p : holds s h d leaves base E w -> normal p -> require_parent (Some s) fuel w p = parent_directory E p.
Proof.
  intros Hw Hp. unfold require_parent, parent_directory.
  destruct (ws_stat_ok s h fuel d leaves Hfuel base E w (parent_path p) Hw (normal_nonempty _ (parent_normal p Hp))) as (got & -> & Eg). cbn [mbind result_bind].
  destruct got as [e'|], (alookup (parent_path p) E) as [e|]; cbn in Eg; try done. injection Eg as Eg _ _ _ _ _ _ _ _. by rewrite Eg.
Qed.
Lemma children_ok base E w q : holds s h d leaves base E w -> exists r, first_path_under (Some s) fuel leaves w q = Ok r /\
  has_children E q = match r with Some _ => true | None => false end.
Proof.
  intros Hw. destruct (first_path_under_ok s h fuel d leaves Hfuel base E w q Hw) as (r & Er & Hr). exists r. split; [done|]. unfold has_children. destruct r as [p|].
  - destruct Hr as [Hl Hk]. unfold is_key in Hk. destruct (alookup p E) as [e|] eqn:Ea; [|done]. apply alookup_Some_elem in Ea. apply existsb_exists.
    exists (p, e). split; [by apply list_elem_of_In|done].
  - apply not_true_is_false. intros ([p e] & Hin%list_elem_of_In & Hl)%existsb_exists. cbn in Hl. rewrite Hr in Hl; [done|].
    unfold is_key. by rewrite (elem_alookup_Some p e _ (hd_sorted _ _ _ _ _ _ _ Hw) Hin).
Qed.

Definition pending (w : WorkingSet) : list PendingTombstones := md_pending_tombstones (wk_delta w).
(** The code does what the mutation means, or fails as it says with nothing changed. *)
Definition does base (w : WorkingSet) (got : result (option FsEntry) * WorkingSet) (meant : result Outcome) : Prop :=
  match meant with
  | Throw x => got = (Throw x, w)
  | Ok out => got.1 = Ok (oc_made out) /\ holds s h d leaves base (oc_entries out) got.2 /\ pending got.2 = retire_objects (pending w) (oc_retired out)
  end.

Lemma make_does base E w type now op : holds s h d leaves base E w -> normal (fm_from op) -> does base w (make_entry (Some s) fuel type now op w) (make E type now op).
Proof.
  intros Hw Hp. unfold make_entry, make, does. rewrite (require_parent_ok base E) by done. destruct (parent_directory E (fm_from op)) as [[]|x]; [|done].
  cbn [mbind result_bind]. rewrite (ws_contains_ok s h fuel d leaves Hfuel base E) by (done || by apply normal_nonempty).
  destruct (is_key (fm_from op) E); [done|]. split_and!; [done| |done]. by apply ws_put_ok.
Qed.
Lemma remove_dir_does base E w op : holds s h d leaves base E w -> normal (fm_from op) -> does base w (remove_directory (Some s) fuel leaves op w) (remove_dir E (fm_from op)).
Proof.
  intros Hw Hp. unfold remove_directory, remove_dir, does. case_bool_decide; [done|].
  destruct (ws_stat_ok s h fuel d leaves Hfuel base E w (fm_from op) Hw (normal_nonempty _ Hp)) as (got & -> & Eg). cbn [mbind result_bind].
  destruct got as [e'|], (alookup (fm_from op) E) as [e|]; cbn in Eg; try done. injection Eg as Eg _ _ _ _ _ _ _ _. rewrite Eg.
  destruct (bool_decide (fe_type e = directory)); cbn [negb]; [|done]. destruct (children_ok base E w (fm_from op) Hw) as (r & -> & ->). cbn [mbind result_bind].
  destruct r; [done|]. split_and!; [done| |done]. by apply ws_erase_ok.
Qed.
Lemma remove_file_does base E w op : holds s h d leaves base E w -> normal (fm_from op) -> does base w (unlink_entry (Some s) fuel op w) (remove_file E (fm_from op)).
Proof.
  intros Hw Hp. unfold unlink_entry, remove_file, does. rewrite (ws_get_ok s h fuel d leaves Hfuel base E) by (done || by apply normal_nonempty).
  destruct (alookup (fm_from op) E) as [e|]; [|done]. destruct (bool_decide (fe_type e = file)); cbn [negb]; [|done]. split_and!; [done| |done].
  by apply ws_erase_ok, holds_retire.
Qed.
Lemma change_does base E w q f : holds s h d leaves base E w -> normal q -> does base w (change_entry (Some s) fuel q f w) (change E q f).
Proof.
  intros Hw Hp. unfold change_entry, change, does. rewrite (ws_get_ok s h fuel d leaves Hfuel base E) by (done || by apply normal_nonempty).
  destruct (alookup q E) as [e|]; [|done]. split_and!; [done| |done]. by apply ws_put_ok.
Qed.

Lemma moves_hold base x y items E w : holds s h d leaves base E w ->
  holds s h d leaves base (foldl (fun m item => map_set (rebase x y item.1) (with_identity item.1 item.2) (map_erase item.1 m)) E items) (foldl (move_entry x y) w items) /\
  pending (foldl (move_entry x y) w items) = pending w.
Proof.
  revert E w. induction items as [|item items IH]; intros E w Hw; [done|]. cbn [foldl].
  destruct (IH _ (move_entry x y w item) (ws_put_ok s h d leaves base _ _ (rebase x y item.1) (with_identity item.1 item.2)
    (ws_erase_ok s h d leaves base E w item.1 Hw))) as [H1 H2]. split; [done|]. by rewrite H2.
Qed.
Lemma check_target_ok base E w op src src' dst : holds s h d leaves base E w -> fe_type src = fe_type src' ->
  check_target (Some s) fuel leaves op src dst w = replaceable E (fm_noreplace op) (fm_to op) (fe_type src') (fe_type dst) (fe_extents dst).
Proof.
  intros Hw <-. unfold check_target, replaceable. destruct (fm_noreplace op); [done|].
  destruct (bool_decide (fe_type src = directory)), (bool_decide (fe_type dst = directory)); cbn [andb negb]; try done.
  destruct (children_ok base E w (fm_to op) Hw) as (r & -> & ->). cbn [mbind result_bind]. by destruct r.
Qed.
Lemma moved_does base w0 E w x y items : holds s h d leaves base E w -> normal x -> x <> root_path -> subtree (Some s) fuel w x = Ok items -> pending w = pending w0 ->
  does base w0 (Ok None, canonical_erases (foldl (move_entry x y) w items)) (Ok (mkOutcome None (move_all x y E) [])).
Proof.
  intros Hw Hx Hxr Es Ep. rewrite (subtree_ok s h fuel d leaves Hfuel base E) in Es by (done || by apply normal_nonempty). injection Es as <-.
  destruct (moves_hold base x y (keys_in (fun p => path_under p x) E) E w Hw) as [H1 H2]. split_and!; [done|by apply holds_canonical|].
  cbn. by rewrite <- Ep, <- H2.
Qed.
Lemma move_does base E w op : holds s h d leaves base E w -> normal (fm_from op) -> normal (fm_to op) -> does base w (rename_entry (Some s) fuel leaves op w) (move E op).
Proof.
  intros Hw Hx Hy. unfold rename_entry, move. set (x := fm_from op) in *. set (y := fm_to op) in *.
  destruct (bool_decide (x = root_path)) eqn:Exr; cbn [orb]; [done|]. destruct (bool_decide (y = root_path)) eqn:Eyr; [done|].
  apply bool_decide_eq_false in Exr, Eyr. case_bool_decide as Exy; [by split_and!|]. destruct (under y x) eqn:Eu; [done|].
  destruct (ws_stat_ok s h fuel d leaves Hfuel base E w x Hw (normal_nonempty _ Hx)) as (got & -> & Eg). cbn [mbind result_bind].
  destruct got as [src'|], (alookup x E) as [src|] eqn:Ex; cbn in Eg; try done. injection Eg as Eg _ _ _ _ _ _ _ _.
  rewrite (require_parent_ok base E) by done. destruct (parent_directory E y) as [[]|err]; cbn [mbind result_bind]; [|done].
  rewrite (ws_get_ok s h fuel d leaves Hfuel base E) by (done || by apply normal_nonempty). cbn [mbind result_bind].
  destruct (alookup y E) as [dst|] eqn:Ey.
  - rewrite (check_target_ok base E w op src' src dst Hw Eg). fold y. destruct (replaceable E (fm_noreplace op) y (fe_type src) (fe_type dst) (fe_extents dst)) as [retired|err] eqn:Er; cbn [mbind result_bind]; [|done].
    set (w1 := ws_erase y (if bool_decide (fe_type dst = directory) then w else retire retired w)).
    assert (holds s h d leaves base (map_erase y E) w1) as Hw1.
    { apply ws_erase_ok. destruct (bool_decide (fe_type dst = directory)); [done|]. by apply holds_retire. }
    assert (pending w1 = retire_objects (pending w) retired) as Ep1.
    { unfold w1. destruct (bool_decide (fe_type dst = directory)) eqn:Ed; [|done]. unfold replaceable in Er. rewrite Ed in Er.
      destruct (fm_noreplace op); [done|]. destruct (bool_decide (fe_type src = directory)); cbn [andb negb] in Er; [|done]. destruct (has_children E y); [done|]. by injection Er as <-. }
    destruct (subtree (Some s) fuel w1 x) as [items|err] eqn:Es.
    + pose proof (moved_does base w1 _ w1 x y items Hw1 Hx Exr Es eq_refl) as (D1 & D2 & D3). split_and!; [done|done|]. cbn [snd oc_retired] in D3 |- *. rewrite <- Ep1. exact D3.
    + rewrite (subtree_ok s h fuel d leaves Hfuel base _ _ x Hw1) in Es by (done || by apply normal_nonempty). done.
  - destruct (subtree (Some s) fuel w x) as [items|err] eqn:Es; [by eapply moved_does|].
    rewrite (subtree_ok s h fuel d leaves Hfuel base E) in Es by (done || by apply normal_nonempty). done.
Qed.

Lemma mutation_does base E w now op : holds s h d leaves base E w -> named op -> does base w (apply_namespace_mutation (Some s) fuel leaves now op w) (mutate now op E).
Proof.
  intros Hw [Hp Ht]. unfold apply_namespace_mutation, mutate.
  destruct (fm_kind op) eqn:Ek; auto using make_does, remove_dir_does, remove_file_does, change_does, move_does.
Qed.
End simulation.
