(* ===== verification/FilesystemTree.v ===== *)
(** * Mutations keep the tree

    Every mutation takes a tree of names to a tree of names; a rename moves
    exactly what is below its source, whole, to below its target. *)

From S2P Require Import Prelude Sorts Maps Orders Codec TorrentRequest Journal Paths Metadata MetadataCodec MetadataRoundtrip MetadataDelta MetadataMerge MetadataMergeProofs NamespaceTree NamespaceView NamespaceNodes NamespaceReads NamespaceViewProofs NamespaceScan NamespaceForms NamespaceWorking Filesystem FilesystemPaths FilesystemProofs.

(** ** Trees, path by path *)

Section tree.
Implicit Types (E m : NamespaceEntries).

Definition grows E : Prop := forall p e, alookup p E = Some e -> normal p /\ key_ok p /\ (p <> root_path -> is_directory (alookup (parent_path p) E) = true).
Lemma tree_grows E : tree_wf E -> grows E.
Proof.
  intros [Hs Hn Hk Hr Hp] p e He. rewrite Forall_forall in Hn. rewrite Forall_forall in Hk.
  assert (p ∈ E.*1) as Hin by (apply alookup_is_key; eauto). split_and!; [by apply Hn|by apply Hk|]. by eapply Hp.
Qed.
Lemma grows_tree E : sorted_recs E -> is_directory (alookup root_path E) = true -> grows E -> tree_wf E.
Proof.
  intros Hs Hr Hg. split; try done.
  - apply Forall_forall. intros p (e & He)%alookup_is_key. by apply (Hg p e).
  - apply Forall_forall. intros p (e & He)%alookup_is_key. by apply (Hg p e).
  - intros p e He. by apply (Hg p e).
Qed.
Lemma present_directory (o : option FsEntry) : is_directory o = true -> exists e, o = Some e /\ fe_type e = directory.
Proof. destruct o as [e|]; cbn; [|done]. intros He%bool_decide_eq_true. eauto. Qed.

(** Of a path below [r] that is there, [r] is there. *)
Lemma ancestor_there E r p e : tree_wf E -> normal r -> r <> root_path -> alookup p E = Some e -> under p r = true -> p <> r ->
  is_directory (alookup r E) = true.
Proof.
  intros Ht Hr Hnr. remember (length p) as n eqn:En. revert p e En. induction (lt_wf n) as [n _ IH]. intros p e -> He Hu Hne.
  destruct (tree_grows E Ht p e He) as (Hp & _ & Hpar). assert (p <> root_path) as Hpr.
  { intros ->. destruct (under_components _ _ Hp Hr Hnr Hu) as (v & rest & Hv & Hc & _ & E0). symmetry in E0. apply join_root in E0; [by destruct v|done]. }
  specialize (Hpar Hpr). destruct (decide (parent_path p = r)) as [<-|Hpne]; [done|].
  apply present_directory in Hpar as (e' & He' & _). eapply (IH (length (parent_path p))); [by apply parent_shorter|done|exact He'|by apply parent_under|done].
Qed.
Lemma under_lies p r : r <> root_path -> under p r = true -> p <> r -> lies_under (directory_prefix r) r p = true.
Proof.
  intros Hr Hu Hne. unfold lies_under. rewrite (bool_decide_false (p = r)) by done. rewrite under_path_under, under_prefix in Hu by done.
  rewrite bool_decide_false in Hu by done. cbn in Hu. by rewrite Hu.
Qed.
Lemma childless E r p e : sorted_recs E -> has_children E r = false -> r <> root_path -> alookup p E = Some e -> under p r = true -> p = r.
Proof.
  intros Hs Hc Hr He Hu. destruct (decide (p = r)); [done|]. exfalso. apply not_true_iff_false in Hc. apply Hc. apply existsb_exists. exists (p, e).
  split; [by apply list_elem_of_In, alookup_Some_elem|]. by apply under_lies.
Qed.
Lemma child_under p q : normal p -> normal q -> q <> root_path -> p <> root_path -> parent_path p = q -> under p q = true.
Proof. intros Hp Hq Hqr Hpr Ep. apply under_parent; try done. rewrite Ep. apply under_refl. Qed.

(** ** Renames *)

Section moving.
Context `{Sha256} (x y : Bytes) (Hx : normal x) (Hy : normal y) (Hxr : x <> root_path) (Hyr : y <> root_path).

Lemma moves_lookup (f : Bytes -> Bytes) (g : Bytes -> FsEntry -> FsEntry) (items m : NamespaceEntries) :
  sorted_recs items -> (forall a b, a ∈ items.*1 -> b ∈ items.*1 -> f a = f b -> a = b) -> (forall a, a ∈ items.*1 -> f a ∉ items.*1) ->
  let m' := foldl (fun m item => map_set (f item.1) (g item.1 item.2) (map_erase item.1 m)) m items in
  (forall k e, alookup k items = Some e -> alookup (f k) m' = Some (g k e)) /\
  (forall p, p ∈ items.*1 -> alookup p m' = None) /\
  (forall p, p ∉ items.*1 -> (forall k, k ∈ items.*1 -> f k <> p) -> alookup p m' = alookup p m).
Proof.
  revert m. induction items as [|[k0 e0] items IH]; intros m Hs Hinj Hout; cbn [foldl fst snd].
  { split_and!; [done|by intros p ?%not_elem_of_nil|done]. }
  apply sorted_recs_cons in Hs as [Hall Hs]. rewrite !fmap_cons in *. cbn [fst] in *.
  assert (k0 ∉ items.*1) as Hk0. { intros (r & -> & Hr)%list_elem_of_fmap. rewrite Forall_forall in Hall. by apply (key_lt_irrefl r.1), Hall. }
  destruct (IH (map_set (f k0) (g k0 e0) (map_erase k0 m)) Hs) as (Ha & Hb & Hc).
  { intros a b Ha Hb. apply Hinj; by right. }
  { intros a Ha Hin. apply (Hout a); by right. }
  assert (f k0 ∉ items.*1) as Hf0 by (intros Hin; apply (Hout k0); [by left|by right]).
  assert (forall k, k ∈ items.*1 -> f k <> f k0) as Hfk. { intros k Hk Ef. apply Hk0. by rewrite <- (Hinj k k0 ltac:(by right) ltac:(by left) Ef). }
  split_and!.
  - intros k e Hk. rewrite alookup_cons in Hk. destruct (decide (k = k0)) as [->|Hne]; [|by apply Ha]. injection Hk as <-.
    rewrite Hc by done. by rewrite map_set_lookup, decide_True.
  - intros p [->|Hp]%elem_of_cons; [|by apply Hb]. rewrite Hc.
    + rewrite map_set_lookup, decide_False, map_erase_lookup, decide_True; [done|done|]. intros Ef. apply (Hout k0); [by left|]. rewrite <- Ef. by left.
    + done.
    + intros k Hk Ef. apply (Hout k); [by right|]. rewrite Ef. by left.
  - intros p Hp Hnt. apply not_elem_of_cons in Hp as [Hpk Hp]. rewrite Hc; [|done|intros k Hk; apply Hnt; by right].
    rewrite map_set_lookup, decide_False, map_erase_lookup, decide_False; [done|done|]. intros ->. apply (Hnt k0); [by left|done].
Qed.

(** Where nothing is below the target, a rename moves what is below the source. *)
Lemma move_all_lookup E p : sorted_recs E -> Forall normal E.*1 -> (forall q, q ∈ E.*1 -> under q y = false) -> normal p ->
  alookup p (move_all x y E) =
    if under p y then option_map (with_identity (rebase y x p)) (if under (rebase y x p) x then alookup (rebase y x p) E else None)
    else if under p x then None else alookup p E.
Proof using Hx Hy Hxr Hyr.
  intros Hs Hn Hfree Hp. unfold move_all. set (items := keys_in (fun p => under p x) E).
  assert (forall k, k ∈ items.*1 <-> under k x = true /\ k ∈ E.*1) as Hit.
  { intros k. rewrite <- !alookup_is_key. unfold items. rewrite keys_in_lookup. destruct (under k x); [tauto|]. split; [by intros (? & ?)|by intros [? _]]. }
  rewrite Forall_forall in Hn.
  destruct (moves_lookup (rebase x y) with_identity items E) as (Ha & Hb & Hc).
  - by apply keys_in_sorted.
  - intros a b [Ua Ia]%Hit [Ub Ib]%Hit Ef. destruct (rebase_normal x y Hx Hy Hxr Hyr a (Hn a Ia) Ua) as (_ & _ & <-).
    rewrite Ef. by apply rebase_normal; auto.
  - intros a [Ua Ia]%Hit [_ Hin]%Hit. destruct (rebase_normal x y Hx Hy Hxr Hyr a (Hn a Ia) Ua) as (_ & Hu & _). specialize (Hfree _ Hin). congruence.
  - destruct (under p y) eqn:Upy.
    + destruct (rebase_normal y x Hy Hx Hyr Hxr p Hp Upy) as (Hnr & Hur & Err). rewrite Hur. destruct (alookup (rebase y x p) E) as [e|] eqn:Ee; cbn [option_map].
      * rewrite <- Err at 1. apply Ha. unfold items. by rewrite keys_in_lookup, Hur.
      * rewrite Hc.
        -- destruct (alookup p E) as [e|] eqn:Ep; [|done]. rewrite Hfree in Upy; [done|]. apply alookup_is_key. eauto.
        -- intros [_ Hin]%Hit. rewrite Hfree in Upy by done. done.
        -- intros k [Uk Ik]%Hit Ek. destruct (rebase_normal x y Hx Hy Hxr Hyr k (Hn k Ik) Uk) as (_ & _ & Ekk). rewrite Ek in Ekk. rewrite Ekk in Ee.
           apply alookup_is_key in Ik as (e & Ik). congruence.
    + assert (forall k, k ∈ items.*1 -> rebase x y k <> p) as Hnt.
      { intros k [Uk Ik]%Hit <-. destruct (rebase_normal x y Hx Hy Hxr Hyr k (Hn k Ik) Uk) as (_ & Hu & _). congruence. }
      destruct (under p x) eqn:Upx.
      * destruct (decide (p ∈ items.*1)) as [Hin|Hin]; [by apply Hb|]. rewrite Hc by done. destruct (alookup p E) as [e|] eqn:Ep; [|done].
        exfalso. apply Hin, Hit. split; [done|]. apply alookup_is_key. eauto.
      * apply Hc; [|done]. intros [Hu _]%Hit. congruence.
Qed.
Lemma move_all_sorted E : sorted_recs E -> sorted_recs (move_all x y E).
Proof using.
  intros Hs. unfold move_all. generalize (keys_in (fun p => under p x) E). intros l. revert E Hs.
  induction l as [|item l IH]; intros m Hm; [done|]. cbn [foldl]. by apply IH, map_set_sorted, map_erase_sorted.
Qed.
Lemma moves_keys (f : Bytes -> Bytes) (g : Bytes -> FsEntry -> FsEntry) (items m : NamespaceEntries) p :
  p ∈ (foldl (fun m item => map_set (f item.1) (g item.1 item.2) (map_erase item.1 m)) m items).*1 -> p ∈ m.*1 \/ exists k, k ∈ items.*1 /\ p = f k.
Proof using.
  revert m. induction items as [|[k e] items IH]; intros m Hp; [by left|]. cbn [foldl fst snd] in Hp. rewrite fmap_cons. cbn [fst].
  destruct (IH _ Hp) as [Hin|(k' & Hk & ->)]; [|right; exists k'; split; [by right|done]].
  apply alookup_is_key in Hin as (v & Hv). rewrite map_set_lookup in Hv. case_decide as Ed; [right; exists k; split; [by left|done]|].
  rewrite map_erase_lookup in Hv. case_decide; [done|]. left. apply alookup_is_key. eauto.
Qed.
Lemma move_all_normal E : Forall normal E.*1 -> Forall normal (move_all x y E).*1.
Proof using Hx Hy Hxr Hyr.
  rewrite !Forall_forall. intros Hn p Hp. unfold move_all in Hp. apply moves_keys in Hp as [Hp|(k & Hk & ->)]; [by apply Hn|].
  apply alookup_is_key in Hk as (e & Hk). rewrite keys_in_lookup in Hk. destruct (under k x) eqn:Ek; [|done].
  apply (rebase_normal x y Hx Hy Hxr Hyr); [|done]. apply Hn, alookup_is_key. eauto.
Qed.
Lemma identity_type p e : fe_type (with_identity p e) = fe_type e.
Proof. unfold with_identity. by case_bool_decide. Qed.
End moving.

Section mutations.
Context `{Sha256}.

(** Nothing is below the target of a rename once what it replaces is gone. *)
Lemma target_free E noreplace y src dst retired : tree_wf E -> normal y -> y <> root_path -> alookup y E = Some dst ->
  replaceable E noreplace y src (fe_type dst) (fe_extents dst) = Ok retired ->
  forall q e, alookup q E = Some e -> under q y = true -> q = y.
Proof.
  intros Ht Hy Hyr Ey Er q e Hq Hu. unfold replaceable in Er. destruct noreplace; [done|]. destruct (bool_decide (fe_type dst = directory)) eqn:Ed.
  - destruct (bool_decide (src = directory)); cbn [andb negb] in Er; [|done]. destruct (has_children E y) eqn:Ec; [done|].
    by eapply childless; [apply Ht|..].
  - destruct (decide (q = y)); [done|]. exfalso. pose proof (ancestor_there E y q e Ht Hy Hyr Hq Hu ltac:(done)) as Hd. rewrite Ey in Hd. cbn in Hd. congruence.
Qed.

(** What a rename leaves, path by path. *)
Definition moved_to E (x y : Bytes) (E' : NamespaceEntries) : Prop :=
  forall p, normal p -> alookup p E' =
    if under p y then option_map (with_identity (rebase y x p)) (alookup (rebase y x p) E)
    else if under p x then None else alookup p E.

Lemma move_moves E op out : tree_wf E -> normal (fm_from op) -> normal (fm_to op) -> fm_from op <> fm_to op -> move E op = Ok out ->
  let x := fm_from op in let y := fm_to op in
  x <> root_path /\ y <> root_path /\ under y x = false /\ (exists src, alookup x E = Some src) /\ is_directory (alookup (parent_path y) E) = true /\
  sorted_recs (oc_entries out) /\ Forall normal (oc_entries out).*1 /\ moved_to E x y (oc_entries out).
Proof.
  intros Ht Hx Hy Hne Em x y. unfold move in Em. fold x y in Em, Hx, Hy, Hne. destruct (bool_decide (x = root_path)) eqn:Exr; cbn [orb] in Em; [done|].
  destruct (bool_decide (y = root_path)) eqn:Eyr; [done|]. apply bool_decide_eq_false in Exr, Eyr. rewrite bool_decide_false in Em by done.
  destruct (under y x) eqn:Eu; [done|]. destruct (alookup x E) as [src|] eqn:Ex; [|done]. unfold parent_directory in Em.
  destruct (alookup (parent_path y) E) as [pe|] eqn:Ep; [|done]. destruct (bool_decide (fe_type pe = directory)) eqn:Epd; [|done]. cbn [mbind result_bind] in Em.
  pose proof (tw_sorted _ Ht) as Hs. pose proof (tw_normal _ Ht) as Hn.
  assert (exists E1, sorted_recs E1 /\ (forall q, alookup q E1 = if decide (q = y) then None else alookup q E) /\ (forall q, q ∈ E1.*1 -> under q y = false) /\
    oc_entries out = move_all x y E1) as (E1 & Hs1 & Hl1 & Hf1 & Eo).
  { destruct (alookup y E) as [dst|] eqn:Ey.
    - destruct (replaceable E (fm_noreplace op) y (fe_type src) (fe_type dst) (fe_extents dst)) as [retired|] eqn:Er; [|done]. cbn [mbind result_bind] in Em.
      injection Em as <-. exists (map_erase y E). split; [by apply map_erase_sorted|]. split; [intros q; apply map_erase_lookup|]. split; [|done].
      intros q (e & He)%alookup_is_key. rewrite map_erase_lookup in He. destruct (decide (q = y)); [done|]. destruct (under q y) eqn:Uq; [|done].
      exfalso. by pose proof (target_free E _ y _ dst _ Ht Hy Eyr Ey Er q e He Uq).
    - injection Em as <-. exists E. split; [done|]. split; [intros q; destruct (decide (q = y)) as [Eqy|]; [by rewrite Eqy|done]|]. split; [|done].
      intros q (e & He)%alookup_is_key. destruct (under q y) eqn:Uq; [|done]. exfalso. assert (q <> y) as Hqy by (by intros ->; rewrite Ey in He).
      pose proof (ancestor_there E y q e Ht Hy Eyr He Uq Hqy) as Hd. by rewrite Ey in Hd. }
  assert (Forall normal E1.*1) as Hn1.
  { rewrite Forall_forall in Hn. apply Forall_forall. intros q (e & He)%alookup_is_key. rewrite Hl1 in He. destruct (decide (q = y)); [done|]. apply Hn, alookup_is_key. eauto. }
  split; [done|]. split; [done|]. split; [done|]. split; [by exists src|]. split; [done|]. split; [by rewrite Eo; apply move_all_sorted|].
  split; [rewrite Eo; by apply move_all_normal|]. intros p Hp. rewrite Eo, (move_all_lookup x y Hx Hy Exr Eyr E1 p Hs1 Hn1 Hf1 Hp).
  destruct (under p y) eqn:Upy.
  - destruct (rebase_normal y x Hy Hx Eyr Exr p Hp Upy) as (_ & Hur & _). rewrite Hur, Hl1. destruct (decide (rebase y x p = y)) as [Er|]; [|done]. rewrite Er in Hur. congruence.
  - destruct (under p x); [done|]. rewrite Hl1. destruct (decide (p = y)) as [Er|]; [|done]. by rewrite Er, under_refl in Upy.
Qed.

(** The new names are not too long to encode. *)
Definition names_fit E (op : FilesystemNamespaceMutation) : Prop :=
  key_ok (fm_from op) /\ (fm_kind op = kind_rename -> forall p, is_key p E = true -> under p (fm_from op) = true -> key_ok (rebase (fm_from op) (fm_to op) p)).

Lemma set_new_tree E q e : tree_wf E -> normal q -> key_ok q -> alookup q E = None -> is_directory (alookup (parent_path q) E) = true -> tree_wf (map_set q e E).
Proof.
  intros Ht Hq Hk Hnew Hpar. assert (q <> root_path) as Hqr. { intros ->. pose proof (tw_root _ Ht) as Hr. by rewrite Hnew in Hr. }
  assert (forall p, is_directory (alookup p E) = true -> is_directory (alookup p (map_set q e E)) = true) as Hmono.
  { intros p Hp. rewrite map_set_lookup. case_decide; [|done]. subst. by rewrite Hnew in Hp. }
  apply grows_tree; [by apply map_set_sorted, Ht|by apply Hmono, Ht|]. intros p f Hp. rewrite map_set_lookup in Hp. case_decide as Ed.
  - subst p. split_and!; [done|done|]. intros _. by apply Hmono.
  - destruct (tree_grows E Ht p f Hp) as (H1 & H2 & H3). split_and!; [done|done|]. intros Hpr. by apply Hmono, H3.
Qed.
Lemma set_same_tree E q e e' : tree_wf E -> alookup q E = Some e -> fe_type e' = fe_type e -> tree_wf (map_set q e' E).
Proof.
  intros Ht He Ety. assert (forall p, is_directory (alookup p (map_set q e' E)) = is_directory (alookup p E)) as Hsame.
  { intros p. rewrite map_set_lookup. case_decide; [|done]. subst. rewrite He. cbn. by rewrite Ety. }
  apply grows_tree; [by apply map_set_sorted, Ht|rewrite Hsame; apply Ht|]. intros p f Hp. rewrite Hsame. rewrite map_set_lookup in Hp.
  case_decide; [subst; by apply (tree_grows E Ht q e)|by apply (tree_grows E Ht p f)].
Qed.
Lemma erase_tree E q : tree_wf E -> q <> root_path -> (forall p e, alookup p E = Some e -> p <> root_path -> parent_path p <> q) -> tree_wf (map_erase q E).
Proof.
  intros Ht Hqr Hno. assert (forall p, p <> q -> alookup p (map_erase q E) = alookup p E) as Hsame by (intros p Hp; by rewrite map_erase_lookup, decide_False).
  apply grows_tree; [by apply map_erase_sorted, Ht|rewrite Hsame by done; apply Ht|]. intros p f Hp. rewrite map_erase_lookup in Hp. case_decide; [done|].
  destruct (tree_grows E Ht p f Hp) as (H1 & H2 & H3). split_and!; [done|done|]. intros Hpr. rewrite Hsame by (by eapply Hno). by apply H3.
Qed.
Lemma move_tree E op out : tree_wf E -> normal (fm_from op) -> normal (fm_to op) -> fm_kind op = kind_rename -> names_fit E op -> move E op = Ok out -> tree_wf (oc_entries out).
Proof.
  intros Ht Hx Hy Ek [_ Hfit] Em. destruct (decide (fm_from op = fm_to op)) as [Exy|Hne].
  { unfold move in Em. destruct (_ || _); [done|]. rewrite bool_decide_true in Em by done. by injection Em as <-. }
  destruct (move_moves E op out Ht Hx Hy Hne Em) as (Hxr & Hyr & Hu & (src & Ex) & Hpar & Hs & Hn & Hl). specialize (Hfit Ek).
  set (x := fm_from op) in *. set (y := fm_to op) in *. rewrite Forall_forall in Hn.
  assert (forall p, under p y = false -> under p x = false -> normal p -> alookup p (oc_entries out) = alookup p E) as Hkeep.
  { intros p Hpy Hpx Hp. by rewrite Hl, Hpy, Hpx. }
  assert (forall r, normal r -> r <> root_path -> under root_path r = false) as Hroot.
  { intros r Hr Hrr. destruct (under root_path r) eqn:Eur; [|done]. destruct (under_components _ _ normal_root Hr Hrr Eur) as (v & rest & Hv & Hc & _ & E0).
    symmetry in E0. apply join_root in E0; [by destruct v|done]. }
  apply grows_tree; [done| |].
  { rewrite Hkeep by auto using normal_root. apply Ht. }
  intros p f Hp. assert (normal p) as Hnp by (apply Hn, alookup_is_key; eauto). rewrite (Hl p Hnp) in Hp. destruct (under p y) eqn:Upy.
  - destruct (rebase_normal y x Hy Hx Hyr Hxr p Hnp Upy) as (Hnr & Hur & Err). set (p0 := rebase y x p) in *.
    destruct (alookup p0 E) as [e0|] eqn:E0; [|done]. destruct (tree_grows E Ht p0 e0 E0) as (_ & _ & Hpar0). split; [done|]. split.
    { rewrite <- Err. apply Hfit; [|done]. unfold is_key. by rewrite E0. }
    intros Hpr. destruct (decide (p0 = x)) as [E1|Hp0].
    + assert (p = y) as -> by (by rewrite <- Err, E1, rebase_top). rewrite Hkeep; [done| | |by apply parent_normal].
      * destruct (under (parent_path y) y) eqn:Eup; [|done]. exfalso. destruct (under_components _ _ (parent_normal y Hy) Hy Hyr Eup) as (v & rest & _ & _ & Ey & Epp).
        pose proof (parent_shorter y Hy Hyr) as Hlt. rewrite Epp, Ey in Hlt. destruct v as [|a v]; [by rewrite Ey in Hyr|]. cbn in Hlt. rewrite flat_map_app, !length_app in Hlt. lia.
      * destruct (under (parent_path y) x) eqn:Eup; [|done]. rewrite (under_parent y x) in Hu; done.
    + assert (p0 <> root_path) as Hp0r by (intros E1; rewrite E1, Hroot in Hur; done).
      rewrite <- Err, (rebase_parent x y Hx Hy Hxr Hyr p0 Hnr Hur Hp0).
      pose proof (parent_under p0 x Hnr Hx Hxr Hur Hp0) as Hup. pose proof (parent_normal p0 Hnr) as Hnpp.
      destruct (rebase_normal x y Hx Hy Hxr Hyr (parent_path p0) Hnpp Hup) as (Hn1 & Hu1 & Er1). rewrite (Hl _ Hn1), Hu1, Er1.
      specialize (Hpar0 Hp0r). apply present_directory in Hpar0 as (pe & -> & Epe). cbn. rewrite identity_type. by apply bool_decide_true.
  - destruct (under p x) eqn:Upx; [done|]. destruct (tree_grows E Ht p f Hp) as (_ & Hk & Hpar0). split; [done|]. split; [done|]. intros Hpr. rewrite Hkeep; [by apply Hpar0| | |by apply parent_normal].
    + destruct (under (parent_path p) y) eqn:Eup; [|done]. rewrite (under_parent p y) in Upy; done.
    + destruct (under (parent_path p) x) eqn:Eup; [|done]. rewrite (under_parent p x) in Upx; done.
Qed.

(** Every mutation of a tree leaves a tree. *)
Lemma mutate_tree E now op out : tree_wf E -> named op -> names_fit E op -> mutate now op E = Ok out -> tree_wf (oc_entries out).
Proof.
  intros Ht [Hp Hto] Hfit Em. unfold mutate in Em.
  assert (forall type, make E type now op = Ok out -> tree_wf (oc_entries out)) as Hmake.
  { intros type E1. unfold make, parent_directory in E1. destruct (alookup (parent_path (fm_from op)) E) as [pe|] eqn:Ep; [|done].
    destruct (bool_decide (fe_type pe = directory)) eqn:Ed; [|done]. cbn [mbind result_bind] in E1. destruct (is_key (fm_from op) E) eqn:Ek; [done|]. injection E1 as <-.
    apply set_new_tree; [done|done|apply Hfit| |by rewrite Ep]. unfold is_key in Ek. by destruct (alookup (fm_from op) E). }
  assert (forall f, (forall e, fe_type (f e) = fe_type e) -> change E (fm_from op) f = Ok out -> tree_wf (oc_entries out)) as Hchange.
  { intros f Hf E1. unfold change in E1. destruct (alookup (fm_from op) E) as [e|] eqn:Ee; [|done]. injection E1 as <-. by eapply set_same_tree. }
  destruct (fm_kind op) eqn:Ek.
  - eapply Hmake. exact Em.
  - eapply Hmake. exact Em.
  - unfold remove_dir in Em. case_bool_decide as Er; [done|]. destruct (alookup (fm_from op) E) as [e|] eqn:Ee; [|done].
    destruct (negb (bool_decide (fe_type e = directory))); [done|]. destruct (has_children E (fm_from op)) eqn:Ec; [done|]. injection Em as <-.
    apply erase_tree; [done|done|]. intros p f Hpf Hpr Epar. destruct (tree_grows E Ht p f Hpf) as (Hn & _ & _).
    pose proof (child_under p (fm_from op) Hn Hp Er Hpr Epar) as Hu. apply (childless E (fm_from op) p f) in Hu; [|apply Ht|done..]. subst p.
    by apply (parent_not_self (fm_from op)).
  - unfold remove_file in Em. destruct (alookup (fm_from op) E) as [e|] eqn:Ee; [|done]. destruct (bool_decide (fe_type e = file)) eqn:Et; [|done]. injection Em as <-.
    apply bool_decide_eq_true in Et. apply erase_tree; [done| |].
    + intros Er. pose proof (tw_root _ Ht) as Hr. rewrite <- Er, Ee in Hr. cbn in Hr. rewrite Et in Hr. done.
    + intros p f Hpf Hpr Epar. destruct (tree_grows E Ht p f Hpf) as (_ & _ & Hd). specialize (Hd Hpr). rewrite Epar, Ee in Hd. cbn in Hd. by rewrite Et in Hd.
  - by apply (move_tree E op out); auto.
  - eapply Hchange; [|exact Em]. done.
  - eapply Hchange; [|exact Em]. done.
  - eapply Hchange; [|exact Em]. done.
Qed.
End mutations.
End tree.
