(* ===== verification/FilesystemBatches.v ===== *)
(** * Batches of mutations

    What a batch and a group of batches mean on the map of entries, that the
    code does it through a working set, and that the delta it leaves carries
    exactly the change. *)

From S2P Require Import Prelude Sorts Maps Orders Codec TorrentRequest Journal Paths Metadata MetadataCodec MetadataRoundtrip MetadataDelta MetadataMerge MetadataMergeProofs NamespaceTree NamespaceView NamespaceNodes NamespaceReads NamespaceViewProofs NamespaceScan NamespaceForms NamespaceWorking Filesystem FilesystemPaths FilesystemProofs FilesystemTree.

(** ** Meaning *)

Section meaning.
Context `{Sha256}.
Implicit Types (E : NamespaceEntries).

(** A namespace and the tombstones that go with its change. *)
Record Change : Type := mkChange { cg_entries : NamespaceEntries; cg_pending : list PendingTombstones }.

Fixpoint run_batch (atomic : bool) (clock : nat -> Z) (ops : list FilesystemNamespaceMutation) (i : nat) (made : list (option FsEntry)) (c : Change)
    : result (BatchResult * Change) :=
  match ops with
  | [] => Ok (mkResult i made None, c)
  | op :: ops =>
      match mutate (clock i) op (cg_entries c) with
      | Ok out => run_batch atomic clock ops (S i) (<[i := oc_made out]> made) (mkChange (oc_entries out) (retire_objects (cg_pending c) (oc_retired out)))
      | Throw (FsError code what) => if (i =? 0)%nat || atomic then Throw (FsError code what) else Ok (mkResult i made (Some (code, what)), c)
      | Throw x => Throw x
      end
  end.
Definition batch_means (batch : QueuedNamespaceBatch) (c : Change) : result (BatchResult * Change) :=
  run_batch (qb_atomic batch) (qb_clock batch) (qb_operations batch) 0 (replicate (length (qb_operations batch)) None) c.
(** A batch that fails leaves what was there. *)
Definition group_means (group : list QueuedNamespaceBatch) (done : list (exn + BatchResult)) (c : Change) : list (exn + BatchResult) * Change :=
  foldl (fun '(done, c) batch =>
    match batch_means batch c with Ok (r, c') => (done ++ [inr r], c') | Throw x => (done ++ [inl x], c) end) (done, c) group.

Lemma group_means_cons b group done c : group_means (b :: group) done c =
  match batch_means b c with Ok (r, c') => group_means group (done ++ [inr r]) c' | Throw x => group_means group (done ++ [inl x]) c end.
Proof. unfold group_means. cbn [foldl]. by destruct (batch_means b c) as [[r c']|x]. Qed.
Lemma means_length group done c : length (group_means group done c).1 = (length done + length group)%nat.
Proof.
  revert done c. induction group as [|b group IH]; intros done c; [cbn; lia|]. rewrite group_means_cons. cbn [length].
  destruct (batch_means b c) as [[r c']|x]; rewrite IH, length_app; cbn; lia.
Qed.

(** The only errors of a mutation are the file system's. *)
Lemma mutate_errors now op E x : mutate now op E = Throw x -> exists code what, x = FsError code what.
Proof.
  unfold mutate, make, parent_directory, remove_dir, remove_file, move, parent_directory, replaceable, change, fail. intros Em.
  destruct (fm_kind op); repeat (case_match; cbn [mbind result_bind] in Em; simplify_eq); eauto.
Qed.
Lemma batch_errors atomic clock ops i made c x : run_batch atomic clock ops i made c = Throw x -> exists code what, x = FsError code what.
Proof.
  revert i made c. induction ops as [|op ops IH]; intros i made c E; [done|]. cbn [run_batch] in E.
  destruct (mutate (clock i) op (cg_entries c)) as [out|y] eqn:Em; [by apply IH in E|]. destruct (mutate_errors _ _ _ _ Em) as (code & what & ->).
  destruct (_ || _); [|done]. injection E as <-. eauto.
Qed.

(** The mutations of a list, each of which must succeed. *)
Fixpoint mutate_all (clock : nat -> Z) (ops : list FilesystemNamespaceMutation) (i : nat) E : result NamespaceEntries :=
  match ops with
  | [] => Ok E
  | op :: ops => match mutate (clock i) op E with Ok out => mutate_all clock ops (S i) (oc_entries out) | Throw x => Throw x end
  end.
(** A batch that is not refused applies the largest prefix of its operations
    that can apply, and reports the operation after it. *)
Lemma batch_prefix atomic clock ops i made c r c' : run_batch atomic clock ops i made c = Ok (r, c') ->
  exists n, br_applied r = (i + n)%nat /\ mutate_all clock (take n ops) i (cg_entries c) = Ok (cg_entries c') /\
    match br_failure r with
    | None => n = length ops
    | Some (code, what) => exists op, ops !! n = Some op /\ mutate (clock (i + n)%nat) op (cg_entries c') = Throw (FsError code what) /\ atomic = false /\ (i + n)%nat <> O
    end.
Proof.
  revert i made c. induction ops as [|op ops IH]; intros i made c E; cbn [run_batch] in E.
  { injection E as <- <-. exists O. cbn. split_and!; [lia|done|done]. }
  destruct (mutate (clock i) op (cg_entries c)) as [out|x] eqn:Em.
  - apply IH in E as (n & En & Ea & Hf). exists (S n). split; [lia|]. split; [cbn; by rewrite Em|]. destruct (br_failure r) as [[code what]|]; [|cbn; lia].
    destruct Hf as (op' & Ho & Em' & Hat & Hne). exists op'. replace (i + S n)%nat with (S i + n)%nat by lia. by split_and!.
  - destruct (mutate_errors _ _ _ _ Em) as (code & what & ->). destruct (i =? 0)%nat eqn:Ei; [done|]. destruct atomic; [done|]. cbn [orb] in E. injection E as <- <-.
    exists O. rewrite Nat.add_0_r. cbn. split_and!; [lia|done|]. apply Nat.eqb_neq in Ei. exists op. by split_and!.
Qed.
End meaning.

(** ** Room for names *)

Section room.
Context `{Sha256}.
Implicit Types (E : NamespaceEntries).

Definition names_length (op : FilesystemNamespaceMutation) : Z := Z.of_nat (length (fm_from op)) + Z.of_nat (length (fm_to op)).
Definition ops_length (ops : list FilesystemNamespaceMutation) : Z := foldr (fun op n => names_length op + n) 0 ops.
Lemma ops_length_pos ops : 0 <= ops_length ops.
Proof. induction ops as [|op ops IH]; cbn [ops_length foldr]; [done|]. fold (ops_length ops). unfold names_length. lia. Qed.
(** Every name of the namespace has room to grow by [n] bytes. *)
Definition room E (n : Z) : Prop := forall p, p ∈ E.*1 -> Z.of_nat (length p) + n <= u32_max.
Definition batch_length (b : QueuedNamespaceBatch) : Z := ops_length (qb_operations b).
Definition group_length (group : list QueuedNamespaceBatch) : Z := foldr (fun b n => batch_length b + n) 0 group.
Lemma group_length_pos group : 0 <= group_length group.
Proof.
  induction group as [|b group IH]; cbn [group_length foldr]; [done|]. fold (group_length group). unfold batch_length. pose proof (ops_length_pos (qb_operations b)). lia.
Qed.

Lemma room_fits E op n : tree_wf E -> 0 <= n -> room E (names_length op + n) -> names_fit E op.
Proof.
  intros Ht Hn Hr. unfold names_length in Hr. split.
  - destruct (present_directory _ (tw_root _ Ht)) as (e & He & _). specialize (Hr root_path ltac:(apply alookup_is_key; eauto)). unfold key_ok. lia.
  - intros _ p Hp Hu. unfold is_key in Hp. destruct (alookup p E) as [e|] eqn:Ee; [|done]. specialize (Hr p ltac:(apply alookup_is_key; eauto)).
    unfold key_ok, rebase. rewrite length_app, length_drop. lia.
Qed.
Lemma map_set_room E q e n : Z.of_nat (length q) + n <= u32_max -> room E n -> room (map_set q e E) n.
Proof. intros Hq Hr p (r & -> & [->|Hin]%map_set_keys)%list_elem_of_fmap; [done|]. apply Hr, list_elem_of_fmap. eauto. Qed.
Lemma map_erase_room E q n : room E n -> room (map_erase q E) n.
Proof. intros Hr p (r & -> & [_ Hin]%map_erase_elem)%list_elem_of_fmap. apply Hr, list_elem_of_fmap. eauto. Qed.
Lemma room_weaken E n m : m <= n -> room E n -> room E m.
Proof. intros Hm Hr p Hp. specialize (Hr p Hp). lia. Qed.
Lemma move_all_room x y E n : room E (Z.of_nat (length y) + n) -> room (move_all x y E) n.
Proof.
  intros Hr p Hp. unfold move_all in Hp. apply moves_keys in Hp as [Hp|(k & Hk & ->)]; [specialize (Hr p Hp); lia|].
  apply alookup_is_key in Hk as (e & Hk). rewrite keys_in_lookup in Hk. destruct (under k x); [|done]. specialize (Hr k ltac:(apply alookup_is_key; eauto)).
  unfold rebase. rewrite length_app, length_drop. lia.
Qed.
Lemma mutate_room E now op out n : tree_wf E -> 0 <= n -> room E (names_length op + n) -> mutate now op E = Ok out -> room (oc_entries out) n.
Proof.
  intros Ht Hn Hr Em. assert (Z.of_nat (length (fm_from op)) + n <= u32_max) as Hq.
  { destruct (present_directory _ (tw_root _ Ht)) as (e & He & _). specialize (Hr root_path ltac:(apply alookup_is_key; eauto)). unfold names_length in Hr. lia. }
  assert (room E n) as Hrn by (eapply room_weaken; [|exact Hr]; unfold names_length; lia).
  assert (room E (Z.of_nat (length (fm_to op)) + n)) as Hry by (eapply room_weaken; [|exact Hr]; unfold names_length; lia).
  unfold mutate, make, parent_directory, remove_dir, remove_file, move, parent_directory, change, fail in Em.
  destruct (fm_kind op); repeat (case_match; cbn [mbind result_bind] in Em; simplify_eq); cbn [oc_entries];
    auto using map_set_room, map_erase_room, move_all_room.
  destruct (replaceable _ _ _ _ _ _); cbn [mbind result_bind] in Em; simplify_eq. cbn [oc_entries]. auto using map_erase_room, move_all_room.
Qed.
End room.

(** ** The paths of the delta *)

Section paths.
Context `{Sha256} {S : Type} `{NodeStore S} (s : S) (h fuel d leaves : nat) (Hfuel : (d + h < fuel)%nat).
Implicit Types (w : WorkingSet) (c : Change).

Definition clean w : Prop :=
  Forall normal (md_erase_entries (wk_delta w)) /\ (root_path ∉ md_erase_entries (wk_delta w)) /\ Forall normal (md_upsert_entries (wk_delta w)).*1.

Lemma put_clean p e w : normal p -> clean w -> clean (ws_put p e w).
Proof.
  intros Hp (He & Hr & Hu). unfold clean. cbn [ws_put wk_delta set_entry_edits md_erase_entries md_upsert_entries]. split_and!.
  - destruct (ws_erased w p); [|done]. apply Forall_forall. intros q [_ Hq]%list_elem_of_filter. rewrite Forall_forall in He. by apply He.
  - destruct (ws_erased w p); [|done]. by intros [_ Hq]%list_elem_of_filter.
  - apply Forall_forall. intros q (r & -> & [->|Hin]%map_set_keys)%list_elem_of_fmap; [done|]. rewrite Forall_forall in Hu. apply Hu, list_elem_of_fmap. eauto.
Qed.
Lemma erase_clean p w : normal p -> p <> root_path -> clean w -> clean (ws_erase p w).
Proof.
  intros Hp Hpr (He & Hr & Hu). unfold clean. cbn [ws_erase wk_delta set_entry_edits md_erase_entries md_upsert_entries]. split_and!.
  - destruct (ws_erased w p); [done|]. apply Forall_app. split; [done|]. by constructor.
  - destruct (ws_erased w p); [done|]. intros [Hin|E%list_elem_of_singleton]%elem_of_app; [done|]. by rewrite E in Hpr.
  - apply Forall_forall. intros q (r & -> & [_ Hin]%map_erase_elem)%list_elem_of_fmap. rewrite Forall_forall in Hu. apply Hu, list_elem_of_fmap. eauto.
Qed.
Lemma canonical_clean w : clean w -> clean (canonical_erases w).
Proof.
  intros (He & Hr & Hu). unfold clean. cbn [canonical_erases on_delta wk_delta set_entry_edits md_erase_entries md_upsert_entries]. split_and!; [| |done].
  - apply Forall_forall. intros q Hq. rewrite (proj2 (sort_unique_ok _)) in Hq. rewrite Forall_forall in He. by apply He.
  - by rewrite (proj2 (sort_unique_ok _)).
Qed.
Lemma moves_clean x y items w : normal x -> normal y -> x <> root_path -> y <> root_path ->
  Forall (fun item : Bytes * FsEntry => normal item.1 /\ under item.1 x = true) items -> clean w -> clean (foldl (move_entry x y) w items).
Proof.
  intros Hx Hy Hxr Hyr Hi. revert w. induction Hi as [|item items [Hn Hu] Hi IH]; intros w Hw; [done|]. cbn [foldl]. apply IH. unfold move_entry. apply put_clean.
  - by apply (rebase_normal x y).
  - apply erase_clean; [done| |done]. intros E. rewrite E in Hu. destruct (under_components _ _ normal_root Hx Hxr Hu) as (v & rest & Hv & Hc & _ & E0).
    symmetry in E0. apply join_root in E0; [by destruct v|done].
Qed.
Lemma subtree_items base E w x items : tree_wf E -> holds s h d leaves base E w -> normal x -> x <> root_path -> subtree (Some s) fuel w x = Ok items ->
  Forall (fun item : Bytes * FsEntry => normal item.1 /\ under item.1 x = true) items.
Proof.
  intros Ht Hw Hx Hxr Es. rewrite (subtree_ok s h fuel d leaves Hfuel base E) in Es by (done || by apply normal_nonempty). injection Es as <-.
  apply Forall_forall. intros [p e] Hin. apply elem_alookup_Some in Hin; [|by apply keys_in_sorted, Ht]. rewrite keys_in_lookup in Hin. cbn [fst].
  destruct (path_under p x) eqn:Eu; [|done]. split; [|done]. by apply (tree_grows E Ht p e).
Qed.

Lemma mutation_clean base E w now op : tree_wf E -> holds s h d leaves base E w -> named op -> clean w -> clean (apply_namespace_mutation (Some s) fuel leaves now op w).2.
Proof.
  intros Ht Hw [Hp Hto] Hc. unfold apply_namespace_mutation.
  assert (forall type, clean (make_entry (Some s) fuel type now op w).2) as Hmake.
  { intros type. unfold make_entry. destruct (_ ≫= _) as [[]|]; [done| |done]. by apply put_clean. }
  assert (forall f, clean (change_entry (Some s) fuel (fm_from op) f w).2) as Hchange.
  { intros f. unfold change_entry. destruct (ws_get (Some s) fuel w (fm_from op) true) as [[e|]|]; [|done|done]. by apply put_clean. }
  destruct (fm_kind op) eqn:Ek; auto.
  - unfold remove_directory. case_bool_decide as Er; [done|]. destruct (_ ≫= _) as [[]|]; [|done]. by apply erase_clean.
  - unfold unlink_entry. rewrite (ws_get_ok s h fuel d leaves Hfuel base E) by (done || by apply normal_nonempty).
    destruct (alookup (fm_from op) E) as [e|] eqn:Ee; [|done]. destruct (bool_decide (fe_type e = file)) eqn:Et; [|done]. cbn [negb snd].
    apply erase_clean; [done| |done]. intros Er. apply bool_decide_eq_true in Et. pose proof (tw_root _ Ht) as Hr. rewrite <- Er, Ee in Hr. cbn in Hr. by rewrite Et in Hr.
  - specialize (Hto eq_refl). unfold rename_entry. destruct (bool_decide (fm_from op = root_path)) eqn:Exr; cbn [orb]; [done|].
    destruct (bool_decide (fm_to op = root_path)) eqn:Eyr; [done|]. apply bool_decide_eq_false in Exr, Eyr. case_bool_decide as Exy; [done|].
    destruct (under (fm_to op) (fm_from op)); [done|]. destruct (_ ≫= _) as [target|]; [|done]. destruct target as [[retired type]|].
    + set (w1 := ws_erase (fm_to op) (if bool_decide (type = directory) then w else retire retired w)).
      assert (clean w1) as Hc1 by (apply erase_clean; [done..|]; by destruct (bool_decide (type = directory))).
      destruct (subtree (Some s) fuel w1 (fm_from op)) as [items|] eqn:Es; [|done]. apply canonical_clean, moves_clean; try done.
      assert (holds s h d leaves base (map_erase (fm_to op) E) w1) as Hw1.
      { apply ws_erase_ok. destruct (bool_decide (type = directory)); [done|]. by apply holds_retire. }
      rewrite (subtree_ok s h fuel d leaves Hfuel base (map_erase (fm_to op) E)) in Es by (done || by apply normal_nonempty). injection Es as <-.
      apply Forall_forall. intros [p e] Hin. apply elem_alookup_Some in Hin; [|by apply keys_in_sorted, map_erase_sorted, Ht]. rewrite keys_in_lookup, map_erase_lookup in Hin. cbn [fst].
      destruct (path_under p (fm_from op)) eqn:Eu; [|done]. split; [|done]. destruct (decide (p = fm_to op)); [done|]. by apply (tree_grows E Ht p e).
    + destruct (subtree (Some s) fuel w (fm_from op)) as [items|] eqn:Es; [|done]. apply canonical_clean, moves_clean; try done. by eapply subtree_items.
Qed.
End paths.

(** ** Simulation *)

Section simulation.
Context `{Sha256} {S : Type} `{NodeStore S} (s : S) (h fuel d leaves : nat) (Hfuel : (d + h < fuel)%nat).
Implicit Types (w : WorkingSet) (c : Change).

(** A working set over [base] that reads as the change says, a tree. *)
Definition at_change base c w : Prop :=
  holds s h d leaves base (cg_entries c) w /\ pending w = cg_pending c /\ tree_wf (cg_entries c) /\ clean w.

Lemma batch_does base atomic clock ops i made c w n : at_change base c w -> Forall named ops -> 0 <= n -> room (cg_entries c) (ops_length ops + n) ->
  match run_batch atomic clock ops i made c with
  | Ok (r, c') => exists w', batch_loop (Some s) fuel leaves atomic clock ops i made w = (Ok r, w') /\ at_change base c' w' /\ room (cg_entries c') n
  | Throw x => exists w', batch_loop (Some s) fuel leaves atomic clock ops i made w = (Throw x, w')
  end.
Proof.
  intros Hc Hn. revert i made c w n Hc. induction Hn as [|op ops Hop Hn IH]; intros i made c w n (Hw & Hp & Ht & Hcl) Hn0 Hr; cbn [run_batch batch_loop].
  { eexists. split; [done|]. by split. }
  pose proof (ops_length_pos ops) as Hpos. cbn [ops_length foldr] in Hr. fold (ops_length ops) in Hr. rewrite <- Z.add_assoc in Hr.
  pose proof (mutation_does s h fuel d leaves Hfuel base (cg_entries c) w (clock i) op Hw Hop) as Hd. unfold does in Hd.
  pose proof (mutation_clean s h fuel d leaves Hfuel base (cg_entries c) w (clock i) op Ht Hw Hop Hcl) as Hcl'.
  destruct (apply_namespace_mutation (Some s) fuel leaves (clock i) op w) as [got w'].
  destruct (mutate (clock i) op (cg_entries c)) as [out|x] eqn:Em.
  - destruct Hd as (Eg & Hw' & Hp'). cbn [fst snd] in *. rewrite Eg.
    apply IH; [|done|eapply (mutate_room (cg_entries c) (clock i) op _ (ops_length ops + n)); [done|lia|exact Hr|exact Em]]. split_and!; [done|cbn; by rewrite Hp', Hp| |done].
    cbn [cg_entries]. apply (mutate_tree (cg_entries c) (clock i) op); [done|done| |done]. apply (room_fits _ _ (ops_length ops + n)); [done|lia|done].
  - injection Hd as -> ->. destruct (mutate_errors _ _ _ _ Em) as (code & what & ->). destruct (_ || _); [by eexists|]. eexists. split; [done|].
    split; [by split_and!|]. eapply room_weaken; [|exact Hr]. unfold names_length. lia.
Qed.

Lemma reload_holds base E w : holds s h d leaves base E w -> holds s h d leaves base E (reload w).
Proof.
  intros [Hs Hu He Ho Ha Ht Hb]. assert (forall p, ws_erased (reload w) p = ws_erased w p) as Her.
  { intros p. unfold ws_erased. apply bool_decide_ext. cbn. by rewrite (proj2 (sort_unique_ok _)), He. }
  split; try done; [intros p; apply sort_unique_ok| |]; intros p; rewrite Her; [apply Ho|apply Ha].
Qed.
Lemma group_does base group done c w : at_change base c w -> Forall (fun b => Forall named (qb_operations b)) group -> room (cg_entries c) (group_length group) ->
  exists w', foldM (group_step (Some s) fuel leaves) done group w = (Ok (group_means group done c).1, w') /\ at_change base (group_means group done c).2 w'.
Proof.
  intros Hc Hn. revert done c w Hc. induction Hn as [|b group Hb Hn IH]; intros results c w Hc Hr; [by eexists|].
  unfold group_means. cbn [foldM foldl]. unfold mbind, st_bind, group_step at 1. cbn [group_length foldr] in Hr. fold (group_length group) in Hr.
  pose proof (group_length_pos group) as Hg.
  pose proof (batch_does base (qb_atomic b) (qb_clock b) (qb_operations b) 0 (replicate (length (qb_operations b)) None) c w _ Hc Hb Hg Hr) as Hd.
  unfold apply_namespace_batch_to. fold (batch_means b c) in Hd. destruct (batch_means b c) as [[r c']|x] eqn:Em.
  - destruct Hd as (w' & -> & Hc' & Hr'). by apply IH.
  - destruct Hd as (w' & ->). destruct (batch_errors _ _ _ _ _ _ _ Em) as (code & what & ->). apply IH.
    + destruct Hc as (Hw & Hp & Ht & Hcl). destruct w. split_and!; [by apply reload_holds|done..].
    + eapply room_weaken; [|exact Hr]. unfold batch_length. pose proof (ops_length_pos (qb_operations b)). lia.
Qed.
End simulation.
