(* ===== verification/FilesystemClaims.v ===== *)
(** * What the file system's namespace guarantees *)

From S2P Require Import Prelude Sorts Maps Orders Codec TorrentRequest Journal Paths Metadata MetadataCodec MetadataRoundtrip MetadataDelta MetadataMerge MetadataMergeProofs NamespaceTree NamespaceView NamespaceNodes NamespaceReads NamespaceViewProofs NamespaceScan NamespaceForms NamespaceWorking NamespaceClaims Filesystem FilesystemPaths FilesystemProofs FilesystemTree FilesystemBatches.

Section claims.
Context `{Sha256} {S : Type} `{NodeStore S} (s : S) (h fuel d leaves : nat).

(** The error of the group's first batch. *)
Definition first_error (results : list (exn + BatchResult)) : result (list (exn + BatchResult)) :=
  if committed results then Ok results else match results with inl x :: _ => Throw x | _ => Ok results end.

(** C3. A group of batches does to a namespace what its mutations mean. From
    any snapshot, its namespace a map or a tree in the store, with a delta
    that has no edits of entries yet, committing a group of batches through
    the working set gives every batch the result its mutations have on the
    map of entries, one after the other, a batch that fails leaving no trace.
    The working set then reads as that map, which is a tree of names again;
    the delta's erases and upserts applied to the namespace the group started
    from give exactly that map; and the objects of the files that are gone
    are in the delta's tombstones. If no batch holds, the first one's error
    is the answer. *)
Theorem namespace_batches_refine (snapshot : MetadataSnapshot) (delta : MetadataDelta) (E : NamespaceEntries) (group : list QueuedNamespaceBatch) :
  (d + h < fuel)%nat -> beneath s h d leaves snapshot E -> tree_wf E -> md_upsert_entries delta = [] -> md_erase_entries delta = [] ->
  Forall (fun b => Forall named (qb_operations b)) group -> room E (group_length group) -> group <> [] ->
  let '(results, after) := group_means group [] (mkChange E (md_pending_tombstones delta)) in
  exists w, apply_namespace_group (Some s) fuel leaves group (working_set snapshot delta) = (first_error results, w) /\
    tree_wf (cg_entries after) /\
    (forall p, p <> [] -> ws_get (Some s) fuel w p true = Ok (alookup p (cg_entries after))) /\
    (E1 ← apply_erases true (md_erase_entries (wk_delta w)) E; Ok (apply_upserts (md_upsert_entries (wk_delta w)) E1)) = Ok (cg_entries after) /\
    md_pending_tombstones (wk_delta w) = cg_pending after.
Proof.
  intros Hfuel Hb Ht Hu He Hn Hr Hg. destruct (group_means group [] (mkChange E (md_pending_tombstones delta))) as [results after] eqn:Em.
  assert (at_change s h d leaves E (mkChange E (md_pending_tombstones delta)) (working_set snapshot delta)) as Hc.
  { split_and!; [by apply working_set_holds|done|done|]. unfold clean. cbn. rewrite Hu, He. split_and!; [constructor|apply not_elem_of_nil|constructor]. }
  destruct (group_does s h fuel d leaves Hfuel E group [] _ _ Hc Hn Hr) as (w & Ew & Hw). rewrite Em in Ew, Hw. cbn [fst snd] in Ew, Hw.
  assert (forall w', (w' = w \/ w' = canonical_erases w) -> at_change s h d leaves E after w') as Hall.
  { intros w' [->| ->]; [done|]. destruct Hw as (H1 & H2 & H3 & H4). split_and!; [by apply holds_canonical|done|done|by apply canonical_clean]. }
  unfold apply_namespace_group. rewrite Ew. unfold first_error.
  assert (exists w', (w' = w \/ w' = canonical_erases w) /\ (if committed results then (Ok results, canonical_erases w)
    else match results with inl x :: _ => (Throw x, w) | _ => (Ok results, canonical_erases w) end) =
    (if committed results then Ok results else match results with inl x :: _ => Throw x | _ => Ok results end, w')) as (w' & Hw' & ->).
  { destruct (committed results); [eauto|]. destruct results as [|[x|r] results]; eauto. }
  exists w'. destruct (Hall w' Hw') as (H1 & H2 & H3 & H4 & H5 & H6). split_and!; [done|done| | |done].
  - intros p Hp. by apply (ws_get_ok s h fuel d leaves Hfuel E).
  - apply (delta_gives s h d leaves); [apply Ht|done..].
Qed.

(** C27. A mutation does what it means or nothing. Over a working set that
    reads as a map of entries, in either form, each of the eight mutations
    answers the error its meaning has on that map and changes nothing, not
    the delta and not the set; or it returns what it made, the working set
    reads as the map it leaves, and the objects it lets go join the delta's
    tombstones. *)
Theorem mutation_refines (base E : NamespaceEntries) (w : WorkingSet) (now : Z) (op : FilesystemNamespaceMutation) :
  (d + h < fuel)%nat -> holds s h d leaves base E w -> named op ->
  match mutate now op E with
  | Throw x => apply_namespace_mutation (Some s) fuel leaves now op w = (Throw x, w)
  | Ok out => exists w', apply_namespace_mutation (Some s) fuel leaves now op w = (Ok (oc_made out), w') /\
      holds s h d leaves base (oc_entries out) w' /\ pending w' = retire_objects (pending w) (oc_retired out)
  end.
Proof.
  intros Hfuel Hw Hop. pose proof (mutation_does s h fuel d leaves Hfuel base E w now op Hw Hop) as Hd. unfold does in Hd.
  destruct (mutate now op E) as [out|x]; [|done]. destruct (apply_namespace_mutation (Some s) fuel leaves now op w) as [got w'].
  destruct Hd as (Eg & Hw' & Hp). cbn [fst snd] in *. subst. eauto.
Qed.

(** C28. A rename moves what is below its source, whole, and open handles
    follow. When a rename of one path to another succeeds on a tree of names,
    every path below the target then holds the entry that was at the same
    place below the source, with the identity it had; no path below the
    source holds anything; every other path is as it was; and the path a
    write handle is re-pointed to holds the entry its old path held, unless
    the rename replaced it. *)
Theorem rename_moves_subtree (base E : NamespaceEntries) (w w' : WorkingSet) (now : Z) (op : FilesystemNamespaceMutation) (made : option FsEntry) :
  (d + h < fuel)%nat -> holds s h d leaves base E w -> tree_wf E -> named op -> fm_kind op = kind_rename -> fm_from op <> fm_to op ->
  apply_namespace_mutation (Some s) fuel leaves now op w = (Ok made, w') ->
  let x := fm_from op in let y := fm_to op in
  exists E', holds s h d leaves base E' w' /\
    (forall p, normal p -> alookup p E' =
      if under p y then option_map (with_identity (rebase y x p)) (alookup (rebase y x p) E)
      else if under p x then None else alookup p E) /\
    (forall p e, alookup p E = Some e -> under p y = false ->
      alookup (repoint op p) E' = Some (if under p x then with_identity p e else e)).
Proof.
  intros Hfuel Hw Ht [Hx Hy] Ek Hne Ea x y. specialize (Hy Ek).
  pose proof (mutation_does s h fuel d leaves Hfuel base E w now op Hw (conj Hx (fun _ => Hy))) as Hd. unfold does in Hd. rewrite Ea in Hd.
  unfold mutate in Hd. rewrite Ek in Hd. destruct (move E op) as [out|e] eqn:Em; [|done]. destruct Hd as (_ & Hw' & _). cbn [snd] in Hw'.
  destruct (move_moves E op out Ht Hx Hy Hne Em) as (Hxr & Hyr & Hu & _ & _ & _ & _ & Hl). fold x y in Hx, Hy, Hxr, Hyr, Hu, Hl. exists (oc_entries out). split; [done|]. split; [exact Hl|].
  intros p e He Hpy. destruct (tree_grows E Ht p e He) as (Hp & _ & _). unfold repoint. rewrite bool_decide_true by done. fold x y. rewrite (bool_decide_false (x = y)) by done. cbn [andb negb].
  destruct (under p x) eqn:Upx.
  - destruct (rebase_normal x y Hx Hy Hxr Hyr p Hp Upx) as (Hn & Hun & Er). by rewrite (Hl _ Hn), Hun, Er, He.
  - by rewrite (Hl _ Hp), Hpy, Upx.
Qed.

(** A batch applies the largest prefix of its operations that can apply.
    When a batch is not refused, the operations it reports as applied were
    applied, in order, and no other: either all of them, or, in a batch that
    is not atomic, all before the operation whose error it reports, which
    fails on the namespace they leave. A batch is refused only if its first
    operation fails, or if it is atomic. *)
Theorem batch_applies_prefix (base E : NamespaceEntries) (w w' : WorkingSet) (atomic : bool) (clock : nat -> Z)
    (ops : list FilesystemNamespaceMutation) (r : BatchResult) :
  (d + h < fuel)%nat -> holds s h d leaves base E w -> tree_wf E -> clean w -> Forall named ops -> room E (ops_length ops) ->
  apply_namespace_batch_to (Some s) fuel leaves atomic clock ops w = (Ok r, w') ->
  exists E', mutate_all clock (take (br_applied r) ops) 0 E = Ok E' /\ holds s h d leaves base E' w' /\ tree_wf E' /\
    match br_failure r with
    | None => br_applied r = length ops
    | Some (code, what) => atomic = false /\ br_applied r <> O /\
        exists op, ops !! br_applied r = Some op /\ mutate (clock (br_applied r)) op E' = Throw (FsError code what)
    end.
Proof.
  intros Hfuel Hw Ht Hcl Hn Hr Eb. set (c := mkChange E (pending w)).
  pose proof (batch_does s h fuel d leaves Hfuel base atomic clock ops 0 (replicate (length ops) None) c w 0) as Hd.
  rewrite Z.add_0_r in Hd. specialize (Hd (conj Hw (conj eq_refl (conj Ht Hcl))) Hn ltac:(done) Hr).
  unfold apply_namespace_batch_to in Eb. destruct (run_batch atomic clock ops 0 (replicate (length ops) None) c) as [[r0 c']|x] eqn:Em.
  - destruct Hd as (w1 & Eb' & (H1 & _ & H3 & _) & _). rewrite Eb' in Eb. injection Eb as -> ->.
    apply batch_prefix in Em as (n & En & Ea & Hf). cbn in En. subst n. exists (cg_entries c'). split_and!; [done|done|done|].
    destruct (br_failure r) as [[code what]|]; [|done]. destruct Hf as (op & Ho & Em & Hat & Hne). split_and!; [done|done|]. by exists op.
  - destruct Hd as (w1 & Eb'). by rewrite Eb' in Eb.
Qed.
End claims.

(** ** A small group of batches *)

#[local] Existing Instance Sample.sha.

Module BatchSample.
Import TreeSample.
Definition no_delta : MetadataDelta := mkDelta [] [] [] [] [] [] [] [] [] None None false [] unchanged None None None [] [] [].
Definition e : Bytes := [x2f; x65].
Definition e_a : Bytes := [x2f; x65; x2f; x61].
Definition e_a_f : Bytes := [x2f; x65; x2f; x61; x2f; x66].
Definition rename_op : FilesystemNamespaceMutation := mkMutation kind_rename a e_a false 0 0 0 false false 0.
Definition make_op : FilesystemNamespaceMutation := mkMutation kind_mkdir e [] false 493 0 0 false false 0.
Definition batches : list QueuedNamespaceBatch :=
  [mkBatch [make_op; rename_op] false (fun i => 100 + Z.of_nat i);
   mkBatch [mutation kind_unlink c; mutation kind_unlink e_a] true (fun _ => 200);
   mkBatch [mutation kind_unlink b; mutation kind_rmdir e] false (fun _ => 300)].

Lemma entries_tree : tree_wf entries.
Proof.
  split.
  - repeat constructor.
  - repeat (apply Forall_cons; split; [apply normalize_fixed; vm_compute; reflexivity|]). constructor.
  - repeat (apply Forall_cons; split; [unfold key_ok; vm_compute; congruence|]). constructor.
  - vm_compute. reflexivity.
  - intros p f Hp Hne. apply alookup_Some_elem in Hp. unfold entries in Hp.
    repeat (apply elem_of_cons in Hp as [Hp|Hp]; [injection Hp as -> _; first [done | vm_compute; reflexivity]|]). by apply not_elem_of_nil in Hp.
Qed.
Lemma there : exists d, (d + 6 < 14)%nat /\ beneath store 6 d 14 tree entries.
Proof.
  destruct (detached limits limits_fit snapshot empty eq_refl entries_fit nodes_apart) as (s' & Ed & _ & d & Hd & Ht). rewrite detaches in Ed.
  assert (tree = set_namespace (Some (tree_root limits (sn_entries snapshot))) [] snapshot /\ store = s') as [E1 E2] by (split; congruence).
  exists d. change (length (sn_entries snapshot)) with 6%nat in Hd. split; [lia|]. split; [apply entries_fit|]. rewrite E1, E2. cbn [set_namespace sn_namespace_root].
  split; [|vm_compute; lia]. change 6%nat with (height (sn_entries snapshot)). done.
Qed.
Definition spelled (op : FilesystemNamespaceMutation) : bool :=
  bool_decide (normalize_path (fm_from op) = fm_from op) && (bool_decide (normalize_path (fm_to op) = fm_to op) || negb (bool_decide (fm_kind op = kind_rename))).
Lemma spelled_named ops : forallb spelled ops = true -> Forall named ops.
Proof.
  rewrite forallb_forall. intros Hs. apply Forall_forall. intros op Hop%list_elem_of_In%Hs. apply andb_true_iff in Hop as [H1%bool_decide_eq_true H2].
  split; [by apply normalize_fixed|]. intros Ek. apply normalize_fixed. rewrite (bool_decide_true (fm_kind op = kind_rename)), orb_false_r in H2 by done. by apply bool_decide_eq_true in H2.
Qed.
Lemma all_named : Forall (fun b => Forall named (qb_operations b)) batches.
Proof.
  unfold batches. do 3 (apply Forall_cons; split; [apply spelled_named; vm_compute; reflexivity|]). apply Forall_nil_2.
Qed.
Lemma names_short n : 0 <= n <= 1000 -> room entries n.
Proof.
  intros Hn p Hp. assert (Z.of_nat (length p) <= 8) as Hl; [|unfold u32_max; lia].
  unfold entries in Hp. cbn [fmap list_fmap fst] in Hp. repeat (apply elem_of_cons in Hp as [->|Hp]; [vm_compute; congruence|]). by apply not_elem_of_nil in Hp.
Qed.
Lemma fresh_holds d : beneath store 6 d 14 tree entries -> holds store 6 d 14 entries entries (working_set tree no_delta).
Proof. by apply working_set_holds. Qed.
End BatchSample.

Lemma namespace_batches_refine_witness :
  let '(results, after) := group_means BatchSample.batches [] (mkChange TreeSample.entries []) in
  exists w, apply_namespace_group (Some TreeSample.store) 14 14 BatchSample.batches (working_set TreeSample.tree BatchSample.no_delta) = (first_error results, w) /\
    tree_wf (cg_entries after) /\
    (forall p, p <> [] -> ws_get (Some TreeSample.store) 14 w p true = Ok (alookup p (cg_entries after))) /\
    (E1 ← apply_erases true (md_erase_entries (wk_delta w)) TreeSample.entries; Ok (apply_upserts (md_upsert_entries (wk_delta w)) E1)) = Ok (cg_entries after) /\
    md_pending_tombstones (wk_delta w) = cg_pending after.
Proof.
  destruct BatchSample.there as (d & Hd & Hb).
  apply (namespace_batches_refine TreeSample.store 6 14 d 14 TreeSample.tree BatchSample.no_delta TreeSample.entries BatchSample.batches Hd Hb).
  - exact BatchSample.entries_tree.
  - reflexivity.
  - reflexivity.
  - exact BatchSample.all_named.
  - apply BatchSample.names_short. vm_compute. split; congruence.
  - discriminate.
Defined.

Lemma mutation_refines_witness : exists d w',
  apply_namespace_mutation (Some TreeSample.store) 14 14 100 BatchSample.make_op (working_set TreeSample.tree BatchSample.no_delta) =
    (Ok (Some (new_entry directory BatchSample.make_op 100)), w') /\
  holds TreeSample.store 6 d 14 TreeSample.entries (map_set BatchSample.e (new_entry directory BatchSample.make_op 100) TreeSample.entries) w' /\ pending w' = [].
Proof.
  destruct BatchSample.there as (d & Hd & Hb). exists d.
  pose proof (mutation_refines TreeSample.store 6 14 d 14 TreeSample.entries TreeSample.entries (working_set TreeSample.tree BatchSample.no_delta) 100 BatchSample.make_op
    Hd (BatchSample.fresh_holds d Hb)) as Hm.
  apply Hm. split; [apply normalize_fixed; vm_compute; reflexivity|discriminate].
Defined.

Lemma rename_moves_subtree_witness : exists d w' E', holds TreeSample.store 6 d 14 TreeSample.entries E' w' /\
  alookup [x2f; x64; x2f; x66] E' = option_map (with_identity TreeSample.a_f) (alookup TreeSample.a_f TreeSample.entries) /\ alookup TreeSample.a_f E' = None.
Proof.
  destruct BatchSample.there as (d & Hd & Hb). exists d.
  set (op := mkMutation kind_rename TreeSample.a [x2f; x64] false 0 0 0 false false 0).
  pose proof (mutation_does TreeSample.store 6 14 d 14 Hd TreeSample.entries TreeSample.entries (working_set TreeSample.tree BatchSample.no_delta) 100 op
    (BatchSample.fresh_holds d Hb)) as Hdoes.
  assert (named op) as Hn by (split; [|intros _]; apply normalize_fixed; vm_compute; reflexivity).
  specialize (Hdoes Hn). unfold does in Hdoes. destruct (apply_namespace_mutation _ _ _ _ _ _) as [got w'] eqn:Ea.
  assert (exists out, mutate 100 op TreeSample.entries = Ok out) as (out & Eo) by (eexists; vm_compute; reflexivity). rewrite Eo in Hdoes. destruct Hdoes as (Eg & _). cbn [fst] in Eg. subst got.
  destruct (rename_moves_subtree TreeSample.store 6 14 d 14 TreeSample.entries TreeSample.entries _ w' 100 op _ Hd (BatchSample.fresh_holds d Hb)
    BatchSample.entries_tree Hn eq_refl ltac:(discriminate) Ea) as (E' & Hw' & Hl & _).
  exists w', E'. split; [exact Hw'|]. split.
  - rewrite (Hl [x2f; x64; x2f; x66]); [reflexivity|apply normalize_fixed; vm_compute; reflexivity].
  - rewrite (Hl TreeSample.a_f); [reflexivity|apply normalize_fixed; vm_compute; reflexivity].
Defined.

Lemma batch_applies_prefix_witness : exists d w' r E', 
  apply_namespace_batch_to (Some TreeSample.store) 14 14 false (fun _ => 300) [mutation kind_unlink TreeSample.b; mutation kind_rmdir TreeSample.a]
    (working_set TreeSample.tree BatchSample.no_delta) = (Ok r, w') /\ br_applied r = 1%nat /\ br_failure r = Some (ENOTEMPTY, "not empty") /\
  mutate_all (fun _ => 300) (take (br_applied r) [mutation kind_unlink TreeSample.b; mutation kind_rmdir TreeSample.a]) 0 TreeSample.entries = Ok E' /\
  holds TreeSample.store 6 d 14 TreeSample.entries E' w'.
Proof.
  destruct BatchSample.there as (d & Hd & Hb). set (ops := [mutation kind_unlink TreeSample.b; mutation kind_rmdir TreeSample.a]).
  assert (exists r w', apply_namespace_batch_to (Some TreeSample.store) 14 14 false (fun _ => 300) ops (working_set TreeSample.tree BatchSample.no_delta) = (Ok r, w') /\
    br_applied r = 1%nat /\ br_failure r = Some (ENOTEMPTY, "not empty")) as (r & w' & Er & E1 & E2).
  { eexists _, _. split; [vm_compute; reflexivity|]. split; reflexivity. }
  destruct (batch_applies_prefix TreeSample.store 6 14 d 14 TreeSample.entries TreeSample.entries (working_set TreeSample.tree BatchSample.no_delta) w' false (fun _ => 300)
    ops r Hd (BatchSample.fresh_holds d Hb) BatchSample.entries_tree) as (E' & Ea & Hw & _).
  - split; [constructor|]. split; [apply not_elem_of_nil|constructor].
  - apply BatchSample.spelled_named. vm_compute. reflexivity.
  - apply BatchSample.names_short. vm_compute. split; congruence.
  - exact Er.
  - exists d, w', r, E'. split; [exact Er|]. split; [exact E1|]. split; [exact E2|]. split; [exact Ea|exact Hw].
Defined.
