(* ===== verification/FileContent.v ===== *)
(** * The content of a file

    [src/src/filesystem/filesystem.cpp]: [ReadHandle] reads a file's bytes out
    of its extents, [truncate_file] makes the extents of a shorter or longer
    file, and [commit_file] installs new extents. The content of a file is the
    bytes of its extents one after the other, zeros where there is a hole. *)

From S2P Require Import Prelude Sorts Maps Orders Codec TorrentRequest Journal Paths Metadata MetadataCodec MetadataRoundtrip MetadataDelta MetadataDeltaProofs MetadataMerge MetadataMergeProofs NamespaceTree NamespaceView NamespaceNodes NamespaceReads NamespaceViewProofs NamespaceScan NamespaceForms NamespaceWorking NamespaceClaims Filesystem FilesystemPaths FilesystemProofs FilesystemTree FilesystemBatches.

Definition ETIMEDOUT : Z := 110.
Definition ECANCELED : Z := 125.

(** ** Read handles *)

(** What the store answers when asked for an object: its bytes, or nothing,
    because the read was cancelled, its deadline passed, or no copy answered. *)
Inductive Fetched : Type := fetched (data : Bytes) | fetch_cancelled | fetch_timed_out | fetch_unavailable.

Record ReadHandle : Type := mkRead { rh_entry : FsEntry; rh_last : Z; rh_cached : option (nat * Bytes) }.
Definition set_cached (c : option (nat * Bytes)) (r : ReadHandle) : ReadHandle := mkRead (rh_entry r) (rh_last r) c.

Section reading.
Context (get_shared : ObjectId -> nat -> Fetched).

Definition load_extent (i : nat) : ST ReadHandle Bytes := fun r =>
  match fe_extents (rh_entry r) !! i with
  | None => (Throw (OutOfRange "vector::_M_range_check"), r)
  | Some x =>
      let r := set_cached None r in
      match get_shared (ex_id x) i with
      | fetch_cancelled => (fail ECANCELED "extent read cancelled", r)
      | fetch_timed_out => (fail ETIMEDOUT "extent read timed out", r)
      | fetch_unavailable => (fail EIO "extent unavailable", r)
      | fetched data =>
          if Z.of_nat (length data) =? ex_length x then (Ok data, set_cached (Some (i, data)) r) else (fail EIO "extent corrupt", r)
      end
  end.
(** One extent is cached: reads run forward. *)
Definition extent (i : nat) : ST ReadHandle Bytes := fun r =>
  match rh_cached r with
  | Some (j, data) => if (i =? j)%nat then (Ok data, r) else load_extent i r
  | None => load_extent i r
  end.

Definition extent_end (x : ExtentRef) : Z := wrap64 (ex_offset x + ex_length x).
(** [std::lower_bound] over extents in order: the first that ends after [off],
    and its place. On extents that are in order, as those of a file are, the
    binary search finds the one this scan stops at. *)
Fixpoint first_extent (off : Z) (i : nat) (xs : list ExtentRef) : nat * list ExtentRef :=
  match xs with
  | [] => (i, [])
  | x :: rest => if extent_end x <=? off then first_extent off (S i) rest else (i, xs)
  end.
(** What is copied out of the extents from [i] on that begin before [stop]. *)
Fixpoint read_extents (off stop : Z) (i : nat) (xs : list ExtentRef) (out : Bytes) : ST ReadHandle Bytes :=
  match xs with
  | [] => mret out
  | x :: rest =>
      if stop <=? ex_offset x then mret out
      else
        let a := Z.max off (ex_offset x) in
        let n := Z.to_nat (wrap64 (Z.min stop (extent_end x) - a)) in
        if (n =? 0)%nat then read_extents off stop (S i) rest out
        else if ex_hole x then read_extents off stop (S i) rest (out ++ replicate n x00)
        else
          data ← extent i;
          read_extents off stop (S i) rest (out ++ take n (drop (Z.to_nat (a - ex_offset x)) data))
  end.
(** [ReadHandle::read] of [size] bytes at [off]: the bytes it writes. *)
Definition read (off : Z) (size : nat) : ST ReadHandle Bytes := fun r =>
  let e := rh_entry r in
  if (fe_size e <=? off) || (size =? 0)%nat then (Ok [], r)
  else
    let want := Z.min (Z.of_nat size) (fe_size e - off) in
    let '(i, xs) := first_extent off 0 (fe_extents e) in
    match read_extents off (off + want) i xs [] r with
    | (Throw x, r) => (Throw x, r)
    | (Ok out, r) => (Ok out, mkRead (rh_entry r) (off + Z.of_nat (length out)) (rh_cached r))
    end.
End reading.

(** ** Content *)

(** The extents follow one another from [off] without a gap. *)
Fixpoint tiles (off : Z) (xs : list ExtentRef) : Prop :=
  match xs with [] => True | x :: rest => ex_offset x = off /\ 0 <= ex_length x /\ tiles (off + ex_length x) rest end.
Fixpoint total (xs : list ExtentRef) : Z := match xs with [] => 0 | x :: rest => ex_length x + total rest end.
(** The bytes of an extent. *)
Definition bytes_of (objects : ObjectId -> Bytes) (x : ExtentRef) : Bytes :=
  if ex_hole x then replicate (Z.to_nat (ex_length x)) x00 else objects (ex_id x).
Definition content (objects : ObjectId -> Bytes) (xs : list ExtentRef) : Bytes := flat_map (bytes_of objects) xs.
(** Every object an extent names has the bytes of the extent's length. *)
Definition sound (objects : ObjectId -> Bytes) (xs : list ExtentRef) : Prop :=
  Forall (fun x => ex_hole x = false -> Z.of_nat (length (objects (ex_id x))) = ex_length x) xs.
(** A file whose extents tile it. *)
Definition whole (objects : ObjectId -> Bytes) (e : FsEntry) : Prop :=
  tiles 0 (fe_extents e) /\ sound objects (fe_extents e) /\ total (fe_extents e) = fe_size e /\ fe_size e < 2 ^ 64.

Lemma total_pos off xs : tiles off xs -> 0 <= total xs.
Proof. revert off. induction xs as [|x xs IH]; intros off; cbn; [done|]. intros (_ & Hl & Ht). specialize (IH _ Ht). lia. Qed.
Lemma length_bytes_of objects x : 0 <= ex_length x -> (ex_hole x = false -> Z.of_nat (length (objects (ex_id x))) = ex_length x) ->
  Z.of_nat (length (bytes_of objects x)) = ex_length x.
Proof. intros Hl Hs. unfold bytes_of. destruct (ex_hole x); [rewrite length_replicate; lia|by apply Hs]. Qed.
Lemma length_content objects off xs : tiles off xs -> sound objects xs -> Z.of_nat (length (content objects xs)) = total xs.
Proof.
  intros Ht Hs. revert off Ht. induction Hs as [|x xs Hx Hs IH]; intros off Ht; [done|]. destruct Ht as (_ & Hl & Ht). unfold content in *. cbn [flat_map total].
  rewrite length_app, Nat2Z.inj_add, (length_bytes_of objects x Hl Hx). by rewrite (IH _ Ht).
Qed.
Lemma tiles_app off xs ys : tiles off (xs ++ ys) <-> tiles off xs /\ tiles (off + total xs) ys.
Proof.
  revert off. induction xs as [|x xs IH]; intros off; cbn [app tiles total]; [rewrite Z.add_0_r; tauto|]. rewrite IH.
  replace (off + ex_length x + total xs) with (off + (ex_length x + total xs)) by lia. tauto.
Qed.
Lemma total_app xs ys : total (xs ++ ys) = total xs + total ys.
Proof. induction xs as [|x xs IH]; cbn; [done|]. lia. Qed.

(** ** Reads *)

Section reads.
Context (get_shared : ObjectId -> nat -> Fetched) (objects : ObjectId -> Bytes) (e : FsEntry).

(** A handle on the file whose cache is right. *)
Definition handle_ok (r : ReadHandle) : Prop :=
  rh_entry r = e /\ match rh_cached r with Some (j, data) => exists x, fe_extents e !! j = Some x /\ data = objects (ex_id x) | None => True end.
(** The store has what the file names. *)
Definition readable : Prop := forall i x, fe_extents e !! i = Some x -> ex_hole x = false -> get_shared (ex_id x) i = fetched (objects (ex_id x)).

Lemma extent_ok i x r : handle_ok r -> readable -> sound objects (fe_extents e) -> fe_extents e !! i = Some x -> ex_hole x = false ->
  exists r', extent get_shared i r = (Ok (objects (ex_id x)), r') /\ handle_ok r'.
Proof.
  intros [He Hc] Hr Hs Hx Hh. assert (exists r', load_extent get_shared i r = (Ok (objects (ex_id x)), r') /\ handle_ok r') as Hl.
  { unfold load_extent. rewrite He, Hx, (Hr i x Hx Hh). unfold sound in Hs. rewrite Forall_forall in Hs.
    rewrite (Hs x (list_elem_of_lookup_2 _ _ _ Hx) Hh), Z.eqb_refl. eexists. split; [done|]. split; [done|]. cbn. eauto. }
  unfold extent. destruct (rh_cached r) as [[j data]|] eqn:Ec; [|done]. destruct (Nat.eqb_spec i j) as [<-|]; [|done].
  exists r. destruct Hc as (x' & Hx' & ->). assert (x' = x) as -> by congruence. split; [done|]. split; [done|]. rewrite Ec. eauto.
Qed.

Lemma slice_split (B C : Bytes) k m n : (k <= length B)%nat -> n = Nat.min m (length B - k) ->
  take m (drop k (B ++ C)) = take n (drop k B) ++ take (m - (length B - k)) C.
Proof.
  intros Hk ->. rewrite drop_app_le by done. rewrite take_app, length_drop. f_equal.
  destruct (decide (m <= length B - k)%nat); [by rewrite Nat.min_l by lia|]. rewrite Nat.min_r by lia. rewrite !take_ge by (rewrite length_drop; lia). done.
Qed.

Lemma read_extents_slice off stop pre xs out r : handle_ok r -> readable -> sound objects (fe_extents e) -> fe_extents e = pre ++ xs ->
  tiles (total pre) xs -> total pre + total xs < 2 ^ 64 -> 0 <= total pre -> 0 <= off -> off <= stop ->
  (off <= total pre \/ match xs with x :: _ => off < total pre + ex_length x | [] => False end) ->
  exists r', read_extents get_shared off stop (length pre) xs out r =
    (Ok (out ++ take (Z.to_nat (Z.min stop (total pre + total xs) - Z.max off (total pre))) (drop (Z.to_nat (off - total pre)) (content objects xs))), r') /\ handle_ok r'.
Proof.
  intros Hr Hg Hs. revert pre out r Hr. induction xs as [|x xs IH]; intros pre out r Hr Ee Ht H64 Hp0 Ho Hos Hoff.
  { exists r. cbn. rewrite drop_nil, take_nil, app_nil_r. done. }
  cbn [read_extents]. destruct Ht as (Eo & Hl & Ht). cbn [total] in *. pose proof (total_pos _ _ Ht) as Hpos.
  assert (fe_extents e !! length pre = Some x) as Hx by (rewrite Ee; by rewrite lookup_app_r, Nat.sub_diag by lia).
  assert (sound objects (x :: xs)) as Hsx by (unfold sound in *; rewrite Ee in Hs; by apply Forall_app in Hs as [_ ?]).
  pose proof Hsx as [Hx' _]%Forall_cons. pose proof (length_bytes_of objects x Hl Hx') as Hlen.
  destruct (Z.leb_spec stop (ex_offset x)) as [Hstop|Hstop].
  { exists r. replace (Z.to_nat _) with 0%nat by lia. by rewrite app_nil_r. }
  assert (extent_end x = total pre + ex_length x) as -> by (unfold extent_end, wrap64; rewrite Z.mod_small; lia).
  assert (total (pre ++ [x]) = total pre + ex_length x) as Et by (rewrite total_app; cbn; lia).
  assert (forall out r, handle_ok r -> exists r', read_extents get_shared off stop (Datatypes.S (length pre)) xs out r =
    (Ok (out ++ take (Z.to_nat (Z.min stop (total pre + ex_length x + total xs) - (total pre + ex_length x))) (content objects xs)), r') /\ handle_ok r') as Hnext.
  { intros out' r' Hr'. replace (Datatypes.S (length pre)) with (length (pre ++ [x])) by (rewrite length_app; cbn; lia).
    destruct (IH (pre ++ [x]) out' r' Hr') as (r'' & E1 & Hr''); [by rewrite <- app_assoc|by rewrite Et|rewrite Et; lia|lia|done|done|left; destruct Hoff; lia|].
    exists r''. split; [|done]. rewrite E1, Et. rewrite (Z.max_r off) by (destruct Hoff; lia).
    replace (Z.to_nat (off - (total pre + ex_length x))) with 0%nat by (destruct Hoff; lia). by rewrite drop_0. }
  set (n := Z.to_nat (wrap64 (Z.min stop (total pre + ex_length x) - Z.max off (ex_offset x)))).
  assert (n = Z.to_nat (Z.min stop (total pre + ex_length x) - Z.max off (total pre))) as En.
  { unfold n, wrap64. rewrite Eo. rewrite Z.mod_small by (destruct Hoff; lia). done. }
  assert (take (Z.to_nat (Z.min stop (total pre + (ex_length x + total xs)) - Z.max off (total pre))) (drop (Z.to_nat (off - total pre)) (content objects (x :: xs))) =
    take n (drop (Z.to_nat (Z.max off (ex_offset x) - ex_offset x)) (bytes_of objects x)) ++
    take (Z.to_nat (Z.min stop (total pre + ex_length x + total xs) - (total pre + ex_length x))) (content objects xs)) as ->.
  { unfold content. cbn [flat_map]. rewrite Eo.
    replace (Z.to_nat (Z.max off (total pre) - total pre)) with (Z.to_nat (off - total pre)) by lia.
    rewrite (slice_split _ _ _ _ n); [|destruct Hoff; lia|rewrite En; destruct Hoff; lia]. f_equal. f_equal. destruct Hoff; lia. }
  destruct (Nat.eqb_spec n 0) as [En0|Hn0].
  { rewrite En0. cbn [take app]. by apply Hnext. }
  unfold bytes_of. destruct (ex_hole x) eqn:Eh.
  - rewrite app_assoc. replace (take n (drop _ (replicate _ x00))) with (replicate n x00); [by apply Hnext|].
    rewrite drop_replicate, take_replicate. f_equal. unfold bytes_of in Hlen. rewrite Eh, length_replicate in Hlen. destruct Hoff; lia.
  - destruct (extent_ok _ x r Hr Hg Hs Hx Eh) as (r1 & E1 & Hr1). unfold mbind, st_bind. rewrite E1, app_assoc. by apply Hnext.
Qed.

(** [std::lower_bound] finds where [off] lies. *)
Lemma first_extent_ok off pre xs : tiles (total pre) xs -> 0 <= total pre -> total pre + total xs < 2 ^ 64 -> total pre <= off ->
  exists mid rest, xs = mid ++ rest /\ first_extent off (length pre) xs = (length (pre ++ mid), rest) /\ total (pre ++ mid) <= off /\
    match rest with x :: _ => off < total (pre ++ mid) + ex_length x | [] => True end.
Proof.
  revert pre. induction xs as [|x xs IH]; intros pre Ht Hp H64 Ho; [exists [], []; rewrite !app_nil_r; by split_and!|]. destruct Ht as (Eo & Hl & Ht).
  cbn [total first_extent] in *. pose proof (total_pos _ _ Ht) as Hpos.
  assert (extent_end x = total pre + ex_length x) as -> by (unfold extent_end, wrap64; rewrite Z.mod_small; lia).
  assert (total (pre ++ [x]) = total pre + ex_length x) as Et by (rewrite total_app; cbn; lia).
  destruct (Z.leb_spec (total pre + ex_length x) off).
  - destruct (IH (pre ++ [x])) as (mid & rest & -> & E1 & H1 & H2); [by rewrite Et|lia|lia|lia|]. exists (x :: mid), rest.
    rewrite <- app_assoc in *. cbn [app] in *. split; [done|]. split; [|done]. rewrite <- E1. f_equal. rewrite length_app. cbn. lia.
  - exists [], (x :: xs). rewrite app_nil_r. by split_and!.
Qed.

Lemma read_ok off size r : handle_ok r -> readable -> whole objects e -> 0 <= off ->
  exists r', read get_shared off size r = (Ok (take size (drop (Z.to_nat off) (content objects (fe_extents e)))), r') /\ handle_ok r'.
Proof.
  intros Hr Hg (Ht & Hs & Etot & H64) Ho. pose proof Hr as [Ee _]. unfold read. rewrite Ee.
  pose proof (length_content objects 0 _ Ht Hs) as Hlen. rewrite Etot in Hlen.
  destruct (Z.leb_spec (fe_size e) off) as [Hoff|Hoff]; cbn [orb].
  { exists r. split; [|done]. by rewrite drop_ge, take_nil by lia. }
  destruct (Nat.eqb_spec size 0) as [->|Hsz]; [by exists r|].
  destruct (first_extent_ok off [] (fe_extents e)) as (mid & rest & Em & Ef & H1 & H2); [done|done|cbn; lia|cbn; lia|].
  cbn [app length] in *. rewrite Ef. rewrite Em in Ht. apply tiles_app in Ht as [Htm Htr]. rewrite Z.add_0_l in Htr. pose proof (total_pos _ _ Htm) as Hpm.
  assert (total mid + total rest = fe_size e) as Esum by (rewrite <- Etot, Em, total_app; done).
  assert (sound objects mid) as Hsm by (unfold sound in *; rewrite Em in Hs; by apply Forall_app in Hs as [? _]).
  pose proof (length_content objects 0 mid Htm Hsm) as Hlm.
  destruct (read_extents_slice off (off + Z.min (Z.of_nat size) (fe_size e - off)) mid rest [] r Hr Hg Hs Em Htr) as (r' & -> & Hr'); [lia|done|done|lia| |].
  { destruct rest as [|x rest]; [|by right]. cbn in Esum. lia. }
  match goal with |- exists _, (_, ?st) = _ /\ _ => exists st end. split; [|exact Hr']. rewrite app_nil_l. f_equal. f_equal.
  rewrite Em. unfold content. rewrite flat_map_app. rewrite drop_app. rewrite (drop_ge (flat_map (bytes_of objects) mid)) by (unfold content in Hlm; lia). cbn [app].
  replace (Z.to_nat (off - total mid)) with (Z.to_nat off - length (flat_map (bytes_of objects) mid))%nat by (unfold content in Hlm; lia).
  set (tail := drop _ (flat_map (bytes_of objects) rest)).
  assert (Z.of_nat (length tail) = fe_size e - off) as Htl.
  { unfold tail. rewrite length_drop. unfold content in *. rewrite Em, flat_map_app, length_app in Hlen. lia. }
  destruct (decide (Z.of_nat size <= fe_size e - off)); [f_equal; lia|]. rewrite !take_ge by lia. done.
Qed.
End reads.

(** ** Truncation *)

Section truncation.
Context (get_object : ObjectId -> nat -> option Bytes) (put_object : Bytes -> ObjectId) (before after : ObjectId -> Bytes).
(** The store keeps what it has, and has the part of an object put into it. *)
Definition put_kept (xs : list ExtentRef) : Prop :=
  forall x k, x ∈ xs -> ex_hole x = false -> after (put_object (take k (before (ex_id x)))) = take k (before (ex_id x)).
Definition kept (xs : list ExtentRef) : Prop := Forall (fun x => ex_hole x = false -> after (ex_id x) = before (ex_id x)) xs.
Definition at_hand (i : nat) (xs : list ExtentRef) : Prop := forall j x, xs !! j = Some x -> ex_hole x = false -> get_object (ex_id x) (i + j) = Some (before (ex_id x)).

Lemma kept_content xs : kept xs -> content after xs = content before xs.
Proof.
  induction 1 as [|x xs Hx _ IH]; [done|]. unfold content in *. cbn [flat_map]. rewrite IH. f_equal. unfold bytes_of. destruct (ex_hole x); [done|by apply Hx].
Qed.
Lemma kept_sound xs : kept xs -> sound before xs -> sound after xs.
Proof. intros Hk Hs. apply Forall_forall. intros x Hx Hh. unfold kept, sound in *. rewrite Forall_forall in Hk. rewrite Forall_forall in Hs. rewrite Hk by done. by apply Hs. Qed.

Lemma cut_extents_ok z i o xs : 0 <= o -> tiles o xs -> sound before xs -> kept xs -> put_kept xs -> at_hand i xs -> o + total xs < 2 ^ 64 ->
  exists ys, cut_extents get_object put_object z i xs = Ok ys /\ tiles o ys /\ sound after ys /\ total ys = Z.max 0 (Z.min (z - o) (total xs)) /\
    content after ys = take (Z.to_nat (z - o)) (content before xs).
Proof.
  intros Ho Ht Hs. revert i o Ho Ht. induction Hs as [|x xs Hx Hs IH]; intros i o Ho Ht Hk Hput Ha H64.
  { exists []. cbn. rewrite take_nil. split_and!; [done|done|constructor|lia|done]. }
  destruct Ht as (Eo & Hl & Ht). cbn [total cut_extents] in *. pose proof (total_pos _ _ Ht) as Hpos. apply Forall_cons in Hk as [Hkx Hk].
  destruct (Z.leb_spec z (ex_offset x)) as [Hz|Hz].
  { exists []. replace (Z.to_nat (z - o)) with O by lia. split_and!; [done|done|constructor|cbn; lia|done]. }
  assert (wrap64 (ex_offset x + ex_length x) = o + ex_length x) as -> by (unfold wrap64; rewrite Z.mod_small; lia).
  pose proof (length_bytes_of before x Hl Hx) as Hlen. unfold content in *. cbn [flat_map]. destruct (Z.leb_spec (o + ex_length x) z) as [Hc|Hc].
  - destruct (IH (S i) (o + ex_length x)) as (ys & -> & H1 & H2 & H3 & H4); [lia|done|done|intros y k Hy; apply Hput; by right| |lia|].
    { intros j y Hj Hh. replace (S i + j)%nat with (i + S j)%nat by lia. by apply Ha. }
    exists (x :: ys). cbn [mbind result_bind]. split_and!; [done|done| |cbn [total]; lia|].
    + constructor; [|done]. intros Hh. rewrite (Hkx Hh). by apply Hx.
    + cbn [flat_map]. rewrite H4, take_app. f_equal; [|f_equal; lia].
      rewrite take_ge by lia. unfold bytes_of. destruct (ex_hole x); [done|by apply Hkx].
  - rewrite take_app_le by lia. destruct (ex_hole x) eqn:Eh.
    + eexists. split; [done|]. split_and!; [cbn; lia| |cbn [total ex_length]; lia|].
      * constructor; [done|constructor].
      * cbn. rewrite app_nil_r. unfold bytes_of. rewrite Eh. cbn [ex_hole ex_length]. rewrite take_replicate. f_equal. lia.
    + rewrite <- (Nat.add_0_r i), (Ha O x) by done. unfold bytes_of in Hlen. rewrite Eh in Hlen. destruct (Z.ltb_spec (Z.of_nat (length (before (ex_id x)))) (z - ex_offset x)); [lia|].
      eexists. split; [done|]. split_and!; [cbn; lia| |cbn [total ex_length]; lia|].
      * constructor; [|constructor]. cbn. intros _. rewrite (Hput x) by (by left || done). rewrite length_take. lia.
      * cbn. rewrite app_nil_r. unfold bytes_of. rewrite Eh. cbn [ex_hole ex_id]. rewrite (Hput x) by (by left || done). f_equal. lia.
Qed.

Lemma truncate_ok e z : whole before e -> kept (fe_extents e) -> put_kept (fe_extents e) -> at_hand 0 (fe_extents e) -> 0 <= z < 2 ^ 64 -> z <> fe_size e ->
  exists xs, truncate_extents get_object put_object e z = Ok xs /\ tiles 0 xs /\ sound after xs /\ total xs = z /\
    content after xs = take (Z.to_nat z) (content before (fe_extents e)) ++ replicate (Z.to_nat (z - fe_size e)) x00.
Proof.
  intros (Ht & Hs & Etot & H64) Hk Hput Ha Hz Hne. unfold truncate_extents. pose proof (length_content before 0 _ Ht Hs) as Hlen. destruct (Z.ltb_spec z (fe_size e)).
  - destruct (cut_extents_ok z 0 0 (fe_extents e)) as (ys & -> & H1 & H2 & H3 & H4); [lia|done|done|done|done|done|rewrite Etot; lia|]. exists ys. rewrite Z.sub_0_r in H4.
    split_and!; [done|done|done|lia|]. rewrite H4. replace (Z.to_nat (z - fe_size e)) with O by lia. by rewrite app_nil_r.
  - eexists. split; [done|]. split_and!.
    + apply tiles_app. split; [done|]. cbn. lia.
    + apply Forall_app. split; [by apply kept_sound|]. constructor; [done|constructor].
    + rewrite total_app. cbn. lia.
    + pose proof (kept_content _ Hk) as Ek. unfold content in *. rewrite flat_map_app, Ek, take_ge by lia. cbn. by rewrite app_nil_r.
Qed.
End truncation.

(** ** Commits *)

Section commits.
Context `{Sha256} {S : Type} `{NodeStore S} (s : S) (h fuel d leaves : nat) (Hfuel : (d + h < fuel)%nat).

(** The change of one entry, as an upsert or an append, applied to the base. *)
Lemma recorded_applies (E : NamespaceEntries) q current entry : tree_wf E -> alookup q E = Some current -> Z.of_nat (length (fe_extents current)) < 2 ^ 32 ->
  let maps := record_entry_change q (Some current) entry ([], []) in
  apply_appends maps.2 (apply_upserts maps.1 E) = Ok (map_set q entry E).
Proof.
  intros Ht Hq Hl maps. destruct (tree_grows E Ht q current Hq) as (Hn & _ & _). apply normalize_fixed in Hn. unfold maps, record_entry_change.
  destruct (entry_change q (Some current) entry) as [a|e] eqn:Ec; cbn [fst snd map_erase].
  - unfold apply_appends. cbn [map_set foldM fst snd]. cbn. rewrite Hn, Hq, (append_applies q current entry a Hl Ec). done.
  - unfold entry_change in Ec. destruct (extents_appended _ _ && _); [done|]. injection Ec as <-. cbn. by rewrite Hn.
Qed.
End commits.
