(* ===== verification/FileClaims.v ===== *)
(** * What the file system's files guarantee *)

From S2P Require Import Prelude Sorts Maps Orders Codec TorrentRequest Journal Paths Metadata MetadataCodec MetadataRoundtrip MetadataDelta MetadataDeltaProofs MetadataMerge MetadataMergeProofs NamespaceTree NamespaceView NamespaceNodes NamespaceReads NamespaceViewProofs NamespaceScan NamespaceForms NamespaceWorking NamespaceClaims Filesystem FilesystemPaths FilesystemProofs FilesystemTree FilesystemBatches FilesystemClaims FileContent.

(** C17. A read returns the file's bytes. On a file whose extents tile it and
    whose objects the store has, a read of any size at any offset, past the
    end included, returns exactly that range of the file's content, cut at
    its end, with zeros where there are holes; and the handle's cached extent
    stays the one it says. *)
Theorem read_returns_content (get_shared : ObjectId -> nat -> Fetched) (objects : ObjectId -> Bytes) (e : FsEntry) (r : ReadHandle) (off : Z) (size : nat) :
  whole objects e -> readable get_shared objects e -> handle_ok objects e r -> 0 <= off ->
  exists r', read get_shared off size r = (Ok (take size (drop (Z.to_nat off) (content objects (fe_extents e)))), r') /\ handle_ok objects e r'.
Proof. intros Hw Hg Hr Ho. by apply read_ok. Qed.

(** C40. A truncated file reads as its content cut or filled with zeros. The
    extents made for a file of another size tile that size, over a store that
    keeps what it has and the part of an object put into it; the entry committed with them
    reads, at any offset, as the old content up to the new size, followed by
    zeros if it grew. *)
Theorem truncated_file_reads (get_object : ObjectId -> nat -> option Bytes) (put_object : Bytes -> ObjectId) (before after : ObjectId -> Bytes)
    (get_shared : ObjectId -> nat -> Fetched) (e : FsEntry) (z now : Z) :
  kept before after (fe_extents e) -> put_kept put_object before after (fe_extents e) -> at_hand get_object before 0 (fe_extents e) ->
  (forall id i, get_shared id i = fetched (after id)) -> whole before e -> 0 <= z < 2 ^ 64 -> z <> fe_size e ->
  exists xs, truncate_extents get_object put_object e z = Ok xs /\
    let committed := committed_entry e e z xs None now in
    forall off size, 0 <= off -> exists r, read get_shared off size (mkRead committed 0 None) =
      (Ok (take size (drop (Z.to_nat off) (take (Z.to_nat z) (content before (fe_extents e)) ++ replicate (Z.to_nat (z - fe_size e)) x00))), r).
Proof.
  intros Hk Hput Ha Hg Hw Hz Hne. destruct (truncate_ok get_object put_object before after e z Hw Hk Hput Ha Hz Hne) as (xs & E & Ht & Hs & Et & Ec).
  exists xs. split; [done|]. intros committed off size Ho. rewrite <- Ec.
  destruct (read_ok get_shared after committed off size (mkRead committed 0 None)) as (r & -> & _); [by split|intros i x _ _; apply Hg|split_and!; [done|done|done|cbn; lia]|done|by exists r].
Qed.

Section commits.
Context `{Sha256} {S : Type} `{NodeStore S} (s : S) (h fuel d leaves : nat).

(** The content an entry has is another than the one expected. *)
Definition content_changed (current expected : FsEntry) : bool :=
  negb (fe_version current =? fe_version expected) &&
  (negb (fe_size current =? fe_size expected) || negb (bool_decide (fe_extents current = fe_extents expected))).

(** C26. A commit installs a file's new extents or refuses a stale basis. Where
    the entry is gone, or its content is another than the writer started
    from, nothing changes and the error says which. Otherwise the delta, its
    append or upsert, applied to the namespace sets exactly the committed
    entry; the namespace stays a tree; and the objects retired are those of
    the old extents that the new ones do not hold. *)
Theorem commit_file_exact (snapshot : MetadataSnapshot) (delta : MetadataDelta) (E : NamespaceEntries) (now : Z) (p : Bytes) (expected : FsEntry) (z : Z)
    (xs : list ExtentRef) (mtime_override : option Z) (replayable : bool) :
  (d + h < fuel)%nat -> beneath s h d leaves snapshot E -> tree_wf E -> Forall (fun e => Z.of_nat (length (fe_extents e.2)) < 2 ^ 32) E ->
  md_upsert_entries delta = [] -> md_erase_entries delta = [] -> md_append_entries delta = [] ->
  let w := working_set snapshot delta in
  let q := normalize_path p in
  let got := commit_file (Some s) fuel now p expected z xs mtime_override replayable w in
  match alookup q E with
  | None => got = (Throw (FsError ENOENT "removed while open"), w)
  | Some current =>
      if content_changed current expected then
        got = (Throw (if replayable then FsError ESTALE "publication basis is stale; replay against the current entry"
                      else FsError EAGAIN "concurrent file content change"), w)
      else
        let entry := committed_entry current expected z xs mtime_override now in
        exists w', got = (Ok entry, w') /\ tree_wf (map_set q entry E) /\
          (E1 ← apply_erases true (md_erase_entries (wk_delta w')) E;
           apply_appends (md_append_entries (wk_delta w')) (apply_upserts (md_upsert_entries (wk_delta w')) E1)) = Ok (map_set q entry E) /\
          (sn_namespace_root snapshot = None -> sn_entries (wk_snapshot w') = map_set q entry E) /\
          pending w' = retire_objects (pending w) (dropped_objects (fe_extents current) xs) /\
          (forall id, id ∈ dropped_objects (fe_extents current) xs <-> id ∈ objects_of (fe_extents current) /\ id ∉ objects_of xs)
  end.
Proof.
  intros Hfuel Hb Ht Hx Hu He Ha w q got. pose proof (working_set_holds s h d leaves snapshot delta E Hu He Hb) as Hw. fold w in Hw.
  assert (q <> []) as Hq by (apply normal_nonempty, normalize_normal). unfold got, commit_file. fold q. rewrite (ws_get_ok s h fuel d leaves Hfuel E E w q Hw Hq).
  destruct (alookup q E) as [current|] eqn:Ec; [|done]. fold (content_changed current expected). destruct (content_changed current expected); [by destruct replayable|].
  set (entry := committed_entry current expected z xs mtime_override now). eexists. split; [done|]. cbn [wk_delta wk_snapshot wk_tree_backed]. split_and!.
  - by eapply set_same_tree.
  - unfold w. cbn [retire on_delta set_maps set_pending working_set reload wk_delta md_erase_entries md_append_entries md_upsert_entries wk_tree_backed].
    rewrite Hu, He, Ha. apply (recorded_applies E q current entry Ht Ec).
    rewrite Forall_forall in Hx. apply (Hx (q, current)). by apply alookup_Some_elem.
  - intros Hr. destruct Hb as [_ Hb]. rewrite Hr in Hb. unfold w. cbn. rewrite Hr. cbn. by rewrite Hb.
  - done.
  - intros id. unfold dropped_objects. rewrite list_elem_of_filter. tauto.
Qed.
End commits.

(** ** A small file *)

#[local] Existing Instance Sample.sha.

Module FileSample.
(** Four bytes, a hole of three, and two bytes. *)
Definition one : ObjectId := array_fit 32 [x01].
Definition two : ObjectId := array_fit 32 [x02].
Definition objects (id : ObjectId) : Bytes := if decide (id = one) then [x61; x62; x63; x64] else if decide (id = two) then [x65; x66] else abytes id.
Definition extents : list ExtentRef := [mkExtent 0 4 one false; mkExtent 4 3 (array_zero 32) true; mkExtent 7 2 two false].
Definition entry : FsEntry := mkEntry file 420 0 0 9 5 6 1 extents no_provenance.
Definition get_shared (id : ObjectId) (i : nat) : Fetched := fetched (objects id).
Lemma entry_whole : whole objects entry.
Proof. split_and!; [cbn; lia| |reflexivity|cbn; lia]. repeat constructor; vm_compute; congruence. Qed.
(** The store, and what it holds once a part of an object is put: its address
    spells a short object out. *)
Definition get_object (id : ObjectId) (i : nat) : option Bytes := Some (objects id).
Definition put_object (data : Bytes) : ObjectId := array_fit 32 (xff :: z2b (Z.of_nat (length data)) :: data).
Definition after (id : ObjectId) : Bytes :=
  match abytes id with xff :: n :: data => take (Z.to_nat (b2z n)) data | _ => objects id end.
Lemma put_keeps : put_kept put_object objects after extents.
Proof.
  intros x k Hx Hh. unfold extents in Hx. apply elem_of_cons in Hx as [->|Hx]; [|apply elem_of_cons in Hx as [->|Hx]; [done|apply list_elem_of_singleton in Hx as ->]].
  - do 4 (destruct k as [|k]; [vm_compute; reflexivity|]). assert (length (objects one) = 4%nat) by (vm_compute; reflexivity). cbn [ex_id]. rewrite (take_ge (objects _)) by lia. vm_compute. reflexivity.
  - do 2 (destruct k as [|k]; [vm_compute; reflexivity|]). assert (length (objects two) = 2%nat) by (vm_compute; reflexivity). cbn [ex_id]. rewrite (take_ge (objects _)) by lia. vm_compute. reflexivity.
Qed.
Lemma all_kept : kept objects after extents.
Proof. repeat constructor; vm_compute; reflexivity. Qed.
End FileSample.

Lemma read_returns_content_witness : exists r',
  read FileSample.get_shared 2 6 (mkRead FileSample.entry 0 None) = (Ok [x63; x64; x00; x00; x00; x65], r') /\ handle_ok FileSample.objects FileSample.entry r'.
Proof.
  apply (read_returns_content FileSample.get_shared FileSample.objects FileSample.entry (mkRead FileSample.entry 0 None) 2 6).
  - exact FileSample.entry_whole.
  - intros i x _ _. reflexivity.
  - split; [reflexivity|exact I].
  - lia.
Defined.

Lemma truncated_file_reads_witness :
  exists xs, truncate_extents FileSample.get_object FileSample.put_object FileSample.entry 3 = Ok xs /\
    exists r, read (fun id _ => fetched (FileSample.after id)) 1 8 (mkRead (committed_entry FileSample.entry FileSample.entry 3 xs None 50) 0 None) = (Ok [x62; x63], r).
Proof.
  destruct (truncated_file_reads FileSample.get_object FileSample.put_object FileSample.objects FileSample.after (fun id _ => fetched (FileSample.after id)) FileSample.entry 3 50)
    as (xs & E & Hr).
  - exact FileSample.all_kept.
  - exact FileSample.put_keeps.
  - intros j x _ _. reflexivity.
  - reflexivity.
  - exact FileSample.entry_whole.
  - lia.
  - cbn. lia.
  - exists xs. split; [exact E|]. apply (Hr 1 8%nat). lia.
Defined.

Lemma commit_file_exact_witness :
  let current := mkEntry file 420 0 0 4 5 6 1 [TreeSample.extent 0 x06] no_provenance in
  let xs := [TreeSample.extent 0 x06; TreeSample.extent 1 x07] in
  exists w', commit_file (Some TreeSample.store) 14 100 TreeSample.b current 8 xs None false (working_set TreeSample.tree BatchSample.no_delta) =
      (Ok (committed_entry current current 8 xs None 100), w') /\
    (E1 ← apply_erases true (md_erase_entries (wk_delta w')) TreeSample.entries;
     apply_appends (md_append_entries (wk_delta w')) (apply_upserts (md_upsert_entries (wk_delta w')) E1)) =
      Ok (map_set TreeSample.b (committed_entry current current 8 xs None 100) TreeSample.entries) /\
    (exists a, md_append_entries (wk_delta w') = [(TreeSample.b, a)]) /\ pending w' = [].
Proof.
  destruct BatchSample.there as (d & Hd & Hb). intros current xs.
  destruct (commit_file_exact TreeSample.store 6 14 d 14 TreeSample.tree BatchSample.no_delta TreeSample.entries 100 TreeSample.b current 8 xs None false) as (w' & E1 & _ & E2 & _ & E3 & _).
  - exact Hd.
  - exact Hb.
  - exact BatchSample.entries_tree.
  - repeat constructor; vm_compute; reflexivity.
  - reflexivity.
  - reflexivity.
  - reflexivity.
  - exists w'. split; [exact E1|]. split; [exact E2|]. split; [|exact E3].
    vm_compute in E1. injection E1 as <-. eexists. reflexivity.
Defined.
