(* ===== verification/Placement.v ===== *)
(** * Placement

    [src/src/cluster/placement.cpp]: which nodes own an object. Metadata is
    placed by rendezvous hashing; data by capacity: the greatest level the
    nodes' capacities can be filled to gives each a quota of the 2^32 shards,
    and an object's shard is sampled systematically over the quotas. The
    theorems are in [PlacementClaims]. *)

From S2P Require Import Prelude Sorts Codec Journal.

Module Placement.

(** [std::string] literals. *)
Definition lit (s : string) : Bytes := String.list_byte_of_string s.

#[global] Instance node_info_eq_dec : EqDecision NodeInfo.
Proof. solve_decision. Defined.

(** [__uint128_t]. *)
Definition wrap128 (z : Z) : Z := z mod 2 ^ 128.

(** ** Replica order for a commit *)

(** [std::pair<int, int64_t>]. *)
Definition Rank : Type := Z * Z.
Definition rank_ltb (a b : Rank) : bool :=
  if a.1 <? b.1 then true else if b.1 <? a.1 then false else a.2 <? b.2.

Definition rank (local : NodeId) (latency : option (NodeId -> option Z)) (node : NodeInfo) : Rank :=
  if bool_decide (ni_id node = local) then (0, 0)
  else
    match (match latency with Some f => f (ni_id node) | None => None end) with
    | Some measured => (1, measured)
    | None => (2, 0)
    end.

Definition order_commit_replicas (replicas : list NodeInfo) (local : NodeId)
    (latency : option (NodeId -> option Z)) : list NodeInfo :=
  stable_sort (fun a b => rank_ltb (rank local latency a) (rank local latency b)) replicas.

(** ** Shards *)

Definition placement_shards : Z := Z.shiftl 1 32.

Record CapacityEntity : Type := mkEntity {
  ce_stable_id : Bytes;
  ce_capacity : Z;
  ce_nodes : list NodeInfo
}.

Definition saturated_add (a b : Z) : Z := if u64_max - a <? b then u64_max else a + b.

(** The first four bytes, big-endian. *)
Definition shard_of_bytes (bytes : Bytes) : Z :=
  Z.lor (Z.lor (Z.lor (Z.shiftl (b2z (nth 0 bytes x00)) 24) (Z.shiftl (b2z (nth 1 bytes x00)) 16))
    (Z.shiftl (b2z (nth 2 bytes x00)) 8)) (b2z (nth 3 bytes x00)).

Definition shard_for `{Sha256} (key : Bytes) : Z :=
  shard_of_bytes (if (4 <=? length key)%nat then take 4 key else take 4 (abytes (sha256 key))).

Definition shard_key `{Sha256} (key : Bytes) : Bytes :=
  let shard := shard_for key in
  [z2b (Z.shiftr shard 24); z2b (Z.shiftr shard 16); z2b (Z.shiftr shard 8); z2b shard].

(** ** Capacity *)

(** L = numerator / denominator. *)
Record WaterLevel : Type := mkLevel { wl_numerator : Z; wl_denominator : Z }.
Definition no_level : WaterLevel := mkLevel 0 1.

Fixpoint water_loop (replicas size : Z) (k prefix : Z) (sorted : list Z) : WaterLevel :=
  match sorted with
  | [] => no_level
  | s :: rest =>
      let prefix := wrap128 (prefix + s) in
      let signed_denominator := replicas - size + k + 1 in
      if signed_denominator <=? 0 then water_loop replicas size (k + 1) prefix rest
      else
        if match rest with
           | [] => true
           | next :: _ => prefix <=? wrap128 (signed_denominator * next)
           end
        then mkLevel prefix signed_denominator
        else water_loop replicas size (k + 1) prefix rest
  end.

Definition water_level (capacities : list Z) (replicas : nat) : WaterLevel :=
  match capacities, replicas with
  | [], _ | _, O => no_level
  | _, _ =>
      let replicas := Nat.min replicas (length capacities) in
      water_loop (Z.of_nat replicas) (Z.of_nat (length capacities)) 0 0 (stable_sort Z.ltb capacities)
  end.

Definition max_logical_capacity (capacities : list Z) (replicas : nat) : Z :=
  let level := water_level capacities replicas in
  if wl_numerator level =? 0 then 0
  else Z.min (wl_numerator level / wl_denominator level) u64_max.

(** ** Quotas *)

(** Evenly, the remainder going to the first. *)
Fixpoint even_quotas (base remainder : Z) (n : nat) : list Z :=
  match n with
  | O => []
  | S n' =>
      (base + if remainder =? 0 then 0 else 1)
        :: even_quotas base (if remainder =? 0 then 0 else remainder - 1) n'
  end.

Record Fraction : Type := mkFraction { fr_index : nat; fr_remainder : Z }.
Definition fraction_ltb (a b : Fraction) : bool :=
  if negb (fr_remainder a =? fr_remainder b) then fr_remainder b <? fr_remainder a
  else (fr_index a <? fr_index b)%nat.

(** An entity's whole slots and what is left over. *)
Definition quota_floor (level : WaterLevel) (capacity : Z) : Z * Z :=
  let scaled_capacity := wrap128 (capacity * wl_denominator level) in
  if wl_numerator level <=? scaled_capacity then (placement_shards, 0)
  else
    let exact_numerator := wrap128 (scaled_capacity * placement_shards) in
    (wrap64 (exact_numerator / wl_numerator level), exact_numerator mod wl_numerator level).

(** The quotas as they stand and their sum. *)
Record Assigned : Type := mkAssigned { as_quota : list Z; as_total : Z }.

(** One more slot for an entity that has room, while there are slots left. *)
Definition give_slot (required : Z) (a : Assigned) (i : nat) : Assigned :=
  if required <=? as_total a then a
  else
    let q := nth i (as_quota a) 0 in
    if q <? placement_shards then mkAssigned (<[i := q + 1]> (as_quota a)) (as_total a + 1) else a.

Definition shard_quotas (capacities : list Z) (replicas : nat) : list Z :=
  let n := length capacities in
  if (n =? 0)%nat || (replicas =? 0)%nat then replicate n 0
  else
    let replicas := Nat.min replicas n in
    let required := wrap128 (Z.of_nat replicas * placement_shards) in
    let level := water_level capacities replicas in
    if wl_numerator level =? 0 then
      even_quotas (wrap64 (required / Z.of_nat n)) (wrap64 (required mod Z.of_nat n)) n
    else
      let floors := quota_floor level <$> capacities in
      let fractions := imap (fun i f => mkFraction i f.2) floors in
      let assigned := mkAssigned floors.*1 (sum_Z floors.*1) in
      let assigned := foldl (give_slot required) assigned (fr_index <$> stable_sort fraction_ltb fractions) in
      as_quota (foldl (give_slot required) assigned (seq 0 n)).

(** ** Sampling *)

(** Whether one of the sample points of [shard] falls in [begin_, end_). *)
Definition owns_point (shard : Z) (replicas : nat) (begin_ end_ : Z) : bool :=
  existsb (fun copy =>
      let point := shard + Z.of_nat copy * placement_shards in
      (begin_ <=? point) && (point <? end_))
    (seq 0 replicas).

Fixpoint sample_loop (shard : Z) (replicas : nat) (i : nat) (begin_ : Z) (quotas : list Z) : list nat :=
  match quotas with
  | [] => []
  | q :: rest =>
      let end_ := wrap128 (begin_ + q) in
      let selected := sample_loop shard replicas (S i) end_ rest in
      if owns_point shard replicas begin_ end_ then i :: selected else selected
  end.

(** A short selection is filled up in order. *)
Definition fill_selected (replicas : nat) (selected : list nat) (i : nat) : list nat :=
  if (length selected <? replicas)%nat && negb (bool_decide (i ∈ selected)) then selected ++ [i] else selected.

Definition systematic_shard_sample `{Sha256} (key : Bytes) (capacities : list Z) (replicas : nat) : list nat :=
  match capacities, replicas with
  | [], _ | _, O => []
  | _, _ =>
      let replicas := Nat.min replicas (length capacities) in
      let quotas := shard_quotas capacities replicas in
      let selected := sample_loop (shard_for key) replicas 0 0 quotas in
      foldl (fill_selected replicas) selected (seq 0 (length capacities))
  end.

(** ** Failure domains *)

Definition domain_of (node : NodeInfo) : Bytes :=
  match ni_failure_domain node with
  | [] => lit "node:" ++ to_string (ni_id node)
  | domain => lit "domain:" ++ domain
  end.

Fixpoint add_to_group (domain : Bytes) (node : NodeInfo) (groups : list CapacityEntity) : list CapacityEntity :=
  match groups with
  | [] => [mkEntity domain (ni_capacity node) [node]]
  | g :: rest =>
      if bool_decide (ce_stable_id g = domain) then
        mkEntity domain (saturated_add (ce_capacity g) (ni_capacity node)) (ce_nodes g ++ [node]) :: rest
      else g :: add_to_group domain node rest
  end.

Definition sort_group (g : CapacityEntity) : CapacityEntity :=
  mkEntity (ce_stable_id g) (ce_capacity g) (stable_sort (by_key ni_id) (ce_nodes g)).

Definition failure_domains (nodes : list NodeInfo) : list CapacityEntity :=
  let groups := foldl (fun groups node => add_to_group (domain_of node) node groups) [] nodes in
  sort_group <$> stable_sort (by_key ce_stable_id) groups.

Definition capacities_of (entities : list CapacityEntity) : list Z := ce_capacity <$> entities.

Definition no_node : NodeInfo := mkNodeInfo (array_zero 16) [] [] 0 0 0 0 0 0 0.

Definition choose_within_group `{Sha256} (key : Bytes) (group : CapacityEntity) : NodeInfo :=
  match ce_nodes group with
  | [node] => node
  | nodes =>
      let inner := sha256 (key ++ ce_stable_id group) in
      let picked := systematic_shard_sample (abytes inner) (ni_capacity <$> nodes) 1 in
      nth (hd 0%nat picked) nodes no_node
  end.

(** ** Fallback order *)

(** [-std::log(u) / weight] with [u = (value + 1) / (2^64 + 1)], in [long
    double]: the platform's arithmetic, of which only the order of the results
    matters. [u] is in (0, 1] and the weight at least one, so no result is a
    NaN and [<] is a total order on them. *)
Class LongDouble : Type := {
  ld : Type;
  ld_eq_dec :: EqDecision ld;
  ld_order :: KeyOrder ld;
  neg_log_over : Z -> Z -> ld
}.

Definition fallback_score `{Sha256, LongDouble} (key : Bytes) (node : NodeInfo) : ld :=
  let material := key ++ lit "macha/data-fallback/v7" ++ abytes (ni_id node) in
  let hash := sha256 material in
  let value := foldl (fun v i => wrap64 (Z.lor (Z.shiftl v 8) (b2z (abyte hash i)))) 0 (seq 0 8) in
  neg_log_over value (if ni_capacity node =? 0 then 1 else ni_capacity node).

Definition fallback_ltb `{Sha256, LongDouble} (key : Bytes) : NodeInfo -> NodeInfo -> bool :=
  then_by (fallback_score key) (by_key ni_id).

(** ** Rendezvous *)

(** [a.score != b.score ? a.score > b.score : a.node.id > b.node.id]. *)
Definition scored_ltb (a b : Hash256 * NodeInfo) : bool :=
  then_by fst (by_key (fun s => ni_id s.2)) b a.

Definition rendezvous_domain (node : NodeInfo) : Bytes :=
  match ni_failure_domain node with [] => to_string (ni_id node) | domain => domain end.

(** The nodes taken, the domains seen and the ids chosen. *)
Record Taken : Type := mkTaken { tk_out : list NodeInfo; tk_domains : list Bytes; tk_chosen : list NodeId }.

Definition take_diverse (count : nat) (t : Taken) (item : Hash256 * NodeInfo) : Taken :=
  if (length (tk_out t) =? count)%nat then t
  else
    let domain := rendezvous_domain item.2 in
    if bool_decide (domain ∈ tk_domains t) then t
    else mkTaken (tk_out t ++ [item.2]) (domain :: tk_domains t) (ni_id item.2 :: tk_chosen t).

Definition take_any (count : nat) (t : Taken) (item : Hash256 * NodeInfo) : Taken :=
  if (length (tk_out t) =? count)%nat then t
  else if bool_decide (ni_id item.2 ∈ tk_chosen t) then t
  else mkTaken (tk_out t ++ [item.2]) (tk_domains t) (ni_id item.2 :: tk_chosen t).

Definition rendezvous_nodes `{Sha256} (key : Bytes) (nodes : list NodeInfo) (count : nat) : list NodeInfo :=
  let scored := stable_sort scored_ltb ((fun node => (sha256 (key ++ abytes (ni_id node)), node)) <$> nodes) in
  let count := Nat.min count (length scored) in
  let t := foldl (take_diverse count) (mkTaken [] [] []) scored in
  tk_out (foldl (take_any count) t scored).

(** ** Data placement *)

(** A node is preferred once. *)
Definition prefer (p : list NodeInfo) (node : NodeInfo) : list NodeInfo :=
  if bool_decide (ni_id node ∈ ni_id <$> p) then p else p ++ [node].

Definition not_chosen (p nodes : list NodeInfo) : list NodeInfo :=
  base.filter (fun node => ni_id node ∉ ni_id <$> p) nodes.

Definition no_entity : CapacityEntity := mkEntity [] 0 [].

Definition capacity_placement_nodes `{Sha256, LongDouble} (key : Bytes) (nodes : list NodeInfo)
    (count : nat) : list NodeInfo :=
  if (length nodes =? 0)%nat || (count =? 0)%nat then []
  else
    let count := Nat.min count (length nodes) in
    if (count =? 1)%nat then stable_sort (fallback_ltb (shard_key key)) nodes
    else
      let groups := failure_domains nodes in
      let diverse := Nat.min count (length groups) in
      let selected := systematic_shard_sample key (capacities_of groups) diverse in
      let preferred :=
        foldl (fun p index => prefer p (choose_within_group key (nth index groups no_entity))) [] selected in
      let preferred :=
        if (length preferred <? count)%nat then
          let remaining := stable_sort (by_key ni_id) (not_chosen preferred nodes) in
          let extra_key := sha256 (key ++ lit "macha/data-extra-domain/v7") in
          let extra := systematic_shard_sample (abytes extra_key) (ni_capacity <$> remaining)
            (count - length preferred) in
          foldl (fun p index => prefer p (nth index remaining no_node)) preferred extra
        else preferred in
      preferred ++ stable_sort (fallback_ltb key) (not_chosen preferred nodes).

Definition placement_logical_capacity (nodes : list NodeInfo) (replicas : nat) : Z :=
  if (length nodes =? 0)%nat || (replicas =? 0)%nat then 0
  else
    let replicas := Nat.min replicas (length nodes) in
    let groups := failure_domains nodes in
    max_logical_capacity
      (if (replicas <=? length groups)%nat then capacities_of groups else ni_capacity <$> nodes) replicas.

End Placement.
