(* ===== verification/PlacementProofs.v ===== *)
(** * What placement computes

    The water level is the greatest fill every copy can have, the quotas share
    out exactly the slots there are, and systematic sampling gives every shard
    exactly its copies and every entity exactly its quota of shards. *)

From S2P Require Import Prelude Sorts Codec Journal Placement.
Import Placement.

(** ** Sums *)

Lemma sum_map_ext {A} (f g : A -> Z) l : Forall (fun x => f x = g x) l -> sum_Z (f <$> l) = sum_Z (g <$> l).
Proof. induction 1 as [|x l Hx Hl IH]; [done|]. rewrite !fmap_cons. simpl. lia. Qed.

Lemma sum_map_add {A} (f g : A -> Z) l :
  sum_Z ((fun x => f x + g x) <$> l) = sum_Z (f <$> l) + sum_Z (g <$> l).
Proof. induction l as [|x l IH]; [done|]. rewrite !fmap_cons. simpl. lia. Qed.

Lemma sum_map_scale {A} (f : A -> Z) k l : sum_Z ((fun x => k * f x) <$> l) = k * sum_Z (f <$> l).
Proof. induction l as [|x l IH]; [simpl; lia|]. rewrite !fmap_cons. simpl. lia. Qed.

Lemma sum_map_const {A} k (l : list A) : sum_Z ((fun _ => k) <$> l) = k * Z.of_nat (length l).
Proof. induction l as [|x l IH]; [simpl; lia|]. rewrite fmap_cons. simpl. lia. Qed.

Lemma sum_map_le {A} (f g : A -> Z) l : Forall (fun x => f x <= g x) l -> sum_Z (f <$> l) <= sum_Z (g <$> l).
Proof. induction 1 as [|x l Hx Hl IH]; [done|]. rewrite !fmap_cons. simpl. lia. Qed.

Lemma sum_bound m l : Forall (fun c => 0 <= c < m) l -> 0 <= sum_Z l <= m * Z.of_nat (length l).
Proof. induction 1 as [|x l Hx Hl IH]; simpl; lia. Qed.

(** Adding one at an index. *)
Lemma sum_insert l i x : (i < length l)%nat -> sum_Z (<[i := x]> l) = sum_Z l - nth i l 0 + x.
Proof.
  revert i. induction l as [|y l IH]; intros [|i] Hi; simpl in *; try lia.
  change (<[i := x]> l) with (insert i x l). rewrite IH by lia. lia.
Qed.

Lemma wrap128_small z : 0 <= z < 2 ^ 128 -> wrap128 z = z.
Proof. intros. by apply Z.mod_small. Qed.

Lemma shards_value : placement_shards = 2 ^ 32.
Proof. done. Qed.

(** ** The water level *)

(** The capacities of at most 2^32 entities. *)
Definition capacities_ok (capacities : list Z) : Prop :=
  Forall (fun c => 0 <= c < 2 ^ 64) capacities /\ Z.of_nat (length capacities) < 2 ^ 32.

(** Filling every entity to the level, or as far as it goes, is exactly
    [replicas] times the level; and no greater fill has that many copies. *)
Record level_of (capacities : list Z) (replicas : nat) (level : WaterLevel) : Prop := {
  lo_numerator : 0 <= wl_numerator level < 2 ^ 96;
  lo_denominator : 0 < wl_denominator level <= Z.of_nat replicas;
  lo_balance :
    sum_Z ((fun c => Z.min (c * wl_denominator level) (wl_numerator level)) <$> capacities) =
    Z.of_nat replicas * wl_numerator level;
  lo_greatest : forall fill, 0 <= fill ->
    Z.of_nat replicas * fill <= sum_Z (Z.min fill <$> capacities) ->
    wl_denominator level * fill <= wl_numerator level
}.

Lemma level_of_perm c c' replicas level : c ≡ₚ c' -> level_of c replicas level -> level_of c' replicas level.
Proof.
  intros Hp [Hn Hd Hb Hg]. split; [done|done| |].
  - rewrite <- Hb. by apply sum_Z_perm; rewrite Hp.
  - intros fill Hf Hc. apply Hg; [done|]. etrans; [exact Hc|]. apply Z.eq_le_incl, sum_Z_perm. by rewrite Hp.
Qed.

(** A level that splits the sorted capacities: those it covers and those it
    does not reach. *)
Lemma split_level low high replicas den :
  capacities_ok (low ++ high) -> 0 < den <= Z.of_nat replicas ->
  den = Z.of_nat replicas - Z.of_nat (length high) ->
  Forall (fun c => c * den <= sum_Z low) low -> Forall (fun c => sum_Z low <= c * den) high ->
  level_of (low ++ high) replicas (mkLevel (sum_Z low) den).
Proof.
  intros [Hc Hlen] Hden Eden Hlow Hhigh.
  pose proof Hc as [Hc1 _]%Forall_app. pose proof (sum_bound _ _ Hc1) as Hsum.
  rewrite length_app in Hlen. split; cbn [wl_numerator wl_denominator]; [lia|done| |].
  - rewrite fmap_app, sum_Z_app.
    rewrite (sum_map_ext _ (fun c => den * c) low).
    2:{ eapply Forall_impl; [exact Hlow|]. intros c Hl. cbn beta in *. lia. }
    rewrite (sum_map_ext _ (fun _ => sum_Z low) high).
    2:{ eapply Forall_impl; [exact Hhigh|]. intros c Hl. cbn beta in *. lia. }
    rewrite sum_map_scale, sum_map_const, list_fmap_id. nia.
  - intros fill Hf Hle. rewrite fmap_app, sum_Z_app in Hle.
    assert (sum_Z (Z.min fill <$> low) <= sum_Z low) as H1.
    { rewrite <- (list_fmap_id low) at 2. apply sum_map_le, Forall_true. intros c. simpl. lia. }
    assert (sum_Z (Z.min fill <$> high) <= sum_Z ((fun _ => fill) <$> high)) as H2.
    { apply sum_map_le, Forall_true. intros c. lia. }
    rewrite sum_map_const in H2. nia.
Qed.

Lemma ltb_weak : strict_weak Z.ltb.
Proof. split; intros; lia. Qed.

(** Where the loop stands: what it has passed, what it is at and what is left,
    with the level not reached so far. *)
Section at_.
Context (low high : list Z) (c : Z).
Context (Hc : capacities_ok (low ++ c :: high)).

Lemma at_sum : 0 <= sum_Z low /\ sum_Z (low ++ [c]) = sum_Z low + c /\ 0 <= sum_Z low + c < 2 ^ 96.
Proof.
  destruct Hc as [Hcs Hlen]. rewrite length_app in Hlen. cbn [length] in Hlen.
  apply Forall_app in Hcs as [H1 H2]. apply Forall_cons in H2 as [H2 _].
  pose proof (sum_bound _ _ H1). rewrite sum_Z_app. simpl. lia.
Qed.

Context (Hs : in_order Z.ltb (low ++ c :: high)).

Lemma at_elem x : x ∈ low ++ [c] -> 0 <= x <= c.
Proof.
  destruct Hc as [Hcs _]. rewrite Forall_forall in Hcs. intros Hx.
  apply elem_of_app in Hx as [Hx|Hx]; [|apply list_elem_of_singleton in Hx as ->].
  - pose proof (in_order_app Z.ltb _ _ Hs x c Hx ltac:(by left)).
    pose proof (Hcs x ltac:(apply elem_of_app; by left)). lia.
  - pose proof (Hcs c ltac:(apply elem_of_app; right; by left)). lia.
Qed.

Lemma at_next d rest : high = d :: rest -> c <= d < 2 ^ 64 /\ forall x, x ∈ high -> d <= x.
Proof.
  destruct Hc as [Hcs _]. intros ->. apply Forall_app in Hcs as [_ Hcs].
  apply Forall_cons in Hcs as [_ Hcs]. apply Forall_cons in Hcs as [Hd _].
  apply StronglySorted_app in Hs as (_ & _ & Hs'). apply StronglySorted_cons in Hs' as [H1 Hs'].
  apply Forall_cons in H1 as [H1 _]. apply StronglySorted_cons in Hs' as [H2 _]. split; [lia|].
  intros x Hx. apply elem_of_cons in Hx as [->|Hx]; [lia|]. rewrite Forall_forall in H2. specialize (H2 x Hx). lia.
Qed.

Context (replicas : nat).
Let den := Z.of_nat replicas - Z.of_nat (length high).
Context (Hinv : den - 1 <= 0 \/ (den - 1) * c <= sum_Z low).

Lemma at_level :
  0 < den <= Z.of_nat replicas -> (forall d rest, high = d :: rest -> sum_Z low + c <= den * d) ->
  level_of (low ++ c :: high) replicas (mkLevel (sum_Z low + c) den).
Proof.
  intros Hden Hd. destruct at_sum as (H0 & Esum & Hsum).
  assert (low ++ c :: high = (low ++ [c]) ++ high) as E by (by rewrite <- app_assoc).
  rewrite E, <- Esum. apply split_level; [by rewrite <- E|done|done| |]; rewrite Esum; apply Forall_forall; intros x Hx.
  - pose proof (at_elem x Hx). transitivity (den * c); [nia|]. destruct Hinv; [|lia].
    replace den with 1 by lia. lia.
  - assert (exists d rest, high = d :: rest) as (d & rest & Eh).
    { revert Hx. clear. destruct high; [by intros ?%not_elem_of_nil | eauto]. }
    pose proof (proj2 (at_next d rest Eh) x Hx). specialize (Hd d rest Eh). nia.
Qed.
End at_.

Lemma water_loop_ok replicas low high :
  capacities_ok (low ++ high) -> in_order Z.ltb (low ++ high) -> high <> [] ->
  0 < Z.of_nat replicas <= Z.of_nat (length (low ++ high)) ->
  (forall c rest, high = c :: rest -> Z.of_nat replicas - Z.of_nat (length rest) - 1 <= 0 \/
     (Z.of_nat replicas - Z.of_nat (length rest) - 1) * c <= sum_Z low) ->
  level_of (low ++ high) replicas
    (water_loop (Z.of_nat replicas) (Z.of_nat (length (low ++ high))) (Z.of_nat (length low)) (sum_Z low) high).
Proof.
  revert low. induction high as [|c high IH]; intros low Hc Hs Hne HR Hinv; [done|].
  specialize (Hinv c high eq_refl). destruct (at_sum low high c Hc) as (H0 & Esum & Hsum).
  assert (low ++ c :: high = (low ++ [c]) ++ high) as E by (by rewrite <- app_assoc).
  specialize (IH (low ++ [c])). rewrite <- E in IH. specialize (IH Hc Hs).
  rewrite Esum in IH.
  replace (Z.of_nat (length (low ++ [c]))) with (Z.of_nat (length low) + 1) in IH
    by (rewrite length_app; simpl; lia).
  cbn [water_loop]. rewrite wrap128_small by lia.
  set (den := Z.of_nat replicas - Z.of_nat (length (low ++ c :: high)) + Z.of_nat (length low) + 1).
  assert (den = Z.of_nat replicas - Z.of_nat (length high)) as Eden
    by (unfold den; rewrite length_app; simpl; lia).
  destruct (Z.leb_spec den 0) as [Hd|Hd].
  { apply IH; [|done|].
    - intros ->. simpl in Eden. lia.
    - intros d rest ->. simpl in Eden. lia. }
  rewrite Eden in Hd |- *. pose proof (at_level low high c Hc Hs replicas Hinv ltac:(lia)) as Hl.
  destruct high as [|d rest]; [by apply Hl|].
  pose proof (proj1 (at_next low (d :: rest) c Hc Hs d rest eq_refl)) as Hd2.
  pose proof (at_elem low (d :: rest) c Hc Hs c ltac:(apply elem_of_app; right; by left)) as Hc0.
  destruct Hc as [_ Hlen]. rewrite wrap128_small by nia.
  destruct (Z.leb_spec (sum_Z low + c) ((Z.of_nat replicas - Z.of_nat (length (d :: rest))) * d)) as [Hle|Hgt].
  - apply Hl. by intros ?? [= <- <-].
  - apply IH; [done|done|]. intros ?? [= <- <-]. right. cbn [length] in *. nia.
Qed.

Lemma water_level_ok capacities replicas :
  capacities_ok capacities -> (0 < replicas <= length capacities)%nat ->
  level_of capacities replicas (water_level capacities replicas).
Proof.
  intros Hc HR. unfold water_level. destruct capacities as [|x l] eqn:E; [simpl in HR; lia|].
  destruct replicas as [|r]; [lia|]. rewrite <- E in *. rewrite Nat.min_l by lia.
  pose proof (stable_sort_perm Z.ltb capacities) as Hp.
  apply (level_of_perm (stable_sort Z.ltb capacities)); [done|].
  rewrite <- (Permutation_length Hp).
  apply (water_loop_ok (S r) [] (stable_sort Z.ltb capacities)).
  - destruct Hc as [H1 H2]. split; simpl; [by rewrite Hp | by rewrite Hp].
  - apply sort_in_order, ltb_weak.
  - intros E'. rewrite E' in Hp. apply Permutation_nil_l in Hp. by rewrite E in Hp.
  - simpl. rewrite (Permutation_length Hp). lia.
  - intros c rest E'. left. apply (f_equal length) in E'. rewrite (Permutation_length Hp) in E'. simpl in E'. lia.
Qed.

(** ** Quotas *)

Lemma quota_floor_ok capacities replicas level c q r :
  level_of capacities replicas level -> capacities_ok capacities -> 0 < wl_numerator level ->
  Z.of_nat replicas < 2 ^ 32 -> 0 <= c < 2 ^ 64 -> quota_floor level c = (q, r) ->
  q * wl_numerator level + r = Z.min (c * wl_denominator level) (wl_numerator level) * placement_shards /\
  0 <= r < wl_numerator level /\ 0 <= q <= placement_shards /\ (0 < r -> q < placement_shards).
Proof.
  intros [Hn Hd _ _] Hc Hpos HR Hcap. unfold quota_floor. rewrite shards_value.
  assert (0 <= c * wl_denominator level < 2 ^ 64 * 2 ^ 32) as Hsc by nia.
  rewrite wrap128_small by lia.
  set (sc := c * wl_denominator level) in *. set (num := wl_numerator level) in *.
  destruct (Z.leb_spec num sc) as [Hle|Hlt].
  - intros [= <- <-]. rewrite Z.min_r by lia. lia.
  - rewrite wrap128_small by lia.
    pose proof (Z.div_mod (sc * 2 ^ 32) num ltac:(lia)) as Hdm.
    pose proof (Z.mod_pos_bound (sc * 2 ^ 32) num ltac:(lia)) as Hm.
    assert (0 <= sc * 2 ^ 32 / num < 2 ^ 32) as Hq.
    { split; [apply Z.div_pos; lia | apply Z.div_lt_upper_bound; lia]. }
    rewrite wrap64_small by lia. intros [= <- <-]. rewrite Z.min_l by lia. lia.
Qed.

(** Entities that have room for another slot. *)
Definition with_room (quota : list Z) (l : list nat) : list nat :=
  base.filter (fun i => nth i quota 0 < placement_shards) l.

(** A quota as it was or one more, within the shards there are. *)
Definition one_more (before after : list Z) : Prop :=
  length after = length before /\
  forall i, nth i after 0 = nth i before 0 \/
    (nth i after 0 = nth i before 0 + 1 /\ nth i before 0 < placement_shards).

Lemma with_room_insert quota i x l : i ∉ l -> with_room (<[i := x]> quota) l = with_room quota l.
Proof.
  intros Hi. unfold with_room. induction l as [|j l IH]; [done|]. apply not_elem_of_cons in Hi as [Hij Hi].
  rewrite !filter_cons, nth_insert_ne, IH by done. done.
Qed.

Lemma one_more_insert quota i x after :
  one_more (<[i := x]> quota) after -> x = nth i quota 0 + 1 -> nth i quota 0 < placement_shards ->
  nth i after 0 = x -> one_more quota after.
Proof.
  intros [Hl Hi] Ex Hlt Ea. rewrite length_insert in Hl. split; [done|]. intros j.
  destruct (decide (i = j)) as [->|Hij]; [right; lia|]. specialize (Hi j).
  by rewrite nth_insert_ne in Hi.
Qed.

Lemma give_slots_ok required l a :
  NoDup l -> Forall (fun i => (i < length (as_quota a))%nat) l ->
  as_total a = sum_Z (as_quota a) -> as_total a <= required ->
  let a' := foldl (give_slot required) a l in
  as_total a' = sum_Z (as_quota a') /\ one_more (as_quota a) (as_quota a') /\
  as_total a' = Z.min required (as_total a + Z.of_nat (length (with_room (as_quota a) l))) /\
  (forall i, i ∉ l -> nth i (as_quota a') 0 = nth i (as_quota a) 0).
Proof.
  revert a. induction l as [|i l IH]; intros a Hnd Hin Ht Hr; cbn [foldl].
  { split; [done|]. split; [split; [done | by left]|]. split; [simpl; lia | done]. }
  apply NoDup_cons in Hnd as [Hi Hnd]. apply Forall_cons in Hin as [Hlt Hin].
  unfold with_room. rewrite filter_cons. fold (with_room (as_quota a) l).
  remember (give_slot required a i) as b eqn:Eb. unfold give_slot in Eb.
  destruct (Z.leb_spec required (as_total a)) as [Hfull|Hfree].
  - subst b. destruct (IH a Hnd Hin Ht Hr) as (H1 & H2 & H3 & H4).
    split; [done|]. split; [done|]. split; [destruct (decide _); cbn [length]; lia|].
    intros j [_ Hj]%not_elem_of_cons. by apply H4.
  - destruct (Z.ltb_spec (nth i (as_quota a) 0) placement_shards) as [Hroom|Hfull].
    + rewrite decide_True by done. subst b. set (b := mkAssigned _ _).
      destruct (IH b Hnd) as (H1 & H2 & H3 & H4).
      * cbn. by rewrite length_insert.
      * cbn. rewrite sum_insert by done. lia.
      * cbn. lia.
      * cbn [as_quota as_total b] in *. rewrite with_room_insert in H3 by done. split; [done|].
        split; [eapply one_more_insert; [exact H2 | done | done |]; rewrite H4 by done; by apply nth_insert_eq|].
        split; [cbn [length]; lia|]. intros j [Hij Hj]%not_elem_of_cons.
        rewrite H4 by done. by apply nth_insert_ne.
    + rewrite decide_False by lia. subst b.
      destruct (IH a Hnd Hin Ht Hr) as (H1 & H2 & H3 & H4). split_and!; try done.
      intros j [_ Hj]%not_elem_of_cons. by apply H4.
Qed.

(** What quotas keep: a slot of the [replicas] copies of each shard is
    somebody's, and nobody's twice. *)
Record quotas_ok (n replicas : nat) (quotas : list Z) : Prop := {
  qk_length : length quotas = n;
  qk_range : Forall (fun q => 0 <= q <= placement_shards) quotas;
  qk_sum : sum_Z quotas = Z.of_nat replicas * placement_shards
}.

Lemma even_quotas_ok n base rem :
  0 <= rem <= Z.of_nat n ->
  length (even_quotas base rem n) = n /\
  Forall (fun q => base <= q <= base + Z.min rem 1) (even_quotas base rem n) /\
  sum_Z (even_quotas base rem n) = Z.of_nat n * base + rem.
Proof.
  revert rem. induction n as [|n IH]; intros rem Hr; cbn [even_quotas].
  { split; [done|]. split; [constructor|]. simpl. lia. }
  set (rest := if rem =? 0 then 0 else rem - 1).
  destruct (IH rest) as (H1 & H2 & H3); [unfold rest; destruct (Z.eqb_spec rem 0); lia|].
  split; [cbn [length]; by rewrite H1|]. split.
  - constructor; [destruct (Z.eqb_spec rem 0); lia|]. eapply Forall_impl; [exact H2|].
    intros q. unfold rest. cbn beta. destruct (Z.eqb_spec rem 0); lia.
  - cbn [sum_Z foldr]. change (foldr Z.add 0) with sum_Z. rewrite H3. unfold rest.
    destruct (Z.eqb_spec rem 0); lia.
Qed.

Lemma even_shares n replicas :
  (0 < replicas <= n)%nat -> Z.of_nat n < 2 ^ 32 ->
  quotas_ok n replicas
    (even_quotas (wrap64 (wrap128 (Z.of_nat replicas * placement_shards) / Z.of_nat n))
       (wrap64 (wrap128 (Z.of_nat replicas * placement_shards) mod Z.of_nat n)) n).
Proof.
  intros HR Hn. rewrite shards_value, wrap128_small by lia. set (req := Z.of_nat replicas * 2 ^ 32).
  pose proof (Z.div_mod req (Z.of_nat n) ltac:(lia)) as Hdm.
  pose proof (Z.mod_pos_bound req (Z.of_nat n) ltac:(lia)) as Hm.
  assert (0 <= req / Z.of_nat n <= 2 ^ 32) as Hq.
  { split; [apply Z.div_pos; lia | apply Z.div_le_upper_bound; lia]. }
  rewrite !wrap64_small by lia.
  destruct (even_quotas_ok n (req / Z.of_nat n) (req mod Z.of_nat n)) as (H1 & H2 & H3); [lia|].
  split; [done| |rewrite shards_value; lia]. eapply Forall_impl; [exact H2|]. intros q Hb. cbn beta in *.
  rewrite shards_value. destruct (decide (req / Z.of_nat n = 2 ^ 32)) as [E|E]; [|lia].
  rewrite E in Hdm. assert (req mod Z.of_nat n = 0) by lia. lia.
Qed.

(** The floors leave fewer slots over than there are entities with room. *)
Section floors.
Context (capacities : list Z) (replicas : nat) (level : WaterLevel).
Context (Hl : level_of capacities replicas level) (Hc : capacities_ok capacities).
Context (Hpos : 0 < wl_numerator level) (HR : Z.of_nat replicas < 2 ^ 32).
Let floors := quota_floor level <$> capacities.
Let num := wl_numerator level.

Lemma floor_at c : c ∈ capacities -> 0 <= c < 2 ^ 64.
Proof using Hc. destruct Hc as [H _]. rewrite Forall_forall in H. apply H. Qed.

Lemma floors_sum : num * sum_Z floors.*1 + sum_Z floors.*2 = num * (Z.of_nat replicas * placement_shards).
Proof.
  transitivity (sum_Z ((fun c => placement_shards * Z.min (c * wl_denominator level) num) <$> capacities)).
  - unfold floors. rewrite <- !list_fmap_compose, <- sum_map_scale, <- sum_map_add.
    apply sum_map_ext, Forall_forall. intros c Hin. unfold compose.
    destruct (quota_floor level c) as [q r] eqn:E. simpl.
    destruct (quota_floor_ok _ _ _ c q r Hl Hc Hpos HR (floor_at c Hin) E) as (H1 & _). fold num in H1. lia.
  - rewrite sum_map_scale. pose proof (lo_balance _ _ _ Hl) as Hb. fold num in Hb. rewrite Hb. lia.
Qed.

Lemma floors_range : Forall (fun q => 0 <= q <= placement_shards) floors.*1.
Proof.
  apply Forall_forall. intros q (p & -> & (c & -> & Hin)%list_elem_of_fmap)%list_elem_of_fmap.
  destruct (quota_floor level c) as [q r] eqn:E.
  by destruct (quota_floor_ok _ _ _ c q r Hl Hc Hpos HR (floor_at c Hin) E) as (_ & _ & H & _).
Qed.

Lemma with_room_all quotas (l : list Z) :
  length (with_room (l ++ quotas) (seq (length l) (length quotas))) =
  length (base.filter (fun q => q < placement_shards) quotas).
Proof.
  revert l. induction quotas as [|q quotas IH]; intros l; [done|]. cbn [length seq]. unfold with_room.
  rewrite !filter_cons, nth_middle.
  specialize (IH (l ++ [q])). unfold with_room in IH. rewrite <- app_assoc, length_app, Nat.add_1_r in IH.
  simpl in IH. destruct (decide _); cbn [length]; by rewrite IH.
Qed.

Lemma floors_missing :
  0 <= Z.of_nat replicas * placement_shards - sum_Z floors.*1 <=
  Z.of_nat (length (with_room floors.*1 (seq 0 (length floors)))).
Proof.
  assert (0 <= sum_Z floors.*2 <= num * Z.of_nat (length (base.filter (fun q => q < placement_shards) floors.*1))) as Hrem.
  { unfold floors. pose proof floor_at as Hat. clear -Hl Hc Hpos HR Hat. induction capacities as [|c l IH] in Hat |- *;
      [simpl; lia|]. rewrite !fmap_cons. destruct (quota_floor level c) as [q r] eqn:E.
    destruct (quota_floor_ok _ _ _ c q r Hl Hc Hpos HR (Hat c ltac:(by left)) E) as (_ & Hr & _ & Hq).
    specialize (IH (fun x Hx => Hat x ltac:(by right))). simpl. rewrite filter_cons. fold num in Hr.
    destruct (decide _); cbn [length]; lia. }
  pose proof floors_sum as Hs. pose proof (with_room_all floors.*1 []) as Hw. simpl in Hw.
  rewrite length_fmap in Hw. rewrite Hw. fold num in Hpos. nia.
Qed.

Lemma slots_given :
  let a := foldl (give_slot (Z.of_nat replicas * placement_shards)) (mkAssigned floors.*1 (sum_Z floors.*1)) in
  forall l, l ≡ₚ seq 0 (length floors) ->
  quotas_ok (length capacities) replicas (as_quota (a l)) /\ one_more floors.*1 (as_quota (a l)) /\
  as_total (a l) = Z.of_nat replicas * placement_shards.
Proof.
  intros a l Hp. pose proof floors_missing as Hm.
  destruct (give_slots_ok (Z.of_nat replicas * placement_shards) l (mkAssigned floors.*1 (sum_Z floors.*1)))
    as (H1 & H2 & H3 & _); cbn [as_quota as_total].
  - rewrite Hp. apply NoDup_seq.
  - rewrite Hp. apply Forall_forall. intros i Hi%elem_of_seq. rewrite length_fmap. lia.
  - done.
  - lia.
  - cbn [as_quota as_total] in *. fold (a l) in H1, H2, H3.
    assert (length (with_room floors.*1 l) = length (with_room floors.*1 (seq 0 (length floors)))) as Hw.
    { apply Permutation_length. unfold with_room. by rewrite Hp. }
    assert (as_total (a l) = Z.of_nat replicas * placement_shards) as Ht by lia.
    split; [|done]. split.
    + rewrite (proj1 H2), length_fmap. apply length_fmap.
    + pose proof floors_range as Hf. apply Forall_lookup. intros i q Hi. destruct H2 as [Hlen H2].
      specialize (H2 i). rewrite nth_lookup, Hi in H2. simpl in H2.
      apply lookup_lt_Some in Hi. rewrite Hlen in Hi. destruct (lookup_lt_is_Some_2 _ _ Hi) as [x Hx].
      rewrite nth_lookup, Hx in H2. simpl in H2. rewrite Forall_lookup in Hf. specialize (Hf i x Hx). lia.
    + by rewrite <- H1.
Qed.
End floors.

Lemma fractions_index (floors : list (Z * Z)) :
  fr_index <$> stable_sort fraction_ltb (imap (fun i f => mkFraction i f.2) floors) ≡ₚ seq 0 (length floors).
Proof.
  rewrite stable_sort_perm, fmap_imap. apply Permutation_refl'.
  apply list_eq. intros i. rewrite list_lookup_imap. simpl. unfold compose.
  destruct (decide (i < length floors)%nat) as [Hi|Hi].
  - destruct (lookup_lt_is_Some_2 _ _ Hi) as [x ->]. by rewrite lookup_seq_lt.
  - rewrite lookup_ge_None_2, lookup_seq_ge by lia. done.
Qed.

(** Once every slot is given, giving changes nothing. *)
Lemma give_slots_full required l a : required <= as_total a -> foldl (give_slot required) a l = a.
Proof.
  intros Hr. induction l as [|i l IH]; [done|]. cbn [foldl]. unfold give_slot at 2.
  by rewrite (proj2 (Z.leb_le _ _) Hr).
Qed.

Lemma shard_quotas_ok capacities replicas :
  capacities_ok capacities -> (0 < replicas <= length capacities)%nat ->
  quotas_ok (length capacities) replicas (shard_quotas capacities replicas) /\
  (0 < wl_numerator (water_level capacities replicas) ->
   one_more (quota_floor (water_level capacities replicas) <$> capacities).*1 (shard_quotas capacities replicas)).
Proof.
  intros Hc HR. unfold shard_quotas. pose proof Hc as [_ Hlen].
  replace (length capacities =? 0)%nat with false by (symmetry; apply Nat.eqb_neq; lia).
  replace (replicas =? 0)%nat with false by (symmetry; apply Nat.eqb_neq; lia). cbn [orb].
  rewrite Nat.min_l by lia. pose proof (water_level_ok capacities replicas Hc HR) as Hl.
  destruct (Z.eqb_spec (wl_numerator (water_level capacities replicas)) 0) as [E|E].
  { split; [by apply even_shares | lia]. }
  pose proof (lo_numerator _ _ _ Hl). rewrite wrap128_small by (rewrite shards_value; lia).
  destruct (slots_given capacities replicas _ Hl Hc ltac:(lia) ltac:(lia) _
    (fractions_index (quota_floor (water_level capacities replicas) <$> capacities))) as (H1 & H2 & H3).
  rewrite give_slots_full by lia. done.
Qed.

(** ** Sampling *)

(** How many of the sample points of [shard] are below [x]. *)
Definition points_below (shard x : Z) : Z := (x - shard + (placement_shards - 1)) / placement_shards.

Lemma points_below_spec shard x copy :
  shard + copy * placement_shards < x <-> copy < points_below shard x.
Proof.
  unfold points_below. rewrite shards_value. split; intros H.
  - enough (copy + 1 <= (x - shard + (2 ^ 32 - 1)) / 2 ^ 32) by lia.
    apply Z.div_le_lower_bound; lia.
  - pose proof (Z.mul_div_le (x - shard + (2 ^ 32 - 1)) (2 ^ 32) ltac:(lia)). lia.
Qed.

Lemma points_below_mono shard x y : x <= y -> points_below shard x <= points_below shard y.
Proof. intros. unfold points_below. apply Z.div_le_mono; [done|]. lia. Qed.

Lemma points_below_step shard x y :
  y - x <= placement_shards -> points_below shard y <= points_below shard x + 1.
Proof.
  intros Hxy. pose proof (points_below_spec shard y (points_below shard x + 1)) as [_ H1].
  pose proof (points_below_spec shard x (points_below shard x)) as [H2 _].
  destruct (Z.le_gt_cases (points_below shard y) (points_below shard x + 1)); [done|]. lia.
Qed.

Lemma points_below_0 shard : 0 <= shard < placement_shards -> points_below shard 0 = 0.
Proof. intros H. unfold points_below. apply Z.div_small. lia. Qed.
Lemma points_below_all shard n : 0 <= shard < placement_shards -> points_below shard (n * placement_shards) = n.
Proof.
  intros H. unfold points_below.
  replace (n * placement_shards - shard + (placement_shards - 1))
    with (placement_shards - 1 - shard + n * placement_shards) by lia.
  rewrite Z.div_add, Z.div_small by (rewrite ?shards_value in *; lia). done.
Qed.

Lemma owns_point_spec shard replicas b e :
  0 <= shard < placement_shards -> 0 <= b -> e <= Z.of_nat replicas * placement_shards ->
  owns_point shard replicas b e = (points_below shard b <? points_below shard e).
Proof.
  intros Hs Hb He. apply eq_true_iff_eq. rewrite Z.ltb_lt. unfold owns_point. rewrite existsb_exists. split.
  - intros (c & _ & [H1%Z.leb_le H2%Z.ltb_lt]%andb_true_iff). apply points_below_spec in H2.
    destruct (Z.lt_ge_cases (Z.of_nat c) (points_below shard b)) as [H3|H3]; [|lia].
    apply points_below_spec in H3. lia.
  - intros Hlt. pose proof (points_below_mono shard 0 b Hb) as H0. rewrite points_below_0 in H0 by done.
    pose proof (points_below_mono shard _ _ He) as H1. rewrite points_below_all in H1 by done.
    exists (Z.to_nat (points_below shard b)). split; [apply in_seq; lia|]. rewrite Z2Nat.id by done.
    apply andb_true_iff. split; [|by apply Z.ltb_lt, points_below_spec].
    apply Z.leb_le. destruct (Z.le_gt_cases b (shard + points_below shard b * placement_shards)) as [|H2]; [done|].
    apply points_below_spec in H2. lia.
Qed.

Section sample.
Context (shard : Z) (replicas : nat) (Hs : 0 <= shard < placement_shards) (HR : Z.of_nat replicas < 2 ^ 32).

Lemma sample_loop_ok quotas i b :
  0 <= b -> Forall (fun q => 0 <= q <= placement_shards) quotas ->
  b + sum_Z quotas <= Z.of_nat replicas * placement_shards ->
  let selected := sample_loop shard replicas i b quotas in
  Z.of_nat (length selected) = points_below shard (b + sum_Z quotas) - points_below shard b /\
  Forall (fun j => i <= j < i + length quotas)%nat selected /\ NoDup selected /\
  forall j, (j < length quotas)%nat ->
    (i + j)%nat ∈ selected <->
    points_below shard (b + sum_Z (take j quotas)) < points_below shard (b + sum_Z (take (S j) quotas)).
Proof.
  revert i b. induction quotas as [|q quotas IH]; intros i b Hb Hq Hsum.
  { simpl. rewrite Z.add_0_r. split; [lia|]. split; [constructor|]. split; [constructor | lia]. }
  apply Forall_cons in Hq as [Hq1 Hq]. cbn [sample_loop sum_Z foldr] in *. change (foldr Z.add 0) with sum_Z in *.
  assert (0 <= sum_Z quotas) by (apply sum_Z_nonneg; eapply Forall_impl; [exact Hq|]; simpl; lia).
  rewrite wrap128_small by (rewrite shards_value in *; lia).
  destruct (IH (S i) (b + q)) as (H1 & H2 & H3 & H4); [lia|done|lia|].
  rewrite owns_point_spec by (done || lia).
  pose proof (points_below_mono shard b (b + q) ltac:(lia)) as Hm.
  pose proof (points_below_step shard b (b + q) ltac:(lia)) as Hst.
  assert (i ∉ sample_loop shard replicas (S i) (b + q) quotas) as Hi.
  { intros Hi. rewrite Forall_forall in H2. specialize (H2 i Hi). simpl in H2. lia. }
  rewrite Z.add_assoc.
  split; [|split; [|split]].
  - destruct (Z.ltb_spec (points_below shard b) (points_below shard (b + q))); cbn [length]; lia.
  - assert (Forall (fun j => (i <= j < i + S (length quotas))%nat) (sample_loop shard replicas (S i) (b + q) quotas)) as Hf.
    { eapply Forall_impl; [exact H2|]. intros j. simpl. lia. }
    destruct (_ <? _); [constructor; [simpl; lia | done] | done].
  - destruct (_ <? _); [by constructor | done].
  - intros [|j] Hj; cbn [length] in Hj.
    + rewrite Nat.add_0_r. cbn [take sum_Z foldr]. change (foldr Z.add 0) with sum_Z.
      rewrite !Z.add_0_r. destruct (Z.ltb_spec (points_below shard b) (points_below shard (b + q))) as [Hl|Hl].
      * split; [done|]. intros _. by left.
      * split; [done | lia].
    + specialize (H4 j ltac:(lia)). rewrite <- Nat.add_succ_comm.
      change (take (S (S j)) (q :: quotas)) with (q :: take (S j) quotas).
      change (take (S j) (q :: quotas)) with (q :: take j quotas).
      cbn [sum_Z foldr]. change (foldr Z.add 0) with sum_Z. rewrite !Z.add_assoc, <- H4.
      destruct (_ <? _); [|done]. rewrite elem_of_cons. split; [|by right]. intros [?|?]; [lia | done].
Qed.
End sample.

Lemma fill_full replicas l selected : length selected = replicas -> foldl (fill_selected replicas) selected l = selected.
Proof.
  intros Hl. induction l as [|i l IH]; [done|]. cbn [foldl]. unfold fill_selected at 2.
  by rewrite Hl, Nat.ltb_irrefl.
Qed.

Lemma shard_of_bytes_range bs : 0 <= shard_of_bytes bs < placement_shards.
Proof.
  rewrite shards_value. unfold shard_of_bytes.
  pose proof (b2z_range (nth 0 bs x00)). pose proof (b2z_range (nth 1 bs x00)).
  pose proof (b2z_range (nth 2 bs x00)). pose proof (b2z_range (nth 3 bs x00)).
  rewrite !Z.shiftl_mul_pow2 by lia.
  split; [rewrite !Z.lor_nonneg; lia|].
  assert (forall a b, 0 <= a < 2 ^ 32 -> 0 <= b < 2 ^ 32 -> 0 <= Z.lor a b < 2 ^ 32) as Hlor.
  { intros a b Ha Hb. split; [rewrite Z.lor_nonneg; lia|].
    destruct (decide (Z.lor a b = 0)) as [->|Hne]; [lia|].
    assert (0 <= Z.lor a b) by (rewrite Z.lor_nonneg; lia).
    apply Z.log2_lt_pow2; [lia|]. rewrite Z.log2_lor by lia.
    apply Z.max_lub_lt; (destruct (decide (a = 0)); [|]; destruct (decide (b = 0)); subst; try (simpl; lia);
      apply Z.log2_lt_pow2; lia). }
  apply Hlor; [apply Hlor; [apply Hlor|]|]; lia.
Qed.

Lemma shard_for_range `{Sha256} key : 0 <= shard_for key < placement_shards.
Proof. apply shard_of_bytes_range. Qed.

(** What a sample is: as many owners as copies, none twice, each chosen by
    the shards whose points fall in its stretch of slots. *)
Lemma sample_ok `{Sha256} key capacities replicas :
  capacities_ok capacities -> (0 < replicas <= length capacities)%nat ->
  let selected := systematic_shard_sample key capacities replicas in
  let quotas := shard_quotas capacities replicas in
  length selected = replicas /\ NoDup selected /\ Forall (fun i => (i < length capacities)%nat) selected /\
  forall i, (i < length capacities)%nat ->
    i ∈ selected <->
    points_below (shard_for key) (sum_Z (take i quotas)) <
    points_below (shard_for key) (sum_Z (take (S i) quotas)).
Proof.
  intros Hc HR selected quotas. destruct (shard_quotas_ok capacities replicas Hc HR) as [[Hl Hq Hsum] _].
  fold quotas in Hl, Hq, Hsum. pose proof (shard_for_range key) as Hs. pose proof Hc as [_ Hlen].
  destruct (sample_loop_ok (shard_for key) replicas Hs ltac:(lia) quotas 0 0 ltac:(lia) Hq ltac:(lia))
    as (H1 & H2 & H3 & H4).
  rewrite Z.add_0_l, Hsum, points_below_all, points_below_0 in H1 by done.
  assert (selected = sample_loop (shard_for key) replicas 0 0 quotas) as ->.
  { unfold selected, systematic_shard_sample. destruct capacities as [|x l]; [simpl in HR; lia|].
    destruct replicas as [|r]; [lia|]. rewrite Nat.min_l by lia. apply fill_full. lia. }
  split; [lia|]. split; [done|]. split.
  - eapply Forall_impl; [exact H2|]. intros j. simpl. lia.
  - intros i Hi. rewrite <- Hl in Hi. exact (H4 i Hi).
Qed.

(** Over all shards, each stretch of slots is chosen once for each slot. *)
Lemma points_below_sum x :
  0 <= x -> sum_Z ((fun s => points_below s x) <$> seqZ 0 placement_shards) = x.
Proof.
  revert x. apply natlike_ind.
  - rewrite (sum_map_ext _ (fun _ => 0)); [rewrite sum_map_const; lia|].
    apply Forall_forall. intros s [Hs1 Hs2]%elem_of_seqZ. apply points_below_0. lia.
  - intros x Hx IH.
    assert (seqZ 0 placement_shards = seqZ 0 (placement_shards - 1) ++ [placement_shards - 1]) as E1.
    { change [placement_shards - 1] with (seqZ (0 + (placement_shards - 1)) 1).
      rewrite <- (seqZ_app 0 (placement_shards - 1) 1) by (rewrite ?shards_value; lia). f_equal. }
    assert (seqZ (-1) placement_shards = -1 :: seqZ 0 (placement_shards - 1)) as E2.
    { rewrite seqZ_cons by (rewrite shards_value; lia). do 2 f_equal. }
    assert ((fun s => points_below s (Z.succ x)) <$> seqZ 0 placement_shards =
            (fun s => points_below s x) <$> seqZ (-1) placement_shards) as E3.
    { rewrite <- (fmap_add_seqZ (-1) 0), <- list_fmap_compose. apply list_fmap_ext. intros i s _.
      unfold compose, points_below. f_equal. lia. }
    rewrite E3, E2. rewrite E1, fmap_app, sum_Z_app in IH. cbn [fmap list_fmap sum_Z foldr] in IH |- *.
    change (foldr Z.add 0) with sum_Z. change (list_fmap _ _ ?f ?l) with (f <$> l) in *.
    assert (points_below (-1) x = points_below (placement_shards - 1) x + 1); [|lia].
    unfold points_below. replace (x - -1 + (placement_shards - 1)) with (x + 1 * placement_shards) by lia.
    rewrite Z.div_add by (rewrite shards_value; lia). do 2 f_equal. lia.
Qed.
