(* ===== verification/PlacementClaims.v ===== *)
(** * Placement: the theorems

    What the owners of an object are: for data, of metadata, and for one copy;
    how much the nodes can hold; and that every node works out the same. *)

From S2P Require Import Prelude Sorts Codec Journal Placement PlacementProofs.
Import Placement.

(** ** Failure domains *)

(** The nodes of one domain and their capacity together. *)
Definition in_domain (d : Bytes) (nodes : list NodeInfo) : list NodeInfo :=
  base.filter (fun node => domain_of node = d) nodes.
Definition total_capacity (nodes : list NodeInfo) : Z := Z.min u64_max (sum_Z (ni_capacity <$> nodes)).
Definition group_of (nodes : list NodeInfo) (d : Bytes) : CapacityEntity :=
  mkEntity d (total_capacity (in_domain d nodes)) (in_domain d nodes).

(** The domains in the order they first appear. *)
Definition first_seen (ds : list Bytes) (node : NodeInfo) : list Bytes :=
  if bool_decide (domain_of node ∈ ds) then ds else ds ++ [domain_of node].
Definition domains_seen (nodes : list NodeInfo) : list Bytes := foldl first_seen [] nodes.

Definition node_fits (node : NodeInfo) : Prop := 0 <= ni_capacity node < 2 ^ 64.

Lemma saturated_add_ok a b : 0 <= a -> 0 <= b <= u64_max -> saturated_add (Z.min u64_max a) b = Z.min u64_max (a + b).
Proof. intros Ha Hb. unfold saturated_add. destruct (Z.ltb_spec (u64_max - Z.min u64_max a) b); lia. Qed.

Lemma group_of_snoc nodes node d :
  Forall node_fits nodes -> node_fits node ->
  group_of (nodes ++ [node]) d =
  if decide (domain_of node = d) then
    mkEntity d (saturated_add (total_capacity (in_domain d nodes)) (ni_capacity node)) (in_domain d nodes ++ [node])
  else group_of nodes d.
Proof.
  intros Hf Hn. unfold group_of, in_domain. rewrite filter_app, filter_cons, filter_nil.
  destruct (decide (domain_of node = d)) as [E|E]; [|by rewrite app_nil_r].
  f_equal. unfold total_capacity. rewrite fmap_app, sum_Z_app. simpl. rewrite Z.add_0_r, saturated_add_ok; [done| |].
  - apply sum_Z_nonneg, Forall_fmap, Forall_forall. intros x [_ Hx]%list_elem_of_filter.
    rewrite Forall_forall in Hf. specialize (Hf x Hx). unfold node_fits in Hf. simpl. lia.
  - unfold node_fits, u64_max in *. lia.
Qed.

Lemma add_to_group_ok nodes node ds :
  Forall node_fits nodes -> node_fits node -> NoDup ds ->
  (domain_of node ∉ ds -> in_domain (domain_of node) nodes = []) ->
  add_to_group (domain_of node) node (group_of nodes <$> ds) =
  group_of (nodes ++ [node]) <$> (if bool_decide (domain_of node ∈ ds) then ds else ds ++ [domain_of node]).
Proof.
  intros Hf Hn Hnd Hnew. pose proof (fun d => group_of_snoc nodes node d Hf Hn) as Hg.
  induction ds as [|d ds IH].
  - rewrite bool_decide_false by apply not_elem_of_nil. cbn [fmap list_fmap add_to_group app].
    rewrite Hg, decide_True, Hnew by (done || apply not_elem_of_nil). cbn [app]. f_equal. f_equal.
    unfold total_capacity. cbn. rewrite saturated_add_ok; unfold node_fits, u64_max in *; lia.
  - apply NoDup_cons in Hnd as [Hd Hnd]. cbn [fmap list_fmap add_to_group ce_stable_id group_of].
    destruct (decide (d = domain_of node)) as [->|Hne].
    + rewrite !bool_decide_true by (done || by left). cbn [fmap list_fmap]. f_equal.
      * by rewrite Hg, decide_True.
      * apply list_fmap_ext. intros i x Hx. rewrite Hg, decide_False; [done|]. intros <-.
        by eapply Hd, list_elem_of_lookup_2.
    + rewrite bool_decide_false by done. rewrite IH; [|done|].
      2:{ intros Hn'. apply Hnew. rewrite not_elem_of_cons. by split. }
      assert (group_of nodes d = group_of (nodes ++ [node]) d) as -> by (rewrite Hg, decide_False; done).
      destruct (decide (domain_of node ∈ ds)) as [Hin|Hin].
      * rewrite !bool_decide_true by (done || by right). done.
      * rewrite !bool_decide_false; [done|rewrite not_elem_of_cons; by split|done].
Qed.

Lemma domains_seen_ok nodes :
  NoDup (domains_seen nodes) /\ forall d, d ∈ domains_seen nodes <-> exists node, node ∈ nodes /\ domain_of node = d.
Proof.
  induction nodes as [|node nodes [IH1 IH2]] using rev_ind.
  { split; [constructor|]. intros d. split; [by intros ?%not_elem_of_nil | by intros (x & ?%not_elem_of_nil & _)]. }
  unfold domains_seen. rewrite foldl_app. fold (domains_seen nodes). cbn [foldl]. unfold first_seen.
  assert (forall d, (exists x, x ∈ nodes ++ [node] /\ domain_of x = d) <-> d ∈ domains_seen nodes \/ d = domain_of node) as H.
  { intros d. rewrite IH2. setoid_rewrite elem_of_app. setoid_rewrite list_elem_of_singleton. split.
    - intros (x & [Hx| ->] & <-); [left; by exists x | by right].
    - intros [(x & Hx & <-)| ->]; [exists x | exists node]; auto. }
  case_bool_decide as Hin; split; [done| | |].
  - intros d. rewrite H. split; [by left|]. by intros [?| ->].
  - apply NoDup_app. split; [done|]. split; [|apply NoDup_singleton].
    intros x Hx ->%list_elem_of_singleton. done.
  - intros d. by rewrite H, elem_of_app, list_elem_of_singleton.
Qed.

Lemma groups_ok nodes :
  Forall node_fits nodes ->
  foldl (fun groups node => add_to_group (domain_of node) node groups) [] nodes = group_of nodes <$> domains_seen nodes.
Proof.
  induction nodes as [|node nodes IH] using rev_ind; intros Hf; [done|].
  apply Forall_app in Hf as [Hf Hn]. apply Forall_cons in Hn as [Hn _].
  unfold domains_seen. rewrite !foldl_app, IH by done. cbn [foldl]. fold (domains_seen nodes).
  destruct (domains_seen_ok nodes) as [H1 H2].
  rewrite add_to_group_ok; [done..|]. intros Hin. unfold in_domain. apply list_filter_none, Forall_forall.
  intros x Hx E. apply Hin, H2. eauto.
Qed.

(** A domain's group, its nodes in order of id. *)
Definition domain_group (nodes : list NodeInfo) (d : Bytes) : CapacityEntity := sort_group (group_of nodes d).

Lemma failure_domains_ok nodes :
  Forall node_fits nodes ->
  failure_domains nodes = domain_group nodes <$> stable_sort key_ltb (domains_seen nodes).
Proof.
  intros Hf. unfold failure_domains. rewrite groups_ok by done.
  assert (stable_sort (by_key ce_stable_id) (group_of nodes <$> domains_seen nodes) =
    group_of nodes <$> stable_sort key_ltb (domains_seen nodes)) as ->; [|rewrite <- list_fmap_compose; reflexivity].
  generalize (domains_seen nodes). intros ds. induction ds as [|d ds IH]; [done|].
  cbn [fmap list_fmap stable_sort foldr]. change (foldr (insert_by ?f) [] ?l) with (stable_sort f l).
  change (list_fmap _ _ ?f ?l) with (f <$> l). rewrite IH. clear IH.
  induction (stable_sort key_ltb ds) as [|e es IHe]; [done|]. cbn [insert_by fmap list_fmap].
  unfold by_key at 1. cbn [ce_stable_id group_of]. destruct (key_ltb e d); [|done]. cbn [fmap list_fmap]. by rewrite <- IHe.
Qed.

Lemma domains_perm nodes nodes' : nodes ≡ₚ nodes' -> domains_seen nodes ≡ₚ domains_seen nodes'.
Proof.
  intros Hp. destruct (domains_seen_ok nodes) as [N1 E1], (domains_seen_ok nodes') as [N2 E2].
  apply NoDup_Permutation; [done..|]. intros d. rewrite E1, E2. by setoid_rewrite Hp.
Qed.

Lemma id_sort_ext (l l' : list NodeInfo) :
  NoDup (ni_id <$> l) -> l ≡ₚ l' -> stable_sort (by_key ni_id) l = stable_sort (by_key ni_id) l'.
Proof.
  intros Hn Hp. apply stable_sort_ext; [apply by_key_weak| |done]. intros x y Hx Hy H1 H2.
  apply (NoDup_fmap_inj ni_id l); [done..|]. by apply by_key_apart.
Qed.

Lemma filter_ids_NoDup (P : NodeInfo -> Prop) `{!forall x, Decision (P x)} nodes :
  NoDup (ni_id <$> nodes) -> NoDup (ni_id <$> base.filter P nodes).
Proof.
  intros Hn. apply (sublist_NoDup _ (ni_id <$> nodes)); [done|]. apply fmap_sublist, sublist_filter.
Qed.

(** Failure domains do not depend on the order the nodes are listed in. *)
Lemma failure_domains_perm nodes nodes' :
  Forall node_fits nodes -> NoDup (ni_id <$> nodes) -> nodes ≡ₚ nodes' ->
  failure_domains nodes = failure_domains nodes'.
Proof.
  intros Hf Hn Hp. rewrite !failure_domains_ok; [|by rewrite <- Hp|done].
  rewrite (stable_sort_ext key_ltb (by_key_weak id) _ (domains_seen nodes')); [| |by apply domains_perm].
  2:{ intros x y _ _. apply key_total. }
  apply list_fmap_ext. intros i d _. unfold domain_group, sort_group, group_of. cbn. unfold in_domain. f_equal.
  - unfold total_capacity. f_equal. apply sum_Z_perm. by rewrite Hp.
  - apply id_sort_ext; [by apply filter_ids_NoDup | by rewrite Hp].
Qed.

(** What the groups are: a partition of the nodes by domain. *)
Lemma groups_facts nodes :
  Forall node_fits nodes ->
  let groups := failure_domains nodes in
  length groups = length (domains_seen nodes) /\ NoDup (ce_stable_id <$> groups) /\
  Forall (fun g => 0 <= ce_capacity g < 2 ^ 64 /\ ce_nodes g <> [] /\
    forall node, node ∈ ce_nodes g <-> node ∈ nodes /\ domain_of node = ce_stable_id g) groups.
Proof.
  intros Hf groups. unfold groups. rewrite failure_domains_ok by done.
  destruct (domains_seen_ok nodes) as [N E]. split; [by rewrite length_fmap, stable_sort_perm|]. split.
  - rewrite <- list_fmap_compose. unfold compose. cbn. change (fun x : Bytes => x) with (@id Bytes).
    by rewrite list_fmap_id, stable_sort_perm.
  - apply Forall_fmap, Forall_forall. intros d Hd%stable_sort_elem. unfold compose, domain_group. cbn.
    assert (forall node, node ∈ stable_sort (by_key ni_id) (in_domain d nodes) <-> node ∈ nodes /\ domain_of node = d) as Hm.
    { intros node. rewrite stable_sort_elem. unfold in_domain. rewrite list_elem_of_filter. tauto. }
    split; [|split; [|done]].
    + unfold total_capacity, u64_max. assert (0 <= sum_Z (ni_capacity <$> in_domain d nodes)); [|lia].
      apply sum_Z_nonneg, Forall_fmap, Forall_forall. intros x [_ Hx]%list_elem_of_filter.
      rewrite Forall_forall in Hf. specialize (Hf x Hx). unfold node_fits in Hf. simpl. lia.
    + apply E in Hd as (node & Hn & Hd). intros E0. assert (node ∈ @nil NodeInfo) as Hx by (rewrite <- E0; by apply Hm).
      by apply not_elem_of_nil in Hx.
Qed.

Section data.
Context `{Sha256}.

Lemma choose_ok key group :
  ce_nodes group <> [] -> Forall node_fits (ce_nodes group) -> Z.of_nat (length (ce_nodes group)) < 2 ^ 32 ->
  choose_within_group key group ∈ ce_nodes group.
Proof.
  intros Hne Hf Hl. unfold choose_within_group.
  destruct (ce_nodes group) as [|node [|node' rest]] eqn:E; [done | by left|]. rewrite <- E in *.
  set (k := abytes _).
  destruct (sample_ok k (ni_capacity <$> ce_nodes group) 1) as (H1 & _ & H3 & _).
  { split; [by apply Forall_fmap | by rewrite length_fmap]. }
  { rewrite length_fmap, E. simpl. lia. }
  destruct (systematic_shard_sample _ _ _) as [|i l]; [done|]. apply Forall_cons in H3 as [H3 _].
  rewrite length_fmap in H3. cbn [hd]. destruct (nth_in_or_default i (ce_nodes group) no_node) as [Hi|Hi].
  - by apply list_elem_of_In.
  - rewrite nth_lookup. destruct (lookup_lt_is_Some_2 _ _ H3) as [x Hx]. rewrite Hx. by eapply list_elem_of_lookup_2.
Qed.

(** Preferring nodes that are not there yet adds them at the end. *)
Lemma prefer_all {A} (f : A -> NodeInfo) l p :
  NoDup (ni_id <$> (p ++ (f <$> l))) -> foldl (fun p x => prefer p (f x)) p l = p ++ (f <$> l).
Proof.
  revert p. induction l as [|x l IH]; intros p Hn; [by rewrite app_nil_r|]. cbn [foldl fmap list_fmap].
  unfold prefer at 2. rewrite bool_decide_false.
  2:{ rewrite fmap_app in Hn. apply NoDup_app in Hn as (_ & Hn & _). intros Hx. apply (Hn _ Hx). by left. }
  rewrite IH by (by rewrite <- app_assoc). by rewrite <- app_assoc.
Qed.

Lemma nth_fmap_NoDup {A} (d : A) l at_ :
  NoDup l -> NoDup at_ -> Forall (fun i => (i < length l)%nat) at_ -> NoDup ((fun i => nth i l d) <$> at_).
Proof.
  intros Hl His Hin. apply NoDup_fmap_2_strong; [|done]. intros i j Hi Hj E. rewrite Forall_forall in Hin.
  rewrite !nth_lookup in E.
  destruct (lookup_lt_is_Some_2 _ _ (Hin i Hi)) as [x Hx], (lookup_lt_is_Some_2 _ _ (Hin j Hj)) as [y Hy].
  rewrite Hx, Hy in E. simpl in E. rewrite <- E in Hy. exact (NoDup_lookup l i j x Hl Hx Hy).
Qed.

Lemma nth_elem {A} (d : A) l i : (i < length l)%nat -> nth i l d ∈ l.
Proof.
  intros Hi. rewrite nth_lookup. destruct (lookup_lt_is_Some_2 _ _ Hi) as [x Hx]. rewrite Hx.
  by eapply list_elem_of_lookup_2.
Qed.

(** Nodes listed once each, with capacities in range. *)
Record nodes_ok (nodes : list NodeInfo) : Prop := {
  no_ids : NoDup (ni_id <$> nodes);
  no_fit : Forall node_fits nodes;
  no_count : Z.of_nat (length nodes) < 2 ^ 32
}.

Lemma nodes_ok_perm nodes nodes' : nodes ≡ₚ nodes' -> nodes_ok nodes -> nodes_ok nodes'.
Proof. intros Hp [H1 H2 H3]. split; by rewrite <- Hp. Qed.

Lemma ids_of_nodes nodes p : nodes_ok nodes -> NoDup p -> (forall x, x ∈ p -> x ∈ nodes) -> NoDup (ni_id <$> p).
Proof.
  intros Hn Hp Hin. apply NoDup_fmap_2_strong; [|done]. intros x y Hx Hy E.
  apply (NoDup_fmap_inj ni_id nodes); [apply Hn | auto..].
Qed.

(** The preferred nodes and the rest are all of them. *)
Lemma chosen_and_rest nodes p :
  nodes_ok nodes -> NoDup p -> (forall x, x ∈ p -> x ∈ nodes) -> p ++ not_chosen p nodes ≡ₚ nodes.
Proof.
  intros Hn Hp Hin. pose proof (NoDup_fmap_1 _ _ (no_ids _ Hn)) as Hnd.
  assert (forall x, x ∈ not_chosen p nodes <-> x ∈ nodes /\ x ∉ p) as Hc.
  { intros x. unfold not_chosen. rewrite list_elem_of_filter. split.
    - intros [H1 H2]. split; [done|]. intros Hx. by apply H1, list_elem_of_fmap_2.
    - intros [H1 H2]. split; [|done]. intros (y & E & Hy)%list_elem_of_fmap. apply H2.
      by rewrite (NoDup_fmap_inj ni_id nodes x y (no_ids _ Hn) H1 (Hin y Hy) E). }
  apply NoDup_Permutation; [|done|].
  - apply NoDup_app. split; [done|]. split; [|by apply NoDup_filter]. intros x Hx [_ Hy]%Hc. done.
  - intros x. rewrite elem_of_app, Hc. specialize (Hin x). destruct (decide (x ∈ p)); tauto.
Qed.

Section placed.
Context (key : Bytes) (nodes : list NodeInfo) (count : nat).
Context (Hn : nodes_ok nodes) (Hcount : (0 < count <= length nodes)%nat).
Let groups := failure_domains nodes.
Let diverse := Nat.min count (length groups).
Let selected := systematic_shard_sample key (capacities_of groups) diverse.
Let owner (i : nat) : NodeInfo := choose_within_group key (nth i groups no_entity).

Lemma groups_count : (0 < length groups <= length nodes)%nat.
Proof.
  destruct (groups_facts nodes (no_fit _ Hn)) as (Hl & _ & _). fold groups in Hl. rewrite Hl.
  destruct (domains_seen_ok nodes) as [N E]. split.
  - destruct nodes as [|x l]; [simpl in Hcount; lia|].
    assert (domain_of x ∈ domains_seen (x :: l)) as Hx by (apply E; exists x; split; [by left | done]).
    destruct (domains_seen (x :: l)); [by apply not_elem_of_nil in Hx | simpl; lia].
  - rewrite <- (length_fmap domain_of nodes). apply submseteq_length, NoDup_submseteq; [done|].
    intros d (x & Hx & <-)%E. by apply list_elem_of_fmap_2.
Qed.

Lemma selected_ok :
  length selected = diverse /\ NoDup selected /\ Forall (fun i => (i < length groups)%nat) selected.
Proof.
  pose proof groups_count as Hg. destruct (groups_facts nodes (no_fit _ Hn)) as (_ & _ & Hf). fold groups in Hf.
  destruct (sample_ok key (capacities_of groups) diverse) as (H1 & H2 & H3 & _).
  - split; [|unfold capacities_of; rewrite length_fmap; pose proof (no_count _ Hn); lia].
    apply Forall_fmap. eapply Forall_impl; [exact Hf|]. intros g (? & _). done.
  - unfold capacities_of. rewrite length_fmap. unfold diverse. lia.
  - unfold capacities_of in H3. rewrite length_fmap in H3. done.
Qed.

Lemma owner_ok i : (i < length groups)%nat -> owner i ∈ nodes /\ domain_of (owner i) = ce_stable_id (nth i groups no_entity).
Proof.
  intros Hi. destruct (groups_facts nodes (no_fit _ Hn)) as (_ & _ & Hf). fold groups in Hf.
  rewrite Forall_forall in Hf. destruct (Hf _ (nth_elem no_entity groups i Hi)) as (_ & Hne & Hm).
  apply Hm. apply choose_ok; [done| |].
  - apply Forall_forall. intros x [Hx _]%Hm. pose proof (no_fit _ Hn) as Hfit. rewrite Forall_forall in Hfit. by apply Hfit.
  - pose proof (no_count _ Hn). assert (length (ce_nodes (nth i groups no_entity)) <= length nodes)%nat; [|lia].
    unfold groups. rewrite failure_domains_ok by apply Hn. rewrite nth_lookup, list_lookup_fmap.
    destruct (_ !! i); simpl; [|lia]. rewrite stable_sort_perm. apply length_filter.
Qed.

(** One owner from each of as many domains as there are copies, or from every
    domain. *)
Lemma owners_ok :
  let preferred := owner <$> selected in
  length preferred = diverse /\ NoDup (domain_of <$> preferred) /\ NoDup preferred /\
  (forall x, x ∈ preferred -> x ∈ nodes) /\
  foldl (fun p index => prefer p (choose_within_group key (nth index groups no_entity))) [] selected = preferred.
Proof.
  intros preferred. destruct selected_ok as (H1 & H2 & H3).
  destruct (groups_facts nodes (no_fit _ Hn)) as (_ & Hids & _). fold groups in Hids.
  assert (NoDup (domain_of <$> preferred)) as Hd.
  { unfold preferred. rewrite <- list_fmap_compose.
    rewrite (list_fmap_ext _ (fun i => nth i (ce_stable_id <$> groups) []) selected).
    - apply nth_fmap_NoDup; [done..|]. by rewrite length_fmap.
    - intros j i Hi%list_elem_of_lookup_2. rewrite Forall_forall in H3. unfold compose.
      rewrite (proj2 (owner_ok i (H3 i Hi))). rewrite <- (map_nth ce_stable_id). done. }
  assert (NoDup preferred) as Hp by (by apply NoDup_fmap_1 in Hd).
  assert (forall x, x ∈ preferred -> x ∈ nodes) as Hin.
  { intros x (i & -> & Hi)%list_elem_of_fmap. rewrite Forall_forall in H3. by apply owner_ok, H3. }
  split; [unfold preferred; by rewrite length_fmap|]. split; [done|]. split; [done|]. split; [done|].
  apply (prefer_all owner selected []). by apply (ids_of_nodes nodes).
Qed.
End placed.

(** The extra nodes where there are more copies than domains. *)
Lemma extras_ok key nodes count preferred :
  nodes_ok nodes -> (count <= length nodes)%nat -> (length preferred < count)%nat ->
  NoDup preferred -> (forall x, x ∈ preferred -> x ∈ nodes) ->
  let remaining := stable_sort (by_key ni_id) (not_chosen preferred nodes) in
  let extra := systematic_shard_sample key (ni_capacity <$> remaining) (count - length preferred) in
  exists more, foldl (fun p index => prefer p (nth index remaining no_node)) preferred extra = preferred ++ more /\
    NoDup (preferred ++ more) /\ (forall x, x ∈ preferred ++ more -> x ∈ nodes) /\
    length (preferred ++ more) = count.
Proof.
  intros Hn Hc Hlt Hp Hin remaining extra.
  pose proof (chosen_and_rest nodes preferred Hn Hp Hin) as Hperm.
  assert (length remaining = length nodes - length preferred)%nat as Hlen.
  { unfold remaining. rewrite stable_sort_perm. apply Permutation_length in Hperm. rewrite length_app in Hperm. lia. }
  assert (forall x, x ∈ remaining -> x ∈ nodes /\ x ∉ preferred) as Hrem.
  { intros x Hx%stable_sort_elem. pose proof Hx as [H1 H2]%list_elem_of_filter. split; [done|].
    intros Hy. by apply H1, list_elem_of_fmap_2. }
  assert (NoDup remaining) as Hnd.
  { unfold remaining. rewrite stable_sort_perm. apply NoDup_filter, (NoDup_fmap_1 ni_id), Hn. }
  destruct (sample_ok key (ni_capacity <$> remaining) (count - length preferred)) as (H1 & H2 & H3 & _).
  - split; [|rewrite length_fmap; pose proof (no_count _ Hn); lia]. apply Forall_fmap, Forall_forall.
    intros x [Hx _]%Hrem. pose proof (no_fit _ Hn) as Hf. rewrite Forall_forall in Hf. by apply Hf.
  - rewrite length_fmap. lia.
  - fold extra in H1, H2, H3. rewrite length_fmap in H3.
    assert (forall x, x ∈ (fun i => nth i remaining no_node) <$> extra -> x ∈ remaining) as Hmore.
    { intros x (i & -> & Hi)%list_elem_of_fmap. rewrite Forall_forall in H3. by apply nth_elem, H3. }
    exists ((fun i => nth i remaining no_node) <$> extra).
    assert (NoDup (preferred ++ ((fun i => nth i remaining no_node) <$> extra))) as Hall.
    { apply NoDup_app. split; [done|]. split; [|by apply nth_fmap_NoDup].
      intros x Hx Hy%Hmore. by apply (Hrem x Hy). }
    assert (forall x, x ∈ preferred ++ ((fun i => nth i remaining no_node) <$> extra) -> x ∈ nodes) as Hsub.
    { intros x [Hx|Hx%Hmore]%elem_of_app; [by apply Hin | by apply Hrem]. }
    split; [apply (prefer_all (fun i => nth i remaining no_node)); by apply (ids_of_nodes nodes)|].
    split; [done|]. split; [done|]. rewrite length_app, length_fmap. lia.
Qed.

(** The four bytes of a shard's number name it. *)
Lemma shard_for_be s : 0 <= s < 2 ^ 32 -> shard_for (be_bytes 4 s) = s.
Proof.
  intros Hs. unfold shard_for. rewrite (length_be_bytes 4 s). cbn [Nat.leb].
  rewrite take_ge by (by rewrite length_be_bytes). unfold shard_of_bytes. rewrite be_bytes_4. cbn [nth].
  pose proof (b2z_range (z2b (Z.shiftr s 24))). pose proof (b2z_range (z2b (Z.shiftr s 16))).
  pose proof (b2z_range (z2b (Z.shiftr s 8))). pose proof (b2z_range (z2b s)).
  rewrite lor_shiftl by (rewrite ?Z.shiftl_mul_pow2; lia). rewrite (Z.shiftl_mul_pow2 _ 16) by lia.
  replace (b2z (z2b (Z.shiftr s 24)) * 2 ^ 24 + b2z (z2b (Z.shiftr s 16)) * 2 ^ 16)
    with (Z.shiftl (b2z (z2b (Z.shiftr s 24)) * 256 + b2z (z2b (Z.shiftr s 16))) 16)
    by (rewrite Z.shiftl_mul_pow2; lia).
  rewrite lor_shiftl by (rewrite ?Z.shiftl_mul_pow2; lia). rewrite (Z.shiftl_mul_pow2 _ 8) by lia.
  match goal with |- Z.lor (?a * 2 ^ 16 + ?b * 2 ^ 8) _ = _ =>
    replace (a * 2 ^ 16 + b * 2 ^ 8) with (Z.shiftl (a * 256 + b) 8) by (rewrite Z.shiftl_mul_pow2; lia) end.
  rewrite lor_shiftl by lia. rewrite !b2z_z2b, !Z.shiftr_div_pow2 by lia. Z.to_euclidean_division_equations. lia.
Qed.

Section claims.
Context `{LongDouble}.

Lemma fallback_weak key : strict_weak (fallback_ltb key).
Proof. apply then_by_weak, by_key_weak. Qed.

Lemma fallback_apart nodes key :
  NoDup (ni_id <$> nodes) ->
  forall x y, x ∈ nodes -> y ∈ nodes -> fallback_ltb key x y = false -> fallback_ltb key y x = false -> x = y.
Proof.
  intros Hn x y Hx Hy H1 H2. destruct (then_by_apart _ _ _ _ H1 H2) as (_ & H3 & H4).
  apply (NoDup_fmap_inj ni_id nodes); [done..|]. by apply by_key_apart.
Qed.

Lemma not_chosen_perm p nodes nodes' : nodes ≡ₚ nodes' -> not_chosen p nodes ≡ₚ not_chosen p nodes'.
Proof. intros Hp. unfold not_chosen. by rewrite Hp. Qed.

Lemma not_chosen_ids p nodes : NoDup (ni_id <$> nodes) -> NoDup (ni_id <$> not_chosen p nodes).
Proof. apply filter_ids_NoDup. Qed.

(** The owners of an object's data are all the nodes, each once: those
    preferred first and the fallbacks after them; and the first of them, one
    a copy, are in as many different failure domains as there are copies or
    domains. *)
Theorem data_owners (key : Bytes) (nodes : list NodeInfo) (count : nat) :
  nodes_ok nodes -> (0 < count)%nat ->
  let owners := capacity_placement_nodes key nodes count in
  owners ≡ₚ nodes /\ NoDup (domain_of <$> take (Nat.min count (length (domains_seen nodes))) owners).
Proof.
  intros Hn Hcount owners. unfold owners, capacity_placement_nodes.
  destruct (Nat.eqb_spec (length nodes) 0) as [E0|E0].
  { destruct nodes; [|done]. simpl. rewrite take_nil. split; [done | constructor]. }
  replace (count =? 0)%nat with false by (symmetry; apply Nat.eqb_neq; lia). cbn [orb].
  set (c := Nat.min count (length nodes)).
  assert (length (domains_seen nodes) <= length nodes)%nat as Hdom.
  { destruct (groups_facts nodes (no_fit _ Hn)) as (E & _). rewrite <- E.
    apply (groups_count key nodes 1 Hn). lia. }
  replace (Nat.min count (length (domains_seen nodes))) with (Nat.min c (length (domains_seen nodes))) by (unfold c; lia).
  destruct (Nat.eqb_spec c 1) as [E1|E1].
  { split; [apply stable_sort_perm|]. rewrite E1.
    destruct (stable_sort _ _) as [|x l]; [rewrite take_nil; constructor|].
    destruct (Nat.min_spec 1 (length (domains_seen nodes))) as [[_ ->]|[Hle ->]]; [apply NoDup_singleton|].
    destruct (length (domains_seen nodes)) as [|[|m]]; [constructor | apply NoDup_singleton | lia]. }
  destruct (owners_ok key nodes c Hn ltac:(unfold c; lia)) as (H1 & H2 & H3 & H4 & ->).
  destruct (groups_facts nodes (no_fit _ Hn)) as (Eg & _). rewrite <- Eg.
  set (preferred := _ <$> _) in *.
  assert (exists more, (if (length preferred <? c)%nat then
      foldl (fun p index => prefer p (nth index (stable_sort (by_key ni_id) (not_chosen preferred nodes)) no_node)) preferred
        (systematic_shard_sample (abytes (sha256 (key ++ lit "macha/data-extra-domain/v7")))
          (ni_capacity <$> stable_sort (by_key ni_id) (not_chosen preferred nodes)) (c - length preferred))
      else preferred) = preferred ++ more /\ NoDup (preferred ++ more) /\
      (forall x, x ∈ preferred ++ more -> x ∈ nodes)) as (more & -> & Hnd & Hin).
  { destruct (Nat.ltb_spec (length preferred) c) as [Hlt|Hge].
    - destruct (extras_ok (abytes (sha256 (key ++ lit "macha/data-extra-domain/v7"))) nodes c preferred Hn
        ltac:(unfold c; lia) Hlt H3 H4) as (more & -> & Hnd & Hin & _). by exists more.
    - exists []. by rewrite app_nil_r. }
  split; [rewrite stable_sort_perm; by apply chosen_and_rest|].
  rewrite <- H1, <- app_assoc, take_app_length. done.
Qed.

(** Every node that knows the same members works out the same owners in
    the same order, whatever order it lists the members in. *)
Theorem data_owners_agree (key : Bytes) (nodes nodes' : list NodeInfo) (count : nat) :
  nodes_ok nodes -> nodes ≡ₚ nodes' ->
  capacity_placement_nodes key nodes count = capacity_placement_nodes key nodes' count.
Proof.
  intros [Hids Hfit _] Hp. unfold capacity_placement_nodes. rewrite (Permutation_length Hp).
  destruct (_ || _); [done|]. destruct (_ =? 1)%nat.
  { apply stable_sort_ext; [apply fallback_weak | by apply fallback_apart | done]. }
  rewrite (failure_domains_perm nodes nodes') by done. cbv zeta. set (preferred := foldl _ [] _).
  rewrite (id_sort_ext (not_chosen preferred nodes) (not_chosen preferred nodes'))
    by (by apply not_chosen_ids || by apply not_chosen_perm).
  f_equal. apply stable_sort_ext; [apply fallback_weak | | by apply not_chosen_perm].
  by apply fallback_apart, not_chosen_ids.
Qed.

(** With one copy, a node that joins takes only objects of its own: an
    object's owner is who it was, or the newcomer. *)
Theorem newcomer_takes_only_its_own (key : Bytes) (nodes : list NodeInfo) (newcomer : NodeInfo) :
  nodes_ok (newcomer :: nodes) -> nodes <> [] ->
  exists before after, head (capacity_placement_nodes key nodes 1) = Some before /\
    head (capacity_placement_nodes key (newcomer :: nodes) 1) = Some after /\
    (after = newcomer \/ after = before).
Proof.
  intros [Hids _ _] Hne. unfold capacity_placement_nodes. destruct nodes as [|node nodes]; [done|].
  rewrite !Nat.min_l by (simpl; lia). cbn [length Nat.eqb orb].
  destruct (stable_sort (fallback_ltb (shard_key key)) (node :: nodes)) as [|x l] eqn:Ex.
  { exfalso. apply (f_equal length) in Ex. by rewrite stable_sort_perm in Ex. }
  destruct (stable_sort (fallback_ltb (shard_key key)) (newcomer :: node :: nodes)) as [|y l'] eqn:Ey.
  { exfalso. apply (f_equal length) in Ey. by rewrite stable_sort_perm in Ey. }
  exists x, y. split; [done|]. split; [done|].
  eapply (sort_head_cons _ (fallback_weak (shard_key key)) (node :: nodes)); [|exact Ex|exact Ey].
  by apply fallback_apart.
Qed.
End claims.

(** C29. Systematic sampling is exact: the owners of a shard are [replicas]
    different entities; the quotas they are drawn by add up to the slots there
    are, none above the number of shards, each within one of the entity's
    exact share of the greatest fill; and over all 2^32 shards every entity is
    chosen exactly its quota of times. *)
Theorem sampling_exact (capacities : list Z) (replicas : nat) :
  capacities_ok capacities -> (0 < replicas <= length capacities)%nat ->
  let level := water_level capacities replicas in
  let quotas := shard_quotas capacities replicas in
  (forall key, length (systematic_shard_sample key capacities replicas) = replicas /\
     NoDup (systematic_shard_sample key capacities replicas)) /\
  sum_Z quotas = Z.of_nat replicas * placement_shards /\
  (forall i c, capacities !! i = Some c -> 0 < wl_numerator level ->
     Z.abs (nth i quotas 0 * wl_numerator level -
       Z.min (c * wl_denominator level) (wl_numerator level) * placement_shards) <= wl_numerator level) /\
  (forall i, (i < length capacities)%nat ->
     sum_Z ((fun s => if bool_decide (i ∈ systematic_shard_sample (be_bytes 4 s) capacities replicas) then 1 else 0)
       <$> seqZ 0 placement_shards) = nth i quotas 0).
Proof.
  intros Hc HR level quotas. pose proof (shard_quotas_ok capacities replicas Hc HR) as [[Hl Hq Hsum] Hone].
  fold quotas level in Hl, Hq, Hsum, Hone. split; [|split; [done|split]].
  - intros key. by destruct (sample_ok key capacities replicas Hc HR) as (H1 & H2 & _).
  - intros i c Hi Hpos. destruct (Hone Hpos) as [_ Hm]. specialize (Hm i).
    pose proof (water_level_ok capacities replicas Hc HR) as Hlv. fold level in Hlv.
    pose proof Hc as [Hcs Hlen]. rewrite Forall_lookup in Hcs. specialize (Hcs i c Hi).
    destruct (quota_floor level c) as [q r] eqn:E.
    destruct (quota_floor_ok _ _ _ c q r Hlv Hc Hpos ltac:(lia) Hcs E) as (H1 & H2 & H3 & _).
    rewrite (nth_lookup (quota_floor level <$> capacities).*1), !list_lookup_fmap, Hi in Hm. cbn [fmap option_fmap option_map] in Hm.
    rewrite E in Hm. simpl in Hm. destruct Hm as [->|[-> _]]; lia.
  - intros i Hi. rewrite (sum_map_ext _ (fun s => points_below s (sum_Z (take (S i) quotas)) + -1 * points_below s (sum_Z (take i quotas)))).
    + assert (forall n, 0 <= sum_Z (take n quotas)) as Hnn.
      { intros n. apply sum_Z_nonneg, Forall_take. eapply Forall_impl; [exact Hq|]. simpl. lia. }
      rewrite sum_map_add, (sum_map_scale (fun s => points_below s _)), !points_below_sum by done.
      rewrite <- Hl in Hi. destruct (lookup_lt_is_Some_2 _ _ Hi) as [q E]. rewrite (take_S_r _ _ _ E), sum_Z_app, nth_lookup, E.
      simpl. lia.
    + apply Forall_forall. intros s [Hs1 Hs2]%elem_of_seqZ.
      destruct (sample_ok (be_bytes 4 s) capacities replicas Hc HR) as (_ & _ & _ & H4).
      specialize (H4 i Hi). fold quotas in H4. rewrite shard_for_be in H4 by (rewrite shards_value in *; lia).
      rewrite <- Hl in Hi. destruct (lookup_lt_is_Some_2 _ _ Hi) as [q E].
      rewrite Forall_lookup in Hq. specialize (Hq i q E).
      assert (sum_Z (take (S i) quotas) = sum_Z (take i quotas) + q) as Es
        by (rewrite (take_S_r _ _ _ E), sum_Z_app; simpl; lia).
      pose proof (points_below_mono s (sum_Z (take i quotas)) (sum_Z (take (S i) quotas)) ltac:(lia)).
      pose proof (points_below_step s (sum_Z (take i quotas)) (sum_Z (take (S i) quotas)) ltac:(lia)).
      case_bool_decide as Hb; rewrite H4 in Hb; lia.
Qed.

(** The logical capacity is the greatest there is: that much can be kept
    in [replicas] copies on different nodes, no node holding an object twice
    or more than its capacity, and no more that a [uint64_t] can say. *)
Theorem logical_capacity_greatest (capacities : list Z) (replicas : nat) :
  capacities_ok capacities -> (0 < replicas <= length capacities)%nat ->
  let most := max_logical_capacity capacities replicas in
  Z.of_nat replicas * most <= sum_Z (Z.min most <$> capacities) /\
  (forall fill, 0 <= fill <= u64_max -> Z.of_nat replicas * fill <= sum_Z (Z.min fill <$> capacities) -> fill <= most).
Proof.
  intros Hc HR most. pose proof (water_level_ok capacities replicas Hc HR) as [Hn Hd Hb Hg].
  unfold most, max_logical_capacity. set (level := water_level _ _) in *.
  set (num := wl_numerator level) in *. set (den := wl_denominator level) in *.
  destruct (Z.eqb_spec num 0) as [E|E].
  { split.
    - rewrite Z.mul_0_r. apply sum_Z_nonneg, Forall_fmap. destruct Hc as [Hcs _].
      eapply Forall_impl; [exact Hcs|]. intros c. simpl. lia.
    - intros fill Hf H1. specialize (Hg fill ltac:(lia) H1). nia. }
  pose proof (Z.mul_div_le num den ltac:(lia)) as Hdiv.
  assert (0 <= num / den) by (apply Z.div_pos; lia).
  set (m := Z.min (num / den) u64_max). assert (0 <= m /\ den * m <= num) as [Hm0 Hm] by (unfold m, u64_max; nia).
  split.
  - enough (num * (Z.of_nat replicas * m) <= num * sum_Z (Z.min m <$> capacities)) by nia.
    replace (num * (Z.of_nat replicas * m)) with (m * (Z.of_nat replicas * num)) by lia.
    rewrite <- Hb, <- !sum_map_scale. apply sum_map_le. destruct Hc as [Hcs _].
    eapply Forall_impl; [exact Hcs|]. intros c Hcc. cbn beta in *.
    destruct (Z.le_gt_cases m c); [rewrite (Z.min_l m c) by done; nia|].
    rewrite (Z.min_r m c) by lia. assert (c * den <= num) by nia. rewrite Z.min_l by done. nia.
  - intros fill Hf H1. specialize (Hg fill ltac:(lia) H1). unfold m.
    apply Z.min_glb; [|lia]. apply Z.div_le_lower_bound; lia.
Qed.

(** ** Rendezvous *)

Lemma scored_weak : strict_weak scored_ltb.
Proof.
  destruct (then_by_weak (A := Hash256 * NodeInfo) fst (by_key (fun s => ni_id s.2)) (by_key_weak _)) as [H1 H2].
  split; unfold scored_ltb; [intros x y; apply H1 | intros x y z Hyx Hzy; by apply (H2 z y x)].
Qed.

(** What the two passes keep of what they have taken. *)
Record taken_ok (count : nat) (nodes : list NodeInfo) (t : Taken) : Prop := {
  tn_length : (length (tk_out t) <= count)%nat;
  tn_domains : forall d, d ∈ tk_domains t -> d ∈ rendezvous_domain <$> tk_out t;
  tn_chosen : forall i, i ∈ tk_chosen t <-> i ∈ ni_id <$> tk_out t;
  tn_ids : NoDup (ni_id <$> tk_out t);
  tn_from : forall x, x ∈ tk_out t -> x ∈ nodes
}.

Lemma taken_ok_snoc count nodes t x ds :
  taken_ok count nodes t -> length (tk_out t) <> count -> ni_id x ∉ ni_id <$> tk_out t -> x ∈ nodes ->
  (forall d, d ∈ ds -> d ∈ tk_domains t \/ d = rendezvous_domain x) ->
  taken_ok count nodes (mkTaken (tk_out t ++ [x]) ds (ni_id x :: tk_chosen t)).
Proof.
  intros [H1 H2 H3 H4 H5] Hl Hx Hn Hd. split; cbn [tk_out tk_domains tk_chosen].
  - rewrite length_app. simpl. lia.
  - intros d Hin. rewrite fmap_app, elem_of_app. destruct (Hd d Hin) as [?| ->]; [left; auto | right; by left].
  - intros i. rewrite fmap_app, elem_of_app, elem_of_cons, H3. cbn [fmap list_fmap]. rewrite list_elem_of_singleton. tauto.
  - rewrite fmap_app. apply NoDup_app. split; [done|]. split; [|apply NoDup_singleton].
    intros i Hi ->%list_elem_of_singleton. done.
  - intros y [Hy| ->%list_elem_of_singleton]%elem_of_app; auto.
Qed.

Lemma diverse_ok count nodes items t :
  NoDup (ni_id <$> nodes) -> taken_ok count nodes t -> NoDup (rendezvous_domain <$> tk_out t) ->
  (forall i, i ∈ rendezvous_domain <$> tk_out t -> i ∈ tk_domains t) -> (forall x, x ∈ items -> x.2 ∈ nodes) ->
  let t' := foldl (take_diverse count) t items in
  taken_ok count nodes t' /\ NoDup (rendezvous_domain <$> tk_out t') /\
  (length (tk_out t') = count \/
   forall d, d ∈ tk_domains t \/ d ∈ (fun x => rendezvous_domain x.2) <$> items -> d ∈ tk_domains t').
Proof.
  revert t. induction items as [|x items IH]; intros t Hids Ht Hnd Hseen Hin; cbn [foldl].
  { split; [done|]. split; [done|]. right. intros d [?|?%not_elem_of_nil]; done. }
  assert (forall y, y ∈ items -> y.2 ∈ nodes) as Hin' by (intros y Hy; apply Hin; by right).
  remember (take_diverse count t x) as t1 eqn:E1. unfold take_diverse in E1.
  destruct (Nat.eqb_spec (length (tk_out t)) count) as [Hf|Hf].
  { assert (foldl (take_diverse count) t1 items = t) as ->.
    { subst t1. clear -Hf. induction items as [|y items IH]; [done|]. cbn [foldl]. unfold take_diverse at 2.
      by rewrite Hf, Nat.eqb_refl. }
    split; [done|]. split; [done|]. by left. }
  case_bool_decide as Hd.
  - subst t1. destruct (IH t Hids Ht Hnd Hseen Hin') as (H1 & H2 & H3). split; [done|]. split; [done|].
    destruct H3 as [H3|H3]; [by left | right]. intros d [Hd'|Hd']; [apply H3; by left|].
    apply H3. apply elem_of_cons in Hd' as [->|?]; [by left | by right].
  - destruct (IH t1) as (H1 & H2 & H3).
    + done.
    + subst t1. apply taken_ok_snoc; [done|done| |apply Hin; by left|].
      * intros (y & E & Hy)%list_elem_of_fmap. apply Hd, Hseen, list_elem_of_fmap.
        exists y. split; [|done]. unfold rendezvous_domain.
        by rewrite (NoDup_fmap_inj ni_id nodes x.2 y Hids (Hin x ltac:(by left)) (tn_from _ _ _ Ht y Hy) E).
      * intros d [->|?]%elem_of_cons; auto.
    + subst t1. cbn [tk_out]. rewrite fmap_app. apply NoDup_app. split; [done|].
      split; [|apply NoDup_singleton]. intros d Hd' ->%list_elem_of_singleton. by apply Hd, Hseen.
    + subst t1. cbn [tk_out tk_domains]. intros d. rewrite fmap_app, elem_of_app, elem_of_cons.
      cbn [fmap list_fmap]. rewrite list_elem_of_singleton. intros [?|?]; [right; auto | by left].
    + done.
    + split; [done|]. split; [done|]. destruct H3 as [H3|H3]; [by left | right].
      intros d Hd'. apply H3. subst t1. cbn [tk_domains]. rewrite elem_of_cons. destruct Hd' as [?|Hd']; [auto|].
      apply elem_of_cons in Hd' as [->|?]; auto.
Qed.

Lemma any_ok count nodes items t :
  taken_ok count nodes t -> (forall x, x ∈ items -> x.2 ∈ nodes) ->
  let t' := foldl (take_any count) t items in
  taken_ok count nodes t' /\ (exists more, tk_out t' = tk_out t ++ more) /\
  (length (tk_out t') = count \/ forall x, x ∈ items -> ni_id x.2 ∈ ni_id <$> tk_out t').
Proof.
  revert t. induction items as [|x items IH]; intros t Ht Hin; cbn [foldl].
  { split; [done|]. split; [exists []; by rewrite app_nil_r|]. right. by intros x ?%not_elem_of_nil. }
  assert (forall y, y ∈ items -> y.2 ∈ nodes) as Hin' by (intros y Hy; apply Hin; by right).
  remember (take_any count t x) as t1 eqn:E1. unfold take_any in E1.
  assert (taken_ok count nodes t1 /\ (exists more, tk_out t1 = tk_out t ++ more) /\
    (length (tk_out t1) = count \/ ni_id x.2 ∈ ni_id <$> tk_out t1)) as (H1 & [m1 Em1] & H3).
  { destruct (Nat.eqb_spec (length (tk_out t)) count) as [Hf|Hf]; [|case_bool_decide as Hd]; subst t1.
    - split; [done|]. split; [exists []; by rewrite app_nil_r | by left].
    - split; [done|]. split; [exists []; by rewrite app_nil_r|]. right. by apply (tn_chosen _ _ _ Ht).
    - split; [|split; [by eexists|]].
      + apply taken_ok_snoc; [done|done| |apply Hin; by left|auto]. by rewrite <- (tn_chosen _ _ _ Ht).
      + right. cbn [tk_out]. rewrite fmap_app. apply elem_of_app. right. by left. }
  destruct (IH t1 H1 Hin') as (G1 & [m2 Em2] & G3). split; [done|].
  split; [exists (m1 ++ m2); by rewrite Em2, Em1, app_assoc|].
  destruct G3 as [G3|G3]; [by left|]. pose proof (tn_length _ _ _ G1) as Hl. rewrite Em2, length_app in Hl.
  destruct H3 as [H3|H3]; [left; rewrite Em2, length_app; lia|]. right. intros y [->|Hy]%elem_of_cons; [|by apply G3].
  rewrite Em2, fmap_app. apply elem_of_app. by left.
Qed.

(** The domains a list of nodes has, each once. *)
Definition rendezvous_domains (nodes : list NodeInfo) : list Bytes := remove_dups (rendezvous_domain <$> nodes).

Lemma scored_sort_elem key nodes x :
  x ∈ stable_sort scored_ltb ((fun node => (sha256 (key ++ abytes (ni_id node)), node)) <$> nodes) <->
  x.2 ∈ nodes /\ x.1 = sha256 (key ++ abytes (ni_id x.2)).
Proof.
  rewrite stable_sort_elem, list_elem_of_fmap. split.
  - by intros (node & -> & Hn).
  - destruct x as [h node]. simpl. intros [Hn ->]. by exists node.
Qed.

Lemma scored_ext key nodes nodes' :
  NoDup (ni_id <$> nodes) -> nodes ≡ₚ nodes' ->
  stable_sort scored_ltb ((fun node => (sha256 (key ++ abytes (ni_id node)), node)) <$> nodes) =
  stable_sort scored_ltb ((fun node => (sha256 (key ++ abytes (ni_id node)), node)) <$> nodes').
Proof.
  intros Hn Hp. apply stable_sort_ext; [apply scored_weak| |by rewrite Hp].
  intros x y Hx%(stable_sort_elem scored_ltb) Hy%(stable_sort_elem scored_ltb) H1 H2.
  apply scored_sort_elem in Hx as [Hx Ex], Hy as [Hy Ey].
  destruct (then_by_apart _ _ _ _ H1 H2) as (E & H3 & H4). destruct x as [hx x], y as [hy y]. simpl in *.
  f_equal; [done|]. apply (NoDup_fmap_inj ni_id nodes); [done..|]. exact (key_total (ni_id x) (ni_id y) H4 H3).
Qed.

(** Metadata is placed on as many different nodes as asked for, or on all
    there are; the first of them are in different failure domains, as many as
    there are; and every node works out the same whatever order it lists the
    members in. *)
Theorem metadata_owners (key : Bytes) (nodes : list NodeInfo) (count : nat) :
  NoDup (ni_id <$> nodes) ->
  let owners := rendezvous_nodes key nodes count in
  length owners = Nat.min count (length nodes) /\ NoDup (ni_id <$> owners) /\
  (forall x, x ∈ owners -> x ∈ nodes) /\
  NoDup (rendezvous_domain <$> take (Nat.min count (length (rendezvous_domains nodes))) owners) /\
  (forall nodes', nodes ≡ₚ nodes' -> rendezvous_nodes key nodes' count = owners).
Proof.
  intros Hn owners. unfold owners, rendezvous_nodes.
  pose proof (scored_sort_elem key nodes) as Hel.
  pose proof (scored_ext key nodes) as Hext.
  assert (length (stable_sort scored_ltb ((fun node => (sha256 (key ++ abytes (ni_id node)), node)) <$> nodes)) = length nodes) as Hlen
    by (by rewrite stable_sort_perm, length_fmap).
  rewrite Hlen. set (items := stable_sort _ _) in *. set (c := Nat.min count (length nodes)).
  destruct (diverse_ok c nodes items (mkTaken [] [] [])) as (T1 & D1 & C1); [done| |exact (NoDup_nil_2 (A := Bytes))|done|by intros x [? _]%Hel|].
  { split; cbn; [lia | by intros ? ?%not_elem_of_nil | done | exact (NoDup_nil_2 (A := NodeId)) | by intros ? ?%not_elem_of_nil]. }
  set (t1 := foldl (take_diverse c) _ _) in *.
  destruct (any_ok c nodes items t1 T1) as (T2 & [more Em] & C2); [by intros x [? _]%Hel|].
  set (t2 := foldl (take_any c) _ _) in *.
  assert (length (tk_out t2) = c) as Hl2.
  { destruct C2 as [C2|C2]; [done|]. pose proof (tn_length _ _ _ T2).
    assert (length (ni_id <$> nodes) <= length (ni_id <$> tk_out t2))%nat; [|rewrite !length_fmap in *; unfold c in *; lia].
    apply submseteq_length, NoDup_submseteq; [done|]. intros i (x & -> & Hx)%list_elem_of_fmap.
    apply (C2 (sha256 (key ++ abytes (ni_id x)), x)), Hel. done. }
  split; [done|]. split; [apply T2|]. split; [apply T2|]. split.
  - assert (Nat.min count (length (rendezvous_domains nodes)) <= length (tk_out t1))%nat as Hd.
    { destruct C1 as [C1|C1].
      - rewrite C1. unfold c. assert (length (rendezvous_domains nodes) <= length nodes)%nat; [|lia].
        rewrite <- (length_fmap rendezvous_domain nodes). unfold rendezvous_domains.
        apply submseteq_length, NoDup_submseteq; [apply NoDup_remove_dups|]. intros d. by rewrite elem_of_remove_dups.
      - etrans; [apply Nat.le_min_r|]. rewrite <- (length_fmap rendezvous_domain (tk_out t1)).
        apply submseteq_length, NoDup_submseteq; [apply NoDup_remove_dups|]. intros d Hd. unfold rendezvous_domains in Hd. rewrite elem_of_remove_dups in Hd.
        apply (tn_domains _ _ _ T1), C1. right. apply list_elem_of_fmap in Hd as (x & -> & Hx). apply list_elem_of_fmap.
        exists (sha256 (key ++ abytes (ni_id x)), x). split; [done|]. by apply Hel. }
    rewrite Em, take_app_le by done. rewrite fmap_take. eapply sublist_NoDup; [exact D1 | apply sublist_take].
  - intros nodes' Hp. unfold t2, t1, c. rewrite <- (Hext nodes' Hn Hp). fold items. by rewrite Hlen.
Qed.
End data.

(** ** Commit order *)

Lemma rank_weak (f : NodeInfo -> Rank) : strict_weak (fun a b => rank_ltb (f a) (f b)).
Proof.
  split; intros *; unfold rank_ltb;
    repeat match goal with |- context [?a <? ?b] => destruct (Z.ltb_spec a b) end; intros; try done; lia.
Qed.

(** A commit fans out to the same replicas in the order it should: the
    local one before every other, measured peers before unmeasured ones and
    by round trip among themselves. *)
Theorem commit_order (replicas : list NodeInfo) (local : NodeId) (latency : NodeId -> option Z) :
  let ordered := order_commit_replicas replicas local (Some latency) in
  ordered ≡ₚ replicas /\
  forall l1 a l2 b l3, ordered = l1 ++ a :: l2 ++ b :: l3 ->
    (ni_id b = local -> ni_id a = local) /\
    (ni_id a <> local -> forall rb, latency (ni_id b) = Some rb ->
      exists ra, latency (ni_id a) = Some ra /\ ra <= rb).
Proof.
  intros ordered. split; [apply stable_sort_perm|]. intros l1 a l2 b l3 E.
  pose proof (sort_in_order _ (rank_weak (rank local (Some latency))) replicas) as Hs.
  change (stable_sort _ replicas) with ordered in Hs. rewrite E in Hs. apply StronglySorted_app in Hs as (_ & _ & Hs).
  apply StronglySorted_cons in Hs as [Hs _]. rewrite Forall_forall in Hs.
  specialize (Hs b ltac:(apply elem_of_app; right; by left)). unfold rank, rank_ltb in Hs.
  repeat case_bool_decide; simpl in *; destruct (latency (ni_id a)) as [ra|], (latency (ni_id b)) as [rb|]; simpl in *;
    repeat match goal with H : context [?x <? ?y] |- _ => destruct (Z.ltb_spec x y) end; try done;
    (split; [done|]; intros ? r [= <-]; by eexists) || (split; [done|]; intros; congruence) || idtac.
Qed.

(** ** Four nodes in three failure domains *)

Module Nodes.
#[export] Existing Instance Sample.sha.
(** Scores by integer arithmetic. *)
#[export, refine] Instance scores : LongDouble := {
  ld := array 8;
  neg_log_over value weight := array_fit 8 (be_bytes 8 ((2 ^ 64 - value) / weight))
}.
Proof. all: apply _. Defined.

Definition node (i : byte) (domain : string) (capacity : Z) : NodeInfo :=
  mkNodeInfo (array_fit 16 [i]) [] (lit domain) 4000 capacity 0 0 0 1 3.
Definition joining : NodeInfo := node x04 "attic" 500.
Definition nodes : list NodeInfo := [node x01 "house" 1000; node x02 "house" 4000; node x03 "" 2000].

Lemma nodes_fine l : forallb (fun n => (0 <=? ni_capacity n) && (ni_capacity n <? 2 ^ 64)) l = true ->
  NoDup (ni_id <$> l) -> Z.of_nat (length l) < 2 ^ 32 -> nodes_ok l.
Proof.
  intros Hb Hn Hl. split; [done| |done]. apply Forall_forall. intros x Hx%list_elem_of_In.
  rewrite forallb_forall in Hb. specialize (Hb x Hx). unfold node_fits. lia.
Qed.
Lemma four_ok : nodes_ok (joining :: nodes).
Proof. apply nodes_fine; [by vm_compute | by apply (bool_decide_unpack _); vm_compute | by vm_compute]. Qed.
Lemma three_ok : nodes_ok nodes.
Proof. apply nodes_fine; [by vm_compute | by apply (bool_decide_unpack _); vm_compute | by vm_compute]. Qed.
Lemma capacities_fine : capacities_ok [1000; 4000; 2000].
Proof. split; [repeat constructor; lia | simpl; lia]. Qed.
End Nodes.

Section witnesses.
Import Nodes.

Lemma data_owners_witness :
  capacity_placement_nodes [x07] (joining :: nodes) 2 ≡ₚ joining :: nodes /\
  NoDup (domain_of <$> take (Nat.min 2 (length (domains_seen (joining :: nodes))))
    (capacity_placement_nodes [x07] (joining :: nodes) 2)).
Proof. apply (data_owners [x07] (joining :: nodes) 2); [apply four_ok | lia]. Defined.

Lemma data_owners_agree_witness :
  capacity_placement_nodes [x07] (joining :: nodes) 3 = capacity_placement_nodes [x07] (nodes ++ [joining]) 3.
Proof. apply (data_owners_agree [x07] (joining :: nodes)); [apply four_ok | apply Permutation_cons_append]. Defined.

Lemma newcomer_takes_only_its_own_witness :
  exists before after, head (capacity_placement_nodes [x07] nodes 1) = Some before /\
    head (capacity_placement_nodes [x07] (joining :: nodes) 1) = Some after /\ (after = joining \/ after = before).
Proof. apply (newcomer_takes_only_its_own [x07] nodes joining); [apply four_ok | done]. Defined.

Lemma metadata_owners_witness :
  length (rendezvous_nodes [x07] nodes 2) = Nat.min 2 (length nodes) /\
  NoDup (ni_id <$> rendezvous_nodes [x07] nodes 2) /\
  (forall x, x ∈ rendezvous_nodes [x07] nodes 2 -> x ∈ nodes) /\
  NoDup (rendezvous_domain <$> take (Nat.min 2 (length (rendezvous_domains nodes))) (rendezvous_nodes [x07] nodes 2)) /\
  (forall nodes', nodes ≡ₚ nodes' -> rendezvous_nodes [x07] nodes' 2 = rendezvous_nodes [x07] nodes 2).
Proof. apply (metadata_owners [x07] nodes 2), three_ok. Defined.

Lemma logical_capacity_greatest_witness :
  max_logical_capacity [1000; 4000; 2000] 2 = 3000 /\
  2 * 3000 <= sum_Z (Z.min 3000 <$> [1000; 4000; 2000]) /\
  (forall fill, 0 <= fill <= u64_max -> 2 * fill <= sum_Z (Z.min fill <$> [1000; 4000; 2000]) -> fill <= 3000).
Proof. split; [by vm_compute|]. apply (logical_capacity_greatest [1000; 4000; 2000] 2); [apply capacities_fine | simpl; lia]. Defined.

Lemma sampling_exact_witness :
  (forall key, length (systematic_shard_sample key [1000; 4000; 2000] 2) = 2%nat /\
     NoDup (systematic_shard_sample key [1000; 4000; 2000] 2)) /\
  sum_Z (shard_quotas [1000; 4000; 2000] 2) = 2 * placement_shards /\
  (forall i c, [1000; 4000; 2000] !! i = Some c -> 0 < wl_numerator (water_level [1000; 4000; 2000] 2) ->
     Z.abs (nth i (shard_quotas [1000; 4000; 2000] 2) 0 * wl_numerator (water_level [1000; 4000; 2000] 2) -
       Z.min (c * wl_denominator (water_level [1000; 4000; 2000] 2)) (wl_numerator (water_level [1000; 4000; 2000] 2)) *
         placement_shards) <= wl_numerator (water_level [1000; 4000; 2000] 2)) /\
  (forall i, (i < 3)%nat ->
     sum_Z ((fun s => if bool_decide (i ∈ systematic_shard_sample (be_bytes 4 s) [1000; 4000; 2000] 2) then 1 else 0)
       <$> seqZ 0 placement_shards) = nth i (shard_quotas [1000; 4000; 2000] 2) 0).
Proof. apply (sampling_exact [1000; 4000; 2000] 2); [apply capacities_fine | simpl; lia]. Defined.
End witnesses.
