(* ===== verification/Trie.v ===== *)
(** * The object trie: data and operations

    [src/src/ledger/object_trie.cpp], [object_trie.hpp]: the on-disk radix-256
    trie every ledger of the node is kept in. This file has its nodes, their
    encoding, the node cache, and the operations that read and rewrite the
    tree; [TrieShape], [TrieDisk] and [TrieOps] prove them right.

    A [Child] is a slot: where its subtree is saved, what it sums up as, and
    the subtree itself while it is in memory. Recursion over the tree goes
    down one byte of the id a level, so every recursive operation takes the
    number [k] of bytes left below the node it is at: the depth is [32 - k],
    and [k = 0] is where the source's [depth >= 32] guard stands. *)

From S2P Require Import Prelude Codec Journal.

(** ** Data *)

Abbreviation Rec := (ObjectId * Bytes)%type (only parsing).

Definition unsaved : Z := 2 ^ 64 - 1.
Definition leaf_max : Z := 128.
Definition value_max : Z := 16 * 1024.

Inductive Child : Type :=
  | mkChild (offset size count : Z) (hash : Hash256) (node : option Node)
with Node : Type :=
  | mkNode (depth : nat) (leaf : bool) (records : list Rec) (children : list Child)
           (count : Z) (hash : Hash256).

Definition c_offset (c : Child) : Z := let 'mkChild o _ _ _ _ := c in o.
Definition c_size (c : Child) : Z := let 'mkChild _ s _ _ _ := c in s.
Definition c_count (c : Child) : Z := let 'mkChild _ _ n _ _ := c in n.
Definition c_hash (c : Child) : Hash256 := let 'mkChild _ _ _ h _ := c in h.
Definition c_node (c : Child) : option Node := let 'mkChild _ _ _ _ n := c in n.
Definition n_depth (n : Node) : nat := let 'mkNode d _ _ _ _ _ := n in d.
Definition n_leaf (n : Node) : bool := let 'mkNode _ l _ _ _ _ := n in l.
Definition n_records (n : Node) : list Rec := let 'mkNode _ _ r _ _ _ := n in r.
Definition n_children (n : Node) : list Child := let 'mkNode _ _ _ c _ _ := n in c.
Definition n_count (n : Node) : Z := let 'mkNode _ _ _ _ c _ := n in c.
Definition n_hash (n : Node) : Hash256 := let 'mkNode _ _ _ _ _ h := n in h.

(** [Child{}]: nothing below it. *)
Definition no_child : Child := mkChild unsaved 0 0 (array_zero 32) None.
Definition c_empty (c : Child) : bool := c_count c =? 0.

(** A record set to a value, or erased. *)
Record Change : Type := mkChange { ch_id : ObjectId; ch_value : option Bytes }.

(** The first bytes of an id; the source's array is zero past [length], so the
    bytes before it say everything. *)
Abbreviation Prefix := Bytes (only parsing).
(** This prefix and one more byte. *)
Definition prefix_child (p : Prefix) (b : byte) : Prefix := p ++ [b].
Definition prefix_covers (p : Prefix) (id : ObjectId) : bool :=
  bool_decide (take (length p) (abytes id) = p).

(** What a subtree holds: its record count and hash; all zero for none. *)
Record Summary : Type := mkSummary { sm_count : Z; sm_hash : Hash256 }.
Definition no_summary : Summary := mkSummary 0 (array_zero 32).
Definition child_summary (c : Child) : Summary := mkSummary (c_count c) (c_hash c).

#[global] Instance summary_eq_dec : EqDecision Summary.
Proof. solve_decision. Defined.

(** The byte of an id a node at [depth] branches on. *)
Definition id_byte (depth : nat) (id : ObjectId) : byte := abyte id depth.

(** [std::find_if] from the front: the elements before the first that fails. *)
Fixpoint span {A} (p : A -> bool) (l : list A) : list A * list A :=
  match l with
  | [] => ([], [])
  | x :: l' => if p x then let '(a, b) := span p l' in (x :: a, b) else ([], l)
  end.

(** The loop that walks a sorted range a run of equal bytes at a time. Every
    turn takes at least one element, so the range's length bounds it. *)
Fixpoint runs_loop {A} (key : A -> byte) (fuel : nat) (l : list A) : list (byte * list A) :=
  match fuel, l with
  | S fuel', x :: _ =>
      let '(run, rest) := span (fun y => bool_decide (key y = key x)) l in
      (key x, run) :: runs_loop key fuel' rest
  | _, _ => []
  end.
Definition runs {A} (key : A -> byte) (l : list A) : list (byte * list A) :=
  runs_loop key (length l) l.

Definition kind_leaf : Z := 1.
Definition kind_interior : Z := 2.

(** Bytes a node takes in the cache: [sizeof] and [capacity()], which the
    compiler and the allocator choose. *)
Class Footprint : Type := footprint : Node -> Z.

(** ** Hashes and node construction *)

Section nodes.
Context `{Sha256}.

Definition write_record (r : Rec) : Writer.prog := Writer.fixed r.1 ;;; Writer.bytes r.2.

Definition leaf_hash (records : list Rec) : result Hash256 :=
  match records with
  | [] => Ok (array_zero 32)
  | _ =>
      bs ← Writer.run (Writer.u8 76 ;;; Writer.each write_record records);
      Ok (sha256 bs)
  end.

(** One non-empty slot's index, hash and count. *)
Definition write_slot (i : nat) (s : Summary) : Writer.prog :=
  if sm_count s =? 0 then Writer.skip
  else Writer.u8 (Z.of_nat i) ;;; Writer.fixed (sm_hash s) ;;; Writer.u64 (sm_count s).

Definition interior_hash (slots : list Summary) : result Hash256 :=
  bs ← Writer.run (Writer.u8 73 ;;; Writer.each id (imap write_slot slots));
  Ok (sha256 bs).

Definition make_leaf (depth : nat) (records : list Rec) : result Node :=
  h ← leaf_hash records;
  Ok (mkNode depth true records [] (Z.of_nat (length records)) h).

Definition make_interior (depth : nat) (children : list Child) : result Node :=
  h ← interior_hash (child_summary <$> children);
  Ok (mkNode depth false [] children (sum_u64 (c_count <$> children)) h).

Definition leaf_summary (records : list Rec) : result Summary :=
  h ← leaf_hash records; Ok (mkSummary (Z.of_nat (length records)) h).

Definition interior_summary (children : list Summary) : result Summary :=
  h ← interior_hash children; Ok (mkSummary (sum_u64 (sm_count <$> children)) h).

Definition child_of (node : Node) : Child :=
  mkChild unsaved 0 (n_count node) (n_hash node) (Some node).

Fixpoint build (k : nat) (records : list Rec) : result Child :=
  let depth := (32 - k)%nat in
  match records with
  | [] => Ok no_child
  | _ =>
      if Z.of_nat (length records) <=? leaf_max then
        n ← make_leaf depth records; Ok (child_of n)
      else
        match k with
        | O => Throw (LogicError "object trie: more records than ids allow")
        | S k' =>
            children ← foldM (fun children '(b, run) =>
                c ← build k' run; mret (<[b2n b := c]> children))
              (replicate 256 no_child) (runs (fun r : Rec => id_byte depth r.1) records);
            n ← make_interior depth children; Ok (child_of n)
        end
  end.

(** ** Encoding *)

(** [present[i / 8] |= 1U << (i % 8)] for each non-empty slot. *)
Definition present_bits (children : list Child) : Bytes :=
  foldl (fun bits i =>
      if c_empty (nth i children no_child) then bits
      else <[(i / 8)%nat :=
               z2b (Z.lor (b2z (nth (i / 8) bits x00)) (Z.shiftl 1 (Z.of_nat (i mod 8))))]> bits)
    (replicate 32 x00) (seq 0 256).

Definition write_child (c : Child) : Writer.prog :=
  if c_empty c then Writer.skip
  else if c_offset c =? unsaved then
    fun _ => Throw (LogicError "object trie: encoding a node with an unsaved child")
  else
    Writer.u64 (c_offset c) ;;; Writer.u32 (c_size c) ;;; Writer.u64 (c_count c) ;;;
    Writer.fixed (c_hash c).

Definition encode (n : Node) : result Bytes :=
  Writer.run
    (if n_leaf n then
       Writer.u8 kind_leaf ;;; Writer.u8 (Z.of_nat (n_depth n)) ;;;
       Writer.u32 (wrap32 (Z.of_nat (length (n_records n)))) ;;;
       Writer.each write_record (n_records n)
     else
       Writer.u8 kind_interior ;;; Writer.u8 (Z.of_nat (n_depth n)) ;;;
       Writer.raw (present_bits (n_children n)) ;;;
       Writer.each write_child (n_children n)).

(** Records read one by one, each after the one before it. *)
Fixpoint read_records (n : nat) (last : option ObjectId) : Reader.prog (list Rec) :=
  match n with
  | O => mret []
  | S n' =>
      id ← Reader.fixed 32;
      value ← Reader.bytes value_max;
      if match last with Some l => negb (key_ltb l id) | None => false end then
        Reader.throw (DecodeError "object trie leaf out of order")
      else rest ← read_records n' (Some id); mret ((id, value) :: rest)
  end.

(** Format 1 held a [u64] value a record. *)
Definition format1_value (value : Z) : result Bytes := Writer.run (Writer.u64 value).
Fixpoint read_format1 (n : nat) : Reader.prog (list (ObjectId * Z)) :=
  match n with
  | O => mret []
  | S n' =>
      id ← Reader.fixed 32; value ← Reader.u64;
      rest ← read_format1 n'; mret ((id, value) :: rest)
  end.
Definition format1_leaf_hash (l : list (ObjectId * Z)) : result Hash256 :=
  bs ← Writer.run (Writer.u8 76 ;;; Writer.each (fun '(id, v) => Writer.fixed id ;;; Writer.u64 v) l);
  Ok (sha256 bs).
Fixpoint format1_records (l : list (ObjectId * Z)) : result (list Rec) :=
  match l with
  | [] => Ok []
  | (id, v) :: l' => bs ← format1_value v; rest ← format1_records l'; Ok ((id, bs) :: rest)
  end.
Fixpoint ascending (l : list ObjectId) : bool :=
  match l with
  | a :: ((b :: _) as l') => key_ltb a b && ascending l'
  | _ => true
  end.

(** Whether slot [i] is present. *)
Definition slot_present (present : array 32) (i : nat) : bool :=
  negb (Z.land (b2z (abyte present (i / 8))) (Z.shiftl 1 (Z.of_nat (i mod 8))) =? 0).

Definition read_child : Reader.prog Child :=
  offset ← Reader.u64; size ← Reader.u32; count ← Reader.u64; hash ← Reader.fixed 32;
  if (offset =? unsaved) || (count =? 0) then
    Reader.throw (DecodeError "object trie child not saved")
  else mret (mkChild offset size count hash None).

Fixpoint read_children (present : array 32) (slots : list nat) : Reader.prog (list Child) :=
  match slots with
  | [] => mret []
  | i :: slots' =>
      c ← (if slot_present present i then read_child else mret no_child);
      rest ← read_children present slots';
      mret (c :: rest)
  end.

(** Lifts a result into a reading program. *)
Definition checked {A} (r : result A) : Reader.prog A := fun rd =>
  match r with Ok a => Ok (a, rd) | Throw e => Throw e end.

Definition decode (bs : Bytes) (format1 : bool) : result Node :=
  Reader.run
    (kind ← Reader.u8;
     depth ← Reader.u8;
     if 32 <=? depth then Reader.throw (DecodeError "object trie node too deep")
     else if kind =? kind_leaf then
       count ← Reader.u32;
       if (count =? 0) || (leaf_max <? count) then
         Reader.throw (DecodeError "object trie leaf of the wrong size")
       else if format1 then
         l ← read_format1 (Z.to_nat count);
         hash ← checked (format1_leaf_hash l);
         records ← checked (format1_records l);
         _ ← Reader.finish;
         if negb (ascending (records.*1)) then
           Reader.throw (DecodeError "object trie leaf out of order")
         else mret (mkNode (Z.to_nat depth) true records [] (Z.of_nat (length records)) hash)
       else
         records ← read_records (Z.to_nat count) None;
         _ ← Reader.finish;
         checked (make_leaf (Z.to_nat depth) records)
     else if negb (kind =? kind_interior) then
       Reader.throw (DecodeError "unknown object trie node")
     else
       present ← Reader.fixed 32;
       children ← read_children present (seq 0 256);
       _ ← Reader.finish;
       node ← checked (make_interior (Z.to_nat depth) children);
       if n_count node <=? leaf_max then
         Reader.throw (DecodeError "object trie interior node too small")
       else mret node) bs.

End nodes.

(** ** The cache of saved nodes *)

Module NodeCache.

(** Generation and offset. *)
Abbreviation Key := (Z * Z)%type.

Record t : Type := mk {
  entries : gmap Key (Node * Z);
  (** Most recently used first. *)
  recent : list Key;
  used : Z;
  bound : Z;
  loads : Z
}.

Definition empty (bound : Z) : t := mk ∅ [] 0 bound 0.

(** [recent_.splice(begin, recent_, it)]. *)
Definition to_front (key : Key) (l : list Key) : list Key :=
  key :: filter (fun k => k <> key) l.

Definition find (generation offset : Z) : ST t (option Node) := fun c =>
  match entries c !! (generation, offset) with
  | None => (Ok None, c)
  | Some (node, _) =>
      (Ok (Some node),
       mk (entries c) (to_front (generation, offset) (recent c)) (used c) (bound c) (loads c))
  end.

(** [while (used_ > bound_ && recent_.size() > 1)]: one entry goes a turn. *)
Fixpoint evict (fuel : nat) (c : t) : t :=
  match fuel with
  | O => c
  | S fuel' =>
      if (bound c <? used c) && (1 <? length (recent c))%nat then
        match last (recent c) with
        | None => c
        | Some victim =>
            let bytes := match entries c !! victim with Some (_, b) => b | None => 0 end in
            evict fuel' (mk (delete victim (entries c)) (removelast (recent c))
                            (used c - bytes) (bound c) (loads c))
        end
      else c
  end.

Definition insert (generation offset : Z) (node : Node) (bytes : Z) : ST t unit := fun c =>
  let c := mk (entries c) (recent c) (used c) (bound c) (loads c + 1) in
  let key := (generation, offset) in
  match entries c !! key with
  | Some _ => (Ok tt, c)
  | None =>
      (Ok tt,
       evict (length (recent c))
         (mk (<[key := (node, bytes)]> (entries c)) (key :: recent c) (used c + bytes)
             (bound c) (loads c)))
  end.

Definition in_generation (generation : Z) (e : Key * (Node * Z)) : Prop := e.1.1 = generation.
#[global] Instance in_generation_dec g e : Decision (in_generation g e).
Proof. unfold in_generation. apply _. Defined.

(** Erases every entry of a generation. *)
Definition drop_generation (generation : Z) (c : t) : t :=
  mk (filter (fun e => ~ in_generation generation e) (entries c))
     (filter (fun k => k.1 <> generation) (recent c))
     (used c - sum_Z ((fun e : Key * (Node * Z) => e.2.2) <$>
        map_to_list (filter (in_generation generation) (entries c))))
     (bound c) (loads c).

End NodeCache.

(** ** Reading *)

(** [k] more levels than an id has bytes: the source would index past the id.
    Unreachable from a well-formed trie ([TrieOps]). *)
Definition too_deep : exn := LogicError "object trie: deeper than an id".

Section read.
Context `{Sha256, Footprint}.

(** [load_from]: the node in memory, in the cache, or at its offset, checked
    against what its parent says of it. *)
Definition load_from (read : Z -> result Bytes) (generation : Z) (format1 : bool) (child : Child)
    : ST NodeCache.t Node :=
  match c_node child with
  | Some node => mret node
  | None =>
      if c_empty child || (c_offset child =? unsaved) then
        st_throw (LogicError "object trie: loading an empty child")
      else
        cached ← NodeCache.find generation (c_offset child);
        match cached with
        | Some node => mret node
        | None =>
            node ← st_lift (bs ← read (c_offset child); decode bs format1);
            if negb (bool_decide (n_hash node = c_hash child)) ||
               negb (n_count node =? c_count child) then
              st_throw (RuntimeError "object trie node does not match its parent")
            else
              _ ← NodeCache.insert generation (c_offset child) node (footprint node);
              mret node
        end
  end.

Context {S : Type} (load : Child -> ST S Node).

(** [std::lower_bound] then the comparison for equality. *)
Fixpoint leaf_find (id : ObjectId) (records : list Rec) : option Bytes :=
  match records with
  | [] => None
  | (rid, value) :: rest =>
      if key_ltb rid id then leaf_find id rest
      else if bool_decide (rid = id) then Some value else None
  end.

Fixpoint find_loop (k : nat) (node : Node) (id : ObjectId) : ST S (option Bytes) :=
  if n_leaf node then mret (leaf_find id (n_records node))
  else
    let child := nth (b2n (id_byte (n_depth node) id)) (n_children node) no_child in
    if c_empty child then mret None
    else
      match k with
      | O => st_throw too_deep
      | Datatypes.S k' => next ← load child; find_loop k' next id
      end.

Definition find (root : Child) (id : ObjectId) : ST S (option Bytes) :=
  if c_empty root then mret None
  else node ← load root; find_loop 32 node id.

(** Records of a leaf after a bound, until the limit. *)
Fixpoint collect_leaf (after : option ObjectId) (bounded : bool) (limit : nat)
    (records : list Rec) (out : list Rec) : list Rec :=
  match records with
  | [] => out
  | r :: rest =>
      if (limit <=? length out)%nat then out
      else if bounded && match after with Some a => negb (key_ltb a r.1) | None => false end then
        collect_leaf after bounded limit rest out
      else collect_leaf after bounded limit rest (out ++ [r])
  end.

Fixpoint collect (k : nat) (child : Child) (after : option ObjectId) (bounded : bool)
    (limit : nat) (out : list Rec) : ST S (list Rec) :=
  if c_empty child || (limit <=? length out)%nat then mret out
  else
    node ← load child;
    if n_leaf node then mret (collect_leaf after bounded limit (n_records node) out)
    else
      match k with
      | O => st_throw too_deep
      | Datatypes.S k' =>
          let start := if bounded then match after with
                                       | Some a => b2n (id_byte (n_depth node) a)
                                       | None => O
                                       end else O in
          foldM (fun out i =>
              if (length out <? limit)%nat then
                collect k' (nth i (n_children node) no_child) after
                  (bounded && (i =? start)%nat) limit out
              else mret out)
            out (seq start (256 - start))
      end.

Definition next (root : Child) (after : option ObjectId) (limit : nat) : ST S (list Rec) :=
  collect 32 root after (bool_decide (is_Some after)) limit [].

Fixpoint descend_loop (k : nat) (node : Node) (prefix : Prefix) : ST S (option Node) :=
  if negb (n_leaf node) && (n_depth node <? length prefix)%nat then
    let child := nth (b2n (nth (n_depth node) prefix x00)) (n_children node) no_child in
    if c_empty child then mret None
    else
      match k with
      | O => st_throw too_deep
      | Datatypes.S k' => next ← load child; descend_loop k' next prefix
      end
  else mret (Some node).

Definition descend (root : Child) (prefix : Prefix) : ST S (option Node) :=
  if c_empty root then mret None
  else node ← load root; descend_loop 32 node prefix.

(** Below a leaf: the covered records, a run of one byte at a time. *)
Fixpoint cover_runs (fuel : nat) (prefix : Prefix) (l : list Rec) : list (byte * list Rec) :=
  match fuel, l with
  | Datatypes.S fuel', r :: rest =>
      if negb (prefix_covers prefix r.1) then cover_runs fuel' prefix rest
      else
        let byte := id_byte (length prefix) r.1 in
        let '(group, rest') := span (fun e : Rec => prefix_covers prefix e.1 &&
          bool_decide (id_byte (length prefix) e.1 = byte)) l in
        (byte, group) :: cover_runs fuel' prefix rest'
  | _, _ => []
  end.

(** [Snapshot::children] for one prefix: the 256 subtrees one byte below it. *)
Definition children_of (root : Child) (prefix : Prefix) : ST S (list Summary) :=
  if (32 <=? length prefix)%nat then
    st_throw (LogicError "object trie: a whole id has no children")
  else
    node ← descend root prefix;
    match node with
    | None => mret (replicate 256 no_summary)
    | Some node =>
        if negb (n_leaf node) then mret (child_summary <$> n_children node)
        else
          (* below a leaf every subtree is a leaf of its own records *)
          st_lift (foldM (fun out '(b, group) =>
              s ← leaf_summary group; mret (<[b2n b := s]> out))
            (replicate 256 no_summary)
            (cover_runs (length (n_records node)) prefix (n_records node)))
    end.

(** [Snapshot::records] for one prefix: every record below it. *)
Definition records_of (root : Child) (prefix : Prefix) (most : Z) : ST S (list Rec) :=
  node ← descend root prefix;
  match node with
  | None => mret []
  | Some node =>
      if n_leaf node then
        mret (base.filter (fun r : Rec => prefix_covers prefix r.1 = true) (n_records node))
      else if most <? n_count node then
        st_throw (LengthError "object trie: more records below a prefix than asked for")
      else
        collect 32 (mkChild unsaved 0 (n_count node) (n_hash node) (Some node)) None false
          (Z.to_nat (n_count node)) []
  end.

End read.

(** ** Changing *)

Section change.
Context `{Sha256, Footprint} {F : Type} `{FrameStore F}.

(** The members [load], [gather] and [mutate] use: the node file, its
    generation, whether it is still in format 1, the cache, and the bytes of
    saved nodes that changes have superseded. *)
Record Core : Type := mkCore {
  co_nodes : F;
  co_generation : Z;
  co_format1 : bool;
  co_cache : NodeCache.t;
  co_superseded : Z
}.

Definition load (child : Child) : ST Core Node := fun s =>
  let '(r, cache) := load_from (fs_read_at (co_nodes s)) (co_generation s) (co_format1 s) child
                       (co_cache s) in
  (r, mkCore (co_nodes s) (co_generation s) (co_format1 s) cache (co_superseded s)).

(** [superseded_bytes_ += child.size], for a saved child. *)
Definition supersede (child : Child) : ST Core unit := fun s =>
  (Ok tt,
   if c_offset child =? unsaved then s
   else mkCore (co_nodes s) (co_generation s) (co_format1 s) (co_cache s)
          (wrap64 (co_superseded s + c_size child))).

Fixpoint gather (k : nat) (child : Child) (out : list Rec) (superseding : bool)
    : ST Core (list Rec) :=
  if c_empty child then mret out
  else
    node ← load child;
    _ ← (if superseding then supersede child else mret tt);
    if n_leaf node then mret (out ++ n_records node)
    else
      match k with
      | O => st_throw too_deep
      | S k' => foldM (fun out below => gather k' below out superseding) out (n_children node)
      end.

(** The changes merged into a leaf's sorted records. *)
Fixpoint take_below (id : ObjectId) (old : list Rec) : list Rec * list Rec :=
  match old with
  | r :: old' =>
      if key_ltb r.1 id then let '(a, b) := take_below id old' in (r :: a, b) else ([], old)
  | [] => ([], [])
  end.
Fixpoint merge_changes (old : list Rec) (changes : list Change) : list Rec :=
  match changes with
  | [] => old
  | change :: rest =>
      let '(below, at_) := take_below (ch_id change) old in
      let at_ := match at_ with
                 | r :: at' => if bool_decide (r.1 = ch_id change) then at' else at_
                 | [] => at_
                 end in
      below ++ match ch_value change with Some v => [(ch_id change, v)] | None => [] end ++
      merge_changes at_ rest
  end.

Fixpoint mutate (k : nat) (child : Child) (changes : list Change) : ST Core Child :=
  let depth := (32 - k)%nat in
  match changes with
  | [] => mret child
  | _ =>
      node ← (if c_empty child then mret None else n ← load child; mret (Some n));
      match node with
      | Some n =>
          if n_leaf n then
            _ ← supersede child;
            st_lift (build k (merge_changes (n_records n) changes))
          else
            match k with
            | O => st_throw too_deep
            | S k' =>
                _ ← supersede child;
                children ← foldM (fun children '(b, part) =>
                    c ← mutate k' (nth (b2n b) children no_child) part;
                    mret (<[b2n b := c]> children))
                  (n_children n) (runs (fun c => id_byte depth (ch_id c)) changes);
                if sum_u64 (c_count <$> children) <=? leaf_max then
                  all ← foldM (fun all below => gather k' below all true) [] children;
                  st_lift (build k all)
                else
                  st_lift (n' ← make_interior depth children; Ok (child_of n'))
            end
      | None => st_lift (build k (merge_changes [] changes))
      end
  end.

(** [child.node.reset()]. *)
Definition drop_node (c : Child) : Child :=
  mkChild (c_offset c) (c_size c) (c_count c) (c_hash c) None.

Fixpoint save (k : nat) (child : Child) : ST F Child :=
  if c_empty child || negb (c_offset child =? unsaved) then mret child
  else
    match c_node child with
    | None => st_throw (LogicError "object trie: an unsaved child without its node")
    | Some node =>
        saved ← (if n_leaf node then mret node
                 else
                   match k with
                   | O => st_throw too_deep
                   | S k' =>
                       children ← foldM (fun done c =>
                           c' ← save k' c;
                           mret (done ++ [if c_offset c' =? unsaved then c' else drop_node c']))
                         [] (n_children node);
                       st_lift (make_interior (n_depth node) children)
                   end);
        bytes ← st_lift (encode saved);
        before ← st_gets fs_bytes;
        offset ← fs_append bytes;
        after ← st_gets fs_bytes;
        mret (mkChild offset (wrap32 (after - before)) (n_count saved) (n_hash saved) None)
    end.

End change.
