(* ===== verification/ObjectTrie.v ===== *)
(** * The object trie as a ledger on disk

    [class ObjectTrie] of [src/src/ledger/object_trie.cpp]: the open trie with
    its node file, journal and published root; opening it from what a
    directory holds, journaling and installing changes, checkpointing,
    rewriting the node file, and snapshots. [TrieLedger] proves it right. *)

From S2P Require Import Prelude Codec Journal Trie.

Module ObjectTrie.

(** ** Constants *)

Definition tag8 (s : string) : array 8 := array_fit 8 (String.list_byte_of_string s).
Definition journal_aad : array 8 := tag8 "MACHLJ01".
Definition nodes_aad : array 8 := tag8 "MACHLN01".
Definition root_magic : array 8 := tag8 "MLTR0002".
Definition format1_root_magic : array 8 := tag8 "MLTR0001".
Definition max_frame : Z := 4 * 1024 * 1024.
Definition changes_per_frame : nat := Z.to_nat 65536.
Definition journal_version : Z := 2.
Definition format1_journal_version : Z := 1.

Record Options : Type := mkOptions {
  cache_bytes : Z;
  checkpoint_bytes : Z;
  rewrite_floor_bytes : Z
}.

(** What a directory holds: the published root, the journal, and a node file
    for each generation. *)
Record Disk : Type := mkDisk {
  d_root : option Bytes;
  d_journal : option Bytes;
  d_nodes : gmap Z Bytes
}.

(** The core over a sealed journal. *)
Abbreviation JCore := (Core (F := SealedJournal.t)).

(** ** The open trie

    The members of the class, and the files of its directory that no member
    holds: the published root and the node files of other generations. *)
Record t : Type := mk {
  core : JCore;
  journal : SealedJournal.t;
  root : Child;
  live_bytes : Z;
  checkpoints : Z;
  rewrites : Z;
  options : Options;
  key : array 32;
  root_file : option Bytes;
  other_nodes : gmap Z Bytes
}.

Definition set_core (c : JCore) (s : t) : t :=
  mk c (journal s) (root s) (live_bytes s) (checkpoints s) (rewrites s) (options s) (key s)
     (root_file s) (other_nodes s).
Definition set_journal (j : SealedJournal.t) (s : t) : t :=
  mk (core s) j (root s) (live_bytes s) (checkpoints s) (rewrites s) (options s) (key s)
     (root_file s) (other_nodes s).
Definition set_root (r : Child) (s : t) : t :=
  mk (core s) (journal s) r (live_bytes s) (checkpoints s) (rewrites s) (options s) (key s)
     (root_file s) (other_nodes s).
Definition set_live (l : Z) (s : t) : t :=
  mk (core s) (journal s) (root s) l (checkpoints s) (rewrites s) (options s) (key s)
     (root_file s) (other_nodes s).
Definition count_checkpoint (s : t) : t :=
  mk (core s) (journal s) (root s) (live_bytes s) (checkpoints s + 1) (rewrites s) (options s)
     (key s) (root_file s) (other_nodes s).
Definition count_rewrite (s : t) : t :=
  mk (core s) (journal s) (root s) (live_bytes s) (checkpoints s) (rewrites s + 1) (options s)
     (key s) (root_file s) (other_nodes s).
Definition set_root_file (f : option Bytes) (s : t) : t :=
  mk (core s) (journal s) (root s) (live_bytes s) (checkpoints s) (rewrites s) (options s)
     (key s) f (other_nodes s).
Definition set_other_nodes (m : gmap Z Bytes) (s : t) : t :=
  mk (core s) (journal s) (root s) (live_bytes s) (checkpoints s) (rewrites s) (options s)
     (key s) (root_file s) m.

Definition nodes (s : t) : SealedJournal.t := co_nodes (core s).
Definition generation (s : t) : Z := co_generation (core s).

Definition set_nodes (n : SealedJournal.t) (c : JCore) : JCore :=
  mkCore n (co_generation c) (co_format1 c) (co_cache c) (co_superseded c).
Definition set_superseded (z : Z) (c : JCore) : JCore :=
  mkCore (co_nodes c) (co_generation c) (co_format1 c) (co_cache c) z.
Definition set_format1 (b : bool) (c : JCore) : JCore :=
  mkCore (co_nodes c) (co_generation c) b (co_cache c) (co_superseded c).

(** A method of a member run on the whole object. *)
Definition on_core {A} (m : ST JCore A) : ST t A := fun s =>
  let '(r, c) := m (core s) in (r, set_core c s).
Definition on_journal {A} (m : ST SealedJournal.t A) : ST t A := fun s =>
  let '(r, j) := m (journal s) in (r, set_journal j s).
Definition on_nodes {A} (m : ST SealedJournal.t A) : ST t A := fun s =>
  let '(r, n) := m (nodes s) in (r, set_core (set_nodes n (core s)) s).

(** [root_.node = load(root_)], for a root that is not empty. *)
Definition with_node (c : Child) (n : Node) : Child :=
  mkChild (c_offset c) (c_size c) (c_count c) (c_hash c) (Some n).

Section ops.
Context `{Sha256, AesGcm, Entropy, Footprint}.

Definition load_root : ST t unit :=
  r ← st_gets root;
  if c_empty r then mret tt
  else n ← on_core (load r); st_modify (set_root (with_node r n)).

(** ** The published root *)

Definition write_root (gen : Z) (r : Child) (live : Z) : Writer.prog :=
  Writer.fixed root_magic ;;; Writer.u64 gen ;;; Writer.u64 (c_offset r) ;;;
  Writer.u32 (c_size r) ;;; Writer.u64 (c_count r) ;;; Writer.fixed (c_hash r) ;;;
  Writer.u64 live.

Definition encode_root (gen : Z) (r : Child) (live : Z) : result Bytes :=
  bs ← Writer.run (write_root gen r live);
  Writer.run (Writer.raw bs ;;; Writer.fixed (sha256 bs)).

(** [durable_replace_file]: the new contents, durably, or the old ones. *)
Definition publish_root : ST t unit :=
  s ← st_get;
  bs ← st_lift (encode_root (generation s) (root s) (live_bytes s));
  st_modify (set_root_file (Some bs)).

(** The root file read back: whether it is of format 1, the generation, the
    root and the live bytes. *)
Definition decode_root (bs : Bytes) : result (bool * Z * Child * Z) :=
  Reader.run
    (magic ← Reader.fixed 8;
     let format1 := bool_decide (magic = format1_root_magic) in
     if negb (bool_decide (magic = root_magic)) && negb format1 then
       Reader.throw (DecodeError "object trie root of another format")
     else
       gen ← Reader.u64; offset ← Reader.u64; size ← Reader.u32; count ← Reader.u64;
       hash ← Reader.fixed 32; live ← Reader.u64; check ← Reader.fixed 32;
       _ ← Reader.finish;
       if negb (bool_decide (sha256 (take (length bs - 32) bs) = check)) then
         Reader.throw (DecodeError "object trie root is damaged")
       else
         mret (format1, gen,
               if count =? 0 then no_child else mkChild offset size count hash None, live)) bs.

(** ** The journal's frames *)

Definition write_change (c : Change) : Writer.prog :=
  Writer.fixed (ch_id c) ;;;
  Writer.u8 (match ch_value c with Some _ => 1 | None => 0 end) ;;;
  match ch_value c with Some v => Writer.bytes v | None => Writer.skip end.

Definition encode_changes (part : list Change) : result Bytes :=
  Writer.run
    (Writer.u8 journal_version ;;; Writer.u32 (wrap32 (Z.of_nat (length part))) ;;;
     Writer.each write_change part).

Fixpoint read_changes (u64_values : bool) (n : nat) (last : option ObjectId)
    : Reader.prog (list Change) :=
  match n with
  | O => mret []
  | S n' =>
      id ← Reader.fixed 32;
      flag ← Reader.u8;
      value ← (if flag =? 0 then mret None
               else if u64_values then
                 v ← Reader.u64; bs ← checked (format1_value v); mret (Some bs)
               else v ← Reader.bytes value_max; mret (Some v));
      if match last with Some l => negb (key_ltb l id) | None => false end then
        Reader.throw (DecodeError "object trie journal frame out of order")
      else
        rest ← read_changes u64_values n' (Some id);
        mret (mkChange id value :: rest)
  end.

Definition decode_changes (plain : Bytes) : result (list Change) :=
  Reader.run
    (version ← Reader.u8;
     let u64_values := version =? format1_journal_version in
     if negb (version =? journal_version) && negb u64_values then
       Reader.throw (DecodeError "object trie journal of another version")
     else
       count ← Reader.u32;
       if Z.of_nat changes_per_frame <? count then
         Reader.throw (DecodeError "object trie journal frame too large")
       else
         changes ← read_changes u64_values (Z.to_nat count) None;
         _ ← Reader.finish;
         mret changes) plain.

(** [sorted_unique.subspan(from, changes_per_frame)], one after another. *)
Fixpoint chunks {A} (n fuel : nat) (l : list A) : list (list A) :=
  match fuel, l with
  | S fuel', _ :: _ => take n l :: chunks n fuel' (drop n l)
  | _, _ => []
  end.

Definition too_large (c : Change) : bool :=
  match ch_value c with Some v => value_max <? Z.of_nat (length v) | None => false end.

Definition write_part (part : list Change) : ST SealedJournal.t unit :=
  bs ← st_lift (encode_changes part); SealedJournal.append bs.

Definition write (sorted_unique : list Change) : ST t unit :=
  if existsb too_large sorted_unique then
    st_throw (InvalidArgument "object trie value too large")
  else
    foldM (fun _ part => on_journal (write_part part)) tt
      (chunks changes_per_frame (length sorted_unique) sorted_unique).

(** ** Checkpoints *)

Definition drop_root_node (s : t) : t := set_root (drop_node (root s)) s.

(** [save(root_)] and [nodes_->sync()], with the bytes accounted for. *)
Definition save_root : ST t unit :=
  before ← st_gets (fun s => SealedJournal.bytes (nodes s));
  r ← st_gets root;
  saved ← on_nodes (save 32 r);
  _ ← on_nodes SealedJournal.sync;
  after ← st_gets (fun s => SealedJournal.bytes (nodes s));
  let written := wrap64 (after - before) in
  st_modify (fun s =>
    let total := wrap64 (live_bytes s + written) in
    drop_root_node
      (set_root saved
        (set_live (wrap64 (total - Z.min total (co_superseded (core s))))
          (set_core (set_superseded 0 (core s)) s)))).

(** [copy]: the whole tree unsaved. *)
Fixpoint copy (k : nat) (child : Child) : ST JCore Child :=
  if c_empty child then mret no_child
  else
    node ← load child;
    if n_leaf node then
      st_lift (n ← make_leaf (n_depth node) (n_records node); Ok (child_of n))
    else
      match k with
      | O => st_throw too_deep
      | S k' =>
          children ← foldM (fun done c => c' ← copy k' c; mret (done ++ [c'])) [] (n_children node);
          st_lift (n ← make_interior (n_depth node) children; Ok (child_of n))
      end.

(** The next generation's node file, with everything saved into it. *)
Definition fill_next : ST t (Child * SealedJournal.t) :=
  s ← st_get;
  let fresh := SealedJournal.open None (key s) nodes_aad max_frame in
  copied ← on_core (copy 32 (root s));
  match save 32 copied fresh with
  | (Throw e, _) => st_throw e
  | (Ok rewritten, fresh) => mret (rewritten, (SealedJournal.sync fresh).2)
  end.

(** The switch to it: the members, the cache, the published root, and the old
    file removed. *)
Definition switch_next (rewritten : Child) (fresh : SealedJournal.t) : ST t unit :=
  s ← st_get;
  let old := generation s in
  _ ← st_modify (fun s =>
        set_live (SealedJournal.bytes fresh)
          (set_root rewritten
            (set_other_nodes (<[old := SealedJournal.contents (nodes s)]> (other_nodes s))
              (set_core (mkCore fresh (wrap64 (old + 1)) (co_format1 (core s))
                 (NodeCache.drop_generation old (co_cache (core s))) (co_superseded (core s))) s))));
  _ ← publish_root;
  _ ← st_modify (fun s => set_other_nodes (delete old (other_nodes s)) s);
  st_modify count_rewrite.

Definition rewrite_due (s : t) : bool :=
  let file := SealedJournal.bytes (nodes s) in
  (wrap64 (2 * live_bytes s) <? file) &&
  (rewrite_floor_bytes (options s) <? wrap64 (file - live_bytes s)).

Definition checkpoint : ST t unit :=
  _ ← save_root;
  _ ← publish_root;
  _ ← st_modify (fun s => set_journal (SealedJournal.reset (journal s)) s);
  _ ← st_modify count_checkpoint;
  _ ← load_root;
  s ← st_get;
  if rewrite_due s then
    next ← fill_next;
    _ ← switch_next next.1 next.2;
    load_root
  else mret tt.

(** ** Changes *)

Definition apply_unjournaled (changes : list Change) : ST t unit :=
  r ← st_gets root;
  r' ← on_core (mutate 32 r changes);
  st_modify (set_root r').

Definition checkpoint_if_due : ST t unit :=
  s ← st_get;
  if checkpoint_bytes (options s) <=? SealedJournal.bytes (journal s) then checkpoint else mret tt.

Definition install (sorted_unique : list Change) : ST t unit :=
  match sorted_unique with
  | [] => mret tt
  | _ => _ ← apply_unjournaled sorted_unique; checkpoint_if_due
  end.

(** Sorted by id, a later change to the same id winning. *)
Definition change_ltb (a b : Change) : bool := key_ltb (ch_id a) (ch_id b).
Definition unique_step (unique : list Change) (c : Change) : list Change :=
  match last unique with
  | Some l => if bool_decide (ch_id l = ch_id c) then removelast unique ++ [c] else unique ++ [c]
  | None => unique ++ [c]
  end.
Definition unique_changes (input : list Change) : list Change :=
  foldl unique_step [] (stable_sort change_ltb input).

Definition apply (input : list Change) : ST t unit :=
  match input with
  | [] => mret tt
  | _ =>
      let unique := unique_changes input in
      _ ← write unique; install unique
  end.

Definition replace_all (records : list Rec) : ST t unit :=
  _ ← st_modify (fun s => set_core (set_superseded (live_bytes s) (core s)) s);
  r ← st_lift (build 32 records);
  _ ← st_modify (set_root r);
  checkpoint.

(** ** Lookups *)

Definition get (id : ObjectId) : ST t (option Bytes) :=
  r ← st_gets root; on_core (Trie.find load r id).
Definition next (after : option ObjectId) (limit : nat) : ST t (list Rec) :=
  r ← st_gets root; on_core (Trie.next load r after limit).
Definition size (s : t) : Z := c_count (root s).
Definition root_hash (s : t) : Hash256 := c_hash (root s).

(** ** Opening *)

(** What is replayed: each frame decoded and applied. *)
Definition replay_frame (plain : Bytes) : ST t unit :=
  changes ← st_lift (decode_changes plain); apply_unjournaled changes.

Definition open_root (root_file : option Bytes) : result (bool * Z * Child * Z) :=
  match root_file with
  | None => Ok (false, 0, no_child, 0)
  | Some bs => decode_root bs
  end.

(** The members as they are before the journal is replayed; node files of
    other generations are removed. *)
Definition opened (disk : Disk) (k : array 32) (opts : Options) (r : bool * Z * Child * Z) : t :=
  let '(format1, gen, root, live) := r in
  mk (mkCore (SealedJournal.open (d_nodes disk !! gen) k nodes_aad max_frame) gen format1
        (NodeCache.empty (cache_bytes opts)) 0)
     (SealedJournal.open (d_journal disk) k journal_aad max_frame)
     root live 0 0 opts k (d_root disk) ∅.

(** Format 1 rewritten in the current one: each value becomes its eight
    bytes. *)
Definition upgrade : ST t unit :=
  s ← st_get;
  records ← next None (Z.to_nat (c_count (root s)));
  _ ← st_modify (fun s => set_core (set_format1 false (core s)) s);
  replace_all records.

Definition open (disk : Disk) (k : array 32) (opts : Options) : result t :=
  r ← open_root (d_root disk);
  match load_root (opened disk k opts r) with
  | (Throw e, _) => Throw e
  | (Ok _, s) =>
      let '(_, s, j) := SealedJournal.replay replay_frame max_frame s (journal s) in
      let s := set_journal j s in
      match (if co_format1 (core s) then upgrade else checkpoint_if_due) s with
      | (Throw e, _) => Throw e
      | (Ok _, s) => Ok s
      end
  end.

(** What a crash leaves of the directory: the published root, what was
    durable of the journal and the node file and any part of what was not;
    node files of other generations may or may not be there. *)
Definition crash (s : t) (disk : Disk) : Prop :=
  d_root disk = root_file s /\
  SealedJournal.crash_file (journal s) (d_journal disk) /\
  SealedJournal.crash_file (nodes s) (d_nodes disk !! generation s).

(** ** Snapshots *)

(** The root when it was taken and a reader of its node file; the cache is
    shared with the trie. *)
Record Snapshot : Type := mkSnapshot {
  sn_root : Child;
  sn_generation : Z;
  sn_file : SealedJournal.FrameReader
}.

Definition snapshot : ST t Snapshot :=
  _ ← on_nodes (st_modify SealedJournal.get_fd);
  s ← st_get;
  mret (mkSnapshot (root s) (generation s) (SealedJournal.reader (nodes s))).

Definition sn_load (sn : Snapshot) : Child -> ST NodeCache.t Node :=
  load_from (SealedJournal.reader_read_at (sn_file sn)) (sn_generation sn) false.

Definition sn_get (sn : Snapshot) (id : ObjectId) : ST NodeCache.t (option Bytes) :=
  Trie.find (sn_load sn) (sn_root sn) id.
Definition sn_next (sn : Snapshot) (after : option ObjectId) (limit : nat)
    : ST NodeCache.t (list Rec) :=
  if c_empty (sn_root sn) then mret [] else Trie.next (sn_load sn) (sn_root sn) after limit.
Definition sn_size (sn : Snapshot) : Z := c_count (sn_root sn).

(** The page loop of [ids()]: each full page has at least one id. *)
Fixpoint sn_ids_loop (sn : Snapshot) (fuel page_size : nat) (after : option ObjectId)
    (out : list ObjectId) : ST NodeCache.t (list ObjectId) :=
  match fuel with
  | O => mret out
  | S fuel' =>
      page ← sn_next sn after page_size;
      let out := out ++ page.*1 in
      if (length page <? page_size)%nat then mret out
      else sn_ids_loop sn fuel' page_size (last page.*1) out
  end.
Definition sn_ids (sn : Snapshot) : ST NodeCache.t (list ObjectId) :=
  sn_ids_loop sn (S (Z.to_nat (sn_size sn))) (Z.to_nat 4096) None [].

(** One answer a prefix, in order. *)
Definition sn_children (sn : Snapshot) (prefixes : list Prefix)
    : ST NodeCache.t (list (list Summary)) :=
  if c_empty (sn_root sn) then mret (replicate (length prefixes) (replicate 256 no_summary))
  else foldM (fun out p => c ← children_of (sn_load sn) (sn_root sn) p; mret (out ++ [c])) [] prefixes.
Definition sn_records (sn : Snapshot) (prefixes : list Prefix) (most : Z)
    : ST NodeCache.t (list (list Rec)) :=
  if c_empty (sn_root sn) then mret (replicate (length prefixes) [])
  else foldM (fun out p => r ← records_of (sn_load sn) (sn_root sn) p most; mret (out ++ [r])) [] prefixes.

End ops.

End ObjectTrie.
