(* ===== verification/TrieCache.v ===== *)
(** * The cache of saved nodes

    [ObjectTrie::NodeCache]: the list of recent keys and the map of entries
    stay in step, the byte count is the total of what is held, and an insert
    leaves no more than the bound, or the one node just read. *)

From S2P Require Import Prelude Codec Journal Trie.
Import NodeCache.

Definition bytes_of (m : gmap Key (Node * Z)) (k : Key) : Z :=
  match m !! k with Some (_, b) => b | None => 0 end.

(** [recent_] has each entry's key once, and [used_] is their total. *)
Record cache_wf (c : NodeCache.t) : Prop := {
  cw_nodup : NoDup (recent c);
  cw_keys : forall k, k ∈ recent c <-> is_Some (entries c !! k);
  cw_used : used c = sum_Z (bytes_of (entries c) <$> recent c)
}.

Lemma bytes_of_ext (m m' : gmap Key (Node * Z)) (l : list Key) :
  (forall k, k ∈ l -> m !! k = m' !! k) ->
  sum_Z (bytes_of m <$> l) = sum_Z (bytes_of m' <$> l).
Proof.
  intros Hext. f_equal. apply list_fmap_ext. intros i k Hk. unfold bytes_of.
  rewrite Hext; [done|]. by eapply list_elem_of_lookup_2.
Qed.

Lemma to_front_perm k l : NoDup l -> k ∈ l -> to_front k l ≡ₚ l.
Proof.
  intros Hnd Hk. unfold to_front. induction Hnd as [|x l Hx Hnd IH]; [by apply not_elem_of_nil in Hk|].
  rewrite filter_cons. destruct (decide (x <> k)) as [Hne|Heq].
  - apply elem_of_cons in Hk as [->|Hk]; [done|]. rewrite Permutation_swap. by rewrite IH.
  - apply dec_stable in Heq as ->. constructor. rewrite list_filter_all; [done|].
    apply Forall_forall. by intros y Hy ->.
Qed.

Lemma find_wf g off c : cache_wf c -> cache_wf (find g off c).2.
Proof.
  intros [Hnd Hk Hu]. unfold find. destruct (entries c !! (g, off)) as [[n b]|] eqn:E; [|by split].
  assert (to_front (g, off) (recent c) ≡ₚ recent c) as Hp by (apply to_front_perm; [done | by apply Hk; eexists]).
  split; cbn [snd recent entries used].
  - by rewrite Hp.
  - intros k. by rewrite Hp.
  - rewrite Hu. apply sum_Z_perm, fmap_Permutation. by rewrite Hp.
Qed.

(** What an eviction loop leaves: a well-formed cache within the bound, or
    with one entry. *)
Lemma evict_wf fuel c :
  cache_wf c -> (length (recent c) <= S fuel)%nat ->
  let c' := evict fuel c in
  cache_wf c' /\ (used c' <= bound c' \/ (length (recent c') <= 1)%nat) /\ bound c' = bound c /\
  (forall k, recent c !! 0%nat = Some k -> recent c' !! 0%nat = Some k).
Proof.
  revert c. induction fuel as [|fuel IH]; intros c Hwf Hl c'; [by split_and!; try right|].
  unfold c'. cbn [evict]. destruct (Z.ltb_spec (bound c) (used c)) as [Hb|Hb]; cbn [andb].
  2:{ split_and!; try done. by left. }
  destruct (Nat.ltb_spec 1 (length (recent c))) as [Hlen|Hlen].
  2:{ split_and!; try done. by right. }
  destruct (last (recent c)) as [victim|] eqn:El.
  2:{ apply last_None in El. rewrite El in Hlen. simpl in Hlen. lia. }
  apply last_Some in El as [init Ei]. rewrite Ei, removelast_last.
  destruct Hwf as [Hnd Hk Hu]. rewrite Ei in Hnd, Hk, Hu, Hl, Hlen.
  apply NoDup_app in Hnd as (Hni & Hdis & _).
  assert (victim ∉ init) as Hv by (intros Hin; apply (Hdis victim Hin); by left).
  destruct (IH (mk (delete victim (entries c)) init (used c - bytes_of (entries c) victim) (bound c) (loads c)))
    as (Hwf' & Hle & Hbd & Hhd).
  - split; simpl.
    + done.
    + intros k. split.
      * intros Hin. rewrite lookup_delete_ne by (intros ->; done). apply Hk, elem_of_app. by left.
      * intros [v Hx]. apply lookup_delete_Some in Hx as [Hne Hx].
        assert (k ∈ init ++ [victim]) as [?|Hs]%elem_of_app by (apply Hk; by eexists); [done|].
        apply list_elem_of_singleton in Hs. congruence.
    + rewrite Hu, fmap_app, sum_Z_app. cbn [fmap list_fmap sum_Z foldr].
      rewrite (bytes_of_ext (delete victim (entries c)) (entries c)); [lia|].
      intros k Hk'. apply lookup_delete_ne. by intros ->.
  - simpl. rewrite length_app in Hl. simpl in Hl. lia.
  - simpl in *. split_and!; try done. intros k Hk0. apply Hhd.
    destruct init; [simpl in Hlen; lia | done].
Qed.

Lemma insert_wf g off n b c :
  cache_wf c ->
  let c' := (insert g off n b c).2 in
  cache_wf c' /\ bound c' = bound c /\
  (entries c !! (g, off) = None ->
   (used c' <= bound c' \/ length (recent c') = 1%nat) /\ recent c' !! 0%nat = Some (g, off)).
Proof.
  intros [Hnd Hk Hu] c'. unfold c', insert. cbn [entries recent used bound].
  destruct (entries c !! (g, off)) as [x|] eqn:E.
  { cbn [snd]. split_and!; [by split | done | done]. }
  cbn [snd]. set (c1 := mk (<[(g, off) := (n, b)]> (entries c)) _ _ _ _).
  assert ((g, off) ∉ recent c) as Hfresh.
  { intros [v Hv]%Hk. congruence. }
  destruct (evict_wf (length (recent c)) c1) as (Hwf & Hle & Hbd & Hhd).
  - split; simpl.
    + by constructor.
    + intros k. rewrite elem_of_cons, Hk. destruct (decide (k = (g, off))) as [->|Hne].
      * rewrite lookup_insert_eq. split; [by eexists | by left].
      * rewrite lookup_insert_ne by done. split; [by intros [?|?] | by right].
    + cbn [fmap list_fmap sum_Z foldr]. unfold bytes_of at 1. rewrite lookup_insert_eq.
      change (foldr Z.add 0) with sum_Z. rewrite Hu.
      rewrite (bytes_of_ext (<[(g, off) := (n, b)]> (entries c)) (entries c)); [lia|].
      intros k Hk'. apply lookup_insert_ne. by intros <-.
  - simpl. lia.
  - specialize (Hhd (g, off) eq_refl). split_and!; [done..|]. intros _. split; [|done].
    destruct Hle as [?|Hle]; [by left | right].
    destruct (recent (evict _ c1)) as [|? [|]]; simpl in *; try done; lia.
Qed.

Lemma drop_generation_wf g c : cache_wf c -> cache_wf (drop_generation g c).
Proof.
  intros [Hnd Hk Hu]. unfold drop_generation. split; cbn [recent entries used].
  - by apply NoDup_filter.
  - intros k. rewrite list_elem_of_filter, Hk. split.
    + intros [Hg [v Hv]]. exists v. apply map_lookup_filter_Some. split; [done|]. by intros Hin.
    + intros [v [Hv Hn]%map_lookup_filter_Some]. split; [|by exists v]. intros E. by apply Hn.
  - set (in_g := base.filter (fun k : Key => k.1 = g) (recent c)).
    assert (sum_Z ((fun e : Key * (Node * Z) => e.2.2) <$> map_to_list (base.filter (in_generation g) (entries c))) =
            sum_Z (bytes_of (entries c) <$> in_g)) as ->.
    { transitivity (sum_Z (bytes_of (entries c) <$> (map_to_list (base.filter (in_generation g) (entries c))).*1)).
      - f_equal. rewrite <- list_fmap_compose. apply list_fmap_ext. intros i [k [n b]] Hi.
        apply list_elem_of_lookup_2, elem_of_map_to_list, map_lookup_filter_Some in Hi as [Hi _].
        simpl. unfold bytes_of. by rewrite Hi.
      - apply sum_Z_perm, fmap_Permutation, NoDup_Permutation.
        + apply NoDup_fst_map_to_list.
        + by apply NoDup_filter.
        + intros k. unfold in_g. rewrite list_elem_of_filter, Hk, list_elem_of_fmap. split.
          * intros ([k' v] & -> & [Hv Hg]%elem_of_map_to_list%map_lookup_filter_Some). split; [done | by exists v].
          * intros [Hg [v Hv]]. exists (k, v). split; [done|].
            apply elem_of_map_to_list, map_lookup_filter_Some. done. }
    set (rest := base.filter (fun k : Key => k.1 <> g) (recent c)).
    assert (sum_Z (bytes_of (entries c) <$> recent c) =
      sum_Z (bytes_of (entries c) <$> in_g) + sum_Z (bytes_of (entries c) <$> rest)) as Hsplit.
    { rewrite <- sum_Z_app, <- fmap_app. apply sum_Z_perm, fmap_Permutation.
      symmetry. apply (filter_app_complement (fun k : Key => k.1 = g)). }
    rewrite Hu, Hsplit, (bytes_of_ext (base.filter _ (entries c)) (entries c)); [lia|].
    intros k [Hg _]%list_elem_of_filter. destruct (entries c !! k) as [v|] eqn:E.
    + apply map_lookup_filter_Some. split; [done|]. by intros Hin.
    + apply map_lookup_filter_None. by left.
Qed.

(** The node cache keeps to its bound. Looking up, inserting and dropping a
    generation keep the list of recent keys and the map of entries in step,
    each key once, with [used_] the exact total of the bytes held; after an
    insert of a node that was not there, either the total is within the bound
    or the node just inserted is the only one, and it is the most recent; an
    insert never evicts it. *)
Theorem node_cache_bounded (c : NodeCache.t) (g off : Z) (n : Node) (b : Z) :
  cache_wf c ->
  let c' := (NodeCache.insert g off n b c).2 in
  cache_wf (NodeCache.find g off c).2 /\ cache_wf (NodeCache.drop_generation g c) /\ cache_wf c' /\
  (NodeCache.entries c !! (g, off) = None ->
   (NodeCache.used c' <= NodeCache.bound c \/ length (NodeCache.recent c') = 1%nat) /\
   NodeCache.recent c' !! 0%nat = Some (g, off)).
Proof.
  intros Hwf c'. destruct (insert_wf g off n b c Hwf) as (Hwf' & Hbd & Hin).
  split; [by apply find_wf|]. split; [by apply drop_generation_wf|]. split; [exact Hwf'|].
  intros E. destruct (Hin E) as [Hle Hhd]. split; [|exact Hhd]. unfold c' in *. by rewrite <- Hbd.
Qed.

Lemma empty_wf bound : cache_wf (NodeCache.empty bound).
Proof.
  split; simpl; [constructor | | done]. intros k. rewrite lookup_empty.
  split; [by intros ?%not_elem_of_nil | by intros [v ?]].
Qed.

(** Two nodes into a cache with room for one. *)
Definition one_node : NodeCache.t :=
  (NodeCache.insert 0 34 (mkNode 0 true [] [] 0 (array_zero 32)) 70 (NodeCache.empty 100)).2.

Lemma one_node_wf : cache_wf one_node.
Proof. apply insert_wf, empty_wf. Qed.

Lemma node_cache_bounded_witness :
  let c' := (NodeCache.insert 0 99 (mkNode 1 true [] [] 0 (array_zero 32)) 60 one_node).2 in
  cache_wf (NodeCache.find 0 99 one_node).2 /\ cache_wf (NodeCache.drop_generation 0 one_node) /\
  cache_wf c' /\
  (NodeCache.entries one_node !! (0, 99) = None ->
   (NodeCache.used c' <= NodeCache.bound one_node \/ length (NodeCache.recent c') = 1%nat) /\
   NodeCache.recent c' !! 0%nat = Some (0, 99)).
Proof. apply node_cache_bounded. apply one_node_wf. Defined.
