(* ===== verification/TrieShape.v ===== *)
(** * The trie's shape depends only on its records

    The reference definition of what a subtree sums up as ([canon]), computed
    from the sorted records alone; that [ObjectTrie::build] produces it; and
    the facts on ids, prefixes and runs of equal bytes the operations share. *)

From S2P Require Import Prelude Codec Journal Trie.

(** ** Ids that share their first bytes *)

(** [share key d l]: the ids of [l] agree on their first [d] bytes. *)
Definition share {A} (key : A -> ObjectId) (d : nat) (l : list A) : Prop :=
  forall x y, x ∈ l -> y ∈ l -> take d (abytes (key x)) = take d (abytes (key y)).

Section ids.

Lemma id_byte_lookup d (id : ObjectId) : (d < 32)%nat -> abytes id !! d = Some (id_byte d id).
Proof.
  intros Hd. unfold id_byte, abyte. rewrite nth_lookup.
  destruct (lookup_lt_is_Some_2 (abytes id) d) as [b ->]; [by rewrite array_length | done].
Qed.

Lemma take_S_byte d (id : ObjectId) :
  (d < 32)%nat -> take (S d) (abytes id) = take d (abytes id) ++ [id_byte d id].
Proof. intros Hd. apply take_S_r. by apply id_byte_lookup. Qed.

Lemma split_at_byte d (id : ObjectId) :
  (d < 32)%nat -> abytes id = take d (abytes id) ++ id_byte d id :: drop (S d) (abytes id).
Proof.
  intros Hd. rewrite <- (take_drop d (abytes id)) at 1. f_equal.
  apply drop_S. by apply id_byte_lookup.
Qed.

Lemma bytes_ltb_app p x a y b :
  bytes_ltb (p ++ x :: a) (p ++ y :: b) =
  if b2z x <? b2z y then true else if b2z y <? b2z x then false else bytes_ltb a b.
Proof. induction p as [|z p IH]; simpl; [done|]. by rewrite Z.ltb_irrefl. Qed.

Lemma id_lt_split d (a b : ObjectId) :
  (d < 32)%nat -> take d (abytes a) = take d (abytes b) ->
  key_ltb a b = if b2z (id_byte d a) <? b2z (id_byte d b) then true
                else if b2z (id_byte d b) <? b2z (id_byte d a) then false
                else bytes_ltb (drop (S d) (abytes a)) (drop (S d) (abytes b)).
Proof.
  intros Hd E. rewrite <- (bytes_ltb_app (take d (abytes b))). simpl.
  f_equal; [rewrite <- E|]; by apply split_at_byte.
Qed.

Lemma id_lt_byte_le d (a b : ObjectId) :
  (d < 32)%nat -> take d (abytes a) = take d (abytes b) -> key_lt a b ->
  b2z (id_byte d a) <= b2z (id_byte d b).
Proof.
  intros Hd E Hlt. unfold key_lt in Hlt. rewrite (id_lt_split d) in Hlt by done.
  destruct (Z.ltb_spec (b2z (id_byte d a)) (b2z (id_byte d b))); [lia|].
  destruct (Z.ltb_spec (b2z (id_byte d b)) (b2z (id_byte d a))); [done | lia].
Qed.

Lemma id_byte_lt d (a b : ObjectId) :
  (d < 32)%nat -> take d (abytes a) = take d (abytes b) ->
  b2z (id_byte d a) < b2z (id_byte d b) -> key_lt a b.
Proof.
  intros Hd E Hlt. unfold key_lt. rewrite (id_lt_split d) by done.
  by rewrite (proj2 (Z.ltb_lt _ _)).
Qed.

Lemma take_all_eq (a b : ObjectId) : take 32 (abytes a) = take 32 (abytes b) -> a = b.
Proof.
  intros E. apply array_eq.
  rewrite !firstn_all2 in E by (rewrite array_length; lia). done.
Qed.

Context {A : Type} (key : A -> ObjectId).

Lemma share_0 l : share key 0 l.
Proof. intros x y _ _. done. Qed.

Lemma share_incl d l l' : (forall x, x ∈ l' -> x ∈ l) -> share key d l -> share key d l'.
Proof. unfold share. eauto. Qed.

Lemma share_tail d x l : share key d (x :: l) -> share key d l.
Proof. apply share_incl. intros. by right. Qed.

(** Monotone in the branching byte. *)
Definition byte_sorted (d : nat) (l : list A) : Prop :=
  StronglySorted (fun x y => b2z (id_byte d (key x)) <= b2z (id_byte d (key y))) l.

Lemma sorted_byte_sorted d l :
  (d < 32)%nat -> share key d l -> sorted_keys (key <$> l) -> byte_sorted d l.
Proof.
  intros Hd. induction l as [|x l IH]; intros Hs Hk; [constructor|].
  rewrite fmap_cons in Hk.
  apply StronglySorted_cons in Hk as [Hf Hk]. apply StronglySorted_cons. split.
  - rewrite Forall_forall in Hf. apply Forall_forall. intros y Hy.
    apply (id_lt_byte_le d); [done | apply Hs; [left | by right] |].
    apply Hf. by apply list_elem_of_fmap_2.
  - apply IH; [by eapply share_tail | done].
Qed.

(** The elements under one byte. *)
Definition at_byte (d : nat) (b : byte) (l : list A) : list A :=
  base.filter (fun x => id_byte d (key x) = b) l.

Lemma elem_of_at_byte d b l x : x ∈ at_byte d b l <-> id_byte d (key x) = b /\ x ∈ l.
Proof. unfold at_byte. by rewrite list_elem_of_filter. Qed.

Lemma share_at_byte d b l : (d < 32)%nat -> share key d l -> share key (S d) (at_byte d b l).
Proof.
  intros Hd Hs x y [Hx Hxl]%elem_of_at_byte [Hy Hyl]%elem_of_at_byte.
  rewrite !take_S_byte by done. rewrite Hx, Hy. by rewrite (Hs x y).
Qed.

(** ** Runs *)

Lemma span_byte_sorted d (b : byte) l :
  byte_sorted d l -> Forall (fun x => b2z b <= b2z (id_byte d (key x))) l ->
  span (fun y => bool_decide (id_byte d (key y) = b)) l =
  (at_byte d b l, base.filter (fun x => id_byte d (key x) <> b) l).
Proof.
  unfold at_byte. induction l as [|x l IH]; intros Hs Hf; [done|].
  apply StronglySorted_cons in Hs as [Hx Hs]. apply Forall_cons in Hf as [Hb Hf].
  simpl. destruct (bool_decide_reflect (id_byte d (key x) = b)) as [E|E].
  - rewrite IH by done. rewrite !filter_cons, decide_True, decide_False by tauto. done.
  - assert (Forall (fun y => id_byte d (key y) <> b) (x :: l)) as Hall.
    { constructor; [done|]. rewrite Forall_forall in *. intros y Hy Ey.
      specialize (Hx y Hy). specialize (Hf y Hy). rewrite Ey in *.
      apply E, b2z_inj. lia. }
    f_equal.
    + symmetry. by apply list_filter_none.
    + symmetry. by apply list_filter_all.
Qed.

(** The walk a run at a time visits each byte present once, with exactly the
    elements under it. *)
Lemma runs_loop_spec d fuel l :
  byte_sorted d l -> (length l <= fuel)%nat ->
  let rs := runs_loop (fun x => id_byte d (key x)) fuel l in
  NoDup rs.*1 /\ forall b g, (b, g) ∈ rs <-> g = at_byte d b l /\ g <> [].
Proof.
  revert l. induction fuel as [|fuel IH]; intros l Hs Hl rs.
  - destruct l; [|simpl in Hl; lia]. split; [constructor|].
    intros b g. split; [by intros ?%not_elem_of_nil | by intros [-> []]].
  - destruct l as [|x l].
    { split; [constructor|]. intros b g. split; [by intros ?%not_elem_of_nil | by intros [-> []]]. }
    set (bx := id_byte d (key x)).
    assert (rs = (bx, at_byte d bx (x :: l)) ::
      runs_loop (fun x => id_byte d (key x)) fuel
        (base.filter (fun y => id_byte d (key y) <> bx) (x :: l))) as Ers.
    { subst rs. cbn [runs_loop]. rewrite (span_byte_sorted d bx); [done | done |].
      apply StronglySorted_cons in Hs as [Hx _]. constructor; [done | exact Hx]. }
    set (rest := base.filter _ (x :: l)) in Ers.
    assert (byte_sorted d rest) as Hs' by (by apply StronglySorted_filter).
    assert (length rest < length (x :: l))%nat as Hlt.
    { apply (length_filter_lt _ _ x); [by left | by intros []]. }
    destruct (IH rest Hs' ltac:(simpl in *; lia)) as [Hnd Hin]. rewrite Ers. split.
    + simpl. constructor; [|done]. intros ([b g] & Eb & Hbg)%list_elem_of_fmap.
      simpl in Eb. subst b. apply Hin in Hbg as [-> Hne]. apply Hne.
      unfold at_byte, rest. apply list_filter_none, Forall_forall.
      intros y [Hy _]%list_elem_of_filter. done.
    + intros b g. rewrite elem_of_cons, Hin.
      assert (b <> bx -> at_byte d b rest = at_byte d b (x :: l)) as Hother.
      { intros Hb. unfold at_byte, rest. rewrite list_filter_filter_l; [done|].
        intros y -> . done. }
      assert (at_byte d bx rest = []) as Hself.
      { unfold at_byte, rest. apply list_filter_none, Forall_forall.
        intros y [Hy _]%list_elem_of_filter. done. }
      destruct (decide (b = bx)) as [->|Hb].
      * rewrite Hself. split.
        -- intros [[= ->]|[-> []]]; [|done]. split; [done|].
           unfold at_byte. rewrite filter_cons_True by done. done.
        -- intros [-> _]. by left.
      * rewrite Hother by done. split; [|by right].
        intros [[= -> ->]|?]; done.
Qed.

Lemma runs_spec d l :
  byte_sorted d l ->
  NoDup (runs (fun x => id_byte d (key x)) l).*1 /\
  forall b g, (b, g) ∈ runs (fun x => id_byte d (key x)) l <-> g = at_byte d b l /\ g <> [].
Proof. intros Hs. by apply runs_loop_spec. Qed.

End ids.

(** Distinct slots filled one after another. *)
Lemma fill_slots {C X} (g : byte * X -> C) (rs : list (byte * X)) (init : list C) :
  NoDup rs.*1 -> length init = 256%nat ->
  let out := foldl (fun cs r => <[b2n r.1 := g r]> cs) init rs in
  length out = 256%nat /\
  (forall b x, (b, x) ∈ rs -> forall d, nth (b2n b) out d = g (b, x)) /\
  (forall i d, (forall b, b ∈ rs.*1 -> b2n b <> i) -> nth i out d = nth i init d).
Proof.
  revert init. induction rs as [|[b x] rs IH]; intros init Hnd Hl out.
  - split_and!; [done | by intros ? ? ?%not_elem_of_nil | done].
  - apply NoDup_cons in Hnd as [Hb Hnd].
    destruct (IH (<[b2n b := g (b, x)]> init) Hnd ltac:(by rewrite length_insert))
      as (Hlen & Hin & Hout). split_and!.
    + done.
    + intros b' x' [[= -> ->]|Hin']%elem_of_cons d'; [|by apply Hin].
      subst out. simpl. rewrite Hout.
      * apply nth_insert_eq. rewrite Hl. apply b2n_lt.
      * intros b'' Hb'' E. apply b2n_inj in E as ->. done.
    + intros i d' Hi. subst out. simpl. rewrite Hout.
      * apply nth_insert_ne. apply Hi. by left.
      * intros b'' Hb''. apply Hi. by right.
Qed.

Lemma foldM_fill {C X} (f : X -> result C) (g : byte * X -> C) (rs : list (byte * X))
    (init : list C) :
  Forall (fun r => f r.2 = Ok (g r)) rs ->
  foldM (fun cs '(b, x) => c ← f x; mret (<[b2n b := c]> cs)) init rs =
  Ok (foldl (fun cs r => <[b2n r.1 := g r]> cs) init rs).
Proof.
  intros Hf. revert init. induction Hf as [|[b x] rs Hx Hf IH]; intros init; simpl; [done|].
  simpl in Hx. rewrite Hx. simpl. apply IH.
Qed.

(** ** The reference summary *)

Section canon.
Context `{Sha256}.

(** One record, one leaf and one interior node as they are hashed. *)
Definition rec_bytes (r : Rec) : Bytes := abytes r.1 ++ blob r.2.
Definition leaf_bytes (records : list Rec) : Bytes := be_bytes 1 76 ++ flat_map rec_bytes records.
Definition slot_bytes (i : nat) (s : Summary) : Bytes :=
  if sm_count s =? 0 then []
  else be_bytes 1 (Z.of_nat i) ++ abytes (sm_hash s) ++ be_bytes 8 (sm_count s).
Definition interior_bytes (slots : list Summary) : Bytes :=
  be_bytes 1 73 ++ flat_map id (imap slot_bytes slots).

Definition leaf_sum (records : list Rec) : Summary :=
  match records with
  | [] => no_summary
  | _ => mkSummary (Z.of_nat (length records)) (sha256 (leaf_bytes records))
  end.

(** The records below a byte at depth [d]. *)
Definition under (d : nat) (b : byte) (records : list Rec) : list Rec :=
  at_byte (fun r : Rec => r.1) d b records.

(** What a trie with [k] bytes of the ids left sums up its records as: a leaf
    while they fit in one, an interior node over the 256 next bytes
    otherwise. *)
Fixpoint canon (k : nat) (records : list Rec) : Summary :=
  if Z.of_nat (length records) <=? leaf_max then leaf_sum records
  else
    match k with
    | O => no_summary
    | S k' =>
        let slots := (fun i => canon k' (under (32 - k) (n2b i) records)) <$> seq 0 256 in
        mkSummary (Z.of_nat (length records)) (sha256 (interior_bytes slots))
    end.

(** Well-formed records at a level: sorted by id, each value within bounds,
    agreeing on the bytes above the level, fewer than a count can hold. *)
Record wf_recs (k : nat) (records : list Rec) : Prop := {
  wf_level : (k <= 32)%nat;
  wf_sorted : sorted_recs records;
  wf_values : Forall (fun r : Rec => Z.of_nat (length r.2) <= value_max) records;
  wf_share : share (fun r : Rec => r.1) (32 - k) records;
  wf_count : Z.of_nat (length records) < 2 ^ 64
}.

Lemma length_under d b records : (length (under d b records) <= length records)%nat.
Proof. apply length_filter. Qed.

Lemma wf_under k b records :
  wf_recs (S k) records -> wf_recs k (under (32 - S k) b records).
Proof.
  intros [Hk Hs Hv Hsh Hc]. pose proof (length_under (32 - S k) b records). split.
  - lia.
  - by apply sorted_recs_filter.
  - unfold under, at_byte. rewrite Forall_forall in *. intros r [_ Hr]%list_elem_of_filter. auto.
  - replace (32 - k)%nat with (S (32 - S k)) by lia. apply share_at_byte; [lia | done].
  - lia.
Qed.

(** ** Hashing never fails on well-formed records *)

Lemma writes_record r :
  Z.of_nat (length r.2) <= value_max -> writes (write_record r) (rec_bytes r).
Proof.
  intros Hv. unfold write_record, rec_bytes. apply writes_seq; [apply writes_fixed|].
  apply writes_bytes. unfold value_max, u32_max in *. lia.
Qed.

Lemma writes_records records :
  Forall (fun r : Rec => Z.of_nat (length r.2) <= value_max) records ->
  writes (Writer.each write_record records) (flat_map rec_bytes records).
Proof.
  intros Hv. apply writes_each. eapply Forall_impl; [exact Hv | apply writes_record].
Qed.

Lemma leaf_hash_ok records :
  Forall (fun r : Rec => Z.of_nat (length r.2) <= value_max) records ->
  leaf_hash records = Ok (sm_hash (leaf_sum records)).
Proof.
  intros Hv. unfold leaf_hash, leaf_sum. destruct records as [|r l]; [done|].
  rewrite (writes_run _ (leaf_bytes (r :: l))); [done|].
  apply writes_seq; [apply writes_u8 | by apply writes_records].
Qed.

Lemma writes_slot i s : writes (write_slot i s) (slot_bytes i s).
Proof.
  unfold write_slot, slot_bytes. destruct (_ =? 0); [apply writes_skip|].
  solve_writes.
Qed.

Lemma writes_imap {A} (f : nat -> A -> Writer.prog) (g : nat -> A -> Bytes) l :
  (forall i a, writes (f i a) (g i a)) ->
  writes (Writer.each id (imap f l)) (flat_map id (imap g l)).
Proof.
  revert f g. induction l as [|a l IH]; intros f g Hfg; simpl; [apply writes_skip|].
  apply writes_seq; [apply Hfg | apply IH; intros; apply Hfg].
Qed.

Lemma interior_hash_ok slots : interior_hash slots = Ok (sha256 (interior_bytes slots)).
Proof.
  unfold interior_hash. rewrite (writes_run _ (interior_bytes slots)); [done|].
  apply writes_seq; [apply writes_u8 | apply writes_imap, writes_slot].
Qed.

(** ** What is below each byte *)

Lemma filter_next_byte {A} (key : A -> ObjectId) d l n :
  byte_sorted key d l ->
  base.filter (fun x => (b2n (id_byte d (key x)) < n)%nat) l ++
  base.filter (fun x => b2n (id_byte d (key x)) = n) l =
  base.filter (fun x => (b2n (id_byte d (key x)) < S n)%nat) l.
Proof.
  induction l as [|x l IH]; intros Hs; [done|].
  apply StronglySorted_cons in Hs as [Hx Hs]. specialize (IH Hs). rewrite !filter_cons.
  destruct (decide (b2n (id_byte d (key x)) < n)%nat) as [Hlt|Hge].
  - rewrite (decide_False (P := b2n _ = n)), (decide_True (P := (b2n _ < S n)%nat)) by lia.
    simpl. by rewrite IH.
  - assert (Forall (fun y => ~ (b2n (id_byte d (key y)) < n)%nat) l) as Hnone.
    { eapply Forall_impl; [exact Hx|]. intros y Hy. unfold b2n in *.
      pose proof (b2z_range (id_byte d (key x))). pose proof (b2z_range (id_byte d (key y))). simpl in *. lia. }
    rewrite (list_filter_none _ l Hnone) in *. simpl in *. rewrite IH.
    destruct (decide (b2n (id_byte d (key x)) = n)), (decide (b2n (id_byte d (key x)) < S n)%nat); (done || lia).
Qed.

Lemma at_byte_partition {A} (key : A -> ObjectId) d l :
  byte_sorted key d l -> flat_map (fun i => at_byte key d (n2b i) l) (seq 0 256) = l.
Proof.
  intros Hs.
  assert (forall n, (n <= 256)%nat -> flat_map (fun i => at_byte key d (n2b i) l) (seq 0 n) =
    base.filter (fun x => (b2n (id_byte d (key x)) < n)%nat) l) as Hgen.
  { induction n as [|n IH]; intros Hn.
    - simpl. symmetry. apply list_filter_none, Forall_forall. intros x _. lia.
    - rewrite seq_S, flat_map_app. simpl. rewrite app_nil_r, IH by lia.
      rewrite <- filter_next_byte by done. f_equal. unfold at_byte. apply list_filter_iff.
      intros x. split; [intros ->; by rewrite b2n_n2b by lia | intros <-; by rewrite n2b_b2n]. }
  rewrite Hgen by done. apply list_filter_all, Forall_forall. intros x _. apply b2n_lt.
Qed.

Lemma wf_byte_sorted k records :
  wf_recs (S k) records -> byte_sorted (fun r : Rec => r.1) (32 - S k) records.
Proof. intros [Hk Hs _ Hsh _]. apply sorted_byte_sorted; [lia | done..]. Qed.

(** Every record is under exactly one byte. *)
Lemma under_partition k records :
  wf_recs (S k) records ->
  flat_map (fun i => under (32 - S k) (n2b i) records) (seq 0 256) = records.
Proof. intros Hwf. by apply at_byte_partition, wf_byte_sorted. Qed.

Lemma under_counts k records :
  wf_recs (S k) records ->
  sum_Z ((fun i => Z.of_nat (length (under (32 - S k) (n2b i) records))) <$> seq 0 256) =
  Z.of_nat (length records).
Proof.
  intros Hwf.
  transitivity (Z.of_nat (length
    (flat_map (fun i => under (32 - S k) (n2b i) records) (seq 0 256)))).
  2:{ by rewrite under_partition. }
  generalize (seq 0 256). intros l. induction l as [|i l IH]; [done|].
  cbn [fmap list_fmap sum_Z foldr flat_map]. rewrite length_app, Nat2Z.inj_add. f_equal. apply IH.
Qed.

(** With every byte of the id used there is at most one record. *)
Lemma wf_bottom records : wf_recs 0 records -> (length records <= 1)%nat.
Proof.
  intros [_ Hs _ Hsh _]. destruct records as [|r1 [|r2 l]]; simpl; [lia..|]. exfalso.
  apply (key_lt_irrefl r1.1).
  replace r1.1 with r2.1 at 2.
  - destruct r1 as [i1 v1]. apply sorted_recs_cons in Hs as [Hf _].
    apply Forall_cons in Hf as [Hf _]. done.
  - apply take_all_eq, Hsh; set_solver.
Qed.

Lemma canon_count k records :
  wf_recs k records -> sm_count (canon k records) = Z.of_nat (length records).
Proof.
  intros Hwf. destruct k as [|k]; cbn [canon];
    destruct (Z.leb_spec (Z.of_nat (length records)) leaf_max) as [Hle|Hgt]; try done;
    try (by destruct records).
  apply wf_bottom in Hwf. unfold leaf_max in *. lia.
Qed.

Lemma canon_nil k : canon k [] = no_summary.
Proof. by destruct k. Qed.

End canon.

(** ** Representation

    [Repr rd k c records]: the slot [c], with [k] bytes of the ids left,
    holds exactly [records], in the canonical shape, when saved nodes are
    read by [rd]. *)

Section repr.
Context `{Sha256} (rd : Z -> result Bytes).

(** The node a slot stands for: in memory while unsaved, decoded from its
    offset otherwise. *)
Definition locates (c : Child) (n : Node) : Prop :=
  if decide (c_offset c = unsaved) then c_node c = Some n
  else 0 <= c_offset c < unsaved /\ 0 <= c_size c < 2 ^ 32 /\
       (c_node c = None \/ c_node c = Some n) /\
       exists bs, rd (c_offset c) = Ok bs /\ decode bs false = Ok n.

Definition node_ok (k : nat) (R : Child -> list Rec -> Prop) (n : Node) (records : list Rec) : Prop :=
  n_depth n = (32 - k)%nat /\ n_count n = Z.of_nat (length records) /\
  n_hash n = sm_hash (canon k records) /\
  if Z.of_nat (length records) <=? leaf_max then
    n_leaf n = true /\ n_records n = records /\ n_children n = []
  else
    n_leaf n = false /\ n_records n = [] /\ length (n_children n) = 256%nat /\
    forall i, (i < 256)%nat ->
      R (nth i (n_children n) no_child) (under (32 - k) (n2b i) records).

Fixpoint Repr (k : nat) (c : Child) (records : list Rec) : Prop :=
  match records with
  | [] => c = no_child
  | _ =>
      c_count c = Z.of_nat (length records) /\ c_hash c = sm_hash (canon k records) /\
      exists n, locates c n /\
        node_ok k (match k with O => fun _ _ => False | S k' => Repr k' end) n records
  end.

Definition NodeRepr (k : nat) (n : Node) (records : list Rec) : Prop :=
  node_ok k (match k with O => fun _ _ => False | S k' => Repr k' end) n records.

Lemma Repr_nil k c : Repr k c [] <-> c = no_child.
Proof. by destruct k. Qed.

Lemma Repr_cons k c records :
  records <> [] ->
  Repr k c records <->
  c_count c = Z.of_nat (length records) /\ c_hash c = sm_hash (canon k records) /\
  exists n, locates c n /\ NodeRepr k n records.
Proof. intros Hne. destruct records; [done|]. by destruct k. Qed.

Lemma Repr_summary k c records :
  wf_recs k records -> Repr k c records -> child_summary c = canon k records.
Proof.
  intros Hwf HR. destruct records as [|r l].
  - apply Repr_nil in HR as ->. by rewrite canon_nil.
  - apply Repr_cons in HR as (Hc & Hh & _); [|done].
    unfold child_summary. rewrite Hc, Hh, <- (canon_count k) by done.
    by destruct (canon k (r :: l)).
Qed.

Lemma Repr_count k c records : Repr k c records -> c_count c = Z.of_nat (length records).
Proof.
  destruct records as [|r l]; [by intros ->%Repr_nil|].
  intros HR%Repr_cons; [|done]. apply HR.
Qed.

Lemma Repr_empty k c records : Repr k c records -> c_empty c = bool_decide (records = []).
Proof.
  intros HR. unfold c_empty. rewrite (Repr_count _ _ _ HR).
  rewrite bool_decide_decide. destruct records as [|r l]; [done|].
  rewrite decide_False by done. apply Z.eqb_neq. simpl. lia.
Qed.

(** The 256 slots of a level's records. *)
Definition Slots (k : nat) (cs : list Child) (records : list Rec) : Prop :=
  length cs = 256%nat /\
  forall i, (i < 256)%nat -> Repr k (nth i cs no_child) (under (32 - S k) (n2b i) records).

Lemma Slots_counts k cs records :
  wf_recs (S k) records -> Slots k cs records ->
  sum_u64 (c_count <$> cs) = Z.of_nat (length records).
Proof.
  intros Hwf [Hl HR].
  assert (c_count <$> cs = (fun i => Z.of_nat (length (under (32 - S k) (n2b i) records))) <$> seq 0 256)
    as ->.
  { rewrite (list_as_nth cs 256 no_child Hl). rewrite <- list_fmap_compose.
    apply list_fmap_ext. intros i x Hx. apply lookup_seq in Hx as [-> Hx]. simpl.
    by apply (Repr_count k), HR. }
  rewrite sum_u64_exact; [by apply under_counts | |].
  - apply Forall_fmap, Forall_forall. intros i _. simpl. lia.
  - rewrite under_counts by done. apply wf_count in Hwf. done.
Qed.

Lemma make_interior_ok k cs records :
  wf_recs (S k) records -> leaf_max < Z.of_nat (length records) -> Slots k cs records ->
  exists n, make_interior (32 - S k) cs = Ok n /\ NodeRepr (S k) n records /\ n_children n = cs.
Proof.
  intros Hwf Hgt HS. pose proof (Slots_counts k cs records Hwf HS) as Hcount.
  destruct HS as [Hl HR]. unfold make_interior. rewrite interior_hash_ok. simpl.
  eexists. split; [reflexivity|]. split; [|done]. unfold NodeRepr, node_ok.
  assert (child_summary <$> cs = (fun i => canon k (under (32 - S k) (n2b i) records)) <$> seq 0 256)
    as Hsum.
  { rewrite (list_as_nth cs 256 no_child Hl) at 1. rewrite <- list_fmap_compose.
    apply list_fmap_ext. intros i x Hx. apply lookup_seq in Hx as [-> Hx]. simpl.
    apply Repr_summary; [by apply wf_under | by apply HR]. }
  destruct (Z.leb_spec (Z.of_nat (length records)) leaf_max); [lia|]. split_and!; try done.
  cbn [n_hash canon]. destruct (Z.leb_spec (Z.of_nat (length records)) leaf_max); [lia|].
  by rewrite Hsum.
Qed.

Lemma make_leaf_ok k records :
  wf_recs k records -> Z.of_nat (length records) <= leaf_max ->
  exists n, make_leaf (32 - k) records = Ok n /\ NodeRepr k n records.
Proof.
  intros Hwf Hle. unfold make_leaf. rewrite leaf_hash_ok by apply Hwf. simpl.
  eexists. split; [reflexivity|]. unfold NodeRepr, node_ok. simpl.
  rewrite (proj2 (Z.leb_le _ _)) by done. split_and!; try done.
  destruct k; cbn [canon]; by rewrite (proj2 (Z.leb_le _ _)).
Qed.

Lemma child_of_ok k n records :
  records <> [] -> NodeRepr k n records -> Repr k (child_of n) records.
Proof.
  intros Hne HN. apply Repr_cons; [done|]. pose proof HN as (_ & Hc & Hh & _).
  split_and!; [done..|]. exists n. split; [|done]. unfold locates. simpl.
  by destruct (decide (unsaved = unsaved)).
Qed.

Lemma build_leaf_eq k records :
  records <> [] -> Z.of_nat (length records) <= leaf_max ->
  build k records = (n ← make_leaf (32 - k) records; Ok (child_of n)).
Proof.
  intros Hne Hle. apply Z.leb_le in Hle.
  destruct k, records; try done; cbn [build]; by rewrite Hle.
Qed.

Lemma build_branch_eq k records :
  leaf_max < Z.of_nat (length records) ->
  build (S k) records =
    (children ← foldM (fun children '(b, run) =>
         c ← build k run; mret (<[b2n b := c]> children))
       (replicate 256 no_child) (runs (fun r : Rec => id_byte (32 - S k) r.1) records);
     n ← make_interior (32 - S k) children; Ok (child_of n)).
Proof.
  intros Hgt. destruct records as [|r l]; [unfold leaf_max in Hgt; simpl in Hgt; lia|].
  apply Z.leb_gt in Hgt. cbn [build]. by rewrite Hgt.
Qed.

(** Building a subtree from its records gives the canonical one. *)
Lemma build_ok k records :
  wf_recs k records -> exists c, build k records = Ok c /\ Repr k c records.
Proof.
  revert records. induction k as [|k IH]; intros records Hwf;
    (destruct (decide (records = [])) as [->|Hne];
      [by eexists; split; [reflexivity | apply Repr_nil]|]);
    (destruct (Z.leb_spec (Z.of_nat (length records)) leaf_max) as [Hle|Hgt];
     [destruct (make_leaf_ok _ _ Hwf Hle) as (n & Hn & HN);
      rewrite build_leaf_eq, Hn by done;
      eexists; split; [reflexivity | by apply child_of_ok] |]).
  - apply wf_bottom in Hwf. unfold leaf_max in *. lia.
  - destruct (runs_spec (fun r : Rec => r.1) (32 - S k) records (wf_byte_sorted k records Hwf))
      as [Hnd Hin].
    set (key := fun r : Rec => id_byte (32 - S k) r.1) in *.
    set (g := fun r : byte * list Rec => match build k r.2 with Ok c => c | Throw _ => no_child end).
    destruct (fill_slots g (runs key records) (replicate 256 no_child) Hnd (length_replicate _ _))
      as (Hlen & Hset & Hunset).
    set (out := foldl _ _ _) in *.
    assert (Slots k out records) as HS.
    { split; [done|]. intros i Hi.
      destruct (decide (under (32 - S k) (n2b i) records = [])) as [E|E].
      - rewrite E, Hunset, nth_replicate; [by apply Repr_nil|].
        intros b ([b' x] & -> & Hb)%list_elem_of_fmap. simpl. intros Eb.
        apply Hin in Hb as [-> Hne']. apply Hne'. rewrite <- (n2b_b2n b'), Eb. done.
      - assert ((n2b i, under (32 - S k) (n2b i) records) ∈ runs key records) as Hi' by (by apply Hin).
        specialize (Hset _ _ Hi' no_child). rewrite b2n_n2b in Hset by done. rewrite Hset.
        destruct (IH _ (wf_under k (n2b i) records Hwf)) as (c' & Hc' & HR).
        unfold g. cbn [snd]. by rewrite Hc'. }
    destruct (make_interior_ok k out records Hwf Hgt HS) as (n & Hn & HN & _).
    exists (child_of n). split; [|by apply child_of_ok].
    rewrite build_branch_eq by done. fold key.
    rewrite (foldM_fill (build k) g).
    + change (foldl _ _ _) with out. cbn [mbind result_bind]. by rewrite Hn.
    + apply Forall_forall. intros [b x] Hb. apply Hin in Hb as [-> _]. unfold g. cbn [fst snd].
      destruct (IH _ (wf_under k b records Hwf)) as (c' & Hc' & _).
      unfold under in Hc'. by rewrite Hc'.
Qed.

End repr.
