(* ===== verification/TrieHash.v ===== *)
(** * What a summary says of the records below it

    A node's hash covers its records or its children's hashes
    ([leaf_hash], [interior_hash] of [src/src/ledger/object_trie.cpp]), so two
    subtrees with one summary hold the same records unless the hash collides.
    SHA-256 is a parameter: what is asked of it is only that no two of the
    strings the two tries hash collide ([no_collision]). *)

From S2P Require Import Prelude Codec Journal Trie TrieShape.

Section hash.
Context `{Sha256}.

(** The strings hashed to sum up [records] with [k] bytes of the ids left. *)
Fixpoint hashed (k : nat) (records : list Rec) : list Bytes :=
  match records with
  | [] => []
  | _ =>
      if Z.of_nat (length records) <=? leaf_max then [leaf_bytes records]
      else
        match k with
        | O => []
        | S k' =>
            interior_bytes
              ((fun i => canon k' (under (32 - k) (n2b i) records)) <$> seq 0 256) ::
            flat_map (fun i => hashed k' (under (32 - k) (n2b i) records)) (seq 0 256)
        end
  end.

Definition no_collision (strings : list Bytes) : Prop :=
  forall x y, x ∈ strings -> y ∈ strings -> sha256 x = sha256 y -> x = y.

Lemma no_collision_incl l l' : (forall x, x ∈ l' -> x ∈ l) -> no_collision l -> no_collision l'.
Proof. unfold no_collision. eauto. Qed.

(** ** Encodings are prefix free *)

(** What one program reads from two strings that begin with an encoding each
    is the same, and so is the rest. *)
Lemma reads_prefix_free {A} (p : Reader.prog A) e1 e2 a b post1 post2 :
  reads p e1 a -> reads p e2 b -> e1 ++ post1 = e2 ++ post2 ->
  a = b /\ post1 = post2.
Proof.
  intros R1 R2 E. specialize (R1 [] post1). specialize (R2 [] post2). simpl in R1, R2.
  rewrite E in R1. rewrite R1 in R2. injection R2 as -> E2. split; [done|].
  apply (f_equal (drop (length e1))) in E. rewrite drop_app_length in E.
  rewrite E2, drop_app_length in E. done.
Qed.

Definition read_rec : Reader.prog Rec :=
  id ← Reader.fixed 32; value ← Reader.bytes value_max; mret (id, value).

Lemma reads_rec r : Z.of_nat (length r.2) <= value_max -> reads read_rec (rec_bytes r) r.
Proof.
  intros Hv. destruct r as [id v]. unfold read_rec, rec_bytes. simpl in *.
  eapply reads_bind; [apply reads_fixed|]. rewrite <- (app_nil_r (blob v)).
  eapply reads_bind; [apply reads_bytes; unfold value_max, u32_max in *; lia | apply reads_ret].
Qed.

Lemma leaf_bytes_inj l1 l2 :
  Forall (fun r : Rec => Z.of_nat (length r.2) <= value_max) l1 ->
  Forall (fun r : Rec => Z.of_nat (length r.2) <= value_max) l2 ->
  leaf_bytes l1 = leaf_bytes l2 -> l1 = l2.
Proof.
  intros H1 H2 E. apply app_inv_head in E. revert l2 H2 E.
  assert (forall r l, rec_bytes r ++ l <> []) as Hne.
  { intros [rid v] l Hn. apply (f_equal length) in Hn. unfold rec_bytes in Hn.
    rewrite !length_app in Hn. pose proof (array_length rid). simpl in *. lia. }
  induction H1 as [|r1 l1 Hr1 H1 IH]; intros [|r2 l2] H2 E; simpl in E; [done | | |].
  - by symmetry in E; apply Hne in E.
  - by apply Hne in E.
  - apply Forall_cons in H2 as [Hr2 H2].
    destruct (reads_prefix_free read_rec _ _ r1 r2 _ _ (reads_rec _ Hr1) (reads_rec _ Hr2) E) as [-> E'].
    f_equal. by apply IH.
Qed.

(** A slot as an interior node has it: none, or a count that fits. *)
Definition slot_fits (s : Summary) : Prop := s = no_summary \/ 0 < sm_count s < 2 ^ 64.

Definition read_slot : Reader.prog (Z * Summary) :=
  i ← Reader.u8; h ← Reader.fixed 32; n ← Reader.u64; mret (i, mkSummary n h).

Lemma reads_slot i s :
  (i < 256)%nat -> 0 < sm_count s < 2 ^ 64 -> reads read_slot (slot_bytes i s) (Z.of_nat i, s).
Proof.
  intros Hi Hs. destruct s as [n h]. unfold slot_bytes. cbn [sm_count sm_hash] in *.
  destruct (Z.eqb_spec n 0); [lia|]. unfold read_slot.
  eapply reads_bind; [apply reads_u8; lia|]. eapply reads_bind; [apply reads_fixed|].
  rewrite <- (app_nil_r (be_bytes 8 n)). eapply reads_bind; [apply reads_u64; lia | apply reads_ret].
Qed.

(** The slots from [i] on, as they are hashed. *)
Definition slots_bytes (i : nat) (l : list Summary) : Bytes :=
  flat_map id (imap (fun j => slot_bytes (i + j)) l).

Lemma slots_bytes_cons i s l : slots_bytes i (s :: l) = slot_bytes i s ++ slots_bytes (S i) l.
Proof.
  unfold slots_bytes. rewrite imap_cons. cbn [flat_map id]. rewrite Nat.add_0_r. do 2 f_equal.
  apply imap_ext. intros j x _. unfold compose. f_equal. lia.
Qed.

(** What slots say begins with an index at or after the first. *)
Lemma slots_bytes_first i l :
  Forall slot_fits l -> (i + length l <= 256)%nat ->
  slots_bytes i l = [] \/
  exists j s rest, (i <= j < 256)%nat /\ 0 < sm_count s < 2 ^ 64 /\ slots_bytes i l = slot_bytes j s ++ rest.
Proof.
  intros Hl. revert i. induction Hl as [|s l Hs Hl IH]; intros i Hi; [by left|].
  rewrite slots_bytes_cons. cbn [length] in Hi. destruct Hs as [->|Hs].
  - change (slot_bytes i no_summary) with (@nil byte). rewrite app_nil_l.
    destruct (IH (S i) ltac:(lia)) as [->|(j & s & rest & Hj & Hs & ->)]; [by left|].
    right. exists j, s, rest. split; [lia | done].
  - right. exists i, s, (slots_bytes (S i) l). split; [lia | done].
Qed.

(** A present slot says something no later slots say. *)
Lemma slots_bytes_present i s rest l :
  0 < sm_count s < 2 ^ 64 -> Forall slot_fits l -> (S i + length l <= 256)%nat ->
  slot_bytes i s ++ rest <> slots_bytes (S i) l.
Proof.
  intros Hs Hl Hi E. destruct (slots_bytes_first (S i) l Hl Hi) as [E'|(j & s' & rest' & Hj & Hs' & E')];
    rewrite E' in E.
  - apply app_eq_nil in E as [E _]. apply (f_equal length) in E. unfold slot_bytes in E.
    destruct (Z.eqb_spec (sm_count s) 0); [lia|]. rewrite !length_app, length_be_bytes in E. simpl in E. lia.
  - assert (i < 256)%nat as Hi' by lia. assert (j < 256)%nat as Hj' by lia.
    destruct (reads_prefix_free read_slot _ _ _ _ _ _ (reads_slot i s Hi' Hs) (reads_slot j s' Hj' Hs') E)
      as [[= Eij _] _]. lia.
Qed.

Lemma slots_bytes_inj i l1 l2 :
  Forall slot_fits l1 -> Forall slot_fits l2 -> length l1 = length l2 -> (i + length l1 <= 256)%nat ->
  slots_bytes i l1 = slots_bytes i l2 -> l1 = l2.
Proof.
  intros H1. revert i l2. induction H1 as [|s1 l1 Hs1 H1 IH]; intros i [|s2 l2] H2 Hl Hi E; try done.
  apply Forall_cons in H2 as [Hs2 H2]. cbn [length] in *. rewrite !slots_bytes_cons in E.
  destruct Hs1 as [->|Hs1], Hs2 as [->|Hs2];
    try change (slot_bytes i no_summary) with (@nil byte) in E; rewrite ?app_nil_l in E.
  - f_equal. apply (IH (S i)); [done | lia | lia | done].
  - symmetry in E. apply slots_bytes_present in E; [done | done | done | lia].
  - apply slots_bytes_present in E; [done | done | done | lia].
  - assert (i < 256)%nat as Hi' by lia.
    destruct (reads_prefix_free read_slot _ _ _ _ _ _ (reads_slot i s1 Hi' Hs1) (reads_slot i s2 Hi' Hs2) E)
      as [[= ->] E']. f_equal. apply (IH (S i)); [done | lia | lia | done].
Qed.

Lemma interior_bytes_inj l1 l2 :
  Forall slot_fits l1 -> Forall slot_fits l2 -> length l1 = 256%nat -> length l2 = 256%nat ->
  interior_bytes l1 = interior_bytes l2 -> l1 = l2.
Proof.
  intros H1 H2 L1 L2 E. apply app_inv_head in E.
  apply (slots_bytes_inj 0); [done | done | congruence | lia | exact E].
Qed.

(** ** Summaries *)

Lemma canon_fits k records : wf_recs k records -> slot_fits (canon k records).
Proof.
  intros Hwf. pose proof (canon_count _ _ Hwf) as Hc. pose proof (wf_count _ _ Hwf).
  destruct records as [|r l]; [left; apply canon_nil|]. right. rewrite Hc. cbn [length] in *. lia.
Qed.

Lemma slots_fit k records :
  wf_recs (S k) records ->
  Forall slot_fits ((fun i => canon k (under (32 - S k) (n2b i) records)) <$> seq 0 256).
Proof.
  intros Hwf. apply Forall_fmap, Forall_forall. intros i _. by apply canon_fits, wf_under.
Qed.

Lemma canon_branch k records :
  leaf_max < Z.of_nat (length records) ->
  canon (S k) records = mkSummary (Z.of_nat (length records)) (sha256 (interior_bytes
    ((fun i => canon k (under (32 - S k) (n2b i) records)) <$> seq 0 256))).
Proof.
  intros Hgt. unfold canon at 1. fold canon.
  destruct (Z.leb_spec (Z.of_nat (length records)) leaf_max); [lia | reflexivity].
Qed.

Lemma canon_leaf k records :
  Z.of_nat (length records) <= leaf_max -> canon k records = leaf_sum records.
Proof.
  intros Hle. destruct k; unfold canon at 1;
    (destruct (Z.leb_spec (Z.of_nat (length records)) leaf_max); [reflexivity | lia]).
Qed.

Lemma hashed_branch k records :
  leaf_max < Z.of_nat (length records) ->
  hashed (S k) records = interior_bytes
    ((fun i => canon k (under (32 - S k) (n2b i) records)) <$> seq 0 256) ::
    flat_map (fun i => hashed k (under (32 - S k) (n2b i) records)) (seq 0 256).
Proof.
  intros Hgt. destruct records as [|r l]; [unfold leaf_max in *; simpl in Hgt; lia|].
  unfold hashed at 1. fold hashed.
  destruct (Z.leb_spec (Z.of_nat (length (r :: l))) leaf_max); [lia | reflexivity].
Qed.

Lemma hashed_leaf k r l :
  Z.of_nat (length (r :: l)) <= leaf_max -> hashed k (r :: l) = [leaf_bytes (r :: l)].
Proof.
  intros Hle. destruct k; unfold hashed at 1;
    (destruct (Z.leb_spec (Z.of_nat (length (r :: l))) leaf_max); [reflexivity | lia]).
Qed.

Lemma hashed_slot k records i x :
  leaf_max < Z.of_nat (length records) -> (i < 256)%nat ->
  x ∈ hashed k (under (32 - S k) (n2b i) records) -> x ∈ hashed (S k) records.
Proof.
  intros Hgt Hi Hx. rewrite hashed_branch by done. right. apply list_elem_of_In, in_flat_map.
  exists i. split; [apply in_seq; lia | by apply list_elem_of_In].
Qed.

(** Equal summaries mean equal records. *)
Lemma canon_inj k l1 l2 :
  wf_recs k l1 -> wf_recs k l2 -> no_collision (hashed k l1 ++ hashed k l2) ->
  canon k l1 = canon k l2 -> l1 = l2.
Proof.
  revert l1 l2. induction k as [|k IH]; intros l1 l2 W1 W2 Hnc E;
    pose proof (f_equal sm_count E) as Ec; rewrite !canon_count in Ec by done; apply Nat2Z.inj in Ec.
  all: destruct (Z.leb_spec (Z.of_nat (length l1)) leaf_max) as [Hle|Hgt].
  1, 3: rewrite !canon_leaf in E by lia; destruct l1 as [|r1 l1], l2 as [|r2 l2]; try done;
    rewrite !hashed_leaf in Hnc by lia; apply leaf_bytes_inj; [apply W1 | apply W2 |];
    apply Hnc; [set_solver | set_solver | by injection E].
  - apply wf_bottom in W1. unfold leaf_max in Hgt. lia.
  - rewrite !canon_branch in E by lia. apply (f_equal sm_hash) in E. cbn [sm_hash] in E. apply Hnc in E.
    + apply interior_bytes_inj in E; [|by apply slots_fit|by apply slots_fit|by rewrite length_fmap, length_seq|by rewrite length_fmap, length_seq].
      rewrite <- (under_partition k l1), <- (under_partition k l2) by done.
      assert (forall i, (i < 256)%nat -> under (32 - S k) (n2b i) l1 = under (32 - S k) (n2b i) l2) as Hu.
      { intros i Hi. apply IH; [by apply wf_under|by apply wf_under| |].
        - eapply no_collision_incl; [|exact Hnc]. intros x [Hx|Hx]%elem_of_app; apply elem_of_app;
            [left | right]; by apply (hashed_slot _ _ i); [lia| |].
        - apply (f_equal (lookup i)) in E. rewrite !list_lookup_fmap, !lookup_seq_lt in E by done.
          by injection E. }
      rewrite !flat_map_concat_map. f_equal. apply map_ext_in. intros i Hi%in_seq. apply Hu. lia.
    + rewrite hashed_branch by lia. apply elem_of_app. left. by left.
    + rewrite (hashed_branch k l2) by lia. apply elem_of_app. right. by left.
Qed.

End hash.
