(* ===== verification/TrieOps.v ===== *)
(** * Reading a trie: lookup, paging, subtrees

    What [ObjectTrie::find], [collect]/[next], [descend], [Snapshot::children]
    and [Snapshot::records] return, as functions of the records alone. They
    are proved against [TrieLoader], what any [load] promises: the node a slot
    stands for. [ObjectTrie::load] and a snapshot's [load_from] both meet it,
    because the node cache only ever holds nodes its file decodes to. *)

From S2P Require Import Prelude Codec Journal Trie TrieShape.

(** A loop whose body keeps [J], which says what the elements done so far
    have led to. *)
Lemma foldM_inv {S A B} (J : list A -> B -> S -> Prop) (f : B -> A -> ST S B) l b s :
  J [] b s ->
  (forall done x rest b s, l = done ++ x :: rest -> J done b s ->
     exists b' s', f b x s = (Ok b', s') /\ J (done ++ [x]) b' s') ->
  exists b' s', foldM f b l s = (Ok b', s') /\ J l b' s'.
Proof.
  intros H0 Hstep.
  enough (forall rest done b s, l = done ++ rest -> J done b s ->
    exists b' s', foldM f b rest s = (Ok b', s') /\ J l b' s') as Hgen by (by apply (Hgen l [])).
  induction rest as [|x rest IH]; intros done b1 s1 E HJ.
  - rewrite app_nil_r in E. subst. by exists b1, s1.
  - destruct (Hstep _ _ _ _ _ E HJ) as (b2 & s2 & Hf & HJ2).
    simpl. rewrite (st_bind_ok _ _ _ _ _ Hf). apply (IH (done ++ [x])); [|done].
    by rewrite <- app_assoc.
Qed.

(** A loop that collects one answer an element. *)
Lemma foldM_collect {S A B} (I : S -> Prop) (f : A -> ST S B) (g : A -> B) l s :
  (forall a s, a ∈ l -> I s -> exists s', f a s = (Ok (g a), s') /\ I s') -> I s ->
  exists s', foldM (fun out a => b ← f a; mret (out ++ [b])) [] l s = (Ok (g <$> l), s') /\ I s'.
Proof.
  intros Hf HI.
  destruct (foldM_inv (fun pre out s => out = g <$> pre /\ I s)
    (fun out a => b ← f a; mret (out ++ [b])) l [] s) as (out & s' & Hfold & -> & HI').
  - done.
  - intros pre a rest out s1 E [-> HI1]. destruct (Hf a s1) as (s2 & Ha & HI2); [rewrite E; set_solver | done |].
    rewrite (st_bind_ok _ _ _ _ _ Ha). eexists _, s2. split; [reflexivity|].
    split; [by rewrite fmap_app | done].
  - by exists s'.
Qed.

(** A loop over the 256 slots of a node; [J i] holds before slot [i]. *)
Lemma foldM_slots {S B} (J : nat -> B -> S -> Prop) (f : B -> Child -> ST S B) cs b s :
  length cs = 256%nat -> J 0%nat b s ->
  (forall i b s, (i < 256)%nat -> J i b s ->
     exists b' s', f b (nth i cs no_child) s = (Ok b', s') /\ J (Datatypes.S i) b' s') ->
  exists b' s', foldM f b cs s = (Ok b', s') /\ J 256%nat b' s'.
Proof.
  intros Hl H0 Hstep.
  destruct (foldM_inv (fun (done : list Child) => J (length done)) f cs b s) as (b' & s' & Hf & HJ);
    [done| |by rewrite Hl in HJ; eauto].
  intros done_ x rest b1 s1 E HJ.
  assert (nth (length done_) cs no_child = x) as <-.
  { rewrite E, nth_lookup, list_lookup_middle by done. done. }
  rewrite length_app, Nat.add_1_r. apply Hstep; [|done].
  rewrite <- Hl, E, length_app. simpl. lia.
Qed.

Lemma take_take_app {A} n (l1 l2 : list A) : take n (take n l1 ++ l2) = take n (l1 ++ l2).
Proof.
  destruct (decide (length l1 <= n)%nat) as [Hle|Hgt].
  - by rewrite (take_ge l1) by done.
  - rewrite take_app_le by (rewrite length_take; lia).
    rewrite take_take, Nat.min_id, take_app_le by lia. done.
Qed.

Lemma filter_flat_map {A B} (P : B -> Prop) `{!forall x, Decision (P x)} (f : A -> list B) l :
  base.filter P (flat_map f l) = flat_map (fun a => base.filter P (f a)) l.
Proof. induction l as [|a l IH]; simpl; [done|]. by rewrite filter_app, IH. Qed.

Lemma flat_map_ext_in {A B} (f g : A -> list B) l :
  (forall a, a ∈ l -> f a = g a) -> flat_map f l = flat_map g l.
Proof.
  induction l as [|a l IH]; intros Hfg; simpl; [done|].
  rewrite Hfg, IH; [done | intros; apply Hfg; by right | by left].
Qed.

(** ** The loader interface *)

Class TrieLoader `{Sha256} {S : Type} (rd : Z -> result Bytes) (load : Child -> ST S Node)
    (I : S -> Prop) : Prop :=
  loader_ok : forall k c records s,
    I s -> Repr rd k c records -> records <> [] ->
    exists n s', load c s = (Ok n, s') /\ NodeRepr rd k n records /\ locates rd c n /\ I s'.

Lemma NodeRepr_leaf `{Sha256} rd k n records :
  NodeRepr rd k n records ->
  n_leaf n = (Z.of_nat (length records) <=? leaf_max).
Proof. intros (_ & _ & _ & HN). destruct (_ <=? _); apply HN. Qed.

Lemma NodeRepr_leaf_inv `{Sha256} rd k n records :
  NodeRepr rd k n records -> n_leaf n = true ->
  n_records n = records /\ Z.of_nat (length records) <= leaf_max.
Proof.
  intros HN E. rewrite (NodeRepr_leaf _ _ _ _ HN) in E.
  destruct HN as (_ & _ & _ & HN). rewrite E in HN. apply Z.leb_le in E. split; [apply HN | done].
Qed.

(** An interior node is above the last level, and its slots hold what is
    under each byte. *)
Lemma NodeRepr_interior_inv `{Sha256} rd k n records :
  wf_recs k records -> NodeRepr rd k n records -> n_leaf n = false ->
  exists k', k = S k' /\ Slots rd k' (n_children n) records /\
             leaf_max < Z.of_nat (length records).
Proof.
  intros Hwf HN E. rewrite (NodeRepr_leaf _ _ _ _ HN) in E.
  destruct HN as (_ & _ & _ & HN). rewrite E in HN. apply Z.leb_gt in E.
  destruct k as [|k].
  - apply wf_bottom in Hwf. unfold leaf_max in *. lia.
  - exists k. split_and!; [done| |done]. split; apply HN.
Qed.

Lemma alookup_under d (id : ObjectId) records :
  alookup id (under d (id_byte d id) records) = alookup id records.
Proof.
  unfold under, at_byte. induction records as [|[rid v] l IH]; [done|].
  rewrite filter_cons. simpl (fst (rid, v)). rewrite (alookup_cons id rid v l).
  destruct (decide (id = rid)) as [<-|Hne].
  - rewrite decide_True by done. by rewrite alookup_cons, decide_True.
  - destruct (decide _); [by rewrite alookup_cons, decide_False | done].
Qed.

Lemma leaf_find_ok (id : ObjectId) records :
  sorted_recs records -> leaf_find id records = alookup id records.
Proof.
  induction records as [|[rid v] l IH]; intros Hs; [done|].
  apply sorted_recs_cons in Hs as [Hf Hs]. rewrite alookup_cons. cbn [leaf_find].
  destruct (key_ltb rid id) eqn:E.
  - rewrite decide_False; [by apply IH|]. intros ->. by rewrite key_irrefl in E.
  - destruct (bool_decide_reflect (rid = id)) as [->|Hne]; [by rewrite decide_True|].
    rewrite decide_False by done. symmetry. apply alookup_below.
    destruct (key_trichotomy rid id) as [Hlt|[?|Hlt]]; [unfold key_lt in Hlt; congruence | done |].
    eapply Forall_impl; [exact Hf|]. intros r ?. by transitivity rid.
Qed.

Section loader.
Context `{Sha256} {S : Type} (rd : Z -> result Bytes) (load : Child -> ST S Node) (I : S -> Prop).
Context `{!TrieLoader rd load I}.

(** ** Lookup *)

Lemma find_loop_ok k fuel node id records s :
  (k <= fuel)%nat -> I s -> wf_recs k records -> NodeRepr rd k node records ->
  exists s', find_loop load fuel node id s = (Ok (alookup id records), s') /\ I s'.
Proof.
  revert fuel node records s. induction k as [|k IH]; intros fuel node records s Hf HI Hwf HN;
    (destruct (n_leaf node) eqn:Hleaf;
     [destruct (NodeRepr_leaf_inv _ _ _ _ HN Hleaf) as [Er _]; exists s; split; [|done];
      destruct fuel; cbn [find_loop]; rewrite Hleaf, Er, leaf_find_ok by apply Hwf; done |]);
    destruct (NodeRepr_interior_inv _ _ _ _ Hwf HN Hleaf) as (k' & Ek & HS & _); [done|].
  injection Ek as <-. destruct fuel as [|fuel]; [lia|].
  pose proof HN as (Hd & _). cbn [find_loop]. rewrite Hleaf, Hd. destruct HS as [Hl HS].
  set (b := id_byte (32 - Datatypes.S k) id).
  specialize (HS (b2n b) (b2n_lt b)). rewrite n2b_b2n in HS.
  rewrite (Repr_empty _ _ _ _ HS). unfold b in *.
  rewrite <- (alookup_under (32 - Datatypes.S k) id records).
  destruct (bool_decide_reflect (under (32 - Datatypes.S k) (id_byte (32 - Datatypes.S k) id) records = []))
    as [E|E].
  - rewrite E. exists s. done.
  - destruct (loader_ok _ _ _ _ HI HS E) as (n & s1 & Hld & HN1 & _ & HI1).
    rewrite (st_bind_ok _ _ _ _ _ Hld). apply IH; [lia | done | by apply wf_under | done].
Qed.

Lemma find_ok root id records s :
  I s -> wf_recs 32 records -> Repr rd 32 root records ->
  exists s', Trie.find load root id s = (Ok (alookup id records), s') /\ I s'.
Proof.
  intros HI Hwf HR. unfold Trie.find. rewrite (Repr_empty _ _ _ _ HR).
  destruct (bool_decide_reflect (records = [])) as [->|Hne]; [by exists s|].
  destruct (loader_ok _ _ _ _ HI HR Hne) as (n & s1 & Hld & HN1 & _ & HI1).
  rewrite (st_bind_ok _ _ _ _ _ Hld). by apply (find_loop_ok 32).
Qed.

(** ** Paging *)

(** The records after a bound. *)
Definition after_bound (after : option ObjectId) (records : list Rec) : list Rec :=
  match after with
  | None => records
  | Some a => base.filter (fun r : Rec => key_lt a r.1) records
  end.

Lemma after_bound_filter after records :
  after_bound after records =
  base.filter (fun r : Rec => match after with Some a => key_ltb a r.1 | None => true end = true) records.
Proof.
  destruct after as [a|]; simpl; [by apply list_filter_iff|].
  symmetry. by apply list_filter_all, Forall_forall.
Qed.

(** The records after the [m]-th are those past it. *)
Lemma after_bound_drop m (records : list Rec) :
  sorted_recs records -> (m <= length records)%nat ->
  after_bound (last (take m records).*1) records = drop m records.
Proof.
  intros Hs Hm. destruct m as [|m]; [done|].
  destruct (lookup_lt_is_Some_2 records m ltac:(lia)) as [r Hr].
  rewrite (take_S_r _ _ _ Hr), fmap_app. cbn [fmap list_fmap]. rewrite last_snoc. cbn [after_bound].
  rewrite <- (take_drop_middle records m r Hr) in Hs at 1. destruct r as [rid v].
  apply sorted_recs_app in Hs as (Hlt & _ & Hs). apply sorted_recs_cons in Hs as [Hf _].
  rewrite <- (take_drop_middle records m (rid, v) Hr) at 1. rewrite filter_app, filter_cons.
  simpl (fst (rid, v)). rewrite decide_False by apply key_lt_irrefl.
  rewrite list_filter_none, list_filter_all; [done | done |].
  apply Forall_forall. intros x Hx Hlt'. apply (key_lt_irrefl rid).
  transitivity x.1; [done|]. apply (Hlt x (rid, v)); [done | by left].
Qed.

Lemma after_bound_page after now r l rest :
  sorted_recs now -> after_bound after now = (l ++ [r]) ++ rest -> after_bound (Some r.1) now = rest.
Proof.
  intros Hs Ht. assert (sorted_recs (after_bound after now)) as Hs'.
  { destruct after; [by apply sorted_recs_filter | done]. }
  pose proof (after_bound_drop (length (l ++ [r])) (after_bound after now) Hs') as E.
  rewrite Ht, take_app_length, drop_app_length, fmap_app in E. cbn [fmap list_fmap] in E. rewrite last_snoc in E.
  rewrite <- E by (rewrite !length_app; lia). rewrite <- Ht. clear E.
  destruct after as [a|]; [|done]. cbn [after_bound] in *.
  assert (r ∈ base.filter (fun x : Rec => key_lt a x.1) now) as Hr.
  { rewrite Ht, !elem_of_app, list_elem_of_singleton. auto. }
  apply list_elem_of_filter in Hr as [Hr _]. rewrite list_filter_filter. apply list_filter_iff.
  intros x. split; [|tauto]. intros Hx. split; [done | by transitivity r.1].
Qed.

Lemma collect_leaf_ok after bounded limit records out :
  (length out <= limit)%nat ->
  collect_leaf after bounded limit records out =
  take limit (out ++ after_bound (if bounded then after else None) records).
Proof.
  rewrite after_bound_filter. revert out. induction records as [|r l IH]; intros out Hl.
  - rewrite app_nil_r, take_ge by done. done.
  - cbn [collect_leaf]. destruct (Nat.leb_spec limit (length out)) as [Hle|Hgt].
    { rewrite take_app_le by done. rewrite take_ge by lia. done. }
    rewrite filter_cons.
    replace (bounded && match after with Some a => negb (key_ltb a r.1) | None => false end) with
      (negb match (if bounded then after else None) with Some a => key_ltb a r.1 | None => true end)
      by (destruct bounded, after; simpl; done).
    destruct (match (if bounded then after else None) with Some a => _ | None => true end); simpl.
    + rewrite IH by (rewrite length_app; simpl; lia). by rewrite <- app_assoc.
    + by apply IH.
Qed.

(** At a level where the bound agrees with every record on the bytes above,
    the records after it are those after it under its byte, then all of those
    under the bytes that follow. *)
Lemma after_bound_split k (after : option ObjectId) records :
  wf_recs (Datatypes.S k) records ->
  (forall a r, after = Some a -> r ∈ records ->
     take (32 - Datatypes.S k) (abytes r.1) = take (32 - Datatypes.S k) (abytes a)) ->
  let d := (32 - Datatypes.S k)%nat in
  let start := match after with Some a => b2n (id_byte d a) | None => O end in
  after_bound after records =
  flat_map (fun i => after_bound (if (i =? start)%nat then after else None) (under d (n2b i) records))
    (seq start (256 - start)).
Proof.
  intros Hwf Hshare d start.
  assert ((32 - Datatypes.S k) < 32)%nat as Hd by lia.
  rewrite <- (under_partition k records Hwf) at 1. destruct after as [a|]; cbn [after_bound].
  2:{ change (256 - start)%nat with 256%nat. apply flat_map_ext_in. intros i _. by destruct (_ =? _)%nat. }
  pose proof (b2n_lt (id_byte d a)) as Hst. fold start in Hst.
  replace 256%nat with (start + (256 - start))%nat at 1 by lia.
  rewrite filter_flat_map, seq_app, flat_map_app.
  assert (forall i r, (i < 256)%nat -> r ∈ under d (n2b i) records ->
    take d (abytes a) = take d (abytes r.1) /\ b2z (id_byte d r.1) = Z.of_nat i) as Hin.
  { intros i r Hi [Hb Hr]%elem_of_at_byte. split; [symmetry; by apply Hshare|].
    rewrite Hb. unfold n2b. apply b2z_z2b_small. lia. }
  assert (b2z (id_byte d a) = Z.of_nat start) as Ha.
  { unfold start, b2n. rewrite Z2Nat.id; [done | apply b2z_range]. }
  rewrite (flat_map_ext_in _ (fun _ => [])).
  2:{ intros i Hi%elem_of_seq. apply list_filter_none, Forall_forall. intros r Hr Hlt.
      destruct (Hin i r ltac:(lia) Hr) as [Et Eb].
      apply (id_lt_byte_le d) in Hlt; [lia | done | done]. }
  replace (flat_map (fun _ => []) (seq 0 start)) with (@nil Rec)
    by (induction (seq 0 start); [done | simpl; done]).
  cbn [app]. apply flat_map_ext_in. intros i Hi%elem_of_seq.
  destruct (Nat.eqb_spec i start) as [->|Hne]; [done|]. cbn [after_bound].
  apply list_filter_all, Forall_forall. intros r Hr.
  destruct (Hin i r ltac:(lia) Hr) as [Et Eb]. apply (id_byte_lt d); [done..|]. lia.
Qed.
Lemma collect_ok k fuel child after bounded limit out records s :
  (k <= fuel)%nat -> I s -> wf_recs k records -> Repr rd k child records ->
  (length out <= limit)%nat ->
  (forall a r, bounded = true -> after = Some a -> r ∈ records ->
     take (32 - k) (abytes r.1) = take (32 - k) (abytes a)) ->
  exists s', collect load fuel child after bounded limit out s =
    (Ok (take limit (out ++ after_bound (if bounded then after else None) records)), s') /\ I s'.
Proof.
  revert fuel child bounded out records s.
  induction k as [|k IH]; intros fuel child bounded out records s Hf HI Hwf HR Hl Hshare;
    (destruct (decide (records = [] \/ limit <= length out)%nat) as [Hstop|Hgo];
     [exists s; split; [|done];
      assert (c_empty child || (limit <=? length out)%nat = true) as Hb by
        (rewrite (Repr_empty _ _ _ _ HR); apply orb_true_iff;
         destruct Hstop as [->|Hle]; [by left | right; by apply Nat.leb_le]);
      destruct fuel; cbn [collect]; rewrite Hb; unfold mret, st_ret; do 2 f_equal;
      (destruct Hstop as [->|Hle];
       [destruct bounded, after; simpl; by rewrite app_nil_r, take_ge
       |rewrite take_app_le by done; by rewrite take_ge by lia]) |]);
    (assert (records <> [] /\ (length out < limit)%nat) as [Hne Hlt] by
       (split; [intros ->; apply Hgo; by left | destruct (decide (length out < limit)%nat); [done|];
                exfalso; apply Hgo; right; lia]);
     destruct (loader_ok _ _ _ _ HI HR Hne) as (n & s1 & Hld & HN & _ & HI1);
     assert (c_empty child || (limit <=? length out)%nat = false) as Hb by
        (rewrite (Repr_empty _ _ _ _ HR), bool_decide_eq_false_2 by done; by apply Nat.leb_gt);
     destruct (n_leaf n) eqn:Hleaf;
     [destruct (NodeRepr_leaf_inv _ _ _ _ HN Hleaf) as [Er _]; exists s1; split; [|done];
      destruct fuel; cbn [collect]; rewrite Hb, (st_bind_ok _ _ _ _ _ Hld), Hleaf, Er,
        collect_leaf_ok by done; done |]);
    destruct (NodeRepr_interior_inv _ _ _ _ Hwf HN Hleaf) as (k' & Ek & HS & _); [done|].
  injection Ek as <-. destruct fuel as [|fuel]; [lia|].
  pose proof HN as (Hd & _). cbn [collect]. rewrite Hb, (st_bind_ok _ _ _ _ _ Hld), Hleaf, Hd.
  rewrite (after_bound_split k) by (done || (intros a r; destruct bounded; [eauto | done])).
  set (d := (32 - Datatypes.S k)%nat) in *.
  replace (if bounded then match after with Some a => b2n (id_byte d a) | None => 0%nat end else 0%nat)
    with (match (if bounded then after else None) with Some a => b2n (id_byte d a) | None => 0%nat end)
    by (by destruct bounded).
  set (start := match (if bounded then after else None) with Some a => _ | None => _ end).
  set (part := fun i => after_bound (if (i =? start)%nat then if bounded then after else None else None)
                          (under d (n2b i) records)).
  destruct (foldM_inv (fun done o s => o = take limit (out ++ flat_map part done) /\ I s)
    (fun out i => if (length out <? limit)%nat then
        collect load fuel (nth i (n_children n) no_child) after (bounded && (i =? start)%nat) limit out
      else mret out) (seq start (256 - start)) out s1) as (o & s' & Hfold & -> & HI').
  - split; [|done]. cbn [flat_map]. by rewrite app_nil_r, take_ge.
  - intros done_ i rest o s2 Eseq [-> HI2]. rewrite flat_map_app. cbn [flat_map].
    rewrite app_nil_r. set (o := take limit _).
    assert (start <= i < 256)%nat as Hi.
    { assert (i ∈ seq start (256 - start)) as Hi%elem_of_seq by (rewrite Eseq; set_solver). lia. }
    rewrite app_assoc, <- take_take_app. fold o.
    destruct (Nat.ltb_spec (length o) limit) as [Hol|Hol].
    + destruct (IH fuel (nth i (n_children n) no_child) (bounded && (i =? start)%nat) o
        (under d (n2b i) records) s2) as (s3 & Hc & HI3); [lia | done | by apply wf_under | apply HS; lia | lia | |].
      * intros a r [-> Hia%Nat.eqb_eq]%andb_true_iff Ea [Hbr Hr]%elem_of_at_byte.
        replace (32 - k)%nat with (Datatypes.S d) by (unfold d; pose proof (wf_level _ _ Hwf); lia).
        assert (d < 32)%nat by (unfold d; lia).
        rewrite !take_S_byte by done. f_equal; [by apply (Hshare a r)|]. f_equal.
        rewrite Hbr, Hia. unfold start. rewrite Ea. by rewrite n2b_b2n.
      * exists (take limit (o ++ part i)), s3. rewrite Hc. split; [|done]. unfold part.
        by destruct bounded, (i =? start)%nat.
    + exists o, s2. split; [done|]. split; [|done].
      rewrite take_app_le by done. symmetry. apply take_ge. unfold o. rewrite length_take. lia.
  - exists s'. by rewrite Hfold.
Qed.

Lemma next_ok root after limit records s :
  I s -> wf_recs 32 records -> Repr rd 32 root records ->
  exists s', next load root after limit s = (Ok (take limit (after_bound after records)), s') /\ I s'.
Proof.
  intros HI Hwf HR. unfold next.
  destruct (collect_ok 32 32 root after (bool_decide (is_Some after)) limit [] records s)
    as (s' & Hc & HI'); [done..| simpl; lia | done |].
  exists s'. split; [|done]. rewrite Hc. by destruct after.
Qed.

(** ** Subtrees *)

(** The records whose ids begin with a prefix. *)
Definition covered (p : Prefix) (records : list Rec) : list Rec :=
  base.filter (fun r : Rec => prefix_covers p r.1 = true) records.

Lemma prefix_covers_spec p (id : ObjectId) :
  prefix_covers p id = true <-> take (length p) (abytes id) = p.
Proof. unfold prefix_covers. by rewrite bool_decide_eq_true. Qed.

Lemma prefix_covers_snoc p b (id : ObjectId) :
  (length p < 32)%nat ->
  prefix_covers (p ++ [b]) id = true <-> prefix_covers p id = true /\ id_byte (length p) id = b.
Proof.
  intros Hp. rewrite !prefix_covers_spec, length_app. simpl.
  rewrite Nat.add_1_r, take_S_byte by done. split.
  - intros E. apply app_inj_tail in E. done.
  - by intros [-> ->].
Qed.

Lemma covered_all p records :
  (forall r, r ∈ records -> take (length p) (abytes r.1) = p) -> covered p records = records.
Proof.
  intros Hall. apply list_filter_all, Forall_forall. intros r Hr. by apply prefix_covers_spec, Hall.
Qed.

Lemma covered_snoc p b records :
  (length p < 32)%nat -> covered (p ++ [b]) records = under (length p) b (covered p records).
Proof.
  intros Hp. unfold covered, under, at_byte. rewrite list_filter_filter.
  apply list_filter_iff. intros r. rewrite prefix_covers_snoc by done. tauto.
Qed.

Lemma prefix_covers_byte p d (id : ObjectId) :
  (d < length p)%nat -> (length p <= 32)%nat -> prefix_covers p id = true ->
  id_byte d id = nth d p x00.
Proof.
  intros Hd Hp E%prefix_covers_spec. unfold id_byte, abyte. rewrite <- E.
  rewrite !nth_lookup, lookup_take_lt by lia. done.
Qed.

Lemma covered_under p d records :
  (d < length p)%nat -> (length p <= 32)%nat ->
  covered p (under d (nth d p x00) records) = covered p records.
Proof.
  intros Hd Hp. unfold covered, under, at_byte. apply list_filter_filter_l.
  intros r Hr. by apply (prefix_covers_byte p d).
Qed.

Lemma wf_covered p records :
  (length p <= 32)%nat -> wf_recs 32 records -> wf_recs (32 - length p) (covered p records).
Proof.
  intros Hp Hwf. unfold covered. induction p as [|b p IH] using rev_ind.
  - change (32 - length [])%nat with 32%nat. fold (covered [] records). by rewrite covered_all.
  - rewrite length_app in *. cbn [length] in *. specialize (IH ltac:(lia)).
    fold (covered (p ++ [b]) records). rewrite covered_snoc by lia.
    replace (32 - (length p + 1))%nat with (32 - Datatypes.S (length p))%nat by lia.
    replace (length p) with (32 - Datatypes.S (32 - Datatypes.S (length p)))%nat at 2 by lia.
    apply wf_under. by replace (Datatypes.S (32 - Datatypes.S (length p))) with (32 - length p)%nat by lia.
Qed.

(** ** The subtrees below a leaf *)

Lemma bytes_ltb_take n a b :
  bytes_ltb a b = true -> take n a = take n b \/ bytes_ltb (take n a) (take n b) = true.
Proof.
  revert a b. induction n as [|n IH]; intros [|x a] [|y b]; simpl; try (by left); try (by right).
  destruct (Z.ltb_spec (b2z x) (b2z y)); [by right|].
  destruct (Z.ltb_spec (b2z y) (b2z x)); [done|].
  assert (x = y) as -> by (apply b2z_inj; lia).
  intros [->|?]%IH; [by left | by right].
Qed.

(** What a prefix covers in a sorted list has nothing else between. *)
Lemma prefix_covers_convex p (a b c : ObjectId) :
  key_lt a b -> key_lt b c -> prefix_covers p a = true -> prefix_covers p c = true ->
  prefix_covers p b = true.
Proof.
  rewrite !prefix_covers_spec. intros Hab Hbc Ha Hc.
  destruct (bytes_ltb_take (length p) _ _ Hab) as [E|Hab']; [congruence|].
  destruct (bytes_ltb_take (length p) _ _ Hbc) as [E|Hbc']; [congruence|].
  rewrite Ha in Hab'. rewrite Hc in Hbc'. exfalso.
  pose proof (bytes_ltb_trans _ _ _ Hab' Hbc') as Hp. by rewrite bytes_ltb_irrefl in Hp.
Qed.

Lemma span_length {A} (p : A -> bool) l g r :
  span p l = (g, r) -> (length g + length r = length l)%nat.
Proof.
  revert g r. induction l as [|x l IH]; intros g r; simpl; [by intros [= <- <-]|].
  destruct (p x); [|by intros [= <- <-]]. destruct (span p l) as [g' r'] eqn:E.
  intros [= <- <-]. simpl. f_equal. by apply IH.
Qed.

Lemma runs_loop_fuel {A} (key : A -> byte) f1 f2 (l : list A) :
  (length l <= f1)%nat -> (length l <= f2)%nat -> runs_loop key f1 l = runs_loop key f2 l.
Proof.
  revert f2 l. induction f1 as [|f1 IH]; intros [|f2] [|x l] H1 H2; simpl in *; try done; try lia.
  rewrite bool_decide_eq_true_2 by done.
  destruct (span _ l) as [g r] eqn:E. apply span_length in E. f_equal. apply IH; lia.
Qed.

Lemma span_covered p (byte : byte) (l : list Rec) :
  sorted_recs l ->
  (forall x c, x ∈ l -> c ∈ l -> key_lt x.1 c.1 -> prefix_covers p c.1 = true -> prefix_covers p x.1 = true) ->
  forall g r, span (fun e : Rec => prefix_covers p e.1 && bool_decide (id_byte (length p) e.1 = byte)) l = (g, r) ->
  span (fun e : Rec => bool_decide (id_byte (length p) e.1 = byte)) (covered p l) = (g, covered p r) /\
  (length r <= length l)%nat /\ sorted_recs r.
Proof.
  unfold covered. induction l as [|[xi xv] l IH]; intros Hs Hconv g r E; simpl in E.
  { by injection E as <- <-. }
  pose proof Hs as [Hf Hs']%sorted_recs_cons. rewrite filter_cons.
  destruct (prefix_covers p xi) eqn:Hc; simpl in *; rewrite Hc; simpl.
  - destruct (bool_decide (id_byte (length p) xi = byte)); simpl in E.
    + destruct (span _ l) as [g' r'] eqn:E'. injection E as <- <-.
      destruct (IH Hs' ltac:(intros x c Hx Hy; apply Hconv; by right) _ _ eq_refl) as (-> & ? & ?).
      split_and!; [done | lia | done].
    + injection E as <- <-. rewrite filter_cons. simpl. by rewrite Hc.
  - injection E as <- <-. rewrite filter_cons. simpl. rewrite Hc. simpl.
    rewrite (list_filter_none _ l); [done|]. apply Forall_forall. intros c Hc' Hcov.
    rewrite Forall_forall in Hf.
    enough (prefix_covers p xi = true) by congruence.
    apply (Hconv (xi, xv) c); [by left | by right | by apply Hf | done].
Qed.

(** The walk over a leaf's records makes the runs of the covered ones. *)
Lemma cover_runs_ok p l fuel :
  sorted_recs l -> (length l <= fuel)%nat ->
  cover_runs fuel p l = runs (fun r : Rec => id_byte (length p) r.1) (covered p l).
Proof.
  unfold runs. revert l. induction fuel as [|fuel IH]; intros [|[xi xv] l] Hs Hl; try done; [simpl in Hl; lia|].
  pose proof Hs as [Hf Hs']%sorted_recs_cons. cbn [cover_runs]. simpl (fst (xi, xv)).
  destruct (prefix_covers p xi) eqn:Hc; cbn [negb].
  - destruct (span _ _) as [g r] eqn:E.
    assert (length r <= fuel)%nat as Hr.
    { simpl in E. rewrite Hc, bool_decide_eq_true_2 in E by done. simpl in E.
      destruct (span _ l) as [g' r'] eqn:E'. injection E as <- <-.
      apply span_covered in E' as (_ & ? & _); [simpl in Hl; lia | done |].
      intros x c Hx Hcl Hlt Hcov. rewrite Forall_forall in Hf.
      apply (prefix_covers_convex p xi _ c.1); [by apply Hf | done..]. }
    apply span_covered in E as (E & _ & Hsr); [|done|].
    + rewrite IH by done.
      unfold covered in *. rewrite filter_cons in *. simpl (fst (xi, xv)) in *. rewrite Hc in *.
      destruct (decide (true = true)); [|done]. cbn [length runs_loop].
      simpl (fst (xi, xv)). rewrite E. f_equal. apply runs_loop_fuel; [lia|].
      simpl in E. rewrite bool_decide_eq_true_2 in E by done. simpl in E.
      destruct (span _ (base.filter _ l)) as [g' r'] eqn:E'. injection E as _ <-.
      apply span_length in E'. lia.
    + intros x c Hx Hcl Hlt Hcov. apply elem_of_cons in Hx as [->|Hx]; [done|].
      rewrite Forall_forall in Hf.
      apply elem_of_cons in Hcl as [->|Hcl].
      * simpl in *. exfalso. apply (key_lt_irrefl xi). transitivity x.1; [by apply Hf | done].
      * apply (prefix_covers_convex p xi _ c.1); [by apply Hf | done..].
  - rewrite IH by (done || (simpl in Hl; lia)). unfold covered. rewrite filter_cons.
    simpl (fst (xi, xv)). rewrite Hc. done.
Qed.

(** What [descend] comes to: nothing when nothing is covered, a leaf that has
    every covered record, or the interior node at exactly that prefix. *)
Definition descended (p : Prefix) (records : list Rec) (o : option Node) : Prop :=
  match o with
  | None => covered p records = []
  | Some n => exists k records',
      wf_recs k records' /\ NodeRepr rd k n records' /\ covered p records' = covered p records /\
      if n_leaf n then (32 - k <= length p)%nat
      else (32 - k)%nat = length p /\ records' = covered p records
  end.

Lemma descend_loop_ok k fuel node p records s :
  (k <= fuel)%nat -> I s -> wf_recs k records -> NodeRepr rd k node records ->
  (32 - k <= length p <= 32)%nat ->
  (forall r, r ∈ records -> take (32 - k) (abytes r.1) = take (32 - k) p) ->
  exists o s', descend_loop load fuel node p s = (Ok o, s') /\ I s' /\ descended p records o.
Proof.
  revert fuel node records s. induction k as [|k IH]; intros fuel node records s Hf HI Hwf HN Hp Hall;
    pose proof HN as (Hd & _);
    (destruct (negb (n_leaf node) && (n_depth node <? length p)%nat) eqn:Hgo;
     [|exists (Some node), s; split_and!; [by destruct fuel; cbn [descend_loop]; rewrite Hgo | done |];
       eexists _, records; split_and!; [exact Hwf | exact HN | done |];
       destruct (n_leaf node); [lia|]; simpl in Hgo; apply Nat.ltb_ge in Hgo;
       (assert (length p = 32 - _)%nat as E by (rewrite <- Hd; lia));
       split; [by rewrite E|]; symmetry; apply covered_all;
       intros r Hr; rewrite E, (Hall r Hr), <- E; by apply take_ge]);
    apply andb_true_iff in Hgo as [Hleaf%negb_true_iff Hlt];
    destruct (NodeRepr_interior_inv _ _ _ _ Hwf HN Hleaf) as (k' & Ek & HS & _); [done|].
  injection Ek as <-. destruct fuel as [|fuel]; [lia|].
  cbn [descend_loop]. rewrite Hleaf, Hlt. rewrite Hd in *. apply Nat.ltb_lt in Hlt.
  cbn [negb andb]. set (d := (32 - Datatypes.S k)%nat) in *. destruct HS as [_ HS].
  specialize (HS (b2n (nth d p x00)) (b2n_lt _)). rewrite n2b_b2n in HS. fold d in HS.
  rewrite (Repr_empty _ _ _ _ HS).
  pose proof (covered_under p d records Hlt ltac:(lia)) as Ec.
  destruct (bool_decide_reflect (under d (nth d p x00) records = [])) as [E|E].
  { exists None, s. rewrite E in Ec. simpl. done. }
  destruct (loader_ok _ _ _ _ HI HS E) as (n & s1 & Hld & HN1 & _ & HI1).
  rewrite (st_bind_ok _ _ _ _ _ Hld). pose proof (wf_level _ _ Hwf).
  destruct (IH fuel n _ s1 ltac:(lia) HI1 (wf_under k _ _ Hwf) HN1 ltac:(lia)) as (o & s2 & Ho & HI2 & HD).
  - intros r [Hb Hr]%elem_of_at_byte. fold d in Hb.
    replace (32 - k)%nat with (Datatypes.S d) by (unfold d; lia).
    rewrite take_S_byte, Hb, Hall by (done || (unfold d; lia)).
    symmetry. apply take_S_r. rewrite nth_lookup.
    destruct (lookup_lt_is_Some_2 p d Hlt) as [b ->]. done.
  - exists o, s2. split_and!; [done..|]. fold d in HD. unfold descended in *. by rewrite <- Ec.
Qed.

Lemma descend_ok root p records s :
  I s -> wf_recs 32 records -> Repr rd 32 root records -> (length p <= 32)%nat ->
  exists o s', descend load root p s = (Ok o, s') /\ I s' /\ descended p records o.
Proof.
  intros HI Hwf HR Hp. unfold descend. rewrite (Repr_empty _ _ _ _ HR).
  destruct (bool_decide_reflect (records = [])) as [->|Hne].
  { exists None, s. done. }
  destruct (loader_ok _ _ _ _ HI HR Hne) as (n & s1 & Hld & HN & _ & HI1).
  rewrite (st_bind_ok _ _ _ _ _ Hld). apply (descend_loop_ok 32); [done.. | simpl; lia | done].
Qed.

(** The 256 summaries one byte below a prefix. *)
Definition canon_children (p : Prefix) (records : list Rec) : list Summary :=
  (fun i => canon (31 - length p) (covered (p ++ [n2b i]) records)) <$> seq 0 256.

Lemma canon_children_none p records :
  (length p < 32)%nat -> covered p records = [] -> canon_children p records = replicate 256 no_summary.
Proof.
  intros Hp Hc. apply list_eq. intros i. unfold canon_children. rewrite list_lookup_fmap.
  destruct (decide (i < 256)%nat) as [Hi|Hi].
  - rewrite lookup_replicate_2, lookup_seq_lt by done. simpl. rewrite covered_snoc by done.
    by rewrite Hc, canon_nil.
  - rewrite lookup_seq_ge, lookup_ge_None_2 by (try rewrite length_replicate; lia). done.
Qed.

Lemma canon_small k records :
  Z.of_nat (length records) <= leaf_max -> canon k records = leaf_sum records.
Proof. intros Hle%Z.leb_le. destruct k; cbn [canon]; by rewrite Hle. Qed.

Lemma leaf_summary_ok records :
  Forall (fun r : Rec => Z.of_nat (length r.2) <= value_max) records ->
  leaf_summary records = Ok (leaf_sum records).
Proof.
  intros Hv. unfold leaf_summary. rewrite leaf_hash_ok by done. simpl. by destruct records.
Qed.

(** The summaries a leaf's records make below a prefix. *)
Lemma leaf_children_ok p k records :
  (length p < 32)%nat -> wf_recs k records -> Z.of_nat (length records) <= leaf_max ->
  foldM (fun out '(b, group) => s ← leaf_summary group; mret (<[b2n b := s]> out))
    (replicate 256 no_summary) (cover_runs (length records) p records) =
  Ok (canon_children p records).
Proof.
  intros Hp Hwf Hle. rewrite cover_runs_ok by (apply Hwf || done).
  set (d := length p) in *. set (cov := covered p records).
  assert (byte_sorted (fun r : Rec => r.1) d cov) as Hbs.
  { apply sorted_byte_sorted; [done | |].
    - intros x y [Hx _]%list_elem_of_filter [Hy _]%list_elem_of_filter.
      apply prefix_covers_spec in Hx, Hy. unfold d. congruence.
    - apply sorted_recs_filter, Hwf. }
  destruct (runs_spec (fun r : Rec => r.1) d cov Hbs) as [Hnd Hin].
  rewrite (foldM_fill leaf_summary (fun r => leaf_sum r.2)).
  2:{ apply Forall_forall. intros [b g] [-> _]%Hin. simpl. apply leaf_summary_ok.
      unfold at_byte, cov, covered. pose proof (wf_values _ _ Hwf) as Hv. rewrite Forall_forall in *.
      intros r [_ [_ Hr]%list_elem_of_filter]%list_elem_of_filter. auto. }
  f_equal.
  destruct (fill_slots (fun r => leaf_sum r.2) (runs (fun r : Rec => id_byte d r.1) cov)
    (replicate 256 no_summary) Hnd (length_replicate _ _)) as (Hlen & Hset & Hunset).
  set (out := foldl _ _ _) in *. rewrite (list_as_nth out 256 no_summary Hlen).
  unfold canon_children. apply list_fmap_ext. intros i x Hx. apply lookup_seq in Hx as [-> Hi]. simpl.
  rewrite covered_snoc by done. fold d cov.
  assert (Z.of_nat (length (under d (n2b i) cov)) <= leaf_max) as Hsm.
  { pose proof (length_under d (n2b i) cov). pose proof (length_filter (fun r : Rec => prefix_covers p r.1 = true) records).
    unfold cov, covered in *. lia. }
  rewrite canon_small by done.
  destruct (decide (under d (n2b i) cov = [])) as [E|E].
  - rewrite E, Hunset, nth_replicate; [done|].
    intros b ([b' g] & -> & Hb)%list_elem_of_fmap. simpl. intros Eb.
    apply Hin in Hb as [-> Hne']. apply Hne'. rewrite <- (n2b_b2n b'), Eb. done.
  - assert ((n2b i, under d (n2b i) cov) ∈ runs (fun r : Rec => id_byte d r.1) cov) as Hi' by (by apply Hin).
    specialize (Hset _ _ Hi' no_summary). rewrite b2n_n2b in Hset by done. by rewrite Hset.
Qed.

Lemma children_of_ok root p records s :
  I s -> wf_recs 32 records -> Repr rd 32 root records -> (length p < 32)%nat ->
  exists s', children_of load root p s = (Ok (canon_children p records), s') /\ I s'.
Proof.
  intros HI Hwf HR Hp. unfold children_of. rewrite (proj2 (Nat.leb_gt 32 (length p))) by done.
  destruct (descend_ok root p records s) as (o & s1 & Ho & HI1 & HD); [done.. | lia |].
  rewrite (st_bind_ok _ _ _ _ _ Ho). exists s1. split; [|done].
  assert (forall r', covered p r' = covered p records -> canon_children p r' = canon_children p records)
    as Hext.
  { intros r' E. apply list_fmap_ext. intros i x _. by rewrite !covered_snoc, E by done. }
  destruct o as [n|]; simpl in HD.
  - destruct HD as (k & records' & Hwf' & HN & Ec & HD).
    destruct (n_leaf n) eqn:Hleaf; cbn [negb].
    + destruct (NodeRepr_leaf_inv _ _ _ _ HN Hleaf) as [-> Hle].
      unfold st_lift. rewrite (leaf_children_ok p k) by done. by rewrite Hext.
    + destruct HD as [Hk ->]. unfold mret, st_ret. do 2 f_equal.
      destruct (NodeRepr_interior_inv _ _ _ _ Hwf' HN Hleaf) as (k' & -> & [Hl HS] & _).
      rewrite (list_as_nth _ 256 no_child Hl), <- list_fmap_compose. apply list_fmap_ext.
      intros i x Hx. apply lookup_seq in Hx as [-> Hi]. simpl in Hi. cbn [compose Nat.add].
      rewrite (Repr_summary rd k' _ (under (32 - Datatypes.S k') (n2b i) (covered p records)));
        [|by apply wf_under | by apply HS].
      rewrite covered_snoc, Hk by done. pose proof (wf_level _ _ Hwf'). f_equal. lia.
  - by rewrite canon_children_none.
Qed.

Definition too_many : exn :=
  LengthError "object trie: more records below a prefix than asked for".

Lemma records_of_ok root p most records s :
  I s -> wf_recs 32 records -> Repr rd 32 root records -> (length p <= 32)%nat ->
  let n := Z.of_nat (length (covered p records)) in
  exists s', I s' /\ records_of load root p most s =
    (if (leaf_max <? n) && (most <? n) then Throw too_many else Ok (covered p records), s').
Proof.
  intros HI Hwf HR Hp n. unfold records_of.
  destruct (descend_ok root p records s) as (o & s1 & Ho & HI1 & HD); [done.. |].
  rewrite (st_bind_ok _ _ _ _ _ Ho). destruct o as [node|]; simpl in HD.
  2:{ exists s1. split; [done|]. unfold n. by rewrite HD. }
  destruct HD as (k & records' & Hwf' & HN & Ec & HD). destruct (n_leaf node) eqn:Hleaf.
  - destruct (NodeRepr_leaf_inv _ _ _ _ HN Hleaf) as [-> Hle]. fold (covered p records').
    exists s1. split; [done|]. rewrite Ec.
    pose proof (length_filter (fun r : Rec => prefix_covers p r.1 = true) records') as Hf.
    fold (covered p records') in Hf. rewrite Ec in Hf. fold n in Hf.
    by rewrite (proj2 (Z.ltb_ge leaf_max n)) by lia.
  - destruct HD as [Hk ->]. pose proof HN as (_ & Hcount & _). fold n in Hcount.
    destruct (NodeRepr_interior_inv _ _ _ _ Hwf' HN Hleaf) as (k' & _ & _ & Hgt). fold n in Hgt.
    rewrite (proj2 (Z.ltb_lt leaf_max n)), Hcount by done. cbn [andb].
    destruct (most <? n); [by exists s1|].
    assert (covered p records <> []) as Hne.
    { intros E. unfold n, leaf_max in Hgt. rewrite E in Hgt. simpl in Hgt. lia. }
    destruct (collect_ok k 32 (child_of node) None false (Z.to_nat n) [] (covered p records) s1)
      as (s2 & Hc & HI2); [apply Hwf' | done | done | by apply child_of_ok | simpl; lia | done |].
    exists s2. split; [done|]. unfold child_of in Hc. rewrite Hcount in Hc. rewrite Hc.
    do 2 f_equal. cbn [app after_bound]. apply take_ge. unfold n. lia.
Qed.

End loader.
