(* ===== verification/TrieDiff.v ===== *)
(** * The difference of two tries

    [src/src/ledger/trie_diff.cpp], [trie_diff.hpp]: [diff_tries] descends two
    tries a level at a time, asking each side only about the subtrees whose
    summaries differ; [records_not_held] walks several tries in step. Both
    work against what a side answers ([TrieSource], a page of records), so
    they are proved here from what a side promises ([source_ok], [pager_ok]),
    and the snapshots, unions and peers that keep the promise come later. *)

From S2P Require Import Prelude Codec Journal Trie TrieShape TrieHash TrieOps.

(** ** Sources *)

(** One side of a diff; its methods may change a state of type [S]: a cache,
    a connection. *)
Record TrieSource (S : Type) : Type := mkSource {
  src_root : ST S Summary;
  src_children : list Prefix -> ST S (list (list Summary));
  src_records : list Prefix -> ST S (list (list Rec))
}.
Arguments mkSource {S}.
Arguments src_root {S}.
Arguments src_children {S}.
Arguments src_records {S}.

(** An id whose record differs. *)
Record TrieDifference : Type := mkDifference {
  df_id : ObjectId;
  df_left : option Bytes;
  df_right : option Bytes
}.

(** What a diff asked of each side; [size_t] counters. *)
Record TrieDiffCost : Type := mkCost {
  cost_rounds : Z;
  cost_prefixes : Z;
  cost_records : Z
}.
Definition no_cost : TrieDiffCost := mkCost 0 0 0.

(** An index past the answers: a side gave fewer than it was asked for, and
    the behaviour is undefined. Never reached with a side that keeps its
    promise. *)
Definition no_answer : exn := LogicError "trie diff: an answer is missing".
(** The bound on a loop's turns; never reached either. *)
Definition out_of_turns : exn := LogicError "trie diff: more turns than records".

Section diff.
Context {S : Type}.
Implicit Types visit : TrieDifference -> ST S unit.

(** Both sides' records below one prefix, compared in id order. *)
Fixpoint compare visit (left : list Rec) : list Rec -> ST S unit :=
  fix go (right : list Rec) : ST S unit :=
    match left, right with
    | [], [] => mret tt
    | l :: left', [] =>
        _ ← visit (mkDifference l.1 (Some l.2) None); compare visit left' []
    | [], r :: right' =>
        _ ← visit (mkDifference r.1 None (Some r.2)); go right'
    | l :: left', r :: right' =>
        if key_ltb l.1 r.1 then
          _ ← visit (mkDifference l.1 (Some l.2) None); compare visit left' right
        else if key_ltb r.1 l.1 then
          _ ← visit (mkDifference r.1 None (Some r.2)); go right'
        else
          _ ← (if bool_decide (l.2 = r.2) then mret tt
               else visit (mkDifference l.1 (Some l.2) (Some r.2)));
          compare visit left' right'
    end.

(** The prefixes to descend into and those to read. *)
Record Pending : Type := mkPending { descend : list Prefix; read : list Prefix }.

Definition place (prefix : Prefix) (a b : Summary) (p : Pending) : Pending :=
  if Z.max (sm_count a) (sm_count b) <=? leaf_max
  then mkPending (descend p) (read p ++ [prefix])
  else mkPending (descend p ++ [prefix]) (read p).

(** The loop over the answers of a round of records. *)
Definition compare_all visit (asked : list Prefix) (a b : list (list Rec)) (cost : TrieDiffCost)
    : ST S TrieDiffCost :=
  foldM (fun cost i =>
      match a !! i, b !! i with
      | Some ai, Some bi =>
          _ ← compare visit ai bi;
          mret (mkCost (cost_rounds cost) (cost_prefixes cost)
            (wrap64 (cost_records cost + (Z.of_nat (length ai) + Z.of_nat (length bi)))))
      | _, _ => st_throw no_answer
      end)
    cost (seq 0 (length asked)).

(** The loop over the 256 slots of one answer of a round of children. *)
Definition place_slots (prefix : Prefix) (a b : list Summary) (p : Pending) : Pending :=
  foldl (fun p slot =>
      let sa := nth slot a no_summary in
      let sb := nth slot b no_summary in
      if bool_decide (sa = sb) then p else place (prefix_child prefix (n2b slot)) sa sb p)
    p (seq 0 256).

Definition place_all (level : list Prefix) (a b : list (list Summary)) (p : Pending) : ST S Pending :=
  foldM (fun p i =>
      match level !! i, a !! i, b !! i with
      | Some prefix, Some ai, Some bi => mret (place_slots prefix ai bi p)
      | _, _, _ => st_throw no_answer
      end)
    p (seq 0 (length level)).

(** [++cost.rounds; cost.prefixes += asked.size()]. *)
Definition asked_of (asked : list Prefix) (cost : TrieDiffCost) : TrieDiffCost :=
  mkCost (wrap64 (cost_rounds cost + 1))
         (wrap64 (cost_prefixes cost + Z.of_nat (length asked))) (cost_records cost).

Definition read_round (left right : TrieSource S) visit (cost : TrieDiffCost) (p : Pending)
    : ST S (TrieDiffCost * Pending) :=
  match read p with
  | [] => mret (cost, p)
  | asked =>
      a ← src_records left asked;
      b ← src_records right asked;
      cost ← compare_all visit asked a b (asked_of asked cost);
      mret (cost, mkPending (descend p) [])
  end.

Definition descend_round (left right : TrieSource S) (cost : TrieDiffCost) (p : Pending)
    : ST S (TrieDiffCost * Pending) :=
  match descend p with
  | [] => mret (cost, p)
  | level =>
      a ← src_children left level;
      b ← src_children right level;
      p ← place_all level a b (mkPending [] (read p));
      mret (asked_of level cost, p)
  end.

(** [while (!descend.empty() || !read.empty())]. Every turn goes a byte
    further down, and no side has anything below a whole id. *)
Fixpoint diff_loop (fuel : nat) (left right : TrieSource S) visit (pause : option (ST S unit))
    (cost : TrieDiffCost) (p : Pending) : ST S TrieDiffCost :=
  match descend p, read p with
  | [], [] => mret cost
  | _, _ =>
      match fuel with
      | O => st_throw too_deep
      | Datatypes.S fuel' =>
          '(cost, p) ← read_round left right visit cost p;
          '(cost, p) ← descend_round left right cost p;
          _ ← match pause with Some f => f | None => mret tt end;
          diff_loop fuel' left right visit pause cost p
      end
  end.

Definition diff_tries (left right : TrieSource S) visit (pause : option (ST S unit))
    : ST S TrieDiffCost :=
  left_root ← src_root left;
  right_root ← src_root right;
  if bool_decide (left_root = right_root) then mret no_cost
  else diff_loop 33 left right visit pause no_cost
         (place [] left_root right_root (mkPending [] [])).

(** ** Records none of several tries holds *)

(** A trie's records after an id, at most so many: [Snapshot::next]. *)
Definition Pager : Type := option ObjectId -> nat -> ST S (list Rec).

Record Cursor : Type := mkCursor {
  cu_page : list Rec;
  cu_at : nat;
  cu_after : option ObjectId;
  cu_done : bool
}.

Definition page_size : nat := Z.to_nat 4096.

Definition cursor_fill (next : Pager) (c : Cursor) : ST S Cursor :=
  page ← next (cu_after c) page_size;
  mret (mkCursor page 0
    (match last page with Some r => Some r.1 | None => cu_after c end)
    (length page <? page_size)%nat).

Definition cursor_new (next : Pager) : ST S Cursor :=
  cursor_fill next (mkCursor [] 0 None false).

Definition cursor_peek (c : Cursor) : option Rec := cu_page c !! cu_at c.

Definition cursor_advance (next : Pager) (c : Cursor) : ST S Cursor :=
  let c := mkCursor (cu_page c) (cu_at c + 1) (cu_after c) (cu_done c) in
  if (length (cu_page c) <=? cu_at c)%nat && negb (cu_done c) then cursor_fill next c else mret c.

(** Moves to the first record at or after [id]; a turn passes a record. *)
Fixpoint cursor_seek (fuel : nat) (next : Pager) (id : ObjectId) (c : Cursor) : ST S Cursor :=
  match cursor_peek c with
  | None => mret c
  | Some record =>
      if negb (key_ltb record.1 id) then mret c
      else
        match fuel with
        | O => st_throw out_of_turns
        | Datatypes.S fuel' => c ← cursor_advance next c; cursor_seek fuel' next id c
        end
  end.

(** The inner loop: every cursor is moved on, found or not. *)
Fixpoint seek_all (fuel : nat) (id : ObjectId) (have : list (Pager * Cursor))
    : ST S (bool * list (Pager * Cursor)) :=
  match have with
  | [] => mret (false, [])
  | (next, c) :: rest =>
      c ← cursor_seek fuel next id c;
      '(found, rest) ← seek_all fuel id rest;
      mret (match cursor_peek c with
            | Some r => bool_decide (r.1 = id) || found
            | None => found
            end, (next, c) :: rest)
  end.

(** [if (pause && ++seen % 4096 == 0) pause()]. *)
Definition pause_each (pause : option (ST S unit)) (seen : Z) : ST S Z :=
  match pause with
  | None => mret seen
  | Some f =>
      let seen := wrap64 (seen + 1) in
      _ ← (if seen mod 4096 =? 0 then f else mret tt); mret seen
  end.

Fixpoint not_held_loop (turns fuel : nat) (wanted : Pager) (want : Cursor) (have : list (Pager * Cursor))
    (visit : Rec -> ST S unit) (pause : option (ST S unit)) (seen : Z) : ST S unit :=
  match cursor_peek want with
  | None => mret tt
  | Some record =>
      match fuel with
      | O => st_throw out_of_turns
      | Datatypes.S fuel' =>
          '(found, have) ← seek_all turns record.1 have;
          _ ← (if (found : bool) then mret tt else visit record);
          next ← cursor_advance wanted want;
          seen ← pause_each pause seen;
          not_held_loop turns fuel' wanted next have visit pause seen
      end
  end.

Fixpoint cursors_new (held : list Pager) : ST S (list (Pager * Cursor)) :=
  match held with
  | [] => mret []
  | next :: rest => c ← cursor_new next; cs ← cursors_new rest; mret ((next, c) :: cs)
  end.

(** [turns] bounds the records of any one trie. *)
Definition records_not_held (turns : nat) (wanted : Pager) (held : list Pager)
    (visit : Rec -> ST S unit) (pause : option (ST S unit)) : ST S unit :=
  want ← cursor_new wanted;
  have ← cursors_new held;
  not_held_loop turns turns wanted want have visit pause 0.

End diff.
Arguments Pager : clear implicits.

(** ** What a side promises *)

(** The side's records, and that every answer is the one a trie over them
    gives. [I] is what its methods need and keep of the state. *)
Record source_ok `{Sha256} {S} (I : S -> Prop) (src : TrieSource S) (records : list Rec) : Prop := {
  so_wf : wf_recs 32 records;
  so_root : forall s, I s -> exists s', src_root src s = (Ok (canon 32 records), s') /\ I s';
  so_children : forall ps s, I s -> Forall (fun p : Prefix => (length p < 32)%nat) ps ->
    exists s', src_children src ps s = (Ok ((fun p => canon_children p records) <$> ps), s') /\ I s';
  so_records : forall ps s, I s ->
    Forall (fun p : Prefix => (length p <= 32)%nat /\ Z.of_nat (length (covered p records)) <= leaf_max) ps ->
    exists s', src_records src ps s = (Ok ((fun p => covered p records) <$> ps), s') /\ I s'
}.

(** A trie read a page at a time. *)
Definition pager_ok {S} (I : S -> Prop) (next : Pager S) (records : list Rec) : Prop :=
  sorted_recs records /\
  forall after limit s, I s ->
    exists s', next after limit s = (Ok (take limit (after_bound after records)), s') /\ I s'.

(** ** The differences of two lists of records *)

(** What [compare] visits. *)
Fixpoint differences (left : list Rec) : list Rec -> list TrieDifference :=
  fix go (right : list Rec) : list TrieDifference :=
    match left, right with
    | [], [] => []
    | l :: left', [] => mkDifference l.1 (Some l.2) None :: differences left' []
    | [], r :: right' => mkDifference r.1 None (Some r.2) :: go right'
    | l :: left', r :: right' =>
        if key_ltb l.1 r.1 then mkDifference l.1 (Some l.2) None :: differences left' right
        else if key_ltb r.1 l.1 then mkDifference r.1 None (Some r.2) :: go right'
        else (if bool_decide (l.2 = r.2) then []
              else [mkDifference l.1 (Some l.2) (Some r.2)]) ++ differences left' right'
    end.

(** The record of an id on each side, where they differ. *)
Definition differs (l r : list Rec) (d : TrieDifference) : Prop :=
  df_left d = alookup (df_id d) l /\ df_right d = alookup (df_id d) r /\ df_left d <> df_right d.

Lemma compare_visits {S} (J : list TrieDifference -> S -> Prop) visit l r ds s :
  (forall ds d s, J ds s -> exists s', visit d s = (Ok tt, s') /\ J (ds ++ [d]) s') ->
  J ds s ->
  exists s', compare visit l r s = (Ok tt, s') /\ J (ds ++ differences l r) s'.
Proof.
  intros Hv. revert r ds s. induction l as [|x l IHl].
  - induction r as [|y r IHr]; intros ds s HJ; cbn [compare differences].
    + exists s. by rewrite app_nil_r.
    + destruct (Hv _ (mkDifference y.1 None (Some y.2)) _ HJ) as (s1 & E & HJ1).
      rewrite (st_bind_ok _ _ _ _ _ E). destruct (IHr _ _ HJ1) as (s2 & E2 & HJ2).
      exists s2. rewrite <- app_assoc in HJ2. done.
  - induction r as [|y r IHr]; intros ds s HJ; cbn [compare differences].
    + destruct (Hv _ (mkDifference x.1 (Some x.2) None) _ HJ) as (s1 & E & HJ1).
      rewrite (st_bind_ok _ _ _ _ _ E). destruct (IHl [] _ _ HJ1) as (s2 & E2 & HJ2).
      exists s2. rewrite <- app_assoc in HJ2. done.
    + destruct (key_ltb x.1 y.1); [|destruct (key_ltb y.1 x.1)].
      * destruct (Hv _ (mkDifference x.1 (Some x.2) None) _ HJ) as (s1 & E & HJ1).
        rewrite (st_bind_ok _ _ _ _ _ E). destruct (IHl (y :: r) _ _ HJ1) as (s2 & E2 & HJ2).
        exists s2. rewrite <- app_assoc in HJ2. done.
      * destruct (Hv _ (mkDifference y.1 None (Some y.2)) _ HJ) as (s1 & E & HJ1).
        rewrite (st_bind_ok _ _ _ _ _ E). destruct (IHr _ _ HJ1) as (s2 & E2 & HJ2).
        exists s2. rewrite <- app_assoc in HJ2. done.
      * destruct (bool_decide (x.2 = y.2)).
        -- rewrite (st_bind_ok _ _ s tt s); [|done]. apply (IHl r ds s HJ).
        -- destruct (Hv _ (mkDifference x.1 (Some x.2) (Some y.2)) _ HJ) as (s1 & E & HJ1).
           rewrite (st_bind_ok _ _ _ _ _ E). destruct (IHl r _ _ HJ1) as (s2 & E2 & HJ2).
           exists s2. rewrite <- app_assoc in HJ2. done.
Qed.


Lemma differs_left x l r d :
  Forall (fun e : Rec => key_lt x.1 e.1) l -> Forall (fun e : Rec => key_lt x.1 e.1) r ->
  differs (x :: l) r d <-> d = mkDifference x.1 (Some x.2) None \/ differs l r d.
Proof.
  intros Hl Hr. destruct x as [xi xv], d as [id a b]. unfold differs. cbn [df_id df_left df_right fst snd] in *.
  rewrite alookup_cons. destruct (decide (id = xi)) as [->|Hne].
  - rewrite (alookup_below xi r), (alookup_below xi l) by done. split.
    + intros (-> & -> & _). by left.
    + intros [[= -> ->]|(-> & -> & [])]; done.
  - split; [by right|]. intros [[= -> _ _]|?]; done.
Qed.

Lemma differs_sym l r d :
  differs l r d <-> differs r l (mkDifference (df_id d) (df_right d) (df_left d)).
Proof. unfold differs. simpl. intuition congruence. Qed.

Lemma differs_right y l r d :
  Forall (fun e : Rec => key_lt y.1 e.1) l -> Forall (fun e : Rec => key_lt y.1 e.1) r ->
  differs l (y :: r) d <-> d = mkDifference y.1 None (Some y.2) \/ differs l r d.
Proof.
  intros Hl Hr. rewrite differs_sym, differs_left, <- differs_sym by done.
  destruct d as [id a b]. simpl. split; (intros [[= -> -> ->]|?]; [by left | by right]).
Qed.

Lemma differs_both x y l r d :
  x.1 = y.1 -> Forall (fun e : Rec => key_lt x.1 e.1) l -> Forall (fun e : Rec => key_lt x.1 e.1) r ->
  differs (x :: l) (y :: r) d <->
  (x.2 <> y.2 /\ d = mkDifference x.1 (Some x.2) (Some y.2)) \/ differs l r d.
Proof.
  intros E Hl Hr. destruct x as [xi xv], y as [yi yv], d as [id a b]. unfold differs.
  cbn [df_id df_left df_right fst snd] in *. subst yi. rewrite !alookup_cons.
  destruct (decide (id = xi)) as [->|Hne].
  - rewrite (alookup_below xi r), (alookup_below xi l) by done. split.
    + intros (-> & -> & Hd). left. split; [congruence | done].
    + intros [[Hd [= -> ->]]|(-> & -> & [])]; [|done]. split_and!; congruence.
  - split; [by right|]. intros [[_ [= -> _ _]]|?]; done.
Qed.

Lemma Forall_lt_trans (a b : ObjectId) (l : list Rec) :
  key_lt a b -> Forall (fun e : Rec => key_lt b e.1) l -> Forall (fun e : Rec => key_lt a e.1) l.
Proof. intros Hab Hl. eapply Forall_impl; [exact Hl|]. intros e He. by transitivity b. Qed.

Lemma elem_of_differences l r d :
  sorted_recs l -> sorted_recs r -> d ∈ differences l r <-> differs l r d.
Proof.
  revert r d. induction l as [|[xi xv] l IHl].
  - induction r as [|[yi yv] r IHr]; intros d Hl Hr; cbn [differences].
    + rewrite elem_of_nil. split; [done|]. by intros (-> & -> & []).
    + apply sorted_recs_cons in Hr as [Hf Hr]. rewrite elem_of_cons, IHr, differs_right by done. done.
  - induction r as [|[yi yv] r IHr]; intros d Hl Hr; pose proof Hl as (Hfl & Hl')%sorted_recs_cons;
      cbn [differences fst snd].
    + rewrite elem_of_cons, IHl, differs_left by done. done.
    + pose proof Hr as (Hfr & Hr')%sorted_recs_cons. destruct (key_ltb xi yi) eqn:E1; [|destruct (key_ltb yi xi) eqn:E2].
      * rewrite elem_of_cons, IHl, differs_left; try done.
        constructor; [done | by eapply Forall_lt_trans].
      * rewrite elem_of_cons, IHr, differs_right; try done.
        constructor; [done | by eapply Forall_lt_trans].
      * pose proof (key_total _ _ E1 E2) as <-. rewrite elem_of_app, IHl, differs_both by done. cbn [fst snd].
        destruct (bool_decide_reflect (xv = yv)); rewrite ?elem_of_nil, ?list_elem_of_singleton; tauto.
Qed.

(** Each id once, in order. *)
Lemma differences_sorted l r :
  sorted_recs l -> sorted_recs r -> sorted_keys (df_id <$> differences l r).
Proof.
  assert (forall id l r, sorted_recs l -> sorted_recs r -> Forall (fun e : Rec => key_lt id e.1) l ->
    Forall (fun e : Rec => key_lt id e.1) r -> Forall (fun i => key_lt id i) (df_id <$> differences l r)) as Hlt.
  { intros id l0 r0 Hl Hr Hfl Hfr. apply Forall_fmap, Forall_forall. intros d Hd.
    apply elem_of_differences in Hd as (E1 & E2 & Hne); [|done..]. unfold compose.
    rewrite Forall_forall in Hfl, Hfr.
    destruct (alookup (df_id d) l0) as [v|] eqn:El; [by apply alookup_Some_elem, Hfl in El|].
    destruct (alookup (df_id d) r0) as [v|] eqn:Er; [by apply alookup_Some_elem, Hfr in Er | congruence]. }
  unfold sorted_keys. revert r. induction l as [|[xi xv] l IHl].
  - induction r as [|[yi yv] r IHr]; intros Hl Hr; cbn [differences]; [constructor|].
    apply sorted_recs_cons in Hr as [Hf Hr]. rewrite fmap_cons. apply StronglySorted_cons.
    split; [by apply (Hlt yi [] r) | auto].
  - induction r as [|[yi yv] r IHr]; intros Hl Hr; pose proof Hl as (Hfl & Hl')%sorted_recs_cons;
      cbn [differences fst snd].
    + rewrite fmap_cons. apply StronglySorted_cons. split; [by apply (Hlt xi l []) | auto].
    + pose proof Hr as (Hfr & Hr')%sorted_recs_cons. destruct (key_ltb xi yi) eqn:E1; [|destruct (key_ltb yi xi) eqn:E2].
      * rewrite fmap_cons. apply StronglySorted_cons. split; [|auto]. apply (Hlt xi l ((yi, yv) :: r)); try done.
        constructor; [done | by eapply Forall_lt_trans].
      * rewrite fmap_cons. apply StronglySorted_cons. split; [|auto]. apply (Hlt yi ((xi, xv) :: l) r); try done.
        constructor; [done | by eapply Forall_lt_trans].
      * pose proof (key_total _ _ E1 E2) as <-. destruct (bool_decide _); [by apply IHl|].
        rewrite fmap_app. cbn [fmap list_fmap app]. apply StronglySorted_cons. split; [by apply (Hlt xi l r) | auto].
Qed.

Lemma differences_NoDup l r : sorted_recs l -> sorted_recs r -> NoDup (differences l r).
Proof.
  intros Hl Hr. eapply NoDup_fmap_1, sorted_keys_NoDup. by apply (differences_sorted l r).
Qed.

Lemma differences_same l : sorted_recs l -> differences l l = [].
Proof.
  intros Hs. destruct (differences l l) as [|d ds] eqn:E; [done|]. exfalso.
  assert (d ∈ differences l l) as Hd by (rewrite E; by left).
  apply elem_of_differences in Hd as (E1 & E2 & Hne); [congruence | done..].
Qed.

Lemma differences_none l r : sorted_recs l -> sorted_recs r -> differences l r = [] -> l = r.
Proof.
  intros Hl Hr E. apply sorted_recs_ext; [done..|]. intros id.
  destruct (decide (alookup id l = alookup id r)) as [|Hne]; [done|]. exfalso.
  assert (mkDifference id (alookup id l) (alookup id r) ∈ differences l r) as Hin
    by (by apply elem_of_differences).
  rewrite E in Hin. by apply not_elem_of_nil in Hin.
Qed.

(** ** Loops over answers *)

Lemma foldM_ext {S A B} (f g : B -> A -> ST S B) b l s :
  (forall b a s, a ∈ l -> f b a s = g b a s) -> foldM f b l s = foldM g b l s.
Proof.
  revert b s. induction l as [|a l IH]; intros b s E; [done|]. cbn [foldM].
  unfold mbind, st_bind. rewrite E by (by left). destruct (g b a s) as [[b'|e] s']; [|done].
  apply IH. intros. apply E. by right.
Qed.

(** A loop over indices is a loop over what is at them. *)
Lemma foldM_indices {S A B} (g : B -> A -> ST S B) e b l s :
  foldM (fun b i => match l !! i with Some x => g b x | None => st_throw e end) b (seq 0 (length l)) s =
  foldM g b l s.
Proof.
  enough (forall pre, foldM (fun b i => match (pre ++ l) !! i with Some x => g b x | None => st_throw e end)
    b (seq (length pre) (length l)) s = foldM g b l s) as Hgen by apply (Hgen []).
  revert b s. induction l as [|x l IH]; intros b s pre; [done|]. cbn [length seq foldM].
  rewrite list_lookup_middle by done. unfold mbind, st_bind. destruct (g b x s) as [[b'|e'] s']; [|done].
  specialize (IH b' s' (pre ++ [x])). rewrite length_app, Nat.add_1_r, <- app_assoc in IH. exact IH.
Qed.

Lemma alookup_filter_key {V} (P : ObjectId -> bool) (l : list (ObjectId * V)) id :
  alookup id (base.filter (fun r : ObjectId * V => P r.1 = true) l) =
  if P id then alookup id l else None.
Proof.
  induction l as [|[i v] l IH]; [by destruct (P id)|]. rewrite filter_cons, alookup_cons. simpl fst.
  destruct (decide (P i = true)) as [Hi|Hi].
  - rewrite alookup_cons, IH. destruct (decide (id = i)) as [->|]; [by rewrite Hi | done].
  - rewrite IH. destruct (decide (id = i)) as [->|]; [|done]. by destruct (P i).
Qed.

Lemma alookup_covered p (l : list Rec) id :
  alookup id (covered p l) = if prefix_covers p id then alookup id l else None.
Proof. apply alookup_filter_key. Qed.

(** Below any one prefix, no two strings the tries hash collide. *)
Definition apart `{Sha256} (l r : list Rec) : Prop :=
  forall p : Prefix, (length p <= 32)%nat ->
    no_collision (hashed (32 - length p) (covered p l) ++ hashed (32 - length p) (covered p r)).

Section diff_proof.
Context `{Sha256} {S : Type}.
Context (l r : list Rec) (Wl : wf_recs 32 l) (Wr : wf_recs 32 r).
Context (Hnc : apart l r).

(** The differences below a prefix. *)
Definition below (p : Prefix) : list TrieDifference := differences (covered p l) (covered p r).

Lemma elem_of_below p d :
  d ∈ below p <-> prefix_covers p (df_id d) = true /\ differs l r d.
Proof.
  unfold below. rewrite elem_of_differences by (apply sorted_recs_filter; (apply Wl || apply Wr)).
  unfold differs. rewrite !alookup_covered. destruct (prefix_covers p (df_id d)); [tauto|].
  split; [by intros (-> & -> & []) | by intros [? _]].
Qed.

(** Every difference below a prefix is below one of its slots. *)
Lemma below_slots p :
  (length p < 32)%nat -> below p ≡ₚ (seq 0 256 ≫= fun i => below (prefix_child p (n2b i))).
Proof.
  intros Hp. apply NoDup_Permutation.
  - apply differences_NoDup; apply sorted_recs_filter; (apply Wl || apply Wr).
  - apply NoDup_bind; [| |apply NoDup_seq].
    + intros i j d Hi%elem_of_seq Hj%elem_of_seq [Ci _]%elem_of_below [Cj _]%elem_of_below.
      unfold prefix_child in *. apply prefix_covers_snoc in Ci as [_ Ci], Cj as [_ Cj]; [|done..].
      rewrite <- (b2n_n2b i), <- (b2n_n2b j) by lia. congruence.
    + intros i _. apply differences_NoDup; apply sorted_recs_filter; (apply Wl || apply Wr).
  - intros d. rewrite list_elem_of_bind. setoid_rewrite elem_of_below. unfold prefix_child. split.
    + intros [Hc Hd]. exists (b2n (id_byte (length p) (df_id d))). rewrite n2b_b2n, prefix_covers_snoc by done.
      split; [done|]. apply elem_of_seq. pose proof (b2n_lt (id_byte (length p) (df_id d))). lia.
    + intros (i & [Hc Hd] & _). by apply prefix_covers_snoc in Hc as [Hc _].
Qed.

(** Equal summaries: nothing below differs; different ones: something does. *)
Lemma below_none p :
  (length p <= 32)%nat ->
  canon (32 - length p) (covered p l) = canon (32 - length p) (covered p r) -> below p = [].
Proof.
  intros Hp E. apply canon_inj in E; [|by apply wf_covered|by apply wf_covered|by apply Hnc].
  unfold below. rewrite E. apply differences_same, sorted_recs_filter, Wr.
Qed.

Lemma below_some p :
  canon (32 - length p) (covered p l) <> canon (32 - length p) (covered p r) -> below p <> [].
Proof.
  intros Hne E. apply Hne. f_equal.
  apply differences_none; [apply sorted_recs_filter; (apply Wl || apply Wr)..|done].
Qed.

(** ** The descent *)

(** A prefix waiting at level [n]: its summaries differ. *)
Record waiting (n : nat) (small : bool) (p : Prefix) : Prop := {
  wa_length : length p = n;
  wa_level : (n <= 32)%nat;
  wa_differ : canon (32 - n) (covered p l) <> canon (32 - n) (covered p r);
  wa_small : (Z.max (Z.of_nat (length (covered p l))) (Z.of_nat (length (covered p r))) <=? leaf_max) = small
}.

(** The pending prefixes of a level have exactly the differences [ds] below
    them. *)
Record placed (n : nat) (ds : list TrieDifference) (q : Pending) : Prop := {
  pl_read : Forall (waiting n true) (read q);
  pl_descend : Forall (waiting n false) (descend q);
  pl_below : (read q ++ descend q) ≫= below ≡ₚ ds
}.

Lemma canon_max n p :
  length p = n -> (n <= 32)%nat ->
  Z.max (sm_count (canon (32 - n) (covered p l))) (sm_count (canon (32 - n) (covered p r))) =
  Z.max (Z.of_nat (length (covered p l))) (Z.of_nat (length (covered p r))).
Proof. intros <- Hp. by rewrite !canon_count by (by apply wf_covered). Qed.

Lemma place_ok n p ds q :
  length p = n -> (n <= 32)%nat ->
  canon (32 - n) (covered p l) <> canon (32 - n) (covered p r) -> placed n ds q ->
  placed n (ds ++ below p) (place p (canon (32 - n) (covered p l)) (canon (32 - n) (covered p r)) q).
Proof.
  intros Hl Hn Hne [Hr Hd Hb]. unfold place. rewrite canon_max by done.
  destruct (_ <=? leaf_max) eqn:Es; split; cbn [read descend]; try done.
  - apply Forall_app. split; [done|]. constructor; [by split | constructor].
  - rewrite <- Hb, !bind_app, bind_singleton. solve_Permutation.
  - apply Forall_app. split; [done|]. constructor; [by split | constructor].
  - rewrite <- Hb, !bind_app, bind_singleton. by rewrite app_assoc.
Qed.

(** A descended prefix is not a whole id. *)
Lemma waiting_descend n p : waiting n false p -> (n < 32)%nat.
Proof.
  intros [Hl Hn _ Hs]. destruct (decide (n = 32%nat)) as [->|]; [|lia]. exfalso.
  pose proof (wf_bottom (covered p l)) as B1. pose proof (wf_bottom (covered p r)) as B2.
  pose proof (wf_covered p l ltac:(lia) Wl) as C1. pose proof (wf_covered p r ltac:(lia) Wr) as C2.
  rewrite Hl in C1, C2. specialize (B1 C1). specialize (B2 C2). unfold leaf_max in *. lia.
Qed.

Lemma nth_canon_children p records i :
  (i < 256)%nat -> nth i (canon_children p records) no_summary =
  canon (31 - length p) (covered (prefix_child p (n2b i)) records).
Proof.
  intros Hi. unfold canon_children, prefix_child. rewrite nth_lookup, list_lookup_fmap, lookup_seq_lt by done.
  done.
Qed.

Lemma place_slots_ok n p ds q :
  waiting n false p -> placed (Datatypes.S n) ds q ->
  placed (Datatypes.S n) (ds ++ below p) (place_slots p (canon_children p l) (canon_children p r) q).
Proof.
  intros Hp Hq. pose proof (waiting_descend _ _ Hp) as Hn. destruct Hp as [Hl _ _ _].
  enough (forall m, (m <= 256)%nat -> placed (Datatypes.S n)
    (ds ++ (seq 0 m ≫= fun i => below (prefix_child p (n2b i))))
    (foldl (fun q slot => let sa := nth slot (canon_children p l) no_summary in
                          let sb := nth slot (canon_children p r) no_summary in
                          if bool_decide (sa = sb) then q else place (prefix_child p (n2b slot)) sa sb q)
       q (seq 0 m))) as Hgen.
  { specialize (Hgen 256%nat ltac:(lia)). destruct Hgen as [H1 H2 H3]. split; [done..|].
    unfold place_slots. rewrite H3. by rewrite <- below_slots by lia. }
  induction m as [|m IH]; intros Hm; [by rewrite app_nil_r|]. specialize (IH ltac:(lia)).
  rewrite seq_S, foldl_snoc, bind_app, bind_singleton, app_assoc. cbv zeta. rewrite !nth_canon_children by lia.
  assert (length (prefix_child p (n2b m)) = Datatypes.S n) as Hl'.
  { unfold prefix_child. rewrite length_app. simpl. lia. }
  replace (31 - length p)%nat with (32 - Datatypes.S n)%nat by lia. rewrite Nat.add_0_l.
  destruct (bool_decide_reflect (canon (32 - Datatypes.S n) (covered (prefix_child p (n2b m)) l) =
    canon (32 - Datatypes.S n) (covered (prefix_child p (n2b m)) r))) as [E|Hne].
  - rewrite below_none; [by rewrite app_nil_r | lia |]. by rewrite Hl'.
  - apply place_ok; [done | lia | done | done].
Qed.

Lemma place_all_ok n level ds q s :
  Forall (waiting n false) level -> placed (Datatypes.S n) ds q ->
  exists q', place_all (S := S) level ((fun p => canon_children p l) <$> level)
    ((fun p => canon_children p r) <$> level) q s = (Ok q', s) /\
    placed (Datatypes.S n) (ds ++ (level ≫= below)) q'.
Proof.
  intros Hl Hq. unfold place_all.
  rewrite (foldM_ext _ (fun q i => match level !! i with
    | Some p => mret (place_slots p (canon_children p l) (canon_children p r) q)
    | None => st_throw no_answer end)).
  2:{ intros b i s' _. rewrite !list_lookup_fmap. by destruct (level !! i). }
  rewrite (foldM_indices (fun q p => mret (place_slots p (canon_children p l) (canon_children p r) q))).
  revert ds q Hq. induction Hl as [|p level Hp Hl IH]; intros ds q Hq.
  - exists q. split; [done|]. by rewrite app_nil_r.
  - destruct (IH (ds ++ below p) (place_slots p (canon_children p l) (canon_children p r) q)) as (q' & E & Hq').
    { by apply place_slots_ok. }
    exists q'. split; [exact E|]. by rewrite bind_cons, app_assoc.
Qed.

(** ** The loop *)

Context (J : list TrieDifference -> S -> Prop) (left right : TrieSource S).
Context (Hleft : forall ds, source_ok (J ds) left l) (Hright : forall ds, source_ok (J ds) right r).
Context (visit : TrieDifference -> ST S unit) (pause : option (ST S unit)).
Context (Hvisit : forall ds d s, J ds s -> exists s', visit d s = (Ok tt, s') /\ J (ds ++ [d]) s').
Context (Hpause : forall ds s f, pause = Some f -> J ds s -> exists s', f s = (Ok tt, s') /\ J ds s').

(** The most a diff may have asked after [n] levels. *)
Record cost_within (n : nat) (cost : TrieDiffCost) : Prop := {
  cw_rounds : 0 <= cost_rounds cost <= 2 * Z.of_nat n;
  cw_prefixes : 0 <= cost_prefixes cost <= Z.of_nat n * Z.of_nat (length (differences l r));
  cw_records : 0 <= cost_records cost <= 2 * leaf_max * (Z.of_nat n * Z.of_nat (length (differences l r)))
}.

Lemma no_cost_within n : cost_within n no_cost.
Proof. split; unfold no_cost, leaf_max; cbn [cost_rounds cost_prefixes cost_records]; lia. Qed.

Lemma wrap64_le z : 0 <= z -> 0 <= wrap64 z <= z.
Proof. intros Hz. split; [apply wrap64_range | by apply Z.mod_le]. Qed.

Lemma compare_all_ok n asked ds cost s :
  Forall (waiting n true) asked -> J ds s -> 0 <= cost_records cost ->
  exists cost' s', compare_all visit asked ((fun p => covered p l) <$> asked)
    ((fun p => covered p r) <$> asked) cost s = (Ok cost', s') /\ J (ds ++ (asked ≫= below)) s' /\
    cost_rounds cost' = cost_rounds cost /\ cost_prefixes cost' = cost_prefixes cost /\
    0 <= cost_records cost' <= cost_records cost + 2 * leaf_max * Z.of_nat (length asked).
Proof.
  intros Ha HJ Hc. unfold compare_all.
  rewrite (foldM_ext _ (fun cost i => match asked !! i with
    | Some p => _ ← compare visit (covered p l) (covered p r);
        mret (mkCost (cost_rounds cost) (cost_prefixes cost) (wrap64 (cost_records cost +
          (Z.of_nat (length (covered p l)) + Z.of_nat (length (covered p r))))))
    | None => st_throw no_answer end)).
  2:{ intros b i s' _. rewrite !list_lookup_fmap. by destruct (asked !! i). }
  rewrite (foldM_indices (fun cost p => _ ← compare visit (covered p l) (covered p r);
    mret (mkCost (cost_rounds cost) (cost_prefixes cost) (wrap64 (cost_records cost +
      (Z.of_nat (length (covered p l)) + Z.of_nat (length (covered p r)))))))).
  revert ds cost s HJ Hc. induction Ha as [|p asked Hp Ha IH]; intros ds cost s HJ Hc.
  - exists cost, s. rewrite app_nil_r. cbn [length]. split_and!; try done; lia.
  - cbn [foldM]. destruct (compare_visits J visit (covered p l) (covered p r) ds s Hvisit HJ) as (s1 & E1 & HJ1).
    rewrite (st_bind_ok _ _ _ (mkCost (cost_rounds cost) (cost_prefixes cost) (wrap64 (cost_records cost +
      (Z.of_nat (length (covered p l)) + Z.of_nat (length (covered p r)))))) s1).
    2:{ by rewrite (st_bind_ok _ _ _ _ _ E1). }
    pose proof (wrap64_le (cost_records cost +
      (Z.of_nat (length (covered p l)) + Z.of_nat (length (covered p r)))) ltac:(lia)) as Hw.
    destruct (IH (ds ++ below p) (mkCost (cost_rounds cost) (cost_prefixes cost) (wrap64 (cost_records cost +
      (Z.of_nat (length (covered p l)) + Z.of_nat (length (covered p r)))))) s1 HJ1)
      as (cost' & s' & E & HJ' & Er & Ep & Hrec); [cbn [cost_records]; lia|].
    exists cost', s'. rewrite bind_cons, app_assoc. cbn [cost_rounds cost_prefixes cost_records length] in *.
    pose proof (wa_small _ _ _ Hp) as Hs. apply Z.leb_le in Hs.
    split_and!; try done; try lia.
Qed.

Lemma waiting_nonempty n small ps : Forall (waiting n small) ps -> (length ps <= length (ps ≫= below))%nat.
Proof.
  induction 1 as [|p ps Hp _ IH]; [done|]. rewrite bind_cons, length_app. cbn [length].
  destruct Hp as [<- _ Hd _]. apply below_some in Hd. destruct (below p); [done|]. cbn [length]. lia.
Qed.


(** How much one round may add. *)
Definition cost_adds (cost cost' : TrieDiffCost) (asked records : Z) : Prop :=
  0 <= cost_rounds cost' <= cost_rounds cost + 1 /\
  0 <= cost_prefixes cost' <= cost_prefixes cost + asked /\
  0 <= cost_records cost' <= cost_records cost + records.

Lemma read_round_ok n rest q ds cost s :
  placed n rest q -> J ds s -> cost_within n cost ->
  exists cost' s', read_round left right visit cost q s = (Ok (cost', mkPending (descend q) []), s') /\
    J (ds ++ (read q ≫= below)) s' /\
    cost_adds cost cost' (Z.of_nat (length (read q))) (2 * leaf_max * Z.of_nat (length (read q))).
Proof.
  intros [Hr Hd Hb] HJ [C1 C2 C3]. destruct q as [D R]. unfold read_round. cbn [read descend] in *.
  destruct R as [|p R].
  { exists cost, s. rewrite app_nil_r. cbn [length]. split; [done|]. split; [done|]. unfold cost_adds. lia. }
  assert (Forall (fun p : Prefix => (length p <= 32)%nat /\
    Z.of_nat (length (covered p l)) <= leaf_max /\ Z.of_nat (length (covered p r)) <= leaf_max) (p :: R)) as Hall.
  { eapply Forall_impl; [exact Hr|]. intros p' [<- Hn _ Hs]. apply Z.leb_le in Hs. lia. }
  destruct (so_records _ _ _ (Hleft ds) (p :: R) s HJ) as (s1 & E1 & HJ1).
  { eapply Forall_impl; [exact Hall|]. tauto. }
  destruct (so_records _ _ _ (Hright ds) (p :: R) s1 HJ1) as (s2 & E2 & HJ2).
  { eapply Forall_impl; [exact Hall|]. tauto. }
  destruct (compare_all_ok n (p :: R) ds (asked_of (p :: R) cost) s2 Hr HJ2) as (cost' & s3 & E3 & HJ3 & Er & Ep & Hrec).
  { cbn [asked_of cost_records]. lia. }
  exists cost', s3. rewrite (st_bind_ok _ _ _ _ _ E1), (st_bind_ok _ _ _ _ _ E2), (st_bind_ok _ _ _ _ _ E3).
  split; [done|]. split; [done|].
  unfold asked_of, cost_adds in *. cbn [cost_rounds cost_prefixes cost_records] in *. rewrite Er, Ep.
  pose proof (wrap64_le (cost_rounds cost + 1) ltac:(lia)).
  pose proof (wrap64_le (cost_prefixes cost + Z.of_nat (length (p :: R))) ltac:(lia)). lia.
Qed.

Lemma descend_round_ok n D ds cost s :
  Forall (waiting n false) D -> J ds s -> 0 <= cost_rounds cost -> 0 <= cost_prefixes cost ->
  0 <= cost_records cost ->
  exists cost' q' s', descend_round left right cost (mkPending D []) s = (Ok (cost', q'), s') /\
    J ds s' /\ placed (Datatypes.S n) (D ≫= below) q' /\ cost_adds cost cost' (Z.of_nat (length D)) 0.
Proof.
  intros HD HJ C1 C2 C3. unfold descend_round. cbn [read descend].
  assert (placed (Datatypes.S n) [] (mkPending [] [])) as H0 by (by split).
  destruct D as [|p D].
  { exists cost, (mkPending [] []), s. cbn [length]. split; [done|]. split; [done|]. split; [done|].
    unfold cost_adds. lia. }
  assert (Forall (fun p : Prefix => (length p < 32)%nat) (p :: D)) as Hall.
  { eapply Forall_impl; [exact HD|]. intros p' Hp. pose proof (waiting_descend _ _ Hp).
    destruct Hp as [<- _ _ _]. done. }
  destruct (so_children _ _ _ (Hleft ds) (p :: D) s HJ Hall) as (s1 & E1 & HJ1).
  destruct (so_children _ _ _ (Hright ds) (p :: D) s1 HJ1 Hall) as (s2 & E2 & HJ2).
  destruct (place_all_ok n (p :: D) [] (mkPending [] []) s2 HD H0) as (q' & E3 & Hq').
  exists (asked_of (p :: D) cost), q', s2.
  rewrite (st_bind_ok _ _ _ _ _ E1), (st_bind_ok _ _ _ _ _ E2), (st_bind_ok _ _ _ _ _ E3).
  split; [done|]. split; [done|]. split; [done|].
  unfold asked_of, cost_adds in *. cbn [cost_rounds cost_prefixes cost_records] in *.
  pose proof (wrap64_le (cost_rounds cost + 1) ltac:(lia)).
  pose proof (wrap64_le (cost_prefixes cost + Z.of_nat (length (p :: D))) ltac:(lia)). lia.
Qed.

(** The bound holds a level further down. *)
Lemma cost_within_next n q rest cost c1 c2 :
  placed n rest q -> (length rest <= length (differences l r))%nat -> cost_within n cost ->
  cost_adds cost c1 (Z.of_nat (length (read q))) (2 * leaf_max * Z.of_nat (length (read q))) ->
  cost_adds c1 c2 (Z.of_nat (length (descend q))) 0 -> cost_within (Datatypes.S n) c2.
Proof.
  intros [Hr Hd Hb] Hle [C1 C2 C3] (A1 & A2 & A3) (B1 & B2 & B3).
  apply waiting_nonempty in Hr, Hd. apply Permutation_length in Hb. rewrite bind_app, length_app in Hb.
  assert (Z.of_nat (Datatypes.S n) * Z.of_nat (length (differences l r)) =
    Z.of_nat n * Z.of_nat (length (differences l r)) + Z.of_nat (length (differences l r))) as E
    by (rewrite Nat2Z.inj_succ; lia).
  split; [lia | |]; rewrite E; unfold leaf_max in *; lia.
Qed.

Lemma cost_within_le n m cost : (n <= m)%nat -> cost_within n cost -> cost_within m cost.
Proof.
  intros Hle [C1 C2 C3].
  assert (Z.of_nat n * Z.of_nat (length (differences l r)) <= Z.of_nat m * Z.of_nat (length (differences l r)))
    by (apply Z.mul_le_mono_nonneg_r; lia).
  split; unfold leaf_max in *; lia.
Qed.

Lemma diff_loop_ok n fuel ds q rest cost s :
  (n + fuel = 33)%nat -> placed n rest q -> ds ++ rest ≡ₚ differences l r -> cost_within n cost -> J ds s ->
  exists cost' ds' s', diff_loop fuel left right visit pause cost q s = (Ok cost', s') /\
    J ds' s' /\ ds' ≡ₚ differences l r /\ cost_within 33 cost'.
Proof.
  revert n ds q rest cost s. induction fuel as [|fuel IH]; intros n ds q rest cost s Hn Hq Hp Hc HJ.
  all: assert (descend q = [] /\ read q = [] -> exists cost' ds' s', (mret cost : ST S TrieDiffCost) s = (Ok cost', s') /\
    J ds' s' /\ ds' ≡ₚ differences l r /\ cost_within 33 cost') as Hdone.
  1, 3: intros [Ed Er]; destruct Hq as [_ _ Hb]; rewrite Ed, Er in Hb; exists cost, ds, s; cbn [app mbind list_bind] in Hb;
    apply Permutation_nil_l in Hb as <-; rewrite app_nil_r in Hp;
    split; [done|]; split; [done|]; split; [done|]; apply (cost_within_le n); [lia | done].
  - assert (forall small ps, Forall (waiting n small) ps -> ps = []) as Hnil.
    { intros small ps [|p ps' Hw _]; [done|]. destruct Hw. lia. }
    cbn [diff_loop]. rewrite (Hnil _ _ (pl_read _ _ _ Hq)), (Hnil _ _ (pl_descend _ _ _ Hq)) in *. by apply Hdone.
  - cbn [diff_loop]. destruct (decide (descend q = [] /\ read q = [])) as [[Ed Er]|Hne].
    { rewrite Ed, Er. by apply Hdone. }
    destruct (read_round_ok n rest q ds cost s Hq HJ Hc) as (c1 & s1 & E1 & HJ1 & A1).
    destruct (descend_round_ok n (descend q) (ds ++ (read q ≫= below)) c1 s1 (pl_descend _ _ _ Hq) HJ1)
      as (c2 & q2 & s2 & E2 & HJ2 & Hq2 & A2); [unfold cost_adds in A1; lia..|].
    assert (exists s3, match pause with Some f => f | None => mret tt end s2 = (Ok tt, s3) /\
      J (ds ++ (read q ≫= below)) s3) as (s3 & E3 & HJ3).
    { destruct pause as [f|] eqn:Ep; [by eapply Hpause | by exists s2]. }
    destruct (IH (Datatypes.S n) (ds ++ (read q ≫= below)) q2 (descend q ≫= below) c2 s3) as (c' & ds' & s' & E & Hfin).
    + lia.
    + done.
    + rewrite <- Hp, <- (pl_below _ _ _ Hq), bind_app. by rewrite app_assoc.
    + eapply (cost_within_next n q rest); [done | | done..]. apply Permutation_length in Hp.
      rewrite length_app in Hp. lia.
    + done.
    + exists c', ds', s'. split; [|done].
      destruct (descend q) as [|dp dq] eqn:Ed; [destruct (read q) as [|rp rq] eqn:Er; [by destruct Hne|]|];
        rewrite (st_bind_ok _ _ _ _ _ E1); cbv beta iota;
        rewrite (st_bind_ok _ _ _ _ _ E2); cbv beta iota;
        rewrite (st_bind_ok _ _ _ _ _ E3); exact E.
Qed.

Lemma diff_tries_ok s :
  J [] s ->
  exists cost ds s', diff_tries left right visit pause s = (Ok cost, s') /\
    J ds s' /\ ds ≡ₚ differences l r /\ cost_within 33 cost.
Proof.
  intros HJ. unfold diff_tries.
  destruct (so_root _ _ _ (Hleft []) s HJ) as (s1 & E1 & HJ1).
  destruct (so_root _ _ _ (Hright []) s1 HJ1) as (s2 & E2 & HJ2).
  rewrite (st_bind_ok _ _ _ _ _ E1), (st_bind_ok _ _ _ _ _ E2).
  assert (forall x, covered [] x = x) as Hall by (intros x; by apply covered_all).
  assert (below [] = differences l r) as Hb by (unfold below; by rewrite !Hall).
  destruct (bool_decide_reflect (canon 32 l = canon 32 r)) as [E|Hne].
  - exists no_cost, [], s2. split; [done|]. split; [done|].
    assert (differences l r = []) as ->.
    { rewrite <- Hb. apply below_none; [simpl; lia|]. by rewrite !Hall. }
    split; [done|]. apply no_cost_within.
  - eapply (diff_loop_ok 0 33 [] _ (differences l r)); [done | | done | apply no_cost_within | done].
    pose proof (place_ok 0 [] [] (mkPending [] [])) as Hpl. rewrite !Hall, Hb in Hpl. apply Hpl; [done | lia | done|].
    by split.
Qed.
End diff_proof.

(** ** Walking several tries in step *)

Section not_held.
Context {S : Type}.

(** The cursor is at the [k]-th record of the trie, with the records from [b]
    to [m] in its page. *)
Definition at_position (records : list Rec) (c : Cursor) (k : nat) : Prop :=
  exists b m, cu_page c = drop b (take m records) /\ (b + cu_at c)%nat = k /\ (k <= length records)%nat /\
    cu_after c = last (take m records).*1 /\
    (if cu_done c then (length records <= m)%nat else (k < m <= length records)%nat).

Lemma cursor_peek_at records c k : at_position records c k -> cursor_peek c = records !! k.
Proof.
  intros (b & m & Ep & Ek & Hk & _ & Hd). unfold cursor_peek. rewrite Ep, lookup_drop, Ek.
  destruct (decide (k < m)%nat) as [Hlt|Hge]; [by apply lookup_take_lt|].
  destruct (cu_done c); [|lia]. rewrite lookup_take_ge, lookup_ge_None_2 by lia. done.
Qed.

Lemma cursor_fill_ok (I : S -> Prop) next records c m s :
  pager_ok I next records -> (m <= length records)%nat -> cu_after c = last (take m records).*1 -> I s ->
  exists c' s', cursor_fill next c s = (Ok c', s') /\ at_position records c' m /\ I s'.
Proof.
  intros [Hs Hn] Hm Ha HI. unfold cursor_fill.
  destruct (Hn (cu_after c) page_size s HI) as (s' & E & HI'). rewrite Ha, after_bound_drop in E by done.
  rewrite Ha, (st_bind_ok _ _ _ _ _ E). eexists _, s'. split; [reflexivity|]. split; [|done].
  assert (0 < page_size)%nat as Hpos by (unfold page_size; lia). generalize dependent page_size. intros size _ Hpos.
  exists m, (m + size)%nat. cbn [cu_page cu_at cu_after cu_done]. rewrite length_take, length_drop.
  split; [apply take_drop_commute|]. split; [lia|]. split; [done|]. split.
  - rewrite <- take_take_drop, fmap_app, last_app, !fmap_last. by destruct (last (take size (drop m records))).
  - destruct (Nat.ltb_spec (size `min` (length records - m)) size); lia.
Qed.

Lemma cursor_new_ok (I : S -> Prop) next records s :
  pager_ok I next records -> I s ->
  exists c s', cursor_new next s = (Ok c, s') /\ at_position records c 0 /\ I s'.
Proof. intros Hp HI. apply (cursor_fill_ok I next records _ 0); [done | lia | done | done]. Qed.

Lemma cursor_advance_ok (I : S -> Prop) next records c k s :
  pager_ok I next records -> at_position records c k -> (k < length records)%nat -> I s ->
  exists c' s', cursor_advance next c s = (Ok c', s') /\ at_position records c' (k + 1) /\ I s'.
Proof.
  intros Hp (b & m & Ep & Ek & _ & Ea & Hd) Hk HI. unfold cursor_advance. cbn [cu_page cu_at cu_done].
  destruct (cu_done c) eqn:Ed; cbn [negb]; rewrite ?andb_true_r, ?andb_false_r.
  - eexists _, s. split; [reflexivity|]. split; [|done]. exists b, m. cbn [cu_page cu_at cu_after cu_done].
    split; [done|]. split; [lia|]. split; [lia|]. by split.
  - rewrite Ep, length_drop, length_take. destruct (Nat.leb_spec (m `min` length records - b) (cu_at c + 1)).
    + replace (k + 1)%nat with m by lia. apply (cursor_fill_ok I); [done | lia | done | done].
    + eexists _, s. split; [reflexivity|]. split; [|done]. exists b, m. cbn [cu_page cu_at cu_after cu_done].
      split; [done|]. split; [lia|]. split; [lia|]. split; [done | lia].
Qed.

(** Every record before the [k]-th comes before [id]. *)
Definition passed (records : list Rec) (k : nat) (id : ObjectId) : Prop :=
  Forall (fun r : Rec => key_lt r.1 id) (take k records).

Lemma cursor_seek_ok (I : S -> Prop) next records id c k fuel s :
  pager_ok I next records -> at_position records c k -> passed records k id ->
  (length records <= k + fuel)%nat -> I s ->
  exists c' k' s', cursor_seek fuel next id c s = (Ok c', s') /\ at_position records c' k' /\
    passed records k' id /\ (forall r, records !! k' = Some r -> key_ltb r.1 id = false) /\ I s'.
Proof.
  intros Hp. revert c k s. induction fuel as [|fuel IH]; intros c k s Hc Hpass Hf HI;
    cbn [cursor_seek]; rewrite (cursor_peek_at _ _ _ Hc).
  - rewrite lookup_ge_None_2 by lia. exists c, k, s. split_and!; try done.
    intros r Hr. rewrite lookup_ge_None_2 in Hr by lia. done.
  - destruct (records !! k) as [r|] eqn:Er.
    2:{ exists c, k, s. split_and!; try done. intros r Hr. congruence. }
    destruct (key_ltb r.1 id) eqn:El; cbn [negb].
    + pose proof (lookup_lt_Some _ _ _ Er) as Hk.
      destruct (cursor_advance_ok I next records c k s Hp Hc Hk HI) as (c1 & s1 & E1 & Hc1 & HI1).
      rewrite (st_bind_ok _ _ _ _ _ E1). apply (IH c1 (k + 1)%nat); [done | | lia | done].
      unfold passed. rewrite Nat.add_1_r, (take_S_r _ _ _ Er). apply Forall_app. by repeat constructor.
    + exists c, k, s. split_and!; try done. intros r' Hr. congruence.
Qed.

(** At that point the id is there or nowhere. *)
Lemma seek_found records id k :
  sorted_recs records -> passed records k id ->
  (forall r, records !! k = Some r -> key_ltb r.1 id = false) ->
  match records !! k with Some r => bool_decide (r.1 = id) | None => false end =
  bool_decide (id ∈ records.*1).
Proof.
  intros Hs Hp Hat.
  assert (records.*1 = (take k records).*1 ++ (drop k records).*1) as E by (by rewrite <- fmap_app, take_drop).
  assert (id ∉ (take k records).*1) as Hn.
  { intros (r & -> & Hr)%list_elem_of_fmap. unfold passed in Hp. rewrite Forall_forall in Hp.
    by apply (key_lt_irrefl r.1), Hp. }
  destruct (records !! k) as [r|] eqn:Er.
  - apply bool_decide_ext. specialize (Hat r eq_refl). rewrite E, (drop_S _ _ _ Er), fmap_cons.
    rewrite <- (take_drop_middle _ _ _ Er) in Hs. destruct r as [ri rv].
    apply sorted_recs_app in Hs as (_ & _ & [Hf _]%sorted_recs_cons).
    cbn [fst] in *. rewrite elem_of_app, elem_of_cons. split; [by intros ->; right; left|].
    intros [?|[->|(r & -> & Hr)%list_elem_of_fmap]]; [done | done |].
    rewrite Forall_forall in Hf. specialize (Hf r Hr). unfold key_lt in Hf. congruence.
  - symmetry. apply bool_decide_eq_false. rewrite E, (drop_ge records k) by (by apply lookup_ge_None).
    by rewrite app_nil_r.
Qed.

(** ** The records of [wanted] none of [helds] has *)

Context (J : list Rec -> S -> Prop) (wanted : Pager S) (want : list Rec)
  (helds : list (Pager S)) (have : list (list Rec)).
Context (Hwant : forall vs, pager_ok (J vs) wanted want).
Context (Hhave : Forall2 (fun p h => forall vs, pager_ok (J vs) p h) helds have).
Context (visit : Rec -> ST S unit) (pause : option (ST S unit)).
Context (Hvisit : forall vs r s, J vs s -> exists s', visit r s = (Ok tt, s') /\ J (vs ++ [r]) s').
Context (Hpause : forall vs s f, pause = Some f -> J vs s -> exists s', f s = (Ok tt, s') /\ J vs s').

Definition in_some (hs : list (list Rec)) (r : Rec) : Prop := Exists (fun h => r.1 ∈ h.*1) hs.
#[local] Instance in_some_dec hs r : Decision (in_some hs r).
Proof. unfold in_some. apply _. Defined.

Definition not_held (hs : list (list Rec)) : list Rec := base.filter (fun r => ~ in_some hs r) want.

(** A held trie's cursor, behind every id still wanted. *)
Definition behind (ids : list Rec) (pc : Pager S * Cursor) (h : list Rec) : Prop :=
  (forall vs, pager_ok (J vs) pc.1 h) /\
  exists k, at_position h pc.2 k /\ Forall (fun r : Rec => passed h k r.1) ids.

Lemma cursors_new_ok vs ids ps hs s :
  Forall2 (fun p h => forall vs, pager_ok (J vs) p h) ps hs -> J vs s ->
  exists cs s', cursors_new ps s = (Ok cs, s') /\ J vs s' /\ Forall2 (behind ids) cs hs.
Proof.
  intros Hall. revert s. induction Hall as [|p h ps hs Hp _ IH]; intros s HJ; [by exists [], s|].
  cbn [cursors_new]. destruct (cursor_new_ok (J vs) p h s (Hp vs) HJ) as (c & s1 & E1 & Hc & HJ1).
  rewrite (st_bind_ok _ _ _ _ _ E1). destruct (IH s1 HJ1) as (cs & s2 & E2 & HJ2 & Hcs).
  rewrite (st_bind_ok _ _ _ _ _ E2). eexists _, s2. split; [reflexivity|]. split; [done|].
  constructor; [|done]. split; [done|]. exists 0%nat. split; [done|]. apply Forall_forall. intros r _.
  constructor.
Qed.

Lemma passed_later records k (a b : ObjectId) :
  key_lt a b -> passed records k a -> passed records k b.
Proof. intros Hab Hp. eapply Forall_impl; [exact Hp|]. intros r Hr. by transitivity a. Qed.

Lemma seek_all_ok turns vs r ids cs hs s :
  Forall (fun h : list Rec => (length h <= turns)%nat) hs -> Forall (fun x : Rec => key_lt r.1 x.1) ids ->
  J vs s -> Forall2 (behind (r :: ids)) cs hs ->
  exists cs' s', seek_all turns r.1 cs s = (Ok (bool_decide (in_some hs r), cs'), s') /\ J vs s' /\
    Forall2 (behind ids) cs' hs.
Proof.
  intros Ht Hids HJ Hcs. revert s HJ Ht. induction Hcs as [|[p c] h cs hs [Hp (k & Hk & Hpass)] _ IH];
    intros s HJ Ht; [by exists [], s|].
  apply Forall_cons in Ht as [Hth Ht]. apply Forall_cons in Hpass as [Hpr Hpass]. cbn [fst snd] in *.
  cbn [seek_all]. destruct (cursor_seek_ok (J vs) p h r.1 c k turns s (Hp vs) Hk Hpr ltac:(lia) HJ)
    as (c' & k' & s1 & E1 & Hk' & Hpr' & Hat & HJ1).
  rewrite (st_bind_ok _ _ _ _ _ E1). destruct (IH s1 HJ1 Ht) as (cs' & s2 & E2 & HJ2 & Hcs').
  rewrite (st_bind_ok _ _ _ _ _ E2). cbv beta iota. eexists _, s2. split; [|split; [done|]].
  - unfold mret, st_ret. do 3 f_equal. rewrite (cursor_peek_at _ _ _ Hk').
    pose proof (seek_found h r.1 k' (proj1 (Hp vs)) Hpr' Hat) as Hf.
    transitivity (bool_decide (r.1 ∈ h.*1) || bool_decide (in_some hs r)).
    + rewrite <- Hf. by destruct (h !! k').
    + rewrite <- bool_decide_or. apply bool_decide_ext. symmetry. apply Exists_cons.
  - constructor; [|done]. split; [done|]. exists k'. split; [done|].
    eapply Forall_impl; [exact Hids|]. intros x Hx. exact (passed_later h k' r.1 x.1 Hx Hpr').
Qed.

Lemma pause_each_ok vs seen s :
  J vs s -> exists seen' s', pause_each pause seen s = (Ok seen', s') /\ J vs s'.
Proof.
  intros HJ. unfold pause_each. destruct pause as [f|] eqn:Ep; [|by eexists _, s].
  destruct (_ =? 0).
  - destruct (Hpause vs s f eq_refl HJ) as (s' & E & HJ'). rewrite (st_bind_ok _ _ _ _ _ E). by eexists _, s'.
  - rewrite (st_bind_ok _ _ s tt s); [|done]. by eexists _, s.
Qed.

Lemma not_held_loop_ok turns fuel k c cs vs seen s :
  Forall (fun h : list Rec => (length h <= turns)%nat) have -> (length want <= k + fuel)%nat ->
  at_position want c k -> Forall2 (behind (drop k want)) cs have -> J vs s ->
  exists s', not_held_loop turns fuel wanted c cs visit pause seen s = (Ok tt, s') /\
    J (vs ++ base.filter (fun r => ~ in_some have r) (drop k want)) s'.
Proof.
  intros Ht. revert k c cs vs seen s. induction fuel as [|fuel IH]; intros k c cs vs seen s Hf Hc Hcs HJ;
    cbn [not_held_loop]; rewrite (cursor_peek_at _ _ _ Hc).
  - rewrite lookup_ge_None_2, (drop_ge want) by lia. exists s. by rewrite app_nil_r.
  - destruct (want !! k) as [r|] eqn:Er.
    2:{ apply lookup_ge_None in Er. rewrite (drop_ge want) by done. exists s. by rewrite app_nil_r. }
    pose proof (lookup_lt_Some _ _ _ Er) as Hk. rewrite (drop_S _ _ _ Er) in *.
    assert (Forall (fun x : Rec => key_lt r.1 x.1) (drop (Datatypes.S k) want)) as Hlater.
    { pose proof (proj1 (Hwant [])) as Hs. rewrite <- (take_drop_middle _ _ _ Er) in Hs. destruct r as [ri rv].
      by apply sorted_recs_app in Hs as (_ & _ & [Hlt _]%sorted_recs_cons). }
    destruct (seek_all_ok turns vs r (drop (Datatypes.S k) want) cs have s Ht Hlater HJ Hcs)
      as (cs1 & s1 & E1 & HJ1 & Hcs1).
    rewrite (st_bind_ok _ _ _ _ _ E1). cbv beta iota.
    set (vs2 := if bool_decide (in_some have r) then vs else vs ++ [r]).
    assert (exists s2, (if bool_decide (in_some have r) then mret tt else visit r) s1 = (Ok tt, s2) /\
      J vs2 s2) as (s2 & E2 & HJ2).
    { unfold vs2. destruct (bool_decide (in_some have r)); [by exists s1 | by apply Hvisit]. }
    rewrite (st_bind_ok _ _ _ _ _ E2).
    destruct (cursor_advance_ok (J vs2) wanted want c k s2 (Hwant vs2) Hc Hk HJ2) as (c' & s3 & E3 & Hc' & HJ3).
    rewrite (st_bind_ok _ _ _ _ _ E3). destruct (pause_each_ok vs2 seen s3 HJ3) as (seen' & s4 & E4 & HJ4).
    rewrite (st_bind_ok _ _ _ _ _ E4). rewrite Nat.add_1_r in Hc'.
    destruct (IH (Datatypes.S k) c' cs1 vs2 seen' s4 ltac:(lia) Hc' Hcs1 HJ4) as (s5 & E5 & HJ5).
    exists s5. split; [exact E5|]. unfold vs2 in HJ5. rewrite filter_cons.
    destruct (bool_decide_reflect (in_some have r)) as [Hin|Hin].
    + by rewrite decide_False by tauto.
    + rewrite decide_True by done. by rewrite <- app_assoc in HJ5.
Qed.

Lemma records_not_held_ok turns s :
  (length want <= turns)%nat -> Forall (fun h : list Rec => (length h <= turns)%nat) have -> J [] s ->
  exists s', records_not_held turns wanted helds visit pause s = (Ok tt, s') /\ J (not_held have) s'.
Proof.
  intros Hw Hh HJ. unfold records_not_held.
  destruct (cursor_new_ok (J []) wanted want s (Hwant []) HJ) as (c & s1 & E1 & Hc & HJ1).
  rewrite (st_bind_ok _ _ _ _ _ E1). destruct (cursors_new_ok [] want helds have s1 Hhave HJ1) as (cs & s2 & E2 & HJ2 & Hcs).
  rewrite (st_bind_ok _ _ _ _ _ E2). by apply (not_held_loop_ok turns turns 0 c cs [] 0 s2).
Qed.
End not_held.
