(* ===== verification/TrieUnion.v ===== *)
(** * Several tries read as one

    [src/src/ledger/trie_union.cpp], [trie_union.hpp]: a union answers as one
    trie over all its parts' records would, the first part that holds an id
    giving its value. A subtree only one part holds, or all hold alike, is
    that part's own; the rest is worked out, reusing what an earlier union
    worked out where the parts have not changed. *)

From S2P Require Import Prelude Codec Journal Trie TrieShape TrieHash TrieOps TrieDiff.

(** A part: a snapshot's size and root hash, and its methods. *)
Record Part (S : Type) : Type := mkPart {
  pt_summary : Summary;
  pt_get : ObjectId -> ST S (option Bytes);
  pt_children : Prefix -> ST S (list Summary);
  pt_records : Prefix -> Z -> ST S (list Rec)
}.
Arguments mkPart {S}.
Arguments pt_summary {S}.
Arguments pt_get {S}.
Arguments pt_children {S}.
Arguments pt_records {S}.

(** [TrieUnion::Node]. *)
#[warnings="-register-all"]
Inductive UNode : Type :=
  | mkUNode (inputs : list Summary) (summary : Summary) (whole : option nat)
            (below : list (option UNode)).
Definition u_inputs (n : UNode) : list Summary := let 'mkUNode i _ _ _ := n in i.
Definition u_summary (n : UNode) : Summary := let 'mkUNode _ s _ _ := n in s.
Definition u_whole (n : UNode) : option nat := let 'mkUNode _ _ w _ := n in w.
Definition u_below (n : UNode) : list (option UNode) := let 'mkUNode _ _ _ b := n in b.

Definition uint64_max : Z := 2 ^ 64 - 1.

(** The merge of two sorted ranges, the first one's record kept where both
    hold an id. *)
Fixpoint merge2 (out : list Rec) : list Rec -> list Rec :=
  fix go (got : list Rec) : list Rec :=
    match out, got with
    | [], [] => []
    | a :: out', [] => a :: merge2 out' []
    | [], b :: got' => b :: go got'
    | a :: out', b :: got' =>
        if key_ltb a.1 b.1 then a :: merge2 out' got
        else if key_ltb b.1 a.1 then b :: go got'
        else a :: merge2 out' got'
    end.

Definition too_many_union : exn :=
  LengthError "trie union: more records below a prefix than asked for".

(** The loop over the inputs: the first non-empty one, whether the others are
    like it, and how many records there are at most. *)
Record Scan : Type := mkScan { sc_first : option nat; sc_alike : bool; sc_most : Z }.
Definition scan_step (inputs : list Summary) (s : Scan) (i : nat) : Scan :=
  let input := nth i inputs no_summary in
  if sm_count input =? 0 then s
  else
    let most := wrap64 (sc_most s + sm_count input) in
    match sc_first s with
    | None => mkScan (Some i) (sc_alike s) most
    | Some f =>
        mkScan (Some f)
          (sc_alike s && bool_decide (input = nth f inputs no_summary)) most
    end.
Definition scan (inputs : list Summary) : Scan :=
  foldl (scan_step inputs) (mkScan None true 0) (seq 0 (length inputs)).

Section union.
Context `{Sha256} {S : Type}.

Record TrieUnion : Type := mkUnion { un_parts : list (Part S); un_root : option UNode }.

Definition merged_records (parts : list (Part S)) (prefix : Prefix) (most : Z) : ST S (list Rec) :=
  foldM (fun out part =>
      got ← pt_records part prefix most;
      match got with
      | [] => mret out
      | _ =>
          let merged := merge2 out got in
          if most <? Z.of_nat (length merged) then st_throw too_many_union else mret merged
      end)
    [] parts.

(** The parts' subtrees one byte below a prefix; none for a part that has
    nothing there. *)
Definition children_below (parts : list (Part S)) (prefix : Prefix) (inputs : list Summary)
    : ST S (list (list Summary)) :=
  foldM (fun below '(part, input) =>
      c ← (if sm_count input =? 0 then mret (replicate 256 no_summary) else pt_children part prefix);
      mret (below ++ [c]))
    [] (zip parts inputs).

(** The subtrees worked out so far, what they sum up as, and their count. *)
Record Slotted : Type := mkSlotted { sl_below : list (option UNode); sl_slots : list Summary; sl_count : Z }.

Fixpoint merge (parts : list (Part S)) (k : nat) (prefix : Prefix) (inputs : list Summary)
    (hint : option UNode) : ST S (option UNode) :=
  if match hint with Some h => bool_decide (u_inputs h = inputs) | None => false end then mret hint
  else
    let sc := scan inputs in
    match sc_first sc with
    | None => mret None
    | Some first =>
        if sc_alike sc then
          mret (Some (mkUNode inputs (nth first inputs no_summary) (Some first) []))
        else
          worked ← (if leaf_max <? sc_most sc then
              below ← children_below parts prefix inputs;
              match k with
              | O => st_throw too_deep
              | Datatypes.S k' =>
                  let hinted := match hint with
                                | Some h => if (length (u_below h) =? 256)%nat then u_below h else []
                                | None => []
                                end in
                  st ← foldM (fun st slot =>
                      n ← merge parts k' (prefix_child prefix (n2b slot))
                            ((fun b => nth slot b no_summary) <$> below) (nth slot hinted None);
                      let s := match n with Some n => u_summary n | None => no_summary end in
                      mret (mkSlotted (sl_below st ++ [n]) (sl_slots st ++ [s])
                              (wrap64 (sl_count st + sm_count s))))
                    (mkSlotted [] [] 0) (seq 0 256);
                  mret (Some st)
              end
            else mret None);
          match worked with
          | Some st =>
              if leaf_max <? sl_count st then
                s ← st_lift (interior_summary (sl_slots st));
                mret (Some (mkUNode inputs s None (sl_below st)))
              else
                records ← merged_records parts prefix uint64_max;
                s ← st_lift (leaf_summary records);
                mret (Some (mkUNode inputs s None []))
          | None =>
              records ← merged_records parts prefix uint64_max;
              s ← st_lift (leaf_summary records);
              mret (Some (mkUNode inputs s None []))
          end
    end.

(** The constructor. *)
Definition union_new (parts : list (Part S)) (hint : option TrieUnion) : ST S TrieUnion :=
  root ← merge parts 32 [] (pt_summary <$> parts)
           (match hint with Some h => un_root h | None => None end);
  mret (mkUnion parts root).

Definition union_root (u : TrieUnion) : Summary :=
  match un_root u with Some n => u_summary n | None => no_summary end.
Definition union_size (u : TrieUnion) : Z := sm_count (union_root u).
Definition union_root_hash (u : TrieUnion) : Hash256 := sm_hash (union_root u).

Fixpoint get_loop (parts : list (Part S)) (id : ObjectId) : ST S (option Bytes) :=
  match parts with
  | [] => mret None
  | part :: rest =>
      value ← pt_get part id;
      match value with Some v => mret (Some v) | None => get_loop rest id end
  end.
Definition union_get (u : TrieUnion) (id : ObjectId) : ST S (option Bytes) := get_loop (un_parts u) id.

(** The worked-out node a prefix falls in. *)
Fixpoint find_node (node : option UNode) (prefix : Prefix) : option UNode :=
  match node, prefix with
  | Some n, b :: rest =>
      if (length (u_below n) =? 256)%nat then find_node (nth (b2n b) (u_below n) None) rest else node
  | _, _ => node
  end.

(** Below a leaf every subtree is a leaf of its own records. *)
Definition leaf_children (prefix : Prefix) (records : list Rec) : result (list Summary) :=
  foldM (fun out '(b, group) => s ← leaf_summary group; mret (<[b2n b := s]> out))
    (replicate 256 no_summary) (runs (fun r : Rec => id_byte (length prefix) r.1) records).

Definition union_children_of (u : TrieUnion) (prefix : Prefix) : ST S (list Summary) :=
  if (32 <=? length prefix)%nat then st_throw (LogicError "trie union: a whole id has no children")
  else
    match find_node (un_root u) prefix with
    | None => mret (replicate 256 no_summary)
    | Some node =>
        match u_whole node with
        | Some i =>
            match un_parts u !! i with
            | Some part => pt_children part prefix
            | None => st_throw no_answer
            end
        | None =>
            if (length (u_below node) =? 256)%nat then
              mret ((fun n => match n with Some n => u_summary n | None => no_summary end) <$> u_below node)
            else
              records ← merged_records (un_parts u) prefix uint64_max;
              st_lift (leaf_children prefix records)
        end
    end.
Definition union_children (u : TrieUnion) (prefixes : list Prefix) : ST S (list (list Summary)) :=
  foldM (fun out p => c ← union_children_of u p; mret (out ++ [c])) [] prefixes.

Definition union_records_of (u : TrieUnion) (most : Z) (prefix : Prefix) : ST S (list Rec) :=
  match find_node (un_root u) prefix with
  | None => mret []
  | Some node =>
      match u_whole node with
      | Some i =>
          match un_parts u !! i with
          | Some part => pt_records part prefix most
          | None => st_throw no_answer
          end
      | None =>
          if (length (u_below node) =? 256)%nat && (most <? sm_count (u_summary node)) then
            st_throw too_many_union
          else merged_records (un_parts u) prefix most
      end
  end.
Definition union_records (u : TrieUnion) (prefixes : list Prefix) (most : Z) : ST S (list (list Rec)) :=
  foldM (fun out p => r ← union_records_of u most p; mret (out ++ [r])) [] prefixes.

(** [UnionSource]. *)
Definition union_source (u : TrieUnion) : TrieSource S :=
  mkSource (mret (union_root u)) (union_children u) (fun ps => union_records u ps uint64_max).

End union.
Arguments TrieUnion : clear implicits.

(** ** The records of a union *)

(** All the parts' records, each id once with the first part's value. *)
Definition unite (rs : list (list Rec)) : list Rec := foldl merge2 [] rs.

Lemma merge2_nil_l b : merge2 [] b = b.
Proof. induction b as [|y b IH]; [done|]. cbn [merge2] in *. by rewrite IH. Qed.
Lemma merge2_nil_r a : merge2 a [] = a.
Proof. induction a as [|x a IH]; [done|]. cbn [merge2] in *. by rewrite IH. Qed.

Lemma merge2_elem a b r : r ∈ merge2 a b -> r ∈ a \/ r ∈ b.
Proof.
  revert b. induction a as [|x a IHa]; intros b; [rewrite merge2_nil_l; by right|].
  induction b as [|y b IHb]; [rewrite merge2_nil_r; by left|]. cbn [merge2].
  destruct (key_ltb x.1 y.1); [|destruct (key_ltb y.1 x.1)].
  - intros [->|Hr%IHa]%elem_of_cons; [left; by left|]. destruct Hr; [left; by right | by right].
  - intros [->|Hr%IHb]%elem_of_cons; [right; by left|]. destruct Hr; [by left | right; by right].
  - intros [->|Hr%IHa]%elem_of_cons; [left; by left|]. destruct Hr; [left; by right | right; by right].
Qed.

Lemma merge2_above id a b :
  Forall (fun e : Rec => key_lt id e.1) a -> Forall (fun e : Rec => key_lt id e.1) b ->
  Forall (fun e : Rec => key_lt id e.1) (merge2 a b).
Proof. rewrite !Forall_forall. intros Ha Hb r [?|?]%merge2_elem; auto. Qed.

Lemma merge2_sorted a b : sorted_recs a -> sorted_recs b -> sorted_recs (merge2 a b).
Proof.
  revert b. induction a as [|[xi xv] a IHa]; intros b Ha Hb; [by rewrite merge2_nil_l|].
  induction b as [|[yi yv] b IHb]; [by rewrite merge2_nil_r|].
  pose proof Ha as (Hfa & Ha')%sorted_recs_cons. pose proof Hb as (Hfb & Hb')%sorted_recs_cons.
  cbn [merge2 fst]. destruct (key_ltb xi yi) eqn:E1; [|destruct (key_ltb yi xi) eqn:E2].
  - apply sorted_recs_cons. split; [|by apply IHa]. apply merge2_above; [done|].
    constructor; [done | by eapply Forall_lt_trans].
  - apply sorted_recs_cons. split; [|by apply IHb].
    apply (merge2_above yi ((xi, xv) :: a) b); [|done]. constructor; [done | by eapply Forall_lt_trans].
  - pose proof (key_total _ _ E1 E2) as <-. apply sorted_recs_cons. split; [by apply merge2_above | by apply IHa].
Qed.

Lemma alookup_merge2 a b id :
  sorted_recs a -> sorted_recs b ->
  alookup id (merge2 a b) = match alookup id a with Some v => Some v | None => alookup id b end.
Proof.
  revert b. induction a as [|[xi xv] a IHa]; intros b Ha Hb; [by rewrite merge2_nil_l|].
  induction b as [|[yi yv] b IHb]; [rewrite merge2_nil_r; by destruct (alookup id ((xi, xv) :: a))|].
  pose proof Ha as (Hfa & Ha')%sorted_recs_cons. pose proof Hb as (Hfb & Hb')%sorted_recs_cons.
  cbn [merge2 fst]. destruct (key_ltb xi yi) eqn:E1; [|destruct (key_ltb yi xi) eqn:E2].
  - rewrite !alookup_cons. destruct (decide (id = xi)); [done|]. rewrite IHa by done. by rewrite alookup_cons.
  - rewrite alookup_cons. destruct (decide (id = yi)) as [->|].
    + rewrite (alookup_below yi ((xi, xv) :: a)); [by rewrite alookup_cons, decide_True|].
      constructor; [done | by eapply Forall_lt_trans].
    + transitivity (alookup id (merge2 ((xi, xv) :: a) b)); [done|]. rewrite IHb by done.
      by rewrite (alookup_cons id yi), decide_False.
  - pose proof (key_total _ _ E1 E2) as <-. rewrite !alookup_cons. destruct (decide (id = xi)); [done|]. by apply IHa.
Qed.

Lemma merge2_length a b :
  (length a <= length (merge2 a b))%nat /\ (length b <= length (merge2 a b))%nat /\
  (length (merge2 a b) <= length a + length b)%nat.
Proof.
  revert b. induction a as [|x a IHa]; intros b; [rewrite merge2_nil_l; simpl; lia|].
  induction b as [|y b IHb]; [rewrite merge2_nil_r; simpl; lia|].
  cbn [merge2]. destruct (key_ltb x.1 y.1); [|destruct (key_ltb y.1 x.1)]; cbn [length] in *.
  - specialize (IHa (y :: b)). cbn [length] in *. lia.
  - change ((fix go (got : list Rec) : list Rec := _) b) with (merge2 (x :: a) b). lia.
  - specialize (IHa b). lia.
Qed.

Lemma unite_snoc rs r : unite (rs ++ [r]) = merge2 (unite rs) r.
Proof. unfold unite. by rewrite foldl_app. Qed.

Lemma unite_sorted rs : Forall sorted_recs rs -> sorted_recs (unite rs).
Proof.
  induction rs as [|r rs IH] using rev_ind; intros Hs; [by constructor|].
  apply Forall_app in Hs as [Hs [Hr _]%Forall_cons]. rewrite unite_snoc. apply merge2_sorted; auto.
Qed.

(** The first part's value. *)
Definition first_value (id : ObjectId) (rs : list (list Rec)) : option Bytes :=
  foldl (fun v r => match v with Some v => Some v | None => alookup id r end) None rs.

Lemma alookup_unite id rs : Forall sorted_recs rs -> alookup id (unite rs) = first_value id rs.
Proof.
  induction rs as [|r rs IH] using rev_ind; intros Hs; [done|].
  apply Forall_app in Hs as [Hs [Hr _]%Forall_cons]. unfold first_value. rewrite unite_snoc, foldl_app.
  rewrite alookup_merge2 by (by (try apply unite_sorted)). by rewrite IH.
Qed.

Lemma covered_sorted p r : sorted_recs r -> sorted_recs (covered p r).
Proof. apply sorted_recs_filter. Qed.

Lemma covered_unite p rs :
  Forall sorted_recs rs -> covered p (unite rs) = unite (covered p <$> rs).
Proof.
  intros Hs. assert (Forall sorted_recs (covered p <$> rs)) as Hc.
  { apply Forall_fmap. eapply Forall_impl; [exact Hs|]. intros r Hr. by apply covered_sorted. }
  apply sorted_recs_ext; [by apply covered_sorted, unite_sorted | by apply unite_sorted|].
  intros id. rewrite alookup_covered, !alookup_unite by done. unfold first_value.
  destruct (prefix_covers p id) eqn:E; induction rs as [|r rs IH] using rev_ind; try done;
    apply Forall_app in Hs as [Hs _]; rewrite fmap_app in Hc |- *; apply Forall_app in Hc as [Hc _];
    rewrite !foldl_app; cbn [fmap list_fmap foldl]; rewrite alookup_covered, E.
  - by rewrite IH.
  - rewrite <- IH by done. done.
Qed.

Lemma unite_length rs r : r ∈ rs -> (length r <= length (unite rs))%nat.
Proof.
  induction rs as [|x rs IH] using rev_ind; intros Hr; [by apply not_elem_of_nil in Hr|].
  rewrite unite_snoc. destruct (merge2_length (unite rs) x) as (H1 & H2 & _).
  apply elem_of_app in Hr as [Hr|Hr%list_elem_of_singleton]; [specialize (IH Hr); lia | by subst].
Qed.

Lemma unite_prefix_length rs rs' : (length (unite rs) <= length (unite (rs ++ rs')))%nat.
Proof.
  induction rs' as [|x rs' IH] using rev_ind; [by rewrite app_nil_r|].
  rewrite app_assoc, unite_snoc. destruct (merge2_length (unite (rs ++ rs')) x). lia.
Qed.

Lemma sum_Z_zero l : Forall (fun x => x = 0) l -> sum_Z l = 0.
Proof. induction 1; simpl; lia. Qed.

Definition records_total (rs : list (list Rec)) : Z := sum_Z ((fun r => Z.of_nat (length r)) <$> rs).

Lemma unite_total rs : Z.of_nat (length (unite rs)) <= records_total rs.
Proof.
  unfold records_total. induction rs as [|x rs IH] using rev_ind; [done|].
  rewrite unite_snoc, fmap_app, sum_Z_app. destruct (merge2_length (unite rs) x) as (_ & _ & H). simpl. lia.
Qed.

Lemma unite_elem rs x : x ∈ unite rs -> exists r, r ∈ rs /\ x ∈ r.
Proof.
  induction rs as [|r rs IH] using rev_ind; [by intros ?%not_elem_of_nil|].
  rewrite unite_snoc. intros [Hx|Hx]%merge2_elem.
  - destruct (IH Hx) as (r' & ? & ?). exists r'. split; [apply elem_of_app; by left | done].
  - exists r. split; [set_solver | done].
Qed.

(** Lists that are empty or all the same unite to the same. *)
Lemma merge2_same a : sorted_recs a -> merge2 a a = a.
Proof.
  intros Ha. apply sorted_recs_ext; [by apply merge2_sorted | done|]. intros id.
  rewrite alookup_merge2 by done. by destruct (alookup id a).
Qed.

Lemma unite_alike rs a :
  sorted_recs a -> Forall (fun r => r = [] \/ r = a) rs -> a ∈ rs -> unite rs = a.
Proof.
  intros Ha. assert (forall rs, Forall (fun r => r = [] \/ r = a) rs -> unite rs = [] \/ unite rs = a) as Hor.
  { intros rs0. induction rs0 as [|r rs0 IH] using rev_ind; [by left|].
    intros [H0 [Hr _]%Forall_cons]%Forall_app. rewrite unite_snoc.
    destruct (IH H0) as [-> | ->], Hr as [->| ->]; rewrite ?merge2_nil_l, ?merge2_nil_r, ?merge2_same by done; auto. }
  intros Hrs Hin. destruct (Hor rs Hrs) as [E|]; [|done].
  apply unite_length in Hin. rewrite E in *. destruct a; [done | simpl in Hin; lia].
Qed.

Lemma wf_unite k rs :
  (k <= 32)%nat -> Forall (wf_recs k) rs -> share (fun r : Rec => r.1) (32 - k) (concat rs) ->
  records_total rs < 2 ^ 64 -> wf_recs k (unite rs).
Proof.
  intros Hk Hwf Hsh Ht. pose proof (unite_total rs). split.
  - done.
  - apply unite_sorted. eapply Forall_impl; [exact Hwf|]. intros r Hr. apply Hr.
  - rewrite !Forall_forall in *. intros x (r & Hr & Hx)%unite_elem. destruct (Hwf r Hr) as [_ _ Hv _ _].
    rewrite Forall_forall in Hv. by apply Hv.
  - eapply share_incl; [|exact Hsh]. intros x (r & Hr & Hx)%unite_elem.
    apply list_elem_of_In, in_concat. exists r. split; by apply list_elem_of_In.
  - lia.
Qed.

(** ** What the loop over the inputs finds *)

Record scanned (inputs : list Summary) (m : nat) (sc : Scan) : Prop := {
  sd_most : sc_most sc = sum_Z (sm_count <$> take m inputs);
  sd_none : sc_first sc = None -> Forall (fun s => sm_count s = 0) (take m inputs);
  sd_first : forall f, sc_first sc = Some f -> (f < m)%nat /\ sm_count (nth f inputs no_summary) <> 0;
  sd_alike : forall f, sc_first sc = Some f -> sc_alike sc = true ->
    Forall (fun s => sm_count s = 0 \/ s = nth f inputs no_summary) (take m inputs);
  sd_alone : sc_first sc = None -> sc_alike sc = true
}.

Lemma scan_step_ok inputs m sc :
  Forall (fun s => 0 <= sm_count s) inputs -> sum_Z (sm_count <$> inputs) < 2 ^ 64 -> (m < length inputs)%nat ->
  scanned inputs m sc -> scanned inputs (Datatypes.S m) (scan_step inputs sc m).
Proof.
  intros Hnn Ht Hm [H1 H2 H3 H4 H5]. destruct (lookup_lt_is_Some_2 inputs m Hm) as [s Hs].
  assert (nth m inputs no_summary = s) as En by (by rewrite nth_lookup, Hs).
  assert (take (Datatypes.S m) inputs = take m inputs ++ [s]) as Et by (by apply take_S_r).
  assert (sum_Z (sm_count <$> take m inputs) + sm_count s <= sum_Z (sm_count <$> inputs)) as Hle.
  { rewrite <- (take_drop_middle _ _ _ Hs) at 2. rewrite !fmap_app, !sum_Z_app. cbn [fmap list_fmap sum_Z foldr].
    assert (0 <= sum_Z (sm_count <$> drop (Datatypes.S m) inputs)); [|unfold sum_Z in *; simpl; lia].
    apply sum_Z_nonneg, Forall_fmap, Forall_drop. exact Hnn. }
  assert (0 <= sum_Z (sm_count <$> take m inputs)) as H0.
  { apply sum_Z_nonneg, Forall_fmap, Forall_take. exact Hnn. }
  assert (0 <= sm_count s) as Hs0 by (rewrite Forall_forall in Hnn; by eapply Hnn, list_elem_of_lookup_2).
  unfold scan_step. rewrite En. destruct (Z.eqb_spec (sm_count s) 0) as [Ez|Enz].
  - split; rewrite ?Et, ?fmap_app, ?sum_Z_app.
    + rewrite H1. simpl. lia.
    + intros Hf. apply Forall_app. split; [auto | by repeat constructor].
    + intros f Hf. destruct (H3 f Hf). split; [lia | done].
    + intros f Hf Ha. apply Forall_app. split; [auto|]. apply Forall_singleton. by left.
    + done.
  - assert (wrap64 (sc_most sc + sm_count s) = sum_Z (sm_count <$> take (Datatypes.S m) inputs)) as Ew.
    { rewrite Et, fmap_app, sum_Z_app, H1. simpl. rewrite wrap64_small by lia. lia. }
    destruct (sc_first sc) as [f|] eqn:Ef; split; cbn [sc_first sc_alike sc_most]; try done.
    + intros f' [= <-]. destruct (H3 f eq_refl). split; [lia | done].
    + intros f' [= <-] [Ha E%bool_decide_eq_true]%andb_true_iff. rewrite Et. apply Forall_app.
      split; [by apply H4|]. apply Forall_singleton. by right.
    + intros f' [= <-]. rewrite En. split; [lia | done].
    + intros f' [= <-] _. rewrite Et, En. apply Forall_app. split; [|by apply Forall_singleton; right].
      eapply Forall_impl; [by apply H2|]. intros x ?. by left.
Qed.

Lemma scan_ok inputs :
  Forall (fun s => 0 <= sm_count s) inputs -> sum_Z (sm_count <$> inputs) < 2 ^ 64 ->
  scanned inputs (length inputs) (scan inputs).
Proof.
  intros Hnn Ht. unfold scan.
  enough (forall m, (m <= length inputs)%nat ->
    scanned inputs m (foldl (scan_step inputs) (mkScan None true 0) (seq 0 m))) as Hgen by (by apply Hgen).
  induction m as [|m IH]; intros Hm.
  - split; cbn [sc_first sc_alike sc_most foldl seq take]; try done; constructor.
  - rewrite seq_S, foldl_snoc. apply scan_step_ok; [done | done | lia | apply IH; lia].
Qed.

(** ** What a part promises *)

Record part_promise `{Sha256} {S} (I : S -> Prop) (part : Part S) (records : list Rec) : Prop := {
  pp_wf : wf_recs 32 records;
  pp_summary : pt_summary part = canon 32 records;
  pp_get : forall id s, I s -> exists s', pt_get part id s = (Ok (alookup id records), s') /\ I s';
  pp_children : forall (p : Prefix) s, I s -> (length p < 32)%nat ->
    exists s', pt_children part p s = (Ok (canon_children p records), s') /\ I s';
  pp_records : forall (p : Prefix) most s, I s -> (length p <= 32)%nat ->
    Z.of_nat (length (covered p records)) <= Z.max leaf_max most ->
    exists s', pt_records part p most s = (Ok (covered p records), s') /\ I s';
  pp_refuses : forall (p : Prefix) most s, I s -> (length p <= 32)%nat ->
    Z.max leaf_max most < Z.of_nat (length (covered p records)) ->
    exists s', pt_records part p most s = (Throw too_many, s') /\ I s'
}.

Section union_proof.
Context `{Sha256} {S : Type} (I : S -> Prop) (parts : list (Part S)) (recs : list (list Rec)).
Context (Hparts : Forall2 (part_promise I) parts recs).
(** The records fit a count, and there are no more parts than a leaf has
    records: with more, [merge] could be asked what is below a whole id. *)
Context (Htotal : records_total recs < 2 ^ 64) (Hfew : Z.of_nat (length parts) <= leaf_max).

Lemma recs_wf : Forall (wf_recs 32) recs.
Proof.
  apply Forall_forall. intros r Hr. apply list_elem_of_lookup in Hr as [i Hi].
  destruct (Forall2_lookup_r _ _ _ _ _ Hparts Hi) as (part & _ & Hp). apply Hp.
Qed.

Lemma recs_sorted : Forall sorted_recs recs.
Proof. eapply Forall_impl; [exact recs_wf|]. intros r Hr. apply Hr. Qed.

#[local] Abbreviation U := (unite recs).
(** What each part has below a prefix. *)
#[local] Abbreviation at_prefix p := (covered p <$> recs).

Lemma covered_U p : covered p U = unite (at_prefix p).
Proof. apply covered_unite, recs_sorted. Qed.

Lemma wf_U : wf_recs 32 U.
Proof.
  apply wf_unite; [lia | exact recs_wf | apply share_0 | done].
Qed.

Lemma total_covered p : records_total (at_prefix p) <= records_total recs.
Proof.
  unfold records_total. clear. induction recs as [|r rs IH]; [done|]. cbn [fmap list_fmap sum_Z foldr].
  pose proof (length_filter (fun x : Rec => prefix_covers p x.1 = true) r).
  unfold covered in *. unfold sum_Z in *. lia.
Qed.

Lemma total_counts k p :
  length p = (32 - k)%nat -> (k <= 32)%nat ->
  sum_Z (sm_count <$> (canon k <$> at_prefix p)) = records_total (at_prefix p).
Proof.
  intros Hp Hk. unfold records_total. f_equal. rewrite <- list_fmap_compose. apply list_fmap_ext.
  intros i r Hr. apply list_lookup_fmap_Some in Hr as (r' & -> & Hr'). unfold compose.
  rewrite canon_count; [done|]. replace k with (32 - length p)%nat by lia. apply wf_covered; [lia|].
  eapply Forall_lookup_1; [exact recs_wf | done].
Qed.

(** With no byte left each part has one record at most. *)
Lemma total_bottom (p : Prefix) : length p = 32%nat -> records_total (at_prefix p) <= Z.of_nat (length recs).
Proof.
  intros Hp. unfold records_total. pose proof recs_wf as Hw. clear - Hp Hw.
  induction Hw as [|r rs Hr Hw IH]; [done|]. rewrite !fmap_cons. cbn [sum_Z foldr length].
  pose proof (wf_covered p r ltac:(lia) Hr) as Hc. rewrite Hp in Hc. apply wf_bottom in Hc.
  unfold sum_Z in IH. lia.
Qed.

(** ** Merged records *)

Lemma merged_records_ok (p : Prefix) most s :
  I s -> (length p <= 32)%nat -> Z.of_nat (length (covered p U)) <= most ->
  exists s', merged_records parts p most s = (Ok (covered p U), s') /\ I s'.
Proof.
  intros HI Hp Hm. rewrite covered_U in *. unfold merged_records.
  enough (forall ps rs done_ s, Forall2 (part_promise I) ps rs -> I s ->
    Z.of_nat (length (unite (done_ ++ (covered p <$> rs)))) <= most ->
    exists s', foldM (fun out part =>
      got ← pt_records part p most;
      match got with
      | [] => mret out
      | _ => let merged := merge2 out got in
             if most <? Z.of_nat (length merged) then st_throw too_many_union else mret merged
      end) (unite done_) ps s = (Ok (unite (done_ ++ (covered p <$> rs))), s') /\ I s') as Hgen.
  { by apply (Hgen parts recs [] s). }
  clear s HI Hm. intros ps rs done_ s Hps. revert done_ s.
  induction Hps as [|part r ps rs Hpr _ IH]; intros done_ s HI Hm.
  - exists s. by rewrite app_nil_r.
  - rewrite fmap_cons in *. cbn [foldM].
    replace (done_ ++ covered p r :: (covered p <$> rs)) with ((done_ ++ [covered p r]) ++ (covered p <$> rs)) in *
      by (by rewrite <- app_assoc).
    pose proof (unite_prefix_length (done_ ++ [covered p r]) (covered p <$> rs)) as Hl1.
    pose proof (unite_length (done_ ++ [covered p r]) (covered p r) ltac:(set_solver)) as Hl2.
    destruct (pp_records _ _ _ Hpr p most s HI Hp ltac:(lia)) as (s1 & E1 & HI1).
    rewrite (st_bind_ok _ _ _ (unite (done_ ++ [covered p r])) s1).
    + by apply IH.
    + rewrite (st_bind_ok _ _ _ _ _ E1). rewrite unite_snoc in *.
      destruct (covered p r) as [|x l]; [by rewrite merge2_nil_r|]. cbv zeta.
      by rewrite (proj2 (Z.ltb_ge _ _)) by lia.
Qed.

(** ** Worked-out nodes *)

(** The node is the union's at a prefix with [k] bytes of the ids left, where
    each part has [rs] below it. *)
Fixpoint unode_ok (k : nat) (rs : list (list Rec)) (n : option UNode) : Prop :=
  match n with
  | None => unite rs = []
  | Some n =>
      u_inputs n = canon k <$> rs /\ u_summary n = canon k (unite rs) /\
      match u_whole n with
      | Some i => u_below n = [] /\ rs !! i = Some (unite rs)
      | None =>
          (u_below n = [] /\ Z.of_nat (length (unite rs)) <= leaf_max) \/
          (leaf_max < Z.of_nat (length (unite rs)) /\ length (u_below n) = 256%nat /\
           match k with
           | O => False
           | Datatypes.S k' => forall i, (i < 256)%nat ->
               unode_ok k' (under (32 - k) (n2b i) <$> rs) (nth i (u_below n) None)
           end)
      end
  end.

Lemma under_at_prefix k p i :
  length p = (32 - Datatypes.S k)%nat -> (Datatypes.S k <= 32)%nat ->
  under (32 - Datatypes.S k) (n2b i) <$> at_prefix p = at_prefix (prefix_child p (n2b i)).
Proof.
  intros Hp Hk. rewrite <- list_fmap_compose. apply list_fmap_ext. intros j r _. unfold compose, prefix_child.
  by rewrite covered_snoc, Hp by lia.
Qed.

Lemma unode_summary k rs n :
  unode_ok k rs n ->
  match n with Some n => u_summary n | None => no_summary end = canon k (unite rs).
Proof.
  destruct n as [n|].
  - destruct k; by intros (_ & E & _).
  - intros E. assert (unite rs = []) as -> by (by destruct k). by rewrite canon_nil.
Qed.

Lemma unode_inputs k rs n : unode_ok k rs (Some n) -> u_inputs n = canon k <$> rs.
Proof. destruct k; by intros (E & _). Qed.

(** A subtree of a hint is a hint for the subtree. *)
Lemma unode_below k rs n i :
  unode_ok (Datatypes.S k) rs (Some n) -> length (u_below n) = 256%nat -> (i < 256)%nat ->
  unode_ok k (under (32 - Datatypes.S k) (n2b i) <$> rs) (nth i (u_below n) None).
Proof.
  intros (_ & _ & Hn) Hl Hi. destruct (u_whole n).
  - destruct Hn as [E _]. by rewrite E in Hl.
  - destruct Hn as [[E _]|(_ & _ & Hb)]; [by rewrite E in Hl | by apply Hb].
Qed.

(** ** Merging *)

(** The parts of the union given as a hint, and that no strings hashed by two
    of all these tries collide. *)
Context (olds : list (list Rec)) (Hold : Forall (wf_recs 32) olds).
Context (Hapart : forall a b, a ∈ recs ++ olds -> b ∈ recs ++ olds -> apart a b).

Lemma pool_wf a : a ∈ recs ++ olds -> wf_recs 32 a.
Proof.
  pose proof recs_wf as Hr. rewrite Forall_forall in Hr, Hold. intros [?|?]%elem_of_app; auto.
Qed.

Lemma pool_inj (p : Prefix) a b :
  (length p <= 32)%nat -> a ∈ recs ++ olds -> b ∈ recs ++ olds ->
  canon (32 - length p) (covered p a) = canon (32 - length p) (covered p b) -> covered p a = covered p b.
Proof.
  intros Hp Ha Hb. apply canon_inj; [by apply wf_covered, pool_wf | by apply wf_covered, pool_wf|].
  by apply Hapart.
Qed.

Lemma inputs_inj (p : Prefix) k :
  length p = (32 - k)%nat -> (k <= 32)%nat ->
  canon k <$> (covered p <$> olds) = canon k <$> at_prefix p -> covered p <$> olds = at_prefix p.
Proof.
  intros Hp Hk E. replace k with (32 - length p)%nat in E by lia. apply list_eq. intros i.
  apply (f_equal (lookup i)) in E. rewrite !list_lookup_fmap in *.
  destruct (olds !! i) as [a|] eqn:Ea, (recs !! i) as [b|] eqn:Eb; try done. cbn [fmap option_fmap option_map] in *.
  f_equal. apply pool_inj; [lia | | | by injection E];
    apply elem_of_app; [right | left]; by eapply list_elem_of_lookup_2.
Qed.

Lemma children_below_ok (p : Prefix) k s :
  I s -> length p = (32 - Datatypes.S k)%nat -> (Datatypes.S k <= 32)%nat ->
  exists s', children_below parts p (canon (Datatypes.S k) <$> at_prefix p) s =
    (Ok ((fun r => canon_children p r) <$> recs), s') /\ I s'.
Proof.
  intros HI Hp Hk. unfold children_below.
  enough (forall ps rs done_ s, Forall2 (part_promise I) ps rs -> I s ->
    exists s', foldM (fun below '(part, input) =>
      c ← (if sm_count input =? 0 then mret (replicate 256 no_summary) else pt_children part p);
      mret (below ++ [c])) done_ (zip ps (canon (Datatypes.S k) <$> (covered p <$> rs))) s =
      (Ok (done_ ++ ((fun r => canon_children p r) <$> rs)), s') /\ I s') as Hgen.
  { by apply (Hgen parts recs [] s). }
  clear s HI. intros ps rs done_ s Hps. revert done_ s.
  induction Hps as [|part r ps rs Hpr _ IH]; intros done_ s HI.
  - exists s. by rewrite app_nil_r.
  - rewrite !fmap_cons. cbn [zip zip_with foldM].
    assert (wf_recs (Datatypes.S k) (covered p r)) as Hwf.
    { replace (Datatypes.S k) with (32 - length p)%nat by lia. apply wf_covered; [lia | apply Hpr]. }
    assert (exists s1, (if sm_count (canon (Datatypes.S k) (covered p r)) =? 0
      then mret (replicate 256 no_summary) else pt_children part p) s = (Ok (canon_children p r), s1) /\ I s1)
      as (s1 & E1 & HI1).
    { rewrite canon_count by done. destruct (Z.eqb_spec (Z.of_nat (length (covered p r))) 0) as [E|E].
      - exists s. rewrite canon_children_none; [done | lia |]. by apply nil_length_inv; lia.
      - apply Hpr; [done | lia]. }
    rewrite (st_bind_ok _ _ _ (done_ ++ [canon_children p r]) s1).
    + destruct (IH (done_ ++ [canon_children p r]) s1 HI1) as (s2 & E2 & HI2). exists s2.
      rewrite <- app_assoc in E2. done.
    + by rewrite (st_bind_ok _ _ _ _ _ E1).
Qed.

(** What a leaf of the union is made of. *)
Lemma leaf_case (p : Prefix) k s :
  I s -> length p = (32 - k)%nat -> (k <= 32)%nat -> Z.of_nat (length (unite (at_prefix p))) <= leaf_max ->
  exists n s', (records ← merged_records parts p uint64_max; sm ← st_lift (leaf_summary records);
     mret (Some (mkUNode (canon k <$> at_prefix p) sm None []))) s = (Ok n, s') /\ I s' /\
    unode_ok k (at_prefix p) n.
Proof.
  intros HI Hp Hk Hle. destruct (merged_records_ok p uint64_max s HI) as (s1 & E1 & HI1); [lia | |].
  { rewrite covered_U. unfold uint64_max, leaf_max in *. lia. }
  rewrite (st_bind_ok _ _ _ _ _ E1). rewrite covered_U in *.
  assert (leaf_summary (unite (at_prefix p)) = Ok (canon k (unite (at_prefix p)))) as El.
  { unfold leaf_summary. rewrite leaf_hash_ok.
    - rewrite canon_leaf by done. cbn [mbind result_bind]. by destruct (unite (at_prefix p)).
    - rewrite <- covered_U. pose proof wf_U as [_ _ Hv _ _]. rewrite Forall_forall in *.
      intros x [_ Hx]%list_elem_of_filter. by apply Hv. }
  rewrite (st_bind_ok _ _ s1 (canon k (unite (at_prefix p))) s1); [|unfold st_lift; by rewrite El].
  eexists _, s1. split; [reflexivity|]. split; [done|].
  destruct k; (split; [done|]; split; [done|]; left; done).
Qed.

(** The summaries of the slots below a prefix add up to what is there. *)
Lemma slots_count (p : Prefix) k :
  length p = (32 - Datatypes.S k)%nat -> (Datatypes.S k <= 32)%nat ->
  sum_u64 (sm_count <$> canon_children p U) = Z.of_nat (length (covered p U)).
Proof.
  intros Hp Hk.
  assert (wf_recs (Datatypes.S k) (covered p U)) as Hwf.
  { replace (Datatypes.S k) with (32 - length p)%nat by lia. apply wf_covered; [lia | exact wf_U]. }
  assert (sm_count <$> canon_children p U =
    (fun i => Z.of_nat (length (under (32 - Datatypes.S k) (n2b i) (covered p U)))) <$> seq 0 256) as E.
  { unfold canon_children. rewrite <- list_fmap_compose. apply list_fmap_ext. intros i x _. unfold compose.
    rewrite covered_snoc, Hp by lia. replace (31 - (32 - Datatypes.S k))%nat with k by lia.
    apply canon_count. by apply wf_under. }
  rewrite sum_u64_exact; rewrite E.
  - by apply under_counts.
  - apply Forall_fmap, Forall_forall. intros i _. unfold compose. lia.
  - rewrite under_counts by done. apply Hwf.
Qed.

Lemma slots_summary (p : Prefix) k :
  length p = (32 - Datatypes.S k)%nat -> (Datatypes.S k <= 32)%nat ->
  leaf_max < Z.of_nat (length (covered p U)) ->
  interior_summary (canon_children p U) = Ok (canon (Datatypes.S k) (covered p U)).
Proof.
  intros Hp Hk Hgt. unfold interior_summary. rewrite interior_hash_ok. cbn [mbind result_bind].
  rewrite (slots_count p k), canon_branch by done. do 4 f_equal. unfold canon_children. apply list_fmap_ext.
  intros i x _. rewrite covered_snoc, Hp by lia. f_equal. lia.
Qed.

(** The slots worked out so far. *)
Record slotted (p : Prefix) (k m : nat) (st : Slotted) : Prop := {
  st_length : length (sl_below st) = m;
  st_below : forall i, (i < m)%nat -> unode_ok k (at_prefix (prefix_child p (n2b i))) (nth i (sl_below st) None);
  st_slots : sl_slots st = (fun i => canon k (covered (prefix_child p (n2b i)) U)) <$> seq 0 m;
  st_count : sl_count st = sum_u64 (sm_count <$> sl_slots st)
}.

Lemma slot_step (p : Prefix) k m st n :
  slotted p k m st -> unode_ok k (at_prefix (prefix_child p (n2b m))) n ->
  let sm := match n with Some n => u_summary n | None => no_summary end in
  slotted p k (Datatypes.S m)
    (mkSlotted (sl_below st ++ [n]) (sl_slots st ++ [sm]) (wrap64 (sl_count st + sm_count sm))).
Proof.
  intros [Hl Hb Hs Hc] Hn sm. split; cbn [sl_below sl_slots sl_count].
  - rewrite length_app, Hl. simpl. lia.
  - intros i Hi. destruct (decide (i = m)) as [->|Hne].
    + rewrite app_nth2, Hl, Nat.sub_diag by lia. done.
    + rewrite app_nth1 by lia. apply Hb. lia.
  - rewrite seq_S, fmap_app, Hs. cbn [fmap list_fmap]. do 2 f_equal. unfold sm.
    rewrite (unode_summary _ _ _ Hn), Nat.add_0_l. by rewrite covered_U.
  - rewrite fmap_app, Hc. unfold sum_u64. by rewrite foldl_app.
Qed.

Lemma slots_loop (p : Prefix) k (hinted : list (option UNode)) s :
  I s -> length p = (32 - Datatypes.S k)%nat -> (Datatypes.S k <= 32)%nat ->
  (forall i s, (i < 256)%nat -> I s -> exists n s',
     merge parts k (prefix_child p (n2b i)) (canon k <$> at_prefix (prefix_child p (n2b i)))
       (nth i hinted None) s = (Ok n, s') /\ I s' /\ unode_ok k (at_prefix (prefix_child p (n2b i))) n) ->
  exists st s', foldM (fun st slot =>
      n ← merge parts k (prefix_child p (n2b slot))
            ((fun b => nth slot b no_summary) <$> ((fun r => canon_children p r) <$> recs)) (nth slot hinted None);
      let s := match n with Some n => u_summary n | None => no_summary end in
      mret (mkSlotted (sl_below st ++ [n]) (sl_slots st ++ [s]) (wrap64 (sl_count st + sm_count s))))
    (mkSlotted [] [] 0) (seq 0 256) s = (Ok st, s') /\ I s' /\ slotted p k 256 st.
Proof.
  intros HI Hp Hk Hm.
  destruct (foldM_inv (fun done_ st s => I s /\ slotted p k (length done_) st)
    (fun st slot =>
      n ← merge parts k (prefix_child p (n2b slot))
            ((fun b => nth slot b no_summary) <$> ((fun r => canon_children p r) <$> recs)) (nth slot hinted None);
      let s := match n with Some n => u_summary n | None => no_summary end in
      mret (mkSlotted (sl_below st ++ [n]) (sl_slots st ++ [s]) (wrap64 (sl_count st + sm_count s))))
    (seq 0 256) (mkSlotted [] [] 0) s) as (st & s' & E & HI' & Hst).
  - split; [done|]. split; try done. intros i Hi. cbn [length] in Hi. lia.
  - intros done_ x rest st s1 Ex [HI1 Hst].
    assert (x = length done_ /\ (x < 256)%nat) as [-> Hx].
    { assert (seq 0 256 !! length done_ = Some x) as Hl by (by rewrite Ex, list_lookup_middle).
      apply lookup_seq in Hl as [-> Hl]. lia. }
    destruct (Hm (length done_) s1 Hx HI1) as (n & s2 & En & HI2 & Hn).
    assert ((fun b => nth (length done_) b no_summary) <$> ((fun r => canon_children p r) <$> recs) =
      canon k <$> at_prefix (prefix_child p (n2b (length done_)))) as Ei.
    { rewrite <- !list_fmap_compose. apply list_fmap_ext. intros j r _. unfold compose.
      rewrite nth_canon_children by done. f_equal. lia. }
    rewrite Ei, (st_bind_ok _ _ _ _ _ En). eexists _, s2. split; [reflexivity|]. split; [done|].
    rewrite length_app, Nat.add_1_r. by apply slot_step.
  - exists st, s'. split; [exact E|]. split; [done|]. by rewrite length_seq in Hst.
Qed.

Lemma inputs_nonneg k (p : Prefix) :
  length p = (32 - k)%nat -> (k <= 32)%nat -> Forall (fun s => 0 <= sm_count s) (canon k <$> at_prefix p).
Proof.
  intros Hp Hk. rewrite Forall_fmap, Forall_fmap. eapply Forall_impl; [exact recs_wf|]. intros r Hr. unfold compose.
  rewrite canon_count; [lia|]. replace k with (32 - length p)%nat by lia. apply wf_covered; [lia | done].
Qed.

Lemma inputs_scanned k (p : Prefix) :
  length p = (32 - k)%nat -> (k <= 32)%nat ->
  scanned (canon k <$> at_prefix p) (length recs) (scan (canon k <$> at_prefix p)).
Proof.
  intros Hp Hk. rewrite <- (length_fmap (covered p) recs), <- (length_fmap (canon k) (at_prefix p)).
  apply scan_ok; [by apply inputs_nonneg|]. rewrite total_counts by done. pose proof (total_covered p). lia.
Qed.

(** An empty summary is of nothing. *)
Lemma input_empty k (p : Prefix) r :
  length p = (32 - k)%nat -> (k <= 32)%nat -> r ∈ recs -> sm_count (canon k (covered p r)) = 0 -> covered p r = [].
Proof.
  intros Hp Hk Hr. pose proof recs_wf as Hw. rewrite Forall_forall in Hw. rewrite canon_count.
  - intros E. apply nil_length_inv. lia.
  - replace k with (32 - length p)%nat by lia. apply wf_covered; [lia | by apply Hw].
Qed.

Lemma alike_case k (p : Prefix) first :
  length p = (32 - k)%nat -> (k <= 32)%nat ->
  sc_first (scan (canon k <$> at_prefix p)) = Some first -> sc_alike (scan (canon k <$> at_prefix p)) = true ->
  unode_ok k (at_prefix p)
    (Some (mkUNode (canon k <$> at_prefix p) (nth first (canon k <$> at_prefix p) no_summary) (Some first) [])).
Proof.
  intros Hp Hk Hf Ha. destruct (inputs_scanned k p Hp Hk) as [_ _ H3 H4 _].
  destruct (H3 first Hf) as [Hlt Hnz]. specialize (H4 first Hf Ha).
  destruct (lookup_lt_is_Some_2 recs first Hlt) as [r Hr].
  assert (nth first (canon k <$> at_prefix p) no_summary = canon k (covered p r)) as En.
  { by rewrite nth_lookup, !list_lookup_fmap, Hr. }
  assert (unite (at_prefix p) = covered p r) as EU.
  { apply unite_alike.
    - eapply covered_sorted, Forall_lookup_1; [exact recs_sorted | done].
    - rewrite take_ge in H4 by (by rewrite !length_fmap). rewrite !Forall_fmap in H4. rewrite Forall_fmap.
      rewrite Forall_forall in H4. apply Forall_forall. intros r' Hr'. specialize (H4 r' Hr'). unfold compose in *. rewrite En in H4.
      destruct H4 as [E|E]; [left; by eapply input_empty | right].
      replace k with (32 - length p)%nat in E by lia. apply pool_inj in E; [done | lia | |];
        apply elem_of_app; left; [done | by eapply list_elem_of_lookup_2].
    - apply list_elem_of_fmap_2. by eapply list_elem_of_lookup_2. }
  rewrite En. destruct k; (split; [done|]; split; [by rewrite EU|]; split; [done|]; by rewrite list_lookup_fmap, Hr, EU).
Qed.

Definition hint_ok (k : nat) (p : Prefix) (hint : option UNode) : Prop :=
  hint = None \/ unode_ok k (covered p <$> olds) hint.

Lemma olds_under k (p : Prefix) i :
  length p = (32 - Datatypes.S k)%nat -> (Datatypes.S k <= 32)%nat ->
  under (32 - Datatypes.S k) (n2b i) <$> (covered p <$> olds) = covered (prefix_child p (n2b i)) <$> olds.
Proof.
  intros Hp Hk. rewrite <- list_fmap_compose. apply list_fmap_ext. intros j r _. unfold compose, prefix_child.
  by rewrite covered_snoc, Hp by lia.
Qed.

Lemma hint_below k (p : Prefix) hint i :
  length p = (32 - Datatypes.S k)%nat -> (Datatypes.S k <= 32)%nat -> (i < 256)%nat ->
  hint_ok (Datatypes.S k) p hint ->
  hint_ok k (prefix_child p (n2b i))
    (nth i (match hint with
            | Some h => if (length (u_below h) =? 256)%nat then u_below h else []
            | None => []
            end) None).
Proof.
  intros Hp Hk Hi Hh. destruct hint as [h|]; [|by left; destruct i].
  destruct (Nat.eqb_spec (length (u_below h)) 256) as [El|]; [|by left; destruct i].
  destruct Hh as [|Hh]; [done|]. right. rewrite <- (olds_under k p i) by done. by apply unode_below.
Qed.

Lemma inputs_most k (p : Prefix) :
  length p = (32 - k)%nat -> (k <= 32)%nat -> sc_most (scan (canon k <$> at_prefix p)) = records_total (at_prefix p).
Proof.
  intros Hp Hk. destruct (inputs_scanned k p Hp Hk) as [H1 _ _ _ _]. rewrite H1.
  rewrite take_ge by (by rewrite !length_fmap). by apply total_counts.
Qed.

Lemma inputs_none k (p : Prefix) :
  length p = (32 - k)%nat -> (k <= 32)%nat -> sc_first (scan (canon k <$> at_prefix p)) = None ->
  unite (at_prefix p) = [].
Proof.
  intros Hp Hk Hn. destruct (inputs_scanned k p Hp Hk) as [_ H2 _ _ _]. specialize (H2 Hn).
  rewrite take_ge in H2 by (by rewrite !length_fmap). rewrite !Forall_fmap in H2.
  apply nil_length_inv. pose proof (unite_total (at_prefix p)) as Ht. unfold records_total in Ht.
  rewrite sum_Z_zero in Ht; [lia|]. rewrite !Forall_fmap. rewrite Forall_forall in H2. apply Forall_forall.
  intros r Hr. unfold compose. rewrite (input_empty k p r); [done..|]. by apply H2.
Qed.

Lemma hint_hit k (p : Prefix) h :
  length p = (32 - k)%nat -> (k <= 32)%nat -> hint_ok k p (Some h) -> u_inputs h = canon k <$> at_prefix p ->
  unode_ok k (at_prefix p) (Some h).
Proof.
  intros Hp Hk [|Hh] E; [done|]. rewrite (unode_inputs _ _ _ Hh) in E. apply inputs_inj in E; [|done..].
  by rewrite <- E.
Qed.

(** Where the parts differ and have more than a leaf between them. *)
Lemma branch_case k (p : Prefix) st s :
  length p = (32 - Datatypes.S k)%nat -> (Datatypes.S k <= 32)%nat -> I s -> slotted p k 256 st ->
  exists n s', (if leaf_max <? sl_count st then
      sm ← st_lift (interior_summary (sl_slots st));
      mret (Some (mkUNode (canon (Datatypes.S k) <$> at_prefix p) sm None (sl_below st)))
    else
      records ← merged_records parts p uint64_max;
      sm ← st_lift (leaf_summary records);
      mret (Some (mkUNode (canon (Datatypes.S k) <$> at_prefix p) sm None []))) s = (Ok n, s') /\ I s' /\
    unode_ok (Datatypes.S k) (at_prefix p) n.
Proof.
  intros Hp Hk HI [Hl Hb Hs Hc].
  assert (sl_slots st = canon_children p U) as Es.
  { rewrite Hs. unfold canon_children, prefix_child. apply list_fmap_ext. intros i x _. f_equal. lia. }
  rewrite Es, (slots_count p k) in Hc by done. rewrite Hc, Es.
  destruct (Z.ltb_spec leaf_max (Z.of_nat (length (covered p U)))) as [Hgt|Hle].
  - rewrite (slots_summary p k) by done.
    rewrite (st_bind_ok _ _ s (canon (Datatypes.S k) (covered p U)) s) by done. eexists _, s. split; [reflexivity|].
    split; [done|]. split; [done|]. split; [cbn [u_summary]; by rewrite covered_U|]. right.
    rewrite <- covered_U. split; [done|]. split; [done|]. intros i Hi. rewrite under_at_prefix by done. by apply Hb.
  - apply leaf_case; [done | done | done |]. by rewrite <- covered_U.
Qed.

(** [merge] returns the union's node. *)
Lemma merge_ok k (p : Prefix) hint s :
  length p = (32 - k)%nat -> (k <= 32)%nat -> I s -> hint_ok k p hint ->
  exists n s', merge parts k p (canon k <$> at_prefix p) hint s = (Ok n, s') /\ I s' /\ unode_ok k (at_prefix p) n.
Proof.
  revert p hint s. induction k as [|k IH]; intros p hint s Hp Hk HI Hh.
  all: cbn [merge]; destruct (match hint with Some h => bool_decide _ | None => false end) eqn:Eh.
  1, 3: destruct hint as [h|]; [|done]; apply bool_decide_eq_true in Eh;
    exists (Some h), s; split; [done|]; split; [done|]; by apply hint_hit.
  all: destruct (sc_first (scan _)) as [first|] eqn:Ef.
  2, 4: exists None, s; split; [done|]; split; [done|]; by eapply inputs_none.
  all: destruct (sc_alike (scan _)) eqn:Ea.
  1, 3: by eexists _, s; split; [reflexivity|]; split; [done|]; apply alike_case.
  all: rewrite inputs_most by done; pose proof (unite_total (at_prefix p)) as Ht.
  - assert (records_total (at_prefix p) <= leaf_max) as Hle.
    { etransitivity; [|exact Hfew]. rewrite (Forall2_length _ _ _ Hparts). by apply total_bottom. }
    rewrite (proj2 (Z.ltb_ge _ _) Hle). rewrite (st_bind_ok _ _ s None s) by done.
    apply (leaf_case p 0); [done | done | done | lia].
  - destruct (Z.ltb_spec leaf_max (records_total (at_prefix p))) as [Hgt|Hle].
    + destruct (children_below_ok p k s HI Hp Hk) as (s1 & E1 & HI1).
      set (hinted := match hint with
        | Some h => if (length (u_below h) =? 256)%nat then u_below h else []
        | None => [] end).
      destruct (slots_loop p k hinted s1 HI1 Hp Hk) as (st & s2 & E2 & HI2 & Hst).
      { intros i s' Hi HI'. apply IH; [unfold prefix_child; rewrite length_app; simpl; lia | lia | done|].
        by apply hint_below. }
      rewrite (st_bind_ok _ _ s (Some st) s2).
      * by apply branch_case.
      * rewrite (st_bind_ok _ _ _ _ _ E1). cbv zeta. fold hinted. by rewrite (st_bind_ok _ _ _ _ _ E2).
    + rewrite (st_bind_ok _ _ s None s) by done. apply (leaf_case p (Datatypes.S k)); [done | done | done | lia].
Qed.

(** ** The union's answers *)

Lemma at_prefix_nil (rs : list (list Rec)) : covered [] <$> rs = rs.
Proof.
  rewrite <- (list_fmap_id rs) at 2. apply list_fmap_ext. intros i r _. by apply covered_all.
Qed.

(** A union of the parts. *)
Definition union_ok (u : TrieUnion S) : Prop := un_parts u = parts /\ unode_ok 32 recs (un_root u).

Lemma union_new_ok hint s :
  I s -> (forall h, hint = Some h -> unode_ok 32 olds (un_root h)) ->
  exists u s', union_new parts hint s = (Ok u, s') /\ I s' /\ union_ok u.
Proof.
  intros HI Hh. unfold union_new.
  assert (pt_summary <$> parts = canon 32 <$> (covered [] <$> recs)) as Es.
  { rewrite at_prefix_nil. clear - Hparts.
    induction Hparts as [|part r ps rs Hp Hps IH]; [done|]. rewrite !fmap_cons. f_equal; [apply Hp | exact (IH Hps)]. }
  destruct (merge_ok 32 [] (match hint with Some h => un_root h | None => None end) s) as (n & s' & E & HI' & Hn).
  - done.
  - lia.
  - done.
  - unfold hint_ok. rewrite at_prefix_nil. destruct hint as [h|]; [right; by apply Hh | by left].
  - rewrite <- Es in E. rewrite (st_bind_ok _ _ _ _ _ E). eexists _, s'. split; [reflexivity|]. split; [done|].
    split; [done|]. by rewrite at_prefix_nil in Hn.
Qed.

Lemma union_root_ok u : union_ok u -> union_root u = canon 32 U.
Proof. intros [_ Hu]. unfold union_root. by apply unode_summary. Qed.

Lemma union_get_ok u id s :
  union_ok u -> I s -> exists s', union_get u id s = (Ok (alookup id U), s') /\ I s'.
Proof.
  intros [Eu _] HI. unfold union_get. rewrite Eu, alookup_unite by exact recs_sorted.
  assert (forall (rs : list (list Rec)) (v : Bytes), foldl (fun v r => match v with Some v => Some v | None => alookup id r end) (Some v) rs = Some v)
    as Hsome by (induction rs; simpl; auto).
  unfold first_value. clear - Hparts HI Hsome. revert s HI.
  induction Hparts as [|part r ps rs Hp Hps IH]; intros s HI; [by exists s|]. cbn [get_loop foldl].
  destruct (pp_get _ _ _ Hp id s HI) as (s1 & E1 & HI1). rewrite (st_bind_ok _ _ _ _ _ E1).
  destruct (alookup id r) as [v|]; [|by apply (IH Hps)]. exists s1. by rewrite Hsome.
Qed.

(** The node a prefix falls in: worked out at the prefix itself, or above it
    where nothing further was. *)
Lemma find_node_ok (rest p : Prefix) n :
  (length p + length rest <= 32)%nat -> unode_ok (32 - length p) (at_prefix p) n ->
  exists p' rest', p ++ rest = p' ++ rest' /\ unode_ok (32 - length p') (at_prefix p') (find_node n rest) /\
    match find_node n rest with
    | Some m => rest' = [] \/ length (u_below m) <> 256%nat
    | None => True
    end.
Proof.
  revert p n. induction rest as [|b rest IH]; intros p n Hl Hn.
  - exists p, []. destruct n as [n|]; cbn [find_node]; auto.
  - cbn [length] in Hl. destruct n as [n|]; cbn [find_node]; [|by exists p, (b :: rest)].
    destruct (Nat.eqb_spec (length (u_below n)) 256) as [E|E]; [|exists p, (b :: rest); auto].
    destruct (32 - length p)%nat as [|k] eqn:Ek; [lia|].
    apply (unode_below k _ n (b2n b)) in Hn; [|done | apply b2n_lt].
    rewrite under_at_prefix, n2b_b2n in Hn by lia.
    destruct (IH (prefix_child p b) (nth (b2n b) (u_below n) None)) as (p' & rest' & Ep & Hp' & Hm).
    + unfold prefix_child. rewrite length_app. simpl. lia.
    + unfold prefix_child at 1. rewrite length_app. cbn [length].
      by replace (32 - (length p + 1))%nat with k by lia.
    + exists p', rest'. split; [|done]. rewrite <- Ep. unfold prefix_child. by rewrite <- app_assoc.
Qed.

(** What is below a longer prefix is part of what is below a shorter. *)
Lemma covered_longer (p rest : Prefix) (a b : list Rec) :
  covered p a = covered p b -> covered (p ++ rest) a = covered (p ++ rest) b.
Proof.
  assert (forall r, covered (p ++ rest) r = covered (p ++ rest) (covered p r)) as Hc.
  { intros r. symmetry. apply list_filter_filter_l. intros x Hx%prefix_covers_spec. apply prefix_covers_spec.
    apply (f_equal (take (length p))) in Hx. rewrite take_take, length_app, take_app_length in Hx.
    by rewrite Nat.min_l in Hx by lia. }
  intros E. rewrite Hc, E, <- Hc. done.
Qed.

Lemma canon_children_same (p : Prefix) a b : (length p < 32)%nat -> covered p a = covered p b -> canon_children p a = canon_children p b.
Proof. intros Hp E. apply list_fmap_ext. intros i x _. by rewrite !covered_snoc, E by done. Qed.

(** What [find_node] says of the answer. *)
Inductive found (u : TrieUnion S) (q : Prefix) : Prop :=
  | FoundNone : find_node (un_root u) q = None -> covered q U = [] -> found u q
  | FoundWhole n i part r : find_node (un_root u) q = Some n -> u_whole n = Some i ->
      parts !! i = Some part -> part_promise I part r -> covered q r = covered q U -> found u q
  | FoundBelow n k : find_node (un_root u) q = Some n -> u_whole n = None -> length (u_below n) = 256%nat ->
      length q = (32 - Datatypes.S k)%nat -> (Datatypes.S k <= 32)%nat ->
      unode_ok (Datatypes.S k) (at_prefix q) (Some n) -> found u q
  | FoundLeaf n : find_node (un_root u) q = Some n -> u_whole n = None -> u_below n = [] ->
      Z.of_nat (length (covered q U)) <= leaf_max -> found u q.

Lemma covered_length_le (p rest : Prefix) (r : list Rec) :
  (length (covered (p ++ rest) r) <= length (covered p r))%nat.
Proof.
  assert (covered (p ++ rest) r = covered (p ++ rest) (covered p r)) as ->; [|apply length_filter].
  apply covered_longer. unfold covered. rewrite list_filter_filter. apply list_filter_iff. tauto.
Qed.

Lemma find_found u (q : Prefix) : union_ok u -> (length q <= 32)%nat -> found u q.
Proof.
  intros [Hu Hn] Hq. destruct (find_node_ok q [] (un_root u)) as (p & rest & Ep & Hok & Hm).
  { simpl. lia. }
  { by rewrite at_prefix_nil. }
  rewrite app_nil_l in Ep. destruct (find_node (un_root u) q) as [n|] eqn:Ef.
  - destruct (u_whole n) as [i|] eqn:Ew.
    + assert (at_prefix p !! i = Some (unite (at_prefix p))) as Hi.
      { destruct (32 - length p)%nat; destruct Hok as (_ & _ & Hw); rewrite Ew in Hw; apply Hw. }
      rewrite list_lookup_fmap in Hi. destruct (recs !! i) as [r|] eqn:Er; [|done].
      destruct (Forall2_lookup_r _ _ _ _ _ Hparts Er) as (part & Hpart & Hpr).
      eapply FoundWhole; [done | done | done | done |]. subst q. apply covered_longer. injection Hi as ->.
      by rewrite covered_U.
    + destruct (decide (length (u_below n) = 256%nat)) as [El|El].
      * destruct Hm as [->|]; [|done]. rewrite app_nil_r in Ep. subst q.
        destruct (32 - length p)%nat as [|k] eqn:Ek.
        { destruct Hok as (_ & _ & Hw). rewrite Ew in Hw. destruct Hw as [[E _]|(_ & _ & [])]. by rewrite E in El. }
        apply (FoundBelow u p n k); [done | done | done | lia | lia | done].
      * assert (u_below n = [] /\ Z.of_nat (length (unite (at_prefix p))) <= leaf_max) as [Eb Hle].
        { destruct (32 - length p)%nat; destruct Hok as (_ & _ & Hw); rewrite Ew in Hw;
            (destruct Hw as [?|(_ & ? & _)]; [done | done]). }
        eapply FoundLeaf; [done | done | done |]. subst q. pose proof (covered_length_le p rest U).
        rewrite <- covered_U in Hle. lia.
  - apply FoundNone; [done|]. subst q.
    assert (unite (at_prefix p) = []) as E by (by destruct (32 - length p)%nat).
    rewrite <- covered_U in E. pose proof (covered_length_le p rest U) as Hle. rewrite E in Hle.
    apply nil_length_inv. cbn [length] in Hle. lia.
Qed.

Lemma covered_again (p : Prefix) (r : list Rec) : covered p (covered p r) = covered p r.
Proof. unfold covered. rewrite list_filter_filter. apply list_filter_iff. tauto. Qed.

Lemma union_leaf_children (q : Prefix) :
  (length q < 32)%nat -> Z.of_nat (length (covered q U)) <= leaf_max ->
  leaf_children q (covered q U) = Ok (canon_children q U).
Proof.
  intros Hq Hle. pose proof (wf_covered q U ltac:(lia) wf_U) as Hwf.
  pose proof (leaf_children_ok q _ _ Hq Hwf Hle) as E. rewrite cover_runs_ok in E by (apply Hwf || done).
  rewrite covered_again in E. unfold leaf_children. rewrite E. f_equal.
  apply canon_children_same; [done | apply covered_again].
Qed.

Lemma union_children_of_ok u (q : Prefix) s :
  union_ok u -> I s -> (length q < 32)%nat ->
  exists s', union_children_of u q s = (Ok (canon_children q U), s') /\ I s'.
Proof.
  intros Hu HI Hq. pose proof (proj1 Hu) as Ep. unfold union_children_of.
  rewrite (proj2 (Nat.leb_gt 32 (length q))), Ep by lia.
  destruct (find_found u q Hu ltac:(lia)) as [-> Ec | n i part r -> -> Hpart Hp Ec | n k -> -> El Hk1 Hk2 Hok | n -> -> Eb Hle].
  - exists s. by rewrite canon_children_none.
  - rewrite Hpart. rewrite <- (canon_children_same q r U) by done. by apply Hp.
  - rewrite El, Nat.eqb_refl. exists s. split; [|done]. unfold mret, st_ret. do 2 f_equal.
    rewrite (list_as_nth (u_below n) 256 None El). rewrite <- list_fmap_compose. unfold canon_children.
    apply list_fmap_ext. intros i x Hx. apply lookup_seq in Hx as [-> Hi]. unfold compose. rewrite Nat.add_0_l.
    pose proof (unode_below k _ n i Hok El Hi) as Hb. rewrite under_at_prefix in Hb by done.
    rewrite (unode_summary _ _ _ Hb), <- covered_U. unfold prefix_child. f_equal. lia.
  - rewrite Eb. cbn [length Nat.eqb].
    destruct (merged_records_ok q uint64_max s HI) as (s1 & E1 & HI1); [lia | unfold uint64_max, leaf_max in *; lia|].
    rewrite (st_bind_ok _ _ _ _ _ E1). exists s1. unfold st_lift. by rewrite union_leaf_children.
Qed.

Lemma union_records_of_ok u (q : Prefix) most s :
  union_ok u -> I s -> (length q <= 32)%nat -> leaf_max <= most -> Z.of_nat (length (covered q U)) <= most ->
  exists s', union_records_of u most q s = (Ok (covered q U), s') /\ I s'.
Proof.
  intros Hu HI Hq Hm Hle. pose proof (proj1 Hu) as Ep. unfold union_records_of. rewrite Ep.
  destruct (find_found u q Hu Hq) as [-> Ec | n i part r -> -> Hpart Hp Ec | n k -> -> El Hk1 Hk2 Hok | n -> -> Eb Hle'].
  - exists s. by rewrite Ec.
  - rewrite Hpart. rewrite <- Ec in *. apply Hp; [done | done | lia].
  - rewrite El, Nat.eqb_refl. pose proof (unode_summary _ _ _ Hok) as Es. cbn iota in Es.
    rewrite Es, <- covered_U, canon_count.
    + rewrite (proj2 (Z.ltb_ge _ _)) by done. by apply merged_records_ok.
    + replace (Datatypes.S k) with (32 - length q)%nat by lia. apply wf_covered; [done | exact wf_U].
  - rewrite Eb. cbn [length Nat.eqb andb]. by apply merged_records_ok.
Qed.

(** More than asked for is refused. *)
Lemma union_records_refused u (q : Prefix) most s :
  union_ok u -> I s -> (length q <= 32)%nat -> leaf_max <= most -> most < Z.of_nat (length (covered q U)) ->
  exists what s', union_records_of u most q s = (Throw (LengthError what), s') /\ I s'.
Proof.
  intros Hu HI Hq Hm Hgt. pose proof (proj1 Hu) as Ep. unfold union_records_of. rewrite Ep.
  destruct (find_found u q Hu Hq) as [-> Ec | n i part r -> -> Hpart Hp Ec | n k -> -> El Hk1 Hk2 Hok | n -> -> Eb Hle'].
  - rewrite Ec in Hgt. unfold leaf_max in *. simpl in Hgt. lia.
  - rewrite Hpart. rewrite <- Ec in Hgt. destruct (pp_refuses _ _ _ Hp q most s HI Hq ltac:(lia)) as (s' & E & HI').
    by eexists _, s'.
  - rewrite El, Nat.eqb_refl. pose proof (unode_summary _ _ _ Hok) as Es. cbn iota in Es.
    rewrite Es, <- covered_U, canon_count.
    + rewrite (proj2 (Z.ltb_lt _ _)) by done. by eexists _, s.
    + replace (Datatypes.S k) with (32 - length q)%nat by lia. apply wf_covered; [done | exact wf_U].
  - unfold leaf_max in *. lia.
Qed.

(** The union is a source of the united records. *)
Lemma union_source_ok u : union_ok u -> source_ok I (union_source u) U.
Proof.
  intros Hu. split.
  - exact wf_U.
  - intros s HI. exists s. split; [|done]. cbn [union_source src_root]. by rewrite union_root_ok.
  - intros ps s HI Hps. rewrite Forall_forall in Hps. apply (foldM_collect I (union_children_of u)); [|done].
    intros p s' Hp HI'. apply union_children_of_ok; [done | done | by apply Hps].
  - intros ps s HI Hps. rewrite Forall_forall in Hps. apply (foldM_collect I (union_records_of u uint64_max)); [|done].
    intros p s' Hp HI'. destruct (Hps p Hp) as [Hl Hc].
    apply union_records_of_ok; [done | done | done | unfold uint64_max, leaf_max in *; lia..].
Qed.

End union_proof.
