(* ===== verification/TrieChange.v ===== *)
(** * Changing a trie

    [ObjectTrie::load] with its cache, [gather] and [mutate]: applying sorted
    changes to a trie of some records gives the canonical trie of the merged
    records, so that what a trie sums up as never depends on how it came to
    hold them. *)

From S2P Require Import Prelude Codec Journal Trie TrieShape TrieOps.

(** ** The cache *)

(** What each generation's node file reads, by offset. *)
Abbreviation World := (Z -> Z -> result Bytes).

(** Every entry is what its generation's file decodes to. *)
Definition cache_ok `{Sha256} (world : World) (c : NodeCache.t) : Prop :=
  forall g off n b, NodeCache.entries c !! (g, off) = Some (n, b) ->
    exists bs, world g off = Ok bs /\ decode bs false = Ok n.

Lemma evict_entries fuel c key v :
  NodeCache.entries (NodeCache.evict fuel c) !! key = Some v -> NodeCache.entries c !! key = Some v.
Proof.
  revert c. induction fuel as [|fuel IH]; intros c; simpl; [done|].
  destruct (_ && _); [|done]. destruct (last _) as [victim|]; [|done].
  intros Hk%IH. simpl in Hk. by apply lookup_delete_Some in Hk as [_ ?].
Qed.

Lemma cache_insert_ok `{Sha256} world g off n bs b c :
  cache_ok world c -> world g off = Ok bs -> decode bs false = Ok n ->
  cache_ok world (NodeCache.insert g off n b c).2.
Proof.
  intros Hc Hrd Hdec g' off' n' b'. unfold NodeCache.insert. cbn -[NodeCache.evict].
  destruct (NodeCache.entries c !! (g, off)) eqn:E; cbn -[NodeCache.evict]; [apply Hc|].
  intros Hk%evict_entries. cbn in Hk. apply lookup_insert_Some in Hk as [[[= <- <-] [= <- <-]]|[_ Hk]]; eauto.
Qed.

(** ** Merging changes into sorted records *)

(** What the changes leave an id with. *)
Fixpoint change_of (id : ObjectId) (changes : list Change) : option (option Bytes) :=
  match changes with
  | [] => None
  | c :: rest => if decide (id = ch_id c) then Some (ch_value c) else change_of id rest
  end.

Definition sorted_changes (changes : list Change) : Prop := sorted_keys (ch_id <$> changes).

Lemma sorted_changes_cons c l :
  sorted_changes (c :: l) <-> Forall (fun x => key_lt (ch_id c) (ch_id x)) l /\ sorted_changes l.
Proof. unfold sorted_changes, sorted_keys. by rewrite fmap_cons, StronglySorted_cons, Forall_fmap. Qed.

Lemma take_below_spec id (old : list Rec) :
  sorted_recs old ->
  take_below id old = (base.filter (fun r : Rec => key_lt r.1 id) old,
                       base.filter (fun r : Rec => ~ key_lt r.1 id) old).
Proof.
  induction old as [|[k v] old IH]; intros Hs; [done|].
  pose proof Hs as [Hf Hs']%sorted_recs_cons. cbn [take_below]. simpl (fst (k, v)).
  destruct (key_ltb k id) eqn:E.
  - rewrite IH by done. rewrite !filter_cons. simpl (fst (k, v)). unfold key_lt in *.
    rewrite decide_True, decide_False by tauto. done.
  - assert (Forall (fun r : Rec => ~ key_lt r.1 id) ((k, v) :: old)) as Hall.
    { constructor; [simpl; unfold key_lt; congruence|]. eapply Forall_impl; [exact Hf|].
      intros r Hr Hlt. assert (key_lt k id) by (by transitivity r.1). unfold key_lt in *. congruence. }
    f_equal; symmetry; [by apply list_filter_none | by apply list_filter_all].
Qed.

(** The two parts of the records around an id. *)
Lemma merge_changes_cons c rest old :
  sorted_recs old ->
  merge_changes old (c :: rest) =
  base.filter (fun r : Rec => key_lt r.1 (ch_id c)) old ++
  match ch_value c with Some v => [(ch_id c, v)] | None => [] end ++
  merge_changes (base.filter (fun r : Rec => key_lt (ch_id c) r.1) old) rest.
Proof.
  intros Hs. cbn [merge_changes]. rewrite take_below_spec by done. do 3 f_equal.
  set (P := fun r : Rec => ~ key_lt r.1 (ch_id c)).
  assert (base.filter (fun r : Rec => key_lt (ch_id c) r.1) old =
          base.filter (fun r : Rec => key_lt (ch_id c) r.1) (base.filter P old)) as ->.
  { symmetry. apply list_filter_filter_l. intros r Hr Hr'.
    apply (key_lt_irrefl r.1). by transitivity (ch_id c). }
  assert (sorted_recs (base.filter P old)) as Hs' by (by apply sorted_recs_filter).
  assert (Forall P (base.filter P old)) as HP.
  { apply Forall_forall. by intros r [? _]%list_elem_of_filter. }
  destruct (base.filter P old) as [|[k v] l]; [done|]. simpl (fst (k, v)).
  apply sorted_recs_cons in Hs' as [Hf _]. apply Forall_cons in HP as [Hk _]. simpl in Hk.
  assert (key_lt (ch_id c) k \/ k = ch_id c) as Hcmp.
  { destruct (key_trichotomy k (ch_id c)) as [?|[?|?]]; [done | by right | by left]. }
  assert (Forall (fun r : Rec => key_lt (ch_id c) r.1) l) as Hl.
  { eapply Forall_impl; [exact Hf|]. intros r Hr. destruct Hcmp as [?| ->]; [by transitivity k | done]. }
  rewrite filter_cons. simpl (fst (k, v)).
  destruct (bool_decide_reflect (k = ch_id c)) as [->|Hne].
  - rewrite decide_False by apply key_lt_irrefl. symmetry. by apply list_filter_all.
  - destruct Hcmp as [Hcmp|?]; [|done]. rewrite decide_True by done. f_equal.
    symmetry. by apply list_filter_all.
Qed.

Lemma merge_elem changes old r :
  sorted_recs old -> r ∈ merge_changes old changes ->
  r ∈ old \/ exists c, c ∈ changes /\ ch_id c = r.1 /\ ch_value c = Some r.2.
Proof.
  revert old. induction changes as [|c rest IH]; intros old Hs Hr; [by left|].
  rewrite merge_changes_cons in Hr by done. rewrite !elem_of_app in Hr.
  destruct Hr as [[_ Hr]%list_elem_of_filter|[Hr|Hr]]; [by left | right |].
  - exists c. destruct (ch_value c) as [v|] eqn:Ev; [|by apply not_elem_of_nil in Hr].
    apply list_elem_of_singleton in Hr as ->. split; [by left | done].
  - apply IH in Hr as [[_ Hr]%list_elem_of_filter|(c' & Hc & Hc')];
      [by left | right; exists c'; split; [by right | done] | by apply sorted_recs_filter].
Qed.

Lemma merge_sorted changes old :
  sorted_changes changes -> sorted_recs old -> sorted_recs (merge_changes old changes).
Proof.
  revert old. induction changes as [|c rest IH]; intros old Hc Hs; [done|].
  apply sorted_changes_cons in Hc as [Hf Hc]. rewrite merge_changes_cons by done.
  set (above := base.filter (fun r : Rec => key_lt (ch_id c) r.1) old).
  assert (forall r, r ∈ merge_changes above rest -> key_lt (ch_id c) r.1) as Habove.
  { intros r [[? _]%list_elem_of_filter|(c' & Hc' & <- & _)]%merge_elem;
      [done | rewrite Forall_forall in Hf; by apply Hf | by apply sorted_recs_filter]. }
  apply sorted_recs_app. split_and!.
  - intros r1 r2 [Hr1 _]%list_elem_of_filter Hr2. destruct (ch_value c) as [v|]; simpl in Hr2.
    + apply elem_of_cons in Hr2 as [->|Hr2]; [done|]. transitivity (ch_id c); auto.
    + transitivity (ch_id c); auto.
  - by apply sorted_recs_filter.
  - destruct (ch_value c) as [v|]; simpl.
    + apply sorted_recs_cons. split; [by apply Forall_forall|].
      apply IH; [done | by apply sorted_recs_filter].
    + apply IH; [done | by apply sorted_recs_filter].
Qed.

Lemma alookup_filter (P : Rec -> Prop) `{!forall x, Decision (P x)} (b : bool) id (l : list Rec) :
  (forall v, P (id, v) <-> b = true) ->
  alookup id (base.filter P l) = if b then alookup id l else None.
Proof.
  intros Hb. induction l as [|[k v] l IH]; [by destruct b|].
  rewrite filter_cons. rewrite (alookup_cons id k v l).
  destruct (decide (id = k)) as [->|Hne].
  - destruct (decide (P (k, v))) as [Hp|Hp]; [rewrite alookup_cons, decide_True by done|].
    + apply Hb in Hp as ->. done.
    + rewrite IH. destruct b; [|done]. exfalso. by apply Hp, Hb.
  - destruct (decide (P (k, v))); [rewrite alookup_cons, decide_False by done|]; apply IH.
Qed.

Lemma change_of_above id changes :
  Forall (fun x => key_lt id (ch_id x)) changes -> change_of id changes = None.
Proof.
  induction 1 as [|c l Hc Hl IH]; simpl; [done|]. rewrite decide_False; [done|].
  intros ->. by apply key_lt_irrefl in Hc.
Qed.

(** Merging is what the changes say, id by id. *)
Lemma merge_lookup id changes old :
  sorted_changes changes -> sorted_recs old ->
  alookup id (merge_changes old changes) =
  match change_of id changes with Some v => v | None => alookup id old end.
Proof.
  revert old. induction changes as [|c rest IH]; intros old Hc Hs; [done|].
  apply sorted_changes_cons in Hc as [Hf Hc]. rewrite merge_changes_cons by done.
  rewrite !alookup_app, (alookup_filter _ (key_ltb id (ch_id c))) by done.
  rewrite IH by (done || by apply sorted_recs_filter).
  rewrite (alookup_filter _ (key_ltb (ch_id c) id)) by done. cbn [change_of].
  destruct (decide (id = ch_id c)) as [->|Hne].
  - rewrite key_irrefl. rewrite (change_of_above _ rest) by done.
    destruct (ch_value c); [by rewrite alookup_cons, decide_True | done].
  - assert (alookup id match ch_value c with Some v => [(ch_id c, v)] | None => [] end = None) as ->.
    { destruct (ch_value c); [by rewrite alookup_cons, decide_False | done]. }
    destruct (key_trichotomy id (ch_id c)) as [Hlt|[?|Hlt]]; [|done|].
    + rewrite change_of_above.
      2:{ eapply Forall_impl; [exact Hf|]. intros x ?. by transitivity (ch_id c). }
      rewrite (key_lt_asym _ _ Hlt). unfold key_lt in Hlt. rewrite Hlt. by destruct (alookup id old).
    + rewrite (key_lt_asym _ _ Hlt). unfold key_lt in Hlt. by rewrite Hlt.
Qed.

Lemma change_of_filter (P : Change -> Prop) `{!forall x, Decision (P x)} (b : bool) id changes :
  (forall v, P (mkChange id v) <-> b = true) ->
  change_of id (base.filter P changes) = if b then change_of id changes else None.
Proof.
  intros Hb. induction changes as [|[k v] l IH]; [by destruct b|].
  rewrite filter_cons. cbn [change_of ch_id ch_value].
  destruct (decide (id = k)) as [->|Hne].
  - destruct (decide (P _)) as [Hp|Hp]; cbn [change_of ch_id].
    + apply Hb in Hp as ->. by rewrite decide_True.
    + rewrite IH. destruct b; [|done]. exfalso. by apply Hp, Hb.
  - destruct (decide (P _)); cbn [change_of ch_id]; [rewrite decide_False by done|]; apply IH.
Qed.

Lemma sorted_changes_filter (P : Change -> Prop) `{!forall x, Decision (P x)} changes :
  sorted_changes changes -> sorted_changes (base.filter P changes).
Proof.
  induction changes as [|c l IH]; intros Hs; [done|]. apply sorted_changes_cons in Hs as [Hf Hs].
  rewrite filter_cons. destruct (decide _); [|by apply IH]. apply sorted_changes_cons.
  split; [|by apply IH]. rewrite Forall_forall in *. intros x [_ Hx]%list_elem_of_filter. auto.
Qed.

(** Merging commutes with taking what is under a byte. *)
Lemma under_merge d b changes old :
  sorted_changes changes -> sorted_recs old ->
  under d b (merge_changes old changes) =
  merge_changes (under d b old) (at_byte ch_id d b changes).
Proof.
  intros Hc Hs.
  assert (sorted_changes (at_byte ch_id d b changes)) by (by apply sorted_changes_filter).
  assert (sorted_recs (under d b old)) by (by apply sorted_recs_filter).
  apply sorted_recs_ext.
  - by apply sorted_recs_filter, merge_sorted.
  - by apply merge_sorted.
  - intros id. rewrite merge_lookup by done. unfold under, at_byte.
    rewrite !(alookup_filter _ (bool_decide (id_byte d id = b)))
      by (intros; by rewrite bool_decide_eq_true).
    rewrite (change_of_filter _ (bool_decide (id_byte d id = b)))
      by (intros; by rewrite bool_decide_eq_true).
    rewrite merge_lookup by done. by destruct (bool_decide _).
Qed.

(** ** Loading *)

Lemma locates_unique `{Sha256} rd c n n' : locates rd c n -> locates rd c n' -> n = n'.
Proof.
  unfold locates. destruct (decide _); [congruence|].
  intros (_ & _ & _ & bs & Hb & Hd) (_ & _ & _ & bs' & Hb' & Hd'). congruence.
Qed.

(** Everything one file reads, the other reads too. *)
Definition reads_all (rd rd' : Z -> result Bytes) : Prop :=
  forall o q, rd o = Ok q -> rd' o = Ok q.

#[global] Instance reads_all_preorder : PreOrder reads_all.
Proof. split; [by intros rd o q | intros a b c Hab Hbc o q Hq; by apply Hbc, Hab]. Qed.

(** [load_from], for a reader of no more than the generation's file: a
    snapshot's reader ends where the file did when it was taken, and the cache
    may hold nodes saved since. *)
Lemma load_from_ok `{Sha256, Footprint} world rd g cache k c records :
  reads_all rd (world g) -> cache_ok world cache -> Repr rd k c records -> records <> [] ->
  exists n cache', load_from rd g false c cache = (Ok n, cache') /\ NodeRepr rd k n records /\
    locates rd c n /\ cache_ok world cache'.
Proof.
  intros Hread Hcache HR Hne. pose proof (Repr_empty _ _ _ _ HR) as Hemp.
  rewrite bool_decide_eq_false_2 in Hemp by done.
  apply Repr_cons in HR as (Hcount & Hhash & n & Hloc & HN); [|done].
  exists n. unfold load_from. pose proof Hloc as Hloc'. unfold locates in Hloc'.
  destruct (decide (c_offset c = unsaved)) as [Eoff|Eoff].
  { rewrite Hloc'. by exists cache. }
  destruct Hloc' as (_ & _ & [Hnode|Hnode] & bs & Hb & Hd); rewrite Hnode; [|by exists cache].
  rewrite Hemp, (proj2 (Z.eqb_neq _ _) Eoff). cbn [orb].
  unfold NodeCache.find, mbind, st_bind at 1. pose proof (Hread _ _ Hb) as Hw.
  destruct (NodeCache.entries cache !! (g, c_offset c)) as [[n' b]|] eqn:E.
  - destruct (Hcache _ _ _ _ E) as (bs' & Hb' & Hd'). assert (n' = n) as -> by congruence.
    eexists. split_and!; [reflexivity | done..].
  - unfold st_lift, st_bind. rewrite Hb. cbn. rewrite Hd.
    pose proof HN as (_ & Hc & Hh & _).
    rewrite bool_decide_eq_true_2 by congruence. rewrite Hc, Hcount, Z.eqb_refl. cbn [negb orb].
    destruct (NodeCache.insert _ _ _ _ _) as [r cache'] eqn:Ei.
    assert (r = Ok tt) as ->.
    { unfold NodeCache.insert in Ei. cbn -[NodeCache.evict] in Ei. rewrite E in Ei. by injection Ei. }
    exists cache'. split_and!; [done..|].
    replace cache' with (NodeCache.insert g (c_offset c) n (footprint n) cache).2 by (by rewrite Ei).
    by eapply cache_insert_ok.
Qed.

Section core.
Context `{Sha256, Footprint} {F : Type} `{FrameStore F} (world : World) (g : Z) (nodes : F).
#[local] Abbreviation rd := (world g).

(** The node file is generation [g]'s, and the cache agrees with every
    file. *)
Definition core_ok (s : Core) : Prop :=
  co_generation s = g /\ co_nodes s = nodes /\ fs_read_at nodes = rd /\ co_format1 s = false /\
  cache_ok world (co_cache s).

#[global] Instance core_loader : TrieLoader rd load core_ok.
Proof.
  intros k c records s (Hg & Hn & Hread & Hf1 & Hcache) HR Hne.
  destruct (load_from_ok world rd g (co_cache s) k c records)
    as (n & cache' & Hl & HN & Hloc & Hc'); [done..|].
  eexists n, _. unfold load. rewrite Hf1, Hg, Hn, Hread, Hl. split_and!; [reflexivity | done..|].
  by split_and!.
Qed.

Lemma supersede_ok c s : core_ok s -> exists s', supersede c s = (Ok tt, s') /\ core_ok s'.
Proof.
  intros HI. unfold supersede. destruct (_ =? _); eexists; (split; [reflexivity|]); [done|].
  destruct HI as (? & ? & ? & ? & ?). by split_and!.
Qed.

(** The slots of a level gathered in turn. *)
Lemma gather_slots_of k fuel cs out sup records s :
  (forall c out records s, core_ok s -> wf_recs k records -> Repr rd k c records ->
     exists s', gather fuel c out sup s = (Ok (out ++ records), s') /\ core_ok s') ->
  core_ok s -> wf_recs (S k) records -> Slots rd k cs records ->
  exists s', foldM (fun out below => gather fuel below out sup) out cs s = (Ok (out ++ records), s') /\
    core_ok s'.
Proof.
  intros Hg HI Hwf [Hl HS]. set (d := (32 - S k)%nat) in *.
  destruct (foldM_slots (fun i o s =>
      o = out ++ flat_map (fun i => under d (n2b i) records) (seq 0 i) /\ core_ok s)
    (fun out below => gather fuel below out sup) cs out s) as (o & s3 & Hfold & -> & HI3).
  - done.
  - split; [|done]. by rewrite app_nil_r.
  - intros i o s3 Hi [-> HI3].
    destruct (Hg _ (out ++ flat_map (fun i => under d (n2b i) records) (seq 0 i))
      _ s3 HI3 (wf_under k (n2b i) records Hwf) (HS _ Hi)) as (s4 & -> & HI4).
    eexists _, s4. split; [reflexivity|]. split; [|done].
    rewrite seq_S, flat_map_app. cbn [flat_map Nat.add]. by rewrite app_nil_r, app_assoc.
  - exists s3. split; [|done]. rewrite Hfold. do 3 f_equal. by apply under_partition.
Qed.

(** [gather] appends the records of a subtree. *)
Lemma gather_ok k fuel c out sup records s :
  (k <= fuel)%nat -> core_ok s -> wf_recs k records -> Repr rd k c records ->
  exists s', gather fuel c out sup s = (Ok (out ++ records), s') /\ core_ok s'.
Proof.
  revert fuel c out records s. induction k as [|k IH]; intros fuel c out records s Hf HI Hwf HR;
    (destruct (decide (records = [])) as [->|Hne];
     [exists s; split; [|done]; destruct fuel; cbn [gather];
      rewrite (Repr_empty _ _ _ _ HR), app_nil_r; done|]);
    destruct (loader_ok _ _ _ _ HI HR Hne) as (n & s1 & Hld & HN & _ & HI1);
    (assert (exists s2, (if sup then supersede c else mret tt) s1 = (Ok tt, s2) /\ core_ok s2)
      as (s2 & Hsup & HI2) by (destruct sup; [by apply supersede_ok | by exists s1]));
    (assert (gather fuel c out sup s =
       if n_leaf n then (Ok (out ++ n_records n), s2)
       else match fuel with
            | O => (Throw too_deep, s2)
            | S f => foldM (fun out below => gather f below out sup) out (n_children n) s2
            end) as ->
      by (destruct fuel; cbn [gather]; rewrite (Repr_empty _ _ _ _ HR), bool_decide_eq_false_2 by done;
          rewrite (st_bind_ok _ _ _ _ _ Hld), (st_bind_ok _ _ _ _ _ Hsup); by destruct (n_leaf n)));
    (destruct (n_leaf n) eqn:Hleaf;
     [destruct (NodeRepr_leaf_inv _ _ _ _ HN Hleaf) as [-> _]; by exists s2 |]);
    destruct (NodeRepr_interior_inv _ _ _ _ Hwf HN Hleaf) as (k' & Ek & HS & _); [done|].
  injection Ek as <-. destruct fuel as [|fuel]; [lia|].
  apply (gather_slots_of k); [|done..]. intros. apply IH; [lia | done..].
Qed.

Lemma gather_slots k fuel cs out sup records s :
  (k <= fuel)%nat -> core_ok s -> wf_recs (S k) records -> Slots rd k cs records ->
  exists s', foldM (fun out below => gather fuel below out sup) out cs s = (Ok (out ++ records), s') /\
    core_ok s'.
Proof. intros Hf. apply gather_slots_of. intros. by apply (gather_ok k). Qed.

(** ** Mutation *)

(** Every slot changed in turn: the slots hold the merged records. *)
Lemma mutate_slots k (children : list Child) changes records s :
  (forall c changes records s, core_ok s -> wf_recs k records -> wf_recs k (merge_changes records changes) ->
     sorted_changes changes -> share ch_id (32 - k) changes -> Repr rd k c records ->
     exists c' s', mutate k c changes s = (Ok c', s') /\ core_ok s' /\
       Repr rd k c' (merge_changes records changes)) ->
  core_ok s -> wf_recs (S k) records -> wf_recs (S k) (merge_changes records changes) ->
  sorted_changes changes -> share ch_id (32 - S k) changes -> Slots rd k children records ->
  exists children' s',
    foldM (fun children '(b, part) =>
        c ← mutate k (nth (b2n b) children no_child) part; mret (<[b2n b := c]> children))
      children (runs (fun c => id_byte (32 - S k) (ch_id c)) changes) s = (Ok children', s') /\
    core_ok s' /\ Slots rd k children' (merge_changes records changes).
Proof.
  intros Hmut HI Hwf Hwf' Hs Hsh [Hl HS]. set (d := (32 - S k)%nat) in *.
  assert (d < 32)%nat as Hd by (unfold d; lia).
  destruct (runs_spec ch_id d changes) as [Hnd Hin]; [by apply sorted_byte_sorted|].
  set (rs := runs _ changes) in *.
  destruct (foldM_inv (fun (done : list (byte * list Change)) cs s => core_ok s /\
      length cs = 256%nat /\ forall i, (i < 256)%nat -> Repr rd k (nth i cs no_child)
        (under d (n2b i) (if decide (n2b i ∈ done.*1) then merge_changes records changes else records)))
    (fun children '(b, part) =>
        c ← mutate k (nth (b2n b) children no_child) part; mret (<[b2n b := c]> children))
    rs children s) as (cs & s' & Hfold & HI' & Hl' & HS').
  - split_and!; [done..|]. intros i Hi. rewrite decide_False by apply not_elem_of_nil. by apply HS.
  - intros done_ [b part] rest cs s1 Ers (HI1 & Hl1 & HS1).
    assert (part = at_byte ch_id d b changes /\ part <> []) as [-> Hne].
    { apply Hin. rewrite Ers. apply elem_of_app. right. by left. }
    assert (b ∉ done_.*1) as Hb.
    { rewrite Ers, fmap_app, fmap_cons in Hnd. apply NoDup_app in Hnd as (_ & Hdis & _).
      intros Hb. apply (Hdis b Hb). by left. }
    pose proof (HS1 (b2n b) (b2n_lt b)) as HRb. rewrite n2b_b2n, decide_False in HRb by done.
    destruct (Hmut (nth (b2n b) cs no_child) (at_byte ch_id d b changes) _ s1 HI1 (wf_under k b records Hwf)) as (c & s2 & Hm & HI2 & HR2).
    + fold d. rewrite <- under_merge by (done || apply Hwf). by apply wf_under.
    + by apply sorted_changes_filter.
    + pose proof (wf_level _ _ Hwf). replace (32 - k)%nat with (S d) by (unfold d; lia).
      by apply share_at_byte.
    + exact HRb.
    + rewrite (st_bind_ok _ _ _ _ _ Hm). eexists _, s2. split; [reflexivity|].
      split_and!; [done | by rewrite length_insert |]. intros i Hi.
      rewrite fmap_app. cbn [fmap list_fmap fst]. destruct (decide (b2n b = i)) as [<-|Hbi].
      * rewrite n2b_b2n, decide_True by (apply elem_of_app; right; by left). rewrite nth_insert_eq by (rewrite Hl1; apply b2n_lt).
        rewrite under_merge by (done || apply Hwf). done.
      * rewrite nth_insert_ne by done. specialize (HS1 i Hi).
        assert (n2b i <> b) by (intros <-; apply Hbi; by apply b2n_n2b).
        
        rewrite (decide_ext _ (n2b i ∈ done_.*1)); [done|].
        rewrite elem_of_app, list_elem_of_singleton. tauto.
  - exists cs, s'. split_and!; [done..|]. split; [done|]. intros i Hi. specialize (HS' i Hi).
    destruct (decide (n2b i ∈ rs.*1)) as [|Hni]; [done|].
    fold d. rewrite under_merge by (done || apply Hwf).
    assert (at_byte ch_id d (n2b i) changes = []) as ->; [|done].
    destruct (decide (at_byte ch_id d (n2b i) changes = [])) as [|Hne]; [done|]. exfalso. apply Hni.
    apply list_elem_of_fmap. exists (n2b i, at_byte ch_id d (n2b i) changes). split; [done|]. by apply Hin.
Qed.

Lemma mutate_empty_eq k c changes s :
  changes <> [] -> c_empty c = true ->
  mutate k c changes s = (build k (merge_changes [] changes), s).
Proof. intros Hne He. destruct k, changes; try done; cbn [mutate]; by rewrite He. Qed.

Lemma mutate_leaf_eq k c changes s n s1 s2 :
  changes <> [] -> c_empty c = false -> load c s = (Ok n, s1) -> supersede c s1 = (Ok tt, s2) ->
  n_leaf n = true -> mutate k c changes s = (build k (merge_changes (n_records n) changes), s2).
Proof.
  intros Hne He Hld Hsup Hleaf. destruct k, changes; try done; cbn [mutate];
    rewrite He, (st_bind_ok _ _ _ (Some n) s1) by (by rewrite (st_bind_ok _ _ _ _ _ Hld));
    by rewrite Hleaf, (st_bind_ok _ _ _ _ _ Hsup).
Qed.

Lemma mutate_interior_eq k c changes s n s1 s2 :
  changes <> [] -> c_empty c = false -> load c s = (Ok n, s1) -> supersede c s1 = (Ok tt, s2) ->
  n_leaf n = false ->
  mutate (S k) c changes s =
  (children ← foldM (fun children '(b, part) =>
       c ← mutate k (nth (b2n b) children no_child) part; mret (<[b2n b := c]> children))
     (n_children n) (runs (fun c => id_byte (32 - S k) (ch_id c)) changes);
   if sum_u64 (c_count <$> children) <=? leaf_max then
     all ← foldM (fun all below => gather k below all true) [] children; st_lift (build (S k) all)
   else st_lift (n' ← make_interior (32 - S k) children; Ok (child_of n'))) s2.
Proof.
  intros Hne He Hld Hsup Hleaf. destruct changes; [done|]. cbn [mutate].
  rewrite He, (st_bind_ok _ _ _ (Some n) s1) by (by rewrite (st_bind_ok _ _ _ _ _ Hld)).
  by rewrite Hleaf, (st_bind_ok _ _ _ _ _ Hsup).
Qed.

(** Applying changes to the trie of some records gives the trie of the merged
    records. *)
Lemma mutate_ok k c changes records s :
  core_ok s -> wf_recs k records -> wf_recs k (merge_changes records changes) ->
  sorted_changes changes -> share ch_id (32 - k) changes -> Repr rd k c records ->
  exists c' s', mutate k c changes s = (Ok c', s') /\ core_ok s' /\
    Repr rd k c' (merge_changes records changes).
Proof.
  revert c changes records s. induction k as [|k IH]; intros c changes records s HI Hwf Hwf' Hs Hsh HR;
    (destruct (decide (changes = [])) as [->|Hne]; [by exists c, s|]);
    destruct (build_ok rd _ _ Hwf') as (built & Hb & HRb);
    pose proof (Repr_empty _ _ _ _ HR) as Hemp;
    (destruct (decide (records = [])) as [->|Hner];
     [exists built, s; by rewrite mutate_empty_eq, Hb|]);
    rewrite bool_decide_eq_false_2 in Hemp by done;
    destruct (loader_ok _ _ _ _ HI HR Hner) as (n & s1 & Hld & HN & _ & HI1);
    destruct (supersede_ok c s1 HI1) as (s2 & Hsup & HI2);
    (destruct (n_leaf n) eqn:Hleaf;
     [destruct (NodeRepr_leaf_inv _ _ _ _ HN Hleaf) as [Er _]; exists built, s2;
      by rewrite (mutate_leaf_eq _ _ _ _ n s1 s2), Er, Hb |]);
    destruct (NodeRepr_interior_inv _ _ _ _ Hwf HN Hleaf) as (k' & Ek & HS & _); [done|].
  injection Ek as <-.
  destruct (mutate_slots k (n_children n) changes records s2 IH HI2 Hwf Hwf' Hs Hsh HS)
    as (cs & s3 & Hfold & HI3 & HS3).
  rewrite (mutate_interior_eq k c changes s n s1 s2) by done.
  rewrite (st_bind_ok _ _ _ _ _ Hfold), (Slots_counts rd k cs _ Hwf' HS3).
  destruct (Z.leb_spec (Z.of_nat (length (merge_changes records changes))) leaf_max) as [Hle|Hgt].
  - destruct (gather_slots k k cs [] true _ s3 (Nat.le_refl k) HI3 Hwf' HS3) as (s4 & Hg & HI4).
    rewrite (st_bind_ok _ _ _ _ _ Hg). exists built, s4. unfold st_lift. by rewrite app_nil_l, Hb.
  - destruct (make_interior_ok rd k cs _ Hwf' Hgt HS3) as (n' & Hn' & HN' & _).
    exists (child_of n'), s3. unfold st_lift. rewrite Hn'. split_and!; [done..|].
    apply child_of_ok; [|done]. intros E. unfold leaf_max in Hgt. rewrite E in Hgt. simpl in Hgt. lia.
Qed.

End core.
