(* ===== verification/TrieDisk.v ===== *)
(** * The trie on disk

    [ObjectTrie::encode], [decode] and [save]: a node decodes to itself, and
    saving a trie leaves one on disk that holds the same records, every node
    of it found at the offset its parent names. *)

From S2P Require Import Prelude Codec Journal Trie TrieShape TrieOps TrieChange.

(** ** Readers that end the input *)

Definition finishes {A} (p : Reader.prog A) (e : Bytes) (a : A) : Prop :=
  forall pre, p (Reader.mk (pre ++ e) (length pre)) =
    Ok (a, Reader.mk (pre ++ e) (length (pre ++ e))).

Section finishes.
Lemma finishes_bind {A B} (p : Reader.prog A) (k : A -> Reader.prog B) e1 e2 a b :
  reads p e1 a -> finishes (k a) e2 b -> finishes (p ≫= k) (e1 ++ e2) b.
Proof.
  intros Hp Hk pre. unfold mbind, Reader.prog_bind. rewrite Hp.
  specialize (Hk (pre ++ e1)). rewrite <- !app_assoc in Hk. exact Hk.
Qed.

Lemma finishes_finish {B} (k : Reader.prog B) b :
  finishes k [] b -> finishes (_ ← Reader.finish; k) [] b.
Proof.
  intros Hk pre. unfold mbind, Reader.prog_bind, Reader.finish. rewrite app_nil_r. simpl.
  rewrite Nat.eqb_refl. specialize (Hk pre). rewrite app_nil_r in Hk. done.
Qed.

Lemma finishes_ret {A} (a : A) : finishes (mret a) [] a.
Proof. intros pre. by rewrite app_nil_r. Qed.

Lemma finishes_checked {A} (r : result A) a : r = Ok a -> finishes (checked r) [] a.
Proof. intros -> pre. by rewrite app_nil_r. Qed.

Lemma finishes_checked_bind {A B} (r : result A) (k : A -> Reader.prog B) a b :
  r = Ok a -> finishes (k a) [] b -> finishes (checked r ≫= k) [] b.
Proof. intros -> Hk pre. specialize (Hk pre). unfold mbind, Reader.prog_bind, checked. done. Qed.

Lemma finishes_run {A} (p : Reader.prog A) e a : finishes p e a -> Reader.run p e = Ok a.
Proof. intros H. unfold Reader.run. specialize (H []). simpl in H. by rewrite H. Qed.
End finishes.

(** ** Leaves *)

Section disk.
Context `{Sha256}.

Definition leaf_enc (depth : nat) (records : list Rec) : Bytes :=
  be_bytes 1 kind_leaf ++ be_bytes 1 (Z.of_nat depth) ++
  be_bytes 4 (Z.of_nat (length records)) ++ flat_map rec_bytes records.

Lemma reads_records records last :
  Forall (fun r : Rec => Z.of_nat (length r.2) <= value_max) records -> sorted_recs records ->
  (forall l r, last = Some l -> r ∈ records -> key_lt l r.1) ->
  reads (read_records (length records) last) (flat_map rec_bytes records) records.
Proof.
  revert last. induction records as [|[id v] records IH]; intros last Hv Hs Hlast; [apply reads_ret|].
  apply Forall_cons in Hv as [Hv1 Hv]. apply sorted_recs_cons in Hs as [Hf Hs]. simpl in Hv1.
  cbn [length read_records flat_map]. unfold rec_bytes at 1. cbn [fst snd]. rewrite <- !app_assoc.
  eapply reads_bind; [apply reads_fixed|].
  eapply reads_bind; [apply reads_bytes; unfold value_max, u32_max in *; lia|].
  replace (match last with Some l => negb (key_ltb l id) | None => false end) with false.
  2:{ destruct last as [l|]; [|done]. specialize (Hlast l (id, v) eq_refl ltac:(by left)).
      unfold key_lt in Hlast. cbn [fst] in Hlast. by rewrite Hlast. }
  apply (reads_map _ (cons (id, v))). apply IH; [done..|].
  intros l r [= <-] Hr. rewrite Forall_forall in Hf. by apply Hf.
Qed.

Lemma decode_leaf depth records :
  (depth < 32)%nat -> records <> [] -> Z.of_nat (length records) <= leaf_max ->
  Forall (fun r : Rec => Z.of_nat (length r.2) <= value_max) records -> sorted_recs records ->
  decode (leaf_enc depth records) false = make_leaf depth records.
Proof.
  intros Hd Hne Hle Hv Hs. unfold leaf_max in Hle.
  assert (exists n, make_leaf depth records = Ok n) as [n Hn].
  { unfold make_leaf. rewrite leaf_hash_ok by done. by eexists. }
  assert (0 < Z.of_nat (length records)) by (destruct records; [done | simpl; lia]).
  rewrite Hn. apply finishes_run. unfold leaf_enc.
  eapply finishes_bind; [apply reads_u8; unfold kind_leaf; lia|].
  eapply finishes_bind; [apply reads_u8; lia|].
  rewrite (proj2 (Z.leb_gt 32 _)) by lia. cbn [kind_leaf Z.eqb Pos.eqb].
  eapply finishes_bind; [apply reads_u32; lia|].
  rewrite (proj2 (Z.eqb_neq _ 0)), (proj2 (Z.ltb_ge leaf_max _)) by (unfold leaf_max; lia).
  cbn [orb]. rewrite !Nat2Z.id. rewrite <- (app_nil_r (flat_map _ _)).
  eapply finishes_bind; [by apply reads_records|].
  by apply finishes_finish, finishes_checked.
Qed.

(** ** Refused input *)

(** [throws p e x]: reading from [e] the program throws [x]. *)
Definition throws {A} (p : Reader.prog A) (e : Bytes) (x : exn) : Prop :=
  forall pre, p (Reader.mk (pre ++ e) (length pre)) = Throw x.

Lemma throws_run {A} (p : Reader.prog A) e x : throws p e x -> Reader.run p e = Throw x.
Proof. intros Ht. unfold Reader.run. specialize (Ht []). cbn [app length] in Ht. by rewrite Ht. Qed.

Lemma throws_throw {A} e x : throws (Reader.throw (A := A) x) e x.
Proof. done. Qed.

Lemma throws_bind {A B} (p : Reader.prog A) (k : A -> Reader.prog B) e1 e2 a x :
  reads p e1 a -> throws (k a) e2 x -> throws (p ≫= k) (e1 ++ e2) x.
Proof.
  intros Hp Hk pre. unfold mbind, Reader.prog_bind. rewrite (Hp pre e2). specialize (Hk (pre ++ e1)).
  by rewrite <- app_assoc in Hk.
Qed.

Lemma throws_first {A B} (p : Reader.prog A) (k : A -> Reader.prog B) e x :
  throws p e x -> throws (p ≫= k) e x.
Proof. intros Hp pre. unfold mbind, Reader.prog_bind. by rewrite Hp. Qed.

(** ** Interior nodes *)

(** A slot as it is written: empty, or saved with its node dropped. *)
Definition slot_saved (c : Child) : Prop :=
  c = no_child \/
  (0 < c_count c < 2 ^ 64 /\ 0 <= c_offset c < unsaved /\ 0 <= c_size c < 2 ^ 32 /\ c_node c = None).

Definition child_bytes (c : Child) : Bytes :=
  if c_empty c then []
  else be_bytes 8 (c_offset c) ++ be_bytes 4 (c_size c) ++ be_bytes 8 (c_count c) ++ abytes (c_hash c).

Lemma present_step bits i j :
  length bits = 32%nat -> (i < 256)%nat -> (j < 256)%nat ->
  Z.testbit (b2z (nth (j / 8) (<[(i / 8)%nat :=
    z2b (Z.lor (b2z (nth (i / 8) bits x00)) (Z.shiftl 1 (Z.of_nat (i mod 8))))]> bits) x00))
    (Z.of_nat (j mod 8)) =
  Z.testbit (b2z (nth (j / 8) bits x00)) (Z.of_nat (j mod 8)) || (i =? j)%nat.
Proof.
  intros Hl Hi Hj. pose proof (Nat.mod_upper_bound i 8 ltac:(lia)) as Hmi.
  pose proof (Nat.mod_upper_bound j 8 ltac:(lia)) as Hmj.
  pose proof (Nat.div_mod i 8 ltac:(lia)) as Ei. pose proof (Nat.div_mod j 8 ltac:(lia)) as Ej.
  destruct (decide (i / 8 = j / 8)%nat) as [E|E].
  - rewrite <- E. rewrite nth_insert_eq by (rewrite Hl; lia).
    rewrite b2z_z2b. change 256 with (2 ^ 8). rewrite Z.mod_pow2_bits_low by lia.
    rewrite Z.lor_spec, Z.shiftl_1_l, Z.pow2_bits_eqb by lia. f_equal.
    destruct (Nat.eqb_spec i j) as [->|]; [apply Z.eqb_refl | apply Z.eqb_neq; lia].
  - rewrite nth_insert_ne by done. rewrite (proj2 (Nat.eqb_neq i j)) by congruence.
    by rewrite orb_false_r.
Qed.

Lemma length_present_bits children : length (present_bits children) = 32%nat.
Proof.
  unfold present_bits. assert (length (replicate 32 x00) = 32%nat) as Hl by done.
  revert Hl. generalize (replicate 32 x00).
  generalize (seq 0 256). intros l. induction l as [|i l IH]; intros bits Hl; cbn [foldl]; [done|].
  apply IH. destruct (c_empty _); [done|]. by rewrite length_insert.
Qed.

(** A bit of the bitmap is set for a slot exactly when the slot is not
    empty. *)
Lemma present_bits_spec children (a : array 32) i :
  abytes a = present_bits children -> (i < 256)%nat ->
  slot_present a i = negb (c_empty (nth i children no_child)).
Proof.
  intros Ha Hi. unfold slot_present, abyte. rewrite Ha.
  assert (forall x m, 0 <= m -> negb (Z.land x (Z.shiftl 1 m) =? 0) = Z.testbit x m) as Hland.
  { intros x m Hm. destruct (Z.testbit x m) eqn:Et.
    - apply negb_true_iff, Z.eqb_neq. intros E. apply (f_equal (fun z => Z.testbit z m)) in E.
      rewrite Z.land_spec, Z.shiftl_1_l, Z.pow2_bits_true, Et, Z.bits_0 in E by done. done.
    - apply negb_false_iff, Z.eqb_eq, Z.bits_inj'. intros n Hn.
      rewrite Z.land_spec, Z.shiftl_1_l, Z.pow2_bits_eqb, Z.bits_0 by done.
      destruct (Z.eqb_spec m n) as [<-|]; [by rewrite Et | by rewrite andb_false_r]. }
  rewrite Hland by lia. clear Hland Ha.
  assert (forall n, (n <= 256)%nat ->
    let bits := foldl (fun bits i => if c_empty (nth i children no_child) then bits
      else <[(i / 8)%nat := z2b (Z.lor (b2z (nth (i / 8) bits x00)) (Z.shiftl 1 (Z.of_nat (i mod 8))))]> bits)
      (replicate 32 x00) (seq 0 n) in
    length bits = 32%nat /\
    Z.testbit (b2z (nth (i / 8) bits x00)) (Z.of_nat (i mod 8)) =
    (i <? n)%nat && negb (c_empty (nth i children no_child))) as Hgen.
  { induction n as [|n IH]; intros Hn.
    - split; [done|]. cbn [seq foldl]. rewrite nth_replicate. change (b2z x00) with 0.
      by rewrite Z.bits_0.
    - destruct (IH ltac:(lia)) as [Hl Hbit]. rewrite seq_S, foldl_app. cbn [foldl Nat.add].
      destruct (c_empty (nth n children no_child)) eqn:En.
      + split; [done|]. rewrite Hbit.
        destruct (Nat.ltb_spec i n), (Nat.ltb_spec i (S n)); try done; try lia.
        assert (i = n) as -> by lia. by rewrite En.
      + split; [by rewrite length_insert|]. rewrite present_step by (done || lia). rewrite Hbit.
        destruct (Nat.ltb_spec i n), (Nat.ltb_spec i (S n)), (Nat.eqb_spec n i); try lia; simpl;
          try done; subst; rewrite ?En; try done. by rewrite orb_false_r. }
  destruct (Hgen 256%nat ltac:(lia)) as [_ E]. unfold present_bits. rewrite E.
  by rewrite (proj2 (Nat.ltb_lt i 256)).
Qed.

Definition interior_enc (depth : nat) (children : list Child) : Bytes :=
  be_bytes 1 kind_interior ++ be_bytes 1 (Z.of_nat depth) ++ present_bits children ++
  flat_map child_bytes children.

Lemma slot_saved_empty c : slot_saved c -> c_empty c = true -> c = no_child.
Proof.
  intros [->|(Hc & _)] He; [done|]. unfold c_empty in He. apply Z.eqb_eq in He. lia.
Qed.

Lemma reads_child c :
  slot_saved c -> c_empty c = false -> reads read_child (child_bytes c) c.
Proof.
  intros [->|(Hc & Ho & Hz & Hn)] He; [done|]. unfold child_bytes, read_child. rewrite He.
  eapply reads_bind; [apply reads_u64; unfold unsaved in Ho; lia|].
  eapply reads_bind; [by apply reads_u32|].
  eapply reads_bind; [apply reads_u64; lia|].
  rewrite <- (app_nil_r (abytes _)). eapply reads_bind; [apply reads_fixed|].
  rewrite (proj2 (Z.eqb_neq (c_offset c) unsaved)), (proj2 (Z.eqb_neq (c_count c) 0)) by lia.
  cbn [orb]. destruct c as [o z n h nd]. simpl in *. subst nd. apply reads_ret.
Qed.

Lemma reads_children present (children : list Child) slots :
  Forall slot_saved children -> length children = 256%nat ->
  (forall i, i ∈ slots -> (i < 256)%nat /\
     slot_present present i = negb (c_empty (nth i children no_child))) ->
  reads (read_children present slots)
    (flat_map child_bytes ((fun i => nth i children no_child) <$> slots))
    ((fun i => nth i children no_child) <$> slots).
Proof.
  intros Hs Hl. induction slots as [|i slots IH]; intros Hp; [apply reads_ret|].
  rewrite fmap_cons. cbn [read_children flat_map]. set (c := nth i children no_child).
  destruct (Hp i ltac:(by left)) as [Hi ->]. fold c.
  assert (slot_saved c) as Hc.
  { rewrite Forall_forall in Hs. apply Hs. unfold c. rewrite nth_lookup.
    destruct (lookup_lt_is_Some_2 children i) as [x Hx]; [lia|]. rewrite Hx.
    by eapply list_elem_of_lookup_2. }
  apply (reads_bind _ _ _ _ c).
  - destruct (c_empty c) eqn:He; cbn [negb]; [|by apply reads_child].
    rewrite (slot_saved_empty c Hc He). apply reads_ret.
  - apply (reads_map _ (cons c)). apply IH. intros j Hj. apply Hp. by right.
Qed.

Lemma decode_interior depth children n :
  (depth < 32)%nat -> length children = 256%nat -> Forall slot_saved children ->
  make_interior depth children = Ok n -> leaf_max < n_count n ->
  decode (interior_enc depth children) false = Ok n.
Proof.
  intros Hd Hl Hs Hn Hgt. apply finishes_run. unfold interior_enc.
  eapply finishes_bind; [apply reads_u8; unfold kind_interior; lia|].
  eapply finishes_bind; [apply reads_u8; lia|].
  rewrite (proj2 (Z.leb_gt 32 _)) by lia. cbn [kind_leaf kind_interior Z.eqb Pos.eqb negb].
  destruct (to_array_Some (n := 32) (present_bits children)) as (a & _ & Ea).
  { apply length_present_bits. }
  rewrite <- Ea. eapply finishes_bind; [apply reads_fixed|].
  rewrite <- (app_nil_r (flat_map _ _)). eapply finishes_bind.
  - rewrite (list_as_nth children 256 no_child Hl) at 1. apply reads_children; [done..|].
    intros i Hi%elem_of_seq. split; [lia|]. apply present_bits_spec; [done | lia].
  - rewrite <- (list_as_nth children 256 no_child Hl). apply finishes_finish.
    eapply finishes_checked_bind; [rewrite Nat2Z.id; exact Hn|]. cbn beta.
    rewrite (proj2 (Z.leb_gt _ _)) by done. apply finishes_ret.
Qed.

(** ** Encoding succeeds and fits in a frame *)

Lemma encode_leaf depth records hash :
  Z.of_nat (length records) <= leaf_max ->
  Forall (fun r : Rec => Z.of_nat (length r.2) <= value_max) records ->
  encode (mkNode depth true records [] (Z.of_nat (length records)) hash) = Ok (leaf_enc depth records).
Proof.
  intros Hle Hv. unfold encode, leaf_enc. cbn [n_leaf n_depth n_records].
  rewrite wrap32_small by (unfold leaf_max in *; lia).
  apply writes_run. repeat apply writes_seq; auto with codec. by apply writes_records.
Qed.

Lemma writes_child c : slot_saved c -> writes (write_child c) (child_bytes c).
Proof.
  intros Hs. unfold write_child, child_bytes. destruct (c_empty c) eqn:He; [apply writes_skip|].
  destruct Hs as [->|(Hc & Ho & _)]; [done|].
  rewrite (proj2 (Z.eqb_neq _ _)) by lia. solve_writes.
Qed.

Lemma encode_interior depth children count hash :
  Forall slot_saved children ->
  encode (mkNode depth false [] children count hash) = Ok (interior_enc depth children).
Proof.
  intros Hs. unfold encode, interior_enc. cbn [n_leaf n_depth n_children].
  apply writes_run. repeat apply writes_seq; auto with codec.
  apply writes_each. eapply Forall_impl; [exact Hs | apply writes_child].
Qed.

(** The frame limit of the node file, [max_frame]. *)
Definition node_frame_max : Z := 4 * 1024 * 1024.

Lemma length_leaf_enc depth records :
  Z.of_nat (length records) <= leaf_max ->
  Forall (fun r : Rec => Z.of_nat (length r.2) <= value_max) records ->
  Z.of_nat (length (leaf_enc depth records)) <= node_frame_max.
Proof.
  intros Hle Hv. unfold leaf_enc. rewrite !length_app, !length_be_bytes.
  assert (Z.of_nat (length (flat_map rec_bytes records)) <= Z.of_nat (length records) * (36 + value_max)).
  { clear Hle. unfold value_max in *. induction Hv as [|r l Hr Hl IH]; [done|]. cbn [flat_map length].
    rewrite length_app. unfold rec_bytes at 1, blob. rewrite !length_app, array_length, length_be_bytes. lia. }
  unfold node_frame_max, leaf_max, value_max in *. lia.
Qed.

Lemma length_interior_enc depth children :
  length children = 256%nat -> Z.of_nat (length (interior_enc depth children)) <= node_frame_max.
Proof.
  intros Hl. unfold interior_enc. rewrite !length_app, !length_be_bytes, length_present_bits.
  assert (length (flat_map child_bytes children) <= length children * 52)%nat.
  { clear Hl. induction children as [|c l IH]; [done|]. cbn [flat_map length]. rewrite length_app.
    unfold child_bytes at 1. destruct (c_empty c); [simpl; lia|].
    rewrite !length_app, !length_be_bytes, array_length. lia. }
  unfold node_frame_max. lia.
Qed.

End disk.

(** ** Growing the node file *)

Section grow.
Context `{Sha256}.

Lemma locates_grow rd rd' c n : reads_all rd rd' -> locates rd c n -> locates rd' c n.
Proof.
  intros Hg. unfold locates. destruct (decide _); [done|].
  intros (Ho & Hz & Hn & bs & Hb & Hd). refine (conj Ho (conj Hz (conj Hn (ex_intro _ bs (conj _ Hd))))).
  by apply Hg.
Qed.

Lemma Repr_grow rd rd' k c records : reads_all rd rd' -> Repr rd k c records -> Repr rd' k c records.
Proof.
  intros Hg. revert c records. induction k as [|k IH]; intros c records;
    (destruct (decide (records = [])) as [->|Hne]; [by rewrite !Repr_nil|]);
    rewrite !Repr_cons by done; intros (Hc & Hh & n & Hloc & Hd & Hcount & Hhash & HN);
    refine (conj Hc (conj Hh (ex_intro _ n (conj _ (conj Hd (conj Hcount (conj Hhash _)))))));
    try (by eapply locates_grow);
    (destruct (Z.of_nat (length records) <=? leaf_max) eqn:E; [exact HN|]); [exact HN|].
  destruct HN as (? & ? & ? & HS). split_and!; try done. intros i Hi. apply IH, HS, Hi.
Qed.

Lemma Slots_grow rd rd' k cs records : reads_all rd rd' -> Slots rd k cs records -> Slots rd' k cs records.
Proof. intros Hg [Hl HS]. split; [done|]. intros i Hi. eapply Repr_grow; [done | by apply HS]. Qed.

(** Dropping the node of a saved slot changes nothing: the file has it. *)
Lemma Repr_drop rd k c records :
  c_offset c <> unsaved -> Repr rd k c records -> Repr rd k (drop_node c) records.
Proof.
  intros Ho. destruct (decide (records = [])) as [->|Hne]; [by intros ->%Repr_nil|].
  rewrite !Repr_cons by done. intros (Hc & Hh & n & Hloc & HN). split_and!; [done..|].
  exists n. split; [|done]. unfold locates in *. simpl. rewrite !decide_False in * by done.
  destruct Hloc as (Ho' & Hz & _ & Hb). refine (conj Ho' (conj Hz (conj _ Hb))). by left.
Qed.
End grow.

(** ** Saving *)

Section save.
Context `{Sha256} {F : Type} `{FrameStore F, !FrameStoreSpec F}.

(** No leaf is at depth 32: no more than a leaf's worth of ids share their
    first 31 bytes. *)
Definition shallow (records : list Rec) : Prop :=
  forall id : ObjectId, Z.of_nat (length (covered (take 31 (abytes id)) records)) <= leaf_max.

Lemma shallow_under d b records : shallow records -> shallow (under d b records).
Proof.
  intros Hs id. specialize (Hs id).
  assert (covered (take 31 (abytes id)) (under d b records) =
          under d b (covered (take 31 (abytes id)) records)) as ->.
  { unfold covered, under, at_byte. rewrite !list_filter_filter. apply list_filter_iff. tauto. }
  pose proof (length_under d b (covered (take 31 (abytes id)) records)). lia.
Qed.

Lemma shallow_interior k records :
  wf_recs k records -> shallow records -> leaf_max < Z.of_nat (length records) -> (1 < k)%nat.
Proof.
  intros Hwf Hs Hgt. destruct k as [|[|k]]; [| |lia]; exfalso.
  - apply wf_bottom in Hwf. unfold leaf_max in *. lia.
  - destruct records as [|r l]; [unfold leaf_max in *; simpl in *; lia|].
    specialize (Hs r.1). rewrite covered_all in Hs; [lia|].
    intros r' Hr'. rewrite length_take, array_length. change (31 `min` 32)%nat with 31%nat.
    apply (wf_share _ _ Hwf); [done | by left].
Qed.

(** The file can take the subtree: a generous bound on the bytes of its
    nodes, [2 ^ 23] each, at most one a level and record. *)
Definition room (k n : nat) : Z := (Z.of_nat k + 1) * Z.of_nat n * 2 ^ 23.

(** What saving a slot leaves. *)
Definition saved_as (k : nat) (records : list Rec) (f : F) (c' : Child) (f' : F) : Prop :=
  fs_ok f' /\ fs_max f' = fs_max f /\ reads_all (fs_read_at f) (fs_read_at f') /\
  Repr (fs_read_at f') k c' records /\ (records <> [] -> c_offset c' <> unsaved) /\
  fs_bytes f <= fs_bytes f' <= fs_bytes f + room k (length records).

(** The frame that has a node, once appended. *)
Lemma append_node k n bytes records (f : F) :
  fs_ok f -> node_frame_max <= fs_max f -> records <> [] ->
  Z.of_nat (length bytes) <= node_frame_max -> fs_bytes f + 2 ^ 23 < unsaved ->
  (forall rd', reads_all (fs_read_at f) rd' -> NodeRepr rd' k n records) ->
  decode bytes false = Ok n ->
  exists c' f', (before ← st_gets fs_bytes; offset ← fs_append bytes; after ← st_gets fs_bytes;
      mret (mkChild offset (wrap32 (after - before)) (n_count n) (n_hash n) None)) f = (Ok c', f') /\
    fs_ok f' /\ fs_max f' = fs_max f /\ reads_all (fs_read_at f) (fs_read_at f') /\
    Repr (fs_read_at f') k c' records /\ c_offset c' <> unsaved /\
    fs_bytes f <= fs_bytes f' <= fs_bytes f + 2 ^ 23.
Proof.
  intros Hok Hmax Hne Hlen Hroom HN Hdec. pose proof (fs_bytes_nonneg f Hok).
  destruct (fs_append_ok f bytes Hok) as (f' & Happ & Hok' & Hmax' & Hbytes & Hrd & Hgrow); [lia|].
  unfold node_frame_max in *. set (c' := mkChild (fs_bytes f) (wrap32 (fs_bytes f' - fs_bytes f)) (n_count n) (n_hash n) None).
  exists c', f'. split.
  { rewrite (st_bind_ok _ _ _ (fs_bytes f) f) by done.
    by rewrite (st_bind_ok _ _ _ _ _ Happ), (st_bind_ok _ _ _ (fs_bytes f') f'). }
  split_and!; [done | done | done | | simpl; lia | lia | lia].
  specialize (HN _ Hgrow). apply Repr_cons; [done|]. pose proof HN as (_ & Hc & Hh & _).
  split; [exact Hc|]. split; [exact Hh|]. exists n. split; [|done].
  unfold locates. simpl. rewrite decide_False by lia. rewrite Hbytes.
  split; [lia|]. split; [rewrite wrap32_small; lia|]. split; [by left|]. eauto.
Qed.

Definition kept (c : Child) : Child := if c_offset c =? unsaved then c else drop_node c.

(** A saved slot, its node dropped, is as it is written. *)
Lemma kept_saved rd k c records :
  wf_recs k records -> Repr rd k c records -> (records <> [] -> c_offset c <> unsaved) ->
  Repr rd k (kept c) records /\ slot_saved (kept c).
Proof.
  intros Hwf HR Ho. unfold kept. destruct (decide (records = [])) as [->|Hne].
  { apply Repr_nil in HR as ->. simpl. split; [by apply Repr_nil | by left]. }
  specialize (Ho Hne). rewrite (proj2 (Z.eqb_neq _ _)) by done. split; [by apply Repr_drop|].
  right. apply Repr_cons in HR as (Hc & _ & n & Hloc & _); [|done]. unfold locates in Hloc.
  rewrite decide_False in Hloc by done. destruct Hloc as (Hoff & Hsz & _).
  simpl. rewrite Hc. pose proof (wf_count _ _ Hwf).
  split; [|done]. destruct records; [done | simpl in *; lia].
Qed.

Lemma room_sum k records n :
  wf_recs (S k) records -> (n <= 256)%nat ->
  sum_Z ((fun i => room k (length (under (32 - S k) (n2b i) records))) <$> seq 0 n) <=
  (Z.of_nat k + 1) * Z.of_nat (length records) * 2 ^ 23.
Proof.
  intros Hwf Hn. rewrite <- (under_counts k records Hwf).
  replace 256%nat with (n + (256 - n))%nat by lia. rewrite seq_app, fmap_app, sum_Z_app.
  set (rest := sum_Z (_ <$> seq (0 + n) _)).
  assert (0 <= rest) as Hrest.
  { apply sum_Z_nonneg, Forall_fmap, Forall_forall. intros i _. simpl. lia. }
  assert (sum_Z ((fun i => room k (length (under (32 - S k) (n2b i) records))) <$> seq 0 n) =
    (Z.of_nat k + 1) * sum_Z ((fun i => Z.of_nat (length (under (32 - S k) (n2b i) records))) <$> seq 0 n) * 2 ^ 23)
    as ->.
  { clear. induction (seq 0 n) as [|i l IH]; [by rewrite Z.mul_0_r|].
    rewrite !fmap_cons. cbn [sum_Z foldr]. fold sum_Z.
    change (foldr Z.add 0) with sum_Z in *. rewrite IH. unfold room. ring. }
  nia.
Qed.

Lemma save_slots k (cs : list Child) records (f : F) :
  (forall c records f, fs_ok f -> node_frame_max <= fs_max f -> wf_recs k records -> shallow records ->
     Repr (fs_read_at f) k c records -> fs_bytes f + room k (length records) < unsaved ->
     exists c' f', save k c f = (Ok c', f') /\ saved_as k records f c' f') ->
  fs_ok f -> node_frame_max <= fs_max f -> wf_recs (S k) records -> shallow records ->
  Slots (fs_read_at f) k cs records ->
  fs_bytes f + (Z.of_nat k + 1) * Z.of_nat (length records) * 2 ^ 23 < unsaved ->
  exists cs' f', foldM (fun done c => c' ← save k c; mret (done ++ [kept c'])) [] cs f = (Ok cs', f') /\
    fs_ok f' /\ fs_max f' = fs_max f /\ reads_all (fs_read_at f) (fs_read_at f') /\
    Slots (fs_read_at f') k cs' records /\ Forall slot_saved cs' /\
    fs_bytes f <= fs_bytes f' <= fs_bytes f + (Z.of_nat k + 1) * Z.of_nat (length records) * 2 ^ 23.
Proof.
  intros Hsave Hok Hmax Hwf Hsh [Hl HS] Hroom. set (d := (32 - S k)%nat) in *.
  set (need := fun n => sum_Z ((fun i => room k (length (under d (n2b i) records))) <$> seq 0 n)).
  assert (forall n, need (S n) = need n + room k (length (under d (n2b n) records))) as Hneed.
  { intros n. unfold need. rewrite seq_S, fmap_app, sum_Z_app. cbn [fmap list_fmap sum_Z foldr Nat.add]. lia. }
  assert (forall n, (n <= 256)%nat -> need n <= (Z.of_nat k + 1) * Z.of_nat (length records) * 2 ^ 23)
    as Hbound by (intros n Hn; by apply room_sum).
  destruct (foldM_slots (fun i cs' f' => length cs' = i /\ fs_ok f' /\ fs_max f' = fs_max f /\
      reads_all (fs_read_at f) (fs_read_at f') /\
      (forall j, (j < i)%nat -> Repr (fs_read_at f') k (nth j cs' no_child) (under d (n2b j) records)) /\
      Forall slot_saved cs' /\ fs_bytes f <= fs_bytes f' <= fs_bytes f + need i)
    (fun done c => c' ← save k c; mret (done ++ [kept c'])) cs [] f)
    as (cs' & f' & Hfold & Hl' & Hok' & Hmax' & Hg' & HS' & Hsv & Hby).
  - done.
  - split_and!; try done; try (intros; lia). unfold need. simpl. lia.
  - intros i cs1 f1 Hi (Hl1 & Hok1 & Hmax1 & Hg1 & HS1 & Hsv1 & Hb1).
    pose proof (Hbound (S i) ltac:(lia)) as Hbi. rewrite Hneed in Hbi.
    destruct (Hsave (nth i cs no_child) (under d (n2b i) records) f1)
      as (c' & f2 & Hs2 & Hok2 & Hmax2 & Hg2 & HR2 & Ho2 & Hb2);
      [done | by rewrite Hmax1 | by apply wf_under | by apply shallow_under
      | eapply Repr_grow; [done | by apply HS] | lia |].
    destruct (kept_saved _ k c' _ (wf_under k (n2b i) records Hwf) HR2 Ho2) as [HRk Hsk].
    rewrite (st_bind_ok _ _ _ _ _ Hs2). eexists _, f2. split; [reflexivity|].
    rewrite length_app, Hneed. cbn [length].
    split; [lia|]. split; [done|]. split; [congruence|]. split; [by transitivity (fs_read_at f1)|].
    split; [|split; [by apply Forall_app; split; [|constructor] | lia]].
    intros j Hj. rewrite nth_lookup. destruct (decide (j = i)) as [->|Hji].
    + rewrite list_lookup_middle by done. done.
    + rewrite lookup_app_l by lia. rewrite <- nth_lookup.
      eapply Repr_grow; [done|]. apply HS1. lia.
  - exists cs', f'. pose proof (Hbound 256%nat ltac:(lia)). split_and!; try done; lia.
Qed.

(** Appending a node's frame and the slot that names it. *)
Definition put_node (n : Node) : ST F Child :=
  bytes ← st_lift (encode n);
  before ← st_gets fs_bytes; offset ← fs_append bytes; after ← st_gets fs_bytes;
  mret (mkChild offset (wrap32 (after - before)) (n_count n) (n_hash n) None).

Lemma save_leaf_eq k c n :
  c_empty c = false -> c_offset c = unsaved -> c_node c = Some n -> n_leaf n = true ->
  save k c = (saved ← mret n; put_node saved).
Proof.
  intros He Ho Hn Hleaf. destruct k; cbn [save]; by rewrite He, Ho, Z.eqb_refl, Hn, Hleaf.
Qed.

Lemma save_interior_eq k c n :
  c_empty c = false -> c_offset c = unsaved -> c_node c = Some n -> n_leaf n = false ->
  save (S k) c =
  (saved ← (children ← foldM (fun done c => c' ← save k c; mret (done ++ [kept c'])) [] (n_children n);
            st_lift (make_interior (n_depth n) children));
   put_node saved).
Proof. intros He Ho Hn Hleaf. cbn [save]. by rewrite He, Ho, Z.eqb_refl, Hn, Hleaf. Qed.

Lemma save_leaf_ok k c n records (f : F) :
  fs_ok f -> node_frame_max <= fs_max f -> wf_recs (S k) records -> records <> [] ->
  c_empty c = false -> c_offset c = unsaved -> c_node c = Some n -> n_leaf n = true ->
  NodeRepr (fs_read_at f) (S k) n records -> fs_bytes f + 2 ^ 23 < unsaved ->
  exists c' f', save (S k) c f = (Ok c', f') /\ fs_ok f' /\ fs_max f' = fs_max f /\
    reads_all (fs_read_at f) (fs_read_at f') /\ Repr (fs_read_at f') (S k) c' records /\
    c_offset c' <> unsaved /\ fs_bytes f <= fs_bytes f' <= fs_bytes f + 2 ^ 23.
Proof.
  intros Hok Hmax Hwf Hne He Ho Hn Hleaf HN Hroom.
  destruct (NodeRepr_leaf_inv _ _ _ _ HN Hleaf) as [Er Hle].
  destruct (make_leaf_ok (fs_read_at f) (S k) records Hwf Hle) as (n' & Hn' & HN').
  assert (n = n') as <-.
  { destruct HN as (Hd1 & Hc1 & Hh1 & HN1), HN' as (Hd2 & Hc2 & Hh2 & HN2).
    rewrite (proj2 (Z.leb_le _ _) Hle) in HN1, HN2. destruct HN1 as (? & ? & ?), HN2 as (? & ? & ?).
    destruct n, n'. simpl in *. congruence. }
  pose proof (wf_values _ _ Hwf) as Hv. pose proof (wf_sorted _ _ Hwf) as Hs.
  assert (encode n = Ok (leaf_enc (32 - S k) records)) as Henc.
  { rewrite <- (encode_leaf _ _ (n_hash n)) by done. f_equal.
    unfold make_leaf in Hn'. simp_bind Hn'. by injection Hn' as <-. }
  rewrite (save_leaf_eq _ _ n) by done. unfold put_node.
  rewrite (st_bind_ok _ _ _ n f) by done. rewrite (st_bind_ok _ _ _ _ _ (f_equal (fun r => (r, f)) Henc)).
  apply append_node; try done.
  - by apply length_leaf_enc.
  - intros rd' Hg. destruct (make_leaf_ok rd' (S k) records Hwf Hle) as (n' & Hn'' & HN'').
    rewrite Hn' in Hn''. by injection Hn'' as <-.
  - rewrite decode_leaf by (done || lia). done.
Qed.

(** Saving a subtree leaves one on disk that holds the same records. *)
Lemma save_ok k c records (f : F) :
  fs_ok f -> node_frame_max <= fs_max f -> wf_recs k records -> shallow records -> (0 < k)%nat ->
  Repr (fs_read_at f) k c records -> fs_bytes f + room k (length records) < unsaved ->
  exists c' f', save k c f = (Ok c', f') /\ saved_as k records f c' f'.
Proof.
  revert c records f. induction k as [|k IH]; [lia|].
  intros c records f Hok Hmax Hwf Hsh _ HR Hroom.
  pose proof (Repr_empty _ _ _ _ HR) as Hemp. unfold saved_as.
  destruct (decide (records = [] \/ c_offset c <> unsaved)) as [Hdone|Hgo].
  { exists c, f. split.
    - cbn [save]. rewrite Hemp. destruct Hdone as [->|Ho]; [done|].
      rewrite (proj2 (Z.eqb_neq _ _)) by done. by rewrite orb_true_r.
    - unfold room in *. split_and!; try done; try lia. by destruct Hdone. }
  assert (records <> [] /\ c_offset c = unsaved) as [Hne Ho].
  { split; [tauto|]. destruct (decide (c_offset c = unsaved)); tauto. }
  rewrite bool_decide_eq_false_2 in Hemp by done.
  apply Repr_cons in HR as (_ & _ & n & Hloc & HN); [|done].
  unfold locates in Hloc. rewrite decide_True in Hloc by done.
  assert (1 <= Z.of_nat (length records)) by (destruct records; [done | simpl; lia]).
  assert (2 ^ 23 + (Z.of_nat k + 1) * Z.of_nat (length records) * 2 ^ 23 <= room (S k) (length records))
    as Hsplit by (unfold room; nia).
  destruct (n_leaf n) eqn:Hleaf.
  { destruct (save_leaf_ok k c n records f) as (c' & f' & Hs & ? & ? & ? & ? & ? & ?); try done; [nia|].
    exists c', f'. split_and!; try done; try nia. }
  destruct (NodeRepr_interior_inv _ _ _ _ Hwf HN Hleaf) as (k' & Ek & HS & Hgt). injection Ek as <-.
  pose proof (shallow_interior _ _ Hwf Hsh Hgt).
  destruct (save_slots k (n_children n) records f) as
    (cs & f1 & Hfold & Hok1 & Hmax1 & Hg1 & HS1 & Hsv & Hb1); try done; [|lia|].
  { intros. apply IH; [done..| lia | done | done]. }
  destruct (make_interior_ok _ k cs records Hwf Hgt HS1) as (n' & Hn' & HN' & Hcs).
  pose proof HN as (Hd & _).
  assert (encode n' = Ok (interior_enc (32 - S k) cs)) as Henc.
  { unfold make_interior in Hn'. simp_bind Hn'. injection Hn' as <-. by apply encode_interior. }
  rewrite (save_interior_eq _ _ n) by done. unfold put_node.
  rewrite (st_bind_ok _ _ _ n' f1) by (rewrite (st_bind_ok _ _ _ _ _ Hfold), Hd; unfold st_lift; by rewrite Hn').
  rewrite (st_bind_ok _ _ _ _ _ (f_equal (fun r => (r, f1)) Henc)).
  destruct (append_node (S k) n' (interior_enc (32 - S k) cs) records f1) as
    (c' & f' & Hp & Hok2 & Hmax2 & Hg2 & HR2 & Ho2 & Hb2); try done.
  - by rewrite Hmax1.
  - apply length_interior_enc, HS1.
  - nia.
  - intros rd' Hg. destruct (make_interior_ok rd' k cs records Hwf Hgt) as (n'' & Hn'' & HN'' & _);
      [by eapply Slots_grow|]. rewrite Hn' in Hn''. by injection Hn'' as <-.
  - apply decode_interior; [lia | apply HS1 | done..|]. destruct HN' as (_ & -> & _). done.
  - exists c', f'. split; [done|]. split_and!; try done; try nia; try congruence.
    by transitivity (fs_read_at f1).
Qed.

(** Saving does nothing to the file but append to it. *)
Lemma save_keeps (P : F -> Prop) k c :
  (forall bytes, keeps P (fs_append bytes)) -> keeps P (save k c).
Proof.
  intros Happ. revert c. induction k as [|k IH]; intros c; cbn [save];
    (destruct (_ || _); [apply keeps_ret|]); (destruct (c_node c) as [n|]; [|apply keeps_throw]);
    apply keeps_bind; try (intros; repeat (apply keeps_bind; [auto with keeps | intros]); apply keeps_ret);
    destruct (n_leaf n); try (apply keeps_ret); [apply keeps_throw|].
  apply keeps_bind; [|intros; apply keeps_lift]. apply keeps_foldM. intros.
  apply keeps_bind; [apply IH | intros; apply keeps_ret].
Qed.

End save.
