(* ===== verification/TrieWire.v ===== *)
(** * Questions to a peer's trie, and their answers

    [encode_trie_question] and the other encodings of
    [src/src/ledger/trie_diff.cpp]: what travels decodes to what was sent, so
    a peer's answers are those of its own trie. *)

From S2P Require Import Prelude Codec Journal Trie TrieShape TrieHash TrieOps TrieDisk.

Inductive TrieQuestionKind : Type := KindRoot | KindChildren | KindRecords.
Inductive TrieName : Type := HeldData.

#[global] Instance question_kind_eq_dec : EqDecision TrieQuestionKind.
Proof. solve_decision. Defined.

Definition kind_code (k : TrieQuestionKind) : Z :=
  match k with KindRoot => 0 | KindChildren => 1 | KindRecords => 2 end.
Definition kind_of_code (z : Z) : TrieQuestionKind :=
  if z =? 0 then KindRoot else if z =? 1 then KindChildren else KindRecords.
Definition name_code (n : TrieName) : Z := match n with HeldData => 0 end.

Definition trie_question_max : Z := 64.
Definition trie_records_max : Z := 512.
Definition trie_question_limit (kind : TrieQuestionKind) : Z :=
  match kind with KindRecords => trie_records_max | _ => trie_question_max end.

Record TrieQuestion : Type := mkQuestion {
  q_kind : TrieQuestionKind;
  q_trie : TrieName;
  q_at : Hash256;
  q_prefixes : list Prefix
}.

(** ** Encodings *)

Definition write_prefix (prefix : Prefix) : Writer.prog :=
  Writer.u8 (Z.of_nat (length prefix)) ;;; Writer.each (fun b => Writer.u8 (b2z b)) prefix.

Definition read_prefix : Reader.prog Prefix :=
  length ← Reader.u8;
  if 32 <? length then Reader.throw (DecodeError "trie prefix longer than an id")
  else bs ← Reader.times (Z.to_nat length) Reader.u8; mret (z2b <$> bs).

Definition read_count (max : Z) (what : exn) : Reader.prog Z :=
  count ← Reader.u32; if max <? count then Reader.throw what else mret count.

Definition encode_trie_question (question : TrieQuestion) : result Bytes :=
  if trie_question_limit (q_kind question) <? Z.of_nat (length (q_prefixes question)) then
    Throw (InvalidArgument "too many prefixes in one trie question")
  else
    Writer.run
      (Writer.u8 (kind_code (q_kind question)) ;;; Writer.u8 (name_code (q_trie question)) ;;;
       Writer.fixed (q_at question) ;;;
       Writer.u32 (wrap32 (Z.of_nat (length (q_prefixes question)))) ;;;
       Writer.each write_prefix (q_prefixes question)).

(** A prefix of a question: one for children is shorter than an id. *)
Definition read_asked (kind : TrieQuestionKind) : Reader.prog Prefix :=
  prefix ← read_prefix;
  if bool_decide (kind = KindChildren) && (32 <=? Z.of_nat (length prefix)) then
    Reader.throw (DecodeError "a whole id has no children")
  else mret prefix.

Definition decode_trie_question (encoded : Bytes) : result TrieQuestion :=
  Reader.run
    (kind ← Reader.u8;
     if kind_code KindRecords <? kind then Reader.throw (DecodeError "unknown trie question")
     else
       trie ← Reader.u8;
       if negb (trie =? name_code HeldData) then Reader.throw (DecodeError "unknown trie")
       else
         at_ ← Reader.fixed 32;
         count ← read_count (trie_question_limit (kind_of_code kind))
                   (DecodeError "too many prefixes in one trie question");
         prefixes ← Reader.times (Z.to_nat count) (read_asked (kind_of_code kind));
         _ ← Reader.finish;
         mret (mkQuestion (kind_of_code kind) HeldData at_ prefixes)) encoded.

Definition encode_trie_root (summary : Summary) : result Bytes :=
  Writer.run (Writer.u64 (sm_count summary) ;;; Writer.fixed (sm_hash summary)).

Definition decode_trie_root (encoded : Bytes) : result Summary :=
  Reader.run
    (count ← Reader.u64; hash ← Reader.fixed 32; _ ← Reader.finish; mret (mkSummary count hash)) encoded.

(** One non-empty slot. *)
Definition write_answer_slot (slot : nat) (s : Summary) : Writer.prog :=
  if sm_count s =? 0 then Writer.skip
  else Writer.u8 (Z.of_nat slot) ;;; Writer.u64 (sm_count s) ;;; Writer.fixed (sm_hash s).

(** [present += slot.count ? 1 : 0], in a [uint16_t]. *)
Definition present_count (children : list Summary) : Z :=
  foldl (fun n s => wrap16 (n + if sm_count s =? 0 then 0 else 1)) 0 children.

Definition write_answer_children (children : list Summary) : Writer.prog :=
  Writer.u16 (present_count children) ;;; Writer.each id (imap write_answer_slot children).

Definition encode_trie_children (answers : list (list Summary)) : result Bytes :=
  Writer.run (Writer.u32 (wrap32 (Z.of_nat (length answers))) ;;; Writer.each write_answer_children answers).

(** The loop over the slots sent, into an answer of empty ones. *)
Fixpoint read_answer_slots (n : nat) (last : Z) (children : list Summary) : Reader.prog (list Summary) :=
  match n with
  | O => mret children
  | S n' =>
      slot ← Reader.u8;
      if slot <=? last then Reader.throw (DecodeError "trie children out of order")
      else
        count ← Reader.u64;
        if count =? 0 then Reader.throw (DecodeError "an empty trie child sent")
        else
          hash ← Reader.fixed 32;
          read_answer_slots n' slot (<[Z.to_nat slot := mkSummary count hash]> children)
  end.

Definition read_answer_children : Reader.prog (list Summary) :=
  present ← Reader.u16;
  if 256 <? present then Reader.throw (DecodeError "more than 256 trie children")
  else read_answer_slots (Z.to_nat present) (-1) (replicate 256 no_summary).

Definition decode_trie_children (encoded : Bytes) : result (list (list Summary)) :=
  Reader.run
    (count ← read_count trie_question_max (DecodeError "too many answers in one trie reply");
     answers ← Reader.times (Z.to_nat count) read_answer_children;
     _ ← Reader.finish; mret answers) encoded.

Definition write_answer_records (records : list Rec) : Writer.prog :=
  Writer.u32 (wrap32 (Z.of_nat (length records))) ;;;
  Writer.each (fun r : Rec => Writer.fixed r.1 ;;; Writer.bytes r.2) records.

Definition encode_trie_records (answers : list (list Rec)) : result Bytes :=
  Writer.run (Writer.u32 (wrap32 (Z.of_nat (length answers))) ;;; Writer.each write_answer_records answers).

Fixpoint read_answer_loop (n : nat) (last : option ObjectId) : Reader.prog (list Rec) :=
  match n with
  | O => mret []
  | S n' =>
      id ← Reader.fixed 32;
      value ← Reader.bytes value_max;
      if match last with Some l => negb (key_ltb l id) | None => false end then
        Reader.throw (DecodeError "trie records out of order")
      else rest ← read_answer_loop n' (Some id); mret ((id, value) :: rest)
  end.

Definition read_answer_records : Reader.prog (list Rec) :=
  size ← read_count leaf_max (DecodeError "too many records in one trie answer");
  read_answer_loop (Z.to_nat size) None.

Definition decode_trie_records (encoded : Bytes) : result (list (list Rec)) :=
  Reader.run
    (count ← read_count trie_records_max (DecodeError "too many answers in one trie reply");
     answers ← Reader.times (Z.to_nat count) read_answer_records;
     _ ← Reader.finish; mret answers) encoded.

(** ** Round trips *)

Definition prefix_bytes (p : Prefix) : Bytes := be_bytes 1 (Z.of_nat (length p)) ++ flat_map (fun b => be_bytes 1 (b2z b)) p.

Lemma writes_prefix p : writes (write_prefix p) (prefix_bytes p).
Proof.
  apply writes_seq; [apply writes_u8|]. apply writes_each, Forall_forall. intros b _. apply writes_u8.
Qed.

Lemma reads_u8s p : reads (Reader.times (length p) Reader.u8) (flat_map (fun b => be_bytes 1 (b2z b)) p) (b2z <$> p).
Proof.
  induction p as [|b p IH]; [apply reads_ret|]. cbn [length Reader.times flat_map].
  eapply reads_bind; [apply reads_u8, b2z_range|]. by apply (reads_map _ (cons (b2z b))).
Qed.

Lemma reads_prefix p : (length p <= 32)%nat -> reads read_prefix (prefix_bytes p) p.
Proof.
  intros Hp. unfold read_prefix, prefix_bytes. eapply reads_bind; [apply reads_u8; lia|].
  rewrite (proj2 (Z.ltb_ge 32 _)), Nat2Z.id by lia.
  replace p with (z2b <$> (b2z <$> p)) at 3.
  - apply (reads_map _ (fmap z2b)), reads_u8s.
  - rewrite <- list_fmap_compose. rewrite <- (list_fmap_id p) at 2. apply list_fmap_ext.
    intros i b _. apply z2b_b2z.
Qed.

Lemma finishes_finish_ret {A} (a : A) : finishes (_ ← Reader.finish; mret a) [] a.
Proof. apply finishes_finish, finishes_ret. Qed.

Lemma reads_count max what n :
  0 <= n <= max -> max < 2 ^ 32 -> reads (read_count max what) (be_bytes 4 n) n.
Proof.
  intros Hn Hm. unfold read_count. rewrite <- (app_nil_r (be_bytes 4 n)).
  eapply reads_bind; [apply reads_u32; lia|]. rewrite (proj2 (Z.ltb_ge max n)) by lia. apply reads_ret.
Qed.

(** A question that can be asked: no more prefixes than one carries, none
    longer than an id, and for children none a whole id. *)
Record question_ok (q : TrieQuestion) : Prop := {
  qo_count : Z.of_nat (length (q_prefixes q)) <= trie_question_limit (q_kind q);
  qo_prefixes : Forall (fun p : Prefix => (length p <= 32)%nat) (q_prefixes q);
  qo_children : q_kind q = KindChildren -> Forall (fun p : Prefix => (length p < 32)%nat) (q_prefixes q)
}.

Definition question_bytes (q : TrieQuestion) : Bytes :=
  be_bytes 1 (kind_code (q_kind q)) ++ be_bytes 1 (name_code (q_trie q)) ++ abytes (q_at q) ++
  be_bytes 4 (Z.of_nat (length (q_prefixes q))) ++ flat_map prefix_bytes (q_prefixes q).

Lemma limit_u32 kind : trie_question_limit kind < 2 ^ 32.
Proof. by destruct kind. Qed.

Lemma encode_question_ok q : question_ok q -> encode_trie_question q = Ok (question_bytes q).
Proof.
  intros [Hc _ _]. unfold encode_trie_question. rewrite (proj2 (Z.ltb_ge _ _) Hc).
  pose proof (limit_u32 (q_kind q)). rewrite wrap32_small by lia. apply writes_run.
  repeat (apply writes_seq; [auto with codec|]). apply writes_each, Forall_forall. intros p _. apply writes_prefix.
Qed.

Lemma reads_asked kind p :
  (length p <= 32)%nat -> (kind = KindChildren -> (length p < 32)%nat) ->
  reads (read_asked kind) (prefix_bytes p) p.
Proof.
  intros Hp Hk. unfold read_asked. rewrite <- (app_nil_r (prefix_bytes p)).
  eapply reads_bind; [by apply reads_prefix|].
  destruct (bool_decide_reflect (kind = KindChildren)) as [->|]; cbn [andb]; [|apply reads_ret].
  rewrite (proj2 (Z.leb_gt 32 _)) by (specialize (Hk eq_refl); lia). apply reads_ret.
Qed.

Lemma kind_of_code_ok kind : kind_of_code (kind_code kind) = kind.
Proof. by destruct kind. Qed.

Lemma decode_question_ok q : question_ok q -> decode_trie_question (question_bytes q) = Ok q.
Proof.
  intros [Hc Hp Hk]. destruct q as [kind [] at_ prefixes]. cbn [q_kind q_prefixes] in *.
  apply finishes_run. unfold question_bytes. cbn [q_kind q_trie q_at q_prefixes].
  eapply finishes_bind; [apply reads_u8; destruct kind; simpl; lia|].
  rewrite (proj2 (Z.ltb_ge _ _)) by (by destruct kind). rewrite kind_of_code_ok.
  eapply finishes_bind; [apply reads_u8; simpl; lia|]. cbn [name_code Z.eqb negb].
  eapply finishes_bind; [apply reads_fixed|].
  eapply finishes_bind; [apply reads_count; [lia | apply limit_u32]|]. rewrite Nat2Z.id.
  rewrite <- (app_nil_r (flat_map _ _)). eapply finishes_bind; [|apply finishes_finish_ret].
  apply reads_times. rewrite Forall_forall in *. intros p Hin. apply reads_asked; [by apply Hp|].
  intros E. by apply (Hk E).
Qed.

(** ** Answers *)

Lemma root_roundtrip s :
  0 <= sm_count s < 2 ^ 64 -> exists bs, encode_trie_root s = Ok bs /\ decode_trie_root bs = Ok s.
Proof.
  intros Hs. destruct s as [n h]. eexists. split.
  - apply writes_run, writes_seq; auto with codec.
  - apply finishes_run. cbn [sm_count sm_hash]. eapply finishes_bind; [by apply reads_u64|].
    rewrite <- (app_nil_r (abytes h)). eapply finishes_bind; [apply reads_fixed | apply finishes_finish_ret].
Qed.

Definition answer_slot_bytes (i : nat) (s : Summary) : Bytes :=
  if sm_count s =? 0 then [] else be_bytes 1 (Z.of_nat i) ++ be_bytes 8 (sm_count s) ++ abytes (sm_hash s).
Definition present_slots (l : list Summary) : nat := length (base.filter (fun s => sm_count s <> 0) l).
Definition answer_children_bytes (l : list Summary) : Bytes :=
  be_bytes 2 (Z.of_nat (present_slots l)) ++ flat_map id (imap answer_slot_bytes l).

Lemma present_count_ok l : (length l <= 256)%nat -> present_count l = Z.of_nat (present_slots l).
Proof.
  intros Hl. unfold present_count, present_slots.
  enough (forall a, 0 <= a -> a + Z.of_nat (length l) <= 256 ->
    foldl (fun n s => wrap16 (n + if sm_count s =? 0 then 0 else 1)) a l =
    a + Z.of_nat (length (base.filter (fun s => sm_count s <> 0) l))) as Hgen by (rewrite Hgen; lia).
  clear Hl. induction l as [|s l IH]; intros a Ha Hb; cbn [foldl length] in *; [rewrite filter_nil; simpl; lia|].
  rewrite filter_cons. unfold wrap16. destruct (Z.eqb_spec (sm_count s) 0) as [E|E].
  - rewrite decide_False by tauto. rewrite Z.mod_small by lia. rewrite IH; lia.
  - rewrite decide_True by done. rewrite Z.mod_small by lia. rewrite IH by lia. cbn [length]. lia.
Qed.

Lemma writes_answer_children l : (length l <= 256)%nat -> writes (write_answer_children l) (answer_children_bytes l).
Proof.
  intros Hl. unfold write_answer_children. rewrite present_count_ok by done.
  apply writes_seq; [apply writes_u16|]. apply writes_imap. intros i s.
  unfold write_answer_slot, answer_slot_bytes. destruct (_ =? 0); solve_writes.
Qed.

(** The slots from [i] on, read into an answer with those before it. *)
Lemma reads_answer_slots i l (pre : list Summary) last :
  length pre = i -> Forall slot_fits l -> (i + length l <= 256)%nat -> last < Z.of_nat i ->
  reads (read_answer_slots (present_slots l) last (pre ++ replicate (length l) no_summary))
    (flat_map id (imap (fun j => answer_slot_bytes (i + j)) l)) (pre ++ l).
Proof.
  intros Hpre Hl. revert i pre last Hpre. induction Hl as [|s l Hs Hl IH]; intros i pre last Hpre Hi Hlast.
  - cbn [length replicate]. apply reads_ret.
  - assert (forall last', last' <= Z.of_nat i ->
      reads (read_answer_slots (present_slots l) last' ((pre ++ [s]) ++ replicate (length l) no_summary))
        (flat_map id (imap (fun j => answer_slot_bytes (S i + j)) l)) (pre ++ s :: l)) as Hrest.
    { intros last' Hl'. replace (pre ++ s :: l) with ((pre ++ [s]) ++ l) by (by rewrite <- app_assoc).
      apply IH; [rewrite length_app; simpl; lia | cbn [length] in Hi; lia | lia]. }
    rewrite imap_cons. cbn [flat_map id]. rewrite Nat.add_0_r.
    replace (imap ((fun j => answer_slot_bytes (i + j)) ∘ S) l) with (imap (fun j => answer_slot_bytes (S i + j)) l).
    2:{ apply imap_ext. intros j x _. unfold compose. f_equal. lia. }
    unfold present_slots in *. rewrite filter_cons. cbn [length replicate]. destruct Hs as [->|Hs].
    + rewrite decide_False by (simpl; tauto). change (answer_slot_bytes i no_summary) with (@nil byte).
      rewrite app_nil_l. rewrite <- (app_assoc pre [no_summary]) in Hrest. apply Hrest. lia.
    + rewrite decide_True by lia. destruct s as [n h]. cbn [sm_count] in Hs. unfold answer_slot_bytes at 1.
      cbn [sm_count sm_hash length read_answer_slots]. rewrite (proj2 (Z.eqb_neq n 0)) by lia.
      cbn [length] in Hi. rewrite <- !app_assoc. eapply reads_bind; [apply reads_u8; lia|].
      rewrite (proj2 (Z.leb_gt _ _)) by lia. eapply reads_bind; [apply reads_u64; lia|].
      rewrite (proj2 (Z.eqb_neq n 0)) by lia. eapply reads_bind; [apply reads_fixed|].
      rewrite Nat2Z.id, insert_app_r_alt by lia. replace (i - length pre)%nat with O by lia.
      change (<[0%nat := mkSummary n h]> (no_summary :: replicate (length l) no_summary))
        with (mkSummary n h :: replicate (length l) no_summary).
      rewrite <- (app_assoc pre [mkSummary n h]) in Hrest. apply Hrest. lia.
Qed.

Lemma present_slots_le l : (present_slots l <= length l)%nat.
Proof. apply length_filter. Qed.

Lemma reads_answer_children l :
  length l = 256%nat -> Forall slot_fits l -> reads read_answer_children (answer_children_bytes l) l.
Proof.
  intros Hl Hf. unfold read_answer_children, answer_children_bytes. pose proof (present_slots_le l).
  eapply reads_bind; [apply reads_u16; lia|]. rewrite (proj2 (Z.ltb_ge 256 _)), Nat2Z.id by lia.
  pose proof (reads_answer_slots 0 l [] (-1)) as Hr. rewrite Hl in Hr. rewrite !app_nil_l in Hr.
  apply Hr; [done | done | lia | lia].
Qed.

Lemma children_roundtrip answers :
  Z.of_nat (length answers) <= trie_question_max ->
  Forall (fun l => length l = 256%nat /\ Forall slot_fits l) answers ->
  exists bs, encode_trie_children answers = Ok bs /\ decode_trie_children bs = Ok answers.
Proof.
  intros Hn Ha. unfold trie_question_max in *. eexists. split.
  - unfold encode_trie_children. rewrite wrap32_small by lia. apply writes_run, writes_seq; [apply writes_u32|].
    apply (writes_each _ answer_children_bytes). eapply Forall_impl; [exact Ha|]. intros l [Hl _].
    apply writes_answer_children. lia.
  - apply finishes_run. eapply finishes_bind; [apply reads_count; unfold trie_question_max; lia|].
    rewrite Nat2Z.id, <- (app_nil_r (flat_map _ _)). eapply finishes_bind; [|apply finishes_finish_ret].
    apply reads_times. eapply Forall_impl; [exact Ha|]. intros l [Hl Hf]. by apply reads_answer_children.
Qed.

(** An answer of records as a leaf could have them. *)
Definition answer_fits (l : list Rec) : Prop :=
  Z.of_nat (length l) <= leaf_max /\ sorted_recs l /\
  Forall (fun r : Rec => Z.of_nat (length r.2) <= value_max) l.

Definition answer_records_bytes (l : list Rec) : Bytes :=
  be_bytes 4 (Z.of_nat (length l)) ++ flat_map rec_bytes l.

Lemma read_answer_loop_ok records last :
  Forall (fun r : Rec => Z.of_nat (length r.2) <= value_max) records -> sorted_recs records ->
  (forall l r, last = Some l -> r ∈ records -> key_lt l r.1) ->
  reads (read_answer_loop (length records) last) (flat_map rec_bytes records) records.
Proof.
  revert last. induction records as [|[id v] records IH]; intros last Hv Hs Hlast; [apply reads_ret|].
  apply Forall_cons in Hv as [Hv1 Hv]. apply sorted_recs_cons in Hs as [Hf Hs]. simpl in Hv1.
  cbn [length read_answer_loop flat_map]. unfold rec_bytes at 1. cbn [fst snd]. rewrite <- !app_assoc.
  eapply reads_bind; [apply reads_fixed|].
  eapply reads_bind; [apply reads_bytes; unfold value_max, u32_max in *; lia|].
  replace (match last with Some l => negb (key_ltb l id) | None => false end) with false.
  2:{ destruct last as [l|]; [|done]. specialize (Hlast l (id, v) eq_refl ltac:(by left)).
      unfold key_lt in Hlast. cbn [fst] in Hlast. by rewrite Hlast. }
  apply (reads_map _ (cons (id, v))). apply IH; [done..|].
  intros l r [= <-] Hr. rewrite Forall_forall in Hf. by apply Hf.
Qed.

Lemma records_roundtrip answers :
  Z.of_nat (length answers) <= trie_records_max -> Forall answer_fits answers ->
  exists bs, encode_trie_records answers = Ok bs /\ decode_trie_records bs = Ok answers.
Proof.
  intros Hn Ha. unfold trie_records_max in *. eexists. split.
  - unfold encode_trie_records. rewrite wrap32_small by lia. apply writes_run, writes_seq; [apply writes_u32|].
    apply (writes_each _ answer_records_bytes). eapply Forall_impl; [exact Ha|]. intros l (Hl & _ & Hv).
    unfold write_answer_records, answer_records_bytes, leaf_max in *. rewrite wrap32_small by lia.
    apply writes_seq; [apply writes_u32 | by apply writes_records].
  - apply finishes_run. eapply finishes_bind; [apply reads_count; unfold trie_records_max; lia|].
    rewrite Nat2Z.id, <- (app_nil_r (flat_map _ _)). eapply finishes_bind; [|apply finishes_finish_ret].
    apply reads_times. eapply Forall_impl; [exact Ha|]. intros l (Hl & Hs & Hv).
    unfold read_answer_records, answer_records_bytes.
    eapply reads_bind; [apply reads_count; unfold leaf_max in *; lia|]. rewrite Nat2Z.id.
    by apply read_answer_loop_ok.
Qed.
