(* ===== verification/TrieLedger.v ===== *)
(** * The ledger's contract

    [ObjectTrie] as what its users rely on: a map from object ids to values
    that survives crashes. Its methods are related to the sorted records the
    trie holds; the directory it leaves behind at any moment reopens to the
    records it held. *)

From S2P Require Import Prelude Codec Journal Trie ObjectTrie TrieShape TrieOps TrieChange TrieDisk.
Import ObjectTrie.

Lemma st_modify_bind {S A} (f : S -> S) (k : unit -> ST S A) s : (st_modify f ≫= k) s = k tt (f s).
Proof. reflexivity. Qed.

(** ** Journal frames *)

Definition change_fits (c : Change) : Prop :=
  match ch_value c with Some v => Z.of_nat (length v) <= value_max | None => True end.

Definition change_bytes (c : Change) : Bytes :=
  abytes (ch_id c) ++
  match ch_value c with Some v => be_bytes 1 1 ++ blob v | None => be_bytes 1 0 end.

Definition changes_bytes (part : list Change) : Bytes :=
  be_bytes 1 journal_version ++ be_bytes 4 (Z.of_nat (length part)) ++ flat_map change_bytes part.

(** A batch one journal frame can hold. *)
Record part_ok (part : list Change) : Prop := {
  po_sorted : sorted_changes part;
  po_count : (length part <= changes_per_frame)%nat;
  po_fits : Forall change_fits part;
  po_frame : Z.of_nat (length (changes_bytes part)) <= max_frame
}.

Lemma writes_change c : change_fits c -> writes (write_change c) (change_bytes c).
Proof.
  intros Hf. unfold write_change, change_bytes, change_fits in *. apply writes_seq; [apply writes_fixed|].
  destruct (ch_value c) as [v|].
  - apply writes_seq; [apply writes_u8|]. apply writes_bytes. unfold value_max, u32_max in *. lia.
  - rewrite <- (app_nil_r (be_bytes 1 0)). apply writes_seq; [apply writes_u8 | apply writes_skip].
Qed.

Lemma encode_changes_ok part :
  Forall change_fits part -> Z.of_nat (length part) < 2 ^ 32 ->
  encode_changes part = Ok (changes_bytes part).
Proof.
  intros Hf Hl. unfold encode_changes. rewrite wrap32_small by lia.
  apply writes_run. repeat apply writes_seq; auto with codec.
  apply writes_each. eapply Forall_impl; [exact Hf | apply writes_change].
Qed.

Lemma reads_changes part last :
  Forall change_fits part -> sorted_changes part ->
  (forall l c, last = Some l -> c ∈ part -> key_lt l (ch_id c)) ->
  reads (read_changes false (length part) last) (flat_map change_bytes part) part.
Proof.
  revert last. induction part as [|[id value] part IH]; intros last Hf Hs Hlast; [apply reads_ret|].
  apply Forall_cons in Hf as [Hf1 Hf]. apply sorted_changes_cons in Hs as [Hlt Hs].
  unfold change_fits in Hf1. cbn [ch_value] in Hf1.
  cbn [length read_changes flat_map]. unfold change_bytes at 1. cbn [ch_id ch_value].
  rewrite <- app_assoc. eapply reads_bind; [apply reads_fixed|].
  assert (reads (if match last with Some l => negb (key_ltb l id) | None => false end then
        Reader.throw (DecodeError "object trie journal frame out of order")
      else rest ← read_changes false (length part) (Some id); mret (mkChange id value :: rest))
    (flat_map change_bytes part) (mkChange id value :: part)) as Hrest.
  { replace (match last with Some l => negb (key_ltb l id) | None => false end) with false.
    2:{ destruct last as [l|]; [|done]. specialize (Hlast l (mkChange id value) eq_refl ltac:(by left)).
        unfold key_lt in Hlast. cbn [ch_id] in Hlast. by rewrite Hlast. }
    apply (reads_map _ (cons (mkChange id value))). apply IH; [done..|].
    intros l c [= <-] Hc. rewrite Forall_forall in Hlt. by apply Hlt. }
  destruct value as [v|].
  - rewrite <- app_assoc. eapply reads_bind; [apply reads_u8; lia|]. cbn [Z.eqb].
    eapply reads_bind; [|exact Hrest]. apply (reads_map _ Some).
    apply reads_bytes; unfold value_max, u32_max in *; lia.
  - eapply reads_bind; [apply reads_u8; lia|]. cbn [Z.eqb].
    rewrite <- (app_nil_l (flat_map _ _)). eapply reads_bind; [apply reads_ret | exact Hrest].
Qed.

Lemma decode_changes_ok part : part_ok part -> decode_changes (changes_bytes part) = Ok part.
Proof.
  intros [Hs Hc Hf _]. apply finishes_run. unfold changes_bytes, changes_per_frame in *.
  eapply finishes_bind; [apply reads_u8; unfold journal_version; lia|]. cbn [journal_version format1_journal_version Z.eqb Pos.eqb negb andb].
  eapply finishes_bind; [apply reads_u32; lia|].
  rewrite (proj2 (Z.ltb_ge _ _)) by lia. rewrite Nat2Z.id, <- (app_nil_r (flat_map _ _)).
  eapply finishes_bind; [by apply reads_changes|]. apply finishes_finish, finishes_ret.
Qed.

(** ** The published root *)

Section root.
Context `{Sha256}.

Definition root_bytes (gen : Z) (r : Child) (live : Z) : Bytes :=
  abytes root_magic ++ be_bytes 8 gen ++ be_bytes 8 (c_offset r) ++ be_bytes 4 (c_size r) ++
  be_bytes 8 (c_count r) ++ abytes (c_hash r) ++ be_bytes 8 live.

Definition u64 (z : Z) : Prop := 0 <= z < 2 ^ 64.

(** A root as it is published: within its fields. *)
Record root_fits (gen : Z) (r : Child) (live : Z) : Prop := {
  rf_gen : u64 gen;
  rf_offset : u64 (c_offset r);
  rf_size : 0 <= c_size r < 2 ^ 32;
  rf_count : u64 (c_count r);
  rf_live : u64 live
}.

Lemma encode_root_ok gen r live :
  encode_root gen r live =
  Ok (root_bytes gen r live ++ abytes (sha256 (root_bytes gen r live))).
Proof.
  unfold encode_root, write_root. rewrite (writes_run _ (root_bytes gen r live)).
  - cbn [mbind result_bind]. apply writes_run. apply writes_seq; auto with codec.
  - unfold root_bytes. solve_writes.
Qed.

Lemma decode_root_ok gen r live :
  root_fits gen r live ->
  decode_root (root_bytes gen r live ++ abytes (sha256 (root_bytes gen r live))) =
  Ok (false, gen, if c_empty r then no_child else drop_node r, live).
Proof.
  intros [Hg Ho Hz Hc Hl]. unfold decode_root.
  set (bs := root_bytes gen r live ++ _).
  assert (take (length bs - 32) bs = root_bytes gen r live) as Htake.
  { unfold bs. rewrite length_app, array_length, Nat.add_sub. apply take_app_length. }
  rewrite Htake. unfold bs. apply finishes_run. unfold root_bytes. rewrite <- !app_assoc.
  eapply finishes_bind; [apply reads_fixed|].
  rewrite bool_decide_eq_true_2 by done.
  replace (bool_decide (root_magic = format1_root_magic)) with false by (vm_compute; done).
  cbn [negb andb].
  eapply finishes_bind; [apply reads_u64; exact Hg|].
  eapply finishes_bind; [apply reads_u64; exact Ho|].
  eapply finishes_bind; [apply reads_u32; exact Hz|].
  eapply finishes_bind; [apply reads_u64; exact Hc|].
  eapply finishes_bind; [apply reads_fixed|].
  eapply finishes_bind; [apply reads_u64; exact Hl|].
  rewrite <- (app_nil_r (abytes (sha256 _))). eapply finishes_bind; [apply reads_fixed|].
  apply finishes_finish. fold (root_bytes gen r live).
  rewrite bool_decide_eq_true_2 by done. cbn [negb].
  fold (c_empty r). unfold drop_node. apply finishes_ret.
Qed.

End root.

(** ** Batches of changes *)

(** Batches merged one after another. *)
Definition merge_all (records : list Rec) (parts : list (list Change)) : list Rec :=
  foldl merge_changes records parts.

Lemma change_of_app id a b :
  change_of id (a ++ b) = match change_of id a with Some v => Some v | None => change_of id b end.
Proof. induction a as [|c a IH]; simpl; [done|]. by destruct (decide _). Qed.

Lemma change_of_elem id l : is_Some (change_of id l) <-> exists c, c ∈ l /\ ch_id c = id.
Proof.
  induction l as [|c l IH]; simpl.
  - split; [by intros [v ?] | by intros (c & ?%not_elem_of_nil & _)].
  - destruct (decide (id = ch_id c)) as [->|Hne].
    + split; [|by eexists]. intros _. exists c. split; [by left | done].
    + rewrite IH. split; intros (x & Hx & Ex); exists x; (split; [|done]); [by right|].
      apply elem_of_cons in Hx as [->|]; done.
Qed.

Lemma sorted_changes_app a b :
  sorted_changes (a ++ b) <->
  (forall x y, x ∈ a -> y ∈ b -> key_lt (ch_id x) (ch_id y)) /\ sorted_changes a /\ sorted_changes b.
Proof.
  unfold sorted_changes, sorted_keys. rewrite fmap_app, StronglySorted_app.
  split; intros (H1 & H2 & H3); split_and!; try done.
  - intros x y Hx Hy. apply H1; by apply list_elem_of_fmap_2.
  - intros x y (c & -> & Hc)%list_elem_of_fmap (c' & -> & Hc')%list_elem_of_fmap. auto.
Qed.

Lemma merge_app records a b :
  sorted_recs records -> sorted_changes (a ++ b) ->
  merge_changes records (a ++ b) = merge_changes (merge_changes records a) b.
Proof.
  intros Hs Hab. pose proof Hab as (Hlt & Ha & Hb)%sorted_changes_app.
  apply sorted_recs_ext; [by apply merge_sorted | apply merge_sorted; [done | by apply merge_sorted]|].
  intros id. rewrite !merge_lookup by (done || by apply merge_sorted).
  rewrite change_of_app. destruct (change_of id a) as [v|] eqn:Ea; [|done].
  destruct (change_of id b) as [w|] eqn:Eb; [|done]. exfalso.
  destruct (proj1 (change_of_elem id a)) as (x & Hx & Ex); [by eexists|].
  destruct (proj1 (change_of_elem id b)) as (y & Hy & Ey); [by eexists|].
  apply (key_lt_irrefl id). rewrite <- Ex at 1. rewrite <- Ey. by apply Hlt.
Qed.

Lemma chunks_merge n fuel records changes :
  (0 < n)%nat -> (length changes <= fuel)%nat -> sorted_recs records -> sorted_changes changes ->
  merge_all records (chunks n fuel changes) = merge_changes records changes.
Proof.
  intros Hn. revert records changes. induction fuel as [|fuel IH]; intros records changes Hl Hs Hc.
  { destruct changes; [done | simpl in Hl; lia]. }
  destruct changes as [|c changes]; [done|]. cbn [chunks]. unfold merge_all. cbn [foldl].
  set (l := c :: changes) in *. rewrite <- (take_drop n l) in Hc.
  pose proof Hc as (_ & Ht & Hd)%sorted_changes_app.
  rewrite <- (take_drop n l) at 3. rewrite merge_app by done.
  apply IH; [|by apply merge_sorted | done]. rewrite length_drop. unfold l. simpl in *. lia.
Qed.

Lemma chunks_elem n fuel changes part :
  (0 < n)%nat -> part ∈ chunks n fuel changes ->
  part <> [] /\ (length part <= n)%nat /\ (forall c, c ∈ part -> c ∈ changes) /\
  (sorted_changes changes -> sorted_changes part).
Proof.
  intros Hn. revert changes. induction fuel as [|fuel IH]; intros changes Hp; simpl in Hp.
  { by apply not_elem_of_nil in Hp. }
  destruct changes as [|c changes]; [by apply not_elem_of_nil in Hp|].
  set (l := c :: changes) in *. apply elem_of_cons in Hp as [->|Hp].
  - split_and!.
    + destruct n; [lia | done].
    + rewrite length_take. lia.
    + intros x Hx. rewrite <- (take_drop n l). apply elem_of_app. by left.
    + intros Hs. rewrite <- (take_drop n l) in Hs. by apply sorted_changes_app in Hs as (_ & ? & _).
  - destruct (IH _ Hp) as (Hne & Hl & Hin & Hs). split_and!; try done.
    + intros x Hx. rewrite <- (take_drop n l). apply elem_of_app. right. by apply Hin.
    + intros Hsl. apply Hs. rewrite <- (take_drop n l) in Hsl. by apply sorted_changes_app in Hsl as (_ & _ & ?).
Qed.

(** *** Records after batches *)

Definition total (records : list Rec) (parts : list (list Change)) : Z :=
  Z.of_nat (length records + length (concat parts)).

(** Batches that keep the records within bounds. *)
Record batches_ok (records : list Rec) (parts : list (list Change)) : Prop := {
  bo_records : wf_recs 32 records;
  bo_parts : Forall (fun part => sorted_changes part /\ Forall change_fits part) parts;
  bo_total : total records parts < 2 ^ 64
}.

Lemma filter_split_length (id : ObjectId) (l : list Rec) :
  (length (base.filter (fun r : Rec => key_lt r.1 id) l) +
   length (base.filter (fun r : Rec => key_lt id r.1) l) <= length l)%nat.
Proof.
  induction l as [|r l IH]; [done|]. rewrite !filter_cons.
  destruct (decide (key_lt r.1 id)) as [Hlt|], (decide (key_lt id r.1)) as [Hgt|]; simpl; try lia.
  exfalso. apply (key_lt_irrefl id). by transitivity r.1.
Qed.

Lemma merge_length records changes :
  sorted_recs records -> (length (merge_changes records changes) <= length records + length changes)%nat.
Proof.
  revert records. induction changes as [|c changes IH]; intros records Hs; [simpl; lia|].
  rewrite merge_changes_cons, !length_app by done. cbn [length].
  pose proof (filter_split_length (ch_id c) records).
  specialize (IH _ (sorted_recs_filter (fun r : Rec => key_lt (ch_id c) r.1) records Hs)).
  destruct (ch_value c); simpl; lia.
Qed.

Lemma merge_wf records changes :
  wf_recs 32 records -> sorted_changes changes -> Forall change_fits changes ->
  Z.of_nat (length records + length changes) < 2 ^ 64 -> wf_recs 32 (merge_changes records changes).
Proof.
  intros [Hk Hs Hv Hsh Hc] Hsort Hfit Hlen. pose proof (merge_length records changes Hs). split.
  - done.
  - by apply merge_sorted.
  - apply Forall_forall. intros r [Hr|(c & Hr & Ei & Ev)]%merge_elem; [| |done].
    + rewrite Forall_forall in Hv. by apply Hv.
    + rewrite Forall_forall in Hfit. specialize (Hfit c Hr). unfold change_fits in Hfit.
      by rewrite Ev in Hfit.
  - apply share_0.
  - lia.
Qed.

Lemma batches_ok_cons records part parts :
  batches_ok records (part :: parts) -> batches_ok (merge_changes records part) parts.
Proof.
  intros [Hr Hp Ht]. apply Forall_cons in Hp as [[Hs Hf] Hp]. unfold total in *. cbn [concat] in Ht.
  rewrite length_app in Ht. pose proof (merge_length records part (wf_sorted _ _ Hr)). split; [|done|].
  - apply merge_wf; [done..|]. lia.
  - unfold total. lia.
Qed.

Lemma batches_wf records parts : batches_ok records parts -> wf_recs 32 (merge_all records parts).
Proof.
  revert records. induction parts as [|part parts IH]; intros records Hb; [apply Hb|].
  by apply IH, batches_ok_cons.
Qed.

Lemma batches_ok_app records parts more :
  batches_ok records (parts ++ more) -> batches_ok records parts /\ batches_ok (merge_all records parts) more.
Proof.
  intros Hb. split.
  - destruct Hb as [Hr Hp Ht]. apply Forall_app in Hp as [Hp _]. split; [done..|].
    unfold total in *. rewrite concat_app, length_app in Ht. lia.
  - revert records Hb. induction parts as [|part parts IH]; intros records Hb; [done|].
    by apply IH, batches_ok_cons.
Qed.

Lemma batches_take records parts n : batches_ok records parts -> batches_ok records (take n parts).
Proof. intros Hb. rewrite <- (take_drop n parts) in Hb. by apply batches_ok_app in Hb as [? _]. Qed.

Lemma merge_all_length records parts :
  batches_ok records parts -> Z.of_nat (length (merge_all records parts)) <= total records parts.
Proof.
  unfold total. revert records. induction parts as [|part parts IH]; intros records Hb.
  { simpl. lia. }
  pose proof (bo_records _ _ Hb) as Hr. specialize (IH _ (batches_ok_cons _ _ _ Hb)).
  pose proof (merge_length records part (wf_sorted _ _ Hr)). cbn [concat]. rewrite length_app.
  change (merge_all records (part :: parts)) with (merge_all (merge_changes records part) parts). lia.
Qed.

(** The last change to an id in some batches. *)
Definition last_change (id : ObjectId) (parts : list (list Change)) : option (option Bytes) :=
  foldl (fun acc part => match change_of id part with Some v => Some v | None => acc end) None parts.

Lemma merge_all_lookup id records parts :
  batches_ok records parts ->
  alookup id (merge_all records parts) =
  match last_change id parts with Some v => v | None => alookup id records end.
Proof.
  induction parts as [|part parts IH] using rev_ind; intros Hb; [done|].
  unfold merge_all, last_change in *. rewrite !foldl_app. cbn [foldl].
  pose proof (bo_parts _ _ Hb) as Hp. apply Forall_app in Hp as [_ Hp].
  apply Forall_cons in Hp as [[Hs _] _]. apply batches_ok_app in Hb as [Hb _].
  rewrite merge_lookup by (done || apply (wf_sorted _ _ (batches_wf _ _ Hb))).
  destruct (change_of id part); [done | by apply IH].
Qed.

(** Batches applied again change nothing: a journal replayed over a root that
    already has its changes leaves the records as they are. *)
Lemma merge_all_again records parts :
  batches_ok records parts -> total records parts < 2 ^ 63 ->
  batches_ok (merge_all records parts) parts /\
  merge_all (merge_all records parts) parts = merge_all records parts.
Proof.
  intros Hb Ht. pose proof (merge_all_length _ _ Hb) as Hl.
  assert (batches_ok (merge_all records parts) parts) as Hb'.
  { destruct Hb as [Hr Hp _]. split; [apply batches_wf; split; [done..|lia] | done |].
    unfold total in *. lia. }
  split; [done|].
  apply sorted_recs_ext; [apply (wf_sorted _ _ (batches_wf _ _ Hb')) | apply (wf_sorted _ _ (batches_wf _ _ Hb)) |].
  intros id. rewrite !merge_all_lookup by done. by destruct (last_change id parts).
Qed.

(** ** Sorting a batch, later changes winning *)

Lemma insert_change_filter id c l :
  base.filter (fun x => ch_id x = id) (insert_by change_ltb c l) =
  base.filter (fun x => ch_id x = id) (c :: l).
Proof.
  induction l as [|x l IH]; [done|]. cbn [insert_by]. destruct (change_ltb x c) eqn:E; [|done].
  rewrite (filter_cons _ x), IH, !filter_cons.
  destruct (decide (ch_id x = id)) as [Hx|], (decide (ch_id c = id)) as [Hc|]; try done.
  exfalso. unfold change_ltb in E. rewrite Hx, Hc, key_irrefl in E. done.
Qed.

Lemma stable_sort_filter id l :
  base.filter (fun x => ch_id x = id) (stable_sort change_ltb l) =
  base.filter (fun x => ch_id x = id) l.
Proof.
  induction l as [|c l IH]; [done|]. cbn [stable_sort foldr].
  change (foldr (insert_by change_ltb) [] l) with (stable_sort change_ltb l).
  rewrite insert_change_filter, !filter_cons. by rewrite IH.
Qed.

(** Never decreasing. *)
Definition weakly_sorted (l : list Change) : Prop := StronglySorted (fun x y => change_ltb y x = false) l.

Lemma insert_change_elem c l x : x ∈ insert_by change_ltb c l <-> x = c \/ x ∈ l.
Proof.
  induction l as [|y l IH]; cbn [insert_by]; [by rewrite list_elem_of_singleton, elem_of_nil; tauto|].
  destruct (change_ltb y c); rewrite ?elem_of_cons, ?IH; tauto.
Qed.

Lemma insert_change_sorted c l : weakly_sorted l -> weakly_sorted (insert_by change_ltb c l).
Proof.
  induction l as [|x l IH]; intros Hs; cbn [insert_by]; [repeat constructor|].
  pose proof Hs as [Hx Hs']%StronglySorted_cons. destruct (change_ltb x c) eqn:E.
  - apply StronglySorted_cons. split; [|by apply IH]. apply Forall_forall.
    intros y [->|Hy]%insert_change_elem; [by apply key_lt_asym | rewrite Forall_forall in Hx; by apply Hx].
  - apply StronglySorted_cons. split; [|done]. apply Forall_cons. split; [done|].
    eapply Forall_impl; [exact Hx|]. intros y Hy. unfold change_ltb in *.
    destruct (key_ltb (ch_id y) (ch_id c)) eqn:Eyc; [|done]. exfalso.
    destruct (key_trichotomy (ch_id x) (ch_id y)) as [Hlt|[Heq|Hlt]]; unfold key_lt in *.
    + rewrite (key_trans _ _ _ Hlt Eyc) in E. done.
    + rewrite Heq in E. congruence.
    + congruence.
Qed.

Lemma stable_sort_sorted l : weakly_sorted (stable_sort change_ltb l).
Proof. induction l as [|c l IH]; [constructor|]. by apply insert_change_sorted. Qed.

Lemma unique_step_ok u c :
  sorted_changes u -> (forall x, x ∈ u -> key_lt (ch_id x) (ch_id c) \/ ch_id x = ch_id c) ->
  sorted_changes (unique_step u c) /\
  forall id, change_of id (unique_step u c) = change_of id (c :: u).
Proof.
  intros Hs Hle. unfold unique_step.
  destruct (last u) as [l|] eqn:El.
  2:{ apply last_None in El as ->. split; [by repeat constructor | done]. }
  apply last_Some in El as [u' ->]. pose proof Hs as (Hlt & Hs' & _)%sorted_changes_app.
  assert (forall x, x ∈ u' -> key_lt (ch_id x) (ch_id l)) as Hbelow by (intros x Hx; apply Hlt; [done | by left]).
  assert (forall id a b, change_of id (a ++ [b]) = match change_of id a with Some v => Some v
    | None => if decide (id = ch_id b) then Some (ch_value b) else None end) as Hsnoc
    by (intros; by rewrite change_of_app).
  destruct (bool_decide_reflect (ch_id l = ch_id c)) as [E|E].
  - rewrite removelast_last. split.
    + apply sorted_changes_app. split_and!; [|done | by repeat constructor].
      intros x y Hx ->%list_elem_of_singleton. rewrite <- E. by apply Hbelow.
    + intros id. cbn [change_of]. rewrite !Hsnoc, E. destruct (decide (id = ch_id c)) as [->|]; [|done].
      destruct (change_of (ch_id c) u') eqn:Eu; [|done]. exfalso.
      destruct (proj1 (change_of_elem (ch_id c) u')) as (x & Hx & Ex); [by eexists|].
      apply (key_lt_irrefl (ch_id c)). rewrite <- Ex at 1. rewrite <- E. by apply Hbelow.
  - assert (key_lt (ch_id l) (ch_id c)) as Hlc by (destruct (Hle l); [set_solver | done | done]).
    assert (forall x, x ∈ u' ++ [l] -> key_lt (ch_id x) (ch_id c)) as Hall.
    { intros x [Hx| ->%list_elem_of_singleton]%elem_of_app; [|done]. transitivity (ch_id l); [by apply Hbelow | done]. }
    split.
    + apply sorted_changes_app. split_and!; [|done | by repeat constructor].
      intros x y Hx ->%list_elem_of_singleton. by apply Hall.
    + intros id. cbn [change_of]. rewrite (Hsnoc id (u' ++ [l])).
      destruct (decide (id = ch_id c)) as [->|]; [|by destruct (change_of id (u' ++ [l]))].
      destruct (change_of (ch_id c) (u' ++ [l])) eqn:Eu; [|done]. exfalso.
      destruct (proj1 (change_of_elem (ch_id c) (u' ++ [l]))) as (x & Hx & Ex); [by eexists|].
      apply (key_lt_irrefl (ch_id c)). rewrite <- Ex at 1. by apply Hall.
Qed.

(** What is kept after some of the sorted changes: one change an id, the last
    of them. *)
Lemma unique_fold done_ rest u :
  weakly_sorted (done_ ++ rest) -> sorted_changes u ->
  (forall id, change_of id u = change_of id (rev done_)) ->
  let out := foldl unique_step u rest in
  sorted_changes out /\ forall id, change_of id out = change_of id (rev (done_ ++ rest)).
Proof.
  revert done_ u. induction rest as [|c rest IH]; intros done_ u Hw Hs Hof; [by rewrite app_nil_r|].
  cbn [foldl]. destruct (unique_step_ok u c Hs) as [Hs' Hof'].
  - intros x Hx.
    destruct (proj1 (change_of_elem (ch_id x) (rev done_))) as (y & Hy & <-).
    { rewrite <- Hof. apply change_of_elem. by exists x. }
    apply list_elem_of_In, in_rev, list_elem_of_In in Hy.
    apply StronglySorted_app in Hw as (Hw & _ & _).
    specialize (Hw y c Hy ltac:(by left)). unfold change_ltb in Hw.
    destruct (key_trichotomy (ch_id y) (ch_id c)) as [?|[?|Hlt]]; [by left | by right|].
    unfold key_lt in Hlt. congruence.
  - replace (done_ ++ c :: rest) with ((done_ ++ [c]) ++ rest) in * by (by rewrite <- app_assoc).
    apply IH; [done..|]. intros id. rewrite Hof', rev_app_distr. simpl. by rewrite Hof.
Qed.

(** A batch is sorted, and leaves each id what its last change says. *)
Lemma unique_changes_ok input :
  sorted_changes (unique_changes input) /\
  forall id, change_of id (unique_changes input) = change_of id (rev input).
Proof.
  unfold unique_changes.
  destruct (unique_fold [] (stable_sort change_ltb input) []) as [Hs Hof];
    [apply stable_sort_sorted | constructor | done |].
  split; [done|]. intros id. rewrite Hof. simpl.
  assert (forall l, change_of id (rev l) = change_of id (rev (base.filter (fun x => ch_id x = id) l))) as Hf.
  { intros l. induction l as [|c l IH]; [done|]. simpl. rewrite change_of_app, IH, filter_cons. simpl.
    destruct (decide (ch_id c = id)) as [E|E]; simpl; [by rewrite change_of_app|].
    rewrite decide_False by congruence. by case_match. }
  by rewrite (Hf (stable_sort _ _)), stable_sort_filter, <- Hf.
Qed.

(** ** The open trie's invariant *)

Section ledger.
Context `{Sha256, AesGcm, !AesGcmSpec, Entropy, Footprint}.

(** One of the trie's two files, under its key and tag. A closed descriptor
    means everything is durable. *)
Record file_like (k : array 32) (a : array 8) (j : SealedJournal.t) : Prop := {
  fl_file : file_ok j;
  fl_key : SealedJournal.key j = k;
  fl_aad : SealedJournal.aad j = a;
  fl_max : SealedJournal.max_frame j = max_frame;
  fl_closed : SealedJournal.fd_open j = false ->
    SealedJournal.durable j = length (SealedJournal.contents j)
}.

(** What is in memory and in the node file: [records]. *)
Record mem_ok (world : World) (records : list Rec) (s : t) : Prop := {
  mo_core : core_ok world (generation s) (nodes s) (core s);
  mo_wf : wf_recs 32 records;
  mo_root : Repr (world (generation s)) 32 (root s) records;
  mo_nodes : file_like (key s) nodes_aad (nodes s);
  mo_gen : u64 (generation s);
  mo_live : u64 (live_bytes s);
  mo_later : forall g o q, generation s < g -> world g o <> Ok q
}.

(** Methods that change no file. *)
Definition same_files (s s' : t) : Prop :=
  journal s' = journal s /\ nodes s' = nodes s /\ root_file s' = root_file s /\
  generation s' = generation s /\ key s' = key s /\ options s' = options s /\
  live_bytes s' = live_bytes s.

Lemma on_core_ok {A} (m : ST JCore A) s a c :
  m (core s) = (Ok a, c) -> on_core m s = (Ok a, set_core c s).
Proof. intros E. unfold on_core. by rewrite E. Qed.

Lemma mem_ok_core world records s c :
  mem_ok world records s -> core_ok world (generation s) (nodes s) c ->
  mem_ok world records (set_core c s) /\ same_files s (set_core c s).
Proof.
  intros [Hc Hwf HR Hn Hg Hl Hlater] Hc'. pose proof Hc' as (Eg & En & _).
  assert (generation (set_core c s) = generation s) as Eg' by done.
  assert (nodes (set_core c s) = nodes s) as En' by done.
  split; [|by unfold same_files]. split; rewrite ?Eg', ?En'; done.
Qed.

Lemma mem_ok_root world records records' s r :
  mem_ok world records s -> wf_recs 32 records' -> Repr (world (generation s)) 32 r records' ->
  mem_ok world records' (set_root r s) /\ same_files s (set_root r s).
Proof. intros [Hc Hwf HR Hn Hg Hl Hlater] Hwf' HR'. split; [by split | by unfold same_files]. Qed.

Lemma same_files_trans s1 s2 s3 : same_files s1 s2 -> same_files s2 s3 -> same_files s1 s3.
Proof. unfold same_files. intros (? & ? & ? & ? & ? & ? & ?) (? & ? & ? & ? & ? & ? & ?). split_and!; congruence. Qed.

(** *** Lookups *)

Lemma get_ok world records s id :
  mem_ok world records s ->
  exists s', get id s = (Ok (alookup id records), s') /\ mem_ok world records s' /\ same_files s s'.
Proof.
  intros Hs. destruct (find_ok (world (generation s)) load (core_ok world (generation s) (nodes s))
    (root s) id records (core s)) as (c & Hf & Hc); [apply Hs..|].
  exists (set_core c s). split; [|by apply mem_ok_core]. unfold get.
  rewrite (st_bind_ok _ _ _ (root s) s) by done. by apply on_core_ok.
Qed.

Lemma ledger_next_ok world records s after limit :
  mem_ok world records s ->
  exists s', next after limit s = (Ok (take limit (after_bound after records)), s') /\
    mem_ok world records s' /\ same_files s s'.
Proof.
  intros Hs. destruct (TrieOps.next_ok (world (generation s)) load (core_ok world (generation s) (nodes s))
    (root s) after limit records (core s)) as (c & Hf & Hc); [apply Hs..|].
  exists (set_core c s). split; [|by apply mem_ok_core]. unfold next.
  rewrite (st_bind_ok _ _ _ (root s) s) by done. by apply on_core_ok.
Qed.

Lemma Repr_with_node rd k c n records :
  records <> [] -> Repr rd k c records -> locates rd c n -> Repr rd k (with_node c n) records.
Proof.
  intros Hne HR Hloc. apply Repr_cons in HR as (Hc & Hh & n' & Hloc' & HN); [|done].
  assert (n' = n) as -> by (by eapply locates_unique).
  apply Repr_cons; [done|]. split; [done|]. split; [done|]. exists n. split; [|done].
  unfold locates in *. simpl. destruct (decide (c_offset c = unsaved)); [done|].
  destruct Hloc as (Ho & Hz & _ & Hb). refine (conj Ho (conj Hz (conj _ Hb))). by right.
Qed.

Lemma load_root_ok world records s :
  mem_ok world records s ->
  exists s', load_root s = (Ok tt, s') /\ mem_ok world records s' /\ same_files s s'.
Proof.
  intros Hs. unfold load_root. rewrite (st_bind_ok _ _ _ (root s) s) by done.
  pose proof (mo_root _ _ _ Hs) as HR. rewrite (Repr_empty _ _ _ _ HR).
  destruct (bool_decide_reflect (records = [])) as [->|Hne].
  { exists s. by unfold same_files. }
  destruct (core_loader world (generation s) (nodes s) 32%nat (root s) records (core s))
    as (n & c & Hld & _ & Hloc & Hc); [apply Hs | done | done |].
  rewrite (st_bind_ok _ _ _ n (set_core c s)) by (by apply on_core_ok).
  destruct (mem_ok_core _ _ _ _ Hs Hc) as [Hs1 Hf1].
  eexists. split; [reflexivity|].
  destruct (mem_ok_root world records records (set_core c s) (with_node (root s) n)) as [Hs2 Hf2];
    [done | apply Hs | |].
  - pose proof Hc as (Eg & _). assert (generation (set_core c s) = generation s) as -> by done.
    by apply Repr_with_node.
  - split; [exact Hs2 | by eapply same_files_trans].
Qed.

(** *** Changes *)

Lemma share_nil {A} (key : A -> ObjectId) l : share key (32 - 32) l.
Proof. apply share_0. Qed.

Lemma apply_unjournaled_ok world records s changes :
  mem_ok world records s -> sorted_changes changes ->
  wf_recs 32 (merge_changes records changes) ->
  exists s', apply_unjournaled changes s = (Ok tt, s') /\
    mem_ok world (merge_changes records changes) s' /\ same_files s s'.
Proof.
  intros Hs Hsort Hwf'. unfold apply_unjournaled. rewrite (st_bind_ok _ _ _ (root s) s) by done.
  destruct (mutate_ok world (generation s) (nodes s) 32 (root s) changes records (core s))
    as (r & c & Hm & Hc & HR); [apply Hs.. | done | done | apply share_nil | apply Hs |].
  rewrite (st_bind_ok _ _ _ r (set_core c s)) by (by apply on_core_ok).
  destruct (mem_ok_core _ _ _ _ Hs Hc) as [Hs1 Hf1].
  eexists. split; [reflexivity|].
  destruct (mem_ok_root world records (merge_changes records changes) (set_core c s) r) as [Hs2 Hf2];
    [done | done | |].
  - pose proof Hc as (Eg & _). by assert (generation (set_core c s) = generation s) as -> by done.
  - split; [exact Hs2 | by eapply same_files_trans].
Qed.

(** Frames as they are replayed. *)
Definition frames_parts (l : list (array 12 * Bytes)) (parts : list (list Change)) : Prop :=
  Forall2 (fun p part => decode_changes p.2 = Ok part /\ sorted_changes part) l parts.

Lemma replay_frames_ok world records s l parts :
  mem_ok world records s -> frames_parts l parts -> batches_ok records parts ->
  exists s', apply_frames replay_frame l s = (Ok tt, s') /\
    mem_ok world (merge_all records parts) s' /\ same_files s s'.
Proof.
  intros Hs Hl. revert records s Hs. induction Hl as [|[nonce plain] part l parts [Hdec Hsort] Hl IH];
    intros records s Hs Hwf.
  { exists s. by unfold same_files. }
  apply batches_ok_cons in Hwf. simpl in Hdec. cbn [apply_frames].
  destruct (apply_unjournaled_ok world records s part) as (s1 & Ha & Hs1 & Hf1);
    [done | done | apply Hwf |].
  assert (replay_frame plain s = (Ok tt, s1)) as ->.
  { unfold replay_frame. by rewrite (st_bind_ok _ _ _ part s) by (unfold st_lift; by rewrite Hdec). }
  destruct (IH _ _ Hs1 Hwf) as (s2 & Ha2 & Hs2 & Hf2). exists s2.
  split_and!; [done | done | by eapply same_files_trans].
Qed.

(** *** The node file growing *)

(** Appended to and nothing else. *)
Record grown (j j' : SealedJournal.t) : Prop := {
  gr_key : SealedJournal.key j' = SealedJournal.key j;
  gr_aad : SealedJournal.aad j' = SealedJournal.aad j;
  gr_max : SealedJournal.max_frame j' = SealedJournal.max_frame j;
  gr_durable : SealedJournal.durable j' = SealedJournal.durable j;
  gr_contents : exists more, SealedJournal.contents j' = SealedJournal.contents j ++ more;
  gr_fd : SealedJournal.fd_open j' = true \/
    SealedJournal.fd_open j' = SealedJournal.fd_open j /\
    SealedJournal.contents j' = SealedJournal.contents j
}.

Lemma grown_refl j : grown j j.
Proof. split; try done; [exists []; by rewrite app_nil_r | by right]. Qed.

Lemma append_grown j0 bytes : keeps (grown j0) (SealedJournal.append_unsynced bytes).
Proof.
  intros j r j' [Hk Ha Hm Hd [more Hc] Hfd]. unfold SealedJournal.append_unsynced, SealedJournal.append_unsynced_on.
  destruct (SealedJournal.seal_frame j bytes) as [fr|e].
  - cbn [SealedJournal.write_all]. intros [= <- <-].
    assert (SealedJournal.contents (SealedJournal.get_fd (SealedJournal.drew j)) = SealedJournal.contents j)
      as Hg by (by rewrite get_fd_contents).
    unfold SealedJournal.get_fd, SealedJournal.drew in *.
    destruct (SealedJournal.fd_open j) eqn:Efd; simpl in *;
      (split; simpl; try done; [|by left]);
      unfold SealedJournal.contents in *; simpl in *; rewrite Hc;
      exists (more ++ fr); by rewrite app_assoc.
  - intros [= <- <-]. split; simpl; try done. by exists more.
Qed.

Lemma grown_like k a j j' : file_like k a j -> file_ok j' -> grown j j' -> file_like k a j'.
Proof.
  intros [Hf Hk Ha Hm Hc] Hf' [Gk Ga Gm Gd Gc Gfd]. split; try congruence.
  intros E. destruct Gfd as [?|[Efd Ec]]; [congruence|]. rewrite Gd, Ec. apply Hc. congruence.
Qed.

Definition durable_rd (j : SealedJournal.t) : Z -> result Bytes :=
  SealedJournal.read_frame (take (SealedJournal.durable j) (SealedJournal.contents j))
    (SealedJournal.key j) (SealedJournal.aad j) (SealedJournal.max_frame j)
    (Z.of_nat (SealedJournal.durable j)).

(** Whatever is read of the durable part is read of any longer part. *)
Lemma durable_rd_longer (j : SealedJournal.t) f limit :
  (SealedJournal.durable j <= length (SealedJournal.contents j))%nat ->
  (exists more, f = take (SealedJournal.durable j) (SealedJournal.contents j) ++ more) ->
  Z.of_nat (SealedJournal.durable j) <= limit ->
  reads_all (durable_rd j) (SealedJournal.read_frame f (SealedJournal.key j) (SealedJournal.aad j)
    (SealedJournal.max_frame j) limit).
Proof. intros Hd [more ->] Hl o q. unfold durable_rd. by apply read_frame_grow. Qed.

Lemma durable_rd_all j :
  file_ok j -> SealedJournal.durable j = length (SealedJournal.contents j) ->
  durable_rd j = SealedJournal.read_at j.
Proof.
  intros [Hb _ _] Hd. unfold durable_rd, SealedJournal.read_at. rewrite Hd, firstn_all, Hb. done.
Qed.

(** A synced file: everything is durable, and nothing else changes. *)
Lemma sync_like k a j :
  file_like k a j ->
  exists j', SealedJournal.sync j = (Ok tt, j') /\ file_like k a j' /\
    SealedJournal.durable j' = length (SealedJournal.contents j') /\
    SealedJournal.contents j' = SealedJournal.contents j /\
    SealedJournal.bytes j' = SealedJournal.bytes j /\
    SealedJournal.read_at j' = SealedJournal.read_at j /\
    reads_all (durable_rd j) (durable_rd j').
Proof.
  intros Hj. pose proof Hj as [[Hb Hl Hd] Hk Ha Hm Hc]. unfold SealedJournal.sync.
  destruct (SealedJournal.fd_open j) eqn:E; eexists; (split; [reflexivity|]).
  - split_and!; try done. rewrite (durable_rd_all (SealedJournal.set_durable _ j)) by done.
    apply (durable_rd_longer j (SealedJournal.contents j)); [done| |simpl; lia].
    exists (drop (SealedJournal.durable j) (SealedJournal.contents j)). by rewrite take_drop.
  - split_and!; try done. by apply Hc.
Qed.

(** *** Saving the root *)

Definition capacity (records : list Rec) (s : t) : Prop :=
  shallow records /\ SealedJournal.bytes (nodes s) + room 32 (length records) < unsaved /\
  generation s + 1 < 2 ^ 64.

Definition world_grows (w w' : World) : Prop := forall g, reads_all (w g) (w' g).

Lemma cache_ok_grow world world' c : world_grows world world' -> cache_ok world c -> cache_ok world' c.
Proof.
  intros Hg Hc g off n b Hn. destruct (Hc _ _ _ _ Hn) as (bs & Hb & Hd). exists bs.
  split; [by apply Hg | done].
Qed.

Definition with_reads (world : World) (g : Z) (rd : Z -> result Bytes) : World :=
  fun g' => if g' =? g then rd else world g'.

Lemma with_reads_eq world g rd : with_reads world g rd g = rd.
Proof. unfold with_reads. by rewrite Z.eqb_refl. Qed.

(** Methods that leave the directory as it is but for the node file. *)
Definition same_dir (s s' : t) : Prop :=
  journal s' = journal s /\ root_file s' = root_file s /\ generation s' = generation s /\
  key s' = key s /\ options s' = options s.

Definition is_saved (records : list Rec) (r : Child) : Prop := records <> [] -> c_offset r <> unsaved.

Lemma save_root_ok world records s :
  mem_ok world records s -> capacity records s ->
  exists world' s', save_root s = (Ok tt, s') /\ mem_ok world' records s' /\
    world_grows world world' /\ same_dir s s' /\ is_saved records (root s') /\
    SealedJournal.durable (nodes s') = length (SealedJournal.contents (nodes s')) /\
    reads_all (durable_rd (nodes s)) (durable_rd (nodes s')) /\
    SealedJournal.bytes (nodes s') <= SealedJournal.bytes (nodes s) + room 32 (length records).
Proof.
  intros Hs (Hshallow & Hroom & _). pose proof Hs as [Hc Hwf HR Hn Hg Hlv Hlater].
  pose proof Hc as (Eg & En & Erd & Ef1 & Hcache).
  destruct (save_ok (F := SealedJournal.t) 32 (root s) records (nodes s)) as
    (saved & n1 & Hsave & Hok1 & Hmax1 & Hg1 & HR1 & Hoff & Hb1);
    [apply Hn | simpl; rewrite (fl_max _ _ _ Hn); done | done | done | lia | by rewrite Erd | done |].
  assert (grown (nodes s) n1) as Hgr.
  { eapply (save_keeps (grown (nodes s))); [apply append_grown | apply grown_refl | exact Hsave]. }
  pose proof (grown_like _ _ _ _ Hn Hok1 Hgr) as Hl1.
  destruct (sync_like _ _ n1 Hl1) as (n2 & Hsync & Hl2 & Hd2 & Hc2 & Hby2 & Hrd2 & Hdr2).
  set (world' := with_reads world (generation s) (SealedJournal.read_at n2)).
  assert (world_grows world world') as Hwg.
  { intros g. unfold world', with_reads. destruct (Z.eqb_spec g (generation s)) as [->|]; [|done].
    rewrite Hrd2, <- Erd. exact Hg1. }
  exists world'. unfold save_root. cbn [fs_bytes journal_frame_store] in Hb1.
  rewrite (st_bind_ok _ _ _ (SealedJournal.bytes (nodes s)) s) by done.
  rewrite (st_bind_ok _ _ _ (root s) s) by done.
  rewrite (st_bind_ok _ _ _ saved (set_core (set_nodes n1 (core s)) s)) by (unfold on_nodes; by rewrite Hsave).
  set (s1 := set_core (set_nodes n1 (core s)) s).
  rewrite (st_bind_ok _ _ _ tt (set_core (set_nodes n2 (core s1)) s1))
    by (unfold on_nodes; by rewrite (Hsync : SealedJournal.sync (nodes s1) = _)).
  set (s2 := set_core (set_nodes n2 (core s1)) s1).
  rewrite (st_bind_ok _ _ _ (SealedJournal.bytes n2) s2) by done.
  eexists. split; [reflexivity|].
  assert (Repr (world' (generation s)) 32 (drop_node saved) records) as HRd.
  { unfold world'. rewrite with_reads_eq, Hrd2.
    destruct (decide (records = [])) as [->|Hne]; [by apply Repr_nil in HR1 as ->|].
    apply Repr_drop; [by apply Hoff | done]. }
  split_and!; try done.
  - split; try done.
    + split_and!; try done; [unfold world', with_reads; simpl; fold (generation s); by rewrite Z.eqb_refl|].
      simpl. by eapply cache_ok_grow.
    + simpl. unfold u64. apply wrap64_range.
    + intros g o q Hgt. unfold world', with_reads.
      change (generation s < g) in Hgt.
      destruct (Z.eqb_spec g (generation s)); [lia|]. by apply Hlater.
  - transitivity (durable_rd n1); [|exact Hdr2].
    destruct Hgr as [Gk Ga Gm Gd [more Gc] _]. unfold durable_rd. rewrite Gk, Ga, Gm, Gd, Gc.
    rewrite take_app_le by apply Hn. done.
  - change (SealedJournal.bytes n2 <= SealedJournal.bytes (nodes s) + room 32 (length records)).
    rewrite Hby2. lia.
Qed.

(** *** What the directory holds *)

(** The published root and the node file hold [records], the journal the
    batches [parts] since. *)
Record dir_ok (records : list Rec) (parts : list (list Change)) (s : t) : Prop := {
  do_root : exists r live, open_root (root_file s) = Ok (false, generation s, r, live) /\
    u64 live /\ Repr (durable_rd (nodes s)) 32 r records;
  do_journal : file_like (key s) journal_aad (journal s);
  do_frames : exists l, journal_holds (journal s) l /\ frames_parts l parts;
  do_limit : Z.of_nat (length (SealedJournal.contents (journal s))) <= u64_max;
  do_wf : batches_ok records parts
}.

Lemma publish_root_ok world records s :
  mem_ok world records s -> is_saved records (root s) ->
  SealedJournal.durable (nodes s) = length (SealedJournal.contents (nodes s)) ->
  exists bs, publish_root s = (Ok tt, set_root_file (Some bs) s) /\
    exists r live, open_root (Some bs) = Ok (false, generation s, r, live) /\ u64 live /\
      Repr (durable_rd (nodes s)) 32 r records.
Proof.
  intros [Hc Hwf HR Hn Hg Hl _] Hsv Hd. unfold publish_root.
  rewrite (st_bind_ok _ _ _ s s) by done. pose proof Hc as (_ & _ & Erd & _).
  eexists. split.
  { rewrite (st_bind_ok _ _ _ (root_bytes (generation s) (root s) (live_bytes s) ++
      abytes (sha256 (root_bytes (generation s) (root s) (live_bytes s)))) s); [reflexivity|].
    unfold st_lift. by rewrite encode_root_ok. }
  eexists _, _. split; [cbn [open_root]; apply decode_root_ok|].
  2:{ split; [done|]. rewrite durable_rd_all by (done || apply Hn).
      change (SealedJournal.read_at (nodes s)) with (fs_read_at (nodes s)). rewrite Erd.
      rewrite (Repr_empty _ _ _ _ HR).
      destruct (bool_decide_reflect (records = [])) as [->|Hne]; [by apply Repr_nil|].
      apply Repr_drop; [by apply Hsv | done]. }
  destruct (decide (records = [])) as [->|Hne].
  { apply Repr_nil in HR. rewrite HR. split; simpl; try done; unfold unsaved; by vm_compute. }
  pose proof (Repr_count _ _ _ _ HR) as Hcount. pose proof (wf_count _ _ Hwf).
  apply Repr_cons in HR as (_ & _ & n & Hloc & _); [|done]. unfold locates in Hloc.
  rewrite decide_False in Hloc by (by apply Hsv). destruct Hloc as (Ho & Hz & _).
  split; try done; unfold u64, unsaved in *; lia.
Qed.

Lemma publish_root_journal s s' : publish_root s = (Ok tt, s') -> journal s' = journal s.
Proof.
  unfold publish_root. rewrite (st_bind_ok _ _ _ s s) by done.
  erewrite (st_bind_ok _ _ s); [|unfold st_lift; by rewrite encode_root_ok].
  unfold st_modify. by intros [= <-].
Qed.

Lemma reset_like k a j :
  file_like k a j ->
  file_like k a (SealedJournal.reset j) /\ journal_holds (SealedJournal.reset j) [].
Proof. intros [[Hb Hl Hd] Hk Ha Hm Hc]. repeat split; try done. Qed.

(** *** Rewriting *)

Section copy_section.
Context (world : World) (g : Z) (nd : SealedJournal.t).

Lemma copy_ok k c records s :
  core_ok world g nd s -> wf_recs k records -> Repr (world g) k c records ->
  exists c' s', copy k c s = (Ok c', s') /\ core_ok world g nd s' /\
    forall rd, Repr rd k c' records.
Proof.
  revert c records s. induction k as [|k IH]; intros c records s HI Hwf HR;
    (destruct (decide (records = [])) as [->|Hne];
     [exists no_child, s; split_and!; [|done|intros rd; by apply Repr_nil];
      cbn [copy]; by rewrite (Repr_empty _ _ _ _ HR)|]);
    destruct (core_loader world g nd _ c records s HI HR Hne) as (n & s1 & Hld & HN & _ & HI1);
    pose proof (Repr_empty _ _ _ _ HR) as Hemp; rewrite bool_decide_eq_false_2 in Hemp by done;
    pose proof HN as (Hd & _);
    (destruct (n_leaf n) eqn:Hleaf;
     [destruct (NodeRepr_leaf_inv _ _ _ _ HN Hleaf) as [Er Hle];
      destruct (make_leaf_ok (world g) _ records Hwf Hle) as (n' & Hn' & _);
      exists (child_of n'), s1; split_and!; [|done|];
      [cbn [copy]; rewrite Hemp, (st_bind_ok _ _ _ _ _ Hld), Hleaf, Er, Hd; unfold st_lift; by rewrite Hn'|];
      intros rd; destruct (make_leaf_ok rd _ records Hwf Hle) as (n'' & Hn'' & HN'');
      rewrite Hn' in Hn''; injection Hn'' as <-; by apply child_of_ok |]);
    destruct (NodeRepr_interior_inv _ _ _ _ Hwf HN Hleaf) as (k' & Ek & [Hl HS] & Hgt); [done|].
  injection Ek as <-.
  destruct (foldM_slots (fun i cs s => core_ok world g nd s /\ length cs = i /\
      forall rd j, (j < i)%nat -> Repr rd k (nth j cs no_child) (under (32 - Datatypes.S k) (n2b j) records))
    (fun done c => c' ← copy k c; mret (done ++ [c'])) (n_children n) [] s1)
    as (cs & s2 & Hfold & HI2 & Hl2 & HS2).
  - done.
  - split_and!; [done..|]. intros; lia.
  - intros i cs s2 Hi (HI2 & Hl2 & HS2).
    destruct (IH _ _ s2 HI2 (wf_under k (n2b i) records Hwf) (HS i Hi)) as (c' & s3 & Hcp & HI3 & HR3).
    rewrite (st_bind_ok _ _ _ _ _ Hcp). eexists _, s3. split; [reflexivity|].
    rewrite length_app. cbn [length]. split_and!; [done | lia |].
    intros rd j Hj. rewrite nth_lookup. destruct (decide (j = i)) as [->|Hji].
    + rewrite list_lookup_middle by done. apply HR3.
    + rewrite lookup_app_l, <- nth_lookup by lia. apply HS2. lia.
  - destruct (make_interior_ok (world g) k cs records Hwf Hgt) as (n' & Hn' & _); [split; [done|]; intros; by apply HS2|].
    exists (child_of n'), s2. split_and!; [|done|].
    + cbn [copy]. rewrite Hemp, (st_bind_ok _ _ _ _ _ Hld), Hleaf, (st_bind_ok _ _ _ _ _ Hfold), Hd.
      unfold st_lift. by rewrite Hn'.
    + intros rd. destruct (make_interior_ok rd k cs records Hwf Hgt) as (n'' & Hn'' & HN'' & _);
        [split; [done|]; intros; by apply HS2|].
      rewrite Hn' in Hn''. injection Hn'' as <-. by apply child_of_ok.
Qed.
End copy_section.

Lemma fresh_like k :
  file_like k nodes_aad (SealedJournal.open None k nodes_aad max_frame).
Proof. repeat split; try done; simpl; lia. Qed.

(** The next generation's file has everything, durably; nothing else has
    changed. *)
Lemma fill_next_ok world records s :
  mem_ok world records s -> shallow records -> room 32 (length records) < unsaved ->
  exists rewritten fresh s', fill_next s = (Ok (rewritten, fresh), s') /\
    mem_ok world records s' /\ same_files s s' /\
    file_like (key s) nodes_aad fresh /\
    SealedJournal.durable fresh = length (SealedJournal.contents fresh) /\
    Repr (SealedJournal.read_at fresh) 32 rewritten records /\ is_saved records rewritten /\
    u64 (SealedJournal.bytes fresh) /\ SealedJournal.bytes fresh <= room 32 (length records).
Proof.
  intros Hs Hshallow Hroom. pose proof Hs as [Hc Hwf HR Hn _ _ _].
  unfold fill_next. rewrite (st_bind_ok _ _ _ s s) by done.
  destruct (copy_ok world (generation s) (nodes s) 32 (root s) records (core s)) as (cp & c & Hcp & Hc' & HRc);
    [done..|].
  rewrite (st_bind_ok _ _ _ cp (set_core c s)) by (by apply on_core_ok).
  set (f0 := SealedJournal.open None (key s) nodes_aad max_frame).
  pose proof (fresh_like (key s)) as Hf0. fold f0 in Hf0.
  pose proof (fs_bytes_nonneg (F := SealedJournal.t) (nodes s) (fl_file _ _ _ Hn)) as Hnn.
  cbn [fs_bytes journal_frame_store] in Hnn.
  destruct (save_ok (F := SealedJournal.t) 32 cp records f0) as
    (rw & f1 & Hsave & Hok1 & Hmax1 & Hg1 & HR1 & Hoff & Hb1);
    [apply Hf0 | done | done | done | lia | apply HRc |
     change (fs_bytes f0) with 0; lia |].
  assert (grown f0 f1) as Hgr.
  { eapply (save_keeps (grown f0)); [apply append_grown | apply grown_refl | exact Hsave]. }
  pose proof (grown_like _ _ _ _ Hf0 Hok1 Hgr) as Hl1.
  destruct (sync_like _ _ f1 Hl1) as (f2 & Hsync & Hl2 & Hd2 & _ & Hby2 & Hrd2 & _).
  rewrite Hsave, Hsync. exists rw, f2, (set_core c s).
  destruct (mem_ok_core _ _ _ _ Hs Hc') as [Hs' Hfiles].
  change (fs_bytes f0) with 0 in Hb1. cbn [fs_bytes journal_frame_store] in Hb1.
  split; [reflexivity|]. split; [exact Hs'|]. split; [exact Hfiles|]. split; [exact Hl2|].
  split; [exact Hd2|]. split; [rewrite Hrd2; exact HR1|]. split; [exact Hoff|].
  unfold u64. rewrite Hby2. unfold unsaved in Hroom. split; lia.
Qed.

Lemma drop_generation_ok world g c : cache_ok world c -> cache_ok world (NodeCache.drop_generation g c).
Proof.
  intros Hc g' off n b. unfold NodeCache.drop_generation. cbn [NodeCache.entries].
  intros [Hn _]%map_lookup_filter_Some. by eapply Hc.
Qed.

Lemma switch_next_ok world records s rewritten fresh :
  mem_ok world records s -> generation s + 1 < 2 ^ 64 ->
  file_like (key s) nodes_aad fresh ->
  SealedJournal.durable fresh = length (SealedJournal.contents fresh) ->
  Repr (SealedJournal.read_at fresh) 32 rewritten records -> is_saved records rewritten ->
  u64 (SealedJournal.bytes fresh) ->
  exists world' s', switch_next rewritten fresh s = (Ok tt, s') /\
    mem_ok world' records s' /\ world_grows world world' /\
    journal s' = journal s /\ key s' = key s /\ options s' = options s /\
    generation s' = generation s + 1 /\ nodes s' = fresh /\
    (exists r live, open_root (root_file s') = Ok (false, generation s', r, live) /\ u64 live /\
      Repr (durable_rd (nodes s')) 32 r records).
Proof.
  intros Hs Hgen Hf Hd HR Hsv Hby. pose proof Hs as [Hc Hwf _ _ Hg _ Hlater].
  pose proof Hc as (_ & _ & _ & Ef1 & Hcache).
  unfold switch_next. rewrite (st_bind_ok _ _ _ s s) by done.
  set (world' := with_reads world (generation s + 1) (SealedJournal.read_at fresh)).
  assert (world_grows world world') as Hwg.
  { intros g. unfold world', with_reads. destruct (Z.eqb_spec g (generation s + 1)) as [->|]; [|done].
    intros o q Hq. exfalso. eapply Hlater; [|exact Hq]. lia. }
  set (old := generation s).
  set (s1 := set_live (SealedJournal.bytes fresh) (set_root rewritten
    (set_other_nodes (<[old := SealedJournal.contents (nodes s)]> (other_nodes s))
      (set_core (mkCore fresh (wrap64 (old + 1)) (co_format1 (core s))
        (NodeCache.drop_generation old (co_cache (core s))) (co_superseded (core s))) s)))).
  assert (generation s1 = generation s + 1) as Eg1.
  { change (wrap64 (generation s + 1) = generation s + 1). apply wrap64_small. unfold u64 in *. lia. }
  assert (mem_ok world' records s1) as Hs1.
  { split.
    - rewrite Eg1. split; [exact Eg1|]. split; [reflexivity|].
      split; [unfold world'; by rewrite with_reads_eq|]. split; [exact Ef1|]. change (co_cache (core s1)) with (NodeCache.drop_generation old (co_cache (core s))).
      eapply cache_ok_grow; [exact Hwg | by apply drop_generation_ok].
    - exact Hwf.
    - rewrite Eg1. unfold world'. rewrite with_reads_eq. exact HR.
    - exact Hf.
    - rewrite Eg1. unfold u64 in *. lia.
    - exact Hby.
    - intros g o q. rewrite Eg1. intros Hgt. unfold world', with_reads.
      destruct (Z.eqb_spec g (generation s + 1)); [lia|]. apply Hlater. lia. }
  rewrite (st_bind_ok _ _ _ tt s1) by reflexivity.
  destruct (publish_root_ok world' records s1 Hs1 Hsv Hd) as (bs & Hpub & Hroot).
  rewrite (st_bind_ok _ _ _ _ _ Hpub).
  assert (journal s1 = journal s /\ key s1 = key s /\ options s1 = options s /\ nodes s1 = fresh)
    as (Ej & Ek & Eo & En) by (split_and!; reflexivity).
  clearbody s1. eexists world', _. split; [reflexivity|].
  split; [destruct Hs1 as [C1 C2 C3 C4 C5 C6 C7]; split; assumption|].
  split; [exact Hwg|]. split; [exact Ej|]. split; [exact Ek|]. split; [exact Eo|].
  split; [exact Eg1|]. split; [exact En | exact Hroot].
Qed.

(** *** Checkpoints *)

(** The states a checkpoint goes through. *)
Definition reset_journal (s : t) : t :=
  count_checkpoint (set_journal (SealedJournal.reset (journal s)) s).

Lemma checkpoint_eq s s1 s2 :
  save_root s = (Ok tt, s1) -> publish_root s1 = (Ok tt, s2) ->
  checkpoint s = (_ ← load_root; s ← st_get;
    if rewrite_due s then next ← fill_next; _ ← switch_next next.1 next.2; load_root
    else mret tt) (reset_journal s2).
Proof.
  intros Hsave Hpub. unfold checkpoint. rewrite (st_bind_ok _ _ _ _ _ Hsave), (st_bind_ok _ _ _ _ _ Hpub).
  reflexivity.
Qed.

Lemma batches_ok_nil records : wf_recs 32 records -> batches_ok records [].
Proof. intros Hwf. split; [done | done |]. unfold total. simpl. rewrite Nat.add_0_r. apply Hwf. Qed.

Lemma dir_ok_same records parts s s' :
  same_files s s' -> dir_ok records parts s -> dir_ok records parts s'.
Proof.
  intros (Ej & En & Er & Eg & Ek & _ & _) [Hr Hj Hf Hl Hw].
  split; rewrite ?Ej, ?En, ?Er, ?Eg, ?Ek; done.
Qed.

(** The last part of a checkpoint: the new root loaded, the node file
    rewritten when that is due. *)
Lemma rewrite_ok world records s :
  mem_ok world records s -> dir_ok records [] s -> shallow records ->
  room 32 (length records) < unsaved -> generation s + 1 < 2 ^ 64 ->
  exists world' s', (_ ← load_root; s ← st_get;
      if rewrite_due s then next ← fill_next; _ ← switch_next next.1 next.2; load_root
      else mret tt) s = (Ok tt, s') /\
    mem_ok world' records s' /\ dir_ok records [] s' /\ world_grows world world' /\
    key s' = key s /\ options s' = options s /\ journal s' = journal s /\
    generation s' <= generation s + 1 /\
    SealedJournal.bytes (nodes s') <= SealedJournal.bytes (nodes s) + room 32 (length records).
Proof.
  intros Hs Hdir Hsh Hroom Hgen.
  pose proof (fs_bytes_nonneg (F := SealedJournal.t) (nodes s) (fl_file _ _ _ (mo_nodes _ _ _ Hs))) as Hnn.
  cbn [fs_bytes journal_frame_store] in Hnn. assert (0 <= room 32 (length records)) by (unfold room; lia).
  destruct (load_root_ok world records s Hs) as (s1 & Hl1 & Hs1 & Hf1).
  rewrite (st_bind_ok _ _ _ _ _ Hl1), (st_bind_ok _ _ _ s1 s1) by done.
  pose proof (dir_ok_same _ _ _ _ Hf1 Hdir) as Hdir1.
  pose proof Hf1 as (Ej1 & En1 & _ & Eg1 & Ek1 & Eo1 & _).
  destruct (rewrite_due s1).
  2:{ exists world, s1. split; [reflexivity|]. split; [exact Hs1|]. split; [exact Hdir1|].
      split; [by intros g|]. rewrite En1, Eg1. split_and!; try done; lia. }
  destruct (fill_next_ok world records s1 Hs1 Hsh Hroom)
    as (rw & fresh & s2 & Hfill & Hs2 & Hf2 & Hfl & Hfd & HR & Hsv & Hby & Hbr).
  rewrite (st_bind_ok _ _ _ _ _ Hfill). cbn [fst snd].
  pose proof Hf2 as (Ej2 & _ & _ & Eg2 & Ek2 & Eo2 & _).
  destruct (switch_next_ok world records s2 rw fresh) as
    (world' & s3 & Hsw & Hs3 & Hwg & Ej3 & Ek3 & Eo3 & Eg3 & En3 & Hroot3); try done; [lia | by rewrite Ek2 |].
  rewrite (st_bind_ok _ _ _ _ _ Hsw).
  destruct (load_root_ok world' records s3 Hs3) as (s4 & Hl4 & Hs4 & Hf4).
  exists world', s4. pose proof Hf4 as (Ej4 & En4 & _ & Eg4 & Ek4 & Eo4 & _).
  split; [exact Hl4|]. split; [exact Hs4|].
  split; [|split; [done | split_and!; try congruence; [rewrite Eg4, Eg3; lia | rewrite En4, En3; lia]]].
  apply (dir_ok_same _ _ s3); [done|]. destruct Hdir1 as [_ Hj Hfr Hlim Hw].
  split; rewrite ?Ej3, ?Ej2, ?Ek3, ?Ek2; done.
Qed.

Definition synced (j : SealedJournal.t) : Prop :=
  SealedJournal.durable j = length (SealedJournal.contents j).

(** A ledger: open, its directory consistent with it, its journal synced. *)
Definition ledger (world : World) (records : list Rec) (parts : list (list Change)) (s : t) : Prop :=
  mem_ok world (merge_all records parts) s /\ dir_ok records parts s /\ synced (journal s).

(** The node file grown durably, or by frames not yet durable: the directory
    holds what it did. *)
Lemma dir_ok_nodes records parts s s' :
  same_dir s s' -> reads_all (durable_rd (nodes s)) (durable_rd (nodes s')) ->
  dir_ok records parts s -> dir_ok records parts s'.
Proof.
  intros (Ej & Er & Eg & Ek & _) Hg [(r & live & Hr & Hl & HR) Hj Hf Hlim Hw].
  split; rewrite ?Ej, ?Er, ?Eg, ?Ek; try done. exists r, live. split; [exact Hr|].
  split; [exact Hl | by eapply Repr_grow].
Qed.

(** A checkpoint, through its stages: saved, published, journal reset, the
    rest. Until the root is published the directory holds what it did; then
    the records in memory, with the journal still to be replayed over them
    until it is reset. *)
Lemma checkpoint_stages world now records parts s :
  mem_ok world now s -> dir_ok records parts s -> capacity now s -> batches_ok now parts ->
  exists s1 s2 world' s',
    save_root s = (Ok tt, s1) /\ dir_ok records parts s1 /\
    publish_root s1 = (Ok tt, s2) /\ dir_ok now parts s2 /\
    dir_ok now [] (reset_journal s2) /\
    checkpoint s = (Ok tt, s') /\ ledger world' now [] s' /\ world_grows world world' /\
    key s' = key s /\ options s' = options s /\
    (forall x, x ∈ [s1; s2; reset_journal s2; s'] -> key x = key s /\
       generation x <= generation s + 1 /\ (exists w, mem_ok w now x) /\
       SealedJournal.bytes (nodes x) <= SealedJournal.bytes (nodes s) + 2 * room 32 (length now)).
Proof.
  intros Hs Hdir Hcap Hb2.
  destruct (save_root_ok world now s Hs Hcap)
    as (w1 & s1 & Hsave & Hs1 & Hw1 & Hd1 & Hsv1 & Hdur1 & Hrd1 & Hb1).
  destruct (publish_root_ok w1 now s1 Hs1 Hsv1 Hdur1) as (bs & Hpub & Hroot).
  pose proof (dir_ok_nodes _ _ _ _ Hd1 Hrd1 Hdir) as Hdir1.
  set (s2 := set_root_file (Some bs) s1).
  assert (dir_ok now parts s2) as Hdir2.
  { destruct Hdir1 as [_ Hj Hf Hl _]. split; assumption. }
  assert (dir_ok now [] (reset_journal s2)) as Hdir3.
  { destruct Hdir1 as [_ Hj _ _ _]. destruct (reset_like _ _ _ Hj) as [Hj' Hh].
    split; [exact Hroot | exact Hj' | exists []; split; [exact Hh | constructor] | done |].
    by apply batches_ok_nil, Hs. }
  assert (mem_ok w1 now (reset_journal s2)) as Hs3.
  { destruct Hs1 as [C1 C2 C3 C4 C5 C6 C7]. split; assumption. }
  destruct Hcap as (Hsh & Hroom & Hgen). pose proof Hd1 as (_ & _ & Eg & Ek & Eo).
  pose proof (fs_bytes_nonneg (F := SealedJournal.t) (nodes s) (fl_file _ _ _ (mo_nodes _ _ _ Hs))) as Hnn.
  cbn [fs_bytes journal_frame_store] in Hnn.
  destruct (rewrite_ok w1 now (reset_journal s2) Hs3 Hdir3 Hsh) as (w4 & s4 & Hrw & Hs4 & Hdir4 & Hw4 & Ek4 & Eo4 & Ej4 & Eg4 & Eb4);
    [lia | change (generation s1 + 1 < 2 ^ 64); rewrite Eg; lia |].
  exists s1, s2, w4, s4. rewrite (checkpoint_eq s s1 s2 Hsave Hpub), Hrw.
  change (key (reset_journal s2)) with (key s1) in Ek4.
  change (options (reset_journal s2)) with (options s1) in Eo4.
  split; [done|]. split; [done|]. split; [done|]. split; [done|]. split; [done|]. split; [done|].
  split; [split; [exact Hs4 | split; [exact Hdir4 | by rewrite Ej4]]|].
  split; [intros g; by transitivity (w1 g)|]. split; [congruence|]. split; [congruence|].
  assert (0 <= room 32 (length now)) by (unfold room; lia).
  assert (forall x, key x = key s1 -> generation x = generation s1 -> nodes x = nodes s1 -> mem_ok w1 now x ->
    key x = key s /\ generation x <= generation s + 1 /\ (exists w, mem_ok w now x) /\
    SealedJournal.bytes (nodes x) <= SealedJournal.bytes (nodes s) + 2 * room 32 (length now)) as Hx.
  { intros x Ekx Egx Enx Hmx. rewrite Ekx, Egx, Enx. split; [exact Ek|]. split; [lia|]. split; [by exists w1 | lia]. }
  intros x Hin. apply elem_of_cons in Hin as [->|Hin]; [by apply Hx|].
  apply elem_of_cons in Hin as [->|Hin]; [apply Hx; try done; destruct Hs1 as [C1 C2 C3 C4 C5 C6 C7]; by split|].
  apply elem_of_cons in Hin as [->|Hin]; [by apply Hx|].
  apply list_elem_of_singleton in Hin as ->. change (generation (reset_journal s2)) with (generation s1) in Eg4.
  change (nodes (reset_journal s2)) with (nodes s1) in Eb4.
  split; [congruence|]. split; [lia|]. split; [by exists w4 | lia].
Qed.

(** A checkpoint keeps the records, and empties the journal. *)
Lemma checkpoint_ok world records parts s :
  ledger world records parts s -> total records parts < 2 ^ 63 ->
  capacity (merge_all records parts) s ->
  exists world' s', checkpoint s = (Ok tt, s') /\ ledger world' (merge_all records parts) [] s' /\
    world_grows world world' /\ key s' = key s /\ options s' = options s.
Proof.
  intros (Hs & Hdir & _) Ht Hcap.
  destruct (merge_all_again records parts (do_wf _ _ _ Hdir) Ht) as [Hb _].
  destruct (checkpoint_stages world _ records parts s Hs Hdir Hcap Hb)
    as (_ & _ & world' & s' & _ & _ & _ & _ & _ & Hc & Hs' & Hw & Hk & Ho & _).
  by exists world', s'.
Qed.

(** *** Reopening *)

(** Room for whatever part of the batches is replayed. *)
Record room_for (records : list Rec) (parts : list (list Change)) (s : t) : Prop := {
  rm_shallow : forall n, shallow (merge_all records (take n parts));
  rm_room : SealedJournal.bytes (nodes s) + room 32 (length records + length (concat parts)) < unsaved;
  rm_gen : generation s + 1 < 2 ^ 64
}.

Lemma room_mono n m : (n <= m)%nat -> room 32 n <= room 32 m.
Proof. intros Hnm. unfold room. nia. Qed.

Lemma room_total records parts s :
  0 <= SealedJournal.bytes (nodes s) -> room_for records parts s -> total records parts < 2 ^ 63.
Proof. intros Hb [_ Hr _]. unfold room, total, unsaved in *. lia. Qed.

Lemma room_capacity records parts s n :
  batches_ok records parts -> room_for records parts s ->
  capacity (merge_all records (take n parts)) s.
Proof.
  intros Hb [Hsh Hr Hg]. split; [apply Hsh|]. split; [|done].
  pose proof (batches_take _ _ n Hb) as Hbn. pose proof (merge_all_length _ _ Hbn) as Hl.
  assert (length (concat (take n parts)) <= length (concat parts))%nat.
  { rewrite <- (take_drop n parts) at 2. rewrite concat_app, length_app. lia. }
  unfold total in Hl.
  pose proof (room_mono (length (merge_all records (take n parts))) (length records + length (concat parts)) ltac:(lia)).
  lia.
Qed.

(** Some ledger of exactly these records. *)
Definition holds (now : list Rec) (s : t) : Prop :=
  exists world records parts, ledger world records parts s /\ merge_all records parts = now.

(** The state the constructor starts the replay from. *)
Lemma opened_ok world now records parts s disk opts r live :
  mem_ok world now s -> dir_ok records parts s -> crash s disk ->
  open_root (root_file s) = Ok (false, generation s, r, live) -> u64 live ->
  Repr (durable_rd (nodes s)) 32 r records ->
  exists world', mem_ok world' records (opened disk (key s) opts (false, generation s, r, live)) /\
    reads_all (durable_rd (nodes s))
      (durable_rd (nodes (opened disk (key s) opts (false, generation s, r, live)))) /\
    SealedJournal.bytes (nodes (opened disk (key s) opts (false, generation s, r, live))) <=
      SealedJournal.bytes (nodes s).
Proof.
  intros Hs Hdir (_ & _ & Hcn) Hroot Hlive HR.
  pose proof (mo_nodes _ _ _ Hs) as [[Hb Hl Hd] Hk Ha Hm _].
  set (o := opened _ _ _ _). set (n := nodes o).
  assert (n = SealedJournal.open (d_nodes disk !! generation s) (key s) nodes_aad max_frame) as En by done.
  assert (SealedJournal.contents n = default [] (d_nodes disk !! generation s)) as Ec by done.
  assert (exists more, SealedJournal.contents n =
    take (SealedJournal.durable (nodes s)) (SealedJournal.contents (nodes s)) ++ more /\
    (length (SealedJournal.contents n) <= length (SealedJournal.contents (nodes s)))%nat /\
    (SealedJournal.durable (nodes s) <= length (SealedJournal.contents n))%nat) as (more & Emore & Hlen & Hdur).
  { unfold SealedJournal.crash_file in Hcn. unfold SealedJournal.contents in Ec, Hd |- *.
    destruct (SealedJournal.file (nodes s)) as [f|]; cbn [default from_option id] in *.
    - destruct Hcn as (cut & Hcut & Hcn). rewrite Ec, Hcn. cbn [default from_option id].
      exists (drop (SealedJournal.durable (nodes s)) (take cut f)).
      rewrite <- (take_drop (SealedJournal.durable (nodes s)) (take cut f)) at 1.
      rewrite take_take, Nat.min_l, length_take by lia. split_and!; [done | lia | lia].
    - exists []. rewrite Ec, Hcn. cbn [default from_option id]. rewrite take_nil. done. }
  assert (file_like (key s) nodes_aad n) as Hn.
  { rewrite En. destruct (d_nodes disk !! generation s); repeat split; done. }
  assert (SealedJournal.durable n = length (SealedJournal.contents n)) as Hdn.
  { rewrite En. by destruct (d_nodes disk !! generation s). }
  assert (reads_all (durable_rd (nodes s)) (durable_rd n)) as Hrd.
  { rewrite (durable_rd_all n) by (done || apply Hn). unfold SealedJournal.read_at.
    rewrite (fl_key _ _ _ Hn), (fl_aad _ _ _ Hn), (fl_max _ _ _ Hn), <- Hk, <- Ha, <- Hm.
    apply durable_rd_longer; [done | by exists more |]. rewrite (fo_bytes _ (fl_file _ _ _ Hn)). lia. }
  set (world' := with_reads (fun _ _ => Throw (RuntimeError "")) (generation s) (SealedJournal.read_at n)).
  exists world'. split; [|split; [exact Hrd|]].
  - split.
    + split; [reflexivity|]. split; [reflexivity|].
      split; [symmetry; apply with_reads_eq|]. split; [reflexivity|].
      intros g off nd b Hx.
      change ((∅ : gmap NodeCache.Key (Node * Z)) !! (g, off) = Some (nd, b)) in Hx.
      by rewrite lookup_empty in Hx.
    + apply (do_wf _ _ _ Hdir).
    + change (generation o) with (generation s). unfold world'. rewrite with_reads_eq.
      rewrite <- (durable_rd_all n) by (done || apply Hn). by eapply Repr_grow.
    + exact Hn.
    + apply Hs.
    + exact Hlive.
    + intros g off q Hgt. change (generation o) with (generation s) in Hgt.
      unfold world', with_reads. destruct (Z.eqb_spec g (generation s)); [lia | done].
  - rewrite (fo_bytes _ (fl_file _ _ _ Hn)), Hb. lia.
Qed.

Lemma checkpoint_if_due_ok world records parts s :
  ledger world records parts s -> total records parts < 2 ^ 63 ->
  capacity (merge_all records parts) s ->
  exists world' records' parts' s', checkpoint_if_due s = (Ok tt, s') /\
    ledger world' records' parts' s' /\ merge_all records' parts' = merge_all records parts /\
    world_grows world world' /\ key s' = key s /\ options s' = options s /\
    (parts' = [] \/ parts' = parts).
Proof.
  intros Hs Ht Hcap. unfold checkpoint_if_due. rewrite (st_bind_ok _ _ _ s s) by done.
  destruct (checkpoint_bytes _ <=? _).
  - destruct (checkpoint_ok world records parts s Hs Ht Hcap)
      as (world' & s' & Hc & Hs' & Hw & Hk & Ho).
    exists world', (merge_all records parts), [], s'. split; [done|]. split; [done|]. split; [done|].
    split; [done|]. auto.
  - exists world, records, parts, s. split; [done|]. split; [done|]. split; [done|].
    split; [by intros g | auto].
Qed.

Lemma frames_parts_take l parts kept lost :
  frames_parts l parts -> l = kept ++ lost -> frames_parts kept (take (length kept) parts).
Proof.
  intros Hf ->. unfold frames_parts in *. apply Forall2_app_inv_l in Hf as (p1 & p2 & H1' & _ & ->).
  rewrite (Forall2_length _ _ _ H1'), take_app_length. done.
Qed.

(** The directory a crash leaves at any moment reopens to the records the
    trie held as of some batch, no earlier than the last one whose frame was
    durable. *)
Lemma open_frames_full world now records parts l s disk opts :
  mem_ok world now s -> dir_ok records parts s -> crash s disk -> room_for records parts s ->
  journal_holds (journal s) l -> frames_parts l parts ->
  exists n s', open disk (key s) opts = Ok s' /\ (n <= length parts)%nat /\
    holds (merge_all records (take n parts)) s' /\
    (forall l1 l2, l = l1 ++ l2 ->
       (length (frames_bytes (SealedJournal.key (journal s)) (SealedJournal.aad (journal s)) l1) <=
        SealedJournal.durable (journal s))%nat -> (length l1 <= n)%nat) /\
    key s' = key s /\ options s' = opts /\ (parts = [] -> exists w, ledger w records [] s').
Proof.
  intros Hmem Hdir Hcrash Hroom Hl Hparts. pose proof Hdir as Hdir0.
  destruct Hdir as [(r & live & Hroot & Hlive & HR) Hj _ Hlim Hb].
  pose proof Hcrash as (Er & Hcj & _).
  destruct (opened_ok world now records parts s disk opts r live Hmem Hdir0 Hcrash Hroot Hlive HR)
    as (w0 & Hs0 & Hrd0 & Hby0).
  set (s0 := opened _ _ _ _) in *.
  destruct (load_root_ok w0 records s0 Hs0) as (s1 & Hl1 & Hs1 & Hf1).
  destruct (replay_frames_ok w0 records s1 l parts Hs1 Hparts Hb) as (s2 & Ha2 & _ & _).
  destruct (crash_replay_full replay_frame (journal s) l (d_journal disk) s1 s2 Hl Hlim Ha2 Hcj)
    as (kept & lost & s3 & j & El & Hrep & Ha3 & Hj3 & Hmax & Kk & Ka & Km & Kd).
  set (n := length kept). pose proof (frames_parts_take l parts kept lost Hparts El) as Hkp. fold n in Hkp.
  destruct (replay_frames_ok w0 records s1 kept (take n parts) Hs1 Hkp) as (s3' & Ha3' & Hs3 & Hf3);
    [by apply batches_take|].
  rewrite Ha3 in Ha3'. injection Ha3' as <-.
  pose proof (same_files_trans _ _ _ Hf1 Hf3) as (Ej & En & Erf & Eg & Ek & Eo & _).
  assert (ledger w0 records (take n parts) (set_journal j s3)) as Hled.
  { split; [|split].
    - destruct Hs3 as [C1 C2 C3 C4 C5 C6 C7]. split; assumption.
    - split.
      + exists r, live. change (root_file (set_journal j s3)) with (root_file s3).
        change (generation (set_journal j s3)) with (generation s3).
        change (nodes (set_journal j s3)) with (nodes s3).
        rewrite Erf, Eg, En. change (root_file s0) with (d_root disk). rewrite Er.
        split; [exact Hroot|]. split; [exact Hlive | by eapply Repr_grow].
      + change (key (set_journal j s3)) with (key s3). rewrite Ek. change (key s0) with (key s).
        change (journal (set_journal j s3)) with j. destruct Hj as [_ Jk Ja Jm _]. split; [apply Hj3 | congruence.. | done].
      + by exists kept.
      + change (journal (set_journal j s3)) with j. pose proof (jh_contents _ _ Hj3) as Hc3.
        rewrite Hc3, Kk, Ka. pose proof (jh_contents _ _ Hl) as Hc. rewrite Hc, El in Hlim.
        unfold frames_bytes in *. rewrite flat_map_app, length_app in Hlim. lia.
      + by apply batches_take.
    - exact Kd. }
  pose proof (fs_bytes_nonneg (F := SealedJournal.t) (nodes s) (fl_file _ _ _ (mo_nodes _ _ _ Hmem))) as Hnn.
  cbn [fs_bytes journal_frame_store] in Hnn.
  destruct (checkpoint_if_due_ok w0 records (take n parts) (set_journal j s3) Hled)
    as (w4 & r4 & p4 & s4 & Hck & Hs4 & Em & _ & Ek4 & Eo4 & Ep4).
  { pose proof (room_total _ _ _ Hnn Hroom) as Ht. unfold total in *.
    rewrite <- (take_drop n parts), concat_app, length_app in Ht. lia. }
  { destruct (room_capacity _ _ _ n Hb Hroom) as (Hsh & Hr & Hg). split; [exact Hsh|].
    change (nodes (set_journal j s3)) with (nodes s3). change (generation (set_journal j s3)) with (generation s3).
    rewrite En, Eg. change (generation s0) with (generation s). split; [lia | exact Hg]. }
  exists n, s4. split; [|split; [|split; [|split; [|split; [|split]]]]].
  - unfold open. rewrite Er, Hroot. cbn [mbind result_bind]. fold s0. rewrite Hl1.
    pose proof Hf1 as (Ej1 & _). rewrite Ej1. change (journal s0) with
      (SealedJournal.open (d_journal disk) (key s) journal_aad max_frame).
    destruct Hj as [_ Jk Ja Jm _]. rewrite Jk, Ja, Jm in Hrep. rewrite Hrep.
    pose proof (mo_core _ _ _ Hs3) as (_ & _ & _ & Ef & _).
    change (co_format1 (core (set_journal j s3))) with (co_format1 (core s3)).
    rewrite Ef, Hck. done.
  - unfold n. pose proof (Forall2_length _ _ _ Hparts) as Hll. rewrite <- Hll, El, length_app. lia.
  - by exists w4, r4, p4.
  - intros l1 l2 E Hle. by apply prefix_length, (Hmax l1 l2).
  - rewrite Ek4. change (key (set_journal j s3)) with (key s3). by rewrite Ek.
  - rewrite Eo4. change (options (set_journal j s3)) with (options s3). by rewrite Eo.
  - intros ->. rewrite take_nil in Em, Ep4. exists w4.
    assert (p4 = []) as -> by (by destruct Ep4). cbn in Em. by rewrite <- Em.
Qed.

Lemma open_frames_ok world now records parts l s disk opts :
  mem_ok world now s -> dir_ok records parts s -> crash s disk -> room_for records parts s ->
  journal_holds (journal s) l -> frames_parts l parts ->
  exists n s', open disk (key s) opts = Ok s' /\ (n <= length parts)%nat /\
    holds (merge_all records (take n parts)) s' /\
    (forall l1 l2, l = l1 ++ l2 ->
       (length (frames_bytes (SealedJournal.key (journal s)) (SealedJournal.aad (journal s)) l1) <=
        SealedJournal.durable (journal s))%nat -> (length l1 <= n)%nat).
Proof.
  intros Hm Hd Hc Hr Hl Hp. destruct (open_frames_full world now records parts l s disk opts Hm Hd Hc Hr Hl Hp)
    as (n & s' & Ho & Hn & Hh & Hx & _). by exists n, s'.
Qed.

(** All of them when the journal was synced. *)
Lemma open_ok world now records parts s disk opts :
  mem_ok world now s -> dir_ok records parts s -> synced (journal s) -> crash s disk ->
  room_for records parts s ->
  exists s', open disk (key s) opts = Ok s' /\ holds (merge_all records parts) s'.
Proof.
  intros Hm Hd Hsync Hc Hr. destruct (do_frames _ _ _ Hd) as (l & Hl & Hp).
  destruct (open_frames_ok world now records parts l s disk opts Hm Hd Hc Hr Hl Hp)
    as (n & s' & Ho & Hn & Hh & Hmax).
  exists s'. split; [exact Ho|].
  assert (length l <= n)%nat as Hln.
  { apply (Hmax l []); [by rewrite app_nil_r|]. rewrite Hsync, (jh_contents _ _ Hl). done. }
  rewrite (Forall2_length _ _ _ Hp) in Hln. by rewrite firstn_all2 in Hh by lia.
Qed.

(** *** Writing and installing *)

Definition frames_of (changes : list Change) : list (list Change) :=
  chunks changes_per_frame (length changes) changes.

(** The bytes the batches take in the journal, and its length with them. *)
Definition frames_size (parts : list (list Change)) : Z :=
  sum_Z ((fun part => 32 + Z.of_nat (length (changes_bytes part))) <$> parts).
Definition journal_after (parts : list (list Change)) (s : t) : Z :=
  Z.of_nat (length (SealedJournal.contents (journal s))) + frames_size parts.

Lemma frames_size_nonneg parts : 0 <= frames_size parts.
Proof. apply sum_Z_nonneg, Forall_fmap, Forall_forall. intros part _. simpl. lia. Qed.
Lemma frames_size_app a b : frames_size (a ++ b) = frames_size a + frames_size b.
Proof. unfold frames_size. by rewrite fmap_app, sum_Z_app. Qed.
Lemma frames_size_one part : frames_size [part] = 32 + Z.of_nat (length (changes_bytes part)).
Proof. unfold frames_size. cbn [fmap list_fmap sum_Z foldr]. lia. Qed.

(** One batch in the journal: durable when the append returns. *)
Lemma write_part_ok records parts s part :
  dir_ok records parts s -> part_ok part -> batches_ok records (parts ++ [part]) ->
  journal_after [part] s <= u64_max ->
  exists j, on_journal (write_part part) s = (Ok tt, set_journal j s) /\
    dir_ok records (parts ++ [part]) (set_journal j s) /\
    synced j /\
    journal_after [] (set_journal j s) = journal_after [part] s.
Proof.
  intros [Hr Hj (l & Hl & Hp) Hlim Hb] Hpart Hb' Hafter. pose proof Hpart as [Hs Hc Hf Hfr].
  unfold journal_after in *. rewrite frames_size_one in *. change (frames_size []) with 0.
  assert (write_part part (journal s) = SealedJournal.append (changes_bytes part) (journal s)) as Ew.
  { unfold write_part. rewrite (st_bind_ok _ _ _ (changes_bytes part) (journal s)); [done|].
    unfold st_lift. rewrite encode_changes_ok; [done..|]. unfold changes_per_frame in Hc. lia. }
  destruct (append_unsynced_spec (journal s) l (changes_bytes part) Hl) as (j1 & Happ & Hj1 & Hap);
    [by rewrite (fl_max _ _ _ Hj)|].
  assert (file_like (key s) journal_aad j1) as Hfl1.
  { destruct Hj as [_ Jk Ja Jm _], Hap as [A1 _ A3 A4 A5 A6 _ _]. split; congruence. }
  destruct (sync_like _ _ j1 Hfl1) as (j & Hsync & Hflj & Hd & Hcj & Hbj & _ & _).
  exists j. split.
  { unfold on_journal. rewrite Ew. unfold SealedJournal.append.
    by rewrite (st_bind_ok _ _ _ _ _ Happ), Hsync. }
  assert (Z.of_nat (length (SealedJournal.contents j)) =
    Z.of_nat (length (SealedJournal.contents (journal s))) + (32 + Z.of_nat (length (changes_bytes part)))) as Elen.
  { rewrite Hcj, (ap_contents _ _ _ Hap), length_app, length_frame_bytes. lia. }
  split; [|split; [exact Hd|]].
  - split; [exact Hr | exact Hflj | | | exact Hb'].
    + exists (l ++ [(draw_nonce (SealedJournal.draws (journal s)), changes_bytes part)]). split.
      * change (journal (set_journal j s)) with j. destruct Hj1 as [_ J2 J3]. destruct Hflj as [F1 F2 F3 F4 _], Hfl1 as [_ G2 G3 G4 _].
        split; [exact F1 | by rewrite Hcj, F2, F3, <- G2, <- G3 | by rewrite F4, <- G4].
      * apply Forall2_app; [done|]. repeat constructor; [by apply decode_changes_ok | done].
    + change (journal (set_journal j s)) with j. lia.
  - change (journal (set_journal j s)) with j. lia.
Qed.

Lemma write_ok world now records parts s changes :
  mem_ok world now s -> dir_ok records parts s ->
  existsb too_large changes = false -> Forall part_ok (frames_of changes) ->
  batches_ok records (parts ++ frames_of changes) ->
  journal_after (frames_of changes) s <= u64_max ->
  exists j, write changes s = (Ok tt, set_journal j s) /\
    dir_ok records (parts ++ frames_of changes) (set_journal j s) /\ (synced (journal s) -> synced j) /\
    Z.of_nat (length (SealedJournal.contents j)) = journal_after (frames_of changes) s.
Proof.
  intros Hs Hdir Hlarge Hparts Hb Hafter. unfold write. rewrite Hlarge. fold (frames_of changes).
  destruct (foldM_inv (fun done (_ : unit) s' => exists j, s' = set_journal j s /\
      dir_ok records (parts ++ done) s' /\
      journal_after [] s' = journal_after done s /\
      (synced (journal s) -> synced j))
    (fun _ part => on_journal (write_part part)) (frames_of changes) tt s)
    as ([] & s' & Hfold & j & -> & Hdir' & Hja & Hdur).
  - exists (journal s). split; [by destruct s|]. rewrite app_nil_r. by split_and!.
  - intros done_ part rest [] s1 E (j & -> & Hdir1 & Ha1 & _). rewrite E in *.
    apply Forall_app in Hparts as [_ Hparts]. apply Forall_cons in Hparts as [Hpart _].
    unfold journal_after in *. change (frames_size []) with 0 in *.
    change (part :: rest) with ([part] ++ rest) in Hafter.
    rewrite !frames_size_app in Hafter. pose proof (frames_size_nonneg rest).
    destruct (write_part_ok records (parts ++ done_) (set_journal j s) part Hdir1 Hpart) as (j' & Hw & Hdir2 & Hd2 & Ha2).
    + rewrite <- app_assoc. replace (parts ++ done_ ++ part :: rest) with ((parts ++ done_ ++ [part]) ++ rest) in Hb
        by (by rewrite <- !app_assoc). by apply batches_ok_app in Hb as [? _].
    + unfold journal_after. lia.
    + exists tt, (set_journal j' s). split; [exact Hw|]. exists j'. split; [done|].
      rewrite app_assoc. split; [exact Hdir2|]. split; [|done].
      unfold journal_after in Ha2. change (frames_size []) with 0 in Ha2. rewrite frames_size_app.
      cbn [journal set_journal] in *. lia.
  - exists j. split; [done|]. split; [done|]. split; [done|].
    unfold journal_after in Hja at 1. change (frames_size []) with 0 in Hja. cbn [journal set_journal] in Hja. lia.
Qed.

Lemma install_ok world records parts s changes :
  mem_ok world (merge_all records parts) s ->
  dir_ok records (parts ++ frames_of changes) s -> synced (journal s) -> sorted_changes changes ->
  room_for records (parts ++ frames_of changes) s ->
  exists world' s', install changes s = (Ok tt, s') /\ world_grows world world' /\
    (exists records' parts', ledger world' records' parts' s' /\
       merge_all records' parts' = merge_changes (merge_all records parts) changes) /\
    key s' = key s /\ options s' = options s.
Proof.
  intros Hs Hdir Hsync Hsort Hroom. pose proof (do_wf _ _ _ Hdir) as Hb.
  pose proof (batches_ok_app _ _ _ Hb) as [Hb1 _]. pose proof (batches_wf _ _ Hb1) as Hwf1.
  assert (merge_all records (parts ++ frames_of changes) = merge_changes (merge_all records parts) changes) as Em.
  { unfold merge_all at 1. rewrite foldl_app. apply chunks_merge; [unfold changes_per_frame; lia | done | apply Hwf1 | done]. }
  unfold install. destruct changes as [|c changes].
  { exists world, s. split; [done|]. split; [by intros g|]. split; [|done].
    exists records, parts. rewrite app_nil_r in Hdir. by split_and!. }
  set (chs := c :: changes) in *.
  destruct (apply_unjournaled_ok world (merge_all records parts) s chs) as (s1 & Ha & Hs1 & Hf1);
    [done | done | rewrite <- Em; by apply batches_wf |].
  rewrite (st_bind_ok _ _ _ _ _ Ha). pose proof (dir_ok_same _ _ _ _ Hf1 Hdir) as Hdir1.
  rewrite <- Em in Hs1. pose proof Hf1 as (Ej & En & _ & Eg & Ek & Eo & _).
  pose proof (fs_bytes_nonneg (F := SealedJournal.t) (nodes s) (fl_file _ _ _ (mo_nodes _ _ _ Hs))) as Hnn.
  cbn [fs_bytes journal_frame_store] in Hnn.
  destruct (checkpoint_if_due_ok world records (parts ++ frames_of chs) s1) as
    (w2 & r2 & p2 & s2 & Hck & Hs2 & Em2 & Hw2 & Ek2 & Eo2 & _).
  - split; [exact Hs1 | split; [exact Hdir1 | by rewrite Ej]].
  - by eapply room_total.
  - pose proof (room_capacity _ _ _ (length (parts ++ frames_of chs)) Hb Hroom) as (Hsh & Hr & Hg).
    rewrite firstn_all in Hsh, Hr. unfold capacity. rewrite En, Eg. by split_and!.
  - exists w2, s2. split; [exact Hck|]. split; [exact Hw2|]. split; [|split; congruence].
    exists r2, p2. split; [exact Hs2 | congruence].
Qed.

(** What [apply] needs: values and frames within their limits, and room. *)
Record apply_fits (records : list Rec) (parts : list (list Change)) (s : t) (changes : list Change)
    : Prop := {
  af_values : Forall change_fits changes;
  af_frames : Forall (fun part => Z.of_nat (length (changes_bytes part)) <= max_frame) (frames_of changes);
  af_journal : journal_after (frames_of changes) s <= u64_max;
  af_room : room_for records (parts ++ frames_of changes) s
}.

Lemma too_large_fits changes : Forall change_fits changes -> existsb too_large changes = false.
Proof.
  intros Hf. induction Hf as [|c l Hc Hl IH]; [done|]. cbn [existsb]. rewrite IH, orb_false_r.
  unfold too_large, change_fits in *. destruct (ch_value c); [by apply Z.ltb_ge | done].
Qed.

Lemma frames_of_ok records parts s changes :
  batches_ok records parts -> 0 <= SealedJournal.bytes (nodes s) -> sorted_changes changes ->
  apply_fits records parts s changes ->
  Forall part_ok (frames_of changes) /\ batches_ok records (parts ++ frames_of changes).
Proof.
  intros Hb Hnn Hs [Hv Hf _ Hr].
  assert (forall part, part ∈ frames_of changes -> part_ok part) as Hall.
  { intros part Hp. pose proof Hp as Hp'.
    apply chunks_elem in Hp' as (_ & Hl & Hin & Hsp); [|unfold changes_per_frame; lia].
    rewrite Forall_forall in Hf. split; [by apply Hsp | done | | by apply Hf].
    rewrite Forall_forall in Hv |- *. auto. }
  split; [by apply Forall_forall|]. destruct Hb as [Hrec Hp _]. split; [done| |].
  - apply Forall_app. split; [done|]. apply Forall_forall. intros part [? _ ? _]%Hall. done.
  - pose proof (room_total _ _ _ Hnn Hr). lia.
Qed.

Lemma apply_ok world records parts s input :
  ledger world records parts s -> apply_fits records parts s (unique_changes input) ->
  exists world' s' now', ObjectTrie.apply input s = (Ok tt, s') /\ world_grows world world' /\
    (exists records' parts', ledger world' records' parts' s' /\ merge_all records' parts' = now') /\
    key s' = key s /\ options s' = options s /\
    forall id, alookup id now' =
      match change_of id (rev input) with Some v => v | None => alookup id (merge_all records parts) end.
Proof.
  intros (Hs & Hdir & Hsync) Hfit. destruct (unique_changes_ok input) as [Hsort Hof].
  pose proof (fs_bytes_nonneg (F := SealedJournal.t) (nodes s) (fl_file _ _ _ (mo_nodes _ _ _ Hs))) as Hnn.
  cbn [fs_bytes journal_frame_store] in Hnn.
  destruct (frames_of_ok records parts s _ (do_wf _ _ _ Hdir) Hnn Hsort Hfit) as [Hparts Hb].
  destruct (decide (input = [])) as [->|Hne].
  { exists world, s, (merge_all records parts). split; [done|]. split; [by intros g|].
    split; [by exists records, parts|]. done. }
  unfold ObjectTrie.apply. destruct input as [|c input]; [done|]. set (inp := c :: input) in *.
  destruct (write_ok world _ records parts s (unique_changes inp) Hs Hdir) as (j & Hw & Hdir1 & Hsj & _);
    [apply too_large_fits, Hfit | done | done | apply Hfit |].
  rewrite (st_bind_ok _ _ _ _ _ Hw).
  destruct (install_ok world records parts (set_journal j s) (unique_changes inp)) as
    (w & s' & Hi & Hwg & (r' & p' & Hl' & Em) & Ek & Eo).
  - destruct Hs as [C1 C2 C3 C4 C5 C6 C7]. split; assumption.
  - exact Hdir1.
  - by apply Hsj.
  - exact Hsort.
  - destruct (af_room _ _ _ _ Hfit) as [R1 R2 R3]. split; assumption.
  - exists w, s', (merge_all r' p'). split; [exact Hi|]. split; [exact Hwg|].
    split; [by exists r', p'|]. split; [exact Ek|]. split; [exact Eo|].
    intros id. rewrite Em, merge_lookup, Hof; [done | done |]. apply (mo_wf _ _ _ Hs).
Qed.

(** A batch that does not fill the journal is only journaled and installed. *)
Lemma apply_journaled world records parts s input :
  ledger world records parts s -> apply_fits records parts s (unique_changes input) -> input <> [] ->
  unique_changes input <> [] ->
  journal_after (frames_of (unique_changes input)) s < checkpoint_bytes (options s) ->
  exists s', ObjectTrie.apply input s = (Ok tt, s') /\
    ledger world records (parts ++ frames_of (unique_changes input)) s' /\
    nodes s' = nodes s /\ generation s' = generation s.
Proof.
  intros (Hs & Hdir & Hsync) Hfit Hne Hneu Hdue. destruct (unique_changes_ok input) as [Hsort _].
  pose proof (fs_bytes_nonneg (F := SealedJournal.t) (nodes s) (fl_file _ _ _ (mo_nodes _ _ _ Hs))) as Hnn.
  cbn [fs_bytes journal_frame_store] in Hnn. set (u := unique_changes input) in *.
  destruct (frames_of_ok records parts s u (do_wf _ _ _ Hdir) Hnn Hsort Hfit) as [Hparts Hb].
  destruct (write_ok world _ records parts s u Hs Hdir) as (j & Hw & Hdir1 & Hsj & Hja);
    [apply too_large_fits, Hfit | done | done | apply Hfit |].
  assert (merge_all records (parts ++ frames_of u) = merge_changes (merge_all records parts) u) as Em.
  { unfold merge_all at 1. rewrite foldl_app. apply chunks_merge;
      [unfold changes_per_frame; lia | done | apply (mo_wf _ _ _ Hs) | done]. }
  destruct (apply_unjournaled_ok world (merge_all records parts) (set_journal j s) u) as (s1 & Ha & Hs1 & Hf1);
    [destruct Hs as [C1 C2 C3 C4 C5 C6 C7]; split; assumption | done | rewrite <- Em; by apply batches_wf |].
  exists s1. pose proof (dir_ok_same _ _ _ _ Hf1 Hdir1) as Hdir2.
  pose proof Hf1 as (Ej & En & _ & Eg & _ & Eo & _).
  split; [|split; [split; [by rewrite Em | split; [done | rewrite Ej; by apply Hsj]] | done]].
  unfold ObjectTrie.apply. destruct input as [|c input]; [done|]. fold u.
  rewrite (st_bind_ok _ _ _ _ _ Hw). unfold install. destruct u as [|c' u']; [done|].
  rewrite (st_bind_ok _ _ _ _ _ Ha). unfold checkpoint_if_due.
  rewrite (st_bind_ok _ _ _ s1 s1) by done. rewrite Ej, Eo.
  rewrite (fo_bytes _ (fl_file _ _ _ (do_journal _ _ _ Hdir1))). cbn [journal set_journal options].
  rewrite (proj2 (Z.leb_gt _ _)); [done|]. lia.
Qed.

(** Replacing every record, through the stages of its checkpoint. *)
Lemma replace_all_stages world now records parts s new :
  mem_ok world now s -> dir_ok records parts s -> wf_recs 32 new -> capacity new s ->
  batches_ok new parts ->
  exists s0 s1 s2 world' s',
    mem_ok world new s0 /\ journal s0 = journal s /\ nodes s0 = nodes s /\
    save_root s0 = (Ok tt, s1) /\ dir_ok records parts s1 /\
    publish_root s1 = (Ok tt, s2) /\ dir_ok new parts s2 /\
    replace_all new s = (Ok tt, s') /\ ledger world' new [] s' /\ world_grows world world' /\
    key s' = key s /\ options s' = options s /\ generation s' <= generation s + 1 /\
    SealedJournal.bytes (nodes s') <= SealedJournal.bytes (nodes s) + 2 * room 32 (length new).
Proof.
  intros Hs Hdir Hwf Hcap Hb. destruct (build_ok (world (generation s)) 32 new Hwf) as (r & Hbuild & HR).
  set (sa := set_core (set_superseded (live_bytes s) (core s)) s). set (s0 := set_root r sa).
  assert (mem_ok world new s0) as Hs0.
  { destruct Hs as [C1 C2 C3 C4 C5 C6 C7]. split; assumption. }
  assert (dir_ok records parts s0) as Hdir0 by (destruct Hdir as [C1 C2 C3 C4 C5]; split; assumption).
  destruct (checkpoint_stages world new records parts s0 Hs0 Hdir0 Hcap Hb)
    as (s1 & s2 & w & s' & Hsave & Hd1 & Hpub & Hd2 & _ & Hck & Hs' & Hw & Hk & Ho & Hall).
  assert (s' ∈ [s1; s2; reset_journal s2; s']) as Hin by (do 3 right; by left). destruct (Hall s' Hin) as (_ & Hg & _ & Hby).
  exists s0, s1, s2, w, s'. split; [exact Hs0|]. split; [done|]. split; [done|]. split; [exact Hsave|].
  split; [exact Hd1|]. split; [exact Hpub|]. split; [exact Hd2|].
  split; [|do 4 (split; [assumption|]); split; assumption].
  unfold replace_all. rewrite (st_bind_ok _ _ _ tt sa) by reflexivity.
  rewrite (st_bind_ok _ _ _ r sa) by (unfold st_lift; by rewrite Hbuild).
  rewrite (st_bind_ok _ _ _ tt s0) by reflexivity. exact Hck.
Qed.

(** *** Snapshots *)

(** A snapshot reads no more than its generation's file. *)
Definition snapshot_ok (world : World) (records : list Rec) (sn : Snapshot) : Prop :=
  wf_recs 32 records /\
  reads_all (SealedJournal.reader_read_at (sn_file sn)) (world (sn_generation sn)) /\
  Repr (SealedJournal.reader_read_at (sn_file sn)) 32 (sn_root sn) records.

Lemma snapshot_ok_grows world world' records sn :
  world_grows world world' -> snapshot_ok world records sn -> snapshot_ok world' records sn.
Proof.
  intros Hw (Hwf & Hrd & HR). split; [done|]. split; [|done].
  transitivity (world (sn_generation sn)); [done | apply Hw].
Qed.

Lemma snapshot_taken world records s :
  mem_ok world records s ->
  exists sn s', snapshot s = (Ok sn, s') /\ snapshot_ok world records sn /\ mem_ok world records s' /\
    journal s' = journal s /\ forall r p, dir_ok r p s -> dir_ok r p s'.
Proof.
  intros Hs. unfold snapshot. pose proof Hs as [Hc Hwf HR Hn Hg Hl Hlater].
  set (n := SealedJournal.get_fd (nodes s)). set (s1 := set_core (set_nodes n (core s)) s).
  rewrite (st_bind_ok _ _ _ tt s1) by reflexivity. rewrite (st_bind_ok _ _ _ s1 s1) by reflexivity.
  pose proof Hc as (Eg & En & Erd & Ef & Hcache).
  assert (SealedJournal.contents n = SealedJournal.contents (nodes s)) as Ec by apply get_fd_contents.
  assert (SealedJournal.key n = SealedJournal.key (nodes s) /\ SealedJournal.aad n = SealedJournal.aad (nodes s) /\
    SealedJournal.max_frame n = SealedJournal.max_frame (nodes s) /\
    SealedJournal.bytes n = SealedJournal.bytes (nodes s) /\
    SealedJournal.durable n = SealedJournal.durable (nodes s) /\ SealedJournal.fd_open n = true)
    as (Nk & Na & Nm & Nb & Nd & No).
  { unfold n, SealedJournal.get_fd. by destruct (SealedJournal.fd_open (nodes s)) eqn:E. }
  assert (SealedJournal.read_at n = world (generation s)) as Ern.
  { rewrite <- Erd. unfold SealedJournal.read_at. cbn [fs_read_at journal_frame_store]. 
    unfold SealedJournal.read_at. by rewrite Ec, Nk, Na, Nm, Nb. }
  exists (mkSnapshot (root s1) (generation s1) (SealedJournal.reader (nodes s1))), s1.
  split; [reflexivity|]. split; [|split; [|split; [done|]]].
  3:{ intros r p. apply dir_ok_nodes; [by unfold same_dir|]. change (nodes s1) with n.
      unfold durable_rd. by rewrite Ec, Nk, Na, Nm, Nd. }
  - split; [exact Hwf|].
    assert (SealedJournal.reader_read_at (SealedJournal.reader n) = world (generation s)) as Er by exact Ern.
    cbn [sn_file sn_generation sn_root]. change (nodes s1) with n. rewrite Er. split; [|exact HR].
    change (generation s1) with (generation s). done.
  - split; [|exact Hwf | exact HR | | exact Hg | exact Hl | exact Hlater].
    + split; [exact Eg|]. split; [reflexivity|]. split; [exact Ern|]. split; [exact Ef | exact Hcache].
    + change (nodes s1) with n. change (key s1) with (key s). destruct Hn as [[F1 F2 F3] G2 G3 G4 G5].
      split; [split; rewrite ?Nb, ?Ec, ?Nm, ?Nd; assumption | congruence | congruence | congruence | congruence].
Qed.

Instance snapshot_loader world records sn :
  snapshot_ok world records sn ->
  TrieLoader (SealedJournal.reader_read_at (sn_file sn)) (sn_load sn) (cache_ok world).
Proof.
  intros (_ & Hrd & _) k c recs cache Hcache HR Hne.
  by apply load_from_ok.
Qed.

Section reading.
Context (world : World) (records : list Rec) (sn : Snapshot) (Hsn : snapshot_ok world records sn).
#[local] Existing Instance snapshot_loader.

Lemma sn_loader :
  TrieLoader (SealedJournal.reader_read_at (sn_file sn)) (sn_load sn) (cache_ok world).
Proof. by eapply snapshot_loader. Qed.
#[local] Existing Instance sn_loader.

Lemma sn_get_ok id cache :
  cache_ok world cache ->
  exists cache', sn_get sn id cache = (Ok (alookup id records), cache') /\ cache_ok world cache'.
Proof. intros Hc. eapply find_ok; [exact sn_loader | done | apply Hsn..]. Qed.

Lemma sn_next_ok after limit cache :
  cache_ok world cache ->
  exists cache', sn_next sn after limit cache = (Ok (take limit (after_bound after records)), cache') /\
    cache_ok world cache'.
Proof.
  intros Hc. pose proof Hsn as (Hwf & _ & HR). unfold sn_next. rewrite (Repr_empty _ _ _ _ HR).
  destruct (bool_decide_reflect (records = [])) as [E|Hne].
  - exists cache. split; [|done]. rewrite E. by destruct after, limit.
  - eapply TrieOps.next_ok; [exact sn_loader | done..].
Qed.

Lemma sn_ids_loop_ok fuel page m cache :
  (0 < page)%nat -> (m <= length records)%nat -> (length records - m < fuel)%nat -> cache_ok world cache ->
  exists cache', sn_ids_loop sn fuel page (last (take m records).*1) (take m records).*1 cache =
    (Ok records.*1, cache') /\ cache_ok world cache'.
Proof.
  intros Hpage. revert m cache. induction fuel as [|fuel IH]; intros m cache Hm Hf Hc; [lia|].
  cbn [sn_ids_loop]. destruct (sn_next_ok (last (take m records).*1) page cache Hc) as (c1 & Hn & Hc1).
  rewrite after_bound_drop in Hn by (done || apply Hsn). rewrite (st_bind_ok _ _ _ _ _ Hn).
  rewrite length_take, length_drop.
  assert ((take m records).*1 ++ (take page (drop m records)).*1 = (take (m + page) records).*1) as ->.
  { rewrite <- fmap_app. f_equal. rewrite take_take_drop. done. }
  destruct (Nat.ltb_spec (page `min` (length records - m)) page) as [Hlt|Hge].
  - exists c1. split; [|done]. rewrite take_ge by lia. done.
  - assert (last (take page (drop m records)).*1 = last (take (m + page) records).*1) as ->.
    { rewrite <- (take_take_drop records m page), fmap_app.
      destruct (take page (drop m records)) as [|x l] eqn:E.
      - apply (f_equal length) in E. rewrite length_take, length_drop in E. simpl in E. lia.
      - by rewrite fmap_cons, last_app_cons. }
    apply IH; [lia | lia | done].
Qed.

Lemma sn_ids_ok cache :
  cache_ok world cache -> exists cache', sn_ids sn cache = (Ok records.*1, cache') /\ cache_ok world cache'.
Proof.
  intros Hc. pose proof Hsn as (_ & _ & HR). unfold sn_ids, sn_size. rewrite (Repr_count _ _ _ _ HR), Nat2Z.id.
  apply (sn_ids_loop_ok _ _ 0); [lia..|done].
Qed.

Lemma sn_children_ok prefixes cache :
  cache_ok world cache -> Forall (fun p : Prefix => (length p < 32)%nat) prefixes ->
  exists cache', sn_children sn prefixes cache =
    (Ok ((fun p => canon_children p records) <$> prefixes), cache') /\ cache_ok world cache'.
Proof.
  intros Hc Hp. pose proof Hsn as (Hwf & _ & HR). unfold sn_children. rewrite (Repr_empty _ _ _ _ HR).
  destruct (bool_decide_reflect (records = [])) as [E|Hne].
  - exists cache. split; [|done]. unfold mret, st_ret. do 2 f_equal. rewrite E.
    induction Hp as [|p l Hpl Hl IH]; [done|]. rewrite fmap_cons. cbn [length].
    rewrite replicate_S, canon_children_none by done. by f_equal.
  - apply (foldM_collect (cache_ok world) (children_of (sn_load sn) (sn_root sn))); [|done].
    intros p c Hin Hcc. rewrite Forall_forall in Hp.
    eapply children_of_ok; [exact sn_loader | done.. | by apply Hp].
Qed.
(** A prefix's records, or the refusal when there are more than asked for. *)
Definition records_answer (most : Z) (p : Prefix) : result (list Rec) :=
  let n := Z.of_nat (length (covered p records)) in
  if (leaf_max <? n) && (most <? n) then Throw too_many else Ok (covered p records).

Lemma sn_records_ok p most cache :
  cache_ok world cache -> (length p <= 32)%nat ->
  exists cache', sn_records sn [p] most cache =
    ((r ← records_answer most p; Ok [r]), cache') /\ cache_ok world cache'.
Proof.
  intros Hc Hp. pose proof Hsn as (Hwf & _ & HR). unfold sn_records, records_answer.
  rewrite (Repr_empty _ _ _ _ HR). destruct (bool_decide_reflect (records = [])) as [E|Hne].
  - exists cache. by rewrite E.
  - destruct (records_of_ok (SealedJournal.reader_read_at (sn_file sn)) (sn_load sn) (cache_ok world)
      (sn_root sn) p most records cache Hc Hwf HR Hp) as (c' & Hc' & Hr).
    exists c'. split; [|done]. cbn [foldM]. unfold mbind at 1, st_bind at 1. unfold mbind at 1, st_bind at 1.
    rewrite Hr. by destruct (_ && _).
Qed.

(** Every prefix answered, when none has more than asked for. *)
Lemma sn_records_all most prefixes cache :
  cache_ok world cache ->
  Forall (fun p : Prefix => (length p <= 32)%nat /\ Z.of_nat (length (covered p records)) <= most) prefixes ->
  exists cache', sn_records sn prefixes most cache =
    (Ok ((fun p => covered p records) <$> prefixes), cache') /\ cache_ok world cache'.
Proof.
  intros Hc Hp. pose proof Hsn as (Hwf & _ & HR). unfold sn_records. rewrite (Repr_empty _ _ _ _ HR).
  destruct (bool_decide_reflect (records = [])) as [E|Hne].
  - exists cache. split; [|done]. unfold mret, st_ret. do 2 f_equal. rewrite E. clear.
    induction prefixes as [|p l IH]; [done|]. rewrite fmap_cons. cbn [length]. by rewrite replicate_S, IH.
  - rewrite Forall_forall in Hp.
    apply (foldM_collect (cache_ok world) (fun p => records_of (sn_load sn) (sn_root sn) p most)); [|done].
    intros p c Hin Hcc. destruct (Hp p Hin) as [Hl Hle].
    destruct (records_of_ok (SealedJournal.reader_read_at (sn_file sn)) (sn_load sn) (cache_ok world)
      (sn_root sn) p most records c Hcc Hwf HR Hl) as (c' & Hc' & Hr).
    exists c'. split; [|done]. rewrite Hr. by rewrite (proj2 (Z.ltb_ge most _)), andb_false_r by lia.
Qed.
End reading.

End ledger.
