(* ===== verification/TrieClaims.v ===== *)
(** * What the object ledger promises

    The properties of [ObjectTrie] its users rely on, each with a run of the
    model it applies to. *)

From S2P Require Import Prelude Codec Journal Trie ObjectTrie TrieShape TrieOps TrieChange TrieDisk TrieLedger.
Import ObjectTrie.

(** ** A new ledger, and room for a small one *)

Section small.
Context `{Sha256, AesGcm, !AesGcmSpec, Entropy, Footprint}.

Lemma shallow_small records : Z.of_nat (length records) <= leaf_max -> shallow records.
Proof.
  intros Hl id. pose proof (length_filter (fun r : Rec => prefix_covers (take 31 (abytes id)) r.1 = true) records).
  unfold covered. lia.
Qed.

Lemma room_for_small records parts s :
  batches_ok records parts -> total records parts <= leaf_max ->
  SealedJournal.bytes (nodes s) <= 2 ^ 40 -> generation s < 2 ^ 40 -> room_for records parts s.
Proof.
  intros Hb Ht Hn Hg. split.
  - intros n. apply shallow_small. pose proof (merge_all_length _ _ (batches_take _ _ n Hb)) as Hl.
    unfold total in *. rewrite <- (take_drop n parts), concat_app, length_app in Ht. lia.
  - unfold total, leaf_max, room, unsaved in *. lia.
  - lia.
Qed.

(** What opening an empty directory gives. *)
Definition new_disk : Disk := mkDisk None None ∅.
Definition new_trie (k : array 32) (opts : Options) : t :=
  opened new_disk k opts (false, 0, no_child, 0).

Lemma open_new k opts :
  0 < checkpoint_bytes opts -> open new_disk k opts = Ok (new_trie k opts).
Proof.
  intros Hc. unfold open. cbn [open_root d_root new_disk mbind result_bind]. fold new_disk.
  fold (new_trie k opts). change (load_root (new_trie k opts)) with (Ok tt, new_trie k opts).
  cbn iota beta.
  change (SealedJournal.replay replay_frame max_frame (new_trie k opts) (journal (new_trie k opts)))
    with (0, new_trie k opts, journal (new_trie k opts)).
  cbn iota beta. change (set_journal (journal (new_trie k opts)) (new_trie k opts)) with (new_trie k opts).
  change (co_format1 (core (new_trie k opts))) with false. cbn iota.
  unfold checkpoint_if_due. rewrite (st_bind_ok _ _ _ (new_trie k opts) (new_trie k opts)) by reflexivity.
  change (SealedJournal.bytes (journal (new_trie k opts))) with 0.
  change (options (new_trie k opts)) with opts. by rewrite (proj2 (Z.leb_gt _ _)).
Qed.

(** Nothing is read of any node file yet. *)
Definition new_world (k : array 32) (opts : Options) : World :=
  with_reads (fun _ _ => Throw (RuntimeError "no journal frame at offset")) 0
    (SealedJournal.read_at (nodes (new_trie k opts))).

Lemma wf_empty : wf_recs 32 [].
Proof. split; [lia | constructor | constructor | by intros ? ? ?%not_elem_of_nil | done]. Qed.

Lemma new_like k a :
  file_like k a (SealedJournal.open None k a max_frame).
Proof. repeat split; try done; simpl; lia. Qed.

Lemma new_ledger k opts : ledger (new_world k opts) [] [] (new_trie k opts).
Proof.
  split; [|split].
  - split.
    + split; [reflexivity|]. split; [reflexivity|]. split; [reflexivity|]. split; [reflexivity|].
      intros g off n b Hx. change ((∅ : gmap NodeCache.Key (Node * Z)) !! (g, off) = Some (n, b)) in Hx.
      by rewrite lookup_empty in Hx.
    + apply wf_empty.
    + by apply Repr_nil.
    + apply new_like.
    + by split.
    + by split.
    + intros g o q Hg. change (generation (new_trie k opts)) with 0 in Hg.
      unfold new_world, with_reads. destruct (Z.eqb_spec g 0); [lia | done].
  - split.
    + exists no_child, 0. split; [reflexivity|]. split; [by split | by apply Repr_nil].
    + apply new_like.
    + exists []. split; [|constructor]. split; [apply new_like | reflexivity | constructor].
    + done.
    + apply batches_ok_nil, wf_empty.
  - reflexivity.
Qed.
End small.

(** ** Sample runs *)

Module Run.
#[export] Existing Instances Sample.gcm Sample.gcm_spec Sample.entropy Sample.sha.
#[export] Instance footprint : Footprint := fun n => 100 + Z.of_nat (length (n_children n)).

Definition opts : Options := mkOptions 1000 (2 ^ 20) (2 ^ 24).
Definition empty : t := new_trie Sample.key opts.

(** An id from its first byte. *)
Definition id1 (b : byte) : ObjectId := array_fit 32 [b].
Definition set1 (b v : byte) : Change := mkChange (id1 b) (Some [v]).
Definition erase1 (b : byte) : Change := mkChange (id1 b) None.

(** A batch that sets one id twice, and sets and erases another. *)
Definition batch : list Change := [set1 x05 x01; set1 x02 x01; set1 x05 x02; erase1 x02; set1 x03 x07].

Lemma empty_ledger : ledger (new_world Sample.key opts) [] [] empty.
Proof. apply new_ledger. Qed.

Lemma fits_small changes :
  sorted_changes changes -> Forall change_fits changes ->
  Forall (fun part => Z.of_nat (length (changes_bytes part)) <= max_frame) (frames_of changes) ->
  frames_size (frames_of changes) <= 2 ^ 40 ->
  Z.of_nat (length (concat (frames_of changes))) <= leaf_max ->
  apply_fits [] [] empty changes.
Proof.
  intros Hs Hv Hf Hj Hl. split; [done | done | |].
  - unfold journal_after. change (Z.of_nat (length (SealedJournal.contents (journal empty)))) with 0.
    unfold u64_max. lia.
  - apply room_for_small; [|done | by vm_compute | by vm_compute].
    split; [apply wf_empty | | unfold total, leaf_max in *; simpl; lia].
    apply Forall_forall. intros part Hp.
    apply chunks_elem in Hp as (_ & _ & Hin & Hsp); [|unfold changes_per_frame; lia].
    split; [by apply Hsp|]. rewrite Forall_forall in Hv |- *. auto.
Qed.

Lemma batch_frames : frames_of (unique_changes batch) = [unique_changes batch].
Proof. by vm_compute. Qed.

Lemma batch_fits : apply_fits [] [] empty (unique_changes batch).
Proof.
  apply fits_small; rewrite ?batch_frames; [exact (proj1 (unique_changes_ok _)) | | | by vm_compute | by vm_compute].
  - by vm_compute; repeat constructor.
  - constructor; [by vm_compute | constructor].
Qed.

(** After the batch: journaled and installed. *)
Definition after : t := (apply batch empty).2.
Definition after_parts : list (list Change) := [unique_changes batch].

Lemma after_applied :
  apply batch empty = (Ok tt, after) /\ ledger (new_world Sample.key opts) [] after_parts after /\
  nodes after = nodes empty /\ generation after = generation empty.
Proof.
  destruct (apply_journaled (new_world Sample.key opts) [] [] empty batch) as (s' & Ha & Hl & Hn & Hg);
    [apply empty_ledger | apply batch_fits | done | by vm_compute | rewrite batch_frames; by vm_compute |].
  rewrite batch_frames in Hl. unfold after. rewrite Ha. done.
Qed.

Lemma after_batches : batches_ok [] after_parts.
Proof. destruct after_applied as (_ & (_ & Hd & _) & _). apply (do_wf _ _ _ Hd). Qed.

Lemma after_room : room_for [] after_parts after.
Proof.
  destruct after_applied as (_ & _ & Hn & Hg).
  apply room_for_small; [apply after_batches | by vm_compute | by rewrite Hn; vm_compute | by rewrite Hg; vm_compute].
Qed.

Lemma after_holds : holds (merge_all [] after_parts) after.
Proof. exists (new_world Sample.key opts), [], after_parts. split; [apply after_applied | done]. Qed.

(** Every directory a crash can leave; this one has everything written. *)
Lemma crash_whole s disk :
  d_root disk = root_file s -> d_journal disk = SealedJournal.file (journal s) ->
  d_nodes disk !! generation s = SealedJournal.file (nodes s) ->
  (SealedJournal.durable (journal s) <= length (SealedJournal.contents (journal s)))%nat ->
  (SealedJournal.durable (nodes s) <= length (SealedJournal.contents (nodes s)))%nat ->
  crash s disk.
Proof.
  assert (forall j f, f = SealedJournal.file j ->
    (SealedJournal.durable j <= length (SealedJournal.contents j))%nat -> SealedJournal.crash_file j f) as Hc.
  { intros j f -> Hd. unfold SealedJournal.crash_file, SealedJournal.contents in *.
    destruct (SealedJournal.file j) as [g|]; [|done]. exists (length g). cbn in Hd.
    split; [lia|]. by rewrite firstn_all. }
  intros Hr Hj Hn Dj Dn. split; [exact Hr|]. split; by apply Hc.
Qed.

(** The directory as it stands, everything written having reached it. *)
Definition disk_of (s : t) : Disk :=
  mkDisk (root_file s) (SealedJournal.file (journal s))
    match SealedJournal.file (nodes s) with Some f => {[ generation s := f ]} | None => ∅ end.

Lemma after_crash : crash after (disk_of after).
Proof. apply crash_whole; vm_compute; (reflexivity || lia). Qed.
End Run.

(** ** The map it implements *)

Section claims.
Context `{Sha256, AesGcm, !AesGcmSpec, Entropy, Footprint}.

(** C1. The ledger is a map. [apply] always returns when values, journal
    frames and files are within their limits, and what every id maps to
    afterwards is what the last change to it in the batch says, or what it
    mapped to before; whatever the trie does on the way (splitting and merging
    leaves, journaling in several frames, a checkpoint, a rewrite of the node
    file). *)
Theorem trie_apply_refines (world : World) (records : list Rec) (parts : list (list Change)) (s : t)
    (input : list Change) :
  ledger world records parts s -> apply_fits records parts s (unique_changes input) ->
  exists s' now', apply input s = (Ok tt, s') /\ holds now' s' /\
    forall id, alookup id now' =
      match change_of id (rev input) with
      | Some v => v
      | None => alookup id (merge_all records parts)
      end.
Proof.
  intros Hs Hfit.
  destruct (apply_ok world records parts s input Hs Hfit)
    as (w & s' & now' & Ha & _ & (r & p & Hl & Em) & _ & _ & Hlook).
  exists s', now'. split; [exact Ha|]. split; [by exists w, r, p | exact Hlook].
Qed.

(** Lookups answer from the map: [get] gives what an id maps to, [next]
    the records after a bound in id order, at most the limit, and [size] how
    many there are, whether a node is in memory, in the cache or has to be
    read from the node file; the ledger is as it was. *)
Theorem trie_lookups (now : list Rec) (s : t) (id : ObjectId) (after : option ObjectId) (limit : nat) :
  holds now s ->
  size s = Z.of_nat (length now) /\
  (exists s', get id s = (Ok (alookup id now), s') /\ holds now s') /\
  (exists s', next after limit s = (Ok (take limit (after_bound after now)), s') /\ holds now s').
Proof.
  intros (w & r & p & (Hm & Hd & Hsync) & <-).
  assert (forall s', mem_ok w (merge_all r p) s' -> same_files s s' -> holds (merge_all r p) s') as Hh.
  { intros s' Hm' Hf. exists w, r, p. split; [|done]. split; [done|]. split; [by eapply dir_ok_same|].
    destruct Hf as (Ej & _). by rewrite Ej. }
  split; [apply (Repr_count _ _ _ _ (mo_root _ _ _ Hm))|]. split.
  - destruct (get_ok w _ s id Hm) as (s' & Hg & Hm' & Hf). exists s'. auto.
  - destruct (ledger_next_ok w _ s after limit Hm) as (s' & Hg & Hm' & Hf). exists s'. auto.
Qed.

(** The root of a ledger is the summary of the canonical trie. *)
Lemma holds_summary (now : list Rec) (s : t) : holds now s -> wf_recs 32 now /\ mkSummary (size s) (root_hash s) = canon 32 now.
Proof.
  intros (w & r & p & (Hm & _) & <-). destruct Hm as [_ Hwf HR _ _ _ _]. split; [exact Hwf | exact (Repr_summary _ _ _ _ Hwf HR)].
Qed.
(** The root after a batch, from what the ids map to then. *)
Lemma apply_root (world : World) (records : list Rec) (parts : list (list Change)) (s : t) (input : list Change) (new : list Rec) :
  ledger world records parts s -> apply_fits records parts s (unique_changes input) -> wf_recs 32 new ->
  (forall id, alookup id new = match change_of id (rev input) with Some v => v | None => alookup id (merge_all records parts) end) ->
  exists s', apply input s = (Ok tt, s') /\ mkSummary (size s') (root_hash s') = canon 32 new.
Proof.
  intros Hs Hfit Hwf Hnew. destruct (apply_ok world records parts s input Hs Hfit) as (w & s' & now' & Ha & _ & (r & p & Hl & Em) & _ & _ & Hlook).
  exists s'. split; [exact Ha|]. assert (holds now' s') as [Hwf' ->]%holds_summary by (by exists w, r, p). f_equal.
  apply sorted_recs_ext; [apply (wf_sorted _ _ Hwf') | apply (wf_sorted _ _ Hwf) |]. intros id. by rewrite Hlook, Hnew.
Qed.

(** C33. The root hash depends on the records alone. Take two ledgers with
    any records, saved or still in their journals, and a batch for each, such
    that the two end with the same map; and a third whose records are all
    replaced by that map at once. The three operations return, and the three
    roots have one count and one hash, those of the canonical trie of the
    map, computed from the sorted records: neither the order of the changes,
    nor how they were split over batches and journal frames, nor the splits
    and merges of leaves, checkpoints and rewrites on the way show in it. *)
Theorem trie_root_canonical (w1 w2 w3 : World) (r1 r2 r3 : list Rec) (p1 p2 p3 : list (list Change)) (s1 s2 s3 : t)
    (i1 i2 : list Change) (new : list Rec) :
  ledger w1 r1 p1 s1 -> apply_fits r1 p1 s1 (unique_changes i1) ->
  ledger w2 r2 p2 s2 -> apply_fits r2 p2 s2 (unique_changes i2) ->
  ledger w3 r3 p3 s3 -> wf_recs 32 new -> capacity new s3 -> batches_ok new p3 ->
  (forall id, alookup id new = match change_of id (rev i1) with Some v => v | None => alookup id (merge_all r1 p1) end) ->
  (forall id, alookup id new = match change_of id (rev i2) with Some v => v | None => alookup id (merge_all r2 p2) end) ->
  exists s1' s2' s3', apply i1 s1 = (Ok tt, s1') /\ apply i2 s2 = (Ok tt, s2') /\ replace_all new s3 = (Ok tt, s3') /\
    mkSummary (size s1') (root_hash s1') = canon 32 new /\
    size s2' = size s1' /\ root_hash s2' = root_hash s1' /\ size s3' = size s1' /\ root_hash s3' = root_hash s1'.
Proof.
  intros L1 F1 L2 F2 (Hm & Hd & _) Hwf Hcap Hb N1 N2.
  destruct (apply_root _ _ _ _ _ _ L1 F1 Hwf N1) as (s1' & A1 & C1). destruct (apply_root _ _ _ _ _ _ L2 F2 Hwf N2) as (s2' & A2 & C2).
  destruct (replace_all_stages w3 _ r3 p3 s3 new Hm Hd Hwf Hcap Hb) as (_ & _ & _ & w & s3' & _ & _ & _ & _ & _ & _ & _ & A3 & L3 & _).
  assert (holds new s3') as [_ C3]%holds_summary by (by exists w, new, []).
  exists s1', s2', s3'. rewrite <- C1 in C2, C3. injection C2 as ? ?. injection C3 as ? ?. by split_and!.
Qed.

(** ** Crashes *)

(** C5. What [apply] made durable survives: once it has returned, whatever
    part of the files a crash leaves beyond what was synced, opening the
    directory succeeds and gives the ledger with exactly the same records. *)
Theorem trie_survives_crash (world : World) (records : list Rec) (parts : list (list Change)) (s : t)
    (disk : Disk) (opts : Options) :
  ledger world records parts s -> room_for records parts s -> crash s disk ->
  exists s', open disk (key s) opts = Ok s' /\ holds (merge_all records parts) s'.
Proof.
  intros (Hm & Hd & Hsync) Hr Hc.
  by apply (open_ok world (merge_all records parts)).
Qed.

(** C31. A checkpoint can be cut anywhere. After the nodes are saved, after the
    root is published, after the journal is emptied and after the whole of it,
    rewrite included, a crash leaves a directory that opens to the records the
    ledger held: before the root is published the old root and the journal
    give them, after it the new root does and replaying the journal over it
    again changes nothing. *)
Theorem checkpoint_crash_safe (world : World) (records : list Rec) (parts : list (list Change)) (s : t)
    (opts : Options) :
  ledger world records parts s -> generation s + 2 < 2 ^ 64 ->
  (forall n, shallow (merge_all records (take n parts)) /\
             shallow (merge_all (merge_all records parts) (take n parts))) ->
  SealedJournal.bytes (nodes s) + 4 * room 32 (length records + length (concat parts)) < unsaved ->
  exists s1 s2 s', save_root s = (Ok tt, s1) /\ publish_root s1 = (Ok tt, s2) /\
    checkpoint s = (Ok tt, s') /\
    forall x disk, x ∈ [s; s1; s2; reset_journal s2; s'] -> crash x disk ->
      exists t', open disk (key s) opts = Ok t' /\ holds (merge_all records parts) t'.
Proof.
  intros (Hm & Hd & Hsync) Hgen Hsh Hroom. set (now := merge_all records parts) in *.
  pose proof (do_wf _ _ _ Hd) as Hb. pose proof (merge_all_length _ _ Hb) as Hlen. fold now in Hlen.
  set (n0 := (length records + length (concat parts))%nat) in *. change (total records parts) with (Z.of_nat n0) in Hlen.
  pose proof (room_mono (length now) n0 ltac:(lia)) as Hmono.
  assert (room 32 (length now + length (concat parts)) <= 2 * room 32 n0) as Hmono2.
  { unfold room, n0 in *. nia. }
  assert (0 <= room 32 (length now)) by (unfold room; lia).
  pose proof (fs_bytes_nonneg (F := SealedJournal.t) (nodes s) (fl_file _ _ _ (mo_nodes _ _ _ Hm))) as Hnn.
  cbn [fs_bytes journal_frame_store] in Hnn.
  assert (room_for records parts s) as Hr0 by (split; [intros n; apply Hsh | fold n0; lia | lia]).
  assert (total records parts < 2 ^ 63) as Ht by (by eapply room_total).
  destruct (merge_all_again records parts Hb Ht) as [Hb2 Eagain]. fold now in Hb2, Eagain.
  assert (capacity now s) as Hcap.
  { pose proof (room_capacity records parts s (length parts) Hb Hr0) as Hcap.
    by rewrite firstn_all in Hcap. }
  destruct (checkpoint_stages world now records parts s Hm Hd Hcap Hb2)
    as (s1 & s2 & w & s' & Hsave & Hd1 & Hpub & Hd2 & Hd3 & Hck & Hs' & _ & Hk & _ & Hx).
  exists s1, s2, s'. split; [exact Hsave|]. split; [exact Hpub|]. split; [exact Hck|].
  assert (forall x disk r p, dir_ok r p x -> merge_all r p = now -> synced (journal x) -> key x = key s ->
    (exists w, mem_ok w now x) -> room_for r p x -> crash x disk ->
    exists t', open disk (key s) opts = Ok t' /\ holds now t') as Hopen.
  { intros x disk r p Hdx Er Hsx Ekx [wx Hmx] Hrx Hcx.
    rewrite <- Ekx, <- Er. by apply (open_ok wx now). }
  assert (journal s1 = journal s /\ journal s2 = journal s) as [Ej1 Ej2].
  { destruct (save_root_ok world now s Hm Hcap) as (w1 & s1' & Hsave' & _ & _ & (Ej & _) & _).
    rewrite Hsave in Hsave'. injection Hsave' as <-. split; [exact Ej|]. rewrite <- Ej.
    by apply publish_root_journal. }
  intros x disk Hin Hcx.
  assert (x = s \/ x ∈ [s1; s2; reset_journal s2; s']) as [->|Hin'] by (by apply elem_of_cons in Hin).
  { by apply (Hopen s disk records parts Hd); [..| by exists world | |]. }
  destruct (Hx x Hin') as (Ekx & Egx & Hmx & Hbx).
  repeat (apply elem_of_cons in Hin' as [->|Hin']).
  - apply (Hopen s1 disk records parts); try done; [by rewrite Ej1|].
    split; [intros n; apply Hsh | fold n0; lia | lia].
  - apply (Hopen s2 disk now parts); try done; [by rewrite Ej2|].
    split; [intros n; apply Hsh | lia | lia].
  - apply (Hopen (reset_journal s2) disk now []); try done.
    split; [intros n; rewrite take_nil; exact (proj1 Hcap) | rewrite Nat.add_0_r; lia | lia].
  - apply (Hopen s' disk now []); try done; [apply Hs'..|].
    split; [intros n; rewrite take_nil; exact (proj1 Hcap) | rewrite Nat.add_0_r; lia | lia].
  - by apply not_elem_of_nil in Hin'.
Qed.
(** A write cut short is all or nothing. A crash after a batch's frame was
    written but not yet synced, leaving any part of it, opens to the records
    without the batch or with the whole of it, and never to a part of it. *)
Theorem torn_write_is_atomic (world : World) (records : list Rec) (parts : list (list Change)) (s : t)
    (part : list Change) (offset : Z) (j : SealedJournal.t) (disk : Disk) (opts : Options) :
  ledger world records parts s -> part_ok part -> batches_ok records (parts ++ [part]) ->
  journal_after [part] s <= u64_max -> room_for records (parts ++ [part]) s ->
  SealedJournal.append_unsynced (changes_bytes part) (journal s) = (Ok offset, j) ->
  crash (set_journal j s) disk ->
  exists s', open disk (key s) opts = Ok s' /\
    (holds (merge_all records parts) s' \/
     holds (merge_changes (merge_all records parts) part) s').
Proof.
  intros (Hm & Hd & Hsync) Hpart Hb Hja Hr Happ Hc.
  pose proof Hd as [Hroot Hj (l & Hl & Hp) Hlim Hb0]. pose proof Hpart as [Hs Hcount Hf Hfr].
  destruct (append_unsynced_spec (journal s) l (changes_bytes part) Hl) as (j1 & Happ' & Hj1 & Hap);
    [by rewrite (fl_max _ _ _ Hj)|].
  rewrite Happ in Happ'. injection Happ' as -> <-.
  assert (dir_ok records (parts ++ [part]) (set_journal j s)) as Hd1.
  { split; [exact Hroot | | | | exact Hb].
    - change (journal (set_journal j s)) with j. change (key (set_journal j s)) with (key s).
      destruct Hj as [_ Jk Ja Jm _], Hap as [A1 _ A3 A4 A5 A6 _ _]. split; congruence.
    - eexists. split; [exact Hj1|]. apply Forall2_app; [done|].
      repeat constructor; [by apply decode_changes_ok | done].
    - change (journal (set_journal j s)) with j. unfold journal_after in Hja. rewrite frames_size_one in Hja.
      rewrite (ap_contents _ _ _ Hap), length_app, length_frame_bytes. lia. }
  assert (mem_ok world (merge_all records parts) (set_journal j s)) as Hm1
    by (destruct Hm as [C1 C2 C3 C4 C5 C6 C7]; split; assumption).
  assert (room_for records (parts ++ [part]) (set_journal j s)) as Hr1
    by (destruct Hr as [R1 R2 R3]; split; assumption).
  destruct (open_frames_ok world _ records (parts ++ [part]) _ (set_journal j s) disk opts Hm1 Hd1 Hc Hr1 Hj1)
    as (n & s' & Ho & Hn2 & Hh & Hmax).
  { apply Forall2_app; [done|]. repeat constructor; [by apply decode_changes_ok | done]. }
  assert (length parts <= n)%nat as Hn1.
  { rewrite <- (Forall2_length _ _ _ Hp). apply (Hmax l [(draw_nonce (SealedJournal.draws (journal s)), changes_bytes part)]); [done|].
    change (journal (set_journal j s)) with j.
    rewrite (ap_durable _ _ _ Hap), (ap_key _ _ _ Hap), (ap_aad _ _ _ Hap), Hsync, (jh_contents _ _ Hl). done. }
  exists s'. split; [exact Ho|]. rewrite length_app in Hn2. simpl in Hn2.
  assert (n = length parts \/ n = S (length parts)) as [->| ->] by lia.
  - left. by rewrite take_app_length in Hh.
  - right. rewrite firstn_all2 in Hh by (rewrite length_app; simpl; lia).
    unfold merge_all in Hh. rewrite foldl_app in Hh. exact Hh.
Qed.
(** ** Snapshots *)

(** A snapshot is every record as it was when it was taken: after a later
    batch, with the checkpoint and the rewrite of the node file it may bring,
    and whatever the shared cache holds by then, the snapshot's lookups, pages
    and ids are still those of the records when it was taken, while the trie's
    own lookups see the batch. *)
Theorem snapshot_isolation (world : World) (records : list Rec) (parts : list (list Change)) (s s0 : t)
    (sn : Snapshot) (input : list Change) (id : ObjectId) (after : option ObjectId) (limit : nat) :
  ledger world records parts s -> apply_fits records parts s0 (unique_changes input) ->
  snapshot s = (Ok sn, s0) ->
  let then_ := merge_all records parts in
  exists s', apply input s0 = (Ok tt, s') /\
    (exists c, sn_get sn id (co_cache (core s')) = (Ok (alookup id then_), c)) /\
    (exists c, sn_next sn after limit (co_cache (core s')) = (Ok (take limit (after_bound after then_)), c)) /\
    (exists c, sn_ids sn (co_cache (core s')) = (Ok then_.*1, c)) /\
    (exists s'', get id s' = (Ok match change_of id (rev input) with
                                 | Some v => v | None => alookup id then_ end, s'')).
Proof.
  intros (Hm & Hd & Hsync) Hfit Hsnap then_.
  destruct (snapshot_taken world _ s Hm) as (sn' & s0' & Hsnap' & Hsn & Hm0 & Ej0 & Hd0).
  rewrite Hsnap in Hsnap'. injection Hsnap' as <- <-.
  destruct (apply_ok world records parts s0 input) as (w & s' & now' & Ha & Hwg & (r & p & Hl & Em) & _ & _ & Hlook).
  { split; [exact Hm0|]. split; [by apply Hd0 | by rewrite Ej0]. }
  { exact Hfit. }
  exists s'. split; [exact Ha|]. destruct Hl as (Hm' & _ & _).
  pose proof (snapshot_ok_grows _ _ _ _ Hwg Hsn) as Hsn'.
  pose proof (mo_core _ _ _ Hm') as (_ & _ & _ & _ & Hcache).
  destruct (sn_get_ok w _ sn Hsn' id _ Hcache) as (c1 & E1 & _).
  destruct (sn_next_ok w _ sn Hsn' after limit _ Hcache) as (c2 & E2 & _).
  destruct (sn_ids_ok w _ sn Hsn' _ Hcache) as (c3 & E3 & _).
  destruct (get_ok w _ s' id Hm') as (s'' & E4 & _). rewrite Em, Hlook in E4.
  split; [by exists c1|]. split; [by exists c2|]. split; [by exists c3 | by exists s''].
Qed.

(** Subtrees: for a prefix of fewer than 32 bytes, [children] gives the
    256 summaries one byte below it, each the canonical summary of exactly the
    records under it, whether the trie has nodes there or a leaf higher up
    holds them; [records] gives exactly the records below a prefix, or refuses
    when there are more than asked for (and more than a leaf holds). *)
Theorem snapshot_subtrees (world : World) (records : list Rec) (parts : list (list Change)) (s s0 : t)
    (sn : Snapshot) (p : Prefix) (most : Z) :
  ledger world records parts s -> snapshot s = (Ok sn, s0) -> (length p < 32)%nat ->
  let now := merge_all records parts in
  let below := Z.of_nat (length (covered p now)) in
  (exists c, sn_children sn [p] (co_cache (core s0)) =
     (Ok [(fun i => canon (31 - length p) (covered (p ++ [n2b i]) now)) <$> seq 0 256], c)) /\
  (exists c, sn_records sn [p] most (co_cache (core s0)) =
     (if (leaf_max <? below) && (most <? below)
      then Throw (LengthError "object trie: more records below a prefix than asked for")
      else Ok [covered p now], c)).
Proof.
  intros (Hm & _ & _) Hsnap Hp now below.
  destruct (snapshot_taken world _ s Hm) as (sn' & s0' & Hsnap' & Hsn & Hm0 & _).
  rewrite Hsnap in Hsnap'. injection Hsnap' as <- <-.
  pose proof (mo_core _ _ _ Hm0) as (_ & _ & _ & _ & Hcache).
  destruct (sn_children_ok world _ sn Hsn [p] _ Hcache) as (c1 & E1 & _); [by constructor|].
  destruct (sn_records_ok world _ sn Hsn p most _ Hcache ltac:(lia)) as (c2 & E2 & _).
  split; [by exists c1|]. exists c2. rewrite E2. unfold records_answer. fold now below.
  by destruct (_ && _).
Qed.
(** Nodes on disk decode to themselves, and fit in a frame: every leaf a
    trie can have above the last level (at most 128 records in id order, each
    value within its limit) and every interior node whose slots are saved
    encodes without error to at most a frame's bytes, and decodes to the same
    node, hash and count included. *)
Theorem node_roundtrip (depth : nat) (records : list Rec) (children : list Child) (interior : Node) :
  (depth < 32)%nat ->
  records <> [] -> Z.of_nat (length records) <= leaf_max -> sorted_recs records ->
  Forall (fun r : Rec => Z.of_nat (length r.2) <= value_max) records ->
  length children = 256%nat -> Forall slot_saved children ->
  make_interior depth children = Ok interior -> leaf_max < n_count interior ->
  (exists leaf bs, make_leaf depth records = Ok leaf /\ encode leaf = Ok bs /\
     decode bs false = Ok leaf /\ Z.of_nat (length bs) <= max_frame) /\
  (exists bs, encode interior = Ok bs /\ decode bs false = Ok interior /\
     Z.of_nat (length bs) <= max_frame).
Proof.
  intros Hd Hne Hle Hs Hv Hl Hsv Hi Hgt. split.
  - unfold make_leaf at 1. rewrite leaf_hash_ok by done. cbn [mbind result_bind].
    eexists _, _. split; [reflexivity|]. rewrite encode_leaf by done. split; [reflexivity|].
    rewrite decode_leaf by done. unfold make_leaf. rewrite leaf_hash_ok by done.
    split; [reflexivity|]. by apply length_leaf_enc.
  - exists (interior_enc depth children). split; [|split].
    + unfold make_interior in Hi. simp_bind Hi. injection Hi as <-. by apply encode_interior.
    + by apply decode_interior.
    + by apply length_interior_enc.
Qed.

(** [replace_all] leaves exactly the given records, in the node file and
    behind the published root, with nothing left in the journal to replay. *)
Theorem replace_all_replaces (world : World) (records : list Rec) (parts : list (list Change)) (s : t)
    (new : list Rec) :
  ledger world records parts s -> wf_recs 32 new -> capacity new s -> batches_ok new parts ->
  exists world' s', replace_all new s = (Ok tt, s') /\ ledger world' new [] s' /\
    size s' = Z.of_nat (length new) /\ mkSummary (size s') (root_hash s') = canon 32 new.
Proof.
  intros (Hm & Hd & _) Hwf Hcap Hb.
  destruct (replace_all_stages world _ records parts s new Hm Hd Hwf Hcap Hb)
    as (_ & _ & _ & w & s' & _ & _ & _ & _ & _ & _ & _ & Hr & Hl & _).
  exists w, s'. split; [exact Hr|]. split; [exact Hl|]. destruct Hl as ([_ _ HR _ _ _ _] & _).
  split; [exact (Repr_count _ _ _ _ HR) | exact (Repr_summary _ _ _ _ Hwf HR)].
Qed.
(** [replace_all] up to its checkpoint. *)
Definition replaced (new : list Rec) (s : t) : t :=
  match build 32 new with
  | Ok r => set_root r (set_core (set_superseded (live_bytes s) (core s)) s)
  | Throw _ => s
  end.
Lemma replaced_ok (world : World) (records : list Rec) (parts : list (list Change)) (s : t) (new : list Rec) :
  ledger world records parts s -> wf_recs 32 new ->
  replace_all new s = checkpoint (replaced new s) /\ mem_ok world new (replaced new s) /\ dir_ok records parts (replaced new s).
Proof.
  intros (Hm & Hd & _) Hwf. destruct (build_ok (world (generation s)) 32 new Hwf) as (r & Hbuild & HR).
  unfold replaced. rewrite Hbuild. split; [|split; [destruct Hm as [C1 C2 C3 C4 C5 C6 C7] | destruct Hd as [C1 C2 C3 C4 C5]]; split; assumption].
  unfold replace_all. rewrite (st_bind_ok _ _ _ tt (set_core (set_superseded (live_bytes s) (core s)) s)) by reflexivity.
  erewrite (st_bind_ok _ _ _ r); [|unfold st_lift; by rewrite Hbuild]. by erewrite st_bind_ok by reflexivity.
Qed.

(** C37. What a crash inside [replace_all] leaves. [replace_all] is its
    checkpoint over the new root; a crash before the root is published opens
    to the records from before, and one after it returned to exactly the new
    records. A crash in between, the root published and the journal not yet
    emptied, opens to neither: the journal from before is replayed over the
    new records, so that every id it has a change for is as that change says,
    be it set or erased, whatever the new records say of it. *)
Theorem replace_all_crash_points (world : World) (records : list Rec) (parts : list (list Change)) (s : t)
    (new : list Rec) (opts : Options) :
  ledger world records parts s -> wf_recs 32 new -> batches_ok new parts -> generation s + 2 < 2 ^ 64 ->
  (forall n, shallow (merge_all records (take n parts)) /\ shallow (merge_all new (take n parts))) ->
  SealedJournal.bytes (nodes s) + 3 * room 32 (length records + length new + length (concat parts)) < unsaved ->
  exists s1 s2 s', save_root (replaced new s) = (Ok tt, s1) /\ publish_root s1 = (Ok tt, s2) /\ replace_all new s = (Ok tt, s') /\
    (forall x disk, x ∈ [replaced new s; s1] -> crash x disk ->
       exists t', open disk (key s) opts = Ok t' /\ holds (merge_all records parts) t') /\
    (forall disk, crash s2 disk ->
       exists t' now, open disk (key s) opts = Ok t' /\ holds now t' /\
         forall id, alookup id now = match last_change id parts with Some v => v | None => alookup id new end) /\
    (forall disk, crash s' disk -> exists t', open disk (key s) opts = Ok t' /\ holds new t').
Proof.
  intros Hl Hwf Hb Hgen Hsh Hroom. destruct (replaced_ok _ _ _ _ new Hl Hwf) as (Er & Hm0 & Hd0). destruct Hl as (Hm & Hd & Hsync).
  set (s0 := replaced new s) in *. assert (journal s0 = journal s /\ nodes s0 = nodes s /\ key s0 = key s /\ generation s0 = generation s) as (Ej0 & En0 & Ek0 & Eg0).
  { unfold s0, replaced. by destruct (build 32 new). }
  set (n0 := (length records + length new + length (concat parts))%nat) in *.
  pose proof (room_mono (length new) n0 ltac:(lia)) as M1. pose proof (room_mono (length new + length (concat parts)) n0 ltac:(lia)) as M2.
  pose proof (room_mono (length records + length (concat parts)) n0 ltac:(lia)) as M3. assert (0 <= room 32 (length new)) by (unfold room; lia).
  assert (capacity new s0) as Hcap. { split; [exact (proj2 (Hsh O))|]. rewrite En0, Eg0. lia. }
  destruct (checkpoint_stages world new records parts s0 Hm0 Hd0 Hcap Hb) as (s1 & s2 & w & s' & Hsave & Hd1 & Hpub & Hd2 & _ & Hck & Hs' & _ & _ & _ & Hx).
  assert (journal s1 = journal s /\ journal s2 = journal s) as [Ej1 Ej2].
  { destruct (save_root_ok world new s0 Hm0 Hcap) as (w1 & s1' & Hsave' & _ & _ & (Ej & _) & _). rewrite Hsave in Hsave'. injection Hsave' as <-.
    apply publish_root_journal in Hpub. by rewrite Hpub, Ej. }
  assert (forall x r p disk, x ∈ [s0; s1; s2; s'] -> dir_ok r p x -> synced (journal x) -> (forall n, shallow (merge_all r (take n p))) ->
    room 32 (length r + length (concat p)) <= room 32 n0 -> crash x disk -> exists t', open disk (key s) opts = Ok t' /\ holds (merge_all r p) t') as Hopen.
  { intros x r p disk Hin Hdx Hsx Hshx Hrx Hcx.
    assert (key x = key s /\ generation x <= generation s + 1 /\ (exists w, mem_ok w new x) /\ SealedJournal.bytes (nodes x) <= SealedJournal.bytes (nodes s) + 2 * room 32 (length new)) as (Ek & Hg & [wx Hmx] & Hby).
    { apply elem_of_cons in Hin as [->|Hin]; [rewrite Ek0, Eg0, En0; split_and!; [done|lia|by exists world|lia]|]. rewrite <- Ek0, <- Eg0, <- En0. apply Hx. rewrite !elem_of_cons in Hin. rewrite !elem_of_cons. tauto. }
    rewrite <- Ek. apply (open_ok wx new); [done..|]. split; [done|lia|lia]. }
  exists s1, s2, s'. split; [exact Hsave|]. split; [exact Hpub|]. split; [by rewrite Er|]. split_and!.
  - intros x disk Hin. apply Hopen; [rewrite !elem_of_cons in Hin; rewrite !elem_of_cons; tauto| | |apply Hsh|done];
      (apply elem_of_cons in Hin as [->|Hin]; [|apply list_elem_of_singleton in Hin as ->]); rewrite ?Ej0, ?Ej1; done.
  - intros disk Hc. destruct (Hopen s2 new parts disk) as (t' & Ho & Hh); [by do 2 right; left|done|by rewrite Ej2|apply Hsh|done|done|].
    exists t', (merge_all new parts). split_and!; [done|done|]. intros id. by apply merge_all_lookup.
  - intros disk. destruct Hs' as (_ & Hd' & Hsync'). apply (Hopen s' new []); [by do 3 right; left|done|done| |cbn; rewrite Nat.add_0_r; lia].
    intros n. rewrite take_nil. exact (proj2 (Hsh O)).
Qed.
End claims.

(** ** Where the code falls short *)

Section shortcomings.
Import Run.

(** 129 ids with the same first 31 bytes. *)
Definition crowded : list Rec :=
  (fun i => (array_fit 32 (replicate 31 x00 ++ [n2b i]), [x01])) <$> seq 0 129.

(** A trie with more than 128 ids that share their first 31 bytes is
    saved with leaves at depth 32, which [decode] refuses: the checkpoint
    succeeds, and no record of it can be looked up once it has to be read back
    from the node file. *)
Example crowded_trie_unreadable :
  match build 32 crowded with
  | Throw _ => False
  | Ok built =>
      match save 32 built (nodes empty) with
      | (Ok saved, file) =>
          (Trie.find load saved (array_fit 32 [x00]) (mkCore file 0 false (NodeCache.empty 1000) 0)).1 =
          Throw (DecodeError "object trie node too deep")
      | _ => False
      end
  end.
Proof. vm_compute. reflexivity. Qed.
End shortcomings.

(** ** The properties on sample runs *)

Section witnesses.
Import Run.

Lemma trie_apply_refines_witness :
  exists s' now', apply batch empty = (Ok tt, s') /\ holds now' s' /\
    forall id, alookup id now' =
      match change_of id (rev batch) with
      | Some v => v
      | None => alookup id (merge_all [] [])
      end.
Proof. apply (trie_apply_refines (new_world Sample.key opts)); [apply empty_ledger | apply batch_fits]. Defined.

Lemma trie_lookups_witness :
  size after = 2 /\
  (exists s', get (id1 x05) after = (Ok (Some [x02]), s') /\ holds (merge_all [] after_parts) s') /\
  (exists s', next (Some (id1 x03)) 10 after = (Ok [(id1 x05, [x02])], s') /\
     holds (merge_all [] after_parts) s').
Proof. apply (trie_lookups (merge_all [] after_parts) after (id1 x05) (Some (id1 x03)) 10). apply after_holds. Defined.

(** What the batch leaves, and another batch that, over it, leaves the same. *)
Definition left_over : list Rec := [(id1 x03, [x07]); (id1 x05, [x02])].
Definition same_again : list Change := [set1 x05 x09; erase1 x01; set1 x05 x02].

Lemma left_over_wf : wf_recs 32 left_over.
Proof. split; [lia | by repeat constructor | by repeat constructor; vm_compute | apply share_0 | by vm_compute]. Qed.
Lemma left_over_fits : capacity left_over after /\ batches_ok left_over after_parts.
Proof.
  split.
  - destruct after_applied as (_ & _ & Hn & Hg). split; [by apply shallow_small; vm_compute|]. rewrite Hn, Hg. by vm_compute.
  - destruct after_batches as [_ Hp _]. split; [apply left_over_wf | exact Hp | by vm_compute].
Qed.
Lemma same_again_fits : apply_fits [] after_parts after (unique_changes same_again).
Proof.
  assert (frames_of (unique_changes same_again) = [unique_changes same_again]) as E by (by vm_compute).
  split; rewrite ?E.
  - vm_compute. repeat constructor; discriminate.
  - constructor; [by vm_compute | constructor].
  - by vm_compute.
  - apply room_for_small; [|by vm_compute..]. destruct after_batches as [Hr Hp Ht].
    split; [exact Hr | | by vm_compute]. apply Forall_app. split; [exact Hp|].
    constructor; [|constructor]. split; [apply (proj1 (unique_changes_ok same_again))|].
    vm_compute. repeat constructor; discriminate.
Qed.

Lemma trie_root_canonical_witness :
  exists s1' s2' s3', apply batch empty = (Ok tt, s1') /\ apply same_again after = (Ok tt, s2') /\ replace_all left_over after = (Ok tt, s3') /\
    mkSummary (size s1') (root_hash s1') = canon 32 left_over /\
    size s2' = size s1' /\ root_hash s2' = root_hash s1' /\ size s3' = size s1' /\ root_hash s3' = root_hash s1'.
Proof.
  apply (trie_root_canonical (new_world Sample.key opts) (new_world Sample.key opts) (new_world Sample.key opts) [] [] [] [] after_parts after_parts empty after after batch same_again left_over).
  - apply empty_ledger.
  - apply batch_fits.
  - apply after_applied.
  - apply same_again_fits.
  - apply after_applied.
  - apply left_over_wf.
  - apply left_over_fits.
  - apply left_over_fits.
  - intros id. unfold left_over, batch, set1, erase1. cbn [rev app change_of ch_id ch_value]. rewrite !alookup_cons.
    repeat match goal with |- context [decide (id = ?k)] => destruct (decide (id = k)) as [->|] end; try (vm_compute; reflexivity).
  - intros id. change (merge_all [] after_parts) with left_over. unfold left_over, same_again, set1, erase1. cbn [rev app change_of ch_id ch_value]. rewrite !alookup_cons.
    repeat match goal with |- context [decide (id = ?k)] => destruct (decide (id = k)) as [->|] end; try (vm_compute; reflexivity).
Defined.

(** The ledger after the batch, replaced by one record. *)
Lemma replace_all_crash_points_witness :
  exists s1 s2 s', save_root (replaced [(id1 x07, [x01])] after) = (Ok tt, s1) /\ publish_root s1 = (Ok tt, s2) /\
    replace_all [(id1 x07, [x01])] after = (Ok tt, s') /\
    (forall x disk, x ∈ [replaced [(id1 x07, [x01])] after; s1] -> crash x disk ->
       exists t', open disk (key after) opts = Ok t' /\ holds (merge_all [] after_parts) t') /\
    (forall disk, crash s2 disk ->
       exists t' now, open disk (key after) opts = Ok t' /\ holds now t' /\
         forall id, alookup id now = match last_change id after_parts with Some v => v | None => alookup id [(id1 x07, [x01])] end) /\
    (forall disk, crash s' disk -> exists t', open disk (key after) opts = Ok t' /\ holds [(id1 x07, [x01])] t').
Proof.
  assert (batches_ok [(id1 x07, [x01])] after_parts) as Hb.
  { destruct after_batches as [_ Hp _]. split; [|done|by vm_compute].
    split; [lia | by repeat constructor | by repeat constructor; vm_compute | apply share_0 | by vm_compute]. }
  apply (replace_all_crash_points (new_world Sample.key opts) [] after_parts after [(id1 x07, [x01])] opts).
  - apply after_applied.
  - apply Hb.
  - exact Hb.
  - destruct after_applied as (_ & _ & _ & ->). by vm_compute.
  - intros n. split; apply shallow_small; (etransitivity; [apply merge_all_length, batches_take; [apply after_batches || exact Hb]|]);
      destruct n as [|[|n]]; vm_compute; congruence.
  - destruct after_applied as (_ & _ & -> & _). by vm_compute.
Defined.
(** The record that was replaced is back after such a crash. *)
Example replace_all_crash_replays_stale_journal :
  let s2 := (publish_root (save_root (replaced [(id1 x07, [x01])] after)).2).2 in
  match open (disk_of s2) Sample.key opts with
  | Ok reopened => (get (id1 x05) reopened).1 = Ok (Some [x02])
  | Throw _ => False
  end.
Proof. vm_compute. reflexivity. Qed.

Lemma trie_survives_crash_witness :
  exists s', open (disk_of after) (key after) opts = Ok s' /\ holds (merge_all [] after_parts) s'.
Proof.
  apply (trie_survives_crash (new_world Sample.key opts) [] after_parts after);
    [apply after_applied | apply after_room | apply after_crash].
Defined.

Lemma checkpoint_crash_safe_witness :
  exists s1 s2 s', save_root after = (Ok tt, s1) /\ publish_root s1 = (Ok tt, s2) /\
    checkpoint after = (Ok tt, s') /\
    forall x disk, x ∈ [after; s1; s2; reset_journal s2; s'] -> crash x disk ->
      exists t', open disk (key after) opts = Ok t' /\ holds (merge_all [] after_parts) t'.
Proof.
  apply (checkpoint_crash_safe (new_world Sample.key opts) [] after_parts after opts).
  - apply after_applied.
  - destruct after_applied as (_ & _ & _ & ->). by vm_compute.
  - intros n. pose proof (merge_all_again _ _ after_batches ltac:(by vm_compute)) as [Hb _].
    split; apply shallow_small; (etransitivity; [apply merge_all_length, batches_take;
      [apply after_batches || exact Hb]|]); destruct n as [|[|n]]; vm_compute; congruence.
  - destruct after_applied as (_ & _ & -> & _). by vm_compute.
Defined.

(** A frame written over the batch, and a crash that tears it. *)
Definition torn_part : list Change := [set1 x09 x01].
Definition torn_journal : SealedJournal.t :=
  (SealedJournal.append_unsynced (changes_bytes torn_part) (journal after)).2.
Definition torn_disk : Disk :=
  mkDisk (root_file after)
    (Some (take (SealedJournal.durable torn_journal + 9) (SealedJournal.contents torn_journal))) ∅.

Lemma crash_cut j n :
  SealedJournal.file j = Some (SealedJournal.contents j) ->
  (SealedJournal.durable j <= n)%nat -> (n <= length (SealedJournal.contents j))%nat ->
  SealedJournal.crash_file j (Some (take n (SealedJournal.contents j))).
Proof. intros E ? ?. unfold SealedJournal.crash_file. rewrite E. by exists n. Qed.

Lemma torn_write_is_atomic_witness :
  exists s', open torn_disk (key after) opts = Ok s' /\
    (holds (merge_all [] after_parts) s' \/
     holds (merge_changes (merge_all [] after_parts) torn_part) s').
Proof.
  assert (batches_ok [] (after_parts ++ [torn_part])) as Hb.
  { destruct after_batches as [Hr Hp Ht]. split; [exact Hr | | by vm_compute].
    apply Forall_app. split; [exact Hp|]. repeat constructor. by vm_compute. }
  apply (torn_write_is_atomic (new_world Sample.key opts) [] after_parts after torn_part
    (SealedJournal.bytes (journal after)) torn_journal torn_disk opts).
  - apply after_applied.
  - split; [by repeat constructor | unfold changes_per_frame; simpl length; lia | constructor; [by vm_compute|constructor] | by vm_compute].
  - exact Hb.
  - by vm_compute.
  - destruct after_applied as (_ & _ & Hn & Hg). apply room_for_small; [exact Hb | by vm_compute | by rewrite Hn; vm_compute | by rewrite Hg; vm_compute].
  - vm_compute. reflexivity.
  - split; [reflexivity|]. split; [|vm_compute; reflexivity].
    apply crash_cut; [vm_compute; reflexivity | apply Nat.le_add_r | apply Nat.leb_le; vm_compute; reflexivity].
Defined.

(** A snapshot of the ledger after the batch, and a batch after it. *)
Definition later : list Change := [erase1 x05; set1 x01 x01].
Definition snap : Snapshot := match (snapshot after).1 with Ok sn => sn | Throw _ => mkSnapshot no_child 0 (SealedJournal.reader (nodes after)) end.
Definition after_snap : t := (snapshot after).2.

Lemma later_fits : apply_fits [] after_parts after_snap (unique_changes later).
Proof.
  assert (frames_of (unique_changes later) = [unique_changes later]) as E by (by vm_compute).
  split; rewrite ?E.
  - vm_compute. repeat constructor; discriminate.
  - constructor; [by vm_compute | constructor].
  - by vm_compute.
  - apply room_for_small; [|by vm_compute..]. destruct after_batches as [Hr Hp Ht].
    split; [exact Hr | | by vm_compute]. apply Forall_app. split; [exact Hp|].
    constructor; [|constructor]. split; [apply (proj1 (unique_changes_ok later))|].
    vm_compute. repeat constructor; discriminate.
Qed.

Lemma snapshot_isolation_witness :
  let then_ := merge_all [] after_parts in
  exists s', apply later after_snap = (Ok tt, s') /\
    (exists c, sn_get snap (id1 x05) (co_cache (core s')) = (Ok (alookup (id1 x05) then_), c)) /\
    (exists c, sn_next snap None 10 (co_cache (core s')) = (Ok (take 10 (after_bound None then_)), c)) /\
    (exists c, sn_ids snap (co_cache (core s')) = (Ok then_.*1, c)) /\
    (exists s'', get (id1 x05) s' = (Ok match change_of (id1 x05) (rev later) with
                                 | Some v => v | None => alookup (id1 x05) then_ end, s'')).
Proof.
  apply (snapshot_isolation (new_world Sample.key opts) [] after_parts after after_snap snap later
    (id1 x05) None 10).
  - apply after_applied.
  - apply later_fits.
  - vm_compute. reflexivity.
Defined.

Lemma snapshot_subtrees_witness :
  let now := merge_all [] after_parts in
  let below := Z.of_nat (length (covered [x05] now)) in
  (exists c, sn_children snap [[x05]] (co_cache (core after_snap)) =
     (Ok [(fun i => canon (31 - length [x05]) (covered ([x05] ++ [n2b i]) now)) <$> seq 0 256], c)) /\
  (exists c, sn_records snap [[x05]] 100 (co_cache (core after_snap)) =
     (if (leaf_max <? below) && (100 <? below)
      then Throw (LengthError "object trie: more records below a prefix than asked for")
      else Ok [covered [x05] now], c)).
Proof.
  apply (snapshot_subtrees (new_world Sample.key opts) [] after_parts after after_snap snap [x05] 100).
  - apply after_applied.
  - vm_compute. reflexivity.
  - simpl. lia.
Defined.

Lemma replace_all_replaces_witness :
  exists world' s', replace_all [(id1 x07, [x01])] after = (Ok tt, s') /\
    ledger world' [(id1 x07, [x01])] [] s' /\
    size s' = 1 /\ mkSummary (size s') (root_hash s') = canon 32 [(id1 x07, [x01])].
Proof.
  assert (wf_recs 32 [(id1 x07, [x01])]) as Hwf.
  { split; [lia | by repeat constructor | by repeat constructor; vm_compute | apply share_0 | by vm_compute]. }
  apply (replace_all_replaces (new_world Sample.key opts) [] after_parts after).
  - apply after_applied.
  - exact Hwf.
  - destruct after_applied as (_ & _ & Hn & Hg). split; [by apply shallow_small; vm_compute|].
    rewrite Hn, Hg. by vm_compute.
  - destruct after_batches as [_ Hp _]. by split; [| |vm_compute].
Defined.

(** Two leaves of a hundred records each, and their parent. *)
Definition sample_children : list Child :=
  [mkChild 0 4000 100 (array_zero 32) None; mkChild 4028 4000 100 (array_zero 32) None] ++
  replicate 254 no_child.
Definition sample_interior : Node :=
  match make_interior 3 sample_children with Ok n => n | Throw _ => mkNode 0 true [] [] 0 (array_zero 32) end.

Lemma node_roundtrip_witness :
  (exists leaf bs, make_leaf 3 [(id1 x07, [x01]); (id1 x08, [])] = Ok leaf /\ encode leaf = Ok bs /\
     decode bs false = Ok leaf /\ Z.of_nat (length bs) <= max_frame) /\
  (exists bs, encode sample_interior = Ok bs /\ decode bs false = Ok sample_interior /\
     Z.of_nat (length bs) <= max_frame).
Proof.
  apply (node_roundtrip 3 [(id1 x07, [x01]); (id1 x08, [])] sample_children sample_interior).
  - lia.
  - done.
  - by vm_compute.
  - by repeat constructor.
  - by repeat constructor; vm_compute.
  - done.
  - apply Forall_app. split; [|by apply Forall_replicate; left].
    repeat apply Forall_cons_2; [..|constructor]; right; simpl; unfold unsaved;
      refine (conj _ (conj _ (conj _ eq_refl))); lia.
  - vm_compute. reflexivity.
  - by vm_compute.
Defined.
End witnesses.
