(* ===== verification/Retention.v ===== *)
(** * The claims a node holds

    [src/src/storage/retention.cpp], [RetentionStore]: an observed-remove set
    of claims for each object, in an object trie for each class of object,
    with a write-ahead log ([claims.log]) and the migration from the
    checkpoint files that came before the tries. [RetentionSet] proves the
    set right, [RetentionClaims] the store. *)

From S2P Require Import Prelude Sorts Maps Codec Journal Trie ObjectTrie.

Module Retention.

(** ** Constants *)

Definition journal_aad : array 8 := ObjectTrie.tag8 "MACHRTJ1".
Definition checkpoint_aad : array 8 := ObjectTrie.tag8 "MACHRTS1".
Definition legacy_checkpoint_magic : array 8 := ObjectTrie.tag8 "MRTS0001".
Definition shard_checkpoint_magic : array 8 := ObjectTrie.tag8 "MRTS0002".
Definition op_add : Z := 1.
Definition op_release : Z := 2.
Definition op_prune : Z := 3.
Definition max_legacy_frame : Z := 64 * 1024 * 1024.
Definition max_journal_frame : Z := 4 * 1024 * 1024.
Definition journal_compact_bytes : Z := 64 * 1024 * 1024.
Definition retain_ids_per_frame : nat := Z.to_nat 65536.
Definition max_checkpoint_shard_bytes : Z := 64 * 1024 * 1024.
Definition checkpoint_shards : nat := Z.to_nat 256.
Definition checkpoint_changed : Z := 8192.
Definition checkpoint_journal_bytes : Z := 4 * 1024 * 1024.
Definition scan_page : nat := Z.to_nat 256.

Inductive RetentionClass : Type := Data | Control.
Definition class_code (c : RetentionClass) : Z := match c with Data => 1 | Control => 2 end.
Definition valid_class (value : Z) : bool := (value =? class_code Data) || (value =? class_code Control).
(** [static_cast<RetentionClass>] of a valid one. *)
Definition class_of_code (value : Z) : RetentionClass := if value =? class_code Data then Data else Control.

(** ** Claims *)

Record RetentionDot : Type := mkDot { dot_origin : NodeId; dot_sequence : Z }.
Definition RetentionClock : Type := list (NodeId * Z).

(** One object's observed-remove state, as its trie record holds it. *)
Record ObjectState : Type := mkState { adds : RetentionClock; removed : RetentionClock }.
Definition no_state : ObjectState := mkState [] [].
Definition state_empty (s : ObjectState) : bool :=
  match adds s, removed s with [], [] => true | _, _ => false end.
Definition StateMap : Type := list (ObjectId * ObjectState).

Definition invalid_dot (dot : RetentionDot) : bool :=
  bool_decide (dot_origin dot = array_zero 16) || (dot_sequence dot =? 0).

(** ** Records *)

Definition write_clock_entry (e : NodeId * Z) : Writer.prog := Writer.fixed e.1 ;;; Writer.u64 e.2.
Definition write_side (side : RetentionClock) : Writer.prog := fun w =>
  if u16_max <? Z.of_nat (length side) then Throw (RuntimeError "too many retention clocks for one object")
  else (Writer.u16 (wrap16 (Z.of_nat (length side))) ;;; Writer.each write_clock_entry side) w.
Definition encode_state (s : ObjectState) : result Bytes :=
  Writer.run (write_side (adds s) ;;; write_side (removed s)).

(** [n] entries, each new and neither side of it zero. *)
Fixpoint read_entries (bad : exn) (n : nat) (side : RetentionClock) : Reader.prog RetentionClock :=
  match n with
  | O => mret side
  | S n' =>
      origin ← Reader.fixed 16;
      sequence ← Reader.u64;
      if bool_decide (origin = array_zero 16) || (sequence =? 0) then Reader.throw bad
      else
        match map_emplace origin sequence side with
        | None => Reader.throw bad
        | Some side' => read_entries bad n' side'
        end
  end.

Definition bad_record_clock : exn := DecodeError "bad retention record clock".
Definition decode_state (bytes : Bytes) : result ObjectState :=
  Reader.run
    (n ← Reader.u16; adds ← read_entries bad_record_clock (Z.to_nat n) [];
     m ← Reader.u16; removed ← read_entries bad_record_clock (Z.to_nat m) [];
     _ ← Reader.finish;
     mret (mkState adds removed)) bytes.

(** The adds' count leads the record. *)
Definition claimed (record : Bytes) : bool :=
  (2 <=? length record)%nat && (negb (b2z (nth 0 record x00) =? 0) || negb (b2z (nth 1 record x00) =? 0)).

(** ** The files before the tries *)

Definition undominated (removed : RetentionClock) (e : NodeId * Z) : bool :=
  match alookup e.1 removed with Some r => negb (e.2 <=? r) | None => true end.

Definition read_clocks (limit : Z) : Reader.prog ObjectState :=
  n ← Reader.u32;
  if limit <? n then Reader.throw (DecodeError "too many retention checkpoint adds")
  else
    adds ← read_entries (DecodeError "bad retention checkpoint add") (Z.to_nat n) [];
    m ← Reader.u32;
    if limit <? m then Reader.throw (DecodeError "too many retention checkpoint removes")
    else
      removed ← read_entries (DecodeError "bad retention checkpoint remove") (Z.to_nat m) [];
      mret (mkState (base.filter (fun e => undominated removed e = true) adds) removed).

(** A class's objects. In a shard, ids start with its byte. *)
Fixpoint read_objects (limit : Z) (shard : option Z) (n : nat) (state : StateMap) : Reader.prog StateMap :=
  match n with
  | O => mret state
  | S n' =>
      id ← Reader.fixed 32;
      if match shard with Some s => negb (b2z (abyte id 0) =? s) | None => false end then
        Reader.throw (DecodeError "retention object stored in wrong checkpoint shard")
      else
        object ← read_clocks limit;
        match map_emplace id object state with
        | None => Reader.throw (DecodeError "duplicate retention checkpoint object")
        | Some state' => read_objects limit shard n' state'
        end
  end.

Section files.
Context `{AesGcm}.

(** magic | nonce | tag | sealed text. *)
Definition open_sealed (key : array 32) (magic : array 8) (bad : exn) (most : Z) (encoded : Bytes) : result Bytes :=
  sealed ← Reader.run
    (m ← Reader.fixed 8;
     if negb (bool_decide (m = magic)) then Reader.throw bad
     else
       nonce ← Reader.fixed 12; tag ← Reader.fixed 16; ciphertext ← Reader.bytes most;
       _ ← Reader.finish; mret (nonce, tag, ciphertext)) encoded;
  let '(nonce, tag, ciphertext) := sealed in
  aes_gcm_open key nonce tag ciphertext (abytes checkpoint_aad).

Definition decode_checkpoint_shard (key : array 32) (shard : Z) (encoded : Bytes) (state : StateMap * StateMap)
    : result (StateMap * StateMap) :=
  plain ← open_sealed key shard_checkpoint_magic (DecodeError "bad retention checkpoint shard magic")
    max_checkpoint_shard_bytes encoded;
  Reader.run
    (version ← Reader.u8;
     if negb (version =? 2) then Reader.throw (DecodeError "bad retention checkpoint shard identity")
     else
       s ← Reader.u8;
       if negb (s =? shard) then Reader.throw (DecodeError "bad retention checkpoint shard identity")
       else
         n ← Reader.u32;
         if 1500000 <? n then Reader.throw (DecodeError "too many retention checkpoint shard objects")
         else
           data ← read_objects 65536 (Some shard) (Z.to_nat n) state.1;
           m ← Reader.u32;
           if 1500000 <? m then Reader.throw (DecodeError "too many retention checkpoint shard objects")
           else
             control ← read_objects 65536 (Some shard) (Z.to_nat m) state.2;
             _ ← Reader.finish; mret (data, control)) plain.

Definition decode_monolithic_checkpoint (key : array 32) (encoded : Bytes) (state : StateMap * StateMap)
    : result (StateMap * StateMap) :=
  plain ← open_sealed key legacy_checkpoint_magic (DecodeError "bad retention checkpoint magic")
    max_legacy_frame encoded;
  Reader.run
    (version ← Reader.u8;
     if negb (version =? 1) then Reader.throw (DecodeError "unsupported retention checkpoint version")
     else
       n ← Reader.u32;
       if 4000000 <? n then Reader.throw (DecodeError "too many retention checkpoint objects")
       else
         data ← read_objects 1000000 None (Z.to_nat n) state.1;
         m ← Reader.u32;
         if 4000000 <? m then Reader.throw (DecodeError "too many retention checkpoint objects")
         else
           control ← read_objects 1000000 None (Z.to_nat m) state.2;
           _ ← Reader.finish; mret (data, control)) plain.

(** [claims.current], [claims.meta] and the generations' shard files. *)
Record Legacy : Type := mkLegacy {
  lg_current : option Bytes;
  lg_meta : option Bytes;
  lg_shards : Bytes -> Bytes -> option Bytes
}.
Definition no_legacy : Legacy := mkLegacy None None (fun _ _ => None).

Definition shard_name (shard : Z) : Bytes :=
  [hex_char (Z.shiftr shard 4); hex_char (Z.land shard 15)] ++ String.list_byte_of_string ".meta".

Definition valid_generation_name (value : Bytes) : bool :=
  let prefix := String.list_byte_of_string "gen-" in
  bool_decide (take 4 value = prefix) && negb (bool_decide (x2f ∈ value)) && negb (bool_decide (x5c ∈ value)) &&
  (length value <=? 128)%nat.

(** Trailing newlines, returns, spaces and tabs are dropped. *)
Definition blank (b : byte) : bool := existsb (fun c => bool_decide (b = c)) [x0a; x0d; x20; x09].
Fixpoint drop_blank (text : Bytes) : Bytes :=
  match text with
  | [] => []
  | b :: rest => if blank b then drop_blank rest else text
  end.
Definition read_small_text (text : Bytes) (limit : Z) : result Bytes :=
  if limit <? Z.of_nat (length text) then Throw (RuntimeError "retention checkpoint manifest is too large")
  else Ok (rev (drop_blank (rev text))).

Definition read_file (file : option Bytes) (limit : Z) : result Bytes :=
  match file with
  | None => Throw (RuntimeError "cannot read retention checkpoint")
  | Some bytes =>
      if limit <? Z.of_nat (length bytes) then Throw (RuntimeError "retention checkpoint is too large")
      else Ok bytes
  end.

Definition load_checkpoint_files (key : array 32) (files : Legacy) : result (StateMap * StateMap) :=
  match lg_current files with
  | None =>
      match lg_meta files with
      | None => Ok ([], [])
      | Some _ =>
          bytes ← read_file (lg_meta files) (max_legacy_frame + 64);
          decode_monolithic_checkpoint key bytes ([], [])
      end
  | Some manifest =>
      generation ← read_small_text manifest 256;
      if negb (valid_generation_name generation) then
        Throw (RuntimeError "invalid retention checkpoint generation")
      else
        foldM (fun state i =>
            let shard := Z.of_nat i in
            bytes ← read_file (lg_shards files generation (shard_name shard)) (max_checkpoint_shard_bytes + 64);
            decode_checkpoint_shard key shard bytes state)
          ([], []) (seq 0 checkpoint_shards)
  end.
End files.

(** ** The store *)

Record ClassLedger : Type := mkLedger {
  cl_trie : ObjectTrie.t;
  release_after : option ObjectId;
  prune_after : option ObjectId
}.

Record t : Type := mk {
  rs_data : ClassLedger;
  rs_control : ClassLedger;
  rs_changed : Z;
  rs_journal : SealedJournal.t;
  rs_key : array 32;
  (** Files no member holds: the marker [ledger] and those before it. *)
  rs_marker : bool;
  rs_legacy : Legacy
}.

Definition class_for (type : RetentionClass) (s : t) : ClassLedger :=
  match type with Data => rs_data s | Control => rs_control s end.
Definition set_class (type : RetentionClass) (cl : ClassLedger) (s : t) : t :=
  match type with
  | Data => mk cl (rs_control s) (rs_changed s) (rs_journal s) (rs_key s) (rs_marker s) (rs_legacy s)
  | Control => mk (rs_data s) cl (rs_changed s) (rs_journal s) (rs_key s) (rs_marker s) (rs_legacy s)
  end.
Definition set_changed (n : Z) (s : t) : t :=
  mk (rs_data s) (rs_control s) n (rs_journal s) (rs_key s) (rs_marker s) (rs_legacy s).
Definition set_journal (j : SealedJournal.t) (s : t) : t :=
  mk (rs_data s) (rs_control s) (rs_changed s) j (rs_key s) (rs_marker s) (rs_legacy s).
Definition set_files (marker : bool) (files : Legacy) (s : t) : t :=
  mk (rs_data s) (rs_control s) (rs_changed s) (rs_journal s) (rs_key s) marker files.
Definition set_trie (trie : ObjectTrie.t) (cl : ClassLedger) : ClassLedger :=
  mkLedger trie (release_after cl) (prune_after cl).

(** A method of a class's trie, or of the log, on the whole store. *)
Definition on_trie {A} (type : RetentionClass) (m : ST ObjectTrie.t A) : ST t A := fun s =>
  let cl := class_for type s in
  let '(r, trie) := m (cl_trie cl) in (r, set_class type (set_trie trie cl) s).
Definition on_journal {A} (m : ST SealedJournal.t A) : ST t A := fun s =>
  let '(r, j) := m (rs_journal s) in (r, set_journal j s).
Definition set_release_after (type : RetentionClass) (c : option ObjectId) (s : t) : t :=
  let cl := class_for type s in set_class type (mkLedger (cl_trie cl) c (prune_after cl)) s.
Definition set_prune_after (type : RetentionClass) (c : option ObjectId) (s : t) : t :=
  let cl := class_for type s in set_class type (mkLedger (cl_trie cl) (release_after cl) c) s.

(** *** One object *)

(** The state with a claim added; none when it changes nothing. *)
Definition add_claim (dot : RetentionDot) (object : ObjectState) : option ObjectState :=
  if match alookup (dot_origin dot) (removed object) with
     | Some r => dot_sequence dot <=? r
     | None => false
     end then None
  else
    let current := default 0 (alookup (dot_origin dot) (adds object)) in
    if dot_sequence dot <=? current then None
    else Some (mkState (map_set (dot_origin dot) (dot_sequence dot) (adds object)) (removed object)).

(** One entry of the observed clock, and whether anything has changed. *)
Definition release_entry (acc : ObjectState * bool) (e : NodeId * Z) : ObjectState * bool :=
  let '(object, changed) := acc in
  let '(origin, sequence) := e in
  if sequence =? 0 then acc
  else
    let old := default 0 (alookup origin (removed object)) in
    let '(rem, changed) :=
      if old <? sequence then (map_set origin sequence (removed object), true)
      else (map_set origin old (removed object), changed) in
    match alookup origin (adds object) with
    | Some a =>
        if a <=? sequence then (mkState (map_erase origin (adds object)) rem, true)
        else (mkState (adds object) rem, changed)
    | None => (mkState (adds object) rem, changed)
    end.
Definition release_claims (observed : RetentionClock) (object : ObjectState) : ObjectState * bool :=
  foldl release_entry (object, false) observed.

Section store.
Context `{Sha256, AesGcm, Entropy, Footprint}.

(** *** Changes to a class *)

Definition decode_record (record : option Bytes) : result ObjectState :=
  match record with Some bytes => decode_state bytes | None => Ok no_state end.

Definition set_change (id : ObjectId) (object : ObjectState) (changes : list Change) : result (list Change) :=
  bytes ← encode_state object; Ok (changes ++ [mkChange id (Some bytes)]).

Definition add_step (dot : RetentionDot) (changes : list Change) (id : ObjectId) : ST ObjectTrie.t (list Change) :=
  record ← ObjectTrie.get id;
  object ← st_lift (decode_record record);
  match add_claim dot object with
  | None => mret changes
  | Some object' => st_lift (set_change id object' changes)
  end.

Definition release_step (observed : RetentionClock) (changes : list Change) (id : ObjectId)
    : ST ObjectTrie.t (list Change) :=
  record ← ObjectTrie.get id;
  match record with
  | None => mret changes
  | Some bytes =>
      object ← st_lift (decode_state bytes);
      let '(object', changed) := release_claims observed object in
      if changed then st_lift (set_change id object' changes) else mret changes
  end.

Definition prune_step (changes : list Change) (id : ObjectId) : ST ObjectTrie.t (list Change) :=
  record ← ObjectTrie.get id;
  match record with
  | Some bytes => if claimed bytes then mret changes else mret (changes ++ [mkChange id None])
  | None => mret changes
  end.

(** The changes counted and installed. *)
Definition install_changes (type : RetentionClass) (changes : list Change) : ST t Z :=
  _ ← st_modify (fun s => set_changed (wrap64 (rs_changed s + Z.of_nat (length changes))) s);
  _ ← on_trie type (ObjectTrie.install changes);
  mret (Z.of_nat (length changes)).

Definition apply_add_locked (type : RetentionClass) (dot : RetentionDot) (ids : list ObjectId) : ST t unit :=
  if invalid_dot dot then st_throw (RuntimeError "invalid retention mutation dot")
  else
    changes ← on_trie type (foldM (add_step dot) [] (sort_unique ids));
    _ ← install_changes type changes; mret tt.

Definition apply_release_locked (type : RetentionClass) (observed : RetentionClock) (ids : list ObjectId) : ST t Z :=
  changes ← on_trie type (foldM (release_step observed) [] (sort_unique ids));
  install_changes type changes.

Definition apply_prune_locked (type : RetentionClass) (ids : list ObjectId) : ST t Z :=
  changes ← on_trie type (foldM prune_step [] (sort_unique ids));
  install_changes type changes.

(** *** Checkpoints *)

Definition checkpoint_locked : ST t unit :=
  _ ← on_trie Data ObjectTrie.checkpoint;
  _ ← on_trie Control ObjectTrie.checkpoint;
  _ ← st_modify (fun s => set_journal (SealedJournal.reset (rs_journal s)) s);
  _ ← st_modify (set_changed 0);
  st_modify (fun s => set_files (rs_marker s) no_legacy s).

Definition checkpoint_if_due_locked : ST t unit :=
  s ← st_get;
  if (checkpoint_changed <=? rs_changed s) || (checkpoint_journal_bytes <=? SealedJournal.bytes (rs_journal s))
  then checkpoint_locked else mret tt.

(** *** Walks *)

(** A page looked at: what [visit] makes of it, where the cursor is, how many
    were visited, where the walk started, and whether it goes on. *)
Record Walk (A : Type) : Type := mkWalk {
  wk_acc : A;
  wk_cursor : option ObjectId;
  wk_after : option ObjectId;
  wk_start : option ObjectId;
  wk_visited : nat;
  wk_go : bool
}.
#[global] Arguments mkWalk {A} _ _ _ _ _ _.
#[global] Arguments wk_acc {A} _.
#[global] Arguments wk_cursor {A} _.
#[global] Arguments wk_after {A} _.
#[global] Arguments wk_start {A} _.
#[global] Arguments wk_visited {A} _.
#[global] Arguments wk_go {A} _.

Section walk.
Context {A : Type} (visit : A -> ObjectId -> Bytes -> A * bool).

Definition stopped (w : Walk A) : Walk A :=
  mkWalk (wk_acc w) (wk_cursor w) (wk_after w) (wk_start w) (wk_visited w) false.

Fixpoint walk_page (wrapped : bool) (page : list Rec) (w : Walk A) : Walk A :=
  match page with
  | [] => w
  | (id, record) :: rest =>
      if wrapped && match wk_start w with Some start => negb (key_ltb id start) | None => false end
      then stopped w
      else
        let start := match wk_start w with None => Some id | some => some end in
        let '(acc, go) := visit (wk_acc w) id record in
        let w' := mkWalk acc (Some id) (Some id) start (S (wk_visited w)) go in
        if go then walk_page wrapped rest w' else w'
  end.

(** Each turn visits a record, wraps or returns. *)
Fixpoint walk_loop (fuel limit : nat) (wrapped : bool) (w : Walk A) : ST ObjectTrie.t (Walk A) :=
  match fuel with
  | O => mret w
  | S fuel' =>
      if (limit <=? wk_visited w)%nat then mret w
      else
        page ← ObjectTrie.next (wk_after w) (Nat.min scan_page (limit - wk_visited w));
        match page with
        | [] =>
            match wrapped, wk_after w with
            | true, _ | _, None => mret w
            | false, Some _ =>
                walk_loop fuel' limit true
                  (mkWalk (wk_acc w) (wk_cursor w) None (wk_start w) (wk_visited w) true)
            end
        | _ =>
            let w' := walk_page wrapped page w in
            if wk_go w' then walk_loop fuel' limit wrapped w' else mret w'
        end
  end.

(** What [visit] has made of the records and where the cursor is left. *)
Definition scan_locked (cursor : option ObjectId) (limit : nat) (acc : A) : ST ObjectTrie.t (A * option ObjectId) :=
  w ← walk_loop (S (S limit)) limit false (mkWalk acc cursor cursor None 0 true);
  mret (wk_acc w, wk_cursor w).
End walk.

(** *** The log *)

Definition write_id (id : ObjectId) : Writer.prog := Writer.fixed id.
Definition add_frame (type : RetentionClass) (dot : RetentionDot) (ids : list ObjectId) : result Bytes :=
  Writer.run
    (Writer.u8 op_add ;;; Writer.u8 (class_code type) ;;; Writer.fixed (dot_origin dot) ;;;
     Writer.u64 (dot_sequence dot) ;;; Writer.u32 (wrap32 (Z.of_nat (length ids))) ;;; Writer.each write_id ids).
Definition release_frame (type : RetentionClass) (clock : RetentionClock) (ids : list ObjectId) : result Bytes :=
  Writer.run
    (Writer.u8 op_release ;;; Writer.u8 (class_code type) ;;; Writer.u32 (wrap32 (Z.of_nat (length clock))) ;;;
     Writer.each write_clock_entry clock ;;; Writer.u32 (wrap32 (Z.of_nat (length ids))) ;;; Writer.each write_id ids).
Definition prune_frame (type : RetentionClass) (ids : list ObjectId) : result Bytes :=
  Writer.run
    (Writer.u8 op_prune ;;; Writer.u8 (class_code type) ;;; Writer.u32 (wrap32 (Z.of_nat (length ids))) ;;;
     Writer.each write_id ids).

(** What a frame says. *)
Inductive Frame : Type :=
  | AddFrame (type : RetentionClass) (dot : RetentionDot) (ids : list ObjectId)
  | ReleaseFrame (type : RetentionClass) (observed : RetentionClock) (ids : list ObjectId)
  | PruneFrame (type : RetentionClass) (ids : list ObjectId).

Definition read_ids (what : exn) : Reader.prog (list ObjectId) :=
  count ← Reader.u32;
  if 1000000 <? count then Reader.throw what
  else ids ← Reader.times (Z.to_nat count) (Reader.fixed 32); _ ← Reader.finish; mret ids.

Definition decode_frame (plaintext : Bytes) : result Frame :=
  Reader.run
    (op ← Reader.u8;
     raw_class ← Reader.u8;
     if negb (valid_class raw_class) then Reader.throw (DecodeError "bad retention object class")
     else
       let type := class_of_code raw_class in
       if op =? op_add then
         origin ← Reader.fixed 16; sequence ← Reader.u64;
         ids ← read_ids (DecodeError "too many retention add objects");
         mret (AddFrame type (mkDot origin sequence) ids)
       else if op =? op_release then
         clocks ← Reader.u32;
         if 1000000 <? clocks then Reader.throw (DecodeError "too many retention release clocks")
         else
           observed ← read_entries (DecodeError "bad retention release clock") (Z.to_nat clocks) [];
           ids ← read_ids (DecodeError "too many retention release objects");
           mret (ReleaseFrame type observed ids)
       else if op =? op_prune then
         ids ← read_ids (DecodeError "too many retention prune objects");
         mret (PruneFrame type ids)
       else Reader.throw (DecodeError "unknown retention journal operation")) plaintext.

Definition apply_frame (f : Frame) : ST t unit :=
  match f with
  | AddFrame type dot ids => apply_add_locked type dot ids
  | ReleaseFrame type observed ids => _ ← apply_release_locked type observed ids; mret tt
  | PruneFrame type ids => _ ← apply_prune_locked type ids; mret tt
  end.

Definition replay_frame (plaintext : Bytes) : ST t unit :=
  f ← st_lift (decode_frame plaintext); apply_frame f.

Definition load_journal_locked : ST t unit := fun s =>
  let '(_, s', j) := SealedJournal.replay replay_frame max_legacy_frame s (rs_journal s) in
  (Ok tt, set_journal j s').

(** *** Opening *)

Definition record_of (e : ObjectId * ObjectState) : result (list Rec) :=
  if state_empty e.2 then Ok [] else bytes ← encode_state e.2; Ok [(e.1, bytes)].
Definition records_of (state : StateMap) : result (list Rec) :=
  foldM (fun out e => r ← record_of e; Ok (out ++ r)) [] state.

Definition migrate_locked : ST t unit :=
  s ← st_get;
  states ← st_lift (load_checkpoint_files (rs_key s) (rs_legacy s));
  data ← st_lift (records_of states.1);
  _ ← on_trie Data (ObjectTrie.replace_all data);
  control ← st_lift (records_of states.2);
  _ ← on_trie Control (ObjectTrie.replace_all control);
  st_modify (fun s => set_files true (rs_legacy s) s).

(** What [state/retention] holds. *)
Record Disk : Type := mkDisk {
  rd_data : ObjectTrie.Disk;
  rd_control : ObjectTrie.Disk;
  rd_journal : option Bytes;
  rd_marker : bool;
  rd_legacy : Legacy
}.

Definition options_with (cache_bytes : Z) : ObjectTrie.Options :=
  ObjectTrie.mkOptions cache_bytes (1 * 1024 * 1024) (16 * 1024 * 1024).

(** The constructor and [load]. *)
Definition open (disk : Disk) (key : array 32) (cache_bytes : Z) : result t :=
  data ← ObjectTrie.open (rd_data disk) key (options_with (cache_bytes - cache_bytes / 4));
  control ← ObjectTrie.open (rd_control disk) key (options_with (cache_bytes / 4));
  let s := mk (mkLedger data None None) (mkLedger control None None) 0
    (SealedJournal.open (rd_journal disk) key journal_aad max_journal_frame) key (rd_marker disk) (rd_legacy disk) in
  match (_ ← (if rd_marker disk then mret tt else migrate_locked);
         _ ← load_journal_locked; checkpoint_if_due_locked) s with
  | (Ok _, s') => Ok s'
  | (Throw e, _) => Throw e
  end.

(** *** Operations *)

Definition retain_frame (type : RetentionClass) (dot : RetentionDot) (ids : list ObjectId) : ST t unit :=
  frame ← st_lift (add_frame type dot ids);
  _ ← on_journal (SealedJournal.append frame);
  _ ← apply_add_locked type dot ids;
  checkpoint_if_due_locked.

Definition retain_batch (type : RetentionClass) (input : list ObjectId) (dot : RetentionDot) : ST t unit :=
  match input with
  | [] => mret tt
  | _ =>
      if invalid_dot dot then st_throw (RuntimeError "invalid retention mutation dot")
      else
        let ids := sort_unique input in
        foldM (fun _ part => retain_frame type dot part) tt
          (ObjectTrie.chunks retain_ids_per_frame (length ids) ids)
  end.
Definition retain (type : RetentionClass) (id : ObjectId) (dot : RetentionDot) : ST t unit :=
  retain_batch type [id] dot.

Definition retained (type : RetentionClass) (id : ObjectId) : ST t bool :=
  record ← on_trie type (ObjectTrie.get id);
  mret (match record with Some bytes => claimed bytes | None => false end).

Definition claims (type : RetentionClass) (id : ObjectId) : ST t ObjectState :=
  record ← on_trie type (ObjectTrie.get id);
  st_lift (decode_record record).

(** A page at a time, each after the last one's last; a full page has one. *)
Fixpoint retained_ids_loop (fuel : nat) (after : option ObjectId) (ids : list ObjectId) : ST ObjectTrie.t (list ObjectId) :=
  match fuel with
  | O => mret ids
  | S fuel' =>
      page ← ObjectTrie.next after scan_page;
      let ids := ids ++ (base.filter (fun r : Rec => claimed r.2 = true) page).*1 in
      if (length page <? scan_page)%nat then mret ids else retained_ids_loop fuel' (last page.*1) ids
  end.
Definition retained_ids (type : RetentionClass) : ST t (list ObjectId) :=
  on_trie type (s ← st_get; retained_ids_loop (S (Z.to_nat (ObjectTrie.size s))) None []).
Definition claim_objects (type : RetentionClass) : ST t Z :=
  ids ← retained_ids type; mret (Z.of_nat (length ids)).

(** The next claimed id, the cursor left at it; none and no cursor when the
    walk is complete. *)
Fixpoint next_claimed (page : list Rec) (cursor : option ObjectId) : option ObjectId * option ObjectId :=
  match page with
  | [] => (None, cursor)
  | (id, record) :: rest => if claimed record then (Some id, Some id) else next_claimed rest (Some id)
  end.
Fixpoint next_retained_loop (fuel : nat) (cursor : option ObjectId)
    : ST ObjectTrie.t (option ObjectId * option ObjectId * bool) :=
  match fuel with
  | O => mret (None, cursor, true)
  | S fuel' =>
      page ← ObjectTrie.next cursor scan_page;
      match next_claimed page cursor with
      | (Some id, cursor') => mret (Some id, cursor', false)
      | (None, cursor') =>
          if (length page <? scan_page)%nat then mret (None, None, true) else next_retained_loop fuel' cursor'
      end
  end.
Definition next_retained (type : RetentionClass) (cursor : option ObjectId)
    : ST t (option ObjectId * option ObjectId * bool) :=
  on_trie type (s ← st_get; next_retained_loop (S (Z.to_nat (ObjectTrie.size s))) cursor).

(** Claims whose object is not live, up to a budget. *)
Definition release_visit (live : ObjectId -> bool) (budget : nat) (candidates : list ObjectId) (id : ObjectId)
    (record : Bytes) : list ObjectId * bool :=
  let candidates := if claimed record && negb (live id) then candidates ++ [id] else candidates in
  (candidates, (length candidates <? budget)%nat).

Definition encoded_clock (observed : RetentionClock) : RetentionClock :=
  base.filter (fun e => e.1 <> array_zero 16 /\ e.2 <> 0) observed.

(** [size_t] arithmetic. *)
Definition release_limit (operation_budget : nat) : nat :=
  Z.to_nat (Z.max (wrap64 (Z.of_nat operation_budget * 128)) 8192).

Definition release_unreferenced (type : RetentionClass) (live : ObjectId -> bool) (observed : RetentionClock)
    (operation_budget : nat) : ST t Z :=
  if (operation_budget =? 0)%nat || (length observed =? 0)%nat then mret 0
  else
    let clock := encoded_clock observed in
    if (length clock =? 0)%nat then mret 0
    else
      cl ← st_gets (class_for type);
      if ObjectTrie.size (cl_trie cl) =? 0 then _ ← st_modify (set_release_after type None); mret 0
      else
        w ← on_trie type (scan_locked (release_visit live operation_budget) (release_after cl)
              (release_limit operation_budget) []);
        _ ← st_modify (set_release_after type w.2);
        match w.1 with
        | [] => mret 0
        | candidates =>
            frame ← st_lift (release_frame type clock candidates);
            _ ← on_journal (SealedJournal.append frame);
            released ← apply_release_locked type clock candidates;
            _ ← checkpoint_if_due_locked;
            mret released
        end.

Definition compact_if_needed (record_threshold : Z) : ST t bool :=
  s ← st_get;
  if (SealedJournal.frames (rs_journal s) <? record_threshold) &&
     (SealedJournal.bytes (rs_journal s) <? journal_compact_bytes)
  then mret false
  else _ ← checkpoint_locked; mret true.

Definition prune_visit (unclaimed : list ObjectId) (id : ObjectId) (record : Bytes) : list ObjectId * bool :=
  (if claimed record then unclaimed else unclaimed ++ [id], true).

(** The first step of [prune_unclaimed], under the lock: the unclaimed. *)
Definition prune_pick (type : RetentionClass) (operation_budget : nat) : ST t (list ObjectId) :=
  cl ← st_gets (class_for type);
  if ObjectTrie.size (cl_trie cl) =? 0 then _ ← st_modify (set_prune_after type None); mret []
  else
    w ← on_trie type (scan_locked prune_visit (prune_after cl) operation_budget []);
    _ ← st_modify (set_prune_after type w.2);
    mret w.1.

(** The last, under the lock again: those still unclaimed are erased. *)
Definition prune_erase (type : RetentionClass) (unclaimed : list ObjectId) : ST t Z :=
  frame ← st_lift (prune_frame type unclaimed);
  _ ← on_journal (SealedJournal.append frame);
  removed ← apply_prune_locked type unclaimed;
  s ← st_get;
  _ ← (if ObjectTrie.size (cl_trie (class_for type s)) =? 0 then st_modify (set_prune_after type None) else mret tt);
  _ ← checkpoint_if_due_locked;
  mret removed.

(** [exists_], when given, is asked between them without the lock. *)
Definition prune_unclaimed (type : RetentionClass) (exists_ : option (ObjectId -> bool)) (operation_budget : nat)
    : ST t Z :=
  match exists_ with
  | None => mret 0
  | Some present =>
      if (operation_budget =? 0)%nat then mret 0
      else
        picked ← prune_pick type operation_budget;
        match base.filter (fun id => present id = false) picked with
        | [] => mret 0
        | unclaimed => prune_erase type unclaimed
        end
  end.

End store.
End Retention.
