(* ===== verification/RetentionSet.v ===== *)
(** * Claims as an observed-remove set

    The state a node keeps of an object ([RetentionStore]'s [ObjectState]):
    adding claims and releasing observed ones keeps it in order, commutes and
    is idempotent, and its record reads back. *)

From S2P Require Import Prelude Sorts Maps Codec Journal Trie ObjectTrie TrieDisk TrieWire Retention.
Import Retention.

(** ** The state of an object *)

(** A clock as kept: in order, with neither zero origins nor zero sequences. *)
Record clock_ok (c : RetentionClock) : Prop := {
  ck_sorted : sorted_recs c;
  ck_entries : Forall (fun e : NodeId * Z => e.1 <> array_zero 16 /\ 0 < e.2 < 2 ^ 64) c
}.

(** No claim the state keeps is one it knows removed. *)
Record state_ok (s : ObjectState) : Prop := {
  so_adds : clock_ok (adds s);
  so_removed : clock_ok (removed s);
  so_undominated : forall o a r, alookup o (adds s) = Some a -> alookup o (removed s) = Some r -> r < a
}.

Lemma clock_ok_nil : clock_ok [].
Proof. split; [by apply SSorted_nil | by apply Forall_nil]. Qed.
Lemma no_state_ok : state_ok no_state.
Proof. split; [apply clock_ok_nil | apply clock_ok_nil | done]. Qed.

Definition dot_ok (dot : RetentionDot) : Prop := dot_origin dot <> array_zero 16 /\ 0 < dot_sequence dot < 2 ^ 64.

(** What a clock says of an origin: zero when nothing. *)
Definition seen (c : RetentionClock) (o : NodeId) : Z := default 0 (alookup o c).

Lemma clock_ok_set c o n : clock_ok c -> o <> array_zero 16 -> 0 < n < 2 ^ 64 -> clock_ok (map_set o n c).
Proof.
  intros [H1 H2] Ho Hn. split; [by apply map_set_sorted|]. apply Forall_forall.
  intros e [->|He]%map_set_keys; [done|]. rewrite Forall_forall in H2. by apply H2.
Qed.

Lemma clock_ok_erase c o : clock_ok c -> clock_ok (map_erase o c).
Proof.
  intros [H1 H2]. split; [by apply map_erase_sorted|]. apply Forall_forall. intros e [_ He]%map_erase_elem.
  rewrite Forall_forall in H2. by apply H2.
Qed.

Lemma clock_lookup c o n : clock_ok c -> alookup o c = Some n -> o <> array_zero 16 /\ 0 < n < 2 ^ 64.
Proof. intros [_ H2] H%alookup_Some_elem. rewrite Forall_forall in H2. exact (H2 _ H). Qed.

Lemma seen_range c o : clock_ok c -> 0 <= seen c o < 2 ^ 64.
Proof.
  intros Hc. unfold seen. destruct (alookup o c) eqn:E; simpl; [|lia].
  destruct (clock_lookup c o _ Hc E). lia.
Qed.

Lemma seen_set c o n o' : seen (map_set o n c) o' = if decide (o' = o) then n else seen c o'.
Proof. unfold seen. rewrite map_set_lookup. by destruct (decide _). Qed.
Lemma seen_erase c o o' : seen (map_erase o c) o' = if decide (o' = o) then 0 else seen c o'.
Proof. unfold seen. rewrite map_erase_lookup. by destruct (decide _). Qed.

(** Clocks that say the same are the same. *)
Lemma clock_ext c c' : clock_ok c -> clock_ok c' -> (forall o, seen c o = seen c' o) -> c = c'.
Proof.
  intros H H' E. apply sorted_recs_ext; [apply H | apply H' |]. intros o. specialize (E o). unfold seen in E.
  destruct (alookup o c) as [n|] eqn:E1, (alookup o c') as [n'|] eqn:E2; simpl in E; try congruence.
  - destruct (clock_lookup c o n H E1). lia.
  - destruct (clock_lookup c' o n' H' E2). lia.
Qed.

Lemma undominated_seen s o : state_ok s -> seen (adds s) o = 0 \/ seen (removed s) o < seen (adds s) o.
Proof.
  intros [Ha Hr Hu]. unfold seen. destruct (alookup o (adds s)) as [a|] eqn:E1; [|by left]. right.
  destruct (alookup o (removed s)) as [r|] eqn:E2; simpl; [by apply (Hu o)|]. destruct (clock_lookup _ _ _ Ha E1). lia.
Qed.

Lemma state_ok_seen s :
  clock_ok (adds s) -> clock_ok (removed s) ->
  (forall o, seen (adds s) o = 0 \/ seen (removed s) o < seen (adds s) o) -> state_ok s.
Proof.
  intros Ha Hr H. split; [done..|]. intros o a r E1 E2. specialize (H o). unfold seen in H. rewrite E1, E2 in H.
  simpl in H. destruct (clock_lookup _ _ _ Ha E1). lia.
Qed.

(** ** Operations *)

Inductive Op : Type := OpAdd (dot : RetentionDot) | OpRelease (observed : RetentionClock).
Definition op_ok (op : Op) : Prop :=
  match op with OpAdd dot => dot_ok dot | OpRelease observed => clock_ok observed end.
Definition op_apply (s : ObjectState) (op : Op) : ObjectState :=
  match op with
  | OpAdd dot => default s (add_claim dot s)
  | OpRelease observed => (release_claims observed s).1
  end.

(** What an operation says of an origin. *)
Definition op_adds (op : Op) (o : NodeId) : Z :=
  match op with OpAdd dot => if decide (o = dot_origin dot) then dot_sequence dot else 0 | OpRelease _ => 0 end.
Definition op_removes (op : Op) (o : NodeId) : Z :=
  match op with OpAdd _ => 0 | OpRelease observed => seen observed o end.

(** A claim stands when it is newer than every removal seen. *)
Definition standing (a r : Z) : Z := if r <? a then a else 0.

(** The state says this of each origin. *)
Definition says (s : ObjectState) (a r : NodeId -> Z) : Prop :=
  state_ok s /\ forall o, seen (adds s) o = standing (a o) (r o) /\ seen (removed s) o = r o.

Lemma says_self s : state_ok s -> says s (seen (adds s)) (seen (removed s)).
Proof.
  intros Hs. split; [done|]. intros o. split; [|done]. pose proof (undominated_seen s o Hs). unfold standing.
  destruct (Z.ltb_spec (seen (removed s) o) (seen (adds s) o)); lia.
Qed.

Lemma says_inj s s' a r : says s a r -> says s' a r -> s = s'.
Proof.
  intros [H1 H2] [H1' H2']. destruct s as [ad rm], s' as [ad' rm']. simpl in *. f_equal.
  - apply clock_ext; [apply H1 | apply H1' |]. intros o. rewrite (proj1 (H2 o)), (proj1 (H2' o)). done.
  - apply clock_ext; [apply H1 | apply H1' |]. intros o. rewrite (proj2 (H2 o)), (proj2 (H2' o)). done.
Qed.

Lemma add_claim_spec dot s :
  0 < dot_sequence dot ->
  add_claim dot s =
  if (dot_sequence dot <=? seen (removed s) (dot_origin dot)) || (dot_sequence dot <=? seen (adds s) (dot_origin dot))
  then None
  else Some (mkState (map_set (dot_origin dot) (dot_sequence dot) (adds s)) (removed s)).
Proof.
  intros Hn. unfold add_claim, seen. destruct (alookup (dot_origin dot) (removed s)) as [r|].
  - simpl. destruct (dot_sequence dot <=? r); reflexivity.
  - simpl. rewrite (proj2 (Z.leb_gt (dot_sequence dot) 0)) by lia. reflexivity.
Qed.

(** Neither a zero sequence nor an origin not spoken of changes what stands. *)
Lemma standing_max0 a r : 0 <= r -> standing (Z.max a 0) r = standing a r.
Proof. intros. unfold standing. destruct (Z.ltb_spec r a), (Z.ltb_spec r (Z.max a 0)); lia. Qed.

Lemma standing_add a r n : 0 < n ->
  standing (Z.max a n) r = if (n <=? r) || (n <=? standing a r) then standing a r else n.
Proof.
  intros. unfold standing. destruct (Z.ltb_spec r a), (Z.ltb_spec r (Z.max a n)), (Z.leb_spec n r); cbn [orb]; try lia;
    destruct (Z.leb_spec n a); try lia; destruct (Z.leb_spec n 0); lia.
Qed.

Lemma standing_release a r n :
  0 <= r -> standing a (Z.max r n) = if standing a r <=? n then 0 else standing a r.
Proof.
  intros. unfold standing. destruct (Z.ltb_spec r a), (Z.ltb_spec (Z.max r n) a); try lia;
    match goal with |- context [?x <=? n] => destruct (Z.leb_spec x n) end; lia.
Qed.

Lemma says_intro s a r :
  clock_ok (adds s) -> clock_ok (removed s) ->
  (forall o, seen (adds s) o = standing (a o) (r o) /\ seen (removed s) o = r o) -> says s a r.
Proof.
  intros Ha Hr H. split; [|done]. apply state_ok_seen; [done..|]. intros o. destruct (H o) as [-> ->].
  unfold standing. destruct (Z.ltb_spec (r o) (a o)); auto.
Qed.

Lemma add_says dot s a r :
  dot_ok dot -> says s a r -> says (op_apply s (OpAdd dot)) (fun o => Z.max (a o) (op_adds (OpAdd dot) o)) r.
Proof.
  intros [Ho Hn] [Hs Hv]. cbn [op_apply]. rewrite add_claim_spec by lia.
  destruct (Hv (dot_origin dot)) as [Ha Hr].
  assert (forall o, 0 <= r o) as Hr0 by (intros o; rewrite <- (proj2 (Hv o)); apply seen_range, Hs).
  assert (forall o, o <> dot_origin dot -> seen (adds s) o = standing (Z.max (a o) (op_adds (OpAdd dot) o)) (r o)) as Hother.
  { intros o Hne. cbn [op_adds]. rewrite decide_False, standing_max0 by done. apply Hv. }
  pose proof (standing_add (a (dot_origin dot)) (r (dot_origin dot)) (dot_sequence dot) ltac:(lia)) as Hst.
  rewrite <- Ha, <- Hr in Hst. destruct (_ || _) eqn:E; cbn [from_option id].
  - apply says_intro; [apply Hs..|]. intros o. split; [|apply Hv].
    destruct (decide (o = dot_origin dot)) as [->|Hne]; [|by apply Hother]. cbn [op_adds]. rewrite decide_True by done.
    by rewrite <- Hr, Hst.
  - apply says_intro; cbn [adds removed]; [by apply clock_ok_set; [apply Hs|..] | apply Hs|].
    intros o. split; [|apply Hv]. rewrite seen_set.
    destruct (decide (o = dot_origin dot)) as [->|Hne]; [|by apply Hother]. cbn [op_adds]. rewrite decide_True by done.
    by rewrite <- Hr, Hst.
Qed.

Lemma release_entry_says s changed o n a r :
  o <> array_zero 16 -> 0 < n < 2 ^ 64 -> says s a r ->
  says (release_entry (s, changed) (o, n)).1 a (fun o' => if decide (o' = o) then Z.max (r o) n else r o').
Proof.
  intros Ho Hn [Hs Hv]. unfold release_entry. rewrite (proj2 (Z.eqb_neq n 0)) by lia.
  fold (seen (removed s) o). destruct (Hv o) as [Ha Hr].
  assert (0 <= r o) as Hr0 by (rewrite <- Hr; apply seen_range, Hs).
  pose proof (standing_release (a o) (r o) n Hr0) as Hst.
  set (rem := map_set o (Z.max (r o) n) (removed s)).
  assert (clock_ok rem) as Hrem.
  { pose proof (seen_range (removed s) o (so_removed _ Hs)). apply clock_ok_set; [apply Hs | done | lia]. }
  assert ((if seen (removed s) o <? n then (map_set o n (removed s), true)
           else (map_set o (seen (removed s) o) (removed s), changed)) =
          (rem, if seen (removed s) o <? n then true else changed)) as ->.
  { unfold rem. rewrite Hr. destruct (Z.ltb_spec (r o) n); [rewrite Z.max_r by lia | rewrite Z.max_l by lia]; done. }
  assert (forall o', seen rem o' = if decide (o' = o) then Z.max (r o) n else r o') as Hseen.
  { intros o'. unfold rem. rewrite seen_set. destruct (decide _); [done | apply Hv]. }
  assert (forall ad c, clock_ok ad ->
    (forall o', seen ad o' = standing (a o') (if decide (o' = o) then Z.max (r o) n else r o')) ->
    says (mkState ad rem, c : bool).1 a (fun o' => if decide (o' = o) then Z.max (r o) n else r o')) as Hdone.
  { intros ad c Had H. by apply says_intro. }
  destruct (alookup o (adds s)) as [x|] eqn:E.
  - assert (seen (adds s) o = x) as Ex by (unfold seen; by rewrite E). rewrite <- Ha, Ex in Hst.
    destruct (x <=? n); apply Hdone; [by apply clock_ok_erase, Hs| |apply Hs|]; intros o'.
    + rewrite seen_erase. destruct (decide (o' = o)) as [->|]; [by rewrite Hst | apply Hv].
    + destruct (decide (o' = o)) as [->|]; [by rewrite Hst | apply Hv].
  - assert (seen (adds s) o = 0) as Ex by (unfold seen; by rewrite E). rewrite <- Ha, Ex in Hst.
    apply Hdone; [apply Hs|]. intros o'. destruct (decide (o' = o)) as [->|]; [|apply Hv].
    rewrite Hst, Ex. by destruct (_ <=? _).
Qed.

Lemma release_says observed s a r :
  clock_ok observed -> says s a r ->
  says (op_apply s (OpRelease observed)) a (fun o => Z.max (r o) (seen observed o)).
Proof.
  intros Hc Hsay. cbn [op_apply]. unfold release_claims.
  enough (forall done_ rest changed s', observed = done_ ++ rest ->
    says s' a (fun o => Z.max (r o) (seen done_ o)) ->
    says (foldl release_entry (s', changed) rest).1 a (fun o => Z.max (r o) (seen observed o))) as Hgen.
  { apply (Hgen []); [done|]. destruct Hsay as [Hs Hv]. split; [done|]. intros o.
    change (seen [] o) with 0. rewrite Z.max_l; [apply Hv|]. rewrite <- (proj2 (Hv o)). apply seen_range, Hs. }
  intros done_ rest. revert done_. induction rest as [|[o n] rest IH]; intros done_ changed s' E Hs'.
  { by rewrite E, app_nil_r. }
  cbn [foldl]. destruct (release_entry (s', changed) (o, n)) as [s1 c1] eqn:E1.
  apply (IH (done_ ++ [(o, n)])); [by rewrite <- app_assoc|].
  pose proof Hc as [Hsort He]. rewrite E in Hsort, He. apply Forall_app in He as [_ He].
  apply Forall_cons in He as [[Ho Hn] _]. cbn [fst snd] in Ho, Hn.
  pose proof (release_entry_says s' changed o n _ _ Ho Hn Hs') as H. rewrite E1 in H.
  assert (alookup o done_ = None) as En.
  { apply alookup_None. apply sorted_recs_app in Hsort as (Hlt & _ & _). intros (e & -> & Hin)%list_elem_of_fmap.
    apply (key_lt_irrefl e.1). apply (Hlt e (e.1, n)); [done | by left]. }
  destruct H as [H1 H2]. split; [done|]. intros o'. specialize (H2 o').
  assert (seen (done_ ++ [(o, n)]) o' = if decide (o' = o) then n else seen done_ o') as ->.
  { unfold seen. rewrite alookup_app, alookup_cons. destruct (decide (o' = o)) as [->|]; [by rewrite En|].
    by destruct (alookup o' done_). }
  destruct (decide (o' = o)) as [->|]; [|done].
  assert (seen done_ o = 0) as E0 by (unfold seen; by rewrite En). cbn beta in H2.
  assert (0 <= r o). { destruct Hsay as [Hs Hv]. rewrite <- (proj2 (Hv o)). apply seen_range, Hs. }
  rewrite E0, (Z.max_l (r o) 0) in H2 by done. done.
Qed.

(** A release that reports no change makes none. *)
Lemma release_unchanged observed s s' :
  clock_ok observed -> state_ok s -> release_claims observed s = (s', false) -> s' = s.
Proof.
  intros [_ Hobs] Hs. unfold release_claims.
  assert (forall l s, (foldl release_entry (s, true) l).2 = true) as Htrue.
  { induction l as [|[o n] l IH]; intros s0; [done|]. cbn [foldl]. unfold release_entry at 2.
    destruct (n =? 0); [done|]. destruct (_ <? n); (destruct (alookup o (adds s0)) as [a|]; [destruct (a <=? n)|]); apply IH. }
  induction Hobs as [|[o n] observed [Ho Hn] Hobs IH]; [by intros [= <-]|]. cbn [foldl fst snd] in *.
  unfold release_entry at 2. rewrite (proj2 (Z.eqb_neq n 0)) by lia.
  assert (forall x, foldl release_entry (x, true) observed <> (s', false)) as Hno.
  { intros x E. specialize (Htrue observed x). by rewrite E in Htrue. }
  destruct (Z.ltb_spec (default 0 (alookup o (removed s))) n) as [Hlt|Hge].
  { destruct (alookup o (adds s)) as [a|]; [destruct (a <=? n)|]; intros E; by apply Hno in E. }
  destruct (alookup o (removed s)) as [r|] eqn:Er; cbn [from_option id] in *; [|lia].
  rewrite (map_set_same o r (removed s)) by (done || apply Hs). destruct s as [ad rm]. cbn [adds removed] in *.
  destruct (alookup o ad) as [a|]; [destruct (a <=? n)|]; intros E; [by apply Hno in E | by apply IH | by apply IH].
Qed.

(** ** Order does not matter *)

Lemma says_ext s a r a' r' : says s a r -> (forall o, a o = a' o) -> (forall o, r o = r' o) -> says s a' r'.
Proof. intros [Hs Hv] Ha Hr. split; [done|]. intros o. by rewrite <- Ha, <- Hr. Qed.

Lemma op_says op s a r :
  op_ok op -> says s a r ->
  says (op_apply s op) (fun o => Z.max (a o) (op_adds op o)) (fun o => Z.max (r o) (op_removes op o)).
Proof.
  intros Hop Hs.
  assert (forall o, 0 <= r o) as Hr0.
  { intros o. destruct Hs as [Hs Hv]. rewrite <- (proj2 (Hv o)). apply seen_range, Hs. }
  destruct op as [dot|observed].
  - eapply says_ext; [by apply add_says | done |]. intros o. simpl. specialize (Hr0 o). lia.
  - pose proof (release_says observed s a r Hop Hs) as [Hs' Hv]. split; [done|]. intros o. cbn [op_adds op_removes].
    destruct (Hv o) as [H1 H2]. split; [|done]. rewrite H1. symmetry. apply standing_max0. specialize (Hr0 o). lia.
Qed.

(** The greatest add and the greatest removal of an origin. *)
Definition greatest (f : Op -> Z) (ops : list Op) : Z := foldr Z.max 0 (f <$> ops).

Lemma greatest_cons f op ops : greatest f (op :: ops) = Z.max (f op) (greatest f ops).
Proof. done. Qed.
Lemma greatest_nonneg f ops : 0 <= greatest f ops.
Proof. induction ops as [|op ops IH]; [done|]. rewrite greatest_cons. lia. Qed.
Lemma greatest_perm f ops ops' : ops ≡ₚ ops' -> greatest f ops = greatest f ops'.
Proof. induction 1; rewrite ?greatest_cons; lia. Qed.

Lemma ops_says ops s a r :
  Forall op_ok ops -> (forall o, 0 <= a o) -> says s a r ->
  says (foldl op_apply s ops) (fun o => Z.max (a o) (greatest (fun op => op_adds op o) ops))
    (fun o => Z.max (r o) (greatest (fun op => op_removes op o) ops)).
Proof.
  intros Hok. revert s a r. induction Hok as [|op ops Hop Hok IH]; intros s a r Ha Hs; cbn [foldl].
  - eapply says_ext; [exact Hs | |]; intros o; cbn.
    + specialize (Ha o). lia.
    + destruct Hs as [Hs Hv]. rewrite <- (proj2 (Hv o)). pose proof (seen_range _ o (so_removed _ Hs)). lia.
  - eapply says_ext; [apply IH; [|by apply op_says]| |].
    + intros o. cbn beta. specialize (Ha o). lia.
    + intros o. cbn beta. rewrite greatest_cons. lia.
    + intros o. cbn beta. rewrite greatest_cons. lia.
Qed.

(** C32. An object's claims converge: the claims and releases that reach a
    node leave the same state whatever order they come in, again if they all
    come again, and a node's claim stands exactly when the newest that came is
    newer than every release that came. *)
Theorem claims_converge (s : ObjectState) (ops ops' : list Op) :
  state_ok s -> Forall op_ok ops -> ops ≡ₚ ops' ->
  let final := foldl op_apply s ops in
  state_ok final /\ foldl op_apply s ops' = final /\ foldl op_apply final ops' = final /\
  forall o, seen (adds final) o =
    standing (Z.max (seen (adds s) o) (greatest (fun op => op_adds op o) ops))
             (Z.max (seen (removed s) o) (greatest (fun op => op_removes op o) ops)).
Proof.
  intros Hs Hok Hp final. pose proof (says_self s Hs) as Hsay.
  assert (forall o, 0 <= seen (adds s) o) as Ha by (intros o; apply seen_range, Hs).
  pose proof (ops_says ops s _ _ Hok Ha Hsay) as Hf. fold final in Hf.
  assert (Forall op_ok ops') as Hok' by (by rewrite <- Hp).
  split; [apply Hf|]. split; [|split].
  - eapply says_inj; [|exact Hf]. eapply says_ext; [by apply ops_says| |]; intros o; cbn beta.
    + by rewrite (greatest_perm _ _ _ Hp).
    + by rewrite (greatest_perm _ _ _ Hp).
  - eapply says_inj; [|exact Hf].
    eapply says_ext; [apply (ops_says ops'); [done| |exact Hf]| |]; intros o; cbn beta.
    + specialize (Ha o). lia.
    + rewrite (greatest_perm _ _ _ Hp). lia.
    + rewrite (greatest_perm _ _ _ Hp). lia.
  - intros o. apply Hf.
Qed.

(** ** Records *)

Definition entry_bytes (e : NodeId * Z) : Bytes := abytes e.1 ++ be_bytes 8 e.2.
Definition side_bytes (c : RetentionClock) : Bytes := be_bytes 2 (Z.of_nat (length c)) ++ flat_map entry_bytes c.
Definition state_bytes (s : ObjectState) : Bytes := side_bytes (adds s) ++ side_bytes (removed s).

(** A state a record can hold. *)
Record state_fits (s : ObjectState) : Prop := {
  sf_ok : state_ok s;
  sf_size : Z.of_nat (length (state_bytes s)) <= value_max
}.

Lemma length_side_bytes c : length (side_bytes c) = (2 + 24 * length c)%nat.
Proof.
  unfold side_bytes. rewrite length_app, length_be_bytes. f_equal.
  induction c as [|e c IH]; [done|]. cbn [flat_map length]. rewrite length_app, IH. unfold entry_bytes.
  rewrite length_app, array_length, length_be_bytes. lia.
Qed.

Lemma state_fits_counts s :
  state_fits s -> Z.of_nat (length (adds s)) < 2 ^ 16 /\ Z.of_nat (length (removed s)) < 2 ^ 16.
Proof.
  intros [_ Hl]. unfold state_bytes in Hl. rewrite length_app, !length_side_bytes in Hl. unfold value_max in Hl. lia.
Qed.

Lemma writes_entry e : writes (write_clock_entry e) (entry_bytes e).
Proof. unfold write_clock_entry, entry_bytes. solve_writes. Qed.

Lemma writes_side c : Z.of_nat (length c) < 2 ^ 16 -> writes (write_side c) (side_bytes c).
Proof.
  intros Hl w. unfold write_side. rewrite (proj2 (Z.ltb_ge _ _)) by (unfold u16_max; lia).
  unfold wrap16. rewrite Z.mod_small by lia. apply writes_seq; [apply writes_u16|].
  apply writes_each, Forall_true. apply writes_entry.
Qed.

Lemma encode_state_ok s : state_fits s -> encode_state s = Ok (state_bytes s).
Proof. intros [Ha Hr]%state_fits_counts. apply writes_run, writes_seq; by apply writes_side. Qed.

Lemma reads_entries bad c side :
  clock_ok (side ++ c) -> reads (read_entries bad (length c) side) (flat_map entry_bytes c) (side ++ c).
Proof.
  revert side. induction c as [|[o n] c IH]; intros side Hc; cbn [length read_entries flat_map].
  { rewrite app_nil_r. apply reads_ret. }
  pose proof Hc as [Hs He]. apply Forall_app in He as [_ He]. apply Forall_cons in He as [[Ho Hn] _]. simpl in Ho, Hn.
  unfold entry_bytes at 1. cbn [fst snd]. rewrite <- app_assoc.
  eapply reads_bind; [apply reads_fixed|]. eapply reads_bind; [apply reads_u64; lia|].
  rewrite bool_decide_false by done. rewrite (proj2 (Z.eqb_neq n 0)) by lia. cbn [orb].
  apply sorted_recs_app in Hs as (Hlt & Hs1 & Hs2).
  assert (Forall (fun r : NodeId * Z => key_lt r.1 o) side) as Hf.
  { apply Forall_forall. intros r Hr. apply (Hlt r (o, n)); [done | by left]. }
  unfold map_emplace. rewrite (proj2 (alookup_None o side)).
  2:{ intros (r & E & Hr)%list_elem_of_fmap. rewrite Forall_forall in Hf. specialize (Hf r Hr). rewrite <- E in Hf.
      by apply key_lt_irrefl in Hf. }
  rewrite map_set_end by done. rewrite (app_assoc side [(o, n)] c : side ++ (o, n) :: c = _) in Hc |- *. by apply IH.
Qed.

Lemma decode_state_ok s : state_fits s -> decode_state (state_bytes s) = Ok s.
Proof.
  intros Hs. pose proof (state_fits_counts s Hs) as [Ha Hr]. destruct Hs as [[Hsa Hsr _] _]. apply finishes_run.
  unfold state_bytes, side_bytes. rewrite <- !app_assoc.
  eapply finishes_bind; [apply reads_u16; lia|]. rewrite Nat2Z.id.
  eapply finishes_bind; [apply (reads_entries _ (adds s) []); apply Hsa|].
  eapply finishes_bind; [apply reads_u16; lia|]. rewrite Nat2Z.id.
  rewrite <- (app_nil_r (flat_map entry_bytes (removed s))).
  eapply finishes_bind; [apply (reads_entries _ (removed s) []); apply Hsr|].
  destruct s. apply finishes_finish_ret.
Qed.

(** The leading count tells whether there are claims. *)
Lemma claimed_state s : state_fits s -> claimed (state_bytes s) = negb (bool_decide (adds s = [])).
Proof.
  intros [Ha _]%state_fits_counts. unfold claimed, state_bytes, side_bytes. rewrite <- app_assoc, length_app, length_be_bytes.
  cbn [Nat.leb Nat.add andb]. rewrite !app_nth1 by (rewrite length_be_bytes; lia). rewrite be_bytes_2. cbn [nth].
  rewrite !b2z_z2b, Z.shiftr_div_pow2 by lia. destruct (adds s) as [|e l]; [done|]. cbn [length] in *.
  rewrite bool_decide_false by done. cbn [negb].
  destruct (Z.eqb_spec (Z.of_nat (S (length l)) / 2 ^ 8 mod 256) 0) as [E|E]; [|done].
  rewrite (proj2 (Z.eqb_neq _ _)); [done|]. intros E2. change (2 ^ 8) with 256 in E.
  Z.to_euclidean_division_equations. lia.
Qed.
