(* ===== verification/RetentionStore.v ===== *)
(** * The retention store over its tries

    What each frame of the log does to the records of a class, that the
    store's methods do it, and that opening the store again after a crash
    replays it. *)

From S2P Require Import Prelude Sorts Maps Codec Journal Trie ObjectTrie TrieShape TrieOps TrieChange TrieDisk TrieWire TrieLedger Retention RetentionSet.

(** ** A trie whose changes are journaled elsewhere

    [saved] is what its directory holds, [now] what it holds in memory. *)
Section tries.
Context `{Sha256, AesGcm, !AesGcmSpec, Entropy, Footprint}.
Import ObjectTrie.

Definition unsaved_ok (saved now : list Rec) (s : t) : Prop :=
  exists world, mem_ok world now s /\ dir_ok saved [] s /\ synced (journal s) /\ 0 < checkpoint_bytes (options s).

Lemma empty_journal saved s : dir_ok saved [] s -> SealedJournal.bytes (journal s) = 0.
Proof.
  intros [_ _ (l & Hl & Hp) _ _]. apply Forall2_nil_inv_r in Hp as ->. destruct Hl as [[Hb _ _] Hc _].
  rewrite Hb. by rewrite Hc.
Qed.

Lemma unsaved_same saved now now' world s s' :
  unsaved_ok saved now s -> mem_ok world now' s' -> same_files s s' -> unsaved_ok saved now' s'.
Proof.
  intros (w & _ & Hd & Hs & Hc) Hm Hf. exists world. split; [done|]. split; [by eapply dir_ok_same|].
  destruct Hf as (Ej & _ & _ & _ & _ & Eo & _). by rewrite Ej, Eo.
Qed.

Lemma unsaved_get saved now s id :
  unsaved_ok saved now s ->
  exists s', get id s = (Ok (alookup id now), s') /\ unsaved_ok saved now s' /\ same_files s s'.
Proof.
  intros Hu. pose proof Hu as (w & Hm & _). destruct (get_ok w now s id Hm) as (s' & E & Hm' & Hf).
  exists s'. split; [done|]. split; [by eapply unsaved_same | done].
Qed.

Lemma unsaved_next saved now s after limit :
  unsaved_ok saved now s ->
  exists s', next after limit s = (Ok (take limit (after_bound after now)), s') /\ unsaved_ok saved now s' /\ same_files s s'.
Proof.
  intros Hu. pose proof Hu as (w & Hm & _). destruct (ledger_next_ok w now s after limit Hm) as (s' & E & Hm' & Hf).
  exists s'. split; [done|]. split; [by eapply unsaved_same | done].
Qed.

Lemma same_files_refl (s : t) : same_files s s.
Proof. by unfold same_files. Qed.

Lemma unsaved_install saved now s changes :
  unsaved_ok saved now s -> sorted_changes changes -> wf_recs 32 (merge_changes now changes) ->
  exists s', install changes s = (Ok tt, s') /\ unsaved_ok saved (merge_changes now changes) s' /\ same_files s s'.
Proof.
  intros Hu Hs Hwf. pose proof Hu as (w & Hm & _). unfold install.
  destruct changes as [|c changes]; [exists s; split; [done|]; split; [done | apply same_files_refl]|].
  set (chs := c :: changes) in *.
  destruct (apply_unjournaled_ok w now s chs Hm Hs Hwf) as (s1 & E1 & Hm1 & Hf1).
  pose proof (unsaved_same _ _ _ _ _ _ Hu Hm1 Hf1) as Hu1. exists s1. split; [|done].
  rewrite (st_bind_ok _ _ _ _ _ E1). unfold checkpoint_if_due. rewrite (st_bind_ok _ _ _ s1 s1) by done.
  destruct Hu1 as (_ & _ & Hd & _ & Hc). rewrite (empty_journal _ _ Hd). by rewrite (proj2 (Z.leb_gt _ _)).
Qed.

Lemma unsaved_checkpoint saved now s :
  unsaved_ok saved now s -> capacity now s ->
  exists s', checkpoint s = (Ok tt, s') /\ unsaved_ok now now s' /\ key s' = key s /\
    generation s' <= generation s + 1 /\
    SealedJournal.bytes (nodes s') <= SealedJournal.bytes (nodes s) + 2 * room 32 (length now).
Proof.
  intros (w & Hm & Hd & _ & Hc) Hcap.
  destruct (checkpoint_stages w now saved [] s Hm Hd Hcap (batches_ok_nil now (mo_wf _ _ _ Hm)))
    as (s1 & s2 & w' & s' & _ & _ & _ & _ & _ & E & (Hm' & Hd' & Hs') & _ & Hk & Ho & Hall).
  assert (s' ∈ [s1; s2; reset_journal s2; s']) as Hin by (do 3 right; by left).
  destruct (Hall s' Hin) as (_ & Hg & _ & Hby).
  exists s'. split; [done|]. split; [|done]. exists w'. cbn in Hm'. by rewrite Ho.
Qed.

Lemma unsaved_open saved now s disk opts :
  unsaved_ok saved now s -> crash s disk -> room_for saved [] s -> 0 < checkpoint_bytes opts ->
  exists s', open disk (key s) opts = Ok s' /\ unsaved_ok saved saved s' /\ key s' = key s.
Proof.
  intros (w & Hm & Hd & Hs & Hc) Hcr Hr Ho. destruct (do_frames _ _ _ Hd) as (l & Hl & Hp).
  destruct (open_frames_full w now saved [] l s disk opts Hm Hd Hcr Hr Hl Hp)
    as (n & s' & E & _ & _ & _ & Ek & Eo & Hled). destruct (Hled eq_refl) as (w' & Hm' & Hd' & Hs').
  exists s'. split; [done|]. split; [|done]. exists w'. cbn in Hm'. by rewrite Eo.
Qed.

(** *** Changes worked out record by record *)

(** [upd] gives the new value of a record, or nothing when it stays. *)
Section updates.
Context (upd : option Bytes -> option (option Bytes)).

Definition selected (now : list Rec) (id : ObjectId) : list Change :=
  match upd (alookup id now) with Some v => [mkChange id v] | None => [] end.
Definition changes_for (now : list Rec) (ids : list ObjectId) : list Change := flat_map (selected now) ids.

Lemma changes_for_elem now ids c :
  c ∈ changes_for now ids -> ch_id c ∈ ids /\ upd (alookup (ch_id c) now) = Some (ch_value c).
Proof.
  unfold changes_for. rewrite list_elem_of_In, in_flat_map. intros (id & Hid & Hc). unfold selected in Hc.
  destruct (upd (alookup id now)) as [v|] eqn:E; [|done]. apply list_elem_of_In in Hc.
  apply list_elem_of_singleton in Hc as ->. split; [by apply list_elem_of_In | done].
Qed.

Lemma changes_for_sorted now ids : sorted_keys ids -> sorted_changes (changes_for now ids).
Proof.
  induction 1 as [|id ids Hs IH Hf]; [constructor|]. cbn [changes_for flat_map].
  change (flat_map (selected now) ids) with (changes_for now ids). unfold selected.
  destruct (upd (alookup id now)); [|done]. apply sorted_changes_cons. split; [|done].
  apply Forall_forall. intros c [Hc _]%changes_for_elem. rewrite Forall_forall in Hf. by apply Hf.
Qed.

Lemma changes_for_lookup now ids id :
  NoDup ids ->
  change_of id (changes_for now ids) = if decide (id ∈ ids) then upd (alookup id now) else None.
Proof.
  induction 1 as [|x ids Hx Hn IH]; [done|].
  change (changes_for now (x :: ids)) with (selected now x ++ changes_for now ids).
  rewrite change_of_app, IH. unfold selected. destruct (decide (id = x)) as [->|Hne].
  - rewrite (decide_False (P := x ∈ ids)), (decide_True (P := x ∈ x :: ids)) by (done || by left).
    destruct (upd (alookup x now)) as [v|]; [|done]. cbn. by rewrite decide_True.
  - replace (change_of id match upd (alookup x now) with Some v => [mkChange x v] | None => [] end)
      with (@None (option Bytes)) by (destruct (upd (alookup x now)); [cbn; by rewrite decide_False | done]).
    destruct (decide (id ∈ ids)); [rewrite decide_True by (by right) | rewrite decide_False]; try done.
    by rewrite not_elem_of_cons.
Qed.

Lemma changes_for_length now ids : (length (changes_for now ids) <= length ids)%nat.
Proof.
  induction ids as [|id ids IH]; [done|]. change (changes_for now (id :: ids)) with (selected now id ++ changes_for now ids).
  rewrite length_app. unfold selected. destruct (upd (alookup id now)); cbn [length]; lia.
Qed.

(** A method that does so, over sorted ids. *)
Lemma steps_ok saved now (step : list Change -> ObjectId -> ST t (list Change)) ids changes s :
  (forall changes id s, id ∈ ids -> unsaved_ok saved now s ->
     exists s', step changes id s = (Ok (changes ++ selected now id), s') /\ unsaved_ok saved now s' /\ same_files s s') ->
  unsaved_ok saved now s ->
  exists s', foldM step changes ids s = (Ok (changes ++ changes_for now ids), s') /\
    unsaved_ok saved now s' /\ same_files s s'.
Proof.
  intros Hstep. revert changes s. induction ids as [|id ids IH]; intros changes s Hs.
  { exists s. cbn. rewrite app_nil_r. split; [done|]. split; [done | apply same_files_refl]. }
  destruct (Hstep changes id s ltac:(by left) Hs) as (s1 & E1 & Hs1 & Hf1). cbn [foldM].
  rewrite (st_bind_ok _ _ _ _ _ E1).
  destruct (IH (fun c i s Hi => Hstep c i s ltac:(by right)) (changes ++ selected now id) s1 Hs1) as (s2 & E2 & Hs2 & Hf2).
  exists s2. rewrite E2. split; [by rewrite <- app_assoc|]. split; [done | by eapply same_files_trans].
Qed.

(** What they leave. *)
Lemma updated_lookup now ids id :
  sorted_recs now -> sorted_keys ids ->
  alookup id (merge_changes now (changes_for now ids)) =
  if decide (id ∈ ids) then default (alookup id now) (upd (alookup id now)) else alookup id now.
Proof.
  intros Hs Hi. rewrite merge_lookup; [|by apply changes_for_sorted | done].
  rewrite changes_for_lookup by (by apply sorted_keys_NoDup).
  destruct (decide (id ∈ ids)); [|done]. by destruct (upd (alookup id now)).
Qed.
End updates.
End tries.

(** ** What the frames of the log do *)

Import Retention.

#[global] Instance class_eq_dec : EqDecision RetentionClass.
Proof. solve_decision. Defined.

(** The records of the two classes. *)
Definition Contents : Type := list Rec * list Rec.
Definition of_class (type : RetentionClass) (c : Contents) : list Rec :=
  match type with Data => c.1 | Control => c.2 end.
Definition set_contents (type : RetentionClass) (l : list Rec) (c : Contents) : Contents :=
  match type with Data => (l, c.2) | Control => (c.1, l) end.

Lemma of_set_contents type type' l c :
  of_class type' (set_contents type l c) = if decide (type' = type) then l else of_class type' c.
Proof. by destruct type, type'. Qed.

(** The state a record holds. *)
Definition state_of (record : option Bytes) : ObjectState :=
  match decode_record record with Ok s => s | Throw _ => no_state end.

Definition add_update (dot : RetentionDot) (record : option Bytes) : option (option Bytes) :=
  match add_claim dot (state_of record) with Some s => Some (Some (state_bytes s)) | None => None end.
Definition release_update (observed : RetentionClock) (record : option Bytes) : option (option Bytes) :=
  match record with
  | None => None
  | Some _ =>
      let '(s, changed) := release_claims observed (state_of record) in
      if changed then Some (Some (state_bytes s)) else None
  end.
Definition prune_update (record : option Bytes) : option (option Bytes) :=
  match record with Some bytes => if claimed bytes then None else Some None | None => None end.

Definition frame_update (f : Frame) : option Bytes -> option (option Bytes) :=
  match f with
  | AddFrame _ dot _ => add_update dot
  | ReleaseFrame _ observed _ => release_update observed
  | PruneFrame _ _ => prune_update
  end.
Definition frame_class (f : Frame) : RetentionClass :=
  match f with AddFrame type _ _ | ReleaseFrame type _ _ | PruneFrame type _ => type end.
Definition frame_ids (f : Frame) : list ObjectId :=
  match f with AddFrame _ _ ids | ReleaseFrame _ _ ids | PruneFrame _ ids => ids end.

Definition frame_changes (f : Frame) (c : Contents) : list Change :=
  changes_for (frame_update f) (of_class (frame_class f) c) (sort_unique (frame_ids f)).
Definition frame_apply (c : Contents) (f : Frame) : Contents :=
  set_contents (frame_class f) (merge_changes (of_class (frame_class f) c) (frame_changes f c)) c.

(** Records every one of which is a state. *)
Definition states_in (records : list Rec) : Prop :=
  Forall (fun r : Rec => exists s, state_fits s /\ r.2 = state_bytes s) records.
Definition contents_ok (c : Contents) : Prop :=
  forall type, wf_recs 32 (of_class type c) /\ states_in (of_class type c).

(** A frame as the store writes them, whose changes the trie can hold. *)
Record frame_ok (f : Frame) (c : Contents) : Prop := {
  fk_says : match f with
            | AddFrame _ dot _ => dot_ok dot
            | ReleaseFrame _ observed _ => clock_ok observed
            | PruneFrame _ _ => True
            end;
  fk_fits : Forall change_fits (frame_changes f c);
  fk_count : Z.of_nat (length (of_class (frame_class f) c) + length (frame_changes f c)) < 2 ^ 64
}.

Lemma state_of_ok records id :
  sorted_recs records -> states_in records ->
  state_ok (state_of (alookup id records)) /\
  decode_record (alookup id records) = Ok (state_of (alookup id records)) /\
  (forall bs, alookup id records = Some bs -> state_fits (state_of (Some bs)) /\ bs = state_bytes (state_of (Some bs))).
Proof.
  intros Hs Hin. unfold state_of. destruct (alookup id records) as [bs|] eqn:E; cbn [decode_record].
  - apply alookup_Some_elem in E. unfold states_in in Hin. rewrite Forall_forall in Hin.
    destruct (Hin _ E) as (s & Hf & Eb). cbn in Eb. subst bs. rewrite (decode_state_ok s Hf).
    split; [apply Hf|]. split; [done|]. intros bs [= <-]. by rewrite (decode_state_ok s Hf).
  - split; [apply no_state_ok | done].
Qed.

(** Changes keep every record a state. *)
Lemma frame_states f c :
  contents_ok c -> frame_ok f c ->
  Forall (fun ch : Change => forall bs, ch_value ch = Some bs -> exists s, state_fits s /\ bs = state_bytes s) (frame_changes f c).
Proof.
  intros Hc [Hsay Hfit _]. destruct (Hc (frame_class f)) as [Hwf Hin]. rewrite Forall_forall in Hfit |- *.
  intros ch Hch bs Eb. specialize (Hfit ch Hch). unfold change_fits in Hfit. rewrite Eb in Hfit.
  pose proof Hch as [_ Hu]%changes_for_elem. rewrite Eb in Hu.
  destruct (state_of_ok _ (ch_id ch) (wf_sorted _ _ Hwf) Hin) as (Hok & _ & _).
  assert (forall s, state_ok s -> bs = state_bytes s -> exists s, state_fits s /\ bs = state_bytes s) as Hdone.
  { intros s Hs ->. exists s. by split. }
  destruct f as [type dot ids|type observed ids|type ids]; cbn [frame_update] in Hu.
  - unfold add_update in Hu. destruct (add_claim dot _) as [s|] eqn:E; [|done]. injection Hu as <-. apply (Hdone s); [|done].
    pose proof (op_says (OpAdd dot) _ _ _ Hsay (says_self _ Hok)) as [Hs _]. cbn [op_apply] in Hs. by rewrite E in Hs.
  - unfold release_update in Hu. destruct (alookup _ _); [|done].
    destruct (release_claims observed _) as [s changed] eqn:E. destruct changed; [|done]. injection Hu as <-.
    apply (Hdone s); [|done]. pose proof (op_says (OpRelease observed) _ _ _ Hsay (says_self _ Hok)) as [Hs _].
    cbn [op_apply] in Hs. by rewrite E in Hs.
  - unfold prune_update in Hu. destruct (alookup _ _) as [b|]; [|done]. by destruct (claimed b).
Qed.

Lemma frame_apply_ok f c : contents_ok c -> frame_ok f c -> contents_ok (frame_apply c f).
Proof.
  intros Hc Hf type. unfold frame_apply. rewrite of_set_contents. destruct (decide (type = frame_class f)) as [->|]; [|apply Hc].
  destruct (Hc (frame_class f)) as [Hwf Hin]. pose proof (frame_states f c Hc Hf) as Hst. destruct Hf as [_ Hfit Hn].
  destruct (sort_unique_ok (frame_ids f)) as [Hsu _].
  assert (sorted_changes (frame_changes f c)) as Hsc by (by apply changes_for_sorted). split.
  - apply merge_wf; done.
  - apply Forall_forall. intros r Hr. apply merge_elem in Hr; [|apply Hwf]. destruct Hr as [Hr|(ch & Hch & _ & Ev)].
    + unfold states_in in Hin. rewrite Forall_forall in Hin. by apply Hin.
    + rewrite Forall_forall in Hst. by apply (Hst ch Hch).
Qed.

Section store.
Context `{Sha256, AesGcm, !AesGcmSpec, Entropy, Footprint}.

(** The store's tries hold [now], their directories [saved]. *)
Definition store_holds (saved now : Contents) (s : t) : Prop :=
  forall type, unsaved_ok (of_class type saved) (of_class type now) (cl_trie (class_for type s)).

(** Everything but the tries' caches and memory, the counter and the cursors. *)
Definition store_same (s s' : t) : Prop :=
  rs_journal s' = rs_journal s /\ rs_key s' = rs_key s /\ rs_marker s' = rs_marker s /\ rs_legacy s' = rs_legacy s /\
  forall type, ObjectTrie.key (cl_trie (class_for type s')) = ObjectTrie.key (cl_trie (class_for type s)) /\
    same_files (cl_trie (class_for type s)) (cl_trie (class_for type s')).

Lemma store_same_refl s : store_same s s.
Proof. do 4 (split; [done|]). intros type. split; [done | apply same_files_refl]. Qed.
Lemma store_same_trans s1 s2 s3 : store_same s1 s2 -> store_same s2 s3 -> store_same s1 s3.
Proof.
  intros (A1 & A2 & A3 & A4 & A5) (B1 & B2 & B3 & B4 & B5). do 4 (split; [congruence|]).
  intros type. destruct (A5 type), (B5 type). split; [congruence | by eapply same_files_trans].
Qed.

Lemma class_set_trie type type' trie s :
  cl_trie (class_for type' (set_class type (set_trie trie (class_for type s)) s)) =
  if decide (type' = type) then trie else cl_trie (class_for type' s).
Proof. by destruct type, type'. Qed.

Lemma class_set_changed type n s : class_for type (set_changed n s) = class_for type s.
Proof. by destruct type. Qed.

(** A method of one trie. *)
Lemma on_trie_ok {A} saved now now' type (m : ST ObjectTrie.t A) (a : A) s :
  store_holds saved now s ->
  (exists trie', m (cl_trie (class_for type s)) = (Ok a, trie') /\
     unsaved_ok (of_class type saved) now' trie' /\ same_files (cl_trie (class_for type s)) trie') ->
  exists s', on_trie type m s = (Ok a, s') /\ store_holds saved (set_contents type now' now) s' /\
    store_same s s' /\ rs_changed s' = rs_changed s.
Proof.
  intros Hs (trie' & E & Hu & Hf). unfold on_trie. rewrite E. eexists. split; [reflexivity|]. split; [|split].
  - intros type'. rewrite class_set_trie, of_set_contents. destruct (decide (type' = type)) as [->|]; [done | apply Hs].
  - split; [by destruct type|]. split; [by destruct type|]. split; [by destruct type|]. split; [by destruct type|].
    intros type'. rewrite class_set_trie. destruct (decide (type' = type)) as [->|].
    + split; [by destruct Hf as (_ & _ & _ & _ & Ek & _) | done].
    + split; [done | apply same_files_refl].
  - by destruct type.
Qed.

Lemma set_same_contents type now : set_contents type (of_class type now) now = now.
Proof. by destruct type, now. Qed.

Lemma install_changes_ok saved now type changes s :
  store_holds saved now s -> sorted_changes changes -> wf_recs 32 (merge_changes (of_class type now) changes) ->
  exists s', install_changes type changes s = (Ok (Z.of_nat (length changes)), s') /\
    store_holds saved (set_contents type (merge_changes (of_class type now) changes) now) s' /\ store_same s s' /\
    rs_changed s' = wrap64 (rs_changed s + Z.of_nat (length changes)).
Proof.
  intros Hs Hsort Hwf. unfold install_changes. set (s1 := set_changed (wrap64 (rs_changed s + Z.of_nat (length changes))) s).
  rewrite (st_bind_ok _ _ _ tt s1) by done.
  assert (store_holds saved now s1) as Hs1 by (intros type'; unfold s1; rewrite class_set_changed; apply Hs).
  destruct (on_trie_ok saved now _ type (ObjectTrie.install changes) tt s1 Hs1
    (unsaved_install _ _ _ _ (Hs1 type) Hsort Hwf)) as (s2 & E & Hs2 & Hsame & Ech).
  exists s2. rewrite (st_bind_ok _ _ _ _ _ E). split; [done|]. split; [done|]. split; [|by rewrite Ech].
  destruct Hsame as (B1 & B2 & B3 & B4 & B5). split; [done|]. split; [done|]. split; [done|]. split; [done|].
  intros type'. specialize (B5 type'). unfold s1 in B5. by rewrite class_set_changed in B5.
Qed.

(** The three steps give what the updates say. *)
Lemma add_step_ok saved now dot changes id s :
  unsaved_ok saved now s -> sorted_recs now -> states_in now -> dot_ok dot ->
  Forall change_fits (selected (add_update dot) now id) ->
  exists s', add_step dot changes id s = (Ok (changes ++ selected (add_update dot) now id), s') /\
    unsaved_ok saved now s' /\ same_files s s'.
Proof.
  intros Hu Hs Hin Hdot Hfit. destruct (unsaved_get saved now s id Hu) as (s' & E & Hu' & Hf). exists s'.
  split; [|done]. unfold add_step. rewrite (st_bind_ok _ _ _ _ _ E).
  destruct (state_of_ok now id Hs Hin) as (Hok & Hdec & _). rewrite Hdec.
  rewrite (st_bind_ok _ _ _ (state_of (alookup id now)) s') by done.
  unfold selected, add_update in *. destruct (add_claim dot _) as [st|] eqn:Ea; [|by rewrite app_nil_r].
  apply Forall_cons in Hfit as [Hfit _]. unfold set_change. rewrite encode_state_ok; [done|]. split; [|done].
  pose proof (op_says (OpAdd dot) _ _ _ Hdot (says_self _ Hok)) as [Hst _]. cbn [op_apply] in Hst. by rewrite Ea in Hst.
Qed.

Lemma release_step_ok saved now observed changes id s :
  unsaved_ok saved now s -> sorted_recs now -> states_in now -> clock_ok observed ->
  Forall change_fits (selected (release_update observed) now id) ->
  exists s', release_step observed changes id s = (Ok (changes ++ selected (release_update observed) now id), s') /\
    unsaved_ok saved now s' /\ same_files s s'.
Proof.
  intros Hu Hs Hin Hobs Hfit. destruct (unsaved_get saved now s id Hu) as (s' & E & Hu' & Hf). exists s'.
  split; [|done]. unfold release_step. rewrite (st_bind_ok _ _ _ _ _ E).
  destruct (state_of_ok now id Hs Hin) as (Hok & Hdec & _). unfold selected, release_update in *.
  destruct (alookup id now) as [bs|]; [|by rewrite app_nil_r]. cbn [decode_record] in Hdec. rewrite Hdec.
  rewrite (st_bind_ok _ _ _ (state_of (Some bs)) s') by done.
  pose proof (op_says (OpRelease observed) _ _ _ Hobs (says_self _ Hok)) as [Hst _]. cbn [op_apply] in Hst.
  destruct (release_claims observed _) as [st changed]. destruct changed; [|by rewrite app_nil_r].
  apply Forall_cons in Hfit as [Hfit _]. unfold set_change. by rewrite encode_state_ok.
Qed.

Lemma prune_step_ok saved now changes id s :
  unsaved_ok saved now s ->
  exists s', prune_step changes id s = (Ok (changes ++ selected prune_update now id), s') /\
    unsaved_ok saved now s' /\ same_files s s'.
Proof.
  intros Hu. destruct (unsaved_get saved now s id Hu) as (s' & E & Hu' & Hf). exists s'.
  split; [|done]. unfold prune_step. rewrite (st_bind_ok _ _ _ _ _ E). unfold selected, prune_update.
  destruct (alookup id now) as [bs|]; [destruct (claimed bs)|]; by rewrite ?app_nil_r.
Qed.

Lemma selected_fits f c id :
  Forall change_fits (frame_changes f c) -> id ∈ sort_unique (frame_ids f) ->
  Forall change_fits (selected (frame_update f) (of_class (frame_class f) c) id).
Proof.
  intros Hf Hid. rewrite Forall_forall in Hf |- *. intros ch Hch. apply Hf. unfold frame_changes, changes_for.
  apply list_elem_of_In, in_flat_map. exists id. split; by apply list_elem_of_In.
Qed.

Definition frame_step (f : Frame) : list Change -> ObjectId -> ST ObjectTrie.t (list Change) :=
  match f with
  | AddFrame _ dot _ => add_step dot
  | ReleaseFrame _ observed _ => release_step observed
  | PruneFrame _ _ => prune_step
  end.

(** A frame's three steps: the changes worked out, counted and installed. *)
Lemma frame_steps_ok saved now f s :
  store_holds saved now s -> contents_ok now -> frame_ok f now ->
  exists s', (changes ← on_trie (frame_class f) (foldM (frame_step f) [] (sort_unique (frame_ids f)));
              install_changes (frame_class f) changes) s = (Ok (Z.of_nat (length (frame_changes f now))), s') /\
    store_holds saved (frame_apply now f) s' /\ store_same s s' /\
    rs_changed s' = wrap64 (rs_changed s + Z.of_nat (length (frame_changes f now))).
Proof.
  intros Hs Hc Hf. destruct (Hc (frame_class f)) as [Hwf Hin]. destruct (sort_unique_ok (frame_ids f)) as [Hsu _].
  destruct (on_trie_ok saved now (of_class (frame_class f) now) (frame_class f)
    (foldM (frame_step f) [] (sort_unique (frame_ids f))) (frame_changes f now) s Hs) as (s1 & E1 & Hs1 & Hsame1 & Ech1).
  { apply (steps_ok (frame_update f) _ _ (frame_step f) _ []); [|apply Hs]. intros changes id s0 Hid Hs0.
    pose proof (selected_fits f now id (fk_fits _ _ Hf) Hid) as Hfit. destruct Hf as [Hsay _ _].
    destruct f; cbn [frame_update] in *; [apply add_step_ok | apply release_step_ok | apply prune_step_ok]; try done; apply Hwf. }
  rewrite set_same_contents in Hs1. rewrite (st_bind_ok _ _ _ _ _ E1).
  destruct (install_changes_ok saved now (frame_class f) (frame_changes f now) s1 Hs1) as (s2 & E2 & Hs2 & Hsame2 & Ech2).
  - by apply changes_for_sorted.
  - pose proof (proj1 (frame_apply_ok f now Hc Hf (frame_class f))) as Hap. unfold frame_apply in Hap.
    by rewrite of_set_contents, decide_True in Hap.
  - exists s2. split; [done|]. split; [done|]. split; [by eapply store_same_trans | by rewrite Ech2, Ech1].
Qed.

Lemma apply_steps now f n s s' :
  frame_ok f now ->
  (changes ← on_trie (frame_class f) (foldM (frame_step f) [] (sort_unique (frame_ids f)));
   install_changes (frame_class f) changes) s = (Ok n, s') ->
  apply_frame f s = (Ok tt, s').
Proof.
  intros Hf E. destruct f as [type dot ids|type observed ids|type ids]; cbn [apply_frame frame_class frame_ids frame_step] in *.
  - unfold apply_add_locked. destruct (fk_says _ _ Hf) as [Ho Hn]. unfold invalid_dot.
    rewrite bool_decide_false, (proj2 (Z.eqb_neq _ 0)) by (done || lia). cbn [orb].
    revert E. unfold mbind, st_bind. destruct (on_trie _ _ s) as [[chs|e] s1]; [|done]. by intros ->.
  - unfold apply_release_locked. by rewrite (st_bind_ok _ _ _ _ _ E).
  - unfold apply_prune_locked. by rewrite (st_bind_ok _ _ _ _ _ E).
Qed.

Lemma apply_frame_ok saved now f s :
  store_holds saved now s -> contents_ok now -> frame_ok f now ->
  exists s', apply_frame f s = (Ok tt, s') /\ store_holds saved (frame_apply now f) s' /\ store_same s s' /\
    rs_changed s' = wrap64 (rs_changed s + Z.of_nat (length (frame_changes f now))).
Proof.
  intros Hs Hc Hf. destruct (frame_steps_ok saved now f s Hs Hc Hf) as (s' & E & Hs' & Hsame). exists s'.
  split; [by eapply apply_steps | done].
Qed.

(** *** Frames in the log *)

Definition ids_bytes (ids : list ObjectId) : Bytes :=
  be_bytes 4 (Z.of_nat (length ids)) ++ flat_map (fun id : ObjectId => abytes id) ids.
Definition log_bytes (f : Frame) : Bytes :=
  match f with
  | AddFrame type dot ids =>
      be_bytes 1 op_add ++ be_bytes 1 (class_code type) ++ abytes (dot_origin dot) ++ be_bytes 8 (dot_sequence dot) ++
      ids_bytes ids
  | ReleaseFrame type clock ids =>
      be_bytes 1 op_release ++ be_bytes 1 (class_code type) ++ be_bytes 4 (Z.of_nat (length clock)) ++
      flat_map entry_bytes clock ++ ids_bytes ids
  | PruneFrame type ids => be_bytes 1 op_prune ++ be_bytes 1 (class_code type) ++ ids_bytes ids
  end.
Definition log_fits (f : Frame) : Prop := Z.of_nat (length (log_bytes f)) <= max_journal_frame.

Lemma length_ids_bytes ids : length (ids_bytes ids) = (4 + 32 * length ids)%nat.
Proof.
  unfold ids_bytes. rewrite length_app, length_be_bytes. f_equal. induction ids as [|id ids IH]; [done|].
  cbn [flat_map length]. rewrite length_app, array_length, IH. lia.
Qed.

Lemma log_fits_ids f : log_fits f -> Z.of_nat (length (frame_ids f)) <= 1000000.
Proof.
  unfold log_fits, log_bytes, max_journal_frame. destruct f; cbn [frame_ids]; rewrite !length_app, length_ids_bytes; lia.
Qed.
Lemma log_fits_clock type clock ids : log_fits (ReleaseFrame type clock ids) -> Z.of_nat (length clock) <= 1000000.
Proof.
  unfold log_fits, log_bytes, max_journal_frame. pose proof (length_side_bytes clock) as Hl. unfold side_bytes in Hl.
  rewrite length_app, length_be_bytes in Hl. rewrite !length_app. lia.
Qed.

(** The frames the three operations write. *)
Definition log_frame (f : Frame) : result Bytes :=
  match f with
  | AddFrame type dot ids => add_frame type dot ids
  | ReleaseFrame type clock ids => release_frame type clock ids
  | PruneFrame type ids => prune_frame type ids
  end.

Lemma log_frame_ok f : log_fits f -> log_frame f = Ok (log_bytes f).
Proof.
  intros Hf. pose proof (log_fits_ids f Hf) as Hi.
  assert (forall ids : list ObjectId, Z.of_nat (length ids) <= 1000000 ->
    writes (Writer.u32 (wrap32 (Z.of_nat (length ids))) ;;; Writer.each write_id ids) (ids_bytes ids)) as Hids.
  { intros ids Hl. unfold ids_bytes. rewrite wrap32_small by lia. apply writes_seq; [apply writes_u32|].
    apply writes_each, Forall_true. intros id. apply writes_fixed. }
  destruct f as [type dot ids|type clock ids|type ids]; cbn [log_frame frame_ids log_bytes] in *; apply writes_run.
  - do 4 (apply writes_seq; [auto with codec|]). by apply Hids.
  - pose proof (log_fits_clock _ _ _ Hf). rewrite (wrap32_small (Z.of_nat (length clock))) by lia.
    do 3 (apply writes_seq; [auto with codec|]). apply writes_seq; [apply writes_each, Forall_true, writes_entry|]. by apply Hids.
  - do 2 (apply writes_seq; [auto with codec|]). by apply Hids.
Qed.

Lemma finishes_map {A B} (p : Reader.prog A) (k : A -> B) e a : finishes p e a -> finishes (x ← p; mret (k x)) e (k a).
Proof. intros Hp pre. unfold mbind, Reader.prog_bind. by rewrite Hp. Qed.

Lemma finishes_ids what ids (k : list ObjectId -> Frame) :
  Z.of_nat (length ids) <= 1000000 -> finishes (ids ← read_ids what; mret (k ids)) (ids_bytes ids) (k ids).
Proof.
  intros Hl. apply (finishes_map _ k). unfold ids_bytes. eapply finishes_bind; [apply reads_u32; lia|].
  rewrite (proj2 (Z.ltb_ge _ _)) by done. rewrite Nat2Z.id. rewrite <- (app_nil_r (flat_map _ ids)).
  eapply finishes_bind; [|apply finishes_finish_ret].
  apply (reads_times _ (fun id : ObjectId => abytes id)), Forall_true. intros id. apply reads_fixed.
Qed.

Lemma class_code_valid type : valid_class (class_code type) = true /\ class_of_code (class_code type) = type.
Proof. by destruct type. Qed.

Lemma decode_frame_ok f c : frame_ok f c -> log_fits f -> decode_frame (log_bytes f) = Ok f.
Proof.
  intros Hf Hl. pose proof (log_fits_ids f Hl) as Hi. apply finishes_run. unfold log_bytes.
  destruct f as [type dot ids|type clock ids|type ids]; destruct (class_code_valid type) as [Hv Hc];
    (eapply finishes_bind; [apply reads_u8; vm_compute; intuition congruence|]);
    (eapply finishes_bind; [apply reads_u8; destruct type; simpl; lia|]); rewrite Hv, Hc; cbn [negb].
  - destruct (fk_says _ _ Hf) as [_ Hn]. eapply finishes_bind; [apply reads_fixed|].
    eapply finishes_bind; [apply reads_u64; lia|]. destruct dot. by apply (finishes_ids _ ids (AddFrame type _)).
  - pose proof (log_fits_clock _ _ _ Hl). eapply finishes_bind; [apply reads_u32; lia|].
    rewrite (proj2 (Z.ltb_ge _ _)) by done. rewrite Nat2Z.id.
    eapply finishes_bind; [apply (reads_entries _ clock []), (fk_says _ _ Hf)|]. by apply (finishes_ids _ ids (ReleaseFrame type clock)).
  - by apply (finishes_ids _ ids (PruneFrame type)).
Qed.
End store.
