(* ===== verification/RetentionScan.v ===== *)
(** * Walks over a class's records

    [RetentionStore::scan_locked]: a bounded stretch of the records from a
    cursor on, going back to the first record at the end. *)

From S2P Require Import Prelude Sorts Codec Journal Trie ObjectTrie TrieShape TrieOps TrieChange TrieDisk TrieWire TrieLedger Retention RetentionSet RetentionStore.
Import Retention.

(** ** Where a walk goes *)

Definition before (start : ObjectId) (records : list Rec) : list Rec :=
  base.filter (fun r : Rec => key_lt r.1 start) records.

(** What is ahead of a walk that is at [after] and began at [start]. *)
Definition ahead (wrapped : bool) (after start : option ObjectId) (now : list Rec) : list Rec :=
  let rest := after_bound after now in
  match wrapped, start with
  | true, Some st => before st rest
  | true, None => take 1 rest
  | false, Some st => rest ++ before st now
  | false, None =>
      match rest, after with
      | r :: _, _ => rest ++ before r.1 now
      | [], Some _ => take 1 now
      | [], None => []
      end
  end.

(** From a cursor: the records after it, then those before the first of
    them; when there is none after it, the first record alone. *)
Definition rotation (cursor : option ObjectId) (now : list Rec) : list Rec := ahead false cursor None now.

Lemma ahead_end wrapped after start now :
  after_bound after now = [] -> wrapped = true \/ after = None -> ahead wrapped after start now = [].
Proof.
  intros E Hor. unfold ahead. rewrite E. destruct wrapped; [by destruct start|].
  destruct Hor as [Hor| ->]; [done|]. cbn [after_bound] in E. subst now. by destruct start.
Qed.

Lemma before_after st now : before st (after_bound (Some st) now) = [].
Proof.
  cbn [after_bound]. unfold before. rewrite list_filter_filter. apply list_filter_none.
  apply Forall_forall. intros x _ [H1 H2]. apply (key_lt_irrefl st). by transitivity x.1.
Qed.

Lemma before_split st l :
  sorted_recs l -> exists l2, l = before st l ++ l2 /\ Forall (fun r : Rec => ~ key_lt r.1 st) l2.
Proof.
  intros Hs. unfold before. induction l as [|[k v] l IH]; [by exists []|].
  apply sorted_recs_cons in Hs as [Hr Hs]. rewrite filter_cons. destruct (decide (key_lt (k, v).1 st)) as [Hlt|Hge].
  - destruct (IH Hs) as (l2 & E & Hl2). exists l2. split; [|done]. cbn [app]. by f_equal.
  - exists ((k, v) :: l). rewrite list_filter_none; [split; [done|]; constructor; [done|]|].
    + eapply Forall_impl; [exact Hr|]. intros x Hx Hxs. apply Hge. by transitivity x.1.
    + eapply Forall_impl; [exact Hr|]. intros x Hx Hxs. apply Hge. by transitivity x.1.
Qed.

(** ** The records visited *)

Section walk.
Context {A : Type} (visit : A -> ObjectId -> Bytes -> A * bool).
Implicit Types w : Walk A.

Definition outcome (w : Walk A) : A * option ObjectId := (wk_acc w, wk_cursor w).

(** Every record of a list in turn, until [visit] stops. *)
Definition visit_all (l : list Rec) (acc : A) (cursor : option ObjectId) : A * option ObjectId :=
  outcome (walk_page visit false l (mkWalk acc cursor cursor None 0 true)).

Lemma walk_page_app wrapped l1 l2 w :
  wk_go w = true ->
  walk_page visit wrapped (l1 ++ l2) w =
  let w1 := walk_page visit wrapped l1 w in if wk_go w1 then walk_page visit wrapped l2 w1 else w1.
Proof.
  revert w. induction l1 as [|[id bs] l1 IH]; intros w Hgo; cbn [app walk_page]; [by rewrite Hgo|].
  destruct (wrapped && _); [done|]. destruct (visit (wk_acc w) id bs) as [acc [|]]; [by apply IH | done].
Qed.

(** Only what it made and the cursor matter. *)
Lemma walk_page_outcome l w w' :
  outcome w = outcome w' -> wk_go w = wk_go w' ->
  outcome (walk_page visit false l w) = outcome (walk_page visit false l w') /\
  wk_go (walk_page visit false l w) = wk_go (walk_page visit false l w').
Proof.
  revert w w'. induction l as [|[id bs] l IH]; intros w w' E Eg; cbn [walk_page andb]; [done|].
  assert (wk_acc w = wk_acc w') as -> by (unfold outcome in E; congruence).
  destruct (visit (wk_acc w') id bs) as [acc [|]]; [by apply IH | done].
Qed.

(** A page all of which is visited. *)
Lemma walk_page_full l r w :
  wk_go (walk_page visit false (l ++ [r]) w) = true ->
  let w' := walk_page visit false (l ++ [r]) w in
  wk_after w' = Some r.1 /\ wk_visited w' = (wk_visited w + length (l ++ [r]))%nat /\
  wk_start w' = match wk_start w with Some st => Some st | None => head (l ++ [r]).*1 end.
Proof.
  revert w. induction l as [|[id bs] l IH]; intros w; cbn [app walk_page andb].
  - destruct r as [id bs]. destruct (visit (wk_acc w) id bs) as [acc [|]]; cbn; [|done]. intros _.
    split; [done|]. split; [lia|]. by destruct (wk_start w).
  - destruct (visit (wk_acc w) id bs) as [acc [|]]; [|done]. intros Hgo. destruct (IH _ Hgo) as (H1 & H2 & H3).
    split; [done|]. split; [rewrite H2; cbn; lia|]. rewrite H3. cbn. by destruct (wk_start w).
Qed.

(** On the way round: the same for the records before the first, no more. *)
Lemma walk_page_wrapped st l w :
  wk_start w = Some st -> wk_go w = true -> sorted_recs l ->
  outcome (walk_page visit true l w) = outcome (walk_page visit false (before st l) w) /\
  (before st l = l -> walk_page visit true l w = walk_page visit false l w) /\
  (before st l <> l -> wk_go (walk_page visit true l w) = false).
Proof.
  intros Hst Hgo Hs. destruct (before_split st l Hs) as (l2 & E & Hl2).
  assert (forall l w, wk_start w = Some st -> Forall (fun r : Rec => key_lt r.1 st) l ->
    walk_page visit true l w = walk_page visit false l w /\ wk_start (walk_page visit true l w) = Some st) as Hsame.
  { clear. induction l as [|[id bs] l IH]; intros w Hst Hl; [done|]. apply Forall_cons in Hl as [Hid Hl].
    cbn [walk_page andb]. rewrite Hst. change (key_ltb id st = true) in Hid. rewrite Hid. cbn [negb].
    destruct (visit (wk_acc w) id bs) as [acc [|]]; [by apply IH | done]. }
  destruct (Hsame (before st l) w Hst) as [E1 E2]; [apply Forall_forall; intros x; unfold before; rewrite list_elem_of_filter; tauto|].
  assert (walk_page visit true l w = let w1 := walk_page visit false (before st l) w in
    if wk_go w1 then walk_page visit true l2 w1 else w1) as El.
  { rewrite E at 1. rewrite walk_page_app by done. by rewrite E1. }
  rewrite E1 in E2. rewrite El. cbn zeta. destruct l2 as [|[id bs] l2].
  - rewrite app_nil_r in E. rewrite <- E. cbn [walk_page].
    split; [|split; [intros _|done]]; by destruct (wk_go (walk_page visit false l w)).
  - apply Forall_cons in Hl2 as [Hid _]. cbn [walk_page]. rewrite E2.
    rewrite (proj1 (not_true_iff_false (key_ltb id st)) Hid). cbn [andb negb].
    split; [by destruct (wk_go (walk_page visit false (before st l) w))|]. split.
    + intros E'. exfalso. rewrite E' in E. apply (f_equal length) in E. rewrite length_app in E. cbn in E. lia.
    + intros _. destruct (wk_go (walk_page visit false (before st l) w)) eqn:Eg; [done | exact Eg].
Qed.

(** *** One page *)

Lemma visit_page n page tail w :
  wk_go w = true -> (length page <= n)%nat ->
  outcome (walk_page visit false (take n (page ++ tail)) w) =
  let w1 := walk_page visit false page w in
  if wk_go w1 then outcome (walk_page visit false (take (n - length page) tail) w1) else outcome w1.
Proof. intros Hgo Hl. rewrite take_app_ge, walk_page_app by done. cbn zeta. by destruct (wk_go (walk_page visit false page w)). Qed.

(** Where a walk is to end up, with [limit] records to look at in all. *)
Definition to_visit (limit : nat) (wrapped : bool) (now : list Rec) (w : Walk A) : A * option ObjectId :=
  outcome (walk_page visit false
    (take (limit - wk_visited w) (ahead wrapped (wk_after w) (wk_start w) now)) w).

(** A page that leaves the walk where it is to end up. *)
Definition page_good (limit : nat) (wrapped : bool) (now : list Rec) (w w1 : Walk A) : Prop :=
  if wk_go w1 then to_visit limit wrapped now w1 = to_visit limit wrapped now w /\ (wk_visited w < wk_visited w1)%nat
  else outcome w1 = to_visit limit wrapped now w.

Section page.
Context (limit : nat) (now : list Rec) (w : Walk A) (page rest : list Rec).
Hypothesis Hgo : wk_go w = true.
Hypothesis Hsorted : sorted_recs now.
Hypothesis Hne : page <> [].
Hypothesis Hlen : (length page <= limit - wk_visited w)%nat.
Hypothesis Hpage : after_bound (wk_after w) now = page ++ rest.

Lemma page_sorted : sorted_recs (page ++ rest).
Proof. rewrite <- Hpage. destruct (wk_after w); [by apply sorted_recs_filter | done]. Qed.

(** What a page wholly visited leaves. *)
Lemma page_full :
  let w1 := walk_page visit false page w in
  wk_go w1 = true ->
  after_bound (wk_after w1) now = rest /\ (wk_visited w1 = wk_visited w + length page)%nat /\
  wk_start w1 = match wk_start w with Some st => Some st | None => head page.*1 end.
Proof.
  destruct (exists_last Hne) as (l & r & El). intros w1 Hg. unfold w1 in *. rewrite El in Hg.
  destruct (walk_page_full _ _ _ Hg) as (F1 & F2 & F3). rewrite El. split; [|done]. rewrite F1.
  apply (after_bound_page (wk_after w) now r l rest Hsorted). by rewrite <- El.
Qed.

Lemma page_limit : (limit - (wk_visited w + length page) = limit - wk_visited w - length page)%nat.
Proof. lia. Qed.

Lemma page_nonempty : (0 < length page)%nat.
Proof. destruct page; [done | cbn; lia]. Qed.

(** A page all of which is to be visited, [tail] being ahead after it. *)
Lemma page_goes wrapped tail :
  ahead wrapped (wk_after w) (wk_start w) now = page ++ tail ->
  (forall w1, after_bound (wk_after w1) now = rest ->
     wk_start w1 = match wk_start w with Some st => Some st | None => head page.*1 end ->
     ahead wrapped (wk_after w1) (wk_start w1) now = tail) ->
  page_good limit wrapped now w (walk_page visit false page w).
Proof.
  intros Ea Ht. unfold page_good, to_visit. rewrite Ea, (visit_page _ page tail w Hgo Hlen). cbn zeta.
  set (w1 := walk_page visit false page w).
  destruct (wk_go w1) eqn:Ego; [|done]. destruct (page_full Ego) as (F1 & F2 & F3).
  fold w1 in F1, F2, F3. rewrite (Ht w1 F1 F3), F2. rewrite page_limit. split; [done|]. pose proof page_nonempty. lia.
Qed.

(** On the way out. *)
Lemma page_out : page_good limit false now w (walk_page visit false page w).
Proof.
  set (st := match wk_start w with Some st => Some st | None => head page.*1 end).
  apply (page_goes false (rest ++ match st with Some st => before st now | None => [] end)).
  - unfold ahead, st. rewrite Hpage. destruct (wk_start w); [by rewrite app_assoc|].
    destruct page as [|r p]; [done|]. cbn [app fmap list_fmap head]. by rewrite app_assoc.
  - intros w1 Ha Hs. unfold ahead. rewrite Ha, Hs. fold st. assert (exists x, st = Some x) as [x ->]; [|done].
    unfold st. destruct (wk_start w); [eauto|]. destruct page; [done | cbn; eauto].
Qed.

(** On the way round. *)
Lemma page_round st :
  wk_start w = Some st -> page_good limit true now w (walk_page visit true page w).
Proof.
  intros Est. pose proof page_sorted as (Hlt & Hsp & _)%sorted_recs_app.
  destruct (walk_page_wrapped st page w Est Hgo Hsp) as (W1 & W2 & W3).
  assert (ahead true (wk_after w) (wk_start w) now = before st page ++ before st rest) as Ea.
  { unfold ahead. rewrite Est, Hpage. apply filter_app. }
  destruct (decide (before st page = page)) as [Eb|Nb].
  - rewrite (W2 Eb). apply (page_goes true (before st rest)); [by rewrite Ea, Eb|].
    intros w1 Ha Hs. unfold ahead. by rewrite Ha, Hs, Est.
  - unfold page_good, to_visit. rewrite (W3 Nb), W1, Ea.
    destruct (before_split st page Hsp) as ([|x l2] & Ep & Hl2); [by rewrite app_nil_r in Ep|].
    assert (before st rest = []) as ->.
    { apply list_filter_none, Forall_forall. intros y Hy Hys. apply Forall_cons in Hl2 as [Hx _]. apply Hx.
      transitivity y.1; [|done]. apply Hlt; [|done]. rewrite Ep, elem_of_app. right. by left. }
    rewrite app_nil_r, take_ge; [done|]. etransitivity; [apply length_filter | done].
Qed.

(** The first record, when nothing was after the cursor. *)
Lemma page_first : wk_start w = None -> page_good limit true now w (walk_page visit true page w).
Proof.
  intros Est. pose proof page_sorted as (_ & Hsp & _)%sorted_recs_app.
  assert (to_visit limit true now w = outcome (walk_page visit false (take 1 page) w)) as Eg.
  { unfold to_visit, ahead. pose proof page_nonempty. rewrite Est, Hpage, take_take, Nat.min_r, take_app_le by lia. done. }
  unfold page_good. rewrite Eg. clear Eg. revert Hsp. destruct page as [|[id bs] page']; [done|]. intros Hsp.
  cbn [take walk_page]. rewrite Est. cbn [andb]. destruct (visit (wk_acc w) id bs) as [acc [|]]; [|done].
  destruct page' as [|[id' bs'] page'].
  - cbn [walk_page wk_go]. split; [|cbn; lia]. unfold to_visit, ahead. cbn [wk_start wk_after wk_visited].
    by rewrite before_after, take_nil.
  - cbn [walk_page wk_start]. rewrite (proj1 (not_true_iff_false (key_ltb id' id))); [done|].
    intros Hlt. apply sorted_recs_cons in Hsp as [Hsp _]. apply Forall_cons in Hsp as [Hsp _].
    apply (key_lt_irrefl id). by transitivity id'.
Qed.
End page.
(** *** The loop *)

Section loop.
Context `{Sha256, AesGcm, !AesGcmSpec, Entropy, Footprint}.

Lemma to_visit_none limit wrapped now w :
  (limit <= wk_visited w)%nat -> to_visit limit wrapped now w = outcome w.
Proof. intros Hl. unfold to_visit. by replace (limit - wk_visited w)%nat with 0%nat by lia. Qed.

Lemma to_visit_wrap limit now w :
  after_bound (wk_after w) now = [] -> wk_after w <> None ->
  to_visit limit true now (mkWalk (wk_acc w) (wk_cursor w) None (wk_start w) (wk_visited w) true) =
  to_visit limit false now (mkWalk (wk_acc w) (wk_cursor w) (wk_after w) (wk_start w) (wk_visited w) true).
Proof.
  intros E Ha. unfold to_visit. cbn [wk_after wk_start wk_visited].
  assert (ahead true None (wk_start w) now = ahead false (wk_after w) (wk_start w) now) as ->.
  { unfold ahead. rewrite E. cbn [after_bound app]. destruct (wk_start w), (wk_after w); done. }
  by apply walk_page_outcome.
Qed.

Lemma walk_eta w : wk_go w = true -> mkWalk (wk_acc w) (wk_cursor w) (wk_after w) (wk_start w) (wk_visited w) true = w.
Proof. destruct w. cbn. by intros ->. Qed.

Lemma walk_loop_ok fuel limit (wrapped : bool) w saved now s :
  unsaved_ok saved now s -> sorted_recs now -> wk_go w = true ->
  (limit - wk_visited w + (if wrapped then 0 else 1) < fuel)%nat ->
  exists w' s', walk_loop visit fuel limit wrapped w s = (Ok w', s') /\ outcome w' = to_visit limit wrapped now w /\
    unsaved_ok saved now s' /\ same_files s s'.
Proof.
  intros Hu Hs. revert wrapped w s Hu. induction fuel as [|fuel IH]; intros wrapped w s Hu Hgo Hf; [lia|].
  cbn [walk_loop]. destruct (Nat.leb_spec limit (wk_visited w)) as [Hl|Hl].
  { exists w, s. split; [done|]. split; [by rewrite to_visit_none|]. split; [done | apply same_files_refl]. }
  destruct (unsaved_next saved now s (wk_after w) (Nat.min scan_page (limit - wk_visited w)) Hu) as (s1 & E & Hu1 & Hf1).
  rewrite (st_bind_ok _ _ _ _ _ E). set (k := Nat.min scan_page (limit - wk_visited w)).
  assert (0 < k <= limit - wk_visited w)%nat as Hk by (unfold k, scan_page; lia). clearbody k.
  destruct (take k (after_bound (wk_after w) now)) as [|r page] eqn:Ep.
  - assert (after_bound (wk_after w) now = []) as En.
    { destruct (after_bound (wk_after w) now); [done|]. destruct k; [lia | done]. }
    assert (wrapped = true \/ wk_after w = None -> to_visit limit wrapped now w = outcome w) as Hstop.
    { intros Hor. unfold to_visit. by rewrite ahead_end, take_nil. }
    destruct wrapped; [by exists w, s1; rewrite Hstop by auto|].
    destruct (wk_after w) as [a|] eqn:Ea; [|by exists w, s1; rewrite Hstop by auto].
    destruct (IH true (mkWalk (wk_acc w) (wk_cursor w) None (wk_start w) (wk_visited w) true) s1 Hu1)
      as (w' & s' & E' & Eo & Hu' & Hf'); [done | cbn; lia |].
    exists w', s'. split; [done|]. split; [|split; [done | by eapply same_files_trans]].
    rewrite Eo, to_visit_wrap by (rewrite Ea; done). by rewrite walk_eta.
  - assert (page_good limit wrapped now w (walk_page visit wrapped (r :: page) w)) as Hgood.
    { pose proof (take_drop k (after_bound (wk_after w) now)) as Htd. rewrite Ep in Htd. symmetry in Htd.
      assert (length (r :: page) <= limit - wk_visited w)%nat as Hlen by (rewrite <- Ep, length_take; lia).
      destruct wrapped; [destruct (wk_start w) eqn:Est|];
        [eapply page_round | eapply page_first | eapply page_out]; done. }
    unfold page_good in Hgood. destruct (wk_go (walk_page visit wrapped (r :: page) w)) eqn:Ego.
    + destruct Hgood as [Hg Hv]. destruct (IH wrapped _ s1 Hu1 Ego) as (w' & s' & E' & Eo & Hu' & Hf'); [lia|].
      exists w', s'. split; [done|]. split; [by rewrite Eo|]. split; [done | by eapply same_files_trans].
    + by exists (walk_page visit wrapped (r :: page) w), s1.
Qed.

(** A scan visits the records of the rotation from the cursor, up to the
    limit. *)
Lemma scan_locked_ok cursor limit acc saved now s :
  unsaved_ok saved now s -> sorted_recs now ->
  exists s', scan_locked visit cursor limit acc s = (Ok (visit_all (take limit (rotation cursor now)) acc cursor), s') /\
    unsaved_ok saved now s' /\ same_files s s'.
Proof.
  intros Hu Hs. unfold scan_locked.
  destruct (walk_loop_ok (S (S limit)) limit false (mkWalk acc cursor cursor None 0 true) saved now s Hu Hs)
    as (w & s' & E & Eo & Hu' & Hf'); [done | cbn; lia|].
  exists s'. rewrite (st_bind_ok _ _ _ _ _ E). split; [|done]. unfold to_visit in Eo. cbn [wk_visited wk_after wk_start] in Eo.
  rewrite Nat.sub_0_r in Eo. unfold visit_all, rotation. by rewrite <- Eo.
Qed.
End loop.
End walk.

(** ** What the two walks pick *)

Lemma release_picks live budget l cursor :
  (0 < budget)%nat ->
  (visit_all (release_visit live budget) l [] cursor).1 =
  take budget (base.filter (fun r : Rec => claimed r.2 && negb (live r.1) = true) l).*1.
Proof.
  intros Hb. unfold visit_all. cbn [outcome fst].
  enough (forall w, (length (wk_acc w) < budget)%nat ->
    wk_acc (walk_page (release_visit live budget) false l w) =
    wk_acc w ++ take (budget - length (wk_acc w)) (base.filter (fun r : Rec => claimed r.2 && negb (live r.1) = true) l).*1) as Hgen.
  { rewrite Hgen by done. cbn. by rewrite Nat.sub_0_r. }
  induction l as [|[id bs] l IH]; intros w Hw; cbn [walk_page andb]; [cbn; by rewrite take_nil, app_nil_r|].
  rewrite filter_cons. cbn [fst snd]. unfold release_visit at 1.
  destruct (claimed bs && negb (live id)) eqn:Ec.
  - rewrite decide_True by done. cbn [fmap list_fmap fst]. rewrite length_app. cbn [length].
    replace (budget - length (wk_acc w))%nat with (S (budget - S (length (wk_acc w)))) by lia. cbn [take].
    destruct (Nat.ltb_spec (length (wk_acc w) + 1) budget) as [Hlt|Hge].
    + rewrite IH by (cbn; rewrite length_app; cbn; lia). cbn [wk_acc]. rewrite length_app. cbn [length].
      rewrite <- app_assoc. cbn [app]. do 3 f_equal. lia.
    + cbn [wk_acc]. by replace (budget - S (length (wk_acc w)))%nat with 0%nat by lia.
  - rewrite decide_False by done. rewrite (proj2 (Nat.ltb_lt _ _)) by done. by rewrite IH.
Qed.

Lemma prune_picks l cursor :
  (visit_all prune_visit l [] cursor).1 = (base.filter (fun r : Rec => claimed r.2 = false) l).*1.
Proof.
  unfold visit_all. cbn [outcome fst].
  enough (forall w, wk_acc (walk_page prune_visit false l w) =
    wk_acc w ++ (base.filter (fun r : Rec => claimed r.2 = false) l).*1) as Hgen by (by rewrite Hgen).
  induction l as [|[id bs] l IH]; intros w; cbn [walk_page andb]; [by rewrite app_nil_r|].
  rewrite filter_cons. cbn [fst snd prune_visit]. rewrite IH. cbn [wk_acc].
  destruct (claimed bs); [by rewrite decide_False|]. rewrite decide_True by done. by rewrite <- app_assoc.
Qed.

Lemma rotation_nil cursor : rotation cursor [] = [].
Proof. unfold rotation, ahead. destruct cursor; [|done]. cbn [after_bound]. by rewrite filter_nil. Qed.

Lemma rotation_elem cursor now r : r ∈ rotation cursor now -> r ∈ now.
Proof.
  assert (forall a l, after_bound a l ⊆ l) as Ha.
  { intros [a|] l x; [|done]. cbn [after_bound]. rewrite list_elem_of_filter. tauto. }
  assert (forall st l, before st l ⊆ l) as Hb by (intros st l x; unfold before; rewrite list_elem_of_filter; tauto).
  unfold rotation, ahead. destruct (after_bound cursor now) as [|x rest] eqn:E.
  - destruct cursor; [|by intros ?%not_elem_of_nil]. intros Hr.
    rewrite <- (take_drop 1 now), elem_of_app. by left.
  - rewrite <- E, elem_of_app. intros [Hr|Hr]; [by eapply Ha | by eapply Hb].
Qed.

Lemma filter_iff_in {A} (P Q : A -> Prop) `{!forall x, Decision (P x), !forall x, Decision (Q x)} (l : list A) :
  (forall x, x ∈ l -> P x <-> Q x) -> base.filter P l = base.filter Q l.
Proof.
  induction l as [|x l IH]; intros Hpq; [done|]. rewrite !filter_cons, IH by (intros y Hy; apply Hpq; by right).
  pose proof (Hpq x ltac:(by left)). destruct (decide (P x)), (decide (Q x)); tauto.
Qed.

(** With a record after the cursor every record is visited, once. *)
Lemma rotation_perm cursor now :
  sorted_recs now -> after_bound cursor now <> [] -> rotation cursor now ≡ₚ now.
Proof.
  intros Hs Hne. unfold rotation, ahead. destruct (after_bound cursor now) as [|x rest] eqn:E; [done|]. rewrite <- E.
  destruct cursor as [a|]; cbn [after_bound] in *.
  - assert (before x.1 now = base.filter (fun r : Rec => ~ key_lt a r.1) now) as ->.
    { apply filter_iff_in. intros r Hr. assert (sorted_recs (x :: rest)) as Hsx by (rewrite <- E; by apply sorted_recs_filter).
      destruct x as [k v]. apply sorted_recs_cons in Hsx as [Hx _]. split.
      - intros Hrx Har. assert (r ∈ (k, v) :: rest) as Hin by (rewrite <- E, list_elem_of_filter; done).
        apply elem_of_cons in Hin as [->|Hin]; [by apply (key_lt_irrefl k)|]. rewrite Forall_forall in Hx.
        apply (key_lt_irrefl k). transitivity r.1; [by apply Hx | done].
      - intros Har. assert (key_lt a k) as Hak.
        { assert ((k, v) ∈ base.filter (fun r : Rec => key_lt a r.1) now) as Hk by (rewrite E; by left).
          by apply list_elem_of_filter in Hk as [? _]. }
        destruct (key_trichotomy r.1 a) as [?|[->|?]]; [by transitivity a | done | done]. }
    apply filter_app_complement.
  - subst now. destruct x as [k v]. apply sorted_recs_cons in Hs as [Hx _]. unfold before.
    rewrite list_filter_none; [by rewrite app_nil_r|]. constructor; [apply key_lt_irrefl|].
    eapply Forall_impl; [exact Hx|]. intros y Hy Hy'. cbn in *. apply (key_lt_irrefl k). by transitivity y.1.
Qed.
