(* ===== verification/RetentionClaims.v ===== *)
(** * The retention store: the theorems

    What retaining and releasing do to the claims, that they are durable when
    they return, and that opening the store after a crash finds them. *)

From S2P Require Import Prelude Sorts Maps Codec Journal Trie ObjectTrie TrieShape TrieOps TrieChange TrieDisk TrieWire TrieLedger TrieClaims Retention RetentionSet RetentionStore RetentionScan.
Import Retention.

(** ** The store at rest *)

(** Frames each of which the store could write where it stands. *)
Fixpoint frames_ok (c : Contents) (frames : list Frame) : Prop :=
  match frames with
  | [] => True
  | f :: rest => frame_ok f c /\ log_fits f /\ frames_ok (frame_apply c f) rest
  end.

Definition replayed (c : Contents) (frames : list Frame) : Contents := foldl frame_apply c frames.

(** How many records they change. *)
Fixpoint changes_total (c : Contents) (frames : list Frame) : Z :=
  match frames with
  | [] => 0
  | f :: rest => Z.of_nat (length (frame_changes f c)) + changes_total (frame_apply c f) rest
  end.

Lemma frames_ok_app c a b : frames_ok c (a ++ b) <-> frames_ok c a /\ frames_ok (replayed c a) b.
Proof.
  revert c. induction a as [|f a IH]; intros c; simpl; [tauto|]. rewrite IH. unfold replayed. cbn [foldl]. tauto.
Qed.
Lemma changes_total_app c a b : changes_total c (a ++ b) = changes_total c a + changes_total (replayed c a) b.
Proof.
  revert c. induction a as [|f a IH]; intros c; simpl; [done|]. rewrite IH. unfold replayed. cbn [foldl]. lia.
Qed.
Lemma changes_total_nonneg c frames : 0 <= changes_total c frames.
Proof. revert c. induction frames as [|f frames IH]; intros c; simpl; [done|]. specialize (IH (frame_apply c f)). lia. Qed.
Lemma replayed_ok c frames : contents_ok c -> frames_ok c frames -> contents_ok (replayed c frames).
Proof.
  revert c. induction frames as [|f frames IH]; intros c Hc Hf; [done|]. destruct Hf as (H1 & _ & H2).
  unfold replayed. cbn [foldl]. apply IH; [by apply frame_apply_ok | done].
Qed.

Section store.
Context `{Sha256, AesGcm, !AesGcmSpec, Entropy, Footprint}.

(** The log holds exactly these frames, durably. *)
Record log_holds (frames : list Frame) (s : t) : Prop := {
  lh_frames : exists l, journal_holds (rs_journal s) l /\ Forall2 (fun p f => p.2 = log_bytes f) l frames;
  lh_key : SealedJournal.key (rs_journal s) = rs_key s;
  lh_aad : SealedJournal.aad (rs_journal s) = journal_aad;
  lh_max : SealedJournal.max_frame (rs_journal s) = max_journal_frame;
  lh_synced : synced (rs_journal s)
}.

(** An open store between operations: tries as saved, with the log's frames
    applied over them; neither enough changes nor enough log for a
    checkpoint. *)
Record store_ok (saved : Contents) (frames : list Frame) (s : t) : Prop := {
  sk_saved : contents_ok saved;
  sk_frames : frames_ok saved frames;
  sk_holds : store_holds saved (replayed saved frames) s;
  sk_log : log_holds frames s;
  sk_changed : rs_changed s = changes_total saved frames;
  sk_few : changes_total saved frames < checkpoint_changed;
  sk_short : Z.of_nat (length (SealedJournal.contents (rs_journal s))) < checkpoint_journal_bytes;
  sk_marker : rs_marker s = true;
  sk_key : forall type, ObjectTrie.key (cl_trie (class_for type s)) = rs_key s
}.

Lemma log_holds_same frames s s' : log_holds frames s -> store_same s s' -> log_holds frames s'.
Proof. intros [H1' H2' H3' H4' H5'] (Ej & Ek & _). split; rewrite ?Ej, ?Ek; done. Qed.

Lemma class_set_journal type j s : class_for type (set_journal j s) = class_for type s.
Proof. by destruct type. Qed.

Lemma log_append_ok frames f s :
  log_holds frames s -> log_fits f ->
  exists j, on_journal (SealedJournal.append (log_bytes f)) s = (Ok tt, set_journal j s) /\
    log_holds (frames ++ [f]) (set_journal j s).
Proof.
  intros [(l & Hl & Hp) Hk Ha Hm Hs] Hf.
  destruct (append_spec (rs_journal s) l (log_bytes f) Hl) as (j & E & Hj & Hd & Jk & Ja & Jm); [by rewrite Hm|].
  exists j. unfold on_journal. rewrite E. split; [done|].
  split; cbn [set_journal rs_journal rs_key]; [|congruence|congruence|congruence|exact Hd].
  eexists. split; [exact Hj|]. apply Forall2_app; [done|]. by constructor.
Qed.

(** *** Checkpoints *)

(** Room in both node files for the records saved and those there now. *)
Definition trie_room (saved now : list Rec) (s : ObjectTrie.t) : Prop :=
  shallow saved /\ shallow now /\
  SealedJournal.bytes (ObjectTrie.nodes s) + 3 * room 32 (length saved + length now) < unsaved /\
  ObjectTrie.generation s + 2 < 2 ^ 64.
Definition store_room (saved now : Contents) (s : t) : Prop :=
  forall type, trie_room (of_class type saved) (of_class type now) (cl_trie (class_for type s)).

(** And for opening them again. *)
Definition open_room (saved : Contents) (s : t) : Prop :=
  forall type, room_for (of_class type saved) [] (cl_trie (class_for type s)).

Lemma room_for_nil records s :
  shallow records -> SealedJournal.bytes (ObjectTrie.nodes s) + room 32 (length records) < unsaved ->
  ObjectTrie.generation s + 1 < 2 ^ 64 -> room_for records [] s.
Proof. intros Hs Hr Hg. split; [intros n; by rewrite take_nil | simpl; by rewrite Nat.add_0_r | done]. Qed.

Lemma trie_room_open saved now s : trie_room saved now s -> room_for saved [] s.
Proof. intros (Hs & _ & Hr & Hg). apply room_for_nil; [done | unfold room in *; lia | lia]. Qed.
Lemma trie_room_capacity saved now s : trie_room saved now s -> capacity now s.
Proof. intros (_ & Hs & Hr & Hg). split; [done|]. split; [unfold room in *; lia | lia]. Qed.
Lemma trie_room_saved saved now s s' :
  trie_room saved now s -> ObjectTrie.generation s' <= ObjectTrie.generation s + 1 ->
  SealedJournal.bytes (ObjectTrie.nodes s') <= SealedJournal.bytes (ObjectTrie.nodes s) + 2 * room 32 (length now) ->
  room_for now [] s'.
Proof. intros (_ & Hs & Hr & Hg) Hg' Hb. apply room_for_nil; [done | unfold room in *; lia | lia]. Qed.

Lemma trie_checkpoint_ok type saved saved0 now s :
  store_holds saved now s -> trie_room saved0 (of_class type now) (cl_trie (class_for type s)) ->
  exists s', on_trie type ObjectTrie.checkpoint s = (Ok tt, s') /\
    store_holds (set_contents type (of_class type now) saved) now s' /\
    rs_journal s' = rs_journal s /\ rs_key s' = rs_key s /\ rs_marker s' = rs_marker s /\
    (forall type', ObjectTrie.key (cl_trie (class_for type' s')) = ObjectTrie.key (cl_trie (class_for type' s))) /\
    room_for (of_class type now) [] (cl_trie (class_for type s')) /\
    (forall type', type' <> type -> cl_trie (class_for type' s') = cl_trie (class_for type' s)).
Proof.
  intros Hs Hcap.
  destruct (unsaved_checkpoint _ _ _ (Hs type) (trie_room_capacity _ _ _ Hcap)) as (trie & E & Hu & Ek & Eg & Eb).
  unfold on_trie. rewrite E. eexists. split; [reflexivity|]. split_and!; try by destruct type.
  - intros type'. rewrite class_set_trie, of_set_contents. destruct (decide (type' = type)) as [->|]; [done | apply Hs].
  - intros type'. rewrite class_set_trie. by destruct (decide (type' = type)) as [->|].
  - rewrite class_set_trie, decide_True by done. by eapply trie_room_saved.
  - intros type' Hne. by rewrite class_set_trie, decide_False.
Qed.

Lemma reset_holds s frames : log_holds frames s -> log_holds [] (set_journal (SealedJournal.reset (rs_journal s)) s).
Proof.
  intros [(l & [[Hb Hlim Hd] _ _] & _) Hk Ha Hm _]. split; try done. exists []. split; [|constructor].
  split; [split; [done | done | cbn; lia] | done | constructor].
Qed.

Lemma checkpoint_locked_ok saved frames now s :
  store_holds saved now s -> contents_ok now -> log_holds frames s -> store_room saved now s -> rs_marker s = true ->
  (forall type, ObjectTrie.key (cl_trie (class_for type s)) = rs_key s) ->
  exists s', checkpoint_locked s = (Ok tt, s') /\ store_ok now [] s' /\ open_room now s' /\ rs_key s' = rs_key s.
Proof.
  intros Hs Hc Hl Hr Hm Hk. unfold checkpoint_locked.
  destruct (trie_checkpoint_ok Data saved _ now s Hs (Hr Data)) as (s1 & E1 & Hs1 & J1 & K1 & M1 & TK1 & R1 & T1).
  rewrite (st_bind_ok _ _ _ _ _ E1).
  destruct (trie_checkpoint_ok Control _ (of_class Control saved) now s1 Hs1) as (s2 & E2 & Hs2 & J2 & K2 & M2 & TK2 & R2 & T2).
  { rewrite T1 by done. apply Hr. }
  rewrite (st_bind_ok _ _ _ _ _ E2).
  assert (log_holds frames s2) as Hl2.
  { destruct Hl as [L1 L2 L3 L4 L5]. split; rewrite ?J2, ?J1, ?K2, ?K1; done. }
  eexists. split; [reflexivity|]. split; [|split; [|cbn; congruence]].
  - destruct (reset_holds s2 frames Hl2) as [L1 L2 L3 L4 L5]. split.
    + done.
    + done.
    + intros type. specialize (Hs2 type). destruct type; exact Hs2.
    + by split.
    + done.
    + done.
    + done.
    + cbn. by rewrite M2, M1.
    + intros type. cbn. rewrite K2, K1, <- (Hk type), <- TK1, <- TK2. by destruct type.
  - intros [|]; [|done]. rewrite <- (T2 Data) in R1 by done. done.
Qed.

(** After an operation's frame is logged and applied: a checkpoint, or none. *)
Lemma settle_ok saved frames f now s :
  contents_ok saved -> frames_ok saved frames -> now = replayed saved frames -> frame_ok f now -> log_fits f ->
  store_holds saved (frame_apply now f) s -> log_holds (frames ++ [f]) s -> store_room saved (frame_apply now f) s ->
  rs_changed s = changes_total saved (frames ++ [f]) -> rs_marker s = true ->
  (forall type, ObjectTrie.key (cl_trie (class_for type s)) = rs_key s) ->
  exists saved' frames' s', checkpoint_if_due_locked s = (Ok tt, s') /\ store_ok saved' frames' s' /\
    replayed saved' frames' = frame_apply now f /\ open_room saved' s' /\ rs_key s' = rs_key s.
Proof.
  intros Hsv Hfs -> Hf Hlog Hs Hl Hr Hch Hm Hk. unfold checkpoint_if_due_locked.
  rewrite (st_bind_ok _ _ _ s s) by done.
  assert (frames_ok saved (frames ++ [f])) as Hfs' by (apply frames_ok_app; simpl; auto).
  assert (replayed saved (frames ++ [f]) = frame_apply (replayed saved frames) f) as Er by (unfold replayed; by rewrite foldl_app).
  destruct (_ || _) eqn:E.
  - destruct (checkpoint_locked_ok saved (frames ++ [f]) (frame_apply (replayed saved frames) f) s) as (s' & E' & Hs'); try done.
    { rewrite <- Er. by apply replayed_ok. }
    exists (frame_apply (replayed saved frames) f), [], s'. split; [done|]. destruct Hs' as (? & ? & ?). done.
  - apply orb_false_iff in E as [E1%Z.leb_gt E2%Z.leb_gt]. exists saved, (frames ++ [f]), s.
    split; [done|]. split; [|split; [done|]; split; [|done]]; [|intros type; by eapply trie_room_open, Hr].
    split; try done.
    + by rewrite Er.
    + by rewrite <- Hch.
    + destruct (lh_frames _ _ Hl) as (l & [[Hb _ _] _ _] & _). by rewrite <- Hb.
Qed.
(** *** A frame logged and applied *)

Lemma frame_changes_few f c : log_fits f -> Z.of_nat (length (frame_changes f c)) <= 1000000.
Proof.
  intros Hf%log_fits_ids. pose proof (sort_unique_length (frame_ids f)).
  pose proof (changes_for_length (frame_update f) (of_class (frame_class f) c) (sort_unique (frame_ids f))).
  unfold frame_changes. lia.
Qed.

(** The log has the frame and the tries its changes; a checkpoint may be due. *)
Record settling (saved : Contents) (frames : list Frame) (f : Frame) (s : t) : Prop := {
  se_holds : store_holds saved (frame_apply (replayed saved frames) f) s;
  se_log : log_holds (frames ++ [f]) s;
  se_changed : rs_changed s = changes_total saved (frames ++ [f]);
  se_marker : rs_marker s = true;
  se_key : forall type, ObjectTrie.key (cl_trie (class_for type s)) = rs_key s
}.

Lemma logged_ok saved frames f s :
  store_ok saved frames s -> frame_ok f (replayed saved frames) -> log_fits f ->
  exists j s', log_frame f = Ok (log_bytes f) /\
    on_journal (SealedJournal.append (log_bytes f)) s = (Ok tt, set_journal j s) /\
    (changes ← on_trie (frame_class f) (foldM (frame_step f) [] (sort_unique (frame_ids f)));
     install_changes (frame_class f) changes) (set_journal j s)
      = (Ok (Z.of_nat (length (frame_changes f (replayed saved frames)))), s') /\
    apply_frame f (set_journal j s) = (Ok tt, s') /\
    settling saved frames f s' /\ store_same (set_journal j s) s'.
Proof.
  intros Hk Hf Hl. destruct (log_append_ok frames f s (sk_log _ _ _ Hk) Hl) as (j & Ej & Hj).
  assert (store_holds saved (replayed saved frames) (set_journal j s)) as Hs1.
  { intros type. rewrite class_set_journal. apply Hk. }
  assert (contents_ok (replayed saved frames)) as Hc by (apply replayed_ok; apply Hk).
  destruct (frame_steps_ok saved _ f _ Hs1 Hc Hf) as (s' & E & Hs' & Hsame & Ech).
  exists j, s'. split; [by apply log_frame_ok|]. split; [done|]. split; [done|]. split; [by eapply apply_steps|]. split; [|done].
  pose proof Hsame as (S1 & S2 & S3 & S4 & S5). split; [done | by eapply log_holds_same | | |].
  - rewrite Ech, changes_total_app. cbn [changes_total rs_changed set_journal]. rewrite (sk_changed _ _ _ Hk), Z.add_0_r.
    pose proof (frame_changes_few f (replayed saved frames) Hl). pose proof (sk_few _ _ _ Hk).
    pose proof (changes_total_nonneg saved frames). apply wrap64_small. unfold checkpoint_changed in *. lia.
  - rewrite S3. apply Hk.
  - intros type. rewrite S2. destruct (S5 type) as [-> _]. rewrite class_set_journal. apply Hk.
Qed.
(** *** Crashes *)

(** What a crash leaves of the store's files. *)
Definition store_crash (s : t) (disk : Disk) : Prop :=
  ObjectTrie.crash (cl_trie (rs_data s)) (rd_data disk) /\
  ObjectTrie.crash (cl_trie (rs_control s)) (rd_control disk) /\
  SealedJournal.crash_file (rs_journal s) (rd_journal disk) /\
  rd_marker disk = rs_marker s /\ rd_legacy disk = rs_legacy s.

Lemma replay_claim_frames_ok saved c frames l s :
  Forall2 (fun (p : array 12 * Bytes) f => p.2 = log_bytes f) l frames -> frames_ok c frames -> contents_ok c ->
  store_holds saved c s -> 0 <= rs_changed s -> rs_changed s + changes_total c frames < 2 ^ 64 ->
  exists s', apply_frames replay_frame l s = (Ok tt, s') /\ store_holds saved (replayed c frames) s' /\ store_same s s' /\
    rs_changed s' = rs_changed s + changes_total c frames.
Proof.
  intros Hl. revert c s. induction Hl as [|p f l frames Hp Hl IH]; intros c s Hf Hc Hs Hz Hn.
  { exists s. split; [done|]. split; [done|]. split; [apply store_same_refl|]. cbn. lia. }
  destruct Hf as (Hf & Hfit & Hfs). cbn [changes_total] in Hn. pose proof (changes_total_nonneg (frame_apply c f) frames).
  destruct (apply_frame_ok saved c f s Hs Hc Hf) as (s1 & E1 & Hs1 & Hsame1 & Ech1).
  rewrite wrap64_small in Ech1 by lia.
  destruct (IH (frame_apply c f) s1) as (s2 & E2 & Hs2 & Hsame2 & Ech2); [done | by apply frame_apply_ok | done | lia | lia|].
  exists s2. destruct p as [nonce plain]. cbn [snd] in Hp. subst plain. cbn [apply_frames]. unfold replay_frame at 1.
  rewrite (decode_frame_ok f c Hf Hfit). rewrite (st_bind_ok _ _ _ f s) by done. rewrite E1.
  split; [done|]. split; [done|]. split; [by eapply store_same_trans | cbn [changes_total]; lia].
Qed.

Lemma log_replay_ok saved frames s s0 disk :
  store_ok saved frames s -> store_holds saved saved s0 -> store_crash s disk -> rs_changed s0 = 0 ->
  rs_journal s0 = SealedJournal.open (rd_journal disk) (rs_key s) journal_aad max_journal_frame -> rs_key s0 = rs_key s ->
  exists j s', load_journal_locked s0 = (Ok tt, set_journal j s') /\
    store_holds saved (replayed saved frames) s' /\ store_same s0 s' /\ rs_changed s' = changes_total saved frames /\
    log_holds frames (set_journal j s') /\ SealedJournal.contents j = SealedJournal.contents (rs_journal s).
Proof.
  intros Hk Hs0 (_ & _ & Hcr & _) Hch Hj0 Hk0. pose proof (sk_log _ _ _ Hk) as [(l & Hl & Hp) Lk La Lm Ls].
  pose proof (sk_short _ _ _ Hk) as Hshort. pose proof (sk_few _ _ _ Hk) as Hfew.
  destruct (replay_claim_frames_ok saved saved frames l s0 Hp (sk_frames _ _ _ Hk) (sk_saved _ _ _ Hk) Hs0)
    as (s' & E & Hs' & Hsame & Hn); [lia | rewrite Hch; unfold checkpoint_changed in *; lia |].
  destruct (crash_replay_within replay_frame max_legacy_frame (rs_journal s) l (rd_journal disk) s0 s' Hl)
    as (kept & lost & s2 & j & El & Hrep & Ha & Hj & Hmax & Kk & Ka & Km & Kd).
  { rewrite Lm. done. }
  { unfold checkpoint_journal_bytes, u64_max in *. lia. }
  { done. }
  { done. }
  assert (l `prefix_of` kept) as Hpre.
  { apply (Hmax l []); [by rewrite app_nil_r|]. rewrite Ls. by rewrite (jh_contents _ _ Hl). }
  assert (kept = l) as ->.
  { apply (anti_symm prefix); [|done]. by exists lost. }
  rewrite E in Ha. injection Ha as <-. exists j, s'. unfold load_journal_locked. rewrite Hj0, <- Lk, <- La, <- Lm, Hrep.
  split; [done|]. split; [done|]. split; [done|]. split; [by rewrite Hn, Hch|].
  split; [|by rewrite (jh_contents _ _ Hj), (jh_contents _ _ Hl), Kk, Ka].
  destruct Hsame as (_ & Ek & _). split; cbn; [by exists l | by rewrite Kk, Lk, Ek, Hk0 | by rewrite Ka | by rewrite Km | done].
Qed.

Lemma store_open saved frames s disk cache :
  store_ok saved frames s -> open_room saved s -> store_crash s disk ->
  exists s', open disk (rs_key s) cache = Ok s' /\ store_ok saved frames s' /\ rs_key s' = rs_key s.
Proof.
  intros Hk Hr Hcr. pose proof Hcr as (Hc1 & Hc2 & _ & Hm & _).
  pose proof (sk_key _ _ _ Hk) as Hkey.
  destruct (unsaved_open _ _ _ _ (options_with (cache - cache / 4)) (sk_holds _ _ _ Hk Data) Hc1 (Hr Data))
    as (data & E1 & Hu1 & K1); [done|].
  destruct (unsaved_open _ _ _ _ (options_with (cache / 4)) (sk_holds _ _ _ Hk Control) Hc2 (Hr Control))
    as (control & E2 & Hu2 & K2); [done|].
  rewrite (Hkey Data) in E1, K1. rewrite (Hkey Control) in E2, K2.
  unfold open. rewrite E1. cbn [mbind result_bind]. rewrite E2. cbn [mbind result_bind].
  set (s0 := mk _ _ _ _ _ _ _).
  assert (store_holds saved saved s0) as Hs0 by (by intros [|]).
  destruct (log_replay_ok saved frames s s0 disk Hk Hs0 Hcr) as (j & s1 & E & Hs1 & Hsame & Hn & Hl & Hcont); [done..|].
  pose proof Hsame as (_ & Ek & Em & _ & Et). rewrite Hm, (sk_marker _ _ _ Hk).
  exists (set_journal j s1).
  rewrite (st_bind_ok _ _ _ tt s0) by done. rewrite (st_bind_ok _ _ _ _ _ E).
  assert (SealedJournal.bytes j = Z.of_nat (length (SealedJournal.contents j))) as Hb.
  { destruct (lh_frames _ _ Hl) as (l & [[Hb _ _] _ _] & _). exact Hb. }
  unfold checkpoint_if_due_locked. rewrite (st_bind_ok _ _ _ (set_journal j s1) (set_journal j s1)) by done.
  cbn [set_journal rs_changed rs_journal]. rewrite Hn, Hb, Hcont.
  rewrite (proj2 (Z.leb_gt checkpoint_changed _)) by apply Hk.
  rewrite (proj2 (Z.leb_gt checkpoint_journal_bytes _)) by apply Hk.
  split; [done|]. split; [|done].
  split; cbn [set_journal rs_changed rs_journal rs_marker rs_key]; rewrite ?Hcont.
  - apply Hk.
  - apply Hk.
  - intros type. rewrite class_set_journal. apply Hs1.
  - done.
  - done.
  - apply Hk.
  - apply Hk.
  - rewrite Em. cbn. rewrite Hm. apply Hk.
  - intros type. rewrite class_set_journal. destruct (Et type) as [-> _]. rewrite Ek. by destruct type.
Qed.

(** ** What the store shows *)

(** The state of an object. *)
Definition claims_in (c : Contents) (type : RetentionClass) (id : ObjectId) : ObjectState :=
  state_of (alookup id (of_class type c)).

Definition View : Type := RetentionClass -> ObjectId -> ObjectState.

(** Every object's claims read as the view has them. *)
Definition shows (s : t) (view : View) : Prop :=
  forall type id,
    (exists s', claims type id s = (Ok (view type id), s')) /\
    (exists s', retained type id s = (Ok (negb (bool_decide (adds (view type id) = []))), s')).

(** And still do after any crash, once the store is opened again. *)
Definition shows_durably (s : t) (view : View) : Prop :=
  shows s view /\
  forall disk cache, store_crash s disk -> exists s', open disk (rs_key s) cache = Ok s' /\ shows s' view.

Lemma shows_ext s view view' : shows s view -> (forall type id, view type id = view' type id) -> shows s view'.
Proof. intros Hs E type id. rewrite <- E. apply Hs. Qed.
Lemma shows_durably_ext s view view' :
  shows_durably s view -> (forall type id, view type id = view' type id) -> shows_durably s view'.
Proof.
  intros [Hs Hd] E. split; [by eapply shows_ext|]. intros disk cache Hc. destruct (Hd disk cache Hc) as (s' & Eo & Hs').
  exists s'. split; [done | by eapply shows_ext].
Qed.

Lemma holds_shows saved now s : store_holds saved now s -> contents_ok now -> shows s (claims_in now).
Proof.
  intros Hs Hc type id.
  destruct (Hc type) as [Hwf Hin]. destruct (unsaved_get _ _ _ id (Hs type)) as (trie & E & _).
  destruct (state_of_ok _ id (wf_sorted _ _ Hwf) Hin) as (Hok & Hdec & Hfit).
  unfold claims, retained, on_trie, claims_in, mbind, st_bind. rewrite E. split.
  - rewrite Hdec. eexists. reflexivity.
  - eexists. set (view := state_of _) in *.
    assert (match alookup id (of_class type now) with Some bytes => claimed bytes | None => false end
            = negb (bool_decide (adds view = []))) as ->; [|reflexivity].
    unfold view in *. destruct (alookup id _) as [bs|]; [|done].
    destruct (Hfit bs eq_refl) as [Hf Eb]. rewrite Eb at 1. by apply claimed_state.
Qed.

Lemma store_shows saved frames s : store_ok saved frames s -> shows s (claims_in (replayed saved frames)).
Proof. intros Hk. apply (holds_shows saved); [apply Hk | apply replayed_ok; apply Hk]. Qed.

Lemma store_durably saved frames s :
  store_ok saved frames s -> open_room saved s -> shows_durably s (claims_in (replayed saved frames)).
Proof.
  intros Hk Hr. split; [by apply store_shows|]. intros disk cache Hc.
  destruct (store_open saved frames s disk cache Hk Hr Hc) as (s' & E & Hk' & _). exists s'. split; [done | by apply store_shows].
Qed.

(** *** What the frames do to it *)

Lemma claims_in_frame f c type id :
  contents_ok c ->
  claims_in (frame_apply c f) type id =
  if decide (type = frame_class f /\ id ∈ frame_ids f) then
    state_of (default (alookup id (of_class type c)) (frame_update f (alookup id (of_class type c))))
  else claims_in c type id.
Proof.
  intros Hc. unfold claims_in, frame_apply. rewrite of_set_contents. destruct (Hc (frame_class f)) as [Hwf _].
  destruct (sort_unique_ok (frame_ids f)) as [Hsu Hin]. destruct (decide (type = frame_class f)) as [->|Hne].
  - unfold frame_changes. rewrite updated_lookup by (done || apply Hwf).
    destruct (decide (id ∈ sort_unique (frame_ids f))) as [Hid|Hid]; rewrite Hin in Hid.
    + by rewrite decide_True.
    + rewrite decide_False by tauto. done.
  - by rewrite decide_False by tauto.
Qed.

Lemma state_of_bytes s : state_fits s -> state_of (Some (state_bytes s)) = s.
Proof. intros Hs. unfold state_of. cbn [decode_record]. by rewrite decode_state_ok. Qed.

(** What a record's update writes reads back as the new state. *)
Lemma frame_written f c type id s :
  contents_ok c -> frame_ok f c -> type = frame_class f -> id ∈ frame_ids f ->
  frame_update f (alookup id (of_class type c)) = Some (Some (state_bytes s)) -> state_ok s ->
  state_of (Some (state_bytes s)) = s.
Proof.
  intros Hc Hf -> Hid Hu Hs. apply state_of_bytes. split; [done|]. pose proof (fk_fits _ _ Hf) as Hfit.
  rewrite Forall_forall in Hfit. apply (Hfit (mkChange id (Some (state_bytes s)))).
  unfold frame_changes, changes_for. apply list_elem_of_In, in_flat_map. exists id. split.
  - apply list_elem_of_In. by apply sort_unique_ok.
  - unfold selected. rewrite Hu. by left.
Qed.

Lemma claims_in_ok c type id : contents_ok c -> state_ok (claims_in c type id).
Proof. intros Hc. destruct (Hc type) as [Hwf Hin]. apply state_of_ok; [apply Hwf | done]. Qed.

Lemma add_view c type dot ids type' id :
  contents_ok c -> frame_ok (AddFrame type dot ids) c ->
  claims_in (frame_apply c (AddFrame type dot ids)) type' id =
  if decide (type' = type /\ id ∈ ids) then op_apply (claims_in c type' id) (OpAdd dot) else claims_in c type' id.
Proof.
  intros Hc Hf. rewrite claims_in_frame by done. cbn [frame_class frame_ids frame_update].
  destruct (decide _) as [[-> Hid]|]; [|done]. cbn [op_apply]. unfold add_update.
  fold (claims_in c type id). destruct (add_claim dot (claims_in c type id)) as [s|] eqn:E; [|done].
  cbn [from_option Datatypes.id]. eapply (frame_written _ c type id); try done.
  - cbn [frame_update]. unfold add_update. fold (claims_in c type id). by rewrite E.
  - pose proof (op_says (OpAdd dot) _ _ _ (fk_says _ _ Hf) (says_self _ (claims_in_ok c type id Hc))) as [Hs _].
    cbn [op_apply] in Hs. by rewrite E in Hs.
Qed.

Lemma release_view c type observed ids type' id :
  contents_ok c -> frame_ok (ReleaseFrame type observed ids) c ->
  (forall id, id ∈ ids -> alookup id (of_class type c) <> None) ->
  claims_in (frame_apply c (ReleaseFrame type observed ids)) type' id =
  if decide (type' = type /\ id ∈ ids) then op_apply (claims_in c type' id) (OpRelease observed) else claims_in c type' id.
Proof.
  intros Hc Hf Hp. rewrite claims_in_frame by done. cbn [frame_class frame_ids frame_update].
  destruct (decide _) as [[-> Hid]|]; [|done]. cbn [op_apply]. unfold release_update.
  destruct (alookup id (of_class type c)) as [bs|] eqn:Ea; [|by destruct (Hp id Hid)].
  assert (claims_in c type id = state_of (Some bs)) as Ec by (unfold claims_in; by rewrite Ea). rewrite <- Ec.
  pose proof (claims_in_ok c type id Hc) as Hok.
  pose proof (op_says (OpRelease observed) _ _ _ (fk_says _ _ Hf) (says_self _ Hok)) as [Hs _]. cbn [op_apply] in Hs.
  destruct (release_claims observed (claims_in c type id)) as [s changed] eqn:E. cbn [fst] in *. destruct changed; cbn [from_option Datatypes.id fst].
  - eapply (frame_written _ c type id); try done. cbn [frame_update]. unfold release_update. by rewrite Ea, <- Ec, E.
  - rewrite <- Ec. symmetry. by apply (release_unchanged observed); [apply (fk_says _ _ Hf)| |].
Qed.

Lemma prune_view c type ids type' id :
  contents_ok c ->
  claims_in (frame_apply c (PruneFrame type ids)) type' id =
  if decide (type' = type /\ id ∈ ids /\ adds (claims_in c type' id) = []) then no_state else claims_in c type' id.
Proof.
  intros Hc. rewrite claims_in_frame by done. cbn [frame_class frame_ids frame_update]. unfold prune_update.
  destruct (Hc type') as [Hwf Hin]. destruct (state_of_ok _ id (wf_sorted _ _ Hwf) Hin) as (_ & _ & Hfit).
  unfold claims_in. destruct (decide (type' = type /\ id ∈ ids)) as [[-> Hid]|Hn].
  - destruct (alookup id (of_class type c)) as [bs|]; [|by destruct (decide _)].
    destruct (Hfit bs eq_refl) as [Hf Eb]. rewrite Eb at 2. rewrite claimed_state by done.
    destruct (decide (adds (state_of (Some bs)) = [])) as [En|En].
    + rewrite bool_decide_true by done. cbn [negb from_option Datatypes.id]. by rewrite decide_True.
    + rewrite bool_decide_false by done. cbn [negb from_option Datatypes.id]. rewrite decide_False by tauto. done.
  - rewrite decide_False by tauto. done.
Qed.

(** *** Operations *)

(** The store has room for a frame and what it changes. *)
Record writable (saved : Contents) (frames : list Frame) (f : Frame) (s : t) : Prop := {
  wr_frame : frame_ok f (replayed saved frames);
  wr_fits : log_fits f;
  wr_room : store_room saved (frame_apply (replayed saved frames) f) s
}.

Lemma store_room_same saved now s s' :
  store_room saved now s ->
  (forall type, same_files (cl_trie (class_for type s)) (cl_trie (class_for type s'))) -> store_room saved now s'.
Proof.
  intros Hr Hs type. specialize (Hr type). destruct (Hs type) as (_ & En & _ & Eg & _). unfold trie_room in *. by rewrite En, Eg.
Qed.

(** A checkpoint, or none, and the frame's changes are there for good. *)
Lemma settled saved frames f s s' :
  store_ok saved frames s -> writable saved frames f s -> settling saved frames f s' -> rs_key s' = rs_key s ->
  (forall type, same_files (cl_trie (class_for type s)) (cl_trie (class_for type s'))) ->
  exists saved' frames' s2, checkpoint_if_due_locked s' = (Ok tt, s2) /\ store_ok saved' frames' s2 /\
    shows_durably s2 (claims_in (frame_apply (replayed saved frames) f)) /\ rs_key s2 = rs_key s.
Proof.
  intros Hk [Hf Hl Hr] [S1 S2 S3 S4 S5] Ek Hsame.
  destruct (settle_ok saved frames f (replayed saved frames) s') as (saved' & frames' & s2 & E & Hk2 & Er & Ho & Ek2);
    try done; [apply Hk | apply Hk | by eapply store_room_same|].
  exists saved', frames', s2. split; [done|]. split; [done|]. split; [|congruence]. rewrite <- Er. by apply store_durably.
Qed.

Lemma retain_frame_ok saved frames type dot ids s :
  store_ok saved frames s -> writable saved frames (AddFrame type dot ids) s ->
  exists saved' frames' s', retain_frame type dot ids s = (Ok tt, s') /\ store_ok saved' frames' s' /\
    shows_durably s' (claims_in (frame_apply (replayed saved frames) (AddFrame type dot ids))) /\ rs_key s' = rs_key s.
Proof.
  intros Hk Hw. destruct (logged_ok saved frames _ s Hk (wr_frame _ _ _ _ Hw) (wr_fits _ _ _ _ Hw))
    as (j & s1 & Ef & Ej & _ & Ea & Hset & Hsame).
  destruct (settled saved frames _ s s1 Hk Hw Hset) as (saved' & frames' & s2 & Es & Hk2 & Hd & Ek).
  - by destruct Hsame as (_ & -> & _).
  - intros type'. destruct Hsame as (_ & _ & _ & _ & Ht). destruct (Ht type') as [_ Hf]. by rewrite class_set_journal in Hf.
  - exists saved', frames', s2. split; [|done]. unfold retain_frame. cbn [log_frame] in Ef. rewrite Ef.
    rewrite (st_bind_ok _ _ _ (log_bytes (AddFrame type dot ids)) s) by done. rewrite (st_bind_ok _ _ _ _ _ Ej).
    cbn [apply_frame] in Ea. by rewrite (st_bind_ok _ _ _ _ _ Ea).
Qed.

Lemma retain_batch_frame type input dot s :
  input <> [] -> dot_ok dot -> (length (sort_unique input) <= retain_ids_per_frame)%nat ->
  retain_batch type input dot s = retain_frame type dot (sort_unique input) s.
Proof.
  intros Hne [Ho Hn] Hl. unfold retain_batch. destruct input as [|i input]; [done|].
  unfold invalid_dot. rewrite bool_decide_false, (proj2 (Z.eqb_neq _ 0)) by (done || lia). cbn [orb].
  assert (i ∈ sort_unique (i :: input)) as Hi by (apply sort_unique_ok; by left).
  destruct (sort_unique (i :: input)) as [|x ids]; [by apply not_elem_of_nil in Hi|]. cbn [length ObjectTrie.chunks].
  rewrite take_ge, drop_ge by done.
  assert (ObjectTrie.chunks retain_ids_per_frame (length ids) (@nil ObjectId) = []) as -> by (by destruct ids).
  cbn [foldM]. unfold mbind, st_bind. by destruct (retain_frame type dot (x :: ids) s) as [[[]|] ?].
Qed.

(** C2. Retaining is durable when it returns. In an open store with room for
    it, a batch of ids (one frame of the log at most) is retained without an
    error; afterwards every object of the batch has the claim added to its
    claims, unless they already have it or know it released, every other
    object's claims are what they were, and the store opened again after any
    crash shows the same. *)
Theorem retain_is_durable saved frames type input dot s :
  store_ok saved frames s -> input <> [] ->
  (length (sort_unique input) <= retain_ids_per_frame)%nat ->
  writable saved frames (AddFrame type dot (sort_unique input)) s ->
  let was := claims_in (replayed saved frames) in
  exists s', retain_batch type input dot s = (Ok tt, s') /\
    shows s was /\
    shows_durably s' (fun type' id =>
      if decide (type' = type /\ id ∈ input) then default (was type' id) (add_claim dot (was type' id)) else was type' id).
Proof.
  intros Hk Hne Hl Hw was. destruct (retain_frame_ok saved frames type dot _ s Hk Hw) as (sv & fr & s' & E & _ & Hd & _).
  exists s'. split; [by rewrite retain_batch_frame by (done || apply (fk_says _ _ (wr_frame _ _ _ _ Hw)))|].
  split; [by apply store_shows|]. eapply shows_durably_ext; [exact Hd|]. intros type' id.
  rewrite add_view by (apply Hw || (apply replayed_ok; apply Hk)). destruct (sort_unique_ok input) as [_ Hin].
  destruct (decide (type' = type /\ id ∈ sort_unique input)) as [[-> Hid]|Hn]; rewrite Hin in *.
  - by rewrite decide_True.
  - by rewrite decide_False.
Qed.

(** *** Releasing *)

Lemma store_ok_release saved frames type c s :
  store_ok saved frames s -> store_ok saved frames (set_release_after type c s).
Proof.
  intros [K1 K2 K3 K4 K5 K6 K7 K8 K9].
  assert (forall type', cl_trie (class_for type' (set_release_after type c s)) = cl_trie (class_for type' s)) as Et
    by (by intros [|]; destruct type).
  split; try (by destruct type).
  - intros type'. rewrite Et. apply K3.
  - destruct K4 as [L1 L2 L3 L4 L5]. split; by destruct type.
  - intros type'. rewrite Et, K9. by destruct type.
Qed.

Lemma writable_release saved frames f type c s :
  writable saved frames f s -> writable saved frames f (set_release_after type c s).
Proof.
  intros [W1 W2 W3]. split; [done..|]. intros type'. specialize (W3 type'). destruct type, type'; exact W3.
Qed.

(** The store's trie of a class, scanned. *)
Lemma store_scan {A} (visit : A -> ObjectId -> Bytes -> A * bool) saved frames type cursor limit acc s :
  store_ok saved frames s ->
  exists s', on_trie type (scan_locked visit cursor limit acc) s =
      (Ok (visit_all visit (take limit (rotation cursor (of_class type (replayed saved frames)))) acc cursor), s') /\
    store_ok saved frames s' /\ store_same s s' /\
    (forall type', release_after (class_for type' s') = release_after (class_for type' s) /\
       prune_after (class_for type' s') = prune_after (class_for type' s)).
Proof.
  intros Hk. assert (contents_ok (replayed saved frames)) as Hc by (apply replayed_ok; apply Hk). destruct (Hc type) as [Hwf _].
  destruct (on_trie_ok saved (replayed saved frames) (of_class type (replayed saved frames)) type _ _ s (sk_holds _ _ _ Hk)
    (scan_locked_ok visit cursor limit acc _ _ _ (sk_holds _ _ _ Hk type) (wf_sorted _ _ Hwf))) as (s' & E & Hs' & Hsame & Ech).
  rewrite set_same_contents in Hs'. exists s'. split; [done|]. split; [|split; [done|]].
  - pose proof Hsame as (E1 & E2 & E3 & E4 & E5). destruct Hk as [K1 K2 K3 K4 K5 K6 K7 K8 K9].
    split; rewrite ?E1, ?E3; try done.
    + by eapply log_holds_same.
    + by rewrite Ech.
    + intros type'. destruct (E5 type') as [-> _]. by rewrite E2.
  - intros type'. revert E. unfold on_trie. destruct (scan_locked _ _ _ _ _) as [r trie]. intros [= _ <-]. by destruct type, type'.
Qed.

Lemma store_size saved frames type s :
  store_ok saved frames s ->
  ObjectTrie.size (cl_trie (class_for type s)) = Z.of_nat (length (of_class type (replayed saved frames))).
Proof. intros Hk. destruct (sk_holds _ _ _ Hk type) as (w & Hm & _). unfold ObjectTrie.size. by rewrite (Repr_count _ _ _ _ (mo_root _ _ _ Hm)). Qed.

(** The claims a release would pick: claimed records whose object is not
    live, in the order of the walk. *)
Definition unreferenced (live : ObjectId -> bool) (budget : nat) (cursor : option ObjectId) (records : list Rec) : list ObjectId :=
  take budget (base.filter (fun r : Rec => claimed r.2 && negb (live r.1) = true)
    (take (release_limit budget) (rotation cursor records))).*1.

Lemma unreferenced_elem live budget cursor records id :
  id ∈ unreferenced live budget cursor records ->
  live id = false /\ exists bs, (id, bs) ∈ records /\ claimed bs = true.
Proof.
  intros Hid. unfold unreferenced in Hid.
  assert (forall n (l : list ObjectId) x, x ∈ take n l -> x ∈ l) as Htake.
  { intros n l x Hx. rewrite <- (take_drop n l), elem_of_app. by left. }
  apply Htake, list_elem_of_fmap in Hid as ([i bs] & -> & Hr). apply list_elem_of_filter in Hr as [Hr Hin].
  apply andb_true_iff in Hr as [Hc Hlive%negb_true_iff]. split; [done|]. exists bs. split; [|done].
  apply (rotation_elem cursor). rewrite <- (take_drop (release_limit budget) (rotation cursor records)), elem_of_app. by left.
Qed.

(** A release takes only what was observed. *)
Lemma release_keeps observed s o :
  clock_ok observed -> state_ok s -> seen observed o < seen (adds s) o ->
  seen (adds (op_apply s (OpRelease observed))) o = seen (adds s) o.
Proof.
  intros Hc Hs Hlt. pose proof (release_says observed s _ _ Hc (says_self s Hs)) as [_ Hv]. destruct (Hv o) as [-> _].
  unfold standing. pose proof (undominated_seen s o Hs). pose proof (seen_range observed o Hc).
  rewrite (proj2 (Z.ltb_lt _ _)) by lia. done.
Qed.

Lemma release_written saved frames type observed ids s :
  store_ok saved frames s -> writable saved frames (ReleaseFrame type observed ids) s ->
  exists s', (frame ← st_lift (release_frame type observed ids);
              _ ← on_journal (SealedJournal.append frame);
              released ← apply_release_locked type observed ids;
              _ ← checkpoint_if_due_locked;
              mret released) s =
      (Ok (Z.of_nat (length (frame_changes (ReleaseFrame type observed ids) (replayed saved frames)))), s') /\
    shows_durably s' (claims_in (frame_apply (replayed saved frames) (ReleaseFrame type observed ids))).
Proof.
  intros Hk Hw. destruct (logged_ok saved frames _ s Hk (wr_frame _ _ _ _ Hw) (wr_fits _ _ _ _ Hw))
    as (j & s1 & Ef & Ej & Ea & _ & Hset & Hsame).
  destruct (settled saved frames _ s s1 Hk Hw Hset) as (sv & fr & s2 & Es & Hk2 & Hd & Ek).
  - by destruct Hsame as (_ & -> & _).
  - intros type'. destruct Hsame as (_ & _ & _ & _ & Ht). destruct (Ht type') as [_ Hf]. by rewrite class_set_journal in Hf.
  - exists s2. split; [|done]. cbn [log_frame] in Ef. rewrite Ef.
    rewrite (st_bind_ok _ _ _ (log_bytes (ReleaseFrame type observed ids)) s) by done. rewrite (st_bind_ok _ _ _ _ _ Ej).
    unfold apply_release_locked. cbn [frame_class frame_step frame_ids] in Ea. rewrite (st_bind_ok _ _ _ _ _ Ea).
    by rewrite (st_bind_ok _ _ _ _ _ Es).
Qed.

(** The objects picked are claimed, dead and have a record. *)
Lemma unreferenced_claimed live budget cursor c type id :
  contents_ok c -> id ∈ unreferenced live budget cursor (of_class type c) ->
  live id = false /\ adds (claims_in c type id) <> [] /\ alookup id (of_class type c) <> None.
Proof.
  intros Hc (Hl & bs & Hin & Hcl)%unreferenced_elem. split; [done|]. destruct (Hc type) as [Hwf Hst].
  apply elem_alookup_Some in Hin; [|apply Hwf]. unfold claims_in. rewrite Hin. split; [|done].
  destruct (state_of_ok _ id (wf_sorted _ _ Hwf) Hst) as (_ & _ & Hfit). destruct (Hfit bs Hin) as [Hf Eb].
  rewrite Eb, claimed_state in Hcl by done. by apply negb_true_iff, bool_decide_eq_false in Hcl.
Qed.

(** A frame about no object leaves everything as it is. *)
Lemma nothing_released saved frames type observed s :
  store_ok saved frames s -> writable saved frames (ReleaseFrame type observed []) s ->
  shows_durably s (claims_in (frame_apply (replayed saved frames) (ReleaseFrame type observed []))).
Proof.
  intros Hk Hw. eapply shows_durably_ext; [apply store_durably; [exact Hk|]|].
  - intros type'. eapply trie_room_open, Hw.
  - intros type' id. rewrite claims_in_frame by (apply replayed_ok; apply Hk). rewrite decide_False; [done|].
    by intros [_ ?%not_elem_of_nil].
Qed.

Lemma release_run saved frames type live observed budget s :
  store_ok saved frames s -> clock_ok observed -> observed <> [] -> (0 < budget)%nat ->
  let f := ReleaseFrame type observed
    (unreferenced live budget (release_after (class_for type s)) (of_class type (replayed saved frames))) in
  writable saved frames f s ->
  exists n s', release_unreferenced type live observed budget s = (Ok n, s') /\
    shows_durably s' (claims_in (frame_apply (replayed saved frames) f)).
Proof.
  intros Hk Hobs Hne Hb f Hw. unfold release_unreferenced. rewrite (proj2 (Nat.eqb_neq budget 0)) by lia.
  assert ((length observed =? 0)%nat = false) as El by (by destruct observed). rewrite El. cbn [orb].
  assert (encoded_clock observed = observed) as ->.
  { apply list_filter_all. eapply Forall_impl; [apply Hobs|]. intros e [? ?]. split; [done | lia]. }
  rewrite El, (st_bind_ok _ _ _ (class_for type s) s) by done. rewrite (store_size saved frames type s Hk). unfold f in *.
  destruct (Z.eqb_spec (Z.of_nat (length (of_class type (replayed saved frames)))) 0) as [Ez|Ez].
  - eexists _, _. split; [reflexivity|]. assert (of_class type (replayed saved frames) = []) as En by (by destruct (of_class _ _)).
    assert (unreferenced live budget (release_after (class_for type s)) (of_class type (replayed saved frames)) = []) as Eu.
    { unfold unreferenced. rewrite En.
      by rewrite rotation_nil, !take_nil, filter_nil, fmap_nil, take_nil. }
    rewrite Eu in Hw |- *. apply nothing_released; [by apply store_ok_release | by apply writable_release].
  - destruct (store_scan (release_visit live budget) saved frames type (release_after (class_for type s))
      (release_limit budget) [] s Hk) as (s1 & E1 & Hk1 & Hsame1 & _).
    rewrite (st_bind_ok _ _ _ _ _ E1). rewrite st_modify_bind. rewrite release_picks by done.
    fold (unreferenced live budget (release_after (class_for type s)) (of_class type (replayed saved frames))).
    set (picked := unreferenced _ _ _ _) in *. set (s2 := set_release_after type _ s1).
    assert (writable saved frames (ReleaseFrame type observed picked) s2) as Hw2.
    { apply writable_release. destruct Hw as [W1 W2 W3]. split; [done..|]. eapply store_room_same; [exact W3|].
      intros type'. destruct Hsame1 as (_ & _ & _ & _ & Ht). apply Ht. }
    assert (store_ok saved frames s2) as Hk2 by (by apply store_ok_release).
    destruct picked as [|i picked']; [by eexists _, _; split; [reflexivity | apply nothing_released]|].
    destruct (release_written saved frames type observed (i :: picked') s2 Hk2 Hw2) as (s3 & E3 & Hd).
    eexists _, s3. split; [exact E3 | exact Hd].
Qed.

(** C4. Releasing takes the claims it may and no others. In an open store
    with room for it, one call picks at most its budget of claimed objects,
    none of them live, the first ones found from where the last call stopped;
    it takes from each of them the claims it has observed, and leaves every
    claim that is newer than what it observed, and every other object's
    claims, as they are; the store opened again after any crash shows the
    same. *)
Theorem release_is_safe saved frames type live observed budget s :
  store_ok saved frames s -> clock_ok observed -> observed <> [] -> (0 < budget)%nat ->
  let was := claims_in (replayed saved frames) in
  let picked := unreferenced live budget (release_after (class_for type s)) (of_class type (replayed saved frames)) in
  writable saved frames (ReleaseFrame type observed picked) s ->
  exists n s' view, release_unreferenced type live observed budget s = (Ok n, s') /\
    shows_durably s' view /\
    (length picked <= budget)%nat /\
    (forall id, id ∈ picked -> live id = false /\ adds (was type id) <> [] /\
       view type id = (release_claims observed (was type id)).1) /\
    (forall type' id, (type' <> type \/ id ∉ picked) -> view type' id = was type' id) /\
    (forall type' id o, seen observed o < seen (adds (was type' id)) o ->
       seen (adds (view type' id)) o = seen (adds (was type' id)) o).
Proof.
  intros Hk Hobs Hne Hb was picked Hw.
  destruct (release_run saved frames type live observed budget s Hk Hobs Hne Hb Hw) as (n & s' & E & Hd).
  assert (contents_ok (replayed saved frames)) as Hc by (apply replayed_ok; apply Hk).
  assert (forall type' id, claims_in (frame_apply (replayed saved frames) (ReleaseFrame type observed picked)) type' id =
    if decide (type' = type /\ id ∈ picked) then op_apply (was type' id) (OpRelease observed) else was type' id) as Hview.
  { intros type' id. apply release_view; [done | apply Hw|]. intros i Hi. by eapply unreferenced_claimed. }
  eexists n, s', _. split; [done|]. split; [exact Hd|].
  split; [unfold picked, unreferenced; rewrite length_take; lia|]. split; [|split].
  - intros id Hid. destruct (unreferenced_claimed _ _ _ _ _ _ Hc Hid) as (? & ? & _).
    split; [done|]. split; [done|]. fold picked. by rewrite Hview, decide_True.
  - intros type' id Hor. fold picked. rewrite Hview, decide_False by tauto. done.
  - intros type' id o Hlt. fold picked. rewrite Hview. destruct (decide _); [|done].
    apply release_keeps; [done | by apply claims_in_ok | done].
Qed.

(** *** Pruning *)

Lemma settling_prune saved frames f type c s : settling saved frames f s -> settling saved frames f (set_prune_after type c s).
Proof.
  intros [S1 S2 S3 S4 S5].
  assert (forall type', cl_trie (class_for type' (set_prune_after type c s)) = cl_trie (class_for type' s)) as Et
    by (by intros [|]; destruct type).
  split; try (by destruct type).
  - intros type'. rewrite Et. apply S1.
  - destruct S2 as [L1 L2 L3 L4 L5]. split; by destruct type.
  - intros type'. rewrite Et, S5. by destruct type.
Qed.

(** Pruning drops no claim. Erasing what a walk found unclaimed, at any
    later time (claims may have been added since), erases only records that
    are still unclaimed: every object's claims are what they were, and only
    what unclaimed objects of the list knew released is forgotten. *)
Theorem prune_drops_no_claim saved frames type ids s :
  store_ok saved frames s -> writable saved frames (PruneFrame type ids) s ->
  let was := claims_in (replayed saved frames) in
  exists n s' view, prune_erase type ids s = (Ok n, s') /\ shows_durably s' view /\
    (forall type' id, adds (view type' id) = adds (was type' id)) /\
    (forall id, id ∈ ids -> adds (was type id) = [] -> view type id = no_state) /\
    (forall type' id, type' <> type \/ id ∉ ids \/ adds (was type' id) <> [] -> view type' id = was type' id).
Proof.
  intros Hk Hw was. destruct (logged_ok saved frames _ s Hk (wr_frame _ _ _ _ Hw) (wr_fits _ _ _ _ Hw))
    as (j & s1 & Ef & Ej & Ea & _ & Hset & Hsame). cbn [log_frame frame_class frame_step frame_ids] in *.
  set (s2 := if ObjectTrie.size (cl_trie (class_for type s1)) =? 0 then set_prune_after type None s1 else s1).
  assert (settling saved frames (PruneFrame type ids) s2) as Hset2.
  { unfold s2. destruct (_ =? 0); [by apply settling_prune | done]. }
  destruct (settled saved frames _ s s2 Hk Hw Hset2) as (sv & fr & s3 & Es & _ & Hd & _).
  { destruct Hsame as (_ & Ek & _). unfold s2. destruct (_ =? 0); [|done]. by destruct type. }
  { intros type'. destruct Hsame as (_ & _ & _ & _ & Ht). destruct (Ht type') as [_ Hf]. rewrite class_set_journal in Hf.
    unfold s2. destruct (_ =? 0); [|done]. by destruct type, type'. }
  eexists _, s3, _. split; [|split; [exact Hd|]].
  - unfold prune_erase. rewrite Ef. rewrite (st_bind_ok _ _ _ (log_bytes (PruneFrame type ids)) s) by done.
    rewrite (st_bind_ok _ _ _ _ _ Ej). unfold apply_prune_locked. rewrite (st_bind_ok _ _ _ _ _ Ea).
    rewrite (st_bind_ok _ _ _ s1 s1) by done. rewrite (st_bind_ok _ _ _ tt s2) by (unfold s2; by destruct (_ =? 0)).
    rewrite (st_bind_ok _ _ _ _ _ Es). reflexivity.
  - assert (contents_ok (replayed saved frames)) as Hc by (apply replayed_ok; apply Hk). split; [|split].
    + intros type' id. rewrite prune_view by done. fold was. destruct (decide _) as [(_ & _ & ->)|]; done.
    + intros id Hid En. rewrite prune_view by done. by rewrite decide_True.
    + intros type' id Hor. rewrite prune_view by done. fold was. by rewrite decide_False by tauto.
Qed.

(** *** Where walks stop *)

(** A walk looks round the whole class, unless it starts at its end. When
    some record is after the cursor, a scan whose limit and visitor allow it
    visits every record exactly once; when none is (the last walk ended at
    the last record), it visits the first record only, though the class has
    others and the limit has room for them. *)
Theorem scan_from_the_end_visits_one {A} (visit : A -> ObjectId -> Bytes -> A * bool) saved frames type cursor limit acc s :
  let records := of_class type (replayed saved frames) in
  store_ok saved frames s -> (length records <= limit)%nat -> (0 < limit)%nat ->
  exists visited s', on_trie type (scan_locked visit cursor limit acc) s = (Ok (visit_all visit visited acc cursor), s') /\
    ((exists r, r ∈ records /\ match cursor with Some c => key_lt c r.1 | None => True end) -> visited ≡ₚ records) /\
    ((exists c, cursor = Some c /\ forall r, r ∈ records -> ~ key_lt c r.1) -> visited = take 1 records).
Proof.
  intros records Hk Hl Hpos. destruct (store_scan visit saved frames type cursor limit acc s Hk) as (s' & E & _).
  fold records in E. exists (take limit (rotation cursor records)), s'. split; [done|].
  assert (sorted_recs records) as Hs.
  { assert (contents_ok (replayed saved frames)) as Hc by (apply replayed_ok; apply Hk). apply (Hc type). }
  split.
  - intros (r & Hr & Hcur).
    assert (rotation cursor records ≡ₚ records) as Hp.
    { apply rotation_perm; [done|]. intros En. assert (r ∈ after_bound cursor records) as Hin.
      { destruct cursor; [|done]. cbn [after_bound]. by rewrite list_elem_of_filter. }
      rewrite En in Hin. by apply not_elem_of_nil in Hin. }
    rewrite take_ge; [done|]. by rewrite (Permutation_length Hp).
  - intros (c & -> & Hnone). unfold rotation, ahead. cbn [after_bound].
    rewrite list_filter_none by (apply Forall_forall; exact Hnone). rewrite take_take. by rewrite Nat.min_r by lia.
Qed.

(** *** Replaying a log twice *)

Lemma replay_log_ok saved c frames s :
  store_holds saved c s -> contents_ok c -> frames_ok c frames ->
  exists s', foldM (fun _ f => apply_frame f) tt frames s = (Ok tt, s') /\ store_holds saved (replayed c frames) s'.
Proof.
  revert c s. induction frames as [|f frames IH]; intros c s Hs Hc Hf; [by exists s|]. destruct Hf as (Hf & _ & Hfs).
  destruct (apply_frame_ok saved c f s Hs Hc Hf) as (s1 & E1 & Hs1 & _).
  destruct (IH _ _ Hs1 (frame_apply_ok f c Hc Hf) Hfs) as (s2 & E2 & Hs2). exists s2. split; [|done].
  cbn [foldM]. by rewrite (st_bind_ok _ _ _ _ _ E1).
Qed.
End store.

Module Twice.
Definition object : ObjectId := array_fit 32 [x01].
Definition origin : NodeId := array_fit 16 [x01].

(** An object that knows the origin's seventh claim released. *)
Definition before_log : Contents := ([(object, state_bytes (mkState [] [(origin, 7)]))], []).
(** Its fifth claim, late, and a prune. *)
Definition log : list Frame := [AddFrame Data (mkDot origin 5) [object]; PruneFrame Data [object]].
End Twice.

Lemma frame_ok_small f c :
  match f with AddFrame _ dot _ => dot_ok dot | ReleaseFrame _ observed _ => clock_ok observed | PruneFrame _ _ => True end ->
  forallb (fun ch => negb (ObjectTrie.too_large ch)) (frame_changes f c) = true ->
  (length (of_class (frame_class f) c) + length (frame_changes f c) <? 100)%nat = true ->
  frame_ok f c.
Proof.
  intros Hs Hf Hn%Nat.ltb_lt. split; [done | | lia]. rewrite forallb_forall in Hf. apply Forall_forall. intros ch Hch.
  apply list_elem_of_In, Hf, negb_true_iff in Hch. unfold ObjectTrie.too_large, change_fits in *.
  destruct (ch_value ch); [by apply Z.ltb_ge | done].
Qed.

Lemma no_contents_ok : contents_ok ([], []).
Proof. intros [|]; (split; [apply wf_empty | by apply Forall_nil]). Qed.

Module Sampled.
Definition dot (n : Z) : RetentionDot := mkDot Twice.origin n.
Lemma dot_fits n : 0 < n < 2 ^ 64 -> dot_ok (dot n).
Proof. intros Hn. split; [by intros [=] | done]. Qed.
Lemma clock_fits n : 0 < n < 2 ^ 64 -> clock_ok [(Twice.origin, n)].
Proof. intros Hn. split; [repeat constructor|]. constructor; [|done]. split; [by intros [=] | done]. Qed.

(** How the object came to know it. *)
Definition history : list Frame :=
  [AddFrame Data (dot 7) [Twice.object]; ReleaseFrame Data [(Twice.origin, 7)] [Twice.object]].

Lemma history_ok : frames_ok ([], []) history /\ replayed ([], []) history = Twice.before_log.
Proof.
  split; [|by vm_compute].
  split; [apply frame_ok_small; [by apply dot_fits | by vm_compute..]|]. split; [by vm_compute|].
  split; [apply frame_ok_small; [by apply clock_fits | by vm_compute..]|]. split; by vm_compute.
Qed.

Lemma log_ok c : c = Twice.before_log \/ c = replayed Twice.before_log Twice.log -> frames_ok c Twice.log.
Proof.
  intros [-> | ->];
    (split; [apply frame_ok_small; [by apply dot_fits | by vm_compute..]|]; split; [by vm_compute|];
     split; [apply frame_ok_small; by vm_compute|]; split; by vm_compute).
Qed.
End Sampled.

(** Replaying the log over a checkpoint is not always idempotent. An
    object knows an origin's seventh claim released; the log has the origin's
    fifth claim, which the object ignores, and a prune, which forgets the
    object. Replayed over what it has made already (a crash after a
    checkpoint saved the tries and before it emptied the log), the fifth
    claim is taken, and the object is claimed again. *)
Theorem replay_not_idempotent `{Sha256, AesGcm, !AesGcmSpec, Entropy, Footprint} (saved : Contents) (s : t) :
  store_holds saved Twice.before_log s ->
  exists s1 s2 s3 s4,
    foldM (fun _ f => apply_frame f) tt Twice.log s = (Ok tt, s1) /\
    claims Data Twice.object s1 = (Ok no_state, s3) /\
    foldM (fun _ f => apply_frame f) tt Twice.log s1 = (Ok tt, s2) /\
    claims Data Twice.object s2 = (Ok (mkState [(Twice.origin, 5)] []), s4).
Proof.
  intros Hs. destruct Sampled.history_ok as [Hh Eh].
  assert (contents_ok Twice.before_log) as Hc by (rewrite <- Eh; apply replayed_ok; [apply no_contents_ok | done]).
  pose proof (Sampled.log_ok _ (or_introl eq_refl)) as Hf1. pose proof (Sampled.log_ok _ (or_intror eq_refl)) as Hf2.
  pose proof (replayed_ok _ _ Hc Hf1) as Hc1. pose proof (replayed_ok _ _ Hc1 Hf2) as Hc2.
  destruct (replay_log_ok saved _ _ s Hs Hc Hf1) as (s1 & E1 & Hs1).
  destruct (replay_log_ok saved _ _ s1 Hs1 Hc1 Hf2) as (s2 & E2 & Hs2).
  destruct (holds_shows saved _ s1 Hs1 Hc1 Data Twice.object) as [(s3 & E3) _].
  destruct (holds_shows saved _ s2 Hs2 Hc2 Data Twice.object) as [(s4 & E4) _].
  exists s1, s2, s3, s4. split; [done|]. split; [by rewrite E3; vm_compute|]. split; [done|]. by rewrite E4; vm_compute.
Qed.

(** ** Sample runs *)

Section fresh.
Context `{Sha256, AesGcm, !AesGcmSpec, Entropy, Footprint}.

(** A store just opened on an empty ledger. *)
Definition fresh (key : array 32) : t :=
  mk (mkLedger (new_trie key (options_with 300)) None None) (mkLedger (new_trie key (options_with 100)) None None) 0
    (SealedJournal.open None key journal_aad max_journal_frame) key true no_legacy.

Lemma fresh_ok key : store_ok ([], []) [] (fresh key).
Proof.
  assert (forall n, unsaved_ok [] [] (new_trie key (options_with n))) as Hu.
  { intros n. destruct (new_ledger key (options_with n)) as (Hm & Hd & Hs). eexists. split; [exact Hm|]. by split. }
  split; try done.
  - apply no_contents_ok.
  - intros [|]; apply Hu.
  - split; try done. exists []. split; [|constructor]. split; [|done | constructor]. split; [done | done | cbn; lia].
  - by intros [|].
Qed.

(** A frame more, with neither enough changes nor enough log for a checkpoint. *)
Lemma settling_ok saved frames f s :
  contents_ok saved -> frames_ok saved (frames ++ [f]) -> settling saved frames f s ->
  changes_total saved (frames ++ [f]) < checkpoint_changed ->
  Z.of_nat (length (SealedJournal.contents (rs_journal s))) < checkpoint_journal_bytes -> store_ok saved (frames ++ [f]) s.
Proof.
  intros Hc Hf [S1 S2 S3 S4 S5] Hfew Hshort. split; try done.
  unfold replayed in *. by rewrite foldl_app.
Qed.
End fresh.

#[local] Existing Instances Sample.gcm Sample.gcm_spec Sample.entropy Sample.sha Run.footprint.

Module RetentionRun.

Definition s0 : t := fresh Sample.key.
Definition other : ObjectId := array_fit 32 [x02].
Definition one_claim : Frame := AddFrame Data (Sampled.dot 7) [Twice.object; other].

(** Room in the fresh store for a record or so. *)
Lemma small_room c :
  (forall type, Z.of_nat (length (of_class type c)) <= 100) -> store_room ([], []) c s0.
Proof.
  intros Hl type. specialize (Hl type). split; [by destruct type; apply shallow_small|].
  split; [apply shallow_small; unfold leaf_max; lia|].
  replace (length (of_class type ([], []))) with 0%nat by (by destruct type).
  replace (SealedJournal.bytes (ObjectTrie.nodes (cl_trie (class_for type s0)))) with 0 by (by destruct type).
  replace (ObjectTrie.generation (cl_trie (class_for type s0))) with 0 by (by destruct type).
  unfold room, unsaved. lia.
Qed.

Lemma one_claim_ok : writable ([], []) [] one_claim s0.
Proof.
  split; [apply frame_ok_small; [by apply Sampled.dot_fits | by vm_compute..] | by vm_compute | apply small_room].
  by intros [|]; vm_compute.
Qed.

Lemma claimed_ok : exists s1, store_ok ([], []) [one_claim] s1 /\
  (forall type, same_files (cl_trie (class_for type s0)) (cl_trie (class_for type s1))) /\
  (forall type, release_after (class_for type s1) = None).
Proof.
  pose proof (fresh_ok Sample.key) as Hk. fold s0 in Hk. pose proof one_claim_ok as [Hf Hl Hr].
  destruct (logged_ok ([], []) [] one_claim s0 Hk Hf Hl) as (j & s1 & _ & Ej & _ & Ea & Hset & Hsame).
  assert (j = rs_journal (on_journal (SealedJournal.append (log_bytes one_claim)) s0).2) as -> by (by rewrite Ej).
  exists s1. split; [|split].
  - apply (settling_ok ([], []) [] one_claim s1); [apply no_contents_ok | | done | by vm_compute |].
    + split; [done|]. by split.
    + destruct Hsame as (-> & _). by vm_compute.
  - intros type. destruct Hsame as (_ & _ & _ & _ & Ht). destruct (Ht type) as [_ Hs]. by rewrite class_set_journal in Hs.
  - assert (s1 = (apply_frame one_claim (set_journal (rs_journal (on_journal (SealedJournal.append (log_bytes one_claim)) s0).2) s0)).2) as ->
      by (by rewrite Ea). by intros [|]; vm_compute.
Qed.
End RetentionRun.

Lemma retain_is_durable_witness :
  exists s' view,
    retain_batch Data [RetentionRun.other; Twice.object; RetentionRun.other] (Sampled.dot 7) RetentionRun.s0 = (Ok tt, s') /\
    shows_durably s' view /\ view Data Twice.object = mkState [(Twice.origin, 7)] [].
Proof.
  destruct (retain_is_durable ([], []) [] Data [RetentionRun.other; Twice.object; RetentionRun.other] (Sampled.dot 7)
    RetentionRun.s0) as (s' & E & _ & Hd).
  - apply fresh_ok.
  - done.
  - unfold retain_ids_per_frame. transitivity 2%nat; [by vm_compute; lia | lia].
  - exact RetentionRun.one_claim_ok.
  - eexists s', _. split; [exact E|]. split; [exact Hd|]. by vm_compute.
Defined.

Lemma release_is_safe_witness :
  exists s n s' view, release_unreferenced Data (fun _ => false) [(Twice.origin, 7)] 4 s = (Ok n, s') /\
    shows_durably s' view /\ view Data Twice.object = mkState [] [(Twice.origin, 7)].
Proof.
  destruct RetentionRun.claimed_ok as (s1 & Hk & Hf & Hr).
  destruct (release_is_safe ([], []) [RetentionRun.one_claim] Data (fun _ => false) [(Twice.origin, 7)] 4 s1)
    as (n & s' & view & E & Hd & _ & Hp & _); [done | by apply Sampled.clock_fits | done | lia | |].
  - rewrite (Hr Data). split; [apply frame_ok_small; [by apply Sampled.clock_fits | by vm_compute..] | by vm_compute |].
    eapply store_room_same; [|exact Hf]. apply RetentionRun.small_room. by intros [|]; vm_compute.
  - exists s1, n, s', view. split; [done|]. split; [done|]. rewrite (Hr Data) in Hp.
    destruct (Hp Twice.object) as (_ & _ & ->); [by vm_compute; left | by vm_compute].
Defined.

Lemma prune_drops_no_claim_witness :
  exists s n s' view, prune_erase Data [Twice.object] s = (Ok n, s') /\ shows_durably s' view /\
    adds (view Data Twice.object) = [(Twice.origin, 7)].
Proof.
  destruct RetentionRun.claimed_ok as (s1 & Hk & Hf & _).
  destruct (prune_drops_no_claim ([], []) [RetentionRun.one_claim] Data [Twice.object] s1)
    as (n & s' & view & E & Hd & Ha & _); [done | |].
  - split; [apply frame_ok_small; by vm_compute | by vm_compute |].
    eapply store_room_same; [|exact Hf]. apply RetentionRun.small_room. by intros [|]; vm_compute.
  - exists s1, n, s', view. split; [done|]. split; [done|]. rewrite Ha. by vm_compute.
Defined.

Lemma replay_not_idempotent_witness :
  exists s s1 s2 s4,
    foldM (fun _ f => apply_frame f) tt Twice.log s = (Ok tt, s1) /\
    foldM (fun _ f => apply_frame f) tt Twice.log s1 = (Ok tt, s2) /\
    claims Data Twice.object s2 = (Ok (mkState [(Twice.origin, 5)] []), s4).
Proof.
  destruct Sampled.history_ok as [Hh Eh]. pose proof (fresh_ok Sample.key) as Hk.
  destruct (replay_log_ok ([], []) ([], []) Sampled.history (fresh Sample.key)) as (s & _ & Hs);
    [exact (sk_holds _ _ _ Hk) | apply no_contents_ok | done |]. rewrite Eh in Hs.
  destruct (replay_not_idempotent ([], []) s Hs) as (s1 & s2 & s3 & s4 & E1 & _ & E2 & E4). exists s, s1, s2, s4. split; [exact E1|]. split; [exact E2 | exact E4].
Defined.

(** Two claimed objects, the cursor at the second: only the first is visited. *)
Lemma scan_from_the_end_visits_one_witness :
  length (of_class Data (replayed ([], []) [RetentionRun.one_claim])) = 2%nat /\
  exists s s', on_trie Data (scan_locked prune_visit (Some RetentionRun.other) 10 []) s =
    (Ok (visit_all prune_visit (take 1 (of_class Data (replayed ([], []) [RetentionRun.one_claim]))) [] (Some RetentionRun.other)), s').
Proof.
  split; [by vm_compute|]. destruct RetentionRun.claimed_ok as (s1 & Hk & _).
  destruct (scan_from_the_end_visits_one prune_visit ([], []) [RetentionRun.one_claim] Data (Some RetentionRun.other) 10 [] s1)
    as (visited & s' & E & _ & Hv); [done | by vm_compute; lia | lia |].
  exists s1, s'. rewrite E. rewrite Hv; [reflexivity|]. exists RetentionRun.other. split; [done|]. apply Forall_forall.
  repeat constructor; by vm_compute.
Defined.

Lemma claims_converge_witness :
  let ops := [OpAdd (Sampled.dot 5); OpRelease [(Twice.origin, 7)]; OpAdd (Sampled.dot 9)] in
  let final := foldl op_apply no_state ops in
  state_ok final /\ foldl op_apply no_state [OpRelease [(Twice.origin, 7)]; OpAdd (Sampled.dot 5); OpAdd (Sampled.dot 9)] = final /\
  adds final = [(Twice.origin, 9)].
Proof.
  intros ops final.
  destruct (claims_converge no_state ops [OpRelease [(Twice.origin, 7)]; OpAdd (Sampled.dot 5); OpAdd (Sampled.dot 9)])
    as (Hok & E & _).
  - apply no_state_ok.
  - repeat constructor; (by apply Sampled.dot_fits) || (by apply Sampled.clock_fits) || (by intros [=]) || done.
  - apply perm_swap.
  - split; [exact Hok|]. split; [exact E | by vm_compute].
Defined.
