(* ===== verification/HeldLedger.v ===== *)
(** * Which objects a store holds

    [src/src/ledger/held_ledger.cpp], [HeldLedger]: the record of the objects
    on a store's disk, kept in an object trie. Changes are queued and flushed
    in order; until the record is seeded they stay queued. The three locks
    order the steps below: [record] and [drop_queued] run between any two of
    them, [flush] and the last step of [seed] one at a time. *)

From S2P Require Import Prelude Sorts Codec Journal Trie ObjectTrie TrieShape TrieOps TrieChange TrieDisk TrieWire TrieLedger TrieClaims.

Module HeldLedger.

(** One, as eight big-endian bytes. *)
Definition held_value : Bytes := be_bytes 8 1.

Record t : Type := mk {
  hl_trie : ObjectTrie.t;
  hl_seeded : bool;
  hl_verify_next : Z;
  hl_removals : Z;
  hl_queued : list Change;
  (** The files [seeded] and [verify-next]. *)
  hl_marker : bool;
  hl_verify_file : option Bytes
}.

Definition set_trie (trie : ObjectTrie.t) (s : t) : t :=
  mk trie (hl_seeded s) (hl_verify_next s) (hl_removals s) (hl_queued s) (hl_marker s) (hl_verify_file s).
Definition set_removals (n : Z) (s : t) : t :=
  mk (hl_trie s) (hl_seeded s) (hl_verify_next s) n (hl_queued s) (hl_marker s) (hl_verify_file s).
Definition set_queued (q : list Change) (s : t) : t :=
  mk (hl_trie s) (hl_seeded s) (hl_verify_next s) (hl_removals s) q (hl_marker s) (hl_verify_file s).
Definition set_seeded (s : t) : t :=
  mk (hl_trie s) true (hl_verify_next s) (hl_removals s) (hl_queued s) true (hl_verify_file s).
Definition set_verify (next : Z) (file : Bytes) (s : t) : t :=
  mk (hl_trie s) (hl_seeded s) next (hl_removals s) (hl_queued s) (hl_marker s) (Some file).

Definition on_trie {A} (m : ST ObjectTrie.t A) : ST t A := fun s =>
  let '(r, trie) := m (hl_trie s) in (r, set_trie trie s).

(** ** Numbers in text files *)

Definition digit (b : byte) : option Z := if (48 <=? b2z b) && (b2z b <=? 57) then Some (b2z b - 48) else None.
Definition digit_char (d : Z) : byte := z2b (48 + d).

(** [std::to_string], of a number of at most [fuel] digits. *)
Fixpoint print_decimal (fuel : nat) (n : Z) : Bytes :=
  match fuel with
  | O => []
  | S fuel' => (if n <? 10 then [] else print_decimal fuel' (n / 10)) ++ [digit_char (n mod 10)]
  end.

Definition text_blank (b : byte) : bool := existsb (fun c => bool_decide (b = c)) [x20; x09; x0a; x0b; x0c; x0d].
Fixpoint skip_blank (text : Bytes) : Bytes :=
  match text with b :: rest => if text_blank b then skip_blank rest else text | [] => [] end.
(** The digits ahead: whether there is one, and their value. *)
Fixpoint read_digits (text : Bytes) (any : bool) (n : Z) : option Z :=
  match text with
  | b :: rest => match digit b with Some d => read_digits rest true (n * 10 + d) | None => if any then Some n else None end
  | [] => if any then Some n else None
  end.
(** [in >> next] of an [unsigned]. *)
Definition read_unsigned (text : Bytes) : option Z :=
  let '(negative, text) :=
    match skip_blank text with
    | x2b :: rest => (false, rest)
    | x2d :: rest => (true, rest)
    | rest => (false, rest)
    end in
  match read_digits text false 0 with
  | Some n => if u32_max <? n then None else Some (if negative then wrap32 (- n) else n)
  | None => None
  end.

(** ** Operations *)

Section ops.
Context `{Sha256, AesGcm, Entropy, Footprint}.

Definition read_verify_next (file : option Bytes) : Z :=
  match file with
  | None => 0
  | Some text =>
      match read_unsigned text with
      | Some next => if next <=? u16_max then wrap16 next else 0
      | None => 0
      end
  end.

Record Disk : Type := mkDisk { hd_trie : ObjectTrie.Disk; hd_marker : bool; hd_verify_file : option Bytes }.

Definition open (disk : Disk) (key : array 32) (options : ObjectTrie.Options) : result t :=
  trie ← ObjectTrie.open (hd_trie disk) key options;
  Ok (mk trie (hd_marker disk) (read_verify_next (hd_verify_file disk)) 0 [] (hd_marker disk) (hd_verify_file disk)).

Definition set_verify_next (next : Z) : ST t unit :=
  s ← st_get;
  if next =? hl_verify_next s then mret tt
  else st_modify (set_verify next (print_decimal 5 next ++ [x0a])).

Definition held (id : ObjectId) : ST t (option bool) :=
  s ← st_get;
  if negb (hl_seeded s) then mret None
  else value ← on_trie (ObjectTrie.get id); mret (Some (match value with Some _ => true | None => false end)).

Definition high_byte (prefix : Z) : Z := wrap8 (Z.shiftr prefix 8).
Definition low_byte (prefix : Z) : Z := wrap8 (Z.land prefix 255).
(** The last id of the prefix before. *)
Definition last_before (prefix : Z) : option ObjectId :=
  if prefix =? 0 then None
  else Some (array_fit 32 ([z2b (high_byte (prefix - 1)); z2b (low_byte (prefix - 1))] ++ replicate 30 xff)).
Definition has_prefix (prefix : Z) (id : ObjectId) : bool :=
  (b2z (abyte id 0) =? high_byte prefix) && (b2z (abyte id 1) =? low_byte prefix).

(** The ids of a page up to the first without the prefix, and whether the walk
    goes on. *)
Fixpoint prefix_page (prefix : Z) (page : list Rec) (out : list ObjectId) : list ObjectId * bool :=
  match page with
  | [] => (out, true)
  | (id, _) :: rest => if has_prefix prefix id then prefix_page prefix rest (out ++ [id]) else (out, false)
  end.

Definition prefix_page_size : nat := 256.

(** A full page has a record more; fuel is one more than the trie's size. *)
Fixpoint prefix_loop (fuel : nat) (prefix : Z) (after : option ObjectId) (out : list ObjectId)
    : ST ObjectTrie.t (list ObjectId) :=
  match fuel with
  | O => mret out
  | S fuel' =>
      page ← ObjectTrie.next after prefix_page_size;
      let '(out, go) := prefix_page prefix page out in
      if negb go then mret out
      else if (length page <? prefix_page_size)%nat then mret out
      else prefix_loop fuel' prefix (last page.*1) out
  end.
Definition held_with_prefix (prefix : Z) : ST t (list ObjectId) :=
  on_trie (s ← st_get; prefix_loop (S (Z.to_nat (ObjectTrie.size s))) prefix (last_before prefix) []).

Definition change_for (id : ObjectId) (held : bool) : Change :=
  mkChange id (if held then Some held_value else None).
Definition record (id : ObjectId) (held : bool) : ST t unit :=
  st_modify (fun s => set_queued (hl_queued s ++ [change_for id held]) s).
Definition drop_queued : ST t unit := st_modify (set_queued []).

Definition removed_count (unique : list Change) : Z :=
  Z.of_nat (length (base.filter (fun c => ch_value c = None) unique)).

Definition install_queued : ST t unit :=
  changes ← st_gets hl_queued;
  _ ← st_modify (set_queued []);
  match changes with
  | [] => mret tt
  | _ =>
      let unique := ObjectTrie.unique_changes changes in
      _ ← on_trie (ObjectTrie.write unique);
      _ ← on_trie (ObjectTrie.install unique);
      st_modify (fun s => set_removals (wrap64 (hl_removals s + removed_count unique)) s)
  end.

Definition flush : ST t unit :=
  s ← st_get; if negb (hl_seeded s) then mret tt else install_queued.

(** [seed]'s steps: the record replaced, under the lookup lock, and what was
    queued meanwhile installed before it is marked seeded, under the flush
    lock. *)
Definition seed_build (present : list ObjectId) : ST t unit :=
  _ ← on_trie (ObjectTrie.replace_all ((fun id => (id, held_value)) <$> present));
  st_modify (fun s => set_removals (wrap64 (hl_removals s + 1)) s).
Definition seed_finish : ST t unit := _ ← install_queued; st_modify set_seeded.
Definition seed (snapshot : ST t (list ObjectId)) : ST t unit :=
  present ← snapshot; _ ← seed_build present; seed_finish.

Definition view : ST t (ObjectTrie.Snapshot * Z) :=
  records ← on_trie ObjectTrie.snapshot; removals ← st_gets hl_removals; mret (records, removals).
Definition size (s : t) : Z := ObjectTrie.size (hl_trie s).

(** What a crash leaves. *)
Definition crash (s : t) (disk : Disk) : Prop :=
  ObjectTrie.crash (hl_trie s) (hd_trie disk) /\ hd_marker disk = hl_marker s /\ hd_verify_file disk = hl_verify_file s.
End ops.
End HeldLedger.

(** ** Correctness *)

Import HeldLedger.

(** *** The text file reads back *)

Lemma digit_print d : 0 <= d < 10 -> digit (digit_char d) = Some d.
Proof.
  intros Hd. unfold digit, digit_char. rewrite b2z_z2b_small by lia. rewrite (proj2 (Z.leb_le 48 _)), (proj2 (Z.leb_le _ 57)) by lia.
  cbn [andb]. f_equal. lia.
Qed.

Lemma read_print fuel n any acc rest :
  (0 < fuel)%nat -> 0 <= n < 10 ^ Z.of_nat fuel ->
  read_digits (print_decimal fuel n ++ rest) any acc =
  read_digits rest true (acc * 10 ^ Z.of_nat (length (print_decimal fuel n)) + n).
Proof.
  revert n any acc rest. induction fuel as [|fuel IH]; intros n any acc rest Hf Hn; [lia|]. cbn [print_decimal].
  pose proof (Z.div_mod n 10 ltac:(lia)) as Hdm. pose proof (Z.mod_pos_bound n 10 ltac:(lia)) as Hmod.
  destruct (Z.ltb_spec n 10) as [Hlt|Hge].
  - cbn [app length read_digits]. rewrite digit_print by done. rewrite Z.mod_small by lia. f_equal; lia.
  - rewrite <- app_assoc, IH.
    + cbn [app read_digits]. rewrite digit_print by done. rewrite length_app, Nat2Z.inj_add, Z.pow_add_r by lia. f_equal.
      cbn [length]. lia.
    + destruct fuel; [cbn in Hn; lia | lia].
    + rewrite Nat2Z.inj_succ, Z.pow_succ_r in Hn by lia. split; [apply Z.div_pos; lia | apply Z.div_lt_upper_bound; lia].
Qed.

Lemma print_head fuel n : 0 <= n -> exists d rest, 0 <= d < 10 /\ print_decimal (S fuel) n = digit_char d :: rest.
Proof.
  revert n. induction fuel as [|fuel IH]; intros n Hn; cbn [print_decimal];
    pose proof (Z.mod_pos_bound n 10 ltac:(lia)); destruct (n <? 10).
  - by exists (n mod 10), [].
  - by exists (n mod 10), [].
  - by exists (n mod 10), [].
  - destruct (IH (n / 10)) as (d & rest & Hd & E); [apply Z.div_pos; lia|]. cbn [print_decimal] in E. rewrite E.
    by exists d, (rest ++ [digit_char (n mod 10)]).
Qed.

Lemma verify_next_reads next : 0 <= next <= u16_max -> read_verify_next (Some (print_decimal 5 next ++ [x0a])) = next.
Proof.
  intros Hn. unfold u16_max in *. destruct (print_head 4 next) as (d & rest & Hd & E); [lia|].
  unfold read_verify_next, read_unsigned.
  assert (skip_blank (print_decimal 5 next ++ [x0a]) = print_decimal 5 next ++ [x0a] /\
    digit_char d <> x2b /\ digit_char d <> x2d) as (-> & Hp & Hm).
  { rewrite E. cbn [app skip_blank]. assert (d ∈ seqZ 0 10) as Hin by (apply elem_of_seqZ; lia).
    assert (Forall (fun d => text_blank (digit_char d) = false /\ digit_char d <> x2b /\ digit_char d <> x2d) (seqZ 0 10)) as Hall
      by (repeat constructor; done).
    rewrite Forall_forall in Hall. destruct (Hall d Hin) as (-> & ? & ?). done. }
  assert (match print_decimal 5 next ++ [x0a] with x2b :: r => (false, r) | x2d :: r => (true, r) | r => (false, r) end =
    (false, print_decimal 5 next ++ [x0a])) as ->.
  { rewrite E. cbn [app]. destruct (digit_char d); done. }
  rewrite read_print by (cbn; lia). cbn [read_digits digit]. unfold u32_max, u16_max.
  rewrite Z.mul_0_l, Z.add_0_l. change (digit x0a) with (@None Z). cbn iota.
  rewrite (proj2 (Z.ltb_ge _ _)) by lia. rewrite (proj2 (Z.leb_le _ _)) by lia. unfold wrap16. apply Z.mod_small. lia.
Qed.

(** *** Changes the ledger queues *)

Definition queued_ok (changes : list Change) : Prop :=
  Forall (fun c => ch_value c = None \/ ch_value c = Some held_value) changes.

Section held.
Context `{Sha256, AesGcm, !AesGcmSpec, Entropy, Footprint}.

(** Whether the last change to an id, if any, or the record has it. *)
Definition is_some {A} (o : option A) : bool := match o with Some _ => true | None => false end.
Definition held_after (changes : list Change) (records : list Rec) (id : ObjectId) : bool :=
  match change_of id (rev changes) with Some v => is_some v | None => is_some (alookup id records) end.

Lemma unique_changes_in input c : c ∈ ObjectTrie.unique_changes input -> c ∈ input.
Proof.
  unfold ObjectTrie.unique_changes. rewrite <- (stable_sort_elem ObjectTrie.change_ltb input c).
  set (l := stable_sort _ input). clearbody l.
  enough (forall acc, c ∈ foldl ObjectTrie.unique_step acc l -> c ∈ acc \/ c ∈ l) as Hgen.
  { intros [Hc|Hc]%Hgen; [by apply not_elem_of_nil in Hc | done]. }
  induction l as [|x l IH]; intros acc Hc; [by left|]. apply IH in Hc as [Hc|Hc]; [|right; by right].
  assert (forall l' : list Change, c ∈ removelast l' -> c ∈ l') as Hrem.
  { induction l' as [|y l' IHl]; [done|]. cbn [removelast]. destruct l'; [by intros ?%not_elem_of_nil|].
    rewrite !elem_of_cons in *. intros [->|Hy]; [by left | right; by apply IHl]. }
  unfold ObjectTrie.unique_step in Hc. destruct (last acc) as [y|]; [destruct (bool_decide _)|];
    apply elem_of_app in Hc as [Hc|Hc%list_elem_of_singleton]; subst; auto; right; by left.
Qed.

(** Such changes always fit a frame. *)
Lemma queued_fits records parts s changes :
  queued_ok changes -> journal_after (frames_of (ObjectTrie.unique_changes changes)) s <= u64_max ->
  room_for records (parts ++ frames_of (ObjectTrie.unique_changes changes)) s ->
  apply_fits records parts s (ObjectTrie.unique_changes changes).
Proof.
  intros Hq Hj Hr. assert (queued_ok (ObjectTrie.unique_changes changes)) as Hu.
  { apply Forall_forall. intros c Hc%unique_changes_in. unfold queued_ok in Hq. rewrite Forall_forall in Hq. by apply Hq. }
  assert (forall l, queued_ok l -> (length (flat_map change_bytes l) <= 45 * length l)%nat) as Hlen.
  { induction 1 as [|c l Hc Hl IH]; [done|]. cbn [flat_map length]. rewrite length_app. unfold change_bytes at 1.
    rewrite length_app, array_length. destruct Hc as [-> | ->]; [|unfold held_value, blob]; rewrite ?length_app, ?length_be_bytes; lia. }
  split; [| |done|done].
  - eapply Forall_impl; [exact Hu|]. intros c [E|E]; unfold change_fits; rewrite E; [done | by vm_compute].
  - apply Forall_forall. intros part Hp. apply chunks_elem in Hp as (_ & Hl & Hin & _); [|unfold ObjectTrie.changes_per_frame; lia].
    assert (queued_ok part) as Hpq by (apply Forall_forall; intros c Hc; unfold queued_ok in Hu; rewrite Forall_forall in Hu; auto).
    specialize (Hlen part Hpq). unfold changes_bytes. rewrite !length_app, !length_be_bytes.
    unfold ObjectTrie.changes_per_frame, ObjectTrie.max_frame in *. lia.
Qed.

(** Installing the queue is applying it to the trie. *)
Lemma install_queued_run s trie :
  ObjectTrie.apply (hl_queued s) (hl_trie s) = (Ok tt, trie) ->
  exists n, install_queued s = (Ok tt, set_removals n (set_trie trie (set_queued [] s))).
Proof.
  unfold install_queued, ObjectTrie.apply. rewrite (st_bind_ok _ _ _ (hl_queued s) s) by done.
  rewrite (st_bind_ok _ _ _ tt (set_queued [] s)) by done. destruct (hl_queued s) as [|c q].
  - intros [= <-]. exists (hl_removals s). by destruct s.
  - unfold mbind, st_bind. destruct (ObjectTrie.write _ (hl_trie s)) as [[[]|] t1] eqn:Ew; [|done].
    intros Ei. unfold on_trie at 1. cbn [hl_trie set_queued]. rewrite Ew. unfold on_trie. cbn [hl_trie set_trie].
    rewrite Ei. eexists. reflexivity.
Qed.

(** What the ledger answers. *)
Definition answers (s : t) (has : ObjectId -> bool) : Prop :=
  hl_seeded s = true /\ hl_marker s = true /\ forall id, exists s', held id s = (Ok (Some (has id)), s').

Lemma holds_answers s now :
  hl_seeded s = true -> hl_marker s = true -> holds now (hl_trie s) -> answers s (fun id => is_some (alookup id now)).
Proof.
  intros Hs Hm (w & r & p & (Hmem & _) & <-). split; [done|]. split; [done|]. intros id. unfold held.
  rewrite (st_bind_ok _ _ _ s s) by done. rewrite Hs. cbn [negb]. destruct (get_ok w _ (hl_trie s) id Hmem) as (trie & E & _).
  unfold on_trie, mbind, st_bind. rewrite E. eexists. reflexivity.
Qed.

(** Also after a crash, as long as its node file has room for its records. *)
Definition answers_durably (s : t) (has : ObjectId -> bool) : Prop :=
  answers s has /\
  exists world records parts, ledger world records parts (hl_trie s) /\
    (room_for records parts (hl_trie s) -> forall disk options, crash s disk ->
       exists s', open disk (ObjectTrie.key (hl_trie s)) options = Ok s' /\ answers s' has /\
         hl_queued s' = [] /\ hl_verify_next s' = read_verify_next (hl_verify_file s)).

Lemma answers_ext s has has' : answers s has -> (forall id, has id = has' id) -> answers s has'.
Proof. intros (H1' & H2' & Ha) E. split; [done|]. split; [done|]. intros id. rewrite <- E. apply Ha. Qed.

Lemma ledger_answers world records parts s has :
  hl_seeded s = true -> hl_marker s = true -> ledger world records parts (hl_trie s) ->
  (forall id, is_some (alookup id (merge_all records parts)) = has id) -> answers_durably s has.
Proof.
  intros Hs Hm Hl Hh. split.
  - eapply answers_ext; [apply (holds_answers s (merge_all records parts)); [done..|]; by exists world, records, parts | done].
  - exists world, records, parts. split; [done|]. intros Hr disk options (Hc & Em & Ev). destruct Hl as (Hmem & Hd & Hsync).
    destruct (open_ok world _ records parts (hl_trie s) (hd_trie disk) options Hmem Hd Hsync Hc Hr) as (trie & E & Hh').
    unfold open. rewrite E. cbn [mbind result_bind]. eexists. split; [reflexivity|]. rewrite Em, Hm, Ev. split; [|done].
    eapply answers_ext; [apply holds_answers; [done..|exact Hh'] | done].
Qed.

Lemma is_some_change changes records id :
  is_some (match change_of id (rev changes) with Some v => v | None => alookup id records end) = held_after changes records id.
Proof. unfold held_after. by destruct (change_of id (rev changes)). Qed.

(** *** Prefixes *)

(** An id's first two bytes as a number. *)
Definition first_two (id : ObjectId) : Z := b2z (abyte id 0) * 256 + b2z (abyte id 1).

Lemma two_bytes (a : ObjectId) : exists ta, abytes a = abyte a 0 :: abyte a 1 :: ta /\ length ta = 30%nat.
Proof.
  pose proof (array_length a) as Hl. unfold abyte. destruct (abytes a) as [|x [|y ta]]; [done..|]. exists ta.
  split; [done|]. cbn in Hl. lia.
Qed.

Lemma first_two_ltb (a b : ObjectId) ta tb :
  abytes a = abyte a 0 :: abyte a 1 :: ta -> abytes b = abyte b 0 :: abyte b 1 :: tb ->
  key_ltb a b = (first_two a <? first_two b) || ((first_two a =? first_two b) && bytes_ltb ta tb).
Proof.
  intros Ea Eb. change (key_ltb a b) with (bytes_ltb (abytes a) (abytes b)). rewrite Ea, Eb. cbn [bytes_ltb]. unfold first_two.
  pose proof (b2z_range (abyte a 0)). pose proof (b2z_range (abyte a 1)). pose proof (b2z_range (abyte b 0)). pose proof (b2z_range (abyte b 1)).
  destruct (Z.ltb_spec (b2z (abyte a 0)) (b2z (abyte b 0))).
  { rewrite (proj2 (Z.ltb_lt _ _)) by lia. done. }
  destruct (Z.ltb_spec (b2z (abyte b 0)) (b2z (abyte a 0))).
  { rewrite (proj2 (Z.ltb_ge _ _)), (proj2 (Z.eqb_neq _ _)) by lia. done. }
  destruct (Z.ltb_spec (b2z (abyte a 1)) (b2z (abyte b 1))).
  { rewrite (proj2 (Z.ltb_lt _ _)) by lia. done. }
  destruct (Z.ltb_spec (b2z (abyte b 1)) (b2z (abyte a 1))).
  { rewrite (proj2 (Z.ltb_ge _ _)), (proj2 (Z.eqb_neq _ _)) by lia. done. }
  rewrite (proj2 (Z.ltb_ge _ _)), (proj2 (Z.eqb_eq _ _)) by lia. done.
Qed.

Lemma first_two_mono a b : key_lt a b -> first_two a <= first_two b.
Proof.
  destruct (two_bytes a) as (ta & Ea & _), (two_bytes b) as (tb & Eb & _). unfold key_lt.
  rewrite (first_two_ltb a b ta tb Ea Eb). intros [H'%Z.ltb_lt|[H'%Z.eqb_eq _]%andb_true_iff]%orb_true_iff; lia.
Qed.

Lemma ff_greatest n tb : length tb = n -> bytes_ltb (replicate n xff) tb = false.
Proof.
  revert tb. induction n as [|n IH]; intros [|b tb] Hl; try done. cbn [replicate bytes_ltb].
  pose proof (b2z_range b). change (b2z xff) with 255. rewrite (proj2 (Z.ltb_ge 255 _)) by lia.
  destruct (_ <? 255); [done|]. apply IH. by injection Hl.
Qed.

Lemma prefix_bytes prefix : 0 <= prefix <= u16_max -> high_byte prefix * 256 + low_byte prefix = prefix /\
  0 <= high_byte prefix < 256 /\ 0 <= low_byte prefix < 256.
Proof.
  intros Hp. unfold high_byte, low_byte, wrap8, u16_max in *. rewrite Z.shiftr_div_pow2 by lia.
  replace (Z.land prefix 255) with (prefix mod 256) by (symmetry; apply (Z.land_ones prefix 8); lia).
  change (2 ^ 8) with 256 in *. pose proof (Z.div_mod prefix 256 ltac:(lia)). pose proof (Z.mod_pos_bound prefix 256 ltac:(lia)).
  rewrite Z.mod_mod by lia. rewrite (Z.mod_small (prefix / 256)); [lia|]. split; [apply Z.div_pos; lia | apply Z.div_lt_upper_bound; lia].
Qed.

Lemma has_prefix_eq prefix id : 0 <= prefix <= u16_max -> has_prefix prefix id = (first_two id =? prefix).
Proof.
  intros Hp. destruct (prefix_bytes prefix Hp) as (E & Hh & Hl). unfold has_prefix, first_two.
  pose proof (b2z_range (abyte id 0)). pose proof (b2z_range (abyte id 1)).
  destruct (Z.eqb_spec (b2z (abyte id 0)) (high_byte prefix)), (Z.eqb_spec (b2z (abyte id 1)) (low_byte prefix)); cbn [andb];
    symmetry; apply Z.eqb_eq || apply Z.eqb_neq; lia.
Qed.

(** What is after the last id of the prefix before: ids from the prefix on. *)
Lemma after_last_before prefix (r : Rec) :
  0 <= prefix <= u16_max ->
  match last_before prefix with Some a => key_lt a r.1 | None => True end <-> prefix <= first_two r.1.
Proof.
  intros Hp. unfold last_before. destruct (Z.eqb_spec prefix 0) as [->|Hne].
  { unfold first_two. pose proof (b2z_range (abyte r.1 0)). pose proof (b2z_range (abyte r.1 1)). split; [lia | done]. }
  destruct (prefix_bytes (prefix - 1)) as (E & Hh & Hl); [lia|].
  set (lb := array_fit 32 _).
  assert (abytes lb = [z2b (high_byte (prefix - 1)); z2b (low_byte (prefix - 1))] ++ replicate 30 xff) as Eb by reflexivity.
  assert (first_two lb = prefix - 1) as Ef.
  { unfold first_two, abyte. rewrite Eb. cbn [app nth]. rewrite !b2z_z2b_small by done. done. }
  destruct (two_bytes r.1) as (tb & Er & Htb). unfold key_lt.
  rewrite (first_two_ltb lb r.1 (replicate 30 xff) tb); [|unfold abyte; by rewrite Eb | done].
  rewrite ff_greatest by done. rewrite andb_false_r, orb_false_r, Ef, Z.ltb_lt. lia.
Qed.

Definition with_prefix (prefix : Z) (records : list Rec) : list ObjectId :=
  (base.filter (fun r : Rec => has_prefix prefix r.1 = true) records).*1.

Lemma with_prefix_app prefix a b : with_prefix prefix (a ++ b) = with_prefix prefix a ++ with_prefix prefix b.
Proof. unfold with_prefix. by rewrite filter_app, fmap_app. Qed.

Lemma fmap_filter_fst (P : ObjectId -> Prop) `{!forall x, Decision (P x)} (l : list Rec) :
  (base.filter (fun r : Rec => P r.1) l).*1 = base.filter P l.*1.
Proof.
  induction l as [|x l IH]; [done|]. cbn [fmap list_fmap]. rewrite !filter_cons, <- IH. by destruct (decide (P x.1)).
Qed.

(** Past the first id of a later prefix there is none of this one. *)
Lemma with_prefix_past prefix (r : Rec) rest :
  0 <= prefix <= u16_max -> sorted_recs (r :: rest) -> prefix <= first_two r.1 -> has_prefix prefix r.1 = false ->
  with_prefix prefix (r :: rest) = [].
Proof.
  intros Hp Hs Hge Hno. destruct r as [k v]. apply sorted_recs_cons in Hs as [Hs _]. unfold with_prefix.
  rewrite list_filter_none; [done|]. cbn [fst] in *. rewrite has_prefix_eq in Hno by done. apply Z.eqb_neq in Hno.
  constructor; [cbn; by rewrite has_prefix_eq, Z.eqb_eq by done|].
  eapply Forall_impl; [exact Hs|]. intros x Hx. cbn beta. rewrite has_prefix_eq, Z.eqb_eq by done.
  pose proof (first_two_mono _ _ Hx). lia.
Qed.

Lemma prefix_page_ok prefix page rest out :
  0 <= prefix <= u16_max -> sorted_recs (page ++ rest) -> Forall (fun r : Rec => prefix <= first_two r.1) page ->
  let '(out', go) := prefix_page prefix page out in
  out' = out ++ with_prefix prefix page /\ (go = false -> with_prefix prefix rest = []).
Proof.
  intros Hp Hs Hge. revert out. induction page as [|[id v] page IH]; intros out; cbn [prefix_page].
  { by rewrite app_nil_r. }
  apply Forall_cons in Hge as [Hge1 Hge]. destruct (has_prefix prefix id) eqn:E.
  - cbn [app] in Hs. pose proof Hs as [_ Hs']%sorted_recs_cons. specialize (IH Hs' Hge (out ++ [id])).
    destruct (prefix_page prefix page (out ++ [id])) as [out' go]. destruct IH as [-> Hgo]. split; [|done].
    rewrite <- app_assoc. unfold with_prefix at 2. rewrite filter_cons, decide_True by done. done.
  - pose proof (with_prefix_past prefix (id, v) (page ++ rest) Hp Hs Hge1 E) as En.
    change ((id, v) :: page ++ rest) with (((id, v) :: page) ++ rest) in En. rewrite with_prefix_app in En.
    apply app_nil in En as [-> ->]. by rewrite app_nil_r.
Qed.

Lemma prefix_loop_ok fuel prefix after out world now trie :
  0 <= prefix <= u16_max -> mem_ok world now trie -> sorted_recs now ->
  Forall (fun r : Rec => prefix <= first_two r.1) (after_bound after now) ->
  (length (after_bound after now) < fuel)%nat ->
  exists trie', prefix_loop fuel prefix after out trie = (Ok (out ++ with_prefix prefix (after_bound after now)), trie') /\
    mem_ok world now trie' /\ same_files trie trie'.
Proof.
  intros Hp Hm Hs. revert after out trie Hm. induction fuel as [|fuel IH]; intros after out trie Hm Hge Hf; [lia|].
  cbn [prefix_loop]. destruct (ledger_next_ok world now trie after prefix_page_size Hm) as (t1 & E & Hm1 & Hf1).
  rewrite (st_bind_ok _ _ _ _ _ E). set (rest := after_bound after now) in *.
  assert (sorted_recs rest) as Hsr by (unfold rest; destruct after; [by apply sorted_recs_filter | done]).
  pose proof (take_drop prefix_page_size rest) as Htd.
  assert (Forall (fun r : Rec => prefix <= first_two r.1) (take prefix_page_size rest)) as Hge1 by (by apply Forall_take).
  pose proof (prefix_page_ok prefix (take prefix_page_size rest) (drop prefix_page_size rest) out Hp ltac:(by rewrite Htd) Hge1) as Hpage.
  destruct (prefix_page prefix (take prefix_page_size rest) out) as [out1 go]. destruct Hpage as [-> Hgo].
  assert (with_prefix prefix rest = with_prefix prefix (take prefix_page_size rest) ++ with_prefix prefix (drop prefix_page_size rest)) as Ew
    by (by rewrite <- with_prefix_app, Htd).
  destruct go; cbn [negb]; [|exists t1; by rewrite Ew, (Hgo eq_refl), app_nil_r].
  destruct (Nat.ltb_spec (length (take prefix_page_size rest)) prefix_page_size) as [Hlt|Hfull].
  { exists t1. rewrite length_take in Hlt. by rewrite Ew, (drop_ge rest) by lia; rewrite app_nil_r. }
  assert (take prefix_page_size rest <> []) as Hne by (intros En; rewrite En in Hfull; cbn in Hfull; unfold prefix_page_size in Hfull; lia).
  assert (prefix_page_size <= length rest)%nat as Hlong by (rewrite length_take in Hfull; lia).
  destruct (exists_last Hne) as (l & r & El). rewrite El in *.
  pose proof (after_bound_page after now r l (drop prefix_page_size rest) Hs ltac:(by rewrite Htd)) as Hnext.
  destruct (IH (Some r.1) (out ++ with_prefix prefix (l ++ [r])) t1 Hm1) as (t2 & E2 & Hm2 & Hf2).
  - rewrite Hnext. by apply Forall_drop.
  - rewrite Hnext, length_drop. unfold prefix_page_size in *. lia.
  - exists t2. rewrite fmap_app. cbn [fmap list_fmap]. rewrite last_snoc, E2, Hnext, Ew.
    split; [by rewrite <- app_assoc|]. split; [done | by eapply same_files_trans].
Qed.

(** The ids under a two-byte prefix: whatever the trie holds, the walk
    returns exactly the held ids whose first two bytes are the prefix, in
    order. *)
Theorem held_prefix_complete (s : t) (prefix : Z) (now : list Rec) :
  0 <= prefix <= u16_max -> holds now (hl_trie s) ->
  exists s', held_with_prefix prefix s = (Ok (base.filter (fun id => first_two id = prefix) now.*1), s') /\
    holds now (hl_trie s').
Proof.
  intros Hp (w & r & p & (Hm & Hd & Hsync) & En). rewrite En in Hm.
  assert (sorted_recs now) as Hs by apply (mo_wf _ _ _ Hm).
  assert (after_bound (last_before prefix) now = base.filter (fun x : Rec => prefix <= first_two x.1) now) as Ea.
  { destruct (last_before prefix) as [a|] eqn:El; cbn [after_bound].
    - apply list_filter_iff. intros x. rewrite <- (after_last_before prefix x Hp). by rewrite El.
    - symmetry. apply list_filter_all, Forall_forall. intros x _. apply (after_last_before prefix x Hp). by rewrite El. }
  destruct (prefix_loop_ok (S (length now)) prefix (last_before prefix) [] w now (hl_trie s) Hp Hm Hs) as (t' & E & Hm' & Hf').
  - rewrite Ea. apply Forall_forall. intros x Hx. by apply list_elem_of_filter in Hx as [? _].
  - rewrite Ea. pose proof (length_filter (fun x : Rec => prefix <= first_two x.1) now). lia.
  - exists (set_trie t' s). split.
    + unfold held_with_prefix, on_trie. rewrite (st_bind_ok _ _ _ (hl_trie s) (hl_trie s)) by done.
      unfold ObjectTrie.size. rewrite (Repr_count _ _ _ _ (mo_root _ _ _ Hm)), Nat2Z.id, E, Ea. cbn [app]. do 2 f_equal.
      unfold with_prefix. rewrite list_filter_filter.
      rewrite (list_filter_iff _ (fun x : Rec => first_two x.1 = prefix)); [exact (fmap_filter_fst (fun id => first_two id = prefix) now)|].
      intros x. rewrite has_prefix_eq, Z.eqb_eq by done. lia.
    + exists w, r, p. split; [|done]. split; [by rewrite En|]. split; [by eapply dir_ok_same|]. destruct Hf' as (Ej & _).
      cbn [set_trie hl_trie]. by rewrite Ej.
Qed.

(** *** Flushing and seeding *)

Lemma install_queued_ok s world records parts :
  hl_marker s = true -> hl_seeded s = true ->
  queued_ok (hl_queued s) -> ledger world records parts (hl_trie s) ->
  journal_after (frames_of (ObjectTrie.unique_changes (hl_queued s))) (hl_trie s) <= u64_max ->
  room_for records (parts ++ frames_of (ObjectTrie.unique_changes (hl_queued s))) (hl_trie s) ->
  exists s', install_queued s = (Ok tt, s') /\ hl_queued s' = [] /\
    answers_durably s' (held_after (hl_queued s) (merge_all records parts)).
Proof.
  intros Hmk Hs Hq Hl Hj Hr.
  destruct (apply_ok world records parts (hl_trie s) (hl_queued s) Hl (queued_fits _ _ _ _ Hq Hj Hr))
    as (w' & trie & now & E & _ & (r' & p' & Hl' & Em) & _ & _ & Hnow).
  destruct (install_queued_run s trie E) as (n & Ei). eexists. split; [exact Ei|]. split; [done|].
  apply (ledger_answers w' r' p'); [done | done | exact Hl'|]. intros id. rewrite Em, Hnow. apply is_some_change.
Qed.

(** A flush makes the queued changes the record, in order. In a seeded
    ledger whose trie has room, it always returns; the queue is then empty,
    an object is held exactly when the last change queued for it says so, or,
    when there is none, when it was held before, and the ledger opened again
    after a crash answers the same. *)
Theorem flush_keeps_order (s : t) world records parts :
  hl_seeded s = true -> hl_marker s = true -> queued_ok (hl_queued s) -> ledger world records parts (hl_trie s) ->
  journal_after (frames_of (ObjectTrie.unique_changes (hl_queued s))) (hl_trie s) <= u64_max ->
  room_for records (parts ++ frames_of (ObjectTrie.unique_changes (hl_queued s))) (hl_trie s) ->
  exists s', flush s = (Ok tt, s') /\ hl_queued s' = [] /\
    answers_durably s' (held_after (hl_queued s) (merge_all records parts)).
Proof.
  intros Hs Hm Hq Hl Hj Hr. destruct (install_queued_ok s world records parts Hm Hs Hq Hl Hj Hr) as (s' & E & Hs').
  exists s'. split; [|done]. unfold flush. rewrite (st_bind_ok _ _ _ s s) by done. by rewrite Hs.
Qed.

(** Writes going on meanwhile. *)
Definition records_changes (changes : list (ObjectId * bool)) : ST t unit :=
  foldM (fun _ c => record c.1 c.2) tt changes.

Lemma records_queued changes s :
  records_changes changes s = (Ok tt, set_queued (hl_queued s ++ ((fun c => change_for c.1 c.2) <$> changes)) s).
Proof.
  unfold records_changes. revert s. induction changes as [|[id h] changes IH]; intros s; cbn [foldM fmap list_fmap].
  { rewrite app_nil_r. by destruct s. }
  rewrite (st_bind_ok _ _ _ tt (set_queued (hl_queued s ++ [change_for id h]) s)) by done. rewrite IH.
  cbn [hl_queued set_queued]. by rewrite <- app_assoc.
Qed.

Lemma changes_queued_ok changes : queued_ok ((fun c : ObjectId * bool => change_for c.1 c.2) <$> changes).
Proof. apply Forall_fmap, Forall_forall. intros [id [|]] _; [by right | by left]. Qed.

(** The seed of a record: the snapshot drops what was queued, changes are
    queued before and after the record is built, and what is queued by then
    is installed. *)
Definition seed_run (present : list ObjectId) (early late : list (ObjectId * bool)) : ST t unit :=
  _ ← drop_queued; _ ← records_changes early;
  _ ← seed_build present;
  _ ← records_changes late; seed_finish.

(** Room for the snapshot and what is queued. *)
Record seed_room (new : list Rec) (parts : list (list Change)) (changes : list Change) (trie : ObjectTrie.t) : Prop := {
  sr_wf : wf_recs 32 new;
  sr_batches : batches_ok new parts;
  sr_shallow : forall n, shallow (merge_all new (take n (frames_of (ObjectTrie.unique_changes changes))));
  sr_room : SealedJournal.bytes (ObjectTrie.nodes trie) +
    3 * room 32 (length new + length (concat (frames_of (ObjectTrie.unique_changes changes)))) < unsaved;
  sr_gen : ObjectTrie.generation trie + 2 < 2 ^ 64;
  sr_journal : frames_size (frames_of (ObjectTrie.unique_changes changes)) <= u64_max
}.

(** C22. Seeding loses no change. Whatever the ledger held, and whatever is
    queued while the record is being built from the snapshot, the seed
    returns with the ledger seeded, on disk too; an object is then held
    exactly when the last change queued since the snapshot says so, or, when
    there is none, when the snapshot has it. *)
Theorem seed_loses_nothing (s : t) world records parts present early late :
  let new := (fun id : ObjectId => (id, held_value)) <$> present in
  let changes := (fun c : ObjectId * bool => change_for c.1 c.2) <$> early ++ late in
  ledger world records parts (hl_trie s) -> seed_room new parts changes (hl_trie s) ->
  exists s', seed_run present early late s = (Ok tt, s') /\ hl_queued s' = [] /\
    answers_durably s' (held_after changes new).
Proof.
  intros new changes (Hm & Hd & _) [Hwf Hb Hsh Hr Hg Hj]. unfold seed_run, drop_queued. rewrite st_modify_bind.
  rewrite (st_bind_ok _ _ _ _ _ (records_queued early _)). cbn [hl_queued set_queued app].
  assert (capacity new (hl_trie s)) as Hcap.
  { split; [apply (Hsh 0%nat)|]. unfold room in *. split; lia. }
  destruct (replace_all_stages world _ records parts (hl_trie s) new Hm Hd Hwf Hcap Hb)
    as (_ & _ & _ & w & trie & _ & _ & _ & _ & _ & _ & _ & E & Hl & _ & _ & _ & Hg' & Hby).
  set (s1 := set_queued _ _). set (s2 := set_removals (wrap64 (hl_removals s1 + 1)) (set_trie trie s1)).
  assert (seed_build present s1 = (Ok tt, s2)) as E1.
  { unfold seed_build, on_trie, mbind, st_bind. fold new. change (hl_trie s1) with (hl_trie s). rewrite E. reflexivity. }
  rewrite (st_bind_ok _ _ _ _ _ E1), (st_bind_ok _ _ _ _ _ (records_queued late s2)).
  set (s3 := set_queued _ s2). assert (hl_queued s3 = changes) as Eq by (unfold changes; by rewrite fmap_app).
  assert (dir_ok new [] trie) as Hd' by apply Hl.
  destruct (apply_ok w new [] trie (hl_queued s3) Hl) as (w' & trie' & now & Ea & _ & (r' & p' & Hl' & Em) & _ & _ & Hnow).
  { rewrite Eq. apply queued_fits; [apply changes_queued_ok | | ].
    - unfold journal_after. destruct (do_frames _ _ _ Hd') as (l & [_ Hc _] & Hp). apply Forall2_nil_inv_r in Hp as ->.
      rewrite Hc. cbn [length frames_bytes]. rewrite Z.add_0_l. exact Hj.
    - split; [exact Hsh | unfold room in *; cbn [app]; lia | lia]. }
  destruct (install_queued_run s3 trie' Ea) as (n & Ei). unfold seed_finish. rewrite (st_bind_ok _ _ _ _ _ Ei).
  eexists. split; [reflexivity|]. split; [done|]. apply (ledger_answers w' r' p'); [done | done | exact Hl'|].
  intros id. rewrite Em, Hnow, Eq. apply is_some_change.
Qed.
End held.

(** ** Sample runs *)

#[local] Existing Instances Sample.gcm Sample.gcm_spec Sample.entropy Sample.sha Run.footprint.

Module HeldRun.
Definition trie : ObjectTrie.t := Run.empty.
Definition a : ObjectId := array_fit 32 [x01; x02].
Definition b : ObjectId := array_fit 32 [x01; x03].

(** [a] written and deleted again, [b] written. *)
Definition changes : list (ObjectId * bool) := [(a, true); (b, true); (a, false)].
Definition queue : list Change := (fun c => change_for c.1 c.2) <$> changes.
Definition ledger0 : t := mk trie true 0 0 queue true None.

Lemma queue_frames : frames_of (ObjectTrie.unique_changes queue) = [ObjectTrie.unique_changes queue].
Proof. by vm_compute. Qed.

Lemma queue_batches new : Z.of_nat (length new) <= 10 -> wf_recs 32 new -> batches_ok new [ObjectTrie.unique_changes queue].
Proof.
  intros Hl Hwf. split; [done | | ].
  - constructor; [|constructor]. split; [exact (proj1 (unique_changes_ok _))|]. by vm_compute; repeat constructor.
  - unfold total. rewrite Nat2Z.inj_add. replace (Z.of_nat (length (concat [ObjectTrie.unique_changes queue]))) with 2 by (by vm_compute). lia.
Qed.
End HeldRun.

Lemma flush_keeps_order_witness :
  exists s', flush HeldRun.ledger0 = (Ok tt, s') /\ hl_queued s' = [] /\
    answers_durably s' (held_after HeldRun.queue []) /\
    held_after HeldRun.queue [] HeldRun.a = false /\ held_after HeldRun.queue [] HeldRun.b = true.
Proof.
  destruct (flush_keeps_order HeldRun.ledger0 (new_world Sample.key Run.opts) [] []) as (s' & E & Hq & Ha).
  - done.
  - done.
  - apply changes_queued_ok.
  - apply new_ledger.
  - change (hl_queued HeldRun.ledger0) with HeldRun.queue. rewrite HeldRun.queue_frames. by vm_compute.
  - change (hl_queued HeldRun.ledger0) with HeldRun.queue. rewrite HeldRun.queue_frames.
    apply room_for_small; [|by vm_compute..]. apply HeldRun.queue_batches; [done | apply wf_empty].
  - exists s'. split; [exact E|]. split; [exact Hq|]. split; [exact Ha|]. by vm_compute.
Defined.

Lemma seed_loses_nothing_witness :
  let new := [(HeldRun.a, held_value)] in
  exists s', seed_run [HeldRun.a] [(HeldRun.a, true); (HeldRun.b, true)] [(HeldRun.a, false)]
      (mk HeldRun.trie false 0 0 [] false None) = (Ok tt, s') /\
    answers_durably s' (held_after HeldRun.queue new) /\
    held_after HeldRun.queue new HeldRun.a = false /\ held_after HeldRun.queue new HeldRun.b = true.
Proof.
  intros new. assert (wf_recs 32 new) as Hwf.
  { split; [lia | repeat constructor | constructor; [by vm_compute | constructor] | | done]. intros x y Hx Hy.
    apply list_elem_of_singleton in Hx as ->. by apply list_elem_of_singleton in Hy as ->. }
  destruct (seed_loses_nothing (mk HeldRun.trie false 0 0 [] false None) (new_world Sample.key Run.opts) [] [] [HeldRun.a]
    [(HeldRun.a, true); (HeldRun.b, true)] [(HeldRun.a, false)]) as (s' & E & _ & Ha).
  - apply new_ledger.
  - change ((fun c : ObjectId * bool => change_for c.1 c.2) <$> [(HeldRun.a, true); (HeldRun.b, true)] ++ [(HeldRun.a, false)])
      with HeldRun.queue.
    change ((fun id : ObjectId => (id, held_value)) <$> [HeldRun.a]) with new.
    pose proof (HeldRun.queue_batches new ltac:(done) Hwf) as Hb. rewrite <- HeldRun.queue_frames in Hb.
    split; [done | by apply batches_ok_nil | | | done | ]; rewrite HeldRun.queue_frames in *.
    + intros n. apply shallow_small. pose proof (merge_all_length _ _ (batches_take _ _ n Hb)) as Hl.
      assert (length (concat (take n [ObjectTrie.unique_changes HeldRun.queue])) <= 2)%nat.
      { destruct n as [|[|n]]; [cbn; lia | by vm_compute; lia | by vm_compute; lia]. }
      unfold leaf_max. unfold total in Hl. change (length new) with 1%nat in Hl. lia.
    + by vm_compute.
    + by vm_compute.
  - exists s'. split; [exact E|]. split; [exact Ha|]. split; reflexivity.
Defined.

Lemma held_prefix_complete_witness :
  exists s', held_with_prefix 258 (mk Run.after true 0 0 [] true None) =
    (Ok (base.filter (fun id => first_two id = 258) (merge_all [] Run.after_parts).*1), s').
Proof.
  destruct (held_prefix_complete (mk Run.after true 0 0 [] true None) 258 (merge_all [] Run.after_parts)) as (s' & E & _).
  - by vm_compute.
  - exact Run.after_holds.
  - exists s'. exact E.
Defined.
