(* ===== verification/ReferenceCounts.v ===== *)
(** * What the namespace refers to, counted

    [src/src/ledger/reference_counts.cpp], [ReferenceCounts]: a count for each
    extent and each tree node the namespace refers to, in two object tries,
    with the root they are counted at in a state file that is marked dirty
    while they change. *)

From S2P Require Import Prelude Sorts Maps Codec Journal Trie ObjectTrie TrieShape TrieOps TrieChange TrieDisk TrieWire TrieLedger TrieClaims Retention RetentionSet.

Module ReferenceCounts.

Definition state_magic : array 8 := ObjectTrie.tag8 "MREF0001".

Definition options_for (cache_bytes : Z) : ObjectTrie.Options :=
  ObjectTrie.mkOptions cache_bytes (1 * 1024 * 1024) (16 * 1024 * 1024).

Definition encode_count (count : Z) : result Bytes := Writer.run (Writer.u64 count).
Definition decode_count (value : Bytes) : result Z :=
  Reader.run (count ← Reader.u64; _ ← Reader.finish; mret count) value.

(** Runs of equal ids, which are next to each other: [upper_bound] finds the
    end of the first one. *)
Fixpoint runs (ids : list ObjectId) : list (ObjectId * Z) :=
  match ids with
  | [] => []
  | id :: rest =>
      match runs rest with
      | (id', n) :: more => if bool_decide (id = id') then (id', n + 1) :: more else (id, 1) :: (id', n) :: more
      | [] => [(id, 1)]
      end
  end.
Definition counted (ids : list ObjectId) : result (list Rec) :=
  foldM (fun out r => bytes ← encode_count r.2; Ok (out ++ [(r.1, bytes)])) [] (runs (stable_sort key_ltb ids)).

(** [++delta[id]], [--delta[id]]. *)
Definition add_delta (by_ : Z) (delta : list (ObjectId * Z)) (id : ObjectId) : list (ObjectId * Z) :=
  map_set id (default 0 (alookup id delta) + by_) delta.
Definition delta_of (inp out : list ObjectId) : list (ObjectId * Z) :=
  foldl (add_delta (-1)) (foldl (add_delta 1) [] inp) out.

(** [static_cast<int64_t>] of a [uint64_t]. *)
Definition to_i64 (n : Z) : Z := if n <? 2 ^ 63 then n else n - 2 ^ 64.

Record Totals : Type := mkTotals { tt_entries : Z; tt_extent_count : Z }.
Definition no_totals : Totals := mkTotals 0 0.

Record t : Type := mk {
  rc_extents : ObjectTrie.t;
  rc_nodes : ObjectTrie.t;
  rc_root : option ObjectId;
  rc_totals : Totals;
  (** The file [state]. *)
  rc_file : option Bytes
}.
Definition set_extents (trie : ObjectTrie.t) (s : t) : t := mk trie (rc_nodes s) (rc_root s) (rc_totals s) (rc_file s).
Definition set_nodes (trie : ObjectTrie.t) (s : t) : t := mk (rc_extents s) trie (rc_root s) (rc_totals s) (rc_file s).
Definition set_root (root : option ObjectId) (totals : Totals) (s : t) : t :=
  mk (rc_extents s) (rc_nodes s) root totals (rc_file s).
Definition set_file (file : Bytes) (s : t) : t := mk (rc_extents s) (rc_nodes s) (rc_root s) (rc_totals s) (Some file).

Section ops.
Context `{Sha256, AesGcm, Entropy, Footprint}.

Definition on_extents {A} (m : ST ObjectTrie.t A) : ST t A := fun s =>
  let '(r, trie) := m (rc_extents s) in (r, set_extents trie s).
Definition on_nodes {A} (m : ST ObjectTrie.t A) : ST t A := fun s =>
  let '(r, trie) := m (rc_nodes s) in (r, set_nodes trie s).

Fixpoint changes_loop (delta : list (ObjectId * Z)) (changes : list Change) : ST ObjectTrie.t (option (list Change)) :=
  match delta with
  | [] => mret (Some changes)
  | (id, by_) :: rest =>
      if by_ =? 0 then changes_loop rest changes
      else
        value ← ObjectTrie.get id;
        count ← st_lift (match value with Some bytes => decode_count bytes | None => Ok 0 end);
        let now := to_i64 count in
        if now + by_ <? 0 then mret None
        else if now + by_ =? 0 then changes_loop rest (changes ++ [mkChange id None])
        else
          bytes ← st_lift (encode_count (wrap64 (now + by_)));
          changes_loop rest (changes ++ [mkChange id (Some bytes)])
  end.
Definition changes_for (inp out : list ObjectId) : ST ObjectTrie.t (option (list Change)) :=
  changes_loop (delta_of inp out) [].

Definition encode_counts_state (clean : bool) (root : option ObjectId) (totals : Totals) : result Bytes :=
  Writer.run
    (Writer.fixed state_magic ;;; Writer.u8 (if clean then 1 else 0) ;;;
     Writer.u8 (match root with Some _ => 1 | None => 0 end) ;;;
     Writer.fixed (match root with Some id => id | None => array_zero 32 end) ;;;
     Writer.u64 (tt_entries totals) ;;; Writer.u64 (tt_extent_count totals)).
Definition write_state (clean : bool) : ST t unit :=
  s ← st_get;
  bytes ← st_lift (encode_counts_state clean (rc_root s) (rc_totals s));
  st_modify (set_file bytes).

(** What the state file says: a root and totals, when it is whole and clean. *)
Definition decode_counts_state (bytes : Bytes) : result (option ObjectId * Totals) :=
  Reader.run
    (magic ← Reader.fixed 8;
     if negb (bool_decide (magic = state_magic)) then mret (None, no_totals)
     else
       clean ← Reader.u8;
       has_root ← Reader.u8;
       root ← Reader.fixed 32;
       entries ← Reader.u64;
       extent_count ← Reader.u64;
       _ ← Reader.finish;
       if negb (clean =? 1) then mret (None, no_totals)
       else mret (if has_root =? 1 then Some root else None, mkTotals entries extent_count)) bytes.

Record Disk : Type := mkDisk { cd_extents : ObjectTrie.Disk; cd_nodes : ObjectTrie.Disk; cd_file : option Bytes }.

Definition open (disk : Disk) (key : array 32) (cache_bytes : Z) : result t :=
  extents ← ObjectTrie.open (cd_extents disk) key (options_for (cache_bytes - cache_bytes / 4));
  nodes ← ObjectTrie.open (cd_nodes disk) key (options_for (cache_bytes / 4));
  let '(root, totals) :=
    match cd_file disk with
    | None => (None, no_totals)
    | Some bytes => match decode_counts_state bytes with Ok r => r | Throw _ => (None, no_totals) end
    end in
  Ok (mk extents nodes root totals (cd_file disk)).

Definition reset (root : option ObjectId) (extents nodes : list ObjectId) (totals : Totals) : ST t unit :=
  _ ← write_state false;
  records ← st_lift (counted extents);
  _ ← on_extents (ObjectTrie.replace_all records);
  records ← st_lift (counted nodes);
  _ ← on_nodes (ObjectTrie.replace_all records);
  _ ← st_modify (set_root root totals);
  write_state true.

Definition change (root : ObjectId) (extents_in extents_out nodes_in nodes_out : list ObjectId) (totals : Totals) : ST t bool :=
  extent_changes ← on_extents (changes_for extents_in extents_out);
  node_changes ← on_nodes (changes_for nodes_in nodes_out);
  match extent_changes, node_changes with
  | Some extent_changes, Some node_changes =>
      _ ← write_state false;
      _ ← on_extents (ObjectTrie.apply extent_changes);
      _ ← on_nodes (ObjectTrie.apply node_changes);
      _ ← st_modify (set_root (Some root) totals);
      _ ← write_state true;
      mret true
  | _, _ => mret false
  end.

Definition views : ST t (ObjectTrie.Snapshot * ObjectTrie.Snapshot) :=
  extents ← on_extents ObjectTrie.snapshot; nodes ← on_nodes ObjectTrie.snapshot; mret (extents, nodes).

(** What a crash leaves. *)
Definition crash (s : t) (disk : Disk) : Prop :=
  ObjectTrie.crash (rc_extents s) (cd_extents disk) /\ ObjectTrie.crash (rc_nodes s) (cd_nodes disk) /\ cd_file disk = rc_file s.
End ops.
End ReferenceCounts.

(** ** Counts *)

Import ReferenceCounts.

Definition count_bytes (n : Z) : Bytes := be_bytes 8 n.
(** Every record is a count, within what a signed 64-bit number holds. *)
Definition counts_in (records : list Rec) : Prop :=
  Forall (fun r : Rec => exists n, 0 < n < 2 ^ 63 /\ r.2 = count_bytes n) records.
Definition value_count (value : option Bytes) : Z :=
  match value with Some bytes => match decode_count bytes with Ok n => n | Throw _ => 0 end | None => 0 end.
(** How many times an id is counted, and how many times it is in a list. *)
Definition count (records : list Rec) (id : ObjectId) : Z := value_count (alookup id records).
Definition times (id : ObjectId) (ids : list ObjectId) : Z := Z.of_nat (length (base.filter (fun x => x = id) ids)).

Lemma encode_count_ok n : encode_count n = Ok (count_bytes n).
Proof. apply writes_run, writes_u64. Qed.
Lemma decode_count_ok n : 0 <= n < 2 ^ 64 -> decode_count (count_bytes n) = Ok n.
Proof.
  intros Hn. apply finishes_run. unfold count_bytes. rewrite <- (app_nil_r (be_bytes 8 n)).
  eapply finishes_bind; [by apply reads_u64 | apply finishes_finish_ret].
Qed.

Lemma count_of records id :
  counts_in records ->
  0 <= count records id < 2 ^ 63 /\
  match alookup id records with Some bytes => decode_count bytes | None => Ok 0 end = Ok (count records id).
Proof.
  intros Hc. unfold count, value_count. destruct (alookup id records) as [bs|] eqn:E; [|split; [lia | done]].
  apply alookup_Some_elem in E. unfold counts_in in Hc. rewrite Forall_forall in Hc. destruct (Hc _ E) as (n & Hn & Eb).
  cbn in Eb. subst bs. rewrite decode_count_ok by lia. split; [lia | done].
Qed.

(** *** Deltas *)

Lemma add_delta_sorted by_ delta id : sorted_recs delta -> sorted_recs (add_delta by_ delta id).
Proof. apply map_set_sorted. Qed.
Lemma add_delta_lookup by_ delta id id' :
  default 0 (alookup id' (add_delta by_ delta id)) = default 0 (alookup id' delta) + (if decide (id = id') then by_ else 0).
Proof.
  unfold add_delta. rewrite map_set_lookup. destruct (decide (id' = id)) as [->|]; [by rewrite decide_True|].
  rewrite decide_False by done. lia.
Qed.

Lemma times_cons id x l : times id (x :: l) = times id l + (if decide (x = id) then 1 else 0).
Proof. unfold times. rewrite filter_cons. destruct (decide (x = id)); cbn [length]; lia. Qed.

Lemma fold_delta by_ ids delta id :
  default 0 (alookup id (foldl (add_delta by_) delta ids)) = default 0 (alookup id delta) + by_ * times id ids.
Proof.
  revert delta. induction ids as [|x ids IH]; intros delta; cbn [foldl]; [unfold times; cbn; lia|].
  rewrite IH, add_delta_lookup, times_cons. destruct (decide (x = id)); lia.
Qed.
Lemma fold_delta_sorted by_ ids delta : sorted_recs delta -> sorted_recs (foldl (add_delta by_) delta ids).
Proof. revert delta. induction ids as [|x ids IH]; intros delta Hs; [done|]. by apply IH, add_delta_sorted. Qed.

Lemma delta_ok inp out :
  sorted_recs (delta_of inp out) /\ forall id, default 0 (alookup id (delta_of inp out)) = times id inp - times id out.
Proof.
  unfold delta_of. split; [apply fold_delta_sorted, fold_delta_sorted; by apply SSorted_nil|].
  intros id. rewrite !fold_delta. cbn. lia.
Qed.

(** *** The changes a delta makes *)

Definition changed (records : list Rec) (e : ObjectId * Z) : list Change :=
  if e.2 =? 0 then []
  else [mkChange e.1 (if count records e.1 + e.2 =? 0 then None else Some (count_bytes (count records e.1 + e.2)))].
Definition delta_changes (records : list Rec) (delta : list (ObjectId * Z)) : list Change := flat_map (changed records) delta.
(** No count goes below zero. *)
Definition covered_by (records : list Rec) (delta : list (ObjectId * Z)) : bool :=
  forallb (fun e => (e.2 =? 0) || (0 <=? count records e.1 + e.2)) delta.

Lemma delta_changes_lookup records delta id :
  sorted_recs delta ->
  change_of id (delta_changes records delta) =
  match alookup id delta with
  | Some by_ => if by_ =? 0 then None else Some (if count records id + by_ =? 0 then None else Some (count_bytes (count records id + by_)))
  | None => None
  end.
Proof.
  induction delta as [|[k v] delta IH]; intros Hs; [done|]. pose proof Hs as [Hk Hs']%sorted_recs_cons.
  change (delta_changes records ((k, v) :: delta)) with (changed records (k, v) ++ delta_changes records delta).
  rewrite change_of_app, alookup_cons, (IH Hs'). unfold changed. cbn [fst snd].
  destruct (decide (id = k)) as [->|Hne].
  - rewrite (alookup_below k delta) by done. destruct (v =? 0); cbn [change_of ch_id ch_value]; [done|]. by rewrite decide_True.
  - destruct (v =? 0); cbn [change_of ch_id]; [done|]. by rewrite decide_False.
Qed.

Lemma delta_changes_sorted records delta : sorted_recs delta -> sorted_changes (delta_changes records delta).
Proof.
  induction delta as [|[k v] delta IH]; intros Hs; [constructor|]. apply sorted_recs_cons in Hs as [Hk Hs].
  change (delta_changes records ((k, v) :: delta)) with (changed records (k, v) ++ delta_changes records delta).
  unfold changed. cbn [fst snd]. destruct (v =? 0); [by apply IH|]. apply sorted_changes_cons. split; [|by apply IH].
  apply Forall_forall. intros c Hc. unfold delta_changes in Hc. apply list_elem_of_In, in_flat_map in Hc as (e & He & Hc).
  unfold changed in Hc. destruct (e.2 =? 0); [done|]. destruct Hc as [<-|[]]. rewrite Forall_forall in Hk. apply (Hk e).
  by apply list_elem_of_In.
Qed.

Lemma change_of_rev id l : sorted_changes l -> change_of id (rev l) = change_of id l.
Proof.
  induction l as [|c l IH]; intros Hs; [done|]. apply sorted_changes_cons in Hs as [Hc Hs]. cbn [rev change_of].
  rewrite change_of_app, (IH Hs). cbn [change_of]. destruct (decide (id = ch_id c)) as [->|]; [by rewrite change_of_above|].
  by destruct (change_of id l).
Qed.

Section counts.
Context `{Sha256, AesGcm, !AesGcmSpec, Entropy, Footprint}.

Lemma changes_loop_ok delta changes world records trie :
  mem_ok world records trie -> counts_in records ->
  Forall (fun e : ObjectId * Z => count records e.1 + e.2 < 2 ^ 63) delta ->
  exists trie', changes_loop delta changes trie =
      (Ok (if covered_by records delta then Some (changes ++ delta_changes records delta) else None), trie') /\
    mem_ok world records trie' /\ same_files trie trie'.
Proof.
  intros Hm Hc Hd. revert changes trie Hm. induction Hd as [|[id by_] delta Hb Hd IH]; intros changes trie Hm; cbn [changes_loop].
  { exists trie. cbn. rewrite app_nil_r. split; [done|]. split; [done | by unfold same_files]. }
  cbn [covered_by forallb fst snd] in *. change (forallb _ delta) with (covered_by records delta).
  change (delta_changes records ((id, by_) :: delta)) with (changed records (id, by_) ++ delta_changes records delta).
  unfold changed. cbn [fst snd]. destruct (Z.eqb_spec by_ 0) as [->|Hne]; cbn [orb andb app]; [by apply IH|].
  destruct (get_ok world records trie id Hm) as (t1 & E & Hm1 & Hf1). rewrite (st_bind_ok _ _ _ _ _ E).
  destruct (count_of records id Hc) as [Hn ->]. rewrite (st_bind_ok _ _ _ (count records id) t1) by done.
  unfold to_i64. rewrite (proj2 (Z.ltb_lt (count records id) _)) by lia.
  destruct (Z.ltb_spec (count records id + by_) 0) as [Hlt|Hge].
  { exists t1. by rewrite (proj2 (Z.leb_gt 0 _)). }
  rewrite (proj2 (Z.leb_le 0 _)) by done. cbn [andb].
  assert (forall c, exists t2, changes_loop delta (changes ++ [c]) t1 =
      (Ok (if covered_by records delta then Some (changes ++ c :: delta_changes records delta) else None), t2) /\
    mem_ok world records t2 /\ same_files trie t2) as Hnext.
  { intros c. destruct (IH (changes ++ [c]) t1 Hm1) as (t2 & E2 & Hm2 & Hf2). exists t2. rewrite E2, <- app_assoc.
    split; [done|]. split; [done | by eapply same_files_trans]. }
  destruct (Z.eqb_spec (count records id + by_) 0) as [Hz|Hz]; [apply Hnext|].
  rewrite wrap64_small, encode_count_ok by lia. rewrite (st_bind_ok _ _ _ (count_bytes (count records id + by_)) t1) by done.
  apply Hnext.
Qed.

(** Counts after the changes. *)
Lemma counts_after records now inp out :
  counts_in records ->
  (forall id, 0 <= count records id + times id inp - times id out < 2 ^ 63) ->
  (forall id, alookup id now =
     match change_of id (rev (delta_changes records (delta_of inp out))) with Some v => v | None => alookup id records end) ->
  sorted_recs now ->
  counts_in now /\ forall id, count now id = count records id + times id inp - times id out.
Proof.
  intros Hc Hr Hnow Hsn. destruct (delta_ok inp out) as [Hs Hd].
  assert (forall id, alookup id now = match change_of id (delta_changes records (delta_of inp out)) with
    Some v => v | None => alookup id records end) as Hnow'.
  { intros id. rewrite Hnow. by rewrite change_of_rev by (by apply delta_changes_sorted). }
  assert (forall id, (exists n, alookup id now = Some (count_bytes n) /\ 0 < n < 2 ^ 63 /\ n = count records id + times id inp - times id out) \/
    (alookup id now = alookup id records /\ times id inp = times id out) \/
    (alookup id now = None /\ count records id + times id inp - times id out = 0)) as Hall.
  { intros id. specialize (Hr id). specialize (Hd id). rewrite (Hnow' id), delta_changes_lookup by done.
    destruct (alookup id (delta_of inp out)) as [by_|]; cbn in Hd; [|right; left; split; [done | lia]].
    destruct (Z.eqb_spec by_ 0); [right; left; split; [done | lia]|].
    destruct (Z.eqb_spec (count records id + by_) 0); [right; right; split; [done | lia]|].
    left. exists (count records id + by_). split; [done | lia]. }
  split.
  - apply Forall_forall. intros [id bs] Hin. apply elem_alookup_Some in Hin; [|done].
    destruct (Hall id) as [(n & E & Hn & _)|[[E _]|[E _]]]; rewrite Hin in E; [|symmetry in E|done].
    + injection E as ->. by exists n.
    + apply alookup_Some_elem in E. unfold counts_in in Hc. rewrite Forall_forall in Hc. by apply Hc.
  - intros id. unfold count at 1. destruct (Hall id) as [(n & -> & Hn & ->)|[[-> E]|[-> E]]]; cbn [value_count].
    + by rewrite decode_count_ok by lia.
    + unfold count. lia.
    + lia.
Qed.

(** ** The state file *)

Definition counts_state (clean : bool) (root : option ObjectId) (totals : Totals) : Bytes :=
  abytes state_magic ++ be_bytes 1 (if clean then 1 else 0) ++ be_bytes 1 (match root with Some _ => 1 | None => 0 end) ++
  abytes (match root with Some id => id | None => array_zero 32 end) ++ be_bytes 8 (tt_entries totals) ++
  be_bytes 8 (tt_extent_count totals).
Definition totals_ok (totals : Totals) : Prop := 0 <= tt_entries totals < 2 ^ 64 /\ 0 <= tt_extent_count totals < 2 ^ 64.

Lemma encode_counts_state_ok clean root totals : encode_counts_state clean root totals = Ok (counts_state clean root totals).
Proof. apply writes_run. unfold counts_state. do 5 (apply writes_seq; [auto with codec|]). apply writes_u64. Qed.

Lemma decode_counts_state_ok clean root totals :
  totals_ok totals ->
  decode_counts_state (counts_state clean root totals) = Ok (if clean then (root, totals) else (None, no_totals)).
Proof.
  intros [Ht1 Ht2]. apply finishes_run. unfold counts_state. rewrite <- (app_nil_r (be_bytes 8 (tt_extent_count totals))).
  eapply finishes_bind; [apply reads_fixed|]. rewrite bool_decide_true by done. cbn [negb].
  eapply finishes_bind; [apply reads_u8; by destruct clean|]. eapply finishes_bind; [apply reads_u8; by destruct root|].
  eapply finishes_bind; [apply reads_fixed|]. eapply finishes_bind; [by apply reads_u64|].
  eapply finishes_bind; [by apply reads_u64|]. destruct clean; cbn [Z.eqb negb].
  - destruct root, totals; apply finishes_finish_ret.
  - apply finishes_finish_ret.
Qed.

Lemma write_state_ok clean s :
  write_state clean s = (Ok tt, set_file (counts_state clean (rc_root s) (rc_totals s)) s).
Proof.
  unfold write_state. rewrite (st_bind_ok _ _ _ s s) by done. rewrite encode_counts_state_ok.
  by rewrite (st_bind_ok _ _ _ (counts_state clean (rc_root s) (rc_totals s)) s).
Qed.

(** *** The counts it keeps *)

(** The tries hold these records, which are counts. *)
Record counts_ok (wE wN : World) (rE rN : list Rec) (pE pN : list (list Change)) (s : t) : Prop := {
  ct_extents : ledger wE rE pE (rc_extents s);
  ct_nodes : ledger wN rN pN (rc_nodes s);
  ct_extent_counts : counts_in (merge_all rE pE);
  ct_node_counts : counts_in (merge_all rN pN);
  ct_totals : totals_ok (rc_totals s);
  ct_keys : ObjectTrie.key (rc_extents s) = ObjectTrie.key (rc_nodes s)
}.

(** Items that can be put in and taken out of the counts, the trie having
    room for the changes. *)
Definition can_change (records : list Rec) (inp out : list ObjectId) : Prop :=
  forall id, 0 <= count records id + times id inp - times id out.
Definition counts_bound (records : list Rec) (inp : list ObjectId) : Prop :=
  forall id, count records id + times id inp < 2 ^ 63.

Lemma times_nonneg id ids : 0 <= times id ids.
Proof. unfold times. lia. Qed.

Lemma covered_can_change records inp out :
  counts_in records -> covered_by records (delta_of inp out) = true <-> can_change records inp out.
Proof.
  intros Hc. destruct (delta_ok inp out) as [Hs Hd]. unfold covered_by. rewrite forallb_forall. split.
  - intros Hall id. specialize (Hd id). destruct (alookup id (delta_of inp out)) as [by_|] eqn:E; cbn in Hd.
    + apply alookup_Some_elem, list_elem_of_In, Hall in E. cbn in E.
      destruct (count_of records id Hc). apply orb_true_iff in E as [E%Z.eqb_eq|E%Z.leb_le]; lia.
    + destruct (count_of records id Hc). lia.
  - intros Hcan [id by_] Hin. apply list_elem_of_In, elem_alookup_Some in Hin; [|done]. specialize (Hd id). rewrite Hin in Hd.
    cbn in Hd. specialize (Hcan id). apply orb_true_iff. right. apply Z.leb_le. cbn. lia.
Qed.

Lemma delta_bound records inp out :
  counts_bound records inp -> Forall (fun e : ObjectId * Z => count records e.1 + e.2 < 2 ^ 63) (delta_of inp out).
Proof.
  intros Hb. destruct (delta_ok inp out) as [Hs Hd]. apply Forall_forall. intros [id by_] Hin.
  apply elem_alookup_Some in Hin; [|done]. specialize (Hd id). rewrite Hin in Hd. cbn in Hd |- *. specialize (Hb id).
  pose proof (times_nonneg id out). lia.
Qed.

Lemma ledger_same world records parts trie trie' :
  ledger world records parts trie -> mem_ok world (merge_all records parts) trie' -> same_files trie trie' ->
  ledger world records parts trie'.
Proof. intros (_ & Hd & Hs) Hm Hf. split; [done|]. split; [by eapply dir_ok_same|]. destruct Hf as (-> & _). done. Qed.

(** Working out both tries' changes changes neither. *)
Lemma both_changes wE wN rE rN pE pN s ein eout nin nout :
  counts_ok wE wN rE rN pE pN s -> counts_bound (merge_all rE pE) ein -> counts_bound (merge_all rN pN) nin ->
  let answer records inp out :=
    if covered_by records (delta_of inp out) then Some (delta_changes records (delta_of inp out)) else None in
  exists s1 s2, on_extents (changes_for ein eout) s = (Ok (answer (merge_all rE pE) ein eout), s1) /\
    on_nodes (changes_for nin nout) s1 = (Ok (answer (merge_all rN pN) nin nout), s2) /\
    counts_ok wE wN rE rN pE pN s2 /\ rc_root s2 = rc_root s /\ rc_totals s2 = rc_totals s /\ rc_file s2 = rc_file s /\
    same_files (rc_extents s) (rc_extents s2) /\ same_files (rc_nodes s) (rc_nodes s2).
Proof.
  intros [HE HN CE CN Ht Hk] BE BN answer.
  destruct (changes_loop_ok (delta_of ein eout) [] wE _ (rc_extents s) (proj1 HE) CE (delta_bound _ _ _ BE)) as (e & Ee & Hme & Hfe).
  destruct (changes_loop_ok (delta_of nin nout) [] wN _ (rc_nodes s) (proj1 HN) CN (delta_bound _ _ _ BN)) as (n & En & Hmn & Hfn).
  exists (set_extents e s), (set_nodes n (set_extents e s)).
  split; [unfold on_extents, changes_for; rewrite Ee; reflexivity|].
  split; [unfold on_nodes, changes_for; change (rc_nodes (set_extents e s)) with (rc_nodes s); rewrite En; reflexivity|].
  split; [|done]. split; cbn; [by eapply ledger_same | by eapply ledger_same | done | done | done |].
  destruct Hfe as (_ & _ & _ & _ & -> & _). destruct Hfn as (_ & _ & _ & _ & -> & _). done.
Qed.

Lemma apply_counts world records parts trie inp out :
  ledger world records parts trie -> counts_in (merge_all records parts) -> counts_bound (merge_all records parts) inp ->
  can_change (merge_all records parts) inp out ->
  apply_fits records parts trie (ObjectTrie.unique_changes (delta_changes (merge_all records parts) (delta_of inp out))) ->
  exists w r p trie', ObjectTrie.apply (delta_changes (merge_all records parts) (delta_of inp out)) trie = (Ok tt, trie') /\
    ledger w r p trie' /\ ObjectTrie.key trie' = ObjectTrie.key trie /\ counts_in (merge_all r p) /\
    forall id, count (merge_all r p) id = count (merge_all records parts) id + times id inp - times id out.
Proof.
  intros Hl Hc Hb Hcan Hfit. destruct (apply_ok world records parts trie _ Hl Hfit)
    as (w & trie' & now & E & _ & (r & p & Hl' & Em) & Hk & _ & Hnow).
  exists w, r, p, trie'. split; [done|]. split; [done|]. split; [done|]. rewrite Em.
  apply counts_after; [done | | done |].
  - intros id. specialize (Hcan id). specialize (Hb id). pose proof (times_nonneg id out). lia.
  - rewrite <- Em. apply (mo_wf _ _ _ (proj1 Hl')).
Qed.

(** What opening the counts again gives. *)
Definition reopens (s : t) (wE wN : World) (rE rN : list Rec) (pE pN : list (list Change)) : Prop :=
  room_for rE pE (rc_extents s) -> room_for rN pN (rc_nodes s) ->
  forall disk cache, crash s disk ->
    exists s', open disk (ObjectTrie.key (rc_nodes s)) cache = Ok s' /\ rc_root s' = rc_root s /\ rc_totals s' = rc_totals s /\
      holds (merge_all rE pE) (rc_extents s') /\ holds (merge_all rN pN) (rc_nodes s').

Lemma clean_reopens wE wN rE rN pE pN s :
  counts_ok wE wN rE rN pE pN s -> rc_file s = Some (counts_state true (rc_root s) (rc_totals s)) ->
  reopens s wE wN rE rN pE pN.
Proof.
  intros [(ME & DE & SE) (MN & DN & SN) _ _ Ht Hk] Hfile RE RN disk cache (CE & CN & Ef).
  destruct (open_ok wE _ rE pE _ (cd_extents disk) (options_for (cache - cache / 4)) ME DE SE CE RE) as (e & Ee & He).
  destruct (open_ok wN _ rN pN _ (cd_nodes disk) (options_for (cache / 4)) MN DN SN CN RN) as (n & En & Hn).
  unfold open. rewrite Hk in Ee. rewrite Ee. cbn [mbind result_bind]. rewrite En. cbn [mbind result_bind].
  rewrite Ef, Hfile, decode_counts_state_ok by done. eexists. split; [reflexivity|]. done.
Qed.

(** ** Changing the counts *)

Lemma apply_fits_same records parts s s' changes :
  same_files s s' -> apply_fits records parts s changes -> apply_fits records parts s' changes.
Proof.
  intros (Ej & En & _ & Eg & _) [H1' H2' H3' [R1 R2 R3]]. split; [done | done | |].
  - unfold journal_after in *. by rewrite Ej.
  - split; rewrite ?En, ?Eg; done.
Qed.

(** C21. A change of the counts is exact, or refused whole. When every item
    to take out is counted, in the extents and in the nodes, it returns true
    with each count the old one plus the times the id is put in minus the
    times it is taken out, at the new root; opened again after any crash the
    counts and the root are the same. When one is not, it returns false, and
    neither the counts, the root nor a file has changed. *)
Theorem change_exact_or_refused (s : t) wE wN rE rN pE pN root ein eout nin nout totals :
  counts_ok wE wN rE rN pE pN s ->
  counts_bound (merge_all rE pE) ein -> counts_bound (merge_all rN pN) nin -> totals_ok totals ->
  let E := merge_all rE pE in
  let N := merge_all rN pN in
  (can_change E ein eout /\ can_change N nin nout ->
   apply_fits rE pE (rc_extents s) (ObjectTrie.unique_changes (delta_changes E (delta_of ein eout))) ->
   apply_fits rN pN (rc_nodes s) (ObjectTrie.unique_changes (delta_changes N (delta_of nin nout))) ->
   exists s' wE' wN' rE' rN' pE' pN', change root ein eout nin nout totals s = (Ok true, s') /\
     rc_root s' = Some root /\ rc_totals s' = totals /\ counts_ok wE' wN' rE' rN' pE' pN' s' /\
     (forall id, count (merge_all rE' pE') id = count E id + times id ein - times id eout) /\
     (forall id, count (merge_all rN' pN') id = count N id + times id nin - times id nout) /\
     reopens s' wE' wN' rE' rN' pE' pN') /\
  (~ (can_change E ein eout /\ can_change N nin nout) ->
   exists s', change root ein eout nin nout totals s = (Ok false, s') /\
     counts_ok wE wN rE rN pE pN s' /\ rc_root s' = rc_root s /\ rc_totals s' = rc_totals s /\ rc_file s' = rc_file s /\
     same_files (rc_extents s) (rc_extents s') /\ same_files (rc_nodes s) (rc_nodes s')).
Proof.
  intros Hk BE BN Ht E N. pose proof Hk as [HE HN CE CN Ht0 Hkeys].
  destruct (both_changes wE wN rE rN pE pN s ein eout nin nout Hk BE BN) as (s1 & s2 & E1 & E2 & Hk2 & Er & Et & Ef & FE & FN).
  unfold change. rewrite (st_bind_ok _ _ _ _ _ E1), (st_bind_ok _ _ _ _ _ E2). fold E N.
  pose proof (covered_can_change E ein eout CE) as CovE. pose proof (covered_can_change N nin nout CN) as CovN. split.
  - intros [CanE CanN] FitE FitN. rewrite (proj2 CovE CanE), (proj2 CovN CanN). rewrite (st_bind_ok _ _ _ _ _ (write_state_ok false s2)).
    set (s3 := set_file _ s2). destruct Hk2 as [HE2 HN2 _ _ _ Hkeys2].
    destruct (apply_counts wE rE pE (rc_extents s2) ein eout HE2 CE BE CanE) as (wE' & rE' & pE' & e & Ee & HE' & KE & CE' & CountE).
    { eapply apply_fits_same; [exact FE | exact FitE]. }
    destruct (apply_counts wN rN pN (rc_nodes s2) nin nout HN2 CN BN CanN) as (wN' & rN' & pN' & n & En & HN' & KN & CN' & CountN).
    { eapply apply_fits_same; [exact FN | exact FitN]. }
    rewrite (st_bind_ok _ _ _ tt (set_extents e s3)) by (unfold on_extents; change (rc_extents s3) with (rc_extents s2); fold E in Ee; by rewrite Ee).
    rewrite (st_bind_ok _ _ _ tt (set_nodes n (set_extents e s3)))
      by (unfold on_nodes; change (rc_nodes (set_extents e s3)) with (rc_nodes s2); fold N in En; by rewrite En).
    rewrite st_modify_bind, (st_bind_ok _ _ _ _ _ (write_state_ok true _)).
    eexists _, wE', wN', rE', rN', pE', pN'. split; [reflexivity|]. split; [done|]. split; [done|].
    assert (forall x, rc_extents x = e -> rc_nodes x = n -> rc_totals x = totals -> counts_ok wE' wN' rE' rN' pE' pN' x) as Hok.
    { intros x Xe Xn Hx. split; rewrite ?Xe, ?Xn, ?Hx; try done. by rewrite KE, KN. }
    split; [by apply Hok|]. split; [done|]. split; [done|]. apply clean_reopens; [by apply Hok | done].
  - intros Hno. exists s2. split; [|done].
    destruct (covered_by E (delta_of ein eout)) eqn:QE, (covered_by N (delta_of nin nout)) eqn:QN; try done.
    exfalso. apply Hno. split; [by apply CovE | by apply CovN].
Qed.

(** A crash that finds the state file dirty leaves no root: the next count
    walks the namespace. *)
Definition rootless (s : t) : Prop :=
  forall disk key cache s', crash s disk -> open disk key cache = Ok s' -> rc_root s' = None /\ rc_totals s' = no_totals.

(** An interrupted change leaves no root behind. From the moment the
    counts are about to change until they have changed and the new root is
    written, whatever the two tries' writes return, a crash reopens without a
    root, so counts that are between two roots are never taken for either's. *)
Theorem interrupted_change_has_no_root (s : t) extents nodes root totals :
  totals_ok (rc_totals s) ->
  exists s1, write_state false s = (Ok tt, s1) /\ rootless s1 /\
    forall r2 s2, on_extents (ObjectTrie.apply extents) s1 = (r2, s2) -> rootless s2 /\
      forall r3 s3, on_nodes (ObjectTrie.apply nodes) s2 = (r3, s3) ->
        rootless s3 /\ rootless (set_root (Some root) totals s3).
Proof.
  intros Ht. rewrite write_state_ok. eexists. split; [reflexivity|].
  assert (forall x, rc_file x = Some (counts_state false (rc_root s) (rc_totals s)) -> rootless x) as Hdirty.
  { intros x Hx disk key cache s' (_ & _ & Ef). unfold open.
    destruct (ObjectTrie.open (cd_extents disk) _ _); [|done]. cbn [mbind result_bind].
    destruct (ObjectTrie.open (cd_nodes disk) _ _); [|done]. cbn [mbind result_bind].
    rewrite Ef, Hx, decode_counts_state_ok by done. by intros [= <-]. }
  split; [by apply Hdirty|]. intros r2 s2 E2. unfold on_extents in E2. destruct (ObjectTrie.apply extents _) as [r e].
  injection E2 as <- <-. split; [by apply Hdirty|]. intros r3 s3 E3. unfold on_nodes in E3.
  destruct (ObjectTrie.apply nodes _) as [r' n]. injection E3 as <- <-. split; by apply Hdirty.
Qed.
End counts.

(** ** Sample runs *)

#[local] Existing Instances Sample.gcm Sample.gcm_spec Sample.entropy Sample.sha Run.footprint.

Module CountsRun.
Definition a : ObjectId := array_fit 32 [x01].
Definition b : ObjectId := array_fit 32 [x02].
Definition none : t := mk Run.empty Run.empty None no_totals None.

Lemma none_ok : counts_ok (new_world Sample.key Run.opts) (new_world Sample.key Run.opts) [] [] [] [] none.
Proof.
  split; [apply new_ledger | apply new_ledger | by apply Forall_nil | by apply Forall_nil | by split | done].
Qed.

Lemma few_bound ids : (length ids <= 10)%nat -> counts_bound (merge_all [] []) ids.
Proof.
  intros Hl id. unfold times. pose proof (length_filter (fun x => x = id) ids). change (count (merge_all [] []) id) with 0. lia.
Qed.

Lemma can_add ids : can_change (merge_all [] []) ids [].
Proof.
  intros id. change (count (merge_all [] []) id) with 0. pose proof (times_nonneg id ids).
  replace (times id []) with 0 by reflexivity. lia.
Qed.

Lemma few_fit inp :
  let u := ObjectTrie.unique_changes (delta_changes (merge_all [] []) (delta_of inp [])) in
  frames_of u = [u] -> Forall change_fits u -> Z.of_nat (length (changes_bytes u)) <= 1000 -> (length u <= 10)%nat ->
  apply_fits [] [] Run.empty u.
Proof.
  intros u Ef Hv Hb Hl. apply Run.fits_small; [apply unique_changes_ok | done | | | ]; rewrite Ef.
  - constructor; [unfold ObjectTrie.max_frame; lia | constructor].
  - rewrite frames_size_one. lia.
  - cbn [concat]. rewrite app_nil_r. unfold leaf_max. lia.
Qed.
End CountsRun.

Lemma change_exact_or_refused_witness :
  (exists s' r p, change CountsRun.b [CountsRun.a; CountsRun.a] [] [CountsRun.b] [] no_totals CountsRun.none = (Ok true, s') /\
     holds (merge_all r p) (rc_extents s') /\ count (merge_all r p) CountsRun.a = 2) /\
  (exists s', change CountsRun.b [] [CountsRun.a] [] [] no_totals CountsRun.none = (Ok false, s') /\ rc_root s' = None).
Proof.
  split.
  - destruct (proj1 (change_exact_or_refused CountsRun.none _ _ [] [] [] [] CountsRun.b [CountsRun.a; CountsRun.a] [] [CountsRun.b] []
      no_totals CountsRun.none_ok (CountsRun.few_bound [CountsRun.a; CountsRun.a] ltac:(cbn; lia))
      (CountsRun.few_bound [CountsRun.b] ltac:(cbn; lia)) ltac:(by split)))
      as (s' & wE & wN & rE & rN & pE & pN & E & _ & _ & Hk & HcE & _).
    + split; apply CountsRun.can_add.
    + apply CountsRun.few_fit; [by vm_compute | by vm_compute; repeat constructor | by vm_compute | by vm_compute; lia].
    + apply CountsRun.few_fit; [by vm_compute | by vm_compute; repeat constructor | by vm_compute | by vm_compute; lia].
    + exists s', rE, pE. split; [exact E|]. split; [exists wE, rE, pE; split; [apply Hk | done]|]. rewrite HcE. reflexivity.
  - destruct (proj2 (change_exact_or_refused CountsRun.none _ _ [] [] [] [] CountsRun.b [] [CountsRun.a] [] [] no_totals
      CountsRun.none_ok (CountsRun.few_bound [] ltac:(cbn; lia)) (CountsRun.few_bound [] ltac:(cbn; lia)) ltac:(by split)))
      as (s' & E & _ & Hr & _).
    + intros [Hcan _]. specialize (Hcan CountsRun.a). vm_compute in Hcan. by apply Hcan.
    + exists s'. split; [exact E | exact Hr].
Defined.

Lemma interrupted_change_has_no_root_witness :
  exists s1, write_state false CountsRun.none = (Ok tt, s1) /\ rootless s1.
Proof.
  destruct (interrupted_change_has_no_root CountsRun.none [] [] CountsRun.a no_totals) as (s1 & E & Hr & _); [by split|].
  exists s1. split; [exact E | exact Hr].
Defined.
