(* ===== verification/UnreferencedSince.v ===== *)
(** * How long an object has been unreferenced

    [src/src/storage/unreferenced_since.cpp], [UnreferencedSince]: when this
    node first saw each object it holds unreferenced, so that a sweep deletes
    none before its own grace has run. *)

From S2P Require Import Prelude Sorts Maps Codec Journal Trie ObjectTrie TrieDisk TrieWire Retention RetentionSet.

Module UnreferencedSince.

Definition persisted_schema : Z := 1.

Definition Sightings : Type := list (ObjectId * Z).

Definition write_sighting (e : ObjectId * Z) : Writer.prog := Writer.fixed e.1 ;;; Writer.u64 e.2.
Definition encode_unreferenced_since (sightings : Sightings) : result Bytes :=
  Writer.run
    (Writer.u32 persisted_schema ;;; Writer.u64 (wrap64 (Z.of_nat (length sightings))) ;;;
     Writer.each write_sighting sightings).

Fixpoint read_sightings (n : nat) (sightings : Sightings) : Reader.prog Sightings :=
  match n with
  | O => mret sightings
  | S n' =>
      id ← Reader.fixed 32;
      first_unix_ms ← Reader.u64;
      match map_emplace id first_unix_ms sightings with
      | None => Reader.throw (DecodeError "duplicate unreferenced-since object")
      | Some sightings' => read_sightings n' sightings'
      end
  end.
Definition decode_unreferenced_since (bytes : Bytes) : result Sightings :=
  Reader.run
    (schema ← Reader.u32;
     if negb (schema =? persisted_schema) then Reader.throw (DecodeError "unknown unreferenced-since schema")
     else
       count ← Reader.u64;
       sightings ← read_sightings (Z.to_nat count) [];
       _ ← Reader.finish;
       mret sightings) bytes.

Record Sighting : Type := mkSighting { first_unix_ms : Z; renewed : bool }.

Record t : Type := mk {
  us_seen : list (ObjectId * Sighting);
  us_dirty : bool;
  (** The file at [path_]. *)
  us_file : option Bytes
}.

Definition loaded (sightings : Sightings) : list (ObjectId * Sighting) :=
  (fun e => (e.1, mkSighting e.2 true)) <$> sightings.

Definition open (file : option Bytes) : t :=
  match file with
  | None => mk [] false None
  | Some bytes =>
      match decode_unreferenced_since bytes with
      | Ok sightings => mk (loaded sightings) false (Some bytes)
      | Throw _ => mk [] false (Some bytes)
      end
  end.

(** [grace] in milliseconds; the comparison is unsigned. *)
Definition matured (id : ObjectId) (now_unix_ms grace : Z) (s : t) : bool * t :=
  let found := alookup id (us_seen s) in
  let dirty := match found with None => true | Some _ => us_dirty s end in
  let first := match found with None => now_unix_ms | Some e => first_unix_ms e end in
  let '(first, dirty) := if now_unix_ms <? first then (now_unix_ms, true) else (first, dirty) in
  (wrap64 grace <=? wrap64 (now_unix_ms - first),
   mk (map_set id (mkSighting first true) (us_seen s)) dirty (us_file s)).

Definition forget (id : ObjectId) (s : t) : t :=
  match alookup id (us_seen s) with
  | Some _ => mk (map_erase id (us_seen s)) true (us_file s)
  | None => s
  end.

Definition pass_complete (s : t) : t :=
  mk ((fun e : ObjectId * Sighting => (e.1, mkSighting (first_unix_ms e.2) false)) <$>
        base.filter (fun e : ObjectId * Sighting => renewed e.2 = true) (us_seen s))
     (us_dirty s || existsb (fun e : ObjectId * Sighting => negb (renewed e.2)) (us_seen s)) (us_file s).

Definition saved (s : t) : Sightings := (fun e : ObjectId * Sighting => (e.1, first_unix_ms e.2)) <$> us_seen s.
(** [written]: whether the file could be written. *)
Definition save (written : bool) (s : t) : result t :=
  if negb (us_dirty s) then Ok s
  else
    bytes ← encode_unreferenced_since (saved s);
    Ok (if written then mk (us_seen s) false (Some bytes) else mk (us_seen s) true (us_file s)).

Definition size (s : t) : nat := length (us_seen s).
End UnreferencedSince.

Import UnreferencedSince.

(** ** Runs *)

Inductive Call : Type :=
  | Matured (id : ObjectId) (now grace : Z)
  | Forget (id : ObjectId)
  | PassComplete
  | Save (written : bool).

Definition call (s : t) (c : Call) : t :=
  match c with
  | Matured id now grace => (matured id now grace s).2
  | Forget id => forget id s
  | PassComplete => pass_complete s
  | Save written => match save written s with Ok s' => s' | Throw _ => s end
  end.
Definition calls (s : t) (history : list Call) : t := foldl call s history.

(** Since a call that saw the object at [first], it was neither forgotten nor
    seen at an earlier time. *)
Definition seen_since (history : list Call) (id : ObjectId) (first : Z) : Prop :=
  exists pre grace mid, history = pre ++ Matured id first grace :: mid /\ ~ (Forget id ∈ mid) /\
    forall now g, Matured id now g ∈ mid -> first <= now.

Lemma seen_since_next history c id first :
  seen_since history id first -> c <> Forget id -> (forall now g, c = Matured id now g -> first <= now) ->
  seen_since (history ++ [c]) id first.
Proof.
  intros (pre & grace & mid & -> & Hf & Hm) Hc Hn. exists pre, grace, (mid ++ [c]). split; [by rewrite <- app_assoc|].
  split; [rewrite elem_of_app, list_elem_of_singleton; intros [Hin| <-]; done|].
  intros now g. rewrite elem_of_app, list_elem_of_singleton. intros [Hin|Hin]; [by eapply Hm | by eapply Hn].
Qed.

Lemma seen_now history id now grace : seen_since (history ++ [Matured id now grace]) id now.
Proof. exists history, grace, []. split; [done|]. split; [apply not_elem_of_nil|]. by intros ? ? ?%not_elem_of_nil. Qed.

(** Every sighting has a call behind it. *)
Definition justified (history : list Call) (s : t) : Prop :=
  sorted_recs (us_seen s) /\ forall id e, alookup id (us_seen s) = Some e -> seen_since history id (first_unix_ms e).

Lemma alookup_fmap {V W} (f : V -> W) id (l : list (ObjectId * V)) :
  alookup id ((fun e => (e.1, f e.2)) <$> l) = f <$> alookup id l.
Proof. induction l as [|[k v] l IH]; [done|]. cbn [fmap list_fmap fst snd]. rewrite !alookup_cons, IH. by destruct (decide _). Qed.

Lemma sorted_recs_fmap {V W} (f : V -> W) (l : list (ObjectId * V)) :
  sorted_recs l -> sorted_recs ((fun e => (e.1, f e.2)) <$> l).
Proof.
  unfold sorted_recs. intros Hs. replace (((fun e => (e.1, f e.2)) <$> l).*1) with (l.*1); [done|].
  clear Hs. induction l as [|x l IH]; [done|]. cbn [fmap list_fmap fst] in *. by f_equal.
Qed.

Lemma matured_justified history s id now grace :
  justified history s -> justified (history ++ [Matured id now grace]) (matured id now grace s).2.
Proof.
  intros [Hs Hj]. unfold matured.
  set (first := match alookup id (us_seen s) with None => now | Some e => first_unix_ms e end).
  assert (forall f dirty, f = Z.min first now -> justified (history ++ [Matured id now grace])
    (mk (map_set id (mkSighting f true) (us_seen s)) dirty (us_file s))) as Hgen.
  { intros f dirty ->. split; [by apply map_set_sorted|]. cbn [us_seen]. intros id' e. rewrite map_set_lookup.
    destruct (decide (id' = id)) as [->|Hne].
    - intros [= <-]. cbn [first_unix_ms]. destruct (Z.min_spec first now) as [[Hlt ->]|[Hge ->]]; [|apply seen_now].
      unfold first in *. destruct (alookup id (us_seen s)) as [e|] eqn:E; [|apply seen_now].
      apply seen_since_next; [by apply Hj | done |]. intros n g [= <- <-]. lia.
    - intros He. apply seen_since_next; [by apply Hj | done |]. by intros n g [= -> _ _]. }
  destruct (Z.ltb_spec now first); cbn [snd]; apply Hgen; lia.
Qed.

Lemma other_justified history s c :
  justified history s -> (forall id now g, c <> Matured id now g) -> justified (history ++ [c]) (call s c).
Proof.
  intros [Hs Hj] Hc.
  assert (forall id e, alookup id (us_seen s) = Some e -> c <> Forget id -> seen_since (history ++ [c]) id (first_unix_ms e)) as Hkeep.
  { intros id e He Hne. apply seen_since_next; [by apply Hj | done |]. intros now g ->. by destruct (Hc id now g). }
  destruct c as [id now grace|id| |written]; [by destruct (Hc id now grace)| | |]; cbn [call].
  - unfold forget. destruct (alookup id (us_seen s)) eqn:E.
    + split; [by apply map_erase_sorted|]. cbn [us_seen]. intros id' e. rewrite map_erase_lookup.
      destruct (decide (id' = id)) as [->|Hne]; [done|]. intros He. apply Hkeep; [done|]. by intros [= ->].
    + split; [done|]. intros id' e He. apply Hkeep; [done|]. intros [= ->]. congruence.
  - split; cbn [us_seen pass_complete].
    + apply (sorted_recs_fmap (fun e => mkSighting (first_unix_ms e) false)). by apply sorted_recs_filter.
    + intros id e. rewrite (alookup_fmap (fun e => mkSighting (first_unix_ms e) false)).
      destruct (alookup id (base.filter _ _)) as [e'|] eqn:E; [|done]. intros [= <-]. cbn [first_unix_ms].
      apply Hkeep; [|done]. apply alookup_Some_elem, list_elem_of_filter in E as [_ E]. by apply elem_alookup_Some.
  - destruct (save written s) as [s'|] eqn:E; [|by split; [done|]; intros; apply Hkeep].
    assert (us_seen s' = us_seen s) as Es.
    { unfold save in E. destruct (negb (us_dirty s)); [by injection E as <-|].
      destruct (encode_unreferenced_since _); [|done]. cbn in E. injection E as <-. by destruct written. }
    unfold justified. rewrite Es. split; [done|]. intros; by apply Hkeep.
Qed.

Lemma calls_justified history : justified history (calls (open None) history).
Proof.
  unfold calls. induction history as [|c history IH] using rev_ind.
  { split; [by apply SSorted_nil | done]. }
  rewrite foldl_app. cbn [foldl].
  destruct c as [id now grace| | |]; [by apply matured_justified | by apply other_justified..].
Qed.

(** Nothing is deleted before its grace has run. However the table was
    used since it was empty (sightings, objects referenced again, sweeps,
    saves), it answers that an object has been unreferenced for the grace
    only when it was seen so at least that long before, and since then it was
    not reported referenced and the clock was not seen set back before that
    sighting. *)
Theorem grace_is_waited_out (history : list Call) (id : ObjectId) (now grace : Z) :
  0 <= grace < 2 ^ 63 -> 0 <= now < 2 ^ 64 -> Forall (fun c => match c with Matured _ n _ => 0 <= n | _ => True end) history ->
  (matured id now grace (calls (open None) history)).1 = true ->
  exists first, first + grace <= now /\ seen_since (history ++ [Matured id now grace]) id first.
Proof.
  intros Hg Hn Hpos Hm. pose proof (calls_justified history) as Hj.
  pose proof (matured_justified history _ id now grace Hj) as [_ Hafter]. set (s := calls (open None) history) in *.
  unfold matured in *. set (first := match alookup id (us_seen s) with None => now | Some e => first_unix_ms e end) in *.
  assert (0 <= first) as Hf.
  { unfold first. destruct (alookup id (us_seen s)) as [e|] eqn:E; [|lia].
    destruct (proj2 Hj id e E) as (pre & g & mid & -> & _). rewrite Forall_app, Forall_cons in Hpos. tauto. }
  assert (forall f, 0 <= f <= now -> (wrap64 grace <=? wrap64 (now - f)) = true -> f + grace <= now) as Hle.
  { intros f Hf' Hw%Z.leb_le. rewrite !wrap64_small in Hw by lia. lia. }
  destruct (Z.ltb_spec now first); cbn [fst snd] in *.
  - exists now. split; [apply Hle; [lia | done]|]. apply (Hafter id (mkSighting now true)). cbn [us_seen]. by rewrite map_set_lookup, decide_True.
  - exists first. split; [apply Hle; [lia | done]|]. apply (Hafter id (mkSighting first true)). cbn [us_seen]. by rewrite map_set_lookup, decide_True.
Qed.

(** ** The file *)

Definition sighting_bytes (e : ObjectId * Z) : Bytes := abytes e.1 ++ be_bytes 8 e.2.
Definition sightings_bytes (l : Sightings) : Bytes :=
  be_bytes 4 persisted_schema ++ be_bytes 8 (Z.of_nat (length l)) ++ flat_map sighting_bytes l.
Record sightings_ok (l : Sightings) : Prop := {
  sg_sorted : sorted_recs l;
  sg_times : Forall (fun e : ObjectId * Z => 0 <= e.2 < 2 ^ 64) l;
  sg_count : Z.of_nat (length l) < 2 ^ 64
}.

Lemma encode_sightings_ok l : sightings_ok l -> encode_unreferenced_since l = Ok (sightings_bytes l).
Proof.
  intros [_ _ Hn]. apply writes_run. rewrite wrap64_small by lia. apply writes_seq; [auto with codec|].
  apply writes_seq; [apply writes_u64|]. apply writes_each, Forall_true. intros e. apply writes_seq; [apply writes_fixed | apply writes_u64].
Qed.

Lemma reads_sightings l acc :
  sorted_recs (acc ++ l) -> Forall (fun e : ObjectId * Z => 0 <= e.2 < 2 ^ 64) l ->
  reads (read_sightings (length l) acc) (flat_map sighting_bytes l) (acc ++ l).
Proof.
  revert acc. induction l as [|[id n] l IH]; intros acc Hs Hr; cbn [length read_sightings flat_map].
  { rewrite app_nil_r. apply reads_ret. }
  apply Forall_cons in Hr as [Hn Hr]. cbn [snd] in Hn. unfold sighting_bytes at 1. cbn [fst snd]. rewrite <- app_assoc.
  eapply reads_bind; [apply reads_fixed|]. eapply reads_bind; [by apply reads_u64|].
  pose proof Hs as (Hlt & _ & _)%sorted_recs_app.
  assert (Forall (fun r : ObjectId * Z => key_lt r.1 id) acc) as Hbelow.
  { apply Forall_forall. intros r Hin. apply (Hlt r (id, n)); [done | by left]. }
  assert (alookup id acc = None) as En.
  { apply alookup_None. intros (r & -> & Hin)%list_elem_of_fmap. rewrite Forall_forall in Hbelow.
    by apply (key_lt_irrefl r.1), Hbelow. }
  unfold map_emplace. rewrite En, map_set_end by done. replace (acc ++ (id, n) :: l) with ((acc ++ [(id, n)]) ++ l) by (by rewrite <- app_assoc).
  apply IH; [by rewrite <- app_assoc | done].
Qed.

Lemma decode_sightings_ok l : sightings_ok l -> decode_unreferenced_since (sightings_bytes l) = Ok l.
Proof.
  intros [Hs Ht Hn]. apply finishes_run. unfold sightings_bytes.
  eapply finishes_bind; [apply reads_u32; vm_compute; intuition congruence|]. rewrite Z.eqb_refl. cbn [negb].
  eapply finishes_bind; [apply reads_u64; lia|]. rewrite Nat2Z.id, <- (app_nil_r (flat_map _ l)).
  eapply finishes_bind; [by apply (reads_sightings l []) | apply finishes_finish_ret].
Qed.

(** A saved table is the table after a restart: the file a save writes
    reads back, and every object then has the first sighting it had, and no
    other object has one. *)
Theorem sightings_survive_restart (s : t) :
  sightings_ok (saved s) -> us_dirty s = true ->
  exists s', save true s = Ok s' /\ us_dirty s' = false /\
    forall id, first_unix_ms <$> alookup id (us_seen (open (us_file s'))) = first_unix_ms <$> alookup id (us_seen s).
Proof.
  intros Hok Hd. unfold save. rewrite Hd, (encode_sightings_ok _ Hok). cbn [negb mbind result_bind].
  eexists. split; [reflexivity|]. split; [done|]. intros id. cbn [us_file open]. rewrite (decode_sightings_ok _ Hok). cbn [us_seen].
  unfold loaded, saved. rewrite (alookup_fmap (fun n => mkSighting n true)), (alookup_fmap first_unix_ms).
  by destruct (alookup id (us_seen s)).
Qed.

(** ** Sample runs *)

Lemma grace_is_waited_out_witness :
  let id : ObjectId := array_fit 32 [x01] in
  exists first, first + 60 <= 100 /\ seen_since [Matured id 30 60; PassComplete; Save true; Matured id 100 60] id first.
Proof.
  intros id.
  apply (grace_is_waited_out [Matured id 30 60; PassComplete; Save true] id 100 60); [lia | lia | repeat constructor; lia | by vm_compute].
Defined.

Lemma sightings_survive_restart_witness :
  let id : ObjectId := array_fit 32 [x01] in
  let s := calls (open None) [Matured id 30 60] in
  exists s', save true s = Ok s' /\
    first_unix_ms <$> alookup id (us_seen (open (us_file s'))) = first_unix_ms <$> alookup id (us_seen s).
Proof.
  intros id s. destruct (sightings_survive_restart s) as (s' & E & _ & Hf).
  - split; [repeat constructor | constructor; [by vm_compute | constructor] | done].
  - done.
  - exists s'. split; [exact E | apply Hf].
Defined.
