(* ===== verification/ClaimLocks.v ===== *)
(** * Claims against deletes

    [src/src/contract/claim_store.hpp], [ClaimLocks] and [ClaimStore]'s guard
    and deletion, and the two requests of [src/src/cluster/storage_server.cpp]
    that race: one claims objects a node holds, the other deletes one. Every
    request is a thread; its steps are the lock operations, the checks and
    the writes, each of them atomic (the marks under their own mutex, the
    claims under the store's), interleaved in any order. A stripe is locked
    when a thread holds it. *)

From S2P Require Import Prelude Codec Journal Trie.

Module ClaimLocks.

Definition stripes : nat := 64.
Definition stripe_of (id : ObjectId) : nat := b2n (abyte id 0) mod stripes.

(** The stripes of some ids, in ascending order. *)
Definition wanted (ids : list ObjectId) : list nat :=
  base.filter (fun stripe => Exists (fun id => stripe_of id = stripe) ids) (seq 0 stripes).

(** The marks, one for each delete under way. *)
Definition begin_deleting (id : ObjectId) (deleting : list ObjectId) : list ObjectId := id :: deleting.
Fixpoint end_deleting (id : ObjectId) (deleting : list ObjectId) : list ObjectId :=
  match deleting with
  | [] => []
  | id' :: rest => if bool_decide (id' = id) then rest else id' :: end_deleting id rest
  end.
Definition is_deleting (id : ObjectId) (deleting : list ObjectId) : bool := bool_decide (id ∈ deleting).

(** What the threads share: the marks, the objects with a claim, and the
    objects the node holds. *)
Record Shared : Type := mkShared {
  sh_deleting : list ObjectId;
  sh_claimed : list ObjectId;
  sh_present : list ObjectId
}.

(** Where a request is. *)
Inductive Thread : Type :=
  | Idle
  | RetainLock (ids : list ObjectId) (held todo : list nat)
  | RetainCheck (ids : list ObjectId) (held : list nat) (rest : list ObjectId)
  | RetainWrite (ids : list ObjectId) (held : list nat)
  | RetainUnlock (held : list nat)
  | DeleteLock (id : ObjectId)
  | DeleteCheck (id : ObjectId)
  | DeleteMarked (id : ObjectId)
  | DeleteRefused (id : ObjectId)
  | DeleteRemove (id : ObjectId)
  | DeleteUnmark (id : ObjectId).

Definition holds_of (th : Thread) : list nat :=
  match th with
  | RetainLock _ held _ | RetainCheck _ held _ | RetainWrite _ held | RetainUnlock held => held
  | DeleteCheck id | DeleteMarked id | DeleteRefused id => [stripe_of id]
  | Idle | DeleteLock _ | DeleteRemove _ | DeleteUnmark _ => []
  end.

(** What a request does next; nothing while it waits for a stripe. The
    request ends when it is idle again. *)
Definition advance (free : nat -> bool) (th : Thread) (sh : Shared) : option (Thread * Shared) :=
  match th with
  | Idle => None
  | RetainLock ids held (stripe :: todo) =>
      if free stripe then Some (RetainLock ids (held ++ [stripe]) todo, sh) else None
  | RetainLock ids held [] => Some (RetainCheck ids held ids, sh)
  | RetainCheck ids held (id :: rest) =>
      if negb (is_deleting id (sh_deleting sh)) && bool_decide (id ∈ sh_present sh)
      then Some (RetainCheck ids held rest, sh)
      else Some (RetainUnlock held, sh)
  | RetainCheck ids held [] => Some (RetainWrite ids held, sh)
  | RetainWrite ids held => Some (RetainUnlock held, mkShared (sh_deleting sh) (ids ++ sh_claimed sh) (sh_present sh))
  | RetainUnlock (stripe :: held) => Some (RetainUnlock held, sh)
  | RetainUnlock [] => Some (Idle, sh)
  | DeleteLock id => if free (stripe_of id) then Some (DeleteCheck id, sh) else None
  | DeleteCheck id =>
      if bool_decide (id ∈ sh_claimed sh) then Some (DeleteRefused id, sh)
      else Some (DeleteMarked id, mkShared (begin_deleting id (sh_deleting sh)) (sh_claimed sh) (sh_present sh))
  | DeleteRefused id => Some (Idle, sh)
  | DeleteMarked id => Some (DeleteRemove id, sh)
  | DeleteRemove id =>
      Some (DeleteUnmark id, mkShared (sh_deleting sh) (sh_claimed sh) (base.filter (fun x => x <> id) (sh_present sh)))
  | DeleteUnmark id => Some (Idle, mkShared (end_deleting id (sh_deleting sh)) (sh_claimed sh) (sh_present sh))
  end.

Record State : Type := mkState { threads : list Thread; shared : Shared }.

Definition is_free (ths : list Thread) (stripe : nat) : bool :=
  forallb (fun th => negb (bool_decide (stripe ∈ holds_of th))) ths.

Inductive step : State -> State -> Prop :=
  | step_start_retain i ids ths sh :
      ths !! i = Some Idle -> step (mkState ths sh) (mkState (<[i := RetainLock ids [] (wanted ids)]> ths) sh)
  | step_start_delete i id ths sh :
      ths !! i = Some Idle -> step (mkState ths sh) (mkState (<[i := DeleteLock id]> ths) sh)
  | step_advance i th th' ths sh sh' :
      ths !! i = Some th -> advance (is_free ths) th sh = Some (th', sh') ->
      step (mkState ths sh) (mkState (<[i := th']> ths) sh')
  (** A delete not admitted to the device ends with its object as it was. *)
  | step_busy i id ths sh :
      ths !! i = Some (DeleteRemove id) -> step (mkState ths sh) (mkState (<[i := DeleteUnmark id]> ths) sh)
  (** An object is stored, or its claims are released. *)
  | step_put id ths sh :
      step (mkState ths sh) (mkState ths (mkShared (sh_deleting sh) (sh_claimed sh) (id :: sh_present sh)))
  | step_release id ths sh :
      step (mkState ths sh)
        (mkState ths (mkShared (sh_deleting sh) (base.filter (fun x => x <> id) (sh_claimed sh)) (sh_present sh))).

Definition initial (s : State) : Prop :=
  (forall i th, threads s !! i = Some th -> th = Idle) /\ sh_deleting (shared s) = [] /\
  sh_claimed (shared s) ⊆ sh_present (shared s).
Definition reachable (s : State) : Prop := exists s0, initial s0 /\ rtc step s0 s.
End ClaimLocks.

Import ClaimLocks.

(** ** Invariant *)

(** The object a delete has marked. *)
Definition mark_of (th : Thread) : option ObjectId :=
  match th with DeleteMarked id | DeleteRemove id | DeleteUnmark id => Some id | _ => None end.

(** The ids a claim has found present and not marked. *)
Definition checked (th : Thread) (id : ObjectId) : Prop :=
  match th with
  | RetainCheck ids _ rest => exists done_, ids = done_ ++ rest /\ id ∈ done_
  | RetainWrite ids _ => id ∈ ids
  | _ => False
  end.

(** What a thread knows of itself. *)
Definition thread_ok (th : Thread) : Prop :=
  match th with
  | RetainLock ids held todo => held ++ todo = wanted ids
  | RetainCheck ids held rest => held = wanted ids /\ exists done_, ids = done_ ++ rest
  | RetainWrite ids held => held = wanted ids
  | _ => True
  end.

Record inv (s : State) : Prop := {
  in_threads : forall i th, threads s !! i = Some th -> thread_ok th;
  in_locks : forall i j a b stripe, threads s !! i = Some a -> threads s !! j = Some b -> i <> j ->
    stripe ∈ holds_of a -> ~ stripe ∈ holds_of b;
  in_marks : sh_deleting (shared s) ≡ₚ omap mark_of (threads s);
  in_checked : forall i th id, threads s !! i = Some th -> checked th id ->
    id ∈ sh_present (shared s) /\ ~ id ∈ sh_deleting (shared s);
  in_claimed : forall id, id ∈ sh_claimed (shared s) -> id ∈ sh_present (shared s) /\ ~ id ∈ sh_deleting (shared s)
}.

Lemma wanted_elem ids stripe : stripe ∈ wanted ids <-> (stripe < stripes)%nat /\ exists id, id ∈ ids /\ stripe_of id = stripe.
Proof.
  unfold wanted. rewrite list_elem_of_filter, Exists_exists, elem_of_seq. split.
  - intros [(id & Hid & E) Hs]. split; [lia | by exists id].
  - intros [Hs (id & Hid & E)]. split; [by exists id | lia].
Qed.
Lemma stripe_wanted ids id : id ∈ ids -> stripe_of id ∈ wanted ids.
Proof. intros Hid. apply wanted_elem. split; [apply Nat.mod_upper_bound; by compute | by exists id]. Qed.

(** A thread that has checked an id holds its stripe. *)
Lemma checked_holds th id : thread_ok th -> checked th id -> stripe_of id ∈ holds_of th.
Proof.
  destruct th as [|? ? ?|ids held rest|ids held|?|?|?|?|?|?|?]; cbn [thread_ok checked holds_of]; try done.
  - intros [-> _] (done_ & E & Hid). apply stripe_wanted. rewrite E, elem_of_app. by left.
  - intros -> Hid. by apply stripe_wanted.
Qed.

Lemma end_deleting_perm id l l' : l ≡ₚ id :: l' -> end_deleting id l ≡ₚ l'.
Proof.
  revert l'. induction l as [|x l IH]; intros l' Hp; [by apply Permutation_nil_cons in Hp|]. cbn [end_deleting].
  destruct (bool_decide_reflect (x = id)) as [->|Hne]; [by apply Permutation_cons_inv in Hp|].
  assert (x ∈ l') as Hx.
  { assert (x ∈ id :: l') as Hin by (rewrite <- Hp; by left). by apply elem_of_cons in Hin as [?|?]. }
  apply elem_of_Permutation in Hx as (k & Hk). rewrite Hk in Hp |- *. rewrite Permutation_swap in Hp.
  apply Permutation_cons_inv in Hp. constructor. by apply IH.
Qed.

(** The marks of the threads when one of them moves. *)
Lemma marks_insert ths i th th' :
  ths !! i = Some th ->
  exists rest, omap mark_of ths ≡ₚ match mark_of th with Some id => id :: rest | None => rest end /\
    omap mark_of (<[i := th']> ths) ≡ₚ match mark_of th' with Some id => id :: rest | None => rest end.
Proof.
  intros Hi. exists (omap mark_of (take i ths ++ drop (S i) ths)). pose proof (lookup_lt_Some _ _ _ Hi) as Hl. split.
  - rewrite <- (take_drop_middle ths i th Hi) at 1. rewrite <- Permutation_middle. cbn [omap list_omap]. by destruct (mark_of th).
  - rewrite insert_take_drop by done. rewrite <- Permutation_middle. cbn [omap list_omap]. by destruct (mark_of th').
Qed.

Lemma is_free_holds ths stripe i th : is_free ths stripe = true -> ths !! i = Some th -> ~ stripe ∈ holds_of th.
Proof.
  unfold is_free. rewrite forallb_forall. intros Hf Hi. apply list_elem_of_lookup_2, list_elem_of_In, Hf in Hi.
  by apply negb_true_iff, bool_decide_eq_false in Hi.
Qed.

(** One thread moves: what is to be shown. *)
Lemma inv_move ths sh i th th' sh' :
  inv (mkState ths sh) -> ths !! i = Some th -> thread_ok th' ->
  (forall stripe, stripe ∈ holds_of th' -> stripe ∈ holds_of th \/ is_free ths stripe = true) ->
  (forall rest, sh_deleting sh ≡ₚ match mark_of th with Some id => id :: rest | None => rest end ->
     sh_deleting sh' ≡ₚ match mark_of th' with Some id => id :: rest | None => rest end) ->
  (forall id, checked th' id -> id ∈ sh_present sh' /\ ~ id ∈ sh_deleting sh') ->
  (forall j b id, j <> i -> ths !! j = Some b -> checked b id ->
     id ∈ sh_present sh -> ~ id ∈ sh_deleting sh -> id ∈ sh_present sh' /\ ~ id ∈ sh_deleting sh') ->
  (forall id, id ∈ sh_claimed sh' -> id ∈ sh_present sh' /\ ~ id ∈ sh_deleting sh') ->
  inv (mkState (<[i := th']> ths) sh').
Proof.
  intros [I1 I2 I3 I4 I5] Hi Hok Hlocks Hmarks Hch Hothers Hcl. cbn [threads shared] in *.
  assert (forall j b, <[i := th']> ths !! j = Some b -> (j = i /\ b = th') \/ (j <> i /\ ths !! j = Some b)) as Hcase.
  { intros j b. destruct (decide (j = i)) as [->|Hne].
    - rewrite list_lookup_insert_eq by (by eapply lookup_lt_Some). intros [= <-]. by left.
    - rewrite list_lookup_insert_ne by done. by right. }
  assert (forall j b stripe, j <> i -> ths !! j = Some b -> stripe ∈ holds_of th' -> ~ stripe ∈ holds_of b) as Hne.
  { intros j b stripe Hji Hj Hs. destruct (Hlocks stripe Hs) as [Hs'|Hfree]; [by eapply (I2 i j) | by eapply is_free_holds]. }
  split; cbn [threads shared].
  - intros j b [[-> ->]|[_ Hj]]%Hcase; [done | by eapply I1].
  - intros j k a b stripe Ha Hb Hjk Hs. apply Hcase in Ha as [[-> ->]|[Hj Ha]], Hb as [[-> ->]|[Hk Hb]]; [done| | |].
    + by eapply Hne.
    + intros Hs'. by eapply (Hne j a stripe).
    + by eapply (I2 j k).
  - destruct (marks_insert ths i th th' Hi) as (rest & E1 & E2). rewrite E2. apply Hmarks. by rewrite I3, E1.
  - intros j b id [[-> ->]|[Hji Hj]]%Hcase Hc; [by apply Hch|]. destruct (I4 j b id Hj Hc). by eapply Hothers.
  - done.
Qed.

(** A move that changes nothing shared. *)
Lemma inv_quiet ths sh i th th' :
  inv (mkState ths sh) -> ths !! i = Some th -> thread_ok th' -> mark_of th' = mark_of th ->
  (forall stripe, stripe ∈ holds_of th' -> stripe ∈ holds_of th \/ is_free ths stripe = true) ->
  (forall id, checked th' id -> checked th id \/ (id ∈ sh_present sh /\ ~ id ∈ sh_deleting sh)) ->
  inv (mkState (<[i := th']> ths) sh).
Proof.
  intros Hinv Hi Hok Em Hl Hc. eapply inv_move; try done; [by rewrite Em| |apply Hinv].
  intros id [Hid|Hid]%Hc; [|done]. by apply (in_checked _ Hinv i th id).
Qed.

Lemma end_deleting_sub id x l : x ∈ end_deleting id l -> x ∈ l.
Proof.
  induction l as [|y l IH]; cbn [end_deleting]; [done|]. destruct (bool_decide _); rewrite elem_of_cons; [tauto|].
  rewrite elem_of_cons. tauto.
Qed.

Lemma retain_advance_inv ths sh i th th' sh' :
  inv (mkState ths sh) -> ths !! i = Some th -> mark_of th = None ->
  match th with RetainLock _ _ _ | RetainCheck _ _ _ | RetainWrite _ _ | RetainUnlock _ => True | _ => False end ->
  advance (is_free ths) th sh = Some (th', sh') -> inv (mkState (<[i := th']> ths) sh').
Proof.
  intros Hinv Hi Hm Hth Hadv. pose proof (in_threads _ Hinv i th Hi) as Hok.
  destruct th as [|ids held todo|ids held rest|ids held|held| | | | | |]; try done; cbn [advance] in Hadv.
  - cbn [thread_ok] in Hok. destruct todo as [|stripe todo].
    + injection Hadv as <- <-. rewrite app_nil_r in Hok. eapply inv_quiet; try done.
      * split; [done|]. by exists [].
      * cbn [holds_of]. tauto.
      * cbn [checked]. intros id (done_ & E & Hid). assert (done_ = []) as ->; [|by apply not_elem_of_nil in Hid].
        apply (f_equal length) in E. rewrite length_app in E. by destruct done_; [|cbn in E; lia].
    + destruct (is_free ths stripe) eqn:Ef; [|done]. injection Hadv as <- <-. eapply inv_quiet; try done.
      * cbn [thread_ok]. by rewrite <- app_assoc.
      * cbn [holds_of]. intros st [?|Hst%list_elem_of_singleton]%elem_of_app; [by left | subst; by right].
  - cbn [thread_ok] in Hok. destruct Hok as [Hheld (done_ & Eids)]. destruct rest as [|id rest].
    + injection Hadv as <- <-. eapply inv_quiet; try done; [cbn [holds_of]; tauto|].
      cbn [checked]. intros id Hid. left. exists ids. by rewrite app_nil_r.
    + destruct (negb _ && _) eqn:E; injection Hadv as <- <-; [|eapply inv_quiet; try done; cbn [holds_of]; tauto].
      apply andb_true_iff in E as [E1%negb_true_iff%bool_decide_eq_false E2%bool_decide_eq_true].
      eapply inv_quiet; try done.
      * split; [done|]. exists (done_ ++ [id]). by rewrite <- app_assoc.
      * cbn [holds_of]. tauto.
      * cbn [checked]. intros x (done' & E & Hx). assert (done' = done_ ++ [id]) as ->.
        { rewrite Eids in E. change (done_ ++ id :: rest) with (done_ ++ [id] ++ rest) in E. rewrite app_assoc in E. by apply app_inv_tail in E. }
        apply elem_of_app in Hx as [Hx|Hx%list_elem_of_singleton]; [left; by exists done_ | subst x; right; by split].
  - injection Hadv as <- <-. eapply inv_move; try done; cbn [sh_deleting sh_claimed sh_present].
    + cbn [holds_of]. tauto.
    + intros id [Hid|Hid]%elem_of_app; [by apply (in_checked _ Hinv i (RetainWrite ids held) id Hi) | by apply (in_claimed _ Hinv)].
  - destruct held as [|stripe held]; injection Hadv as <- <-; eapply inv_quiet; try done;
      cbn [holds_of]; intros st Hst; [by apply not_elem_of_nil in Hst | left; by right].
Qed.

Lemma delete_advance_inv ths sh i th th' sh' :
  inv (mkState ths sh) -> ths !! i = Some th ->
  match th with RetainLock _ _ _ | RetainCheck _ _ _ | RetainWrite _ _ | RetainUnlock _ => False | _ => True end ->
  advance (is_free ths) th sh = Some (th', sh') -> inv (mkState (<[i := th']> ths) sh').
Proof.
  intros Hinv Hi Hth Hadv. destruct th as [| | | | |id|id|id|id|id|id]; try done; cbn [advance] in Hadv.
  - destruct (is_free ths (stripe_of id)) eqn:Ef; [|done]. injection Hadv as <- <-. eapply inv_quiet; try done.
    cbn [holds_of]. intros st ->%list_elem_of_singleton. by right.
  - destruct (bool_decide_reflect (id ∈ sh_claimed sh)) as [Hc|Hc]; injection Hadv as <- <-.
    { eapply inv_quiet; try done. cbn [holds_of]. tauto. }
    eapply inv_move; try done; cbn [sh_deleting sh_claimed sh_present begin_deleting].
    + cbn [holds_of]. tauto.
    + intros rest Hp. cbn [mark_of] in *. by constructor.
    + intros j b x Hji Hj Hx Hpr Hnd. split; [done|]. rewrite not_elem_of_cons. split; [|done]. intros ->.
      apply (in_locks _ Hinv j i b (DeleteCheck id) (stripe_of id) Hj Hi Hji); [|by left].
      apply checked_holds; [by apply (in_threads _ Hinv j) | done].
    + intros x Hx. destruct (in_claimed _ Hinv x Hx). split; [done|]. rewrite not_elem_of_cons. split; [by intros -> | done].
  - injection Hadv as <- <-. eapply inv_quiet; try done. cbn [holds_of]. by intros st ?%not_elem_of_nil.
  - injection Hadv as <- <-. eapply inv_quiet; try done. cbn [holds_of]. by intros st ?%not_elem_of_nil.
  - injection Hadv as <- <-.
    assert (id ∈ sh_deleting sh) as Hmark.
    { rewrite (in_marks _ Hinv). apply list_elem_of_omap. exists (DeleteRemove id). split; [by eapply list_elem_of_lookup_2 | done]. }
    assert (forall x, x ∈ sh_present sh -> ~ x ∈ sh_deleting sh ->
      x ∈ base.filter (fun x => x <> id) (sh_present sh) /\ ~ x ∈ sh_deleting sh) as Hkeep.
    { intros x Hx Hd. split; [|done]. rewrite list_elem_of_filter. split; [by intros -> | done]. }
    eapply inv_move; try done; cbn [sh_deleting sh_claimed sh_present].
    + cbn [holds_of]. by intros st ?%not_elem_of_nil.
    + intros j b x _ _ _. apply Hkeep.
    + intros x Hx. destruct (in_claimed _ Hinv x Hx). by apply Hkeep.
  - injection Hadv as <- <-. eapply inv_move; try done; cbn [sh_deleting sh_claimed sh_present].
    + cbn [holds_of]. by intros st ?%not_elem_of_nil.
    + intros rest Hp. cbn [mark_of] in *. by apply end_deleting_perm.
    + intros j b x _ _ _ Hx Hd. split; [done|]. intros Hx'. by apply Hd, (end_deleting_sub id).
    + intros x Hx. destruct (in_claimed _ Hinv x Hx) as [? Hd]. split; [done|]. intros Hx'. by apply Hd, (end_deleting_sub id).
Qed.

Lemma step_inv s s' : inv s -> step s s' -> inv s'.
Proof.
  intros Hinv Hstep. destruct Hstep as [i ids ths sh Hi|i id ths sh Hi|i th th' ths sh sh' Hi Hadv|i id ths sh Hi|id ths sh|id ths sh].
  - eapply inv_quiet; try done. cbn [holds_of]. by intros st ?%not_elem_of_nil.
  - eapply inv_quiet; try done. cbn [holds_of]. by intros st ?%not_elem_of_nil.
  - destruct th; (by eapply retain_advance_inv) || (by eapply delete_advance_inv).
  - eapply inv_quiet; try done. cbn [holds_of]. by intros st ?%not_elem_of_nil.
  - destruct Hinv as [I1 I2 I3 I4 I5]. split; cbn [threads shared sh_deleting sh_claimed sh_present] in *; try done.
    + intros i th x Hi Hc. destruct (I4 i th x Hi Hc). split; [by right | done].
    + intros x Hx. destruct (I5 x Hx). split; [by right | done].
  - destruct Hinv as [I1 I2 I3 I4 I5]. split; cbn [threads shared sh_deleting sh_claimed sh_present] in *; try done.
    intros x Hx. apply list_elem_of_filter in Hx as [_ Hx]. by apply I5.
Qed.

Lemma omap_none ths : (forall i th, ths !! i = Some th -> th = Idle) -> omap mark_of ths = [].
Proof.
  induction ths as [|th ths IH]; intros Hall; [done|]. rewrite (Hall 0%nat th eq_refl). cbn. apply IH.
  intros i th' Hi. by apply (Hall (S i)).
Qed.

Lemma initial_inv s : initial s -> inv s.
Proof.
  intros (Hidle & Hd & Hsub). split.
  - intros i th ->%Hidle. done.
  - intros i j a b stripe ->%Hidle _ _ Hs. by apply not_elem_of_nil in Hs.
  - rewrite Hd, omap_none by done. done.
  - intros i th id ->%Hidle. done.
  - intros id Hid. rewrite Hd. split; [by apply Hsub | apply not_elem_of_nil].
Qed.

Lemma reachable_inv s : reachable s -> inv s.
Proof. intros (s0 & Hi%initial_inv & Hsteps). induction Hsteps; [done|]. by eauto using step_inv. Qed.

(** C18. No claim lands on an object that is being deleted. However the
    requests that claim and the requests that delete are interleaved, with
    objects stored and claims released meanwhile, every object with a claim
    is one the node holds, and none of them is marked by a delete. *)
Theorem claimed_objects_are_kept (s : State) (id : ObjectId) :
  reachable s -> id ∈ sh_claimed (shared s) -> id ∈ sh_present (shared s) /\ ~ id ∈ sh_deleting (shared s).
Proof. intros Hr%reachable_inv. apply Hr. Qed.

(** ** No deadlock *)

Lemma wanted_sorted ids : StronglySorted lt (wanted ids).
Proof.
  unfold wanted. apply StronglySorted_filter. generalize 0%nat stripes. intros a n. revert a.
  induction n as [|n IH]; intros a; cbn [seq]; constructor; [apply IH|]. apply Forall_forall. intros x Hx%elem_of_seq. lia.
Qed.

Lemma wanted_bound ids stripe : stripe ∈ wanted ids -> (stripe < stripes)%nat.
Proof. rewrite wanted_elem. tauto. Qed.

Lemma not_free ths stripe : is_free ths stripe = false -> exists i th, ths !! i = Some th /\ stripe ∈ holds_of th.
Proof.
  unfold is_free. intros Hf. apply not_true_iff_false in Hf. rewrite forallb_forall in Hf.
  destruct (decide (Exists (fun th => stripe ∈ holds_of th) ths)) as [He|Hne].
  - apply Exists_exists in He as (th & Hin & Hs). apply list_elem_of_lookup_1 in Hin as (i & Hi). by exists i, th.
  - exfalso. apply Hf. intros th Hin%list_elem_of_In. apply negb_true_iff, bool_decide_eq_false. intros Hs. apply Hne, Exists_exists. by exists th.
Qed.

(** When no thread can move, whoever holds a stripe waits for a higher one. *)
Lemma stuck_waits_higher ths sh stripe :
  inv (mkState ths sh) -> (forall i th, ths !! i = Some th -> advance (is_free ths) th sh = None) ->
  is_free ths stripe = false ->
  (stripe < stripes)%nat /\ exists higher, (stripe < higher)%nat /\ is_free ths higher = false.
Proof.
  intros Hinv Hstuck (i & th & Hi & Hs)%not_free. pose proof (Hstuck i th Hi) as Hst. pose proof (in_threads _ Hinv i th Hi) as Hok.
  destruct th as [|ids held [|k todo]|ids held [|? ?]|ids held|[|? ?]|id|id|id|id|id|id]; cbn [advance holds_of] in *; try done;
    try (by apply not_elem_of_nil in Hs).
  - cbn [thread_ok] in Hok. pose proof (wanted_sorted ids) as Hw. rewrite <- Hok in Hw.
    split; [apply (wanted_bound ids); rewrite <- Hok, elem_of_app; by left|].
    exists k. split; [|by destruct (is_free ths k)]. apply (StronglySorted_app_1_elem_of lt held (k :: todo) stripe k Hw); [done | by left].
  - destruct (negb _ && _); done.
  - destruct (bool_decide _); done.
Qed.

Lemma not_stuck ths sh stripe :
  inv (mkState ths sh) -> (forall i th, ths !! i = Some th -> advance (is_free ths) th sh = None) -> is_free ths stripe = true.
Proof.
  intros Hinv Hstuck. destruct (is_free ths stripe) eqn:E; [done|]. exfalso. revert E.
  remember (stripes - stripe)%nat as n eqn:Hn. revert stripe Hn.
  induction n as [n IH] using lt_wf_ind. intros stripe -> E.
  destruct (stuck_waits_higher ths sh stripe Hinv Hstuck E) as (Hb & higher & Hh & Eh).
  eapply (IH (stripes - higher)%nat); [lia | done | done].
Qed.

(** C35. Requests never deadlock. In every reachable state in which some
    request is under way, one of them can take its next step: waiting for a
    stripe is only ever waiting for a request that is itself able to move,
    since a batch takes its stripes in ascending order and a delete takes
    one. *)
Theorem requests_never_deadlock (s : State) (i : nat) (th : Thread) :
  reachable s -> threads s !! i = Some th -> th <> Idle ->
  exists j th' next sh', threads s !! j = Some th' /\
    advance (is_free (threads s)) th' (shared s) = Some (next, sh') /\
    step s (mkState (<[j := next]> (threads s)) sh').
Proof.
  intros Hr%reachable_inv Hi Hne. destruct s as [ths sh]. cbn [threads shared] in *.
  destruct (decide (Exists (fun th => advance (is_free ths) th sh <> None) ths)) as [He|Hno].
  - apply Exists_exists in He as (th' & Hin & Hadv). apply list_elem_of_lookup_1 in Hin as (j & Hj).
    destruct (advance (is_free ths) th' sh) as [[next sh']|] eqn:E; [|done]. exists j, th', next, sh'.
    split; [done|]. split; [done|]. by eapply step_advance.
  - exfalso. assert (forall j th', ths !! j = Some th' -> advance (is_free ths) th' sh = None) as Hstuck.
    { intros j th' Hj. destruct (advance (is_free ths) th' sh) as [p|] eqn:E; [|done]. exfalso. apply Hno, Exists_exists.
      exists th'. split; [by eapply list_elem_of_lookup_2 | by rewrite E]. }
    pose proof (fun stripe => not_stuck ths sh stripe Hr Hstuck) as Hfree. specialize (Hstuck i th Hi).
    destruct th as [|ids held [|k todo]|ids held [|? ?]|ids held|[|? ?]|id|id|id|id|id|id]; cbn [advance] in Hstuck; try done.
    + by rewrite Hfree in Hstuck.
    + by destruct (negb _ && _).
    + by rewrite Hfree in Hstuck.
    + by destruct (bool_decide _).
Qed.

(** ** Sample runs *)

Module LocksRun.
Definition a : ObjectId := array_fit 32 [x01].
Definition start : State := mkState [Idle; Idle] (mkShared [] [] [a]).

(** The first thread's request for a claim, step by step. *)
Definition moved (i : nat) (s : State) : State :=
  match threads s !! i with
  | Some th => match advance (is_free (threads s)) th (shared s) with Some (th', sh') => mkState (<[i := th']> (threads s)) sh' | None => s end
  | None => s
  end.
Definition claiming : State := mkState [RetainLock [a] [] [1%nat]; Idle] (mkShared [] [] [a]).
Definition claimed : State := moved 0 (moved 0 (moved 0 (moved 0 (moved 0 claiming)))).

Lemma moved_step i s : s = moved i s \/ step s (moved i s).
Proof.
  unfold moved. destruct s as [ths sh]. cbn [threads shared]. destruct (ths !! i) as [th|] eqn:Ei; [|by left].
  destruct (advance _ th sh) as [[th' sh']|] eqn:Ea; [|by left]. right. by eapply step_advance.
Qed.
Lemma moved_reachable i s : reachable s -> reachable (moved i s).
Proof.
  intros (s0 & Hi & Hs). destruct (moved_step i s) as [<-|Hstep]; [by exists s0|]. exists s0. split; [done|].
  by eapply rtc_r.
Qed.

Lemma claiming_reachable : reachable claiming.
Proof.
  exists start. split.
  - split; [|split; [done | by intros x ?%not_elem_of_nil]]. intros [|[|i]] th; cbn; intros [= <-]; done.
  - apply rtc_once. apply (step_start_retain 0 [a] [Idle; Idle]). done.
Qed.
Lemma claimed_reachable : reachable claimed.
Proof. unfold claimed. do 5 apply moved_reachable. apply claiming_reachable. Qed.
End LocksRun.

Lemma claimed_objects_are_kept_witness :
  LocksRun.a ∈ sh_claimed (shared LocksRun.claimed) /\ LocksRun.a ∈ sh_present (shared LocksRun.claimed).
Proof.
  assert (LocksRun.a ∈ sh_claimed (shared LocksRun.claimed)) as Ha by (vm_compute; by left). split; [exact Ha|].
  exact (proj1 (claimed_objects_are_kept LocksRun.claimed LocksRun.a LocksRun.claimed_reachable Ha)).
Defined.

Lemma requests_never_deadlock_witness :
  exists j next sh', step LocksRun.claiming (mkState (<[j := next]> (threads LocksRun.claiming)) sh').
Proof.
  destruct (requests_never_deadlock LocksRun.claiming 0 (RetainLock [LocksRun.a] [] [1%nat]) LocksRun.claiming_reachable)
    as (j & th' & next & sh' & _ & _ & Hs); [done | done |].
  exists j, next, sh'. exact Hs.
Defined.
