(* ===== verification/TrieSources.v ===== *)
(** * Snapshots, unions and peers as sides of a diff

    [SnapshotSource] and [UnionSource] ([src/src/ledger/trie_diff.hpp],
    [trie_union.hpp]) meet what [TrieDiff] and [TrieUnion] ask of a side or a
    part, so the theorems on diffs, unions and walks hold of the tries on
    disk. Each trie has a node cache of its own; a state of several tries is
    the list of their caches. *)

From S2P Require Import Prelude Codec Journal Trie ObjectTrie TrieShape TrieHash TrieOps TrieDiff TrieUnion TrieChange TrieDisk TrieWire TrieLedger TrieClaims.
Import ObjectTrie.

(** The caches of the tries in play. *)
Abbreviation Caches := (list NodeCache.t).

Section sources.
Context `{Sha256, AesGcm, Footprint}.

Definition no_cache : exn := LogicError "no such trie".
(** A method of the [i]-th trie's snapshots. *)
Definition on_cache {A} (i : nat) (m : ST NodeCache.t A) : ST Caches A := fun cs =>
  match cs !! i with
  | Some c => let '(r, c') := m c in (r, <[i := c']> cs)
  | None => (Throw no_cache, cs)
  end.

Definition snapshot_source (i : nat) (sn : Snapshot) : TrieSource Caches :=
  mkSource (mret (mkSummary (sn_size sn) (c_hash (sn_root sn))))
    (fun ps => on_cache i (sn_children sn ps))
    (fun ps => on_cache i (sn_records sn ps uint64_max)).

(** [.front()] of a one-prefix answer. *)
Definition front {A} (answers : list A) : ST Caches A :=
  match answers with a :: _ => mret a | [] => st_throw no_answer end.

Definition snapshot_part (i : nat) (sn : Snapshot) : Part Caches :=
  mkPart (mkSummary (sn_size sn) (c_hash (sn_root sn)))
    (fun id => on_cache i (sn_get sn id))
    (fun p => answers ← on_cache i (sn_children sn [p]); front answers)
    (fun p most => answers ← on_cache i (sn_records sn [p] most); front answers).

Definition snapshot_pager (i : nat) (sn : Snapshot) : Pager Caches :=
  fun after limit => on_cache i (sn_next sn after limit).

(** ** They keep their promises *)

Definition caches_ok (worlds : list World) (cs : Caches) : Prop := Forall2 cache_ok worlds cs.

Lemma on_cache_ok {A} worlds i world (m : ST NodeCache.t A) r cs :
  caches_ok worlds cs -> worlds !! i = Some world ->
  (forall c, cache_ok world c -> exists c', m c = (r, c') /\ cache_ok world c') ->
  exists cs', on_cache i m cs = (r, cs') /\ caches_ok worlds cs'.
Proof.
  intros Hcs Hw Hm. destruct (Forall2_lookup_l _ _ _ _ _ Hcs Hw) as (c & Hc & Hok).
  destruct (Hm c Hok) as (c' & E & Hc'). unfold on_cache. rewrite Hc, E. eexists. split; [reflexivity|].
  rewrite <- (list_insert_id worlds i world Hw). by apply Forall2_insert.
Qed.

Section one.
Context (worlds : list World) (i : nat) (world : World) (Hw : worlds !! i = Some world).
Context (records : list Rec) (sn : Snapshot) (Hsn : snapshot_ok world records sn).

Lemma snapshot_summary : mkSummary (sn_size sn) (c_hash (sn_root sn)) = canon 32 records.
Proof. destruct Hsn as (Hwf & _ & HR). exact (Repr_summary _ _ _ _ Hwf HR). Qed.

Lemma snapshot_pager_ok : pager_ok (caches_ok worlds) (snapshot_pager i sn) records.
Proof.
  split; [apply Hsn|]. intros after limit cs Hcs. eapply on_cache_ok; [done | done|].
  intros c Hc. by eapply sn_next_ok.
Qed.

Lemma snapshot_part_ok : part_promise (caches_ok worlds) (snapshot_part i sn) records.
Proof.
  assert (forall p most cs, caches_ok worlds cs -> (length p <= 32)%nat ->
    exists cs', pt_records (snapshot_part i sn) p most cs = (records_answer records most p, cs') /\ caches_ok worlds cs')
    as Hrec.
  { intros p most cs Hcs Hp. destruct (on_cache_ok worlds i world (sn_records sn [p] most)
      (r ← records_answer records most p; Ok [r]) cs Hcs Hw) as (cs' & E & Hcs').
    { intros c Hc. by eapply sn_records_ok. }
    exists cs'. split; [|done]. cbn [pt_records snapshot_part]. unfold mbind at 1, st_bind at 1. rewrite E.
    by destruct (records_answer records most p). }
  split.
  - apply Hsn.
  - apply snapshot_summary.
  - intros id cs Hcs. cbn [pt_get snapshot_part]. eapply on_cache_ok; [done | done|]. intros c Hc. by eapply sn_get_ok.
  - intros p cs Hcs Hp. destruct (on_cache_ok worlds i world (sn_children sn [p])
      (Ok [canon_children p records]) cs Hcs Hw) as (cs' & E & Hcs').
    { intros c Hc. eapply (sn_children_ok world records sn Hsn [p]); [done | by constructor]. }
    exists cs'. cbn [pt_children snapshot_part]. by rewrite (st_bind_ok _ _ _ _ _ E).
  - intros p most cs Hcs Hp Hle. destruct (Hrec p most cs Hcs Hp) as (cs' & E & Hcs'). exists cs'.
    split; [|done]. rewrite E. unfold records_answer.
    destruct (Z.ltb_spec leaf_max (Z.of_nat (length (covered p records))));
      destruct (Z.ltb_spec most (Z.of_nat (length (covered p records)))); cbn [andb]; try done. lia.
  - intros p most cs Hcs Hp Hgt. destruct (Hrec p most cs Hcs Hp) as (cs' & E & Hcs'). exists cs'.
    split; [|done]. rewrite E. unfold records_answer.
    rewrite (proj2 (Z.ltb_lt leaf_max _)), (proj2 (Z.ltb_lt most _)) by lia. done.
Qed.

Lemma snapshot_source_ok : source_ok (caches_ok worlds) (snapshot_source i sn) records.
Proof.
  split.
  - apply Hsn.
  - intros cs Hcs. exists cs. split; [|done]. cbn [src_root snapshot_source]. by rewrite snapshot_summary.
  - intros ps cs Hcs Hps. cbn [src_children snapshot_source]. eapply on_cache_ok; [done | done|].
    intros c Hc. by eapply sn_children_ok.
  - intros ps cs Hcs Hps. cbn [src_records snapshot_source]. eapply on_cache_ok; [done | done|].
    intros c Hc. apply (sn_records_all world); [done | done|]. eapply Forall_impl; [exact Hps|].
    intros p [Hp Hle]. split; [done|]. unfold uint64_max, leaf_max in *. lia.
Qed.
End one.
End sources.

(** ** Diffs, walks and unions *)

(** A side used while a log is kept beside its state. *)
Definition on_fst {S L A} (m : ST S A) : ST (S * L) A := fun s =>
  let '(r, s1) := m s.1 in (r, (s1, s.2)).
Definition logged {S L} (src : TrieSource S) : TrieSource (S * L) :=
  mkSource (on_fst (src_root src)) (fun ps => on_fst (src_children src ps)) (fun ps => on_fst (src_records src ps)).
Definition logged_pager {S L} (next : Pager S) : Pager (S * L) := fun after limit => on_fst (next after limit).
(** A visitor that remembers what it was shown. *)
Definition log {S D} (d : D) : ST (S * list D) unit := fun s => (Ok tt, (s.1, s.2 ++ [d])).

Section claims.
Context `{Sha256} {S : Type} (I : S -> Prop).

Lemma on_fst_ok {L A} (m : ST S A) r (x : L) s :
  (exists s', m s = (r, s') /\ I s') -> exists t', on_fst m (s, x) = (r, t') /\ I t'.1 /\ t'.2 = x.
Proof. intros (s' & E & HI). exists (s', x). unfold on_fst. cbn [fst snd]. by rewrite E. Qed.

Lemma source_logged_ok {L} src records (x : L) :
  source_ok I src records -> source_ok (fun t => I t.1 /\ t.2 = x) (logged src) records.
Proof.
  intros Hs. split.
  - apply Hs.
  - intros [s y] [HI E]. cbn [fst snd] in *. subst y. apply on_fst_ok. by apply Hs.
  - intros ps [s y] [HI E] Hps. cbn [fst snd] in *. subst y. apply on_fst_ok. by apply Hs.
  - intros ps [s y] [HI E] Hps. cbn [fst snd] in *. subst y. apply on_fst_ok. by apply Hs.
Qed.

Lemma logged_pager_ok {L} next records (x : L) :
  pager_ok I next records -> pager_ok (fun t => I t.1 /\ t.2 = x) (logged_pager next) records.
Proof.
  intros [Hs Hn]. split; [done|]. intros after limit [s y] [HI E]. cbn [fst snd] in *. subst y.
  apply on_fst_ok. by apply Hn.
Qed.

Lemma diff_logged left right l r s :
  source_ok I left l -> source_ok I right r -> apart l r -> I s ->
  exists cost s' ds, diff_tries (logged left) (logged right) log None (s, []) = (Ok cost, (s', ds)) /\
    I s' /\ ds ≡ₚ differences l r /\ cost_within l r 33 cost.
Proof.
  intros Hl Hr Ha HI.
  destruct (diff_tries_ok l r (so_wf _ _ _ Hl) (so_wf _ _ _ Hr) Ha (fun ds (t : S * list TrieDifference) => I t.1 /\ t.2 = ds)
    (logged left) (logged right) (fun ds => source_logged_ok left l ds Hl) (fun ds => source_logged_ok right r ds Hr)
    log None) with (s := (s, @nil TrieDifference)) as (cost & ds & [s' x] & E & [HI' <-] & Hp & Hc).
  - intros ds d [s0 x] [H0 <-]. by eexists.
  - done.
  - done.
  - exists cost, s', x. by split_and!.
Qed.

(** C19. A diff finds every difference and nothing else. Whatever two sides
    that answer as tries over [l] and [r] do behind their answers, the diff
    returns, and has visited exactly the ids whose records differ, each once,
    with both sides' values, unless two of the strings hashed collide. *)
Theorem diff_finds_differences (left right : TrieSource S) (l r : list Rec) (s : S) :
  source_ok I left l -> source_ok I right r -> apart l r -> I s ->
  exists cost s' ds, diff_tries (logged left) (logged right) log None (s, []) = (Ok cost, (s', ds)) /\
    I s' /\ NoDup (df_id <$> ds) /\
    forall d, d ∈ ds <->
      df_left d = alookup (df_id d) l /\ df_right d = alookup (df_id d) r /\ df_left d <> df_right d.
Proof.
  intros Hl Hr Ha HI. destruct (diff_logged left right l r s Hl Hr Ha HI) as (cost & s' & ds & E & HI' & Hp & _).
  pose proof (wf_sorted _ _ (so_wf _ _ _ Hl)) as Sl. pose proof (wf_sorted _ _ (so_wf _ _ _ Hr)) as Sr.
  exists cost, s', ds. split; [done|]. split; [done|]. split.
  - rewrite Hp. by apply sorted_keys_NoDup, differences_sorted.
  - intros d. rewrite Hp. by apply elem_of_differences.
Qed.

(** C34. What a diff asks follows the difference, not the size: at most 66
    rounds, at most 33 prefixes an id that differs, at most 256 records a
    prefix, and nothing at all between tries with the same records. *)
Theorem diff_cost_follows_difference (left right : TrieSource S) (l r : list Rec) (s : S) :
  source_ok I left l -> source_ok I right r -> apart l r -> I s ->
  exists cost s' ds, diff_tries (logged left) (logged right) log None (s, []) = (Ok cost, (s', ds)) /\
    cost_rounds cost <= 66 /\ cost_prefixes cost <= 33 * Z.of_nat (length ds) /\
    cost_records cost <= 256 * (33 * Z.of_nat (length ds)) /\
    (l = r -> cost = no_cost /\ ds = []).
Proof.
  intros Hl Hr Ha HI. destruct (diff_logged left right l r s Hl Hr Ha HI) as (cost & s' & ds & E & _ & Hp & [C1 C2 C3]).
  exists cost, s', ds. apply Permutation_length in Hp as Hlen. rewrite Hlen. unfold leaf_max in *.
  split; [done|]. split; [lia|]. split; [lia|]. split; [lia|]. intros <-.
  rewrite differences_same in Hp by apply Hl. apply Permutation_nil_r in Hp as ->. split; [|done].
  destruct (on_fst_ok (L := list TrieDifference) (src_root left) _ [] s (so_root _ _ _ Hl s HI)) as ([s1 x1] & E1 & HI1 & Ex1).
  cbn [fst snd] in *. subst x1.
  destruct (on_fst_ok (L := list TrieDifference) (src_root right) _ [] s1 (so_root _ _ _ Hr s1 HI1)) as (t2 & E2 & _).
  unfold diff_tries in E. cbn [src_root logged] in E. rewrite (st_bind_ok _ _ _ _ _ E1), (st_bind_ok _ _ _ _ _ E2) in E.
  rewrite bool_decide_eq_true_2 in E by done. by injection E.
Qed.

(** A walk in step shows exactly the records of [wanted] whose ids no
    held trie has, in id order, and returns as soon as it is given as many
    turns as any of the tries has records. *)
Theorem records_not_held_complete (turns : nat) (wanted : Pager S) (want : list Rec)
    (helds : list (Pager S)) (have : list (list Rec)) (s : S) :
  pager_ok I wanted want -> Forall2 (pager_ok I) helds have ->
  (length want <= turns)%nat -> Forall (fun h : list Rec => (length h <= turns)%nat) have -> I s ->
  exists s', records_not_held turns (logged_pager wanted) (logged_pager <$> helds) log None (s, []) =
    (Ok tt, (s', base.filter (fun r : Rec => ~ Exists (fun h => r.1 ∈ h.*1) have) want)) /\ I s'.
Proof.
  intros Hw Hh Ht Hts HI.
  destruct (records_not_held_ok (fun vs (t : S * list Rec) => I t.1 /\ t.2 = vs) (logged_pager wanted) want
    (logged_pager <$> helds) have (fun vs => logged_pager_ok wanted want vs Hw)) with
    (visit := log (S := S) (D := Rec)) (pause := @None (ST (S * list Rec) unit)) (turns := turns) (s := (s, @nil Rec))
    as ([s' x] & E & HI' & Ex).
  - rewrite Forall2_fmap_l. eapply Forall2_impl; [exact Hh|]. intros p h Hp vs. by apply logged_pager_ok.
  - intros vs r [s0 x] [H0 <-]. by eexists.
  - done.
  - done.
  - done.
  - done.
  - cbn [snd] in Ex. subst x. exists s'. split; [|done]. rewrite E. reflexivity.
Qed.

(** C20. A union of tries is a trie over all their records, the first part
    that holds an id giving its value: made with or without an earlier union
    as a hint, it always returns, its root is the one a single trie over
    those records has, it answers every question of a diff as that trie
    would, and [get] agrees. *)
Theorem union_reads_as_one (parts : list (Part S)) (recs olds : list (list Rec))
    (hint : option (TrieUnion S)) (s : S) :
  Forall2 (part_promise I) parts recs -> Forall (wf_recs 32) olds ->
  (forall a b, a ∈ recs ++ olds -> b ∈ recs ++ olds -> apart a b) ->
  records_total recs < 2 ^ 64 -> Z.of_nat (length parts) <= leaf_max ->
  (forall h, hint = Some h -> unode_ok 32 olds (un_root h)) -> I s ->
  exists u s', union_new parts hint s = (Ok u, s') /\ I s' /\
    union_root u = canon 32 (unite recs) /\ source_ok I (union_source u) (unite recs) /\
    (forall id, alookup id (unite recs) = first_value id recs) /\
    (forall id s, I s -> exists s', union_get u id s = (Ok (first_value id recs), s') /\ I s') /\
    unode_ok 32 recs (un_root u).
Proof.
  intros Hp Hold Ha Ht Hf Hh HI.
  destruct (union_new_ok I parts recs Hp Ht Hf olds Hold Ha hint s HI Hh) as (u & s' & E & HI' & Hu).
  pose proof (recs_sorted I parts recs Hp) as Hs.
  exists u, s'. split; [done|]. split; [done|]. split; [by eapply union_root_ok|].
  split; [by eapply union_source_ok|]. split; [intros id; by apply alookup_unite|]. split.
  - intros id s0 H0. rewrite <- alookup_unite by done. by eapply union_get_ok.
  - apply Hu.
Qed.
End claims.

(** A question to a peer's trie reaches it unchanged: every question that
    carries no more prefixes than its kind allows encodes, and decodes to
    itself. *)
Theorem trie_question_roundtrip (q : TrieQuestion) :
  question_ok q -> exists bs, encode_trie_question q = Ok bs /\ decode_trie_question bs = Ok q.
Proof. intros Hq. exists (question_bytes q). split; [by apply encode_question_ok | by apply decode_question_ok]. Qed.

(** The answers come back as they were given: a root, the 256 slots of up
    to 64 prefixes of which only the non-empty travel, and a leaf's worth of
    records for up to 512 prefixes. *)
Theorem trie_answers_roundtrip (root : Summary) (children : list (list Summary)) (records : list (list Rec)) :
  0 <= sm_count root < 2 ^ 64 ->
  Z.of_nat (length children) <= trie_question_max ->
  Forall (fun l => length l = 256%nat /\ Forall slot_fits l) children ->
  Z.of_nat (length records) <= trie_records_max -> Forall answer_fits records ->
  (exists bs, encode_trie_root root = Ok bs /\ decode_trie_root bs = Ok root) /\
  (exists bs, encode_trie_children children = Ok bs /\ decode_trie_children bs = Ok children) /\
  (exists bs, encode_trie_records records = Ok bs /\ decode_trie_records bs = Ok records).
Proof.
  intros. split; [by apply root_roundtrip|]. split; [by apply children_roundtrip | by apply records_roundtrip].
Qed.

(** A peer's question for more than it may ask, or for what is below a
    whole id, is refused by the decoder whatever else it says; so is one that
    is encoded here with too many prefixes, before it is sent. *)
Theorem trie_question_refused (kind : TrieQuestionKind) (at_ : Hash256) (prefixes : list Prefix) :
  (trie_question_limit kind < Z.of_nat (length prefixes) ->
   encode_trie_question (mkQuestion kind HeldData at_ prefixes) =
     Throw (InvalidArgument "too many prefixes in one trie question")) /\
  (forall n rest, trie_question_limit kind < n < 2 ^ 32 ->
   decode_trie_question (be_bytes 1 (kind_code kind) ++ be_bytes 1 0 ++ abytes at_ ++ be_bytes 4 n ++ rest) =
     Throw (DecodeError "too many prefixes in one trie question")) /\
  (forall p rest n, length p = 32%nat -> 0 < n <= trie_question_max ->
   decode_trie_question (be_bytes 1 (kind_code KindChildren) ++ be_bytes 1 0 ++ abytes at_ ++ be_bytes 4 n ++
       prefix_bytes p ++ rest) = Throw (DecodeError "a whole id has no children")).
Proof.
  split; [|split].
  - intros Hn. unfold encode_trie_question. cbn [q_kind q_prefixes]. by rewrite (proj2 (Z.ltb_lt _ _) Hn).
  - intros n rest Hn. apply throws_run. unfold decode_trie_question.
    eapply throws_bind; [apply reads_u8; destruct kind; simpl; lia|].
    rewrite (proj2 (Z.ltb_ge _ _)) by (by destruct kind). rewrite kind_of_code_ok.
    eapply throws_bind; [apply reads_u8; simpl; lia|]. cbn [name_code Z.eqb negb].
    eapply throws_bind; [apply reads_fixed|]. apply throws_first. unfold read_count.
    pose proof (limit_u32 kind). assert (0 <= trie_question_limit kind) by (by destruct kind).
    eapply throws_bind; [apply reads_u32; lia|]. rewrite (proj2 (Z.ltb_lt _ n)) by lia. apply throws_throw.
  - intros p rest n Hp Hn. apply throws_run. unfold decode_trie_question.
    eapply throws_bind; [apply reads_u8; simpl; lia|]. cbn [kind_code Z.ltb Z.compare].
    change (kind_of_code 1) with KindChildren.
    eapply throws_bind; [apply reads_u8; simpl; lia|]. cbn [name_code Z.eqb negb].
    eapply throws_bind; [apply reads_fixed|].
    eapply throws_bind; [apply reads_count; [unfold trie_question_limit; lia | apply limit_u32]|].
    apply throws_first. destruct (Z.to_nat n) as [|m] eqn:En; [lia|]. cbn [Reader.times].
    apply throws_first. unfold read_asked. eapply throws_bind; [apply reads_prefix; lia|].
    rewrite bool_decide_eq_true_2, Hp by done. apply throws_throw.
Qed.

(** ** Two small tries on disk *)

(** Whether the strings two small tries hash below any prefix collide. *)
Definition apart_b `{Sha256} (l r : list Rec) : bool :=
  forallb (fun id => forallb (fun n =>
      let x := leaf_bytes (covered (take n (abytes id)) l) in
      let y := leaf_bytes (covered (take n (abytes id)) r) in
      bool_decide (x = y) || negb (bool_decide (sha256 x = sha256 y)))
    (seq 0 33)) l.*1.

Lemma hashed_small `{Sha256} k l x :
  Z.of_nat (length l) <= leaf_max -> x ∈ hashed k l -> x = leaf_bytes l /\ l <> [].
Proof.
  intros Hl. destruct l as [|r l]; [destruct k; by intros ?%not_elem_of_nil|].
  rewrite hashed_leaf by done. by intros ->%list_elem_of_singleton.
Qed.

Lemma apart_small `{Sha256} l r :
  Z.of_nat (length l) <= leaf_max -> Z.of_nat (length r) <= leaf_max -> apart_b l r = true -> apart l r.
Proof.
  intros Hl Hr Hb p Hp.
  assert (forall z : list Rec, Z.of_nat (length z) <= leaf_max -> Z.of_nat (length (covered p z)) <= leaf_max) as Hc.
  { intros z Hz. pose proof (length_filter (fun x : Rec => prefix_covers p x.1 = true) z). unfold covered. lia. }
  assert (forall x y : Bytes, x ∈ hashed (32 - length p) (covered p l) -> y ∈ hashed (32 - length p) (covered p r) ->
    sha256 x = sha256 y -> x = y) as Hxy.
  { intros x y [-> Hne]%hashed_small [-> _]%hashed_small; [|by apply Hc..]. intros E.
    destruct (covered p l) as [|e t] eqn:Ecov; [done|].
    assert (e ∈ covered p l) as [Hcov He]%list_elem_of_filter by (rewrite Ecov; by left).
    apply prefix_covers_spec in Hcov. unfold apart_b in Hb. rewrite forallb_forall in Hb.
    assert (In e.1 l.*1) as Hin by (apply list_elem_of_In, list_elem_of_fmap_2; done).
    specialize (Hb _ Hin). rewrite forallb_forall in Hb. specialize (Hb (length p) ltac:(apply in_seq; lia)).
    cbv zeta in Hb. rewrite Hcov, Ecov in Hb. apply orb_true_iff in Hb as [Hb|Hb].
    - by apply bool_decide_eq_true in Hb.
    - apply negb_true_iff, bool_decide_eq_false in Hb. done. }
  intros x y [Hx|Hx]%elem_of_app [Hy|Hy]%elem_of_app E.
  - apply hashed_small in Hx as [-> _], Hy as [-> _]; [done | by apply Hc..].
  - by apply Hxy.
  - symmetry. by apply Hxy.
  - apply hashed_small in Hx as [-> _], Hy as [-> _]; [done | by apply Hc..].
Qed.

Module Two.
Import Run.

(** Another node's trie: one record the same, one different, one more. *)
Definition batch2 : list Change := [set1 x05 x02; set1 x03 x09; set1 x08 x01].
Definition other : t := (apply batch2 empty).2.
Definition other_parts : list (list Change) := [unique_changes batch2].

Lemma other_frames : frames_of (unique_changes batch2) = [unique_changes batch2].
Proof. by vm_compute. Qed.

Lemma other_fits : apply_fits [] [] empty (unique_changes batch2).
Proof.
  apply fits_small; rewrite ?other_frames; [exact (proj1 (unique_changes_ok _)) | | | by vm_compute | by vm_compute].
  - by vm_compute; repeat constructor.
  - constructor; [by vm_compute | constructor].
Qed.

Lemma other_applied : ledger (new_world Sample.key opts) [] other_parts other.
Proof.
  destruct (apply_journaled (new_world Sample.key opts) [] [] empty batch2) as (s' & Ha & Hl & Hn & Hg);
    [apply empty_ledger | apply other_fits | done | by vm_compute | rewrite other_frames; by vm_compute |].
  rewrite other_frames in Hl. unfold other. by rewrite Ha.
Qed.

(** Their snapshots and caches. *)
Definition snap_of (s : t) : Snapshot :=
  match (snapshot s).1 with Ok sn => sn | Throw _ => mkSnapshot no_child 0 (SealedJournal.reader (nodes s)) end.
Definition cache_of (s : t) : NodeCache.t := co_cache (core (snapshot s).2).
Definition world : World := new_world Sample.key opts.
Definition worlds : list World := [world; world].
Definition caches : Caches := [cache_of after; cache_of other].
Definition records1 : list Rec := [(id1 x03, [x07]); (id1 x05, [x02])].
Definition records2 : list Rec := [(id1 x03, [x09]); (id1 x05, [x02]); (id1 x08, [x01])].

Lemma snap_ok records s :
  mem_ok world records s -> snapshot_ok world records (snap_of s) /\ cache_ok world (cache_of s).
Proof.
  intros Hm. destruct (snapshot_taken world records s Hm) as (sn & s' & E & Hsn & Hm' & _).
  unfold snap_of, cache_of. rewrite E. split; [done|]. destruct Hm' as [(_ & _ & _ & _ & Hc) _ _ _ _ _ _]. exact Hc.
Qed.

Lemma snap1_ok : snapshot_ok world records1 (snap_of after) /\ cache_ok world (cache_of after).
Proof.
  apply snap_ok. destruct after_applied as (_ & (Hm & _) & _).
  replace records1 with (merge_all [] after_parts) by (vm_compute; reflexivity). exact Hm.
Qed.

Lemma snap2_ok : snapshot_ok world records2 (snap_of other) /\ cache_ok world (cache_of other).
Proof.
  apply snap_ok. destruct other_applied as (Hm & _).
  replace records2 with (merge_all [] other_parts) by (vm_compute; reflexivity). exact Hm.
Qed.

Lemma caches_fine : caches_ok worlds caches.
Proof. constructor; [apply snap1_ok|]. constructor; [apply snap2_ok | constructor]. Qed.

Definition side1 : TrieSource Caches := snapshot_source 0 (snap_of after).
Definition side2 : TrieSource Caches := snapshot_source 1 (snap_of other).

Lemma side1_ok : source_ok (caches_ok worlds) side1 records1.
Proof. by apply (snapshot_source_ok worlds 0 world); [|apply snap1_ok]. Qed.
Lemma side2_ok : source_ok (caches_ok worlds) side2 records2.
Proof. by apply (snapshot_source_ok worlds 1 world); [|apply snap2_ok]. Qed.

Lemma apart12 : apart records1 records2.
Proof. apply apart_small; by vm_compute. Qed.
End Two.

Section witnesses.
Import Run Two.

Lemma diff_finds_differences_witness :
  exists cost s' ds, diff_tries (logged side1) (logged side2) log None (caches, []) = (Ok cost, (s', ds)) /\
    caches_ok worlds s' /\ NoDup (df_id <$> ds) /\
    forall d, d ∈ ds <->
      df_left d = alookup (df_id d) records1 /\ df_right d = alookup (df_id d) records2 /\ df_left d <> df_right d.
Proof.
  apply (diff_finds_differences (caches_ok worlds) side1 side2 records1 records2 caches);
    [apply side1_ok | apply side2_ok | apply apart12 | apply caches_fine].
Defined.

Lemma diff_cost_follows_difference_witness :
  exists cost s' ds, diff_tries (logged side1) (logged side2) log None (caches, []) = (Ok cost, (s', ds)) /\
    cost_rounds cost <= 66 /\ cost_prefixes cost <= 33 * Z.of_nat (length ds) /\
    cost_records cost <= 256 * (33 * Z.of_nat (length ds)) /\
    (records1 = records2 -> cost = no_cost /\ ds = []).
Proof.
  apply (diff_cost_follows_difference (caches_ok worlds) side1 side2 records1 records2 caches);
    [apply side1_ok | apply side2_ok | apply apart12 | apply caches_fine].
Defined.

Lemma records_not_held_complete_witness :
  exists s', records_not_held 10 (logged_pager (snapshot_pager 1 (snap_of other)))
      (logged_pager <$> [snapshot_pager 0 (snap_of after)]) log None (caches, []) =
    (Ok tt, (s', base.filter (fun r : Rec => ~ Exists (fun h => r.1 ∈ h.*1) [records1]) records2)) /\
    caches_ok worlds s'.
Proof.
  apply (records_not_held_complete (caches_ok worlds) 10 (snapshot_pager 1 (snap_of other)) records2
    [snapshot_pager 0 (snap_of after)] [records1] caches).
  - by apply (snapshot_pager_ok worlds 1 world); [|apply snap2_ok].
  - constructor; [|constructor]. by apply (snapshot_pager_ok worlds 0 world); [|apply snap1_ok].
  - simpl. lia.
  - constructor; [simpl; lia | constructor].
  - apply caches_fine.
Defined.

Lemma union_reads_as_one_witness :
  exists u s', union_new [snapshot_part 0 (snap_of after); snapshot_part 1 (snap_of other)] None caches = (Ok u, s') /\
    caches_ok worlds s' /\
    union_root u = canon 32 (unite [records1; records2]) /\
    source_ok (caches_ok worlds) (union_source u) (unite [records1; records2]) /\
    (forall id, alookup id (unite [records1; records2]) = first_value id [records1; records2]) /\
    (forall id s, caches_ok worlds s ->
       exists s', union_get u id s = (Ok (first_value id [records1; records2]), s') /\ caches_ok worlds s') /\
    unode_ok 32 [records1; records2] (un_root u).
Proof.
  apply (union_reads_as_one (caches_ok worlds) [snapshot_part 0 (snap_of after); snapshot_part 1 (snap_of other)]
    [records1; records2] [] None caches).
  - constructor; [by apply (snapshot_part_ok worlds 0 world); [|apply snap1_ok]|].
    constructor; [by apply (snapshot_part_ok worlds 1 world); [|apply snap2_ok] | constructor].
  - constructor.
  - intros a b Ha Hb. apply apart_small;
      repeat (apply elem_of_cons in Ha as [->|Ha]; [|]); try (by apply not_elem_of_nil in Ha);
      repeat (apply elem_of_cons in Hb as [->|Hb]; [|]); try (by apply not_elem_of_nil in Hb); by vm_compute.
  - by vm_compute.
  - by vm_compute.
  - done.
  - apply caches_fine.
Defined.

Definition asked : TrieQuestion := mkQuestion KindChildren HeldData (array_zero 32) [[]; [x05]].

Lemma trie_question_roundtrip_witness :
  exists bs, encode_trie_question asked = Ok bs /\ decode_trie_question bs = Ok asked.
Proof.
  apply (trie_question_roundtrip asked). split; [by vm_compute | |].
  - by repeat constructor; simpl; lia.
  - intros _. repeat constructor; simpl; lia.
Defined.

Lemma trie_answers_roundtrip_witness :
  (exists bs, encode_trie_root (mkSummary 3 (array_zero 32)) = Ok bs /\ decode_trie_root bs = Ok (mkSummary 3 (array_zero 32))) /\
  (exists bs, encode_trie_children [mkSummary 3 (array_zero 32) :: replicate 255 no_summary] = Ok bs /\
     decode_trie_children bs = Ok [mkSummary 3 (array_zero 32) :: replicate 255 no_summary]) /\
  (exists bs, encode_trie_records [records1; []] = Ok bs /\ decode_trie_records bs = Ok [records1; []]).
Proof.
  apply (trie_answers_roundtrip (mkSummary 3 (array_zero 32))
    [mkSummary 3 (array_zero 32) :: replicate 255 no_summary] [records1; []]).
  - by vm_compute.
  - by vm_compute.
  - constructor; [|constructor]. split; [done|]. constructor; [by right; vm_compute|].
    apply Forall_replicate. by left.
  - by vm_compute.
  - repeat constructor; by vm_compute.
Defined.
End witnesses.
